(* ===== verification/_CoqProject ===== *)
-Q . S2P
Prelude.v
Intx.v
Evmc.v
GasStorageCost.v
EvmInstance.v
Frame.v
HandlerUtil.v
HandlersArith.v
HandlersEnv.v
HandlersCall.v
BytecodeCache.v
SppGraph.v
Spp.v
Interpreter.v
Dispatch.v
WellFormed.v
Concrete.v
HandlerSafety.v
RefInterp.v
ChunkSound.v
CgotoEquiv.v
CacheCorrect.v
SppSets.v
ChunkTable.v
InterpretTheorems.v
CacheTheorems.v
View.v
AluSpecs.v
MemorySpecs.v
StaticMode.v
CallSpecs.v
InstanceSpecs.v
EvmImported.v
EvmImportedSim.v
EvmImportedOps.v
EvmImportedEnv.v
EvmImportedCalls.v
EvmImportedCallOps.v
EvmImportedCreate.v
EvmImportedRun.v
EvmImportedTheorems.v
EvmcVm.v
EvmcVmSafety.v
EvmcVmTheorems.v
SppTheorems.v
Rlp.v
Leb128.v
Leb128Correct.v
Unicode.v
FunctionLoader.v
WasmValid.v
FunctionLoaderInv.v
FunctionLoaderSteps.v
FunctionLoaderTheorems.v
ConstStringPool.v
ConstStringPoolInv.v
ConstStringPoolCorrect.v
ModuleLoader.v
ModuleLoaderInv.v
ConstStringPoolTheorems.v
ModuleLoaderSections.v
ModuleLoaderCode.v
ModuleLoaderTheorems.v
WasmNum.v
WasmInterp.v
WasmTyped.v
WasmBlocks.v
WasmSafeInv.v
WasmSafeSimple.v
WasmSafeControl.v
WasmSafeCall.v
WasmSafeStep.v
LoaderTyped.v
Instantiator.v
InstantiatorSafe.v
InstantiatorRun.v
InstantiatorTheorems.v
WasmNumSpecs.v
LoaderTypedTheorems.v
