(* ===== verification/Prelude.v ===== *)
(** * A verification of DTVM

    DTVM runs smart contracts.  This development models its EVM side, from the
    EVMC entry point down to the opcode handlers, and its WebAssembly side in
    interpreter mode, from the bytes of a module over its validation and
    instantiation to the calls of its functions, and proves what these parts
    promise.  Paths are relative to [src/src].

    ** The program and the files that model it

    A host calls the EVMC machine ([vm/dt_evmc_vm.cpp]).  The machine finds or
    loads the module of the code, takes an instance and an interpreter context
    for the call depth, and runs the interpreter ([evm/interpreter.cpp]) on
    the bytecode cache of the module ([evm/evm_cache.cpp]).  The interpreter
    calls the opcode handlers ([evm/opcode_handlers.cpp]), which work on its
    frames and ask the host for accounts, storage and nested calls; those come
    back to the machine.

    - [Prelude]: machine integers, the outcome monad [body] (normal result,
      early exit, exception, undefined behaviour), its verification rules.
    - [Intx], [Evmc]: the third-party packages [intx] and [evmc], as type
      classes with laws ([IntxLaws], [EvmcLaws], [HostLaws]) and concrete
      instances that satisfy them.
    - [GasStorageCost]: [evm/gas_storage_cost.{h,cpp}], constants of
      [evm/evm.h].
    - [EvmInstance]: [runtime/evm_instance.{h,cpp}]: gas, messages, the
      linear memory of an instance.
    - [Frame]: [EVMFrame] and [InterpreterExecContext] of
      [evm/interpreter.{h,cpp}]: an operand stack of fixed size with a stack
      pointer, memory, message; frames are reused.
    - [HandlerUtil], [HandlersArith], [HandlersEnv],
      [HandlersCall]: [evm/opcode_handlers.{h,cpp}], one definition per
      handler.
    - [BytecodeCache], [SppGraph], [Spp]: [evm/evm_cache.{h,cpp}]: jump
      destinations, PUSH values, gas blocks, and the graph passes of the
      metering.
    - [Interpreter]: [BaseInterpreter::interpret] with its two chunk runners
      and the single-step switch.
    - [EvmImported]: [compiler/evm_frontend/evm_imported.cpp], the functions
      compiled code calls for everything that needs the host, memory growth
      or a message, and what the instructions [evm_mir_compiler.cpp] emits
      around such a call compute.  The state is the instance, its messages
      and caches; a trap ends the body with an error code.  [EvmImportedRun]
      runs the instructions that are compiled to such a call: SDIV, SMOD,
      MULMOD, CLZ, ORIGIN, GASPRICE, the block queries, hashes, account
      queries, copies, storage and logs, not those compiled inline (MUL, EXP,
      ADDRESS, CALLER, CALLVALUE, GAS and the sizes).
    - [EvmcVm]: the machine: module cache, instance and context reuse,
      [execute], destruction, with what it uses of [runtime/runtime.cpp],
      [runtime/evm_module.{h,cpp}], [action/evm_module_loader.h],
      [runtime/codeholder.cpp].
    - [Rlp]: [utils/rlp_encoding.cpp] and [computeCreateAddress] of
      [utils/evm.cpp].
    - [Leb128]: [utils/wasm.h] and the readers of [action/loader_common.h].
    - [FunctionLoader]: [action/function_loader.{h,cpp}], the validator of
      WebAssembly function bodies.
    - [ModuleLoader]: [action/module_loader.{h,cpp}], the loader of modules,
      section by section; it calls the function loader on each body.  Its
      names are symbols of a pool, an interface (class [SymbolPool]) with laws
      ([SymbolPoolLaws] in [ModuleLoaderInv]).
    - [ConstStringPool]: [common/const_string_pool.{h,cpp}], the symbol pool of
      a runtime, which satisfies the laws.
    - [Unicode]: [utils/unicode.cpp].
    - [WasmNum]: the arithmetic of the WebAssembly interpreter
      ([BinaryOpHelper] and the templates of [action/interpreter.cpp]); a
      floating-point number is its bits, computed with by the specification of
      IEEE 754 in the standard library ([SpecFloat]).
    - [WasmInterp]: [action/interpreter.{h,cpp}]: operands, locals, frames and
      blocks in one stack of 32-bit cells, the cached scan for the ends of
      blocks, every instruction, calls of bodies and of host functions; what it
      uses of [runtime/instance.{h,cpp}]; [callWasmFunctionInInterpMode].
      Failed assertions and accesses outside an area are undefined behaviour
      ([Undef]), which is proved absent; signed overflow, shifts C++ does not
      define and [memcpy] on overlapping ranges, which do occur, stop the run
      with the markers [UB_SignedOverflow], [UB_Shift] and [UB_Overlap].
    - [Instantiator]: [action/instantiator.cpp], the areas of a new instance
      ([runtime/instance.cpp]) and [Runtime::callWasmFunction].

    ** What is proved

    - The interpreter ([Dispatch], [WellFormed], [HandlerSafety],
      [RefInterp], [ChunkSound], [CgotoEquiv], [InterpretTheorems]): every handler keeps a frame
      well-formed and has no undefined behaviour; charging gas by chunks is
      not observable; both chunk runners compute the result of the
      instruction-by-instruction semantics, for every code, message and host,
      and always return.
    - The cache ([CacheCorrect], [SppSets], [ChunkTable], [CacheTheorems], [SppTheorems]): what
      its tables hold; the graph passes end; reachability and, where nothing
      jumps to the entry, dominance are exact.
    - The instructions ([View], [AluSpecs], [MemorySpecs], [CallSpecs],
      [StaticMode]): arithmetic, memory, copies, storage and call gas against
      the Yellow Paper and the EIPs; a static frame is read-only.
    - Instances and frames ([InstanceSpecs]): the instance's memory refines
      the frame's; nested messages restore the caller; reused frames are
      fresh; and a defect in handing a stack over to the interpreter.
    - Compiled code ([EvmImportedSim], [EvmImportedOps], [EvmImportedEnv],
      [EvmImportedCalls], [EvmImportedCallOps], [EvmImportedCreate],
      [EvmImportedRun],
      [EvmImportedTheorems]): a relation between the state of the runtime and
      an interpreter's frame, kept by every call of the runtime; where one
      side traps the other stops with the corresponding status (for logs,
      calls and creations a size over 64 bits in a static frame is out of gas
      for compiled code and a violation of static mode for the interpreter).  Caches cannot be
      observed; calls and creations agree where no account is delegated and the
      message of the frame carries no flags but the static one, and creations
      but for their return data.
    - The machine ([EvmcVmSafety], [EvmcVmTheorems]): in every state reachable
      by nested calls, active calls have their own instance and context and a
      loaded module, which nested calls do not touch; entering and leaving is
      defined; nothing is leaked; [execute] returns the interpreter's result;
      and two defects.  The condition on calls ([request]): where the cache
      has a module for the address and revision, the code is that module's, or
      differs in the bytes the machine compares and no active call runs it
      (the machine unloads such a module without asking).
    - Formats ([Rlp], [Leb128Correct]): encoding is undone by a decoder written
      from the definition; the readers accept exactly the numbers of a type.
    - Validation ([WasmValid], [FunctionLoaderInv], [FunctionLoaderSteps],
      [FunctionLoaderTheorems]): the loader gives a
      verdict on every body; what it accepts is valid by the algorithm of the
      specification as long as no operand of unknown type is on its stack;
      and an invalid body it accepts.
    - Modules ([ModuleLoaderInv], [ModuleLoaderSections], [ModuleLoaderCode],
      [ModuleLoaderTheorems]): the loader gives a verdict on every file; a
      module it accepts is well-formed, and its bodies are valid under the
      condition above.  [Unicode] accepts exactly UTF-8.
    - Typed bodies ([WasmTyped], [LoaderTyped],
      [LoaderTypedTheorems]): a body the function loader accepts is, as it
      leaves it in the file, a typed sequence of instructions of the grammar;
      [WasmBlocks]: the interpreter's scan finds the ends of its blocks.
    - The WebAssembly interpreter ([WasmSafeInv], [WasmSafeSimple],
      [WasmSafeControl], [WasmSafeCall], [WasmSafeStep]): an invariant types the operand stack, blocks and frames
      of a running program; from it every instruction is defined and keeps it.
      [WasmNumSpecs]: the integer instructions compute the operators of the
      specification, and exactly where C++ leaves theirs undefined.
    - From bytes to calls ([InstantiatorSafe], [InstantiatorRun],
      [InstantiatorTheorems]): a loaded module is instantiated without
      undefined behaviour, and calls after that stay within their areas and
      have none but the three marked operations, under conditions on the
      module (no operand of unknown type in a body, labels of branch tables in
      at most two bytes, initial values that are literals, memories and entry
      frames that fit, no memory with maximum 0) and on its surroundings (host
      modules have a function, host functions keep the instance well formed,
      the symbol pool has room).
    - Symbols ([ConstStringPoolInv], [ConstStringPoolCorrect],
      [ConstStringPoolTheorems]): chains, free list and recycled slots stay
      disjoint and complete under every operation, so that symbols stand for
      strings (of less than 2^32 bytes: the length is stored in 32 bits); and
      slots that are lost.

    ** Fuel

    A loop whose end is not structural takes fuel, and running out is [Undef]
    or [None]; a theorem excludes it in each case.  The interpreter takes
    gas * (code size + 1) + (code size - pc) turns at most, since a turn
    charges gas or moves forward; a work list over [n] blocks takes [n + 1]
    turns, the depth-first passes [2 n + 1], the dominator iteration one turn
    per bit of its sets and one more; an eviction at most the length of the
    usage list; the length of an RLP string has at most eight bytes; the
    function loader takes a turn per byte of the body, a branch table one
    more than the bytes left; the module loader a turn per byte of the file or
    section, a loop over items one more than the bytes left; a walk along a
    chain of symbols a turn per slot of the pool; the scan for the end of a
    block a turn per byte of the body.  A WebAssembly program may run for ever:
    its loop takes a turn per instruction, and a run that is out of fuel has
    executed as many instructions.

    ** Not modelled

    The compilers ([compiler], [singlepass]) and the code they emit other
    than its calls of the runtime, the return from compiled code to the
    interpreter ([evmHandleFallback]) and the path of the machine that runs
    compiled code;
    what C++ leaves undefined about alignment and aliasing, and the overflow
    of the refund counter, which wraps around in the model;
    checked arithmetic and DWASM limits of the WebAssembly interpreter,
    mapped memories and WASI contexts of instances; memory allocation and
    object lifetimes beyond modules, instances and contexts; threads, signals, traps and system interfaces
    ([common], [platform], [entrypoint], [host], [wni]); logging, statistics
    and command-line tools.  Third-party code (hash functions, [intx], [evmc])
    is a parameter. *)

From stdpp Require Export base list numbers option.
From Stdlib Require Export ZArith Lia.

#[global] Open Scope Z_scope.

(** * Machine-width integers

    A C++ integer of width [w] is an element of [Z]; every conversion the
    source performs is written with one of these wrap-around functions. *)

Definition wrap (w z : Z) : Z := z mod 2 ^ w.
Definition swrap (w z : Z) : Z := (z + 2 ^ (w - 1)) mod 2 ^ w - 2 ^ (w - 1).

Abbreviation u8 := (wrap 8).
Abbreviation u16 := (wrap 16).
Abbreviation u32 := (wrap 32).
Abbreviation u64 := (wrap 64).
Abbreviation i16 := (swrap 16).
Abbreviation i64 := (swrap 64).

Definition UINT64_MAX : Z := 2 ^ 64 - 1.
Definition INT64_MAX : Z := 2 ^ 63 - 1.

(** Ranges of the integer types. *)
Definition in_u (w z : Z) : Prop := 0 <= z < 2 ^ w.
Abbreviation is_byte := (in_u 8).
Abbreviation is_u64 := (in_u 64).
Abbreviation is_u256 := (in_u 256).

(** A C++ [bool] converted to an integer. *)
Definition b2z (b : bool) : Z := if b then 1 else 0.

(** * Control flow of a C++ function body

    [out E S A] is what a statement of a function body does on a state:
    falls through with a value, leaves the enclosing function ([return]),
    throws, or has no defined behaviour (an out-of-range access). *)

Inductive out (E S A : Type) : Type :=
| Ret (a : A) (s : S)
| Exit (s : S)
| Throw (e : E) (s : S)
| Undef.
Arguments Ret {E S A} a s.
Arguments Exit {E S A} s.
Arguments Throw {E S A} e s.
Arguments Undef {E S A}.

Section Body.
Context {E S : Type}.

Definition body (A : Type) : Type := S -> out E S A.

Definition ret {A} (a : A) : body A := fun s => Ret a s.

Definition bind {A B} (m : body A) (k : A -> body B) : body B := fun s =>
  match m s with
  | Ret a s' => k a s'
  | Exit s' => Exit s'
  | Throw e s' => Throw e s'
  | Undef => Undef
  end.

(** [return;] of the enclosing function *)
Definition exit {A} : body A := fun s => Exit s.
Definition throw {A} (e : E) : body A := fun s => Throw e s.
Definition undef {A} : body A := fun _ => Undef.
Definition gets {A} (f : S -> A) : body A := fun s => Ret (f s) s.
Definition modify (f : S -> S) : body unit := fun s => Ret tt (f s).

(** A call of a [void] function: its own [return]s end the callee only. *)
Definition call (m : body unit) : body unit := fun s =>
  match m s with
  | Exit s' => Ret tt s'
  | o => o
  end.

(** A partial read whose failure is undefined behaviour. *)
Definition of_option {A} (o : option A) : body A :=
  match o with Some a => ret a | None => undef end.

(** Weakest precondition of a body: [Q] where it falls through, [R] where
    it returns; throwing and undefined behaviour are excluded. *)
Definition wp {A} (m : body A) (Q : A -> S -> Prop) (R : S -> Prop) (s : S) : Prop :=
  match m s with
  | Ret a s' => Q a s'
  | Exit s' => R s'
  | Throw _ _ => False
  | Undef => False
  end.

Lemma wp_ret {A} (a : A) Q R s : Q a s -> wp (ret a) Q R s.
Proof. done. Qed.
Lemma wp_exit {A} Q R s : R s -> wp (@exit A) Q R s.
Proof. done. Qed.
Lemma wp_gets {A} (f : S -> A) Q R s : Q (f s) s -> wp (gets f) Q R s.
Proof. done. Qed.
Lemma wp_modify f Q R s : Q tt (f s) -> wp (modify f) Q R s.
Proof. done. Qed.
Lemma wp_bind {A B} (m : body A) (k : A -> body B) Q R s :
  wp m (fun a s' => wp (k a) Q R s') R s -> wp (bind m k) Q R s.
Proof. unfold wp, bind. by destruct (m s). Qed.
Lemma wp_assoc {A B C} (m : body A) (f : A -> body B) (h : B -> body C) Q R s :
  wp (bind m (fun x => bind (f x) h)) Q R s <-> wp (bind (bind m f) h) Q R s.
Proof. unfold wp, bind. by destruct (m s). Qed.
Lemma wp_call m Q R s :
  wp m Q (fun s' => Q tt s') s -> wp (call m) Q R s.
Proof. unfold wp, call. destruct (m s) as [[]| | |]; done. Qed.
Lemma wp_mono {A} (m : body A) (Q Q' : A -> S -> Prop) (R R' : S -> Prop) s :
  (forall a s', Q a s' -> Q' a s') -> (forall s', R s' -> R' s') ->
  wp m Q R s -> wp m Q' R' s.
Proof. unfold wp. destruct (m s); naive_solver. Qed.
Lemma wp_of_option {A} (o : option A) Q R s a :
  o = Some a -> Q a s -> wp (of_option o) Q R s.
Proof. by intros ->. Qed.
Lemma wp_conj {A} (m : body A) (Q Q' : A -> S -> Prop) (R R' : S -> Prop) s :
  wp m Q R s -> wp m Q' R' s ->
  wp m (fun a s' => Q a s' /\ Q' a s') (fun s' => R s' /\ R' s') s.
Proof. unfold wp. destruct (m s); naive_solver. Qed.
End Body.

Declare Scope body_scope.
Delimit Scope body_scope with body.
Notation "x <- m ;; k" := (bind m (fun x => k))
  (at level 100, m at next level, right associativity) : body_scope.
Notation "m ;;; k" := (bind m (fun _ => k))
  (at level 100, right associativity) : body_scope.
#[global] Open Scope body_scope.

(** * Lemmas on machine-width integers *)

Create HintDb width.

(** [lia] with division and modulus by constants. *)
Ltac div_lia := Z.to_euclidean_division_equations; lia.

Lemma wrap_range w z : 0 <= w -> in_u w (wrap w z).
Proof. intros. unfold in_u, wrap. apply Z.mod_pos_bound. by apply Z.pow_pos_nonneg. Qed.

Lemma wrap_small w z : in_u w z -> wrap w z = z.
Proof. unfold in_u, wrap. intros. by apply Z.mod_small. Qed.

Lemma swrap_small w z : 0 < w -> - 2 ^ (w - 1) <= z < 2 ^ (w - 1) -> swrap w z = z.
Proof.
  intros Hw Hz. unfold swrap.
  assert (2 ^ w = 2 * 2 ^ (w - 1)) as E.
  { rewrite <- Z.pow_succ_r by lia. f_equal. lia. }
  rewrite Z.mod_small; lia.
Qed.

Lemma swrap_range w z : 0 < w -> - 2 ^ (w - 1) <= swrap w z < 2 ^ (w - 1).
Proof.
  intros Hw. unfold swrap.
  assert (2 ^ w = 2 * 2 ^ (w - 1)) as E.
  { rewrite <- Z.pow_succ_r by lia. f_equal. lia. }
  pose proof (Z.mod_pos_bound (z + 2 ^ (w - 1)) (2 ^ w)).
  assert (0 < 2 ^ (w - 1)) by (apply Z.pow_pos_nonneg; lia). lia.
Qed.

Lemma u64_small z : 0 <= z < 2 ^ 64 -> u64 z = z.
Proof. apply wrap_small. Qed.
Lemma u64_range z : 0 <= u64 z < 2 ^ 64.
Proof. by apply wrap_range. Qed.
Lemma u8_range z : is_byte (u8 z).
Proof. by apply wrap_range. Qed.
Lemma i64_small z : - 2 ^ 63 <= z < 2 ^ 63 -> i64 z = z.
Proof. intros. apply swrap_small; lia. Qed.
Lemma i64_range z : - 2 ^ 63 <= i64 z < 2 ^ 63.
Proof. apply (swrap_range 64). lia. Qed.

#[export] Hint Resolve u64_range u8_range i64_range : width.

Lemma in_u_mono w w' z : 0 <= w <= w' -> in_u w z -> in_u w' z.
Proof.
  unfold in_u. intros ? [? ?]. split; [done|].
  apply (Z.lt_le_trans _ (2 ^ w)); [done|]. apply Z.pow_le_mono_r; lia.
Qed.
