(* ===== verification/Intx.v ===== *)
(** The 256-bit integer library ([intx::uint256]) as an interface.

    [intx] is a third-party package: its operators are a parameter of the
    model (class [Intx]) and what the sources rely on is stated by
    [IntxLaws].  A [uint256] itself is its value, an integer of [Z] below
    [2^256]: comparisons, conversions from unsigned integers and access to
    the 64-bit words [V[0]..V[3]] are those of [Z].  [intx_ref] is a concrete
    implementation that satisfies the laws. *)

From S2P Require Import Prelude.

(** Byte strings, most significant byte first. *)
Fixpoint be_value (bs : list Z) : Z :=
  match bs with
  | [] => 0
  | b :: bs' => b * 2 ^ (8 * Z.of_nat (length bs')) + be_value bs'
  end.

Fixpoint be_bytes (n : nat) (v : Z) : list Z :=
  match n with
  | O => []
  | S n' => (v / 2 ^ (8 * Z.of_nat n')) mod 256 :: be_bytes n' v
  end.

(** The value of a byte string in little-endian order: the object
    representation of an unsigned integer on the supported targets. *)
Fixpoint le_value (bs : list Z) : Z :=
  match bs with
  | [] => 0
  | b :: bs' => b + 256 * le_value bs'
  end.

(** The [i]-th 64-bit word of a [uint256] ([V[i]]) and its low word. *)
Definition word (v : Z) (i : nat) : Z := (v / 2 ^ (64 * Z.of_nat i)) mod 2 ^ 64.
Definition low64 (v : Z) : Z := word v 0.

(** The [uint256] with the given words, least significant first. *)
Definition of_words (w0 w1 w2 w3 : Z) : Z :=
  w0 + w1 * 2 ^ 64 + w2 * 2 ^ 128 + w3 * 2 ^ 192.

(** The signed reading of a 256-bit word. *)
Definition sval (v : Z) : Z := swrap 256 v.

Class Intx : Type := {
  uadd : Z -> Z -> Z;
  usub : Z -> Z -> Z;
  umul : Z -> Z -> Z;
  udiv : Z -> Z -> Z;
  umod : Z -> Z -> Z;
  sdivrem : Z -> Z -> Z * Z;
  addmod : Z -> Z -> Z -> Z;
  mulmod : Z -> Z -> Z -> Z;
  unot : Z -> Z;
  uand : Z -> Z -> Z;
  uor : Z -> Z -> Z;
  uxor : Z -> Z -> Z;
  ushl : Z -> Z -> Z;
  ushr : Z -> Z -> Z;
  slt : Z -> Z -> bool;
  uclz : Z -> Z;
  uexp : Z -> Z -> Z;
  count_significant_bytes : Z -> Z;
  be_load : list Z -> Z;
  be_store : Z -> list Z;
  be_trunc_address : Z -> list Z;
  of_i64 : Z -> Z;
  to_big_endian64 : Z -> Z;
}.

(** What the documentation of [intx] promises of these operators. *)
Class IntxLaws (I : Intx) : Prop := {
  uadd_spec a b : is_u256 a -> is_u256 b -> uadd a b = (a + b) mod 2 ^ 256;
  usub_spec a b : is_u256 a -> is_u256 b -> usub a b = (a - b) mod 2 ^ 256;
  umul_spec a b : is_u256 a -> is_u256 b -> umul a b = (a * b) mod 2 ^ 256;
  udiv_spec a b : is_u256 a -> is_u256 b -> b <> 0 -> udiv a b = a / b;
  umod_spec a b : is_u256 a -> is_u256 b -> b <> 0 -> umod a b = a mod b;
  sdivrem_spec a b : is_u256 a -> is_u256 b -> b <> 0 ->
    sdivrem a b = (wrap 256 (Z.quot (sval a) (sval b)), wrap 256 (Z.rem (sval a) (sval b)));
  addmod_spec a b m : is_u256 a -> is_u256 b -> is_u256 m -> m <> 0 ->
    addmod a b m = (a + b) mod m;
  mulmod_spec a b m : is_u256 a -> is_u256 b -> is_u256 m -> m <> 0 ->
    mulmod a b m = (a * b) mod m;
  unot_spec a : is_u256 a -> unot a = 2 ^ 256 - 1 - a;
  uand_spec a b : is_u256 a -> is_u256 b -> uand a b = Z.land a b;
  uor_spec a b : is_u256 a -> is_u256 b -> uor a b = Z.lor a b;
  uxor_spec a b : is_u256 a -> is_u256 b -> uxor a b = Z.lxor a b;
  ushl_spec a n : is_u256 a -> is_u256 n -> ushl a n = if n <? 256 then Z.shiftl a n mod 2 ^ 256 else 0;
  ushr_spec a n : is_u256 a -> is_u256 n -> ushr a n = if n <? 256 then Z.shiftr a n else 0;
  slt_spec a b : is_u256 a -> is_u256 b -> slt a b = (sval a <? sval b);
  uclz_spec a : is_u256 a -> uclz a = if a =? 0 then 256 else 255 - Z.log2 a;
  uexp_spec a b : is_u256 a -> is_u256 b -> uexp a b = a ^ b mod 2 ^ 256;
  count_significant_bytes_spec a : is_u256 a ->
    count_significant_bytes a = if a =? 0 then 0 else Z.log2 a / 8 + 1;
  be_load_spec bs : Forall is_byte bs -> (length bs <= 32)%nat -> be_load bs = be_value bs;
  be_store_spec v : is_u256 v -> be_store v = be_bytes 32 v;
  be_trunc_address_spec v : is_u256 v -> be_trunc_address v = be_bytes 20 v;
  of_i64_spec z : 0 <= z < 2 ^ 63 -> of_i64 z = z;
  to_big_endian64_spec bs : Forall is_byte bs -> length bs = 8%nat ->
    to_big_endian64 (le_value bs) = be_value bs;
}.

(** A concrete implementation. *)
Fixpoint le_bytes (n : nat) (v : Z) : list Z :=
  match n with
  | O => []
  | S n' => v mod 256 :: le_bytes n' (v / 256)
  end.

Fixpoint pos_powmod (a : Z) (p : positive) : Z :=
  match p with
  | xH => a mod 2 ^ 256
  | xO p' => let r := pos_powmod a p' in (r * r) mod 2 ^ 256
  | xI p' => let r := pos_powmod a p' in (r * r mod 2 ^ 256 * a) mod 2 ^ 256
  end.

#[export] Instance intx_ref : Intx := {
  uadd a b := (a + b) mod 2 ^ 256;
  usub a b := (a - b) mod 2 ^ 256;
  umul a b := (a * b) mod 2 ^ 256;
  udiv a b := a / b;
  umod a b := a mod b;
  sdivrem a b := (wrap 256 (Z.quot (sval a) (sval b)), wrap 256 (Z.rem (sval a) (sval b)));
  addmod a b m := (a + b) mod m;
  mulmod a b m := (a * b) mod m;
  unot a := 2 ^ 256 - 1 - a;
  uand := Z.land;
  uor := Z.lor;
  uxor := Z.lxor;
  ushl a n := if n <? 256 then Z.shiftl a n mod 2 ^ 256 else 0;
  ushr a n := if n <? 256 then Z.shiftr a n else 0;
  slt a b := sval a <? sval b;
  uclz a := if a =? 0 then 256 else 255 - Z.log2 a;
  uexp a b := match b with Zpos p => pos_powmod a p | _ => 1 end;
  count_significant_bytes a := if a =? 0 then 0 else Z.log2 a / 8 + 1;
  be_load := be_value;
  be_store := be_bytes 32;
  be_trunc_address := be_bytes 20;
  of_i64 z := z mod 2 ^ 256;
  to_big_endian64 v := be_value (le_bytes 8 v);
}.

(** * Byte strings *)

Lemma length_be_bytes n v : length (be_bytes n v) = n.
Proof. induction n as [|n IH]; simpl; [done|]. by rewrite IH. Qed.

Lemma be_bytes_range n v : Forall is_byte (be_bytes n v).
Proof.
  induction n as [|n IH]; simpl; constructor; [|done].
  apply Z.mod_pos_bound. lia.
Qed.

Lemma be_value_range bs : Forall is_byte bs -> in_u (8 * Z.of_nat (length bs)) (be_value bs).
Proof.
  induction 1 as [|b bs Hb Hbs IH]; simpl be_value; [done|].
  unfold in_u in *. cbn [length].
  rewrite Nat2Z.inj_succ, Z.mul_succ_r, Z.pow_add_r by lia.
  change (2 ^ 8) with 256 in *. nia.
Qed.

Lemma be_value_app bs1 bs2 :
  be_value (bs1 ++ bs2) = be_value bs1 * 2 ^ (8 * Z.of_nat (length bs2)) + be_value bs2.
Proof.
  induction bs1 as [|b bs1 IH]; [done|]. cbn [app be_value].
  rewrite IH, length_app, Nat2Z.inj_add, Z.mul_add_distr_l, Z.pow_add_r by lia. lia.
Qed.

Lemma be_value_zeros n : be_value (replicate n 0) = 0.
Proof. induction n as [|n IH]; simpl; [done|]. by rewrite IH. Qed.

Lemma be_value_bytes n v : be_value (be_bytes n v) = v mod 2 ^ (8 * Z.of_nat n).
Proof.
  induction n as [|n IH]; cbn [be_bytes be_value].
  { by rewrite Z.mod_1_r. }
  rewrite length_be_bytes, IH, Nat2Z.inj_succ, Z.mul_succ_r.
  set (w := 2 ^ (8 * Z.of_nat n)). assert (0 < w) by (apply Z.pow_pos_nonneg; lia).
  rewrite Z.pow_add_r by lia. fold w. change (2 ^ 8) with 256.
  rewrite (Z.rem_mul_r v w 256) by lia. lia.
Qed.

Lemma be_value_store n v : in_u (8 * Z.of_nat n) v -> be_value (be_bytes n v) = v.
Proof. intros H. rewrite be_value_bytes. by apply Z.mod_small. Qed.

Lemma be_bytes_value bs : Forall is_byte bs -> be_bytes (length bs) (be_value bs) = bs.
Proof.
  induction 1 as [|b bs Hb Hbs IH]; [done|]. cbn [length be_bytes be_value].
  pose proof (be_value_range _ Hbs) as Hr. unfold in_u in *.
  set (w := 2 ^ (8 * Z.of_nat (length bs))) in *.
  assert (0 < w) by (apply Z.pow_pos_nonneg; lia). f_equal.
  - rewrite Z.div_add_l by lia. rewrite Z.div_small by lia.
    rewrite Z.add_0_r. by apply Z.mod_small.
  - trans (be_bytes (length bs) (be_value bs)); [|exact IH]. clear IH. revert w Hr H.
    generalize (be_value bs) as v. intros v w Hr Hw.
    assert (forall m k, (m <= length bs)%nat -> be_bytes m (k * w + v) = be_bytes m v) as G.
    { induction m as [|m IHm]; intros k Hm; [done|]. cbn [be_bytes]. rewrite IHm by lia. f_equal.
      replace w with (2 ^ (8 * Z.of_nat (length bs) - 8 * Z.of_nat m - 8) * 256 * 2 ^ (8 * Z.of_nat m)).
      2:{ change 256 with (2 ^ 8). rewrite <- !Z.pow_add_r by lia. unfold w. f_equal. lia. }
      rewrite Z.mul_assoc, Z.div_add_l by (apply Z.pow_nonzero; lia).
      rewrite Z.mul_assoc, Z.add_comm. apply Z_mod_plus_full. }
    by apply G.
Qed.

(** * The reference implementation satisfies the laws *)

Lemma length_le_bytes n v : length (le_bytes n v) = n.
Proof. revert v. induction n as [|n IH]; intros v; cbn; [done|]. by rewrite IH. Qed.

Lemma le_bytes_value bs : Forall is_byte bs -> le_bytes (length bs) (le_value bs) = bs.
Proof.
  induction 1 as [|b bs Hb Hbs IH]; [done|]. cbn [length le_bytes le_value].
  unfold in_u in Hb. change (2 ^ 8) with 256 in Hb. rewrite (Z.mul_comm 256).
  rewrite Z_mod_plus_full, Z.div_add, (Z.mod_small b), (Z.div_small b) by lia.
  by rewrite Z.add_0_l, IH.
Qed.

Lemma pos_powmod_spec a p : pos_powmod a p = a ^ Zpos p mod 2 ^ 256.
Proof.
  induction p as [p IH|p IH|]; cbn [pos_powmod].
  - rewrite IH. replace (Zpos p~1) with (Zpos p + Zpos p + 1) by lia.
    rewrite !Z.pow_add_r, Z.pow_1_r by lia.
    rewrite <- Z.mul_mod by done. by rewrite Z.mul_mod_idemp_l.
  - rewrite IH. replace (Zpos p~0) with (Zpos p + Zpos p) by lia.
    rewrite Z.pow_add_r by lia. by rewrite <- Z.mul_mod.
  - by rewrite Z.pow_1_r.
Qed.

#[export] Instance intx_ref_laws : IntxLaws intx_ref.
Proof.
  constructor; try done.
  - intros a [|p|p] _ Hb; unfold in_u in Hb; cbn [uexp intx_ref].
    + done.
    + apply pos_powmod_spec.
    + lia.
  - intros z Hz. cbn [of_i64 intx_ref]. apply Z.mod_small. lia.
  - intros bs Hb Hl. cbn [to_big_endian64 intx_ref]. by rewrite <- Hl, le_bytes_value.
Qed.

(** * Ranges of the results *)

Section Ranges.
Context `{IL : IntxLaws}.

Lemma u_bits_high w x n : 0 <= w -> in_u w x -> w <= n -> Z.testbit x n = false.
Proof.
  intros Hw Hx Hn. rewrite <- (Z.mod_small x (2 ^ w)) by done. by apply Z.mod_pow2_bits_high.
Qed.

Lemma u_of_bits w x :
  0 <= w -> 0 <= x -> (forall n, w <= n -> Z.testbit x n = false) -> in_u w x.
Proof.
  intros Hw Hx Hb. replace x with (x mod 2 ^ w).
  { apply Z.mod_pos_bound. by apply Z.pow_pos_nonneg. }
  apply Z.bits_inj'. intros n Hn. destruct (Z.lt_ge_cases n w) as [Hl|Hg].
  - by rewrite Z.mod_pow2_bits_low.
  - rewrite Z.mod_pow2_bits_high by lia. by rewrite Hb.
Qed.

Lemma in_u_lor w a b : 0 <= w -> in_u w a -> in_u w b -> in_u w (Z.lor a b).
Proof.
  intros Hw Ha Hb. apply u_of_bits; [done|apply Z.lor_nonneg; unfold in_u in *; lia|].
  intros n Hn. by rewrite Z.lor_spec, !(u_bits_high w).
Qed.

Lemma in_u_land w a b : 0 <= w -> in_u w a -> in_u w b -> in_u w (Z.land a b).
Proof.
  intros Hw Ha Hb. apply u_of_bits; [done|apply Z.land_nonneg; unfold in_u in *; lia|].
  intros n Hn. by rewrite Z.land_spec, !(u_bits_high w).
Qed.

Lemma lor_range a b : is_u256 a -> is_u256 b -> is_u256 (Z.lor a b).
Proof. by apply in_u_lor. Qed.

Lemma land_range a b : is_u256 a -> is_u256 b -> is_u256 (Z.land a b).
Proof. by apply in_u_land. Qed.

Lemma lxor_range a b : is_u256 a -> is_u256 b -> is_u256 (Z.lxor a b).
Proof.
  intros Ha Hb. apply u_of_bits; [lia|apply Z.lxor_nonneg; unfold in_u in *; lia|].
  intros n Hn. by rewrite Z.lxor_spec, !(u_bits_high 256).
Qed.

Lemma low64_range v : is_u64 (low64 v).
Proof. apply Z.mod_pos_bound. lia. Qed.

Lemma low64_small v : is_u64 v -> low64 v = v.
Proof.
  unfold low64, word. intros. change (64 * Z.of_nat 0) with 0.
  rewrite Z.pow_0_r, Z.div_1_r. by apply Z.mod_small.
Qed.

Lemma u256_of_u64 v : is_u64 v -> is_u256 v.
Proof. apply in_u_mono. lia. Qed.

Lemma mod256_range v : is_u256 (v mod 2 ^ 256).
Proof. apply Z.mod_pos_bound. lia. Qed.

Lemma b2z_range b : is_u256 (b2z b).
Proof. unfold in_u. destruct b; simpl; lia. Qed.

Lemma uadd_range a b : is_u256 a -> is_u256 b -> is_u256 (uadd a b).
Proof. intros. rewrite uadd_spec by done. apply mod256_range. Qed.
Lemma usub_range a b : is_u256 a -> is_u256 b -> is_u256 (usub a b).
Proof. intros. rewrite usub_spec by done. apply mod256_range. Qed.
Lemma umul_range a b : is_u256 a -> is_u256 b -> is_u256 (umul a b).
Proof. intros. rewrite umul_spec by done. apply mod256_range. Qed.
Lemma udiv_range a b : is_u256 a -> is_u256 b -> b <> 0 -> is_u256 (udiv a b).
Proof.
  intros Ha Hb Hn. rewrite udiv_spec by done. unfold in_u in *.
  split; [apply Z.div_pos; lia|].
  apply (Z.le_lt_trans _ a); [|lia]. apply Z.div_le_upper_bound; nia.
Qed.
Lemma mod_range a m : is_u256 m -> m <> 0 -> is_u256 (a mod m).
Proof. intros Hm Hn. unfold in_u in *. pose proof (Z.mod_pos_bound a m). lia. Qed.
Lemma umod_range a b : is_u256 a -> is_u256 b -> b <> 0 -> is_u256 (umod a b).
Proof. intros. rewrite umod_spec by done. by apply mod_range. Qed.
Lemma sdivrem_range a b : is_u256 a -> is_u256 b -> b <> 0 ->
  is_u256 (sdivrem a b).1 /\ is_u256 (sdivrem a b).2.
Proof. intros. rewrite sdivrem_spec by done. split; by apply wrap_range. Qed.
Lemma addmod_range a b m :
  is_u256 a -> is_u256 b -> is_u256 m -> m <> 0 -> is_u256 (addmod a b m).
Proof. intros. rewrite addmod_spec by done. by apply mod_range. Qed.
Lemma mulmod_range a b m :
  is_u256 a -> is_u256 b -> is_u256 m -> m <> 0 -> is_u256 (mulmod a b m).
Proof. intros. rewrite mulmod_spec by done. by apply mod_range. Qed.
Lemma unot_range a : is_u256 a -> is_u256 (unot a).
Proof. intros. rewrite unot_spec by done. unfold in_u in *. lia. Qed.
Lemma uand_range a b : is_u256 a -> is_u256 b -> is_u256 (uand a b).
Proof. intros. rewrite uand_spec by done. by apply land_range. Qed.
Lemma uor_range a b : is_u256 a -> is_u256 b -> is_u256 (uor a b).
Proof. intros. rewrite uor_spec by done. by apply lor_range. Qed.
Lemma uxor_range a b : is_u256 a -> is_u256 b -> is_u256 (uxor a b).
Proof. intros. rewrite uxor_spec by done. by apply lxor_range. Qed.
Lemma ushl_range a n : is_u256 a -> is_u256 n -> is_u256 (ushl a n).
Proof.
  intros. rewrite ushl_spec by done. case_match; [apply mod256_range|].
  unfold in_u. lia.
Qed.
Lemma ushr_range a n : is_u256 a -> is_u256 n -> is_u256 (ushr a n).
Proof.
  intros Ha Hn. rewrite ushr_spec by done. unfold in_u in *. case_match; [|lia].
  rewrite Z.shiftr_div_pow2 by lia. split; [apply Z.div_pos; lia|].
  apply (Z.le_lt_trans _ a); [|lia].
  apply Z.div_le_upper_bound; [lia|]. assert (0 < 2 ^ n) by (apply Z.pow_pos_nonneg; lia). nia.
Qed.
Lemma uclz_range a : is_u256 a -> is_u256 (uclz a).
Proof.
  intros Ha. rewrite uclz_spec by done. unfold in_u in *. case_match; [lia|].
  assert (Z.log2 a < 256) by (apply Z.log2_lt_pow2; lia).
  pose proof (Z.log2_nonneg a). lia.
Qed.
Lemma uexp_range a b : is_u256 a -> is_u256 b -> is_u256 (uexp a b).
Proof. intros. rewrite uexp_spec by done. apply mod256_range. Qed.
Lemma count_significant_bytes_range a :
  is_u256 a -> 0 <= count_significant_bytes a <= 32.
Proof.
  intros Ha. rewrite count_significant_bytes_spec by done. case_match; [lia|].
  unfold in_u in *. assert (Z.log2 a < 256) by (apply Z.log2_lt_pow2; lia).
  pose proof (Z.log2_nonneg a).
  pose proof (Z.div_pos (Z.log2 a) 8). pose proof (Z.div_lt_upper_bound (Z.log2 a) 8 32). lia.
Qed.
Lemma be_load_range bs :
  Forall is_byte bs -> (length bs <= 32)%nat -> is_u256 (be_load bs).
Proof.
  intros Hb Hl. rewrite be_load_spec by done.
  apply (in_u_mono (8 * Z.of_nat (length bs))); [lia|]. by apply be_value_range.
Qed.
Lemma of_i64_range z : 0 <= z < 2 ^ 63 -> is_u256 (of_i64 z).
Proof. intros. rewrite of_i64_spec by done. unfold in_u. lia. Qed.
End Ranges.

Create HintDb range.
#[export] Hint Resolve uadd_range usub_range umul_range udiv_range umod_range addmod_range
  mulmod_range unot_range uand_range uor_range uxor_range ushl_range ushr_range uclz_range
  uexp_range b2z_range low64_range u256_of_u64 : range.
