(* ===== verification/Evmc.v ===== *)
(** The EVMC vocabulary the sources are written against: revisions, status
    codes, messages, transaction contexts and results, the host interface
    ([evmc::Host]) and the instruction tables.

    EVMC is a third-party package; its host and its tables are parameters of
    the model (classes [EvmcHost] and [Evmc]).  What the sources rely on is
    stated by [HostLaws] and [EvmcLaws]. *)

From S2P Require Import Prelude.

(** * Enumerations *)

(** [evmc_revision], oldest first. *)
Inductive evmc_revision : Type :=
| EVMC_FRONTIER | EVMC_HOMESTEAD | EVMC_TANGERINE_WHISTLE | EVMC_SPURIOUS_DRAGON
| EVMC_BYZANTIUM | EVMC_CONSTANTINOPLE | EVMC_PETERSBURG | EVMC_ISTANBUL
| EVMC_BERLIN | EVMC_LONDON | EVMC_PARIS | EVMC_SHANGHAI | EVMC_CANCUN
| EVMC_PRAGUE | EVMC_OSAKA | EVMC_EXPERIMENTAL.

#[export] Instance evmc_revision_eq_dec : EqDecision evmc_revision.
Proof. solve_decision. Defined.

Definition rev_num (r : evmc_revision) : Z :=
  match r with
  | EVMC_FRONTIER => 0 | EVMC_HOMESTEAD => 1 | EVMC_TANGERINE_WHISTLE => 2
  | EVMC_SPURIOUS_DRAGON => 3 | EVMC_BYZANTIUM => 4 | EVMC_CONSTANTINOPLE => 5
  | EVMC_PETERSBURG => 6 | EVMC_ISTANBUL => 7 | EVMC_BERLIN => 8 | EVMC_LONDON => 9
  | EVMC_PARIS => 10 | EVMC_SHANGHAI => 11 | EVMC_CANCUN => 12 | EVMC_PRAGUE => 13
  | EVMC_OSAKA => 14 | EVMC_EXPERIMENTAL => 15
  end.

Definition rev_ge (r r' : evmc_revision) : bool := rev_num r' <=? rev_num r.
Definition rev_lt (r r' : evmc_revision) : bool := rev_num r <? rev_num r'.

(** [evmc_status_code]; the codes the sources never name are [EVMC_OTHER]. *)
Inductive evmc_status_code : Type :=
| EVMC_SUCCESS | EVMC_FAILURE | EVMC_REVERT | EVMC_OUT_OF_GAS | EVMC_INVALID_INSTRUCTION
| EVMC_UNDEFINED_INSTRUCTION | EVMC_STACK_OVERFLOW | EVMC_STACK_UNDERFLOW
| EVMC_BAD_JUMP_DESTINATION | EVMC_INVALID_MEMORY_ACCESS | EVMC_CALL_DEPTH_EXCEEDED
| EVMC_STATIC_MODE_VIOLATION | EVMC_INSUFFICIENT_BALANCE | EVMC_OTHER (code : Z).

#[export] Instance evmc_status_code_eq_dec : EqDecision evmc_status_code.
Proof. solve_decision. Defined.

Definition is_success (st : evmc_status_code) : bool :=
  match st with EVMC_SUCCESS => true | _ => false end.

Lemma is_success_true st : is_success st = true -> st = EVMC_SUCCESS.
Proof. by destruct st. Qed.

(** [evmc_storage_status] *)
Inductive evmc_storage_status : Type :=
| EVMC_STORAGE_ASSIGNED | EVMC_STORAGE_ADDED | EVMC_STORAGE_DELETED | EVMC_STORAGE_MODIFIED
| EVMC_STORAGE_DELETED_ADDED | EVMC_STORAGE_MODIFIED_DELETED | EVMC_STORAGE_DELETED_RESTORED
| EVMC_STORAGE_ADDED_DELETED | EVMC_STORAGE_MODIFIED_RESTORED.

Inductive evmc_access_status : Type := EVMC_ACCESS_COLD | EVMC_ACCESS_WARM.

Definition is_cold (a : evmc_access_status) : bool :=
  match a with EVMC_ACCESS_COLD => true | EVMC_ACCESS_WARM => false end.

Inductive evmc_call_kind : Type :=
| EVMC_CALL | EVMC_DELEGATECALL | EVMC_CALLCODE | EVMC_CREATE | EVMC_CREATE2.

(** * Records

    Addresses (20 bytes) and 32-byte values are byte strings; a pointer and
    its size ([input_data]/[input_size], [code]/[code_size],
    [output_data]/[output_size], [blob_hashes]/[blob_hashes_count]) are one
    list. *)

Record evmc_message : Type := mkMsg {
  kind : evmc_call_kind;
  flags : Z;
  depth : Z;
  gas : Z;
  recipient : list Z;
  sender : list Z;
  input_data : list Z;
  value : list Z;
  create2_salt : list Z;
  code_address : list Z;
  code : list Z;
}.

Definition set_gas (g : Z) (m : evmc_message) : evmc_message :=
  mkMsg (kind m) (flags m) (depth m) g (recipient m) (sender m) (input_data m) (value m)
    (create2_salt m) (code_address m) (code m).
Definition set_flags (f : Z) (m : evmc_message) : evmc_message :=
  mkMsg (kind m) f (depth m) (gas m) (recipient m) (sender m) (input_data m) (value m)
    (create2_salt m) (code_address m) (code m).

Record evmc_tx_context : Type := mkTx {
  tx_gas_price : list Z;
  tx_origin : list Z;
  block_coinbase : list Z;
  block_number : Z;
  block_timestamp : Z;
  block_gas_limit : Z;
  block_prev_randao : list Z;
  chain_id : list Z;
  block_base_fee : list Z;
  blob_base_fee : list Z;
  blob_hashes : list (list Z);
}.

(** The all-zero transaction context ([evmc_tx_context MTx = {}]). *)
Definition zero32 : list Z := replicate 32 0.
Definition zero20 : list Z := replicate 20 0.
Definition tx_context_zero : evmc_tx_context :=
  mkTx zero32 zero20 zero20 0 0 0 zero32 zero32 zero32 zero32 [].

Record evmc_result : Type := mkResult {
  status_code : evmc_status_code;
  gas_left : Z;
  gas_refund : Z;
  output_data : list Z;
  create_address : list Z;
}.

(** * The host and the instruction tables *)

(** [evmc::Host]: the [const] members read the host's state, the others
    update it. *)
Class EvmcHost (HS : Type) : Type := {
  account_exists : list Z -> HS -> bool;
  get_storage : list Z -> list Z -> HS -> list Z;
  set_storage : list Z -> list Z -> list Z -> HS -> evmc_storage_status * HS;
  get_balance : list Z -> HS -> list Z;
  get_code_size : list Z -> HS -> Z;
  get_code_hash : list Z -> HS -> list Z;
  copy_code : list Z -> Z -> Z -> HS -> list Z;  (* address, offset, buffer size: the bytes copied *)
  selfdestruct : list Z -> list Z -> HS -> bool * HS;
  host_call : evmc_message -> HS -> evmc_result * HS;
  get_tx_context : HS -> evmc_tx_context;
  get_block_hash : Z -> HS -> list Z;
  emit_log : list Z -> list Z -> list (list Z) -> HS -> HS;
  access_account : list Z -> HS -> evmc_access_status * HS;
  access_storage : list Z -> list Z -> HS -> evmc_access_status * HS;
  get_transient_storage : list Z -> list Z -> HS -> list Z;
  set_transient_storage : list Z -> list Z -> list Z -> HS -> HS;
}.

Definition metrics : Type := Z -> Z.

(** The instruction tables, the message flags and the hash function.
    [evmc_get_instruction_metrics_table] gives, per revision, the base gas
    cost of every opcode byte ([gas_cost], a 16-bit integer);
    [evmc_get_instruction_names_table] tells which bytes are instructions. *)
Class Evmc : Type := {
  metrics_table : evmc_revision -> option metrics;
  names_table : evmc_revision -> Z -> bool;
  EVMC_STATIC : Z;
  EVMC_DELEGATED : Z;
  keccak256 : list Z -> list Z;
}.

(** Fixed-size byte arrays. *)
Definition bytes_n (n : nat) (l : list Z) : Prop := length l = n /\ Forall is_byte l.

Record tx_ok (t : evmc_tx_context) : Prop := {
  tx_ok_price : bytes_n 32 (tx_gas_price t);
  tx_ok_origin : bytes_n 20 (tx_origin t);
  tx_ok_coinbase : bytes_n 20 (block_coinbase t);
  tx_ok_number : 0 <= block_number t < 2 ^ 63;
  tx_ok_timestamp : 0 <= block_timestamp t < 2 ^ 63;
  tx_ok_limit : 0 <= block_gas_limit t < 2 ^ 63;
  tx_ok_randao : bytes_n 32 (block_prev_randao t);
  tx_ok_chain : bytes_n 32 (chain_id t);
  tx_ok_base : bytes_n 32 (block_base_fee t);
  tx_ok_blob : bytes_n 32 (blob_base_fee t);
  tx_ok_hashes : Forall (bytes_n 32) (blob_hashes t);
  tx_ok_count : Z.of_nat (length (blob_hashes t)) < 2 ^ 64;
}.

(** The shape of what a host returns: fixed-size values have their size, a
    copy never exceeds the buffer. *)
Class HostLaws (HS : Type) (H : EvmcHost HS) : Prop := {
  get_storage_bytes a k h : bytes_n 32 (get_storage a k h);
  get_balance_bytes a h : bytes_n 32 (get_balance a h);
  get_code_size_range a h : is_u64 (get_code_size a h);
  get_code_hash_bytes a h : bytes_n 32 (get_code_hash a h);
  copy_code_bytes a o n h : 0 <= n ->
    Z.of_nat (length (copy_code a o n h)) <= n /\ Forall is_byte (copy_code a o n h);
  get_tx_context_ok h : tx_ok (get_tx_context h);
  get_block_hash_bytes n h : bytes_n 32 (get_block_hash n h);
  get_transient_storage_bytes a k h : bytes_n 32 (get_transient_storage a k h);
  host_call_output m h : Forall is_byte (output_data (host_call m h).1);
  host_call_size m h : Z.of_nat (length (output_data (host_call m h).1)) < 2 ^ 63;
  host_call_address m h : bytes_n 20 (create_address (host_call m h).1);
  host_call_gas m h : - 2 ^ 63 <= gas_left (host_call m h).1 < 2 ^ 63;
}.

(** Every revision has a metrics table; the instructions of a revision have a
    base cost that is not negative and fits its 16-bit field; STOP is free, a
    jump is not; PUSH0 is an instruction from Shanghai on; the two message
    flags are different bits of a 32-bit word; a hash has 32 bytes. *)
Class EvmcLaws (V : Evmc) : Prop := {
  metrics_table_some rev : is_Some (metrics_table rev);
  gas_cost_int16 rev t op : metrics_table rev = Some t -> - 2 ^ 15 <= t op < 2 ^ 15;
  gas_cost_defined rev t op : metrics_table rev = Some t -> names_table rev op = true -> 0 <= t op;
  gas_cost_stop rev t : metrics_table rev = Some t -> t 0x00 = 0;
  gas_cost_jump rev t : metrics_table rev = Some t -> 0 < t 0x56 /\ 0 < t 0x57;
  names_push0 rev : names_table rev 0x5f = true -> rev_lt rev EVMC_SHANGHAI = false;
  flags_distinct : Z.land EVMC_STATIC EVMC_DELEGATED = 0;
  flag_static_range : in_u 32 EVMC_STATIC /\ EVMC_STATIC <> 0;
  keccak256_bytes l : bytes_n 32 (keccak256 l);
}.
