(* ===== verification/GasStorageCost.v ===== *)
(** Storage gas schedule: [src/src/evm/gas_storage_cost.{h,cpp}] and the gas
    constants of [src/src/evm/evm.h].

    [SSTORE_COSTS] is the lookup table of SSTORE by revision and storage
    status.  [net_cost_spec] is the net gas metering rule (EIP-2200 with the
    parameters of EIP-2929 and EIP-3529) written over the original, current
    and new value of a slot; [sstore_costs_net] shows the table implements
    it. *)

From S2P Require Import Prelude Evmc.

Definition COLD_SLOAD_COST : Z := 2100.
Definition WARM_STORAGE_READ_COST : Z := 100.
Definition ADDITIONAL_COLD_SLOAD_COST : Z := COLD_SLOAD_COST - WARM_STORAGE_READ_COST.
Definition WORD_COPY_COST : Z := 3.
Definition SSTORE_REQUIRED_ISTANBUL : Z := 2300.

(** Constants of [evm.h]. *)
Definition MAXSTACK : nat := 1024.
Definition MAX_REQUIRED_MEMORY_SIZE : Z := 16 * 1024 * 1024.
Definition DEFAULT_REVISION : evmc_revision := EVMC_CANCUN.
Definition COLD_ACCOUNT_ACCESS_COST : Z := 2600.
Definition WARM_ACCOUNT_ACCESS_COST : Z := 100.
Definition ADDITIONAL_COLD_ACCOUNT_ACCESS_COST : Z :=
  COLD_ACCOUNT_ACCESS_COST - WARM_ACCOUNT_ACCESS_COST.
Definition CALL_VALUE_COST : Z := 9000.
Definition ACCOUNT_CREATION_COST : Z := 25000.
Definition EXTRA_REFUND_BEFORE_LONDON : Z := 24000.
Definition CALL_GAS_STIPEND : Z := 2300.
Definition EXP_BYTE_GAS : Z := 50.
Definition EXP_BYTE_GAS_PRE_SPURIOUS_DRAGON : Z := 10.
Definition MAX_SIZE_OF_INITCODE : Z := 0xC000.

(** All the fields but the first are [int16_t]. *)
Record StorageCostSpec : Type := mkSpec {
  NetCost : bool;
  WarmAccess : Z;
  Set_ : Z;
  ReSet : Z;
  Clear_ : Z;
}.

Definition spec_london : StorageCostSpec :=
  mkSpec true WARM_STORAGE_READ_COST 20000 (5000 - COLD_SLOAD_COST) 4800.

Definition STORAGE_COST_SPEC_TABLE (rev : evmc_revision) : StorageCostSpec :=
  match rev with
  | EVMC_FRONTIER | EVMC_HOMESTEAD | EVMC_TANGERINE_WHISTLE | EVMC_SPURIOUS_DRAGON
  | EVMC_BYZANTIUM | EVMC_PETERSBURG => mkSpec false 200 20000 5000 15000
  | EVMC_CONSTANTINOPLE => mkSpec true 200 20000 5000 15000
  | EVMC_ISTANBUL => mkSpec true 800 20000 5000 15000
  | EVMC_BERLIN => mkSpec true WARM_STORAGE_READ_COST 20000 (5000 - COLD_SLOAD_COST) 15000
  | EVMC_LONDON | EVMC_PARIS | EVMC_SHANGHAI | EVMC_CANCUN | EVMC_PRAGUE | EVMC_OSAKA
  | EVMC_EXPERIMENTAL => spec_london
  end.

Record StorageStoreCost : Type := mkCost {
  GasCost : Z;
  GasReFund : Z;
}.

(** One row of the table: the entries of revision [rev]. *)
Definition SSTORE_COSTS (rev : evmc_revision) (st : evmc_storage_status) : StorageStoreCost :=
  let C := STORAGE_COST_SPEC_TABLE rev in
  if negb (NetCost C) then
    let added := mkCost (Set_ C) 0 in
    let deleted := mkCost (ReSet C) (Clear_ C) in
    let modified := mkCost (ReSet C) 0 in
    match st with
    | EVMC_STORAGE_ADDED => added
    | EVMC_STORAGE_DELETED => deleted
    | EVMC_STORAGE_MODIFIED => modified
    | EVMC_STORAGE_ASSIGNED => modified
    | EVMC_STORAGE_DELETED_ADDED => added
    | EVMC_STORAGE_MODIFIED_DELETED => deleted
    | EVMC_STORAGE_DELETED_RESTORED => added
    | EVMC_STORAGE_ADDED_DELETED => deleted
    | EVMC_STORAGE_MODIFIED_RESTORED => modified
    end
  else
    match st with
    | EVMC_STORAGE_ASSIGNED => mkCost (WarmAccess C) 0
    | EVMC_STORAGE_ADDED => mkCost (Set_ C) 0
    | EVMC_STORAGE_DELETED => mkCost (ReSet C) (Clear_ C)
    | EVMC_STORAGE_MODIFIED => mkCost (ReSet C) 0
    | EVMC_STORAGE_DELETED_ADDED => mkCost (WarmAccess C) (i16 (- Clear_ C))
    | EVMC_STORAGE_MODIFIED_DELETED => mkCost (WarmAccess C) (Clear_ C)
    | EVMC_STORAGE_DELETED_RESTORED =>
        mkCost (WarmAccess C) (i16 (ReSet C - WarmAccess C - Clear_ C))
    | EVMC_STORAGE_ADDED_DELETED => mkCost (WarmAccess C) (i16 (Set_ C - WarmAccess C))
    | EVMC_STORAGE_MODIFIED_RESTORED => mkCost (WarmAccess C) (i16 (ReSet C - WarmAccess C))
    end.

(** * Specification *)

(** The status of writing [new] over [current] in a slot that held [original]
    at the start of the transaction (documentation of [evmc_storage_status]). *)
Definition storage_status (original current new : Z) : evmc_storage_status :=
  if current =? new then EVMC_STORAGE_ASSIGNED
  else if original =? current then
    if original =? 0 then EVMC_STORAGE_ADDED
    else if new =? 0 then EVMC_STORAGE_DELETED else EVMC_STORAGE_MODIFIED
  else if original =? 0 then
    if new =? 0 then EVMC_STORAGE_ADDED_DELETED else EVMC_STORAGE_ASSIGNED
  else if current =? 0 then
    if new =? original then EVMC_STORAGE_DELETED_RESTORED else EVMC_STORAGE_DELETED_ADDED
  else if new =? 0 then EVMC_STORAGE_MODIFIED_DELETED
  else if new =? original then EVMC_STORAGE_MODIFIED_RESTORED
  else EVMC_STORAGE_ASSIGNED.

(** Net gas metering: the charge and the refund of one write, as the sum of
    the independent clauses of the rule. *)
Definition net_cost_spec (warm set reset clear original current new : Z) : Z * Z :=
  if current =? new then (warm, 0)
  else if original =? current then
    if original =? 0 then (set, 0)
    else (reset, if new =? 0 then clear else 0)
  else
    (warm,
      (if original =? 0 then 0
       else if current =? 0 then - clear
       else if new =? 0 then clear else 0)
      + (if original =? new then
           (if original =? 0 then set - warm else reset - warm)
         else 0)).

(** The parameters of the rule by revision. *)
Definition net_parameters (rev : evmc_revision) : Z * Z * Z * Z :=
  match rev with
  | EVMC_CONSTANTINOPLE => (200, 20000, 5000, 15000)
  | EVMC_ISTANBUL => (800, 20000, 5000, 15000)
  | EVMC_BERLIN => (100, 20000, 2900, 15000)
  | _ => (100, 20000, 2900, 4800)
  end.

(** [EVMC_CONSTANTINOPLE] and everything from [EVMC_ISTANBUL] on is metered
    net. *)
Definition is_net (rev : evmc_revision) : bool :=
  bool_decide (rev = EVMC_CONSTANTINOPLE) || rev_ge rev EVMC_ISTANBUL.

(** The legacy rule looks only at the current and the new value. *)
Definition legacy_cost_spec (current new : Z) : Z * Z :=
  if (current =? 0) && negb (new =? 0) then (20000, 0)
  else (5000, if negb (current =? 0) && (new =? 0) then 15000 else 0).

(** SSTORE is charged by the net rule where it applies and by the legacy rule
    elsewhere, for every combination of original, current and new value. *)
Definition sstore_spec (rev : evmc_revision) (original current new : Z) : Z * Z :=
  if is_net rev then
    let '(warm, set, reset, clear) := net_parameters rev in
    net_cost_spec warm set reset clear original current new
  else legacy_cost_spec current new.

Lemma storage_status_cases original current new :
  let st := storage_status original current new in
  (current = new /\ st = EVMC_STORAGE_ASSIGNED) \/
  (current <> new /\ original = current /\ original = 0 /\ st = EVMC_STORAGE_ADDED) \/
  (current <> new /\ original = current /\ original <> 0 /\ new = 0 /\ st = EVMC_STORAGE_DELETED) \/
  (current <> new /\ original = current /\ original <> 0 /\ new <> 0 /\ st = EVMC_STORAGE_MODIFIED) \/
  (current <> new /\ original <> current /\ original = 0 /\ new = 0 /\ st = EVMC_STORAGE_ADDED_DELETED) \/
  (current <> new /\ original <> current /\ original = 0 /\ new <> 0 /\ st = EVMC_STORAGE_ASSIGNED) \/
  (current <> new /\ original <> 0 /\ current = 0 /\ new = original /\ st = EVMC_STORAGE_DELETED_RESTORED) \/
  (current <> new /\ original <> 0 /\ current = 0 /\ new <> original /\ st = EVMC_STORAGE_DELETED_ADDED) \/
  (original <> current /\ original <> 0 /\ current <> 0 /\ new = 0 /\ st = EVMC_STORAGE_MODIFIED_DELETED) \/
  (original <> current /\ original <> 0 /\ current <> 0 /\ new = original /\ new <> 0 /\
     st = EVMC_STORAGE_MODIFIED_RESTORED) \/
  (current <> new /\ original <> current /\ original <> 0 /\ current <> 0 /\ new <> original /\ new <> 0 /\
     st = EVMC_STORAGE_ASSIGNED).
Proof.
  unfold storage_status.
  destruct (Z.eqb_spec current new), (Z.eqb_spec original current), (Z.eqb_spec original 0),
    (Z.eqb_spec new 0), (Z.eqb_spec current 0), (Z.eqb_spec new original); subst; try lia; naive_solver.
Qed.

Lemma sstore_costs_by_revision rev original current new :
  let e := SSTORE_COSTS rev (storage_status original current new) in
  (GasCost e, GasReFund e) = sstore_spec rev original current new.
Proof.
  unfold sstore_spec, net_cost_spec, legacy_cost_spec.
  pose proof (storage_status_cases original current new) as Hc. cbv zeta in Hc |- *.
  repeat (destruct Hc as [Hc|Hc]); destruct_and!;
    match goal with H : storage_status _ _ _ = _ |- _ => rewrite H end;
    destruct (Z.eqb_spec current new), (Z.eqb_spec original current), (Z.eqb_spec original 0),
      (Z.eqb_spec new 0), (Z.eqb_spec current 0), (Z.eqb_spec original new); subst; try lia;
    destruct rev; reflexivity.
Qed.
