(* ===== verification/EvmInstance.v ===== *)
(** The EVM instance: [src/src/runtime/evm_instance.{h,cpp}].

    [EVMInstance] keeps the gas counters, the stack of messages and, for code
    running outside the interpreter, the linear memory.  Its memory is a
    lazily allocated buffer that is reused from call to call; the model keeps
    its initialised prefix, stale bytes included. *)

From S2P Require Import Prelude Evmc GasStorageCost.

(** Error codes of [common/errors.def] thrown by the modelled code. *)
Inductive ErrorCode : Type :=
| EVMStackOverflow | EVMStackUnderflow | EVMFrameNotFound | EVMInvalidInstruction
| GasLimitExceeded | EVMStaticModeViolation | OutOfBoundsMemory | InstanceExit.

(** A pointer to an [evmc_message]: one owned by a caller, or the message of
    the interpreter frame with that index. *)
Inductive MsgRef : Type := MExt (n : nat) | MFrame (i : nat).

#[export] Instance MsgRef_eq_dec : EqDecision MsgRef.
Proof. solve_decision. Defined.

Record EVMInstance : Type := mkInst {
  ModCode : list Z;                        (* Mod->Code, of Mod->CodeSize bytes *)
  Gas : Z;                                 (* uint64_t *)
  GasRefund : Z;                           (* int64_t *)
  Rev : evmc_revision;
  CurrentMessage : option MsgRef;
  MessageStack : list (option MsgRef);     (* top first *)
  GasRefundStack : list Z;                 (* top first *)
  MemoryBase : bool;                       (* MemoryBase != nullptr: it is Memory.get() *)
  MemorySize : Z;
  MemoryBuf : option (list Z);             (* the buffer Memory owns: its initialised prefix *)
  MemoryStack : list (option (list Z) * Z);(* top first *)
  InstReturnData : list Z;
  EVMStack : list Z;                       (* the bytes of the JIT's operand stack *)
  EVMStackSize : Z;
}.

Definition set_Gas (g : Z) (I : EVMInstance) : EVMInstance :=
  mkInst (ModCode I) g (GasRefund I) (Rev I) (CurrentMessage I) (MessageStack I)
    (GasRefundStack I) (MemoryBase I) (MemorySize I) (MemoryBuf I) (MemoryStack I)
    (InstReturnData I) (EVMStack I) (EVMStackSize I).
Definition set_GasRefund (r : Z) (I : EVMInstance) : EVMInstance :=
  mkInst (ModCode I) (Gas I) r (Rev I) (CurrentMessage I) (MessageStack I)
    (GasRefundStack I) (MemoryBase I) (MemorySize I) (MemoryBuf I) (MemoryStack I)
    (InstReturnData I) (EVMStack I) (EVMStackSize I).
Definition set_InstMemory (base : bool) (size : Z) (buf : option (list Z)) (I : EVMInstance)
  : EVMInstance :=
  mkInst (ModCode I) (Gas I) (GasRefund I) (Rev I) (CurrentMessage I) (MessageStack I)
    (GasRefundStack I) base size buf (MemoryStack I)
    (InstReturnData I) (EVMStack I) (EVMStackSize I).

Definition setGas (g : Z) (I : EVMInstance) : EVMInstance := set_Gas (u64 g) I.
(** An [int64_t] sum; out of range, which takes a host that reports refunds
    near [2 ^ 63], C++ leaves it undefined and the model wraps around. *)
Definition addGasRefund (amount : Z) (I : EVMInstance) : EVMInstance :=
  set_GasRefund (i64 (GasRefund I + amount)) I.
Definition setGasRefund (amount : Z) (I : EVMInstance) : EVMInstance := set_GasRefund amount I.
Definition restoreGasRefundSnapshot (I : EVMInstance) : EVMInstance :=
  match GasRefundStack I with
  | [] => I
  | r :: _ => set_GasRefund (i64 r) I
  end.

(** [resetForNewCall(NewRev, M)]; [resetForNewCall(NewRev)] keeps the module. *)
Definition resetForNewCall (NewRev : evmc_revision) (M : list Z) (I : EVMInstance) : EVMInstance :=
  mkInst M 0 0 NewRev None [] [] false 0 (MemoryBuf I) [] [] (EVMStack I) 0.

Section Messages.
(** [deref] reads the [gas] field behind a message pointer. *)
Context (deref : MsgRef -> Z).

Definition pushMessage (Msg : option MsgRef) (I : EVMInstance) : EVMInstance :=
  let '(MemStack, buf) :=
    match MessageStack I with
    | [] => ([], MemoryBuf I)
    | _ => ((MemoryBuf I, MemorySize I) :: MemoryStack I, None)
    end in
  (* initMemoryFrame: Base = Memory.get(); Size = 0 *)
  mkInst (ModCode I)
    (match Msg with Some m => u64 (deref m) | None => 0 end)
    (GasRefund I) (Rev I) Msg
    (Msg :: MessageStack I)
    (u64 (GasRefund I) :: GasRefundStack I)
    (bool_decide (is_Some buf)) 0 buf MemStack
    (InstReturnData I) (EVMStack I) (EVMStackSize I).

Definition popMessage (I : EVMInstance) : EVMInstance :=
  let ms := tail (MessageStack I) in
  let cur := match ms with [] => None | m :: _ => m end in
  let '(buf, size, MemStack) :=
    match MemoryStack I with
    | (d, sz) :: rest => (d, sz, rest)
    | [] => (MemoryBuf I, 0, [])
    end in
  mkInst (ModCode I)
    (match cur with Some m => u64 (deref m) | None => 0 end)
    (GasRefund I) (Rev I) cur ms (tail (GasRefundStack I))
    (bool_decide (is_Some buf)) size buf MemStack
    (InstReturnData I) (EVMStack I) (EVMStackSize I).
End Messages.

(** * Gas and memory of an instance

    These operations also write the gas of the current message, so they run
    on an instance together with the messages' gas fields. *)

Record InstState : Type := mkIS { inst : EVMInstance; mgas : MsgRef -> Z }.

Definition set_mgas (m : MsgRef) (g : Z) (f : MsgRef -> Z) : MsgRef -> Z :=
  fun m' => if decide (m' = m) then g else f m'.

Abbreviation IM := (@body ErrorCode InstState).

Module Instance_.

(** ** Definitions *)

Definition MemoryCost (Words : Z) : Z := u64 (Words * Words / 512 + 3 * Words).

Definition calculateMemoryExpansionCost (CurrentSize NewSize : Z) : Z :=
  if NewSize <=? CurrentSize then 0
  else
    let CurrentWords := u64 (CurrentSize + 31) / 32 in
    let NewWords := u64 (NewSize + 31) / 32 in
    u64 (MemoryCost NewWords - MemoryCost CurrentWords).

Definition chargeGas (cost : Z) : IM unit :=
  m <- gets (fun s => CurrentMessage (inst s)) ;;
  match m with
  | None => undef                        (* ZEN_ASSERT *)
  | Some Msg =>
      GasLeft <- gets (fun s => Gas (inst s)) ;;
      if GasLeft <? cost then throw GasLimitExceeded
      else
        modify (fun s => mkIS (setGas (GasLeft - cost) (inst s))
                              (set_mgas Msg (i64 (GasLeft - cost)) (mgas s)))
  end.

Definition addGas (amount : Z) : IM unit :=
  m <- gets (fun s => CurrentMessage (inst s)) ;;
  match m with
  | None => undef                        (* ZEN_ASSERT *)
  | Some Msg =>
      GasLeft <- gets (fun s => Gas (inst s)) ;;
      if UINT64_MAX - amount <? GasLeft then throw GasLimitExceeded
      else
        modify (fun s => mkIS (setGas (GasLeft + amount) (inst s))
                              (set_mgas Msg (i64 (GasLeft + amount)) (mgas s)))
  end.

(** [memset(MemoryBase + MemorySize, 0, NewSize - MemorySize)] on the buffer. *)
Definition zero_range (from to : Z) (buf : list Z) : list Z :=
  take (Z.to_nat from) buf ++ replicate (Z.to_nat (to - from)) 0 ++ drop (Z.to_nat to) buf.

(** The growth shared by [expandMemory] and [expandMemoryNoGas]. *)
Definition grow (NewSize : Z) (I : EVMInstance) : EVMInstance :=
  if MemorySize I <? NewSize then
    let buf := match MemoryBuf I with Some b => b | None => [] end in  (* ensureMemoryBuffer *)
    set_InstMemory true NewSize (Some (zero_range (MemorySize I) NewSize buf)) I
  else I.

Definition expandMemory (RequiredSize : Z) : IM unit :=
  sz <- gets (fun s => MemorySize (inst s)) ;;
  let NewSize := u64 (RequiredSize + 31) / 32 * 32 in
  chargeGas (calculateMemoryExpansionCost sz NewSize) ;;;
  modify (fun s => mkIS (grow NewSize (inst s)) (mgas s)).

Definition expandMemoryNoGas (RequiredSize : Z) : IM unit :=
  modify (fun s => mkIS (grow (u64 (RequiredSize + 31) / 32 * 32) (inst s)) (mgas s)).

Definition calcRequiredMemorySize (Offset Size : Z) : option Z :=
  if UINT64_MAX - Size <? Offset then None else Some (Offset + Size).

Definition chargeAll : IM unit :=
  g <- gets (fun s => Gas (inst s)) ;; chargeGas (u64 (g + 1)).

Definition expandMemoryChecked (Offset Size : Z) : IM bool :=
  if Size =? 0 then ret true
  else
    match calcRequiredMemorySize Offset Size with
    | None => chargeAll ;;; ret false
    | Some RequiredSize =>
        if MAX_REQUIRED_MEMORY_SIZE <? RequiredSize then chargeAll ;;; ret false
        else expandMemory RequiredSize ;;; ret true
    end.

(** The overload with two ranges. *)
Definition expandMemoryChecked2 (OffsetA SizeA OffsetB SizeB : Z) : IM bool :=
  let NeedA := 0 <? SizeA in
  let NeedB := 0 <? SizeB in
  if negb NeedA && negb NeedB then ret true
  else if NeedA && negb NeedB then expandMemoryChecked OffsetA SizeA
  else if negb NeedA && NeedB then expandMemoryChecked OffsetB SizeB
  else
    match calcRequiredMemorySize OffsetA SizeA, calcRequiredMemorySize OffsetB SizeB with
    | Some RequiredSizeA, Some RequiredSizeB =>
        let RequiredSize := Z.max RequiredSizeA RequiredSizeB in
        if MAX_REQUIRED_MEMORY_SIZE <? RequiredSize then chargeAll ;;; ret false
        else expandMemory RequiredSize ;;; ret true
    | _, _ => chargeAll ;;; ret false
    end.

(** The bytes a running program can see. *)
Definition visible (I : EVMInstance) : list Z :=
  take (Z.to_nat (MemorySize I)) (match MemoryBuf I with Some b => b | None => [] end).

End Instance_.
