(* ===== verification/Frame.v ===== *)
(** Interpreter frames and contexts: [src/src/evm/interpreter.h] and the frame
    management of [src/src/evm/interpreter.cpp].

    An [EVMFrame] is one activation (operand stack, memory, message, program
    counter).  [InterpreterExecContext] owns the frames: [FrameStack] with its
    logical length [FrameCount] is kept here as the current frame, the active
    frames below it ([below], nearest first) and the retired frame objects
    above it that await reuse ([spare]).  A handler runs on the current frame
    and the rest of the context, an [hstate]. *)

From S2P Require Import Prelude Intx Evmc GasStorageCost EvmInstance.

Section Frame.
Context {HS : Type}.

Record EVMFrame : Type := mkFrame {
  Stack : list Z;                (* std::array<intx::uint256, MAXSTACK> *)
  Memory : list Z;
  CallData : list Z;
  Msg : evmc_message;
  HostSet : bool;                (* Host != nullptr *)
  MTx : evmc_tx_context;
  GasRefundSnapshot : Z;
  Sp : nat;
  Pc : nat;
  Value : Z;
}.

Record Context_ : Type := mkCtx {
  below : list EVMFrame;
  spare : list EVMFrame;
  Status : evmc_status_code;
  ReturnData : list Z;
  ExeResult : evmc_result;
  IsJump : bool;
  Inst : EVMInstance;
  hst : HS;
}.

Record hstate : Type := mkH { fr : EVMFrame; cx : Context_ }.

(** Field updates. *)
Definition set_Stack (l : list Z) (f : EVMFrame) : EVMFrame :=
  mkFrame l (Memory f) (CallData f) (Msg f) (HostSet f) (MTx f) (GasRefundSnapshot f) (Sp f)
    (Pc f) (Value f).
Definition set_Memory (l : list Z) (f : EVMFrame) : EVMFrame :=
  mkFrame (Stack f) l (CallData f) (Msg f) (HostSet f) (MTx f) (GasRefundSnapshot f) (Sp f)
    (Pc f) (Value f).
Definition set_Msg (m : evmc_message) (f : EVMFrame) : EVMFrame :=
  mkFrame (Stack f) (Memory f) (CallData f) m (HostSet f) (MTx f) (GasRefundSnapshot f) (Sp f)
    (Pc f) (Value f).
Definition set_HostSet (b : bool) (f : EVMFrame) : EVMFrame :=
  mkFrame (Stack f) (Memory f) (CallData f) (Msg f) b (MTx f) (GasRefundSnapshot f) (Sp f)
    (Pc f) (Value f).
Definition set_MTx (t : evmc_tx_context) (f : EVMFrame) : EVMFrame :=
  mkFrame (Stack f) (Memory f) (CallData f) (Msg f) (HostSet f) t (GasRefundSnapshot f) (Sp f)
    (Pc f) (Value f).
Definition set_Sp (n : nat) (f : EVMFrame) : EVMFrame :=
  mkFrame (Stack f) (Memory f) (CallData f) (Msg f) (HostSet f) (MTx f) (GasRefundSnapshot f) n
    (Pc f) (Value f).
Definition set_Pc (n : nat) (f : EVMFrame) : EVMFrame :=
  mkFrame (Stack f) (Memory f) (CallData f) (Msg f) (HostSet f) (MTx f) (GasRefundSnapshot f)
    (Sp f) n (Value f).
Definition set_fgas (g : Z) (f : EVMFrame) : EVMFrame := set_Msg (set_gas g (Msg f)) f.
Definition fgas (f : EVMFrame) : Z := gas (Msg f).

Definition set_frames (b s : list EVMFrame) (c : Context_) : Context_ :=
  mkCtx b s (Status c) (ReturnData c) (ExeResult c) (IsJump c) (Inst c) (hst c).
Definition set_Status (st : evmc_status_code) (c : Context_) : Context_ :=
  mkCtx (below c) (spare c) st (ReturnData c) (ExeResult c) (IsJump c) (Inst c) (hst c).
Definition set_ReturnData (d : list Z) (c : Context_) : Context_ :=
  mkCtx (below c) (spare c) (Status c) d (ExeResult c) (IsJump c) (Inst c) (hst c).
Definition set_ExeResult (r : evmc_result) (c : Context_) : Context_ :=
  mkCtx (below c) (spare c) (Status c) (ReturnData c) r (IsJump c) (Inst c) (hst c).
Definition set_IsJump (b : bool) (c : Context_) : Context_ :=
  mkCtx (below c) (spare c) (Status c) (ReturnData c) (ExeResult c) b (Inst c) (hst c).
Definition set_Inst (i : EVMInstance) (c : Context_) : Context_ :=
  mkCtx (below c) (spare c) (Status c) (ReturnData c) (ExeResult c) (IsJump c) i (hst c).
Definition set_hst (h : HS) (c : Context_) : Context_ :=
  mkCtx (below c) (spare c) (Status c) (ReturnData c) (ExeResult c) (IsJump c) (Inst c) h.

Definition on_fr (f : EVMFrame -> EVMFrame) (s : hstate) : hstate := mkH (f (fr s)) (cx s).
Definition on_cx (f : Context_ -> Context_) (s : hstate) : hstate := mkH (fr s) (f (cx s)).

(** ** Frame management of [InterpreterExecContext] *)

Definition zero_msg : evmc_message :=
  mkMsg EVMC_CALL 0 0 0 zero20 zero20 [] zero32 zero32 zero20 [].

(** A value-initialised [EVMFrame] ([FrameStack.emplace_back()]). *)
Definition fresh_frame : EVMFrame :=
  mkFrame (replicate MAXSTACK 0) [] [] zero_msg false tx_context_zero 0 0 0 0.

(** [clearFrameTransientBuffers]: capacities are not observable. *)
Definition clearFrameTransientBuffers (f : EVMFrame) : EVMFrame :=
  mkFrame (Stack f) [] [] (Msg f) (HostSet f) (MTx f) (GasRefundSnapshot f) (Sp f) (Pc f)
    (Value f).

(** [releaseAllFrameBuffersIfLarge] over [FrameStack]. *)
Definition releaseAllFrameBuffersIfLarge (Frames : list EVMFrame) : list EVMFrame :=
  map clearFrameTransientBuffers Frames.

(** [resetForNewCall] on a context whose current frame (if any) is [cur]:
    every frame object becomes reusable, in [FrameStack] order. *)
Definition resetForNewCall_ctx (NewInst : EVMInstance) (cur : option EVMFrame) (c : Context_)
  : Context_ :=
  let Frames := rev (below c) ++ option_list cur ++ spare c in
  mkCtx [] (releaseAllFrameBuffersIfLarge Frames) EVMC_SUCCESS []
    (mkResult EVMC_SUCCESS 0 0 [] zero20) false NewInst (hst c).

(** The gas behind the message pointers an interpreter context holds:
    [MFrame i] is the message of [FrameStack[i]]. *)
Definition frame_deref (ext : nat -> Z) (frames : list EVMFrame) (m : MsgRef) : Z :=
  match m with
  | MExt n => ext n
  | MFrame i => match frames !! i with Some f => fgas f | None => 0 end
  end.

(** Index of the current frame in [FrameStack]. *)
Definition frame_index (c : Context_) : nat := length (below c).

(** [allocTopFrame]: the frame object is a retired one when there is one;
    only the listed fields are reset, the operand stack array keeps its old
    contents. *)
Definition reuse_frame (f : EVMFrame) : EVMFrame :=
  let f := clearFrameTransientBuffers f in
  mkFrame (Stack f) (Memory f) (CallData f) (Msg f) false tx_context_zero
    (GasRefundSnapshot f) 0 0 0.

Definition allocTopFrame (ext : nat -> Z) (m : evmc_message) (cur : option EVMFrame)
    (c : Context_) : hstate :=
  let below' := option_list cur ++ below c in
  let '(f, spare') :=
    match spare c with
    | f :: rest => (reuse_frame f, rest)
    | [] => (fresh_frame, [])
    end in
  let f := set_Msg m f in
  let frames := rev below' ++ [f] in
  let inst := pushMessage (frame_deref ext frames) (Some (MFrame (length below'))) (Inst c) in
  let f := mkFrame (Stack f) (Memory f) (CallData f) (Msg f) (HostSet f) (MTx f)
             (GasRefund inst) (Sp f) (Pc f) (Value f) in
  mkH f (set_Inst inst (set_frames below' spare' c)).

(** [freeBackFrame] from a current frame: the new current frame, if any.
    With a frame below, the message [popMessage] uncovers is that frame's. *)
Definition freeBackFrame (s : hstate) : option EVMFrame * Context_ :=
  let c := cx s in
  let inst := setGas (fgas (fr s)) (Inst c) in
  match below c with
  | [] => (None, set_Inst inst (set_frames [] (fr s :: spare c) c))
  | p :: rest =>
      let frames := rev (below c) ++ [fr s] in
      let inst := popMessage (frame_deref (fun _ => 0) frames) inst in
      (Some p, set_Inst inst (set_frames rest (fr s :: spare c) c))
  end.

Definition setCallData (d : list Z) (f : EVMFrame) : EVMFrame :=
  let m := Msg f in
  mkFrame (Stack f) (Memory f) d
    (mkMsg (kind m) (flags m) (depth m) (gas m) (recipient m) (sender m) d (value m)
       (create2_salt m) (code_address m) (code m))
    (HostSet f) (MTx f) (GasRefundSnapshot f) (Sp f) (Pc f) (Value f).

Definition setTxContext (t : evmc_tx_context) (f : EVMFrame) : EVMFrame := set_MTx t f.

End Frame.

Arguments hstate HS : clear implicits.
Arguments Context_ HS : clear implicits.

Abbreviation HM HS := (@body ErrorCode (hstate HS)).

(** ** Operand stack of a frame *)
Section StackOps.
Context {HS : Type}.

Definition getFrame {A} (f : EVMFrame -> A) : HM HS A := gets (fun s => f (fr s)).
Definition getCtx {A} (f : Context_ HS -> A) : HM HS A := gets (fun s => f (cx s)).
Definition modFrame (f : EVMFrame -> EVMFrame) : HM HS unit := modify (on_fr f).
Definition modCtx (f : Context_ HS -> Context_ HS) : HM HS unit := modify (on_cx f).
Definition setStatus (st : evmc_status_code) : HM HS unit := modCtx (set_Status st).

(** [Frame->Stack[i]], read and written without a check. *)
Definition stack_at (i : nat) : HM HS Z :=
  o <- getFrame (fun f => Stack f !! i) ;; of_option o.
Definition stack_set (i : nat) (v : Z) : HM HS unit :=
  n <- getFrame (fun f => length (Stack f)) ;;
  if (i <? n)%nat then modFrame (fun f => set_Stack (<[i := v]> (Stack f)) f) else undef.

Definition push (V : Z) : HM HS unit :=
  sp <- getFrame Sp ;;
  if (MAXSTACK <=? sp)%nat then throw EVMStackOverflow
  else stack_set sp V ;;; modFrame (set_Sp (sp + 1)).

Definition pop : HM HS Z :=
  sp <- getFrame Sp ;;
  if (sp <=? 0)%nat then throw EVMStackUnderflow
  else modFrame (set_Sp (sp - 1)) ;;; stack_at (sp - 1).

Definition peek (Index : nat) : HM HS Z :=
  sp <- getFrame Sp ;;
  if (sp <=? Index)%nat then throw EVMStackUnderflow
  else stack_at (sp - 1 - Index).

(** The checking macros of [opcode_handlers.h]. *)
Definition EVM_SET_EXCEPTION_UNLESS (b : bool) (st : evmc_status_code) : HM HS unit :=
  if b then ret tt else setStatus st ;;; exit.
Definition EVM_STACK_CHECK (N : nat) : HM HS unit :=
  sp <- getFrame Sp ;;
  if (sp <? N)%nat then setStatus EVMC_STACK_UNDERFLOW ;;; exit else ret tt.
Definition EVM_REQUIRE_STACK_SPACE (k : nat) : HM HS unit :=
  sp <- getFrame Sp ;;
  if (1024 <? sp + k)%nat then setStatus EVMC_STACK_OVERFLOW ;;; exit else ret tt.

(** [if (!m) { Context->setStatus(st); return; }] *)
Definition orStatus (m : HM HS bool) (st : evmc_status_code) : HM HS unit :=
  ok <- m ;; if ok then ret tt else setStatus st ;;; exit.

(** *** What these blocks compute *)

Lemma bind_getFrame {A B} (f : EVMFrame -> A) (k : A -> HM HS B) s :
  bind (getFrame f) k s = k (f (fr s)) s.
Proof. done. Qed.

Lemma bind_check {B} N (k : unit -> HM HS B) s :
  bind (EVM_STACK_CHECK N) k s =
  if (Sp (fr s) <? N)%nat then Exit (on_cx (set_Status EVMC_STACK_UNDERFLOW) s) else k tt s.
Proof.
  unfold EVM_STACK_CHECK, bind, getFrame, gets. by destruct (Sp (fr s) <? N)%nat.
Qed.

Lemma bind_stack_at {B} i (k : Z -> HM HS B) s :
  bind (stack_at i) k s = match Stack (fr s) !! i with Some v => k v s | None => Undef end.
Proof. unfold stack_at, bind, getFrame, gets. by destruct (Stack (fr s) !! i). Qed.

Lemma stack_set_run i v s :
  stack_set i v s =
  if (i <? length (Stack (fr s)))%nat
  then Ret tt (on_fr (fun f => set_Stack (<[i := v]> (Stack f)) f) s) else Undef.
Proof.
  unfold stack_set, bind, getFrame, gets. by destruct (i <? length (Stack (fr s)))%nat.
Qed.

Lemma bind_stack_set {B} i v (k : unit -> HM HS B) s :
  bind (stack_set i v) k s =
  if (i <? length (Stack (fr s)))%nat
  then k tt (on_fr (fun f => set_Stack (<[i := v]> (Stack f)) f) s) else Undef.
Proof.
  unfold bind. rewrite stack_set_run. by destruct (i <? length (Stack (fr s)))%nat.
Qed.

Lemma bind_modFrame {B} f (k : unit -> HM HS B) s : bind (modFrame f) k s = k tt (on_fr f s).
Proof. done. Qed.
End StackOps.

Section TxContext.
Context {HS : Type} {H : EvmcHost HS}.

(** [getTxContext]: fetched from the host unless it has a timestamp already. *)
Definition getTxContext : HM HS evmc_tx_context :=
  t <- getFrame MTx ;;
  if block_timestamp t =? 0 then
    t' <- getCtx (fun c => get_tx_context (hst c)) ;;
    modFrame (set_MTx t') ;;; ret t'
  else ret t.

Definition isStaticMode `{Evmc} : HM HS bool :=
  fl <- getFrame (fun f => flags (Msg f)) ;; ret (negb (Z.land fl EVMC_STATIC =? 0)).
End TxContext.
