(* ===== verification/HandlerUtil.v ===== *)
(** Utility functions of the opcode handlers: gas, memory expansion and the
    unchecked memory accesses of [src/src/evm/opcode_handlers.cpp], and the
    dispatch skeleton of [src/src/evm/opcode_handlers.h]; the opcodes. *)

From S2P Require Import Prelude Intx Evmc GasStorageCost EvmInstance Frame.

Section Util.
Context {HS : Type}.

Definition MemoryCost (Words : Z) : Z := u64 (Words * Words / 512 + 3 * Words).

Definition calculateMemoryExpansionCost (CurrentSize NewSize : Z) : Z :=
  if NewSize <=? CurrentSize then 0
  else
    let CurrentWords := u64 (CurrentSize + 31) / 32 in
    let NewWords := u64 (NewSize + 31) / 32 in
    let CurrentCost := MemoryCost CurrentWords in
    let NewCost := MemoryCost NewWords in
    u64 (NewCost - CurrentCost).

(** [chargeGas]: the comparison is on [uint64_t], the subtraction wraps
    back to the [int64_t] field. *)
Definition chargeGas (GasCost : Z) : HM HS bool :=
  g <- getFrame fgas ;;
  if u64 g <? GasCost then ret false
  else modFrame (set_fgas (i64 (u64 g - GasCost))) ;;; ret true.

(** [if (Frame->Msg.gas < c) { OUT_OF_GAS; return; } Frame->Msg.gas -= c;] *)
Definition chargeSigned (c : Z) : HM HS unit :=
  g <- getFrame fgas ;;
  if g <? c then setStatus EVMC_OUT_OF_GAS ;;; exit
  else modFrame (set_fgas (i64 (g - c))).

Definition numWords (Size : Z) : Z := i64 (u64 (Size + 31) / 32).

Definition copyCodeAndChargeGas (Size : Z) : HM HS bool :=
  chargeGas (u64 (numWords Size * WORD_COPY_COST)).

(** [Frame->Memory.resize(n, 0)] *)
Definition resize (n : nat) (l : list Z) : list Z := take n l ++ replicate (n - length l) 0.

Definition expandMemoryAndChargeGas (RequiredSize : Z) : HM HS bool :=
  if MAX_REQUIRED_MEMORY_SIZE <? RequiredSize then ret false
  else
    CurrentSize <- getFrame (fun f => Z.of_nat (length (Memory f))) ;;
    let RequiredSize := u64 (RequiredSize + 31) / 32 * 32 in
    let MemoryExpansionCost := calculateMemoryExpansionCost CurrentSize RequiredSize in
    ok <- chargeGas MemoryExpansionCost ;;
    if negb ok then ret false
    else
      (if CurrentSize <? RequiredSize then
         modFrame (fun f => set_Memory (resize (Z.to_nat RequiredSize) (Memory f)) f)
       else ret tt) ;;;
      ret true.

(** The overload with a [uint64_t] size. *)
Definition checkMemoryExpandAndChargeGas64 (Offset Size : Z) : HM HS bool :=
  if UINT64_MAX <? Offset then ret false
  else
    let Offset64 := low64 Offset in
    if UINT64_MAX - Size <? Offset64 then ret false
    else expandMemoryAndChargeGas (Offset64 + Size).

(** The overload with a [uint256] size. *)
Definition checkMemoryExpandAndChargeGas (Offset Size : Z) : HM HS bool :=
  if Size =? 0 then ret true
  else if UINT64_MAX <? Size then ret false
  else checkMemoryExpandAndChargeGas64 Offset (low64 Size).

Definition uint256ToUint64 (V : Z) : Z :=
  if negb (Z.lor (Z.lor (word V 3) (word V 2)) (word V 1) =? 0) then UINT64_MAX
  else word V 0.

(** [memcpy]/[memset]/[memmove] into [Frame->Memory.data() + off]: defined
    when the range lies in the vector; an empty range touches nothing. *)
Definition write_at (off : nat) (bs m : list Z) : list Z :=
  take off m ++ bs ++ drop (off + length bs) m.

Definition mem_write (off : Z) (bs : list Z) : HM HS unit :=
  n <- getFrame (fun f => Z.of_nat (length (Memory f))) ;;
  if (length bs =? 0)%nat then ret tt
  else if (0 <=? off) && (off + Z.of_nat (length bs) <=? n) then
    modFrame (fun f => set_Memory (write_at (Z.to_nat off) bs (Memory f)) f)
  else undef.

(** [n] bytes at [Frame->Memory.data() + off]. *)
Definition mem_read (off n : Z) : HM HS (list Z) :=
  sz <- getFrame (fun f => Z.of_nat (length (Memory f))) ;;
  if n =? 0 then ret []
  else if (0 <=? off) && (0 <=? n) && (off + n <=? sz) then
    getFrame (fun f => take (Z.to_nat n) (drop (Z.to_nat off) (Memory f)))
  else undef.

(** [n] bytes at offset [off] of a constant buffer. *)
Definition buf_read (buf : list Z) (off n : Z) : HM HS (list Z) :=
  if n =? 0 then ret []
  else if (0 <=? off) && (0 <=? n) && (off + n <=? Z.of_nat (length buf)) then
    ret (take (Z.to_nat n) (drop (Z.to_nat off) buf))
  else undef.

Definition zeros (n : Z) : list Z := replicate (Z.to_nat n) 0.
End Util.

Section Dispatch.
Context {HS : Type} {I : Intx} {H : EvmcHost HS} {V : Evmc}.

(** A handler class: the opcode whose table entry [calculateGas] reads, and
    [doExecute]. *)
Record Handler : Type := mkHandler { gas_opcode : Z; doExecute : HM HS unit }.

(** [EVMOpcodeHandlerBase::execute] with the metrics table [MT]; [uint64_t
    GasCost] is converted from the table's [int16_t]. *)
Definition execute (MT : metrics) (h : Handler) : HM HS unit :=
  let GasCost := u64 (MT (gas_opcode h)) in
  ok <- chargeGas GasCost ;;
  if negb ok then setStatus EVMC_OUT_OF_GAS ;;; exit
  else call (doExecute h).

Definition currentRevision : HM HS evmc_revision := getCtx (fun c => Rev (Inst c)).

(** Reads and updates of the host's state. *)
Definition hostRead {A} (f : HS -> A) : HM HS A := getCtx (fun c => f (hst c)).
Definition hostDo {A} (f : HS -> A * HS) : HM HS A :=
  h <- getCtx hst ;;
  let '(a, h') := f h in
  modCtx (set_hst h') ;;; ret a.

(** The operator templates. *)
Definition UnaryOpHandler (f : Z -> Z) : HM HS unit :=
  EVM_STACK_CHECK 1 ;;;
  sp <- getFrame Sp ;;
  A <- stack_at (sp - 1) ;;
  stack_set (sp - 1) (f A).

Definition BinaryOpHandler (f : Z -> Z -> Z) : HM HS unit :=
  EVM_STACK_CHECK 2 ;;;
  sp <- getFrame Sp ;;
  A <- stack_at (sp - 1) ;;
  B <- stack_at (sp - 2) ;;
  stack_set (sp - 2) (f A B) ;;;
  modFrame (set_Sp (sp - 1)).

Definition TernaryOpHandler (f : Z -> Z -> Z -> Z) : HM HS unit :=
  EVM_STACK_CHECK 3 ;;;
  sp <- getFrame Sp ;;
  A <- stack_at (sp - 1) ;;
  B <- stack_at (sp - 2) ;;
  C <- stack_at (sp - 3) ;;
  stack_set (sp - 3) (f A B C) ;;;
  modFrame (set_Sp (sp - 2)).
End Dispatch.

Arguments Handler HS : clear implicits.

(** Opcodes: the byte values of [evmc_opcode] as the dispatch table of
    [src/src/evm/interpreter.cpp] lists them.  The bytes of the PUSH, DUP and
    SWAP families, which the source handles as numeric ranges, and the bytes
    that are no instruction decode to [OP_OTHER]. *)

Inductive evmc_opcode : Type :=
| OP_STOP | OP_ADD | OP_MUL | OP_SUB | OP_DIV | OP_SDIV | OP_MOD | OP_SMOD | OP_ADDMOD |
OP_MULMOD | OP_EXP | OP_SIGNEXTEND | OP_LT | OP_GT | OP_SLT | OP_SGT | OP_EQ | OP_ISZERO |
OP_AND | OP_OR | OP_XOR | OP_NOT | OP_BYTE | OP_SHL | OP_SHR | OP_SAR | OP_CLZ | OP_KECCAK256 |
OP_ADDRESS | OP_BALANCE | OP_ORIGIN | OP_CALLER | OP_CALLVALUE | OP_CALLDATALOAD |
OP_CALLDATASIZE | OP_CALLDATACOPY | OP_CODESIZE | OP_CODECOPY | OP_GASPRICE | OP_EXTCODESIZE |
OP_EXTCODECOPY | OP_RETURNDATASIZE | OP_RETURNDATACOPY | OP_EXTCODEHASH | OP_BLOCKHASH |
OP_COINBASE | OP_TIMESTAMP | OP_NUMBER | OP_PREVRANDAO | OP_GASLIMIT | OP_CHAINID |
OP_SELFBALANCE | OP_BASEFEE | OP_BLOBHASH | OP_BLOBBASEFEE | OP_POP | OP_MLOAD | OP_MSTORE |
OP_MSTORE8 | OP_SLOAD | OP_SSTORE | OP_JUMP | OP_JUMPI | OP_PC | OP_MSIZE | OP_GAS |
OP_JUMPDEST | OP_TLOAD | OP_TSTORE | OP_MCOPY | OP_PUSH0 | OP_LOG0 | OP_LOG1 | OP_LOG2 |
OP_LOG3 | OP_LOG4 | OP_CREATE | OP_CALL | OP_CALLCODE | OP_RETURN | OP_DELEGATECALL |
OP_CREATE2 | OP_STATICCALL | OP_REVERT | OP_INVALID | OP_SELFDESTRUCT | OP_OTHER.

#[export] Instance evmc_opcode_eq_dec : EqDecision evmc_opcode.
Proof. intros x y. unfold Decision. decide equality. Defined.

Definition OP_PUSH1 : Z := 0x60.
Definition OP_PUSH32 : Z := 0x7f.
Definition OP_DUP1 : Z := 0x80.
Definition OP_DUP16 : Z := 0x8f.
Definition OP_SWAP1 : Z := 0x90.
Definition OP_SWAP16 : Z := 0x9f.

(** [static_cast<evmc_opcode>(OpcodeByte)] *)
Definition opcode_of_byte (b : Z) : evmc_opcode :=
  match b with
  | 0x00 => OP_STOP | 0x01 => OP_ADD | 0x02 => OP_MUL | 0x03 => OP_SUB | 0x04 => OP_DIV
  | 0x05 => OP_SDIV | 0x06 => OP_MOD | 0x07 => OP_SMOD | 0x08 => OP_ADDMOD | 0x09 => OP_MULMOD
  | 0x0a => OP_EXP | 0x0b => OP_SIGNEXTEND | 0x10 => OP_LT | 0x11 => OP_GT | 0x12 => OP_SLT
  | 0x13 => OP_SGT | 0x14 => OP_EQ | 0x15 => OP_ISZERO | 0x16 => OP_AND | 0x17 => OP_OR
  | 0x18 => OP_XOR | 0x19 => OP_NOT | 0x1a => OP_BYTE | 0x1b => OP_SHL | 0x1c => OP_SHR
  | 0x1d => OP_SAR | 0x1e => OP_CLZ | 0x20 => OP_KECCAK256 | 0x30 => OP_ADDRESS
  | 0x31 => OP_BALANCE | 0x32 => OP_ORIGIN | 0x33 => OP_CALLER | 0x34 => OP_CALLVALUE
  | 0x35 => OP_CALLDATALOAD | 0x36 => OP_CALLDATASIZE | 0x37 => OP_CALLDATACOPY
  | 0x38 => OP_CODESIZE | 0x39 => OP_CODECOPY | 0x3a => OP_GASPRICE | 0x3b => OP_EXTCODESIZE
  | 0x3c => OP_EXTCODECOPY | 0x3d => OP_RETURNDATASIZE | 0x3e => OP_RETURNDATACOPY
  | 0x3f => OP_EXTCODEHASH | 0x40 => OP_BLOCKHASH | 0x41 => OP_COINBASE | 0x42 => OP_TIMESTAMP
  | 0x43 => OP_NUMBER | 0x44 => OP_PREVRANDAO | 0x45 => OP_GASLIMIT | 0x46 => OP_CHAINID
  | 0x47 => OP_SELFBALANCE | 0x48 => OP_BASEFEE | 0x49 => OP_BLOBHASH | 0x4a => OP_BLOBBASEFEE
  | 0x50 => OP_POP | 0x51 => OP_MLOAD | 0x52 => OP_MSTORE | 0x53 => OP_MSTORE8 | 0x54 => OP_SLOAD
  | 0x55 => OP_SSTORE | 0x56 => OP_JUMP | 0x57 => OP_JUMPI | 0x58 => OP_PC | 0x59 => OP_MSIZE
  | 0x5a => OP_GAS | 0x5b => OP_JUMPDEST | 0x5c => OP_TLOAD | 0x5d => OP_TSTORE
  | 0x5e => OP_MCOPY | 0x5f => OP_PUSH0 | 0xa0 => OP_LOG0 | 0xa1 => OP_LOG1 | 0xa2 => OP_LOG2
  | 0xa3 => OP_LOG3 | 0xa4 => OP_LOG4 | 0xf0 => OP_CREATE | 0xf1 => OP_CALL | 0xf2 => OP_CALLCODE
  | 0xf3 => OP_RETURN | 0xf4 => OP_DELEGATECALL | 0xf5 => OP_CREATE2 | 0xfa => OP_STATICCALL
  | 0xfd => OP_REVERT | 0xfe => OP_INVALID | 0xff => OP_SELFDESTRUCT
  | _ => OP_OTHER
  end.

(** [static_cast<uint8_t>(OP_X)]; [OP_OTHER] has no byte of its own. *)
Definition byte_of_opcode (op : evmc_opcode) : Z :=
  match op with
  | OP_STOP => 0x00 | OP_ADD => 0x01 | OP_MUL => 0x02 | OP_SUB => 0x03 | OP_DIV => 0x04
  | OP_SDIV => 0x05 | OP_MOD => 0x06 | OP_SMOD => 0x07 | OP_ADDMOD => 0x08 | OP_MULMOD => 0x09
  | OP_EXP => 0x0a | OP_SIGNEXTEND => 0x0b | OP_LT => 0x10 | OP_GT => 0x11 | OP_SLT => 0x12
  | OP_SGT => 0x13 | OP_EQ => 0x14 | OP_ISZERO => 0x15 | OP_AND => 0x16 | OP_OR => 0x17
  | OP_XOR => 0x18 | OP_NOT => 0x19 | OP_BYTE => 0x1a | OP_SHL => 0x1b | OP_SHR => 0x1c
  | OP_SAR => 0x1d | OP_CLZ => 0x1e | OP_KECCAK256 => 0x20 | OP_ADDRESS => 0x30
  | OP_BALANCE => 0x31 | OP_ORIGIN => 0x32 | OP_CALLER => 0x33 | OP_CALLVALUE => 0x34
  | OP_CALLDATALOAD => 0x35 | OP_CALLDATASIZE => 0x36 | OP_CALLDATACOPY => 0x37
  | OP_CODESIZE => 0x38 | OP_CODECOPY => 0x39 | OP_GASPRICE => 0x3a | OP_EXTCODESIZE => 0x3b
  | OP_EXTCODECOPY => 0x3c | OP_RETURNDATASIZE => 0x3d | OP_RETURNDATACOPY => 0x3e
  | OP_EXTCODEHASH => 0x3f | OP_BLOCKHASH => 0x40 | OP_COINBASE => 0x41 | OP_TIMESTAMP => 0x42
  | OP_NUMBER => 0x43 | OP_PREVRANDAO => 0x44 | OP_GASLIMIT => 0x45 | OP_CHAINID => 0x46
  | OP_SELFBALANCE => 0x47 | OP_BASEFEE => 0x48 | OP_BLOBHASH => 0x49 | OP_BLOBBASEFEE => 0x4a
  | OP_POP => 0x50 | OP_MLOAD => 0x51 | OP_MSTORE => 0x52 | OP_MSTORE8 => 0x53 | OP_SLOAD => 0x54
  | OP_SSTORE => 0x55 | OP_JUMP => 0x56 | OP_JUMPI => 0x57 | OP_PC => 0x58 | OP_MSIZE => 0x59
  | OP_GAS => 0x5a | OP_JUMPDEST => 0x5b | OP_TLOAD => 0x5c | OP_TSTORE => 0x5d
  | OP_MCOPY => 0x5e | OP_PUSH0 => 0x5f | OP_LOG0 => 0xa0 | OP_LOG1 => 0xa1 | OP_LOG2 => 0xa2
  | OP_LOG3 => 0xa3 | OP_LOG4 => 0xa4 | OP_CREATE => 0xf0 | OP_CALL => 0xf1 | OP_CALLCODE => 0xf2
  | OP_RETURN => 0xf3 | OP_DELEGATECALL => 0xf4 | OP_CREATE2 => 0xf5 | OP_STATICCALL => 0xfa
  | OP_REVERT => 0xfd | OP_INVALID => 0xfe | OP_SELFDESTRUCT => 0xff
  | OP_OTHER => 256
  end.

Lemma opcode_of_byte_inv b : opcode_of_byte b <> OP_OTHER -> byte_of_opcode (opcode_of_byte b) = b.
Proof. unfold opcode_of_byte. repeat case_match; subst; done. Qed.

Lemma opcode_of_byte_inj b b' :
  opcode_of_byte b = opcode_of_byte b' -> opcode_of_byte b <> OP_OTHER -> b = b'.
Proof.
  intros E Hn. rewrite <- (opcode_of_byte_inv b), <- (opcode_of_byte_inv b'); [by rewrite E| |done].
  by rewrite <- E.
Qed.
