(* ===== verification/HandlersArith.v ===== *)
(** Arithmetic, comparison, bitwise and hashing handlers:
    [src/src/evm/opcode_handlers.h] (operator structs) and the arithmetic part
    of [src/src/evm/opcode_handlers.cpp]. *)

From S2P Require Import Prelude Intx Evmc GasStorageCost EvmInstance Frame HandlerUtil.

Section Ops.
Context {I : Intx}.

(** The [DEFINE_UNARY_OP], [DEFINE_BINARY_OP] and [DEFINE_TERNARY_OP] structs. *)
Definition AddOP (A B : Z) : Z := uadd A B.
Definition SubOP (A B : Z) : Z := usub A B.
Definition MulOP (A B : Z) : Z := umul A B.
Definition DivOP (A B : Z) : Z := if B =? 0 then 0 else udiv A B.
Definition ModOP (A B : Z) : Z := if B =? 0 then 0 else umod A B.
Definition SDivOP (A B : Z) : Z := if B =? 0 then 0 else (sdivrem A B).1.
Definition SModOP (A B : Z) : Z := if B =? 0 then 0 else (sdivrem A B).2.
Definition AddmodOP (A B C : Z) : Z := if C =? 0 then 0 else addmod A B C.
Definition MulmodOP (A B C : Z) : Z := if C =? 0 then 0 else mulmod A B C.
Definition NotOP (A : Z) : Z := unot A.
Definition IsZeroOP (A : Z) : Z := b2z (A =? 0).
Definition ClzOP (A : Z) : Z := uclz A.
Definition AndOP (A B : Z) : Z := uand A B.
Definition OrOP (A B : Z) : Z := uor A B.
Definition XorOP (A B : Z) : Z := uxor A B.
Definition ShlOP (A B : Z) : Z := if A <? 256 then ushl B A else 0.
Definition ShrOP (A B : Z) : Z := if A <? 256 then ushr B A else 0.
Definition EqOP (A B : Z) : Z := b2z (A =? B).
Definition LtOP (A B : Z) : Z := b2z (A <? B).
Definition GtOP (A B : Z) : Z := b2z (B <? A).
Definition SltOP (A B : Z) : Z := b2z (slt A B).
Definition SgtOP (A B : Z) : Z := b2z (slt B A).

(** The results computed by SIGNEXTEND, BYTE and SAR. *)
Definition signExtendRes (Idx V : Z) : Z :=
  if Idx <? 31 then
    let SignBitPosition := uadd (umul 8 Idx) 7 in
    let SignBit := negb (uand V (ushl 1 SignBitPosition) =? 0) in
    let Mask := usub (ushl 1 SignBitPosition) 1 in
    if SignBit then uor V (unot Mask) else uand V Mask
  else V.

Definition byteRes (Idx Val : Z) : Z :=
  if Idx <? 32 then u8 (low64 (uand (ushr Val (umul 8 (usub 31 Idx))) 0xFF)) else 0.

Definition sarRes (Shift V : Z) : Z :=
  if Shift <? 256 then
    let IsNegative := uand (ushr V 255) 1 in
    let Res := ushr V Shift in
    if negb (IsNegative =? 0) && (0 <? Shift) then
      let Mask := usub (ushl 1 (usub 256 Shift)) 1 in
      uor Res (unot Mask)
    else Res
  else
    let IsNegative := uand (ushr V 255) 1 in
    if negb (IsNegative =? 0) then unot 0 else 0.
End Ops.

Section Handlers.
Context {HS : Type} {I : Intx} {H : EvmcHost HS} {V : Evmc}.

Definition mk (op : evmc_opcode) (m : HM HS unit) : Handler HS :=
  mkHandler (byte_of_opcode op) m.

Definition AddHandler := mk OP_ADD (BinaryOpHandler AddOP).
Definition SubHandler := mk OP_SUB (BinaryOpHandler SubOP).
Definition MulHandler := mk OP_MUL (BinaryOpHandler MulOP).
Definition DivHandler := mk OP_DIV (BinaryOpHandler DivOP).
Definition ModHandler := mk OP_MOD (BinaryOpHandler ModOP).
Definition SDivHandler := mk OP_SDIV (BinaryOpHandler SDivOP).
Definition SModHandler := mk OP_SMOD (BinaryOpHandler SModOP).
Definition AddmodHandler := mk OP_ADDMOD (TernaryOpHandler AddmodOP).
Definition MulmodHandler := mk OP_MULMOD (TernaryOpHandler MulmodOP).
Definition NotHandler := mk OP_NOT (UnaryOpHandler NotOP).
Definition IsZeroHandler := mk OP_ISZERO (UnaryOpHandler IsZeroOP).
Definition ClzHandler := mk OP_CLZ (UnaryOpHandler ClzOP).
Definition AndHandler := mk OP_AND (BinaryOpHandler AndOP).
Definition OrHandler := mk OP_OR (BinaryOpHandler OrOP).
Definition XorHandler := mk OP_XOR (BinaryOpHandler XorOP).
Definition ShlHandler := mk OP_SHL (BinaryOpHandler ShlOP).
Definition ShrHandler := mk OP_SHR (BinaryOpHandler ShrOP).
Definition EqHandler := mk OP_EQ (BinaryOpHandler EqOP).
Definition LtHandler := mk OP_LT (BinaryOpHandler LtOP).
Definition GtHandler := mk OP_GT (BinaryOpHandler GtOP).
Definition SltHandler := mk OP_SLT (BinaryOpHandler SltOP).
Definition SgtHandler := mk OP_SGT (BinaryOpHandler SgtOP).

Definition SignExtend_doExecute : HM HS unit :=
  EVM_STACK_CHECK 2 ;;;
  Idx <- pop ;;
  V_ <- pop ;;
  push (signExtendRes Idx V_).
Definition SignExtendHandler := mk OP_SIGNEXTEND SignExtend_doExecute.

Definition Byte_doExecute : HM HS unit :=
  EVM_STACK_CHECK 2 ;;;
  Idx <- pop ;;
  Val <- pop ;;
  push (byteRes Idx Val).
Definition ByteHandler := mk OP_BYTE Byte_doExecute.

Definition Sar_doExecute : HM HS unit :=
  EVM_STACK_CHECK 2 ;;;
  Shift <- pop ;;
  V_ <- pop ;;
  push (sarRes Shift V_).
Definition SarHandler := mk OP_SAR Sar_doExecute.

Definition Exp_doExecute : HM HS unit :=
  EVM_STACK_CHECK 2 ;;;
  sp <- getFrame Sp ;;
  A <- stack_at (sp - 1) ;;
  B <- stack_at (sp - 2) ;;
  Rev_ <- currentRevision ;;
  let BytesNum := count_significant_bytes B in
  let ByteGas :=
    if rev_lt Rev_ EVMC_SPURIOUS_DRAGON then EXP_BYTE_GAS_PRE_SPURIOUS_DRAGON
    else EXP_BYTE_GAS in
  orStatus (chargeGas (u64 (BytesNum * ByteGas))) EVMC_OUT_OF_GAS ;;;
  stack_set (sp - 2) (uexp A B) ;;;
  modFrame (set_Sp (sp - 1)).
Definition ExpHandler := mk OP_EXP Exp_doExecute.

Definition Keccak256_doExecute : HM HS unit :=
  EVM_STACK_CHECK 2 ;;;
  Offset <- pop ;;
  Length <- pop ;;
  orStatus (checkMemoryExpandAndChargeGas Offset Length) EVMC_OUT_OF_GAS ;;;
  let DataLength := low64 Length in
  let MemOffset := if DataLength =? 0 then 0 else low64 Offset in
  let ExtraGas := u64 (u64 (numWords DataLength) * 6) in
  orStatus (chargeGas ExtraGas) EVMC_OUT_OF_GAS ;;;
  InputData <- mem_read MemOffset DataLength ;;
  push (be_load (keccak256 InputData)).
Definition Keccak256Handler := mk OP_KECCAK256 Keccak256_doExecute.
End Handlers.
