(* ===== verification/HandlersEnv.v ===== *)
(** Environment and block handlers of [src/src/evm/opcode_handlers.cpp]:
    account queries, call data, code and return data, block information,
    storage reads, transient storage and storage writes. *)

From S2P Require Import Prelude Intx Evmc GasStorageCost EvmInstance Frame HandlerUtil HandlersArith.

Section Env.
Context {HS : Type} {I : Intx} {H : EvmcHost HS} {V : Evmc}.

(** [Rev >= EVMC_BERLIN && Host->access_account(Addr) == EVMC_ACCESS_COLD] *)
Definition coldAccount (Rev_ : evmc_revision) (Addr : list Z) : HM HS bool :=
  if rev_ge Rev_ EVMC_BERLIN then
    a <- hostDo (access_account Addr) ;; ret (is_cold a)
  else ret false.

Definition coldStorage (Rev_ : evmc_revision) (Addr Key : list Z) : HM HS bool :=
  if rev_ge Rev_ EVMC_BERLIN then
    a <- hostDo (access_storage Addr Key) ;; ret (is_cold a)
  else ret false.

(** A handler that pushes one value and nothing else. *)
Definition pushValue (m : HM HS Z) : HM HS unit :=
  EVM_REQUIRE_STACK_SPACE 1 ;;; v <- m ;; push v.

Definition GasHandler := mk OP_GAS (pushValue (g <- getFrame fgas ;; ret (of_i64 g))).
Definition AddressHandler :=
  mk OP_ADDRESS (pushValue (r <- getFrame (fun f => recipient (Msg f)) ;; ret (be_load r))).
Definition OriginHandler := mk OP_ORIGIN (pushValue (t <- getTxContext ;; ret (be_load (tx_origin t)))).
Definition CallerHandler :=
  mk OP_CALLER (pushValue (r <- getFrame (fun f => sender (Msg f)) ;; ret (be_load r))).
Definition CallValueHandler :=
  mk OP_CALLVALUE (pushValue (r <- getFrame (fun f => value (Msg f)) ;; ret (be_load r))).
Definition CallDataSizeHandler :=
  mk OP_CALLDATASIZE (pushValue (d <- getFrame (fun f => input_data (Msg f)) ;; ret (Z.of_nat (length d)))).
Definition CodeSizeHandler :=
  mk OP_CODESIZE (pushValue (c <- getCtx (fun c => ModCode (Inst c)) ;; ret (Z.of_nat (length c)))).
Definition GasPriceHandler :=
  mk OP_GASPRICE (pushValue (t <- getTxContext ;; ret (be_load (tx_gas_price t)))).
Definition ReturnDataSizeHandler :=
  mk OP_RETURNDATASIZE (pushValue (d <- getCtx ReturnData ;; ret (Z.of_nat (length d)))).
Definition CoinBaseHandler :=
  mk OP_COINBASE (pushValue (t <- getTxContext ;; ret (be_load (block_coinbase t)))).
Definition TimeStampHandler :=
  mk OP_TIMESTAMP (pushValue (t <- getTxContext ;; ret (of_i64 (block_timestamp t)))).
Definition NumberHandler :=
  mk OP_NUMBER (pushValue (t <- getTxContext ;; ret (of_i64 (block_number t)))).
Definition PrevRanDaoHandler :=
  mk OP_PREVRANDAO (pushValue (t <- getTxContext ;; ret (be_load (block_prev_randao t)))).
Definition ChainIdHandler :=
  mk OP_CHAINID (pushValue (t <- getTxContext ;; ret (be_load (chain_id t)))).
Definition SelfBalanceHandler :=
  mk OP_SELFBALANCE (pushValue
    (r <- getFrame (fun f => recipient (Msg f)) ;; b <- hostRead (get_balance r) ;; ret (be_load b))).
Definition BaseFeeHandler :=
  mk OP_BASEFEE (pushValue (t <- getTxContext ;; ret (be_load (block_base_fee t)))).
Definition BlobBaseFeeHandler :=
  mk OP_BLOBBASEFEE (pushValue (t <- getTxContext ;; ret (be_load (blob_base_fee t)))).
Definition PCHandler := mk OP_PC (pushValue (p <- getFrame Pc ;; ret (Z.of_nat p))).
Definition MSizeHandler :=
  mk OP_MSIZE (pushValue (n <- getFrame (fun f => length (Memory f)) ;; ret (Z.of_nat n))).
Definition GasLimitHandler :=
  mk OP_GASLIMIT (pushValue (t <- getTxContext ;; ret (of_i64 (block_gas_limit t)))).

Definition Balance_doExecute : HM HS unit :=
  EVM_STACK_CHECK 1 ;;;
  X <- pop ;;
  let Addr := be_trunc_address X in
  Rev_ <- currentRevision ;;
  cold <- coldAccount Rev_ Addr ;;
  (if cold then orStatus (chargeGas ADDITIONAL_COLD_ACCOUNT_ACCESS_COST) EVMC_OUT_OF_GAS
   else ret tt) ;;;
  b <- hostRead (get_balance Addr) ;;
  push (be_load b).
Definition BalanceHandler := mk OP_BALANCE Balance_doExecute.

Definition CallDataLoad_doExecute : HM HS unit :=
  EVM_STACK_CHECK 1 ;;;
  OffsetVal <- pop ;;
  let Offset := uint256ToUint64 OffsetVal in
  input <- getFrame (fun f => input_data (Msg f)) ;;
  let input_size := Z.of_nat (length input) in
  if input_size <? OffsetVal then push 0 ;;; exit
  else
    bs <- buf_read input Offset (Z.min 32 (u64 (input_size - Offset))) ;;
    push (be_load (bs ++ replicate (32 - length bs) 0)).
Definition CallDataLoadHandler := mk OP_CALLDATALOAD CallDataLoad_doExecute.

Definition CallDataCopy_doExecute : HM HS unit :=
  EVM_STACK_CHECK 3 ;;;
  DestOffsetVal <- pop ;;
  OffsetVal <- pop ;;
  SizeVal <- pop ;;
  orStatus (checkMemoryExpandAndChargeGas DestOffsetVal SizeVal) EVMC_OUT_OF_GAS ;;;
  let DestOffset := uint256ToUint64 DestOffsetVal in
  let Offset := uint256ToUint64 OffsetVal in
  let Size := uint256ToUint64 SizeVal in
  input <- getFrame (fun f => input_data (Msg f)) ;;
  let input_size := Z.of_nat (length input) in
  let Src := if input_size <? Offset then input_size else Offset in
  let CopySize := Z.min Size (u64 (input_size - Src)) in
  orStatus (copyCodeAndChargeGas Size) EVMC_OUT_OF_GAS ;;;
  (if 0 <? CopySize then
     bs <- buf_read input Src CopySize ;; mem_write DestOffset bs
   else ret tt) ;;;
  (if CopySize <? Size then mem_write (DestOffset + CopySize) (zeros (Size - CopySize))
   else ret tt).
Definition CallDataCopyHandler := mk OP_CALLDATACOPY CallDataCopy_doExecute.

Definition CodeCopy_doExecute : HM HS unit :=
  EVM_STACK_CHECK 3 ;;;
  Code <- getCtx (fun c => ModCode (Inst c)) ;;
  let CodeSize := Z.of_nat (length Code) in
  DestOffsetVal <- pop ;;
  OffsetVal <- pop ;;
  SizeVal <- pop ;;
  orStatus (checkMemoryExpandAndChargeGas DestOffsetVal SizeVal) EVMC_OUT_OF_GAS ;;;
  let DestOffset := uint256ToUint64 DestOffsetVal in
  let Offset := uint256ToUint64 OffsetVal in
  let Size := uint256ToUint64 SizeVal in
  orStatus (copyCodeAndChargeGas Size) EVMC_OUT_OF_GAS ;;;
  if Offset <? CodeSize then
    let CopySize := Z.min Size (CodeSize - Offset) in
    bs <- buf_read Code Offset CopySize ;;
    mem_write DestOffset bs ;;;
    (if CopySize <? Size then mem_write (DestOffset + CopySize) (zeros (Size - CopySize))
     else ret tt)
  else if 0 <? Size then mem_write DestOffset (zeros Size)
  else ret tt.
Definition CodeCopyHandler := mk OP_CODECOPY CodeCopy_doExecute.

Definition ExtCodeSize_doExecute : HM HS unit :=
  EVM_STACK_CHECK 1 ;;;
  X <- pop ;;
  let Addr := be_trunc_address X in
  Rev_ <- currentRevision ;;
  cold <- coldAccount Rev_ Addr ;;
  (if cold then chargeSigned ADDITIONAL_COLD_ACCOUNT_ACCESS_COST else ret tt) ;;;
  CodeSize <- hostRead (get_code_size Addr) ;;
  EVM_REQUIRE_STACK_SPACE 1 ;;;
  push CodeSize.
Definition ExtCodeSizeHandler := mk OP_EXTCODESIZE ExtCodeSize_doExecute.

Definition ExtCodeCopy_doExecute : HM HS unit :=
  EVM_STACK_CHECK 4 ;;;
  X <- pop ;;
  DestOffsetVal <- pop ;;
  OffsetVal <- pop ;;
  SizeVal <- pop ;;
  let Addr := be_trunc_address X in
  orStatus (checkMemoryExpandAndChargeGas DestOffsetVal SizeVal) EVMC_OUT_OF_GAS ;;;
  let DestOffset := uint256ToUint64 DestOffsetVal in
  let Offset := uint256ToUint64 OffsetVal in
  let Size := uint256ToUint64 SizeVal in
  orStatus (copyCodeAndChargeGas Size) EVMC_OUT_OF_GAS ;;;
  Rev_ <- currentRevision ;;
  cold <- coldAccount Rev_ Addr ;;
  (if cold then chargeSigned ADDITIONAL_COLD_ACCOUNT_ACCESS_COST else ret tt) ;;;
  if 0 <? Size then
    copied <- hostRead (copy_code Addr Offset Size) ;;
    mem_write DestOffset copied ;;;
    let CopiedSize := Z.of_nat (length copied) in
    (if CopiedSize <? Size then mem_write (DestOffset + CopiedSize) (zeros (Size - CopiedSize))
     else ret tt)
  else ret tt.
Definition ExtCodeCopyHandler := mk OP_EXTCODECOPY ExtCodeCopy_doExecute.

Definition ReturnDataCopy_doExecute : HM HS unit :=
  EVM_STACK_CHECK 3 ;;;
  DestOffsetVal <- pop ;;
  OffsetVal <- pop ;;
  SizeVal <- pop ;;
  Data <- getCtx ReturnData ;;
  let DataSize := Z.of_nat (length Data) in
  EVM_SET_EXCEPTION_UNLESS
    (negb ((DataSize <? OffsetVal) || (DataSize <? SizeVal)
           || (DataSize <? uadd OffsetVal SizeVal)))
    EVMC_INVALID_MEMORY_ACCESS ;;;
  orStatus (checkMemoryExpandAndChargeGas DestOffsetVal SizeVal) EVMC_OUT_OF_GAS ;;;
  let DestOffset := uint256ToUint64 DestOffsetVal in
  let Offset := uint256ToUint64 OffsetVal in
  let Size := uint256ToUint64 SizeVal in
  orStatus (copyCodeAndChargeGas Size) EVMC_OUT_OF_GAS ;;;
  if 0 <? Size then
    bs <- buf_read Data Offset Size ;; mem_write DestOffset bs
  else ret tt.
Definition ReturnDataCopyHandler := mk OP_RETURNDATACOPY ReturnDataCopy_doExecute.

Definition ExtCodeHash_doExecute : HM HS unit :=
  EVM_STACK_CHECK 1 ;;;
  X <- pop ;;
  let Addr := be_trunc_address X in
  Rev_ <- currentRevision ;;
  cold <- coldAccount Rev_ Addr ;;
  (if cold then chargeSigned ADDITIONAL_COLD_ACCOUNT_ACCESS_COST else ret tt) ;;;
  EVM_REQUIRE_STACK_SPACE 1 ;;;
  h <- hostRead (get_code_hash Addr) ;;
  push (be_load h).
Definition ExtCodeHashHandler := mk OP_EXTCODEHASH ExtCodeHash_doExecute.

Definition BlockHash_doExecute : HM HS unit :=
  EVM_STACK_CHECK 1 ;;;
  BlockNumberVal <- pop ;;
  t <- getTxContext ;;
  let UpperBound := block_number t in
  let LowerBound := Z.max (UpperBound - 256) 0 in
  let BlockNumber := i64 (low64 BlockNumberVal) in
  Header <- (if (BlockNumberVal <? of_i64 UpperBound) && (LowerBound <=? BlockNumber)
             then hostRead (get_block_hash BlockNumber) else ret zero32) ;;
  push (be_load Header).
Definition BlockHashHandler := mk OP_BLOCKHASH BlockHash_doExecute.

Definition BlobHash_doExecute : HM HS unit :=
  EVM_STACK_CHECK 1 ;;;
  IndexVal <- pop ;;
  let Index := uint256ToUint64 IndexVal in
  t <- getTxContext ;;
  if Z.of_nat (length (blob_hashes t)) <=? IndexVal then push 0 ;;; exit
  else
    BlobHash <- of_option (blob_hashes t !! Z.to_nat Index) ;;
    EVM_REQUIRE_STACK_SPACE 1 ;;;
    push (be_load BlobHash).
Definition BlobHashHandler := mk OP_BLOBHASH BlobHash_doExecute.

Definition SLoad_doExecute : HM HS unit :=
  EVM_STACK_CHECK 1 ;;;
  Key <- pop ;;
  let KeyAddr := be_store Key in
  Rev_ <- currentRevision ;;
  self <- getFrame (fun f => recipient (Msg f)) ;;
  cold <- coldStorage Rev_ self KeyAddr ;;
  (if cold then chargeSigned ADDITIONAL_COLD_SLOAD_COST else ret tt) ;;;
  v <- hostRead (get_storage self KeyAddr) ;;
  push (be_load v).
Definition SLoadHandler := mk OP_SLOAD SLoad_doExecute.

Definition SStore_doExecute : HM HS unit :=
  static <- isStaticMode ;;
  EVM_SET_EXCEPTION_UNLESS (negb static) EVMC_STATIC_MODE_VIOLATION ;;;
  Rev_ <- currentRevision ;;
  g <- getFrame fgas ;;
  EVM_SET_EXCEPTION_UNLESS
    (negb (rev_ge Rev_ EVMC_ISTANBUL && (g <=? SSTORE_REQUIRED_ISTANBUL))) EVMC_OUT_OF_GAS ;;;
  EVM_STACK_CHECK 2 ;;;
  k <- pop ;;
  let Key := be_store k in
  v <- pop ;;
  let Val := be_store v in
  self <- getFrame (fun f => recipient (Msg f)) ;;
  cold <- coldStorage Rev_ self Key ;;
  let GasCostCold := if cold then COLD_SLOAD_COST else 0 in
  st <- hostDo (set_storage self Key Val) ;;
  let e := SSTORE_COSTS Rev_ st in
  orStatus (chargeGas (u64 (GasCostCold + GasCost e))) EVMC_OUT_OF_GAS ;;;
  modCtx (fun c => set_Inst (addGasRefund (GasReFund e) (Inst c)) c).
Definition SStoreHandler := mk OP_SSTORE SStore_doExecute.

Definition TLoad_doExecute : HM HS unit :=
  EVM_STACK_CHECK 1 ;;;
  X <- pop ;;
  let Key := be_store X in
  self <- getFrame (fun f => recipient (Msg f)) ;;
  v <- hostRead (get_transient_storage self Key) ;;
  push (be_load v).
Definition TLoadHandler := mk OP_TLOAD TLoad_doExecute.

Definition TStore_doExecute : HM HS unit :=
  static <- isStaticMode ;;
  EVM_SET_EXCEPTION_UNLESS (negb static) EVMC_STATIC_MODE_VIOLATION ;;;
  EVM_STACK_CHECK 2 ;;;
  k <- pop ;;
  let Key := be_store k in
  v <- pop ;;
  let Val := be_store v in
  self <- getFrame (fun f => recipient (Msg f)) ;;
  hostDo (fun h => (tt, set_transient_storage self Key Val h)).
Definition TStoreHandler := mk OP_TSTORE TStore_doExecute.
End Env.
