(* ===== verification/HandlersCall.v ===== *)
(** Memory, control-flow, logging, call and termination handlers of
    [src/src/evm/opcode_handlers.cpp]. *)

From S2P Require Import Prelude Intx Evmc GasStorageCost EvmInstance Frame HandlerUtil HandlersArith HandlersEnv.

Section Memory.
Context {HS : Type} {I : Intx} {H : EvmcHost HS} {V : Evmc}.

Definition MStore_doExecute : HM HS unit :=
  EVM_STACK_CHECK 2 ;;;
  OffsetVal <- pop ;;
  Val <- pop ;;
  orStatus (checkMemoryExpandAndChargeGas64 OffsetVal 32) EVMC_OUT_OF_GAS ;;;
  let Offset := low64 OffsetVal in
  mem_write Offset (be_store Val).
Definition MStoreHandler := mk OP_MSTORE MStore_doExecute.

Definition MStore8_doExecute : HM HS unit :=
  EVM_STACK_CHECK 2 ;;;
  OffsetVal <- pop ;;
  Val <- pop ;;
  orStatus (checkMemoryExpandAndChargeGas64 OffsetVal 1) EVMC_OUT_OF_GAS ;;;
  let Offset := low64 OffsetVal in
  let ByteValue := u8 (low64 (uand Val 0xFF)) in
  mem_write Offset [ByteValue].
Definition MStore8Handler := mk OP_MSTORE8 MStore8_doExecute.

Definition MLoad_doExecute : HM HS unit :=
  EVM_STACK_CHECK 1 ;;;
  OffsetVal <- pop ;;
  orStatus (checkMemoryExpandAndChargeGas64 OffsetVal 32) EVMC_OUT_OF_GAS ;;;
  let Offset := low64 OffsetVal in
  ValueBytes <- mem_read Offset 32 ;;
  push (be_load ValueBytes).
Definition MLoadHandler := mk OP_MLOAD MLoad_doExecute.

Definition MCopy_doExecute : HM HS unit :=
  EVM_STACK_CHECK 3 ;;;
  DestOffsetVal <- pop ;;
  OffsetVal <- pop ;;
  SizeVal <- pop ;;
  if SizeVal =? 0 then exit
  else
    orStatus (checkMemoryExpandAndChargeGas (Z.max DestOffsetVal OffsetVal) SizeVal)
      EVMC_OUT_OF_GAS ;;;
    let DestOffset := low64 DestOffsetVal in
    let Offset := low64 OffsetVal in
    let Size := uint256ToUint64 SizeVal in
    orStatus (copyCodeAndChargeGas Size) EVMC_OUT_OF_GAS ;;;
    if 0 <? Size then
      bs <- mem_read Offset Size ;; mem_write DestOffset bs
    else ret tt.
Definition MCopyHandler := mk OP_MCOPY MCopy_doExecute.

(** [JumpHandler] and [JumpIHandler]; the interpreter does not call them, it
    has its own jump code. *)
Definition jumpTo (Dest : Z) : HM HS unit :=
  Code <- getCtx (fun c => ModCode (Inst c)) ;;
  EVM_SET_EXCEPTION_UNLESS (Dest <? Z.of_nat (length Code)) EVMC_BAD_JUMP_DESTINATION ;;;
  b <- of_option (Code !! Z.to_nat Dest) ;;
  EVM_SET_EXCEPTION_UNLESS (b =? byte_of_opcode OP_JUMPDEST) EVMC_BAD_JUMP_DESTINATION ;;;
  modFrame (set_Pc (Z.to_nat Dest)) ;;;
  modCtx (set_IsJump true).

Definition Jump_doExecute : HM HS unit :=
  EVM_STACK_CHECK 1 ;;;
  d <- pop ;;
  jumpTo (uint256ToUint64 d).

Definition JumpI_doExecute : HM HS unit :=
  EVM_STACK_CHECK 2 ;;;
  d <- pop ;;
  Cond <- pop ;;
  if Cond =? 0 then exit else jumpTo (uint256ToUint64 d).

(** LOG0..LOG4 *)
Fixpoint popTopics (n : nat) : HM HS (list (list Z)) :=
  match n with
  | O => ret []
  | S n' => t <- pop ;; ts <- popTopics n' ;; ret (be_store t :: ts)
  end.

Definition Log_doExecute (OpCode : Z) : HM HS unit :=
  static <- isStaticMode ;;
  EVM_SET_EXCEPTION_UNLESS (negb static) EVMC_STATIC_MODE_VIOLATION ;;;
  let NumTopics := Z.to_nat (u32 (OpCode - byte_of_opcode OP_LOG0)) in
  EVM_STACK_CHECK (NumTopics + 2) ;;;
  OffsetVal <- pop ;;
  SizeVal <- pop ;;
  orStatus (checkMemoryExpandAndChargeGas OffsetVal SizeVal) EVMC_OUT_OF_GAS ;;;
  let Size := low64 SizeVal in
  let Offset := if Size =? 0 then 0 else low64 OffsetVal in
  let LogDataCost := u64 (8 * Size) in
  orStatus (chargeGas LogDataCost) EVMC_OUT_OF_GAS ;;;
  Topics <- popTopics NumTopics ;;
  self <- getFrame (fun f => recipient (Msg f)) ;;
  data <- mem_read Offset Size ;;
  hostDo (fun h => (tt, emit_log self data Topics h)).
Definition LogHandler (OpCode : Z) : Handler HS := mkHandler OpCode (Log_doExecute OpCode).
End Memory.

Section Calls.
Context {HS : Type} {I : Intx} {H : EvmcHost HS} {V : Evmc}.

Definition clearReturnData : HM HS unit := modCtx (set_ReturnData []).
Definition setReturnData (d : list Z) : HM HS unit := modCtx (set_ReturnData d).
Definition addRefund (r : Z) : HM HS unit :=
  modCtx (fun c => set_Inst (addGasRefund r (Inst c)) c).

(** [Context->setStatus(EVMC_SUCCESS); return;] of a call that is not made. *)
Definition lightFailure : HM HS unit := setStatus EVMC_SUCCESS ;;; exit.

Definition positive_part (z : Z) : Z := if 0 <? z then z else 0.

Definition create_message (OpCode : evmc_opcode) (m : evmc_message) (g : Z) (Val Salt : Z)
    (initcode : list Z) : evmc_message :=
  mkMsg (match OpCode with OP_CREATE2 => EVMC_CREATE2 | _ => EVMC_CREATE end)
    0 (depth m + 1) g zero20 (recipient m) initcode (be_store Val) (be_store Salt) zero20 [].

Definition Create_doExecute (OpCode : evmc_opcode) : HM HS unit :=
  (match OpCode with
   | OP_CREATE => EVM_STACK_CHECK 3
   | OP_CREATE2 => EVM_STACK_CHECK 4
   | _ => setStatus EVMC_INVALID_INSTRUCTION ;;; exit
   end) ;;;
  let is2 := match OpCode with OP_CREATE2 => true | _ => false end in
  Val <- pop ;;
  CodeOffset <- pop ;;
  CodeSizeVal <- pop ;;
  Salt <- (if is2 then pop else ret 0) ;;
  EVM_REQUIRE_STACK_SPACE 1 ;;;
  push 0 ;;;
  clearReturnData ;;;
  static <- isStaticMode ;;
  EVM_SET_EXCEPTION_UNLESS (negb static) EVMC_STATIC_MODE_VIOLATION ;;;
  orStatus (checkMemoryExpandAndChargeGas CodeOffset CodeSizeVal) EVMC_OUT_OF_GAS ;;;
  Rev_ <- currentRevision ;;
  EVM_SET_EXCEPTION_UNLESS
    (negb (rev_ge Rev_ EVMC_SHANGHAI && (MAX_SIZE_OF_INITCODE <? CodeSizeVal))) EVMC_OUT_OF_GAS ;;;
  let InitCodeWordCost := 6 * b2z is2 + 2 * b2z (rev_ge Rev_ EVMC_SHANGHAI) in
  let InitCodeSize := uint256ToUint64 (udiv (uadd CodeSizeVal 31) 32) in
  let InitCodeCost := u64 (InitCodeWordCost * InitCodeSize) in
  orStatus (chargeGas InitCodeCost) EVMC_OUT_OF_GAS ;;;
  m <- getFrame Msg ;;
  if Z.of_nat MAXSTACK <=? depth m then lightFailure
  else
    bal <- hostRead (get_balance (recipient m)) ;;
    if negb (Val =? 0) && (be_load bal <? Val) then lightFailure
    else
      let CodeSize := low64 CodeSizeVal in
      let CodeOffset64 := if CodeSize =? 0 then 0 else low64 CodeOffset in
      initcode <- mem_read CodeOffset64 CodeSize ;;
      let g :=
        if rev_ge Rev_ EVMC_TANGERINE_WHISTLE then gas m - Z.quot (gas m) 64 else gas m in
      Result <- hostDo (host_call (create_message OpCode m g Val Salt initcode)) ;;
      let CallGas := positive_part g in
      let GasLeft := positive_part (gas_left Result) in
      (if GasLeft <? CallGas then _ <- chargeGas (CallGas - GasLeft) ;; ret tt else ret tt) ;;;
      addRefund (gas_refund Result) ;;;
      (if is_success (status_code Result) then
         setReturnData [] ;;;
         _ <- pop ;;
         push (be_load (create_address Result))
       else setReturnData (output_data Result)) ;;;
      setStatus EVMC_SUCCESS.
Definition CreateHandler (OpCode : evmc_opcode) : Handler HS :=
  mkHandler (byte_of_opcode OpCode) (Create_doExecute OpCode).

(** EIP-7702 delegation designators. *)
Definition DelegationMagicBytes : list Z := [0xef; 0x01; 0x00].

Definition resolveDelegatedCallCodeAddress (Dest : list Z) : HM HS (list Z) :=
  Rev_ <- currentRevision ;;
  if rev_lt Rev_ EVMC_PRAGUE then ret Dest
  else
    Designation <- hostRead (copy_code Dest 0 23) ;;
    let Copied := length Designation in
    if (Copied <? 3)%nat || negb (bool_decide (take 3 Designation = DelegationMagicBytes))
    then ret Dest
    else if negb (Copied =? 23)%nat then ret Dest
    else
      let CodeAddress := take 20 (drop 3 Designation) in
      a <- hostDo (access_account CodeAddress) ;;
      let DelegateAccessCost :=
        if is_cold a then COLD_ACCOUNT_ACCESS_COST else WARM_STORAGE_READ_COST in
      g <- getFrame fgas ;;
      if u64 g <? DelegateAccessCost then setStatus EVMC_OUT_OF_GAS ;;; exit
      else
        modFrame (set_fgas (i64 (g - DelegateAccessCost))) ;;;
        ret CodeAddress.

Definition call_message (OpCode : evmc_opcode) (m : evmc_message) (CallKind : evmc_call_kind)
    (CallGas : Z) (Dest CodeAddress : list Z) (Val : Z) (input : list Z) : evmc_message :=
  let is_static := match OpCode with OP_STATICCALL => true | _ => false end in
  let is_delegate := match OpCode with OP_DELEGATECALL => true | _ => false end in
  let to_dest := match OpCode with OP_CALL | OP_STATICCALL => true | _ => false end in
  let fl := if is_static then EVMC_STATIC else flags m in
  let fl :=
    if negb (bool_decide (Dest = CodeAddress)) then Z.lor fl EVMC_DELEGATED
    else Z.land fl (u32 (Z.lnot EVMC_DELEGATED)) in
  mkMsg CallKind fl (depth m + 1) (i64 CallGas)
    (if to_dest then Dest else recipient m)
    (if is_delegate then sender m else recipient m)
    input
    (if is_delegate then value m else be_store Val)
    zero32 CodeAddress [].

(** The statements of [CallHandler::doExecute] up to the message: the gas
    the callee gets, or an early return. *)
Definition Call_gas (HasValueArgs HasValue : bool) (CallKind : evmc_call_kind)
    (Dest : list Z) (GasArg Val : Z) : HM HS Z :=
  Rev_ <- currentRevision ;;
  (if HasValueArgs then
     let GasCost := if HasValue then CALL_VALUE_COST else 0 in
     exists_ <- hostRead (account_exists Dest) ;;
     let is_call := match CallKind with EVMC_CALL => true | _ => false end in
     let GasCost :=
       if is_call && (HasValue || rev_lt Rev_ EVMC_SPURIOUS_DRAGON) && negb exists_
       then GasCost + ACCOUNT_CREATION_COST else GasCost in
     orStatus (chargeGas GasCost) EVMC_OUT_OF_GAS
   else ret tt) ;;;
  g <- getFrame fgas ;;
  let CallGas := uint256ToUint64 GasArg in
  let GasLeft := u64 g in
  CallGas <-
    (if rev_ge Rev_ EVMC_TANGERINE_WHISTLE then
       let GasCap := GasLeft - GasLeft / 64 in ret (Z.min CallGas GasCap)
     else if GasLeft <? CallGas then setStatus EVMC_OUT_OF_GAS ;;; exit
     else ret CallGas) ;;
  (if HasValueArgs && HasValue then
     modFrame (fun f => set_fgas (i64 (fgas f + CALL_GAS_STIPEND)) f) ;;;
     self <- getFrame (fun f => recipient (Msg f)) ;;
     bal <- hostRead (get_balance self) ;;
     if be_load bal <? Val then lightFailure else ret tt
   else ret tt) ;;;
  ret (if HasValueArgs && HasValue then u64 (CallGas + CALL_GAS_STIPEND) else CallGas).

Definition Call_doExecute (OpCode : evmc_opcode) : HM HS unit :=
  HasValueArgs <-
    (match OpCode with
     | OP_CALL | OP_CALLCODE => EVM_STACK_CHECK 7 ;;; ret true
     | OP_DELEGATECALL | OP_STATICCALL => EVM_STACK_CHECK 6 ;;; ret false
     | _ => setStatus EVMC_INVALID_INSTRUCTION ;;; exit
     end) ;;
  GasArg <- pop ;;
  DestVal <- pop ;;
  let Dest := be_trunc_address DestVal in
  Val <- (if HasValueArgs then pop else ret 0) ;;
  InputOffset <- pop ;;
  InputSize <- pop ;;
  OutputOffset <- pop ;;
  OutputSize <- pop ;;
  let HasValue := negb (Val =? 0) in
  EVM_REQUIRE_STACK_SPACE 1 ;;;
  push 0 ;;;
  clearReturnData ;;;
  Rev_ <- currentRevision ;;
  cold <- coldAccount Rev_ Dest ;;
  (if cold then orStatus (chargeGas ADDITIONAL_COLD_ACCOUNT_ACCESS_COST) EVMC_OUT_OF_GAS
   else ret tt) ;;;
  CodeAddress <- resolveDelegatedCallCodeAddress Dest ;;
  static <- isStaticMode ;;
  let is_call := match OpCode with OP_CALL => true | _ => false end in
  EVM_SET_EXCEPTION_UNLESS (negb (is_call && HasValue && static)) EVMC_STATIC_MODE_VIOLATION ;;;
  orStatus (checkMemoryExpandAndChargeGas InputOffset InputSize) EVMC_OUT_OF_GAS ;;;
  orStatus (checkMemoryExpandAndChargeGas OutputOffset OutputSize) EVMC_OUT_OF_GAS ;;;
  CallKind <-
    (match OpCode with
     | OP_CALL => ret EVMC_CALL
     | OP_CALLCODE => ret EVMC_CALLCODE
     | OP_DELEGATECALL => ret EVMC_DELEGATECALL
     | OP_STATICCALL => ret EVMC_CALL
     | _ => throw EVMInvalidInstruction
     end) ;;
  CallGas <- Call_gas HasValueArgs HasValue CallKind Dest GasArg Val ;;
  m <- getFrame Msg ;;
  if Z.of_nat MAXSTACK <=? depth m then lightFailure
  else
    let InputSize64 := low64 InputSize in
    let InputOffset64 := if InputSize64 =? 0 then 0 else low64 InputOffset in
    let OutputSize64 := low64 OutputSize in
    let OutputOffset64 := if OutputSize64 =? 0 then 0 else low64 OutputOffset in
    input <- mem_read InputOffset64 InputSize64 ;;
    let NewMsg := call_message OpCode m CallKind CallGas Dest CodeAddress Val input in
    Result <- hostDo (host_call NewMsg) ;;
    (if is_success (status_code Result) then _ <- pop ;; push 1 else ret tt) ;;;
    setReturnData (output_data Result) ;;;
    let CopySize := Z.min OutputSize64 (Z.of_nat (length (output_data Result))) in
    (if 0 <? CopySize then mem_write OutputOffset64 (take (Z.to_nat CopySize) (output_data Result))
     else ret tt) ;;;
    let CallGas := positive_part (gas NewMsg) in
    let GasLeft := positive_part (gas_left Result) in
    let GasUsed := if GasLeft <? CallGas then CallGas - GasLeft else 0 in
    (if 0 <? GasUsed then orStatus (chargeGas GasUsed) EVMC_OUT_OF_GAS else ret tt) ;;;
    addRefund (gas_refund Result) ;;;
    setStatus EVMC_SUCCESS.
Definition CallHandler (OpCode : evmc_opcode) : Handler HS :=
  mkHandler (byte_of_opcode OpCode) (Call_doExecute OpCode).
End Calls.

Section Termination.
Context {HS : Type} {I : Intx} {H : EvmcHost HS} {V : Evmc}.

(** RETURN, REVERT and SELFDESTRUCT end by giving the frame back: each is
    the statements before that, and [releaseFrame]. *)
Definition Return_body : HM HS unit :=
  EVM_STACK_CHECK 2 ;;;
  OffsetVal <- pop ;;
  SizeVal <- pop ;;
  orStatus (checkMemoryExpandAndChargeGas OffsetVal SizeVal) EVMC_OUT_OF_GAS ;;;
  let Size := low64 SizeVal in
  let Offset := if Size =? 0 then 0 else low64 OffsetVal in
  Data <- mem_read Offset Size ;;
  setReturnData Data ;;;
  setStatus EVMC_SUCCESS.

Definition Revert_body : HM HS unit :=
  EVM_STACK_CHECK 2 ;;;
  OffsetVal <- pop ;;
  SizeVal <- pop ;;
  orStatus (checkMemoryExpandAndChargeGas OffsetVal SizeVal) EVMC_OUT_OF_GAS ;;;
  let Size := low64 SizeVal in
  let Offset := if Size =? 0 then 0 else low64 OffsetVal in
  Data <- mem_read Offset Size ;;
  setStatus EVMC_REVERT ;;;
  setReturnData Data ;;;
  snap <- getFrame GasRefundSnapshot ;;
  modCtx (fun c => set_Inst (setGasRefund snap (Inst c)) c).

(** [evmc::bytes32]'s conversion to [bool]. *)
Definition nonzero_bytes (l : list Z) : bool := existsb (fun b => negb (b =? 0)) l.

Definition SelfDestruct_body : HM HS unit :=
  static <- isStaticMode ;;
  EVM_SET_EXCEPTION_UNLESS (negb static) EVMC_STATIC_MODE_VIOLATION ;;;
  EVM_STACK_CHECK 1 ;;;
  BeneficiaryAddr <- pop ;;
  let Beneficiary := be_trunc_address BeneficiaryAddr in
  Rev_ <- currentRevision ;;
  cold <- coldAccount Rev_ Beneficiary ;;
  (if cold then orStatus (chargeGas COLD_ACCOUNT_ACCESS_COST) EVMC_OUT_OF_GAS else ret tt) ;;;
  self <- getFrame (fun f => recipient (Msg f)) ;;
  (if rev_ge Rev_ EVMC_TANGERINE_WHISTLE then
     bal <- hostRead (get_balance self) ;;
     if bool_decide (Rev_ = EVMC_TANGERINE_WHISTLE) || nonzero_bytes bal then
       ex <- hostRead (account_exists Beneficiary) ;;
       if negb ex then orStatus (chargeGas ACCOUNT_CREATION_COST) EVMC_OUT_OF_GAS else ret tt
     else ret tt
   else ret tt) ;;;
  first <- hostDo (selfdestruct self Beneficiary) ;;
  (if first && rev_lt Rev_ EVMC_LONDON then addRefund EXTRA_REFUND_BEFORE_LONDON else ret tt) ;;;
  setStatus EVMC_SUCCESS ;;;
  setReturnData [].

(** [RemainingGas = Frame->Msg.gas; freeBackFrame();] and the gas goes to the
    frame below, if there is one. *)
Definition releaseFrame (s : hstate HS) : option EVMFrame * Context_ HS :=
  let RemainingGas := u64 (fgas (fr s)) in
  match freeBackFrame s with
  | (Some p, c) => (Some (set_fgas (i64 (fgas p + RemainingGas)) p), c)
  | (None, c) => (None, c)
  end.

(** A terminating handler: [bodyT], then the frame is released. *)
Inductive term_out : Type :=
| TDone (cur : option EVMFrame) (c : Context_ HS)
| TThrow (e : ErrorCode)
| TUndef.

Definition doExecute_term (bodyT : HM HS unit) (s : hstate HS) : term_out :=
  match bodyT s with
  | Ret _ s' => let '(o, c) := releaseFrame s' in TDone o c
  | Exit s' => TDone (Some (fr s')) (cx s')
  | Throw e _ => TThrow e
  | Undef => TUndef
  end.

(** [EVMOpcodeHandlerBase::execute] of a terminating handler. *)
Definition execute_term (MT : metrics) (op : evmc_opcode) (bodyT : HM HS unit) (s : hstate HS)
  : term_out :=
  doExecute_term
    (ok <- chargeGas (u64 (MT (byte_of_opcode op))) ;;
     if negb ok then setStatus EVMC_OUT_OF_GAS ;;; exit else bodyT) s.
End Termination.

Arguments term_out HS : clear implicits.
