(* ===== verification/BytecodeCache.v ===== *)
(** Bytecode cache: [src/src/evm/evm_cache.{h,cpp}].

    One pass over the code gives the valid jump destinations and the decoded
    PUSH immediates; a second one partitions the code into gas blocks, the
    straight-line stretches whose base gas is charged at once.  The pass that
    moves charges between blocks is in [Spp]. *)

From S2P Require Import Prelude Intx Evmc GasStorageCost HandlerUtil.

(** ** Opcode classes *)

Definition isPushOpcode (b : Z) : bool := (OP_PUSH1 <=? b) && (b <=? OP_PUSH32).

(** Length of an instruction, immediate included. *)
Definition opcodeLen (b : Z) : nat :=
  if isPushOpcode b then Z.to_nat (u8 (b - OP_PUSH1 + 2)) else 1%nat.

Definition isGasChunkTerminator (b : Z) : bool :=
  match opcode_of_byte b with
  | OP_STOP | OP_RETURN | OP_REVERT | OP_SELFDESTRUCT | OP_INVALID | OP_JUMP | OP_JUMPI
  | OP_GAS | OP_SSTORE | OP_CREATE | OP_CREATE2 | OP_CALL | OP_CALLCODE | OP_DELEGATECALL
  | OP_STATICCALL => true
  | _ => false
  end.

Definition isControlFlowTerminator (b : Z) : bool :=
  match opcode_of_byte b with
  | OP_STOP | OP_RETURN | OP_REVERT | OP_SELFDESTRUCT | OP_INVALID | OP_JUMP => true
  | _ => false
  end.

Definition isGasSensitiveTerminator (b : Z) : bool :=
  match opcode_of_byte b with
  | OP_GAS | OP_CREATE | OP_CREATE2 | OP_CALL | OP_CALLCODE | OP_DELEGATECALL | OP_STATICCALL =>
      true
  | _ => false
  end.

Definition isJumpOpcode (b : Z) : bool :=
  (b =? byte_of_opcode OP_JUMP) || (b =? byte_of_opcode OP_JUMPI).

(** ** PUSH immediates *)

Section Push.
Context {I : Intx}.

(** Eight bytes at [Src]. *)
Definition loadBeUint64 (Src : list Z) : Z := to_big_endian64 (le_value (take 8 Src)).

Definition loadBeUint64Partial (Src : list Z) (Len : nat) : Z :=
  if (Len =? 0)%nat then 0
  else if (Len =? 8)%nat then loadBeUint64 Src
  else to_big_endian64 (le_value (replicate (8 - Len) 0 ++ take Len Src)).

Definition loadBeUint256 (Src : list Z) (Len : nat) : Z :=
  if (Len <=? 8)%nat then of_words (loadBeUint64Partial Src Len) 0 0 0
  else
    let w0 := loadBeUint64 (drop (Len - 8) Src) in
    if (Len <=? 16)%nat then of_words w0 (loadBeUint64Partial Src (Len - 8)) 0 0
    else
      let w1 := loadBeUint64 (drop (Len - 16) Src) in
      if (Len <=? 24)%nat then of_words w0 w1 (loadBeUint64Partial Src (Len - 16)) 0
      else
        let w2 := loadBeUint64 (drop (Len - 24) Src) in
        of_words w0 w1 w2 (loadBeUint64Partial Src (Len - 24)).

Definition loadPushValue (Code : list Z) (Pc NumBytes : nat) : Z :=
  let CodeSize := length Code in
  let Offset := (Pc + 1)%nat in
  if (CodeSize <=? Offset)%nat then 0
  else
    let AvailableBytes := (CodeSize - Offset)%nat in
    let CopyBytes := Nat.min NumBytes AvailableBytes in
    if (CopyBytes =? 0)%nat then 0
    else
      let V := loadBeUint256 (drop Offset Code) CopyBytes in
      let MissingBytes := (NumBytes - CopyBytes)%nat in
      if negb (MissingBytes =? 0)%nat then ushl V (Z.of_nat MissingBytes * 8) else V.

(** The loop of [buildJumpDestMapAndPushCache]; [fuel] bounds the iterations
    left, of which the code's length is enough. *)
Fixpoint jumpPushLoop (fuel : nat) (Code : list Z) (Pc : nat) (JumpDestMap PushValueMap : list Z)
  : list Z * list Z :=
  match fuel with
  | O => (JumpDestMap, PushValueMap)
  | S fuel' =>
      match Code !! Pc with
      | None => (JumpDestMap, PushValueMap)
      | Some CurOpcode =>
          if CurOpcode =? byte_of_opcode OP_JUMPDEST then
            jumpPushLoop fuel' Code (Pc + 1) (<[Pc := 1]> JumpDestMap) PushValueMap
          else if isPushOpcode CurOpcode then
            let NumBytes := Z.to_nat (u8 (CurOpcode - OP_PUSH1 + 1)) in
            jumpPushLoop fuel' Code (Pc + NumBytes + 1) JumpDestMap
              (<[Pc := loadPushValue Code Pc NumBytes]> PushValueMap)
          else jumpPushLoop fuel' Code (Pc + 1) JumpDestMap PushValueMap
      end
  end.

Definition buildJumpDestMapAndPushCache (Code : list Z) (JumpDestMap PushValueMap : list Z)
  : list Z * list Z :=
  jumpPushLoop (length Code) Code 0 JumpDestMap PushValueMap.
End Push.

(** ** Gas blocks *)

(** [static_cast<uint32_t>] of a program counter. *)
Definition cast32 (n : nat) : nat := Z.to_nat (u32 (Z.of_nat n)).

(** In [PrevPc] (and in [BlockAtPc] below) [None] is the value [UINT32_MAX]. *)
Record GasBlock : Type := mkBlock {
  Start : nat;
  End_ : nat;
  LastPc : nat;
  PrevPc : option nat;
  LastOpcode : Z;
  PrevOpcode : Z;
  Cost : Z;
  Succs : list nat;
  Preds : list nat;
}.

Section Blocks.
Context (Code : list Z) (MT : metrics).
Let CodeSize := length Code.

(** First loop of [buildGasBlocks]: mark the block starts. *)
Fixpoint markStarts (fuel : nat) (Pc : nat) (IsBlockStart : list bool) : list bool :=
  match fuel with
  | O => IsBlockStart
  | S fuel' =>
      match Code !! Pc with
      | None => IsBlockStart
      | Some op =>
          let IsBlockStart :=
            if op =? byte_of_opcode OP_JUMPDEST then <[Pc := true]> IsBlockStart
            else IsBlockStart in
          let Len := opcodeLen op in
          let IsBlockStart :=
            if isGasChunkTerminator op && (Pc + Len <? CodeSize)%nat
            then <[(Pc + Len)%nat := true]> IsBlockStart else IsBlockStart in
          markStarts fuel' (Pc + Len) IsBlockStart
      end
  end.

(** The inner loop: extend [Block] by the instructions from [CurPc] on;
    returns the block and the final [CurPc]. *)
Fixpoint extendBlock (fuel : nat) (IsBlockStart : list bool) (Block : GasBlock) (CurPc : nat)
  : GasBlock * nat :=
  match fuel with
  | O => (Block, CurPc)
  | S fuel' =>
      match Code !! CurPc with
      | None => (Block, CurPc)
      | Some op =>
          if negb (CurPc =? Start Block)%nat && default false (IsBlockStart !! CurPc)
          then (Block, CurPc)
          else
            let Block :=
              mkBlock (Start Block) (End_ Block) (cast32 CurPc) (Some (LastPc Block)) op
                (LastOpcode Block) (u64 (Cost Block + MT op)) (Succs Block) (Preds Block) in
            let CurPc := (CurPc + opcodeLen op)%nat in
            if isGasChunkTerminator op then (Block, CurPc)
            else extendBlock fuel' IsBlockStart Block CurPc
      end
  end.

Definition newBlock (Pc : nat) : GasBlock := mkBlock (cast32 Pc) 0 0 None 0 0 0 [] [].

Definition set_End (e : nat) (b : GasBlock) : GasBlock :=
  mkBlock (Start b) e (LastPc b) (PrevPc b) (LastOpcode b) (PrevOpcode b) (Cost b) (Succs b)
    (Preds b).

(** Second loop: one block per block start. *)
Fixpoint collectBlocks (fuel : nat) (IsBlockStart : list bool) (Pc : nat)
    (Blocks : list GasBlock) (BlockAtPc : list (option nat))
  : list GasBlock * list (option nat) :=
  match fuel with
  | O => (Blocks, BlockAtPc)
  | S fuel' =>
      if (CodeSize <=? Pc)%nat then (Blocks, BlockAtPc)
      else if negb (default false (IsBlockStart !! Pc))
      then collectBlocks fuel' IsBlockStart (Pc + 1) Blocks BlockAtPc
      else
        let Block := newBlock Pc in
        if (CodeSize <=? Start Block)%nat then (Blocks, BlockAtPc)
        else
          let '(Block, CurPc) := extendBlock CodeSize IsBlockStart Block Pc in
          let Block := set_End (cast32 CurPc) Block in
          let BlockId := cast32 (length Blocks) in
          collectBlocks fuel' IsBlockStart CurPc (Blocks ++ [Block])
            (<[Pc := Some BlockId]> BlockAtPc)
  end.

Definition buildGasBlocks : list GasBlock * list (option nat) :=
  if (CodeSize =? 0)%nat then ([], [])
  else
    let IsBlockStart := <[0%nat := true]> (replicate CodeSize false) in
    let IsBlockStart := markStarts CodeSize 0 IsBlockStart in
    collectBlocks CodeSize IsBlockStart 0 [] (replicate CodeSize None).
End Blocks.

(** [resolveConstantJumpTarget]: the block ends in a jump whose target is the
    immediate pushed right before it. *)
Definition resolveConstantJumpTarget `{Intx} (JumpDestMap PushMap : list Z) (CodeSize : nat)
    (Block : GasBlock) : option nat :=
  match PrevPc Block with
  | None => None
  | Some prev =>
      if negb (isJumpOpcode (LastOpcode Block)) then None
      else if negb (isPushOpcode (PrevOpcode Block)) then None
      else if negb (prev + opcodeLen (PrevOpcode Block) =? LastPc Block)%nat then None
      else
        let V := default 0 (PushMap !! prev) in
        if negb (ushr V 64 =? 0) then None
        else
          let Dest := low64 V in
          if Z.of_nat CodeSize <=? Dest then None
          else if default 0 (JumpDestMap !! Z.to_nat Dest) =? 0 then None
          else Some (cast32 (Z.to_nat Dest))
  end.

(** The cache of a module. *)
Record EVMBytecodeCache : Type := mkCache {
  JumpDestMap : list Z;
  PushValueMap : list Z;
  GasChunkEnd : list Z;
  GasChunkCost : list Z;
}.
