(* ===== verification/SppGraph.v ===== *)
(** Control-flow graph of the gas blocks: the graph part of
    [src/src/evm/evm_cache.cpp] (edges, bit sets, reachability, dominators,
    cycles, natural loops, traversal order).

    Block numbers are [nat]; a vector of flags is a list; a bit set is its
    list of 64-bit words.  Loops over a work list take fuel and return [None]
    when it runs out; [SppSets] shows that the fuel given always
    suffices. *)

From S2P Require Import Prelude Intx Evmc GasStorageCost HandlerUtil BytecodeCache.
From stdpp Require Export sorting.

#[local] Open Scope Z_scope.

Definition emptyBlock : GasBlock := mkBlock 0 0 0 None 0 0 0 [] [].
#[export] Instance GasBlock_inhabited : Inhabited GasBlock := populate emptyBlock.

(** Reads and writes at an index; the source only uses indices in range. *)
Definition blockAt (Blocks : list GasBlock) (i : nat) : GasBlock := Blocks !!! i.
Definition flagAt (l : list bool) (i : nat) : bool := default false (l !! i).

Definition set_Succs (l : list nat) (b : GasBlock) : GasBlock :=
  mkBlock (Start b) (End_ b) (LastPc b) (PrevPc b) (LastOpcode b) (PrevOpcode b) (Cost b) l (Preds b).
Definition set_Preds (l : list nat) (b : GasBlock) : GasBlock :=
  mkBlock (Start b) (End_ b) (LastPc b) (PrevPc b) (LastOpcode b) (PrevOpcode b) (Cost b) (Succs b) l.

(** ** Edges *)

Definition add_once (x : nat) (l : list nat) : list nat :=
  if bool_decide (x ∈ l) then l else l ++ [x].

Definition addEdge (Blocks : list GasBlock) (From To : nat) : list GasBlock :=
  if (length Blocks <=? From)%nat || (length Blocks <=? To)%nat then Blocks
  else
    let Blocks := alter (fun b => set_Succs (add_once To (Succs b)) b) From Blocks in
    alter (fun b => set_Preds (add_once From (Preds b)) b) To Blocks.

(** The edges from a block with several successors to one with several
    predecessors. *)
Definition edgesToSplit (Blocks : list GasBlock) : list (nat * nat) :=
  flat_map (fun FromId =>
    let Ss := Succs (blockAt Blocks FromId) in
    if (length Ss <=? 1)%nat then []
    else
      flat_map (fun ToId =>
        if (length Blocks <=? ToId)%nat then []
        else if (1 <? length (Preds (blockAt Blocks ToId)))%nat then [(FromId, ToId)] else []) Ss)
    (seq 0 (length Blocks)).

Definition removeAll (x : nat) (l : list nat) : list nat :=
  filter (fun y => y <> x) l.

Definition splitEdge (CodeSize : nat) (st : list GasBlock * bool) (e : nat * nat)
  : list GasBlock * bool :=
  let '(Blocks, Changed) := st in
  let '(FromId, ToId) := e in
  let FromEnd := End_ (blockAt Blocks FromId) in
  if (CodeSize <=? FromEnd)%nat then (Blocks, Changed)
  else
    let NewBlock := mkBlock FromEnd FromEnd FromEnd None 0 0 0 [] [] in
    let NewId := cast32 (length Blocks) in
    let Blocks := alter (fun b => set_Succs (removeAll ToId (Succs b)) b) FromId Blocks in
    let Blocks := alter (fun b => set_Preds (removeAll FromId (Preds b)) b) ToId Blocks in
    let Blocks := Blocks ++ [NewBlock] in
    let Blocks := addEdge Blocks FromId NewId in
    (addEdge Blocks NewId ToId, true).

Definition splitCriticalEdges (CodeSize : nat) (Blocks : list GasBlock) : list GasBlock * bool :=
  fold_left (splitEdge CodeSize) (edgesToSplit Blocks) (Blocks, false).

(** ** Bit sets *)

Abbreviation bitset := (list Z) (only parsing).

Definition bitsetWordCount (NumBits : nat) : nat := (NumBits + 63) / 64.
Definition bitsetZero (Words : nat) : bitset := replicate Words 0.

Definition bitsetSetAll (Bits : bitset) (NumBits : nat) : bitset :=
  let Bits := map (fun _ => UINT64_MAX) Bits in
  let Remainder := (NumBits mod 64)%nat in
  if (Remainder =? 0)%nat then Bits
  else <[(length Bits - 1)%nat := Z.shiftl 1 (Z.of_nat Remainder) - 1]> Bits.

Definition bitOf (Index : nat) : Z := Z.shiftl 1 (Z.of_nat (Index mod 64)).

Definition bitsetSet (Bits : bitset) (Index : nat) : bitset :=
  alter (fun w => Z.lor w (bitOf Index)) (Index / 64)%nat Bits.
Definition bitsetClear (Bits : bitset) (Index : nat) : bitset :=
  alter (fun w => Z.land w (u64 (Z.lnot (bitOf Index)))) (Index / 64)%nat Bits.
Definition bitsetTest (Bits : bitset) (Index : nat) : bool :=
  negb (Z.land (default 0 (Bits !! (Index / 64)%nat)) (bitOf Index) =? 0).

Definition bitsetEqual (A B : bitset) : bool := bool_decide (A = B).
Definition bitsetAnd (A B : bitset) : bitset := zip_with Z.land A B.
Definition bitsetOr (A B : bitset) : bitset := zip_with Z.lor A B.
Definition bitsetIsSubset (Small Large : bitset) : bool :=
  forallb (fun '(s, l) => Z.land s (u64 (Z.lnot l)) =? 0) (zip Small Large).
Definition bitsetIntersects (A B : bitset) : bool :=
  existsb (fun '(a, b) => negb (Z.land a b =? 0)) (zip A B).

(** [__builtin_popcountll] *)
Definition popcount64 (w : Z) : nat :=
  length (filter (fun i => Z.testbit w (Z.of_nat i) = true) (seq 0 64)).
Definition bitsetCount (Bits : bitset) : nat := foldr (fun w n => (popcount64 w + n)%nat) 0%nat Bits.

(** ** Work lists

    The loop shape shared by [computeReachable], [collectNaturalLoop] and the
    second half of [computeInCycle]: pop a node, push its neighbours that are
    not marked yet.  [visited] collects the popped nodes. *)
Section Worklist.
Context {M : Type} (test : M -> nat -> bool) (mark : M -> nat -> M).
Context (NumBlocks : nat) (nexts : nat -> list nat) (allowed : nat -> bool).

Definition visitNext (st : M * list nat) (n : nat) : M * list nat :=
  let '(m, Stack) := st in
  if (NumBlocks <=? n)%nat then (m, Stack)
  else if negb (allowed n) then (m, Stack)
  else if test m n then (m, Stack)
  else (mark m n, n :: Stack).

Fixpoint worklist (fuel : nat) (m : M) (visited Stack : list nat) : option (M * list nat) :=
  match Stack with
  | [] => Some (m, visited)
  | Node :: Stack' =>
      match fuel with
      | O => None
      | S fuel' =>
          if (NumBlocks <=? Node)%nat then worklist fuel' m visited Stack'
          else
            let '(m', Stack'') := fold_left visitNext (nexts Node) (m, Stack') in
            worklist fuel' m' (visited ++ [Node]) Stack''
      end
  end.
End Worklist.

Definition setFlag (l : list bool) (i : nat) : list bool := <[i := true]> l.

Definition computeReachable (Blocks : list GasBlock) (EntryId : nat) : option (list bool) :=
  let NumBlocks := length Blocks in
  let Reachable := replicate NumBlocks false in
  if (NumBlocks =? 0)%nat || (NumBlocks <=? EntryId)%nat then Some Reachable
  else
    r ← worklist flagAt setFlag NumBlocks (fun n => Succs (blockAt Blocks n)) (fun _ => true)
           (NumBlocks + 1) (setFlag Reachable EntryId) [] [EntryId];
    Some r.1.

Definition collectNaturalLoop (From Header : nat) (Blocks : list GasBlock) (NumBlocks : nat)
    (Reachable : list bool) : option bitset :=
  let LoopBits := bitsetZero (bitsetWordCount NumBlocks) in
  let LoopBits := bitsetSet LoopBits Header in
  let LoopBits := bitsetSet LoopBits From in
  r ← worklist bitsetTest bitsetSet NumBlocks (fun n => Preds (blockAt Blocks n))
         (flagAt Reachable) (NumBlocks + 1) LoopBits [] [From];
  Some r.1.

(** ** Dominators *)

Section Dominators.
Context (Blocks : list GasBlock) (Reachable : list bool).
Let NumBlocks := length Blocks.
Let Words := bitsetWordCount NumBlocks.

Definition domAll : bitset :=
  let All := bitsetZero Words in
  if (0 <? NumBlocks)%nat then bitsetSetAll All NumBlocks else All.

Definition domAt (Dom : list bitset) (i : nat) : bitset := default [] (Dom !! i).

Definition noPreds (Node : nat) : bool :=
  negb (flagAt Reachable Node) || bool_decide (Preds (blockAt Blocks Node) = []).

Definition domInit : list bitset :=
  map (fun Node => if noPreds Node then bitsetSet (bitsetZero Words) Node else domAll)
    (seq 0 NumBlocks).

(** The intersection over the reachable predecessors, plus the node. *)
Definition domPreds (Node : nat) : list nat :=
  filter (fun Pred => (Pred < NumBlocks)%nat /\ flagAt Reachable Pred = true)
    (Preds (blockAt Blocks Node)).

Definition domNew (Dom : list bitset) (Node : nat) : bitset :=
  let NewDom := fold_left (fun acc Pred => bitsetAnd acc (domAt Dom Pred)) (domPreds Node) domAll in
  let NewDom := if bool_decide (domPreds Node = []) then bitsetZero Words else NewDom in
  bitsetSet NewDom Node.

Definition domStep (st : list bitset * bool) (Node : nat) : list bitset * bool :=
  let '(Dom, Changed) := st in
  if noPreds Node then (Dom, Changed)
  else
    let NewDom := domNew Dom Node in
    if negb (bitsetEqual NewDom (domAt Dom Node)) then (<[Node := NewDom]> Dom, true)
    else (Dom, Changed).

Fixpoint domLoop (fuel : nat) (Dom : list bitset) : option (list bitset) :=
  match fuel with
  | O => None
  | S fuel' =>
      let '(Dom', Changed) := fold_left domStep (seq 0 NumBlocks) (Dom, false) in
      if Changed then domLoop fuel' Dom' else Some Dom'
  end.

(** Every sweep that changes something removes a bit. *)
Definition computeDominators : option (list bitset) :=
  domLoop (NumBlocks * (64 * Words) + 1) domInit.
End Dominators.

(** ** Back edges and traversal order *)

Definition findBackEdgesUsingDominators (Blocks : list GasBlock) (Dom : list bitset)
  : list (list nat) :=
  map (fun From =>
    filter (fun To => (To < length Blocks)%nat /\ bitsetTest (domAt Dom From) To = true)
      (Succs (blockAt Blocks From))) (seq 0 (length Blocks)).

Definition isBackEdge (BackEdges : list (list nat)) (From To : nat) : bool :=
  match BackEdges !! From with
  | None => false
  | Some Edges => bool_decide (To ∈ Edges)
  end.

Section ReverseTopo.
Context (Blocks : list GasBlock) (BackEdges : list (list nat)).
Let NumBlocks := length Blocks.

(** [Visited]: 0 new, 1 seen, 2 emitted. *)
Definition visitedAt (Visited : list nat) (i : nat) : nat := default 0%nat (Visited !! i).

Definition pushSucc (Current : nat) (st : list nat * list nat) (Succ : nat)
  : list nat * list nat :=
  let '(Visited, Stack) := st in
  if (NumBlocks <=? Succ)%nat then (Visited, Stack)
  else if negb (isBackEdge BackEdges Current Succ) && (visitedAt Visited Succ =? 0)%nat
  then (<[Succ := 1%nat]> Visited, Succ :: Stack)
  else (Visited, Stack).

Fixpoint topoLoop (fuel : nat) (Visited Order Stack : list nat)
  : option (list nat * list nat) :=
  match Stack with
  | [] => Some (Visited, Order)
  | Current :: Stack' =>
      match fuel with
      | O => None
      | S fuel' =>
          if (NumBlocks <=? Current)%nat then topoLoop fuel' Visited Order Stack'
          else if (visitedAt Visited Current =? 2)%nat then topoLoop fuel' Visited Order Stack'
          else if (visitedAt Visited Current =? 1)%nat
          then topoLoop fuel' (<[Current := 2%nat]> Visited) (Order ++ [Current]) Stack'
          else
            let '(Visited', Stack'') :=
              fold_left (pushSucc Current) (rev (Succs (blockAt Blocks Current)))
                (<[Current := 1%nat]> Visited, Current :: Stack') in
            topoLoop fuel' Visited' Order Stack''
      end
  end.

Definition topoStart (st : option (list nat * list nat)) (StartNode : nat)
  : option (list nat * list nat) :=
  '(Visited, Order) ← st;
  if negb (visitedAt Visited StartNode =? 0)%nat then Some (Visited, Order)
  else topoLoop (2 * NumBlocks + 1) Visited Order [StartNode].

Definition computeReverseTopo : option (list nat) :=
  '(_, Order) ← fold_left topoStart (seq 0 NumBlocks) (Some (replicate NumBlocks 0%nat, []));
  Some Order.
End ReverseTopo.

(** ** Blocks on a cycle *)

Section InCycle.
Context (Blocks : list GasBlock).
Let NumBlocks := length Blocks.

(** The inner loop over the successors from [SuccIndex] on: the first one
    not visited, and the index after it. *)
Fixpoint nextSucc (Visited : list bool) (Ss : list nat) (SuccIndex : nat) : option (nat * nat) :=
  match Ss with
  | [] => None
  | Succ :: Ss' =>
      if (NumBlocks <=? Succ)%nat then nextSucc Visited Ss' (SuccIndex + 1)
      else if negb (flagAt Visited Succ) then Some (Succ, (SuccIndex + 1)%nat)
      else nextSucc Visited Ss' (SuccIndex + 1)
  end.

(** [DfsStack] holds (Node, SuccIndex). *)
Fixpoint dfsLoop (fuel : nat) (Visited : list bool) (Order : list nat)
    (DfsStack : list (nat * nat)) : option (list bool * list nat) :=
  match DfsStack with
  | [] => Some (Visited, Order)
  | (Node, SuccIndex) :: rest =>
      match fuel with
      | O => None
      | S fuel' =>
          let Ss := Succs (blockAt Blocks Node) in
          match nextSucc Visited (drop SuccIndex Ss) SuccIndex with
          | Some (Succ, SuccIndex') =>
              dfsLoop fuel' (setFlag Visited Succ) Order ((Succ, 0%nat) :: (Node, SuccIndex') :: rest)
          | None => dfsLoop fuel' Visited (Order ++ [Node]) rest
          end
      end
  end.

Definition dfsStart (st : option (list bool * list nat)) (Start : nat)
  : option (list bool * list nat) :=
  '(Visited, Order) ← st;
  if flagAt Visited Start then Some (Visited, Order)
  else dfsLoop (2 * NumBlocks + 1) (setFlag Visited Start) Order [(Start, 0%nat)].

Definition dfsOrder : option (list nat) :=
  '(_, Order) ← fold_left dfsStart (seq 0 NumBlocks) (Some (replicate NumBlocks false, []));
  Some Order.

(** One strongly connected component, against the edges. *)
Definition componentStart (st : option (list bool * list bool)) (Start : nat)
  : option (list bool * list bool) :=
  '(InCycle, Assigned) ← st;
  if flagAt Assigned Start then Some (InCycle, Assigned)
  else
    '(Assigned, Component) ←
      worklist flagAt setFlag NumBlocks (fun n => Preds (blockAt Blocks n)) (fun _ => true)
        (NumBlocks + 1) (setFlag Assigned Start) [] [Start];
    if (1 <? length Component)%nat then Some (fold_left setFlag Component InCycle, Assigned)
    else
      match Component with
      | [] => Some (InCycle, Assigned)
      | Only :: _ =>
          Some (if bool_decide (Only ∈ Succs (blockAt Blocks Only)) then setFlag InCycle Only
                else InCycle, Assigned)
      end.

Definition computeInCycle : option (list bool) :=
  Order ← dfsOrder;
  '(InCycle, _) ← fold_left componentStart (rev Order)
      (Some (replicate NumBlocks false, replicate NumBlocks false));
  Some InCycle.
End InCycle.
