(* ===== verification/Spp.v ===== *)
(** Gas chunks: the rest of [src/src/evm/evm_cache.cpp], from the loop nest
    to [buildBytecodeCache].

    [buildGasChunksSPP] builds the control-flow graph of the gas blocks,
    computes a metering function that moves charges towards dominating blocks,
    and writes the chunk table of the cache.  A result [None] of a definition
    here is a loop that ran out of fuel; [SppSets] excludes it. *)

From S2P Require Import Prelude Intx Evmc GasStorageCost HandlerUtil BytecodeCache SppGraph.
From stdpp Require Export gmap.

#[local] Open Scope Z_scope.

(** Sorting by a key. *)
Definition le_by (f : nat -> nat) (A B : nat) : Prop := (f A <= f B)%nat.
#[export] Instance le_by_dec f A B : Decision (le_by f A B) := decide (f A <= f B)%nat.

(** ** Loops *)

(** [Parent]: [None] is [UINT32_MAX]. *)
Record LoopInfo : Type := mkLoop {
  Header : nat;
  Nodes : list nat;
  Members : list nat;
  Exits : list nat;
  NodeMask : bitset;
  Parent : option nat;
}.

#[export] Instance LoopInfo_inhabited : Inhabited LoopInfo :=
  populate (mkLoop 0 [] [] [] [] None).

Definition set_Parent (p : option nat) (l : LoopInfo) : LoopInfo :=
  mkLoop (Header l) (Nodes l) (Members l) (Exits l) (NodeMask l) p.
Definition set_Members (m : list nat) (l : LoopInfo) : LoopInfo :=
  mkLoop (Header l) (Nodes l) m (Exits l) (NodeMask l) (Parent l).
Definition set_Exits (x : list nat) (l : LoopInfo) : LoopInfo :=
  mkLoop (Header l) (Nodes l) (Members l) x (NodeMask l) (Parent l).

Definition loopAt (Loops : list LoopInfo) (i : nat) : LoopInfo := Loops !!! i.

(** What the source leaves in its four output vectors.  [LoopOf]: [None] is
    [-1]. *)
Record loop_nest : Type := mkNest {
  nLoops : list LoopInfo;
  nLoopOf : list (option nat);
  nExitLoops : list (list nat);
  nExitFlags : list (list nat);
}.

Section Loops.
Context (Blocks : list GasBlock) (Dom : list bitset) (Reachable : list bool).
Let NumBlocks := length Blocks.
Let Words := bitsetWordCount NumBlocks.

Abbreviation loop_builds := (list (nat * bitset) * gmap nat nat)%type (only parsing).

(** One edge: when its target dominates its source, the natural loop of the
    edge joins the loop of that header. *)
Definition loopEdge (From : nat) (st : option loop_builds) (To : nat) : option loop_builds :=
  '(LoopBuilds, HeaderIndex) ← st;
  if (NumBlocks <=? To)%nat then Some (LoopBuilds, HeaderIndex)
  else if negb (bitsetTest (domAt Dom From) To) then Some (LoopBuilds, HeaderIndex)
  else
    let '(LoopBuilds, HeaderIndex, It) :=
      match HeaderIndex !! To with
      | Some It => (LoopBuilds, HeaderIndex, It)
      | None =>
          (LoopBuilds ++ [(To, bitsetZero Words)],
           <[To := length LoopBuilds]> HeaderIndex, length LoopBuilds)
      end in
    LoopBits ← collectNaturalLoop From To Blocks NumBlocks Reachable;
    Some (alter (fun e => (e.1, bitsetOr e.2 LoopBits)) It LoopBuilds, HeaderIndex).

Definition loopBuilds : option (list (nat * bitset)) :=
  r ← fold_left (fun st From =>
        if negb (flagAt Reachable From) then st
        else fold_left (loopEdge From) (Succs (blockAt Blocks From)) st)
      (seq 0 NumBlocks) (Some ([], ∅));
  Some r.1.

(** The loop of an entry, without its unreachable nodes; no loop when
    nothing is left. *)
Definition loopInfo (Entry : nat * bitset) : list LoopInfo :=
  let Bits :=
    fold_left (fun Bits Node =>
      if negb (flagAt Reachable Node) && bitsetTest Bits Node then bitsetClear Bits Node
      else Bits) (seq 0 NumBlocks) Entry.2 in
  if (bitsetCount Bits =? 0)%nat then []
  else
    [mkLoop Entry.1 (filter (fun Node => bitsetTest Bits Node = true) (seq 0 NumBlocks))
       [] [] Bits None].

(** Every loop is dominated by its header. *)
Definition loopsDominated (Loops : list LoopInfo) : bool :=
  forallb (fun Loop =>
    forallb (fun Node =>
      (Node <? length Dom)%nat && (Header Loop <? NumBlocks)%nat
      && bitsetTest (domAt Dom Node) (Header Loop)) (Nodes Loop)) Loops.

(** Two loops are disjoint or nested. *)
Definition loopsNested (Loops : list LoopInfo) : bool :=
  forallb (fun I =>
    forallb (fun J =>
      let A := NodeMask (loopAt Loops I) in
      let B := NodeMask (loopAt Loops J) in
      negb (bitsetIntersects A B) || bitsetIsSubset A B || bitsetIsSubset B A)
      (seq (I + 1) (length Loops - (I + 1)))) (seq 0 (length Loops)).

Definition loopSize (Loops : list LoopInfo) (i : nat) : nat := length (Nodes (loopAt Loops i)).

(** [std::sort] of the loop numbers by size; the order of loops of one size,
    which the library leaves open, is kept. *)
Definition loopOrder (Loops : list LoopInfo) : list nat :=
  merge_sort (le_by (loopSize Loops)) (seq 0 (length Loops)).

(** The smallest strictly larger loop around loop [I]. *)
Definition bestParent (Loops : list LoopInfo) (I : nat) : option nat :=
  fold_left (fun BestParent J =>
    if (I =? J)%nat then BestParent
    else if (loopSize Loops J <=? loopSize Loops I)%nat then BestParent
    else if negb (bitsetIsSubset (NodeMask (loopAt Loops I)) (NodeMask (loopAt Loops J)))
    then BestParent
    else
      match BestParent with
      | None => Some J
      | Some B => if (loopSize Loops J <? loopSize Loops B)%nat then Some J else BestParent
      end) (seq 0 (length Loops)) None.

Definition setParents (Loops : list LoopInfo) : list LoopInfo :=
  fold_left (fun Loops I =>
    match bestParent Loops I with
    | None => Loops
    | Some P => alter (set_Parent (Some P)) I Loops
    end) (seq 0 (length Loops)) Loops.

(** The innermost loop of each node. *)
Definition loopOf (Loops : list LoopInfo) : list (option nat) :=
  fold_left (fun LoopOf LoopId =>
    fold_left (fun LoopOf Node =>
      match LoopOf !! Node with
      | Some None => <[Node := Some LoopId]> LoopOf
      | _ => LoopOf
      end) (Nodes (loopAt Loops LoopId)) LoopOf)
    (loopOrder Loops) (replicate NumBlocks None).

Definition setMembers (LoopOf : list (option nat)) (Loops : list LoopInfo) : list LoopInfo :=
  fold_left (fun Loops Node =>
    match LoopOf !! Node with
    | Some (Some LoopId) => alter (fun l => set_Members (Members l ++ [Node]) l) LoopId Loops
    | _ => Loops
    end) (seq 0 NumBlocks) Loops.

(** A node of the loop with a successor outside it. *)
Definition isExit (Loop : LoopInfo) (Node : nat) : bool :=
  existsb (fun Succ => (Succ <? NumBlocks)%nat && negb (bitsetTest (NodeMask Loop) Succ))
    (Succs (blockAt Blocks Node)).

Definition markExit (LoopId : nat) (st : list LoopInfo * list (list nat) * list (list nat))
    (Node : nat) : list LoopInfo * list (list nat) * list (list nat) :=
  let '(Loops, ExitLoops, ExitFlags) := st in
  if (NumBlocks <=? Node)%nat then st
  else if negb (isExit (loopAt Loops LoopId) Node) then st
  else
    (alter (fun l => set_Exits (Exits l ++ [Node]) l) LoopId Loops,
     alter (fun l => l ++ [LoopId]) Node ExitLoops,
     alter (fun l => <[Node := 1%nat]> l) LoopId ExitFlags).

(** [Some None] is the result [false]: the loops overlap or are not
    dominated by their headers. *)
Definition buildLoopsUsingDominance : option (option loop_nest) :=
  LoopBuilds ← loopBuilds;
  let Loops := flat_map loopInfo LoopBuilds in
  if negb (loopsDominated Loops) then Some None
  else if negb (loopsNested Loops) then Some None
  else
    let LoopOf := loopOf Loops in
    let Loops := setMembers LoopOf (setParents Loops) in
    let '(Loops, ExitLoops, ExitFlags) :=
      fold_left (fun st LoopId =>
        fold_left (markExit LoopId) (Nodes (loopAt st.1.1 LoopId)) st)
        (seq 0 (length Loops))
        (Loops, replicate NumBlocks [], replicate (length Loops) (replicate NumBlocks 0%nat)) in
    Some (Some (mkNest Loops LoopOf ExitLoops ExitFlags)).
End Loops.

(** ** Moving charges *)

Definition effectivePredCount (Block : GasBlock) : nat :=
  let Count := length (Preds Block) in
  if (Start Block =? 0)%nat then (Count + 1)%nat else Count.

Definition meterAt (Metering : list Z) (i : nat) : Z := default 0 (Metering !! i).

(** The successors an update of [NodeId] draws from.  A missing [BackEdges] or
    [AllowedMask] is a null pointer. *)
Definition shiftSucc (NodeId : nat) (Blocks : list GasBlock) (BackEdges : option (list (list nat)))
    (AllowedMask : option bitset) (NumMetered : nat) (Succ : nat) : bool :=
  if (length Blocks <=? Succ)%nat || (NumMetered <=? Succ)%nat then false
  else if match BackEdges with Some B => isBackEdge B NodeId Succ | None => false end then false
  else if match AllowedMask with Some M => negb (bitsetTest M Succ) | None => false end then false
  else (effectivePredCount (blockAt Blocks Succ) =? 1)%nat.

Definition lemma614Update (NodeId : nat) (Blocks : list GasBlock)
    (BackEdges : option (list (list nat))) (AllowedMask : option bitset) (Metering : list Z)
  : bool * list Z :=
  let Node := blockAt Blocks NodeId in
  if isGasSensitiveTerminator (LastOpcode Node) then (false, Metering)
  else
    let eligible := shiftSucc NodeId Blocks BackEdges AllowedMask (length Metering) in
    let MinSucc :=
      fold_left (fun MinSucc Succ =>
        if negb (eligible Succ) then MinSucc else Z.min MinSucc (meterAt Metering Succ))
        (Succs Node) UINT64_MAX in
    if (MinSucc =? 0) || (MinSucc =? UINT64_MAX) then (false, Metering)
    else
      let Metering := <[NodeId := u64 (meterAt Metering NodeId + MinSucc)]> Metering in
      (true,
       fold_left (fun Metering Succ =>
         if negb (eligible Succ) then Metering
         else <[Succ := u64 (meterAt Metering Succ - MinSucc)]> Metering) (Succs Node) Metering).

(** ** The SPP pass *)

Section Spp.
Context (Blocks : list GasBlock) (BackEdges : list (list nat)).
Context (RevTopo : list nat) (InCycle : list bool).
Let NumBlocks := length Blocks.

Definition revTopoIndex : list nat :=
  fold_left (fun R '(Index, Node) => <[Node := Index]> R)
    (zip (seq 0 (length RevTopo)) RevTopo) (replicate NumBlocks 0%nat).

Definition nonCycleMask : bitset :=
  fold_left (fun M Id => if negb (flagAt InCycle Id) then bitsetSet M Id else M)
    (seq 0 NumBlocks) (bitsetZero (bitsetWordCount NumBlocks)).

(** [!UseLinearSPP] *)
Definition sppPlain (Metering : list Z) : list Z :=
  fold_left (fun Metering NodeId =>
    if flagAt InCycle NodeId then Metering
    else (lemma614Update NodeId Blocks (Some BackEdges) (Some nonCycleMask) Metering).2)
    RevTopo Metering.

Record spp_state : Type := mkSpp {
  sMetering : list Z;
  sRecorded : list (list nat);
  sRecordedCount : list nat;
  sExitSeenCount : list nat;
  sLoopProcessed : list bool;
  sExitFlags : list (list nat);
}.

Definition countAt (l : list nat) (i : nat) : nat := default 0%nat (l !! i).

Context (N : loop_nest).
Let Loops := nLoops N.

Definition loopNonCycleMask (LoopId : nat) : bitset :=
  bitsetAnd (NodeMask (loopAt Loops LoopId)) nonCycleMask.

Definition maybeFastForward (LoopId : nat) (st : spp_state) : spp_state :=
  if (length Loops <=? LoopId)%nat || flagAt (sLoopProcessed st) LoopId then st
  else if negb (countAt (sRecordedCount st) LoopId =? length (Members (loopAt Loops LoopId)))%nat
  then st
  else if negb (countAt (sExitSeenCount st) LoopId =? length (Exits (loopAt Loops LoopId)))%nat
  then st
  else
    let Order :=
      merge_sort (le_by (countAt revTopoIndex))
        (default [] (sRecorded st !! LoopId)) in
    let Metering :=
      fold_left (fun Metering NodeId =>
        if flagAt InCycle NodeId then Metering
        else (lemma614Update NodeId Blocks None (Some (loopNonCycleMask LoopId)) Metering).2)
        Order (sMetering st) in
    mkSpp Metering (<[LoopId := Order]> (sRecorded st)) (sRecordedCount st) (sExitSeenCount st)
      (setFlag (sLoopProcessed st) LoopId) (sExitFlags st).

Definition seeExit (NodeId : nat) (st : spp_state) (ExitLoopId : nat) : spp_state :=
  if (countAt (default [] (sExitFlags st !! ExitLoopId)) NodeId =? 1)%nat then
    mkSpp (sMetering st) (sRecorded st) (sRecordedCount st)
      (alter S ExitLoopId (sExitSeenCount st)) (sLoopProcessed st)
      (alter (fun l => <[NodeId := 2%nat]> l) ExitLoopId (sExitFlags st))
  else st.

Definition sppNode (st : spp_state) (NodeId : nat) : spp_state :=
  let LoopId := default None (nLoopOf N !! NodeId) in
  let Exits := default [] (nExitLoops N !! NodeId) in
  match LoopId with
  | None =>
      if flagAt InCycle NodeId then st
      else
        let st :=
          mkSpp (lemma614Update NodeId Blocks (Some BackEdges) (Some nonCycleMask) (sMetering st)).2
            (sRecorded st) (sRecordedCount st) (sExitSeenCount st) (sLoopProcessed st)
            (sExitFlags st) in
        let st := fold_left (seeExit NodeId) Exits st in
        fold_left (fun st L => maybeFastForward L st) Exits st
  | Some LoopId =>
      let st :=
        mkSpp (sMetering st) (alter (fun l => l ++ [NodeId]) LoopId (sRecorded st))
          (alter S LoopId (sRecordedCount st)) (sExitSeenCount st) (sLoopProcessed st)
          (sExitFlags st) in
      let st := fold_left (seeExit NodeId) Exits st in
      let st := maybeFastForward LoopId st in
      fold_left (fun st L => maybeFastForward L st) Exits st
  end.

Definition sppLinear (Metering : list Z) : list Z :=
  let n := length Loops in
  sMetering
    (fold_left sppNode RevTopo
       (mkSpp Metering (replicate n []) (replicate n 0%nat) (replicate n 0%nat)
          (replicate n false) (nExitFlags N))).
End Spp.

(** ** The chunk table *)

(** [GasChunkEnd] and [GasChunkCost]. *)
Abbreviation chunk_table := (list Z * list Z)%type (only parsing).

Section Chunks.
Context {I : Intx}.
Context (Code : list Z) (MetricsTable : metrics) (JumpDestMap PushValueMap : list Z).
Let CodeSize := length Code.

Definition resolves (Block : GasBlock) : option nat :=
  resolveConstantJumpTarget JumpDestMap PushValueMap CodeSize Block.

Definition hasDynamicJump (Blocks : list GasBlock) : bool :=
  existsb (fun Block =>
    isJumpOpcode (LastOpcode Block) && bool_decide (resolves Block = None)) Blocks.

Definition jumpDestBlocks (NumBlocks : nat) (BlockAtPc : list (option nat)) : list nat :=
  (fold_left (fun '(Seen, Found) Pc =>
     if default 0 (JumpDestMap !! Pc) =? 0 then (Seen, Found)
     else
       match default None (BlockAtPc !! Pc) with
       | None => (Seen, Found)
       | Some BlockId =>
           if (NumBlocks <=? BlockId)%nat then (Seen, Found)
           else if flagAt Seen BlockId then (Seen, Found)
           else (setFlag Seen BlockId, Found ++ [BlockId])
       end)
     (if bool_decide (JumpDestMap = []) then [] else seq 0 CodeSize)
     (replicate NumBlocks false, [])).2.

(** An edge to the block that starts at [Pc], if one does. *)
Definition addEdgeTo (BlockAtPc : list (option nat)) (BlockId Pc : nat) (Blocks : list GasBlock)
  : list GasBlock :=
  match default None (BlockAtPc !! Pc) with
  | Some SuccId => addEdge Blocks BlockId SuccId
  | None => Blocks
  end.

Definition addEdges (BlockAtPc : list (option nat)) (JumpDestBlocks : list nat)
    (Blocks : list GasBlock) (BlockId : nat) : list GasBlock :=
  let Block := blockAt Blocks BlockId in
  let Blocks :=
    if negb (isControlFlowTerminator (LastOpcode Block)) && (End_ Block <? CodeSize)%nat
    then addEdgeTo BlockAtPc BlockId (End_ Block) Blocks else Blocks in
  if isJumpOpcode (LastOpcode Block) then
    match resolves Block with
    | Some DestPc => addEdgeTo BlockAtPc BlockId DestPc Blocks
    | None => fold_left (fun Bs SuccId => addEdge Bs BlockId SuccId) JumpDestBlocks Blocks
    end
  else Blocks.

Definition buildCFG (Blocks : list GasBlock) (BlockAtPc : list (option nat)) : list GasBlock :=
  fold_left (addEdges BlockAtPc (jumpDestBlocks (length Blocks) BlockAtPc))
    (seq 0 (length Blocks)) Blocks.

(** The metering function of the graph after its critical edges are
    split. *)
Definition sppMetering (Blocks : list GasBlock) : option (list Z) :=
  Reachable ← computeReachable Blocks 0;
  Dom ← computeDominators Blocks Reachable;
  let BackEdges := findBackEdgesUsingDominators Blocks Dom in
  RevTopo ← computeReverseTopo Blocks BackEdges;
  InCycle ← computeInCycle Blocks;
  Nest ← buildLoopsUsingDominance Blocks Dom Reachable;
  let Metering := map Cost Blocks in
  Some match Nest with
       | None => sppPlain Blocks BackEdges RevTopo InCycle Metering
       | Some N => sppLinear Blocks BackEdges RevTopo InCycle N Metering
       end.

Definition writeChunk (t : chunk_table) (Block : GasBlock) : chunk_table :=
  (<[Start Block := Z.of_nat (End_ Block)]> t.1, <[Start Block := Cost Block]> t.2).

Definition buildGasChunksSPP (t : chunk_table) : option chunk_table :=
  let '(Blocks, BlockAtPc) := buildGasBlocks Code MetricsTable in
  if bool_decide (Blocks = []) then Some t
  else if hasDynamicJump Blocks then
    Some (fold_left (fun t Block => if (Start Block <? CodeSize)%nat then writeChunk t Block else t)
            Blocks t)
  else
    let Blocks := buildCFG Blocks BlockAtPc in
    let '(Blocks, _) := splitCriticalEdges CodeSize Blocks in
    Metering ← sppMetering Blocks;
    Some (fold_left (fun t Block =>
            if (Start Block =? End_ Block)%nat then t else writeChunk t Block) Blocks t).
End Chunks.

Definition buildBytecodeCache `{Intx} `{Evmc} (Code : list Z) (Rev : evmc_revision)
  : option EVMBytecodeCache :=
  let CodeSize := length Code in
  let '(JumpDestMap, PushValueMap) :=
    buildJumpDestMapAndPushCache Code (replicate CodeSize 0) (replicate CodeSize 0) in
  let MetricsTable :=
    match metrics_table Rev with
    | Some T => Some T
    | None => metrics_table DEFAULT_REVISION
    end in
  T ← MetricsTable;
  '(GasChunkEnd, GasChunkCost) ←
    buildGasChunksSPP Code T JumpDestMap PushValueMap (replicate CodeSize 0, replicate CodeSize 0);
  Some (mkCache JumpDestMap PushValueMap GasChunkEnd GasChunkCost).
