(* ===== verification/Interpreter.v ===== *)
(** The interpreter loop: [BaseInterpreter::interpret] of
    [src/src/evm/interpreter.cpp].

    The loop runs either a whole gas chunk (base gas charged once, handlers
    called without their own charge) or a single instruction (each charged on
    its own).  The source has two versions of the chunk runner: a
    computed-goto one with the stack pointer and the program counter in local
    variables, and a portable [switch]; both are modelled, and [interpret] is
    parameterised by the runner.  When a frame is
    given back while another one lies below it, the loop continues with that
    frame ([LContinue]); callers only create contexts with a single frame. *)

From S2P Require Import Prelude Intx Evmc GasStorageCost EvmInstance Frame HandlerUtil.
From S2P Require Import HandlersArith HandlersEnv HandlersCall BytecodeCache.

(** What an iteration of the outer loop leads to. *)
Inductive loop_out (HS : Type) : Type :=
| LContinue (s : hstate HS)                              (* next iteration *)
| LBreak (cur : option EVMFrame) (c : Context_ HS)       (* leave the loop *)
| LReturn (c : Context_ HS)                              (* return from interpret *)
| LThrow (e : ErrorCode)
| LUndef
| LFuel.
Arguments LContinue {HS} s.
Arguments LBreak {HS} cur c.
Arguments LReturn {HS} c.
Arguments LThrow {HS} e.
Arguments LUndef {HS}.
Arguments LFuel {HS}.

Section Opcodes_.
Context {HS : Type} {I : Intx} {H : EvmcHost HS} {V : Evmc}.

(** *** Stack opcodes with and without their own charge *)

Definition chargeGasStatus (MT : metrics) (op : Z) : HM HS bool :=
  let GasCost := u64 (MT op) in
  g <- getFrame fgas ;;
  if u64 g <? GasCost then setStatus EVMC_OUT_OF_GAS ;;; ret false
  else modFrame (set_fgas (i64 (u64 g - GasCost))) ;;; ret true.

Definition withCharge (MT : metrics) (op : Z) {A} (m : HM HS A) : HM HS A :=
  ok <- chargeGasStatus MT op ;; if negb ok then exit else m.

Definition executePush0OpcodeNoGas : HM HS unit :=
  sp <- getFrame Sp ;;
  if (MAXSTACK <=? sp)%nat then setStatus EVMC_STACK_OVERFLOW ;;; exit
  else stack_set sp 0 ;;; modFrame (set_Sp (sp + 1)).
Definition executePush0Opcode (MT : metrics) (op : Z) : HM HS unit :=
  withCharge MT op executePush0OpcodeNoGas.

Definition pushNumBytes (op : Z) : nat := Z.to_nat (u8 (op - OP_PUSH1 + 1)).

Definition executePushNOpcodeNoGas (op : Z) (PushMap : list Z) : HM HS unit :=
  sp <- getFrame Sp ;;
  if (MAXSTACK <=? sp)%nat then setStatus EVMC_STACK_OVERFLOW ;;; exit
  else
    pc <- getFrame Pc ;;
    v <- of_option (PushMap !! pc) ;;
    stack_set sp v ;;;
    modFrame (set_Sp (sp + 1)) ;;;
    modFrame (set_Pc (pc + pushNumBytes op)).
Definition executePushNOpcode (MT : metrics) (op : Z) (PushMap : list Z) : HM HS unit :=
  withCharge MT op (executePushNOpcodeNoGas op PushMap).

Definition executePopOpcodeNoGas : HM HS unit :=
  sp <- getFrame Sp ;;
  if (sp <? 1)%nat then setStatus EVMC_STACK_UNDERFLOW ;;; exit
  else modFrame (set_Sp (sp - 1)).
Definition executePopOpcode (MT : metrics) (op : Z) : HM HS unit :=
  withCharge MT op executePopOpcodeNoGas.

Definition dupN (op : Z) : nat := Z.to_nat (u32 (op - OP_DUP1 + 1)).
Definition swapN (op : Z) : nat := Z.to_nat (u32 (op - OP_SWAP1 + 1)).

Definition executeDupOpcodeNoGas (op : Z) : HM HS unit :=
  let N := dupN op in
  sp <- getFrame Sp ;;
  if (sp <? N)%nat then setStatus EVMC_STACK_UNDERFLOW ;;; exit
  else if (MAXSTACK <=? sp)%nat then setStatus EVMC_STACK_OVERFLOW ;;; exit
  else
    v <- stack_at (sp - N) ;;
    stack_set sp v ;;;
    modFrame (set_Sp (sp + 1)).
Definition executeDupOpcode (MT : metrics) (op : Z) : HM HS unit :=
  withCharge MT op (executeDupOpcodeNoGas op).

Definition executeSwapOpcodeNoGas (op : Z) : HM HS unit :=
  let N := swapN op in
  sp <- getFrame Sp ;;
  if (sp <? N + 1)%nat then setStatus EVMC_STACK_UNDERFLOW ;;; exit
  else
    let TopIndex := (sp - 1)%nat in
    let NthIndex := (sp - 1 - N)%nat in
    Top <- stack_at TopIndex ;;
    Nth <- stack_at NthIndex ;;
    stack_set TopIndex Nth ;;;
    stack_set NthIndex Top.
Definition executeSwapOpcode (MT : metrics) (op : Z) : HM HS unit :=
  withCharge MT op (executeSwapOpcodeNoGas op).

(** *** Jumps: the target, or [None] to fall through *)

Definition checkDest (CodeSize : nat) (JumpMap : list Z) (Dest : Z) : HM HS (option nat) :=
  if Z.of_nat CodeSize <=? Dest then setStatus EVMC_BAD_JUMP_DESTINATION ;;; exit
  else
    d <- of_option (JumpMap !! Z.to_nat Dest) ;;
    if d =? 0 then setStatus EVMC_BAD_JUMP_DESTINATION ;;; exit
    else ret (Some (Z.to_nat Dest)).

Definition jumpOp (CodeSize : nat) (JumpMap : list Z) : HM HS (option nat) :=
  sp <- getFrame Sp ;;
  if (sp <? 1)%nat then setStatus EVMC_STACK_UNDERFLOW ;;; exit
  else
    modFrame (set_Sp (sp - 1)) ;;;
    v <- stack_at (sp - 1) ;;
    checkDest CodeSize JumpMap (uint256ToUint64 v).

Definition jumpiOp (CodeSize : nat) (JumpMap : list Z) : HM HS (option nat) :=
  sp <- getFrame Sp ;;
  if (sp <? 2)%nat then setStatus EVMC_STACK_UNDERFLOW ;;; exit
  else
    v <- stack_at (sp - 1) ;;
    modFrame (set_Sp (sp - 2)) ;;;
    Cond <- stack_at (sp - 2) ;;
    if Cond =? 0 then ret None
    else checkDest CodeSize JumpMap (uint256ToUint64 v).
End Opcodes_.

(** *** Results *)
Section Results.
Context {HS : Type}.

Definition mkExeResult (st : evmc_status_code) (g : Z) (c : Context_ HS) : Context_ HS :=
  set_ExeResult (mkResult st (i64 g) (GasRefund (Inst c)) (ReturnData c) zero20) c.

(** [handleExecutionStatus]: whether [interpret] returns, the current frame
    and the context. *)
Definition handleExecutionStatus (s : hstate HS) : bool * option EVMFrame * Context_ HS :=
  match Status (cx s) with
  | EVMC_SUCCESS | EVMC_REVERT => (false, Some (fr s), cx s)
  | _ =>
      let f := set_fgas 0 (fr s) in
      let c := set_Inst (setGasRefund (GasRefundSnapshot f) (Inst (cx s))) (cx s) in
      let c := set_ReturnData [] c in
      match freeBackFrame (mkH f c) with
      | (None, c) => (true, None, mkExeResult (Status c) 0 c)
      | (Some p, c) => (false, Some p, c)
      end
  end.

(** [if (handleExecutionStatus(Frame, Context)) return; break;] *)
Definition onError (s : hstate HS) : loop_out HS :=
  match handleExecutionStatus s with
  | (true, _, c) => LReturn c
  | (false, cur, c) => LBreak cur c
  end.

(** The end of [interpret], after the loop: an implicit STOP. *)
Definition epilogue (cur : option EVMFrame) (c : Context_ HS) : Context_ HS :=
  let c := set_ReturnData [] c in
  let '(cur, c) := match cur with Some f => freeBackFrame (mkH f c) | None => (None, c) end in
  let GasLeft := match cur with Some f => u64 (fgas f) | None => Gas (Inst c) end in
  mkExeResult (Status c) GasLeft c.

(** After an instruction of the single-step path: stop on a status, else
    [Frame->Pc++]. *)
Definition afterOp (o : out ErrorCode (hstate HS) unit) : loop_out HS :=
  match o with
  | Ret _ s | Exit s =>
      if is_success (Status (cx s)) then LContinue (on_fr (fun f => set_Pc (Pc f + 1) f) s)
      else onError s
  | Throw e _ => LThrow e
  | Undef => LUndef
  end.

(** After a jump: the target is reached without the increment. *)
Definition afterJump (o : out ErrorCode (hstate HS) (option nat)) : loop_out HS :=
  match o with
  | Ret (Some d) s => LContinue (on_fr (set_Pc d) s)
  | Ret None s | Exit s => afterOp (Exit s)
  | Throw e _ => LThrow e
  | Undef => LUndef
  end.

(** RETURN, REVERT and SELFDESTRUCT: with no frame left [interpret] returns a
    result of status [st]; [back] is what the place does with the frame
    below. *)
Definition afterTerm (back : hstate HS -> loop_out HS) (st : evmc_status_code) (o : term_out HS)
  : loop_out HS :=
  match o with
  | TDone None c => LReturn (mkExeResult st (Gas (Inst c)) c)
  | TDone (Some f) c => back (mkH f c)
  | TThrow e => LThrow e
  | TUndef => LUndef
  end.

(** The single-instruction switch breaks out of its [switch]. *)
Definition backToSwitch (s : hstate HS) : loop_out HS := afterOp (Exit s).

(** The chunk runners look at the status and restart the dispatch. *)
Definition restartDispatch (s : hstate HS) : loop_out HS :=
  if is_success (Status (cx s)) then LContinue s else onError s.

(** STOP; [back] is given the gas of the released frame. *)
Definition stopOp (back : Z -> hstate HS -> loop_out HS) (s : hstate HS) : loop_out HS :=
  let RemainingGas := u64 (fgas (fr s)) in
  match freeBackFrame (on_cx (set_ReturnData []) s) with
  | (None, c) => LReturn (mkExeResult EVMC_SUCCESS (Gas (Inst c)) c)
  | (Some p, c) => back RemainingGas (mkH p c)
  end.

Definition addFrameGas (g : Z) (s : hstate HS) : hstate HS :=
  on_fr (fun f => set_fgas (i64 (fgas f + g)) f) s.

(** The single-instruction switch: [continue]. *)
Definition stopContinue (RemainingGas : Z) (s : hstate HS) : loop_out HS := LContinue s.
(** The portable runner and the computed-goto one give the gas back. *)
Definition stopRestart (RemainingGas : Z) (s : hstate HS) : loop_out HS :=
  restartDispatch (addFrameGas RemainingGas s).
Definition stopGoto (RemainingGas : Z) (s : hstate HS) : loop_out HS :=
  LContinue (addFrameGas RemainingGas s).
End Results.

(** *** The single-instruction switch

    The cases that call a handler class, in the groups of the source; the
    dispatcher below adds the others. *)
Section SlowPath.
Context {HS : Type} {I : Intx} {H : EvmcHost HS} {V : Evmc}.

Definition switch_arith (op : evmc_opcode) : option (Handler HS) :=
  match op with
  | OP_ADD => Some AddHandler | OP_MUL => Some MulHandler | OP_SUB => Some SubHandler
  | OP_DIV => Some DivHandler | OP_SDIV => Some SDivHandler | OP_MOD => Some ModHandler
  | OP_SMOD => Some SModHandler | OP_ADDMOD => Some AddmodHandler
  | OP_MULMOD => Some MulmodHandler | OP_EXP => Some ExpHandler
  | OP_SIGNEXTEND => Some SignExtendHandler | OP_LT => Some LtHandler
  | OP_GT => Some GtHandler | OP_SLT => Some SltHandler | OP_SGT => Some SgtHandler
  | OP_EQ => Some EqHandler | OP_ISZERO => Some IsZeroHandler | OP_AND => Some AndHandler
  | OP_OR => Some OrHandler | OP_XOR => Some XorHandler | OP_NOT => Some NotHandler
  | OP_BYTE => Some ByteHandler | OP_SHL => Some ShlHandler | OP_SHR => Some ShrHandler
  | OP_SAR => Some SarHandler | OP_CLZ => Some ClzHandler
  | OP_KECCAK256 => Some Keccak256Handler
  | _ => None
  end.

Definition switch_env (op : evmc_opcode) : option (Handler HS) :=
  match op with
  | OP_ADDRESS => Some AddressHandler | OP_BALANCE => Some BalanceHandler
  | OP_ORIGIN => Some OriginHandler | OP_CALLER => Some CallerHandler
  | OP_CALLVALUE => Some CallValueHandler | OP_CALLDATALOAD => Some CallDataLoadHandler
  | OP_CALLDATASIZE => Some CallDataSizeHandler | OP_CALLDATACOPY => Some CallDataCopyHandler
  | OP_CODESIZE => Some CodeSizeHandler | OP_CODECOPY => Some CodeCopyHandler
  | OP_GASPRICE => Some GasPriceHandler | OP_EXTCODESIZE => Some ExtCodeSizeHandler
  | OP_EXTCODECOPY => Some ExtCodeCopyHandler
  | OP_RETURNDATASIZE => Some ReturnDataSizeHandler
  | OP_RETURNDATACOPY => Some ReturnDataCopyHandler
  | OP_EXTCODEHASH => Some ExtCodeHashHandler | OP_BLOCKHASH => Some BlockHashHandler
  | OP_COINBASE => Some CoinBaseHandler | OP_TIMESTAMP => Some TimeStampHandler
  | OP_NUMBER => Some NumberHandler | OP_PREVRANDAO => Some PrevRanDaoHandler
  | OP_GASLIMIT => Some GasLimitHandler | OP_CHAINID => Some ChainIdHandler
  | OP_SELFBALANCE => Some SelfBalanceHandler | OP_BASEFEE => Some BaseFeeHandler
  | OP_BLOBHASH => Some BlobHashHandler | OP_BLOBBASEFEE => Some BlobBaseFeeHandler
  | _ => None
  end.

Definition switch_memory (op : evmc_opcode) : option (Handler HS) :=
  match op with
  | OP_MLOAD => Some MLoadHandler | OP_MSTORE => Some MStoreHandler
  | OP_MSTORE8 => Some MStore8Handler | OP_SLOAD => Some SLoadHandler
  | OP_SSTORE => Some SStoreHandler | OP_PC => Some PCHandler | OP_MSIZE => Some MSizeHandler
  | OP_GAS => Some GasHandler | OP_TLOAD => Some TLoadHandler | OP_TSTORE => Some TStoreHandler
  | OP_MCOPY => Some MCopyHandler
  | OP_LOG0 | OP_LOG1 | OP_LOG2 | OP_LOG3 | OP_LOG4 => Some (LogHandler (byte_of_opcode op))
  | _ => None
  end.

Definition switch_handler (op : evmc_opcode) : option (Handler HS) :=
  match switch_arith op with
  | Some h => Some h
  | None => match switch_env op with Some h => Some h | None => switch_memory op end
  end.

Context (CodeSize : nat) (MT : metrics) (JumpMap PushMap : list Z).

(** The [default] case: PUSH1..32, DUP1..16, SWAP1..16, CREATE*, CALL*. *)
Definition switch_default (b : Z) : HM HS unit :=
  if (OP_PUSH1 <=? b) && (b <=? OP_PUSH32) then executePushNOpcode MT b PushMap
  else if (OP_DUP1 <=? b) && (b <=? OP_DUP16) then executeDupOpcode MT b
  else if (OP_SWAP1 <=? b) && (b <=? OP_SWAP16) then executeSwapOpcode MT b
  else
    match opcode_of_byte b with
    | (OP_CREATE | OP_CREATE2) as op => execute MT (CreateHandler op)
    | (OP_CALL | OP_CALLCODE | OP_DELEGATECALL | OP_STATICCALL) as op =>
        execute MT (CallHandler op)
    | _ => setStatus EVMC_INVALID_INSTRUCTION
    end.

(** One instruction, with its own charge. *)
Definition switch_step (b : Z) (s : hstate HS) : loop_out HS :=
  let op := opcode_of_byte b in
  match op with
  | OP_STOP => stopOp stopContinue s
  | OP_POP => afterOp (executePopOpcode MT b s)
  | OP_JUMP => afterJump (withCharge MT b (jumpOp CodeSize JumpMap) s)
  | OP_JUMPI => afterJump (withCharge MT b (jumpiOp CodeSize JumpMap) s)
  | OP_JUMPDEST => afterOp (withCharge MT b (ret tt) s)
  | OP_PUSH0 => afterOp (executePush0Opcode MT b s)
  | OP_RETURN => afterTerm backToSwitch EVMC_SUCCESS (execute_term MT op Return_body s)
  | OP_REVERT => afterTerm backToSwitch EVMC_REVERT (execute_term MT op Revert_body s)
  | OP_INVALID => afterOp (setStatus EVMC_INVALID_INSTRUCTION s)
  | OP_SELFDESTRUCT => afterTerm backToSwitch EVMC_SUCCESS (execute_term MT op SelfDestruct_body s)
  | _ =>
      match switch_handler op with
      | Some h => afterOp (execute MT h s)
      | None => afterOp (switch_default b s)
      end
  end.

(** The part of an iteration after the chunk test: the names table first. *)
Definition slow_step (Names : Z -> bool) (b : Z) (s : hstate HS) : loop_out HS :=
  if negb (Names b) then onError (on_cx (set_Status EVMC_UNDEFINED_INSTRUCTION) s)
  else switch_step b s.
End SlowPath.

(** *** The portable chunk runner *)
Section Chunk.
Context {HS : Type} {I : Intx} {H : EvmcHost HS} {V : Evmc}.

(** What one turn of the inner loop leads to: the next turn, or the end of
    the chunk run. *)
Inductive chunk_out : Type :=
| KNext (s : hstate HS)
| KEnd (o : loop_out HS).

Definition chunk_arith (op : evmc_opcode) : option (HM HS unit) :=
  match op with
  | OP_ADD => Some (doExecute AddHandler) | OP_MUL => Some (doExecute MulHandler)
  | OP_SUB => Some (doExecute SubHandler) | OP_DIV => Some (doExecute DivHandler)
  | OP_SDIV => Some (doExecute SDivHandler) | OP_MOD => Some (doExecute ModHandler)
  | OP_SMOD => Some (doExecute SModHandler) | OP_ADDMOD => Some (doExecute AddmodHandler)
  | OP_MULMOD => Some (doExecute MulmodHandler) | OP_EXP => Some (doExecute ExpHandler)
  | OP_SIGNEXTEND => Some (doExecute SignExtendHandler) | OP_LT => Some (doExecute LtHandler)
  | OP_GT => Some (doExecute GtHandler) | OP_SLT => Some (doExecute SltHandler)
  | OP_SGT => Some (doExecute SgtHandler) | OP_EQ => Some (doExecute EqHandler)
  | OP_ISZERO => Some (doExecute IsZeroHandler) | OP_AND => Some (doExecute AndHandler)
  | OP_OR => Some (doExecute OrHandler) | OP_XOR => Some (doExecute XorHandler)
  | OP_NOT => Some (doExecute NotHandler) | OP_BYTE => Some (doExecute ByteHandler)
  | OP_SHL => Some (doExecute ShlHandler) | OP_SHR => Some (doExecute ShrHandler)
  | OP_SAR => Some (doExecute SarHandler) | OP_CLZ => Some (doExecute ClzHandler)
  | OP_KECCAK256 => Some (doExecute Keccak256Handler)
  | _ => None
  end.

Definition chunk_env (op : evmc_opcode) : option (HM HS unit) :=
  match op with
  | OP_ADDRESS => Some (doExecute AddressHandler) | OP_BALANCE => Some (doExecute BalanceHandler)
  | OP_ORIGIN => Some (doExecute OriginHandler) | OP_CALLER => Some (doExecute CallerHandler)
  | OP_CALLVALUE => Some (doExecute CallValueHandler)
  | OP_CALLDATALOAD => Some (doExecute CallDataLoadHandler)
  | OP_CALLDATASIZE => Some (doExecute CallDataSizeHandler)
  | OP_CALLDATACOPY => Some (doExecute CallDataCopyHandler)
  | OP_CODESIZE => Some (doExecute CodeSizeHandler)
  | OP_CODECOPY => Some (doExecute CodeCopyHandler)
  | OP_GASPRICE => Some (doExecute GasPriceHandler)
  | OP_EXTCODESIZE => Some (doExecute ExtCodeSizeHandler)
  | OP_EXTCODECOPY => Some (doExecute ExtCodeCopyHandler)
  | OP_RETURNDATASIZE => Some (doExecute ReturnDataSizeHandler)
  | OP_RETURNDATACOPY => Some (doExecute ReturnDataCopyHandler)
  | OP_EXTCODEHASH => Some (doExecute ExtCodeHashHandler)
  | OP_BLOCKHASH => Some (doExecute BlockHashHandler)
  | OP_COINBASE => Some (doExecute CoinBaseHandler)
  | OP_TIMESTAMP => Some (doExecute TimeStampHandler)
  | OP_NUMBER => Some (doExecute NumberHandler)
  | OP_PREVRANDAO => Some (doExecute PrevRanDaoHandler)
  | OP_GASLIMIT => Some (doExecute GasLimitHandler)
  | OP_CHAINID => Some (doExecute ChainIdHandler)
  | OP_SELFBALANCE => Some (doExecute SelfBalanceHandler)
  | OP_BASEFEE => Some (doExecute BaseFeeHandler)
  | OP_BLOBHASH => Some (doExecute BlobHashHandler)
  | OP_BLOBBASEFEE => Some (doExecute BlobBaseFeeHandler)
  | _ => None
  end.

Definition chunk_memory (op : evmc_opcode) : option (HM HS unit) :=
  match op with
  | OP_MLOAD => Some (doExecute MLoadHandler) | OP_MSTORE => Some (doExecute MStoreHandler)
  | OP_MSTORE8 => Some (doExecute MStore8Handler) | OP_SLOAD => Some (doExecute SLoadHandler)
  | OP_SSTORE => Some (doExecute SStoreHandler) | OP_PC => Some (doExecute PCHandler)
  | OP_MSIZE => Some (doExecute MSizeHandler) | OP_GAS => Some (doExecute GasHandler)
  | OP_TLOAD => Some (doExecute TLoadHandler) | OP_TSTORE => Some (doExecute TStoreHandler)
  | OP_MCOPY => Some (doExecute MCopyHandler)
  | OP_LOG0 | OP_LOG1 | OP_LOG2 | OP_LOG3 | OP_LOG4 => Some (Log_doExecute (byte_of_opcode op))
  | _ => None
  end.

Definition chunk_handler (op : evmc_opcode) : option (HM HS unit) :=
  match chunk_arith op with
  | Some h => Some h
  | None => match chunk_env op with Some h => Some h | None => chunk_memory op end
  end.

Context (Code : list Z) (JumpMap PushMap : list Z).
Let CodeSize := length Code.

(** The [default] case. *)
Definition chunk_default (b : Z) : HM HS unit :=
  if (OP_PUSH1 <=? b) && (b <=? OP_PUSH32) then executePushNOpcodeNoGas b PushMap
  else if (OP_DUP1 <=? b) && (b <=? OP_DUP16) then executeDupOpcodeNoGas b
  else if (OP_SWAP1 <=? b) && (b <=? OP_SWAP16) then executeSwapOpcodeNoGas b
  else
    match opcode_of_byte b with
    | (OP_CREATE | OP_CREATE2) as op => Create_doExecute op
    | (OP_CALL | OP_CALLCODE | OP_DELEGATECALL | OP_STATICCALL) as op => Call_doExecute op
    | _ => setStatus EVMC_UNDEFINED_INSTRUCTION
    end.

(** After the switch: stop on a status, else [Frame->Pc++] and go on. *)
Definition chunk_after (o : out ErrorCode (hstate HS) unit) : chunk_out :=
  match o with
  | Ret _ s | Exit s =>
      if is_success (Status (cx s)) then KNext (on_fr (fun f => set_Pc (Pc f + 1) f) s)
      else KEnd (onError s)
  | Throw e _ => KEnd (LThrow e)
  | Undef => KEnd LUndef
  end.

(** A taken jump sets [RestartDispatch]. *)
Definition chunk_jump (o : out ErrorCode (hstate HS) (option nat)) : chunk_out :=
  match o with
  | Ret (Some d) s => KEnd (LContinue (on_fr (set_Pc d) s))
  | Ret None s | Exit s => chunk_after (Exit s)
  | Throw e _ => KEnd (LThrow e)
  | Undef => KEnd LUndef
  end.

Definition chunk_switch (b : Z) (s : hstate HS) : chunk_out :=
  let op := opcode_of_byte b in
  match op with
  | OP_STOP => KEnd (stopOp stopRestart s)
  | OP_POP => chunk_after (executePopOpcodeNoGas s)
  | OP_JUMP => chunk_jump (jumpOp CodeSize JumpMap s)
  | OP_JUMPI => chunk_jump (jumpiOp CodeSize JumpMap s)
  | OP_JUMPDEST => chunk_after (ret tt s)
  | OP_PUSH0 => chunk_after (executePush0OpcodeNoGas s)
  | OP_RETURN => KEnd (afterTerm restartDispatch EVMC_SUCCESS (doExecute_term Return_body s))
  | OP_REVERT => KEnd (afterTerm restartDispatch EVMC_REVERT (doExecute_term Revert_body s))
  | OP_INVALID => chunk_after (setStatus EVMC_INVALID_INSTRUCTION s)
  | OP_SELFDESTRUCT => KEnd (afterTerm restartDispatch EVMC_SUCCESS (doExecute_term SelfDestruct_body s))
  | _ =>
      match chunk_handler op with
      | Some m => chunk_after (m s)
      | None => chunk_after (chunk_default b s)
      end
  end.

Definition chunk_step (Names : Z -> bool) (b : Z) (s : hstate HS) : chunk_out :=
  if negb (Names b) then KEnd (onError (on_cx (set_Status EVMC_UNDEFINED_INSTRUCTION) s))
  else chunk_switch b s.

(** [while (Frame->Pc < ChunkEnd)]; every turn moves [Pc] forward, so
    [ChunkEnd] turns are enough. *)
Fixpoint chunk_loop (fuel : nat) (Names : Z -> bool) (ChunkEnd : nat) (s : hstate HS)
  : loop_out HS :=
  if (ChunkEnd <=? Pc (fr s))%nat then LContinue s
  else
    match fuel with
    | O => LFuel
    | S fuel' =>
        match Code !! Pc (fr s) with
        | None => LUndef
        | Some b =>
            match chunk_step Names b s with
            | KNext s' => chunk_loop fuel' Names ChunkEnd s'
            | KEnd o => o
            end
        end
    end.

Definition run_chunk (Names : Z -> bool) (ChunkEnd : nat) (s : hstate HS) : loop_out HS :=
  chunk_loop ChunkEnd Names ChunkEnd s.
End Chunk.

Arguments chunk_out HS : clear implicits.

(** *** The computed-goto chunk runner *)
Section Cgoto.
Context {HS : Type} {I : Intx} {H : EvmcHost HS} {V : Evmc}.

(** The labels of the dispatch table; [TARGET op] is the label that carries
    the name of the opcode. *)
Inductive label : Type :=
| TARGET (op : evmc_opcode)
| TARGET_PUSHX | TARGET_DUPX | TARGET_SWAPX | TARGET_LOGX | TARGET_CALLX | TARGET_CREATEX
| TARGET_UNDEFINED.

(** [base[256]] *)
Definition cgoto_base (i : Z) : label :=
  if (0x60 <=? i) && (i <=? 0x7f) then TARGET_PUSHX
  else if (0x80 <=? i) && (i <=? 0x8f) then TARGET_DUPX
  else if (0x90 <=? i) && (i <=? 0x9f) then TARGET_SWAPX
  else if (0xa0 <=? i) && (i <=? 0xa4) then TARGET_LOGX
  else
    match opcode_of_byte i with
    | OP_OTHER => TARGET_UNDEFINED
    | OP_CREATE | OP_CREATE2 => TARGET_CREATEX
    | OP_CALL | OP_CALLCODE | OP_DELEGATECALL | OP_STATICCALL => TARGET_CALLX
    | op => TARGET op
    end.

(** [cgoto_tables[rev]] *)
Definition cgoto_table (Names : Z -> bool) (i : Z) : label :=
  if Names i then cgoto_base i else TARGET_UNDEFINED.

(** The local variables [Pc] and [sp] beside the frame and the context. *)
Record lstate : Type := mkL { lPc : nat; lsp : nat; ls : hstate HS }.

Inductive cgoto_out : Type :=
| CNext (l : lstate)                              (* DISPATCH_NEXT *)
| CError (st : evmc_status_code) (l : lstate)     (* setStatus(st); goto cgoto_error *)
| CEnd (o : loop_out HS).

(** [Frame->Sp = sp; Frame->Pc = Pc;] *)
Definition write_back (l : lstate) : hstate HS :=
  on_fr (fun f => set_Pc (lPc l) (set_Sp (lsp l) f)) (ls l).

Definition lstack (l : lstate) : list Z := Stack (fr (ls l)).
Definition lset (i : nat) (v : Z) (l : lstate) : hstate HS :=
  on_fr (fun f => set_Stack (<[i := v]> (Stack f)) f) (ls l).

Definition inline_unary (f : Z -> Z) (l : lstate) : cgoto_out :=
  let sp := lsp l in
  if (sp <? 1)%nat then CError EVMC_STACK_UNDERFLOW l
  else
    match lstack l !! (sp - 1)%nat with
    | Some A => CNext (mkL (lPc l + 1) sp (lset (sp - 1) (f A) l))
    | None => CEnd LUndef
    end.

Definition inline_binary (f : Z -> Z -> Z) (l : lstate) : cgoto_out :=
  let sp := lsp l in
  if (sp <? 2)%nat then CError EVMC_STACK_UNDERFLOW l
  else
    match lstack l !! (sp - 1)%nat, lstack l !! (sp - 2)%nat with
    | Some A, Some B => CNext (mkL (lPc l + 1) (sp - 1) (lset (sp - 2) (f A B) l))
    | _, _ => CEnd LUndef
    end.

Definition inline_ternary (f : Z -> Z -> Z -> Z) (l : lstate) : cgoto_out :=
  let sp := lsp l in
  if (sp <? 3)%nat then CError EVMC_STACK_UNDERFLOW l
  else
    match lstack l !! (sp - 1)%nat, lstack l !! (sp - 2)%nat, lstack l !! (sp - 3)%nat with
    | Some A, Some B, Some C => CNext (mkL (lPc l + 1) (sp - 2) (lset (sp - 3) (f A B C) l))
    | _, _, _ => CEnd LUndef
    end.

(** ADD .. SHR, the inline binary operators. *)
Definition cgoto_binary (op : evmc_opcode) : option (Z -> Z -> Z) :=
  match op with
  | OP_ADD => Some uadd
  | OP_MUL => Some umul
  | OP_SUB => Some usub
  | OP_DIV => Some (fun A B => if B =? 0 then 0 else udiv A B)
  | OP_SDIV => Some (fun A B => if B =? 0 then 0 else (sdivrem A B).1)
  | OP_MOD => Some (fun A B => if B =? 0 then 0 else umod A B)
  | OP_SMOD => Some (fun A B => if B =? 0 then 0 else (sdivrem A B).2)
  | OP_LT => Some (fun A B => b2z (A <? B))
  | OP_GT => Some (fun A B => b2z (B <? A))
  | OP_SLT => Some (fun A B => b2z (slt A B))
  | OP_SGT => Some (fun A B => b2z (slt B A))
  | OP_EQ => Some (fun A B => b2z (A =? B))
  | OP_AND => Some uand
  | OP_OR => Some uor
  | OP_XOR => Some uxor
  | OP_SHL => Some (fun A B => if A <? 256 then ushl B A else 0)
  | OP_SHR => Some (fun A B => if A <? 256 then ushr B A else 0)
  | _ => None
  end.

Definition cgoto_ternary (op : evmc_opcode) : option (Z -> Z -> Z -> Z) :=
  match op with
  | OP_ADDMOD => Some (fun A B C => if C =? 0 then 0 else addmod A B C)
  | OP_MULMOD => Some (fun A B C => if C =? 0 then 0 else mulmod A B C)
  | _ => None
  end.

Definition cgoto_unary (op : evmc_opcode) : option (Z -> Z) :=
  match op with
  | OP_ISZERO => Some (fun A => b2z (A =? 0))
  | OP_NOT => Some unot
  | OP_CLZ => Some uclz
  | _ => None
  end.

(** *** Inline stack operations *)

Definition inline_pop (l : lstate) : cgoto_out :=
  if (lsp l <? 1)%nat then CError EVMC_STACK_UNDERFLOW l
  else CNext (mkL (lPc l + 1) (lsp l - 1) (ls l)).

(** [Frame->Stack[sp++] = v], unchecked. *)
Definition inline_push (v : Z) (Pc' : nat) (l : lstate) : cgoto_out :=
  if (lsp l <? length (lstack l))%nat then CNext (mkL Pc' (lsp l + 1) (lset (lsp l) v l))
  else CEnd LUndef.

Definition inline_push0 (Revision : evmc_revision) (l : lstate) : cgoto_out :=
  if rev_lt Revision EVMC_SHANGHAI then CError EVMC_UNDEFINED_INSTRUCTION l
  else if (MAXSTACK <=? lsp l)%nat then CError EVMC_STACK_OVERFLOW l
  else inline_push 0 (lPc l + 1) l.

Definition inline_pushx (PushMap : list Z) (b : Z) (l : lstate) : cgoto_out :=
  if (MAXSTACK <=? lsp l)%nat then CError EVMC_STACK_OVERFLOW l
  else
    match PushMap !! lPc l with
    | Some v => inline_push v (lPc l + (1 + pushNumBytes b)) l
    | None => CEnd LUndef
    end.

Definition inline_dupx (b : Z) (l : lstate) : cgoto_out :=
  let N := dupN b in
  let sp := lsp l in
  if (sp <? N)%nat then CError EVMC_STACK_UNDERFLOW l
  else if (MAXSTACK <=? sp)%nat then CError EVMC_STACK_OVERFLOW l
  else
    match lstack l !! (sp - N)%nat with
    | Some v => inline_push v (lPc l + 1) l
    | None => CEnd LUndef
    end.

Definition inline_swapx (b : Z) (l : lstate) : cgoto_out :=
  let N := swapN b in
  let sp := lsp l in
  if (sp <? N + 1)%nat then CError EVMC_STACK_UNDERFLOW l
  else
    let TopIdx := (sp - 1)%nat in
    let NthIdx := (sp - 1 - N)%nat in
    match lstack l !! TopIdx, lstack l !! NthIdx with
    | Some Tmp, Some Nth =>
        CNext (mkL (lPc l + 1) sp
                 (on_fr (fun f => set_Stack (<[NthIdx := Tmp]> (<[TopIdx := Nth]> (Stack f))) f)
                    (ls l)))
    | _, _ => CEnd LUndef
    end.

(** *** Inline jumps *)

Definition inline_checkDest (CodeSize : nat) (JumpMap : list Z) (Dest : Z) (l : lstate)
  : cgoto_out :=
  if Z.of_nat CodeSize <=? Dest then CError EVMC_BAD_JUMP_DESTINATION l
  else
    match JumpMap !! Z.to_nat Dest with
    | None => CEnd LUndef
    | Some d =>
        if d =? 0 then CError EVMC_BAD_JUMP_DESTINATION l
        else CEnd (LContinue (write_back (mkL (Z.to_nat Dest) (lsp l) (ls l))))
    end.

Definition inline_jump (CodeSize : nat) (JumpMap : list Z) (l : lstate) : cgoto_out :=
  let sp := lsp l in
  if (sp <? 1)%nat then CError EVMC_STACK_UNDERFLOW l
  else
    match lstack l !! (sp - 1)%nat with
    | None => CEnd LUndef
    | Some v =>
        inline_checkDest CodeSize JumpMap (uint256ToUint64 v) (mkL (lPc l) (sp - 1) (ls l))
    end.

Definition inline_jumpi (CodeSize : nat) (JumpMap : list Z) (l : lstate) : cgoto_out :=
  let sp := lsp l in
  if (sp <? 2)%nat then CError EVMC_STACK_UNDERFLOW l
  else
    match lstack l !! (sp - 1)%nat, lstack l !! (sp - 2)%nat with
    | Some v, Some Cond =>
        let l := mkL (lPc l) (sp - 2) (ls l) in
        if Cond =? 0 then CNext (mkL (lPc l + 1) (lsp l) (ls l))
        else inline_checkDest CodeSize JumpMap (uint256ToUint64 v) l
    | _, _ => CEnd LUndef
    end.

(** *** Handler calls *)

(** [HANDLER_CALL], also the code of LOGX, CALLX and CREATEX: [Pc] is
    advanced before the status is looked at. *)
Definition HANDLER_CALL (m : HM HS unit) (l : lstate) : cgoto_out :=
  match m (write_back l) with
  | Ret _ s | Exit s =>
      let l' := mkL (lPc l + 1) (Sp (fr s)) s in
      if is_success (Status (cx s)) then CNext l' else CError (Status (cx s)) l'
  | Throw e _ => CEnd (LThrow e)
  | Undef => CEnd LUndef
  end.

Definition cgoto_handler (op : evmc_opcode) : option (HM HS unit) :=
  match op with
  | OP_EXP => Some (doExecute ExpHandler)
  | OP_SIGNEXTEND => Some (doExecute SignExtendHandler)
  | OP_BYTE => Some (doExecute ByteHandler)
  | OP_SAR => Some (doExecute SarHandler)
  | OP_KECCAK256 => Some (doExecute Keccak256Handler)
  | OP_ADDRESS => Some (doExecute AddressHandler)
  | OP_BALANCE => Some (doExecute BalanceHandler)
  | OP_ORIGIN => Some (doExecute OriginHandler)
  | OP_CALLER => Some (doExecute CallerHandler)
  | OP_CALLVALUE => Some (doExecute CallValueHandler)
  | OP_CALLDATALOAD => Some (doExecute CallDataLoadHandler)
  | OP_CALLDATASIZE => Some (doExecute CallDataSizeHandler)
  | OP_CALLDATACOPY => Some (doExecute CallDataCopyHandler)
  | OP_CODESIZE => Some (doExecute CodeSizeHandler)
  | OP_CODECOPY => Some (doExecute CodeCopyHandler)
  | OP_GASPRICE => Some (doExecute GasPriceHandler)
  | OP_EXTCODESIZE => Some (doExecute ExtCodeSizeHandler)
  | OP_EXTCODECOPY => Some (doExecute ExtCodeCopyHandler)
  | OP_RETURNDATASIZE => Some (doExecute ReturnDataSizeHandler)
  | OP_RETURNDATACOPY => Some (doExecute ReturnDataCopyHandler)
  | OP_EXTCODEHASH => Some (doExecute ExtCodeHashHandler)
  | OP_BLOCKHASH => Some (doExecute BlockHashHandler)
  | OP_COINBASE => Some (doExecute CoinBaseHandler)
  | OP_TIMESTAMP => Some (doExecute TimeStampHandler)
  | OP_NUMBER => Some (doExecute NumberHandler)
  | OP_PREVRANDAO => Some (doExecute PrevRanDaoHandler)
  | OP_GASLIMIT => Some (doExecute GasLimitHandler)
  | OP_CHAINID => Some (doExecute ChainIdHandler)
  | OP_SELFBALANCE => Some (doExecute SelfBalanceHandler)
  | OP_BASEFEE => Some (doExecute BaseFeeHandler)
  | OP_BLOBHASH => Some (doExecute BlobHashHandler)
  | OP_BLOBBASEFEE => Some (doExecute BlobBaseFeeHandler)
  | OP_MLOAD => Some (doExecute MLoadHandler)
  | OP_MSTORE => Some (doExecute MStoreHandler)
  | OP_MSTORE8 => Some (doExecute MStore8Handler)
  | OP_SLOAD => Some (doExecute SLoadHandler)
  | OP_SSTORE => Some (doExecute SStoreHandler)
  | OP_PC => Some (doExecute PCHandler)
  | OP_MSIZE => Some (doExecute MSizeHandler)
  | OP_GAS => Some (doExecute GasHandler)
  | OP_TLOAD => Some (doExecute TLoadHandler)
  | OP_TSTORE => Some (doExecute TStoreHandler)
  | OP_MCOPY => Some (doExecute MCopyHandler)
  | _ => None
  end.

Context (Code : list Z) (Revision : evmc_revision) (JumpMap PushMap : list Z).
Let CodeSize := length Code.

(** The code at a label that carries an opcode's name. *)
Definition cgoto_target (op : evmc_opcode) (l : lstate) : cgoto_out :=
  match op with
  | OP_POP => inline_pop l
  | OP_PUSH0 => inline_push0 Revision l
  | OP_JUMP => inline_jump CodeSize JumpMap l
  | OP_JUMPI => inline_jumpi CodeSize JumpMap l
  | OP_JUMPDEST => CNext (mkL (lPc l + 1) (lsp l) (ls l))
  | OP_STOP => CEnd (stopOp stopGoto (write_back l))
  | OP_INVALID => CError EVMC_INVALID_INSTRUCTION l
  | OP_RETURN => CEnd (afterTerm restartDispatch EVMC_SUCCESS (doExecute_term Return_body (write_back l)))
  | OP_REVERT => CEnd (afterTerm restartDispatch EVMC_REVERT (doExecute_term Revert_body (write_back l)))
  | OP_SELFDESTRUCT =>
      CEnd (afterTerm restartDispatch EVMC_SUCCESS (doExecute_term SelfDestruct_body (write_back l)))
  | _ =>
      match cgoto_binary op, cgoto_ternary op, cgoto_unary op, cgoto_handler op with
      | Some f, _, _, _ => inline_binary f l
      | _, Some f, _, _ => inline_ternary f l
      | _, _, Some f, _ => inline_unary f l
      | _, _, _, Some m => HANDLER_CALL m l
      | _, _, _, _ => CError EVMC_UNDEFINED_INSTRUCTION l
      end
  end.

(** [goto *cgoto_table[Code[Pc]]] *)
Definition cgoto_goto (Names : Z -> bool) (b : Z) (l : lstate) : cgoto_out :=
  match cgoto_table Names b with
  | TARGET op => cgoto_target op l
  | TARGET_PUSHX => inline_pushx PushMap b l
  | TARGET_DUPX => inline_dupx b l
  | TARGET_SWAPX => inline_swapx b l
  | TARGET_LOGX => HANDLER_CALL (Log_doExecute b) l
  | TARGET_CALLX => HANDLER_CALL (Call_doExecute (opcode_of_byte b)) l
  | TARGET_CREATEX => HANDLER_CALL (Create_doExecute (opcode_of_byte b)) l
  | TARGET_UNDEFINED => CError EVMC_UNDEFINED_INSTRUCTION l
  end.

(** [cgoto_error] *)
Definition cgoto_error (st : evmc_status_code) (l : lstate) : loop_out HS :=
  onError (write_back (mkL (lPc l) (lsp l) (on_cx (set_Status st) (ls l)))).

(** The dispatches of a chunk run; [DISPATCH_NEXT] looks at the end of the
    chunk, the initial dispatch does not. *)
Fixpoint cgoto_loop (fuel : nat) (Names : Z -> bool) (ChunkEnd : nat) (l : lstate)
  : loop_out HS :=
  match fuel with
  | O => LFuel
  | S fuel' =>
      match Code !! lPc l with
      | None => LUndef
      | Some b =>
          match cgoto_goto Names b l with
          | CNext l' =>
              if (ChunkEnd <=? lPc l')%nat then LContinue (write_back l')
              else cgoto_loop fuel' Names ChunkEnd l'
          | CError st l' => cgoto_error st l'
          | CEnd o => o
          end
      end
  end.

Definition run_cgoto (Names : Z -> bool) (ChunkEnd : nat) (s : hstate HS) : loop_out HS :=
  cgoto_loop ChunkEnd Names ChunkEnd (mkL (Pc (fr s)) (Sp (fr s)) s).
End Cgoto.

Arguments lstate HS : clear implicits.
Arguments cgoto_out HS : clear implicits.

(** *** [interpret] *)
Section Interpret.
Context {HS : Type} {I : Intx} {H : EvmcHost HS} {V : Evmc}.

(** The two chunk runners; the build picks one ([__GNUC__]). *)
Inductive runner : Type := Portable | Cgoto.

(** The local variables [interpret] sets up once. *)
Record interp_env : Type := mkEnv {
  eCode : list Z;
  eRevision : evmc_revision;
  eMetrics : metrics;
  eNames : Z -> bool;
  eCache : EVMBytecodeCache;
}.

Definition run_with (R : runner) (E : interp_env) (ChunkEnd : nat) (s : hstate HS)
  : loop_out HS :=
  match R with
  | Portable =>
      run_chunk (eCode E) (JumpDestMap (eCache E)) (PushValueMap (eCache E)) (eNames E) ChunkEnd s
  | Cgoto =>
      run_cgoto (eCode E) (eRevision E) (JumpDestMap (eCache E)) (PushValueMap (eCache E))
        (eNames E) ChunkEnd s
  end.

(** The body of the outer loop, entered with [Frame->Pc < CodeSize]. *)
Definition interp_iter (R : runner) (E : interp_env) (s : hstate HS) : loop_out HS :=
  let pc := Pc (fr s) in
  match GasChunkEnd (eCache E) !! pc, GasChunkCost (eCache E) !! pc, eCode E !! pc with
  | Some ChunkEnd, Some ChunkCost, Some b =>
      if (Z.of_nat pc <? ChunkEnd) && (ChunkCost <=? u64 (fgas (fr s))) then
        run_with R E (Z.to_nat ChunkEnd)
          (on_fr (fun f => set_fgas (i64 (u64 (fgas f) - ChunkCost)) f) s)
      else
        slow_step (length (eCode E)) (eMetrics E) (JumpDestMap (eCache E))
          (PushValueMap (eCache E)) (eNames E) b s
  | _, _, _ => LUndef
  end.

Fixpoint interp_loop (fuel : nat) (R : runner) (E : interp_env) (s : hstate HS) : loop_out HS :=
  if (length (eCode E) <=? Pc (fr s))%nat then LBreak (Some (fr s)) (cx s)
  else
    match fuel with
    | O => LFuel
    | S fuel' =>
        match interp_iter R E s with
        | LContinue s' => interp_loop fuel' R E s'
        | o => o
        end
    end.

(** Result of [interpret]: the context it leaves. *)
Inductive interp_out : Type :=
| IReturn (c : Context_ HS) | IThrow (e : ErrorCode) | IUndef | IFuel.

Definition finish (o : loop_out HS) : interp_out :=
  match o with
  | LContinue _ => IUndef
  | LBreak cur c => IReturn (epilogue cur c)
  | LReturn c => IReturn c
  | LThrow e => IThrow e
  | LUndef => IUndef
  | LFuel => IFuel
  end.

(** [EVMFrame *Frame = Context.getCurFrame(); ...]; without a frame the
    check throws, without a metrics table its use is undefined. *)
Definition interpret (R : runner) (fuel : nat) (Cache : EVMBytecodeCache)
    (cur : option EVMFrame) (c : Context_ HS) : interp_out :=
  match cur with
  | None => IThrow EVMFrameNotFound
  | Some f =>
      let c := set_Status EVMC_SUCCESS c in
      let rev := Rev (Inst c) in
      match metrics_table rev with
      | None => IUndef
      | Some MT =>
          let E := mkEnv (ModCode (Inst c)) rev MT (names_table rev) Cache in
          finish (interp_loop fuel R E (mkH (set_HostSet true f) c))
      end
  end.
End Interpret.

Arguments interp_out HS : clear implicits.

(** *** [restoreStateFromInstance]

    The bytes of the instance's operand stack are read one per 64-bit limb
    ([static_cast<uint64_t>( *ElementData)], then eight bytes on). *)
Section Restore.
Context {HS : Type}.

Definition restore_element (bytes : list Z) (i : nat) : Z :=
  let b k := default 0 (bytes !! (32 * i + 8 * k)%nat) in
  of_words (b 0%nat) (b 1%nat) (b 2%nat) (b 3%nat).

Definition restore_stack (n : nat) (bytes stack : list Z) : list Z :=
  map (restore_element bytes) (seq 0 n) ++ drop n stack.

Definition restoreStateFromInstance (StartPC : Z) (cur : option EVMFrame) (c : Context_ HS)
  : option EVMFrame * Context_ HS :=
  let Instance := Inst c in
  if Z.of_nat (length (ModCode Instance)) <=? StartPC
  then (cur, set_Status EVMC_BAD_JUMP_DESTINATION c)
  else
    match cur with
    | None => (None, set_Status EVMC_INVALID_INSTRUCTION c)
    | Some f =>
        let f := set_Pc (Z.to_nat StartPC) f in
        let NumElements := EVMStackSize Instance / 32 in
        if Z.of_nat MAXSTACK <? NumElements then (Some f, set_Status EVMC_STACK_OVERFLOW c)
        else
          let n := Z.to_nat NumElements in
          let f := set_Sp n f in
          let f := set_Stack (restore_stack n (EVMStack Instance) (Stack f)) f in
          let f :=
            if MemoryBase Instance && (0 <? MemorySize Instance)
            then set_Memory (Instance_.visible Instance) f
            else set_Memory [] f in
          (Some f, set_Status EVMC_SUCCESS c)
    end.
End Restore.
