(* ===== verification/Dispatch.v ===== *)
(** What each opcode byte stands for, independently of the dispatch code.

    The interpreter decides three times what to do with a byte: in the
    single-instruction switch, in the portable chunk switch and in the
    computed-goto table.  [classify] is the common specification; the lemmas
    show that the first two switches implement it ([Cgoto] has the third). *)

From S2P Require Import Prelude Intx Evmc GasStorageCost EvmInstance Frame HandlerUtil.
From S2P Require Import HandlersArith HandlersEnv HandlersCall BytecodeCache Interpreter.

Section Classify.
Context {HS : Type} {I : Intx} {H : EvmcHost HS} {V : Evmc}.

Inductive op_class : Type :=
| COrd (m : HM HS unit)                                (* falls through to the next one *)
| CJump | CJumpi | CStop
| CTerm (st : evmc_status_code) (op : evmc_opcode) (m : HM HS unit)  (* gives the frame back *)
| CFail.                                               (* not an instruction *)

Definition classify (PushMap : list Z) (b : Z) : op_class :=
  match opcode_of_byte b with
  | OP_STOP => CStop
  | OP_JUMP => CJump
  | OP_JUMPI => CJumpi
  | OP_RETURN => CTerm EVMC_SUCCESS OP_RETURN Return_body
  | OP_REVERT => CTerm EVMC_REVERT OP_REVERT Revert_body
  | OP_SELFDESTRUCT => CTerm EVMC_SUCCESS OP_SELFDESTRUCT SelfDestruct_body
  | OP_INVALID => CFail
  | OP_POP => COrd executePopOpcodeNoGas
  | OP_JUMPDEST => COrd (ret tt)
  | OP_PUSH0 => COrd executePush0OpcodeNoGas
  | (OP_CREATE | OP_CREATE2) as op => COrd (Create_doExecute op)
  | (OP_CALL | OP_CALLCODE | OP_DELEGATECALL | OP_STATICCALL) as op => COrd (Call_doExecute op)
  | OP_OTHER =>
      if (OP_PUSH1 <=? b) && (b <=? OP_PUSH32) then COrd (executePushNOpcodeNoGas b PushMap)
      else if (OP_DUP1 <=? b) && (b <=? OP_DUP16) then COrd (executeDupOpcodeNoGas b)
      else if (OP_SWAP1 <=? b) && (b <=? OP_SWAP16) then COrd (executeSwapOpcodeNoGas b)
      else CFail
  | op => match chunk_handler op with Some m => COrd m | None => CFail end
  end.

(** [m] after a base charge of [c]: out of gas ends the instruction. *)
Definition charged (c : Z) {A} (m : HM HS A) : HM HS A := fun s =>
  if u64 (fgas (fr s)) <? u64 c then Exit (on_cx (set_Status EVMC_OUT_OF_GAS) s)
  else m (on_fr (set_fgas (i64 (u64 (fgas (fr s)) - u64 c))) s).

Definition failWith (st : evmc_status_code) (s : hstate HS) : loop_out HS :=
  onError (on_cx (set_Status st) s).

Context (Code : list Z) (MT : metrics) (JumpMap PushMap : list Z).
Let CodeSize := length Code.

(** *** Charging *)

Lemma withCharge_charged b {A} (m : HM HS A) s : withCharge MT b m s = charged (MT b) m s.
Proof.
  unfold withCharge, chargeGasStatus, charged, bind, getFrame, gets. cbv beta zeta iota.
  by destruct (u64 (fgas (fr s)) <? u64 (MT b)).
Qed.

Lemma execute_charged h s :
  afterOp (execute MT h s) = afterOp (charged (MT (gas_opcode h)) (doExecute h) s).
Proof.
  unfold execute, chargeGas, charged, bind, getFrame, gets, call. cbv beta zeta iota.
  destruct (u64 (fgas (fr s)) <? u64 (MT (gas_opcode h))); [done|].
  unfold modFrame, modify, ret. cbv beta iota. change (negb true) with false. cbv beta iota.
  by destruct (doExecute h _).
Qed.

Lemma execute_term_charged op m s :
  execute_term MT op m s = doExecute_term (charged (MT (byte_of_opcode op)) m) s.
Proof.
  unfold execute_term, doExecute_term, chargeGas, charged, bind, getFrame, gets.
  cbv beta zeta iota. by destruct (u64 (fgas (fr s)) <? u64 (MT (byte_of_opcode op))).
Qed.

Lemma switch_handler_chunk op :
  match switch_handler (HS := HS) op with
  | Some h => gas_opcode h = byte_of_opcode op /\ chunk_handler op = Some (doExecute h)
  | None => chunk_handler (HS := HS) op = None
  end.
Proof. by destruct op. Qed.

(** Splits on the opcode of [b]; a named opcode determines the byte. *)
Local Ltac split_opcode b :=
  let Hb := fresh "Hb" in
  pose proof (opcode_of_byte_inv b) as Hb;
  destruct (opcode_of_byte b) eqn:?; try (specialize (Hb ltac:(discriminate)); simpl in Hb; subst b);
  try clear Hb.

(** *** The portable chunk switch *)
Lemma chunk_switch_spec b s :
  chunk_switch Code JumpMap PushMap b s =
  match classify PushMap b with
  | COrd m => chunk_after (m s)
  | CJump => chunk_jump (jumpOp CodeSize JumpMap s)
  | CJumpi => chunk_jump (jumpiOp CodeSize JumpMap s)
  | CStop => KEnd (stopOp stopRestart s)
  | CTerm st _ m => KEnd (afterTerm restartDispatch st (doExecute_term m s))
  | CFail => KEnd (failWith (if b =? 0xfe then EVMC_INVALID_INSTRUCTION
                             else EVMC_UNDEFINED_INSTRUCTION) s)
  end.
Proof.
  unfold chunk_switch, classify. split_opcode b; try reflexivity.
  unfold chunk_default. rewrite Heqe.
  change (chunk_handler (HS := HS) OP_OTHER) with (@None (HM HS unit)). cbv iota.
  repeat case_match; try reflexivity. exfalso.
  match goal with E : (b =? _) = true |- _ => apply Z.eqb_eq in E; by subst b end.
Qed.

(** *** The single-instruction switch *)
Lemma switch_step_spec b s :
  switch_step CodeSize MT JumpMap PushMap b s =
  match classify PushMap b with
  | COrd m => afterOp (charged (MT b) m s)
  | CJump => afterJump (charged (MT b) (jumpOp CodeSize JumpMap) s)
  | CJumpi => afterJump (charged (MT b) (jumpiOp CodeSize JumpMap) s)
  | CStop => stopOp stopContinue s
  | CTerm st _ m => afterTerm backToSwitch st (doExecute_term (charged (MT b) m) s)
  | CFail => failWith EVMC_INVALID_INSTRUCTION s
  end.
Proof.
  unfold switch_step, classify. pose proof (switch_handler_chunk (opcode_of_byte b)) as Hsw.
  split_opcode b; simpl switch_handler in *; simpl chunk_handler in *; cbv iota in *;
    try reflexivity;
    try (match goal with |- afterOp (execute _ _ _) = _ => apply execute_charged end);
    try (unfold executePopOpcode, executePush0Opcode; by rewrite withCharge_charged);
    try (by rewrite execute_term_charged);
    unfold switch_default; simpl andb; cbv iota.
  all: try apply execute_charged.
  change (switch_handler (HS := HS) OP_OTHER) with (@None (Handler HS)). rewrite Heqe.
  repeat case_match; try congruence; try reflexivity;
    unfold executePushNOpcode, executeDupOpcode, executeSwapOpcode; by rewrite withCharge_charged.
Qed.
End Classify.

Arguments op_class HS : clear implicits.
