(* ===== verification/WellFormed.v ===== *)
(** Well-formed interpreter states and the rules that handlers are verified
    with.

    [wf] is the invariant of a running frame: a full-size operand stack of
    256-bit words, a memory of whole 32-byte words below the size limit, gas
    in the non-negative half of its type, byte strings of the sizes their C++
    types give them.  [keep s0 s] says what a handler leaves alone and that it
    does not create gas.  Each [wp_*] lemma is the rule of one building block;
    the tactic [safe] chains them. *)

From S2P Require Import Prelude Intx Evmc GasStorageCost EvmInstance Frame HandlerUtil.
From S2P Require Import HandlersArith HandlersEnv HandlersCall.

Section Wf.
Context {HS : Type}.

Record wf_frame (f : EVMFrame) : Prop := {
  wf_stack_len : length (Stack f) = MAXSTACK;
  wf_stack : Forall is_u256 (Stack f);
  wf_sp : (Sp f <= MAXSTACK)%nat;
  wf_mem : Forall is_byte (Memory f);
  wf_mem_words : Z.of_nat (length (Memory f)) mod 32 = 0;
  wf_mem_max : Z.of_nat (length (Memory f)) <= MAX_REQUIRED_MEMORY_SIZE;
  wf_gas : 0 <= fgas f < 2 ^ 63;
  wf_input : Forall is_byte (input_data (Msg f));
  wf_input_size : Z.of_nat (length (input_data (Msg f))) < 2 ^ 63;
  wf_recipient : bytes_n 20 (recipient (Msg f));
  wf_sender : bytes_n 20 (sender (Msg f));
  wf_value : bytes_n 32 (value (Msg f));
  wf_tx : tx_ok (MTx f);
}.

(** A frame object: its operand stack is an array of words. *)
Definition frame_object (f : EVMFrame) : Prop :=
  length (Stack f) = MAXSTACK /\ Forall is_u256 (Stack f).

(** A message a caller may pass. *)
Record msg_ok (m : evmc_message) : Prop := {
  mo_gas : 0 <= gas m < 2 ^ 63;
  mo_input : Forall is_byte (input_data m);
  mo_input_size : Z.of_nat (length (input_data m)) < 2 ^ 63;
  mo_recipient : bytes_n 20 (recipient m);
  mo_sender : bytes_n 20 (sender m);
  mo_value : bytes_n 32 (value m);
}.

(** The code has less than 4 GiB, the frame is the context's only active
    one, as every caller of [interpret] sets it up, and only REVERT, which
    ends the frame, sets [EVMC_REVERT]. *)
Record wf_ctx (c : Context_ HS) : Prop := {
  wf_below : below c = [];
  wf_ret : Forall is_byte (ReturnData c);
  wf_ret_size : Z.of_nat (length (ReturnData c)) < 2 ^ 63;
  wf_code : Forall is_byte (ModCode (Inst c));
  wf_code_size : Z.of_nat (length (ModCode (Inst c))) + 64 <= 2 ^ 32;
  wf_status : Status c <> EVMC_REVERT;
}.

Definition wf (s : hstate HS) : Prop := wf_frame (fr s) /\ wf_ctx (cx s).

(** The instance but for its refund counter, which handlers may change. *)
Definition inst_frame (i : EVMInstance) : EVMInstance := set_GasRefund 0 i.

Record keep (s0 s : hstate HS) : Prop := {
  keep_pc : Pc (fr s) = Pc (fr s0);
  keep_snapshot : GasRefundSnapshot (fr s) = GasRefundSnapshot (fr s0);
  keep_spare : spare (cx s) = spare (cx s0);
  keep_inst : inst_frame (Inst (cx s)) = inst_frame (Inst (cx s0));
  keep_gas : fgas (fr s) <= fgas (fr s0);
}.

Lemma wf_frame_object f : wf_frame f -> frame_object f.
Proof. by intros []. Qed.

Lemma keep_refl s : keep s s.
Proof. split; done || lia. Qed.
Lemma keep_trans s1 s2 s3 : keep s1 s2 -> keep s2 s3 -> keep s1 s3.
Proof. intros [] []; split; congruence || lia. Qed.

Lemma inst_frame_code i i' : inst_frame i = inst_frame i' -> ModCode i = ModCode i'.
Proof. by inversion 1. Qed.
Lemma inst_frame_rev i i' : inst_frame i = inst_frame i' -> Rev i = Rev i'.
Proof. by inversion 1. Qed.

(** The handlers' invariant: [sp] and [ml] are the stack pointer and the
    memory size. *)
Record inv (s0 : hstate HS) (sp : nat) (ml : Z) (s : hstate HS) : Prop := {
  inv_wf : wf s;
  inv_keep : keep s0 s;
  inv_sp : Sp (fr s) = sp;
  inv_ml : Z.of_nat (length (Memory (fr s))) = ml;
}.

Definition invx (s0 s : hstate HS) : Prop := exists sp ml, inv s0 sp ml s.

Lemma invx_wf s0 s : invx s0 s <-> wf s /\ keep s0 s.
Proof.
  split; [intros (sp & ml & []); done|].
  intros [Hw Hk]. by exists (Sp (fr s)), (Z.of_nat (length (Memory (fr s)))).
Qed.
End Wf.

(** Splits the well-formedness of a modified state into its fields and closes
    those that did not change. *)
Ltac wf_fields :=
  repeat match goal with
  | H : wf_frame _ |- _ => destruct H
  | H : wf_ctx _ |- _ => destruct H
  end.
Ltac inv_split H :=
  destruct H as [[Hf Hc] Hk Hsp Hml];
  split; [split; [destruct Hf; split|destruct Hc; split]
         |destruct Hk; split| |]; simpl in *; try done; try lia.

Section Primitives.
Context {HS : Type}.
Implicit Types (s : hstate HS) (R : hstate HS -> Prop).

Lemma inv_here s0 sp ml s : inv s0 sp ml s -> invx s0 s.
Proof. by exists sp, ml. Qed.

Lemma inv_sp_bound s0 sp ml s : inv s0 sp ml s -> (sp <= 1024)%nat.
Proof. intros [[[] _] _ <- _]. done. Qed.

Lemma inv_ml_bound s0 sp ml s :
  inv s0 sp ml s -> 0 <= ml <= MAX_REQUIRED_MEMORY_SIZE /\ ml mod 32 = 0.
Proof. intros [[[] _] _ _ <-]. lia. Qed.

(** *** Reads *)

Lemma wp_getFrame {A} (f : EVMFrame -> A) Q R s : Q (f (fr s)) s -> wp (getFrame f) Q R s.
Proof. done. Qed.
Lemma wp_getCtx {A} (f : Context_ HS -> A) Q R s : Q (f (cx s)) s -> wp (getCtx f) Q R s.
Proof. done. Qed.

Lemma wp_getSp s0 sp ml s Q R : inv s0 sp ml s -> Q sp s -> wp (getFrame Sp) Q R s.
Proof. intros [_ _ <- _]. done. Qed.

Lemma wp_getMem s0 sp ml s Q R :
  inv s0 sp ml s -> Q ml s -> wp (getFrame (fun f => Z.of_nat (length (Memory f)))) Q R s.
Proof. intros [_ _ _ <-]. done. Qed.

Lemma wp_getGas s0 sp ml s (Q : Z -> hstate HS -> Prop) R :
  inv s0 sp ml s -> (forall g, g = fgas (fr s) -> 0 <= g < 2 ^ 63 -> Q g s) ->
  wp (getFrame fgas) Q R s.
Proof. intros [[[] _] _ _ _] HQ. by apply HQ. Qed.

(** *** Stack *)

Lemma wp_stack_at s0 sp ml s i (Q : Z -> hstate HS -> Prop) R :
  inv s0 sp ml s -> (i < 1024)%nat -> (forall v, is_u256 v -> Q v s) -> wp (stack_at i) Q R s.
Proof.
  intros [[[] _] _ _ _] Hi HQ. unfold stack_at. apply wp_bind, wp_getFrame.
  destruct (lookup_lt_is_Some_2 (Stack (fr s)) i) as [v Hv]; [by rewrite wf_stack_len0|].
  eapply wp_of_option; [done|]. apply HQ. by eapply Forall_lookup_1.
Qed.

Lemma wp_stack_set s0 sp ml s i v (Q : unit -> hstate HS -> Prop) R :
  inv s0 sp ml s -> (i < 1024)%nat -> is_u256 v ->
  (forall s', inv s0 sp ml s' -> Q tt s') -> wp (stack_set i v) Q R s.
Proof.
  intros Hinv Hi Hv HQ. unfold stack_set. apply wp_bind, wp_getFrame.
  destruct (Hinv) as [[[] _] _ _ _]. rewrite wf_stack_len0.
  rewrite (proj2 (Nat.ltb_lt _ _)) by done. apply wp_modify, HQ.
  inv_split Hinv; [by rewrite length_insert|by apply Forall_insert].
Qed.

Lemma wp_set_Sp s0 sp ml s n (Q : unit -> hstate HS -> Prop) R :
  inv s0 sp ml s -> (n <= 1024)%nat ->
  (forall s', inv s0 n ml s' -> Q tt s') -> wp (modFrame (set_Sp n)) Q R s.
Proof. intros Hinv Hn HQ. apply wp_modify, HQ. inv_split Hinv. Qed.

Lemma wp_pop s0 sp ml s (Q : Z -> hstate HS -> Prop) R :
  inv s0 sp ml s -> (0 < sp)%nat ->
  (forall v s', is_u256 v -> inv s0 (sp - 1) ml s' -> Q v s') -> wp pop Q R s.
Proof.
  intros Hinv Hsp HQ. pose proof (inv_sp_bound _ _ _ _ Hinv).
  unfold pop. apply wp_bind. eapply wp_getSp; [done|].
  destruct (Nat.leb_spec sp 0); [lia|]. apply wp_bind.
  eapply wp_set_Sp; [done|lia|]. intros s' Hinv'.
  eapply wp_stack_at; [done|lia|]. intros v Hv. by apply HQ.
Qed.

Lemma wp_push s0 sp ml s v (Q : unit -> hstate HS -> Prop) R :
  inv s0 sp ml s -> (sp < 1024)%nat -> is_u256 v ->
  (forall s', inv s0 (sp + 1) ml s' -> Q tt s') -> wp (push v) Q R s.
Proof.
  intros Hinv Hsp Hv HQ. unfold push. apply wp_bind. eapply wp_getSp; [done|].
  destruct (Nat.leb_spec MAXSTACK sp) as [H'|H']; [unfold MAXSTACK in H'; lia|].
  apply wp_bind. eapply wp_stack_set; [done|lia|done|]. intros s' Hinv'.
  eapply wp_set_Sp; [done|lia|done].
Qed.

(** *** Status and checks *)

Lemma inv_Status s0 sp ml s st :
  inv s0 sp ml s -> st <> EVMC_REVERT -> inv s0 sp ml (on_cx (set_Status st) s).
Proof. intros Hinv Hst. inv_split Hinv. Qed.

Lemma wp_setStatus s0 sp ml s st (Q : unit -> hstate HS -> Prop) R :
  inv s0 sp ml s -> st <> EVMC_REVERT -> (forall s', inv s0 sp ml s' -> Q tt s') ->
  wp (setStatus st) Q R s.
Proof. intros Hinv Hst HQ. by apply wp_modify, HQ, inv_Status. Qed.

Lemma wp_fail {A} s0 sp ml s st Q :
  inv s0 sp ml s -> st <> EVMC_REVERT -> wp (setStatus st ;;; @exit _ _ A) Q (invx s0) s.
Proof.
  intros Hinv Hst. apply wp_bind. eapply wp_setStatus; [done..|]. intros.
  apply wp_exit. by eapply inv_here.
Qed.

Lemma wp_stack_check s0 sp ml s N (Q : unit -> hstate HS -> Prop) :
  inv s0 sp ml s -> ((N <= sp)%nat -> Q tt s) -> wp (EVM_STACK_CHECK N) Q (invx s0) s.
Proof.
  intros Hinv HQ. unfold EVM_STACK_CHECK. apply wp_bind. eapply wp_getSp; [done|].
  destruct (Nat.ltb_spec sp N); [by eapply wp_fail|]. apply wp_ret. by apply HQ.
Qed.

Lemma wp_require_space s0 sp ml s k (Q : unit -> hstate HS -> Prop) :
  inv s0 sp ml s -> ((sp + k <= 1024)%nat -> Q tt s) ->
  wp (EVM_REQUIRE_STACK_SPACE k) Q (invx s0) s.
Proof.
  intros Hinv HQ. unfold EVM_REQUIRE_STACK_SPACE. apply wp_bind. eapply wp_getSp; [done|].
  destruct (Nat.ltb_spec 1024 (sp + k)); [by eapply wp_fail|]. apply wp_ret. by apply HQ.
Qed.

Lemma wp_unless s0 sp ml s b st (Q : unit -> hstate HS -> Prop) :
  inv s0 sp ml s -> st <> EVMC_REVERT -> (b = true -> Q tt s) ->
  wp (EVM_SET_EXCEPTION_UNLESS b st) Q (invx s0) s.
Proof. intros Hinv Hst HQ. destruct b; [by apply HQ|by eapply wp_fail]. Qed.

Lemma wp_orStatus s0 s m st (Q : unit -> hstate HS -> Prop) :
  st <> EVMC_REVERT ->
  wp m (fun b s' => if b : bool then Q tt s' else invx s0 s') (invx s0) s ->
  wp (orStatus m st) Q (invx s0) s.
Proof.
  intros Hst Hm. apply wp_bind. eapply wp_mono; [|done|done]. intros [] s'; [done|].
  intros (sp & ml & ?). by eapply wp_fail.
Qed.

(** *** Gas *)

Lemma inv_set_fgas s0 sp ml s g :
  inv s0 sp ml s -> 0 <= g <= fgas (fr s) -> inv s0 sp ml (on_fr (set_fgas g) s).
Proof. intros Hinv Hg. inv_split Hinv; unfold fgas in *; simpl; try done; lia. Qed.

Lemma wp_chargeGas s0 sp ml s c (Q : bool -> hstate HS -> Prop) R :
  inv s0 sp ml s -> 0 <= c -> Q false s ->
  (forall s', inv s0 sp ml s' -> fgas (fr s') = fgas (fr s) - c -> Q true s') ->
  wp (chargeGas c) Q R s.
Proof.
  intros Hinv Hc Hf Ht. destruct (Hinv) as [[[] _] _ _ _].
  unfold chargeGas. apply wp_bind, wp_getFrame.
  rewrite u64_small by lia. destruct (Z.ltb_spec (fgas (fr s)) c); [by apply wp_ret|].
  apply wp_bind, wp_modify, wp_ret. rewrite i64_small by lia.
  apply Ht; [|done]. apply inv_set_fgas; [done|]. lia.
Qed.

Lemma wp_chargeSigned s0 sp ml s c (Q : unit -> hstate HS -> Prop) :
  inv s0 sp ml s -> 0 <= c ->
  (forall s', inv s0 sp ml s' -> fgas (fr s') = fgas (fr s) - c -> Q tt s') ->
  wp (chargeSigned c) Q (invx s0) s.
Proof.
  intros Hinv Hc Ht. destruct (Hinv) as [[[] _] _ _ _].
  unfold chargeSigned. apply wp_bind, wp_getFrame.
  destruct (Z.ltb_spec (fgas (fr s)) c); [by eapply wp_fail|].
  apply wp_modify. rewrite i64_small by lia.
  apply Ht; [|done]. apply inv_set_fgas; [done|]. lia.
Qed.
End Primitives.

(** * Conversions of 256-bit words *)

Lemma uint256ToUint64_spec v :
  is_u256 v -> uint256ToUint64 v = if v <? 2 ^ 64 then v else UINT64_MAX.
Proof.
  intros Hv. unfold uint256ToUint64, in_u in *.
  destruct (Z.ltb_spec v (2 ^ 64)) as [Hlt|Hge].
  - assert (forall i, (0 < i)%nat -> word v i = 0) as Hz.
    { intros i Hi. unfold word. rewrite Z.div_small; [done|].
      split; [lia|]. apply (Z.lt_le_trans _ (2 ^ 64)); [done|].
      apply Z.pow_le_mono_r; lia. }
    rewrite !Hz by lia. change (Z.lor (Z.lor 0 0) 0 =? 0) with true. simpl negb. cbv iota. apply (low64_small v). unfold in_u. lia.
  - destruct (Z.eqb_spec (Z.lor (Z.lor (word v 3) (word v 2)) (word v 1)) 0) as [E|]; [|done].
    apply Z.lor_eq_0_iff in E as [[E3 E2]%Z.lor_eq_0_iff E1]. unfold word in *.
    change (64 * Z.of_nat 3) with 192 in *. change (64 * Z.of_nat 2) with 128 in *.
    change (64 * Z.of_nat 1) with 64 in *.
    assert (forall k, 0 < k -> 0 <= v / k) as Hd by (intros; apply Z.div_pos; lia).
    assert (forall k, 0 < k <= 192 -> (v / 2 ^ k) mod 2 ^ 64 = 0 -> v < 2 ^ (k + 64) -> v < 2 ^ k)
      as Hstep.
    { intros k Hk Ek Hlt. assert (0 < 2 ^ k) by (apply Z.pow_pos_nonneg; lia).
      rewrite Z.pow_add_r in Hlt by lia.
      assert (v / 2 ^ k < 2 ^ 64) by (apply Z.div_lt_upper_bound; lia).
      rewrite Z.mod_small in Ek by auto. apply Z.div_small_iff in Ek; lia. }
    assert (v < 2 ^ 192) as H3 by (apply Hstep; [lia|done|apply Hv]).
    assert (v < 2 ^ 128) as H2 by (apply Hstep; [lia|done|apply H3]).
    apply (Hstep 64) in E1; [lia|lia|apply H2].
Qed.

Lemma uint256ToUint64_range v : is_u256 v -> is_u64 (uint256ToUint64 v).
Proof.
  intros Hv. rewrite uint256ToUint64_spec by done. unfold in_u, UINT64_MAX in *.
  case_match eqn:E; lia.
Qed.

Lemma uint256ToUint64_small v : is_u64 v -> uint256ToUint64 v = v.
Proof.
  intros Hv. rewrite uint256ToUint64_spec by (by apply u256_of_u64). unfold in_u in *.
  by rewrite (proj2 (Z.ltb_lt _ _)) by lia.
Qed.

(** A byte range that lies in a memory of [ml] bytes, or is empty. *)
Definition mem_range (off size ml : Z) : Prop := size = 0 \/ off + size <= ml.

Lemma mem_range_conv off size ml :
  mem_range off size ml -> is_u256 off -> is_u256 size -> ml <= MAX_REQUIRED_MEMORY_SIZE ->
  low64 size = size /\ uint256ToUint64 size = size /\
  (size = 0 \/ 0 < size /\ low64 off = off /\ uint256ToUint64 off = off /\ off + size <= ml).
Proof.
  unfold mem_range, MAX_REQUIRED_MEMORY_SIZE. intros Hr Ho Hs Hml.
  assert (is_u64 size) as Hs' by (unfold in_u in *; lia).
  split_and!; [by apply low64_small|by apply uint256ToUint64_small|].
  destruct (Z.eq_dec size 0); [by left|right].
  assert (is_u64 off) as Ho' by (unfold in_u in *; lia).
  split_and!; [unfold in_u in *; lia|by apply low64_small|by apply uint256ToUint64_small|lia].
Qed.

(** * Memory *)

Section MemoryRules.
Context {HS : Type}.
Implicit Types (s : hstate HS) (R : hstate HS -> Prop).

(** The size in whole words that covers [n] bytes. *)
Definition ceil32 (n : Z) : Z := (n + 31) / 32 * 32.

Lemma ceil32_le n : n <= ceil32 n.
Proof. unfold ceil32. div_lia. Qed.
Lemma ceil32_mod n : ceil32 n mod 32 = 0.
Proof. unfold ceil32. apply Z.mod_mul. lia. Qed.
Lemma ceil32_max n : n <= MAX_REQUIRED_MEMORY_SIZE -> ceil32 n <= MAX_REQUIRED_MEMORY_SIZE.
Proof. unfold ceil32, MAX_REQUIRED_MEMORY_SIZE. div_lia. Qed.

Lemma calculateMemoryExpansionCost_range a b : 0 <= calculateMemoryExpansionCost a b < 2 ^ 64.
Proof. unfold calculateMemoryExpansionCost. case_match; [lia|]. apply u64_range. Qed.

Lemma length_resize n l : length (resize n l) = n.
Proof. unfold resize. rewrite length_app, length_take, length_replicate. lia. Qed.
Lemma resize_grow n l : (length l <= n)%nat -> resize n l = l ++ replicate (n - length l) 0.
Proof. intros. unfold resize. by rewrite take_ge. Qed.
Lemma is_byte_0 : is_byte 0.
Proof. unfold in_u. lia. Qed.
Lemma Forall_zeros n : Forall is_byte (replicate n 0).
Proof. apply Forall_replicate, is_byte_0. Qed.

Lemma inv_set_Memory s0 sp ml s l :
  inv s0 sp ml s -> Forall is_byte l -> Z.of_nat (length l) mod 32 = 0 ->
  Z.of_nat (length l) <= MAX_REQUIRED_MEMORY_SIZE ->
  inv s0 sp (Z.of_nat (length l)) (on_fr (set_Memory l) s).
Proof. intros Hinv. intros. inv_split Hinv. Qed.

Lemma wp_expandMemory s0 sp ml s n (Q : bool -> hstate HS -> Prop) R :
  inv s0 sp ml s -> 0 <= n -> Q false s ->
  (forall s', inv s0 sp (Z.max ml (ceil32 n)) s' -> n <= MAX_REQUIRED_MEMORY_SIZE ->
    fgas (fr s') = fgas (fr s) - calculateMemoryExpansionCost ml (ceil32 n) -> Q true s') ->
  wp (expandMemoryAndChargeGas n) Q R s.
Proof.
  intros Hinv Hn Hf Ht. unfold expandMemoryAndChargeGas.
  destruct (Z.ltb_spec MAX_REQUIRED_MEMORY_SIZE n) as [|Hmax]; [by apply wp_ret|].
  apply wp_bind. eapply wp_getMem; [done|].
  rewrite u64_small by (unfold MAX_REQUIRED_MEMORY_SIZE in *; lia).
  change ((n + 31) / 32 * 32) with (ceil32 n).
  pose proof (calculateMemoryExpansionCost_range ml (ceil32 n)) as Hcost.
  pose proof (ceil32_le n). pose proof (ceil32_mod n). pose proof (ceil32_max n Hmax).
  destruct (inv_ml_bound _ _ _ _ Hinv).
  apply wp_bind. eapply wp_chargeGas; [done|lia|by apply wp_ret|]. intros s' Hinv' Hg.
  apply wp_bind. destruct (Z.ltb_spec ml (ceil32 n)).
  - apply wp_modify, wp_ret, Ht; [|done..].
    rewrite Z.max_r by lia. destruct (Hinv') as [[[] _] _ _ Hlen].
    replace (ceil32 n) with (Z.of_nat (length (resize (Z.to_nat (ceil32 n)) (Memory (fr s')))))
      at 1 by (rewrite length_resize; lia).
    apply (inv_set_Memory _ _ ml).
    + done.
    + rewrite resize_grow by lia. apply Forall_app; auto using Forall_zeros.
    + rewrite length_resize. by rewrite Z2Nat.id by lia.
    + rewrite length_resize. lia.
  - apply wp_ret, wp_ret, Ht; [|done..]. by rewrite Z.max_l by lia.
Qed.

Lemma wp_checkMemory64 s0 sp ml s off size (Q : bool -> hstate HS -> Prop) R :
  inv s0 sp ml s -> is_u256 off -> is_u64 size -> Q false s ->
  (forall ml' s', inv s0 sp ml' s' -> ml <= ml' -> off + size <= ml' -> is_u64 off -> Q true s') ->
  wp (checkMemoryExpandAndChargeGas64 off size) Q R s.
Proof.
  intros Hinv Ho Hs Hf Ht. unfold checkMemoryExpandAndChargeGas64.
  destruct (Z.ltb_spec UINT64_MAX off); [by apply wp_ret|].
  assert (is_u64 off) as Ho' by (unfold in_u, UINT64_MAX in *; lia).
  rewrite low64_small by done.
  destruct (Z.ltb_spec (UINT64_MAX - size) off); [by apply wp_ret|].
  eapply wp_expandMemory; [done|unfold in_u in *; lia|done|]. intros s' Hinv' _ _.
  pose proof (ceil32_le (off + size)). eapply Ht; [done|lia|lia|done].
Qed.

Lemma wp_checkMemory s0 sp ml s off size (Q : bool -> hstate HS -> Prop) R :
  inv s0 sp ml s -> is_u256 off -> is_u256 size -> Q false s ->
  (forall ml' s', inv s0 sp ml' s' -> ml <= ml' -> mem_range off size ml' -> Q true s') ->
  wp (checkMemoryExpandAndChargeGas off size) Q R s.
Proof.
  intros Hinv Ho Hs Hf Ht. unfold checkMemoryExpandAndChargeGas.
  destruct (Z.eqb_spec size 0); [apply wp_ret; eapply Ht; [done|lia|by left]|].
  destruct (Z.ltb_spec UINT64_MAX size); [by apply wp_ret|].
  assert (is_u64 size) as Hs' by (unfold in_u, UINT64_MAX in *; lia).
  rewrite low64_small by done.
  eapply wp_checkMemory64; [done..|]. intros. eapply Ht; [done..|by right].
Qed.

Lemma wp_mem_read s0 sp ml s off n (Q : list Z -> hstate HS -> Prop) R :
  inv s0 sp ml s -> (n = 0 \/ 0 <= off /\ 0 <= n /\ off + n <= ml) ->
  (forall l, Forall is_byte l -> Z.of_nat (length l) = n -> Q l s) ->
  wp (mem_read off n) Q R s.
Proof.
  intros Hinv Hr HQ. unfold mem_read. apply wp_bind. eapply wp_getMem; [done|].
  destruct (Z.eqb_spec n 0) as [->|]; [by apply wp_ret, HQ|].
  destruct Hr as [|(? & ? & ?)]; [done|].
  rewrite !(proj2 (Z.leb_le _ _)) by lia. apply wp_getFrame.
  destruct (Hinv) as [[[] _] _ _ Hml]. apply HQ.
  - by apply Forall_take, Forall_drop.
  - rewrite length_take, length_drop. lia.
Qed.

Lemma length_write_at off bs m :
  (off + length bs <= length m)%nat -> length (write_at off bs m) = length m.
Proof. intros. unfold write_at. rewrite !length_app, length_take, length_drop. lia. Qed.

Lemma wp_mem_write s0 sp ml s off bs (Q : unit -> hstate HS -> Prop) R :
  inv s0 sp ml s -> Forall is_byte bs ->
  (bs = [] \/ 0 <= off /\ off + Z.of_nat (length bs) <= ml) ->
  (forall s', inv s0 sp ml s' -> Q tt s') -> wp (mem_write off bs) Q R s.
Proof.
  intros Hinv Hbs Hr HQ. unfold mem_write. apply wp_bind. eapply wp_getMem; [done|].
  destruct (Nat.eqb_spec (length bs) 0) as [E|]; [by apply wp_ret, HQ|].
  destruct Hr as [->|(? & ?)]; [done|].
  rewrite !(proj2 (Z.leb_le _ _)) by lia. apply wp_modify, HQ.
  destruct (Hinv) as [[[] _] _ _ Hml].
  assert (length (write_at (Z.to_nat off) bs (Memory (fr s))) = length (Memory (fr s))) as E
    by (apply length_write_at; lia).
  replace ml with (Z.of_nat (length (write_at (Z.to_nat off) bs (Memory (fr s))))) by lia.
  apply (inv_set_Memory _ _ ml); rewrite ?E; [done| |done..].
  unfold write_at. apply Forall_app; split; [by apply Forall_take|].
  apply Forall_app; split; [done|by apply Forall_drop].
Qed.

Lemma wp_buf_read buf s off n (Q : list Z -> hstate HS -> Prop) R :
  Forall is_byte buf -> (n = 0 \/ 0 <= off /\ 0 <= n /\ off + n <= Z.of_nat (length buf)) ->
  (forall l, Forall is_byte l -> Z.of_nat (length l) = n -> Q l s) ->
  wp (buf_read buf off n) Q R s.
Proof.
  intros Hb Hr HQ. unfold buf_read.
  destruct (Z.eqb_spec n 0) as [->|]; [by apply wp_ret, HQ|].
  destruct Hr as [|(? & ? & ?)]; [done|].
  rewrite !(proj2 (Z.leb_le _ _)) by lia. apply wp_ret, HQ.
  - by apply Forall_take, Forall_drop.
  - rewrite length_take, length_drop. lia.
Qed.

Lemma copyCodeAndChargeGas_cost n : 0 <= u64 (numWords n * WORD_COPY_COST).
Proof. apply u64_range. Qed.
End MemoryRules.

(** * Host *)

Section HostRules.
Context {HS : Type} {I : Intx} {H : EvmcHost HS} {V : Evmc} {HL : HostLaws HS H}.
Implicit Types (s : hstate HS) (R : hstate HS -> Prop).

Lemma inv_set_hst s0 sp ml s h : inv s0 sp ml s -> inv s0 sp ml (on_cx (set_hst h) s).
Proof. intros Hinv. inv_split Hinv. Qed.

Lemma wp_hostDo {A} s0 sp ml s (f : HS -> A * HS) (Q : A -> hstate HS -> Prop) R :
  inv s0 sp ml s -> (forall s', inv s0 sp ml s' -> Q (f (hst (cx s))).1 s') ->
  wp (hostDo f) Q R s.
Proof.
  intros Hinv HQ. unfold hostDo. apply wp_bind, wp_getCtx.
  destruct (f (hst (cx s))) as [a h]. apply wp_bind, wp_modify, wp_ret, HQ.
  by apply inv_set_hst.
Qed.

Lemma wp_coldAccount s0 sp ml s rev a (Q : bool -> hstate HS -> Prop) R :
  inv s0 sp ml s -> (forall b s', inv s0 sp ml s' -> Q b s') -> wp (coldAccount rev a) Q R s.
Proof.
  intros Hinv HQ. unfold coldAccount. destruct (rev_ge _ _); [|by apply wp_ret, HQ].
  apply wp_bind. eapply wp_hostDo; [done|]. intros. by apply wp_ret, HQ.
Qed.

Lemma wp_coldStorage s0 sp ml s rev a k (Q : bool -> hstate HS -> Prop) R :
  inv s0 sp ml s -> (forall b s', inv s0 sp ml s' -> Q b s') -> wp (coldStorage rev a k) Q R s.
Proof.
  intros Hinv HQ. unfold coldStorage. destruct (rev_ge _ _); [|by apply wp_ret, HQ].
  apply wp_bind. eapply wp_hostDo; [done|]. intros. by apply wp_ret, HQ.
Qed.

Lemma wp_getTxContext s0 sp ml s (Q : evmc_tx_context -> hstate HS -> Prop) R :
  inv s0 sp ml s -> (forall t s', tx_ok t -> inv s0 sp ml s' -> Q t s') ->
  wp getTxContext Q R s.
Proof.
  intros Hinv HQ. unfold getTxContext. apply wp_bind, wp_getFrame.
  destruct (Hinv) as [[[] _] _ _ _]. case_match; [|by apply wp_ret, HQ].
  apply wp_bind, wp_getCtx, wp_bind, wp_modify, wp_ret, HQ; [apply get_tx_context_ok|].
  inv_split Hinv. apply get_tx_context_ok.
Qed.

Lemma wp_isStaticMode s (Q : bool -> hstate HS -> Prop) R :
  Q (negb (Z.land (flags (Msg (fr s))) EVMC_STATIC =? 0)) s -> wp isStaticMode Q R s.
Proof. done. Qed.

Lemma inv_ReturnData s0 sp ml s d :
  inv s0 sp ml s -> Forall is_byte d -> Z.of_nat (length d) < 2 ^ 63 ->
  inv s0 sp ml (on_cx (set_ReturnData d) s).
Proof. intros Hinv ? ?. inv_split Hinv. Qed.

Lemma inv_refund s0 sp ml s (f : EVMInstance -> EVMInstance) :
  inv s0 sp ml s -> (forall i, exists r, f i = set_GasRefund r i) ->
  inv s0 sp ml (on_cx (fun c => set_Inst (f (Inst c)) c) s).
Proof.
  intros Hinv Href. destruct (Href (Inst (cx s))) as [r E]. unfold on_cx. rewrite E.
  inv_split Hinv.
Qed.

Lemma wp_addRefund s0 sp ml s r (Q : unit -> hstate HS -> Prop) R :
  inv s0 sp ml s -> (forall s', inv s0 sp ml s' -> Q tt s') ->
  wp (modCtx (fun c => set_Inst (addGasRefund r (Inst c)) c)) Q R s.
Proof.
  intros Hinv HQ. apply wp_modify, HQ, inv_refund; [done|]. intros. by eexists.
Qed.

Lemma wp_setReturnData s0 sp ml s d (Q : unit -> hstate HS -> Prop) R :
  inv s0 sp ml s -> Forall is_byte d -> Z.of_nat (length d) < 2 ^ 63 ->
  (forall s', inv s0 sp ml s' -> Q tt s') -> wp (setReturnData d) Q R s.
Proof. intros. apply wp_modify. auto using inv_ReturnData. Qed.

Lemma wp_clearReturnData s0 sp ml s (Q : unit -> hstate HS -> Prop) R :
  inv s0 sp ml s -> (forall s', inv s0 sp ml s' -> Q tt s') -> wp clearReturnData Q R s.
Proof. intros ? HQ. by apply wp_modify, HQ, inv_ReturnData. Qed.
End HostRules.
