(* ===== verification/Concrete.v ===== *)
(** Concrete parameters: a host that stores nothing, instruction tables in the
    range of the real ones, and a starting frame.  They show that the laws
    the development assumes of the external packages can hold, and they are
    the inputs of the examples. *)

From S2P Require Import Prelude Intx Evmc GasStorageCost EvmInstance Frame HandlerUtil WellFormed.

#[local] Open Scope Z_scope.

(** ** A host

    Its state is the list of the log data emitted so far. *)
Definition null_host : Type := list (list Z).

Definition null_tx : evmc_tx_context :=
  mkTx zero32 zero20 zero20 1 1 30000000 zero32 zero32 zero32 zero32 [].

#[export] Instance null_host_ops : EvmcHost null_host := {
  account_exists _ _ := false;
  get_storage _ _ _ := zero32;
  set_storage _ _ _ h := (EVMC_STORAGE_ASSIGNED, h);
  get_balance _ _ := zero32;
  get_code_size _ _ := 0;
  get_code_hash _ _ := zero32;
  copy_code _ _ _ _ := [];
  selfdestruct _ _ h := (false, h);
  host_call _ h := (mkResult EVMC_FAILURE 0 0 [] zero20, h);
  get_tx_context _ := null_tx;
  get_block_hash _ _ := zero32;
  emit_log _ d _ h := d :: h;
  access_account _ h := (EVMC_ACCESS_WARM, h);
  access_storage _ _ h := (EVMC_ACCESS_WARM, h);
  get_transient_storage _ _ _ := zero32;
  set_transient_storage _ _ _ h := h;
}.

Lemma zeros_bytes n : bytes_n n (replicate n 0).
Proof. split; [apply length_replicate|]. by apply Forall_replicate. Qed.

#[export] Instance null_host_laws : HostLaws null_host null_host_ops.
Proof.
  split; intros; try apply zeros_bytes.
  - done.
  - by split; [|constructor].
  - split; try apply zeros_bytes; cbn; try lia; constructor.
  - constructor.
  - done.
  - done.
Qed.

(** ** Instruction tables *)

Definition sample_names (rev : evmc_revision) (op : Z) : bool :=
  (op <=? 0x0b) || (0x10 <=? op) && (op <=? 0x1d) || (op =? 0x20)
  || (0x30 <=? op) && (op <=? 0x4a) || (0x50 <=? op) && (op <=? 0x5e)
  || (op =? 0x5f) && negb (rev_lt rev EVMC_SHANGHAI) || (0x60 <=? op) && (op <=? 0xa4)
  || (0xf0 <=? op) && (op <=? 0xf5) || (op =? 0xfa) || (op =? 0xfd) || (op =? 0xff).

Definition sample_metrics (op : Z) : Z :=
  if op =? 0x00 then 0
  else if (op =? 0x56) then 8
  else if (op =? 0x57) then 10
  else if (op =? 0x5b) then 1
  else if (op =? 0x02) then 5
  else 3.

#[export] Instance sample_evmc : Evmc := {
  metrics_table _ := Some sample_metrics;
  names_table := sample_names;
  EVMC_STATIC := 1;
  EVMC_DELEGATED := 2;
  keccak256 _ := zero32;
}.

Lemma sample_metrics_range op : 0 <= sample_metrics op <= 10.
Proof. unfold sample_metrics. repeat case_match; lia. Qed.

#[export] Instance sample_evmc_laws : EvmcLaws sample_evmc.
Proof.
  split.
  - intros rev. by eexists.
  - intros rev t op [= <-]. pose proof (sample_metrics_range op). lia.
  - intros rev t op [= <-] _. pose proof (sample_metrics_range op). lia.
  - by intros rev t [= <-].
  - by intros rev t [= <-].
  - by intros [].
  - done.
  - done.
  - intros l. apply zeros_bytes.
Qed.

(** ** A start *)

Definition sample_instance (Code : list Z) (rev : evmc_revision) : EVMInstance :=
  mkInst Code 0 0 rev None [] [] false 0 None [] [] [] 0.

Definition sample_msg (g : Z) : evmc_message := set_gas g zero_msg.

Definition sample_frame (g : Z) : EVMFrame :=
  mkFrame (replicate MAXSTACK 0) [] [] (sample_msg g) false tx_context_zero 0 0 0 0.

Definition sample_ctx (Code : list Z) (rev : evmc_revision) : Context_ null_host :=
  mkCtx [] [] EVMC_SUCCESS [] (mkResult EVMC_SUCCESS 0 0 [] zero20) false
    (sample_instance Code rev) [].

Lemma tx_zero_ok : tx_ok tx_context_zero.
Proof. split; try apply zeros_bytes; cbn; try lia; constructor. Qed.

Lemma sample_frame_wf g : 0 <= g < 2 ^ 63 -> wf_frame (sample_frame g).
Proof.
  intros Hg. split; try done; try apply zeros_bytes; try apply tx_zero_ok; try (cbn; lia).
  by apply Forall_replicate.
Qed.

Lemma sample_wf g Code rev :
  0 <= g < 2 ^ 63 -> Forall is_byte Code -> Z.of_nat (length Code) + 64 <= 2 ^ 32 ->
  wf (mkH (sample_frame g) (sample_ctx Code rev)).
Proof.
  intros. split; [by apply sample_frame_wf|]. split; [done|apply Forall_nil_2|done..].
Qed.

(** ** A program

    A countdown from three: PUSH1 3, JUMPDEST, PUSH1 1, SWAP1, SUB, DUP1,
    PUSH1 2, JUMPI, and the implicit STOP at the end of the code. *)
Definition countdown : list Z := [0x60; 3; 0x5b; 0x60; 1; 0x90; 0x03; 0x80; 0x60; 2; 0x57].

Lemma countdown_bytes : Forall is_byte countdown.
Proof. by repeat constructor. Qed.

(** ** A state in the middle of a run: operands [l], memory [m], gas [g]. *)
Definition sample_state (l m : list Z) (g : Z) : hstate null_host :=
  mkH (mkFrame (rev l ++ replicate (MAXSTACK - length l) 0) m [] (sample_msg g) false
         tx_context_zero 0 (length l) 0 0)
      (sample_ctx countdown EVMC_CANCUN).

Lemma sample_state_wf l m g :
  (length l <= 1024)%nat -> Forall is_u256 l -> Forall is_byte m ->
  Z.of_nat (length m) mod 32 = 0 -> Z.of_nat (length m) <= MAX_REQUIRED_MEMORY_SIZE ->
  0 <= g < 2 ^ 63 -> wf_frame (fr (sample_state l m g)).
Proof.
  intros Hl Hf Hm H32 Hmax Hg. destruct (sample_frame_wf g Hg).
  split; try done; cbn [fr sample_state Stack Memory Sp]; unfold MAXSTACK.
  - rewrite length_app, length_rev, length_replicate. lia.
  - apply Forall_app; split; [by apply Forall_rev|]. by apply Forall_replicate.
Qed.

Lemma countdown_ctx_wf : wf_ctx (sample_ctx countdown EVMC_CANCUN).
Proof. split; try done. apply countdown_bytes. Qed.
