(* ===== verification/HandlerSafety.v ===== *)
(** Safety of the opcode handlers: from a well-formed state a handler neither
    throws nor has undefined behaviour, keeps the state well-formed, leaves
    the rest of the context alone and does not create gas; then the same of a
    whole step. *)

From S2P Require Import Prelude Intx Evmc GasStorageCost EvmInstance Frame HandlerUtil HandlersArith HandlersEnv HandlersCall BytecodeCache Interpreter Dispatch WellFormed.

(** Arithmetic on stack pointers, which the invariant bounds. *)
Ltac sp_lia :=
  first [lia | repeat match goal with H : inv _ _ _ _ |- _ => apply inv_sp_bound in H end; lia].

(** One step of symbolic execution: the rule of the statement at hand. *)
Ltac wp_step :=
  lazymatch goal with
  | |- wp (bind _ _) _ _ _ => apply wp_bind
  | |- wp (ret _) _ _ _ => apply wp_ret
  | |- wp exit _ _ _ => apply wp_exit
  | |- wp (EVM_STACK_CHECK _) _ _ _ => eapply wp_stack_check; [eassumption|intros ?]
  | |- wp (EVM_REQUIRE_STACK_SPACE _) _ _ _ => eapply wp_require_space; [eassumption|intros ?]
  | |- wp (EVM_SET_EXCEPTION_UNLESS _ _) _ _ _ => eapply wp_unless; [eassumption|discriminate|intros ?]
  | |- wp (setStatus _ ;;; exit) _ _ _ => eapply wp_fail; [eassumption|discriminate]
  | |- wp (setStatus _) _ _ _ => eapply wp_setStatus; [eassumption|discriminate|intros ? ?]
  | |- wp (orStatus _ _) _ _ _ => apply wp_orStatus; [discriminate|]
  | |- wp pop _ _ _ => eapply wp_pop; [eassumption|sp_lia|intros ? ? ? ?]
  | |- wp (push _) _ _ _ => eapply wp_push; [eassumption|sp_lia| |intros ? ?]
  | |- wp (getFrame Sp) _ _ _ => eapply wp_getSp; [eassumption|]
  | |- wp (getFrame fgas) _ _ _ => eapply wp_getGas; [eassumption|intros ? ? ?]
  | |- wp (getFrame _) _ _ _ => apply wp_getFrame
  | |- wp (getCtx _) _ _ _ => apply wp_getCtx
  | |- wp (hostRead _) _ _ _ => apply wp_getCtx
  | |- wp currentRevision _ _ _ => apply wp_getCtx
  | |- wp isStaticMode _ _ _ => apply wp_isStaticMode
  | |- wp (stack_at _) _ _ _ => eapply wp_stack_at; [eassumption|sp_lia|intros ? ?]
  | |- wp (stack_set _ _) _ _ _ => eapply wp_stack_set; [eassumption|sp_lia| |intros ? ?]
  | |- wp (modFrame (set_Sp _)) _ _ _ => eapply wp_set_Sp; [eassumption|sp_lia|intros ? ?]
  | |- wp (chargeGas _) _ _ _ => eapply wp_chargeGas; [eassumption| | |intros ? ? ?]
  | |- wp (copyCodeAndChargeGas _) _ _ _ =>
      eapply wp_chargeGas; [eassumption|apply copyCodeAndChargeGas_cost| |intros ? ? ?]
  | |- wp (chargeSigned _) _ _ _ => eapply wp_chargeSigned; [eassumption| |intros ? ? ?]
  | |- wp (checkMemoryExpandAndChargeGas64 _ _) _ _ _ =>
      eapply wp_checkMemory64; [eassumption| | | |intros ? ? ? ? ? ?]
  | |- wp (checkMemoryExpandAndChargeGas _ _) _ _ _ =>
      eapply wp_checkMemory; [eassumption| | | |intros ? ? ? ? ?]
  | |- wp (mem_read _ _) _ _ _ => eapply wp_mem_read; [eassumption| |intros ? ? ?]
  | |- wp (mem_write _ _) _ _ _ => eapply wp_mem_write; [eassumption| | |intros ? ?]
  | |- wp (coldAccount _ _) _ _ _ => eapply wp_coldAccount; [eassumption|intros ? ? ?]
  | |- wp (coldStorage _ _ _) _ _ _ => eapply wp_coldStorage; [eassumption|intros ? ? ?]
  | |- wp getTxContext _ _ _ => eapply wp_getTxContext; [eassumption|intros ? ? ? ?]
  | |- wp (hostDo _) _ _ _ => eapply wp_hostDo; [eassumption|intros ? ?]
  | |- wp (setReturnData _) _ _ _ => eapply wp_setReturnData; [eassumption| | |intros ? ?]
  | |- wp clearReturnData _ _ _ => eapply wp_clearReturnData; [eassumption|intros ? ?]
  | |- wp (addRefund _) _ _ _ => eapply wp_addRefund; [eassumption|intros ? ?]
  | |- wp (modCtx (fun c => set_Inst (addGasRefund _ (Inst c)) c)) _ _ _ =>
      eapply wp_addRefund; [eassumption|intros ? ?]
  | |- wp lightFailure _ _ _ => eapply wp_fail; [eassumption|discriminate]
  | |- wp (let _ := _ in _) _ _ _ => cbv zeta
  | |- wp (if ?b then _ else _) _ _ _ => destruct b eqn:?
  | |- invx _ _ => eapply inv_here; eassumption
  | |- is_u64 (uint256ToUint64 _) => apply uint256ToUint64_range; assumption
  | |- is_u256 _ => solve [eauto with range]
  | |- 0 <= u64 _ => apply u64_range
  | |- is_u64 32 => unfold in_u; lia
  | |- is_u64 1 => unfold in_u; lia
  end.
Ltac wp_steps := repeat (cbv beta; wp_step).
(** The straight-line statements before the next branch. *)
Ltac wp_prefix :=
  repeat (cbv beta zeta;
    lazymatch goal with
    | |- wp (bind (if _ then _ else _) _) _ _ _ => fail
    | |- wp (if _ then _ else _) _ _ _ => fail
    | _ => wp_step
    end).

(** Turns the [mem_range] facts of checked ranges into facts on the 64-bit
    offsets and sizes the handlers then use. *)
Ltac mem_conv :=
  repeat match goal with
  | Hr : mem_range ?o ?n ?ml |- _ =>
      destruct (mem_range_conv o n ml Hr) as (? & ? & ?);
      [eassumption|eassumption|solve [eapply inv_ml_bound; eassumption]|]; clear Hr
  end;
  repeat match goal with
  | E : low64 ?x = ?x |- _ => progress rewrite ?E
  | E : uint256ToUint64 ?x = ?x |- _ => progress rewrite ?E
  end.
Ltac mem_cases :=
  repeat match goal with
  | Hr : _ = 0 \/ _ |- _ => destruct Hr as [?|(? & ? & ? & ?)]
  | E : low64 ?x = ?x |- _ => progress rewrite ?E
  | E : uint256ToUint64 ?x = ?x |- _ => progress rewrite ?E
  end.
Ltac mem_side :=
  mem_conv; mem_cases;
  repeat match goal with |- context [if ?b =? 0 then _ else _] => destruct (Z.eqb_spec b 0) end;
  first [by left | right; unfold in_u in *; lia].

(** The results of the operator structs are 256-bit words. *)
Ltac op_range :=
  intros; unfold AddOP, SubOP, MulOP, DivOP, ModOP, SDivOP, SModOP, AddmodOP, MulmodOP, NotOP,
    IsZeroOP, ClzOP, AndOP, OrOP, XorOP, ShlOP, ShrOP, EqOP, LtOP, GtOP, SltOP, SgtOP;
  try match goal with |- context [if ?b =? 0 then _ else _] => destruct (Z.eqb_spec b 0) end;
  try match goal with |- context [if ?b <? _ then _ else _] => destruct (Z.ltb_spec b 256) end;
  try (by unfold in_u; lia); try (by apply sdivrem_range); eauto with range.

Section Safety.
Context {HS : Type} {I : Intx} {H : EvmcHost HS} {V : Evmc}.
Context {IL : IntxLaws I} {HL : HostLaws HS H} {VL : EvmcLaws V}.

Definition safe (m : HM HS unit) : Prop :=
  forall s0 sp ml s, inv s0 sp ml s -> (Pc (fr s) < length (ModCode (Inst (cx s))))%nat ->
  wp m (fun _ => invx s0) (invx s0) s.

Lemma be_load32 l : bytes_n 32 l -> is_u256 (be_load l).
Proof. intros [E Hl]. apply be_load_range; [done|lia]. Qed.
Lemma be_load20 l : bytes_n 20 l -> is_u256 (be_load l).
Proof. intros [E Hl]. apply be_load_range; [done|lia]. Qed.
Lemma length_u256 {A} (l : list A) : Z.of_nat (length l) < 2 ^ 64 -> is_u256 (Z.of_nat (length l)).
Proof. intros. apply u256_of_u64. unfold in_u. lia. Qed.
Lemma length_u256' {A} (l : list A) : Z.of_nat (length l) < 2 ^ 63 -> is_u256 (Z.of_nat (length l)).
Proof. intros. apply length_u256. lia. Qed.
Hint Resolve be_load32 be_load20 length_u256 length_u256' of_i64_range get_storage_bytes
  get_balance_bytes get_code_hash_bytes get_block_hash_bytes get_transient_storage_bytes
  keccak256_bytes : range.

(** *** Operator templates *)

Lemma safe_unary f : (forall a, is_u256 a -> is_u256 (f a)) -> safe (UnaryOpHandler f).
Proof. intros Hf s0 sp ml s Hinv _. unfold UnaryOpHandler. wp_steps; eauto with range. Qed.
Lemma safe_binary f :
  (forall a b, is_u256 a -> is_u256 b -> is_u256 (f a b)) -> safe (BinaryOpHandler f).
Proof. intros Hf s0 sp ml s Hinv _. unfold BinaryOpHandler. wp_steps; eauto with range. Qed.
Lemma safe_ternary f :
  (forall a b c, is_u256 a -> is_u256 b -> is_u256 c -> is_u256 (f a b c)) ->
  safe (TernaryOpHandler f).
Proof. intros Hf s0 sp ml s Hinv _. unfold TernaryOpHandler. wp_steps; eauto with range. Qed.

Lemma safe_pop_pop_push f :
  (forall a b, is_u256 a -> is_u256 b -> is_u256 (f a b)) ->
  safe (EVM_STACK_CHECK 2 ;;; a <- pop ;; b <- pop ;; push (f a b)).
Proof. intros Hf s0 sp ml s Hinv _. wp_steps; eauto with range. Qed.

Lemma safe_pushValue m :
  (forall s0 sp ml s, inv s0 sp ml s -> (Pc (fr s) < length (ModCode (Inst (cx s))))%nat ->
     wp m (fun v s' => is_u256 v /\ inv s0 sp ml s') (invx s0) s) ->
  safe (pushValue m).
Proof.
  intros Hm s0 sp ml s Hinv Hpc. unfold pushValue. wp_steps.
  eapply wp_mono; [| |by eapply Hm]; [|done]. intros v s' [Hv Hinv']. wp_steps.
Qed.

(** *** Arithmetic *)

Lemma small_u256 z : 0 <= z < 2 ^ 64 -> is_u256 z.
Proof. apply u256_of_u64. Qed.

Lemma signExtendRes_range a b : is_u256 a -> is_u256 b -> is_u256 (signExtendRes a b).
Proof.
  intros. assert (is_u256 8 /\ is_u256 7 /\ is_u256 1) as (? & ? & ?) by (unfold in_u; lia).
  unfold signExtendRes. destruct (a <? 31); [|done].
  case_match; auto 10 with range.
Qed.

Lemma byteRes_range a b : is_u256 a -> is_u256 b -> is_u256 (byteRes a b).
Proof.
  intros. unfold byteRes. case_match; [|unfold in_u; lia].
  apply (in_u_mono 8); [lia|]. apply u8_range.
Qed.

Lemma sarRes_range a b : is_u256 a -> is_u256 b -> is_u256 (sarRes a b).
Proof.
  intros.
  assert (is_u256 255 /\ is_u256 256 /\ is_u256 1 /\ is_u256 0) as (? & ? & ? & ?)
    by (unfold in_u; lia).
  unfold sarRes. repeat case_match; auto 10 with range.
Qed.

Lemma safe_SignExtend : safe SignExtend_doExecute.
Proof. apply safe_pop_pop_push, signExtendRes_range. Qed.
Lemma safe_Byte : safe Byte_doExecute.
Proof. apply safe_pop_pop_push, byteRes_range. Qed.
Lemma safe_Sar : safe Sar_doExecute.
Proof. apply safe_pop_pop_push, sarRes_range. Qed.

Lemma safe_Exp : safe Exp_doExecute.
Proof. intros s0 sp ml s Hinv _. unfold Exp_doExecute. wp_steps. Qed.

Lemma safe_Keccak256 : safe Keccak256_doExecute.
Proof.
  intros s0 sp ml s Hinv _. unfold Keccak256_doExecute. wp_steps.
  mem_side.
Qed.

(** *** Environment and block information *)

Ltac state_facts :=
  repeat match goal with
  | Hi : inv _ _ _ ?s |- _ =>
      lazymatch goal with
      | _ : wf_frame (fr s) |- _ => fail
      | _ => pose proof (proj1 (inv_wf _ _ _ _ Hi)); pose proof (proj2 (inv_wf _ _ _ _ Hi))
      end
  end; wf_fields;
  repeat match goal with Ht : tx_ok _ |- _ => destruct Ht end.
Ltac push_safe :=
  apply safe_pushValue; intros s0 sp ml s Hinv Hpc; wp_steps;
  (split; [state_facts; try (eauto with range; fail)|eassumption]).

Lemma safe_Gas : safe (doExecute GasHandler).
Proof. push_safe. Qed.
Lemma safe_Address : safe (doExecute AddressHandler).
Proof. push_safe. Qed.
Lemma safe_Origin : safe (doExecute OriginHandler).
Proof. push_safe. Qed.
Lemma safe_Caller : safe (doExecute CallerHandler).
Proof. push_safe. Qed.
Lemma safe_CallValue : safe (doExecute CallValueHandler).
Proof. push_safe. Qed.
Lemma safe_CallDataSize : safe (doExecute CallDataSizeHandler).
Proof. push_safe. Qed.
Lemma safe_CodeSize : safe (doExecute CodeSizeHandler).
Proof. push_safe. apply length_u256. lia. Qed.
Lemma safe_GasPrice : safe (doExecute GasPriceHandler).
Proof. push_safe. Qed.
Lemma safe_ReturnDataSize : safe (doExecute ReturnDataSizeHandler).
Proof. push_safe. Qed.
Lemma safe_CoinBase : safe (doExecute CoinBaseHandler).
Proof. push_safe. Qed.
Lemma safe_TimeStamp : safe (doExecute TimeStampHandler).
Proof. push_safe. Qed.
Lemma safe_Number : safe (doExecute NumberHandler).
Proof. push_safe. Qed.
Lemma safe_PrevRanDao : safe (doExecute PrevRanDaoHandler).
Proof. push_safe. Qed.
Lemma safe_ChainId : safe (doExecute ChainIdHandler).
Proof. push_safe. Qed.
Lemma safe_SelfBalance : safe (doExecute SelfBalanceHandler).
Proof. push_safe. Qed.
Lemma safe_BaseFee : safe (doExecute BaseFeeHandler).
Proof. push_safe. Qed.
Lemma safe_BlobBaseFee : safe (doExecute BlobBaseFeeHandler).
Proof. push_safe. Qed.
Lemma safe_PC : safe (doExecute PCHandler).
Proof. push_safe. apply small_u256. lia. Qed.
Lemma safe_MSize : safe (doExecute MSizeHandler).
Proof. push_safe. apply small_u256. unfold MAX_REQUIRED_MEMORY_SIZE in *. lia. Qed.
Lemma safe_GasLimit : safe (doExecute GasLimitHandler).
Proof. push_safe. Qed.

Ltac start := intros s0 sp ml s Hinv Hpc.

Lemma safe_Balance : safe Balance_doExecute.
Proof. start. unfold Balance_doExecute. wp_steps; done. Qed.

Lemma be_load_range' l : Forall is_byte l -> length l = 32%nat -> is_u256 (be_load l).
Proof. intros. apply be_load_range; [done|lia]. Qed.

Lemma safe_CallDataLoad : safe CallDataLoad_doExecute.
Proof.
  start. unfold CallDataLoad_doExecute. wp_steps; [by unfold in_u; lia|].
  state_facts. apply Z.ltb_ge in Heqb. unfold in_u in *.
  rewrite uint256ToUint64_small, u64_small by (unfold in_u; lia).
  apply wp_buf_read; [done|lia|]. intros l Hl Hn. wp_steps.
  apply be_load_range'.
  - apply Forall_app; auto using Forall_zeros.
  - rewrite length_app, length_replicate. lia.
Qed.

Lemma Forall_zeros' n : Forall is_byte (zeros n).
Proof. apply Forall_zeros. Qed.
Lemma length_zeros n : 0 <= n -> Z.of_nat (length (zeros n)) = n.
Proof. intros. unfold zeros. rewrite length_replicate. lia. Qed.

(** The copy handlers' tail: [a] bytes of a source, then zeros up to [n]. *)
Lemma safe_fill (s0 s : hstate HS) sp ml off a n :
  inv s0 sp ml s -> 0 <= off -> 0 <= a <= n -> (n = 0 \/ off + n <= ml) ->
  wp (if a <? n then mem_write (off + a) (zeros (n - a)) else ret tt)
    (fun _ => invx s0) (invx s0) s.
Proof.
  intros Hinv Ho Ha Hn. destruct (Z.ltb_spec a n); wp_steps; [apply Forall_zeros'|].
  right. rewrite length_zeros by lia. lia.
Qed.

Lemma safe_copy (s0 s : hstate HS) sp ml buf off src a n :
  inv s0 sp ml s -> Forall is_byte buf -> 0 <= off -> 0 <= a <= n -> 0 <= src ->
  (a = 0 \/ src + a <= Z.of_nat (length buf)) -> (n = 0 \/ off + n <= ml) ->
  wp ((if 0 <? a then bs <- buf_read buf src a ;; mem_write off bs else ret tt) ;;;
      (if a <? n then mem_write (off + a) (zeros (n - a)) else ret tt))
    (fun _ => invx s0) (invx s0) s.
Proof.
  intros Hinv Hb Ho Ha Hs Hsrc Hn. apply wp_bind. destruct (Z.ltb_spec 0 a).
  - apply wp_bind, wp_buf_read; [done|lia|]. intros l Hl Hlen.
    eapply wp_mem_write; [done|done|right; lia|]. intros s' Hinv'. by apply (safe_fill _ _ sp ml).
  - apply wp_ret. by apply (safe_fill _ _ sp ml).
Qed.

Ltac u64_facts :=
  repeat match goal with Hd : is_u256 ?x |- context [uint256ToUint64 ?x] =>
    lazymatch goal with
    | _ : is_u64 (uint256ToUint64 x) |- _ => fail
    | _ => pose proof (uint256ToUint64_range x Hd) end end.
(** What is known of the sizes and offsets, for [lia]. *)
Ltac mem_facts := mem_conv; mem_cases; subst; state_facts; u64_facts; unfold in_u in *.

Lemma safe_CallDataCopy : safe CallDataCopy_doExecute.
Proof.
  start. unfold CallDataCopy_doExecute. wp_prefix.
  assert (forall a b c, 0 <= a < c -> 0 <= b < c -> c <= 2 ^ 64 ->
    let Src := if a <? b then a else b in
    0 <= Src /\ 0 <= a - Src < c /\ (a - Src = u64 (a - Src))) as Hsrc.
  { intros. subst Src. destruct (Z.ltb_spec a b); rewrite u64_small by lia; lia. }
  mem_facts; eapply safe_copy; try done; try lia.
  all: match goal with |- context [if ?a <? ?b then ?a else ?b] =>
    destruct (Hsrc a b (2 ^ 64)) as (? & ? & E); [lia..|]; rewrite <- ?E; lia end.
Qed.

Lemma safe_CodeCopy : safe CodeCopy_doExecute.
Proof.
  start. unfold CodeCopy_doExecute. wp_prefix.
  assert (Forall is_byte (ModCode (Inst (cx s)))) as Hcode by (state_facts; done).
  destruct (Z.ltb_spec (uint256ToUint64 v0) (Z.of_nat (length (ModCode (Inst (cx s)))))).
  - cbv zeta. apply wp_bind, wp_buf_read; [done|mem_facts; lia|]. intros l Hl Hlen.
    apply wp_bind. eapply wp_mem_write; [done|done| |].
    { mem_facts; [left|right]; [|lia]. apply nil_length_inv. lia. }
    intros. eapply safe_fill; [done|..]; mem_facts; lia.
  - destruct (Z.ltb_spec 0 (uint256ToUint64 v1)); wp_steps; [apply Forall_zeros'|right].
    mem_facts; rewrite length_zeros by lia; lia.
Qed.

Lemma safe_ExtCodeSize : safe ExtCodeSize_doExecute.
Proof.
  start. unfold ExtCodeSize_doExecute. wp_steps; [done| |]; apply u256_of_u64, get_code_size_range.
Qed.

Lemma safe_ExtCodeCopy : safe ExtCodeCopy_doExecute.
Proof.
  start. unfold ExtCodeCopy_doExecute. wp_prefix. apply wp_bind.
  eapply wp_mono with (Q := fun _ s' => inv s0 (sp - 1 - 1 - 1 - 1) ml' s') (R := invx s0);
    [|done|by destruct b; wp_steps].
  intros _ s'' Hinv''. cbv beta.
  destruct (Z.ltb_spec 0 (uint256ToUint64 v2)); wp_prefix.
  all: match goal with |- context [copy_code ?a ?o ?n ?h] =>
    destruct (copy_code_bytes a o n h) as [? ?]; [lia|];
    set (l := copy_code a o n h) in *; clearbody l end.
  - done.
  - destruct (Nat.eq_dec (length l) 0) as [E|E]; [left; by apply nil_length_inv|right].
    mem_facts; lia.
  - eapply safe_fill; [done|..]; mem_facts; lia.
Qed.

Lemma safe_ReturnDataCopy : safe ReturnDataCopy_doExecute.
Proof.
  start. unfold ReturnDataCopy_doExecute. wp_prefix.
  match goal with Hc : negb _ = true |- _ =>
    apply negb_true_iff, orb_false_iff in Hc as [[Hoff Hsize]%orb_false_iff Hsum] end.
  apply Z.ltb_ge in Hoff, Hsize, Hsum. rewrite uadd_spec in Hsum by done.
  destruct (Z.ltb_spec 0 (uint256ToUint64 v1)); wp_steps.
  state_facts. assert (is_u64 v0) by (unfold in_u in *; lia).
  assert (is_u64 v1) by (unfold in_u in *; lia).
  rewrite Z.mod_small in Hsum by (unfold in_u in *; lia).
  rewrite !uint256ToUint64_small in * by done.
  apply wp_buf_read; [done|unfold in_u in *; lia|]. intros l Hl Hlen. wp_steps; [done|].
  right. mem_facts; lia.
Qed.

Lemma safe_ExtCodeHash : safe ExtCodeHash_doExecute.
Proof. start. unfold ExtCodeHash_doExecute. wp_steps; done. Qed.

Lemma safe_BlockHash : safe BlockHash_doExecute.
Proof.
  start. unfold BlockHash_doExecute. wp_steps. apply be_load32. split; [done|apply Forall_zeros].
Qed.

Lemma safe_BlobHash : safe BlobHash_doExecute.
Proof.
  start. unfold BlobHash_doExecute. wp_steps; [unfold in_u; lia|].
  match goal with Ht : tx_ok _ |- _ => destruct Ht end.
  apply Z.leb_gt in Heqb. rewrite uint256ToUint64_small by (unfold in_u in *; lia).
  destruct (lookup_lt_is_Some_2 (blob_hashes t) (Z.to_nat v)) as [b Hb];
    [unfold in_u in *; lia|].
  eapply wp_of_option; [done|]. wp_steps. apply be_load32. by eapply Forall_lookup_1 in Hb.
Qed.

(** *** Storage *)

Lemma safe_SLoad : safe SLoad_doExecute.
Proof. start. unfold SLoad_doExecute. wp_steps; done. Qed.

Lemma safe_SStore : safe SStore_doExecute.
Proof. start. unfold SStore_doExecute. wp_steps. Qed.

Lemma safe_TLoad : safe TLoad_doExecute.
Proof. start. unfold TLoad_doExecute. wp_steps. Qed.

Lemma safe_TStore : safe TStore_doExecute.
Proof. start. unfold TStore_doExecute. wp_steps. Qed.

(** *** Memory *)

Lemma be_store_bytes v : is_u256 v -> bytes_n 32 (be_store v).
Proof.
  intros. rewrite be_store_spec by done. split; [apply length_be_bytes|apply be_bytes_range].
Qed.

Lemma safe_MStore : safe MStore_doExecute.
Proof.
  start. unfold MStore_doExecute. wp_steps;
    match goal with Hv : is_u256 ?x |- context [be_store ?x] =>
      destruct (be_store_bytes x Hv) as [E ?] end; [done|right].
  rewrite low64_small, E by done. unfold in_u in *. lia.
Qed.

Lemma safe_MStore8 : safe MStore8_doExecute.
Proof.
  start. unfold MStore8_doExecute. wp_steps; [by repeat constructor; apply u8_range|right].
  rewrite low64_small by done. unfold in_u in *. simpl. lia.
Qed.

Lemma safe_MLoad : safe MLoad_doExecute.
Proof.
  start. unfold MLoad_doExecute. wp_steps; [right|apply be_load_range'; [done|lia]].
  rewrite low64_small by done. unfold in_u in *. lia.
Qed.

Lemma max_u256 a b : is_u256 a -> is_u256 b -> is_u256 (Z.max a b).
Proof. unfold in_u. lia. Qed.
Hint Resolve max_u256 : range.

Lemma safe_MCopy : safe MCopy_doExecute.
Proof.
  start. unfold MCopy_doExecute. wp_steps.
  all: match goal with Hr : mem_range _ _ _ |- _ =>
    destruct Hr as [|Hr]; [by subst|] end;
    match goal with Hi : inv _ _ ?ml' _, _ : _ + ?n <= ?ml' |- _ =>
      apply inv_ml_bound in Hi as [? _] end;
    unfold MAX_REQUIRED_MEMORY_SIZE in *;
    rewrite ?(low64_small v0), ?(low64_small v), ?(uint256ToUint64_small v1) in *
      by (unfold in_u in *; lia).
  - right. unfold in_u in *. lia.
  - done.
  - right. unfold in_u in *. lia.
Qed.

Lemma wp_popTopics (s0 s : hstate HS) sp ml n (Q : list (list Z) -> hstate HS -> Prop) R :
  inv s0 sp ml s -> (n <= sp)%nat ->
  (forall l s', inv s0 (sp - n) ml s' -> Q l s') -> wp (popTopics n) Q R s.
Proof.
  revert s sp Q. induction n as [|n IH]; intros s sp Q Hinv Hn HQ; simpl.
  - apply wp_ret, HQ. by rewrite Nat.sub_0_r.
  - wp_prefix. eapply IH; [done|lia|]. intros l s'' Hinv''. apply wp_ret, HQ.
    by replace (sp - S n)%nat with (sp - 1 - n)%nat by lia.
Qed.

Lemma safe_Log b : safe (Log_doExecute b).
Proof.
  start. unfold Log_doExecute. wp_steps. eapply wp_popTopics; [done|lia|]. intros. wp_steps.
  mem_side.
Qed.

(** *** Calls *)

Lemma positive_part_nonneg z : 0 <= positive_part z.
Proof. unfold positive_part. destruct (Z.ltb_spec 0 z); lia. Qed.

Lemma call_result_bytes m (h : HS) :
  Forall is_byte (output_data (host_call m h).1) /\
  Z.of_nat (length (output_data (host_call m h).1)) < 2 ^ 63.
Proof. split; [apply host_call_output|apply host_call_size]. Qed.

Lemma u256_0 : is_u256 0.
Proof. unfold in_u. lia. Qed.
Lemma u256_1 : is_u256 1.
Proof. unfold in_u. lia. Qed.
Hint Resolve u256_0 u256_1 host_call_address : range.

Lemma safe_Create op : safe (Create_doExecute op).
Proof.
  start. unfold Create_doExecute.
  set (is2 := match op with OP_CREATE2 => true | _ => false end).
  apply wp_bind.
  eapply wp_mono with (R := invx s0)
    (Q := fun _ s' => inv s0 sp ml s' /\ (3 + (if is2 then 1 else 0) <= sp)%nat); [|done|].
  2: { subst is2. destruct op; wp_steps; done. }
  intros _ s' [Hinv' Hsp]. cbv beta zeta. wp_prefix. apply wp_bind.
  eapply wp_mono with (R := invx s0)
    (Q := fun a s'' => is_u256 a /\ inv s0 (sp - 3 - (if is2 then 1 else 0)) ml s''); [|done|].
  2: { replace (sp - 3)%nat with (sp - 1 - 1 - 1)%nat by lia.
       destruct is2; wp_steps; split; try done; try apply u256_0. by rewrite Nat.sub_0_r. }
  intros Salt s4 [HSalt Hinv4]. cbv beta.
  wp_prefix; try apply u256_0.
  wp_steps; try apply Z.le_0_sub, Z.lt_le_incl; try done; try apply host_call_output;
    try apply host_call_size; [mem_side|by apply Z.ltb_lt].
Qed.

Lemma wp_resolveDelegated (s0 s : hstate HS) sp ml Dest (Q : list Z -> hstate HS -> Prop) :
  inv s0 sp ml s -> (forall a s', inv s0 sp ml s' -> Q a s') ->
  wp (resolveDelegatedCallCodeAddress Dest) Q (invx s0) s.
Proof.
  intros Hinv HQ. unfold resolveDelegatedCallCodeAddress.
  wp_steps; try by apply HQ. all: unfold modFrame; apply wp_modify; wp_steps; apply HQ.
  all: match goal with Hi : inv ?s0 ?sp ?ml ?s' |- inv ?s0 ?sp ?ml (on_fr _ ?s') =>
    destruct (inv_wf _ _ _ _ Hi) as [[] _] end;
    match goal with Hg : (u64 _ <? _) = false |- _ => apply Z.ltb_ge in Hg;
      rewrite u64_small in Hg by lia end;
    rewrite i64_small by (unfold COLD_ACCOUNT_ACCESS_COST, WARM_STORAGE_READ_COST in *;
      destruct (is_cold _); lia);
    apply inv_set_fgas; [done|];
    unfold COLD_ACCOUNT_ACCESS_COST, WARM_STORAGE_READ_COST in *; destruct (is_cold _); lia.
Qed.

(** Gas may come back (the call stipend) as long as the handler as a whole
    does not create any. *)
Lemma inv_give_gas (s0 s : hstate HS) sp ml g :
  inv s0 sp ml s -> 0 <= g < 2 ^ 63 -> g <= fgas (fr s0) -> inv s0 sp ml (on_fr (set_fgas g) s).
Proof. intros Hinv Hg Hg0. inv_split Hinv; unfold fgas in *; simpl; try done; lia. Qed.

Lemma wp_stipend (s0 s s' : hstate HS) sp ml (Q : unit -> hstate HS -> Prop) R :
  inv s0 sp ml s -> inv s0 sp ml s' -> fgas (fr s') + CALL_GAS_STIPEND <= fgas (fr s) ->
  (forall s'', inv s0 sp ml s'' -> Q tt s'') ->
  wp (modFrame (fun f => set_fgas (i64 (fgas f + CALL_GAS_STIPEND)) f)) Q R s'.
Proof.
  intros Hinv Hinv' Hle HQ. apply wp_modify, HQ.
  destruct (inv_wf _ _ _ _ Hinv') as [[] _]. destruct (inv_wf _ _ _ _ Hinv) as [[] _].
  pose proof (keep_gas _ _ (inv_keep _ _ _ _ Hinv)). unfold CALL_GAS_STIPEND in *.
  apply (inv_give_gas _ _ _ _ (i64 (fgas (fr s') + 2300))); [done|..];
    rewrite i64_small by lia; lia.
Qed.

Lemma wp_Call_gas (s0 s : hstate HS) sp ml va hv kind_ Dest GasArg Val
    (Q : Z -> hstate HS -> Prop) :
  inv s0 sp ml s -> (forall g s', inv s0 sp ml s' -> Q g s') ->
  wp (Call_gas va hv kind_ Dest GasArg Val) Q (invx s0) s.
Proof.
  intros Hinv HQ. unfold Call_gas. wp_prefix. apply wp_bind.
  eapply wp_mono with (R := invx s0) (Q := fun _ s' => inv s0 sp ml s' /\
    (va && hv = true -> fgas (fr s') + CALL_GAS_STIPEND <= fgas (fr s))); [|done|].
  2: { destruct va; wp_prefix; [| |done].
       - destruct hv; case_match; unfold CALL_VALUE_COST, ACCOUNT_CREATION_COST; lia.
       - split; [done|]. simpl. intros ->.
         match goal with E : fgas _ = _ |- _ => rewrite E end.
         unfold CALL_GAS_STIPEND, CALL_VALUE_COST, ACCOUNT_CREATION_COST.
         case_match; lia. }
  intros _ s1 [Hinv1 Hst]. cbv beta. wp_prefix. apply wp_bind.
  eapply wp_mono with (R := invx s0) (Q := fun _ s' => s' = s1); [|done|by wp_steps].
  intros cg s2 ->. cbv beta. apply wp_bind.
  destruct (va && hv) eqn:E; [|wp_steps; by apply HQ].
  apply wp_bind, (wp_stipend s0 s s1 sp ml); [done|done|by apply Hst|].
  intros. wp_steps. by apply HQ.
Qed.

Lemma safe_Call op : safe (Call_doExecute op).
Proof.
  start. unfold Call_doExecute. apply wp_bind.
  eapply wp_mono with (R := invx s0)
    (Q := fun a s' => inv s0 sp ml s' /\ (6 + (if a : bool then 1 else 0) <= sp)%nat /\
      match op with OP_CALL | OP_CALLCODE | OP_DELEGATECALL | OP_STATICCALL => True
                  | _ => False end); [|done|].
  2: { destruct op; wp_steps; try done; split_and!; try done; lia. }
  intros va s' (Hinv' & Hsp & Hop). cbv beta zeta. wp_prefix. apply wp_bind.
  eapply wp_mono with (R := invx s0)
    (Q := fun a s'' => is_u256 a /\ inv s0 (sp - 2 - (if va then 1 else 0)) ml s''); [|done|].
  2: { replace (sp - 2)%nat with (sp - 1 - 1)%nat by lia.
       destruct va; wp_steps; split; try done; try apply u256_0. by rewrite Nat.sub_0_r. }
  intros Val s4 [HVal Hinv4]. cbv beta.
  wp_prefix; try apply u256_0.
  match goal with Hi : inv s0 ?e ml ?s |- wp _ _ _ ?s => set (SP := e) in *;
    assert (0 < SP < 1024)%nat as HSP by
      (apply inv_sp_bound in Hinv; destruct va; unfold SP; lia); clearbody SP end.
  apply wp_bind.
  eapply wp_mono with (R := invx s0) (Q := fun _ s'' => inv s0 SP ml s''); [|done|].
  2: { destruct b; wp_steps; done. }
  intros _ s5 Hinv5. cbv beta.
  apply wp_bind, (wp_resolveDelegated _ _ SP ml); [done|]. intros ca s6 Hinv6. wp_prefix.
  match goal with |- wp _ _ _ ?s7 =>
    eapply wp_mono with (R := invx s0) (Q := fun _ s8 => s8 = s7); [|done|by destruct op] end.
  intros k_ ? ->. cbv beta. apply wp_bind. eapply wp_Call_gas; [done|]. intros cg s8 Hinv8.
  wp_prefix. destruct (_ <=? _); [wp_steps|]. wp_prefix; [mem_side|].
  match goal with |- context [host_call ?m ?h] =>
    destruct (call_result_bytes m h) as [? ?]; set (Result := (host_call m h).1) in *;
    set (NewMsg := m) in *; clearbody Result NewMsg end.
  apply wp_bind.
  eapply wp_mono with (R := invx s0) (Q := fun _ s'' => inv s0 SP ml'0 s''); [|done|].
  2: { destruct (is_success _); wp_prefix; try apply u256_1; [|done].
       by replace SP with (SP - 1 + 1)%nat by lia. }
  intros _ s9 Hinv9. cbv beta. wp_prefix; [done..|]. apply wp_bind.
  eapply wp_mono with (R := invx s0) (Q := fun _ s'' => inv s0 SP ml'0 s''); [|done|].
  2: { destruct (Z.ltb_spec 0 (Z.min (low64 v4) (Z.of_nat (length (output_data Result)))));
         wp_prefix; [by apply Forall_take| |done|done]. right. rewrite length_take.
       mem_conv; mem_cases; destruct (Z.eqb_spec v4 0); unfold in_u in *; lia. }
  intros _ s10 Hinv10. cbv beta. wp_steps. lia.
Qed.

(** *** Termination *)

Ltac size_side :=
  match goal with Hi : inv _ _ ?ml' _, _ : mem_range _ _ ?ml' |- _ =>
    pose proof (inv_ml_bound _ _ _ _ Hi) end;
  mem_conv; mem_cases; unfold in_u, MAX_REQUIRED_MEMORY_SIZE in *; lia.

Lemma safe_Return : safe Return_body.
Proof. start. unfold Return_body. wp_steps; [mem_side|done|size_side]. Qed.

(** Where REVERT falls through, its status apart the state is well-formed. *)
Lemma safe_Revert (s0 s : hstate HS) sp ml :
  inv s0 sp ml s ->
  wp Revert_body (fun _ s' => invx s0 (on_cx (set_Status EVMC_SUCCESS) s')) (invx s0) s.
Proof.
  intros Hinv. unfold Revert_body. wp_steps; [mem_side|].
  apply wp_modify, wp_bind, wp_modify, wp_bind, wp_getFrame, wp_modify.
  match goal with Hi : inv _ ?n ?m ?s' |- _ => exists n, m;
    change (inv s0 n m (on_cx (set_ReturnData l)
      (on_cx (fun c => set_Inst (setGasRefund (GasRefundSnapshot (fr s')) (Inst c)) c)
        (on_cx (set_Status EVMC_SUCCESS) s')))) end.
  apply inv_ReturnData; [|done|size_side].
  apply inv_refund; [by apply inv_Status|]. intros. by eexists.
Qed.

Lemma safe_SelfDestruct : safe SelfDestruct_body.
Proof. start. unfold SelfDestruct_body. wp_steps; try done. Qed.
End Safety.

(** Safety of the instructions as the interpreter dispatches them.

    [ord_ok]: an ordinary instruction neither throws nor has undefined
    behaviour from a well-formed state, keeps the state well-formed, and when
    it succeeds the program counter has moved over the immediate.  The jumps
    and the terminating instructions have their own lemmas. *)

Create HintDb safety.
#[export] Hint Resolve safe_SignExtend safe_Byte safe_Sar safe_Exp safe_Keccak256 safe_Gas
  safe_Address safe_Origin safe_Caller safe_CallValue safe_CallDataSize safe_CodeSize safe_GasPrice
  safe_ReturnDataSize safe_CoinBase safe_TimeStamp safe_Number safe_PrevRanDao safe_ChainId
  safe_SelfBalance safe_BaseFee safe_BlobBaseFee safe_PC safe_MSize safe_GasLimit safe_Balance
  safe_CallDataLoad safe_CallDataCopy safe_CodeCopy safe_ExtCodeSize safe_ExtCodeCopy
  safe_ReturnDataCopy safe_ExtCodeHash safe_BlockHash safe_BlobHash safe_SLoad safe_SStore
  safe_TLoad safe_TStore safe_MStore safe_MStore8 safe_MLoad safe_MCopy safe_Log safe_Create
  safe_Call safe_Return safe_SelfDestruct : safety.

(** * Bodies that only return early to report a failure *)

Section FailExit.
Context {HS : Type} {I : Intx} {H : EvmcHost HS} {V : Evmc}.

Definition fail_exit {A} (m : HM HS A) : Prop :=
  forall s, match m s with Exit s' => is_success (Status (cx s')) = false | _ => True end.

Lemma fe_bind {A B} (m : HM HS A) (k : A -> HM HS B) :
  fail_exit m -> (forall a, fail_exit (k a)) -> fail_exit (bind m k).
Proof.
  intros Hm Hk s. unfold bind. specialize (Hm s). destruct (m s); try done. apply Hk.
Qed.
Lemma fe_ret {A} (a : A) : fail_exit (ret a).
Proof. done. Qed.
Lemma fe_gets {A} (f : hstate HS -> A) : fail_exit (gets f).
Proof. done. Qed.
Lemma fe_modify f : fail_exit (modify f).
Proof. done. Qed.
Lemma fe_throw {A} e : fail_exit (@throw _ _ A e).
Proof. done. Qed.
Lemma fe_undef {A} : fail_exit (@undef _ _ A).
Proof. done. Qed.
Lemma fe_option {A} (o : option A) : fail_exit (of_option o).
Proof. by destruct o. Qed.
Lemma fe_fail {A} st : is_success st = false -> fail_exit (setStatus st ;;; @exit _ _ A).
Proof. by intros Hst s. Qed.
Lemma fe_if {A} (b : bool) (m m' : HM HS A) :
  fail_exit m -> fail_exit m' -> fail_exit (if b then m else m').
Proof. by destruct b. Qed.
End FailExit.

Ltac fail_exits :=
  repeat first
    [ apply fe_fail; solve [reflexivity | assumption] | apply fe_bind; [|intros ?] | apply fe_ret | apply fe_gets
    | apply fe_modify | apply fe_throw | apply fe_undef | apply fe_option | apply fe_if
    | progress cbv beta zeta ].

Section TermExits.
Context {HS : Type} {I : Intx} {H : EvmcHost HS} {V : Evmc}.

Lemma fe_pop : fail_exit (HS := HS) pop.
Proof. unfold pop, stack_at, getFrame, modFrame. fail_exits. Qed.
Lemma fe_mem_read off n : fail_exit (HS := HS) (mem_read off n).
Proof. unfold mem_read, getFrame. fail_exits. Qed.
Lemma fe_chargeGas c : fail_exit (HS := HS) (chargeGas c).
Proof. unfold chargeGas, getFrame, modFrame. fail_exits. Qed.
Lemma fe_checkMemory off n : fail_exit (HS := HS) (checkMemoryExpandAndChargeGas off n).
Proof.
  unfold checkMemoryExpandAndChargeGas, checkMemoryExpandAndChargeGas64,
    expandMemoryAndChargeGas, getFrame, modFrame. fail_exits; apply fe_chargeGas.
Qed.
Lemma fe_orStatus m st :
  is_success st = false -> fail_exit m -> fail_exit (HS := HS) (orStatus m st).
Proof. intros. unfold orStatus. fail_exits. done. Qed.
Lemma fe_check n : fail_exit (HS := HS) (EVM_STACK_CHECK n).
Proof. unfold EVM_STACK_CHECK, getFrame. fail_exits. Qed.
Lemma fe_unless b st : is_success st = false -> fail_exit (HS := HS) (EVM_SET_EXCEPTION_UNLESS b st).
Proof. intros. unfold EVM_SET_EXCEPTION_UNLESS. fail_exits. Qed.
Lemma fe_cold rev a : fail_exit (coldAccount rev a).
Proof.
  unfold coldAccount, hostDo, getCtx, modCtx. fail_exits.
  destruct (access_account _ _); fail_exits.
Qed.

Ltac fe_body :=
  repeat first
    [ apply fe_pop | apply fe_mem_read | apply fe_chargeGas | apply fe_checkMemory
    | apply fe_orStatus; [reflexivity|] | apply fe_check | apply fe_unless; reflexivity
    | apply fe_cold | apply fe_bind; [|intros ?] | apply fe_ret | apply fe_gets | apply fe_modify
    | apply fe_if | progress cbv beta zeta ].

Lemma fe_Return : fail_exit (HS := HS) Return_body.
Proof. unfold Return_body, setReturnData, setStatus, modCtx. fe_body. Qed.
Lemma fe_Revert : fail_exit (HS := HS) Revert_body.
Proof. unfold Revert_body, setReturnData, setStatus, modCtx, getFrame. fe_body. Qed.
Lemma fe_SelfDestruct : fail_exit (HS := HS) SelfDestruct_body.
Proof.
  unfold SelfDestruct_body, setReturnData, setStatus, modCtx, getFrame, addRefund, hostRead,
    getCtx, currentRevision, isStaticMode, hostDo, getFrame, getCtx, modCtx. fe_body.
  destruct (selfdestruct _ _ _); fe_body.
Qed.
End TermExits.

Section StepSafety.
Context {HS : Type} {I : Intx} {H : EvmcHost HS} {V : Evmc}.
Context {IL : IntxLaws I} {HL : HostLaws HS H} {VL : EvmcLaws V}.
Implicit Types (s : hstate HS).

(** [s] with the program counter of [s0]. *)
Definition at_pc (s0 s : hstate HS) : hstate HS := on_fr (set_Pc (Pc (fr s0))) s.

Record ord_post (s0 : hstate HS) (n : nat) (s : hstate HS) : Prop := {
  ord_wf : wf s;
  ord_keep : keep s0 (at_pc s0 s);
  ord_pc : is_success (Status (cx s)) = true -> Pc (fr s) = (Pc (fr s0) + n)%nat;
}.

Definition ord_out (s0 : hstate HS) (n : nat) {A} (o : out ErrorCode (hstate HS) A) : Prop :=
  match o with Ret _ s | Exit s => ord_post s0 n s | Throw _ _ | Undef => False end.

Definition running (s : hstate HS) : Prop :=
  wf s /\ (Pc (fr s) < length (ModCode (Inst (cx s))))%nat.

Lemma wf_inv s : wf s -> inv s (Sp (fr s)) (Z.of_nat (length (Memory (fr s)))) s.
Proof. intros. split; auto using keep_refl. Qed.

Lemma invx_ord s0 s : invx s0 s -> ord_post s0 0 s.
Proof.
  intros [Hw Hk]%invx_wf. split; [done| |intros _; rewrite (keep_pc _ _ Hk); lia].
  destruct Hk; by split.
Qed.

Lemma safe_ord m s : safe m -> running s -> ord_out s 0 (m s).
Proof.
  intros Hm [Hw Hpc]. specialize (Hm _ _ _ _ (wf_inv s Hw) Hpc). unfold wp, ord_out in *.
  destruct (m s); auto using invx_ord.
Qed.

(** *** Operators *)

Lemma chunk_handler_safe op m : chunk_handler op = Some m -> safe m.
Proof.
  destruct op; cbv [chunk_handler chunk_arith chunk_env chunk_memory]; try discriminate;
    match goal with |- Some ?x = Some ?m -> _ => intros E; assert (m = x) as -> by congruence end;
    try (solve [eauto 3 with safety]);
    match goal with |- safe (doExecute ?h) =>
      let h' := eval hnf in h in change (safe (doExecute h')); cbn [doExecute] end;
    try (solve [eauto 3 with safety]);
    first [apply safe_binary | apply safe_ternary | apply safe_unary]; op_range.
Qed.

(** *** Stack opcodes *)

Context (PushMap : list Z).

Lemma safe_Pop : safe (HS := HS) executePopOpcodeNoGas.
Proof. intros s0 sp ml s Hinv _. unfold executePopOpcodeNoGas. wp_steps. Qed.

Lemma safe_Push0 : safe (HS := HS) executePush0OpcodeNoGas.
Proof.
  intros s0 sp ml s Hinv _. unfold executePush0OpcodeNoGas. wp_prefix.
  destruct (Nat.leb_spec MAXSTACK sp) as [|Hm]; [by eapply wp_fail|]. unfold MAXSTACK in Hm.
  wp_steps. apply u256_0.
Qed.

Lemma safe_Dup b : (0 < dupN b)%nat -> safe (HS := HS) (executeDupOpcodeNoGas b).
Proof.
  intros Hn s0 sp ml s Hinv _. unfold executeDupOpcodeNoGas. wp_prefix.
  destruct (Nat.ltb_spec sp (dupN b)); [by eapply wp_fail|].
  destruct (Nat.leb_spec MAXSTACK sp) as [|Hm]; [by eapply wp_fail|]. unfold MAXSTACK in Hm.
  wp_steps.
Qed.

Lemma safe_Swap b : safe (HS := HS) (executeSwapOpcodeNoGas b).
Proof.
  intros s0 sp ml s Hinv _. unfold executeSwapOpcodeNoGas. wp_prefix.
  destruct (Nat.ltb_spec sp (swapN b + 1)); [by eapply wp_fail|]. wp_steps.
Qed.

Lemma safe_ret : safe (HS := HS) (ret tt).
Proof. intros s0 sp ml s Hinv _. wp_steps. Qed.

Lemma push_ok b s :
  running s -> length PushMap = length (ModCode (Inst (cx s))) -> Forall is_u256 PushMap ->
  ord_out s (pushNumBytes b) (executePushNOpcodeNoGas b PushMap s).
Proof.
  intros [Hw Hpc] Hlen Hr.
  assert (wp (executePushNOpcodeNoGas b PushMap)
    (fun _ s' => ord_post s (pushNumBytes b) s')
    (fun s' => ord_post s (pushNumBytes b) s') s) as Hwp; [|by unfold wp, ord_out in *; destruct (executePushNOpcodeNoGas b PushMap s)].
  unfold executePushNOpcodeNoGas. apply wp_bind.
  eapply wp_getSp; [by apply wf_inv|]. destruct (Nat.leb_spec MAXSTACK (Sp (fr s))).
  - apply wp_bind, wp_modify, wp_exit.
    destruct (inv_Status _ _ _ _ EVMC_STACK_OVERFLOW (wf_inv s Hw)) as [Hw' Hk _ _]; [done|].
    split; [done| |done]. destruct Hk; by split.
  - apply wp_bind, wp_getFrame, wp_bind.
    destruct (lookup_lt_is_Some_2 PushMap (Pc (fr s))) as [v Hv]; [by rewrite Hlen|].
    eapply wp_of_option; [done|]. unfold MAXSTACK in *.
    apply wp_bind. eapply wp_stack_set; [by apply wf_inv|lia|by eapply Forall_lookup_1|].
    intros s' Hinv'. apply wp_bind. eapply wp_set_Sp; [done|lia|]. intros s'' Hinv''.
    apply wp_modify. destruct Hinv'' as [[[] []] [] _ _].
    split; [by split; split|by split|done].
Qed.

(** *** Ordinary instructions *)

Lemma dupN_pos b : (OP_DUP1 <=? b) && (b <=? OP_DUP16) = true -> (0 < dupN b)%nat.
Proof.
  intros [Hl Hr]%andb_true_iff. apply Z.leb_le in Hl, Hr. unfold dupN, OP_DUP1, OP_DUP16 in *.
  rewrite wrap_small by (unfold in_u; lia). lia.
Qed.

Lemma opcodeLen_other b :
  (OP_PUSH1 <=? b) && (b <=? OP_PUSH32) = false -> opcodeLen b = 1%nat.
Proof. unfold opcodeLen, isPushOpcode. by intros ->. Qed.

Lemma opcodeLen_push b :
  (OP_PUSH1 <=? b) && (b <=? OP_PUSH32) = true -> opcodeLen b = (pushNumBytes b + 1)%nat.
Proof.
  intros Hp. unfold opcodeLen, isPushOpcode, pushNumBytes. rewrite Hp.
  apply andb_true_iff in Hp as [Hl Hr]. apply Z.leb_le in Hl, Hr.
  unfold OP_PUSH1, OP_PUSH32 in *. rewrite !wrap_small by (unfold in_u; lia). lia.
Qed.

Lemma opcodeLen_pos b : (0 < opcodeLen b)%nat.
Proof.
  destruct ((OP_PUSH1 <=? b) && (b <=? OP_PUSH32)) eqn:E;
    [rewrite opcodeLen_push by done|rewrite opcodeLen_other by done]; lia.
Qed.

Lemma opcodeLen_named b : opcode_of_byte b <> OP_OTHER -> opcodeLen b = 1%nat.
Proof.
  intros Hb. apply opcodeLen_other. rewrite <- (opcode_of_byte_inv b Hb).
  by destruct (opcode_of_byte b).
Qed.

Lemma classify_safe b m :
  classify PushMap b = COrd m ->
  safe m /\ opcodeLen b = 1%nat \/ m = executePushNOpcodeNoGas b PushMap /\ isPushOpcode b = true.
Proof.
  unfold classify. intros Hc.
  destruct (decide (opcode_of_byte b = OP_OTHER)) as [E|E].
  - rewrite E in Hc. unfold isPushOpcode.
    destruct ((OP_PUSH1 <=? b) && (b <=? OP_PUSH32)) eqn:Ep; [right; naive_solver|left].
    rewrite opcodeLen_other by done. split; [|done].
    destruct ((OP_DUP1 <=? b) && (b <=? OP_DUP16)) eqn:Ed;
      [injection Hc as <-; by apply safe_Dup, dupN_pos|].
    destruct ((OP_SWAP1 <=? b) && (b <=? OP_SWAP16)) eqn:Es; [|done].
    injection Hc as <-. apply safe_Swap.
  - left. rewrite opcodeLen_named by done. split; [|done].
    destruct (opcode_of_byte b); try discriminate; try (by destruct E);
      try match type of Hc with context [chunk_handler ?op] =>
        destruct (chunk_handler op) eqn:Eh; [injection Hc as <-; by eapply chunk_handler_safe|done]
      end; injection Hc as <-; eauto 3 using safe_Pop, safe_Push0, safe_ret with safety.
Qed.

Lemma ord_ok b m s :
  classify PushMap b = COrd m -> running s ->
  length PushMap = length (ModCode (Inst (cx s))) -> Forall is_u256 PushMap ->
  ord_out s (opcodeLen b - 1) (m s).
Proof.
  intros Hc Hs Hlen Hr. destruct (classify_safe b m Hc) as [[Hm ->]|[-> Hp]].
  - by apply safe_ord.
  - rewrite opcodeLen_push by done. replace (pushNumBytes b + 1 - 1)%nat with (pushNumBytes b) by lia.
    by apply push_ok.
Qed.
End StepSafety.
