(* ===== verification/RefInterp.v ===== *)
(** The interpreter without gas chunks: one instruction per iteration, each
    charged on its own.  It is the reference the chunked interpreter is
    compared with; here it is shown to be safe and to terminate, with an
    explicit bound on the number of iterations.  Then runs with more gas. *)

From S2P Require Import Prelude Intx Evmc GasStorageCost EvmInstance Frame HandlerUtil HandlersArith HandlersEnv HandlersCall BytecodeCache Interpreter Dispatch WellFormed HandlerSafety.

Section Ref.
Context {HS : Type} {I : Intx} {H : EvmcHost HS} {V : Evmc}.
Context {IL : IntxLaws I} {HL : HostLaws HS H} {VL : EvmcLaws V}.
Implicit Types (s : hstate HS) (c : Context_ HS).

Lemma inst_frame_gas_refund i i' g r :
  inst_frame i = inst_frame i' -> set_Gas g (set_GasRefund r i) = set_Gas g (set_GasRefund r i').
Proof. destruct i, i'; intros [=]; by subst. Qed.
Lemma inst_frame_gas i i' g :
  inst_frame i = inst_frame i' -> inst_frame (set_Gas g i) = inst_frame (set_Gas g i').
Proof. destruct i, i'; intros [=]; by subst. Qed.
Lemma inst_frame_refund i r : inst_frame (set_GasRefund r i) = inst_frame i.
Proof. done. Qed.

(** *** Final contexts *)

Definition exceptional (st : evmc_status_code) : Prop :=
  st <> EVMC_SUCCESS /\ st <> EVMC_REVERT.

(** [c] reports an exceptional failure of a run from [s0]: all gas gone, the
    refund counter back at its snapshot, no output. *)
Record failed (s0 : hstate HS) (c : Context_ HS) : Prop := {
  failed_status : exceptional (status_code (ExeResult c));
  failed_gas : gas_left (ExeResult c) = 0;
  failed_refund : gas_refund (ExeResult c) = GasRefundSnapshot (fr s0);
  failed_output : output_data (ExeResult c) = [];
  failed_data : ReturnData c = [];
  failed_below : below c = [];
  failed_inst :
    Inst c = set_Gas 0 (set_GasRefund (GasRefundSnapshot (fr s0)) (Inst (cx s0)));
  failed_objects : Forall frame_object (spare (cx s0)) -> Forall frame_object (spare c);
}.

(** [c] is the end of a run from [s0] that stopped or reverted: the result
    has the gas that is left, at most what there was, and the data. *)
Record ended (s0 : hstate HS) (c : Context_ HS) : Prop := {
  ended_status : status_code (ExeResult c) = EVMC_SUCCESS \/
                 status_code (ExeResult c) = EVMC_REVERT;
  ended_gas : 0 <= gas_left (ExeResult c) <= fgas (fr s0);
  ended_refund : gas_refund (ExeResult c) = GasRefund (Inst c);
  ended_output : output_data (ExeResult c) = ReturnData c;
  ended_below : below c = [];
  ended_inst : inst_frame (Inst c) = inst_frame (set_Gas (gas_left (ExeResult c)) (Inst (cx s0)));
  ended_objects : Forall frame_object (spare (cx s0)) -> Forall frame_object (spare c);
}.

(** [s] follows [s0] in a run: [keep] but for the program counter. *)
Definition follows (s0 s : hstate HS) : Prop := keep s0 (at_pc s0 s).

Lemma follows_refl s : follows s s.
Proof. split; done || lia. Qed.
Lemma follows_trans s1 s2 s3 : follows s1 s2 -> follows s2 s3 -> follows s1 s3.
Proof. intros [] []; split; simpl in *; try congruence; unfold fgas in *; simpl in *; lia. Qed.

Lemma follows_failed s0 s c : follows s0 s -> failed s c -> failed s0 c.
Proof.
  intros [_ Hsn Hsp Hi _] []. change (cx (at_pc s0 s)) with (cx s) in Hi, Hsp. simpl in Hsn.
  split; try done; try congruence; [|by rewrite <- Hsp].
  rewrite failed_inst0, Hsn. by apply inst_frame_gas_refund.
Qed.
Lemma follows_ended s0 s c : follows s0 s -> ended s c -> ended s0 c.
Proof.
  intros [_ _ Hsp Hi Hg] []. change (fgas (fr (at_pc s0 s))) with (fgas (fr s)) in Hg.
  change (cx (at_pc s0 s)) with (cx s) in Hi, Hsp. split; try done; try lia; [|by rewrite <- Hsp].
  rewrite ended_inst0. by apply inst_frame_gas.
Qed.

Lemma onError_failed s0 s :
  wf s -> follows s0 s -> is_success (Status (cx s)) = false ->
  exists c, onError s = LReturn c /\ failed s0 c.
Proof.
  intros [Hfr Hc] Hf Hst. pose proof (wf_below _ Hc) as Hb. apply wf_frame_object in Hfr. pose proof (wf_status _ Hc).
  unfold onError, handleExecutionStatus, freeBackFrame.
  cbn [cx set_ReturnData set_Inst below]. rewrite Hb.
  destruct (Status (cx s)) eqn:E; try done.
  all: eexists; split; [reflexivity|].
  all: destruct Hf as [_ Hsn Hsp Hi _]; simpl in *;
    split; simpl; rewrite ?E; try done; rewrite ?Hsn, ?Hsp; try done;
    try (by apply (inst_frame_gas_refund _ _ 0)); by constructor.
Qed.

(** *** Ends of a run *)

Lemma stop_ended back s : wf s -> exists c, stopOp back s = LReturn c /\ ended s c.
Proof.
  intros [Hf Hc]. pose proof (wf_gas _ Hf) as Hg. unfold stopOp, freeBackFrame.
  cbn [cx on_cx set_ReturnData below]. rewrite (wf_below _ Hc).
  eexists; split; [reflexivity|]. split; simpl; auto.
  - rewrite u64_small, i64_small by lia. lia.
  - unfold setGas. simpl. rewrite u64_small, i64_small by lia. done.
  - constructor; [by apply wf_frame_object in Hf|done].
Qed.

Lemma released_ended back s0 s st :
  wf_frame (fr s) -> below (cx s) = [] -> follows s0 s -> st = EVMC_SUCCESS \/ st = EVMC_REVERT ->
  exists c, afterTerm back st (let '(o, c) := releaseFrame s in TDone o c) = LReturn c /\ ended s0 c.
Proof.
  intros Hf Hb Hfo Hst. pose proof (wf_gas _ Hf) as Hg.
  unfold releaseFrame, freeBackFrame. rewrite Hb.
  eexists; split; [reflexivity|]. apply (follows_ended s0 s); [done|].
  split; simpl; auto.
  - rewrite u64_small, i64_small by lia. lia.
  - unfold setGas. simpl. rewrite u64_small, i64_small by lia. done.
  - constructor; [by apply wf_frame_object in Hf|done].
Qed.

(** *** Charging *)

Lemma charged_cases cost {A} (m : HM HS A) s :
  wf s -> 0 <= cost < 2 ^ 64 ->
  fgas (fr s) < cost /\ charged cost m s = Exit (on_cx (set_Status EVMC_OUT_OF_GAS) s) \/
  cost <= fgas (fr s) /\ charged cost m s = m (on_fr (set_fgas (fgas (fr s) - cost)) s).
Proof.
  intros [Hf _] Hc. pose proof (wf_gas _ Hf) as Hg. unfold charged. rewrite !u64_small by lia.
  destruct (Z.ltb_spec (fgas (fr s)) cost); [by left|right]. by rewrite i64_small by lia.
Qed.

Lemma wf_set_fgas s g : wf s -> 0 <= g < 2 ^ 63 -> wf (on_fr (set_fgas g) s).
Proof. intros [[] []] Hg. split; split; done. Qed.
Lemma wf_set_Status s st : wf s -> st <> EVMC_REVERT -> wf (on_cx (set_Status st) s).
Proof. intros [[] []] Hg. split; split; done. Qed.
Lemma wf_set_Pc s n : wf s -> wf (on_fr (set_Pc n) s).
Proof. intros [[] []]. split; split; done. Qed.
Lemma follows_set_fgas s g : g <= fgas (fr s) -> follows s (on_fr (set_fgas g) s).
Proof. intros. split; done. Qed.
Lemma follows_set_Status s st : follows s (on_cx (set_Status st) s).
Proof. split; done || reflexivity. Qed.
Lemma follows_set_Pc s n : follows s (on_fr (set_Pc n) s).
Proof. split; done || reflexivity. Qed.

Lemma failWith_failed s st :
  wf s -> exceptional st -> exists c, failWith st s = LReturn c /\ failed s c.
Proof.
  intros Hw [H1 H2]. apply onError_failed; [by apply wf_set_Status|apply follows_set_Status|].
  by destruct st.
Qed.

(** *** Jumps *)

(** A jump falls through, goes to a marked destination or fails. *)
Definition jump_out (s0 : hstate HS) (JumpMap : list Z)
    (o : out ErrorCode (hstate HS) (option nat)) : Prop :=
  match o with
  | Ret d s =>
      wf s /\ keep s0 s /\ Status (cx s) = Status (cx s0) /\
      match d with None => True | Some d => exists x, JumpMap !! d = Some x /\ x <> 0 end
  | Exit s => wf s /\ keep s0 s /\ is_success (Status (cx s)) = false
  | Throw _ _ | Undef => False
  end.

Lemma checkDest_out s0 s JumpMap CodeSize Dest :
  wf s -> keep s0 s -> Status (cx s) = Status (cx s0) ->
  length JumpMap = CodeSize -> 0 <= Dest ->
  jump_out s0 JumpMap (checkDest CodeSize JumpMap Dest s).
Proof.
  intros Hw Hk Hst Hlen HD. unfold checkDest. destruct (Z.leb_spec (Z.of_nat CodeSize) Dest).
  - unfold setStatus, modCtx, modify, bind, exit. simpl.
    split_and!; [by apply wf_set_Status| |done]. destruct Hk; by split.
  - destruct (lookup_lt_is_Some_2 JumpMap (Z.to_nat Dest)) as [x Hx]; [lia|].
    unfold bind. rewrite Hx. simpl. destruct (Z.eqb_spec x 0).
    + unfold setStatus, modCtx, modify, exit. simpl.
      split_and!; [by apply wf_set_Status| |done]. destruct Hk; by split.
    + simpl. split_and!; eauto.
Qed.

Lemma lookup_stack s i :
  wf s -> (i < 1024)%nat -> exists v, Stack (fr s) !! i = Some v /\ is_u256 v.
Proof.
  intros [Hf _] Hi. destruct (lookup_lt_is_Some_2 (Stack (fr s)) i) as [v Hv];
    [by rewrite (wf_stack_len _ Hf)|].
  exists v. split; [done|]. eapply Forall_lookup_1; [apply (wf_stack _ Hf)|done].
Qed.

Lemma wf_set_Sp s n : wf s -> (n <= 1024)%nat -> wf (on_fr (set_Sp n) s).
Proof. intros [[] []] Hg. split; split; done. Qed.

Lemma fail_jump s0 s JumpMap st :
  wf s -> keep s0 s -> exceptional st ->
  jump_out s0 JumpMap (Exit (on_cx (set_Status st) s)).
Proof.
  intros Hw Hk [H1 H2]. split_and!; [by apply wf_set_Status| |by destruct st].
  destruct Hk; by split.
Qed.

Lemma jumpOp_out s CodeSize JumpMap :
  wf s -> length JumpMap = CodeSize -> jump_out s JumpMap (jumpOp CodeSize JumpMap s).
Proof.
  intros Hw Hlen. pose proof (wf_sp _ (proj1 Hw)) as Hsp. unfold MAXSTACK in Hsp.
  unfold jumpOp, bind, getFrame, gets. destruct (Nat.ltb_spec (Sp (fr s)) 1).
  - by apply (fail_jump s s JumpMap EVMC_STACK_UNDERFLOW); [|apply keep_refl|].
  - destruct (lookup_stack s (Sp (fr s) - 1)) as (v & Hv & Hr); [done|lia|].
    unfold modFrame, modify, stack_at, bind, getFrame, gets. simpl. rewrite Hv. simpl.
    apply checkDest_out; [apply wf_set_Sp; [done|lia]|by split|done|done|].
    by apply uint256ToUint64_range.
Qed.

Lemma jumpiOp_out s CodeSize JumpMap :
  wf s -> length JumpMap = CodeSize -> jump_out s JumpMap (jumpiOp CodeSize JumpMap s).
Proof.
  intros Hw Hlen. pose proof (wf_sp _ (proj1 Hw)) as Hsp. unfold MAXSTACK in Hsp.
  unfold jumpiOp, bind, getFrame, gets. destruct (Nat.ltb_spec (Sp (fr s)) 2).
  - by apply (fail_jump s s JumpMap EVMC_STACK_UNDERFLOW); [|apply keep_refl|].
  - destruct (lookup_stack s (Sp (fr s) - 1)) as (v & Hv & Hr); [done|lia|].
    destruct (lookup_stack s (Sp (fr s) - 2)) as (x & Hx & Hr'); [done|lia|].
    unfold modFrame, modify, stack_at, bind, getFrame, gets. simpl. rewrite Hv. simpl.
    rewrite Hx. simpl. destruct (Z.eqb_spec x 0).
    + simpl. split_and!; [|by split|done..]. apply wf_set_Sp; [done|lia].
    + apply checkDest_out; [apply wf_set_Sp; [done|lia]|by split|done|done|].
      by apply uint256ToUint64_range.
Qed.

(** *** One instruction *)

(** The local variables of [interpret] on code with a well-formed cache. *)
Record env_ok (E : interp_env) : Prop := {
  env_metrics : metrics_table (eRevision E) = Some (eMetrics E);
  env_names : eNames E = names_table (eRevision E);
  env_jump_len : length (JumpDestMap (eCache E)) = length (eCode E);
  env_push_len : length (PushValueMap (eCache E)) = length (eCode E);
  env_push : Forall is_u256 (PushValueMap (eCache E));
}.

(** A state of a run in [E] between two iterations. *)
Record at_iter (E : interp_env) (s : hstate HS) : Prop := {
  iter_wf : wf s;
  iter_code : ModCode (Inst (cx s)) = eCode E;
  iter_status : Status (cx s) = EVMC_SUCCESS;
}.

(** What an instruction of byte [b] at [s] may lead to. *)
Definition step_out (E : interp_env) (s : hstate HS) (b : Z) (o : loop_out HS) : Prop :=
  match o with
  | LContinue s' =>
      at_iter E s' /\ follows s s' /\
      (Pc (fr s') = (Pc (fr s) + opcodeLen b)%nat \/
       fgas (fr s') < fgas (fr s) /\
       exists x, JumpDestMap (eCache E) !! Pc (fr s') = Some x /\ x <> 0)
  | LReturn c => failed s c \/ ended s c
  | LBreak _ _ | LThrow _ | LUndef | LFuel => False
  end.

Lemma step_failed E s b st s0 :
  wf s -> follows s0 s -> exceptional st -> step_out E s0 b (failWith st s).
Proof.
  intros Hw Hf Hst. destruct (failWith_failed s st Hw Hst) as (c & -> & Hc). left.
  by apply (follows_failed s0 s).
Qed.

Lemma step_onError E s b s0 :
  wf s -> follows s0 s -> is_success (Status (cx s)) = false -> step_out E s0 b (onError s).
Proof.
  intros Hw Hf Hst. destruct (onError_failed s0 s) as (c & -> & Hc); [done..|]. by left.
Qed.

Lemma follows_code s s' :
  follows s s' -> ModCode (Inst (cx s')) = ModCode (Inst (cx s)).
Proof. intros [_ _ _ Hi _]. by apply inst_frame_code in Hi. Qed.

(** The end of an instruction that ran without a throw. *)
Lemma ord_post_out E s s1 s' b n :
  at_iter E s -> follows s s1 -> Pc (fr s1) = Pc (fr s) -> ord_post s1 n s' ->
  (n + 1 = opcodeLen b)%nat ->
  step_out E s b (afterOp (Exit s')) /\ afterOp (@Exit ErrorCode _ unit s') = afterOp (Ret tt s').
Proof.
  intros Hi Hf Hpc [Hw' Hk' Hp'] Hn. split; [|done]. unfold afterOp.
  assert (follows s s') as Hf' by by eapply follows_trans.
  destruct (is_success (Status (cx s'))) eqn:Est; [|by apply step_onError].
  specialize (Hp' eq_refl).
  split_and!.
  - split; [by apply (wf_set_Pc s')| |by apply is_success_true].
    etransitivity; [by apply (follows_code _ _ Hf')|apply Hi].
  - eapply follows_trans; [done|]. apply (follows_set_Pc s').
  - left. simpl. lia.
Qed.

Lemma ord_step_out E s s1 b m :
  env_ok E -> at_iter E s -> (Pc (fr s) < length (eCode E))%nat ->
  classify (PushValueMap (eCache E)) b = COrd m ->
  wf s1 -> follows s s1 -> Pc (fr s1) = Pc (fr s) -> step_out E s b (afterOp (m s1)).
Proof.
  intros HE Hi Hlt Hc Hw1 Hf1 Hpc1.
  assert (ModCode (Inst (cx s1)) = eCode E) as Hcode
    by (rewrite (follows_code _ _ Hf1); apply Hi).
  pose proof (ord_ok (PushValueMap (eCache E)) b m s1 Hc) as Ho.
  destruct (m s1) as [[] s'|s'| |] eqn:Em; cbn [ord_out] in Ho;
    (assert (HO := Ho ltac:(split; [done|by rewrite Hcode, Hpc1])
       ltac:(rewrite Hcode; apply HE) ltac:(apply HE))); try done.
  all: pose proof (opcodeLen_pos b);
    destruct (ord_post_out E s s1 s' b _ Hi Hf1 Hpc1 HO ltac:(lia)) as [H1 H2];
    by rewrite <- ?H2.
Qed.

Lemma jump_step_out E s s1 b o :
  at_iter E s -> follows s s1 -> Pc (fr s1) = Pc (fr s) -> fgas (fr s1) < fgas (fr s) ->
  Status (cx s1) = EVMC_SUCCESS -> opcodeLen b = 1%nat ->
  jump_out s1 (JumpDestMap (eCache E)) o -> step_out E s b (afterJump o).
Proof.
  intros Hi Hf Hpc Hg Hst Hb Ho.
  assert (forall s', keep s1 s' -> follows s s') as Hk'.
  { intros s' Hk. eapply follows_trans; [done|]. destruct Hk. by split. }
  destruct o as [[d|] s'|s'| |]; [| | |done|done]; destruct Ho as (Hw & Hk & Hd).
  - destruct Hd as (Hst' & x & Hx & Hx0). split_and!.
    + split; [by apply (wf_set_Pc s')| |simpl; congruence].
      etransitivity; [by apply (follows_code s s'), Hk'|apply Hi].
    + eapply follows_trans; [by apply Hk'|apply (follows_set_Pc s')].
    + right. split; [|by exists x]. pose proof (keep_gas _ _ Hk).
      change (fgas (fr s') < fgas (fr s)). lia.
  - apply (ord_post_out E s s1 s' b 0); [done..| |lia].
    apply invx_ord, invx_wf. done.
  - apply (ord_post_out E s s1 s' b 0); [done..| |lia].
    apply invx_ord, invx_wf. done.
Qed.

(** The body of a terminating instruction: it ends the frame, or sets a failing
    status. *)
Lemma term_run PushMap s1 b st op m :
  classify PushMap b = CTerm st op m -> wf s1 ->
  (Pc (fr s1) < length (ModCode (Inst (cx s1))))%nat ->
  (st = EVMC_SUCCESS \/ st = EVMC_REVERT) /\
  match m s1 with
  | Ret _ s' => wf_frame (fr s') /\ below (cx s') = [] /\ follows s1 s'
  | Exit s' => wf s' /\ follows s1 s' /\ is_success (Status (cx s')) = false
  | _ => False
  end.
Proof.
  intros Hc Hw1 Hlt1.
  assert ((safe m \/ m = Revert_body) /\ fail_exit m /\ (st = EVMC_SUCCESS \/ st = EVMC_REVERT))
    as (Hm & Hfe & Hst).
  { unfold classify in Hc. destruct (opcode_of_byte b); try done; try (by repeat case_match);
      injection Hc as <- <- <-; auto using fe_Return, fe_Revert, fe_SelfDestruct with safety. }
  split; [done|]. specialize (Hfe s1).
  assert (wp m (fun _ s' => invx s1 s' \/ wf_frame (fr s') /\ below (cx s') = [] /\ follows s1 s')
            (invx s1) s1) as Hs.
  { destruct Hm as [Hs| ->].
    - specialize (Hs _ _ _ _ (wf_inv s1 Hw1) Hlt1). unfold wp in *. destruct (m s1); auto.
    - pose proof (safe_Revert _ _ _ _ (wf_inv s1 Hw1)) as Hs. unfold wp in *.
      destruct (Revert_body s1); auto. right. apply invx_wf in Hs as [[Hf' Hc'] Hk'].
      split_and!; [done|by apply Hc'|]. destruct Hk'; by split. }
  unfold wp in Hs. destruct (m s1) as [[] s'|s'| |]; try done.
  - destruct Hs as [Hs|?]; [|done]. apply invx_wf in Hs as [[Hf' Hc'] Hk'].
    split_and!; [done|by apply Hc'|]. destruct Hk'; by split.
  - apply invx_wf in Hs as [Hw' Hk']. split_and!; [done| |done]. destruct Hk'; by split.
Qed.

Lemma term_step_out E s s1 b st op m :
  at_iter E s -> (Pc (fr s) < length (eCode E))%nat ->
  classify (PushValueMap (eCache E)) b = CTerm st op m ->
  wf s1 -> follows s s1 -> Pc (fr s1) = Pc (fr s) ->
  step_out E s b (afterTerm backToSwitch st (doExecute_term m s1)).
Proof.
  intros Hi Hlt Hc Hw1 Hf1 Hpc1. destruct (term_run _ s1 b st op m Hc Hw1) as [Hst Hm].
  { rewrite (follows_code _ _ Hf1), Hpc1, (iter_code _ _ Hi). done. }
  unfold doExecute_term. destruct (m s1) as [[] s'|s'| |]; [| |done|done].
  - destruct Hm as (Hf' & Hb' & Hk').
    destruct (released_ended backToSwitch s s' st) as (c & -> & Hc'); [done..|by eapply follows_trans|done|].
    by right.
  - destruct Hm as (Hw' & Hk' & Hfe). unfold afterTerm, backToSwitch, afterOp. cbn [cx].
    rewrite Hfe.
    apply (step_onError E (mkH (fr s') (cx s'))); destruct s'; [done| |done].
    by eapply follows_trans.
Qed.

(** With one frame the places that end a frame agree. *)
Lemma term_back PushMap s1 b st op m :
  classify PushMap b = CTerm st op m -> wf s1 ->
  (Pc (fr s1) < length (ModCode (Inst (cx s1))))%nat ->
  afterTerm restartDispatch st (doExecute_term m s1)
  = afterTerm backToSwitch st (doExecute_term m s1).
Proof.
  intros Hc Hw1 Hlt1. destruct (term_run _ s1 b st op m Hc Hw1 Hlt1) as [Hst Hm].
  unfold doExecute_term. destruct (m s1) as [[] s'|s'| |]; try done.
  - destruct Hm as (Hf' & Hb' & Hk').
    destruct (released_ended backToSwitch s1 s' st) as (c & E1 & _); [done..|].
    unfold releaseFrame, freeBackFrame. by rewrite Hb'.
  - destruct Hm as (_ & _ & Hfe). unfold afterTerm, backToSwitch, restartDispatch, afterOp.
    cbn [cx]. by rewrite Hfe.
Qed.

Lemma stop_back back back' s : wf s -> stopOp back s = stopOp back' s.
Proof.
  intros [_ Hc]. unfold stopOp, freeBackFrame. cbn [cx on_cx set_ReturnData below].
  by rewrite (wf_below _ Hc).
Qed.

Lemma gas_cost_range E b :
  env_ok E -> eNames E b = true -> 0 <= eMetrics E b < 2 ^ 64.
Proof.
  intros HE Hb. pose proof (env_metrics E HE) as Hm. rewrite (env_names E HE) in Hb.
  pose proof (gas_cost_int16 _ _ b Hm). pose proof (gas_cost_defined _ _ b Hm Hb). lia.
Qed.

Lemma classify_jump_len PushMap b :
  classify (HS := HS) PushMap b = CJump \/ classify (HS := HS) PushMap b = CJumpi ->
  opcodeLen b = 1%nat /\ (b = 0x56 \/ b = 0x57).
Proof.
  unfold classify. intros Hc. pose proof (opcode_of_byte_inv b) as Hb.
  destruct (opcode_of_byte b); try (destruct Hc; discriminate);
    try (destruct Hc as [Hc|Hc]; by repeat case_match);
    rewrite <- Hb by done; simpl; auto.
Qed.

Definition slow (E : interp_env) (b : Z) (s : hstate HS) : loop_out HS :=
  slow_step (length (eCode E)) (eMetrics E) (JumpDestMap (eCache E)) (PushValueMap (eCache E))
    (eNames E) b s.

Lemma slow_step_out E s b :
  env_ok E -> at_iter E s -> (Pc (fr s) < length (eCode E))%nat ->
  step_out E s b (slow E b s).
Proof.
  intros HE Hi Hlt. pose proof (iter_wf _ _ Hi) as Hw. unfold slow, slow_step.
  destruct (eNames E b) eqn:Hn; simpl negb; cbv iota;
    [|by apply (step_failed E s b EVMC_UNDEFINED_INSTRUCTION); [|apply follows_refl|]].
  rewrite (switch_step_spec (eCode E)).
  pose proof (gas_cost_range E b HE Hn) as Hcost.
  assert (forall A (m : HM HS A) (P : out ErrorCode (hstate HS) A -> Prop),
    P (Exit (on_cx (set_Status EVMC_OUT_OF_GAS) s)) ->
    (eMetrics E b <= fgas (fr s) ->
     let s1 := on_fr (set_fgas (fgas (fr s) - eMetrics E b)) s in
     wf s1 -> follows s s1 -> P (m s1)) -> P (charged (eMetrics E b) m s)) as Hch.
  { intros A m P Hoog Hrun.
    destruct (charged_cases (eMetrics E b) m s Hw Hcost) as [[Hg ->]|[Hg ->]]; [done|].
    pose proof (wf_gas _ (proj1 Hw)).
    apply Hrun; [done|by apply wf_set_fgas; [|lia]|apply follows_set_fgas; lia]. }
  assert (step_out E s b (failWith EVMC_OUT_OF_GAS s)) as Hoog
    by by apply (step_failed E s b EVMC_OUT_OF_GAS); [|apply follows_refl|].
  assert (length (JumpDestMap (eCache E)) = length (eCode E)) as Hjl by apply HE.
  destruct (gas_cost_jump _ _ (env_metrics E HE)) as [Hj1 Hj2].
  assert (forall m, opcodeLen b = 1%nat -> b = 0x56 \/ b = 0x57 ->
    (forall s1, wf s1 -> jump_out s1 (JumpDestMap (eCache E)) (m s1)) ->
    step_out E s b (afterJump (charged (eMetrics E b) m s))) as Hjump.
  { intros m Hlen Hb Hm. apply Hch; [exact Hoog|]. intros Hle s1 Hw1 Hf1.
    apply (jump_step_out E s s1); auto; [|apply Hi].
    change (fgas (fr s) - eMetrics E b < fgas (fr s)). destruct Hb as [-> | ->]; lia. }
  destruct (classify (PushValueMap (eCache E)) b) as [m| | | |st op m|] eqn:Hc.
  - apply Hch; [exact Hoog|]. intros. by eapply ord_step_out.
  - destruct (classify_jump_len (PushValueMap (eCache E)) b) as [? ?]; [by left|].
    apply Hjump; auto using jumpOp_out.
  - destruct (classify_jump_len (PushValueMap (eCache E)) b) as [? ?]; [by right|].
    apply Hjump; auto using jumpiOp_out.
  - destruct (stop_ended stopContinue s Hw) as (c & -> & ?). by right.
  - apply (Hch _ m (fun o => step_out E s b (afterTerm backToSwitch st
      match o with
      | Ret _ s' => let '(o, c) := releaseFrame s' in TDone o c
      | Exit s' => TDone (Some (fr s')) (cx s') | Throw e _ => TThrow e | Undef => TUndef end))).
    + exact Hoog.
    + intros. by apply (term_step_out E s _ b st op m).
  - by apply (step_failed E s b EVMC_INVALID_INSTRUCTION); [|apply follows_refl|].
Qed.

(** *** The loop *)

(** The environment with a cache that has no chunks. *)
Definition no_chunks (E : interp_env) : interp_env :=
  let n := length (eCode E) in
  mkEnv (eCode E) (eRevision E) (eMetrics E) (eNames E)
    (mkCache (JumpDestMap (eCache E)) (PushValueMap (eCache E)) (replicate n 0) (replicate n 0)).

Lemma no_chunks_ok E : env_ok E -> env_ok (no_chunks E).
Proof. by intros []; split. Qed.
Lemma at_iter_no_chunks E s : at_iter (no_chunks E) s <-> at_iter E s.
Proof. split; intros []; by split. Qed.

Lemma ref_iter R E s b :
  eCode E !! Pc (fr s) = Some b -> interp_iter R (no_chunks E) s = slow E b s.
Proof.
  intros Hb. unfold interp_iter. simpl. rewrite Hb.
  pose proof (lookup_lt_Some _ _ _ Hb). rewrite !lookup_replicate_2 by done.
  by rewrite (proj2 (Z.ltb_ge _ _)) by lia.
Qed.

(** How many iterations a run from [s] can take. *)
Definition fuel_bound (CodeSize : nat) (s : hstate HS) : nat :=
  Z.to_nat (fgas (fr s)) * (CodeSize + 1) + (CodeSize - Pc (fr s)).

Lemma step_fuel E s s' b :
  at_iter E s -> (Pc (fr s) < length (eCode E))%nat -> step_out E s b (LContinue s') ->
  (fuel_bound (length (eCode E)) s' < fuel_bound (length (eCode E)) s)%nat.
Proof.
  intros Hi Hlt (Hi' & Hf & Hcase). pose proof (opcodeLen_pos b).
  pose proof (wf_gas _ (proj1 (iter_wf _ _ Hi'))). pose proof (keep_gas _ _ Hf) as Hg.
  change (fgas (fr (at_pc s s'))) with (fgas (fr s')) in Hg.
  unfold fuel_bound. destruct Hcase as [Hpc|[Hlt' _]].
  - assert (Z.to_nat (fgas (fr s')) <= Z.to_nat (fgas (fr s)))%nat as Hle by lia.
    apply (Nat.mul_le_mono_r _ _ (length (eCode E) + 1)) in Hle. lia.
  - assert (Z.to_nat (fgas (fr s')) + 1 <= Z.to_nat (fgas (fr s)))%nat as Hle by lia.
    apply (Nat.mul_le_mono_r _ _ (length (eCode E) + 1)) in Hle. lia.
Qed.

(** The end of the loop: a return, or the code's end reached. *)
Definition loop_end (E : interp_env) (s : hstate HS) (o : loop_out HS) : Prop :=
  match o with
  | LBreak (Some f) c =>
      at_iter E (mkH f c) /\ follows s (mkH f c) /\ (length (eCode E) <= Pc f)%nat
  | LReturn c => failed s c \/ ended s c
  | _ => False
  end.

Lemma loop_end_follows E s s' o : follows s s' -> loop_end E s' o -> loop_end E s o.
Proof.
  intros Hf. destruct o as [|[f|] c|c| | |]; simpl; try done.
  - intros (? & ? & ?). split_and!; [done|by eapply follows_trans|done].
  - intros [|]; [left; by eapply follows_failed|right; by eapply follows_ended].
Qed.

Lemma ref_loop_end R E fuel s :
  env_ok E -> at_iter E s -> (fuel_bound (length (eCode E)) s <= fuel)%nat ->
  loop_end E s (interp_loop fuel R (no_chunks E) s).
Proof.
  intros HE. revert s. induction fuel as [|fuel IH]; intros s Hi Hfuel; simpl;
    destruct (Nat.leb_spec (length (eCode E)) (Pc (fr s))) as [Hge|Hlt].
  - split_and!; [by destruct s|destruct s; apply follows_refl|done].
  - unfold fuel_bound in Hfuel. lia.
  - split_and!; [by destruct s|destruct s; apply follows_refl|done].
  - destruct (lookup_lt_is_Some_2 (eCode E) (Pc (fr s))) as [b Hb]; [done|].
    rewrite (ref_iter R E s b Hb). pose proof (slow_step_out E s b HE Hi Hlt) as Hs.
    destruct (slow E b s) as [s'| | | | |] eqn:Es; try done.
    pose proof (step_fuel E s s' b Hi Hlt Hs). destruct Hs as (Hi' & Hf & _).
    apply (loop_end_follows E s s'); [done|]. apply IH; [done|lia].
Qed.

(** More fuel does not change the outcome. *)
Lemma interp_loop_mono R E fuel fuel' s :
  (fuel <= fuel')%nat -> interp_loop fuel R E s <> LFuel ->
  interp_loop fuel' R E s = interp_loop fuel R E s.
Proof.
  revert fuel' s. induction fuel as [|fuel IH]; intros fuel' s Hle Hn; destruct fuel' as [|fuel'];
    simpl in *; try lia; try done; destruct (_ <=? _)%nat; try done.
  destruct (interp_iter R E s) eqn:Ei; try done. apply IH; [lia|done].
Qed.

(** The implicit STOP at the end of the code. *)
Lemma epilogue_ended E s : at_iter E s -> ended s (epilogue (Some (fr s)) (cx s)).
Proof.
  intros [[Hf Hc] _ Hst]. pose proof (wf_gas _ Hf) as Hg. unfold epilogue, freeBackFrame.
  destruct s as [f c]. simpl in *. rewrite (wf_below _ Hc). simpl. rewrite Hst.
  split; simpl; auto.
  - rewrite u64_small, i64_small by lia. lia.
  - unfold setGas. simpl. rewrite u64_small, i64_small by lia. done.
  - constructor; [by apply wf_frame_object in Hf|done].
Qed.
End Ref.

(** Gas as a resource: what an instruction does with more gas.

    [gm m]: run with [d] more units of gas, [m] does the same and ends with
    [d] more; where it ran out of gas it may now go on, but then ends with
    less than [d].  Every instruction that does not look at the gas counter
    has this property; the instructions that do end a gas chunk. *)

Section Shift.
Context {HS : Type}.
Implicit Types (s : hstate HS).

Definition addgas (d : Z) (s : hstate HS) : hstate HS :=
  on_fr (fun f => set_fgas (fgas f + d) f) s.

Definition failing (s : hstate HS) : Prop := is_success (Status (cx s)) = false.

(** The outcome of a run that has less than [d] left, or has failed. *)
Definition short (d : Z) {A} (o : out ErrorCode (hstate HS) A) : Prop :=
  match o with
  | Ret _ s => 0 <= fgas (fr s) < d
  | Exit s => failing s \/ fgas (fr s) < d
  | Throw _ _ | Undef => True
  end.

Definition gm {A} (m : HM HS A) : Prop :=
  forall s d, 0 <= d -> 0 <= fgas (fr s) -> fgas (fr s) + d < 2 ^ 63 ->
  match m s with
  | Ret a s1 => 0 <= fgas (fr s1) <= fgas (fr s) /\ m (addgas d s) = Ret a (addgas d s1)
  | Exit s1 =>
      0 <= fgas (fr s1) <= fgas (fr s) /\
      (m (addgas d s) = Exit (addgas d s1) \/ failing s1 /\ short d (m (addgas d s)))
  | Throw _ _ | Undef => True
  end.

(** The same for a charge that reports failure with [false]. *)
Definition bgm (m : HM HS bool) : Prop :=
  forall s d, 0 <= d -> 0 <= fgas (fr s) -> fgas (fr s) + d < 2 ^ 63 ->
  match m s with
  | Ret true s1 => 0 <= fgas (fr s1) <= fgas (fr s) /\ m (addgas d s) = Ret true (addgas d s1)
  | Ret false s1 =>
      0 <= fgas (fr s1) <= fgas (fr s) /\
      match m (addgas d s) with
      | Ret true s2 => 0 <= fgas (fr s2) < d
      | Ret false _ => True
      | _ => False
      end
  | _ => False
  end.

Lemma addgas_gas d s : fgas (fr (addgas d s)) = fgas (fr s) + d.
Proof. done. Qed.
Lemma addgas_0 s : addgas 0 s = s.
Proof.
  destruct s as [[] c]. unfold addgas, on_fr, set_fgas, set_Msg, set_gas, fgas. simpl.
  rewrite Z.add_0_r. by destruct Msg.
Qed.
Lemma addgas_add d d' s : addgas d (addgas d' s) = addgas (d' + d) s.
Proof. unfold addgas, on_fr, set_fgas, fgas. simpl. by rewrite Z.add_assoc. Qed.

(** *** Closure properties *)

Lemma gm_ret {A} (a : A) : gm (ret a).
Proof. intros s d ? ? ?. simpl. split; [lia|done]. Qed.
Lemma gm_exit {A} : gm (@exit _ _ A).
Proof. intros s d ? ? ?. simpl. split; [lia|by left]. Qed.
Lemma gm_throw {A} e : gm (@throw _ _ A e).
Proof. done. Qed.
Lemma gm_undef {A} : gm (@undef _ _ A).
Proof. done. Qed.
Lemma gm_option {A} (o : option A) : gm (of_option o).
Proof. destruct o; [apply gm_ret|apply gm_undef]. Qed.
Lemma gm_gets {A} (f : hstate HS -> A) : (forall s d, f (addgas d s) = f s) -> gm (gets f).
Proof. intros Hf s d ? ? ?. unfold gets. split; [lia|]. by rewrite Hf. Qed.
Lemma gm_modify (f : hstate HS -> hstate HS) :
  (forall s d, f (addgas d s) = addgas d (f s)) -> (forall s, fgas (fr (f s)) = fgas (fr s)) ->
  gm (modify f).
Proof. intros Hf Hg s d ? ? ?. unfold modify. rewrite Hg, Hf. split; [lia|done]. Qed.
Lemma gm_if {A} (b : bool) (m m' : HM HS A) : gm m -> gm m' -> gm (if b then m else m').
Proof. by destruct b. Qed.

(** A run that is short stays short. *)
Lemma short_bind d {A B} (o : out ErrorCode (hstate HS) A) (k : A -> HM HS B) :
  0 <= d < 2 ^ 63 -> (forall a, gm (k a)) -> short d o ->
  short d match o with
          | Ret a s' => k a s' | Exit s' => Exit s' | Throw e s' => Throw e s' | Undef => Undef
          end.
Proof.
  intros Hd Hk Ho. destruct o as [a s|s| |]; try done. simpl in Ho.
  specialize (Hk a s 0 ltac:(lia) ltac:(lia) ltac:(lia)).
  destruct (k a s); simpl; try done; destruct Hk as [? _]; [lia|right; lia].
Qed.

Lemma gm_bind {A B} (m : HM HS A) (k : A -> HM HS B) :
  gm m -> (forall a, gm (k a)) -> gm (bind m k).
Proof.
  intros Hm Hk s d Hd H0 H1. unfold bind. specialize (Hm s d Hd H0 H1).
  destruct (m s) as [a s1|s1| |] eqn:Em; try done.
  - destruct Hm as [Hg ->]. specialize (Hk a s1 d Hd ltac:(lia) ltac:(lia)).
    destruct (k a s1); try done; (split; [lia|apply Hk]).
  - destruct Hm as [Hg [->|[Hf Hs]]]; (split; [lia|]); [by left|right].
    split; [done|]. apply short_bind; [lia|done|done].
Qed.

Lemma gm_orStatus m st : bgm m -> is_success st = false -> gm (orStatus m st).
Proof.
  intros Hm Hst s d Hd H0 H1. unfold orStatus, bind. specialize (Hm s d Hd H0 H1).
  destruct (m s) as [[] s1|s1| |] eqn:Em; try done.
  - destruct Hm as [Hg ->]. simpl. split; [lia|done].
  - destruct Hm as [Hg Hs]. simpl. split; [done|]. right. split; [done|].
    destruct (m (addgas d s)) as [[] s2|s2| |]; try done. by left.
Qed.

Lemma gm_failWith {A} st : gm (setStatus st ;;; @exit _ _ A).
Proof. apply gm_bind; [by apply gm_modify|intros; apply gm_exit]. Qed.

(** *** Charges *)

Lemma bgm_ret b : bgm (ret b).
Proof. intros s d ? ? ?. destruct b; simpl; (split; [lia|done]). Qed.

Lemma bgm_if (b : bool) m m' : bgm m -> bgm m' -> bgm (if b then m else m').
Proof. by destruct b. Qed.

Lemma fgas_set g f : fgas (set_fgas g f) = g.
Proof. done. Qed.
Lemma set_fgas_twice g g' f : set_fgas g (set_fgas g' f) = set_fgas g f.
Proof. done. Qed.

Lemma bgm_chargeGas c : 0 <= c -> bgm (chargeGas c).
Proof.
  intros Hc s d Hd H0 H1. unfold chargeGas, bind, getFrame, gets. rewrite addgas_gas.
  rewrite !u64_small by lia.
  destruct (Z.ltb_spec (fgas (fr s)) c) as [Hlt|Hge].
  - split; [lia|]. destruct (Z.ltb_spec (fgas (fr s) + d) c); [done|].
    unfold modFrame, modify, ret, on_fr. cbn [fr]. rewrite fgas_set, i64_small by lia. lia.
  - rewrite (proj2 (Z.ltb_ge _ _)) by lia. unfold modFrame, modify, ret, on_fr, addgas, on_fr.
    cbn [fr cx]. rewrite !i64_small, !fgas_set, !set_fgas_twice by lia. split; [lia|].
    do 3 f_equal. lia.
Qed.

Lemma gm_chargeSigned c : 0 <= c -> gm (chargeSigned c).
Proof.
  intros Hc s d Hd H0 H1. unfold chargeSigned, bind, getFrame, gets. rewrite addgas_gas.
  destruct (Z.ltb_spec (fgas (fr s)) c) as [Hlt|Hge].
  - split; [simpl; lia|]. right. split; [done|].
    destruct (Z.ltb_spec (fgas (fr s) + d) c); [by left|].
    unfold modFrame, modify, on_fr. cbn [fr short]. rewrite fgas_set, i64_small by lia. lia.
  - rewrite (proj2 (Z.ltb_ge _ _)) by lia. unfold modFrame, modify, on_fr, addgas, on_fr.
    cbn [fr cx]. rewrite !i64_small, !fgas_set, !set_fgas_twice by lia. split; [lia|].
    do 3 f_equal. lia.
Qed.

Lemma cost_range a b : 0 <= calculateMemoryExpansionCost a b.
Proof. unfold calculateMemoryExpansionCost. case_match; [lia|]. apply u64_range. Qed.

(** Memory expansion: a charge, then a resize that does not touch the gas. *)
Lemma bgm_expandMemory n : bgm (expandMemoryAndChargeGas n).
Proof.
  intros s d Hd H0 H1. unfold expandMemoryAndChargeGas.
  destruct (_ <? n); [split; [lia|done]|]. rewrite !bind_getFrame. cbv zeta.
  change (Memory (fr (addgas d s))) with (Memory (fr s)).
  set (ml := Z.of_nat (length (Memory (fr s)))). set (rs := u64 (n + 31) / 32 * 32).
  pose proof (bgm_chargeGas _ (cost_range ml rs) s d Hd H0 H1) as Hch. unfold bind.
  destruct (chargeGas _ s) as [[] s1|s1| |] eqn:Ec; try done; simpl negb; cbv iota.
  - destruct Hch as [Hg ->]. simpl negb. cbv iota. destruct (ml <? rs); (split; [done|done]).
  - destruct Hch as [Hg Hs]. split; [done|].
    destruct (chargeGas _ (addgas d s)) as [[] s2|s2| |]; try done; simpl negb; cbv iota.
    destruct (ml <? rs); done.
Qed.

Lemma bgm_checkMemory64 off n : bgm (checkMemoryExpandAndChargeGas64 off n).
Proof.
  unfold checkMemoryExpandAndChargeGas64. do 2 (apply bgm_if; [apply bgm_ret|]).
  apply bgm_expandMemory.
Qed.
Lemma bgm_checkMemory off n : bgm (checkMemoryExpandAndChargeGas off n).
Proof.
  unfold checkMemoryExpandAndChargeGas. do 2 (apply bgm_if; [apply bgm_ret|]).
  apply bgm_checkMemory64.
Qed.
Lemma bgm_copyCode n : bgm (copyCodeAndChargeGas n).
Proof. apply bgm_chargeGas, u64_range. Qed.
End Shift.

(** Applies the closure property of the statement at hand; the reads and
    updates that do not concern the gas commute with [addgas] by computation. *)
Ltac gm_step :=
  lazymatch goal with
  | |- gm (setStatus _ ;;; exit) => apply gm_failWith
  | |- gm (bind _ _) => apply gm_bind; [|intros ?]
  | |- gm (ret _) => apply gm_ret
  | |- gm exit => apply gm_exit
  | |- gm (throw _) => apply gm_throw
  | |- gm undef => apply gm_undef
  | |- gm (of_option _) => apply gm_option
  | |- gm (if _ then _ else _) => apply gm_if
  | |- gm (orStatus _ _) => apply gm_orStatus; [|reflexivity]
  | |- gm (chargeSigned _) => apply gm_chargeSigned; done
  | |- bgm (chargeGas (u64 _)) => apply bgm_chargeGas, u64_range
  | |- bgm (chargeGas _) => apply bgm_chargeGas; done
  | |- bgm (copyCodeAndChargeGas _) => apply bgm_copyCode
  | |- bgm (checkMemoryExpandAndChargeGas64 _ _) => apply bgm_checkMemory64
  | |- bgm (checkMemoryExpandAndChargeGas _ _) => apply bgm_checkMemory
  | |- gm (gets _) => apply gm_gets; done
  | |- gm (modify _) => apply gm_modify; done
  | |- gm (let _ := _ in _) => cbv zeta
  | |- gm (getFrame _) => unfold getFrame
  | |- gm (getCtx _) => unfold getCtx
  | |- gm (modFrame _) => unfold modFrame
  | |- gm (modCtx _) => unfold modCtx
  | |- gm (setStatus _) => unfold setStatus
  | |- gm (hostRead _) => unfold hostRead
  | |- gm currentRevision => unfold currentRevision
  | |- gm isStaticMode => unfold isStaticMode
  | |- gm (stack_at _) => unfold stack_at
  | |- gm (stack_set _ _) => unfold stack_set
  | |- gm pop => unfold pop
  | |- gm (push _) => unfold push
  | |- gm getTxContext => unfold getTxContext
  | |- gm (pushValue _) => unfold pushValue
  | |- gm (EVM_STACK_CHECK _) => unfold EVM_STACK_CHECK
  | |- gm (EVM_REQUIRE_STACK_SPACE _) => unfold EVM_REQUIRE_STACK_SPACE
  | |- gm (EVM_SET_EXCEPTION_UNLESS _ _) => unfold EVM_SET_EXCEPTION_UNLESS
  | |- gm (mem_read _ _) => unfold mem_read
  | |- gm (mem_write _ _) => unfold mem_write
  | |- gm (buf_read _ _ _) => unfold buf_read
  | |- gm (UnaryOpHandler _) => unfold UnaryOpHandler
  | |- gm (BinaryOpHandler _) => unfold BinaryOpHandler
  | |- gm (TernaryOpHandler _) => unfold TernaryOpHandler
  | |- gm (coldAccount _ _) => unfold coldAccount
  | |- gm (coldStorage _ _ _) => unfold coldStorage
  | |- gm (hostDo _) => unfold hostDo
  | |- gm (let '(_, _) := ?x in _) => destruct x
  end.
Ltac gm_solve := repeat (cbv beta; gm_step).

Section Handlers.
Context {HS : Type} {I : Intx} {H : EvmcHost HS} {V : Evmc}.

Lemma gm_popTopics n : gm (HS := HS) (popTopics n).
Proof. induction n; simpl; gm_solve. apply IHn. Qed.

Lemma gm_Log b : gm (Log_doExecute b).
Proof. unfold Log_doExecute. gm_solve. apply gm_popTopics. Qed.

(** The gas counter is read by GAS and SSTORE among the handler opcodes. *)
Lemma gm_handler op m :
  chunk_handler op = Some m -> op <> OP_GAS -> op <> OP_SSTORE -> gm m.
Proof.
  intros Hm Hg Hs.
  destruct op; cbv [chunk_handler chunk_arith chunk_env chunk_memory] in Hm; try discriminate;
    match type of Hm with Some ?x = Some ?m => assert (m = x) as -> by congruence end;
    try apply gm_Log; try done;
    match goal with |- gm (doExecute ?h) =>
      let h' := eval hnf in h in change (gm (doExecute h')); cbn [doExecute] end;
    try (solve [gm_solve]).
  all: unfold SignExtend_doExecute, Byte_doExecute, Sar_doExecute, Exp_doExecute,
    Keccak256_doExecute, Balance_doExecute, CallDataLoad_doExecute, CallDataCopy_doExecute,
    CodeCopy_doExecute, ExtCodeSize_doExecute, ExtCodeCopy_doExecute, ReturnDataCopy_doExecute,
    ExtCodeHash_doExecute, BlockHash_doExecute, BlobHash_doExecute, SLoad_doExecute,
    TLoad_doExecute, TStore_doExecute, MStore_doExecute, MStore8_doExecute, MLoad_doExecute,
    MCopy_doExecute; solve [gm_solve].
Qed.

Lemma gm_classify PushMap b m :
  classify (HS := HS) PushMap b = COrd m -> isGasChunkTerminator b = false -> gm m.
Proof.
  unfold classify, isGasChunkTerminator. intros Hc Ht.
  destruct (opcode_of_byte b) eqn:Eb; try discriminate;
    try match type of Hc with context [chunk_handler ?op] =>
      destruct (chunk_handler op) eqn:Eh; [|discriminate]; injection Hc as <-;
      by apply (gm_handler op) end;
    repeat case_match; try discriminate; injection Hc as <-;
    unfold executePopOpcodeNoGas, executePush0OpcodeNoGas, executePushNOpcodeNoGas,
      executeDupOpcodeNoGas, executeSwapOpcodeNoGas; gm_solve.
Qed.
End Handlers.
