(* ===== verification/ChunkSound.v ===== *)
(** Gas chunks are unobservable.

    A chunk charges the base gas of a straight-line stretch of code at once
    and then runs its instructions without a charge.  Against the reference
    interpreter, which charges each instruction, a chunk run does the same
    when it succeeds; when it fails, so does the reference, and an
    exceptional failure looks the same whatever its cause. *)

From S2P Require Import Prelude Intx Evmc GasStorageCost EvmInstance Frame HandlerUtil.
From S2P Require Import HandlersArith HandlersEnv HandlersCall BytecodeCache Interpreter Dispatch.
From S2P Require Import WellFormed HandlerSafety RefInterp.

(** * Chunks *)

Section Chunks.
Context (Code : list Z) (MT : metrics).

(** The instructions from [pc] up to [e] are straight-line code, the last
    one excepted, and their base costs add up to [c]. *)
Inductive chunk_from : nat -> nat -> Z -> Prop :=
| chunk_last pc b : Code !! pc = Some b -> chunk_from pc (pc + opcodeLen b) (MT b)
| chunk_cons pc b e c :
    Code !! pc = Some b -> isGasChunkTerminator b = false ->
    chunk_from (pc + opcodeLen b) e c -> chunk_from pc e (MT b + c).

Lemma chunk_from_lt pc e c : chunk_from pc e c -> (pc < e)%nat.
Proof.
  induction 1 as [pc b|pc b e c _ _ _ IH]; pose proof (opcodeLen_pos b); lia.
Qed.

(** The chunk entries of a cache describe such stretches. *)
Definition chunk_cache_ok (Cache : EVMBytecodeCache) : Prop :=
  length (GasChunkEnd Cache) = length Code /\ length (GasChunkCost Cache) = length Code /\
  forall pc e C, GasChunkEnd Cache !! pc = Some e -> GasChunkCost Cache !! pc = Some C ->
    Z.of_nat pc < e ->
    0 <= e < 2 ^ 32 /\ exists c, C = u64 c /\ chunk_from pc (Z.to_nat e) c.

Context (Names : Z -> bool).

(** All instructions of the stretch are defined, or an undefined one is on
    the way. *)
Inductive all_def : nat -> nat -> Prop :=
| all_last pc b : Code !! pc = Some b -> Names b = true -> all_def pc (pc + opcodeLen b)
| all_cons pc b e :
    Code !! pc = Some b -> Names b = true -> all_def (pc + opcodeLen b) e -> all_def pc e.

Inductive some_undef : nat -> nat -> Prop :=
| undef_here pc e b : Code !! pc = Some b -> (pc < e)%nat -> Names b = false -> some_undef pc e
| undef_next pc e b :
    Code !! pc = Some b -> isGasChunkTerminator b = false ->
    some_undef (pc + opcodeLen b) e -> some_undef pc e.

Lemma chunk_def_cases pc e c : chunk_from pc e c -> all_def pc e \/ some_undef pc e.
Proof.
  induction 1 as [pc b Hb|pc b e c Hb Ht Hc IH]; destruct (Names b) eqn:Hn.
  - left. by apply all_last.
  - right. apply (undef_here _ _ b); [done| |done]. pose proof (opcodeLen_pos b). lia.
  - destruct IH; [left; by eapply all_cons|right; by eapply undef_next].
  - right. apply (undef_here _ _ b); [done| |done]. apply chunk_from_lt in Hc.
    pose proof (opcodeLen_pos b). lia.
Qed.

Lemma all_def_here pc e b : all_def pc e -> Code !! pc = Some b -> Names b = true.
Proof. by destruct 1; intros; simplify_eq. Qed.
Lemma all_def_next pc e b :
  all_def pc e -> Code !! pc = Some b -> (pc + opcodeLen b < e)%nat ->
  all_def (pc + opcodeLen b) e.
Proof. destruct 1; intros; simplify_eq; [lia|done]. Qed.

Lemma some_undef_lt pc e : some_undef pc e -> (pc < e)%nat.
Proof.
  induction 1 as [|pc e b _ _ _ IH]; [done|]. pose proof (opcodeLen_pos b). lia.
Qed.
End Chunks.

Section Sound.
Context {HS : Type} {I : Intx} {H : EvmcHost HS} {V : Evmc}.
Context {IL : IntxLaws I} {HL : HostLaws HS H} {VL : EvmcLaws V}.
Implicit Types (s : hstate HS).

(** * Runs of the reference interpreter *)

Inductive ref_steps (E : interp_env) : hstate HS -> hstate HS -> Prop :=
| ref_one s b s' :
    eCode E !! Pc (fr s) = Some b -> slow E b s = LContinue s' -> ref_steps E s s'
| ref_more s b s1 s' :
    eCode E !! Pc (fr s) = Some b -> slow E b s = LContinue s1 -> ref_steps E s1 s' ->
    ref_steps E s s'.

Inductive ref_run (E : interp_env) : hstate HS -> loop_out HS -> Prop :=
| run_end s :
    (length (eCode E) <= Pc (fr s))%nat -> ref_run E s (LBreak (Some (fr s)) (cx s))
| run_stop s b c :
    eCode E !! Pc (fr s) = Some b -> slow E b s = LReturn c -> ref_run E s (LReturn c)
| run_step s b s' o :
    eCode E !! Pc (fr s) = Some b -> slow E b s = LContinue s' -> ref_run E s' o ->
    ref_run E s o.

Lemma ref_steps_run E s s' o : ref_steps E s s' -> ref_run E s' o -> ref_run E s o.
Proof. induction 1; intros; eapply run_step; eauto. Qed.

Lemma ref_steps_post E s s' :
  env_ok E -> at_iter E s -> ref_steps E s s' ->
  at_iter E s' /\ follows s s' /\
  (fuel_bound (length (eCode E)) s' < fuel_bound (length (eCode E)) s)%nat.
Proof.
  intros HE Hi Hs. induction Hs as [s b s' Hb Hs|s b s1 s' Hb Hs Hss IH].
  - pose proof (lookup_lt_Some _ _ _ Hb) as Hlt.
    pose proof (slow_step_out E s b HE Hi Hlt) as Ho. rewrite Hs in Ho.
    pose proof (step_fuel E s s' b Hi Hlt Ho). by destruct Ho as (? & ? & _).
  - pose proof (lookup_lt_Some _ _ _ Hb) as Hlt.
    pose proof (slow_step_out E s b HE Hi Hlt) as Ho. rewrite Hs in Ho.
    pose proof (step_fuel E s s1 b Hi Hlt Ho). destruct Ho as (Hi1 & Hf1 & _).
    destruct (IH Hi1) as (? & ? & ?). split_and!; [done|by eapply follows_trans|lia].
Qed.

(** [ref_run] is what the loop without chunks computes. *)
Lemma ref_run_loop R E s o :
  ref_run E s o -> exists fuel, interp_loop fuel R (no_chunks E) s = o /\ o <> LFuel.
Proof.
  induction 1 as [s Hge|s b c Hb Hs|s b s' o Hb Hs _ [fuel [IH Hn]]].
  - exists 0%nat. simpl. by rewrite (proj2 (Nat.leb_le _ _)).
  - exists 1%nat. simpl. pose proof (lookup_lt_Some _ _ _ Hb) as Hlt.
    rewrite (proj2 (Nat.leb_gt _ _)) by done. by rewrite (ref_iter R E s b Hb), Hs.
  - exists (S fuel). simpl. pose proof (lookup_lt_Some _ _ _ Hb) as Hlt.
    rewrite (proj2 (Nat.leb_gt _ _)) by done. by rewrite (ref_iter R E s b Hb), Hs.
Qed.

(** A run from [s] that ends in an exceptional failure. *)
Definition ref_fails (E : interp_env) (s : hstate HS) : Prop :=
  exists c, ref_run E s (LReturn c) /\ failed s c.

Lemma ref_fails_now E s b c :
  eCode E !! Pc (fr s) = Some b -> slow E b s = LReturn c -> failed s c -> ref_fails E s.
Proof. intros. exists c. split; [by eapply run_stop|done]. Qed.

Lemma ref_fails_step E s b s' :
  eCode E !! Pc (fr s) = Some b -> slow E b s = LContinue s' -> follows s s' ->
  ref_fails E s' -> ref_fails E s.
Proof.
  intros Hb Hs Hf (c & Hr & Hc). exists c. split; [by eapply run_step|].
  by eapply follows_failed.
Qed.

(** * Ordinary instructions, charged and uncharged *)

(** An ordinary instruction goes on to the next one or fails. *)
Lemma ord_cases E s s1 b m :
  env_ok E -> at_iter E s -> (Pc (fr s) < length (eCode E))%nat ->
  classify (PushValueMap (eCache E)) b = COrd m ->
  wf s1 -> follows s s1 -> Pc (fr s1) = Pc (fr s) ->
  (exists s', afterOp (m s1) = LContinue s' /\ at_iter E s' /\ follows s1 s' /\
     Pc (fr s') = (Pc (fr s) + opcodeLen b)%nat) \/
  (exists c, afterOp (m s1) = LReturn c /\ failed s c).
Proof.
  intros HE Hi Hlt Hc Hw1 Hf1 Hpc1.
  assert (ModCode (Inst (cx s1)) = eCode E) as Hcode
    by (rewrite (follows_code _ _ Hf1); apply Hi).
  pose proof (ord_ok (PushValueMap (eCache E)) b m s1 Hc) as Ho.
  assert (ord_out s1 (opcodeLen b - 1) (m s1)) as HO.
  { apply Ho; [split; [done|by rewrite Hcode, Hpc1]|rewrite Hcode; apply HE|apply HE]. }
  pose proof (opcodeLen_pos b).
  assert (exists s', ord_post s1 (opcodeLen b - 1) s' /\ afterOp (m s1) = afterOp (Exit s'))
    as (s' & [Hw' Hk' Hp'] & ->).
  { destruct (m s1) as [[] s'|s'| |]; try done; by exists s'. }
  unfold afterOp. destruct (is_success (Status (cx s'))) eqn:Est.
  - left. eexists. split; [done|]. specialize (Hp' eq_refl). split_and!; [| |simpl; lia].
    + split; [by apply (wf_set_Pc s')| |by apply is_success_true].
      etransitivity; [by apply (follows_code s1 s')|done].
    + eapply follows_trans; [done|]. apply (follows_set_Pc s').
  - right. apply onError_failed; [done|by eapply follows_trans|done].
Qed.

Lemma slow_defined E b s :
  eNames E b = true ->
  slow E b s = switch_step (length (eCode E)) (eMetrics E) (JumpDestMap (eCache E))
                 (PushValueMap (eCache E)) b s.
Proof. intros Hn. unfold slow, slow_step. by rewrite Hn. Qed.

Lemma slow_undefined E b s :
  eNames E b = false -> slow E b s = failWith EVMC_UNDEFINED_INSTRUCTION s.
Proof. intros Hn. unfold slow, slow_step. by rewrite Hn. Qed.

(** With gas to spare, the charge of the reference is paid from it. *)
Lemma charged_addgas cost d {A} (m : HM HS A) s :
  0 <= cost < 2 ^ 63 -> 0 <= d -> 0 <= fgas (fr s) -> fgas (fr s) + (cost + d) < 2 ^ 63 ->
  charged cost m (addgas (cost + d) s) = m (addgas d s).
Proof.
  intros Hc Hd H0 H1. unfold charged. rewrite addgas_gas, !u64_small by lia.
  rewrite (proj2 (Z.ltb_ge _ _)), i64_small by lia. f_equal.
  unfold addgas, on_fr. cbn [fr cx]. rewrite set_fgas_twice. do 2 f_equal. lia.
Qed.

Lemma wf_addgas s d : wf s -> 0 <= d -> fgas (fr s) + d < 2 ^ 63 -> wf (addgas d s).
Proof.
  intros Hw Hd Hlt. pose proof (wf_gas _ (proj1 Hw)).
  apply (wf_set_fgas s (fgas (fr s) + d)); [done|lia].
Qed.
Lemma at_iter_addgas E s d :
  at_iter E s -> 0 <= d -> fgas (fr s) + d < 2 ^ 63 -> at_iter E (addgas d s).
Proof. intros [] ? ?. split; [by apply wf_addgas|done..]. Qed.
Lemma failed_addgas s c d : failed s c -> failed (addgas d s) c.
Proof. by intros []; split. Qed.

Lemma chunk_after_afterOp (o : out ErrorCode (hstate HS) unit) :
  chunk_after o = match afterOp o with LContinue s => KNext s | o' => KEnd o' end.
Proof.
  destruct o as [[] s|s| |]; simpl; try done; destruct (is_success (Status (cx s))) eqn:Es; try done;
    unfold onError; destruct (handleExecutionStatus s) as [[[] cur] c]; done.
Qed.

Lemma nonterm_class PushMap b :
  isGasChunkTerminator b = false ->
  (exists m, classify (HS := HS) PushMap b = COrd m) \/ classify (HS := HS) PushMap b = CFail.
Proof.
  unfold isGasChunkTerminator, classify. intros Ht.
  destruct (opcode_of_byte b); try discriminate; repeat case_match; eauto.
Qed.

(** * Short of gas *)

Lemma oog_fails E s b :
  env_ok E -> at_iter E s -> eCode E !! Pc (fr s) = Some b -> eNames E b = true ->
  fgas (fr s) < eMetrics E b -> ref_fails E s.
Proof.
  intros HE Hi Hb Hn Hlt. pose proof (iter_wf _ _ Hi) as Hw.
  pose proof (wf_gas _ (proj1 Hw)). pose proof (gas_cost_range E b HE Hn) as Hcost.
  destruct (failWith_failed s EVMC_OUT_OF_GAS) as (c & Hc & Hf); [done|done|].
  destruct (failWith_failed s EVMC_INVALID_INSTRUCTION) as (c' & Hc' & Hf'); [done|done|].
  pose proof (slow_defined E b s Hn) as Hs. rewrite (switch_step_spec (eCode E)) in Hs.
  assert (forall A (m : HM HS A), charged (eMetrics E b) m s =
    Exit (on_cx (set_Status EVMC_OUT_OF_GAS) s)) as Hch.
  { intros A m. destruct (charged_cases (eMetrics E b) m s Hw Hcost) as [[_ ->]|[]]; [done|lia]. }
  destruct (classify _ b) as [m| | | |st op m|] eqn:Ec; unfold doExecute_term in Hs;
    rewrite ?Hch in Hs.
  1-3, 5: by apply (ref_fails_now E s b c Hb); [rewrite Hs; apply Hc|].
  - unfold classify in Ec. pose proof (gas_cost_stop _ _ (env_metrics E HE)) as Hz.
    pose proof (opcode_of_byte_inv b) as Hbb.
    destruct (opcode_of_byte b); try discriminate; try (by repeat case_match).
    rewrite <- Hbb in Hlt by done. simpl in Hlt. lia.
  - apply (ref_fails_now E s b c' Hb); [by rewrite Hs|done].
Qed.

(** A run inside a chunk that cannot pay for the rest of it fails. *)
Lemma doomed E pc e c s :
  env_ok E -> chunk_from (eCode E) (eMetrics E) pc e c -> all_def (eCode E) (eNames E) pc e ->
  at_iter E s -> Pc (fr s) = pc -> fgas (fr s) < c -> ref_fails E s.
Proof.
  intros HE Hch. revert s. induction Hch as [pc b Hb|pc b e c Hb Ht Hch IH];
    intros s Hd Hi <- Hlt.
  - eapply oog_fails; try done. by eapply all_def_here.
  - pose proof (all_def_here _ _ _ _ _ Hd Hb) as Hn.
    pose proof (all_def_next _ _ _ _ _ Hd Hb (chunk_from_lt _ _ _ _ _ Hch)) as Hd'.
    pose proof (lookup_lt_Some _ _ _ Hb) as Hltpc. pose proof (iter_wf _ _ Hi) as Hw.
    pose proof (wf_gas _ (proj1 Hw)). pose proof (gas_cost_range E b HE Hn) as Hcost.
    destruct (Z.lt_ge_cases (fgas (fr s)) (eMetrics E b)) as [|Hge]; [by eapply oog_fails|].
    pose proof (slow_defined E b s Hn) as Hs. rewrite (switch_step_spec (eCode E)) in Hs.
    destruct (nonterm_class (PushValueMap (eCache E)) b Ht) as [[m Ec]|Ec]; rewrite Ec in Hs.
    + destruct (charged_cases (eMetrics E b) m s Hw Hcost) as [[? _]|[_ Hm]]; [lia|].
      rewrite Hm in Hs.
      destruct (ord_cases E s (on_fr (set_fgas (fgas (fr s) - eMetrics E b)) s) b m)
        as [(s' & Hs' & Hi' & Hf' & Hpc')|(c' & Hc' & Hf')]; try done.
      * apply wf_set_fgas; [done|lia].
      * apply follows_set_fgas. lia.
      * rewrite Hs' in Hs. eapply ref_fails_step; [done|done| |].
        { eapply follows_trans; [|done]. apply follows_set_fgas. lia. }
        apply IH; [done|done|done|]. pose proof (keep_gas _ _ Hf') as Hg.
        change (fgas (fr s') <= fgas (fr s) - eMetrics E b) in Hg. lia.
      * rewrite Hc' in Hs. by eapply ref_fails_now.
    + destruct (failWith_failed s EVMC_INVALID_INSTRUCTION) as (c' & Hc' & Hf'); [done|done|].
      rewrite Hc' in Hs. by eapply ref_fails_now.
Qed.

(** * The portable runner *)

Definition portable (E : interp_env) (fuel : nat) (e : nat) (s : hstate HS) : loop_out HS :=
  chunk_loop (eCode E) (JumpDestMap (eCache E)) (PushValueMap (eCache E)) fuel (eNames E) e s.

(** One turn of the chunk loop on a defined instruction. *)
Lemma portable_turn E fuel e s b :
  (Pc (fr s) < e)%nat -> eCode E !! Pc (fr s) = Some b -> eNames E b = true ->
  portable E (S fuel) e s =
  match chunk_switch (eCode E) (JumpDestMap (eCache E)) (PushValueMap (eCache E)) b s with
  | KNext s' => portable E fuel e s'
  | KEnd o => o
  end.
Proof.
  intros Hlt Hb Hn. unfold portable. cbn [chunk_loop].
  rewrite (proj2 (Nat.leb_gt _ _)), Hb by done. unfold chunk_step. by rewrite Hn.
Qed.

Lemma portable_done E fuel e s : (e <= Pc (fr s))%nat -> portable E fuel e s = LContinue s.
Proof. intros Hle. unfold portable. destruct fuel; simpl; by rewrite (proj2 (Nat.leb_le _ _)). Qed.

(** What a chunk run from [s] (its charge not yet paid) may lead to. *)
Definition chunk_result (E : interp_env) (s : hstate HS) (o : loop_out HS) : Prop :=
  match o with
  | LContinue s' => ref_steps E s s'
  | LReturn c => exists c', ref_run E s (LReturn c') /\ (c = c' \/ failed s c /\ failed s c')
  | LBreak _ _ | LThrow _ | LUndef | LFuel => False
  end.

Lemma chunk_result_fails E s c : failed s c -> ref_fails E s -> chunk_result E s (LReturn c).
Proof. intros Hc (c' & Hr & Hf). exists c'. auto. Qed.

(** An instruction that leaves the reference and the runner in the same
    state, or ends both. *)
Lemma chunk_result_same E s b o :
  env_ok E -> at_iter E s -> eCode E !! Pc (fr s) = Some b -> slow E b s = o ->
  chunk_result E s o.
Proof.
  intros HE Hi Hb <-. pose proof (slow_step_out E s b HE Hi (lookup_lt_Some _ _ _ Hb)) as Ho.
  destruct (slow E b s) as [s'| |c| | |] eqn:Es; try done; simpl.
  - by eapply ref_one.
  - exists c. split; [by eapply run_stop|by left].
Qed.

Lemma portable_jump E fuel e s b o :
  jump_out s (JumpDestMap (eCache E)) o ->
  env_ok E -> at_iter E (addgas (eMetrics E b) s) -> eCode E !! Pc (fr s) = Some b ->
  slow E b (addgas (eMetrics E b) s) = afterJump o ->
  e = (Pc (fr s) + opcodeLen b)%nat -> opcodeLen b = 1%nat ->
  chunk_result E (addgas (eMetrics E b) s)
    match chunk_jump o with KNext s' => portable E fuel e s' | KEnd o' => o' end.
Proof.
  intros Ho HE Hi Hb Hs -> Hlen.
  assert (chunk_result E (addgas (eMetrics E b) s) (afterJump o)) as Hr
    by by eapply chunk_result_same.
  destruct o as [[d|] s'|s'| |]; try done.
  - destruct Ho as (_ & Hk & _). cbn [chunk_jump]. rewrite chunk_after_afterOp.
    cbn [afterJump] in Hr. destruct (afterOp (Exit s')) as [s2| | | | |] eqn:Ea; try done.
    rewrite portable_done; [done|]. unfold afterOp in Ea.
    destruct (is_success _); [|by unfold onError in Ea; repeat case_match].
    injection Ea as <-. simpl. rewrite (keep_pc _ _ Hk). lia.
  - destruct Ho as (_ & Hk & Hst). cbn [chunk_jump]. rewrite chunk_after_afterOp.
    cbn [afterJump] in Hr. destruct (afterOp (Exit s')) as [s2| | | | |] eqn:Ea; try done.
    unfold afterOp in Ea. rewrite Hst in Ea. by unfold onError in Ea; repeat case_match.
Qed.

(** The last instruction of a chunk has paid exactly its own cost. *)
Lemma portable_last E fuel pc b s :
  env_ok E -> eCode E !! pc = Some b -> eNames E b = true ->
  at_iter E s -> Pc (fr s) = pc -> fgas (fr s) + eMetrics E b < 2 ^ 63 ->
  chunk_result E (addgas (eMetrics E b) s) (portable E (S fuel) (pc + opcodeLen b) s).
Proof.
  intros HE Hb Hn Hi <- Hg. pose proof (opcodeLen_pos b). pose proof (iter_wf _ _ Hi) as Hw.
  pose proof (wf_gas _ (proj1 Hw)) as Hg0. pose proof (gas_cost_range E b HE Hn) as Hcost.
  pose proof (lookup_lt_Some _ _ _ Hb) as Hltpc.
  rewrite (portable_turn E fuel _ s b), chunk_switch_spec by (done || lia).
  assert (at_iter E (addgas (eMetrics E b) s)) as Hi' by (apply at_iter_addgas; done || lia).
  pose proof (slow_defined E b (addgas (eMetrics E b) s) Hn) as Hs.
  rewrite (switch_step_spec (eCode E)) in Hs.
  assert (forall A (m : HM HS A), charged (eMetrics E b) m (addgas (eMetrics E b) s) = m s)
    as Hch.
  { intros A m. rewrite <- (Z.add_0_r (eMetrics E b)) at 2.
    rewrite charged_addgas by lia. by rewrite addgas_0. }
  destruct (classify _ b) as [m| | | |st op m|] eqn:Ec; unfold doExecute_term in *;
    rewrite ?Hch in Hs.
  - rewrite chunk_after_afterOp.
    destruct (ord_cases E s s b m HE Hi Hltpc Ec Hw (follows_refl s) eq_refl)
      as [(s' & Hs' & _ & _ & Hpc')|(c' & Hc' & _)].
    + rewrite Hs' in *. rewrite portable_done by lia. by eapply chunk_result_same.
    + rewrite Hc' in *. by eapply chunk_result_same.
  - apply (portable_jump E fuel _ s b _ (jumpOp_out _ _ _ Hw (env_jump_len E HE))); auto.
    eapply classify_jump_len. by left.
  - apply (portable_jump E fuel _ s b _ (jumpiOp_out _ _ _ Hw (env_jump_len E HE))); auto.
    eapply classify_jump_len. by right.
  - eapply chunk_result_same; [done..|]. rewrite Hs, (stop_back stopRestart stopContinue s Hw).
    assert (b = 0) as ->.
    { unfold classify in Ec. pose proof (opcode_of_byte_inv b) as Hbb.
      destruct (opcode_of_byte b); try discriminate; try (by repeat case_match).
      by rewrite <- Hbb. }
    by rewrite (gas_cost_stop _ _ (env_metrics E HE)), addgas_0.
  - pose proof (term_back _ s b st op m Ec Hw) as Hbk. unfold doExecute_term in Hbk.
    rewrite Hbk by (by rewrite (iter_code _ _ Hi)). by eapply chunk_result_same.
  - assert (forall st s', exceptional st -> wf s' -> exists c, failWith st s' = LReturn c /\ failed s' c)
      as Hfw by (intros; by apply failWith_failed).
    destruct (Hfw (if b =? 254 then EVMC_INVALID_INSTRUCTION else EVMC_UNDEFINED_INSTRUCTION) s)
      as (c1 & -> & Hc1); [by destruct (b =? 254)|done|].
    destruct (Hfw EVMC_INVALID_INSTRUCTION (addgas (eMetrics E b) s)) as (c2 & Hc2 & Hf2);
      [done|apply Hi'|].
    apply chunk_result_fails; [by apply failed_addgas|].
    eapply ref_fails_now; [done| |done]. by rewrite Hs.
Qed.

Lemma chunk_result_step E s b s1 o :
  env_ok E -> at_iter E s -> eCode E !! Pc (fr s) = Some b -> slow E b s = LContinue s1 ->
  chunk_result E s1 o -> chunk_result E s o.
Proof.
  intros HE Hi Hb Hs Hr. pose proof (slow_step_out E s b HE Hi (lookup_lt_Some _ _ _ Hb)) as Ho.
  rewrite Hs in Ho. destruct Ho as (_ & Hf & _).
  destruct o as [s'| |c| | |]; try done; simpl in *.
  - by eapply ref_more.
  - destruct Hr as (c' & Hr & Hc). exists c'. split; [by eapply run_step|].
    destruct Hc as [->|[]]; [by left|right]. split; by eapply follows_failed.
Qed.

Lemma afterOp_continue (o : out ErrorCode (hstate HS) unit) s' :
  afterOp o = LContinue s' ->
  exists s2, (o = Ret tt s2 \/ o = Exit s2) /\ is_success (Status (cx s2)) = true /\
    s' = on_fr (fun f => set_Pc (Pc f + 1) f) s2.
Proof.
  destruct o as [[] s2|s2| |]; simpl; try done;
    (destruct (is_success _) eqn:E; [|by unfold onError; repeat case_match]);
    intros [= <-]; exists s2; auto.
Qed.

(** An instruction inside a chunk, on [s] without a charge and on
    [addgas d s] for the reference. *)
Lemma ord_shift E s b m d :
  env_ok E -> at_iter E s -> (Pc (fr s) < length (eCode E))%nat ->
  classify (PushValueMap (eCache E)) b = COrd m -> gm m -> 0 <= d -> fgas (fr s) + d < 2 ^ 63 ->
  (exists s', afterOp (m s) = LContinue s' /\ afterOp (m (addgas d s)) = LContinue (addgas d s')
     /\ at_iter E s' /\ Pc (fr s') = (Pc (fr s) + opcodeLen b)%nat /\ fgas (fr s') <= fgas (fr s))
  \/ (exists c, afterOp (m s) = LReturn c /\ failed s c /\
      ((exists c', afterOp (m (addgas d s)) = LReturn c' /\ failed s c') \/
       exists s', afterOp (m (addgas d s)) = LContinue s' /\ at_iter E s' /\
         Pc (fr s') = (Pc (fr s) + opcodeLen b)%nat /\ fgas (fr s') < d)).
Proof.
  intros HE Hi Hlt Hc Hgm Hd Hg. pose proof (iter_wf _ _ Hi) as Hw.
  pose proof (wf_gas _ (proj1 Hw)) as Hg0.
  destruct (ord_cases E s s b m HE Hi Hlt Hc Hw (follows_refl s) eq_refl)
    as [(s' & Hs' & Hi' & Hf' & Hpc')|(c & Hcc & Hf)].
  - left. exists s'. pose proof (keep_gas _ _ Hf') as Hk. split_and!; try done.
    destruct (afterOp_continue _ _ Hs') as (s2 & Hm & Hst & ->).
    specialize (Hgm s d Hd ltac:(lia) Hg).
    destruct Hm as [Hm|Hm]; rewrite Hm in Hgm.
    + destruct Hgm as [_ ->]. simpl. by rewrite Hst.
    + destruct Hgm as [_ [->|[Hff _]]]; [simpl; by rewrite Hst|].
      unfold failing in Hff. congruence.
  - right. exists c. split_and!; [done|done|].
    destruct (ord_cases E (addgas d s) (addgas d s) b m HE (at_iter_addgas E s d Hi Hd Hg) Hlt Hc
      (wf_addgas s d Hw Hd Hg) (follows_refl _) eq_refl)
      as [(s' & Hs' & Hi' & Hf' & Hpc')|(c' & Hcc' & Hf'')].
    + right. exists s'. split_and!; try done.
      destruct (afterOp_continue _ _ Hs') as (s2 & Hm & Hst & ->).
      specialize (Hgm s d Hd ltac:(lia) Hg).
      change (fgas (fr s2) < d).
      destruct (m s) as [[] s1|s1| |] eqn:Em; try done.
      * destruct Hgm as [_ Hgm]. rewrite Hgm in Hm, Hs'. destruct Hm as [[= <-]|]; [|done].
        simpl in Hcc. change (Status (cx (addgas d s1))) with (Status (cx s1)) in Hst.
        by rewrite Hst in Hcc.
      * destruct Hgm as [_ [Hgm|[Hff Hsh]]].
        -- rewrite Hgm in Hm. destruct Hm as [|[= <-]]; [done|]. simpl in Hcc.
           change (Status (cx (addgas d s1))) with (Status (cx s1)) in Hst.
           by rewrite Hst in Hcc.
        -- destruct Hm as [Hm|Hm]; rewrite Hm in Hsh; simpl in Hsh; [lia|].
           destruct Hsh as [Hx|]; [|done]. unfold failing in Hx. congruence.
    + left. exists c'. split; [done|]. by destruct Hf''; split.
Qed.

Lemma portable_sim E pc e c :
  env_ok E -> chunk_from (eCode E) (eMetrics E) pc e c -> all_def (eCode E) (eNames E) pc e ->
  0 <= c /\
  forall fuel s, at_iter E s -> Pc (fr s) = pc -> fgas (fr s) + c < 2 ^ 63 ->
    (e - pc <= fuel)%nat -> chunk_result E (addgas c s) (portable E fuel e s).
Proof.
  intros HE Hch. induction Hch as [pc b Hb|pc b e c Hb Ht Hch IH]; intros Hd;
    pose proof (all_def_here _ _ _ _ _ Hd Hb) as Hn;
    pose proof (gas_cost_range E b HE Hn) as Hcost; pose proof (opcodeLen_pos b).
  - split; [lia|]. intros [|fuel] s Hi <- Hg Hfuel; [lia|]. by apply portable_last.
  - pose proof (chunk_from_lt _ _ _ _ _ Hch) as Hlt.
    pose proof (all_def_next _ _ _ _ _ Hd Hb Hlt) as Hd'. destruct (IH Hd') as [Hc0 IHs].
    split; [lia|]. intros [|fuel] s Hi <- Hg Hfuel; [lia|].
    pose proof (lookup_lt_Some _ _ _ Hb) as Hltpc. pose proof (iter_wf _ _ Hi) as Hw.
    pose proof (wf_gas _ (proj1 Hw)) as Hg0.
    rewrite (portable_turn E fuel _ s b), chunk_switch_spec by (done || lia).
    assert (at_iter E (addgas (eMetrics E b + c) s)) as Hi' by (apply at_iter_addgas; done || lia).
    pose proof (slow_defined E b (addgas (eMetrics E b + c) s) Hn) as Hs.
    rewrite (switch_step_spec (eCode E)) in Hs.
    destruct (nonterm_class (PushValueMap (eCache E)) b Ht) as [[m Ec]|Ec]; rewrite Ec in *.
    + rewrite charged_addgas in Hs by lia. rewrite chunk_after_afterOp.
      destruct (ord_shift E s b m c HE Hi Hltpc Ec (gm_classify _ _ _ Ec Ht) Hc0 ltac:(lia))
        as [(s' & -> & Hh & Hi2 & Hpc & Hle)|(cf & -> & Hcf & Hh)].
      * rewrite Hh in Hs. eapply chunk_result_step; [done..|]. apply IHs; [done|done|lia|lia].
      * apply chunk_result_fails; [by apply failed_addgas|].
        destruct Hh as [(c' & Hh & Hf')|(s' & Hh & Hi2 & Hpc & Hlt')]; rewrite Hh in Hs.
        -- eapply ref_fails_now; [done|done|by apply failed_addgas].
        -- pose proof (slow_step_out E _ b HE Hi' Hltpc) as Ho. rewrite Hs in Ho.
           eapply ref_fails_step; [done|done|apply Ho|]. by eapply doomed.
    + destruct (failWith_failed s
        (if b =? 254 then EVMC_INVALID_INSTRUCTION else EVMC_UNDEFINED_INSTRUCTION))
        as (c1 & -> & Hc1); [done|by destruct (b =? 254)|].
      destruct (failWith_failed (addgas (eMetrics E b + c) s) EVMC_INVALID_INSTRUCTION)
        as (c2 & Hc2 & Hf2); [apply Hi'|done|].
      apply chunk_result_fails; [by apply failed_addgas|].
      eapply ref_fails_now; [done| |done]. by rewrite Hs.
Qed.

(** * Stretches with an undefined instruction *)

Lemma portable_undef E pc e fuel s :
  env_ok E -> some_undef (eCode E) (eNames E) pc e -> at_iter E s -> Pc (fr s) = pc ->
  (e - pc <= fuel)%nat -> exists c, portable E fuel e s = LReturn c /\ failed s c.
Proof.
  intros HE Hu. revert fuel s. induction Hu as [pc e b Hb Hlt Hn|pc e b Hb Ht Hu IH];
    intros [|fuel] s Hi <- Hfuel; pose proof (iter_wf _ _ Hi) as Hw; [lia| | |].
  - unfold portable. cbn [chunk_loop]. rewrite (proj2 (Nat.leb_gt _ _)), Hb by done.
    unfold chunk_step. rewrite Hn. by apply (failWith_failed s EVMC_UNDEFINED_INSTRUCTION).
  - apply some_undef_lt in Hu. pose proof (opcodeLen_pos b). lia.
  - pose proof (some_undef_lt _ _ _ _ Hu). pose proof (opcodeLen_pos b).
    pose proof (lookup_lt_Some _ _ _ Hb) as Hltpc.
    destruct (eNames E b) eqn:Hn.
    2: { unfold portable. cbn [chunk_loop]. rewrite (proj2 (Nat.leb_gt _ _)), Hb by lia.
         unfold chunk_step. rewrite Hn. by apply (failWith_failed s EVMC_UNDEFINED_INSTRUCTION). }
    rewrite (portable_turn E fuel _ s b), chunk_switch_spec by (done || lia).
    destruct (nonterm_class (PushValueMap (eCache E)) b Ht) as [[m Ec]|Ec]; rewrite Ec.
    + rewrite chunk_after_afterOp.
      destruct (ord_cases E s s b m HE Hi Hltpc Ec Hw (follows_refl s) eq_refl)
        as [(s' & -> & Hi' & Hf' & Hpc')|(c' & -> & Hc')]; [|by exists c'].
      destruct (IH fuel s' Hi' Hpc' ltac:(lia)) as (c & -> & Hc).
      exists c. split; [done|by eapply follows_failed].
    + apply failWith_failed; [done|by destruct (b =? 254)].
Qed.

Lemma ref_undef E pc e s :
  env_ok E -> some_undef (eCode E) (eNames E) pc e -> at_iter E s -> Pc (fr s) = pc ->
  ref_fails E s.
Proof.
  intros HE Hu. revert s. induction Hu as [pc e b Hb Hlt Hn|pc e b Hb Ht Hu IH];
    intros s Hi <-; pose proof (iter_wf _ _ Hi) as Hw.
  - destruct (failWith_failed s EVMC_UNDEFINED_INSTRUCTION) as (c & Hc & Hf); [done..|].
    eapply ref_fails_now; [done| |done]. by rewrite slow_undefined.
  - destruct (eNames E b) eqn:Hn.
    2: { destruct (failWith_failed s EVMC_UNDEFINED_INSTRUCTION) as (c & Hc & Hf); [done..|].
         eapply ref_fails_now; [done| |done]. by rewrite slow_undefined. }
    pose proof (lookup_lt_Some _ _ _ Hb) as Hltpc. pose proof (wf_gas _ (proj1 Hw)) as Hg0.
    pose proof (gas_cost_range E b HE Hn) as Hcost.
    destruct (Z.lt_ge_cases (fgas (fr s)) (eMetrics E b)) as [|Hge]; [by eapply oog_fails|].
    pose proof (slow_defined E b s Hn) as Hs. rewrite (switch_step_spec (eCode E)) in Hs.
    destruct (nonterm_class (PushValueMap (eCache E)) b Ht) as [[m Ec]|Ec]; rewrite Ec in Hs.
    + destruct (charged_cases (eMetrics E b) m s Hw Hcost) as [[? _]|[_ Hm]]; [lia|].
      rewrite Hm in Hs. set (s1 := on_fr (set_fgas (fgas (fr s) - eMetrics E b)) s) in *.
      assert (wf s1) as Hw1 by (apply wf_set_fgas; [done|lia]).
      assert (follows s s1) as Hf1 by (apply follows_set_fgas; lia).
      destruct (ord_cases E s s1 b m HE Hi Hltpc Ec Hw1 Hf1 eq_refl)
        as [(s' & Hs' & Hi' & Hf' & Hpc')|(c' & Hc' & Hf')].
      * rewrite Hs' in Hs. eapply ref_fails_step; [done|done| |by apply IH].
        by eapply follows_trans.
      * rewrite Hc' in Hs. by eapply ref_fails_now.
    + destruct (failWith_failed s EVMC_INVALID_INSTRUCTION) as (c' & Hc' & Hf'); [done|done|].
      rewrite Hc' in Hs. by eapply ref_fails_now.
Qed.

(** * Any runner

    What the outer loop needs of a chunk runner: from a state at a chunk
    whose cost has been paid, its outcome is one the reference has. *)

Definition pay (C : Z) (s : hstate HS) : hstate HS :=
  on_fr (fun f => set_fgas (i64 (u64 (fgas f) - C)) f) s.

Class ChunkRunner (run : interp_env -> nat -> hstate HS -> loop_out HS) : Prop := {
  run_sound E s e c C :
    env_ok E -> at_iter E s -> chunk_from (eCode E) (eMetrics E) (Pc (fr s)) e c ->
    Z.of_nat e < 2 ^ 32 -> C = u64 c -> C <= fgas (fr s) ->
    chunk_result E s (run E e (pay C s));
}.

Lemma chunk_cost_bound E pc e c :
  env_ok E -> chunk_from (eCode E) (eMetrics E) pc e c -> all_def (eCode E) (eNames E) pc e ->
  c <= Z.of_nat (e - pc) * 2 ^ 15.
Proof.
  intros HE Hch. induction Hch as [pc b Hb|pc b e c Hb Ht Hch IH]; intros Hd;
    pose proof (gas_cost_int16 _ _ b (env_metrics E HE)); pose proof (opcodeLen_pos b).
  - nia.
  - pose proof (chunk_from_lt _ _ _ _ _ Hch) as Hlt.
    specialize (IH (all_def_next _ _ _ _ _ Hd Hb Hlt)). nia.
Qed.

Lemma pay_addgas C s :
  wf s -> 0 <= C <= fgas (fr s) -> addgas C (pay C s) = s.
Proof.
  intros Hw HC. pose proof (wf_gas _ (proj1 Hw)) as Hg. unfold pay, addgas, on_fr. cbn [fr cx].
  rewrite u64_small, i64_small, fgas_set, set_fgas_twice by lia.
  destruct s as [f c]. simpl. replace (fgas f - C + C) with (fgas f) by lia.
  destruct f as [? ? ? [] ? ? ? ? ? ?]. done.
Qed.

Lemma at_iter_pay E s C : at_iter E s -> 0 <= C <= fgas (fr s) -> at_iter E (pay C s).
Proof.
  intros [Hw ? ?] HC. split; [|done..]. pose proof (wf_gas _ (proj1 Hw)) as Hg.
  unfold pay. apply (wf_set_fgas s (i64 (u64 (fgas (fr s)) - C))); [done|].
  rewrite u64_small, i64_small by lia. lia.
Qed.

Definition run_portable (E : interp_env) (e : nat) (s : hstate HS) : loop_out HS :=
  run_with Portable E e s.

#[export] Instance portable_runner : ChunkRunner run_portable.
Proof.
  split. intros E s e c C HE Hi Hch He -> HC.
  assert (0 <= u64 c <= fgas (fr s)) as HC' by (split; [apply u64_range|done]).
  pose proof (at_iter_pay E s (u64 c) Hi HC') as Hip.
  pose proof (pay_addgas (u64 c) s (iter_wf _ _ Hi) HC') as Hpa.
  change (run_portable E e (pay (u64 c) s)) with (portable E e e (pay (u64 c) s)).
  destruct (chunk_def_cases _ _ (eNames E) _ _ _ Hch) as [Hd|Hu].
  - destruct (portable_sim E _ e c HE Hch Hd) as [Hc0 Hsim].
    pose proof (chunk_cost_bound E _ e c HE Hch Hd).
    rewrite u64_small in * by lia. rewrite <- Hpa at 1.
    pose proof (wf_gas _ (proj1 (iter_wf _ _ Hi))).
    apply Hsim; [done|done| |lia]. rewrite <- addgas_gas, Hpa. lia.
  - destruct (portable_undef E _ e e (pay (u64 c) s) HE Hu Hip eq_refl ltac:(lia)) as (cf & -> & Hf).
    rewrite <- Hpa at 1. apply chunk_result_fails; [by apply failed_addgas|].
    rewrite Hpa. by eapply ref_undef.
Qed.
End Sound.
