(* ===== verification/CgotoEquiv.v ===== *)
(** The two chunk runners agree.

    The computed-goto runner keeps the program counter and the stack pointer
    in local variables, inlines the hot instructions and advances the program
    counter before it looks at the status.  Its outcome is that of the
    portable switch, the program counter left in a frame that has been given
    back apart, which the next use of the frame resets.  Then [interpret] with
    either of them against the reference. *)

From S2P Require Import Prelude Intx Evmc GasStorageCost EvmInstance Frame HandlerUtil HandlersArith HandlersEnv HandlersCall BytecodeCache Interpreter Dispatch WellFormed HandlerSafety RefInterp ChunkSound.

Section Forget.
Context {HS : Type}.
Implicit Types (s : hstate HS) (c : Context_ HS).

(** The context without the program counters of retired frames. *)
Definition forget_pc (c : Context_ HS) : Context_ HS :=
  set_frames (below c) (map (set_Pc 0) (spare c)) c.

Definition same_but_pc (s1 s2 : hstate HS) : Prop :=
  on_fr (set_Pc 0) s1 = on_fr (set_Pc 0) s2.

(** Outcomes of a chunk run: equal, or the same failure up to the program
    counter of the frame. *)
Definition loop_eqv (o1 o2 : loop_out HS) : Prop :=
  o1 = o2 \/
  exists c1 c2, forget_pc c1 = forget_pc c2 /\
    (o1 = LReturn c1 /\ o2 = LReturn c2 /\
       status_code (ExeResult c2) <> EVMC_SUCCESS /\ status_code (ExeResult c2) <> EVMC_REVERT \/
     exists p1 p2, set_Pc 0 p1 = set_Pc 0 p2 /\
       o1 = LBreak (Some p1) c1 /\ o2 = LBreak (Some p2) c2).

Lemma popMessage_ext (d1 d2 : MsgRef -> Z) i :
  (forall m, d1 m = d2 m) -> popMessage d1 i = popMessage d2 i.
Proof. intros Hd. unfold popMessage. repeat case_match; by rewrite ?Hd. Qed.

Lemma frame_deref_last ext l f1 f2 m :
  fgas f1 = fgas f2 -> frame_deref ext (l ++ [f1]) m = frame_deref ext (l ++ [f2]) m.
Proof.
  intros Hg. destruct m as [|i]; [done|]. simpl.
  destruct (Nat.lt_trichotomy i (length l)) as [Hi|[->|Hi]].
  - by rewrite !lookup_app_l.
  - rewrite !lookup_app_r, Nat.sub_diag by lia. done.
  - rewrite !lookup_ge_None_2; [done| |]; rewrite length_app; simpl; lia.
Qed.

Lemma set_Pc_0 f1 f2 :
  set_Pc 0 f1 = set_Pc 0 f2 -> f1 = set_Pc (Pc f1) f2 /\ GasRefundSnapshot f1 = GasRefundSnapshot f2.
Proof. destruct f1, f2. intros [=]; by subst. Qed.

(** A failure forgets the program counter of the frame it gives back. *)
Lemma onError_same s1 s2 :
  same_but_pc s1 s2 -> loop_eqv (onError s1) (onError s2).
Proof.
  intros Hs. right. destruct s1 as [f1 c1], s2 as [f2 c2].
  unfold same_but_pc, on_fr in Hs. cbn [fr cx] in Hs.
  assert (set_Pc 0 f1 = set_Pc 0 f2) as Hf by congruence.
  assert (c1 = c2) as -> by congruence. apply set_Pc_0 in Hf as [Hf HG].
  rewrite Hf. generalize (Pc f1) as p. intros p. clear Hs Hf HG f1.
  unfold onError, handleExecutionStatus, freeBackFrame. simpl in *.
  set (i := setGas _ _).
  assert (popMessage (frame_deref (fun _ => 0) (rev (below c2) ++ [set_fgas 0 (set_Pc p f2)])) i =
          popMessage (frame_deref (fun _ => 0) (rev (below c2) ++ [set_fgas 0 f2])) i) as Hp.
  { apply popMessage_ext. intros. by apply frame_deref_last. }
  destruct (Status c2) eqn:Est, (below c2) as [|q rest] eqn:Eb.
  all: eexists _, _; split;
    [|first [left; split_and!; [reflexivity|reflexivity|simpl; by rewrite Est|simpl; by rewrite Est]
            |right; eexists _, _; split_and!; [|reflexivity|reflexivity]; reflexivity]].
  all: try reflexivity.
  all: rewrite Hp; reflexivity.
Qed.
End Forget.

Section Inline.
Context {HS : Type} {I : Intx} {H : EvmcHost HS} {V : Evmc}.

(** A dispatch of the computed-goto runner against a turn of the portable
    one from the same state. *)
Definition cg_rel (co : cgoto_out HS) (ko : chunk_out HS) : Prop :=
  match co with
  | CNext l => ko = KNext (write_back l) /\ Status (cx (ls l)) = EVMC_SUCCESS
  | CError st l =>
      exists s, ko = KEnd (onError s) /\ Status (cx s) = st /\ st <> EVMC_SUCCESS /\
        same_but_pc (write_back (mkL (lPc l) (lsp l) (on_cx (set_Status st) (ls l)))) s
  | CEnd o => ko = KEnd o
  end.

Context (l : lstate HS) (Hst : Status (cx (ls l)) = EVMC_SUCCESS).
Let s := write_back l.

Lemma wb_Sp : Sp (fr s) = lsp l.
Proof. done. Qed.
Lemma wb_Pc : Pc (fr s) = lPc l.
Proof. done. Qed.
Lemma wb_Stack : Stack (fr s) = lstack l.
Proof. done. Qed.

Lemma cg_error st :
  st <> EVMC_SUCCESS -> cg_rel (CError st l) (KEnd (onError (on_cx (set_Status st) s))).
Proof. intros Hn. eexists. split_and!; [reflexivity|reflexivity|done|exact eq_refl]. Qed.

Lemma cg_after st :
  st <> EVMC_SUCCESS -> cg_rel (CError st l) (chunk_after (Exit (on_cx (set_Status st) s))).
Proof.
  intros Hn. eexists (on_cx (set_Status st) s).
  split_and!; [|reflexivity|done|exact eq_refl]. simpl. by destruct st.
Qed.

Lemma insert_ok i v : lstack l !! i = Some v -> (i <? length (lstack l))%nat = true.
Proof. intros Hi. apply Nat.ltb_lt. by eapply lookup_lt_Some. Qed.

Ltac run := rewrite ?bind_check, ?bind_getFrame, ?bind_stack_at, ?bind_modFrame, ?wb_Sp, ?wb_Stack,
  ?wb_Pc.
Ltac next := split; [simpl; rewrite ?Hst; done|done].

Lemma cg_unary f : cg_rel (inline_unary f l) (chunk_after (UnaryOpHandler f s)).
Proof.
  unfold inline_unary, UnaryOpHandler. run.
  destruct (Nat.ltb_spec (lsp l) 1); [by apply cg_after|]. run.
  destruct (lstack l !! _) eqn:E; [|done].
  rewrite stack_set_run, wb_Stack, (insert_ok _ _ E). next.
Qed.

Lemma cg_binary f : cg_rel (inline_binary f l) (chunk_after (BinaryOpHandler f s)).
Proof.
  unfold inline_binary, BinaryOpHandler. run.
  destruct (Nat.ltb_spec (lsp l) 2); [by apply cg_after|]. run.
  destruct (lstack l !! (lsp l - 1)%nat) eqn:E1; [|done]. run.
  destruct (lstack l !! (lsp l - 2)%nat) eqn:E2; [|done].
  rewrite bind_stack_set, wb_Stack, (insert_ok _ _ E2). next.
Qed.

Lemma cg_ternary f : cg_rel (inline_ternary f l) (chunk_after (TernaryOpHandler f s)).
Proof.
  unfold inline_ternary, TernaryOpHandler. run.
  destruct (Nat.ltb_spec (lsp l) 3); [by apply cg_after|]. run.
  destruct (lstack l !! (lsp l - 1)%nat) eqn:E1; [|done]. run.
  destruct (lstack l !! (lsp l - 2)%nat) eqn:E2; [|done]. run.
  destruct (lstack l !! (lsp l - 3)%nat) eqn:E3; [|done].
  rewrite bind_stack_set, wb_Stack, (insert_ok _ _ E3). next.
Qed.

Lemma cg_pop : cg_rel (inline_pop l) (chunk_after (executePopOpcodeNoGas s)).
Proof.
  unfold inline_pop, executePopOpcodeNoGas. run.
  destruct (Nat.ltb_spec (lsp l) 1); [by apply cg_after|]. next.
Qed.

(** [Frame->Stack[sp++] = v] and the move of the program counter. *)
Lemma cg_push v n :
  cg_rel (inline_push v (lPc l + 1 + n) l)
    (chunk_after ((stack_set (lsp l) v ;;; modFrame (set_Sp (lsp l + 1)) ;;;
                   modFrame (set_Pc (lPc l + n))) s)).
Proof.
  unfold inline_push. rewrite bind_stack_set, wb_Stack.
  destruct (_ <? _)%nat; [|done]. split; [simpl; rewrite Hst|done].
  do 2 f_equal. unfold write_back, on_fr. simpl.
  by replace (lPc l + n + 1)%nat with (lPc l + 1 + n)%nat by lia.
Qed.

Lemma cg_push1 v :
  cg_rel (inline_push v (lPc l + 1) l)
    (chunk_after ((stack_set (lsp l) v ;;; modFrame (set_Sp (lsp l + 1))) s)).
Proof.
  unfold inline_push. rewrite bind_stack_set, wb_Stack. destruct (_ <? _)%nat; [next|done].
Qed.

Lemma cg_push0 rev :
  rev_lt rev EVMC_SHANGHAI = false ->
  cg_rel (inline_push0 rev l) (chunk_after (executePush0OpcodeNoGas s)).
Proof.
  intros Hr. unfold inline_push0, executePush0OpcodeNoGas. rewrite Hr. run.
  destruct (Nat.leb_spec MAXSTACK (lsp l)); [by apply cg_after|].
  apply cg_push1.
Qed.

Lemma cg_pushx PushMap b :
  cg_rel (inline_pushx PushMap b l) (chunk_after (executePushNOpcodeNoGas b PushMap s)).
Proof.
  unfold inline_pushx, executePushNOpcodeNoGas. run.
  destruct (Nat.leb_spec MAXSTACK (lsp l)); [by apply cg_after|]. run.
  unfold bind at 1. destruct (PushMap !! lPc l) as [v|]; [|done]. simpl of_option.
  rewrite Nat.add_assoc. apply cg_push.
Qed.

Lemma cg_dupx b : cg_rel (inline_dupx b l) (chunk_after (executeDupOpcodeNoGas b s)).
Proof.
  unfold inline_dupx, executeDupOpcodeNoGas. cbv zeta. run.
  destruct (Nat.ltb_spec (lsp l) (dupN b)); [by apply cg_after|].
  destruct (Nat.leb_spec MAXSTACK (lsp l)); [by apply cg_after|]. run.
  destruct (lstack l !! _) as [v|] eqn:E; [|done].
  apply cg_push1.
Qed.

Lemma cg_swapx b : cg_rel (inline_swapx b l) (chunk_after (executeSwapOpcodeNoGas b s)).
Proof.
  unfold inline_swapx, executeSwapOpcodeNoGas. cbv zeta. run.
  destruct (Nat.ltb_spec (lsp l) (swapN b + 1)); [by apply cg_after|]. run.
  destruct (lstack l !! (lsp l - 1)%nat) eqn:E1; [|done]. run.
  destruct (lstack l !! (lsp l - 1 - swapN b)%nat) eqn:E2; [|done].
  rewrite bind_stack_set, wb_Stack, (insert_ok _ _ E1), stack_set_run. simpl Stack.
  rewrite length_insert. fold (lstack l). rewrite (insert_ok _ _ E2). next.
Qed.

(** *** Jumps *)

Lemma cg_checkDest CodeSize JumpMap Dest :
  cg_rel (inline_checkDest CodeSize JumpMap Dest l) (chunk_jump (checkDest CodeSize JumpMap Dest s)).
Proof.
  unfold inline_checkDest, checkDest. destruct (Z.leb_spec (Z.of_nat CodeSize) Dest).
  - apply (cg_after EVMC_BAD_JUMP_DESTINATION). done.
  - unfold bind at 1. destruct (JumpMap !! Z.to_nat Dest) as [d|]; [|done].
    simpl of_option. unfold ret at 1. destruct (Z.eqb_spec d 0); [|done].
    apply (cg_after EVMC_BAD_JUMP_DESTINATION). done.
Qed.

(** *** Handlers *)

Lemma cg_handler m :
  (forall s', match m s' with Ret _ s2 | Exit s2 => Pc (fr s2) = Pc (fr s') | _ => True end) ->
  cg_rel (HANDLER_CALL m l) (chunk_after (m s)).
Proof.
  intros Hm. specialize (Hm s). unfold HANDLER_CALL. fold s.
  destruct (m s) as [[] s'|s'| |]; try done; rewrite wb_Pc in Hm; simpl;
    destruct (is_success (Status (cx s'))) eqn:E.
  1, 3: split; [|by apply is_success_true]; f_equal; unfold write_back, on_fr; simpl;
    rewrite Hm; by destruct s' as [[] ?].
  all: exists s'; split_and!; [done|done|by intros E'; rewrite E' in E|].
  all: unfold same_but_pc, write_back, on_fr, on_cx; simpl; destruct s' as [[] []]; done.
Qed.
End Inline.

Section Jumps.
Context {HS : Type} {I : Intx} {H : EvmcHost HS} {V : Evmc}.
Context (l : lstate HS) (Hst : Status (cx (ls l)) = EVMC_SUCCESS).

Lemma cg_jump CodeSize JumpMap :
  cg_rel (inline_jump CodeSize JumpMap l) (chunk_jump (jumpOp CodeSize JumpMap (write_back l))).
Proof.
  unfold inline_jump, jumpOp. rewrite bind_getFrame, wb_Sp.
  destruct (Nat.ltb_spec (lsp l) 1); [by apply (cg_after l EVMC_STACK_UNDERFLOW)|].
  rewrite bind_modFrame, bind_stack_at. fold (lstack l).
  change (Stack (fr (on_fr (set_Sp (lsp l - 1)) (write_back l)))) with (lstack l).
  destruct (lstack l !! _); [|done].
  by apply (cg_checkDest (mkL (lPc l) (lsp l - 1) (ls l))).
Qed.

Lemma cg_jumpi CodeSize JumpMap :
  cg_rel (inline_jumpi CodeSize JumpMap l) (chunk_jump (jumpiOp CodeSize JumpMap (write_back l))).
Proof.
  unfold inline_jumpi, jumpiOp. rewrite bind_getFrame, wb_Sp.
  destruct (Nat.ltb_spec (lsp l) 2); [by apply (cg_after l EVMC_STACK_UNDERFLOW)|].
  rewrite bind_stack_at, wb_Stack. destruct (lstack l !! (lsp l - 1)%nat); [|done].
  rewrite bind_modFrame, bind_stack_at.
  change (Stack (fr (on_fr (set_Sp (lsp l - 2)) (write_back l)))) with (lstack l).
  destruct (lstack l !! (lsp l - 2)%nat) as [x|]; [|done].
  destruct (Z.eqb_spec x 0).
  - split; [simpl; by rewrite Hst|done].
  - by apply (cg_checkDest (mkL (lPc l) (lsp l - 2) (ls l))).
Qed.
End Jumps.

(** * Handlers do not move the program counter *)

Section KeepsPc.
Context {HS : Type}.

Definition keeps_pc {A} (m : HM HS A) : Prop :=
  forall s, match m s with Ret _ s' | Exit s' => Pc (fr s') = Pc (fr s) | _ => True end.

Lemma kp_bind {A B} (m : HM HS A) (k : A -> HM HS B) :
  keeps_pc m -> (forall a, keeps_pc (k a)) -> keeps_pc (bind m k).
Proof.
  intros Hm Hk s. unfold bind. specialize (Hm s). destruct (m s) as [a s1|s1| |]; try done.
  specialize (Hk a s1). destruct (k a s1); congruence.
Qed.
Lemma kp_ret {A} (a : A) : keeps_pc (ret a).
Proof. done. Qed.
Lemma kp_exit {A} : keeps_pc (@exit _ _ A).
Proof. done. Qed.
Lemma kp_throw {A} e : keeps_pc (@throw _ _ A e).
Proof. done. Qed.
Lemma kp_undef {A} : keeps_pc (@undef _ _ A).
Proof. done. Qed.
Lemma kp_option {A} (o : option A) : keeps_pc (of_option o).
Proof. by destruct o. Qed.
Lemma kp_gets {A} (f : hstate HS -> A) : keeps_pc (gets f).
Proof. done. Qed.
Lemma kp_modify f : (forall s, Pc (fr (f s)) = Pc (fr s)) -> keeps_pc (modify f).
Proof. intros Hf s. apply Hf. Qed.
Lemma kp_if {A} (b : bool) (m m' : HM HS A) :
  keeps_pc m -> keeps_pc m' -> keeps_pc (if b then m else m').
Proof. by destruct b. Qed.
End KeepsPc.

Ltac kp_step :=
  lazymatch goal with
  | H : keeps_pc ?m |- keeps_pc ?m => exact H
  | |- keeps_pc (bind _ _) => apply kp_bind; [|intros ?]
  | |- keeps_pc (ret _) => apply kp_ret
  | |- keeps_pc exit => apply kp_exit
  | |- keeps_pc (throw _) => apply kp_throw
  | |- keeps_pc undef => apply kp_undef
  | |- keeps_pc (of_option _) => apply kp_option
  | |- keeps_pc (gets _) => apply kp_gets
  | |- keeps_pc (modify _) => apply kp_modify; done
  | |- keeps_pc (if _ then _ else _) => apply kp_if
  | |- keeps_pc (let _ := _ in _) => cbv zeta
  | |- keeps_pc (popTopics ?n) => induction n; simpl
  | |- keeps_pc (match ?x with _ => _ end) => destruct x
  | |- keeps_pc (?f _ _ _ _ _ _) => unfold f
  | |- keeps_pc (?f _ _ _ _ _) => unfold f
  | |- keeps_pc (?f _ _ _ _) => unfold f
  | |- keeps_pc (?f _ _ _) => unfold f
  | |- keeps_pc (?f _ _) => unfold f
  | |- keeps_pc (?f _) => unfold f
  | |- keeps_pc ?f => unfold f
  end.
Ltac kp_solve := repeat (cbv beta; kp_step).

Section KeepsPcHandlers.
Context {HS : Type} {I : Intx} {H : EvmcHost HS} {V : Evmc}.

Lemma kp_Log b : keeps_pc (HS := HS) (Log_doExecute b).
Proof. kp_solve. Qed.
Lemma kp_Create op : keeps_pc (HS := HS) (Create_doExecute op).
Proof. kp_solve. Qed.
Lemma kp_Call op : keeps_pc (HS := HS) (Call_doExecute op).
Proof. unfold Call_doExecute, Call_gas. kp_solve. Qed.
Lemma kp_handler op m : cgoto_handler (HS := HS) op = Some m -> keeps_pc m.
Proof.
  intros Hm.
  destruct op; cbv [cgoto_handler] in Hm; try discriminate;
    match type of Hm with Some ?x = Some ?m => assert (m = x) as -> by congruence end;
    match goal with |- keeps_pc (doExecute ?h) =>
      let h' := eval hnf in h in change (keeps_pc (doExecute h')); cbn [doExecute] end; kp_solve.
Qed.
End KeepsPcHandlers.

(** * The runners *)

Section Runners.
Context {HS : Type} {I : Intx} {H : EvmcHost HS} {V : Evmc} {VL : EvmcLaws V}.
Context (Code : list Z) (Revision : evmc_revision) (JumpMap PushMap : list Z).
Let Names := names_table Revision.

(** Popping a frame leaves the status alone, so STOP restarts in both. *)
Lemma stop_goto (s : hstate HS) :
  Status (cx s) = EVMC_SUCCESS -> stopOp stopGoto s = stopOp stopRestart s.
Proof.
  intros Hst. unfold stopOp, freeBackFrame. cbn [cx on_cx set_ReturnData below].
  destruct (below (cx s)); [done|]. unfold stopGoto, stopRestart, restartDispatch.
  cbn [addFrameGas on_fr cx set_Inst set_frames set_ReturnData Status]. by rewrite Hst.
Qed.

(** The computed-goto table implements [classify] too. *)
Lemma cgoto_goto_spec b (l : lstate HS) :
  Status (cx (ls l)) = EVMC_SUCCESS ->
  cg_rel (cgoto_goto Code Revision JumpMap PushMap Names b l)
    (chunk_step Code JumpMap PushMap Names b (write_back l)).
Proof.
  intros Hst. unfold cgoto_goto, cgoto_table, chunk_step.
  destruct (Names b) eqn:Hn; simpl negb; cbv iota; [|by apply cg_error].
  rewrite chunk_switch_spec. unfold classify.
  destruct (decide (opcode_of_byte b = OP_OTHER)) as [Eo|Eo].
  - rewrite Eo. unfold cgoto_base. rewrite Eo. unfold OP_PUSH1, OP_PUSH32, OP_DUP1, OP_DUP16, OP_SWAP1, OP_SWAP16.
    destruct ((_ <=? b) && _); [by apply cg_pushx|].
    destruct ((_ <=? b) && _); [by apply cg_dupx|].
    destruct ((_ <=? b) && _); [by apply cg_swapx|].
    destruct ((160 <=? b) && (b <=? 164)) eqn:El.
    + exfalso. apply andb_true_iff in El as [El1%Z.leb_le El2%Z.leb_le].
      assert (b = 160 \/ b = 161 \/ b = 162 \/ b = 163 \/ b = 164) as Hb by lia.
      by destruct_or! Hb; subst b.
    + rewrite (proj2 (Z.eqb_neq b 254)); [by apply cg_error|]. intros ->. done.
  - pose proof (opcode_of_byte_inv b Eo) as Hb.
    destruct (opcode_of_byte b); simpl in Hb; subst b; try (by destruct Eo);
      match goal with |- context [cgoto_base ?n] =>
        let t := eval vm_compute in (cgoto_base n) in change (cgoto_base n) with t
      end; cbv iota;
      try match goal with |- cg_rel (cgoto_target _ _ _ ?op l) _ =>
        let o := eval cbv [cgoto_handler] in (cgoto_handler (HS := HS) op) in
        match o with Some ?h =>
          change (cg_rel (HANDLER_CALL h l) (chunk_after (h (write_back l))));
          apply cg_handler, (kp_handler op h); reflexivity end end;
      try (by apply cg_handler, kp_Log); try (by apply cg_handler, kp_Call);
      try (by apply cg_handler, kp_Create);
      try (by apply (cg_binary l Hst)); try (by apply (cg_ternary l Hst));
      try (by apply (cg_unary l Hst)); try (by apply cg_pop); try (by apply cg_jump);
      try (by apply cg_jumpi); try (by apply cg_error); try exact eq_refl.
    + cbn [cg_rel cgoto_target]. by rewrite stop_goto.
    + split; [simpl; by rewrite Hst|done].
    + apply (cg_push0 l Hst). by apply names_push0.
Qed.

Lemma write_back_id (s : hstate HS) : write_back (mkL (Pc (fr s)) (Sp (fr s)) s) = s.
Proof. by destruct s as [[] ?]. Qed.

Lemma onError_not_continue (s s' : hstate HS) : onError s <> LContinue s'.
Proof. unfold onError. by destruct (handleExecutionStatus s) as [[[] ?] ?]. Qed.

Lemma cgoto_loop_eqv fuel ChunkEnd (l : lstate HS) :
  Status (cx (ls l)) = EVMC_SUCCESS -> (lPc l < ChunkEnd)%nat ->
  loop_eqv (cgoto_loop Code Revision JumpMap PushMap fuel Names ChunkEnd l)
    (chunk_loop Code JumpMap PushMap fuel Names ChunkEnd (write_back l)).
Proof.
  revert l. induction fuel as [|fuel IH]; intros l Hst Hlt; simpl;
    rewrite (proj2 (Nat.leb_gt _ _)) by done; [by left|].
  destruct (Code !! lPc l) as [b|]; [|by left].
  pose proof (cgoto_goto_spec b l Hst) as Hr.
  destruct (cgoto_goto Code Revision JumpMap PushMap Names b l) as [l'|st l'|o]; simpl in Hr.
  - destruct Hr as [-> Hst']. destruct (Nat.leb_spec ChunkEnd (lPc l')) as [Hle|Hgt].
    + left. destruct fuel; simpl; by rewrite (proj2 (Nat.leb_le _ _)).
    + by apply IH.
  - destruct Hr as (s & -> & Hs & Hn & Hsame). by apply onError_same.
  - rewrite Hr. by left.
Qed.

Lemma run_cgoto_eqv ChunkEnd (s : hstate HS) :
  Status (cx s) = EVMC_SUCCESS -> (Pc (fr s) < ChunkEnd)%nat ->
  loop_eqv (run_cgoto Code Revision JumpMap PushMap Names ChunkEnd s)
    (run_chunk Code JumpMap PushMap Names ChunkEnd s).
Proof.
  intros Hst Hlt. unfold run_cgoto, run_chunk. rewrite <- (write_back_id s) at 4.
  by apply cgoto_loop_eqv.
Qed.
End Runners.

(** Correctness of [interpret].

    The outer loop is verified against the chunk-runner interface: with a
    cache whose chunks are sound, any runner gives the result of the
    instruction-by-instruction reference.  Both runners of the source satisfy
    the interface.  [InterpretTheorems] states the result for the caches
    that [buildBytecodeCache] builds. *)

Section Loop.
Context {HS : Type} {I : Intx} {H : EvmcHost HS} {V : Evmc}.
Context {IL : IntxLaws I} {HL : HostLaws HS H} {VL : EvmcLaws V}.
Implicit Types (s : hstate HS) (c : Context_ HS).

(** * The computed-goto runner satisfies the interface *)

Lemma forget_objects (l l' : list EVMFrame) :
  map (set_Pc 0) l' = map (set_Pc 0) l -> Forall frame_object l -> Forall frame_object l'.
Proof.
  revert l. induction l' as [|f l' IH]; intros [|g l] [=] Hl; [done|].
  apply Forall_cons_iff in Hl as [Hg Hl]. constructor; [|by eapply IH].
  unfold frame_object in *. by destruct f, g; simpl in *; subst.
Qed.

Lemma failed_forget s c1 c2 : forget_pc c1 = forget_pc c2 -> failed s c2 -> failed s c1.
Proof.
  destruct c1 as [? sp1], c2 as [? sp2]. intros [=]. subst. intros []. split; simpl in *; try done.
  intros Ho. apply (forget_objects sp2 sp1); [done|auto].
Qed.

Lemma ended_status_failed s c :
  ended s c -> status_code (ExeResult c) <> EVMC_SUCCESS ->
  status_code (ExeResult c) <> EVMC_REVERT -> False.
Proof. by intros [[]]. Qed.

Lemma ref_run_end E s o : env_ok E -> at_iter E s -> ref_run E s o -> loop_end E s o.
Proof.
  intros HE Hi. induction 1 as [s Hge|s b c Hb Hs|s b s' o Hb Hs _ IH].
  - split_and!; [by destruct s|destruct s; apply follows_refl|done].
  - pose proof (slow_step_out E s b HE Hi (lookup_lt_Some _ _ _ Hb)) as Ho.
    by rewrite Hs in Ho.
  - pose proof (slow_step_out E s b HE Hi (lookup_lt_Some _ _ _ Hb)) as Ho.
    rewrite Hs in Ho. destruct Ho as (Hi' & Hf & _).
    eapply loop_end_follows; [done|]. by apply IH.
Qed.

Lemma chunk_result_eqv E s o1 o2 :
  env_ok E -> at_iter E s -> loop_eqv o1 o2 -> chunk_result E s o2 -> chunk_result E s o1.
Proof.
  intros HE Hi [->|(c1 & c2 & Hc & Ho)] Hr; [done|].
  destruct Ho as [(-> & -> & Hn1 & Hn2)|(p1 & p2 & _ & -> & ->)]; [|done].
  destruct Hr as (c' & Hrun & Hc').
  pose proof (ref_run_end E s _ HE Hi Hrun) as He. exists c'. split; [done|right].
  assert (failed s c2) as Hf2.
  { destruct Hc' as [->|[]]; [|done]. destruct He as [|He]; [done|].
    by destruct (ended_status_failed _ _ He). }
  split; [by apply (failed_forget s c1 c2)|]. by destruct Hc' as [->|[]].
Qed.

Definition run_goto (E : interp_env) (e : nat) (s : hstate HS) : loop_out HS :=
  run_with Cgoto E e s.

#[export] Instance cgoto_runner : ChunkRunner run_goto.
Proof.
  split. intros E s e c C HE Hi Hch He HC Hle.
  eapply chunk_result_eqv; [done|done| |by eapply (run_sound (run := run_portable))].
  unfold run_goto, run_portable, run_with. rewrite (env_names E HE). apply run_cgoto_eqv.
  - apply Hi.
  - by apply chunk_from_lt in Hch.
Qed.

(** * The outer loop *)

(** The outcome [o] of a run from [s] is [o'], or both are exceptional
    failures. *)
Definition same_outcome (s : hstate HS) (o o' : loop_out HS) : Prop :=
  o = o' \/
  exists c c', o = LReturn c /\ o' = LReturn c' /\ failed s c /\ failed s c'.

Lemma same_outcome_follows s s' o o' :
  follows s s' -> same_outcome s' o o' -> same_outcome s o o'.
Proof.
  intros Hf [->|(c & c' & -> & -> & Hc & Hc')]; [by left|right].
  exists c, c'. split_and!; try done; by eapply follows_failed.
Qed.

Section Runner.
Context (R : runner) {HR : ChunkRunner (run_with R)}.

(** An iteration that runs a chunk, and one that does not. *)
Lemma iter_cases E s b :
  at_iter E s -> chunk_cache_ok (eCode E) (eMetrics E) (eCache E) ->
  eCode E !! Pc (fr s) = Some b ->
  interp_iter R E s = slow E b s \/
  exists e k C, chunk_from (eCode E) (eMetrics E) (Pc (fr s)) e k /\ Z.of_nat e < 2 ^ 32 /\
    C = u64 k /\ C <= fgas (fr s) /\ interp_iter R E s = run_with R E e (pay C s).
Proof.
  intros Hi (Hl1 & Hl2 & Hok) Hb. pose proof (lookup_lt_Some _ _ _ Hb) as Hlt.
  pose proof (wf_gas _ (proj1 (iter_wf _ _ Hi))) as Hg.
  unfold interp_iter. rewrite Hb.
  destruct (lookup_lt_is_Some_2 (GasChunkEnd (eCache E)) (Pc (fr s))) as [e He]; [lia|].
  destruct (lookup_lt_is_Some_2 (GasChunkCost (eCache E)) (Pc (fr s))) as [C HC]; [lia|].
  rewrite He, HC. destruct (_ && _) eqn:Et; [|by left]. right.
  apply andb_true_iff in Et as [Et1%Z.ltb_lt Et2%Z.leb_le].
  destruct (Hok _ _ _ He HC Et1) as (Hr & c & -> & Hch).
  rewrite (u64_small (fgas (fr s))) in Et2 by lia.
  exists (Z.to_nat e), c, (u64 c). split_and!; [done|lia|done|done|done].
Qed.

Lemma interp_loop_sim E fuel s :
  env_ok E -> chunk_cache_ok (eCode E) (eMetrics E) (eCache E) ->
  at_iter E s -> (fuel_bound (length (eCode E)) s <= fuel)%nat ->
  exists o, ref_run E s o /\ same_outcome s (interp_loop fuel R E s) o.
Proof.
  intros HE Hok. revert s. induction fuel as [|fuel IH]; intros s Hi Hfuel; simpl;
    destruct (Nat.leb_spec (length (eCode E)) (Pc (fr s))) as [Hge|Hlt].
  - eexists. split; [by apply run_end|by left].
  - unfold fuel_bound in Hfuel. lia.
  - eexists. split; [by apply run_end|by left].
  - destruct (lookup_lt_is_Some_2 (eCode E) (Pc (fr s))) as [b Hb]; [done|].
    destruct (iter_cases E s b Hi Hok Hb) as [->|(e & c & C & Hch & He & HC & Hle & ->)].
    + pose proof (slow_step_out E s b HE Hi Hlt) as Hs.
      destruct (slow E b s) as [s'| |c| | |] eqn:Es; try done.
      * pose proof (step_fuel E s s' b Hi Hlt Hs). destruct Hs as (Hi' & Hf & _).
        destruct (IH s' Hi' ltac:(lia)) as (o & Hr & Ho).
        exists o. split; [by eapply run_step|by eapply same_outcome_follows].
      * exists (LReturn c). split; [by eapply run_stop|by left].
    + pose proof (run_sound E s e c C HE Hi Hch He HC Hle) as Hr.
      destruct (run_with R E e (pay C s)) as [s'| |c'| | |] eqn:Es; try done.
      * destruct (ref_steps_post E s s' HE Hi Hr) as (Hi' & Hf & Hlt').
        destruct (IH s' Hi' ltac:(lia)) as (o & Hr' & Ho).
        exists o. split; [by eapply ref_steps_run|by eapply same_outcome_follows].
      * destruct Hr as (c2 & Hr2 & Hc2). exists (LReturn c2). split; [done|].
        destruct Hc2 as [->|[? ?]]; [by left|right]. by exists c', c2.
Qed.
End Runner.
End Loop.
