(* ===== verification/CacheCorrect.v ===== *)
(** Correctness of the bytecode cache: decoded PUSH immediates, the map of
    valid jump destinations, and the gas blocks. *)

From S2P Require Import Prelude Intx Evmc GasStorageCost EvmInstance Frame HandlerUtil.
From S2P Require Import HandlersArith HandlersEnv HandlersCall BytecodeCache Interpreter Dispatch.
From S2P Require Import WellFormed HandlerSafety RefInterp ChunkSound.

(** * Push immediates *)

Section PushValue.
Context {I : Intx} {IL : IntxLaws I}.

Lemma loadBeUint64_spec Src :
  Forall is_byte Src -> (8 <= length Src)%nat -> loadBeUint64 Src = be_value (take 8 Src).
Proof.
  intros Hb Hl. unfold loadBeUint64. apply to_big_endian64_spec; [by apply Forall_take|].
  rewrite length_take. lia.
Qed.

Lemma loadBeUint64Partial_spec Src Len :
  Forall is_byte Src -> (Len <= 8)%nat -> (Len <= length Src)%nat ->
  loadBeUint64Partial Src Len = be_value (take Len Src).
Proof.
  intros Hb Hl Hs. unfold loadBeUint64Partial.
  destruct (Nat.eqb_spec Len 0) as [->|]; [done|].
  destruct (Nat.eqb_spec Len 8) as [->|]; [by apply loadBeUint64_spec|].
  rewrite to_big_endian64_spec.
  - by rewrite be_value_app, be_value_zeros.
  - apply Forall_app; split; [apply Forall_zeros|by apply Forall_take].
  - rewrite length_app, length_replicate, length_take. lia.
Qed.

(** Splitting off the last eight bytes of a prefix. *)
Lemma be_value_last8 Src Len :
  (8 <= Len)%nat -> (Len <= length Src)%nat ->
  be_value (take Len Src) =
  be_value (take 8 (drop (Len - 8) Src)) + be_value (take (Len - 8) Src) * 2 ^ 64.
Proof.
  intros Hl Hs. replace (take Len Src) with (take (Len - 8) Src ++ take 8 (drop (Len - 8) Src)).
  - rewrite be_value_app, length_take, length_drop.
    replace (8 `min` (length Src - (Len - 8)))%nat with 8%nat by lia. lia.
  - rewrite take_take_drop. f_equal. lia.
Qed.

Lemma loadBeUint256_spec Src Len :
  Forall is_byte Src -> (Len <= 32)%nat -> (Len <= length Src)%nat ->
  loadBeUint256 Src Len = be_value (take Len Src).
Proof.
  intros Hb Hl Hs. unfold loadBeUint256, of_words.
  assert (forall n, (n + 8 <= length Src)%nat ->
    loadBeUint64 (drop n Src) = be_value (take 8 (drop n Src))) as H8.
  { intros n Hn. apply loadBeUint64_spec; [by apply Forall_drop|]. rewrite length_drop. lia. }
  destruct (Nat.leb_spec Len 8); [rewrite loadBeUint64Partial_spec by (done || lia); lia|].
  rewrite (be_value_last8 Src Len), H8 by lia.
  destruct (Nat.leb_spec Len 16); [rewrite loadBeUint64Partial_spec by (done || lia); lia|].
  rewrite (be_value_last8 Src (Len - 8)) by lia.
  replace (Len - 8 - 8)%nat with (Len - 16)%nat by lia. rewrite H8 by lia.
  destruct (Nat.leb_spec Len 24); [rewrite loadBeUint64Partial_spec by (done || lia); lia|].
  rewrite (be_value_last8 Src (Len - 16)) by lia.
  replace (Len - 16 - 8)%nat with (Len - 24)%nat by lia. rewrite H8 by lia.
  rewrite loadBeUint64Partial_spec by (done || lia). lia.
Qed.

(** The operand of a PUSH: the bytes after it, as if zeros followed the code. *)
Definition push_operand (Code : list Z) (pc n : nat) : Z :=
  be_value (take n (drop (pc + 1) Code ++ replicate n 0)).

Lemma loadPushValue_spec Code pc n :
  Forall is_byte Code -> (n <= 32)%nat -> loadPushValue Code pc n = push_operand Code pc n.
Proof.
  intros Hb Hn. unfold loadPushValue, push_operand.
  destruct (Nat.leb_spec (length Code) (pc + 1)) as [Hge|Hlt].
  { rewrite drop_ge by done. simpl. rewrite take_ge by (rewrite length_replicate; lia).
    by rewrite be_value_zeros. }
  set (k := Nat.min n (length Code - (pc + 1))).
  destruct (Nat.eqb_spec k 0) as [Hk|Hk].
  { assert (n = 0%nat) as -> by lia. done. }
  assert (k <= length (drop (pc + 1) Code))%nat as Hkl by (rewrite length_drop; lia).
  assert (Forall is_byte (drop (pc + 1) Code)) as Hbd by by apply Forall_drop.
  rewrite loadBeUint256_spec by (done || lia).
  assert (take n (drop (pc + 1) Code ++ replicate n 0) =
          take k (drop (pc + 1) Code) ++ replicate (n - k) 0) as ->.
  { rewrite take_app, length_drop, take_replicate. f_equal.
    - unfold k. destruct (Nat.min_spec n (length Code - (pc + 1))) as [[? ->]|[? ->]]; [done|].
      rewrite !take_ge; [done| |]; rewrite length_drop; lia.
    - f_equal. lia. }
  rewrite be_value_app, be_value_zeros, length_replicate, Z.add_0_r.
  destruct (Nat.eqb_spec (n - k) 0) as [E|E]; simpl negb; cbv iota.
  { rewrite E. lia. }
  assert (in_u (8 * Z.of_nat k) (be_value (take k (drop (pc + 1) Code)))) as Hr.
  { replace (8 * Z.of_nat k) with (8 * Z.of_nat (length (take k (drop (pc + 1) Code))))
      by (rewrite length_take; lia). apply be_value_range. by apply Forall_take. }
  assert (is_u256 (be_value (take k (drop (pc + 1) Code)))) as Hr'
    by (eapply in_u_mono; [|done]; lia).
  rewrite ushl_spec; [|done|unfold in_u; lia].
  rewrite (proj2 (Z.ltb_lt _ _)) by lia. rewrite Z.shiftl_mul_pow2, Z.mul_comm by lia.
  rewrite (Z.mul_comm 8), (Z.mul_comm _ (2 ^ _)). apply Z.mod_small. unfold in_u in Hr.
  assert (0 < 2 ^ (Z.of_nat (n - k) * 8)) by (apply Z.pow_pos_nonneg; lia).
  split; [nia|]. apply (Z.lt_le_trans _ (2 ^ (Z.of_nat (n - k) * 8) * 2 ^ (8 * Z.of_nat k))); [nia|].
  rewrite <- Z.pow_add_r by lia. apply Z.pow_le_mono_r; lia.
Qed.

Lemma push_operand_range Code pc n :
  Forall is_byte Code -> (n <= 32)%nat -> is_u256 (push_operand Code pc n).
Proof.
  intros Hb Hn. unfold push_operand.
  apply (in_u_mono (8 * Z.of_nat (length (take n (drop (pc + 1) Code ++ replicate n 0))))).
  - rewrite length_take. lia.
  - apply be_value_range, Forall_take, Forall_app. split; [by apply Forall_drop|apply Forall_zeros].
Qed.
End PushValue.

(** * Instruction boundaries *)

Section Boundaries.
Context (Code : list Z).

(** [i] is an instruction boundary when decoding starts at [pc]. *)
Inductive reach : nat -> nat -> Prop :=
| reach_here pc : (pc < length Code)%nat -> reach pc pc
| reach_next pc b i : Code !! pc = Some b -> reach (pc + opcodeLen b) i -> reach pc i.

Definition boundary (i : nat) : Prop := reach 0 i.

Lemma reach_ge pc i : reach pc i -> (pc <= i < length Code)%nat.
Proof. induction 1 as [|pc b i Hb _ IH]; [done|]. pose proof (opcodeLen_pos b). lia. Qed.

Lemma reach_inv pc b i :
  Code !! pc = Some b -> reach pc i -> i = pc \/ reach (pc + opcodeLen b) i.
Proof. intros Hb Hr. destruct Hr; simplify_eq; auto. Qed.

Lemma reach_trans pc i j : reach pc i -> reach i j -> reach pc j.
Proof. induction 1; intros; [done|eapply reach_next; eauto]. Qed.

Lemma reach_dec pc i : {reach pc i} + {~ reach pc i}.
Proof.
  remember (length Code - pc)%nat as n eqn:Hn. revert pc Hn.
  induction n as [n IH] using lt_wf_rec. intros pc ->.
  destruct (decide (i = pc)) as [->|Hne].
  { destruct (decide (pc < length Code)%nat) as [Hlt|Hge]; [left; by apply reach_here|].
    right. intros Hr. apply reach_ge in Hr. lia. }
  destruct (Code !! pc) as [b|] eqn:Hb.
  - pose proof (lookup_lt_Some _ _ _ Hb). pose proof (opcodeLen_pos b).
    destruct (IH (length Code - (pc + opcodeLen b))%nat ltac:(lia) (pc + opcodeLen b)%nat eq_refl)
      as [Hr|Hr].
    + left. by eapply reach_next.
    + right. intros Hr'. destruct (reach_inv _ _ _ Hb Hr'); [done|by destruct Hr].
  - right. intros Hr. destruct Hr as [|? ? ? Hb']; [done|congruence].
Qed.

Lemma boundary_dec i : {boundary i} + {~ boundary i}.
Proof. apply reach_dec. Qed.

(** [i] is a boundary whose byte passes the test. *)
Definition marks (P : Z -> bool) (pc i : nat) : Prop :=
  reach pc i /\ exists b, Code !! i = Some b /\ P b = true.

Lemma marks_next P pc b i :
  Code !! pc = Some b -> marks P (pc + opcodeLen b) i -> marks P pc i.
Proof. intros Hb [Hr Hm]. split; [by eapply reach_next|done]. Qed.

Lemma marks_past P pc i : marks P pc i -> (pc <= i < length Code)%nat.
Proof. intros [Hr _]. by apply reach_ge. Qed.

(** A pass over the boundaries that writes an entry where the test holds. *)
Section Pass.
Context {A : Type} (P : Z -> bool) (v : nat -> Z -> A).

Fixpoint pass (fuel pc : nat) (M : list A) : list A :=
  match fuel, Code !! pc with
  | S fuel', Some b => pass fuel' (pc + opcodeLen b) (if P b then <[pc := v pc b]> M else M)
  | _, _ => M
  end.

Lemma length_pass fuel pc M : length (pass fuel pc M) = length M.
Proof.
  revert pc M. induction fuel as [|fuel IH]; intros pc M; simpl; [done|].
  destruct (Code !! pc) as [b|]; [|done]. rewrite IH.
  destruct (P b); by rewrite ?length_insert.
Qed.

Lemma pass_unmarked fuel pc M i : ~ marks P pc i -> pass fuel pc M !! i = M !! i.
Proof.
  revert pc M. induction fuel as [|fuel IH]; intros pc M Hn; simpl; [done|].
  destruct (Code !! pc) as [b|] eqn:Hb; [|done].
  rewrite IH by (intros Hm; by eapply Hn, marks_next).
  destruct (P b) eqn:Hp; [|done]. apply list_lookup_insert_ne. intros <-. apply Hn.
  split; [apply reach_here; by eapply lookup_lt_Some|]. eauto.
Qed.

Lemma pass_marked fuel pc M i b :
  (length Code - pc <= fuel)%nat -> length M = length Code ->
  reach pc i -> Code !! i = Some b -> P b = true -> pass fuel pc M !! i = Some (v i b).
Proof.
  revert pc M. induction fuel as [|fuel IH]; intros pc M Hfuel HM Hr Hi Hp; simpl.
  { apply reach_ge in Hr. lia. }
  pose proof (reach_ge _ _ Hr). destruct (Code !! pc) as [b'|] eqn:Hb;
    [|apply lookup_ge_None in Hb; lia].
  pose proof (opcodeLen_pos b'). destruct (reach_inv _ _ _ Hb Hr) as [->|Hr'].
  - simplify_eq. rewrite pass_unmarked by (intros Hm%marks_past; lia).
    rewrite Hp. by apply list_lookup_insert_eq; lia.
  - apply IH; [lia| |done..]. destruct (P b'); by rewrite ?length_insert.
Qed.
End Pass.
End Boundaries.

Definition isJumpdest (b : Z) : bool := b =? byte_of_opcode OP_JUMPDEST.

Section Maps.
Context {I : Intx} {IL : IntxLaws I}.
Context (Code : list Z).

(** The loop that fills the two maps is one pass for each. *)
Lemma jumpPushLoop_pass fuel pc J P :
  jumpPushLoop fuel Code pc J P =
  (pass Code isJumpdest (fun _ _ => 1) fuel pc J,
   pass Code isPushOpcode (fun i b => loadPushValue Code i (pushNumBytes b)) fuel pc P).
Proof.
  revert pc J P. induction fuel as [|fuel IH]; intros pc J P; [done|]. cbn [jumpPushLoop pass].
  destruct (Code !! pc) as [b|]; [|done]. fold (isJumpdest b).
  destruct (isJumpdest b) eqn:Hj.
  - apply Z.eqb_eq in Hj as ->. apply IH.
  - destruct (isPushOpcode b) eqn:Hp; rewrite IH.
    + rewrite (opcodeLen_push b Hp). unfold pushNumBytes. by rewrite Nat.add_assoc.
    + by rewrite (opcodeLen_other b Hp).
Qed.

Lemma pushNumBytes_le b : isPushOpcode b = true -> (pushNumBytes b <= 32)%nat.
Proof.
  intros [Hl%Z.leb_le Hr%Z.leb_le]%andb_true_iff. unfold pushNumBytes, OP_PUSH1, OP_PUSH32 in *.
  rewrite wrap_small by (unfold in_u; lia). lia.
Qed.
End Maps.

(** * Gas blocks *)

Section Blocks.
Context (Code : list Z) (MT : metrics).

Lemma u64_add a b : u64 (u64 a + b) = u64 (a + b).
Proof. unfold wrap. apply Zplus_mod_idemp_l. Qed.

Lemma extendBlock_chunk fuel M Block pc b :
  (length Code - pc <= fuel)%nat -> Code !! pc = Some b ->
  pc = Start Block \/ M !! pc <> Some true ->
  let '(Block', e) := extendBlock Code MT fuel M Block pc in
  Start Block' = Start Block /\
  exists c, chunk_from Code MT pc e c /\ Cost Block' = u64 (Cost Block + c).
Proof.
  revert Block pc b. induction fuel as [|fuel IH]; intros Block pc b Hfuel Hb Hst.
  { apply lookup_lt_Some in Hb. lia. }
  cbn [extendBlock]. rewrite Hb.
  destruct (negb (pc =? Start Block)%nat && default false (M !! pc)) eqn:Et.
  { exfalso. apply andb_true_iff in Et as [Et1%negb_true_iff Et2].
    apply Nat.eqb_neq in Et1. destruct Hst as [|Hst]; [done|].
    destruct (M !! pc) as [[]|] eqn:Em; simpl in *; congruence. }
  destruct (isGasChunkTerminator b) eqn:Ht.
  { split; [done|]. exists (MT b). split; [by apply chunk_last|done]. }
  set (Block1 := mkBlock _ _ _ _ _ _ _ _ _).
  assert (forall fuel', (Code !! (pc + opcodeLen b)%nat = None \/
    (pc + opcodeLen b)%nat <> Start Block /\ M !! (pc + opcodeLen b)%nat = Some true) ->
    extendBlock Code MT fuel' M Block1 (pc + opcodeLen b) = (Block1, (pc + opcodeLen b)%nat))
    as Hstop.
  { intros [|fuel'] Hc; [done|]. cbn [extendBlock]. destruct Hc as [->|[Hne Hm]]; [done|].
    destruct (Code !! (pc + opcodeLen b)%nat); [|done]. rewrite Hm. change (Start Block1) with (Start Block).
    by rewrite (proj2 (Nat.eqb_neq _ _) Hne). }
  destruct (Code !! (pc + opcodeLen b)%nat) as [b'|] eqn:Hb'.
  2: { rewrite Hstop by auto. split; [done|]. exists (MT b). split; [by apply chunk_last|done]. }
  destruct (decide ((pc + opcodeLen b)%nat <> Start Block /\ M !! (pc + opcodeLen b)%nat = Some true))
    as [Hs|Hs].
  { rewrite Hstop by auto. split; [done|]. exists (MT b). split; [by apply chunk_last|done]. }
  pose proof (opcodeLen_pos b).
  specialize (IH Block1 (pc + opcodeLen b)%nat b' ltac:(lia) Hb').
  destruct (extendBlock _ _ _ _ _ _) as [Block' e].
  destruct IH as (Hst' & c & Hch & Hcost).
  - simpl. destruct (decide ((pc + opcodeLen b)%nat = Start Block)); [by left|right]. tauto.
  - split; [done|]. exists (MT b + c). split; [by eapply chunk_cons|].
    rewrite Hcost. simpl Cost. rewrite u64_add. by rewrite Z.add_assoc.
Qed.

(** A block is a stretch of code with its cost. *)
Definition block_ok (B : GasBlock) : Prop :=
  exists e c, chunk_from Code MT (Start B) e c /\ End_ B = cast32 e /\ Cost B = u64 c.

Lemma cast32_small n : Z.of_nat n < 2 ^ 32 -> cast32 n = n.
Proof. intros. unfold cast32. rewrite wrap_small by (unfold in_u; lia). lia. Qed.

Lemma chunk_from_end pc e c : chunk_from Code MT pc e c -> (e <= length Code + 33)%nat.
Proof.
  induction 1 as [pc b Hb|]; [|done]. apply lookup_lt_Some in Hb.
  assert (opcodeLen b <= 33)%nat; [|lia].
  destruct ((OP_PUSH1 <=? b) && (b <=? OP_PUSH32)) eqn:E.
  - rewrite opcodeLen_push by done. pose proof (pushNumBytes_le b E). lia.
  - rewrite opcodeLen_other by done. lia.
Qed.

Lemma collectBlocks_ok fuel M pc Blocks At :
  Z.of_nat (length Code) + 64 <= 2 ^ 32 ->
  Forall block_ok Blocks -> Forall block_ok (collectBlocks Code MT fuel M pc Blocks At).1.
Proof.
  intros Hsize. revert pc Blocks At. induction fuel as [|fuel IH]; intros pc Blocks At Hok; [done|].
  cbn [collectBlocks]. destruct (Nat.leb_spec (length Code) pc) as [|Hlt]; [done|].
  destruct (default false (M !! pc)) eqn:Em; simpl negb; cbv iota; [|by apply IH].
  assert (Start (newBlock pc) = pc) as Hst by (simpl; apply cast32_small; lia).
  destruct (Nat.leb_spec (length Code) (Start (newBlock pc))); [done|].
  destruct (lookup_lt_is_Some_2 Code pc Hlt) as [b Hb].
  pose proof (extendBlock_chunk (length Code) M (newBlock pc) pc b ltac:(lia) Hb
    (or_introl (eq_sym Hst))) as He.
  destruct (extendBlock _ _ _ _ _ _) as [Block e]. destruct He as (Hst' & c & Hch & Hcost).
  apply IH. apply Forall_app. split; [done|]. constructor; [|done].
  exists e, c. simpl. rewrite Hst', Hst. by rewrite Hcost.
Qed.

Lemma buildGasBlocks_ok :
  Z.of_nat (length Code) + 64 <= 2 ^ 32 -> Forall block_ok (buildGasBlocks Code MT).1.
Proof.
  intros Hsize. unfold buildGasBlocks. destruct (length Code =? 0)%nat; [done|].
  by apply collectBlocks_ok.
Qed.
End Blocks.
