(* ===== verification/SppSets.v ===== *)
(** Flag vectors, bit sets and work lists of the graph passes: what a mark
    does, that a work list ends within its fuel, and that it marks exactly
    what is reachable; then dominators, and the end of the other passes. *)

From stdpp Require Export relations.
From S2P Require Import Prelude Intx Evmc GasStorageCost HandlerUtil BytecodeCache SppGraph Spp.

#[local] Open Scope Z_scope.

(** ** Counting *)

(** How many of the first [n] numbers satisfy [P]. *)
Fixpoint count (n : nat) (P : nat -> bool) : nat :=
  match n with
  | O => 0
  | S n' => (if P n' then 1 else 0) + count n' P
  end.

Section Count.
Implicit Types (P Q : nat -> bool).

Lemma count_le n P : (count n P <= n)%nat.
Proof. induction n as [|n IH]; cbn; [|destruct (P n)]; lia. Qed.

Lemma count_mono n P Q :
  (forall k, (k < n)%nat -> P k = true -> Q k = true) -> (count n P <= count n Q)%nat.
Proof.
  intros H. induction n as [|n IH]; cbn; [lia|].
  assert (count n P <= count n Q)%nat by (apply IH; intros; apply H; [lia|done]).
  destruct (P n) eqn:E; [rewrite (H n) by (lia || done)|destruct (Q n)]; lia.
Qed.

(** One number gained, at least one more counted. *)
Lemma count_gain n P Q k :
  (forall k, (k < n)%nat -> P k = true -> Q k = true) -> (k < n)%nat -> P k = false ->
  Q k = true -> (count n P < count n Q)%nat.
Proof.
  intros H. induction n as [|n IH]; cbn; intros Hk HP HQ; [lia|].
  destruct (Nat.eq_dec k n) as [->|Hne].
  - rewrite HP, HQ. assert (count n P <= count n Q)%nat; [|lia].
    apply count_mono; intros; apply H; [lia|done].
  - assert (count n P < count n Q)%nat by (apply IH; [intros; apply H; [lia|done]|lia|done..]).
    destruct (P n) eqn:E; [rewrite (H n) by (lia || done)|destruct (Q n)]; lia.
Qed.
End Count.

Lemma sum_list_with_insert {A} (f : A -> nat) l n x old :
  l !! n = Some old -> (sum_list_with f (<[n := x]> l) + f old = sum_list_with f l + f x)%nat.
Proof.
  revert n. induction l as [|y l IH]; intros [|n] H; csimpl in *; simplify_eq; [lia|].
  specialize (IH n H). lia.
Qed.

(** ** Marking *)

(** A set representation: [mark] adds one element, [test] reads membership. *)
Class Marking {M : Type} (N : nat) (good : M -> Prop) (test : M -> nat -> bool)
    (mark : M -> nat -> M) : Prop := {
  mark_good m n : good m -> good (mark m n);
  mark_test m n k : good m -> (n < N)%nat -> test (mark m n) k = (n =? k)%nat || test m k;
}.

Lemma flagAt_setFlag l n k :
  (n < length l)%nat -> flagAt (setFlag l n) k = (n =? k)%nat || flagAt l k.
Proof.
  intros H. unfold flagAt, setFlag. destruct (Nat.eqb_spec n k) as [->|Hne].
  - by rewrite list_lookup_insert_eq.
  - by rewrite list_lookup_insert_ne.
Qed.

Lemma flagAt_replicate n k : flagAt (replicate n false) k = false.
Proof.
  unfold flagAt. destruct (replicate n false !! k) eqn:E; [|done].
  by apply lookup_replicate in E as [-> _].
Qed.

Lemma flagAt_lt l k : flagAt l k = true -> (k < length l)%nat.
Proof.
  unfold flagAt. destruct (l !! k) eqn:E; [intros _; by eapply lookup_lt_Some|done].
Qed.

#[export] Instance flag_marking N : Marking N (fun l => length l = N) flagAt setFlag.
Proof.
  split; [intros; unfold setFlag; by rewrite length_insert|].
  intros m n k <- ?. by apply flagAt_setFlag.
Qed.

(** ** Bit sets *)

Definition good_bits (words : nat) (b : bitset) : Prop := length b = words /\ Forall is_u64 b.

Lemma words_enough n k : (k < n -> k / 64 < bitsetWordCount n)%nat.
Proof.
  unfold bitsetWordCount. intros H.
  pose proof (Nat.div_mod_eq k 64). pose proof (Nat.mod_upper_bound k 64 ltac:(lia)).
  pose proof (Nat.div_mod_eq (n + 63) 64). pose proof (Nat.mod_upper_bound (n + 63) 64 ltac:(lia)).
  lia.
Qed.

Lemma land_bit w j : 0 <= j -> negb (Z.land w (Z.shiftl 1 j) =? 0) = Z.testbit w j.
Proof.
  intros Hj. destruct (Z.testbit w j) eqn:E.
  - apply negb_true_iff, Z.eqb_neq. intros H.
    assert (Z.testbit (Z.land w (Z.shiftl 1 j)) j = true) as Hb; [|by rewrite H, Z.bits_0 in Hb].
    rewrite Z.land_spec, E, Z.shiftl_spec, Z.sub_diag by done. done.
  - apply negb_false_iff, Z.eqb_eq, Z.bits_inj'. intros i Hi.
    rewrite Z.land_spec, Z.bits_0. destruct (Z.eq_dec i j) as [->|]; [by rewrite E|].
    rewrite Z.shiftl_1_l, Z.pow2_bits_false by done. apply andb_false_r.
Qed.

Lemma bitsetTest_testbit b k :
  bitsetTest b k = Z.testbit (default 0 (b !! (k / 64)%nat)) (Z.of_nat (k mod 64)).
Proof. unfold bitsetTest, bitOf. apply land_bit. lia. Qed.

Lemma bitOf_u64 k : is_u64 (bitOf k).
Proof.
  unfold bitOf. rewrite Z.shiftl_1_l. pose proof (Nat.mod_upper_bound k 64 ltac:(lia)).
  split; [lia|]. apply Z.pow_lt_mono_r; lia.
Qed.

Lemma good_bitsetZero words : good_bits words (bitsetZero words).
Proof. split; [apply length_replicate|]. by apply Forall_replicate. Qed.

Lemma bitsetTest_zero words k : bitsetTest (bitsetZero words) k = false.
Proof.
  rewrite bitsetTest_testbit. unfold bitsetZero.
  destruct (replicate words 0 !! (k / 64)%nat) as [w|] eqn:E.
  - apply lookup_replicate in E as [-> _]. apply Z.bits_0.
  - change (Z.testbit 0 (Z.of_nat (k mod 64)) = false). apply Z.bits_0.
Qed.

Lemma good_bitsetSet words b n : good_bits words b -> good_bits words (bitsetSet b n).
Proof.
  intros [Hl Hf]. split; [unfold bitsetSet; by rewrite length_alter|].
  apply Forall_alter; [done|]. intros x _ ?. apply in_u_lor; [done..|apply bitOf_u64].
Qed.

Lemma bitsetTest_set words b n k :
  good_bits words b -> (n / 64 < words)%nat ->
  bitsetTest (bitsetSet b n) k = (n =? k)%nat || bitsetTest b k.
Proof.
  intros [Hl _] Hn. rewrite !bitsetTest_testbit. unfold bitsetSet.
  destruct (lookup_lt_is_Some_2 b (n / 64)%nat) as [w Hw]; [lia|].
  destruct (Nat.eq_dec (n / 64)%nat (k / 64)%nat) as [E|E].
  - rewrite <- E, list_lookup_alter_eq, Hw. cbn [fmap option_fmap option_map default from_option id]. rewrite Z.lor_spec, orb_comm. f_equal.
    unfold bitOf. rewrite Z.shiftl_1_l. pose proof (Nat.div_mod_eq n 64).
    pose proof (Nat.div_mod_eq k 64). destruct (Nat.eqb_spec n k) as [->|Hne].
    + by rewrite Z.pow2_bits_true by lia.
    + by rewrite Z.pow2_bits_false by lia.
  - rewrite list_lookup_alter_ne by done. destruct (Nat.eqb_spec n k) as [->|]; done.
Qed.

#[export] Instance bits_marking N :
  Marking N (good_bits (bitsetWordCount N)) bitsetTest bitsetSet.
Proof.
  split; [intros; by apply good_bitsetSet|].
  intros. eapply bitsetTest_set; [done|]. by apply words_enough.
Qed.

Lemma good_bitsetAnd words a b :
  good_bits words a -> good_bits words b -> good_bits words (bitsetAnd a b).
Proof.
  intros [Ha Fa] [Hb Fb]. unfold bitsetAnd. split; [rewrite length_zip_with; lia|].
  apply Forall_lookup. intros i w Hw. apply lookup_zip_with_Some in Hw as (x & y & -> & Hx & Hy).
  rewrite Forall_lookup in Fa, Fb. apply in_u_land; [done|by eapply Fa|by eapply Fb].
Qed.

Lemma bitsetTest_and words a b k :
  good_bits words a -> good_bits words b ->
  bitsetTest (bitsetAnd a b) k = bitsetTest a k && bitsetTest b k.
Proof.
  intros [Ha _] [Hb _]. rewrite !bitsetTest_testbit. unfold bitsetAnd. rewrite lookup_zip_with.
  destruct (a !! (k / 64)%nat) as [x|] eqn:Ea; [|cbn; by rewrite Z.testbit_0_l].
  destruct (lookup_lt_is_Some_2 b (k / 64)%nat) as [y ->].
  { apply lookup_lt_Some in Ea. lia. }
  apply Z.land_spec.
Qed.

Lemma good_bitsetSetAll words b n : good_bits words b -> good_bits words (bitsetSetAll b n).
Proof.
  intros [Hl _]. unfold bitsetSetAll.
  assert (good_bits words (map (fun _ => UINT64_MAX) b)) as Hg.
  { split; [by rewrite length_map|]. apply List.Forall_forall. intros x Hx.
    apply in_map_iff in Hx as (? & <- & _). unfold UINT64_MAX, in_u. lia. }
  destruct (Nat.eqb_spec (n mod 64)%nat 0); [done|]. destruct Hg as [Hg1 Hg2].
  split; [by rewrite length_insert|]. apply Forall_insert; [done|].
  pose proof (bitOf_u64 n) as Hb. unfold bitOf, in_u in *. rewrite Z.shiftl_1_l in *. lia.
Qed.

(** All bits of the blocks are set. *)
Lemma bitsetTest_setAll n b k :
  good_bits (bitsetWordCount n) b -> (k < n)%nat -> bitsetTest (bitsetSetAll b n) k = true.
Proof.
  intros [Hl _] Hk. pose proof (words_enough n k Hk) as Hw.
  pose proof (Nat.div_mod_eq k 64). pose proof (Nat.mod_upper_bound k 64 ltac:(lia)).
  assert (map (fun _ => UINT64_MAX) b !! (k / 64)%nat = Some UINT64_MAX) as Hm.
  { rewrite list_lookup_fmap. destruct (lookup_lt_is_Some_2 b (k / 64)%nat) as [y ->]; [lia|done]. }
  assert (Z.testbit UINT64_MAX (Z.of_nat (k mod 64)) = true) as Hall.
  { change UINT64_MAX with (Z.ones 64). apply Z.ones_spec_low. lia. }
  rewrite bitsetTest_testbit. unfold bitsetSetAll.
  destruct (Nat.eqb_spec (n mod 64)%nat 0); [by rewrite Hm|].
  rewrite length_map. destruct (Nat.eq_dec (length b - 1)%nat (k / 64)%nat) as [E|E].
  - rewrite E, list_lookup_insert_eq by (rewrite length_map; lia).
    cbn [default]. change (Z.shiftl 1 (Z.of_nat (n mod 64)) - 1) with
      (Z.pred (Z.shiftl 1 (Z.of_nat (n mod 64)))).
    change (Z.pred (Z.shiftl 1 (Z.of_nat (n mod 64)))) with (Z.ones (Z.of_nat (n mod 64))).
    apply Z.ones_spec_low. unfold bitsetWordCount in Hl.
    pose proof (Nat.div_mod_eq n 64). pose proof (Nat.mod_upper_bound n 64 ltac:(lia)).
    pose proof (Nat.div_mod_eq (n + 63) 64). pose proof (Nat.mod_upper_bound (n + 63) 64 ltac:(lia)).
    lia.
  - rewrite list_lookup_insert_ne by done. by rewrite Hm.
Qed.

Lemma bits_ext words a b :
  good_bits words a -> good_bits words b ->
  (forall k, (k < 64 * words)%nat -> bitsetTest a k = bitsetTest b k) -> a = b.
Proof.
  intros [Ha Fa] [Hb Fb] H. rewrite Forall_lookup in Fa, Fb.
  apply list_eq_same_length with words; [lia..|]. intros i x y Hi Hx Hy.
  apply Z.bits_inj'. intros j Hj. destruct (Z.lt_ge_cases j 64) as [Hlt|Hge].
  - pose proof (H (64 * i + Z.to_nat j)%nat ltac:(lia)) as Ht. rewrite !bitsetTest_testbit in Ht.
    rewrite Nat.mul_comm, Nat.div_add_l, Nat.div_small, Nat.add_0_r in Ht by lia.
    rewrite Nat.add_comm, Nat.Div0.mod_add, Nat.mod_small in Ht by lia.
    rewrite Hx, Hy in Ht. cbn [default from_option id] in Ht. by rewrite Z2Nat.id in Ht.
  - rewrite !(u_bits_high 64); [done|lia|by eapply Fb|lia|lia|by eapply Fa|lia].
Qed.

(** ** Work lists *)

Section Worklist.
Context {M : Type} (N : nat) (good : M -> Prop) (test : M -> nat -> bool) (mark : M -> nat -> M).
Context {HM : Marking N good test mark}.
Context (nexts : nat -> list nat) (allowed : nat -> bool).

Definition edge (a b : nat) : Prop :=
  (a < N)%nat /\ b ∈ nexts a /\ (b < N)%nat /\ allowed b = true.

Definition unmarked (m : M) : nat := count N (fun i => negb (test m i)).

Lemma unmarked_mark m n :
  good m -> (n < N)%nat -> test m n = false -> (unmarked (mark m n) < unmarked m)%nat.
Proof.
  intros Hg Hn Ht. apply count_gain with n; [|done| |].
  - intros k _. rewrite (mark_test m n k) by done. by destruct (n =? k)%nat.
  - by rewrite (mark_test m n n), Nat.eqb_refl by done.
  - by rewrite Ht.
Qed.

(** Visiting the neighbours [ns] marks the allowed ones and pushes those
    that were new. *)
Record visited_all (ns : list nat) (m : M) (St : list nat) (m' : M) (St' : list nat) : Prop := {
  va_good : good m';
  va_size : (length St' + unmarked m' <= length St + unmarked m)%nat;
  va_new : forall k, test m' k = true <-> test m k = true \/ k ∈ ns /\ (k < N)%nat /\ allowed k = true;
  va_stack : forall k, k ∈ St' <-> k ∈ St \/ test m k = false /\ test m' k = true;
}.

Lemma visit_all ns m St m' St' :
  good m -> fold_left (visitNext test mark N allowed) ns (m, St) = (m', St') ->
  visited_all ns m St m' St'.
Proof.
  revert m St. induction ns as [|n ns IH]; intros m St Hg; cbn [fold_left].
  { intros [= <- <-]. split; [done|lia| |].
    - intros k. rewrite elem_of_nil. tauto.
    - intros k. split; [by left|]. intros [?|[? ?]]; congruence. }
  assert (forall k, k ∈ n :: ns <-> k = n \/ k ∈ ns) as Hc by (intros; apply elem_of_cons).
  assert ((n < N)%nat /\ allowed n = true /\ test m n = false \/
          (forall k, k = n -> (k < N)%nat -> allowed k = true -> test m k = true) /\
          visitNext test mark N allowed (m, St) n = (m, St)) as [(Hn & Ea & Et)|[Hskip ->]].
  { cbn [visitNext]. destruct (Nat.leb_spec N n); [right; split; [intros; lia|done]|].
    destruct (allowed n) eqn:?; cbn [negb]; [|right; split; [congruence|done]].
    destruct (test m n) eqn:?; [right; split; [congruence|done]|by left]. }
  2:{ intros Hf. destruct (IH m St Hg Hf) as [H1 H2 H3 H4]. split; [done..| |done].
      intros k. rewrite H3, Hc. specialize (Hskip k). tauto. }
  cbn [visitNext]. rewrite (proj2 (Nat.leb_gt _ _) Hn), Ea, Et. cbn [negb]. intros Hf.
  destruct (IH (mark m n) (n :: St) (mark_good _ _ Hg) Hf) as [H1 H2 H3 H4].
  assert (forall k, test (mark m n) k = true <-> k = n \/ test m k = true) as Hk.
  { intros k. rewrite (mark_test m n k) by done. destruct (Nat.eqb_spec n k); cbn.
    - split; [by left|done].
    - split; [by right|intros [?|?]; congruence]. }
  split; [done| | |].
  - pose proof (unmarked_mark m n Hg Hn Et). cbn [length] in H2. lia.
  - intros k. rewrite H3, Hk, Hc. destruct (decide (k = n)) as [->|]; tauto.
  - intros k. rewrite H4, elem_of_cons. destruct (decide (k = n)) as [->|Hne].
    + assert (test (mark m n) n = true) by (apply Hk; by left).
      assert (test m' n = true) by (apply H3; by left). tauto.
    + rewrite <- !not_true_iff_false, Hk. tauto.
Qed.

Lemma worklist_total fuel m visited St :
  good m -> (length St + unmarked m <= fuel)%nat ->
  exists r, worklist test mark N nexts allowed fuel m visited St = Some r /\ good r.1.
Proof.
  revert m visited St. induction fuel as [|fuel IH]; intros m visited St Hg Hf.
  { destruct St; [|cbn in Hf; lia]. eexists. split; [reflexivity|done]. }
  destruct St as [|n St]; cbn [worklist]; [eexists; split; [reflexivity|done]|].
  cbn [length] in Hf. destruct (Nat.leb_spec N n); [apply IH; [done|lia]|].
  destruct (fold_left _ _ _) as [m' St'] eqn:E.
  destruct (visit_all _ _ _ _ _ Hg E) as [H1 H2 _ _].
  apply IH; [done|lia].
Qed.

(** Nothing marked has an unmarked neighbour, but for the stacked nodes. *)
Definition closed (m : M) (St : list nat) : Prop :=
  (forall k, k ∈ St -> test m k = true) /\
  forall a b, test m a = true -> edge a b -> a ∈ St \/ test m b = true.

Lemma worklist_spec fuel m visited St r :
  good m -> closed m St ->
  worklist test mark N nexts allowed fuel m visited St = Some r ->
  (forall k, test m k = true -> test r.1 k = true) /\
  closed r.1 [] /\
  (forall k, test r.1 k = true -> exists a, test m a = true /\ rtc edge a k).
Proof.
  revert m visited St. induction fuel as [|fuel IH]; intros m visited St Hg Hc Hr.
  { destruct St; [|done]. injection Hr as <-. split_and!; [done..|]. intros k Hk. by exists k. }
  destruct St as [|n St]; cbn [worklist] in Hr.
  { injection Hr as <-. split_and!; [done..|]. intros k Hk. by exists k. }
  destruct Hc as [Hs Hc]. destruct (Nat.leb_spec N n) as [Hn|Hn].
  { apply IH in Hr; [done..|]. split; [intros k Hk; apply Hs; by constructor|].
    intros a b Ha He. destruct (Hc a b Ha He) as [Hin|]; [|by right].
    apply elem_of_cons in Hin as [->|]; [|by left]. destruct He as [? _]. lia. }
  destruct (fold_left _ _ _) as [m' St'] eqn:E.
  destruct (visit_all _ _ _ _ _ Hg E) as [H1 _ H3 H4].
  apply IH in Hr as (Hm & Hcl & Hreach); [|done|].
  - split_and!; [|done|].
    + intros k Hk. apply Hm, H3. by left.
    + intros k Hk. destruct (Hreach k Hk) as (a & Ha & Hrtc). apply H3 in Ha as [Ha|(Ha & ? & ?)].
      * by exists a.
      * exists n. split; [apply Hs; by constructor|]. apply rtc_l with a; [|done]. done.
  - split.
    + intros k Hk. apply H4 in Hk as [Hk|[_ Hk]]; [|done]. apply H3. left. apply Hs; by constructor.
    + intros a b Ha He. destruct (test m a) eqn:Ea.
      * destruct (Hc a b Ea He) as [Hin|Hb]; [|right; apply H3; by left].
        apply elem_of_cons in Hin as [->|Hin].
        -- right. apply H3. right. destruct He as (_ & ? & ? & ?). done.
        -- left. apply H4. by left.
      * left. apply H4. by right.
Qed.

Lemma closed_rtc m a b : closed m [] -> test m a = true -> rtc edge a b -> test m b = true.
Proof.
  intros [_ Hc] Ha. induction 1 as [|x y z He _ IH]; [done|]. apply IH.
  destruct (Hc x y Ha He) as [Hn|]; [by apply elem_of_nil in Hn|done].
Qed.
End Worklist.

(** Dominators: the iteration of [computeDominators] ends, and on a graph
    whose entry has no predecessor it computes the dominance relation. *)

#[local] Open Scope Z_scope.

(** Inclusion of bit sets. *)
Definition bsub (a b : bitset) : Prop := forall k, bitsetTest a k = true -> bitsetTest b k = true.

Section Dominators.
Context (Blocks : list GasBlock) (Reachable : list bool).
Let N := length Blocks.
Let W := bitsetWordCount N.
Implicit Types (Dom : list bitset).

Definition good_dom Dom : Prop := length Dom = N /\ Forall (good_bits W) Dom.

Lemma good_domAt Dom n : good_dom Dom -> (n < N)%nat -> good_bits W (domAt Dom n).
Proof.
  intros [Hl Hf] Hn. unfold domAt. destruct (lookup_lt_is_Some_2 Dom n) as [b Hb]; [lia|].
  rewrite Hb. cbn. rewrite Forall_lookup in Hf. by eapply Hf.
Qed.

Lemma domAt_insert Dom n b k :
  good_dom Dom -> (n < N)%nat ->
  domAt (<[n := b]> Dom) k = if (n =? k)%nat then b else domAt Dom k.
Proof.
  intros [Hl _] Hn. unfold domAt. destruct (Nat.eqb_spec n k) as [->|].
  - by rewrite list_lookup_insert_eq by lia.
  - by rewrite list_lookup_insert_ne.
Qed.

Lemma good_domAll : good_bits W (domAll Blocks).
Proof.
  unfold domAll. destruct (_ <? _)%nat; [apply good_bitsetSetAll|]; apply good_bitsetZero.
Qed.

Lemma domAll_test k : (k < N)%nat -> bitsetTest (domAll Blocks) k = true.
Proof.
  intros Hk. unfold domAll. rewrite (proj2 (Nat.ltb_lt 0 (length Blocks))) by (unfold N in *; lia).
  apply bitsetTest_setAll; [apply good_bitsetZero|done].
Qed.

(** *** The transfer function *)

Lemma domPreds_lt n p : p ∈ domPreds Blocks Reachable n -> (p < N)%nat.
Proof. intros Hp. apply list_elem_of_filter in Hp as [[? _] _]. done. Qed.

Lemma fold_and Dom ps acc :
  good_dom Dom -> good_bits W acc -> Forall (fun p => (p < N)%nat) ps ->
  let r := fold_left (fun acc p => bitsetAnd acc (domAt Dom p)) ps acc in
  good_bits W r /\
  forall k, bitsetTest r k = true <->
    bitsetTest acc k = true /\ forall p, p ∈ ps -> bitsetTest (domAt Dom p) k = true.
Proof.
  intros HD. revert acc. induction ps as [|p ps IH]; intros acc Ha Hps; cbn [fold_left].
  { split; [done|]. intros k. split; [|by intros [? _]]. intros ?. split; [done|].
    intros p Hp. by apply elem_of_nil in Hp. }
  apply Forall_cons_1 in Hps as [Hp Hps]. pose proof (good_domAt Dom p HD Hp) as Hg.
  destruct (IH (bitsetAnd acc (domAt Dom p)) (good_bitsetAnd _ _ _ Ha Hg) Hps) as [H1 H2].
  split; [done|]. intros k. rewrite H2, (bitsetTest_and W), andb_true_iff by done.
  setoid_rewrite elem_of_cons. split.
  - intros [[? ?] Hall]. split; [done|]. intros q [->|Hq]; [done|by apply Hall].
  - intros [? Hall]. split; [split; [done|apply Hall; by left]|]. intros q Hq. apply Hall. by right.
Qed.

Lemma domNew_spec Dom n :
  good_dom Dom -> (n < N)%nat ->
  good_bits W (domNew Blocks Reachable Dom n) /\
  forall k, bitsetTest (domNew Blocks Reachable Dom n) k = true <->
    k = n \/ domPreds Blocks Reachable n <> [] /\ bitsetTest (domAll Blocks) k = true /\
      forall p, p ∈ domPreds Blocks Reachable n -> bitsetTest (domAt Dom p) k = true.
Proof.
  intros HD Hn. unfold domNew.
  destruct (fold_and Dom (domPreds Blocks Reachable n) (domAll Blocks) HD good_domAll) as [H1 H2].
  { apply Forall_forall. intros p Hp. by eapply domPreds_lt. }
  set (new := if bool_decide _ then _ else _).
  assert (good_bits W new) as Hg by (subst new; destruct (bool_decide _); [apply good_bitsetZero|done]).
  split; [by apply good_bitsetSet|]. intros k.
  rewrite (bitsetTest_set W), orb_true_iff, Nat.eqb_eq by (done || by apply words_enough).
  subst new. case_bool_decide as E.
  - rewrite bitsetTest_zero. split; [intros [->|?]; [by left|done]|].
    intros [->|[? _]]; [by left|done].
  - rewrite H2. split; (intros [->|?]; [by left|right; tauto]).
Qed.

Lemma domNew_mono Dom Dom' n :
  good_dom Dom -> good_dom Dom' -> (n < N)%nat ->
  (forall p, bsub (domAt Dom' p) (domAt Dom p)) ->
  bsub (domNew Blocks Reachable Dom' n) (domNew Blocks Reachable Dom n).
Proof.
  intros HD HD' Hn Hs k. rewrite (proj2 (domNew_spec Dom' n HD' Hn)), (proj2 (domNew_spec Dom n HD Hn)).
  intros [?|(? & ? & Hall)]; [by left|right]. split_and!; [done..|].
  intros p Hp. by apply Hs, Hall.
Qed.

(** *** The iteration *)

(** [D] is any relation the transfer function respects. *)
Context (D : nat -> nat -> Prop).
Context (HD0 : forall d n, D d n -> noPreds Blocks Reachable n = true -> d = n).
Context (HD1 : forall d n, D d n -> noPreds Blocks Reachable n = false -> d <> n ->
  (d < N)%nat /\ domPreds Blocks Reachable n <> [] /\
  forall p, p ∈ domPreds Blocks Reachable n -> D d p).

Record dom_inv Dom : Prop := {
  di_good : good_dom Dom;
  di_root : forall n, (n < N)%nat -> noPreds Blocks Reachable n = true ->
    forall k, bitsetTest (domAt Dom n) k = true <-> k = n;
  di_down : forall n, (n < N)%nat -> noPreds Blocks Reachable n = false ->
    bsub (domNew Blocks Reachable Dom n) (domAt Dom n);
  di_above : forall d n, (n < N)%nat -> D d n -> bitsetTest (domAt Dom n) d = true;
}.

Definition dom_size Dom : nat := sum_list_with (fun b => count (64 * W) (bitsetTest b)) Dom.

Lemma dom_size_insert Dom n b old :
  Dom !! n = Some old ->
  (dom_size (<[n := b]> Dom) + count (64 * W) (bitsetTest old)
   = dom_size Dom + count (64 * W) (bitsetTest b))%nat.
Proof. apply (sum_list_with_insert (fun b => count (64 * W) (bitsetTest b))). Qed.

Lemma bsub_smaller a b :
  good_bits W a -> good_bits W b -> bsub a b -> a <> b ->
  (count (64 * W) (bitsetTest a) < count (64 * W) (bitsetTest b))%nat.
Proof.
  intros Ha Hb Hs Hne.
  destruct (decide (Forall (fun k => bitsetTest a k = bitsetTest b k) (seq 0 (64 * W)))) as [Hf|Hf].
  { destruct Hne. apply (bits_ext W); [done..|]. intros k Hk. rewrite Forall_forall in Hf.
    apply Hf, elem_of_seq. lia. }
  apply not_Forall_Exists in Hf; [|apply _]. apply Exists_exists in Hf as (k & Hk & Hd).
  apply elem_of_seq in Hk. apply count_gain with k; [by intros ? _; apply Hs|lia| |].
  - apply not_true_iff_false. intros E. destruct Hd. by rewrite E, (Hs k E).
  - apply not_false_iff_true. intros E. destruct Hd. rewrite E. apply not_true_iff_false.
    intros E'. by rewrite (Hs k E') in E.
Qed.

Lemma dom_inv_update Dom n :
  dom_inv Dom -> (n < N)%nat -> noPreds Blocks Reachable n = false ->
  dom_inv (<[n := domNew Blocks Reachable Dom n]> Dom).
Proof.
  intros [[Hl Hf] Hr Hd Ha] Hn Hp. assert (good_dom Dom) as HD by done.
  pose proof (domNew_spec Dom n HD Hn) as [Hg Hs].
  set (new := domNew Blocks Reachable Dom n) in *.
  assert (good_dom (<[n := new]> Dom)) as HD'.
  { split; [by rewrite length_insert|by apply Forall_insert]. }
  assert (forall p, bsub (domAt (<[n := new]> Dom) p) (domAt Dom p)) as Hsub.
  { intros p. rewrite domAt_insert by done. destruct (Nat.eqb_spec n p) as [->|]; [by apply Hd|by intros ?]. }
  split; [done| | |]; intros m.
  - intros Hm Hmp k. rewrite domAt_insert by done. destruct (Nat.eqb_spec n m); [congruence|by apply Hr].
  - intros Hm Hmp. rewrite domAt_insert by done. destruct (Nat.eqb_spec n m) as [<-|].
    + by apply domNew_mono.
    + intros k Hk. by apply (Hd m Hm Hmp), (domNew_mono Dom _ m HD HD' Hm Hsub).
  - intros m' Hm HDm. rewrite domAt_insert by done. destruct (Nat.eqb_spec n m') as [<-|]; [|by apply Ha].
    apply Hs. destruct (decide (m = n)) as [->|Hne]; [by left|right].
    destruct (HD1 m n HDm Hp Hne) as (Hlt & Hnil & Hall). split_and!; [done|by apply domAll_test|].
    intros p Hpp. apply Ha; [by eapply domPreds_lt|by apply Hall].
Qed.

(** One sweep: it keeps the invariant, and either it removed a bit or
    nothing moved and every node it looked at is a fixed point. *)
Record swept (ns : list nat) Dom (ch : bool) Dom' (ch' : bool) : Prop := {
  sw_inv : dom_inv Dom';
  sw_size : (dom_size Dom' <= dom_size Dom)%nat;
  sw_changed : ch' = true -> ch = true \/ (dom_size Dom' < dom_size Dom)%nat;
  sw_fixed : ch' = false -> ch = false /\ Dom' = Dom /\
    forall n, n ∈ ns -> noPreds Blocks Reachable n = false ->
      domNew Blocks Reachable Dom n = domAt Dom n;
}.

Lemma sweep ns Dom ch Dom' ch' :
  dom_inv Dom -> Forall (fun n => (n < N)%nat) ns ->
  fold_left (domStep Blocks Reachable) ns (Dom, ch) = (Dom', ch') -> swept ns Dom ch Dom' ch'.
Proof.
  revert Dom ch. induction ns as [|n ns IH]; intros Dom ch Hi Hns; cbn [fold_left].
  { intros [= <- <-]. split; [done|lia|by left|]. intros ->. split_and!; [done..|].
    intros n Hn. by apply elem_of_nil in Hn. }
  apply Forall_cons_1 in Hns as [Hn Hns]. unfold domStep at 2.
  destruct (noPreds Blocks Reachable n) eqn:Hp.
  { intros Hf. destruct (IH _ _ Hi Hns Hf) as [H1 H2 H3 H4]. split; [done..|].
    intros Hc. destruct (H4 Hc) as (? & ? & Hfix). split_and!; [done..|].
    intros m [->|Hm]%elem_of_cons ?; [congruence|by apply Hfix]. }
  unfold bitsetEqual. case_bool_decide as E; cbn [negb].
  { intros Hf. destruct (IH _ _ Hi Hns Hf) as [H1 H2 H3 H4]. split; [done..|].
    intros Hc. destruct (H4 Hc) as (? & ? & Hfix). split_and!; [done..|].
    intros m [->|Hm]%elem_of_cons ?; [done|by apply Hfix]. }
  intros Hf. destruct (IH _ _ (dom_inv_update Dom n Hi Hn Hp) Hns Hf) as [H1 H2 H3 H4].
  destruct (lookup_lt_is_Some_2 Dom n) as [old Hold].
  { destruct Hi as [[? _] _ _ _]. lia. }
  assert (domAt Dom n = old) as Eo by (unfold domAt; by rewrite Hold).
  pose proof (dom_size_insert Dom n (domNew Blocks Reachable Dom n) old Hold).
  assert (count (64 * W) (bitsetTest (domNew Blocks Reachable Dom n))
          < count (64 * W) (bitsetTest old))%nat.
  { destruct Hi as [Hg Hr Hd Ha]. rewrite <- Eo.
    apply bsub_smaller; [by apply domNew_spec|by apply good_domAt|by apply Hd|done]. }
  split; [done|lia|right; lia|]. intros Hc. by destruct (H4 Hc).
Qed.

(** What the loop returns. *)
Definition dom_fixed Dom : Prop :=
  forall n, (n < N)%nat -> noPreds Blocks Reachable n = false ->
    domNew Blocks Reachable Dom n = domAt Dom n.

Lemma domLoop_total fuel Dom :
  dom_inv Dom -> (dom_size Dom < fuel)%nat ->
  exists Dom', domLoop Blocks Reachable fuel Dom = Some Dom' /\ dom_inv Dom' /\ dom_fixed Dom'.
Proof.
  revert Dom. induction fuel as [|fuel IH]; intros Dom Hi Hf; [lia|]. cbn [domLoop].
  destruct (fold_left _ _ _) as [Dom' ch] eqn:E.
  apply sweep in E as [H1 H2 H3 H4]; [|done|apply Forall_seq; unfold N; lia].
  destruct ch.
  - apply IH; [done|]. destruct (H3 eq_refl); [done|lia].
  - destruct (H4 eq_refl) as (_ & -> & Hfix). eexists. split_and!; [done..|].
    intros n Hn. apply Hfix, elem_of_seq. unfold N in *. lia.
Qed.

Lemma domAt_init n :
  (n < N)%nat ->
  domAt (domInit Blocks Reachable) n =
  if noPreds Blocks Reachable n then bitsetSet (bitsetZero W) n else domAll Blocks.
Proof.
  intros Hn. unfold domAt, domInit. rewrite list_lookup_fmap, lookup_seq_lt by done. done.
Qed.

Lemma dom_inv_init : dom_inv (domInit Blocks Reachable).
Proof.
  assert (good_dom (domInit Blocks Reachable)) as Hg.
  { split; [unfold domInit; by rewrite length_map, length_seq|].
    apply List.Forall_forall. intros b Hb. apply in_map_iff in Hb as (n & <- & _).
    destruct (noPreds _ _ _); [apply good_bitsetSet, good_bitsetZero|apply good_domAll]. }
  split; [done|..].
  - intros n Hn Hp k. rewrite domAt_init, Hp by done.
    rewrite (bitsetTest_set W), bitsetTest_zero, orb_false_r, Nat.eqb_eq
      by (apply good_bitsetZero || by apply words_enough). split; congruence.
  - intros n Hn Hp k. rewrite domAt_init, Hp by done.
    rewrite (proj2 (domNew_spec _ n Hg Hn)). intros [->|(_ & ? & _)]; [by apply domAll_test|done].
  - intros d n Hn Hd. rewrite domAt_init by done. destruct (noPreds _ _ n) eqn:Hp.
    + rewrite (HD0 d n Hd Hp). rewrite (bitsetTest_set W), Nat.eqb_refl
        by (apply good_bitsetZero || by apply words_enough). done.
    + apply domAll_test. destruct (decide (d = n)) as [->|Hne]; [done|].
      by destruct (HD1 d n Hd Hp Hne).
Qed.

Lemma dom_size_le Dom : good_dom Dom -> (dom_size Dom <= N * (64 * W))%nat.
Proof.
  intros [Hl _]. rewrite <- Hl. clear Hl. unfold dom_size.
  induction Dom as [|b Dom IH]; cbn [sum_list_with length]; [lia|].
  pose proof (count_le (64 * W) (bitsetTest b)). lia.
Qed.

Lemma computeDominators_total :
  exists Dom, computeDominators Blocks Reachable = Some Dom /\ dom_inv Dom /\ dom_fixed Dom.
Proof.
  apply domLoop_total; [apply dom_inv_init|].
  pose proof (dom_size_le _ (di_good _ dom_inv_init)). unfold W, N in *. lia.
Qed.
End Dominators.

(** The graph passes always return: the fuel of each loop of [SppGraph] and
    [Spp] is enough, whatever the graph.  Reachability marks exactly the
    blocks with a path from the entry. *)

#[local] Open Scope Z_scope.

(** The control-flow edges between blocks. *)
Abbreviation cfg Blocks :=
  (edge (length Blocks) (fun n => Succs (blockAt Blocks n)) (fun _ => true)).

Section Reachable.
Implicit Types (Blocks : list GasBlock).

Lemma computeReachable_total Blocks Entry :
  exists r, computeReachable Blocks Entry = Some r /\ length r = length Blocks /\
    ((Entry < length Blocks)%nat ->
     forall k, flagAt r k = true <-> rtc (cfg Blocks) Entry k).
Proof.
  unfold computeReachable. destruct (_ || _) eqn:E.
  { eexists. split; [reflexivity|]. split; [apply length_replicate|].
    apply orb_true_iff in E as [E%Nat.eqb_eq|E%Nat.leb_le]; lia. }
  apply orb_false_iff in E as [_ E%Nat.leb_gt].
  set (m0 := setFlag (replicate (length Blocks) false) Entry).
  assert (length m0 = length Blocks) as Hg.
  { subst m0. unfold setFlag. by rewrite length_insert, length_replicate. }
  assert (forall k, flagAt m0 k = true <-> Entry = k) as Hm0.
  { intros k. subst m0. rewrite flagAt_setFlag by (by rewrite length_replicate).
    rewrite flagAt_replicate, orb_false_r. apply Nat.eqb_eq. }
  destruct (worklist_total (length Blocks) (fun l => length l = length Blocks) flagAt setFlag
              (fun n => Succs (blockAt Blocks n)) (fun _ => true)
              (length Blocks + 1) m0 [] [Entry] Hg) as (r & Hr & Hl).
  { cbn [length]. unfold unmarked. pose proof (count_le (length Blocks) (fun i => negb (flagAt m0 i))).
    lia. }
  rewrite Hr. eexists. split; [reflexivity|]. split; [done|]. intros _ k.
  apply (worklist_spec _ (fun l => length l = length Blocks)) in Hr as (Hmono & Hcl & Hreach);
    [|apply _|done|].
  2:{ split.
      - intros j Hj. apply Hm0. by apply elem_of_cons in Hj as [->|Hj%elem_of_nil].
      - intros a b Ha%Hm0 _. left. subst a. by constructor. }
  split.
  - intros Hk. destruct (Hreach k Hk) as (a & Ha%Hm0 & Hp). by subst a.
  - intros Hp. eapply closed_rtc; [done| |done]. by apply Hmono, Hm0.
Qed.

Lemma collectNaturalLoop_total From Header Blocks Reachable :
  exists b, collectNaturalLoop From Header Blocks (length Blocks) Reachable = Some b /\
    good_bits (bitsetWordCount (length Blocks)) b.
Proof.
  unfold collectNaturalLoop. set (m0 := bitsetSet _ From).
  destruct (worklist_total (length Blocks) (good_bits (bitsetWordCount (length Blocks)))
              bitsetTest bitsetSet (fun n => Preds (blockAt Blocks n)) (flagAt Reachable)
              (length Blocks + 1) m0 [] [From]) as (r & Hr & Hg).
  { by apply good_bitsetSet, good_bitsetSet, good_bitsetZero. }
  { cbn [length]. unfold unmarked.
    pose proof (count_le (length Blocks) (fun i => negb (bitsetTest m0 i))). lia. }
  rewrite Hr. by eexists.
Qed.
End Reachable.

(** A left fold over a fallible state that never fails keeps its invariant. *)
Lemma fold_total {S A : Type} (P : S -> Prop) (f : option S -> A -> option S) (ok : A -> Prop) :
  (forall s a, P s -> ok a -> exists s', f (Some s) a = Some s' /\ P s') ->
  forall l s, P s -> Forall ok l -> exists s', fold_left f l (Some s) = Some s' /\ P s'.
Proof.
  intros Hf l. induction l as [|a l IH]; intros s Hs Hl; [by exists s|].
  apply Forall_cons_1 in Hl as [Ha Hl]. destruct (Hf s a Hs Ha) as (s' & Hs' & HP).
  cbn [fold_left]. rewrite Hs'. by apply IH.
Qed.

Lemma seq_lt_ok n : Forall (fun i => (i < n)%nat) (seq 0 n).
Proof. apply Forall_seq. lia. Qed.

(** ** Traversal orders *)

Section Topo.
Context (Blocks : list GasBlock) (BackEdges : list (list nat)).
Let N := length Blocks.

Definition fresh (V : list nat) : nat := count N (fun i => (visitedAt V i =? 0)%nat).

Definition good_visited (V : list nat) : Prop := length V = N /\ Forall (fun v => v <= 2)%nat V.

Lemma good_visited_insert V i x :
  good_visited V -> (x <= 2)%nat -> good_visited (<[i := x]> V).
Proof. intros [? ?] ?. split; [by rewrite length_insert|by apply Forall_insert]. Qed.

Lemma visitedAt_insert V i j x :
  good_visited V -> (i < N)%nat ->
  visitedAt (<[i := x]> V) j = if (i =? j)%nat then x else visitedAt V j.
Proof.
  intros [HV _] Hi. unfold visitedAt. destruct (Nat.eqb_spec i j) as [->|].
  - by rewrite list_lookup_insert_eq by lia.
  - by rewrite list_lookup_insert_ne.
Qed.

Lemma visitedAt_le V i : good_visited V -> (visitedAt V i <= 2)%nat.
Proof.
  intros [_ HV]. unfold visitedAt. destruct (V !! i) eqn:E; [|cbn; lia].
  rewrite Forall_lookup in HV. by eapply HV.
Qed.

(** Giving a new node a positive mark. *)
Lemma fresh_mark V i x :
  good_visited V -> (i < N)%nat -> visitedAt V i = 0%nat ->
  (fresh (<[i := S x]> V) < fresh V)%nat.
Proof.
  intros HV Hi H0. apply count_gain with i; [|done| |by rewrite H0].
  - intros k _. rewrite visitedAt_insert by done. by destruct (i =? k)%nat.
  - by rewrite visitedAt_insert, Nat.eqb_refl by done.
Qed.

Lemma fresh_emit V i x :
  good_visited V -> (i < N)%nat -> (fresh (<[i := S x]> V) <= fresh V)%nat.
Proof.
  intros HV Hi. apply count_mono. intros k _. rewrite visitedAt_insert by done.
  by destruct (i =? k)%nat.
Qed.

Lemma pushSucc_size cur ss V St V' St' :
  good_visited V -> fold_left (pushSucc Blocks BackEdges cur) ss (V, St) = (V', St') ->
  good_visited V' /\ (length St' + fresh V' <= length St + fresh V)%nat.
Proof.
  revert V St. induction ss as [|s ss IH]; intros V St HV; cbn [fold_left].
  { intros [= <- <-]. done. }
  cbn [pushSucc]. fold N. destruct (Nat.leb_spec N s); [by apply IH|].
  destruct (_ && _) eqn:E; [|by apply IH].
  apply andb_true_iff in E as [_ E%Nat.eqb_eq]. intros Hf.
  apply IH in Hf as [? ?]; [|apply good_visited_insert; [done|lia]].
  pose proof (fresh_mark V s 0 HV ltac:(done) E). cbn [length] in *. split; [done|lia].
Qed.

Lemma topoLoop_total fuel V Order St :
  good_visited V -> (length St + fresh V <= fuel)%nat ->
  exists r, topoLoop Blocks BackEdges fuel V Order St = Some r /\ good_visited r.1.
Proof.
  revert V Order St. induction fuel as [|fuel IH]; intros V Order St HV Hf.
  { destruct St; [|cbn in Hf; lia]. by eexists. }
  destruct St as [|cur St]; cbn [topoLoop]; [by eexists|]. cbn [length] in Hf. fold N.
  destruct (Nat.leb_spec N cur); [apply IH; [done|lia]|].
  destruct (Nat.eqb_spec (visitedAt V cur) 2); [apply IH; [done|lia]|].
  destruct (Nat.eqb_spec (visitedAt V cur) 1).
  { pose proof (fresh_emit V cur 1 HV ltac:(done)).
    apply IH; [apply good_visited_insert; [done|lia]|lia]. }
  destruct (fold_left _ _ _) as [V' St'] eqn:E.
  apply pushSucc_size in E as [? Hs]; [|apply good_visited_insert; [done|lia]].
  apply IH; [done|]. cbn [length] in Hs. pose proof (visitedAt_le V cur HV).
  pose proof (fresh_mark V cur 0 HV ltac:(done) ltac:(lia)). lia.
Qed.

Lemma computeReverseTopo_total : is_Some (computeReverseTopo Blocks BackEdges).
Proof.
  unfold computeReverseTopo.
  destruct (fold_total (fun r => good_visited r.1) (topoStart Blocks BackEdges)
              (fun _ => True)) with (seq 0 (length Blocks)) (replicate (length Blocks) 0%nat, @nil nat)
    as ([V Order] & -> & _); [| |by apply Forall_true|by eexists].
  - intros [V Order] i HV _. cbn [topoStart mbind option_bind].
    destruct (negb _); [by eexists|]. apply topoLoop_total; [done|].
    pose proof (count_le N (fun i => (visitedAt V i =? 0)%nat)). unfold fresh. cbn [length].
    unfold N in *. lia.
  - split; [apply length_replicate|]. by apply Forall_replicate; lia.
Qed.
End Topo.

(** ** Blocks on a cycle *)

Section Cycle.
Context (Blocks : list GasBlock).
Let N := length Blocks.

Definition unseen (V : list bool) : nat := count N (fun i => negb (flagAt V i)).

Lemma length_setFlag V i : length (setFlag V i) = length V.
Proof. apply length_insert. Qed.

Lemma unseen_set V i :
  length V = N -> (i < N)%nat -> flagAt V i = false -> (unseen (setFlag V i) < unseen V)%nat.
Proof. intros. by apply (unmarked_mark N (fun l => length l = N) flagAt setFlag). Qed.

Lemma nextSucc_new V ss i s j :
  nextSucc Blocks V ss i = Some (s, j) -> (s < N)%nat /\ flagAt V s = false.
Proof.
  revert i. induction ss as [|x ss IH]; intros i; cbn [nextSucc]; [done|]. fold N.
  destruct (Nat.leb_spec N x); [apply IH|]. destruct (flagAt V x) eqn:E; [apply IH|].
  by intros [= <- _].
Qed.

Lemma dfsLoop_total fuel V Order St :
  length V = N -> (length St + 2 * unseen V <= fuel)%nat ->
  exists r, dfsLoop Blocks fuel V Order St = Some r /\ length r.1 = N.
Proof.
  revert V Order St. induction fuel as [|fuel IH]; intros V Order St HV Hf.
  { destruct St as [|[??]]; [|cbn in Hf; lia]. by eexists. }
  destruct St as [|[n i] St]; cbn [dfsLoop]; [by eexists|]. cbn [length] in Hf.
  destruct (nextSucc _ _ _ _) as [[s j]|] eqn:E; [|apply IH; [done|lia]].
  apply nextSucc_new in E as [Hs Hv]. pose proof (unseen_set V s HV Hs Hv).
  apply IH; [by rewrite length_setFlag|]. cbn [length]. lia.
Qed.

Lemma dfsOrder_total : is_Some (dfsOrder Blocks).
Proof.
  unfold dfsOrder. fold N.
  destruct (fold_total (fun r => length r.1 = N) (dfsStart Blocks) (fun i => (i < N)%nat))
    with (seq 0 N) (replicate N false, @nil nat) as ([V Order] & -> & _);
    [| |apply seq_lt_ok|by eexists].
  - intros [V Order] i HV Hi. cbn [fst] in HV. cbn [dfsStart mbind option_bind].
    destruct (flagAt V i) eqn:E; [by eexists|]. apply dfsLoop_total; [by rewrite length_setFlag|].
    pose proof (unseen_set V i HV Hi E). pose proof (count_le N (fun i => negb (flagAt V i))).
    unfold unseen in *. cbn [length]. unfold N in *. lia.
  - apply length_replicate.
Qed.

Lemma computeInCycle_total : is_Some (computeInCycle Blocks).
Proof.
  unfold computeInCycle. fold N. destruct dfsOrder_total as [Order ->]. cbn [mbind option_bind].
  destruct (fold_total (fun r => length r.2 = N) (componentStart Blocks) (fun _ => True))
    with (rev Order) (replicate N false, replicate N false) as ([C A] & -> & _);
    [| |by apply Forall_true|by eexists].
  - intros [C A] i HA _. cbn [snd] in HA. cbn [componentStart mbind option_bind].
    destruct (flagAt A i); [by eexists|].
    destruct (worklist_total N (fun l => length l = N) flagAt setFlag
                (fun n => Preds (blockAt Blocks n)) (fun _ => true)
                (N + 1) (setFlag A i) [] [i]) as ([A' Comp] & Hr & Hl).
    { by rewrite length_setFlag. }
    { cbn [length]. unfold unmarked.
      pose proof (count_le N (fun j => negb (flagAt (setFlag A i) j))). lia. }
    fold N. rewrite Hr. cbn [mbind option_bind]. destruct (_ <? _)%nat; [by eexists|].
    destruct Comp; by eexists.
  - apply length_replicate.
Qed.
End Cycle.

(** ** The whole pass *)

Section Metering.
Context (Blocks : list GasBlock) (Dom : list bitset) (Reachable : list bool).

Lemma loopEdge_total From st To :
  is_Some (loopEdge Blocks Dom Reachable From (Some st) To).
Proof.
  destruct st as [LB HI]. cbn [loopEdge mbind option_bind].
  destruct (_ <=? _)%nat; [by eexists|]. destruct (negb _); [by eexists|].
  destruct (collectNaturalLoop_total From To Blocks Reachable) as (b & Hb & _).
  destruct (HI !! To); rewrite Hb; by eexists.
Qed.

Lemma loopBuilds_total : is_Some (loopBuilds Blocks Dom Reachable).
Proof.
  unfold loopBuilds.
  match goal with |- context [fold_left ?f ?l (Some ?s)] =>
    destruct (fold_total (fun _ => True) f (fun _ => True)) with l s as (r & -> & _) end;
    [|done|by apply Forall_true|by eexists].
  intros st i _ _. destruct (negb _); [by eexists|].
  apply (fold_total (fun _ => True) _ (fun _ => True)); [|done|by apply Forall_true].
  intros s To _ _. destruct (loopEdge_total i s To) as [s' Hs]. by exists s'.
Qed.

Lemma buildLoops_total : is_Some (buildLoopsUsingDominance Blocks Dom Reachable).
Proof.
  unfold buildLoopsUsingDominance. destruct loopBuilds_total as [LB ->]. cbn [mbind option_bind].
  destruct (negb _); [by eexists|]. destruct (negb _); [by eexists|].
  destruct (fold_left _ _ _) as [[L E] F]. by eexists.
Qed.
End Metering.

Lemma sppMetering_total Blocks : is_Some (sppMetering Blocks).
Proof.
  unfold sppMetering. destruct (computeReachable_total Blocks 0) as (R & -> & _).
  cbn [mbind option_bind].
  destruct (computeDominators_total Blocks R (fun _ _ => False)) as (Dom & -> & _); [done..|].
  cbn [mbind option_bind].
  destruct (computeReverseTopo_total Blocks (findBackEdgesUsingDominators Blocks Dom)) as [T ->].
  cbn [mbind option_bind]. destruct (computeInCycle_total Blocks) as [C ->].
  cbn [mbind option_bind]. destruct (buildLoops_total Blocks Dom R) as [L ->]. by eexists.
Qed.
