(* ===== verification/ChunkTable.v ===== *)
(** The chunk table of the cache is the table of the gas blocks.

    [buildGasChunksSPP] always returns; whatever the metering pass computed,
    the table it writes has the end and the cost of every gas block at the
    block's start.  With [CacheCorrect] this gives the cache the interpreter
    relies on. *)

From S2P Require Import Prelude Intx Evmc GasStorageCost EvmInstance Frame HandlerUtil BytecodeCache.
From S2P Require Import Interpreter WellFormed HandlerSafety RefInterp ChunkSound CacheCorrect.
From S2P Require Import SppGraph Spp SppSets.

#[local] Open Scope Z_scope.

(** The part of a block the table is made of. *)
Definition extent (b : GasBlock) : nat * nat * Z := (Start b, End_ b, Cost b).

Lemma extent_alter f i Blocks :
  (forall b, extent (f b) = extent b) -> map extent (alter f i Blocks) = map extent Blocks.
Proof.
  intros Hf. apply list_eq. intros j. rewrite !list_lookup_fmap.
  destruct (decide (i = j)) as [->|Hne].
  - rewrite list_lookup_alter_eq. destruct (Blocks !! j); [|done]. simpl. by rewrite Hf.
  - by rewrite list_lookup_alter_ne.
Qed.

Lemma extent_addEdge Blocks a b : map extent (addEdge Blocks a b) = map extent Blocks.
Proof.
  unfold addEdge. destruct (_ || _); [done|]. rewrite !extent_alter by done. done.
Qed.

Section Graph.
Context {I : Intx}.
Context (Code : list Z) (MT : metrics) (JD PV : list Z).

Lemma extent_addEdgeTo At i pc Blocks :
  map extent (addEdgeTo At i pc Blocks) = map extent Blocks.
Proof. unfold addEdgeTo. destruct (default None _); [apply extent_addEdge|done]. Qed.

Lemma extent_addEdges At JB Blocks i :
  map extent (addEdges Code JD PV At JB Blocks i) = map extent Blocks.
Proof.
  unfold addEdges. set (Bs := if _ && _ then _ else _).
  assert (map extent Bs = map extent Blocks) as <-
    by (subst Bs; destruct (_ && _); [apply extent_addEdgeTo|done]).
  destruct (isJumpOpcode _); [|done]. destruct (resolves _ _ _ _); [apply extent_addEdgeTo|].
  generalize Bs. clear. induction JB as [|x JB IH]; intros Bs; [done|]. cbn [fold_left].
  by rewrite IH, extent_addEdge.
Qed.

Lemma extent_buildCFG Blocks At : map extent (buildCFG Code JD PV Blocks At) = map extent Blocks.
Proof.
  unfold buildCFG. generalize (jumpDestBlocks Code JD (length Blocks) At) as JB. intros JB.
  generalize (seq 0 (length Blocks)) as l. intros l. revert Blocks.
  induction l as [|x l IH]; intros Blocks; [done|]. cbn [fold_left].
  by rewrite IH, extent_addEdges.
Qed.
End Graph.

(** Splitting adds blocks that are empty. *)
Definition empty_extent (x : nat * nat * Z) : Prop := x.1.1 = x.1.2.

Lemma extent_splitEdge n Blocks ch e :
  exists extra, map extent (splitEdge n (Blocks, ch) e).1 = map extent Blocks ++ extra /\
    Forall empty_extent extra.
Proof.
  destruct e as [a b]. cbn [splitEdge]. destruct (_ <=? _)%nat.
  { exists []. by rewrite app_nil_r. }
  cbn [fst]. rewrite !extent_addEdge, map_app, !extent_alter by done.
  eexists. split; [reflexivity|]. by repeat constructor.
Qed.

Lemma extent_split n Blocks :
  exists extra, map extent (splitCriticalEdges n Blocks).1 = map extent Blocks ++ extra /\
    Forall empty_extent extra.
Proof.
  unfold splitCriticalEdges. generalize (edgesToSplit Blocks) as es. intros es.
  generalize false as ch. revert Blocks. induction es as [|e es IH]; intros Blocks ch.
  { exists []. by rewrite app_nil_r. }
  cbn [fold_left]. destruct (splitEdge n (Blocks, ch) e) as [Bs ch'] eqn:E.
  destruct (extent_splitEdge n Blocks ch e) as (x1 & H1 & F1). rewrite E in H1. cbn [fst] in H1.
  destruct (IH Bs ch') as (x2 & -> & F2). exists (x1 ++ x2).
  rewrite H1, app_assoc. split; [done|by apply Forall_app].
Qed.

(** Writing a table depends on the extents only. *)
Definition writeExtent (t : chunk_table) (x : nat * nat * Z) : chunk_table :=
  if (x.1.1 =? x.1.2)%nat then t else (<[x.1.1 := Z.of_nat x.1.2]> t.1, <[x.1.1 := x.2]> t.2).

Lemma write_by_extent Blocks t :
  fold_left (fun t b => if (Start b =? End_ b)%nat then t else writeChunk t b) Blocks t
  = fold_left writeExtent (map extent Blocks) t.
Proof. revert t. induction Blocks as [|b Bs IH]; intros t; [done|]. apply IH. Qed.

Lemma write_empty xs t : Forall empty_extent xs -> fold_left writeExtent xs t = t.
Proof.
  induction 1 as [|x xs Hx _ IH]; [done|]. cbn [fold_left]. unfold writeExtent at 2.
  by rewrite Hx, Nat.eqb_refl.
Qed.

Section Table.
Context {I : Intx}.
Context (Code : list Z) (MT : metrics).
Context (Hsize : Z.of_nat (length Code) + 64 <= 2 ^ 32).

Lemma block_bounds b :
  block_ok Code MT b -> (Start b < length Code)%nat /\ (Start b < End_ b)%nat /\
  Z.of_nat (End_ b) < 2 ^ 32.
Proof.
  intros (e & c & Hch & He & _). pose proof (chunk_from_lt _ _ _ _ _ Hch).
  pose proof (chunk_from_end _ _ _ _ _ Hch). rewrite cast32_small in He by lia.
  destruct Hch as [? ? Hb|? ? ? ? Hb]; apply lookup_lt_Some in Hb; lia.
Qed.

(** The pass writes every block, and nothing else. *)
Lemma buildGasChunksSPP_table JD PV t :
  buildGasChunksSPP Code MT JD PV t = Some (fold_left writeChunk (buildGasBlocks Code MT).1 t).
Proof.
  pose proof (buildGasBlocks_ok Code MT Hsize) as Hok. unfold buildGasChunksSPP.
  destruct (buildGasBlocks Code MT) as [Blocks At]. cbn [fst] in *.
  case_bool_decide as E; [by subst Blocks|]. destruct (hasDynamicJump _ _ _ _).
  { f_equal. clear E At. revert t. induction Hok as [|b Bs Hb _ IH]; intros t; [done|].
    cbn [fold_left]. destruct (block_bounds b Hb) as [Hlt _].
    by rewrite (proj2 (Nat.ltb_lt _ _) Hlt). }
  destruct (extent_split (length Code) (buildCFG Code JD PV Blocks At)) as (extra & Hx & Hempty).
  destruct (splitCriticalEdges _ _) as [Bs ch]. destruct (sppMetering_total Bs) as [m ->].
  cbn [mbind option_bind fst] in *. f_equal.
  rewrite write_by_extent, Hx, fold_left_app, (write_empty extra) by done.
  rewrite extent_buildCFG. clear -Hok Hsize. revert t.
  induction Hok as [|b Bs Hb _ IH]; intros t; [done|]. cbn [map fold_left].
  destruct (block_bounds b Hb) as (_ & Hlt & _). rewrite <- IH. f_equal. unfold writeExtent.
  by rewrite (proj2 (Nat.eqb_neq _ _)) by (cbn; lia).
Qed.

(** An entry of the table that a block wrote. *)
Lemma writeChunks_lookup Blocks t pc e c :
  (fold_left writeChunk Blocks t).1 !! pc = Some e ->
  (fold_left writeChunk Blocks t).2 !! pc = Some c ->
  (exists b, b ∈ Blocks /\ Start b = pc /\ e = Z.of_nat (End_ b) /\ c = Cost b) \/
  t.1 !! pc = Some e /\ t.2 !! pc = Some c.
Proof.
  revert t. induction Blocks as [|b Bs IH]; intros t H1 H2; [by right|]. cbn [fold_left] in *.
  destruct (IH _ H1 H2) as [(b' & ? & ?)|[H3 H4]]; [left; exists b'; split; [by constructor|done]|].
  cbn [writeChunk fst snd] in *. destruct (decide (Start b = pc)) as [<-|Hne].
  - left. exists b. split; [by constructor|]. apply list_lookup_insert_Some in H3, H4.
    destruct H3 as [(_ & -> & _)|[? _]], H4 as [(_ & -> & _)|[? _]]; done.
  - rewrite list_lookup_insert_ne in H3, H4 by done. by right.
Qed.

Lemma length_writeChunks Blocks t :
  length (fold_left writeChunk Blocks t).1 = length t.1 /\
  length (fold_left writeChunk Blocks t).2 = length t.2.
Proof.
  revert t. induction Blocks as [|b Bs IH]; intros t; [done|]. cbn [fold_left].
  destruct (IH (writeChunk t b)) as [-> ->]. cbn. by rewrite !length_insert.
Qed.
End Table.

(** ** The cache *)

Section Cache.
Context {I : Intx} {IL : IntxLaws I} {V : Evmc} {VL : EvmcLaws V}.
Context (Code : list Z) (Rev : evmc_revision) (MT : metrics).
Context (Hmt : metrics_table Rev = Some MT).
Context (Hsize : Z.of_nat (length Code) + 64 <= 2 ^ 32).

Definition zeros : list Z := replicate (length Code) 0.

Lemma buildBytecodeCache_eq :
  buildBytecodeCache Code Rev =
  let m := buildJumpDestMapAndPushCache Code zeros zeros in
  let t := fold_left writeChunk (buildGasBlocks Code MT).1 (zeros, zeros) in
  Some (mkCache m.1 m.2 t.1 t.2).
Proof.
  unfold buildBytecodeCache. fold zeros.
  destruct (buildJumpDestMapAndPushCache Code zeros zeros) as [J P].
  rewrite Hmt. cbn [mbind option_bind]. rewrite buildGasChunksSPP_table by done.
  cbn [mbind option_bind]. by destruct (fold_left _ _ _).
Qed.

Lemma cache_chunks_ok Cache :
  buildBytecodeCache Code Rev = Some Cache -> chunk_cache_ok Code MT Cache.
Proof.
  rewrite buildBytecodeCache_eq. intros [= <-].
  destruct (length_writeChunks (buildGasBlocks Code MT).1 (zeros, zeros)) as [H1 H2].
  unfold zeros in *. cbn [fst snd] in *. rewrite length_replicate in *.
  split_and!; [done..|]. intros pc e C He HC Hlt. cbn [GasChunkEnd GasChunkCost] in *.
  destruct (writeChunks_lookup _ _ _ _ _ He HC) as [(b & Hb & <- & -> & ->)|[H3 _]].
  - pose proof (buildGasBlocks_ok Code MT Hsize) as Hok. rewrite Forall_forall in Hok.
    specialize (Hok b Hb). destruct (block_bounds Code MT Hsize b Hok) as (_ & _ & Hend).
    destruct Hok as (e & c & Hch & He' & Hc). split; [lia|]. exists c. split; [done|].
    rewrite He', Nat2Z.id. rewrite cast32_small; [done|].
    pose proof (chunk_from_end _ _ _ _ _ Hch). lia.
  - apply lookup_replicate in H3 as [-> _]. lia.
Qed.

(** *** The maps of the cache *)

Lemma cache_maps Cache :
  buildBytecodeCache Code Rev = Some Cache ->
  JumpDestMap Cache = pass Code isJumpdest (fun _ _ => 1) (length Code) 0 zeros /\
  PushValueMap Cache =
    pass Code isPushOpcode (fun i b => loadPushValue Code i (pushNumBytes b)) (length Code) 0 zeros.
Proof.
  rewrite buildBytecodeCache_eq. unfold buildJumpDestMapAndPushCache.
  rewrite jumpPushLoop_pass. by intros [= <-].
Qed.

Lemma zeros_lookup pc : (pc < length Code)%nat -> zeros !! pc = Some 0.
Proof. intros. by apply lookup_replicate_2. Qed.

Lemma cache_push_range Cache :
  Forall is_byte Code -> buildBytecodeCache Code Rev = Some Cache ->
  Forall is_u256 (PushValueMap Cache).
Proof.
  intros Hb HC. destruct (cache_maps Cache HC) as [_ ->].
  assert (Forall is_u256 zeros) as Hz by (by apply Forall_replicate). revert Hz.
  generalize zeros as M. generalize 0%nat as pc. generalize (length Code) as fuel.
  induction fuel as [|fuel IH]; intros pc M HM'; cbn [pass]; [done|].
  destruct (Code !! pc) as [b|] eqn:E; [|done]. apply IH. destruct (isPushOpcode b) eqn:Ep; [|done].
  apply Forall_insert; [done|]. rewrite loadPushValue_spec by (done || by apply pushNumBytes_le).
  apply push_operand_range; [done|by apply pushNumBytes_le].
Qed.

Lemma jump_map_cases Cache pc :
  buildBytecodeCache Code Rev = Some Cache -> (pc < length Code)%nat ->
  (JumpDestMap Cache !! pc = Some 1 <->
     boundary Code pc /\ Code !! pc = Some (byte_of_opcode OP_JUMPDEST)) /\
  (JumpDestMap Cache !! pc = Some 1 \/ JumpDestMap Cache !! pc = Some 0).
Proof.
  intros HC Hpc. destruct (cache_maps Cache HC) as [-> _].
  destruct (lookup_lt_is_Some_2 Code pc Hpc) as [b Hb].
  assert (Some (byte_of_opcode OP_JUMPDEST) = Some b <-> isJumpdest b = true) as Hj.
  { unfold isJumpdest. rewrite Z.eqb_eq. naive_solver. }
  rewrite Hb. destruct (decide (isJumpdest b = true)) as [Ej|Ej].
  - destruct (boundary_dec Code pc) as [Hr|Hr].
    + rewrite (pass_marked Code isJumpdest (fun _ _ => 1) _ _ _ _ b); [|lia| |done..].
      * split; [|by left]. split; [|done]. intros _. split; [done|]. symmetry. by apply Hj.
      * apply length_replicate.
    + rewrite pass_unmarked by (by intros [? _]). rewrite zeros_lookup by done.
      split; [|by right]. split; [done|]. by intros [? _].
  - rewrite pass_unmarked by (intros (_ & b' & Hb' & ?); congruence). rewrite zeros_lookup by done.
    split; [|by right]. split; [done|]. intros [_ E]. destruct Ej. apply Hj. done.
Qed.

Lemma push_map_entry Cache pc b :
  Forall is_byte Code -> buildBytecodeCache Code Rev = Some Cache ->
  boundary Code pc -> Code !! pc = Some b -> isPushOpcode b = true ->
  PushValueMap Cache !! pc = Some (push_operand Code pc (pushNumBytes b)).
Proof.
  intros Hb HC Hr Hpc Hp. destruct (cache_maps Cache HC) as [_ ->].
  rewrite (pass_marked Code isPushOpcode _ _ _ _ _ b); [|lia| |done..].
  - by rewrite loadPushValue_spec by (done || by apply pushNumBytes_le).
  - apply length_replicate.
Qed.

(** What the interpreter asks of its environment. *)
Lemma cache_env_ok Cache :
  Forall is_byte Code -> buildBytecodeCache Code Rev = Some Cache ->
  env_ok (mkEnv Code Rev MT (names_table Rev) Cache).
Proof.
  intros Hb HC. destruct (cache_maps Cache HC) as [HJ HP].
  split; cbn [eMetrics eRevision eNames eCode eCache]; [done..| | |by apply cache_push_range].
  - rewrite HJ, length_pass. apply length_replicate.
  - rewrite HP, length_pass. apply length_replicate.
Qed.
End Cache.
