(* ===== verification/InterpretTheorems.v ===== *)
(** The theorems about [BaseInterpreter::interpret] run on the cache that
    [buildBytecodeCache] builds: it refines the instruction-by-instruction
    semantics, always returns a well-formed result, and its two chunk runners
    agree. *)

From S2P Require Import Prelude Intx Evmc GasStorageCost EvmInstance Frame HandlerUtil.
From S2P Require Import HandlersArith HandlersEnv HandlersCall BytecodeCache Interpreter Dispatch.
From S2P Require Import WellFormed Concrete HandlerSafety RefInterp ChunkSound CgotoEquiv.
From S2P Require Import CgotoEquiv CacheCorrect SppGraph Spp ChunkTable.

#[local] Open Scope Z_scope.

Section Interpret.
Context {HS : Type} {I : Intx} {H : EvmcHost HS} {V : Evmc}.
Context {IL : IntxLaws I} {HL : HostLaws HS H} {VL : EvmcLaws V}.
Implicit Types (c : Context_ HS) (f : EVMFrame).

(** The state in which the loop of [interpret] starts. *)
Definition start f c : hstate HS := mkH (set_HostSet true f) (set_Status EVMC_SUCCESS c).

(** What [interpret] is given: a well-formed only frame, and the cache of
    the module's code for the instance's revision. *)
Record started (Cache : EVMBytecodeCache) f c : Prop := {
  started_wf : wf (start f c);
  started_cache : buildBytecodeCache (ModCode (Inst c)) (Rev (Inst c)) = Some Cache;
}.

(** One instruction at a time: the step relation of a run, from the
    environment [interpret] sets up. *)
Definition spec_run (MT : metrics) (Cache : EVMBytecodeCache) f c (o : loop_out HS) : Prop :=
  ref_run (mkEnv (ModCode (Inst c)) (Rev (Inst c)) MT (names_table (Rev (Inst c))) Cache)
    (start f c) o.

(** The result [c1] of the code is the result [c2] of the specification, or
    both report an exceptional failure, which may differ in the status code
    and in what the host, whose changes a failed call loses, has seen. *)
Definition same_result (s : hstate HS) (c1 c2 : Context_ HS) : Prop :=
  c1 = c2 \/ failed s c1 /\ failed s c2.

Lemma interpret_sim R {HR : ChunkRunner (run_with R)} MT Cache f c fuel :
  started Cache f c -> metrics_table (Rev (Inst c)) = Some MT ->
  (fuel_bound (length (ModCode (Inst c))) (start f c) <= fuel)%nat ->
  exists c1 o c2,
    interpret R fuel Cache (Some f) c = IReturn c1 /\ spec_run MT Cache f c o /\
    finish o = IReturn c2 /\ same_result (start f c) c1 c2 /\
    (failed (start f c) c2 \/ ended (start f c) c2).
Proof.
  intros [Hw HC] Hmt Hf. pose proof (proj2 Hw) as Hc. unfold interpret. cbn [Inst set_Status].
  rewrite Hmt. cbv zeta. fold (start f c).
  set (E := mkEnv _ _ _ _ _).
  assert (env_ok E) as HE by (apply cache_env_ok; [done|apply Hc..|done]).
  assert (chunk_cache_ok (eCode E) (eMetrics E) (eCache E)) as Hok
    by (eapply cache_chunks_ok; [done|apply Hc|done]).
  assert (at_iter E (start f c)) as Hi by done.
  destruct (interp_loop_sim R E fuel (start f c) HE Hok Hi Hf) as (o & Hrun & Ho).
  pose proof (ref_run_end E _ o HE Hi Hrun) as Hend.
  assert (exists c2, finish o = IReturn c2 /\ (failed (start f c) c2 \/ ended (start f c) c2))
    as (c2 & Hc2 & Hres).
  { destruct o as [|[f'|] c'|c'| | |]; try done.
    - destruct Hend as (Hi' & Hfo & _). eexists. split; [reflexivity|right].
      eapply follows_ended; [done|]. by apply (epilogue_ended E (mkH f' c')).
    - by eexists. }
  destruct Ho as [->|(c1 & c2' & -> & -> & Hf1 & Hf2)].
  - exists c2, o, c2. split_and!; [done..|by left|done].
  - cbn [finish] in Hc2. injection Hc2 as <-. exists c1, (LReturn c2'), c2'.
    split_and!; [done..|by right|done].
Qed.

#[export] Instance runner_sound R : ChunkRunner (run_with R).
Proof. destruct R; [apply portable_runner|apply cgoto_runner]. Qed.

Lemma failed_or_ended s c1 c2 :
  same_result s c1 c2 -> failed s c2 \/ ended s c2 -> failed s c1 \/ ended s c1.
Proof. intros [->|[? _]]; auto. Qed.

(** The step relation is deterministic. *)
Lemma spec_run_det MT Cache f c o1 o2 :
  spec_run MT Cache f c o1 -> spec_run MT Cache f c o2 -> o1 = o2.
Proof.
  unfold spec_run. intros Hr1. revert o2.
  induction Hr1 as [s Hge|s b c' Hb Hs|s b s' o Hb Hs Hr IH]; intros o2 Hr2; destruct Hr2;
    try (apply lookup_lt_Some in Hb; lia);
    try match goal with Hx : eCode _ !! _ = Some _ |- _ => apply lookup_lt_Some in Hx; lia end;
    try congruence.
  - simplify_eq. apply IH. congruence.
Qed.

Lemma same_result_trans s c1 c2 c3 :
  same_result s c1 c3 -> same_result s c2 c3 -> same_result s c1 c2.
Proof. intros [->|[? ?]] [->|[? ?]]; unfold same_result; auto. Qed.
(** A step from a boundary ends on a boundary, or past the code. *)
Lemma step_boundary (E : interp_env) (s s' : hstate HS) b :
  Z.of_nat (length (eCode E)) + 64 <= 2 ^ 32 ->
  buildBytecodeCache (eCode E) (eRevision E) = Some (eCache E) -> env_ok E -> at_iter E s ->
  boundary (eCode E) (Pc (fr s)) -> eCode E !! Pc (fr s) = Some b -> slow E b s = LContinue s' ->
  at_iter E s' /\ ((Pc (fr s') < length (eCode E))%nat -> boundary (eCode E) (Pc (fr s'))).
Proof.
  intros Hs HC HE Hi Hbd Hb Hstep.
  pose proof (slow_step_out E s b HE Hi (lookup_lt_Some _ _ _ Hb)) as Ho. rewrite Hstep in Ho.
  destruct Ho as (Hi' & _ & Hpc). split; [done|]. intros Hlt.
  destruct Hpc as [Hpc|(_ & x & Hx & Hne)].
  - rewrite Hpc in *. unfold boundary. eapply reach_trans; [done|]. eapply reach_next; [done|]. by apply reach_here.
  - destruct (jump_map_cases (eCode E) (eRevision E) (eMetrics E) (env_metrics E HE) Hs
                (eCache E) (Pc (fr s')) HC Hlt) as [Hj [H1|H0]].
    + by apply Hj in H1 as [? _].
    + congruence.
Qed.
End Interpret.

(** * Properties *)

Section Claims.
Context {HS : Type} {I : Intx} {H : EvmcHost HS} {V : Evmc}.
Context {IL : IntxLaws I} {HL : HostLaws HS H} {VL : EvmcLaws V}.

(** C1.  [interpret] refines the instruction-by-instruction semantics: run
    with the cache built for its code, with either chunk runner, it returns
    the result of charging and executing one instruction after the other;
    where that semantics fails exceptionally (out of gas, bad jump, stack
    error, ...), so does [interpret], with all gas consumed, the refund
    counter restored and no output. *)
Theorem interpret_refines_steps R MT Cache f (c : Context_ HS) fuel :
  started Cache f c -> metrics_table (Rev (Inst c)) = Some MT ->
  (fuel_bound (length (ModCode (Inst c))) (start f c) <= fuel)%nat ->
  exists c1 o c2,
    interpret R fuel Cache (Some f) c = IReturn c1 /\
    spec_run MT Cache f c o /\ finish o = IReturn c2 /\ same_result (start f c) c1 c2.
Proof.
  intros Hs Hmt Hf. destruct (interpret_sim R MT Cache f c fuel Hs Hmt Hf) as (c1 & o & c2 & ?).
  exists c1, o, c2. tauto.
Qed.

(** C2.  [interpret] always returns: it neither throws nor loops nor reads
    out of range, within a number of iterations bounded by the gas and the
    code size.  The result is a normal end (STOP, RETURN, SELFDESTRUCT, the
    end of the code) or REVERT, with the gas left between zero and the gas
    given, the refund counter and the return data; or an exceptional failure
    with no gas left, the refund of the snapshot and no data. *)
Theorem interpret_total R Cache f (c : Context_ HS) :
  started Cache f c ->
  exists c', interpret R (fuel_bound (length (ModCode (Inst c))) (start f c)) Cache (Some f) c
               = IReturn c' /\
    (failed (start f c) c' \/ ended (start f c) c').
Proof.
  intros Hs. destruct (metrics_table_some (Rev (Inst c))) as [MT Hmt].
  destruct (interpret_sim R MT Cache f c _ Hs Hmt (le_n _)) as (c1 & o & c2 & ? & _ & _ & Hsame & He).
  exists c1. split; [done|]. by eapply failed_or_ended.
Qed.

(** C3.  The computed-goto runner and the portable switch agree: compiled
    either way, [interpret] returns the same context, but for the cause of
    an exceptional failure. *)
Theorem runners_agree Cache f (c : Context_ HS) fuel :
  started Cache f c -> (fuel_bound (length (ModCode (Inst c))) (start f c) <= fuel)%nat ->
  exists c1 c2,
    interpret Cgoto fuel Cache (Some f) c = IReturn c1 /\
    interpret Portable fuel Cache (Some f) c = IReturn c2 /\ same_result (start f c) c1 c2.
Proof.
  intros Hs Hf. destruct (metrics_table_some (Rev (Inst c))) as [MT Hmt].
  destruct (interpret_sim Cgoto MT Cache f c fuel Hs Hmt Hf) as (c1 & o1 & r1 & E1 & S1 & F1 & Q1 & _).
  destruct (interpret_sim Portable MT Cache f c fuel Hs Hmt Hf) as (c2 & o2 & r2 & E2 & S2 & F2 & Q2 & _).
  rewrite (spec_run_det _ _ _ _ _ _ S1 S2), F2 in F1. injection F1 as ->.
  exists c1, c2. split_and!; [done..|]. by eapply same_result_trans.
Qed.
(** C8.  Every instruction keeps the interpreter's invariant: from a
    well-formed running state, the charge and the execution of the
    instruction at [Pc] lead to a well-formed state with no more gas, the
    same code and instance (but for the refund), and [Pc] past the
    instruction or at a marked jump destination; or to a return whose result
    is a normal end, a revert or a failure.  They never throw and never
    access the stack, the memory or a map out of range. *)
Theorem step_keeps_invariant (E : interp_env) (s : hstate HS) b :
  env_ok E -> at_iter E s -> (Pc (fr s) < length (eCode E))%nat ->
  step_out E s b
    (slow_step (length (eCode E)) (eMetrics E) (JumpDestMap (eCache E)) (PushValueMap (eCache E))
       (eNames E) b s).
Proof. apply slow_step_out. Qed.

(** C9.  Control-flow integrity: a run that starts at the first instruction
    only ever executes at instruction boundaries, never inside the immediate
    of a PUSH. *)
Theorem pc_stays_on_boundaries MT Cache f (c : Context_ HS) s :
  started Cache f c -> metrics_table (Rev (Inst c)) = Some MT -> Pc f = 0%nat ->
  ref_steps (mkEnv (ModCode (Inst c)) (Rev (Inst c)) MT (names_table (Rev (Inst c))) Cache)
    (start f c) s ->
  (Pc (fr s) < length (ModCode (Inst c)))%nat -> boundary (ModCode (Inst c)) (Pc (fr s)).
Proof.
  intros [Hw HC] Hmt Hpc. pose proof (proj2 Hw) as Hc. set (E := mkEnv _ _ _ _ _).
  assert (env_ok E) as HE by (apply cache_env_ok; [done|apply Hc..|done]).
  assert (at_iter E (start f c)) as Hi by done.
  assert (Z.of_nat (length (eCode E)) + 64 <= 2 ^ 32) as Hs by apply Hc.
  assert ((Pc (fr (start f c)) < length (eCode E))%nat ->
          boundary (eCode E) (Pc (fr (start f c)))) as Hbd.
  { intros Hlt. cbn [start fr set_HostSet Pc] in *. rewrite Hpc in *. by apply reach_here. }
  revert Hi Hbd. generalize (start f c). intros s0 Hi Hbd Hst. revert Hi Hbd.
  induction Hst as [s0 b s' Hb Hstep|s0 b s1 s' Hb Hstep _ IH]; intros Hi Hbd;
    pose proof (lookup_lt_Some _ _ _ Hb) as Hlt;
    destruct (step_boundary E s0 _ b Hs HC HE Hi (Hbd Hlt) Hb Hstep) as [Hi' Hbd'].
  - done.
  - by apply IH.
Qed.
End Claims.

(** * Examples

    The runs of [countdown]. *)

Definition countdown_cache : EVMBytecodeCache :=
  default (mkCache [] [] [] []) (buildBytecodeCache countdown EVMC_CANCUN).

Lemma countdown_started g :
  0 <= g < 2 ^ 63 ->
  started countdown_cache (sample_frame g) (sample_ctx countdown EVMC_CANCUN).
Proof.
  intros Hg. split; [|vm_compute; reflexivity].
  destruct (sample_wf g countdown EVMC_CANCUN Hg) as [[] []];
    [repeat constructor; done|done|]. by split; split.
Qed.

Lemma interpret_refines_steps_witness :
  exists c1 o c2,
    interpret Cgoto 1300 countdown_cache (Some (sample_frame 100)) (sample_ctx countdown EVMC_CANCUN)
      = IReturn c1 /\
    spec_run sample_metrics countdown_cache (sample_frame 100) (sample_ctx countdown EVMC_CANCUN) o /\
    finish o = IReturn c2 /\
    same_result (start (sample_frame 100) (sample_ctx countdown EVMC_CANCUN)) c1 c2.
Proof.
  apply (interpret_refines_steps Cgoto sample_metrics).
  - exact (countdown_started 100 ltac:(lia)).
  - reflexivity.
  - vm_compute. lia.
Defined.

Lemma interpret_total_witness :
  exists c', interpret Portable
               (fuel_bound 11 (start (sample_frame 100) (sample_ctx countdown EVMC_CANCUN)))
               countdown_cache (Some (sample_frame 100)) (sample_ctx countdown EVMC_CANCUN)
             = IReturn c' /\
    (failed (start (sample_frame 100) (sample_ctx countdown EVMC_CANCUN)) c' \/
     ended (start (sample_frame 100) (sample_ctx countdown EVMC_CANCUN)) c').
Proof. apply (interpret_total Portable). by apply countdown_started. Defined.

Lemma runners_agree_witness :
  exists c1 c2,
    interpret Cgoto 1300 countdown_cache (Some (sample_frame 100)) (sample_ctx countdown EVMC_CANCUN)
      = IReturn c1 /\
    interpret Portable 1300 countdown_cache (Some (sample_frame 100))
      (sample_ctx countdown EVMC_CANCUN) = IReturn c2 /\
    same_result (start (sample_frame 100) (sample_ctx countdown EVMC_CANCUN)) c1 c2.
Proof.
  apply runners_agree; [by apply countdown_started|]. vm_compute. lia.
Defined.

(** The run itself: three rounds cost 81 gas; with 80 the run fails. *)
Definition countdown_result (R : runner) (g : Z) : evmc_status_code * Z :=
  match interpret R 1300 countdown_cache (Some (sample_frame g)) (sample_ctx countdown EVMC_CANCUN) with
  | IReturn c => (status_code (ExeResult c), gas_left (ExeResult c))
  | _ => (EVMC_FAILURE, 0)
  end.

Example countdown_runs :
  map (fun g => (countdown_result Cgoto g, countdown_result Portable g)) [80; 100] =
  [((EVMC_OUT_OF_GAS, 0), (EVMC_OUT_OF_GAS, 0)); ((EVMC_SUCCESS, 19), (EVMC_SUCCESS, 19))].
Proof. vm_compute. reflexivity. Qed.

Definition countdown_env : interp_env :=
  mkEnv countdown EVMC_CANCUN sample_metrics (sample_names EVMC_CANCUN) countdown_cache.
Definition countdown_start : hstate null_host :=
  start (sample_frame 100) (sample_ctx countdown EVMC_CANCUN).

Lemma step_keeps_invariant_witness :
  step_out countdown_env countdown_start 0x60
    (slow_step (length (eCode countdown_env)) (eMetrics countdown_env)
       (JumpDestMap (eCache countdown_env)) (PushValueMap (eCache countdown_env))
       (eNames countdown_env) 0x60 countdown_start).
Proof.
  refine (step_keeps_invariant countdown_env countdown_start 0x60 _ _ _).
  - refine (cache_env_ok countdown EVMC_CANCUN sample_metrics eq_refl _ countdown_cache _ _);
      [done|repeat constructor; done|vm_compute; reflexivity].
  - split; [|done..]. by apply (countdown_started 100).
  - cbn. lia.
Defined.

(** After PUSH1 3 the run is at the JUMPDEST. *)
Lemma pc_stays_on_boundaries_witness :
  exists s : hstate null_host, Pc (fr s) = 2%nat /\ boundary countdown (Pc (fr s)).
Proof.
  destruct (slow countdown_env 0x60 countdown_start) as [s| | | | |] eqn:Es;
    try (vm_compute in Es; discriminate).
  assert (match slow countdown_env 0x60 countdown_start with LContinue s => Pc (fr s) | _ => 0%nat end
          = 2%nat) as Hpc by (vm_compute; reflexivity).
  rewrite Es in Hpc. exists s. split; [done|].
  refine (pc_stays_on_boundaries sample_metrics countdown_cache (sample_frame 100)
           (sample_ctx countdown EVMC_CANCUN) s _ _ _ _ _).
  - exact (countdown_started 100 ltac:(lia)).
  - reflexivity.
  - reflexivity.
  - exact (ref_one countdown_env countdown_start 0x60 s eq_refl Es).
  - rewrite Hpc. cbn. lia.
Defined.
