(* ===== verification/CacheTheorems.v ===== *)
(** The theorems about [buildBytecodeCache]: what each of the four vectors of
    a cache holds, and that control flow stays on instruction boundaries. *)

From S2P Require Import Prelude Intx Evmc GasStorageCost EvmInstance Frame HandlerUtil.
From S2P Require Import HandlersArith HandlersEnv HandlersCall BytecodeCache Interpreter Dispatch.
From S2P Require Import WellFormed Concrete HandlerSafety RefInterp ChunkSound CacheCorrect.
From S2P Require Import SppGraph Spp ChunkTable.

#[local] Open Scope Z_scope.

Section Claims.
Context {I : Intx} {IL : IntxLaws I} {V : Evmc} {VL : EvmcLaws V}.

(** C4.  The chunk table is the table of the gas blocks: the SPP pass always
    returns, and what it computes about moving charges between blocks reaches
    no entry. *)
Theorem spp_table_is_blocks Code MT JD PV t :
  Z.of_nat (length Code) + 64 <= 2 ^ 32 ->
  buildGasChunksSPP Code MT JD PV t = Some (fold_left writeChunk (buildGasBlocks Code MT).1 t).
Proof. intros H. by apply buildGasChunksSPP_table. Qed.

(** C5.  Every chunk of a built cache is a straight-line stretch of
    instructions, of which only the last may end a block, with the sum of
    their base costs. *)
Theorem cache_chunks_sound Code rev MT Cache :
  metrics_table rev = Some MT -> Z.of_nat (length Code) + 64 <= 2 ^ 32 ->
  buildBytecodeCache Code rev = Some Cache -> chunk_cache_ok Code MT Cache.
Proof. intros Hm Hs. by apply cache_chunks_ok. Qed.

(** C6.  The jump map marks exactly the JUMPDEST instructions: the bytes
    0x5b at an instruction boundary, and not those inside the immediate of a
    PUSH. *)
Theorem jumpdest_map_exact Code rev Cache pc :
  Z.of_nat (length Code) + 64 <= 2 ^ 32 -> buildBytecodeCache Code rev = Some Cache ->
  (pc < length Code)%nat ->
  (JumpDestMap Cache !! pc = Some 1 <->
     boundary Code pc /\ Code !! pc = Some (byte_of_opcode OP_JUMPDEST)) /\
  (JumpDestMap Cache !! pc = Some 1 \/ JumpDestMap Cache !! pc = Some 0).
Proof.
  intros Hs HC Hpc. destruct (metrics_table_some rev) as [MT Hmt].
  apply (jump_map_cases Code rev MT Hmt Hs Cache pc HC Hpc).
Qed.

(** C7.  The push map holds the operand of every PUSH1..PUSH32 instruction:
    the bytes that follow it, big-endian, as if zeros followed the code. *)
Theorem push_map_exact Code rev Cache pc b :
  Forall is_byte Code -> Z.of_nat (length Code) + 64 <= 2 ^ 32 ->
  buildBytecodeCache Code rev = Some Cache ->
  boundary Code pc -> Code !! pc = Some b -> isPushOpcode b = true ->
  PushValueMap Cache !! pc = Some (push_operand Code pc (pushNumBytes b)).
Proof.
  intros Hb Hs HC Hr Hpc Hp. destruct (metrics_table_some rev) as [MT Hmt].
  by apply (push_map_entry Code rev MT Hmt Hs Cache pc b).
Qed.
End Claims.

(** * Examples *)

Lemma spp_table_is_blocks_witness :
  buildGasChunksSPP countdown sample_metrics [] [] (replicate 11 0, replicate 11 0) =
  Some ([2; 0; 11; 0; 0; 0; 0; 0; 0; 0; 0], [3; 0; 26; 0; 0; 0; 0; 0; 0; 0; 0]).
Proof.
  rewrite (spp_table_is_blocks countdown sample_metrics [] []) by (cbn; lia). reflexivity.
Defined.

Lemma cache_chunks_sound_witness :
  exists Cache, buildBytecodeCache countdown EVMC_CANCUN = Some Cache /\
    chunk_cache_ok countdown sample_metrics Cache.
Proof.
  destruct (buildBytecodeCache countdown EVMC_CANCUN) as [Cache|] eqn:E; [|vm_compute in E; discriminate].
  exists Cache. split; [done|].
  refine (cache_chunks_sound countdown EVMC_CANCUN sample_metrics Cache eq_refl _ E). cbn. lia.
Defined.

(** Byte 1 of [countdown] is an immediate, byte 2 a JUMPDEST. *)
Lemma jumpdest_map_exact_witness :
  exists Cache, buildBytecodeCache countdown EVMC_CANCUN = Some Cache /\
    JumpDestMap Cache !! 2%nat = Some 1 /\ boundary countdown 2.
Proof.
  destruct (buildBytecodeCache countdown EVMC_CANCUN) as [Cache|] eqn:E; [|vm_compute in E; discriminate].
  exists Cache. assert (JumpDestMap Cache !! 2%nat = Some 1) as Hj.
  { vm_compute in E. by injection E as <-. }
  split_and!; [done..|].
  refine (proj1 (proj1 (proj1 (jumpdest_map_exact countdown EVMC_CANCUN Cache 2 _ E _)) Hj)); cbn; lia.
Defined.

Lemma push_map_exact_witness :
  exists Cache, buildBytecodeCache countdown EVMC_CANCUN = Some Cache /\
    PushValueMap Cache !! 0%nat = Some (push_operand countdown 0 1) /\ push_operand countdown 0 1 = 3.
Proof.
  destruct (buildBytecodeCache countdown EVMC_CANCUN) as [Cache|] eqn:E; [|vm_compute in E; discriminate].
  exists Cache. split_and!; [done| |vm_compute; reflexivity].
  refine (push_map_exact countdown EVMC_CANCUN Cache 0 0x60 countdown_bytes _ E _ eq_refl eq_refl).
  - cbn. lia.
  - apply reach_here. cbn. lia.
Defined.
