(* ===== verification/View.v ===== *)
(** What a program sees of a frame, and the rules that functional
    specifications of the handlers are proved with.

    The operand stack of a frame is an array of which only the first [Sp]
    cells count; [operands] lists them from the top.  [view r l m g c s] says
    all that a program can see of the state [s]: its operands [l], memory [m],
    gas [g], the rest of its frame [r] and the context [c].  Each [vp_*] lemma
    gives the exact effect of one building block on a view. *)

From S2P Require Import Prelude Intx Evmc GasStorageCost EvmInstance Frame HandlerUtil.
From S2P Require Import HandlersArith HandlersEnv HandlersCall WellFormed Concrete.

(** The operands of a frame, the top of the stack first. *)
Definition operands (f : EVMFrame) : list Z := rev (take (Sp f) (Stack f)).

(** The frame without its operands, memory and gas. *)
Definition frame_rest (f : EVMFrame) : EVMFrame :=
  set_fgas 0 (set_Memory [] (set_Stack [] (set_Sp 0 f))).

Lemma length_operands f : wf_frame f -> length (operands f) = Sp f.
Proof.
  intros []. unfold operands. rewrite length_rev, length_take. lia.
Qed.

Lemma operands_cons f a l :
  wf_frame f -> operands f = a :: l ->
  exists n, Sp f = S n /\ Stack f !! n = Some a /\ rev (take n (Stack f)) = l.
Proof.
  intros [] Ho. unfold operands in Ho. destruct (Sp f) as [|n]; [done|].
  destruct (lookup_lt_is_Some_2 (Stack f) n) as [x Hx]; [lia|].
  rewrite (take_S_r _ _ x Hx), rev_app_distr in Ho. simpl in Ho.
  injection Ho as <- <-. by exists n.
Qed.

Lemma operands_write n v (l : list Z) :
  (n < length l)%nat -> rev (take (S n) (<[n := v]> l)) = v :: rev (take n l).
Proof.
  intros Hn. rewrite (take_S_r _ n v) by (by apply list_lookup_insert_eq).
  rewrite take_insert_ge by lia. by rewrite rev_app_distr.
Qed.

(** The words of a 32-byte granular memory, and the fee of the Yellow Paper
    for having [a] of them. *)
Definition words (n : Z) : Z := (n + 31) / 32.
Definition Cmem (a : Z) : Z := 3 * a + a * a / 512.

(** The fee for growing a memory of [ml] bytes so that it covers [n]. *)
Definition expansion_fee (ml n : Z) : Z := Cmem (Z.max (words ml) (words n)) - Cmem (words ml).

(** A memory grown to cover [n] bytes. *)
Definition extended (m : list Z) (n : Z) : list Z :=
  m ++ replicate (Z.to_nat (ceil32 n) - length m) 0.

(** The memory after an access to [size] bytes at [off] has been paid for. *)
Definition touched (m : list Z) (off size : Z) : list Z :=
  if size =? 0 then m else extended m (off + size).
Definition touch_fee (m : list Z) (off size : Z) : Z :=
  if size =? 0 then 0 else expansion_fee (Z.of_nat (length m)) (off + size).

(** An access to [size] bytes at [off], together with a charge of [extra]. *)
Definition affordable (m : list Z) (g off size extra : Z) : Prop :=
  (size = 0 \/ off + size <= MAX_REQUIRED_MEMORY_SIZE) /\ touch_fee m off size + extra <= g.

Lemma Cmem_mono a b : 0 <= a <= b -> Cmem a <= Cmem b.
Proof. intros H. unfold Cmem. pose proof (Z.div_le_mono (a * a) (b * b) 512). nia. Qed.

Lemma expansion_fee_nonneg ml n : 0 <= ml -> 0 <= expansion_fee ml n.
Proof.
  intros H. unfold expansion_fee. enough (Cmem (words ml) <= Cmem (Z.max (words ml) (words n))) by lia.
  apply Cmem_mono. unfold words. split; [|lia]. apply Z.div_pos; lia.
Qed.

Lemma MemoryCost_exact a : 0 <= a <= 2 ^ 20 -> MemoryCost a = Cmem a.
Proof.
  intros H. unfold MemoryCost, Cmem. rewrite Z.add_comm. apply u64_small.
  assert (a * a <= 2 ^ 40) by nia. pose proof (Z.div_pos (a * a) 512).
  pose proof (Z.div_le_upper_bound (a * a) 512 (2 ^ 40)). lia.
Qed.

(** The 64-bit computation of the sources does not wrap. *)
Lemma memory_cost_exact ml n :
  0 <= ml <= MAX_REQUIRED_MEMORY_SIZE -> ml mod 32 = 0 -> 0 <= n <= MAX_REQUIRED_MEMORY_SIZE ->
  calculateMemoryExpansionCost ml (ceil32 n) = expansion_fee ml n.
Proof.
  intros Hml Hm Hn. unfold MAX_REQUIRED_MEMORY_SIZE in *.
  assert (words ml = ml / 32) as Ew by (unfold words; div_lia).
  assert (0 <= words n <= 2 ^ 20) as Hw by (unfold words; div_lia).
  assert (words (ceil32 n) = words n) as Ec by (unfold words, ceil32; div_lia).
  assert (ceil32 n = 32 * words n) as Ec' by (unfold words, ceil32; lia).
  assert (0 <= words ml <= 2 ^ 20) as Hwm by (unfold words; div_lia).
  unfold calculateMemoryExpansionCost, expansion_fee.
  destruct (Z.leb_spec (ceil32 n) ml) as [Hle|Hgt].
  - rewrite Z.max_l by (rewrite Ew; div_lia). lia.
  - rewrite (u64_small (ml + 31)), (u64_small (ceil32 n + 31)) by lia. fold (words ml) (words (ceil32 n)). rewrite Ec.
    rewrite Z.max_r by (rewrite Ew; div_lia). rewrite !MemoryCost_exact by lia.
    apply u64_small. pose proof (Cmem_mono (words ml) (words n)).
    assert (Cmem (words n) < 2 ^ 64).
    { unfold Cmem. assert (words n * words n <= 2 ^ 40) by nia.
      pose proof (Z.div_le_upper_bound (words n * words n) 512 (2 ^ 40)). lia. }
    assert (0 <= Cmem (words ml)) by (change 0 with (Cmem 0); apply Cmem_mono; lia).
    assert (words ml <= words n) by (rewrite Ew; div_lia). lia.
Qed.

Section View.
Context {HS : Type}.
Implicit Types (s : hstate HS) (c : Context_ HS) (r : EVMFrame) (l m : list Z).

Record view r l m (g : Z) c s : Prop := {
  v_wf : wf_frame (fr s);
  v_rest : frame_rest (fr s) = r;
  v_operands : operands (fr s) = l;
  v_memory : Memory (fr s) = m;
  v_gas : fgas (fr s) = g;
  v_cx : cx s = c;
}.

(** Every well-formed state has a view. *)
Lemma view_of s :
  wf_frame (fr s) ->
  view (frame_rest (fr s)) (operands (fr s)) (Memory (fr s)) (fgas (fr s)) (cx s) s.
Proof. by intros H. Qed.

Lemma view_msg r l m g c s : view r l m g c s -> set_gas 0 (Msg (fr s)) = Msg r.
Proof. by intros [_ <- _ _ _ _]. Qed.

Lemma view_bounds r l m g c s :
  view r l m g c s ->
  (length l <= 1024)%nat /\ 0 <= g < 2 ^ 63 /\ Z.of_nat (length m) mod 32 = 0 /\
  Z.of_nat (length m) <= MAX_REQUIRED_MEMORY_SIZE /\ Forall is_byte m /\ Forall is_u256 l.
Proof.
  intros [Hw _ <- <- <- _]. rewrite length_operands by done. destruct Hw. split_and!; try done; try lia.
  unfold operands. by apply Forall_rev, Forall_take.
Qed.

Lemma view_sp r l m g c s : view r l m g c s -> Sp (fr s) = length l.
Proof. intros [Hw _ <- _ _ _]. by rewrite length_operands. Qed.

(** *** Stack *)

Lemma view_set_Sp r l m g c s n :
  view r l m g c s -> (n <= length l)%nat ->
  view r (drop (length l - n) l) m g c (on_fr (set_Sp n) s).
Proof.
  intros Hv Hn. pose proof (view_sp _ _ _ _ _ _ Hv) as Hsp. destruct Hv as [Hw <- Ho <- <- <-].
  split; try done.
  - destruct Hw; split; try done. simpl. lia.
  - rewrite <- Ho in *. unfold operands in *. cbn [fr on_fr set_Sp Sp Stack] in *.
    rewrite length_rev, length_take in *. pose proof (wf_stack_len _ Hw).
    rewrite skipn_rev, take_take, length_take. do 2 f_equal. lia.
Qed.

Lemma vp_pop r a l m g c s (Q : Z -> hstate HS -> Prop) R :
  view r (a :: l) m g c s -> (is_u256 a -> forall s', view r l m g c s' -> Q a s') -> wp pop Q R s.
Proof.
  intros Hv HQ. pose proof (view_sp _ _ _ _ _ _ Hv) as Hsp.
  destruct (operands_cons _ _ _ (v_wf _ _ _ _ _ _ Hv) (v_operands _ _ _ _ _ _ Hv)) as (n & En & Ea & _).
  unfold pop. apply wp_bind, wp_getFrame. rewrite Hsp. cbn [length Nat.leb].
  apply wp_bind, wp_modify. unfold stack_at. apply wp_bind, wp_getFrame.
  eapply (wp_of_option _ _ _ _ a).
  - cbn [fr on_fr set_Sp Stack]. rewrite <- Ea. f_equal. rewrite Hsp in En. simpl in *. lia.
  - apply HQ.
    + apply view_bounds in Hv as (_ & _ & _ & _ & _ & Hl). by inversion Hl.
    + apply (view_set_Sp _ _ _ _ _ _ (length l)) in Hv; [|simpl; lia]. simpl length in *.
      replace (S (length l) - length l)%nat with 1%nat in Hv by lia.
      replace (S (length l) - 1)%nat with (length l) by lia. done.
Qed.

Lemma vp_push r l m g c s v (Q : unit -> hstate HS -> Prop) R :
  view r l m g c s -> (length l < 1024)%nat -> is_u256 v ->
  (forall s', view r (v :: l) m g c s' -> Q tt s') -> wp (push v) Q R s.
Proof.
  intros Hv Hl Hu HQ. pose proof (view_sp _ _ _ _ _ _ Hv) as Hsp.
  pose proof (wf_stack_len _ (v_wf _ _ _ _ _ _ Hv)) as Hlen. unfold MAXSTACK in *.
  unfold push. apply wp_bind, wp_getFrame. rewrite Hsp.
  destruct (Nat.leb_spec MAXSTACK (length l)) as [Hm|_]; [unfold MAXSTACK in Hm; lia|].
  apply wp_bind. unfold stack_set. apply wp_bind, wp_getFrame. rewrite Hlen.
  rewrite (proj2 (Nat.ltb_lt _ _)) by done. apply wp_modify, wp_modify, HQ.
  destruct Hv as [Hw <- Ho <- <- <-]. split; try done.
  - destruct Hw. split; try done; cbn [fr on_fr set_Sp set_Stack Stack Sp]; unfold MAXSTACK in *.
    + by rewrite length_insert.
    + by apply Forall_insert.
    + lia.
  - unfold operands in *. cbn [fr on_fr set_Sp set_Stack Stack Sp]. rewrite Nat.add_1_r.
    rewrite operands_write by lia. by rewrite <- Hsp, Ho.
Qed.

(** *** Checks and failures *)

Lemma vp_fail {A} r l m g c s st (Q : A -> hstate HS -> Prop) (R : hstate HS -> Prop) :
  view r l m g c s -> (forall s', cx s' = set_Status st c -> R s') -> wp (setStatus st ;;; exit) Q R s.
Proof. intros [_ _ _ _ _ <-] HR. by apply HR. Qed.

Lemma vp_check r l m g c s N (Q : unit -> hstate HS -> Prop) (R : hstate HS -> Prop) :
  view r l m g c s -> (N <= length l)%nat -> Q tt s -> wp (EVM_STACK_CHECK N) Q R s.
Proof.
  intros Hv HN HQ. unfold EVM_STACK_CHECK. apply wp_bind, wp_getFrame.
  rewrite (view_sp _ _ _ _ _ _ Hv). by rewrite (proj2 (Nat.ltb_ge _ _)).
Qed.

Lemma vp_orStatus r l m g c s M st (P : Prop) (Q : unit -> hstate HS -> Prop) R :
  view r l m g c s ->
  wp M (fun b s' => if b : bool then Q tt s' else s' = s /\ ~ P) R s ->
  (~ P -> forall s', cx s' = set_Status st c -> R s') -> wp (orStatus M st) Q R s.
Proof.
  intros Hv Hm HR. apply wp_bind. eapply wp_mono; [|done|done]. intros [] s'; [done|].
  intros [-> HP]. eapply vp_fail; [done|]. by apply HR.
Qed.

(** *** Gas and memory *)

Lemma vp_chargeGas r l m g c s k (Q : bool -> hstate HS -> Prop) R :
  view r l m g c s -> 0 <= k -> (g < k -> Q false s) ->
  (k <= g -> forall s', view r l m (g - k) c s' -> Q true s') -> wp (chargeGas k) Q R s.
Proof.
  intros Hv Hk Hf Ht. pose proof (view_bounds _ _ _ _ _ _ Hv) as (_ & Hg & _).
  unfold chargeGas. apply wp_bind, wp_getFrame. rewrite (v_gas _ _ _ _ _ _ Hv).
  rewrite u64_small by lia. destruct (Z.ltb_spec g k) as [|Hle]; [by apply wp_ret, Hf|].
  apply wp_bind, wp_modify, wp_ret. rewrite i64_small by lia. apply Ht; [done|].
  destruct Hv as [Hw <- <- <- Hv <-]. split; try done. destruct Hw; split; try done.
  unfold fgas in *. simpl. lia.
Qed.

Lemma vp_expand r l m g c s n (Q : bool -> hstate HS -> Prop) R :
  let fee := expansion_fee (Z.of_nat (length m)) n in
  view r l m g c s -> 0 <= n ->
  (~ (n <= MAX_REQUIRED_MEMORY_SIZE /\ fee <= g) -> Q false s) ->
  (n <= MAX_REQUIRED_MEMORY_SIZE /\ fee <= g ->
   forall s', view r l (extended m n) (g - fee) c s' -> Q true s') ->
  wp (expandMemoryAndChargeGas n) Q R s.
Proof.
  intros fee Hv Hn Hf Ht. pose proof (view_bounds _ _ _ _ _ _ Hv) as (_ & Hg & Hm & Hx & Hb & _).
  unfold expandMemoryAndChargeGas.
  destruct (Z.ltb_spec MAX_REQUIRED_MEMORY_SIZE n) as [|Hmax]; [apply wp_ret, Hf; lia|].
  apply wp_bind, wp_getFrame. rewrite (v_memory _ _ _ _ _ _ Hv).
  rewrite u64_small by (unfold MAX_REQUIRED_MEMORY_SIZE in *; lia). fold (ceil32 n).
  rewrite memory_cost_exact by (done || lia). fold fee.
  apply wp_bind. eapply vp_chargeGas; [done|apply expansion_fee_nonneg; lia|..].
  { intros Hlt. apply wp_ret, Hf. lia. }
  intros Hle s' Hv'. specialize (Ht (conj Hmax Hle)). apply wp_bind.
  pose proof (ceil32_le n). pose proof (ceil32_max n Hmax). pose proof (ceil32_mod n).
  destruct (Z.ltb_spec (Z.of_nat (length m)) (ceil32 n)) as [Hlt|Hge].
  - apply wp_modify, wp_ret, Ht. destruct Hv' as [Hw <- <- Em <- <-]. subst m.
    unfold on_fr. rewrite resize_grow by lia. split; try done.
    destruct Hw. split; try done; cbn [fr on_fr set_Memory Memory];
      rewrite ?length_app, ?length_replicate.
    + apply Forall_app; auto using Forall_zeros.
    + rewrite <- (ceil32_mod n). f_equal. lia.
    + lia.
  - apply wp_ret, wp_ret, Ht. unfold extended.
    replace (Z.to_nat (ceil32 n) - length m)%nat with 0%nat by lia.
    by rewrite app_nil_r.
Qed.

Lemma vp_touch64 r l m g c s off size (Q : bool -> hstate HS -> Prop) R :
  view r l m g c s -> is_u256 off -> is_u64 size -> 0 < size ->
  (~ affordable m g off size 0 -> Q false s) ->
  (affordable m g off size 0 ->
   forall s', view r l (touched m off size) (g - touch_fee m off size) c s' -> Q true s') ->
  wp (checkMemoryExpandAndChargeGas64 off size) Q R s.
Proof.
  intros Hv Ho Hs H0 Hf Ht. unfold checkMemoryExpandAndChargeGas64.
  unfold affordable, touched, touch_fee, UINT64_MAX, in_u in *.
  rewrite (proj2 (Z.eqb_neq size 0)) in * by lia.
  destruct (Z.ltb_spec (2 ^ 64 - 1) off).
  { apply wp_ret, Hf. unfold MAX_REQUIRED_MEMORY_SIZE. lia. }
  rewrite low64_small by (unfold in_u; lia).
  destruct (Z.ltb_spec (2 ^ 64 - 1 - size) off).
  { apply wp_ret, Hf. unfold MAX_REQUIRED_MEMORY_SIZE. lia. }
  eapply vp_expand; [done|lia|..]; rewrite Z.add_0_r in *.
  - intros HN. apply Hf. intros [[?|?] ?]; [lia|by apply HN].
  - intros [? ?]. apply Ht. split; [by right|done].
Qed.

Lemma vp_touch r l m g c s off size (Q : bool -> hstate HS -> Prop) R :
  view r l m g c s -> is_u256 off -> is_u256 size ->
  (~ affordable m g off size 0 -> Q false s) ->
  (affordable m g off size 0 ->
   forall s', view r l (touched m off size) (g - touch_fee m off size) c s' -> Q true s') ->
  wp (checkMemoryExpandAndChargeGas off size) Q R s.
Proof.
  intros Hv Ho Hs Hf Ht. unfold checkMemoryExpandAndChargeGas.
  pose proof (view_bounds _ _ _ _ _ _ Hv) as (_ & Hg & _).
  destruct (Z.eqb_spec size 0) as [->|Hn].
  { apply wp_ret, Ht; unfold affordable, touched, touch_fee; simpl.
    - split; [by left|lia].
    - by rewrite Z.sub_0_r. }
  destruct (Z.ltb_spec UINT64_MAX size) as [Hbig|].
  { apply wp_ret, Hf. unfold affordable, MAX_REQUIRED_MEMORY_SIZE, UINT64_MAX, in_u in *. lia. }
  assert (is_u64 size) by (unfold in_u, UINT64_MAX in *; lia).
  rewrite low64_small by done. unfold in_u in *. eapply vp_touch64; [done..|lia|done|done].
Qed.

(** An access that has been paid for lies in the memory. *)
Lemma touched_length m off size :
  0 <= off -> 0 < size -> off + size <= Z.of_nat (length (touched m off size)).
Proof.
  intros Ho Hs. unfold touched, extended. rewrite (proj2 (Z.eqb_neq size 0)) by lia.
  rewrite length_app, length_replicate. pose proof (ceil32_le (off + size)). lia.
Qed.

Lemma vp_mem_read r l m g c s off n (Q : list Z -> hstate HS -> Prop) R :
  view r l m g c s -> 0 <= off -> 0 <= n -> off + n <= Z.of_nat (length m) ->
  Q (take (Z.to_nat n) (drop (Z.to_nat off) m)) s -> wp (mem_read off n) Q R s.
Proof.
  intros Hv Ho Hn Hm HQ. unfold mem_read. apply wp_bind, wp_getFrame.
  rewrite (v_memory _ _ _ _ _ _ Hv). destruct (Z.eqb_spec n 0) as [->|]; [done|].
  rewrite !(proj2 (Z.leb_le _ _)) by lia. apply wp_getFrame.
  by rewrite (v_memory _ _ _ _ _ _ Hv).
Qed.

Lemma vp_mem_write r l m g c s off bs (Q : unit -> hstate HS -> Prop) R :
  view r l m g c s -> Forall is_byte bs -> 0 <= off ->
  off + Z.of_nat (length bs) <= Z.of_nat (length m) ->
  (forall s', view r l (write_at (Z.to_nat off) bs m) g c s' -> Q tt s') ->
  wp (mem_write off bs) Q R s.
Proof.
  intros Hv Hb Ho Hm HQ. unfold mem_write. apply wp_bind, wp_getFrame.
  rewrite (v_memory _ _ _ _ _ _ Hv). destruct (Nat.eqb_spec (length bs) 0) as [E|].
  { apply nil_length_inv in E as ->. apply HQ. unfold write_at. simpl.
    by rewrite Nat.add_0_r, take_drop. }
  rewrite !(proj2 (Z.leb_le _ _)) by lia. apply wp_modify, HQ.
  destruct Hv as [Hw <- <- <- <- <-].
  pose proof (length_write_at (Z.to_nat off) bs (Memory (fr s))) as E.
  split; try done. destruct Hw. split; try done; cbn [fr on_fr set_Memory Memory].
  - unfold write_at. apply Forall_app; split; [by apply Forall_take|].
    apply Forall_app; split; [done|by apply Forall_drop].
  - rewrite E by lia. done.
  - rewrite E by lia. done.
Qed.
End View.

(** The view of a sample state. *)
Lemma sample_view l m g :
  (length l <= 1024)%nat -> Forall is_u256 l -> Forall is_byte m ->
  Z.of_nat (length m) mod 32 = 0 -> Z.of_nat (length m) <= MAX_REQUIRED_MEMORY_SIZE ->
  0 <= g < 2 ^ 63 ->
  view (frame_rest (sample_frame 0)) l m g (sample_ctx countdown EVMC_CANCUN) (sample_state l m g).
Proof.
  intros. split; try done; [by apply sample_state_wf|].
  unfold operands. cbn [fr sample_state Stack Sp].
  rewrite <- (length_rev l), take_app_length. apply rev_involutive.
Qed.

Ltac sample_side := first [done | simpl; lia | repeat constructor; done].
