(* ===== verification/AluSpecs.v ===== *)
(** The arithmetic, comparison and bitwise instructions against their
    definition in the Yellow Paper: [alu_spec] gives each result as an
    integer formula, and the theorems say that the handlers compute it on the
    operands and change nothing else. *)

From S2P Require Import Prelude Intx Evmc GasStorageCost EvmInstance Frame HandlerUtil.
From S2P Require Import HandlersArith HandlersEnv HandlersCall BytecodeCache Interpreter.
From S2P Require Import WellFormed Concrete HandlerSafety View.

#[local] Open Scope Z_scope.

(** The result of an instruction on its operands, the top one first. *)
Definition alu_spec (op : evmc_opcode) (args : list Z) : option Z :=
  match op, args with
  | OP_ADD, [a; b] => Some ((a + b) mod 2 ^ 256)
  | OP_SUB, [a; b] => Some ((a - b) mod 2 ^ 256)
  | OP_MUL, [a; b] => Some ((a * b) mod 2 ^ 256)
  | OP_DIV, [a; b] => Some (if b =? 0 then 0 else a / b)
  | OP_MOD, [a; b] => Some (if b =? 0 then 0 else a mod b)
  | OP_SDIV, [a; b] => Some (if b =? 0 then 0 else wrap 256 (Z.quot (sval a) (sval b)))
  | OP_SMOD, [a; b] => Some (if b =? 0 then 0 else wrap 256 (Z.rem (sval a) (sval b)))
  | OP_ADDMOD, [a; b; n] => Some (if n =? 0 then 0 else (a + b) mod n)
  | OP_MULMOD, [a; b; n] => Some (if n =? 0 then 0 else (a * b) mod n)
  | OP_SIGNEXTEND, [i; v] => Some (if i <? 31 then wrap 256 (swrap (8 * (i + 1)) v) else v)
  | OP_LT, [a; b] => Some (b2z (a <? b))
  | OP_GT, [a; b] => Some (b2z (b <? a))
  | OP_SLT, [a; b] => Some (b2z (sval a <? sval b))
  | OP_SGT, [a; b] => Some (b2z (sval b <? sval a))
  | OP_EQ, [a; b] => Some (b2z (a =? b))
  | OP_ISZERO, [a] => Some (b2z (a =? 0))
  | OP_AND, [a; b] => Some (Z.land a b)
  | OP_OR, [a; b] => Some (Z.lor a b)
  | OP_XOR, [a; b] => Some (Z.lxor a b)
  | OP_NOT, [a] => Some (2 ^ 256 - 1 - a)
  | OP_BYTE, [i; v] => Some (if i <? 32 then (v / 2 ^ (8 * (31 - i))) mod 256 else 0)
  | OP_SHL, [n; v] => Some ((v * 2 ^ n) mod 2 ^ 256)
  | OP_SHR, [n; v] => Some (v / 2 ^ n)
  | OP_SAR, [n; v] => Some (wrap 256 (sval v / 2 ^ n))
  | OP_CLZ, [a] => Some (if a =? 0 then 256 else 255 - Z.log2 a)
  | OP_EXP, [a; b] => Some (a ^ b mod 2 ^ 256)
  | _, _ => None
  end.

(** What it costs beyond its base cost: EXP pays for the bytes of the exponent
    (EIP-160). *)
Definition alu_fee (rev : evmc_revision) (op : evmc_opcode) (args : list Z) : Z :=
  match op, args with
  | OP_EXP, [_; b] => (if b =? 0 then 0 else Z.log2 b / 8 + 1) * (if rev_lt rev EVMC_SPURIOUS_DRAGON then 10 else 50)
  | _, _ => 0
  end.

(** How many operands it takes. *)
Definition alu_arity (op : evmc_opcode) : nat :=
  match op with
  | OP_ADD | OP_SUB | OP_MUL | OP_DIV | OP_MOD | OP_SDIV | OP_SMOD | OP_SIGNEXTEND
  | OP_LT | OP_GT | OP_SLT | OP_SGT | OP_EQ | OP_AND | OP_OR | OP_XOR | OP_BYTE
  | OP_SHL | OP_SHR | OP_SAR | OP_EXP => 2
  | OP_ADDMOD | OP_MULMOD => 3
  | OP_ISZERO | OP_NOT | OP_CLZ => 1
  | _ => 0
  end.

(** * Signed readings and masks *)

Lemma sval_cases v : is_u256 v -> sval v = if v <? 2 ^ 255 then v else v - 2 ^ 256.
Proof.
  unfold in_u, sval, swrap. intros Hv. change (256 - 1) with 255.
  destruct (Z.ltb_spec v (2 ^ 255)).
  - rewrite Z.mod_small; lia.
  - replace (v + 2 ^ 255) with (v + 2 ^ 255 - 2 ^ 256 + 1 * 2 ^ 256) by lia.
    rewrite Z_mod_plus_full, Z.mod_small; lia.
Qed.

(** The bits [k..255]. *)
Lemma high_mask_bits k n :
  0 <= k <= 256 -> 0 <= n -> Z.testbit (2 ^ 256 - 2 ^ k) n = (k <=? n) && (n <? 256).
Proof.
  intros Hk Hn. replace (2 ^ 256 - 2 ^ k) with (Z.shiftl (Z.ones (256 - k)) k).
  2:{ rewrite Z.shiftl_mul_pow2, Z.ones_equiv by lia.
      replace (2 ^ 256) with (2 ^ (256 - k) * 2 ^ k); [lia|].
      rewrite <- Z.pow_add_r by lia. f_equal. lia. }
  rewrite Z.shiftl_spec by done.
  destruct (Z.leb_spec k n); simpl.
  - destruct (Z.ltb_spec n 256).
    + apply Z.ones_spec_low. lia.
    + apply Z.ones_spec_high. lia.
  - apply Z.testbit_neg_r. lia.
Qed.

Lemma lor_high_mask k v :
  0 <= k <= 256 -> is_u256 v -> Z.lor v (2 ^ 256 - 2 ^ k) = v mod 2 ^ k + (2 ^ 256 - 2 ^ k).
Proof.
  intros Hk Hv.
  assert (Z.land (v mod 2 ^ k) (2 ^ 256 - 2 ^ k) = 0) as Hd.
  { apply Z.bits_inj'. intros n Hn. rewrite Z.land_spec, high_mask_bits, Z.bits_0 by lia.
    destruct (Z.leb_spec k n); [|by rewrite andb_false_r].
    by rewrite Z.mod_pow2_bits_high by lia. }
  rewrite Z.add_nocarry_lxor, Z.lxor_lor by done.
  apply Z.bits_inj'. intros n Hn. rewrite !Z.lor_spec, !high_mask_bits by lia.
  destruct (Z.leb_spec k n) as [Hle|Hlt]; simpl.
  - rewrite (Z.mod_pow2_bits_high v) by lia. destruct (Z.ltb_spec n 256); [by rewrite orb_true_r|].
    by rewrite (u_bits_high 256 v) by (done || lia).
  - by rewrite Z.mod_pow2_bits_low by lia.
Qed.

(** The sign bit, read by shifting. *)
Lemma sign_bit v : is_u256 v -> Z.land (Z.shiftr v 255) 1 = if v <? 2 ^ 255 then 0 else 1.
Proof.
  intros Hv. unfold in_u in Hv. change 1 with (Z.ones 1). rewrite Z.land_ones by lia.
  rewrite Z.shiftr_div_pow2 by lia. change (Z.ones 1) with 1. change (2 ^ 1) with 2.
  destruct (Z.ltb_spec v (2 ^ 255)).
  - by rewrite Z.div_small by lia.
  - replace (v / 2 ^ 255) with 1; [done|]. apply Z.div_unique with (v - 2 ^ 255); lia.
Qed.

Section Results.
Context {I : Intx} {IL : IntxLaws I}.

Lemma u256_lt n : 0 <= n < 2 ^ 16 -> is_u256 n.
Proof. unfold in_u. lia. Qed.

Lemma ushl_one k : 0 <= k < 256 -> ushl 1 k = 2 ^ k.
Proof.
  intros Hk. rewrite ushl_spec by (apply u256_lt; lia).
  rewrite (proj2 (Z.ltb_lt _ _)) by lia. rewrite Z.shiftl_1_l. apply Z.mod_small.
  split; [lia|]. apply Z.pow_lt_mono_r; lia.
Qed.

Lemma pow_u256 k : 0 <= k < 256 -> is_u256 (2 ^ k).
Proof. intros. split; [lia|]. apply Z.pow_lt_mono_r; lia. Qed.

Lemma usub_one k : 0 <= k < 256 -> usub (2 ^ k) 1 = Z.ones k.
Proof.
  intros Hk. assert (0 < 2 ^ k) by lia. pose proof (pow_u256 k Hk) as Hu. unfold in_u in Hu.
  rewrite usub_spec by (done || by apply u256_lt). rewrite Z.ones_equiv. apply Z.mod_small. lia.
Qed.

Lemma land_pow2 v k : 0 <= k -> (Z.land v (2 ^ k) =? 0) = negb (Z.testbit v k).
Proof.
  intros Hk. destruct (Z.testbit v k) eqn:Ek; simpl.
  - apply Z.eqb_neq. intros E. assert (Z.testbit (Z.land v (2 ^ k)) k = true) as F.
    { by rewrite Z.land_spec, Ek, Z.pow2_bits_true. }
    by rewrite E, Z.bits_0 in F.
  - apply Z.eqb_eq, Z.bits_inj'. intros n Hn. rewrite Z.land_spec, Z.bits_0, Z.pow2_bits_eqb by done.
    destruct (Z.eqb_spec k n) as [<-|]; [by rewrite Ek|by rewrite andb_false_r].
Qed.

Lemma mod_pow2_S v k : 0 <= k -> v mod 2 ^ (k + 1) = v mod 2 ^ k + Z.b2z (Z.testbit v k) * 2 ^ k.
Proof.
  intros Hk. assert (0 < 2 ^ k) by lia. rewrite Z.pow_add_r by lia.
  rewrite Z.rem_mul_r by lia. rewrite Z.testbit_spec' by done. change (2 ^ 1) with 2. lia.
Qed.

Lemma swrap_bit v k :
  0 <= k -> swrap (k + 1) v = v mod 2 ^ k - if Z.testbit v k then 2 ^ k else 0.
Proof.
  intros Hk. assert (0 < 2 ^ k) as Hp by lia. unfold swrap. replace (k + 1 - 1) with k by lia.
  pose proof (Z.mod_pos_bound v (2 ^ k)) as Hb.
  rewrite Z.add_mod by lia. rewrite (mod_pow2_S v) by done.
  rewrite (Z.mod_small (2 ^ k)) by (rewrite Z.pow_add_r; lia).
  destruct (Z.testbit v k); simpl Z.b2z.
  - replace (v mod 2 ^ k + 1 * 2 ^ k + 2 ^ k) with (v mod 2 ^ k + 1 * 2 ^ (k + 1))
      by (rewrite Z.pow_add_r by lia; lia).
    rewrite Z_mod_plus_full, Z.mod_small; [lia|]. rewrite Z.pow_add_r by lia. lia.
  - rewrite Z.mod_small; [lia|]. rewrite Z.pow_add_r by lia. lia.
Qed.

Lemma signExtendRes_spec i v :
  is_u256 i -> is_u256 v ->
  signExtendRes i v = if i <? 31 then wrap 256 (swrap (8 * (i + 1)) v) else v.
Proof.
  intros Hi Hv. unfold signExtendRes. destruct (Z.ltb_spec i 31) as [Hlt|]; [|done].
  assert (0 <= i) by apply Hi. set (k := 8 * i + 7).
  assert (0 <= k < 256) as Hk by (unfold k; lia).
  replace (uadd (umul 8 i) 7) with k.
  2:{ rewrite umul_spec by (done || by apply u256_lt). rewrite (Z.mod_small (8 * i)) by lia.
      rewrite uadd_spec by (apply u256_lt; lia). by rewrite Z.mod_small by (unfold k in *; lia). }
  replace (8 * (i + 1)) with (k + 1) by (unfold k; lia). rewrite swrap_bit by lia.
  pose proof (pow_u256 k Hk) as Hpk. pose proof (Z.mod_pos_bound v (2 ^ k) ltac:(lia)) as Hb.
  assert (is_u256 (Z.ones k)) as Hmask by (unfold in_u in *; rewrite Z.ones_equiv; lia).
  rewrite ushl_one, usub_one, uand_spec, land_pow2, negb_involutive by (done || lia).
  destruct (Z.testbit v k) eqn:Ek.
  - rewrite uor_spec, unot_spec by auto with range. rewrite Z.ones_equiv.
    replace (2 ^ 256 - 1 - Z.pred (2 ^ k)) with (2 ^ 256 - 2 ^ k) by lia.
    rewrite lor_high_mask by (done || lia). unfold wrap.
    replace (v mod 2 ^ k - 2 ^ k) with (v mod 2 ^ k + (2 ^ 256 - 2 ^ k) + (-1) * 2 ^ 256) by lia.
    rewrite Z_mod_plus_full, (Z.mod_small (_ + _)); [done|]. unfold in_u in Hpk. lia.
  - rewrite uand_spec by done. rewrite Z.land_ones, Z.sub_0_r by lia. symmetry.
    apply wrap_small. unfold in_u in *. lia.
Qed.

Lemma byteRes_spec i v :
  is_u256 i -> is_u256 v ->
  byteRes i v = if i <? 32 then (v / 2 ^ (8 * (31 - i))) mod 256 else 0.
Proof.
  intros Hi Hv. unfold byteRes. destruct (Z.ltb_spec i 32) as [Hlt|]; [|done].
  assert (0 <= i) by apply Hi.
  rewrite usub_spec by (done || by apply u256_lt). rewrite (Z.mod_small (31 - i)) by lia.
  rewrite umul_spec by (apply u256_lt; lia). rewrite (Z.mod_small (8 * _)) by lia.
  assert (is_u256 (8 * (31 - i))) as Hs by (apply u256_lt; lia).
  rewrite uand_spec by (apply u256_lt; lia) || (auto with range).
  rewrite ushr_spec by done. rewrite (proj2 (Z.ltb_lt _ _)) by lia.
  change 0xFF with (Z.ones 8). rewrite Z.land_ones, Z.shiftr_div_pow2 by lia.
  change (2 ^ 8) with 256. pose proof (Z.mod_pos_bound (v / 2 ^ (8 * (31 - i))) 256 ltac:(lia)).
  rewrite low64_small by (unfold in_u; lia). apply wrap_small. unfold in_u. lia.
Qed.

Lemma neg_div_pow v n : 2 ^ 255 <= v < 2 ^ 256 -> 256 <= n -> (v - 2 ^ 256) / 2 ^ n = -1.
Proof.
  intros Hv Hn. assert (2 ^ 256 <= 2 ^ n) by (by apply Z.pow_le_mono_r).
  symmetry. apply Z.div_unique with (v - 2 ^ 256 + 2 ^ n); lia.
Qed.

Lemma sarRes_spec n v :
  is_u256 n -> is_u256 v -> sarRes n v = wrap 256 (sval v / 2 ^ n).
Proof.
  intros Hn Hv. unfold sarRes. assert (0 <= n) by apply Hn. assert (0 <= v < 2 ^ 256) by apply Hv.
  assert (is_u256 255) as H255 by (by apply u256_lt).
  rewrite uand_spec by (by apply u256_lt) || (auto with range).
  rewrite (ushr_spec v 255) by done. change (255 <? 256) with true. cbv iota zeta.
  rewrite sign_bit, sval_cases by done.
  destruct (Z.ltb_spec n 256) as [Hlt|Hge].
  - rewrite ushr_spec by done. rewrite (proj2 (Z.ltb_lt n 256)) by lia.
    rewrite Z.shiftr_div_pow2 by lia. assert (0 < 2 ^ n) by lia.
    assert (is_u256 (v / 2 ^ n)) as Hq.
    { split; [apply Z.div_pos; lia|]. apply (Z.le_lt_trans _ v); [apply Z.div_le_upper_bound; nia|lia]. }
    destruct (Z.ltb_spec v (2 ^ 255)); simpl negb; cbn [andb]; [symmetry; by apply wrap_small|].
    destruct (Z.ltb_spec 0 n) as [Hpos|].
    + assert (is_u256 256) by (by apply u256_lt).
      rewrite (usub_spec 256 n) by done. rewrite (Z.mod_small (256 - n)) by lia.
      rewrite ushl_one, usub_one by lia. pose proof (pow_u256 (256 - n) ltac:(lia)) as Hpk.
      assert (is_u256 (Z.ones (256 - n))) by (unfold in_u in *; rewrite Z.ones_equiv; lia).
      rewrite uor_spec, unot_spec by auto with range. rewrite Z.ones_equiv.
      replace (2 ^ 256 - 1 - Z.pred (2 ^ (256 - n))) with (2 ^ 256 - 2 ^ (256 - n)) by lia.
      rewrite lor_high_mask by (done || lia).
      assert (2 ^ 256 = 2 ^ (256 - n) * 2 ^ n) as E by (rewrite <- Z.pow_add_r by lia; f_equal; lia).
      assert (v / 2 ^ n < 2 ^ (256 - n)) by (apply Z.div_lt_upper_bound; lia).
      rewrite (Z.mod_small (v / 2 ^ n)) by (unfold in_u in *; lia).
      rewrite E at 2. replace (v - 2 ^ (256 - n) * 2 ^ n) with (v + (- 2 ^ (256 - n)) * 2 ^ n) by lia.
      rewrite Z.div_add by lia. unfold wrap.
      replace (v / 2 ^ n + - 2 ^ (256 - n))
        with (v / 2 ^ n + (2 ^ 256 - 2 ^ (256 - n)) + (-1) * 2 ^ 256) by lia.
      rewrite Z_mod_plus_full, Z.mod_small; [done|]. unfold in_u in *. lia.
    + replace n with 0 by lia. rewrite Z.pow_0_r, !Z.div_1_r. unfold wrap.
      replace (v - 2 ^ 256) with (v + (-1) * 2 ^ 256) by lia.
      by rewrite Z_mod_plus_full, Z.mod_small.
  - destruct (Z.ltb_spec v (2 ^ 255)); simpl negb; cbv iota.
    + rewrite Z.div_small; [done|]. split; [lia|].
      apply (Z.lt_le_trans _ (2 ^ 256)); [lia|]. by apply Z.pow_le_mono_r.
    + rewrite neg_div_pow by lia. rewrite unot_spec by (by apply u256_lt). done.
Qed.
End Results.

(** * The handlers *)

Section Handlers.
Context {HS : Type}.
Implicit Types (s : hstate HS) (c : Context_ HS) (l m : list Z).

Lemma view_cell r pre a l m g c s :
  view r (pre ++ a :: l) m g c s -> Stack (fr s) !! length l = Some a.
Proof.
  intros [Hw _ Ho _ _ _]. unfold operands in Ho. apply (f_equal (@rev Z)) in Ho.
  rewrite rev_involutive, rev_app_distr in Ho. simpl rev in Ho.
  assert (take (Sp (fr s)) (Stack (fr s)) !! length l = Some a) as E.
  { rewrite Ho, <- app_assoc. apply list_lookup_middle. by rewrite length_rev. }
  by apply lookup_take_Some in E as [? _].
Qed.

(** Writing a result over the lowest of the operands [pre] and dropping the
    others. *)
Lemma view_result r pre l m g c s v :
  view r (pre ++ l) m g c s -> (0 < length pre)%nat -> is_u256 v ->
  view r (v :: l) m g c
    (on_fr (set_Sp (S (length l)))
       (on_fr (fun f => set_Stack (<[length l := v]> (Stack f)) f) s)).
Proof.
  intros Hv Hp Hu. pose proof (view_sp _ _ _ _ _ _ Hv) as Hsp. rewrite length_app in Hsp.
  pose proof (view_bounds _ _ _ _ _ _ Hv) as [Hl _]. rewrite length_app in Hl.
  destruct Hv as [Hw <- Ho <- <- <-]. pose proof (wf_stack_len _ Hw) as Hlen.
  unfold MAXSTACK in *. split; try done.
  - destruct Hw. split; try done; cbn [fr on_fr set_Sp set_Stack Stack Sp].
    + by rewrite length_insert.
    + by apply Forall_insert.
    + unfold MAXSTACK. lia.
  - unfold operands in *. cbn [fr on_fr set_Sp set_Stack Stack Sp].
    rewrite operands_write by lia. f_equal. apply (f_equal (drop (length pre))) in Ho.
    rewrite drop_app_length, skipn_rev, take_take, length_take in Ho.
    etrans; [|exact Ho]. do 2 f_equal. lia.
Qed.

Lemma set_Sp_same s : on_fr (set_Sp (Sp (fr s))) s = s.
Proof. by destruct s as [[] ?]. Qed.

Lemma vp_unary f r a l m g c s (Q : unit -> hstate HS -> Prop) R :
  view r (a :: l) m g c s -> is_u256 (f a) ->
  (forall s', view r (f a :: l) m g c s' -> Q tt s') -> wp (UnaryOpHandler f) Q R s.
Proof.
  intros Hv Hf HQ. pose proof (view_sp _ _ _ _ _ _ Hv) as Hsp. unfold UnaryOpHandler.
  apply wp_bind. eapply vp_check; [done|simpl; lia|]. unfold wp. rewrite bind_getFrame, Hsp.
  simpl length. rewrite !Nat.sub_succ, Nat.sub_0_r. rewrite bind_stack_at, (view_cell _ [] _ _ _ _ _ _ Hv).
  rewrite stack_set_run. pose proof (view_cell _ [] _ _ _ _ _ _ Hv) as Hc%lookup_lt_Some.
  rewrite (proj2 (Nat.ltb_lt _ _)) by done. apply HQ.
  pose proof (view_result _ [a] _ _ _ _ _ (f a) Hv ltac:(simpl; lia) Hf) as Hr.
  rewrite <- (set_Sp_same (on_fr _ s)). cbn [fr on_fr set_Stack Sp]. by rewrite Hsp.
Qed.

Lemma vp_binary f r a b l m g c s (Q : unit -> hstate HS -> Prop) R :
  view r (a :: b :: l) m g c s -> is_u256 (f a b) ->
  (forall s', view r (f a b :: l) m g c s' -> Q tt s') -> wp (BinaryOpHandler f) Q R s.
Proof.
  intros Hv Hf HQ. pose proof (view_sp _ _ _ _ _ _ Hv) as Hsp. unfold BinaryOpHandler.
  apply wp_bind. eapply vp_check; [done|simpl; lia|]. unfold wp. rewrite bind_getFrame, Hsp.
  simpl length. rewrite !Nat.sub_succ, !Nat.sub_0_r.
  change (S (length l)) with (length (b :: l)). rewrite bind_stack_at, (view_cell _ [] _ _ _ _ _ _ Hv).
  rewrite bind_stack_at, (view_cell _ [a] _ _ _ _ _ _ Hv).
  rewrite bind_stack_set. pose proof (view_cell _ [a] _ _ _ _ _ _ Hv) as Hc%lookup_lt_Some.
  rewrite (proj2 (Nat.ltb_lt _ _)) by done. apply HQ.
  apply (view_result _ [a; b] _ _ _ _ _ (f a b) Hv); [simpl; lia|done].
Qed.

Lemma vp_ternary f r a b d l m g c s (Q : unit -> hstate HS -> Prop) R :
  view r (a :: b :: d :: l) m g c s -> is_u256 (f a b d) ->
  (forall s', view r (f a b d :: l) m g c s' -> Q tt s') -> wp (TernaryOpHandler f) Q R s.
Proof.
  intros Hv Hf HQ. pose proof (view_sp _ _ _ _ _ _ Hv) as Hsp. unfold TernaryOpHandler.
  apply wp_bind. eapply vp_check; [done|simpl; lia|]. unfold wp. rewrite bind_getFrame, Hsp.
  simpl length. rewrite !Nat.sub_succ, !Nat.sub_0_r.
  change (S (S (length l))) with (length (b :: d :: l)).
  rewrite bind_stack_at, (view_cell _ [] _ _ _ _ _ _ Hv).
  change (S (length l)) with (length (d :: l)).
  rewrite bind_stack_at, (view_cell _ [a] _ _ _ _ _ _ Hv).
  rewrite bind_stack_at, (view_cell _ [a; b] _ _ _ _ _ _ Hv).
  rewrite bind_stack_set. pose proof (view_cell _ [a; b] _ _ _ _ _ _ Hv) as Hc%lookup_lt_Some.
  rewrite (proj2 (Nat.ltb_lt _ _)) by done. apply HQ.
  apply (view_result _ [a; b; d] _ _ _ _ _ (f a b d) Hv); [simpl; lia|done].
Qed.
End Handlers.

(** * Theorems *)

Section Claims.
Context {HS : Type} {I : Intx} {H : EvmcHost HS} {V : Evmc} {IL : IntxLaws I}.
Implicit Types (s : hstate HS) (c : Context_ HS) (r : EVMFrame) (l m : list Z).

Lemma wp_ret_inv (M : HM HS unit) (Q : hstate HS -> Prop) s :
  wp M (fun _ => Q) (fun _ => False) s -> exists s', M s = Ret tt s' /\ Q s'.
Proof. unfold wp. destruct (M s) as [[] s'| | |]; [|done..]. by exists s'. Qed.

Lemma vp_pop_pop_push f r a b l m g c s (Q : unit -> hstate HS -> Prop) R :
  view r (a :: b :: l) m g c s -> (is_u256 a -> is_u256 b -> is_u256 (f a b)) ->
  (forall s', view r (f a b :: l) m g c s' -> Q tt s') ->
  wp (EVM_STACK_CHECK 2 ;;; x <- pop ;; y <- pop ;; push (f x y)) Q R s.
Proof.
  intros Hv Hf HQ. pose proof (view_bounds _ _ _ _ _ _ Hv) as [Hl _]. simpl in Hl.
  apply wp_bind. eapply vp_check; [done|simpl; lia|].
  apply wp_bind. eapply vp_pop; [done|]. intros Ha s1 Hv1.
  apply wp_bind. eapply vp_pop; [done|]. intros Hb s2 Hv2.
  eapply vp_push; [done|lia|auto|done].
Qed.

Lemma shl_spec n v :
  is_u256 n -> is_u256 v -> ShlOP n v = (v * 2 ^ n) mod 2 ^ 256.
Proof.
  intros Hn Hv. unfold ShlOP. rewrite ushl_spec by done.
  destruct (Z.ltb_spec n 256) as [Hlt|Hge].
  - rewrite Z.shiftl_mul_pow2 by apply Hn. done.
  - replace (2 ^ n) with (2 ^ (n - 256) * 2 ^ 256).
    + by rewrite Z.mul_assoc, Z.mod_mul.
    + rewrite <- Z.pow_add_r by lia. f_equal. lia.
Qed.

Lemma shr_spec n v : is_u256 n -> is_u256 v -> ShrOP n v = v / 2 ^ n.
Proof.
  intros Hn Hv. unfold ShrOP. rewrite ushr_spec by done.
  destruct (Z.ltb_spec n 256) as [Hlt|Hge].
  - rewrite Z.shiftr_div_pow2 by apply Hn. done.
  - symmetry. apply Z.div_small. split; [apply Hv|].
    apply (Z.lt_le_trans _ (2 ^ 256)); [apply Hv|]. by apply Z.pow_le_mono_r.
Qed.

(** The handlers other than EXP compute [alu_spec]. *)
Lemma alu_runs op M args v r l m g c s :
  op <> OP_EXP -> chunk_handler op = Some M -> alu_spec op args = Some v -> view r (args ++ l) m g c s ->
  exists s', M s = Ret tt s' /\ view r (v :: l) m g c s'.
Proof.
  intros Hne HM Hs Hv. apply wp_ret_inv.
  pose proof (view_bounds _ _ _ _ _ _ Hv) as (_ & _ & _ & _ & _ & Hw%Forall_app). destruct Hw as [Hw _].
  destruct op; try discriminate Hs; try done; injection HM as <-;
    repeat (destruct args as [|? args]; try discriminate Hs);
    injection Hs as <-; rewrite ?Forall_cons_iff in Hw; destruct_and? Hw; cbn [app] in Hv.
  all: try (eapply vp_binary; [exact Hv|op_range|]; intros s' Hv').
  all: try (eapply vp_ternary; [exact Hv|op_range|]; intros s' Hv').
  all: try (eapply vp_unary; [exact Hv|op_range|]; intros s' Hv').
  all: try (rewrite <- ?shl_spec, <- ?shr_spec by done; exact Hv').
  all: try (eapply vp_pop_pop_push; [exact Hv|auto using signExtendRes_range, byteRes_range, sarRes_range|];
            intros s' Hv'; rewrite <- ?signExtendRes_spec, <- ?byteRes_spec, <- ?sarRes_spec by done;
            exact Hv').
  all: unfold AddOP, SubOP, MulOP, DivOP, ModOP, SDivOP, SModOP, AddmodOP, MulmodOP, NotOP,
    IsZeroOP, ClzOP, AndOP, OrOP, XorOP, EqOP, LtOP, GtOP, SltOP, SgtOP in Hv'.
  all: try (case_match eqn:Eb; [exact Hv'|apply Z.eqb_neq in Eb]).
  all: rewrite ?uadd_spec, ?usub_spec, ?umul_spec, ?udiv_spec, ?umod_spec, ?sdivrem_spec,
    ?addmod_spec, ?mulmod_spec, ?unot_spec, ?uand_spec, ?uor_spec, ?uxor_spec, ?slt_spec,
    ?uclz_spec in Hv' by done; exact Hv'.
Qed.

Lemma vp_stack_at r pre a l m g c s (Q : Z -> hstate HS -> Prop) R :
  view r (pre ++ a :: l) m g c s -> Q a s -> wp (stack_at (length l)) Q R s.
Proof. intros Hv HQ. unfold wp, stack_at, bind, getFrame, gets. by rewrite (view_cell _ _ _ _ _ _ _ _ Hv). Qed.

(** EXP charges for its exponent, then computes the power. *)
Lemma exp_runs r a b l m g c s :
  view r (a :: b :: l) m g c s ->
  let fee := alu_fee (Rev (Inst c)) OP_EXP [a; b] in
  wp Exp_doExecute (fun _ s' => fee <= g /\ view r (a ^ b mod 2 ^ 256 :: l) m (g - fee) c s')
    (fun s' => g < fee /\ cx s' = set_Status EVMC_OUT_OF_GAS c) s.
Proof.
  intros Hv fee. pose proof (view_sp _ _ _ _ _ _ Hv) as Hsp.
  pose proof (view_bounds _ _ _ _ _ _ Hv) as (_ & _ & _ & _ & _ & Hw). rewrite !Forall_cons_iff in Hw.
  destruct Hw as (Ha & Hb & _). unfold Exp_doExecute.
  apply wp_bind. eapply vp_check; [done|simpl; lia|]. apply wp_bind, wp_getFrame. rewrite Hsp.
  simpl length. rewrite !Nat.sub_succ, !Nat.sub_0_r. change (S (length l)) with (length (b :: l)).
  apply wp_bind. apply (vp_stack_at r [] a (b :: l) m g c s); [done|]. apply wp_bind. apply (vp_stack_at r [a] b l m g c s); [done|].
  apply wp_bind, wp_getCtx. rewrite (v_cx _ _ _ _ _ _ Hv).
  pose proof (count_significant_bytes_range b Hb) as Hn.
  assert (u64 (count_significant_bytes b *
      (if rev_lt (Rev (Inst c)) EVMC_SPURIOUS_DRAGON then EXP_BYTE_GAS_PRE_SPURIOUS_DRAGON else EXP_BYTE_GAS)) = fee) as ->.
  { rewrite count_significant_bytes_spec in Hn |- * by done. unfold fee, alu_fee, EXP_BYTE_GAS_PRE_SPURIOUS_DRAGON, EXP_BYTE_GAS.
    apply u64_small. destruct (rev_lt _ _); lia. }
  assert (0 <= fee).
  { unfold fee, alu_fee. rewrite count_significant_bytes_spec in Hn by done. destruct (rev_lt _ _); lia. }
  apply wp_bind. eapply (vp_orStatus _ _ _ _ _ _ _ _ (fee <= g)); [done| |intros; split; [lia|done]].
  eapply vp_chargeGas; [done|done|intros; split; [done|lia]|]. intros Hle s1 Hv1. cbn beta iota.
  pose proof (view_cell _ [a] _ _ _ _ _ _ Hv1) as Hc%lookup_lt_Some.
  unfold wp. rewrite bind_stack_set, (proj2 (Nat.ltb_lt _ _)) by done. split; [done|].
  pose proof (view_result _ [a; b] _ _ _ _ _ (uexp a b) Hv1 ltac:(simpl; lia) (uexp_range _ _ Ha Hb)) as Hr.
  rewrite <- (uexp_spec a b) by done. exact Hr.
Qed.

(** C10.  Each arithmetic, comparison and bitwise instruction replaces its
    operands by the integer [alu_spec] defines and changes nothing else the
    program can see: not memory, the rest of the frame or the context, and of
    the gas only EXP takes some, for the bytes of its exponent; with less gas
    than that EXP runs out of gas. *)
Theorem alu_correct op M args v r l m g c s :
  chunk_handler op = Some M -> alu_spec op args = Some v -> view r (args ++ l) m g c s ->
  let fee := alu_fee (Rev (Inst c)) op args in
  if fee <=? g then exists s', M s = Ret tt s' /\ view r (v :: l) m (g - fee) c s'
  else exists s', M s = Exit s' /\ cx s' = set_Status EVMC_OUT_OF_GAS c.
Proof.
  intros HM Hs Hv fee. destruct (decide (op = OP_EXP)) as [->|Hne].
  - destruct args as [|a [|b [|]]]; try discriminate Hs. injection Hs as <-. injection HM as <-.
    pose proof (exp_runs r a b l m g c s Hv) as Hr. unfold wp in Hr. fold fee in Hr. cbn [doExecute ExpHandler mk].
    destruct (Exp_doExecute s) as [[] s'|s'| |]; try done; destruct Hr as [Hle Hr]; [rewrite (proj2 (Z.leb_le _ _))|rewrite (proj2 (Z.leb_gt _ _))];
      eauto.
  - assert (fee = 0) as -> by (unfold fee, alu_fee; by destruct op).
    pose proof (view_bounds _ _ _ _ _ _ Hv) as (_ & Hg & _). rewrite (proj2 (Z.leb_le _ _)), Z.sub_0_r by lia. by eapply (alu_runs op).
Qed.

(** With fewer operands than it takes, such an instruction reports a
    stack underflow and leaves the frame as it was. *)
Theorem alu_underflow op M s :
  chunk_handler op = Some M -> (Sp (fr s) < alu_arity op)%nat ->
  M s = Exit (on_cx (set_Status EVMC_STACK_UNDERFLOW) s).
Proof.
  intros HM Hsp. destruct op; simpl in Hsp; try lia; injection HM as <-;
    cbn [doExecute mk]; unfold UnaryOpHandler, BinaryOpHandler, TernaryOpHandler,
      SignExtend_doExecute, Byte_doExecute, Sar_doExecute, Exp_doExecute;
    rewrite bind_check; by rewrite (proj2 (Nat.ltb_lt _ _)).
Qed.
End Claims.

(** * Examples *)

(** 3 to the power 5, which costs the 50 units of gas there are. *)
Lemma alu_correct_witness :
  exists s', doExecute ExpHandler (sample_state ([3; 5] ++ [9]) [] 50) = Ret tt s' /\
    view (frame_rest (sample_frame 0)) [243; 9] [] 0 (sample_ctx countdown EVMC_CANCUN) s'.
Proof.
  refine (alu_correct OP_EXP _ [3; 5] 243 _ [9] _ 50 (sample_ctx countdown EVMC_CANCUN) _ eq_refl eq_refl _).
  apply sample_view; sample_side.
Defined.

Lemma alu_underflow_witness :
  doExecute AddHandler (sample_state [1] [] 50)
    = Exit (on_cx (set_Status EVMC_STACK_UNDERFLOW) (sample_state [1] [] 50)).
Proof. refine (alu_underflow OP_ADD _ (sample_state [1] [] 50) eq_refl _). cbn. lia. Defined.
