(* ===== verification/MemorySpecs.v ===== *)
(** The memory and copy instructions: their fee, what they read and what they
    leave in memory, for every operand a program can give them. *)

From S2P Require Import Prelude Intx Evmc GasStorageCost EvmInstance Frame HandlerUtil.
From S2P Require Import HandlersArith HandlersEnv HandlersCall WellFormed Concrete HandlerSafety View.

#[local] Open Scope Z_scope.

(** [n] bytes of [data] from [off], as if zeros followed it. *)
Definition slice (data : list Z) (off n : Z) : list Z :=
  let bs := take (Z.to_nat n) (drop (Z.to_nat off) data) in
  bs ++ replicate (Z.to_nat n - length bs) 0.

(** The fee of a copy of [n] bytes to [dest]. *)
Definition copy_fee (m : list Z) (dest n : Z) : Z := touch_fee m dest n + 3 * words n.

(** Memory after [bs] has been stored at [dest]. *)
Definition stored (m : list Z) (dest : Z) (bs : list Z) : list Z :=
  write_at (Z.to_nat dest) bs (touched m dest (Z.of_nat (length bs))).

Section Compute.
Context {HS : Type}.
Implicit Types (s : hstate HS) (c : Context_ HS) (r : EVMFrame) (l m : list Z).

(** Called in a state with context [c], [M] comes back with the given view
    when [P] holds, and otherwise with the status [st]. *)
Definition computes (M : HM HS unit) (st : evmc_status_code) c s (P : Prop) r l m (g : Z) c'
  : Prop :=
  (P -> exists s', call M s = Ret tt s' /\ view r l m g c' s') /\
  (~ P -> exists s', call M s = Ret tt s' /\ cx s' = set_Status st c).

Lemma computes_return M st c s (P : Prop) r l m g c' :
  wp M (fun _ s' => P /\ view r l m g c' s')
    (fun s' => (P /\ view r l m g c' s') \/ (~ P /\ cx s' = set_Status st c)) s ->
  computes M st c s P r l m g c'.
Proof.
  unfold wp, computes, call. destruct (M s) as [[] s'|s'| |]; try done.
  - intros [HP Hs]. split; intros HP'; [by exists s'|done].
  - intros [[HP Hs]|[HP Hs]]; split; intros HP'; try done; by exists s'.
Qed.

Lemma computes_wp M st c s (P : Prop) r l m g c' :
  wp M (fun _ s' => P /\ view r l m g c' s') (fun s' => ~ P /\ cx s' = set_Status st c) s ->
  computes M st c s P r l m g c'.
Proof. intros Hw. apply computes_return. eapply wp_mono; [| |exact Hw]; [done|]. by right. Qed.

Lemma length_slice data off n : length (slice data off n) = Z.to_nat n.
Proof. unfold slice. rewrite length_app, length_replicate, length_take. lia. Qed.

Lemma slice_bytes data off n : Forall is_byte data -> Forall is_byte (slice data off n).
Proof.
  intros. apply Forall_app; split; [by apply Forall_take, Forall_drop|apply Forall_zeros].
Qed.

Lemma slice_in data off n :
  0 <= off -> 0 <= n -> off + n <= Z.of_nat (length data) ->
  slice data off n = take (Z.to_nat n) (drop (Z.to_nat off) data).
Proof.
  intros. unfold slice. rewrite length_take, length_drop.
  replace (Z.to_nat n - _)%nat with 0%nat by lia. by rewrite app_nil_r.
Qed.

Lemma slice_past data off n : Z.of_nat (length data) <= off -> slice data off n = zeros n.
Proof.
  intros. unfold slice, zeros. rewrite drop_ge by lia. rewrite take_nil. simpl.
  f_equal. lia.
Qed.

(** A slice is a prefix of the data followed by zeros. *)
Lemma slice_split data off n k :
  0 <= off -> 0 <= k -> k = Z.min n (Z.of_nat (length data) - off) ->
  slice data off n = take (Z.to_nat k) (drop (Z.to_nat off) data) ++ zeros (n - k).
Proof.
  intros Ho Hk ->. unfold slice, zeros.
  set (k := Z.min n (Z.of_nat (length data) - off)) in *.
  assert (length (drop (Z.to_nat off) data) = (length data - Z.to_nat off)%nat) as Hd
    by apply length_drop.
  assert (take (Z.to_nat n) (drop (Z.to_nat off) data) = take (Z.to_nat k) (drop (Z.to_nat off) data))
    as E.
  { destruct (Z.le_gt_cases n (Z.of_nat (length data) - off)).
    - by replace k with n by lia.
    - rewrite !take_ge by lia. done. }
  rewrite E, length_take. do 2 f_equal. lia.
Qed.

Lemma write_at_app off bs1 bs2 m :
  (off + length bs1 + length bs2 <= length m)%nat ->
  write_at (off + length bs1) bs2 (write_at off bs1 m) = write_at off (bs1 ++ bs2) m.
Proof.
  intros Hl. unfold write_at.
  assert (length (take off m) = off) as Ht by (rewrite length_take; lia).
  rewrite (app_assoc (take off m)), length_app.
  assert (length (take off m ++ bs1) = (off + length bs1)%nat) as Ht1 by (rewrite length_app; lia).
  rewrite take_app_le by lia. rewrite take_ge by lia.
  rewrite (drop_app_ge _ (drop _ m)) by lia. rewrite drop_drop, Ht1, <- !app_assoc.
  do 4 f_equal. lia.
Qed.

Lemma write_at_nil off m : write_at off [] m = m.
Proof. unfold write_at. simpl. by rewrite Nat.add_0_r, take_drop. Qed.

Lemma read_write_at off bs m :
  (off + length bs <= length m)%nat -> take (length bs) (drop off (write_at off bs m)) = bs.
Proof.
  intros. unfold write_at. rewrite drop_app_ge by (rewrite length_take; lia).
  rewrite length_take. replace (off - off `min` length m)%nat with 0%nat by lia.
  by rewrite drop_0, take_app_length.
Qed.

Lemma zeros_length n : length (zeros n) = Z.to_nat n.
Proof. apply length_replicate. Qed.

Lemma words_bound n : 0 <= n <= MAX_REQUIRED_MEMORY_SIZE -> 0 <= words n <= 2 ^ 20.
Proof. unfold words, MAX_REQUIRED_MEMORY_SIZE. intros. div_lia. Qed.

Lemma words_nonneg n : is_u256 n -> 0 <= words n.
Proof. unfold words, in_u. intros. apply Z.div_pos; lia. Qed.

Lemma numWords_spec n : 0 <= n <= MAX_REQUIRED_MEMORY_SIZE -> numWords n = words n.
Proof.
  intros Hn. pose proof (words_bound n Hn). unfold numWords.
  rewrite u64_small by (unfold MAX_REQUIRED_MEMORY_SIZE in *; lia). fold (words n).
  apply i64_small. lia.
Qed.

Lemma vp_copyCode r l m g c s n (Q : bool -> hstate HS -> Prop) R :
  view r l m g c s -> 0 <= n <= MAX_REQUIRED_MEMORY_SIZE -> (g < 3 * words n -> Q false s) ->
  (3 * words n <= g -> forall s', view r l m (g - 3 * words n) c s' -> Q true s') ->
  wp (copyCodeAndChargeGas n) Q R s.
Proof.
  intros Hv Hn Hf Ht. unfold copyCodeAndChargeGas. rewrite numWords_spec by done.
  pose proof (words_bound n Hn). unfold WORD_COPY_COST. rewrite u64_small by lia.
  rewrite Z.mul_comm. eapply vp_chargeGas; [done|lia|done..].
Qed.

(** A paid access has a size, and an offset if it is not empty, in range. *)
Lemma affordable_range m g off size :
  is_u256 off -> is_u256 size -> affordable m g off size 0 ->
  0 <= size <= MAX_REQUIRED_MEMORY_SIZE /\ uint256ToUint64 size = size /\ low64 size = size /\
  (0 < size -> uint256ToUint64 off = off /\ low64 off = off /\ 0 <= off).
Proof.
  unfold affordable, in_u. intros Ho Hs [Hr _].
  assert (0 <= size <= MAX_REQUIRED_MEMORY_SIZE) as Hsz
    by (unfold MAX_REQUIRED_MEMORY_SIZE in *; lia).
  unfold MAX_REQUIRED_MEMORY_SIZE in *.
  split_and!; [lia|lia|apply uint256ToUint64_small; unfold in_u; lia
              |apply low64_small; unfold in_u; lia|].
  intros Hp. split_and!; [apply uint256ToUint64_small|apply low64_small|]; unfold in_u; lia.
Qed.

Lemma affordable_extra m g off size k :
  0 <= k -> affordable m g off size k <->
  affordable m g off size 0 /\ k <= g - touch_fee m off size.
Proof. unfold affordable. intros. split; intros; destruct_and!; split_and!; try done; lia. Qed.

Lemma unaffordable_touch m g off size k :
  0 <= k -> ~ affordable m g off size 0 -> ~ affordable m g off size k.
Proof. intros Hk HN [? _]%affordable_extra; done. Qed.

Lemma unaffordable_extra m g off size k :
  0 <= k -> g - touch_fee m off size < k -> ~ affordable m g off size k.
Proof. intros Hk Hlt [_ ?]%affordable_extra; lia. Qed.

(** Statements that pay and stop the frame when they cannot. *)
Lemma vp_payTouch r l m g c s off size (Q : unit -> hstate HS -> Prop) R :
  view r l m g c s -> is_u256 off -> is_u256 size ->
  (~ affordable m g off size 0 -> forall s', cx s' = set_Status EVMC_OUT_OF_GAS c -> R s') ->
  (affordable m g off size 0 ->
   forall s', view r l (touched m off size) (g - touch_fee m off size) c s' -> Q tt s') ->
  wp (orStatus (checkMemoryExpandAndChargeGas off size) EVMC_OUT_OF_GAS) Q R s.
Proof.
  intros Hv Ho Hs Hf Ht. eapply (vp_orStatus _ _ _ _ _ _ _ _ (affordable m g off size 0)); [done| |done].
  by eapply vp_touch.
Qed.

Lemma vp_payTouch64 r l m g c s off size (Q : unit -> hstate HS -> Prop) R :
  view r l m g c s -> is_u256 off -> is_u64 size -> 0 < size ->
  (~ affordable m g off size 0 -> forall s', cx s' = set_Status EVMC_OUT_OF_GAS c -> R s') ->
  (affordable m g off size 0 ->
   forall s', view r l (touched m off size) (g - touch_fee m off size) c s' -> Q tt s') ->
  wp (orStatus (checkMemoryExpandAndChargeGas64 off size) EVMC_OUT_OF_GAS) Q R s.
Proof.
  intros Hv Ho Hs Hp Hf Ht.
  eapply (vp_orStatus _ _ _ _ _ _ _ _ (affordable m g off size 0)); [done| |done].
  by eapply vp_touch64.
Qed.

Lemma vp_pay r l m g c s k (Q : unit -> hstate HS -> Prop) R :
  view r l m g c s -> 0 <= k ->
  (g < k -> forall s', cx s' = set_Status EVMC_OUT_OF_GAS c -> R s') ->
  (k <= g -> forall s', view r l m (g - k) c s' -> Q tt s') ->
  wp (orStatus (chargeGas k) EVMC_OUT_OF_GAS) Q R s.
Proof.
  intros Hv Hk Hf Ht. eapply (vp_orStatus _ _ _ _ _ _ _ _ (k <= g)); [done| |intros; apply Hf; lia || done].
  eapply vp_chargeGas; [done|done|intros; split; [done|lia]|done].
Qed.

Lemma vp_payCopy r l m g c s n (Q : unit -> hstate HS -> Prop) R :
  view r l m g c s -> 0 <= n <= MAX_REQUIRED_MEMORY_SIZE ->
  (g < 3 * words n -> forall s', cx s' = set_Status EVMC_OUT_OF_GAS c -> R s') ->
  (3 * words n <= g -> forall s', view r l m (g - 3 * words n) c s' -> Q tt s') ->
  wp (orStatus (copyCodeAndChargeGas n) EVMC_OUT_OF_GAS) Q R s.
Proof.
  intros Hv Hn Hf Ht. eapply (vp_orStatus _ _ _ _ _ _ _ _ (3 * words n <= g)); [done| |].
  - eapply vp_copyCode; [done|done|intros; split; [done|lia]|done].
  - intros HP. apply Hf. lia.
Qed.

Lemma stored_slice m dest data off n :
  0 <= n -> stored m dest (slice data off n)
            = write_at (Z.to_nat dest) (slice data off n) (touched m dest n).
Proof. intros. unfold stored. by rewrite length_slice, Z2Nat.id. Qed.

(** Writing the zeros after the [k] bytes there are. *)
Lemma vp_write_zeros r l m g c s dest data off n k (Q : unit -> hstate HS -> Prop) R :
  view r l (write_at (Z.to_nat dest) (take (Z.to_nat k) (drop (Z.to_nat off) data))
              (touched m dest n)) g c s ->
  0 < n -> 0 <= dest ->
  0 <= off <= Z.of_nat (length data) -> k = Z.min n (Z.of_nat (length data) - off) ->
  (forall s', view r l (stored m dest (slice data off n)) g c s' -> Q tt s') ->
  wp (if k <? n then mem_write (dest + k) (zeros (n - k)) else ret tt) Q R s.
Proof.
  intros Hv Hn Hdest Ho Hk HQ. pose proof (touched_length m dest n Hdest Hn) as Hlen.
  set (bs := take (Z.to_nat k) (drop (Z.to_nat off) data)) in *.
  assert (length bs = Z.to_nat k) as Hbs by (unfold bs; rewrite length_take, length_drop; lia).
  rewrite stored_slice, (slice_split _ _ _ k) in HQ by lia. fold bs in HQ.
  destruct (Z.ltb_spec k n) as [Hlt|Hge].
  - eapply vp_mem_write; [done|apply Forall_zeros|lia| |].
    + rewrite zeros_length, length_write_at by lia. lia.
    + intros s2 Hv2. apply HQ. rewrite <- write_at_app by (rewrite zeros_length; lia).
      by replace (Z.to_nat dest + length bs)%nat with (Z.to_nat (dest + k)) by lia.
  - apply wp_ret, HQ. replace (n - k) with 0 by lia. by rewrite app_nil_r.
Qed.

(** Writing both. *)
Lemma vp_write_padded r l m g c s dest data off n k (Q : unit -> hstate HS -> Prop) R :
  view r l (touched m dest n) g c s -> Forall is_byte data -> 0 < n -> 0 <= dest ->
  0 <= off <= Z.of_nat (length data) -> k = Z.min n (Z.of_nat (length data) - off) ->
  (forall s', view r l (stored m dest (slice data off n)) g c s' -> Q tt s') ->
  wp (bs <- buf_read data off k ;; mem_write dest bs ;;;
      if k <? n then mem_write (dest + k) (zeros (n - k)) else ret tt) Q R s.
Proof.
  intros Hv Hd Hn Hdest Ho Hk HQ. pose proof (touched_length m dest n Hdest Hn) as Hlen.
  set (bs := take (Z.to_nat k) (drop (Z.to_nat off) data)).
  assert (length bs = Z.to_nat k) as Hbs by (unfold bs; rewrite length_take, length_drop; lia).
  apply wp_bind. unfold buf_read.
  assert (wp (mem_write dest bs ;;; if k <? n then mem_write (dest + k) (zeros (n - k)) else ret tt)
            Q R s) as Hw.
  { apply wp_bind. eapply vp_mem_write; [done|by apply Forall_take, Forall_drop|done|lia|].
    intros s1 Hv1. by eapply vp_write_zeros. }
  destruct (Z.eqb_spec k 0) as [E|].
  - apply wp_ret. replace [] with bs; [done|]. apply nil_length_inv. lia.
  - by rewrite !(proj2 (Z.leb_le _ _)) by lia.
Qed.
End Compute.

(** Checks the stack and takes the operands off it. *)
Ltac vp_operands :=
  apply wp_bind; eapply vp_check; [eassumption|simpl; lia|];
  repeat (apply wp_bind; eapply vp_pop; [eassumption|intros ? ? ?]).

Section Handlers.
Context {HS : Type} {I : Intx} {H : EvmcHost HS} {V : Evmc} {IL : IntxLaws I}.
Implicit Types (s : hstate HS) (c : Context_ HS) (r : EVMFrame) (l m : list Z).

Lemma view_input r l m g c s :
  view r l m g c s -> input_data (Msg (fr s)) = input_data (Msg r).
Proof. by intros [_ <- _ _ _ _]. Qed.

Lemma view_input_ok r l m g c s :
  view r l m g c s ->
  Forall is_byte (input_data (Msg r)) /\ Z.of_nat (length (input_data (Msg r))) < 2 ^ 63.
Proof. intros [[] <- _ _ _ _]. done. Qed.

Lemma stored_empty m dest data off : stored m dest (slice data off 0) = m.
Proof. rewrite stored_slice by lia. apply write_at_nil. Qed.

(** The offset as the handlers clamp it. *)
Lemma slice_clamp data o n :
  is_u256 o -> Z.of_nat (length data) < 2 ^ 63 ->
  slice data o n = slice data (Z.min (uint256ToUint64 o) (Z.of_nat (length data))) n /\
  (Z.of_nat (length data) <? uint256ToUint64 o) = (Z.of_nat (length data) <? o).
Proof.
  intros Ho Hd. rewrite uint256ToUint64_spec by done. unfold in_u, UINT64_MAX in *.
  destruct (Z.ltb_spec o (2 ^ 64)); split; try done.
  - destruct (Z.le_gt_cases o (Z.of_nat (length data))); [by rewrite Z.min_l by lia|].
    rewrite Z.min_r by lia. by rewrite !slice_past by lia.
  - rewrite Z.min_r by lia. by rewrite !slice_past by lia.
  - rewrite !(proj2 (Z.ltb_lt _ _)) by lia. done.
Qed.

(** The end of a copy: the fee has been paid, the bytes there are and the
    zeros are to be written. *)
Lemma copy_view r l m g c t dest n bs :
  affordable m g dest n (3 * words n) ->
  view r l (stored m dest bs) (g - touch_fee m dest n - 3 * words n) c t ->
  affordable m g dest n (3 * words n) /\ view r l (stored m dest bs) (g - copy_fee m dest n) c t.
Proof. intros HP Hv. split; [done|]. unfold copy_fee. by rewrite Z.sub_add_distr. Qed.

Lemma vp_CallDataCopy r dest o n l m g c s :
  view r (dest :: o :: n :: l) m g c s ->
  computes CallDataCopy_doExecute EVMC_OUT_OF_GAS c s (affordable m g dest n (3 * words n))
    r l (stored m dest (slice (input_data (Msg r)) o n)) (g - copy_fee m dest n) c.
Proof.
  intros Hv. apply computes_wp. destruct (view_input_ok _ _ _ _ _ _ Hv) as [Hb Hi].
  unfold CallDataCopy_doExecute. vp_operands. assert (0 <= words n) as Hw by (by apply words_nonneg).
  apply wp_bind. eapply vp_payTouch; [eassumption|done..| |].
  { intros HN t Hc. split; [|done]. apply unaffordable_touch; [lia|done]. }
  intros Ha s4 Hv4. destruct (affordable_range m g dest n) as (Hn & En & El & Hoff); [done..|].
  apply wp_bind, wp_getFrame. rewrite (view_input _ _ _ _ _ _ Hv4).
  set (data := input_data (Msg r)) in *. rewrite En.
  destruct (slice_clamp data o n) as [Esl _]; [done..|].
  set (src := if Z.of_nat (length data) <? uint256ToUint64 o then Z.of_nat (length data)
              else uint256ToUint64 o).
  assert (src = Z.min (uint256ToUint64 o) (Z.of_nat (length data))) as Esrc
    by (unfold src; case_match; lia).
  assert (0 <= uint256ToUint64 o) by (by apply uint256ToUint64_range).
  rewrite u64_small by lia. rewrite Esl, <- Esrc.
  apply wp_bind. eapply vp_payCopy; [done|done|..].
  { intros Hlt t Hc. split; [|done]. apply unaffordable_extra; lia. }
  intros Hle s5 Hv5.
  assert (affordable m g dest n (3 * words n)) as HP by (apply affordable_extra; [lia|done]).
  destruct (Z.eq_dec n 0) as [->|Hn0].
  - rewrite Z.min_l by lia. simpl. apply copy_view; [done|]. by rewrite stored_empty.
  - destruct Hoff as (Eo & _ & Ho0); [lia|]. rewrite Eo. set (k := Z.min n _).
    destruct (Z.ltb_spec 0 k).
    + apply wp_assoc. eapply vp_write_padded; [done|done|lia|lia|lia|done|].
      intros t Ht. by apply copy_view.
    + apply wp_bind, wp_ret. eapply (vp_write_zeros _ _ m _ _ _ dest data src n k); [|lia|lia|lia|done|].
      * replace k with 0 by lia. by rewrite write_at_nil.
      * intros t Ht. by apply copy_view.
Qed.

Lemma vp_CodeCopy r dest o n l m g c s :
  view r (dest :: o :: n :: l) m g c s -> wf_ctx c ->
  computes CodeCopy_doExecute EVMC_OUT_OF_GAS c s (affordable m g dest n (3 * words n))
    r l (stored m dest (slice (ModCode (Inst c)) o n)) (g - copy_fee m dest n) c.
Proof.
  intros Hv Hwc. apply computes_wp. unfold CodeCopy_doExecute.
  apply wp_bind. eapply vp_check; [eassumption|simpl; lia|]. apply wp_bind, wp_getCtx.
  rewrite (v_cx _ _ _ _ _ _ Hv). set (data := ModCode (Inst c)).
  assert (Z.of_nat (length data) < 2 ^ 63 /\ Forall is_byte data) as [Hi Hb]
    by (destruct Hwc; unfold data; split; [lia|done]).
  repeat (apply wp_bind; eapply vp_pop; [eassumption|intros ? ? ?]).
  assert (0 <= words n) as Hw by (by apply words_nonneg).
  apply wp_bind. eapply vp_payTouch; [eassumption|done..| |].
  { intros HN t Hc. split; [|done]. apply unaffordable_touch; [lia|done]. }
  intros Ha s4 Hv4. destruct (affordable_range m g dest n) as (Hn & En & El & Hoff); [done..|].
  destruct (slice_clamp data o n) as [Esl _]; [done..|]. rewrite En, Esl.
  assert (0 <= uint256ToUint64 o) by (by apply uint256ToUint64_range).
  set (src := uint256ToUint64 o) in *.
  apply wp_bind. eapply vp_payCopy; [done|done|..].
  { intros Hlt t Hc. split; [|done]. apply unaffordable_extra; lia. }
  intros Hle s5 Hv5.
  assert (affordable m g dest n (3 * words n)) as HP by (apply affordable_extra; [lia|done]).
  destruct (Z.eq_dec n 0) as [->|Hn0].
  - rewrite stored_empty. destruct (Z.ltb_spec src (Z.of_nat (length data))).
    + rewrite Z.min_l by lia. simpl. split; [done|]. unfold copy_fee. by rewrite Z.sub_add_distr.
    + simpl. split; [done|]. unfold copy_fee. by rewrite Z.sub_add_distr.
  - destruct Hoff as (Eo & _ & Ho0); [lia|]. rewrite Eo.
    destruct (Z.ltb_spec src (Z.of_nat (length data))).
    + rewrite (Z.min_l src) by lia. eapply vp_write_padded; [done|done|lia|lia|lia|done|].
      intros t Ht. by apply copy_view.
    + rewrite (Z.min_r src) by lia. rewrite (proj2 (Z.ltb_lt 0 n)) by lia.
      rewrite slice_past by lia. eapply vp_mem_write; [done|apply Forall_zeros|done| |].
      * rewrite zeros_length. pose proof (touched_length m dest n). lia.
      * intros t Ht. apply copy_view; [done|]. unfold stored.
        by rewrite zeros_length, Z2Nat.id by lia.
Qed.

Lemma u64_32 : is_u64 32.
Proof. unfold in_u. lia. Qed.
Lemma u64_1 : is_u64 1.
Proof. unfold in_u. lia. Qed.

Lemma stored_length m dest bs :
  0 <= dest -> length (stored m dest bs) = length (touched m dest (Z.of_nat (length bs))).
Proof.
  intros. unfold stored. destruct (decide (bs = [])) as [->|Hn]; [by rewrite write_at_nil|].
  assert (length bs <> 0%nat) by (by intros ?%nil_length_inv).
  pose proof (touched_length m dest (Z.of_nat (length bs))). apply length_write_at. lia.
Qed.

Lemma vp_MStore r o v l m g c s :
  view r (o :: v :: l) m g c s ->
  computes MStore_doExecute EVMC_OUT_OF_GAS c s (affordable m g o 32 0)
    r l (stored m o (be_bytes 32 v)) (g - touch_fee m o 32) c.
Proof.
  intros Hv. apply computes_wp. unfold MStore_doExecute. vp_operands.
  apply wp_bind. eapply vp_payTouch64; [eassumption|done|apply u64_32|lia|done|].
  intros Ha s3 Hv3.
  destruct (affordable_range m g o 32) as (_ & _ & _ & Hoff); [done|unfold in_u; lia|done|].
  destruct Hoff as (_ & Eo & Ho0); [lia|]. rewrite Eo, be_store_spec by done.
  eapply vp_mem_write; [done|apply be_bytes_range|done| |].
  - rewrite length_be_bytes. by apply touched_length.
  - intros t Ht. split; [done|]. unfold stored. by rewrite length_be_bytes.
Qed.

Lemma vp_MStore8 r o v l m g c s :
  view r (o :: v :: l) m g c s ->
  computes MStore8_doExecute EVMC_OUT_OF_GAS c s (affordable m g o 1 0)
    r l (stored m o [v mod 256]) (g - touch_fee m o 1) c.
Proof.
  intros Hv. apply computes_wp. unfold MStore8_doExecute. vp_operands.
  apply wp_bind. eapply vp_payTouch64; [eassumption|done|apply u64_1|lia|done|].
  intros Ha s3 Hv3.
  destruct (affordable_range m g o 1) as (_ & _ & _ & Hoff); [done|unfold in_u; lia|done|].
  destruct Hoff as (_ & Eo & Ho0); [lia|]. rewrite Eo, uand_spec by (done || unfold in_u; lia).
  change 0xFF with (Z.ones 8). rewrite Z.land_ones by lia. change (2 ^ 8) with 256.
  pose proof (Z.mod_pos_bound v 256 ltac:(lia)) as Hb.
  rewrite low64_small, wrap_small by (unfold in_u; lia).
  eapply vp_mem_write; [done|apply Forall_singleton; unfold in_u; lia|done| |done].
  by apply touched_length.
Qed.

Lemma vp_MLoad r o l m g c s :
  view r (o :: l) m g c s ->
  computes MLoad_doExecute EVMC_OUT_OF_GAS c s (affordable m g o 32 0)
    r (be_value (slice (touched m o 32) o 32) :: l) (touched m o 32) (g - touch_fee m o 32) c.
Proof.
  intros Hv. apply computes_wp. pose proof (view_bounds _ _ _ _ _ _ Hv) as [Hl _]. simpl in Hl.
  unfold MLoad_doExecute. vp_operands.
  apply wp_bind. eapply vp_payTouch64; [eassumption|done|apply u64_32|lia|done|].
  intros Ha s3 Hv3.
  destruct (affordable_range m g o 32) as (_ & _ & _ & Hoff); [done|unfold in_u; lia|done|].
  destruct Hoff as (_ & Eo & Ho0); [lia|]. rewrite Eo.
  pose proof (touched_length m o 32 Ho0 ltac:(lia)) as Hlen.
  apply wp_bind. eapply vp_mem_read; [done..|]. rewrite <- slice_in by lia.
  pose proof (view_bounds _ _ _ _ _ _ Hv3) as (_ & _ & _ & _ & Hm & _).
  pose proof (slice_bytes _ o 32 Hm) as Hb. pose proof (length_slice (touched m o 32) o 32) as El.
  rewrite be_load_spec by (done || rewrite El; lia).
  eapply vp_push; [done|lia| |done].
  apply (in_u_mono (8 * Z.of_nat (length (slice (touched m o 32) o 32)))); [rewrite El; lia|].
  by apply be_value_range.
Qed.

Lemma slice_u256 data o n :
  Forall is_byte data -> 0 <= n <= 32 -> is_u256 (be_value (slice data o n)).
Proof.
  intros Hd Hn. pose proof (length_slice data o n) as El.
  apply (in_u_mono (8 * Z.of_nat (length (slice data o n)))); [rewrite El; lia|].
  by apply be_value_range, slice_bytes.
Qed.

Lemma vp_CallDataLoad r o l m g c s :
  view r (o :: l) m g c s ->
  computes CallDataLoad_doExecute EVMC_OUT_OF_GAS c s True
    r (be_value (slice (input_data (Msg r)) o 32) :: l) m g c.
Proof.
  intros Hv. apply computes_return. pose proof (view_bounds _ _ _ _ _ _ Hv) as [Hl _]. simpl in Hl.
  destruct (view_input_ok _ _ _ _ _ _ Hv) as [Hb Hi].
  unfold CallDataLoad_doExecute. vp_operands. apply wp_bind, wp_getFrame.
  rewrite (view_input _ _ _ _ _ _ ltac:(eassumption)). set (data := input_data (Msg r)) in *.
  destruct (Z.ltb_spec (Z.of_nat (length data)) o) as [Hlt|Hge].
  - apply wp_bind. eapply vp_push; [eassumption|lia|unfold in_u; lia|]. intros t Ht.
    apply wp_exit. left. split; [done|]. rewrite slice_past by lia. unfold zeros.
    by rewrite be_value_zeros.
  - assert (0 <= o < 2 ^ 63) as Ho by (match goal with Hu : is_u256 o |- _ => destruct Hu end; lia).
    rewrite uint256ToUint64_small by (unfold in_u; lia). rewrite u64_small by lia.
    set (k := Z.min 32 _). apply wp_bind.
    assert (buf_read (HS := HS) data o k = ret (take (Z.to_nat k) (drop (Z.to_nat o) data))) as ->.
    { unfold buf_read. destruct (Z.eqb_spec k 0) as [->|]; [done|].
      by rewrite !(proj2 (Z.leb_le _ _)) by lia. }
    apply wp_ret.
    assert (take (Z.to_nat k) (drop (Z.to_nat o) data) ++
            replicate (32 - length (take (Z.to_nat k) (drop (Z.to_nat o) data))) 0
            = slice data o 32) as ->.
    { rewrite (slice_split data o 32 k) by lia. unfold zeros. do 2 f_equal.
      rewrite length_take, length_drop. lia. }
    rewrite be_load_spec by (apply slice_bytes, Hb || (rewrite length_slice; lia)).
    eapply vp_push; [eassumption|lia|by apply slice_u256|]. done.
Qed.

(** The bounds check of RETURNDATACOPY, made on 256-bit words, is exact. *)
Lemma returndata_check o n size :
  is_u256 o -> is_u256 n -> 0 <= size < 2 ^ 63 ->
  (size <? o) || (size <? n) || (size <? uadd o n) = (size <? o + n).
Proof.
  intros Ho Hn Hs. rewrite uadd_spec by done. unfold in_u in *.
  destruct (Z.ltb_spec size o); [symmetry; apply Z.ltb_lt; lia|].
  destruct (Z.ltb_spec size n); [symmetry; apply Z.ltb_lt; lia|]. cbn [orb].
  by rewrite Z.mod_small by lia.
Qed.

Lemma vp_ReturnDataCopy_in r dest o n l m g c s :
  view r (dest :: o :: n :: l) m g c s -> wf_ctx c -> o + n <= Z.of_nat (length (ReturnData c)) ->
  computes ReturnDataCopy_doExecute EVMC_OUT_OF_GAS c s (affordable m g dest n (3 * words n))
    r l (stored m dest (slice (ReturnData c) o n)) (g - copy_fee m dest n) c.
Proof.
  intros Hv [_ Hb Hi _ _ _] Hin. apply computes_wp. unfold ReturnDataCopy_doExecute.
  vp_operands. apply wp_bind, wp_getCtx. rewrite (v_cx _ _ _ _ _ _ ltac:(eassumption)).
  set (data := ReturnData c) in *. rewrite returndata_check by (done || lia).
  rewrite (proj2 (Z.ltb_ge _ _)) by lia. apply wp_bind, wp_ret.
  assert (0 <= words n) as Hw by (by apply words_nonneg).
  apply wp_bind. eapply vp_payTouch; [eassumption|done..| |].
  { intros HN t Hc. split; [|done]. apply unaffordable_touch; [lia|done]. }
  intros Ha s4 Hv4. destruct (affordable_range m g dest n) as (Hn & En & El & Hoff); [done..|].
  rewrite En. apply wp_bind. eapply vp_payCopy; [done|done|..].
  { intros Hlt t Hc. split; [|done]. apply unaffordable_extra; lia. }
  intros Hle s5 Hv5.
  assert (affordable m g dest n (3 * words n)) as HP by (apply affordable_extra; [lia|done]).
  assert (0 <= o) by (match goal with Hu : is_u256 o |- _ => apply Hu end).
  destruct (Z.ltb_spec 0 n).
  - destruct Hoff as (Eo & _ & Ho0); [lia|]. rewrite Eo.
    rewrite uint256ToUint64_small by (unfold in_u; lia). apply wp_bind. unfold buf_read.
    rewrite (proj2 (Z.eqb_neq n 0)), !(proj2 (Z.leb_le _ _)) by lia. apply wp_ret.
    rewrite <- slice_in by lia.
    eapply vp_mem_write; [done|by apply slice_bytes|done| |].
    + rewrite length_slice. pose proof (touched_length m dest n). lia.
    + intros t Ht. apply copy_view; [done|]. by rewrite stored_slice by lia.
  - replace n with 0 in * by lia. apply wp_ret, copy_view; [done|]. by rewrite stored_empty.
Qed.

Lemma vp_ReturnDataCopy_out r dest o n l m g c s :
  view r (dest :: o :: n :: l) m g c s -> wf_ctx c -> Z.of_nat (length (ReturnData c)) < o + n ->
  exists s', call ReturnDataCopy_doExecute s = Ret tt s' /\
    cx s' = set_Status EVMC_INVALID_MEMORY_ACCESS c.
Proof.
  intros Hv [_ Hb Hi _ _ _] Hin.
  enough (computes ReturnDataCopy_doExecute EVMC_INVALID_MEMORY_ACCESS c s False r l m g c) as [_ Hc]
    by exact (Hc (fun f => f)).
  apply computes_wp. unfold ReturnDataCopy_doExecute.
  vp_operands. apply wp_bind, wp_getCtx. rewrite (v_cx _ _ _ _ _ _ ltac:(eassumption)).
  rewrite returndata_check by (done || lia). rewrite (proj2 (Z.ltb_lt _ _)) by lia.
  apply wp_bind. eapply vp_fail; [eassumption|]. intros t Ht. split; [intros []|exact Ht].
Qed.

Lemma vp_MCopy r dest o n l m g c s :
  view r (dest :: o :: n :: l) m g c s -> 0 < n ->
  let top := Z.max dest o in
  let m' := touched m top n in
  computes MCopy_doExecute EVMC_OUT_OF_GAS c s (affordable m g top n (3 * words n))
    r l (write_at (Z.to_nat dest) (slice m' o n) m') (g - copy_fee m top n) c.
Proof.
  intros Hv Hpos top m'. apply computes_wp. unfold MCopy_doExecute. vp_operands.
  rewrite (proj2 (Z.eqb_neq n 0)) by lia. fold top.
  assert (0 <= words n) as Hw by (by apply words_nonneg).
  assert (is_u256 top) as Htop by (unfold top; destruct (Z.max_spec dest o) as [[_ ->]|[_ ->]]; done).
  apply wp_bind. eapply vp_payTouch; [eassumption|done..| |].
  { intros HN t Hc. split; [|done]. apply unaffordable_touch; [lia|done]. }
  intros Ha s4 Hv4. destruct (affordable_range m g top n) as (Hn & En & El & Hoff); [done..|].
  destruct Hoff as (_ & _ & Ht0); [lia|]. rewrite En.
  assert (0 <= dest /\ 0 <= o) as [Hd0 Ho0]
    by (split; match goal with Hu : is_u256 ?x |- 0 <= ?x => apply Hu end).
  assert (top + n <= MAX_REQUIRED_MEMORY_SIZE) as Hmax by (destruct Ha; lia).
  unfold MAX_REQUIRED_MEMORY_SIZE in Hmax.
  rewrite !low64_small by (unfold in_u; lia).
  apply wp_bind. eapply vp_payCopy; [done|done|..].
  { intros Hlt t Hc. split; [|done]. apply unaffordable_extra; lia. }
  intros Hle s5 Hv5. rewrite (proj2 (Z.ltb_lt 0 n)) by lia.
  assert (affordable m g top n (3 * words n)) as HP by (apply affordable_extra; [lia|done]).
  pose proof (touched_length m top n Ht0 Hpos) as Hlen. fold m' in Hlen, Hv5.
  pose proof (view_bounds _ _ _ _ _ _ Hv5) as (_ & _ & _ & _ & Hm & _).
  apply wp_bind. eapply vp_mem_read; [done|lia|lia|lia|]. rewrite <- slice_in by lia.
  eapply vp_mem_write; [done|by apply slice_bytes|lia|rewrite length_slice; lia|].
  intros t Ht. split; [done|]. unfold copy_fee. by rewrite Z.sub_add_distr.
Qed.
End Handlers.

(** An access inside the memory is free and leaves its size. *)
Lemma touched_covered m off size :
  0 < size -> off + size <= Z.of_nat (length m) -> Z.of_nat (length m) mod 32 = 0 ->
  touched m off size = m /\ touch_fee m off size = 0.
Proof.
  intros Hs Hc Hm. unfold touched, touch_fee, extended, expansion_fee.
  rewrite (proj2 (Z.eqb_neq size 0)) by lia.
  assert (ceil32 (off + size) <= Z.of_nat (length m)) by (unfold ceil32; div_lia).
  replace (Z.to_nat (ceil32 (off + size)) - length m)%nat with 0%nat by lia.
  rewrite app_nil_r. split; [done|].
  rewrite Z.max_l; [lia|]. unfold words. div_lia.
Qed.

Lemma Cmem_words_max a b : 0 <= a <= b -> Z.max (words a) (words b) = words b.
Proof. intros. apply Z.max_r. unfold words. apply Z.div_le_mono; lia. Qed.

(** * Theorems *)

Section Claims.
Context {HS : Type} {I : Intx} {H : EvmcHost HS} {V : Evmc} {IL : IntxLaws I}.
Implicit Types (s : hstate HS) (c : Context_ HS) (r : EVMFrame) (l m : list Z).

(** C37.  The fee for growing memory, computed on 64 bits, is the difference
    of the Yellow Paper's memory costs: it never wraps below the size limit,
    and growing in two steps costs as much as growing at once. *)
Theorem memory_fee_exact a b d :
  0 <= a <= b -> b <= d <= MAX_REQUIRED_MEMORY_SIZE ->
  a mod 32 = 0 -> b mod 32 = 0 -> d mod 32 = 0 ->
  calculateMemoryExpansionCost a d = Cmem (d / 32) - Cmem (a / 32) /\
  calculateMemoryExpansionCost a b + calculateMemoryExpansionCost b d
    = calculateMemoryExpansionCost a d.
Proof.
  intros Hab Hbd Ha Hb Hd.
  assert (forall n, n mod 32 = 0 -> ceil32 n = n /\ words n = n / 32) as Hc
    by (intros n Hn; unfold ceil32, words; div_lia).
  assert (forall x y, 0 <= x <= y -> y <= MAX_REQUIRED_MEMORY_SIZE -> x mod 32 = 0 -> y mod 32 = 0 ->
            calculateMemoryExpansionCost x y = Cmem (y / 32) - Cmem (x / 32)) as Hf.
  { intros x y ? ? Hx Hy. destruct (Hc x Hx) as [_ Ex]. destruct (Hc y Hy) as [Ec Ey].
    rewrite <- Ec, memory_cost_exact by (done || lia). unfold expansion_fee.
    rewrite Cmem_words_max by lia. by rewrite Ex, Ey, Ec. }
  rewrite !Hf by (done || lia). lia.
Qed.

(** MSTORE puts the 32 bytes of its operand, big-endian, at the given
    offset, growing the memory with zeros for the expansion fee, and stops
    the frame exactly when that fee cannot be paid or the size limit is
    exceeded. *)
Theorem mstore_correct r o v l m g c s :
  view r (o :: v :: l) m g c s ->
  computes MStore_doExecute EVMC_OUT_OF_GAS c s (affordable m g o 32 0)
    r l (stored m o (be_bytes 32 v)) (g - touch_fee m o 32) c.
Proof. apply vp_MStore. Qed.

(** C14.  MLOAD at the offset of the last MSTORE gives back the stored word,
    and its memory access is free. *)
Theorem mstore_mload_roundtrip r o v l m g c s :
  view r (o :: v :: l) m g c s -> affordable m g o 32 0 ->
  exists s', (call MStore_doExecute ;;; push o ;;; call MLoad_doExecute) s = Ret tt s' /\
    view r (v :: l) (stored m o (be_bytes 32 v)) (g - touch_fee m o 32) c s'.
Proof.
  intros Hv Ha. pose proof (view_bounds _ _ _ _ _ _ Hv) as (Hl & _ & _ & _ & _ & Hu). simpl in Hl.
  apply Forall_cons_iff in Hu as [Ho Hu]. apply Forall_cons_iff in Hu as [Hw _].
  assert (0 <= o) as Ho0 by apply Ho.
  destruct (proj1 (vp_MStore _ _ _ _ _ _ _ _ Hv) Ha) as (s1 & E1 & Hv1).
  unfold bind at 1. rewrite E1. set (m1 := stored m o (be_bytes 32 v)) in *.
  pose proof (view_bounds _ _ _ _ _ _ Hv1) as (_ & Hg1 & Hm32 & _).
  assert (o + 32 <= Z.of_nat (length m1)) as Hin.
  { unfold m1. rewrite stored_length by done. rewrite length_be_bytes. by apply touched_length. }
  destruct (touched_covered m1 o 32 ltac:(lia) Hin Hm32) as [Et Ef].
  assert (affordable m1 (g - touch_fee m o 32) o 32 0) as Ha1.
  { destruct Ha as [? _]. split; [done|]. rewrite Ef. lia. }
  assert (wp (push o) (fun _ s' => view r (o :: l) m1 (g - touch_fee m o 32) c s') (fun _ => False) s1)
    as Hp by (eapply vp_push; [done|lia|done|done]).
  unfold wp in Hp. unfold bind. destruct (push o s1) as [[] s2| | |]; try done.
  destruct (proj1 (vp_MLoad _ _ _ _ _ _ _ Hp) Ha1) as (s3 & E3 & Hv3).
  exists s3. split; [done|]. rewrite Et, Ef, Z.sub_0_r in Hv3.
  replace (be_value (slice m1 o 32)) with v in Hv3; [done|].
  rewrite slice_in by lia. unfold m1, stored.
  pose proof (read_write_at (Z.to_nat o) (be_bytes 32 v) (touched m o 32)) as Hr.
  rewrite length_be_bytes in *. change (Z.to_nat 32) with 32%nat. change (Z.of_nat 32) with 32.
  rewrite Hr; [symmetry; by apply be_value_store|]. pose proof (touched_length m o 32). lia.
Qed.

(** CALLDATACOPY and CODECOPY store the given slice of the call data
    and of the code, zero-filled past its end, for the expansion fee and three
    units per word, and stop the frame exactly when these cannot be paid. *)
Theorem copies_correct r dest o n l m g c s :
  view r (dest :: o :: n :: l) m g c s -> wf_ctx c ->
  computes CallDataCopy_doExecute EVMC_OUT_OF_GAS c s (affordable m g dest n (3 * words n))
    r l (stored m dest (slice (input_data (Msg r)) o n)) (g - copy_fee m dest n) c /\
  computes CodeCopy_doExecute EVMC_OUT_OF_GAS c s (affordable m g dest n (3 * words n))
    r l (stored m dest (slice (ModCode (Inst c)) o n)) (g - copy_fee m dest n) c.
Proof. intros. split; [by apply vp_CallDataCopy|by apply vp_CodeCopy]. Qed.

(** CALLDATALOAD pushes the 32 bytes of call data at the offset, read
    big-endian, as if zeros followed them, for any 256-bit offset. *)
Theorem calldataload_correct r o l m g c s :
  view r (o :: l) m g c s ->
  exists s', call CallDataLoad_doExecute s = Ret tt s' /\
    view r (be_value (slice (input_data (Msg r)) o 32) :: l) m g c s'.
Proof. intros Hv. exact (proj1 (vp_CallDataLoad _ _ _ _ _ _ _ Hv) Logic.I). Qed.

(** RETURNDATACOPY copies a slice of the return data that lies inside
    it; any other range, also one whose end overflows 256 bits, is an invalid
    memory access. *)
Theorem returndatacopy_correct r dest o n l m g c s :
  view r (dest :: o :: n :: l) m g c s -> wf_ctx c ->
  (o + n <= Z.of_nat (length (ReturnData c)) ->
   computes ReturnDataCopy_doExecute EVMC_OUT_OF_GAS c s (affordable m g dest n (3 * words n))
     r l (stored m dest (slice (ReturnData c) o n)) (g - copy_fee m dest n) c) /\
  (Z.of_nat (length (ReturnData c)) < o + n ->
   exists s', call ReturnDataCopy_doExecute s = Ret tt s' /\
     cx s' = set_Status EVMC_INVALID_MEMORY_ACCESS c).
Proof. intros. split; intros; [by apply vp_ReturnDataCopy_in|by eapply vp_ReturnDataCopy_out]. Qed.

(** MCOPY copies a range of memory to another as if through a
    temporary, however the two overlap, after growing memory to cover both. *)
Theorem mcopy_correct r dest o n l m g c s :
  view r (dest :: o :: n :: l) m g c s -> 0 < n ->
  let top := Z.max dest o in
  let m' := touched m top n in
  computes MCopy_doExecute EVMC_OUT_OF_GAS c s (affordable m g top n (3 * words n))
    r l (write_at (Z.to_nat dest) (slice m' o n) m') (g - copy_fee m top n) c.
Proof. apply vp_MCopy. Qed.
End Claims.

(** * Examples *)

Definition sample_rest : EVMFrame := frame_rest (sample_frame 0).
Definition sample_context : Context_ null_host := sample_ctx countdown EVMC_CANCUN.

Lemma memory_fee_exact_witness :
  calculateMemoryExpansionCost 32 32768 = Cmem 1024 - Cmem 1 /\
  calculateMemoryExpansionCost 32 64 + calculateMemoryExpansionCost 64 32768
    = calculateMemoryExpansionCost 32 32768.
Proof. apply (memory_fee_exact 32 64 32768); done || lia. Defined.

Lemma mstore_correct_witness :
  computes MStore_doExecute EVMC_OUT_OF_GAS sample_context (sample_state [33; 7; 5] [] 50)
    (affordable [] 50 33 32 0) sample_rest [5] (replicate 64 0 ++ [7] ++ replicate 31 0) 41
    sample_context.
Proof.
  refine (mstore_correct sample_rest 33 7 [5] [] 50 sample_context (sample_state [33; 7; 5] [] 50) _).
  apply sample_view; sample_side.
Defined.

Lemma mstore_mload_roundtrip_witness :
  exists s', (call MStore_doExecute ;;; push 33 ;;; call MLoad_doExecute)
               (sample_state [33; 7; 5] [] 50) = Ret tt s' /\
    view sample_rest [7; 5] (replicate 64 0 ++ [7] ++ replicate 31 0) 41 sample_context s'.
Proof.
  refine (mstore_mload_roundtrip sample_rest 33 7 [5] [] 50 sample_context
            (sample_state [33; 7; 5] [] 50) _ _).
  - apply sample_view; sample_side.
  - split; [right; unfold MAX_REQUIRED_MEMORY_SIZE; lia|vm_compute; discriminate].
Defined.

(** Four bytes of the code from offset 9, of which two are past its end. *)
Lemma copies_correct_witness :
  exists s', call CodeCopy_doExecute (sample_state [1; 9; 4] [] 50) = Ret tt s' /\
    view sample_rest [] ([0; 2; 0x57; 0; 0] ++ replicate 27 0) 44 sample_context s'.
Proof.
  refine (proj1 (proj2 (copies_correct sample_rest 1 9 4 [] [] 50 sample_context
            (sample_state [1; 9; 4] [] 50) _ countdown_ctx_wf)) _).
  - apply sample_view; sample_side.
  - split; [right; unfold MAX_REQUIRED_MEMORY_SIZE; lia|vm_compute; discriminate].
Defined.

Lemma calldataload_correct_witness :
  exists s', call CallDataLoad_doExecute (sample_state [2 ^ 255] [] 50) = Ret tt s' /\
    view sample_rest [0] [] 50 sample_context s'.
Proof.
  pose proof (calldataload_correct sample_rest (2 ^ 255) [] [] 50 sample_context
                (sample_state [2 ^ 255] [] 50)) as Hc.
  rewrite slice_past in Hc by (cbn; lia). apply Hc. apply sample_view; sample_side.
Defined.

(** There is no return data yet: one byte of it is out of range. *)
Lemma returndatacopy_correct_witness :
  exists s', call ReturnDataCopy_doExecute (sample_state [0; 2 ^ 256 - 1; 1] [] 50) = Ret tt s' /\
    cx s' = set_Status EVMC_INVALID_MEMORY_ACCESS sample_context.
Proof.
  refine (proj2 (returndatacopy_correct sample_rest 0 (2 ^ 256 - 1) 1 [] [] 50 sample_context
            (sample_state [0; 2 ^ 256 - 1; 1] [] 50) _ countdown_ctx_wf) _).
  - apply sample_view; sample_side.
  - cbn. lia.
Defined.

Definition five_bytes : list Z := [1; 2; 3; 4; 5] ++ replicate 27 0.

(** Three bytes moved by one: the ranges overlap. *)
Lemma mcopy_correct_witness :
  exists s', call MCopy_doExecute (sample_state [1; 0; 3] five_bytes 50) = Ret tt s' /\
    view sample_rest [] ([1; 1; 2; 3; 5] ++ replicate 27 0) 47 sample_context s'.
Proof.
  refine (proj1 (mcopy_correct sample_rest 1 0 3 [] five_bytes 50 sample_context
            (sample_state [1; 0; 3] five_bytes 50) _ _) _).
  - apply sample_view; sample_side.
  - lia.
  - split; [right; unfold MAX_REQUIRED_MEMORY_SIZE; lia|vm_compute; discriminate].
Defined.
