(* ===== verification/StaticMode.v ===== *)
(** Static calls are read-only.

    A frame whose message carries [EVMC_STATIC] must not change the state of
    the chain.  [obs] is what can be observed of the host's state; reading
    it, and the access lists of EIP-2929, leave it alone, and so does a host
    asked for a static call that moves no value and creates no account
    ([ReadOnlyHost]).  The theorems show that interpreting a static frame
    asks the host for nothing else. *)

From S2P Require Import Prelude Intx Evmc GasStorageCost EvmInstance Frame HandlerUtil.
From S2P Require Import HandlersArith HandlersEnv HandlersCall BytecodeCache Interpreter Dispatch.
From S2P Require Import WellFormed Concrete.

#[local] Open Scope Z_scope.

Definition static_msg `{Evmc} (m : evmc_message) : Prop := Z.land (flags m) EVMC_STATIC <> 0.

(** A call that can only read. *)
Record read_only_call `{Evmc} (m : evmc_message) : Prop := {
  ro_static : static_msg m;
  ro_kind : kind m <> EVMC_CREATE /\ kind m <> EVMC_CREATE2;
  ro_value : kind m = EVMC_CALL -> be_value (value m) = 0;
}.

Class ReadOnlyHost {HS : Type} {H : EvmcHost HS} {V : Evmc} {T : Type} (obs : HS -> T) : Prop := {
  obs_access_account a h : obs (access_account a h).2 = obs h;
  obs_access_storage a k h : obs (access_storage a k h).2 = obs h;
  obs_call m h : read_only_call m -> obs (host_call m h).2 = obs h;
}.

Section Static.
Context {HS : Type} {I : Intx} {H : EvmcHost HS} {V : Evmc} {IL : IntxLaws I} {VL : EvmcLaws V}.
Context {T : Type} (obs : HS -> T) {RO : ReadOnlyHost obs}.
Implicit Types (s : hstate HS) (c : Context_ HS).

(** The state of a static, only frame, with [O] observed of the host. *)
Record quiet (O : T) s : Prop := {
  q_static : static_msg (Msg (fr s));
  q_below : below (cx s) = [];
  q_obs : obs (hst (cx s)) = O;
}.

(** [M] keeps such a state. *)
Definition ro {A} (M : HM HS A) : Prop :=
  forall O s, quiet O s ->
  match M s with
  | Ret _ s' | Exit s' => quiet O s'
  | Throw _ _ | Undef => True
  end.

Lemma ro_ret {A} (a : A) : ro (ret a).
Proof. by intros O s. Qed.
Lemma ro_exit {A} : ro (@exit _ _ A).
Proof. by intros O s. Qed.
Lemma ro_throw {A} e : ro (@throw _ _ A e).
Proof. by intros O s. Qed.
Lemma ro_undef {A} : ro (@undef _ _ A).
Proof. by intros O s. Qed.
Lemma ro_option {A} (o : option A) : ro (of_option o).
Proof. destruct o; [apply ro_ret|apply ro_undef]. Qed.
Lemma ro_gets {A} (f : hstate HS -> A) : ro (gets f).
Proof. by intros O s. Qed.
Lemma ro_bind {A B} (m : HM HS A) (k : A -> HM HS B) : ro m -> (forall a, ro (k a)) -> ro (bind m k).
Proof.
  intros Hm Hk O s Hs. specialize (Hm O s Hs). unfold bind.
  destruct (m s) as [a s'| | |]; try done. by apply Hk.
Qed.
Lemma ro_if {A} (b : bool) (m m' : HM HS A) : ro m -> ro m' -> ro (if b then m else m').
Proof. by destruct b. Qed.

Lemma ro_assoc {A B C} (m : HM HS A) (f : A -> HM HS B) (h : B -> HM HS C) :
  ro (bind m (fun x => bind (f x) h)) -> ro (bind (bind m f) h).
Proof.
  intros Hr O s Hs. specialize (Hr O s Hs). revert Hr. unfold bind. by destruct (m s).
Qed.
Lemma ro_bind_ret {A B} (a : A) (k : A -> HM HS B) : ro (k a) -> ro (bind (ret a) k).
Proof. intros Hr O s Hs. exact (Hr O s Hs). Qed.
Lemma ro_bind_exit {A B} (k : A -> HM HS B) : ro (bind exit k).
Proof. by intros O s Hs. Qed.

(** Updates of the frame that keep the flags, and of the context that keep
    the frames and the host. *)
Lemma ro_modFrame f : (forall x, flags (Msg (f x)) = flags (Msg x)) -> ro (modFrame f).
Proof.
  intros Hf O s []. unfold modFrame, modify. split; try done. unfold static_msg. cbn [fr on_fr].
  by rewrite Hf.
Qed.
Lemma ro_modCtx f :
  (forall c, below (f c) = below c) -> (forall c, hst (f c) = hst c) -> ro (modCtx f).
Proof. intros Hb Hh O s []. split; try done; cbn [cx on_cx]; by rewrite ?Hb, ?Hh. Qed.

(** What a static frame knows of its own message. *)
Lemma ro_getMsg {B} (k : evmc_message -> HM HS B) :
  (forall m, static_msg m -> ro (k m)) -> ro (bind (getFrame Msg) k).
Proof. intros Hk O s Hs. unfold bind, getFrame, gets. apply Hk; [|done]. apply Hs. Qed.
Lemma ro_isStatic {B} (k : bool -> HM HS B) : ro (k true) -> ro (bind isStaticMode k).
Proof.
  intros Hk O s Hs.
  unfold isStaticMode, bind, getFrame, gets, ret. pose proof (q_static _ _ Hs) as Hst.
  apply Z.eqb_neq in Hst. rewrite Hst. by apply Hk.
Qed.
Lemma ro_unless {B} (b : bool) st (k : unit -> HM HS B) :
  (b = true -> ro (k tt)) -> ro (bind (EVM_SET_EXCEPTION_UNLESS b st) k).
Proof.
  intros Hk. destruct b.
  - intros O s Hs. by apply Hk.
  - intros O s []. by split.
Qed.

(** Requests to the host. *)
Lemma ro_hostDo {A} (f : HS -> A * HS) : (forall h, obs (f h).2 = obs h) -> ro (hostDo f).
Proof.
  intros Hf O s []. unfold hostDo, bind, getCtx, gets. specialize (Hf (hst (cx s))).
  destruct (f (hst (cx s))) as [a h]. split; try done. by rewrite <- q_obs0.
Qed.

(** Clearing the delegation flag keeps the static one. *)
Lemma land_delegated_static : Z.land EVMC_STATIC (u32 (Z.lnot EVMC_DELEGATED)) = EVMC_STATIC.
Proof.
  destruct flag_static_range as [Hr _].
  assert (Z.land EVMC_DELEGATED EVMC_STATIC = 0) as Hd by (rewrite Z.land_comm; apply flags_distinct).
  apply Z.bits_inj'. intros n Hn. unfold wrap. rewrite Z.land_spec.
  destruct (Z.testbit EVMC_STATIC n) eqn:E; [|done].
  assert (n < 32).
  { destruct (Z.lt_ge_cases n 32); [done|]. by rewrite (u_bits_high 32) in E. }
  rewrite Z.mod_pow2_bits_low, Z.lnot_spec by done.
  assert (Z.testbit (Z.land EVMC_DELEGATED EVMC_STATIC) n = false) as Hb by (by rewrite Hd, Z.bits_0).
  rewrite Z.land_spec, E, andb_true_r in Hb. by rewrite Hb.
Qed.

(** The flags of a message a static frame sends. *)
Lemma call_flags_static fl b :
  Z.land fl EVMC_STATIC <> 0 ->
  Z.land (if negb b then Z.lor fl EVMC_DELEGATED
          else Z.land fl (u32 (Z.lnot EVMC_DELEGATED))) EVMC_STATIC <> 0.
Proof.
  intros Hf. assert (Z.land EVMC_DELEGATED EVMC_STATIC = 0) as Hd by (rewrite Z.land_comm; apply flags_distinct).
  destruct b; simpl negb; cbv iota.
  - by rewrite <- Z.land_assoc, (Z.land_comm (u32 _)), land_delegated_static.
  - by rewrite Z.land_lor_distr_l, Hd, Z.lor_0_r.
Qed.

Lemma static_flag_self : Z.land EVMC_STATIC EVMC_STATIC <> 0.
Proof. rewrite Z.land_diag. apply flag_static_range. Qed.

Lemma call_message_ro op m k g dest ca v input :
  static_msg m -> (op = OP_CALL -> v = 0) -> (op = OP_STATICCALL -> v = 0) ->
  k = match op with OP_CALLCODE => EVMC_CALLCODE | OP_DELEGATECALL => EVMC_DELEGATECALL
               | _ => EVMC_CALL end ->
  op = OP_CALL \/ op = OP_CALLCODE \/ op = OP_DELEGATECALL \/ op = OP_STATICCALL ->
  read_only_call (call_message op m k g dest ca v input).
Proof.
  intros Hm Hv Hv' -> Hop. unfold call_message. split.
  - unfold static_msg. cbn [flags]. apply call_flags_static.
    destruct op; try exact Hm. apply static_flag_self.
  - by destruct op.
  - cbn [kind value]. intros Hk. destruct Hop as [->|[->|[->| ->]]]; try discriminate Hk.
    + rewrite Hv, be_store_spec by (done || unfold in_u; lia). by rewrite be_value_bytes.
    + rewrite Hv', be_store_spec by (done || unfold in_u; lia). by rewrite be_value_bytes.
Qed.
End Static.

Ltac ro_step :=
  lazymatch goal with
  | |- ro _ (bind isStaticMode _) => apply ro_isStatic
  | |- ro _ (bind (EVM_SET_EXCEPTION_UNLESS _ _) _) => apply ro_unless; intros ?; try discriminate
  | |- ro _ (bind (getFrame Msg) _) => apply ro_getMsg; intros ? ?
  | |- ro _ (bind (ret _) _) => apply ro_bind_ret
  | |- ro _ (bind exit _) => apply ro_bind_exit
  | |- ro _ (bind (bind _ _) _) => apply ro_assoc
  | |- ro _ (bind _ _) => apply ro_bind; [|intros ?]
  | |- ro _ (ret _) => apply ro_ret
  | |- ro _ exit => apply ro_exit
  | |- ro _ (throw _) => apply ro_throw
  | |- ro _ undef => apply ro_undef
  | |- ro _ (of_option _) => apply ro_option
  | |- ro _ (if _ then _ else _) => apply ro_if
  | |- ro _ (let _ := _ in _) => cbv zeta
  | |- ro _ (modFrame _) => apply ro_modFrame; intros ?; reflexivity
  | |- ro _ (modCtx _) => apply ro_modCtx; intros ?; reflexivity
  | |- ro _ (hostDo (access_account _)) => apply ro_hostDo; intros; apply obs_access_account
  | |- ro _ (hostDo (access_storage _ _)) => apply ro_hostDo; intros; apply obs_access_storage
  | |- ro _ (getFrame _) => apply ro_gets
  | |- ro _ (getCtx _) => apply ro_gets
  | |- ro _ (hostRead _) => apply ro_gets
  | |- ro _ currentRevision => apply ro_gets
  | |- ro _ isStaticMode => apply ro_gets
  | |- ro _ (gets _) => apply ro_gets
  | |- ro ?o ?m =>
      let m' := lazymatch m with
        | setStatus _ => eval unfold setStatus in m
        | orStatus _ _ => eval unfold orStatus in m
        | stack_at _ => eval unfold stack_at in m
        | stack_set _ _ => eval unfold stack_set in m
        | pop => eval unfold pop in m
        | push _ => eval unfold push in m
        | getTxContext => eval unfold getTxContext in m
        | pushValue _ => eval unfold pushValue in m
        | EVM_STACK_CHECK _ => eval unfold EVM_STACK_CHECK in m
        | EVM_REQUIRE_STACK_SPACE _ => eval unfold EVM_REQUIRE_STACK_SPACE in m
        | chargeGas _ => eval unfold chargeGas in m
        | chargeSigned _ => eval unfold chargeSigned in m
        | copyCodeAndChargeGas _ => eval unfold copyCodeAndChargeGas in m
        | expandMemoryAndChargeGas _ => eval unfold expandMemoryAndChargeGas in m
        | checkMemoryExpandAndChargeGas64 _ _ => eval unfold checkMemoryExpandAndChargeGas64 in m
        | checkMemoryExpandAndChargeGas _ _ => eval unfold checkMemoryExpandAndChargeGas in m
        | mem_read _ _ => eval unfold mem_read in m
        | mem_write _ _ => eval unfold mem_write in m
        | buf_read _ _ _ => eval unfold buf_read in m
        | UnaryOpHandler _ => eval unfold UnaryOpHandler in m
        | BinaryOpHandler _ => eval unfold BinaryOpHandler in m
        | TernaryOpHandler _ => eval unfold TernaryOpHandler in m
        | coldAccount _ _ => eval unfold coldAccount in m
        | coldStorage _ _ _ => eval unfold coldStorage in m
        | clearReturnData => eval unfold clearReturnData in m
        | setReturnData _ => eval unfold setReturnData in m
        | addRefund _ => eval unfold addRefund in m
        | lightFailure => eval unfold lightFailure in m
        | resolveDelegatedCallCodeAddress _ => eval unfold resolveDelegatedCallCodeAddress in m
        | Call_gas _ _ _ _ _ _ => eval unfold Call_gas in m
        | checkDest _ _ _ => eval unfold checkDest in m
        end in change (ro o m')
  end.
Ltac ro_solve := repeat (cbv beta iota; ro_step).

Section Handlers.
Context {HS : Type} {I : Intx} {H : EvmcHost HS} {V : Evmc} {IL : IntxLaws I} {VL : EvmcLaws V}.
Context {T : Type} (obs : HS -> T) {RO : ReadOnlyHost obs}.
Implicit Types (s : hstate HS) (c : Context_ HS).

Lemma ro_popTopics n : ro obs (popTopics n).
Proof. induction n; simpl; ro_solve. apply IHn. Qed.

Lemma ro_handler op m : chunk_handler op = Some m -> ro obs m.
Proof.
  intros Hm.
  destruct op; cbv [chunk_handler chunk_arith chunk_env chunk_memory] in Hm; try discriminate;
    match type of Hm with Some ?x = Some ?m => assert (m = x) as -> by congruence end;
    try match goal with |- ro _ (doExecute ?h) =>
      let h' := eval hnf in h in change (ro obs (doExecute h')); cbn [doExecute] end;
    try (solve [ro_solve]).
  all: unfold SignExtend_doExecute, Byte_doExecute, Sar_doExecute, Exp_doExecute,
    Keccak256_doExecute, Balance_doExecute, CallDataLoad_doExecute, CallDataCopy_doExecute,
    CodeCopy_doExecute, ExtCodeSize_doExecute, ExtCodeCopy_doExecute, ReturnDataCopy_doExecute,
    ExtCodeHash_doExecute, BlockHash_doExecute, BlobHash_doExecute, SLoad_doExecute,
    SStore_doExecute, TLoad_doExecute, TStore_doExecute, MStore_doExecute, MStore8_doExecute,
    MLoad_doExecute, MCopy_doExecute, Log_doExecute; solve [ro_solve].
Qed.

Lemma ro_Create op : ro obs (Create_doExecute op).
Proof. unfold Create_doExecute. destruct op; ro_solve. Qed.

Lemma guarded_value v : negb (true && negb (v =? 0) && true) = true -> v = 0.
Proof. by destruct (Z.eqb_spec v 0). Qed.

Lemma ro_Call op : ro obs (Call_doExecute op).
Proof.
  unfold Call_doExecute. destruct op; ro_solve.
  all: apply ro_hostDo; intros; apply obs_call, call_message_ro; auto using guarded_value.
  all: try discriminate.
Qed.
End Handlers.

(** * The interpreter *)

Section Loop.
Context {HS : Type} {I : Intx} {H : EvmcHost HS} {V : Evmc} {IL : IntxLaws I} {VL : EvmcLaws V}.
Context {T : Type} (obs : HS -> T) {RO : ReadOnlyHost obs}.
Implicit Types (s : hstate HS) (c : Context_ HS).

Abbreviation ro := (ro obs).
Abbreviation quiet := (quiet obs).

Definition loop_quiet (O : T) (o : loop_out HS) : Prop :=
  match o with
  | LContinue s => quiet O s
  | LBreak _ c | LReturn c => obs (hst c) = O
  | LThrow _ | LUndef | LFuel => True
  end.

Lemma quiet_frame O s f :
  (forall x, flags (Msg (f x)) = flags (Msg x)) -> quiet O s -> quiet O (on_fr f s).
Proof. intros Hf []. split; try done. unfold static_msg. cbn [fr on_fr]. by rewrite Hf. Qed.
Lemma quiet_status O s st : quiet O s -> quiet O (on_cx (set_Status st) s).
Proof. by intros []. Qed.

Lemma free_quiet s : below (cx s) = [] -> exists c, freeBackFrame s = (None, c) /\ hst c = hst (cx s).
Proof. intros Hb. unfold freeBackFrame. rewrite Hb. by eexists. Qed.

Lemma onError_quiet O s : quiet O s -> loop_quiet O (onError s).
Proof.
  intros [_ Hb Ho]. unfold onError, handleExecutionStatus. destruct (Status (cx s)); try done;
    unfold freeBackFrame; cbn [cx set_ReturnData set_Inst below]; rewrite Hb; done.
Qed.

Lemma stop_quiet O back s : quiet O s -> loop_quiet O (stopOp back s).
Proof.
  intros [_ Hb Ho]. unfold stopOp, freeBackFrame. cbn [cx on_cx set_ReturnData below]. by rewrite Hb.
Qed.

Lemma afterOp_quiet O m s : ro m -> quiet O s -> loop_quiet O (afterOp (m s)).
Proof.
  intros Hm Hs. specialize (Hm O s Hs). unfold afterOp. destruct (m s) as [[] s'|s'| |]; try done.
  all: case_match; [by apply quiet_frame|by apply onError_quiet].
Qed.

Lemma afterJump_quiet O m s : ro m -> quiet O s -> loop_quiet O (afterJump (m s)).
Proof.
  intros Hm Hs. specialize (Hm O s Hs). unfold afterJump.
  destruct (m s) as [[d|] s'|s'| |]; try done; [by apply quiet_frame|..];
    by apply (afterOp_quiet O exit s' (ro_exit obs)).
Qed.

Lemma afterTerm_quiet O back st m s :
  ro m -> (forall s', quiet O s' -> loop_quiet O (back s')) -> quiet O s ->
  loop_quiet O (afterTerm back st (doExecute_term m s)).
Proof.
  intros Hm Hback Hs. specialize (Hm O s Hs). unfold doExecute_term.
  destruct (m s) as [[] s'|s'| |]; try done.
  - unfold releaseFrame. destruct (free_quiet s' (q_below _ _ _ Hm)) as (c & -> & Hh).
    simpl. rewrite Hh. apply Hm.
  - apply Hback. by destruct s'.
Qed.

Lemma back_quiet O s : quiet O s -> loop_quiet O (backToSwitch s).
Proof. apply (afterOp_quiet O exit s (ro_exit obs)). Qed.
Lemma restart_quiet O s : quiet O s -> loop_quiet O (restartDispatch s).
Proof. intros Hs. unfold restartDispatch. case_match; [done|by apply onError_quiet]. Qed.

Lemma ro_charged cost {A} (m : HM HS A) : ro m -> ro (charged cost m).
Proof.
  intros Hm O s Hs. unfold charged.
  destruct (u64 (fgas (fr s)) <? u64 cost); [by apply quiet_status|]. apply Hm. by apply quiet_frame.
Qed.

Lemma ro_jump n jm : ro (jumpOp n jm).
Proof. unfold jumpOp. ro_solve. Qed.
Lemma ro_jumpi n jm : ro (jumpiOp n jm).
Proof. unfold jumpiOp. ro_solve. Qed.

Lemma ro_term st op m b pm : classify pm b = CTerm st op m -> ro m.
Proof.
  unfold classify. destruct (opcode_of_byte b); try discriminate;
    try (repeat case_match; discriminate); intros [= <- <- <-];
    unfold Return_body, Revert_body, SelfDestruct_body; ro_solve.
Qed.

Lemma ro_classify pm b m : classify pm b = COrd m -> ro m.
Proof.
  unfold classify. intros Hc. destruct (opcode_of_byte b) eqn:Eb; try discriminate;
    try match type of Hc with context [chunk_handler ?op] =>
      destruct (chunk_handler op) eqn:Eh; [|discriminate]; injection Hc as <-;
      by apply (ro_handler obs op) end;
    repeat case_match; try discriminate; injection Hc as <-;
    try apply ro_Create; try (apply ro_Call; assumption);
    unfold executePopOpcodeNoGas, executePush0OpcodeNoGas, executePushNOpcodeNoGas,
      executeDupOpcodeNoGas, executeSwapOpcodeNoGas; ro_solve.
Qed.

Lemma slow_quiet O (Code : list Z) MT jm pm names b s :
  quiet O s -> loop_quiet O (slow_step (length Code) MT jm pm names b s).
Proof.
  intros Hs. unfold slow_step. case_match; [by apply onError_quiet, quiet_status|].
  rewrite (switch_step_spec Code).
  destruct (classify pm b) as [m| | | |st op m|] eqn:Ec.
  - by apply afterOp_quiet; [apply ro_charged; eapply ro_classify|].
  - by apply afterJump_quiet; [apply ro_charged, ro_jump|].
  - by apply afterJump_quiet; [apply ro_charged, ro_jumpi|].
  - by apply stop_quiet.
  - apply afterTerm_quiet; [apply ro_charged; by eapply ro_term|apply back_quiet|done].
  - by apply onError_quiet, quiet_status.
Qed.

(** *** The portable chunk runner *)

Definition chunk_quiet (O : T) (k : chunk_out HS) : Prop :=
  match k with KNext s => quiet O s | KEnd o => loop_quiet O o end.

Lemma chunk_after_quiet O m s : ro m -> quiet O s -> chunk_quiet O (chunk_after (m s)).
Proof.
  intros Hm Hs. specialize (Hm O s Hs). unfold chunk_after.
  destruct (m s) as [[] s'|s'| |]; try done.
  all: case_match; [by apply quiet_frame|by apply onError_quiet].
Qed.

Lemma chunk_jump_quiet O m s : ro m -> quiet O s -> chunk_quiet O (chunk_jump (m s)).
Proof.
  intros Hm Hs. specialize (Hm O s Hs). unfold chunk_jump.
  destruct (m s) as [[d|] s'|s'| |]; try done; [by apply quiet_frame|..];
    by apply (chunk_after_quiet O exit s' (ro_exit obs)).
Qed.

Lemma chunk_step_quiet O Code jm pm names b s :
  quiet O s -> chunk_quiet O (chunk_step Code jm pm names b s).
Proof.
  intros Hs. unfold chunk_step. case_match; [by apply onError_quiet, quiet_status|].
  rewrite chunk_switch_spec.
  destruct (classify pm b) as [m| | | |st op m|] eqn:Ec.
  - apply chunk_after_quiet; [by eapply ro_classify|done].
  - apply chunk_jump_quiet; [apply ro_jump|done].
  - apply chunk_jump_quiet; [apply ro_jumpi|done].
  - by apply stop_quiet.
  - apply afterTerm_quiet; [by eapply ro_term|apply restart_quiet|done].
  - by apply onError_quiet, quiet_status.
Qed.

Lemma chunk_loop_quiet O Code jm pm names e fuel s :
  quiet O s -> loop_quiet O (chunk_loop Code jm pm fuel names e s).
Proof.
  revert s. induction fuel as [|fuel IH]; intros s Hs; simpl; (case_match; [done|]); [done|].
  case_match; [|done]. pose proof (chunk_step_quiet O Code jm pm names z s Hs) as Hk.
  destruct (chunk_step _ _ _ _ _ _); [by apply IH|done].
Qed.

(** *** The computed-goto runner *)

Definition goto_quiet (O : T) (k : cgoto_out HS) : Prop :=
  match k with
  | CNext l | CError _ l => quiet O (ls l)
  | CEnd o => loop_quiet O o
  end.

Lemma quiet_lset O i v l : quiet O (ls l) -> quiet O (lset i v l).
Proof. by intros []. Qed.
Lemma quiet_write_back O l : quiet O (ls l) -> quiet O (write_back l).
Proof. by intros []. Qed.

Lemma handler_call_quiet O m l : ro m -> quiet O (ls l) -> goto_quiet O (HANDLER_CALL m l).
Proof.
  intros Hm Hl. specialize (Hm O _ (quiet_write_back O l Hl)). unfold HANDLER_CALL.
  destruct (m (write_back l)) as [[] s'|s'| |]; try done; by case_match.
Qed.

Lemma inline_push_quiet O v n l : quiet O (ls l) -> goto_quiet O (inline_push v n l).
Proof. intros Hl. unfold inline_push. case_match; [by apply quiet_lset|done]. Qed.

Lemma checkDest_quiet O n jm d l : quiet O (ls l) -> goto_quiet O (inline_checkDest n jm d l).
Proof. intros Hl. unfold inline_checkDest. repeat case_match; try done. by apply quiet_write_back. Qed.

Lemma cgoto_target_quiet O Code rev jm op l :
  quiet O (ls l) -> goto_quiet O (cgoto_target Code rev jm op l).
Proof.
  intros Hl. pose proof (quiet_write_back O l Hl) as Hw.
  assert (forall m, cgoto_handler op = Some m -> ro m) as Hh.
  { intros m Hm. apply (ro_handler obs op). by destruct op. }
  destruct op; cbn [cgoto_target cgoto_binary cgoto_ternary cgoto_unary cgoto_handler]; try done;
    try (apply handler_call_quiet; [by apply Hh|done]);
    try (by apply stop_quiet);
    try (apply afterTerm_quiet; [|apply restart_quiet|done];
         unfold Return_body, Revert_body, SelfDestruct_body; ro_solve; fail);
    try (unfold inline_binary, inline_ternary, inline_unary, inline_pop, inline_push0;
         repeat case_match; try done; first [by apply quiet_lset|by apply inline_push_quiet]).
  - unfold inline_jump. repeat case_match; try done. by apply checkDest_quiet.
  - unfold inline_jumpi. repeat case_match; try done. by apply checkDest_quiet.
Qed.

Lemma cgoto_goto_quiet O Code rev jm pm names b l :
  quiet O (ls l) -> goto_quiet O (cgoto_goto Code rev jm pm names b l).
Proof.
  intros Hl. unfold cgoto_goto. destruct (cgoto_table names b).
  - by apply cgoto_target_quiet.
  - unfold inline_pushx. repeat case_match; try done. by apply inline_push_quiet.
  - unfold inline_dupx. repeat case_match; try done. by apply inline_push_quiet.
  - unfold inline_swapx. repeat case_match; try done. by apply quiet_frame.
  - apply handler_call_quiet; [|done]. unfold Log_doExecute. ro_solve.
  - apply handler_call_quiet; [|done]. by apply ro_Call.
  - apply handler_call_quiet; [|done]. apply ro_Create.
  - done.
Qed.

Lemma cgoto_loop_quiet O Code rev jm pm names e fuel l :
  quiet O (ls l) -> loop_quiet O (cgoto_loop Code rev jm pm fuel names e l).
Proof.
  revert l. induction fuel as [|fuel IH]; intros l Hl; simpl; [done|]. case_match; [|done].
  pose proof (cgoto_goto_quiet O Code rev jm pm names z l Hl) as Hk.
  destruct (cgoto_goto _ _ _ _ _ _ _) as [l'|st l'|o];
    [|by apply onError_quiet, quiet_write_back, quiet_status|done].
  case_match; [by apply quiet_write_back|by apply IH].
Qed.

(** *** The outer loop *)

Lemma iter_quiet O R E s : quiet O s -> loop_quiet O (interp_iter R E s).
Proof.
  intros Hs. unfold interp_iter. do 3 (case_match; [|done]). case_match.
  - destruct R; simpl; [apply chunk_loop_quiet|apply cgoto_loop_quiet]; by apply quiet_frame.
  - by apply slow_quiet.
Qed.

Lemma interp_loop_quiet O R E fuel s : quiet O s -> loop_quiet O (interp_loop fuel R E s).
Proof.
  revert s. induction fuel as [|fuel IH]; intros s Hs; simpl; (case_match; [apply Hs|]); [done|].
  pose proof (iter_quiet O R E s Hs) as Hi. destruct (interp_iter R E s); try done. by apply IH.
Qed.
End Loop.

(** * Theorem *)

Section Claims.
Context {HS : Type} {I : Intx} {H : EvmcHost HS} {V : Evmc} {IL : IntxLaws I} {VL : EvmcLaws V}.
Context {T : Type} (obs : HS -> T) {RO : ReadOnlyHost obs}.

(** C19.  Static calls are read-only: whatever the code, the gas and the
    cache, interpreting a frame whose message is static leaves the observable
    state of the host as it was.  No instruction stores, logs, creates,
    destroys or sends value, and the calls it makes are static themselves. *)
Theorem static_frame_read_only R fuel Cache f (c c' : Context_ HS) :
  static_msg (Msg f) -> below c = [] ->
  interpret R fuel Cache (Some f) c = IReturn c' -> obs (hst c') = obs (hst c).
Proof.
  intros Hst Hb. unfold interpret. case_match; [|done]. set (s := mkH _ _). intros Hr.
  assert (quiet obs (obs (hst c)) s) as Hs by done.
  pose proof (interp_loop_quiet obs _ R
    (mkEnv (ModCode (Inst (set_Status EVMC_SUCCESS c))) (Rev (Inst (set_Status EVMC_SUCCESS c)))
       m (names_table (Rev (Inst (set_Status EVMC_SUCCESS c)))) Cache) fuel s Hs) as Hq.
  destruct (interp_loop _ _ _ _) as [|cur c1|c1| | |]; try discriminate Hr;
    injection Hr as <-; [|done].
  unfold epilogue. destruct cur as [f'|]; [|done]. unfold freeBackFrame.
  cbn [cx set_ReturnData below]. destruct (below c1); exact Hq.
Qed.
End Claims.

(** * Example

    LOG0 in a static frame: everything the sample host has seen is its list
    of logs, which stays empty. *)

#[export] Instance null_host_read_only : ReadOnlyHost (HS := null_host) (fun h => h).
Proof. by split. Qed.

Definition log_code : list Z := [0x60; 0; 0x60; 0; 0xa0].
Definition log_cache : EVMBytecodeCache :=
  mkCache (replicate 5 0) (replicate 5 0) (replicate 5 0) (replicate 5 0).
Definition static_frame : EVMFrame := set_Msg (set_flags 1 (sample_msg 100)) (sample_frame 100).

Lemma static_frame_read_only_witness :
  exists c', interpret Portable 100 log_cache (Some static_frame) (sample_ctx log_code EVMC_CANCUN)
               = IReturn c' /\ hst c' = [].
Proof.
  destruct (interpret Portable 100 log_cache (Some static_frame) (sample_ctx log_code EVMC_CANCUN))
    as [c'| | |] eqn:E; try (vm_compute in E; discriminate).
  exists c'. split; [done|].
  refine (static_frame_read_only (fun h : null_host => h) Portable 100 log_cache static_frame
            (sample_ctx log_code EVMC_CANCUN) c' _ eq_refl E).
  unfold static_msg. vm_compute. discriminate.
Defined.
