(* ===== verification/CallSpecs.v ===== *)
(** Storage writes and calls: what SSTORE asks of the host and charges, and
    how much gas a call hands to its callee. *)

From S2P Require Import Prelude Intx Evmc GasStorageCost EvmInstance Frame HandlerUtil.
From S2P Require Import HandlersArith HandlersEnv HandlersCall WellFormed Concrete HandlerSafety View.
From S2P Require Import MemorySpecs.

#[local] Open Scope Z_scope.

Section Specs.
Context {HS : Type} {I : Intx} {H : EvmcHost HS} {V : Evmc} {IL : IntxLaws I}.
Implicit Types (s : hstate HS) (c : Context_ HS) (r : EVMFrame) (l m : list Z) (h : HS).

(** Whether the slot is cold, and the host after it was touched (EIP-2929). *)
Definition touch_storage (rev : evmc_revision) (a k : list Z) h : bool * HS :=
  if rev_ge rev EVMC_BERLIN then let '(x, h') := access_storage a k h in (is_cold x, h')
  else (false, h).

(** The charge and the refund of a write, and the host after it. *)
Definition sstore_request (rev : evmc_revision) (self : list Z) (k v : Z) h : Z * Z * HS :=
  let '(cold, h1) := touch_storage rev self (be_bytes 32 k) h in
  let '(st, h2) := set_storage self (be_bytes 32 k) (be_bytes 32 v) h1 in
  let e := SSTORE_COSTS rev st in
  ((if cold then COLD_SLOAD_COST else 0) + GasCost e, GasReFund e, h2).

Definition is_static (r : EVMFrame) : bool := negb (Z.land (flags (Msg r)) EVMC_STATIC =? 0).

Definition refunded (x : Z) c : Context_ HS := set_Inst (addGasRefund x (Inst c)) c.

Lemma sstore_cost_range rev st : 0 <= GasCost (SSTORE_COSTS rev st) <= 20000.
Proof. destruct rev, st; vm_compute; split; discriminate. Qed.

Lemma vp_hostDo {A} r l m g c s (f : HS -> A * HS) (Q : A -> hstate HS -> Prop) R :
  view r l m g c s ->
  (forall s', view r l m g (set_hst (f (hst c)).2 c) s' -> Q (f (hst c)).1 s') -> wp (hostDo f) Q R s.
Proof.
  intros [Hw Hr Ho Hm Hg Hc] HQ. unfold hostDo. apply wp_bind, wp_getCtx. rewrite Hc.
  destruct (f (hst c)) as [a h']. apply wp_bind, wp_modify, wp_ret, HQ.
  split; try done. cbn [cx on_cx]. by rewrite Hc.
Qed.

Lemma set_hst_same c : set_hst (hst c) c = c.
Proof. by destruct c. Qed.

Lemma vp_coldStorage r l m g c s rev a k (Q : bool -> hstate HS -> Prop) R :
  view r l m g c s ->
  (forall s', view r l m g (set_hst (touch_storage rev a k (hst c)).2 c) s' ->
     Q (touch_storage rev a k (hst c)).1 s') -> wp (coldStorage rev a k) Q R s.
Proof.
  intros Hv HQ. unfold coldStorage, touch_storage in *. destruct (rev_ge rev EVMC_BERLIN).
  - apply wp_bind. eapply vp_hostDo; [done|]. intros s' Hv'.
    destruct (access_storage a k (hst c)). by apply wp_ret, HQ.
  - apply wp_ret, HQ. cbn [snd]. by rewrite set_hst_same.
Qed.

Lemma vp_isStatic r l m g c s (Q : bool -> hstate HS -> Prop) R :
  view r l m g c s -> Q (is_static r) s -> wp isStaticMode Q R s.
Proof. intros [_ <- _ _ _ _] HQ. exact HQ. Qed.

Lemma vp_unless r l m g c s b st (Q : unit -> hstate HS -> Prop) (R : hstate HS -> Prop) :
  view r l m g c s -> (b = true -> Q tt s) ->
  (b = false -> forall s', cx s' = set_Status st c -> R s') -> wp (EVM_SET_EXCEPTION_UNLESS b st) Q R s.
Proof. intros Hv HQ HR. destruct b; [by apply HQ|]. eapply vp_fail; [done|]. by apply HR. Qed.

Lemma view_recipient r l m g c s :
  view r l m g c s -> recipient (Msg (fr s)) = recipient (Msg r).
Proof. by intros [_ <- _ _ _ _]. Qed.

(** The write itself, past the two guards. *)
Lemma vp_SStore r k v l m g c s :
  view r (k :: v :: l) m g c s -> is_static r = false ->
  rev_ge (Rev (Inst c)) EVMC_ISTANBUL && (g <=? SSTORE_REQUIRED_ISTANBUL) = false ->
  let '(cost, refund, h) := sstore_request (Rev (Inst c)) (recipient (Msg r)) k v (hst c) in
  computes SStore_doExecute EVMC_OUT_OF_GAS (set_hst h c) s (cost <= g)
    r l m (g - cost) (refunded refund (set_hst h c)).
Proof.
  intros Hv Hst Hg. destruct (sstore_request _ _ _ _ _) as [[cost refund] h] eqn:Er.
  apply computes_wp. unfold SStore_doExecute.
  apply wp_bind. eapply vp_isStatic; [done|]. rewrite Hst. apply wp_bind, wp_ret.
  apply wp_bind, wp_getCtx. rewrite (v_cx _ _ _ _ _ _ Hv).
  apply wp_bind, wp_getFrame. rewrite (v_gas _ _ _ _ _ _ Hv), Hg. apply wp_bind, wp_ret.
  vp_operands. apply wp_bind, wp_getFrame. rewrite (view_recipient _ _ _ _ _ _ ltac:(eassumption)).
  rewrite !be_store_spec by done.
  apply wp_bind. eapply vp_coldStorage; [eassumption|]. intros s3 Hv3.
  apply wp_bind. eapply vp_hostDo; [done|]. intros s4 Hv4. cbn [hst set_hst] in *.
  unfold sstore_request in Er. destruct (touch_storage _ _ _ _) as [cold h1]. cbn [fst snd] in *.
  destruct (set_storage _ _ _ h1) as [st h2]. cbn [fst snd] in *. injection Er as <- <- <-.
  pose proof (sstore_cost_range (Rev (Inst c)) st).
  assert (0 <= (if cold then COLD_SLOAD_COST else 0) <= 2100) by (by destruct cold).
  rewrite u64_small by lia.
  apply wp_bind. eapply vp_pay; [done|lia|..].
  - intros Hlt t Ht. split; [lia|done].
  - intros Hle s5 [Hw5 Hr5 Ho5 Hm5 Hg5 Hc5]. apply wp_modify. split; [done|]. split; try done.
    cbn [cx on_cx]. by rewrite Hc5.
Qed.

(** ** The gas of a call *)

Definition is_plain_call (k : evmc_call_kind) : bool :=
  match k with EVMC_CALL => true | _ => false end.

(** The surcharge of a call that may carry value. *)
Definition call_surcharge (rev : evmc_revision) (k : evmc_call_kind) (HasValueArgs HasValue : bool)
    (dest : list Z) h : Z :=
  if HasValueArgs then
    (if HasValue then 9000 else 0) +
    (if is_plain_call k && (HasValue || rev_lt rev EVMC_SPURIOUS_DRAGON)
        && negb (account_exists dest h) then 25000 else 0)
  else 0.

Definition call_stipend (HasValueArgs HasValue : bool) : Z :=
  if HasValueArgs && HasValue then 2300 else 0.

(** All but one 64th (EIP-150). *)
Definition all_but_64th (g : Z) : Z := g - g / 64.

Lemma all_but_64th_range g : 0 <= g -> 0 <= all_but_64th g <= g.
Proof. unfold all_but_64th. intros. div_lia. Qed.

Lemma surcharge_range rev k a v dest h :
  0 <= call_surcharge rev k a v dest h <= 34000 /\
  (a && v = true -> 9000 <= call_surcharge rev k a v dest h).
Proof. unfold call_surcharge. destruct a, v; repeat case_match; simpl in *; try discriminate; lia. Qed.

Lemma min_saturated ga cap : is_u256 ga -> 0 <= cap < 2 ^ 63 -> Z.min (uint256ToUint64 ga) cap = Z.min ga cap.
Proof.
  intros Hg Hc. rewrite uint256ToUint64_spec by done. unfold UINT64_MAX. case_match eqn:E; [done|].
  apply Z.ltb_ge in E. lia.
Qed.

(** The first statements of [Call_gas]. *)
Lemma vp_surcharge r l m g c s a v k dest (Q : unit -> hstate HS -> Prop) (R : hstate HS -> Prop) :
  let x := call_surcharge (Rev (Inst c)) k a v dest (hst c) in
  view r l m g c s ->
  (g < x -> forall s', cx s' = set_Status EVMC_OUT_OF_GAS c -> R s') ->
  (x <= g -> forall s', view r l m (g - x) c s' -> Q tt s') ->
  wp (if a then
        exists_ <- hostRead (account_exists dest) ;;
        orStatus (chargeGas
          (if match k with EVMC_CALL => true | _ => false end
              && (v || rev_lt (Rev (Inst c)) EVMC_SPURIOUS_DRAGON) && negb exists_
           then (if v then CALL_VALUE_COST else 0) + ACCOUNT_CREATION_COST
           else if v then CALL_VALUE_COST else 0)) EVMC_OUT_OF_GAS
      else ret tt) Q R s.
Proof.
  intros x Hv HR HQ. destruct (surcharge_range (Rev (Inst c)) k a v dest (hst c)) as [Hx _]. fold x in Hx.
  pose proof (view_bounds _ _ _ _ _ _ Hv) as (_ & Hg & _).
  destruct a; [|apply wp_ret, HQ; unfold x, call_surcharge; [lia|by rewrite Z.sub_0_r]].
  apply wp_bind, wp_getCtx. rewrite (v_cx _ _ _ _ _ _ Hv).
  match goal with |- wp (orStatus (chargeGas ?y) _) _ _ _ => replace y with x end.
  - eapply vp_pay; [done|lia|done|done].
  - unfold x, call_surcharge, CALL_VALUE_COST, ACCOUNT_CREATION_COST.
    destruct k, v, (rev_lt _ _), (account_exists _ _); reflexivity.
Qed.

Lemma vp_addStipend r l m g c s x :
  view r l m g c s -> 0 <= g + x < 2 ^ 63 ->
  view r l m (g + x) c (on_fr (fun f => set_fgas (i64 (fgas f + x)) f) s).
Proof.
  intros [Hw Hr Ho Hm Hg Hc] Hx. subst g. split; try done.
  - destruct Hw; split; try done. cbn [fr on_fr]. unfold fgas, set_fgas. cbn [Msg set_Msg gas set_gas].
    fold (fgas (fr s)). rewrite i64_small by lia. done.
  - cbn [fr on_fr]. unfold fgas, set_fgas. cbn [Msg set_Msg gas set_gas]. apply i64_small.
    unfold fgas in *. lia.
Qed.
End Specs.

Section CallGas.
Context {HS : Type} {I : Intx} {H : EvmcHost HS} {V : Evmc} {IL : IntxLaws I} {HL : HostLaws HS H}.

Lemma balance_value a (h : HS) : be_load (get_balance a h) = be_value (get_balance a h).
Proof. destruct (get_balance_bytes a h). apply be_load_spec; [done|lia]. Qed.

Lemma vp_Call_gas r l m g (c : Context_ HS) s a v k dest ga val :
  let x := call_surcharge (Rev (Inst c)) k a v dest (hst c) in
  let st := call_stipend a v in
  view r l m g c s -> rev_ge (Rev (Inst c)) EVMC_TANGERINE_WHISTLE = true -> is_u256 ga ->
  wp (Call_gas a v k dest ga val)
    (fun cg s' => x <= g /\ view r l m (g - x + st) c s' /\
       cg = Z.min ga (all_but_64th (g - x)) + st)
    (fun s' => (g < x /\ cx s' = set_Status EVMC_OUT_OF_GAS c) \/
       (a && v = true /\ be_value (get_balance (recipient (Msg r)) (hst c)) < val /\
        cx s' = set_Status EVMC_SUCCESS c)) s.
Proof.
  intros x st Hv Hrev Hga. destruct (surcharge_range (Rev (Inst c)) k a v dest (hst c)) as [Hx Hx9].
  pose proof (view_bounds _ _ _ _ _ _ Hv) as (_ & Hg & _). fold x in Hx, Hx9.
  unfold Call_gas. apply wp_bind, wp_getCtx. rewrite (v_cx _ _ _ _ _ _ Hv).
  apply wp_bind. eapply vp_surcharge; [done|by auto|]. intros Hle s1 Hv1. fold x in Hle, Hv1.
  apply wp_bind, wp_getFrame. rewrite (v_gas _ _ _ _ _ _ Hv1), Hrev, u64_small by lia.
  apply wp_bind, wp_ret. fold (all_but_64th (g - x)).
  pose proof (all_but_64th_range (g - x)) as Hall.
  rewrite min_saturated by (done || lia). unfold st, call_stipend.
  destruct (a && v) eqn:Eav.
  - specialize (Hx9 eq_refl). apply wp_bind, wp_bind, wp_modify.
    pose proof (vp_addStipend _ _ _ _ _ _ CALL_GAS_STIPEND Hv1 ltac:(unfold CALL_GAS_STIPEND; lia)) as Hv2.
    apply wp_bind, wp_getFrame. rewrite (view_recipient _ _ _ _ _ _ Hv2).
    apply wp_bind, wp_getCtx. rewrite (v_cx _ _ _ _ _ _ Hv2), balance_value.
    destruct (Z.ltb_spec (be_value (get_balance (recipient (Msg r)) (hst c))) val).
    + eapply vp_fail; [done|]. intros t Ht. right. done.
    + apply wp_ret, wp_ret. split_and!; [done|done|]. unfold CALL_GAS_STIPEND.
      apply u64_small. assert (0 <= ga) by apply Hga. lia.
  - apply wp_bind, wp_ret, wp_ret. rewrite !Z.add_0_r. done.
Qed.
End CallGas.

Section Claims.
Context {HS : Type} {I : Intx} {H : EvmcHost HS} {V : Evmc} {IL : IntxLaws I} {HL : HostLaws HS H}.

(** C20.  The SSTORE price table is the published one: for every revision and
    every combination of original, current and new value of a slot, it
    charges and refunds what net metering (EIP-1283, 2200, 2929, 3529) or,
    before it, the original rule prescribes. *)
Theorem sstore_prices rev original current new :
  let e := SSTORE_COSTS rev (storage_status original current new) in
  (GasCost e, GasReFund e) = sstore_spec rev original current new.
Proof. apply sstore_costs_by_revision. Qed.

(** C21.  SSTORE is refused in a static frame, and from Istanbul on with no
    more gas than the call stipend, in both cases before the host is asked
    anything; otherwise it writes the slot of the executing account, charges
    the price of the write, with the surcharge of a cold slot, and records
    the refund. *)
Theorem sstore_correct r k v l m g (c : Context_ HS) s :
  view r (k :: v :: l) m g c s ->
  (is_static r = true ->
   exists s', SStore_doExecute s = Exit s' /\ cx s' = set_Status EVMC_STATIC_MODE_VIOLATION c) /\
  (is_static r = false -> rev_ge (Rev (Inst c)) EVMC_ISTANBUL = true -> g <= 2300 ->
   exists s', SStore_doExecute s = Exit s' /\ cx s' = set_Status EVMC_OUT_OF_GAS c) /\
  (is_static r = false -> rev_ge (Rev (Inst c)) EVMC_ISTANBUL = false \/ 2300 < g ->
   let '(cost, refund, h) := sstore_request (Rev (Inst c)) (recipient (Msg r)) k v (hst c) in
   computes SStore_doExecute EVMC_OUT_OF_GAS (set_hst h c) s (cost <= g)
     r l m (g - cost) (refunded refund (set_hst h c))).
Proof.
  intros Hv. assert (forall M : HM HS unit, forall st,
    wp M (fun _ _ => False) (fun s' => cx s' = set_Status st c) s ->
    exists s', M s = Exit s' /\ cx s' = set_Status st c) as Hexit.
  { intros M st. unfold wp. destruct (M s); try done. by eexists. }
  split_and!.
  - intros Hst. apply Hexit. unfold SStore_doExecute. apply wp_bind.
    eapply vp_isStatic; [done|]. rewrite Hst. apply wp_bind. by eapply vp_unless.
  - intros Hst Hrev Hg. apply Hexit. unfold SStore_doExecute. apply wp_bind.
    eapply vp_isStatic; [done|]. rewrite Hst. apply wp_bind, wp_ret, wp_bind, wp_getCtx.
    rewrite (v_cx _ _ _ _ _ _ Hv). apply wp_bind, wp_getFrame.
    rewrite (v_gas _ _ _ _ _ _ Hv), Hrev, (proj2 (Z.leb_le _ _)) by done.
    apply wp_bind. by eapply vp_unless.
  - intros Hst Hg. apply vp_SStore; [done..|].
    destruct Hg as [->|Hg]; [done|]. rewrite (proj2 (Z.leb_gt _ _)) by done. apply andb_false_r.
Qed.

(** The gas of a call (EIP-150): after the surcharges for value and for
    a new account, the callee gets what was asked for, at most all but one
    64th of the rest, and the stipend of a value transfer on top, which the
    caller is credited; so a 64th of the rest stays with the caller.  A
    surcharge that cannot be paid stops the frame, a balance that is too low
    makes the call fail lightly. *)
Theorem call_gas_rule r l m g (c : Context_ HS) s a v k dest ga val :
  let x := call_surcharge (Rev (Inst c)) k a v dest (hst c) in
  let st := call_stipend a v in
  view r l m g c s -> rev_ge (Rev (Inst c)) EVMC_TANGERINE_WHISTLE = true -> is_u256 ga ->
  wp (Call_gas a v k dest ga val)
    (fun cg s' => x <= g /\ view r l m (g - x + st) c s' /\
       cg = Z.min ga (all_but_64th (g - x)) + st /\ (g - x) / 64 <= fgas (fr s') - cg)
    (fun s' => (g < x /\ cx s' = set_Status EVMC_OUT_OF_GAS c) \/
       (a && v = true /\ be_value (get_balance (recipient (Msg r)) (hst c)) < val /\
        cx s' = set_Status EVMC_SUCCESS c)) s.
Proof.
  intros x st Hv Hrev Hga. eapply wp_mono; [| |by apply vp_Call_gas]; [|done].
  intros cg s' (Hle & Hv' & ->). split_and!; try done.
  rewrite (v_gas _ _ _ _ _ _ Hv'). fold x st. unfold all_but_64th. lia.
Qed.
End Claims.

(** * Examples *)

(** A write the sample host calls an assignment: the warm price. *)
Lemma sstore_correct_witness :
  exists s', call SStore_doExecute (sample_state [5; 7] [] 50000) = Ret tt s' /\
    view sample_rest [] [] 49900 (refunded 0 (set_hst [] sample_context)) s'.
Proof.
  refine (proj1 (proj2 (proj2 (sstore_correct sample_rest 5 7 [] [] 50000 sample_context
            (sample_state [5; 7] [] 50000) _)) eq_refl _) _).
  - apply sample_view; sample_side.
  - right. lia.
  - vm_compute. discriminate.
Defined.

(** Of 6400 units a call can hand on 6300. *)
Lemma call_gas_rule_witness :
  exists s', Call_gas false false EVMC_CALL zero20 10000 0 (sample_state [] [] 6400) = Ret 6300 s' /\
    100 <= fgas (fr s') - 6300.
Proof.
  assert (view sample_rest [] [] 6400 sample_context (sample_state [] [] 6400)) as Hv
    by (apply sample_view; sample_side).
  pose proof (call_gas_rule sample_rest [] [] 6400 sample_context (sample_state [] [] 6400)
                false false EVMC_CALL zero20 10000 0 Hv eq_refl) as Hc.
  unfold wp in Hc. destruct (Call_gas _ _ _ _ _ _ _) as [cg s'|s'| |].
  - destruct Hc as (_ & _ & -> & Hk); [unfold in_u; lia|]. exists s'. split; [done|exact Hk].
  - destruct Hc as [[Hlt _]|[Hf _]]; [unfold in_u; lia|vm_compute in Hlt; discriminate|discriminate].
  - destruct Hc. unfold in_u; lia.
  - destruct Hc. unfold in_u; lia.
Defined.
