(* ===== verification/InstanceSpecs.v ===== *)
(** The instance's own memory, messages and frames.

    Code outside the interpreter works on the linear memory of
    [EVMInstance]; the theorems show that it behaves like the memory of an
    interpreter frame, that nested messages give the caller its memory back,
    and that interpreter frames are fresh although their objects are reused.
    The last part is about handing an instance's operand stack over to the
    interpreter. *)

From S2P Require Import Prelude Intx Evmc GasStorageCost EvmInstance Frame HandlerUtil.
From S2P Require Import HandlersArith HandlersEnv HandlersCall BytecodeCache Interpreter.
From S2P Require Import WellFormed Concrete View MemorySpecs.

#[local] Open Scope Z_scope.

(** The buffer of an instance, empty before it is allocated. *)
Definition buffer (i : EVMInstance) : list Z := default [] (MemoryBuf i).

Record inst_ok (i : EVMInstance) : Prop := {
  io_words : MemorySize i mod 32 = 0;
  io_size : 0 <= MemorySize i <= MAX_REQUIRED_MEMORY_SIZE;
  io_buffer : MemorySize i <= Z.of_nat (length (buffer i));
  io_gas : 0 <= Gas i < 2 ^ 63;
  io_message : is_Some (CurrentMessage i);
}.

Lemma visible_buffer i : Instance_.visible i = take (Z.to_nat (MemorySize i)) (buffer i).
Proof. done. Qed.

Lemma buffer_set b n x i : buffer (set_InstMemory b n (Some x) i) = x.
Proof. done. Qed.

Lemma length_visible i : inst_ok i -> Z.of_nat (length (Instance_.visible i)) = MemorySize i.
Proof. intros []. rewrite visible_buffer, length_take. lia. Qed.

(** *** Growth *)

Lemma zero_range_take a b buf :
  0 <= a <= b -> a <= Z.of_nat (length buf) ->
  take (Z.to_nat b) (Instance_.zero_range a b buf)
    = take (Z.to_nat a) buf ++ replicate (Z.to_nat (b - a)) 0.
Proof.
  intros Ha Hb. unfold Instance_.zero_range. rewrite app_assoc.
  assert (length (take (Z.to_nat a) buf ++ replicate (Z.to_nat (b - a)) 0) = Z.to_nat b) as E
    by (rewrite length_app, length_take, length_replicate; lia).
  by rewrite take_app_le, take_ge by lia.
Qed.

(** Growing keeps what can be seen and adds zeros, whatever the buffer holds
    behind it. *)
Lemma grow_visible n i :
  inst_ok i -> 0 <= n <= MAX_REQUIRED_MEMORY_SIZE ->
  Instance_.visible (Instance_.grow (ceil32 n) i) = extended (Instance_.visible i) n /\
  inst_ok (Instance_.grow (ceil32 n) i).
Proof.
  intros Hi Hn. pose proof (length_visible i Hi) as Hl. destruct (Hi) as [Hw Hs Hb Hg Hm].
  pose proof (ceil32_max n ltac:(lia)). pose proof (ceil32_mod n). pose proof (ceil32_le n).
  unfold extended, Instance_.grow. destruct (Z.ltb_spec (MemorySize i) (ceil32 n)) as [Hlt|Hge].
  - fold (buffer i). change (match MemoryBuf i with Some b => b | None => [] end) with (buffer i).
    assert (length (Instance_.zero_range (MemorySize i) (ceil32 n) (buffer i)) >= Z.to_nat (ceil32 n))%nat.
    { unfold Instance_.zero_range. rewrite !length_app, length_take, length_replicate. lia. }
    split.
    + rewrite visible_buffer, buffer_set. cbn [MemorySize set_InstMemory].
      rewrite zero_range_take by lia. rewrite visible_buffer. do 2 f_equal. rewrite length_take. lia.
    + split; rewrite ?buffer_set; cbn [MemorySize set_InstMemory]; done || lia.
  - split; [|done]. replace (Z.to_nat (ceil32 n) - length (Instance_.visible i))%nat with 0%nat by lia.
    by rewrite app_nil_r.
Qed.

Lemma grow_gas n i : Gas (Instance_.grow n i) = Gas i.
Proof. unfold Instance_.grow. by case_match. Qed.

(** The two copies of the fee computation agree. *)
Lemma instance_fee a b :
  Instance_.calculateMemoryExpansionCost a b = calculateMemoryExpansionCost a b.
Proof. done. Qed.

(** *** Charging *)

Lemma instance_charge k i mg :
  inst_ok i -> 0 <= k < 2 ^ 64 ->
  (Gas i < k -> exists t, Instance_.chargeGas k (mkIS i mg) = Throw GasLimitExceeded t) /\
  (k <= Gas i -> exists mg', Instance_.chargeGas k (mkIS i mg) = Ret tt (mkIS (set_Gas (Gas i - k) i) mg')).
Proof.
  intros [_ _ _ Hg [msg Hm]] Hk. unfold Instance_.chargeGas, bind, gets. cbn [inst]. rewrite Hm.
  cbv beta iota. cbn [inst]. destruct (Z.ltb_spec (Gas i) k); split; intros; try lia.
  - eexists. reflexivity.
  - unfold modify, setGas. rewrite u64_small by lia. eexists. reflexivity.
Qed.

Lemma set_Gas_ok i k : inst_ok i -> 0 <= k < 2 ^ 63 -> inst_ok (set_Gas k i).
Proof. by intros [] ?. Qed.

Lemma instance_chargeAll i mg :
  inst_ok i -> exists t, Instance_.chargeAll (mkIS i mg) = Throw GasLimitExceeded t.
Proof.
  intros Hi. pose proof (io_gas i Hi). unfold Instance_.chargeAll, bind, gets. cbn [inst].
  rewrite u64_small by lia. apply (instance_charge (Gas i + 1) i mg Hi); lia.
Qed.

(** *** The checked expansion, against the interpreter's *)

Section Refine.
Context {HS : Type}.

Lemma expand_refines r l g (c : Context_ HS) s i mg n :
  view r l (Instance_.visible i) g c s -> inst_ok i -> g = Gas i -> 0 <= n <= MAX_REQUIRED_MEMORY_SIZE ->
  match Instance_.expandMemory n (mkIS i mg) with
  | Ret _ t => inst_ok (inst t) /\ exists s', expandMemoryAndChargeGas n s = Ret true s' /\
      view r l (Instance_.visible (inst t)) (Gas (inst t)) c s'
  | Throw e _ => e = GasLimitExceeded /\ expandMemoryAndChargeGas n s = Ret false s
  | _ => False
  end.
Proof.
  intros Hv Hi -> Hn. pose proof (length_visible i Hi) as Hl. destruct (Hi) as [Hw Hs _ Hg _].
  set (fee := expansion_fee (MemorySize i) n).
  assert (0 <= fee) as Hf by (apply expansion_fee_nonneg; lia).
  assert (Instance_.calculateMemoryExpansionCost (MemorySize i) (ceil32 n) = fee) as Ef
    by (rewrite instance_fee; apply memory_cost_exact; done || lia).
  assert (fee < 2 ^ 64) as Hf64
    by (rewrite <- Ef, instance_fee; apply calculateMemoryExpansionCost_range).
  destruct (instance_charge fee i mg Hi ltac:(lia)) as [Hlow Hok].
  unfold Instance_.expandMemory. unfold bind at 1, gets. cbn [inst].
  rewrite u64_small by (unfold MAX_REQUIRED_MEMORY_SIZE in *; lia). fold (ceil32 n). rewrite Ef.
  assert (wp (expandMemoryAndChargeGas n)
            (fun b s' => if b : bool then fee <= Gas i /\
                view r l (extended (Instance_.visible i) n) (Gas i - fee) c s'
              else Gas i < fee /\ s' = s) (fun _ => False) s) as Hwp.
  { eapply vp_expand; [done|lia|..]; rewrite Hl; fold fee.
    - intros HN. split; [|done]. destruct (Z.lt_ge_cases (Gas i) fee); [done|]. exfalso. apply HN. lia.
    - by intros [_ ?]. }
  unfold wp in Hwp. unfold bind.
  destruct (Z.lt_ge_cases (Gas i) fee) as [Hlt|Hge].
  - destruct (Hlow Hlt) as [t ->]. split; [done|].
    destruct (expandMemoryAndChargeGas n s) as [[] s'| | |]; try done; [lia|]. by destruct Hwp as [_ ->].
  - destruct (Hok Hge) as [mg' ->]. unfold modify. cbn [inst].
    destruct (grow_visible n (set_Gas (Gas i - fee) i)) as [Ev Hi']; [apply set_Gas_ok; done || lia|done|].
    split; [done|].
    destruct (expandMemoryAndChargeGas n s) as [[] s'| | |]; try done; [|lia].
    exists s'. split; [done|]. rewrite Ev, grow_gas. by destruct Hwp as [_ ?].
Qed.
End Refine.

(** *** Frames *)

Section Frames.
Context {HS : Type}.

Lemma alloc_frame ext m cur (c : Context_ HS) :
  exists st, fr (allocTopFrame ext m cur c) =
    mkFrame st [] [] m false tx_context_zero (GasRefund (Inst c)) 0 0 0 /\
    (Forall frame_object (spare c) -> length st = MAXSTACK /\ Forall is_u256 st).
Proof.
  exists (match spare c with [] => replicate MAXSTACK 0 | f :: _ => Stack f end). split.
  - unfold allocTopFrame, pushMessage. by destruct (spare c), (MessageStack (Inst c)).
  - intros Hs. destruct (spare c) as [|f rest]; [|by apply Forall_inv in Hs].
    split; [by rewrite length_replicate|]. by apply Forall_replicate.
Qed.
End Frames.

(** *** The operand stack of an instance *)

Lemma le_bytes_lookup n v k :
  (k < n)%nat -> le_bytes n v !! k = Some ((v / 2 ^ (8 * Z.of_nat k)) mod 256).
Proof.
  revert v k. induction n as [|n IH]; intros v k Hk; [lia|]. destruct k as [|k]; cbn [le_bytes lookup list_lookup].
  - by rewrite Z.pow_0_r, Z.div_1_r.
  - rewrite IH by lia. do 2 f_equal. rewrite Z.div_div by lia. f_equal.
    change 256 with (2 ^ 8). rewrite <- Z.pow_add_r by lia. f_equal. lia.
Qed.

Lemma word_range v k : 0 <= word v k < 2 ^ 64.
Proof. unfold word. apply Z.mod_pos_bound. lia. Qed.

Lemma word_low_byte v k : (v / 2 ^ (64 * Z.of_nat k)) mod 256 = word v k mod 256.
Proof.
  unfold word. replace (2 ^ 64) with (2 ^ 56 * 256) by reflexivity.
  rewrite (Z.mul_comm (2 ^ 56)), Z.rem_mul_r by lia.
  by rewrite (Z.mul_comm 256), Z_mod_plus_full, Z.mod_mod.
Qed.

(** What is read for the first element of a stack that holds [v]. *)
Lemma restore_element_word v :
  restore_element (le_bytes 32 v) 0
    = of_words (word v 0 mod 256) (word v 1 mod 256) (word v 2 mod 256) (word v 3 mod 256).
Proof.
  unfold restore_element. cbn [Nat.mul Nat.add]. rewrite !le_bytes_lookup by lia.
  cbn [default from_option]. unfold id.
  rewrite <- !word_low_byte. done.
Qed.

Lemma words_value v : is_u256 v -> v = of_words (word v 0) (word v 1) (word v 2) (word v 3).
Proof.
  intros Hv. unfold in_u in Hv. unfold of_words, word.
  change (64 * Z.of_nat 0) with 0. change (64 * Z.of_nat 1) with 64.
  change (64 * Z.of_nat 2) with 128. change (64 * Z.of_nat 3) with 192.
  rewrite Z.pow_0_r, Z.div_1_r.
  pose proof (Z.div_mod v (2 ^ 64) ltac:(lia)) as E0.
  pose proof (Z.div_mod (v / 2 ^ 64) (2 ^ 64) ltac:(lia)) as E1.
  pose proof (Z.div_mod (v / 2 ^ 128) (2 ^ 64) ltac:(lia)) as E2.
  rewrite Z.div_div in E1, E2 by lia. change (2 ^ 64 * 2 ^ 64) with (2 ^ 128) in E1.
  change (2 ^ 128 * 2 ^ 64) with (2 ^ 192) in E2.
  assert (0 <= v / 2 ^ 192 < 2 ^ 64) as H3
    by (split; [apply Z.div_pos; lia|apply Z.div_lt_upper_bound; lia]).
  rewrite (Z.mod_small (v / 2 ^ 192)) by lia. lia.
Qed.

Lemma of_words_inj a0 a1 a2 a3 b0 b1 b2 b3 :
  0 <= a0 < 2 ^ 64 -> 0 <= a1 < 2 ^ 64 -> 0 <= a2 < 2 ^ 64 ->
  0 <= b0 < 2 ^ 64 -> 0 <= b1 < 2 ^ 64 -> 0 <= b2 < 2 ^ 64 ->
  of_words a0 a1 a2 a3 = of_words b0 b1 b2 b3 -> a0 = b0 /\ a1 = b1 /\ a2 = b2 /\ a3 = b3.
Proof. unfold of_words. lia. Qed.

(** * Theorems *)

Section Claims.
Context {HS : Type}.

(** C23.  The checked memory expansion of an instance refines the one of the
    interpreter: on a frame with the same memory and gas, both succeed with
    the same memory (old bytes kept, new ones zero, whatever was left in the
    instance's reused buffer) and the same gas, or the instance throws where
    the frame reports out of gas. *)
Theorem instance_memory_refines r l (c : Context_ HS) s i mg off size :
  view r l (Instance_.visible i) (Gas i) c s -> inst_ok i -> is_u64 off -> is_u64 size ->
  match Instance_.expandMemoryChecked off size (mkIS i mg) with
  | Ret b t => b = true /\ inst_ok (inst t) /\
      exists s', checkMemoryExpandAndChargeGas off size s = Ret true s' /\
        view r l (Instance_.visible (inst t)) (Gas (inst t)) c s'
  | Throw e _ => e = GasLimitExceeded /\ checkMemoryExpandAndChargeGas off size s = Ret false s
  | _ => False
  end.
Proof.
  intros Hv Hi Ho Hs. unfold Instance_.expandMemoryChecked, checkMemoryExpandAndChargeGas.
  destruct (Z.eqb_spec size 0) as [->|Hn]; [split_and!; [done..|]; by exists s|].
  destruct (instance_chargeAll i mg Hi) as [t Hall].
  assert ((Instance_.chargeAll ;;; ret false) (mkIS i mg) = Throw GasLimitExceeded t) as Hthrow
    by (unfold bind; by rewrite Hall).
  rewrite (proj2 (Z.ltb_ge UINT64_MAX size)) by (unfold UINT64_MAX, in_u in *; lia).
  unfold checkMemoryExpandAndChargeGas64, Instance_.calcRequiredMemorySize.
  rewrite (proj2 (Z.ltb_ge UINT64_MAX off)) by (unfold UINT64_MAX, in_u in *; lia).
  rewrite !low64_small by done.
  destruct (Z.ltb_spec (UINT64_MAX - size) off); [by rewrite Hthrow|].
  destruct (Z.ltb_spec MAX_REQUIRED_MEMORY_SIZE (off + size)) as [Hbig|Hfit].
  - rewrite Hthrow. split; [done|]. unfold expandMemoryAndChargeGas.
    by rewrite (proj2 (Z.ltb_lt _ _)).
  - assert (0 <= off + size) by (unfold in_u in *; lia).
    pose proof (expand_refines r l _ c s i mg (off + size) Hv Hi eq_refl ltac:(lia)) as Hr.
    unfold bind. destruct (Instance_.expandMemory (off + size) (mkIS i mg)) as [[] t'| | |]; done.
Qed.

(** A nested message leaves the caller's messages and memory alone: the
    callee starts with an empty memory, and however it grows, [popMessage]
    gives the caller its current message, its memory and its gas (that of
    the message) back. *)
Theorem nested_message_restores deref deref' m i i2 :
  MessageStack i <> [] -> head (MessageStack i) = Some (CurrentMessage i) ->
  let i1 := pushMessage deref m i in
  MessageStack i2 = MessageStack i1 -> MemoryStack i2 = MemoryStack i1 ->
  GasRefundStack i2 = GasRefundStack i1 ->
  let i3 := popMessage deref' i2 in
  Instance_.visible i1 = [] /\ MemorySize i1 = 0 /\
  MessageStack i3 = MessageStack i /\ CurrentMessage i3 = CurrentMessage i /\
  GasRefundStack i3 = GasRefundStack i /\ MemoryStack i3 = MemoryStack i /\
  MemorySize i3 = MemorySize i /\ MemoryBuf i3 = MemoryBuf i /\
  Instance_.visible i3 = Instance_.visible i /\
  Gas i3 = match CurrentMessage i with Some x => u64 (deref' x) | None => 0 end.
Proof.
  intros Hne Hhd i1 Hms Hmem Hrf i3. destruct (MessageStack i) as [|m0 ms] eqn:Em; [done|].
  simpl in Hhd. injection Hhd as Hhd.
  assert (MessageStack i1 = m :: m0 :: ms) as E1 by (unfold i1, pushMessage; by rewrite Em).
  assert (MemoryStack i1 = (MemoryBuf i, MemorySize i) :: MemoryStack i) as E2
    by (unfold i1, pushMessage; by rewrite Em).
  assert (GasRefundStack i1 = u64 (GasRefund i) :: GasRefundStack i) as E3
    by (unfold i1, pushMessage; by rewrite Em).
  rewrite E1 in Hms. rewrite E2 in Hmem. rewrite E3 in Hrf.
  split_and!; try (unfold i1, pushMessage; by rewrite Em);
    unfold i3, popMessage, Instance_.visible; rewrite Hms, Hmem, Hrf; cbn; by rewrite ?Hhd.
Qed.

(** A new frame is fresh although its object may be a retired one: no
    operands, no memory, the program counter at the start, the caller's
    message, the current refund as snapshot and the message's gas in the
    instance; it satisfies the interpreter's frame invariant.  Giving it back
    makes the frame below current again. *)
Theorem alloc_free_frame ext m cur (c : Context_ HS) :
  msg_ok m -> Forall frame_object (spare c) -> (cur = None -> below c = []) ->
  let s := allocTopFrame ext m cur c in
  wf_frame (fr s) /\ operands (fr s) = [] /\ Memory (fr s) = [] /\ Pc (fr s) = 0%nat /\
  Msg (fr s) = m /\ GasRefundSnapshot (fr s) = GasRefund (Inst c) /\
  Gas (Inst (cx s)) = gas m /\
  (freeBackFrame s).1 = cur /\ below (freeBackFrame s).2 = below c.
Proof.
  intros [Hg Hi Hz Hr Hs Hv] Hsp Hcur s. destruct (alloc_frame ext m cur c) as (st & Ef & Hst).
  destruct (Hst Hsp) as [Hlen Hst']. fold s in Ef. rewrite Ef.
  assert (below (cx s) = option_list cur ++ below c) as Eb
    by (unfold s, allocTopFrame; by destruct (spare c)).
  split_and!; try done.
  - split; try done; simpl; try lia. apply tx_zero_ok.
  - unfold s, allocTopFrame. destruct (spare c) as [|f rest];
      (set (fs := rev _ ++ [_]); cbn [cx set_Inst Inst]; unfold pushMessage;
       destruct (MessageStack (Inst c)); cbn [Gas frame_deref];
       unfold fs; rewrite <- (length_rev (option_list cur ++ below c)), list_lookup_middle by done;
       cbn [fgas Msg set_Msg]; unfold fgas; cbn [Msg set_Msg]; apply u64_small; lia).
  - unfold freeBackFrame. rewrite Eb. destruct cur; [done|]. by rewrite Hcur.
  - unfold freeBackFrame. rewrite Eb. destruct cur; [done|]. by rewrite Hcur.
Qed.

(** Handing an operand stack to the interpreter loses data: of a stack
    element, [restoreStateFromInstance] reads one byte per 64-bit word, so an
    element survives exactly when each of its four words is below 256. *)
Theorem restore_loses_high_bytes v :
  is_u256 v ->
  restore_element (le_bytes 32 v) 0 = v <->
  word v 0 < 256 /\ word v 1 < 256 /\ word v 2 < 256 /\ word v 3 < 256.
Proof.
  intros Hv. rewrite restore_element_word. split.
  - intros E. rewrite (words_value v) in E at 5 by done.
    assert (forall k, 0 <= word v k mod 256 < 2 ^ 64) as Hm
      by (intros k; pose proof (Z.mod_pos_bound (word v k) 256); lia).
    apply of_words_inj in E; auto using word_range.
    assert (forall k, word v k mod 256 < 256) as Hlt by (intros k; apply Z.mod_pos_bound; lia).
    destruct E as (E0 & E1 & E2 & E3). rewrite <- E0, <- E1, <- E2, <- E3. auto.
  - intros (H0 & H1 & H2 & H3). rewrite !Z.mod_small; [symmetry; by apply words_value|..];
      split; try done; apply word_range.
Qed.
End Claims.

(** * Examples *)

(** An instance with an empty memory over a buffer that an earlier call has
    filled with nines. *)
Definition reused_instance : EVMInstance :=
  mkInst countdown 100 0 EVMC_CANCUN (Some (MExt 0)) [Some (MExt 0)] [0] true 0
    (Some (replicate 40 9)) [] [] [] 0.

Lemma reused_instance_ok : inst_ok reused_instance.
Proof. split; try done; cbn; lia. Qed.

Lemma instance_memory_refines_witness :
  exists t, Instance_.expandMemoryChecked 1 5 (mkIS reused_instance (fun _ => 100)) = Ret true t /\
    exists s', checkMemoryExpandAndChargeGas 1 5 (sample_state [] [] 100) = Ret true s' /\
      view sample_rest [] (replicate 32 0) 97 sample_context s'.
Proof.
  assert (view sample_rest [] (Instance_.visible reused_instance) (Gas reused_instance)
            sample_context (sample_state [] [] 100)) as Hv by (apply sample_view; sample_side).
  pose proof (instance_memory_refines sample_rest [] sample_context (sample_state [] [] 100)
    reused_instance (fun _ => 100) 1 5 Hv reused_instance_ok ltac:(unfold in_u; lia)
    ltac:(unfold in_u; lia)) as Hr.
  destruct (Instance_.expandMemoryChecked _ _ _) as [b t| |e t|] eqn:E;
    try (vm_compute in E; discriminate).
  destruct Hr as (-> & _ & s' & Es & Hs). exists t. split; [done|]. exists s'. split; [done|].
  assert (Instance_.visible (inst t) = replicate 32 0 /\ Gas (inst t) = 97) as [Ev Eg].
  { vm_compute in E. injection E as <-. done. }
  by rewrite Ev, Eg in Hs.
Defined.

(** A callee that grows its memory and returns. *)
Lemma nested_message_restores_witness :
  let i1 := pushMessage (fun _ => 50) (Some (MExt 1)) reused_instance in
  let i3 := popMessage (fun _ => 60) (Instance_.grow 64 i1) in
  Instance_.visible i1 = [] /\ MemoryBuf i3 = Some (replicate 40 9) /\ Gas i3 = 60.
Proof.
  pose proof (nested_message_restores (fun _ => 50) (fun _ => 60) (Some (MExt 1)) reused_instance
    (Instance_.grow 64 (pushMessage (fun _ => 50) (Some (MExt 1)) reused_instance))
    ltac:(done) eq_refl eq_refl eq_refl eq_refl) as (E1 & _ & _ & _ & _ & _ & _ & E2 & _ & E3).
  split_and!; [exact E1|exact E2|exact E3].
Defined.

(** A retired frame with a word on its stack and a byte in memory. *)
Definition retired_frame : EVMFrame := set_Memory [1] (set_Sp 1 (sample_frame 5)).

Lemma alloc_free_frame_witness :
  let s := allocTopFrame (fun _ => 0) (sample_msg 70) None
             (set_frames [] [retired_frame] sample_context) in
  wf_frame (fr s) /\ operands (fr s) = [] /\ Memory (fr s) = [] /\ Gas (Inst (cx s)) = 70.
Proof.
  pose proof (alloc_free_frame (fun _ => 0) (sample_msg 70) None
                (set_frames [] [retired_frame] sample_context)) as Ha.
  destruct Ha as (H1 & H2 & H3 & _ & _ & _ & H4 & _).
  - split; try done; try apply zeros_bytes; try (cbn; lia).
  - apply Forall_singleton. split; [done|]. by apply Forall_replicate.
  - done.
  - split_and!; done.
Defined.

Lemma restore_loses_high_bytes_witness :
  restore_element (le_bytes 32 255) 0 = 255 /\ restore_element (le_bytes 32 256) 0 <> 256.
Proof.
  split.
  - apply (restore_loses_high_bytes 255); [unfold in_u; lia|]. vm_compute. done.
  - intros E. apply (restore_loses_high_bytes 256) in E; [|unfold in_u; lia].
    destruct E as [E _]. vm_compute in E. discriminate.
Defined.
