(* ===== verification/EvmImported.v ===== *)
(** The runtime of compiled code: [src/src/compiler/evm_frontend/evm_imported.cpp]
    and the part of [evm_mir_compiler.cpp] that calls it.

    Compiled EVM code runs on an [EVMInstance] and calls a table of helper
    functions for everything that needs the host, memory growth or a message.
    The model keeps the instance, the messages its pointers lead to, its
    execution cache, the hash cache of the thread and the host in one state
    [RtState]; a helper is a body over it.  A trap
    ([triggerInstanceExceptionOnJIT]) leaves the helper and the compiled code:
    it is [Throw], with the instance as [setExecutionError] leaves it.  A
    helper that returns a pointer to a value is given that value as result. *)

From stdpp Require Import gmap.
From S2P Require Import Prelude Intx Evmc GasStorageCost EvmInstance Frame HandlerUtil HandlersCall.

(** [intx::uint512], used by one helper. *)
Class Intx512 : Type := {
  umul512 : Z -> Z -> Z;
  umod512 : Z -> Z -> Z;
}.

Class Intx512Laws (I : Intx512) : Prop := {
  umul512_spec a b : in_u 512 a -> in_u 512 b -> umul512 a b = (a * b) mod 2 ^ 512;
  umod512_spec a m : in_u 512 a -> in_u 512 m -> m <> 0 -> umod512 a m = a mod m;
}.

#[export] Instance intx512_ref : Intx512 := {
  umul512 a b := (a * b) mod 2 ^ 512;
  umod512 a m := a mod m;
}.

#[export] Instance intx512_ref_laws : Intx512Laws intx512_ref.
Proof. by split. Qed.

(** * The hash cache *)

Definition KeccakCacheSlots : nat := 16.
Definition KeccakCacheMaxInputLen : Z := 128.

Record KeccakCacheEntry : Type := mkEntry {
  Input : list Z;                          (* uint8_t[KeccakCacheMaxInputLen] *)
  InputLen : Z;
  KResult : list Z;
  Valid : bool;
}.

Record KeccakCache : Type := mkKeccak {
  Slots : list KeccakCacheEntry;
  NextSlot : nat;
}.

Definition empty_entry : KeccakCacheEntry :=
  mkEntry (replicate (Z.to_nat KeccakCacheMaxInputLen) 0) 0 zero32 false.
Definition empty_keccak : KeccakCache := mkKeccak (replicate KeccakCacheSlots empty_entry) 0.

(** [std::memcmp(A, B, Len) == 0] *)
Definition memeq (Len : Z) (A B : list Z) : bool :=
  bool_decide (take (Z.to_nat Len) A = take (Z.to_nat Len) B).

Fixpoint find_slot (Data : list Z) (Len : Z) (l : list KeccakCacheEntry) : option (list Z) :=
  match l with
  | [] => None
  | S_ :: l' =>
      if Valid S_ && (InputLen S_ =? Len) && memeq Len (Input S_) Data then Some (KResult S_)
      else find_slot Data Len l'
  end.

Definition lookup_keccak (C : KeccakCache) (Data : list Z) (Len : Z) : option (list Z) :=
  if KeccakCacheMaxInputLen <? Len then None else find_slot Data Len (Slots C).

Definition insert_keccak (C : KeccakCache) (Data : list Z) (Len : Z) (R : list Z) : KeccakCache :=
  if KeccakCacheMaxInputLen <? Len then C
  else
    let old := default empty_entry (Slots C !! NextSlot C) in
    let n := Z.to_nat Len in
    mkKeccak (<[NextSlot C := mkEntry (take n Data ++ drop n (Input old)) Len R true]> (Slots C))
      ((NextSlot C + 1) mod KeccakCacheSlots).

(** * State *)

#[export] Instance MsgRef_countable : Countable MsgRef.
Proof.
  refine (inj_countable' (fun m => match m with MExt n => inl n | MFrame i => inr i end)
            (fun x => match x with inl n => MExt n | inr i => MFrame i end) _).
  by intros [].
Defined.

(** [EVMInstance::ExecutionCache] *)
Record ExecutionCache : Type := mkExecCache {
  TxContext : evmc_tx_context;
  TxContextCached : bool;
  BlockHashes : gmap Z (list Z);
  BlobHashes : gmap Z (list Z);
  CalldataLoads : gmap (MsgRef * Z) (list Z);
  Keccak256Results : list (list Z);
  CreateAddresses : list (list Z);
}.

Record RtState (HS : Type) : Type := mkRt {
  rInst : EVMInstance;
  rMsgs : MsgRef -> evmc_message;          (* the messages behind the pointers *)
  rCache : ExecutionCache;                 (* InstanceExecutionCache *)
  rResult : evmc_result;                   (* ExeResult *)
  rExitCode : Z;                           (* InstanceExitCode *)
  rErr : option ErrorCode;                 (* Err *)
  rKeccak : KeccakCache;                   (* TLKeccakCache *)
  rHost : HS;
}.
Arguments mkRt {HS} _ _ _ _ _ _ _ _.
Arguments rInst {HS} _.
Arguments rMsgs {HS} _ _.
Arguments rCache {HS} _.
Arguments rResult {HS} _.
Arguments rExitCode {HS} _.
Arguments rErr {HS} _.
Arguments rKeccak {HS} _.
Arguments rHost {HS} _.

Abbreviation RM HS := (@body ErrorCode (RtState HS)).

Section State.
Context {HS : Type}.
Implicit Types (t : RtState HS).

Definition set_rInst (i : EVMInstance) t : RtState HS :=
  mkRt i (rMsgs t) (rCache t) (rResult t) (rExitCode t) (rErr t) (rKeccak t) (rHost t).
Definition set_rMsgs (m : MsgRef -> evmc_message) t : RtState HS :=
  mkRt (rInst t) m (rCache t) (rResult t) (rExitCode t) (rErr t) (rKeccak t) (rHost t).
Definition set_rCache (c : ExecutionCache) t : RtState HS :=
  mkRt (rInst t) (rMsgs t) c (rResult t) (rExitCode t) (rErr t) (rKeccak t) (rHost t).
Definition set_rResult (r : evmc_result) t : RtState HS :=
  mkRt (rInst t) (rMsgs t) (rCache t) r (rExitCode t) (rErr t) (rKeccak t) (rHost t).
Definition set_rExit (n : Z) (e : option ErrorCode) t : RtState HS :=
  mkRt (rInst t) (rMsgs t) (rCache t) (rResult t) n e (rKeccak t) (rHost t).
Definition set_rKeccak (k : KeccakCache) t : RtState HS :=
  mkRt (rInst t) (rMsgs t) (rCache t) (rResult t) (rExitCode t) (rErr t) k (rHost t).
Definition set_rHost (h : HS) t : RtState HS :=
  mkRt (rInst t) (rMsgs t) (rCache t) (rResult t) (rExitCode t) (rErr t) (rKeccak t) h.

Definition set_InstReturnData (d : list Z) (I : EVMInstance) : EVMInstance :=
  mkInst (ModCode I) (Gas I) (GasRefund I) (Rev I) (CurrentMessage I) (MessageStack I)
    (GasRefundStack I) (MemoryBase I) (MemorySize I) (MemoryBuf I) (MemoryStack I)
    d (EVMStack I) (EVMStackSize I).

Definition set_TxContext (x : evmc_tx_context) (c : ExecutionCache) : ExecutionCache :=
  mkExecCache x true (BlockHashes c) (BlobHashes c) (CalldataLoads c) (Keccak256Results c)
    (CreateAddresses c).
Definition set_BlockHashes (b : gmap Z (list Z)) (c : ExecutionCache) : ExecutionCache :=
  mkExecCache (TxContext c) (TxContextCached c) b (BlobHashes c) (CalldataLoads c)
    (Keccak256Results c) (CreateAddresses c).
Definition set_BlobHashes (b : gmap Z (list Z)) (c : ExecutionCache) : ExecutionCache :=
  mkExecCache (TxContext c) (TxContextCached c) (BlockHashes c) b (CalldataLoads c)
    (Keccak256Results c) (CreateAddresses c).
Definition set_CalldataLoads (l : gmap (MsgRef * Z) (list Z)) (c : ExecutionCache) : ExecutionCache :=
  mkExecCache (TxContext c) (TxContextCached c) (BlockHashes c) (BlobHashes c) l
    (Keccak256Results c) (CreateAddresses c).
Definition push_Keccak (r : list Z) (c : ExecutionCache) : ExecutionCache :=
  mkExecCache (TxContext c) (TxContextCached c) (BlockHashes c) (BlobHashes c) (CalldataLoads c)
    (Keccak256Results c ++ [r]) (CreateAddresses c).
Definition push_CreateAddress (a : list Z) (c : ExecutionCache) : ExecutionCache :=
  mkExecCache (TxContext c) (TxContextCached c) (BlockHashes c) (BlobHashes c) (CalldataLoads c)
    (Keccak256Results c) (CreateAddresses c ++ [a]).

(** ** Instance operations *)

Definition onInst (f : EVMInstance -> EVMInstance) : RM HS unit :=
  modify (fun t => set_rInst (f (rInst t)) t).
Definition onCache (f : ExecutionCache -> ExecutionCache) : RM HS unit :=
  modify (fun t => set_rCache (f (rCache t)) t).
Definition getInst {A} (f : EVMInstance -> A) : RM HS A := gets (fun t => f (rInst t)).

Definition setExecutionError (e : ErrorCode) t : RtState HS :=
  let t := set_rExit (rExitCode t) (Some e) t in
  let i := match e with InstanceExit => rInst t | _ => restoreGasRefundSnapshot (rInst t) end in
  let i := match e with GasLimitExceeded => setGas 0 i | _ => i end in
  set_rInst i t.

(** [triggerInstanceExceptionOnJIT] *)
Definition trigger {A} (e : ErrorCode) : RM HS A := fun t => Throw e (setExecutionError e t).

(** [EVMInstance::exit]: it records the exit and returns. *)
Definition exitInstance (ExitCode : Z) : RM HS unit :=
  modify (fun t => setExecutionError InstanceExit (set_rExit ExitCode (rErr t) t)).

Definition setInstReturnData (d : list Z) : RM HS unit := onInst (set_InstReturnData d).

(** An operation of the instance with the gas fields of the messages. *)
Definition viewInst t : InstState := mkIS (rInst t) (fun r => gas (rMsgs t r)).
Definition putInst (s : InstState) t : RtState HS :=
  set_rMsgs (fun r => set_gas (mgas s r) (rMsgs t r)) (set_rInst (inst s) t).

Definition lift {A} (m : IM A) : RM HS A := fun t =>
  match m (viewInst t) with
  | Ret a s => Ret a (putInst s t)
  | Exit s => Exit (putInst s t)
  | Throw e s => Throw e (setExecutionError e (putInst s t))
  | Undef => Undef
  end.

Definition getCurrentMessage : RM HS evmc_message :=
  m <- getInst CurrentMessage ;;
  match m with
  | None => undef                          (* ZEN_ASSERT *)
  | Some p => gets (fun t => rMsgs t p)
  end.

Definition instStaticMode `{Evmc} : RM HS bool :=
  m <- getInst CurrentMessage ;;
  match m with
  | None => ret false
  | Some p => gets (fun t => negb (Z.land (flags (rMsgs t p)) EVMC_STATIC =? 0))
  end.

(** [n] bytes at [getMemoryBase() + off], read and written. *)
Definition base_read (off n : Z) : RM HS (list Z) :=
  i <- getInst (fun i => i) ;;
  let buf := default [] (MemoryBuf i) in
  if n =? 0 then ret []
  else if MemoryBase i && (0 <=? off) && (0 <=? n) && (off + n <=? Z.of_nat (length buf)) then
    ret (take (Z.to_nat n) (drop (Z.to_nat off) buf))
  else undef.

Definition base_write (off : Z) (bs : list Z) : RM HS unit :=
  i <- getInst (fun i => i) ;;
  let buf := default [] (MemoryBuf i) in
  if (length bs =? 0)%nat then ret tt
  else if MemoryBase i && (0 <=? off) && (off + Z.of_nat (length bs) <=? Z.of_nat (length buf)) then
    onInst (set_InstMemory true (MemorySize i) (Some (write_at (Z.to_nat off) bs buf)))
  else undef.

(** [n] bytes at offset [off] of a constant buffer. *)
Definition const_read (buf : list Z) (off n : Z) : RM HS (list Z) :=
  if n =? 0 then ret []
  else if (0 <=? off) && (0 <=? n) && (off + n <=? Z.of_nat (length buf)) then
    ret (take (Z.to_nat n) (drop (Z.to_nat off) buf))
  else undef.

(** ** Host *)

Definition askHost {A} (f : HS -> A) : RM HS A := gets (fun t => f (rHost t)).
Definition doHost {A} (f : HS -> A * HS) : RM HS A := fun t =>
  let '(a, h) := f (rHost t) in Ret a (set_rHost h t).
End State.

(** * Helpers without effects *)

Section Pure.
Context {I : Intx} {I5 : Intx512}.

Definition evmGetMul (Multiplicand Multiplier : Z) : Z := umul Multiplicand Multiplier.

Definition evmGetDiv (Dividend Divisor : Z) : Z :=
  if Divisor =? 0 then 0 else udiv Dividend Divisor.

Definition evmGetSDiv (Dividend Divisor : Z) : Z :=
  if Divisor =? 0 then 0
  else
    let isDividendNegative := negb (ushr Dividend 255 =? 0) in
    let isDivisorNegative := negb (ushr Divisor 255 =? 0) in
    let absDividend := if isDividendNegative then uadd (unot Dividend) 1 else Dividend in
    let absDivisor := if isDivisorNegative then uadd (unot Divisor) 1 else Divisor in
    let absResult := udiv absDividend absDivisor in
    let isResultNegative := xorb isDividendNegative isDivisorNegative in
    if isResultNegative then uadd (unot absResult) 1 else absResult.

Definition evmGetMod (Dividend Divisor : Z) : Z :=
  if Divisor =? 0 then 0 else umod Dividend Divisor.

Definition evmGetSMod (Dividend Divisor : Z) : Z :=
  if Divisor =? 0 then 0 else (sdivrem Dividend Divisor).2.

Definition evmGetAddMod (Augend Addend Modulus : Z) : Z :=
  if Modulus =? 0 then 0 else addmod Augend Addend Modulus.

(** The remainder is converted back to 256 bits. *)
Definition evmGetMulMod (Multiplicand Multiplier Modulus : Z) : Z :=
  if Modulus =? 0 then 0
  else wrap 256 (umod512 (umul512 Multiplicand Multiplier) Modulus).

(** [result[0] = clzResult] *)
Definition evmGetClz (Value : Z) : Z := of_words (u64 (uclz Value)) 0 0 0.

(** The first 20 and the 32 bytes of a little-endian word, reversed. *)
Definition loadAddressFromLE (AddressLE : list Z) : list Z := reverse (take 20 AddressLE).
Definition loadBytes32FromLE (BytesLE : list Z) : list Z := reverse (take 32 BytesLE).

Definition calculateWordCopyGas (Size : Z) : Z :=
  if Size =? 0 then 0
  else let Words := u64 (numWords Size) in u64 (Words * WORD_COPY_COST).

(** The 20 bytes of an address at the end of a zeroed 32-byte buffer. *)
Definition PaddedAddress (a : list Z) : list Z := replicate 12 0 ++ a.
End Pure.

(** * Queries *)

Section Queries.
Context {HS : Type} {I : Intx} {H : EvmcHost HS} {V : Evmc}.

(** [Rev >= EVMC_BERLIN && Host->access_account(Addr) == EVMC_ACCESS_COLD],
    and the same for a storage slot. *)
Definition isColdAccount (Addr : list Z) : RM HS bool :=
  Rev_ <- getInst Rev ;;
  if rev_ge Rev_ EVMC_BERLIN then a <- doHost (access_account Addr) ;; ret (is_cold a)
  else ret false.

Definition isColdStorage (Addr Key : list Z) : RM HS bool :=
  Rev_ <- getInst Rev ;;
  if rev_ge Rev_ EVMC_BERLIN then a <- doHost (access_storage Addr Key) ;; ret (is_cold a)
  else ret false.

Definition charge (k : Z) : RM HS unit := lift (Instance_.chargeGas k).

Definition chargeColdAccount (Addr : list Z) : RM HS unit :=
  cold <- isColdAccount Addr ;;
  if cold then charge ADDITIONAL_COLD_ACCOUNT_ACCESS_COST else ret tt.

Definition triggerStaticModeViolation {A} : RM HS A :=
  onInst (setGas 0) ;;; trigger EVMStaticModeViolation.

Definition evmGetExp (Base Exponent : Z) : RM HS Z :=
  let ExponentByteSize := count_significant_bytes Exponent in
  Rev_ <- getInst Rev ;;
  let GasPerByte :=
    if rev_lt Rev_ EVMC_SPURIOUS_DRAGON then EXP_BYTE_GAS_PRE_SPURIOUS_DRAGON
    else EXP_BYTE_GAS in
  charge (u64 (ExponentByteSize * GasPerByte)) ;;;
  ret (uexp Base Exponent).

Definition evmGetAddress : RM HS (list Z) :=
  Msg_ <- getCurrentMessage ;; ret (PaddedAddress (recipient Msg_)).

Definition evmGetBalance (Address : list Z) : RM HS Z :=
  let Addr := loadAddressFromLE Address in
  chargeColdAccount Addr ;;;
  b <- askHost (get_balance Addr) ;;
  ret (be_load b).

(** The cached transaction context, fetched on first use. *)
Definition cachedTxContext : RM HS evmc_tx_context :=
  c <- gets rCache ;;
  (if TxContextCached c then ret tt
   else x <- askHost get_tx_context ;; onCache (set_TxContext x)) ;;;
  gets (fun t => TxContext (rCache t)).

Definition evmGetOrigin : RM HS (list Z) :=
  x <- cachedTxContext ;; ret (PaddedAddress (tx_origin x)).

Definition evmGetCaller : RM HS (list Z) :=
  Msg_ <- getCurrentMessage ;; ret (PaddedAddress (sender Msg_)).

Definition evmGetCallValue : RM HS (list Z) :=
  Msg_ <- getCurrentMessage ;; ret (value Msg_).

Definition evmGetCallDataLoad (Offset : Z) : RM HS (list Z) :=
  m <- getInst CurrentMessage ;;
  match m with
  | None => undef                          (* ZEN_ASSERT *)
  | Some p =>
      input <- gets (fun t => input_data (rMsgs t p)) ;;
      c <- gets (fun t => CalldataLoads (rCache t)) ;;
      match c !! (p, Offset) with
      | Some r => ret r
      | None =>
          let input_size := Z.of_nat (length input) in
          Result <- (if Offset <? input_size then
                       bs <- const_read input Offset (Z.min 32 (input_size - Offset)) ;;
                       ret (bs ++ drop (length bs) zero32)
                     else ret zero32) ;;
          onCache (set_CalldataLoads (<[(p, Offset) := Result]> c)) ;;;
          ret Result
      end
  end.

Definition evmGetGasPrice : RM HS Z := x <- askHost get_tx_context ;; ret (be_load (tx_gas_price x)).

Definition evmGetExtCodeSize (Address : list Z) : RM HS Z :=
  let Addr := loadAddressFromLE Address in
  chargeColdAccount Addr ;;;
  askHost (get_code_size Addr).

Definition evmGetExtCodeHash (Address : list Z) : RM HS Z :=
  let Addr := loadAddressFromLE Address in
  chargeColdAccount Addr ;;;
  Hash <- askHost (get_code_hash Addr) ;;
  ret (be_load Hash).

Definition evmGetCallDataSize : RM HS Z :=
  Msg_ <- getCurrentMessage ;; ret (Z.of_nat (length (input_data Msg_))).

Definition evmGetCodeSize : RM HS Z := getInst (fun i => Z.of_nat (length (ModCode i))).

Definition evmGetBlockHash (BlockNumber : Z) : RM HS (list Z) :=
  x <- askHost get_tx_context ;;
  let UpperBound := block_number x in
  let LowerBound := Z.max (UpperBound - 256) 0 in
  Hash <- (if (BlockNumber <? UpperBound) && (LowerBound <=? BlockNumber)
           then askHost (get_block_hash BlockNumber) else ret zero32) ;;
  onCache (fun c => set_BlockHashes (<[BlockNumber := Hash]> (BlockHashes c)) c) ;;;
  ret Hash.

Definition evmGetCoinBase : RM HS (list Z) :=
  x <- cachedTxContext ;; ret (PaddedAddress (block_coinbase x)).
Definition evmGetTimestamp : RM HS Z := x <- askHost get_tx_context ;; ret (of_i64 (block_timestamp x)).
Definition evmGetNumber : RM HS Z := x <- askHost get_tx_context ;; ret (of_i64 (block_number x)).
Definition evmGetPrevRandao : RM HS (list Z) :=
  x <- cachedTxContext ;; ret (block_prev_randao x).
Definition evmGetGasLimit : RM HS Z := x <- askHost get_tx_context ;; ret (of_i64 (block_gas_limit x)).
Definition evmGetChainId : RM HS (list Z) := x <- cachedTxContext ;; ret (chain_id x).

Definition evmGetSelfBalance : RM HS Z :=
  Msg_ <- getCurrentMessage ;;
  Balance <- askHost (get_balance (recipient Msg_)) ;;
  ret (be_load Balance).

Definition evmGetBaseFee : RM HS Z := x <- askHost get_tx_context ;; ret (be_load (block_base_fee x)).

Definition evmGetBlobHash (Index : Z) : RM HS (list Z) :=
  x <- askHost get_tx_context ;;
  c <- gets (fun t => BlobHashes (rCache t)) ;;
  match c !! Index with
  | Some r => ret r
  | None =>
      Hash <- (if Z.of_nat (length (blob_hashes x)) <=? Index then ret zero32
               else of_option (blob_hashes x !! Z.to_nat Index)) ;;
      onCache (set_BlobHashes (<[Index := Hash]> c)) ;;;
      ret Hash
  end.

Definition evmGetBlobBaseFee : RM HS Z := x <- askHost get_tx_context ;; ret (be_load (blob_base_fee x)).

Definition evmGetReturnDataSize : RM HS Z := getInst (fun i => Z.of_nat (length (InstReturnData i))).
Definition evmGetGas : RM HS Z := getInst Gas.

Definition evmExpandMemoryNoGas (RequiredSize : Z) : RM HS unit :=
  lift (Instance_.expandMemoryNoGas RequiredSize).

(** ** Storage *)

Definition evmGetSLoad (Index : Z) : RM HS Z :=
  Msg_ <- getCurrentMessage ;;
  let Key := be_store Index in
  cold <- isColdStorage (recipient Msg_) Key ;;
  (if cold then charge ADDITIONAL_COLD_SLOAD_COST else ret tt) ;;;
  Value <- askHost (get_storage (recipient Msg_) Key) ;;
  ret (be_load Value).

Definition evmSetSStore (Index Value : Z) : RM HS unit :=
  static <- instStaticMode ;;
  if static then triggerStaticModeViolation
  else
    Msg_ <- getCurrentMessage ;;
    Rev_ <- getInst Rev ;;
    g <- getInst Gas ;;
    (if rev_ge Rev_ EVMC_ISTANBUL && (g <=? SSTORE_REQUIRED_ISTANBUL)
     then trigger GasLimitExceeded else ret tt) ;;;
    let Key := be_store Index in
    let Val := be_store Value in
    cold <- isColdStorage (recipient Msg_) Key ;;
    let GasCostCold := if cold then COLD_SLOAD_COST else 0 in
    Status_ <- doHost (set_storage (recipient Msg_) Key Val) ;;
    let e := SSTORE_COSTS Rev_ Status_ in
    charge (u64 (GasCostCold + GasCost e)) ;;;
    onInst (addGasRefund (GasReFund e)).

Definition evmGetTLoad (Index : Z) : RM HS Z :=
  Msg_ <- getCurrentMessage ;;
  Value <- askHost (get_transient_storage (recipient Msg_) (be_store Index)) ;;
  ret (be_load Value).

Definition evmSetTStore (Index Value : Z) : RM HS unit :=
  static <- instStaticMode ;;
  if static then triggerStaticModeViolation
  else
    Msg_ <- getCurrentMessage ;;
    doHost (fun h => (tt, set_transient_storage (recipient Msg_) (be_store Index) (be_store Value) h)).
End Queries.

(** * Memory *)

Section Memory.
Context {HS : Type} {I : Intx} {H : EvmcHost HS} {V : Evmc}.

Definition expandChecked (Offset Size : Z) : RM HS bool :=
  lift (Instance_.expandMemoryChecked Offset Size).

(** [if (uint64_t CopyGas = calculateWordCopyGas(Size)) chargeGas(CopyGas);] *)
Definition chargeCopy (Size : Z) : RM HS unit :=
  let CopyGas := calculateWordCopyGas Size in
  if CopyGas =? 0 then ret tt else charge CopyGas.

Definition evmSetCallDataCopy (DestOffset Offset Size : Z) : RM HS unit :=
  if Size =? 0 then ret tt
  else
    ok <- expandChecked DestOffset Size ;;
    if negb ok then ret tt
    else
      chargeCopy Size ;;;
      Msg_ <- getCurrentMessage ;;
      let input_size := Z.of_nat (length (input_data Msg_)) in
      let ActualOffset := Z.min Offset input_size in
      let CopySize :=
        if ActualOffset <? input_size then Z.min Size (input_size - ActualOffset) else 0 in
      (if 0 <? CopySize then
         bs <- const_read (input_data Msg_) ActualOffset CopySize ;; base_write DestOffset bs
       else ret tt) ;;;
      if CopySize <? Size then base_write (DestOffset + CopySize) (zeros (Size - CopySize))
      else ret tt.

Definition evmSetCodeCopy (DestOffset Offset Size : Z) : RM HS unit :=
  if Size =? 0 then ret tt
  else
    ok <- expandChecked DestOffset Size ;;
    if negb ok then ret tt
    else
      chargeCopy Size ;;;
      Code <- getInst ModCode ;;
      let CodeSize := Z.of_nat (length Code) in
      if Offset <? CodeSize then
        let CopySize := Z.min Size (CodeSize - Offset) in
        bs <- const_read Code Offset CopySize ;;
        base_write DestOffset bs ;;;
        if CopySize <? Size then base_write (DestOffset + CopySize) (zeros (Size - CopySize))
        else ret tt
      else if 0 <? Size then base_write DestOffset (zeros Size)
      else ret tt.

Definition evmSetExtCodeCopy (Address : list Z) (DestOffset Offset Size : Z) : RM HS unit :=
  let Addr := loadAddressFromLE Address in
  ok <- expandChecked DestOffset Size ;;
  if negb ok then ret tt
  else
    chargeCopy Size ;;;
    chargeColdAccount Addr ;;;
    if Size =? 0 then ret tt
    else
      let MaxBufferSize := 2 ^ 32 - 1 in
      let Offset := if MaxBufferSize <? Offset then MaxBufferSize else Offset in
      copied <- askHost (copy_code Addr Offset Size) ;;
      base_write DestOffset copied ;;;
      let CopiedSize := Z.of_nat (length copied) in
      if CopiedSize <? Size then base_write (DestOffset + CopiedSize) (zeros (Size - CopiedSize))
      else ret tt.

Definition evmSetReturnDataCopy (DestOffset Offset Size : Z) : RM HS unit :=
  Data <- getInst InstReturnData ;;
  let DataSize := Z.of_nat (length Data) in
  (if (DataSize <? Offset) || (DataSize <? Size) || (DataSize <? u64 (Offset + Size)) then
     onInst (setGas 0) ;;; trigger OutOfBoundsMemory
   else ret tt) ;;;
  if Size =? 0 then ret tt
  else
    ok <- expandChecked DestOffset Size ;;
    if negb ok then ret tt
    else
      chargeCopy Size ;;;
      let CopySize := Z.min Size (u64 (DataSize - Offset)) in
      bs <- const_read Data Offset CopySize ;;
      base_write DestOffset bs.

(** The hash of the input, from the cache of the thread if it is there. *)
Definition hashInput (InputData : list Z) (Length : Z) : RM HS (list Z) :=
  let Len32 := u32 Length in
  C <- gets rKeccak ;;
  match lookup_keccak C InputData Len32 with
  | Some Cached => onCache (push_Keccak Cached) ;;; ret Cached
  | None =>
      let HashResult := keccak256 InputData in
      modify (fun t => set_rKeccak (insert_keccak C InputData Len32 HashResult) t) ;;;
      onCache (push_Keccak HashResult) ;;;
      ret HashResult
  end.

Definition evmGetKeccak256 (Offset Length : Z) : RM HS (option (list Z)) :=
  if 0 <? Length then
    ok <- expandChecked Offset Length ;;
    if negb ok then ret None               (* nullptr *)
    else
      charge (u64 (u64 (numWords Length) * 6)) ;;;
      InputData <- base_read Offset Length ;;
      h <- hashInput InputData Length ;; ret (Some h)
  else h <- hashInput [] Length ;; ret (Some h).

(** The topics are pointers, of which null ones are left out. *)
Definition evmEmitLogGeneric (Offset Size : Z) (TopicsData : list (option (list Z))) : RM HS unit :=
  Msg_ <- getCurrentMessage ;;
  static <- instStaticMode ;;
  if static then triggerStaticModeViolation
  else
    let Topics := map loadBytes32FromLE (omap id TopicsData) in
    let emit (Data : list Z) : RM HS unit :=
      doHost (fun h => (tt, emit_log (recipient Msg_) Data Topics h)) in
    if 0 <? Size then
      ok <- expandChecked Offset Size ;;
      if negb ok then ret tt
      else
        let LogDataCost := u64 (8 * Size) in
        (if LogDataCost =? 0 then ret tt else charge LogDataCost) ;;;
        Data <- base_read Offset Size ;; emit Data
    else emit [].

Definition evmEmitLog0 (Offset Size : Z) : RM HS unit := evmEmitLogGeneric Offset Size [].
Definition evmEmitLog1 (Offset Size : Z) (T1 : list Z) : RM HS unit :=
  evmEmitLogGeneric Offset Size [Some T1].
Definition evmEmitLog2 (Offset Size : Z) (T1 T2 : list Z) : RM HS unit :=
  evmEmitLogGeneric Offset Size [Some T1; Some T2].
Definition evmEmitLog3 (Offset Size : Z) (T1 T2 T3 : list Z) : RM HS unit :=
  evmEmitLogGeneric Offset Size [Some T1; Some T2; Some T3].
Definition evmEmitLog4 (Offset Size : Z) (T1 T2 T3 T4 : list Z) : RM HS unit :=
  evmEmitLogGeneric Offset Size [Some T1; Some T2; Some T3; Some T4].
End Memory.

(** * Calls *)

Section Calls.
Context {HS : Type} {I : Intx} {H : EvmcHost HS} {V : Evmc}.

(** The address of a message on the C++ stack: none of those in use. *)
Definition ref_number (m : option MsgRef) : nat :=
  match m with Some (MExt n) => n | _ => 0 end.
Definition fresh_ref (ms : list (option MsgRef)) : MsgRef :=
  MExt (S (foldr Nat.max 0%nat (map ref_number ms))).

(** [pushMessage(&M); Host->call(M); popMessage();] *)
Definition callHost (M : evmc_message) : RM HS evmc_result :=
  modify (fun t =>
    let p := fresh_ref (MessageStack (rInst t)) in
    let msgs := fun r => if decide (r = p) then M else rMsgs t r in
    set_rMsgs msgs (set_rInst (pushMessage (fun r => gas (msgs r)) (Some p) (rInst t)) t)) ;;;
  Result <- doHost (host_call M) ;;
  modify (fun t => set_rInst (popMessage (fun r => gas (rMsgs t r)) (rInst t)) t) ;;;
  ret Result.

Definition ZeroAddress : list Z := zero32.

(** The bytes CREATE, RETURN and REVERT hand over; [None] when memory cannot
    grow. *)
Definition expandRead (Offset Len : Z) : RM HS (option (list Z)) :=
  if 0 <? Len then
    ok <- expandChecked Offset Len ;;
    if negb ok then ret None else d <- base_read Offset Len ;; ret (Some d)
  else ret (Some []).

(** [Instance->setReturnData({}); return x;] *)
Definition failWith {A} (x : A) : RM HS A := setInstReturnData [] ;;; ret x.

Definition create_msg (CallKind : evmc_call_kind) (m : evmc_message) (g Value : Z)
    (InitCode : list Z) (Salt : option (list Z)) : evmc_message :=
  mkMsg CallKind (flags m) (depth m + 1) g zero20 (recipient m) InitCode (be_store Value)
    (match CallKind, Salt with EVMC_CREATE2, Some s => loadBytes32FromLE s | _, _ => zero32 end)
    zero20 [].

(** The statements after [Host->call]. *)
Definition finishCreate (g : Z) (Result : evmc_result) : RM HS (list Z) :=
  let ProvidedGas := positive_part g in
  let GasLeft := positive_part (gas_left Result) in
  let GasUsed := if GasLeft <? ProvidedGas then ProvidedGas - GasLeft else 0 in
  (if GasUsed =? 0 then ret tt else charge GasUsed) ;;;
  onInst (addGasRefund (gas_refund Result)) ;;;
  setInstReturnData (output_data Result) ;;;
  if is_success (status_code Result) then
    let a := PaddedAddress (create_address Result) in
    onCache (push_CreateAddress a) ;;; ret a
  else ret ZeroAddress.

Definition evmHandleCreateInternal (CallKind : evmc_call_kind) (Value Offset Size : Z)
    (Salt : option (list Z)) : RM HS (list Z) :=
  static <- instStaticMode ;;
  if static then triggerStaticModeViolation
  else
    pre <- expandRead Offset Size ;;
    match pre with
    | None => failWith ZeroAddress
    | Some InitCode =>
        Rev_ <- getInst Rev ;;
        (if rev_ge Rev_ EVMC_SHANGHAI && (MAX_SIZE_OF_INITCODE <? Size)
         then lift Instance_.chargeAll else ret tt) ;;;
        let InitCodeWordCost :=
          (match CallKind with EVMC_CREATE2 => 6 | _ => 0 end)
          + (if rev_ge Rev_ EVMC_SHANGHAI then 2 else 0) in
        let InitCodeWords := u64 (Size + 31) / 32 in
        let InitCodeCost := u64 (InitCodeWordCost * InitCodeWords) in
        (if negb (InitCodeWordCost =? 0) && negb (Size =? 0) && negb (InitCodeCost =? 0)
         then charge InitCodeCost else ret tt) ;;;
        Msg_ <- getCurrentMessage ;;
        if Z.of_nat MAXSTACK <=? depth Msg_ then failWith ZeroAddress
        else
          bal <- askHost (get_balance (recipient Msg_)) ;;
          if negb (Value =? 0) && (be_load bal <? Value) then failWith ZeroAddress
          else
            let g :=
              if rev_ge Rev_ EVMC_TANGERINE_WHISTLE && (0 <? gas Msg_)
              then gas Msg_ - Z.quot (gas Msg_) 64 else gas Msg_ in
            Result <- callHost (create_msg CallKind Msg_ g Value InitCode Salt) ;;
            finishCreate g Result
    end.

Definition evmHandleCreate (Value Offset Size : Z) : RM HS (list Z) :=
  evmHandleCreateInternal EVMC_CREATE Value Offset Size None.
Definition evmHandleCreate2 (Value Offset Size : Z) (Salt : list Z) : RM HS (list Z) :=
  evmHandleCreateInternal EVMC_CREATE2 Value Offset Size (Some Salt).

Definition call_msg (CallKind : evmc_call_kind) (ForceStatic : bool) (m : evmc_message)
    (CallGas : Z) (TargetAddr InputData : list Z) (Value : Z) : evmc_message :=
  let is_call := match CallKind with EVMC_CALL => true | _ => false end in
  let is_delegate := match CallKind with EVMC_DELEGATECALL => true | _ => false end in
  mkMsg CallKind (if is_call && ForceStatic then EVMC_STATIC else flags m) (depth m + 1)
    (i64 CallGas)
    (if is_call || ForceStatic then TargetAddr else recipient m)
    (if is_delegate then sender m else recipient m)
    InputData
    (if is_delegate then value m else be_store Value)
    zero32 TargetAddr [].

(** The gas of the callee; [None] when the call fails before it is made. *)
Definition callGas (CallKind : evmc_call_kind) (Gas_ : Z) (TargetAddr : list Z) (Value : Z)
  : RM HS (option Z) :=
  Rev_ <- getInst Rev ;;
  let is_call := match CallKind with EVMC_CALL => true | _ => false end in
  let HasValueArgs := match CallKind with EVMC_CALL | EVMC_CALLCODE => true | _ => false end in
  let HasValue := negb (Value =? 0) in
  (if HasValueArgs then
     let GasCost := if HasValue then CALL_VALUE_COST else 0 in
     GasCost <-
       (if is_call && (HasValue || rev_lt Rev_ EVMC_SPURIOUS_DRAGON) then
          AccountState <- askHost (account_exists TargetAddr) ;;
          ret (if negb AccountState then GasCost + ACCOUNT_CREATION_COST else GasCost)
        else ret GasCost) ;;
     charge GasCost
   else ret tt) ;;;
  GasLeft <- getInst Gas ;;
  CallGas <-
    (if rev_ge Rev_ EVMC_TANGERINE_WHISTLE then
       let GasCap := GasLeft - GasLeft / 64 in ret (Z.min Gas_ GasCap)
     else if GasLeft <? Gas_ then trigger GasLimitExceeded
     else ret Gas_) ;;
  if HasValueArgs && HasValue then
    lift (Instance_.addGas CALL_GAS_STIPEND) ;;;
    CurrentMsg <- getCurrentMessage ;;
    CallerBalance <- askHost (get_balance (recipient CurrentMsg)) ;;
    if be_load CallerBalance <? Value then failWith None
    else ret (Some (u64 (CallGas + CALL_GAS_STIPEND)))
  else ret (Some CallGas).

(** Memory for the input and the output of a call. *)
Definition expandCallMemory (ArgsOffset ArgsSize RetOffset RetSize : Z) : RM HS bool :=
  if (0 <? ArgsSize) && (0 <? RetSize) then
    lift (Instance_.expandMemoryChecked2 ArgsOffset ArgsSize RetOffset RetSize)
  else if 0 <? ArgsSize then expandChecked ArgsOffset ArgsSize
  else if 0 <? RetSize then expandChecked RetOffset RetSize
  else ret true.

(** The statements after [Host->call]. *)
Definition finishCall (MsgGas RetOffset RetSize : Z) (Result : evmc_result) : RM HS Z :=
  let CallGas := positive_part MsgGas in
  let GasLeft := positive_part (gas_left Result) in
  let GasUsed := if GasLeft <? CallGas then CallGas - GasLeft else 0 in
  (if 0 <? GasUsed then charge GasUsed else ret tt) ;;;
  onInst (addGasRefund (gas_refund Result)) ;;;
  let output_size := Z.of_nat (length (output_data Result)) in
  (if (0 <? RetSize) && (0 <? output_size) then
     base_write RetOffset (take (Z.to_nat (Z.min RetSize output_size)) (output_data Result))
   else ret tt) ;;;
  setInstReturnData (output_data Result) ;;;
  ret (if is_success (status_code Result) then 1 else 0).

Definition evmHandleCallInternal (CallKind : evmc_call_kind) (Gas_ : Z) (ToAddr : option (list Z))
    (Value ArgsOffset ArgsSize RetOffset RetSize : Z) (ForceStatic : bool) : RM HS Z :=
  let TargetAddr := match ToAddr with Some a => loadAddressFromLE a | None => zero20 end in
  chargeColdAccount TargetAddr ;;;
  let is_call := match CallKind with EVMC_CALL => true | _ => false end in
  let HasValue := negb (Value =? 0) in
  static <- instStaticMode ;;
  if is_call && HasValue && static then triggerStaticModeViolation
  else
    ok <- expandCallMemory ArgsOffset ArgsSize RetOffset RetSize ;;
    if negb ok then failWith 0
    else
      g <- callGas CallKind Gas_ TargetAddr Value ;;
      match g with
      | None => ret 0
      | Some CallGas =>
          CurrentMsg <- getCurrentMessage ;;
          InputData <- base_read ArgsOffset ArgsSize ;;
          if Z.of_nat MAXSTACK <=? depth CurrentMsg then failWith 0
          else
            let CallMsg := call_msg CallKind ForceStatic CurrentMsg CallGas TargetAddr InputData Value in
            Result <- callHost CallMsg ;;
            finishCall (gas CallMsg) RetOffset RetSize Result
      end.

Definition evmHandleCall (Gas_ : Z) (ToAddr : list Z) (Value ArgsOffset ArgsSize RetOffset RetSize : Z)
  : RM HS Z :=
  evmHandleCallInternal EVMC_CALL Gas_ (Some ToAddr) Value ArgsOffset ArgsSize RetOffset RetSize false.
Definition evmHandleCallCode (Gas_ : Z) (ToAddr : list Z)
    (Value ArgsOffset ArgsSize RetOffset RetSize : Z) : RM HS Z :=
  evmHandleCallInternal EVMC_CALLCODE Gas_ (Some ToAddr) Value ArgsOffset ArgsSize RetOffset RetSize false.
Definition evmHandleDelegateCall (Gas_ : Z) (ToAddr : list Z)
    (ArgsOffset ArgsSize RetOffset RetSize : Z) : RM HS Z :=
  evmHandleCallInternal EVMC_DELEGATECALL Gas_ (Some ToAddr) 0 ArgsOffset ArgsSize RetOffset RetSize false.
Definition evmHandleStaticCall (Gas_ : Z) (ToAddr : list Z)
    (ArgsOffset ArgsSize RetOffset RetSize : Z) : RM HS Z :=
  evmHandleCallInternal EVMC_CALL Gas_ (Some ToAddr) 0 ArgsOffset ArgsSize RetOffset RetSize true.
End Calls.

(** * Ends of an execution *)

Section Ends.
Context {HS : Type} {I : Intx} {H : EvmcHost HS} {V : Evmc}.

Definition setExe (st : evmc_status_code) (g : Z) : RM HS unit :=
  modify (fun t => set_rResult (mkResult st g (GasRefund (rInst t)) (InstReturnData (rInst t)) zero20) t).

Definition evmSetReturn (Offset Len : Z) : RM HS unit :=
  d <- expandRead Offset Len ;;
  match d with
  | None => ret tt
  | Some ReturnData_ =>
      setInstReturnData ReturnData_ ;;;
      RemainingGas <- getInst Gas ;;
      setExe EVMC_SUCCESS (i64 RemainingGas) ;;;
      exitInstance 0
  end.

Definition evmSetRevert (Offset Size : Z) : RM HS unit :=
  d <- expandRead Offset Size ;;
  match d with
  | None => ret tt
  | Some ReturnData_ =>
      onInst restoreGasRefundSnapshot ;;;
      setInstReturnData ReturnData_ ;;;
      GasLeft <- getInst Gas ;;
      setExe EVMC_REVERT (i64 GasLeft) ;;;
      exitInstance 2
  end.

Definition evmHandleInvalid : RM HS unit :=
  onInst restoreGasRefundSnapshot ;;;
  setInstReturnData [] ;;;
  setExe EVMC_INVALID_INSTRUCTION 0 ;;;
  onInst (setGas 0) ;;;
  exitInstance 4.

Definition evmHandleUndefined : RM HS unit :=
  onInst restoreGasRefundSnapshot ;;;
  setInstReturnData [] ;;;
  setExe EVMC_UNDEFINED_INSTRUCTION 0 ;;;
  onInst (setGas 0) ;;;
  exitInstance 5.

(** The end of [evmHandleSelfDestruct]: the gas left goes to the message
    below, if there is one, and ends the execution otherwise. *)
Definition releaseInstance : RM HS unit :=
  setInstReturnData [] ;;;
  Msg_ <- getCurrentMessage ;;              (* Msg->gas was written by the charges *)
  let RemainingGas := u64 (gas Msg_) in
  modify (fun t => set_rInst (popMessage (fun q => gas (rMsgs t q)) (rInst t)) t) ;;;
  parent <- getInst CurrentMessage ;;
  match parent with
  | Some p =>
      modify (fun t =>
        let g := i64 (gas (rMsgs t p) + i64 RemainingGas) in
        set_rInst (setGas g (rInst t))
          (set_rMsgs (fun q => if decide (q = p) then set_gas g (rMsgs t p) else rMsgs t q) t))
  | None =>
      onInst (setGas RemainingGas) ;;;
      setExe EVMC_SUCCESS (i64 RemainingGas) ;;;
      exitInstance 0
  end.

Definition evmHandleSelfDestruct (Beneficiary : list Z) : RM HS unit :=
  static <- instStaticMode ;;
  if static then triggerStaticModeViolation
  else
    Msg_ <- getCurrentMessage ;;
    Rev_ <- getInst Rev ;;
    let BenefAddr := loadAddressFromLE Beneficiary in
    IsCold <- isColdAccount BenefAddr ;;
    (if IsCold then charge COLD_ACCOUNT_ACCESS_COST else ret tt) ;;;
    (if rev_ge Rev_ EVMC_TANGERINE_WHISTLE then
       bal <- askHost (get_balance (recipient Msg_)) ;;
       if bool_decide (Rev_ = EVMC_TANGERINE_WHISTLE) || nonzero_bytes bal then
         ex <- askHost (account_exists BenefAddr) ;;
         if negb ex then charge ACCOUNT_CREATION_COST else ret tt
       else ret tt
     else ret tt) ;;;
    first <- doHost (selfdestruct (recipient Msg_) BenefAddr) ;;
    (if first && rev_lt Rev_ EVMC_LONDON then onInst (addGasRefund EXTRA_REFUND_BEFORE_LONDON)
     else ret tt) ;;;
    releaseInstance.
End Ends.

(** * The calls compiled code makes

    What the instructions emitted by [EVMMirBuilder] compute around a helper:
    operands are 256-bit words, of which offsets and sizes are brought to 64
    bits, and a helper that takes a pointer gets the four words of its operand
    in a scratch slot. *)

Section Emitted.
Context {HS : Type} {I : Intx} {I5 : Intx512} {H : EvmcHost HS} {V : Evmc}.

Definition fitsU64 (v : Z) : bool := (word v 1 =? 0) && (word v 2 =? 0) && (word v 3 =? 0).

(** [normalizeOperandU64] with a value for operands that do not fit, and
    without one. *)
Definition normalizeOperandU64 (v Value : Z) : Z := if fitsU64 v then word v 0 else Value.
Definition normalizeOperandU64Trap (v : Z) : RM HS Z :=
  if fitsU64 v then ret (word v 0) else trigger GasLimitExceeded.

Definition normalizeOffsetWithSize (Offset Size : Z) : RM HS (Z * Z) :=
  Size <- normalizeOperandU64Trap Size ;;
  if negb (Size =? 0) && negb (fitsU64 Offset) then trigger GasLimitExceeded
  else ret (if Size =? 0 then 0 else word Offset 0, Size).

(** [packU256Argument]: the object representation of the four words. *)
Definition packU256Argument (v : Z) : list Z :=
  le_bytes 8 (word v 0) ++ le_bytes 8 (word v 1) ++ le_bytes 8 (word v 2) ++ le_bytes 8 (word v 3).

(** [convertBytes32ToU256Operand]: four loads of eight bytes, each swapped. *)
Definition bswap (v : Z) : Z := le_value (reverse (le_bytes 8 v)).
Definition convertBytes32ToU256Operand (bs : list Z) : Z :=
  let load k := bswap (le_value (take 8 (drop k bs))) in
  of_words (load 24%nat) (load 16%nat) (load 8%nat) (load 0%nat).

Definition U64MAX : Z := UINT64_MAX.

(** Arithmetic left to the runtime: the operands are not all constants of the
    compiler, and the divisor of a signed division is none that fits 63 bits
    (those are computed by the compiler or in emitted instructions). *)
Definition jitSDiv (Dividend Divisor : Z) : Z := evmGetSDiv Dividend Divisor.
Definition jitSMod (Dividend Divisor : Z) : Z := evmGetSMod Dividend Divisor.
Definition jitMulMod (Multiplicand Multiplier Modulus : Z) : Z := evmGetMulMod Multiplicand Multiplier Modulus.
Definition jitClz (Value : Z) : Z := evmGetClz Value.

Definition jitBalance (Address : Z) : RM HS Z := evmGetBalance (packU256Argument Address).
Definition jitCallDataLoad (Offset : Z) : RM HS Z :=
  r <- evmGetCallDataLoad (normalizeOperandU64 Offset U64MAX) ;; ret (convertBytes32ToU256Operand r).
Definition jitExtCodeSize (Address : Z) : RM HS Z := evmGetExtCodeSize (packU256Argument Address).
Definition jitExtCodeHash (Address : Z) : RM HS Z := evmGetExtCodeHash (packU256Argument Address).
(** The low word is passed as an [int64_t]. *)
Definition jitBlockHash (BlockNumber : Z) : RM HS Z :=
  r <- evmGetBlockHash (i64 (normalizeOperandU64 BlockNumber U64MAX)) ;;
  ret (convertBytes32ToU256Operand r).
Definition jitBlobHash (Index : Z) : RM HS Z :=
  r <- evmGetBlobHash (normalizeOperandU64 Index U64MAX) ;; ret (convertBytes32ToU256Operand r).

(** A query that returns a pointer to 32 bytes. *)
Definition asWord (m : RM HS (list Z)) : RM HS Z := r <- m ;; ret (convertBytes32ToU256Operand r).

Definition jitOrigin : RM HS Z := asWord evmGetOrigin.
Definition jitGasPrice : RM HS Z := evmGetGasPrice.
Definition jitCoinBase : RM HS Z := asWord evmGetCoinBase.
Definition jitTimestamp : RM HS Z := evmGetTimestamp.
Definition jitNumber : RM HS Z := evmGetNumber.
Definition jitPrevRandao : RM HS Z := asWord evmGetPrevRandao.
Definition jitGasLimit : RM HS Z := evmGetGasLimit.
Definition jitChainId : RM HS Z := asWord evmGetChainId.
Definition jitSelfBalance : RM HS Z := evmGetSelfBalance.
Definition jitBaseFee : RM HS Z := evmGetBaseFee.
Definition jitBlobBaseFee : RM HS Z := evmGetBlobBaseFee.

Definition jitSLoad (Key : Z) : RM HS Z := evmGetSLoad Key.
Definition jitSStore (Key Value : Z) : RM HS unit := evmSetSStore Key Value.
Definition jitTLoad (Index : Z) : RM HS Z := evmGetTLoad Index.
Definition jitTStore (Index Value : Z) : RM HS unit := evmSetTStore Index Value.

Definition jitCallDataCopy (DestOffset Offset Size : Z) : RM HS unit :=
  evmSetCallDataCopy (normalizeOperandU64 DestOffset U64MAX) (normalizeOperandU64 Offset U64MAX)
    (normalizeOperandU64 Size U64MAX).
Definition jitCodeCopy (DestOffset Offset Size : Z) : RM HS unit :=
  x <- normalizeOffsetWithSize DestOffset Size ;;
  evmSetCodeCopy x.1 (normalizeOperandU64 Offset U64MAX) x.2.
Definition jitExtCodeCopy (Address DestOffset Offset Size : Z) : RM HS unit :=
  evmSetExtCodeCopy (packU256Argument Address) (normalizeOperandU64 DestOffset U64MAX)
    (normalizeOperandU64 Offset U64MAX) (normalizeOperandU64 Size U64MAX).
Definition jitReturnDataCopy (DestOffset Offset Size : Z) : RM HS unit :=
  evmSetReturnDataCopy (normalizeOperandU64 DestOffset U64MAX) (normalizeOperandU64 Offset U64MAX)
    (normalizeOperandU64 Size U64MAX).
(** The pointer is read unconditionally. *)
Definition jitKeccak256 (Offset Length : Z) : RM HS Z :=
  x <- normalizeOffsetWithSize Offset Length ;;
  r <- evmGetKeccak256 x.1 x.2 ;;
  match r with Some bs => ret (convertBytes32ToU256Operand bs) | None => undef end.
Definition jitLog (Offset Size : Z) (Topics : list Z) : RM HS unit :=
  x <- normalizeOffsetWithSize Offset Size ;;
  match map packU256Argument Topics with
  | [] => evmEmitLog0 x.1 x.2
  | [t1] => evmEmitLog1 x.1 x.2 t1
  | [t1; t2] => evmEmitLog2 x.1 x.2 t1 t2
  | [t1; t2; t3] => evmEmitLog3 x.1 x.2 t1 t2 t3
  | [t1; t2; t3; t4] => evmEmitLog4 x.1 x.2 t1 t2 t3 t4
  | _ => undef                             (* ZEN_STATIC_ASSERT(NumTopics <= 4) *)
  end.

Definition jitCreate (Value Offset Size : Z) : RM HS Z :=
  x <- normalizeOffsetWithSize Offset Size ;;
  r <- evmHandleCreate Value x.1 x.2 ;; ret (convertBytes32ToU256Operand r).
Definition jitCreate2 (Value Offset Size Salt : Z) : RM HS Z :=
  x <- normalizeOffsetWithSize Offset Size ;;
  r <- evmHandleCreate2 Value x.1 x.2 (packU256Argument Salt) ;; ret (convertBytes32ToU256Operand r).

Definition jitCall (Gas_ ToAddr Value ArgsOffset ArgsSize RetOffset RetSize : Z) : RM HS Z :=
  a <- normalizeOffsetWithSize ArgsOffset ArgsSize ;;
  r <- normalizeOffsetWithSize RetOffset RetSize ;;
  evmHandleCall (normalizeOperandU64 Gas_ U64MAX) (packU256Argument ToAddr) Value a.1 a.2 r.1 r.2.
Definition jitCallCode (Gas_ ToAddr Value ArgsOffset ArgsSize RetOffset RetSize : Z) : RM HS Z :=
  a <- normalizeOffsetWithSize ArgsOffset ArgsSize ;;
  r <- normalizeOffsetWithSize RetOffset RetSize ;;
  evmHandleCallCode (normalizeOperandU64 Gas_ U64MAX) (packU256Argument ToAddr) Value a.1 a.2 r.1 r.2.
Definition jitDelegateCall (Gas_ ToAddr ArgsOffset ArgsSize RetOffset RetSize : Z) : RM HS Z :=
  a <- normalizeOffsetWithSize ArgsOffset ArgsSize ;;
  r <- normalizeOffsetWithSize RetOffset RetSize ;;
  evmHandleDelegateCall (normalizeOperandU64 Gas_ U64MAX) (packU256Argument ToAddr) a.1 a.2 r.1 r.2.
Definition jitStaticCall (Gas_ ToAddr ArgsOffset ArgsSize RetOffset RetSize : Z) : RM HS Z :=
  a <- normalizeOffsetWithSize ArgsOffset ArgsSize ;;
  r <- normalizeOffsetWithSize RetOffset RetSize ;;
  evmHandleStaticCall (normalizeOperandU64 Gas_ U64MAX) (packU256Argument ToAddr) a.1 a.2 r.1 r.2.

Definition jitReturn (Offset Length : Z) : RM HS unit :=
  evmSetReturn (normalizeOperandU64 Offset U64MAX) (normalizeOperandU64 Length U64MAX).
Definition jitRevert (Offset Size : Z) : RM HS unit :=
  evmSetRevert (normalizeOperandU64 Offset U64MAX) (normalizeOperandU64 Size U64MAX).
Definition jitSelfDestruct (Beneficiary : Z) : RM HS unit :=
  evmHandleSelfDestruct (packU256Argument Beneficiary).
End Emitted.

(** [MapErrToStatus] of [Runtime::callEVMInJITMode], on the error codes of the
    model. *)
Definition MapErrToStatus (Err : ErrorCode) : evmc_status_code :=
  match Err with
  | EVMStackOverflow => EVMC_STACK_OVERFLOW
  | EVMStackUnderflow => EVMC_STACK_UNDERFLOW
  | GasLimitExceeded => EVMC_OUT_OF_GAS
  | OutOfBoundsMemory => EVMC_INVALID_MEMORY_ACCESS
  | EVMInvalidInstruction => EVMC_INVALID_INSTRUCTION
  | EVMStaticModeViolation => EVMC_STATIC_MODE_VIOLATION
  | EVMFrameNotFound | InstanceExit => EVMC_FAILURE
  end.
