(* ===== verification/EvmImportedSim.v ===== *)
(** The simulation between compiled code and the interpreter.

    [sim] relates a state of the runtime helpers to a state of an interpreter
    frame: same operands, memory, gas, message, return data, refund and host,
    with caches that tell the truth.  [rwp] is a relational weakest
    precondition: two bodies fall through together, or the compiled code
    traps where the interpreter stops its frame with the corresponding
    status.  The [rwp_*] lemmas are the rules of the building blocks. *)

From stdpp Require Import gmap.
From S2P Require Import Prelude Intx Evmc GasStorageCost EvmInstance Frame HandlerUtil.
From S2P Require Import HandlersArith HandlersEnv HandlersCall Interpreter WellFormed Concrete HandlerSafety View.
From S2P Require Import AluSpecs MemorySpecs CallSpecs InstanceSpecs EvmImported.

#[local] Open Scope Z_scope.

(** The transaction context does not change during a transaction. *)
Class TxConstant (HS : Type) (H : EvmcHost HS) : Prop := {
  tx_set_storage a k v h : get_tx_context (set_storage a k v h).2 = get_tx_context h;
  tx_selfdestruct a b h : get_tx_context (selfdestruct a b h).2 = get_tx_context h;
  tx_call m h : get_tx_context (host_call m h).2 = get_tx_context h;
  tx_log a d ts h : get_tx_context (emit_log a d ts h) = get_tx_context h;
  tx_account a h : get_tx_context (access_account a h).2 = get_tx_context h;
  tx_storage a k h : get_tx_context (access_storage a k h).2 = get_tx_context h;
  tx_transient a k v h : get_tx_context (set_transient_storage a k v h) = get_tx_context h;
}.

#[export] Instance null_host_tx : TxConstant null_host null_host_ops.
Proof. by split. Qed.

(** * The hash cache *)

(** Every entry in use is the hash of its input. *)
Record entry_ok `{Evmc} (e : KeccakCacheEntry) : Prop := {
  en_len : 0 <= InputLen e <= KeccakCacheMaxInputLen;
  en_hash : KResult e = keccak256 (take (Z.to_nat (InputLen e)) (Input e));
}.
Definition keccak_ok `{Evmc} (C : KeccakCache) : Prop :=
  Forall (fun e => Valid e = true -> entry_ok e) (Slots C).

Lemma find_slot_sound `{Evmc} l Data Len R :
  Forall (fun e => Valid e = true -> entry_ok e) l -> Z.of_nat (length Data) = Len ->
  find_slot Data Len l = Some R -> R = keccak256 Data.
Proof.
  intros Hl <-. induction Hl as [|e l He _ IH]; cbn [find_slot]; [done|].
  destruct (Valid e) eqn:Ev; [|done]. destruct (Z.eqb_spec (InputLen e) (Z.of_nat (length Data))) as [El|]; [|done].
  unfold memeq. case_bool_decide as Em; [|done]. cbn [andb]. intros [= <-].
  destruct (He eq_refl) as [_ Eh]. rewrite Eh, El, Em. f_equal. apply take_ge. lia.
Qed.

Lemma insert_keccak_ok `{Evmc} C Data Len :
  keccak_ok C -> Z.of_nat (length Data) = Len -> keccak_ok (insert_keccak C Data Len (keccak256 Data)).
Proof.
  intros HC Hlen. unfold insert_keccak, keccak_ok in *.
  destruct (Z.ltb_spec KeccakCacheMaxInputLen Len); [done|]. cbn [Slots].
  apply Forall_insert; [done|]. intros _. split; cbn [InputLen KResult Input]; [lia|].
  f_equal. rewrite (take_ge Data) by lia. rewrite take_app_le by lia. by rewrite take_ge by lia.
Qed.

Lemma empty_keccak_ok `{Evmc} : keccak_ok empty_keccak.
Proof. by apply Forall_replicate. Qed.

(** * The relation *)

(** The hash a blob index stands for. *)
Definition blob_hash_at (x : evmc_tx_context) (i : Z) : list Z :=
  if Z.of_nat (length (blob_hashes x)) <=? i then zero32
  else default zero32 (blob_hashes x !! Z.to_nat i).

(** Compiled code refuses sizes and offsets that do not fit 64 bits before it
    looks at the mode of the frame, the handlers of LOG, CALL and CREATE look
    at the mode first.  [static_late] says whether a comparison admits that
    difference; where it is [false] statuses correspond one to one. *)
Class Tolerance := static_late : bool.

(** A range compiled code refuses at once. *)
Definition oversized (o n : Z) : bool := (2 ^ 64 <=? n) || negb (n =? 0) && (2 ^ 64 <=? o).

Section Sim.
Context {HS : Type} {I : Intx} {H : EvmcHost HS} {V : Evmc} {TO : Tolerance}.
Implicit Types (t : RtState HS) (s : hstate HS) (c : Context_ HS) (r : EVMFrame) (l : list Z).

Record caches_ok (x : evmc_tx_context) (m : evmc_message) t : Prop := {
  ca_tx : TxContextCached (rCache t) = true -> TxContext (rCache t) = x;
  ca_blobs i b : BlobHashes (rCache t) !! i = Some b -> b = blob_hash_at x i;
  ca_loads p o b : CurrentMessage (rInst t) = Some p ->
    CalldataLoads (rCache t) !! (p, o) = Some b -> b = slice (input_data m) o 32;
  ca_keccak : keccak_ok (rKeccak t);
}.

(** What is up to date: the gas field of the message, which compiled code that
    keeps gas in a register writes before calls and creations only; the return
    data of the instance, which the interpreter clears at the beginning of a
    call and compiled code at its end. *)
Record mode : Type := mkMode { synced : bool; returned : bool }.

(** The same without return data. *)
Definition mute (sync : mode) : mode := mkMode (synced sync) false.

(** What does not change with operands, memory and gas. *)
Record matches (sync : mode) r c t : Prop := {
  ma_inst : inst_ok (rInst t);
  ma_base : 0 < MemorySize (rInst t) -> MemoryBase (rInst t) = true;
  ma_top : head (MessageStack (rInst t)) = Some (CurrentMessage (rInst t));
  ma_msg p : CurrentMessage (rInst t) = Some p -> set_gas 0 (rMsgs t p) = Msg r;
  ma_sync p : synced sync = true -> CurrentMessage (rInst t) = Some p -> gas (rMsgs t p) = Gas (rInst t);
  ma_snapshot : head (GasRefundStack (rInst t)) = Some (u64 (GasRefundSnapshot r));
  ma_snapshot_range : - 2 ^ 63 <= GasRefundSnapshot r < 2 ^ 63;
  ma_rev : Rev (rInst t) = Rev (Inst c);
  ma_code : ModCode (rInst t) = ModCode (Inst c);
  ma_return : returned sync = true -> InstReturnData (rInst t) = ReturnData c;
  ma_refund : GasRefund (rInst t) = GasRefund (Inst c);
  ma_host : rHost t = hst c;
  ma_status : Status c = EVMC_SUCCESS;
  ma_wf : wf_ctx c;
  ma_tx : block_timestamp (MTx r) = 0 \/ MTx r = get_tx_context (hst c);
  ma_caches : caches_ok (get_tx_context (hst c)) (Msg r) t;
}.

Record sim (sync : mode) r c l t s : Prop := {
  si_view : view r l (Instance_.visible (rInst t)) (Gas (rInst t)) c s;
  si_matches : matches sync r c t;
}.

(** * The logic *)

(** A trap and the status of the frame it corresponds to. *)
Definition fails (e : ErrorCode) (st : evmc_status_code) : Prop :=
  st = MapErrToStatus e \/
  (static_late = true /\ e = GasLimitExceeded /\ st = EVMC_STATIC_MODE_VIOLATION).

(** A trap takes all gas and the refund of the frame. *)
Record trapped (e : ErrorCode) (snap : Z) t s : Prop := {
  tr_status : fails e (Status (cx s));
  tr_gas : Gas (rInst t) = 0;
  tr_refund : GasRefund (rInst t) = snap;
  tr_error : rErr t = Some e;
}.

Definition rwp {A B} (snap : Z) (jm : RM HS A) (hm : HM HS B) (Q : A -> B -> RtState HS -> hstate HS -> Prop)
    (R : A -> RtState HS -> hstate HS -> Prop) t s : Prop :=
  match jm t with
  | Ret a t' => match hm s with Ret b s' => Q a b t' s' | Exit s' => R a t' s' | _ => False end
  | Throw e t' => match hm s with Exit s' => trapped e snap t' s' | _ => False end
  | _ => False
  end.

(** No early return on the interpreter's side. *)
Definition noexit {A} : A -> RtState HS -> hstate HS -> Prop := fun _ _ _ => False.

Lemma rwp_ret {A B} snap (a : A) (b : B) Q R t s : Q a b t s -> rwp snap (ret a) (ret b) Q R t s.
Proof. done. Qed.

Lemma rwp_bind {A A' B B'} snap (jm : RM HS A) (k : A -> RM HS A') (hm : HM HS B) (h : B -> HM HS B') Q R t s :
  rwp snap jm hm (fun a b => rwp snap (k a) (h b) Q R) noexit t s -> rwp snap (bind jm k) (bind hm h) Q R t s.
Proof.
  unfold rwp, bind. destruct (jm t) as [a t'| |e t'|]; [|done| |done]; by destruct (hm s).
Qed.

(** The same where the handler may return early in its first part. *)
Lemma rwp_bind_exit {A A' B B'} snap (jm : RM HS A) (k : A -> RM HS A') (hm : HM HS B) (h : B -> HM HS B') Q
    (R : A' -> RtState HS -> hstate HS -> Prop) t s :
  rwp snap jm hm (fun a b => rwp snap (k a) (h b) Q R)
    (fun a t' s' => match k a t' with Ret a' t'' => R a' t'' s' | _ => False end) t s ->
  rwp snap (bind jm k) (bind hm h) Q R t s.
Proof.
  unfold rwp, bind. destruct (jm t) as [a t'| |e t'|]; [|done| |done]; destruct (hm s) as [b s'|s'| |]; try done.
  by destruct (k a t').
Qed.

(** A step of the helper alone, of the handler alone. *)
Lemma rwp_left {A A' B} snap (jm : RM HS A) (k : A -> RM HS A') (hm : HM HS B) Q R t s a t' :
  jm t = Ret a t' -> rwp snap (k a) hm Q R t' s -> rwp snap (bind jm k) hm Q R t s.
Proof. unfold rwp, bind. by intros ->. Qed.

Lemma rwp_right {A B B'} snap (jm : RM HS A) (hm : HM HS B) (h : B -> HM HS B') Q R t s :
  wp hm (fun b s' => rwp snap jm (h b) Q R t s') (fun _ => False) s -> rwp snap jm (bind hm h) Q R t s.
Proof.
  unfold rwp, wp, bind. destruct (hm s) as [b s'| | |]; done.
Qed.

Lemma rwp_assoc {A B B' B''} snap (jm : RM HS A) (m : HM HS B) (f : B -> HM HS B') (h : B' -> HM HS B'') Q R t s :
  rwp snap jm (x <- m ;; y <- f x ;; h y) Q R t s -> rwp snap jm (bind (bind m f) h) Q R t s.
Proof. unfold rwp, bind. by destruct (m s). Qed.

Lemma rwp_assoc_l {A A' A'' B} snap (m : RM HS A) (f : A -> RM HS A') (h : A' -> RM HS A'') (hm : HM HS B) Q R t s :
  rwp snap (x <- m ;; y <- f x ;; h y) hm Q R t s -> rwp snap (bind (bind m f) h) hm Q R t s.
Proof. unfold rwp, bind. by destruct (m t). Qed.

(** The handler returns early. *)
Lemma rwp_exit {A B} snap (jm : RM HS A) (hm : HM HS B) Q R t s a t' :
  jm t = Ret a t' -> wp hm (fun _ _ => False) (fun s' => R a t' s') s -> rwp snap jm hm Q R t s.
Proof. unfold rwp, wp. intros ->. by destruct (hm s). Qed.

(** The helper traps. *)
Lemma rwp_trap {A B} snap (jm : RM HS A) (hm : HM HS B) Q R t s e t' :
  jm t = Throw e t' -> wp hm (fun _ _ => False) (trapped e snap t') s -> rwp snap jm hm Q R t s.
Proof. unfold rwp, wp. intros ->. by destruct (hm s). Qed.

Lemma rwp_mono {A B} snap (jm : RM HS A) (hm : HM HS B) (Q Q' : A -> B -> RtState HS -> hstate HS -> Prop) (R R' : A -> RtState HS -> hstate HS -> Prop) t s :
  (forall a b t' s', Q a b t' s' -> Q' a b t' s') -> (forall a t' s', R a t' s' -> R' a t' s') ->
  rwp snap jm hm Q R t s -> rwp snap jm hm Q' R' t s.
Proof. unfold rwp. intros HQ HR. destruct (jm t); destruct (hm s); auto. Qed.

(** The same message, and the same refund to restore. *)
Definition same_frame r r' : Prop := Msg r' = Msg r /\ GasRefundSnapshot r' = GasRefundSnapshot r.

Lemma same_frame_refl r : same_frame r r.
Proof. done. Qed.

(** ** Agreement of an operation with a handler

    [res] gives the operands the operation leaves on top of [l]. *)
Definition agrees {A} (jm : RM HS A) (hm : HM HS unit) (res : A -> list Z) sync r l t s : Prop :=
  match jm t with
  | Ret a t' => exists s' r' c', call hm s = Ret tt s' /\ sim sync r' c' (res a ++ l) t' s' /\ same_frame r r'
  | Throw e t' => exists s', call hm s = Ret tt s' /\ trapped e (GasRefundSnapshot r) t' s'
  | _ => False
  end.

Definition done_with {A} (res : A -> list Z) sync r l : A -> RtState HS -> hstate HS -> Prop :=
  fun a t s => exists r' c', sim sync r' c' (res a ++ l) t s /\ same_frame r r'.

Lemma agrees_rwp {A} (jm : RM HS A) hm res sync r l t s :
  rwp (GasRefundSnapshot r) jm hm (fun a _ => done_with res sync r l a) (done_with res sync r l) t s ->
  agrees jm hm res sync r l t s.
Proof.
  unfold rwp, agrees, call, done_with. destruct (jm t) as [a t'| |e t'|]; [|done| |done].
  - destruct (hm s) as [[] s'|s'| |]; try done; intros (r' & c' & ? & ?); by exists s', r', c'.
  - destruct (hm s) as [[] s'|s'| |]; try done. by exists s'.
Qed.
End Sim.

Arguments noexit {HS A} _ _ _ /.

(** * Rules *)

Section Rules.
Context {HS : Type} {I : Intx} {H : EvmcHost HS} {V : Evmc} {TO : Tolerance}.
Implicit Types (t : RtState HS) (s : hstate HS) (c : Context_ HS) (r : EVMFrame) (l : list Z).

Lemma sim_vars sync r c l t s :
  sim sync r c l t s ->
  exists p, CurrentMessage (rInst t) = Some p /\ set_gas 0 (rMsgs t p) = Msg r.
Proof.
  intros [_ []]. destruct (io_message _ ma_inst0) as [p Hp]. exists p. auto.
Qed.

Lemma sim_sp sync r c l t s : sim sync r c l t s -> Sp (fr s) = length l.
Proof. intros [Hv _]. by eapply view_sp. Qed.

(** The relation depends on the frame through its view. *)
Lemma sim_view sync r c l l' t s s' :
  sim sync r c l t s -> view r l' (Instance_.visible (rInst t)) (Gas (rInst t)) c s' -> sim sync r c l' t s'.
Proof. by intros [_ Hm] Hv. Qed.

(** *** Operands *)

Lemma rwp_check {A B} snap sync r c l t s N (jm : RM HS A) (h : unit -> HM HS B) Q R :
  sim sync r c l t s -> (N <= length l)%nat -> rwp snap jm (h tt) Q R t s ->
  rwp snap jm (bind (EVM_STACK_CHECK N) h) Q R t s.
Proof. intros [Hv _] Hl Hk. apply rwp_right. by eapply vp_check. Qed.

Lemma rwp_pop {A B} snap sync r c x l t s (jm : RM HS A) (h : Z -> HM HS B) Q R :
  sim sync r c (x :: l) t s -> (is_u256 x -> forall s', sim sync r c l t s' -> rwp snap jm (h x) Q R t s') ->
  rwp snap jm (bind pop h) Q R t s.
Proof.
  intros Hs Hk. apply rwp_right. eapply vp_pop; [apply Hs|]. intros Hx s' Hv'.
  apply Hk; [done|]. by eapply sim_view.
Qed.

Lemma wp_require_room sync r c l t s (Q : unit -> hstate HS -> Prop) R :
  sim sync r c l t s -> (length l < 1024)%nat -> Q tt s -> wp (EVM_REQUIRE_STACK_SPACE 1) Q R s.
Proof.
  intros Hs Hl HQ. unfold EVM_REQUIRE_STACK_SPACE. apply wp_bind, wp_getFrame.
  rewrite (sim_sp _ _ _ _ _ _ Hs). by rewrite (proj2 (Nat.ltb_ge _ _)) by lia.
Qed.

Lemma rwp_room {A B} snap sync r c l t s (jm : RM HS A) (h : unit -> HM HS B) Q R :
  sim sync r c l t s -> (length l < 1024)%nat -> rwp snap jm (h tt) Q R t s ->
  rwp snap jm (bind (EVM_REQUIRE_STACK_SPACE 1) h) Q R t s.
Proof. intros. apply rwp_right. by eapply wp_require_room. Qed.

Lemma rwp_push {A B} snap sync r c l t s v (jm : RM HS A) (h : unit -> HM HS B) Q R :
  sim sync r c l t s -> (length l < 1024)%nat -> is_u256 v ->
  (forall s', sim sync r c (v :: l) t s' -> rwp snap jm (h tt) Q R t s') ->
  rwp snap jm (bind (push v) h) Q R t s.
Proof.
  intros Hs Hl Hv Hk. apply rwp_right. eapply vp_push; [apply Hs|done..|]. intros s' Hv'.
  apply Hk. by eapply sim_view.
Qed.

(** The end of an operation: the helper returns a value the handler pushes. *)
Lemma rwp_push_ret {A} sync r0 r c l t s v (a : A) (res : A -> list Z) :
  sim sync r c l t s -> same_frame r0 r -> (length l < 1024)%nat -> is_u256 v -> res a = [v] ->
  rwp (GasRefundSnapshot r0) (ret a) (push v) (fun a _ => done_with res sync r0 l a) (done_with res sync r0 l) t s.
Proof.
  intros Hs Em Hl Hv Er. assert (wp (push v) (fun _ s' => sim sync r c (v :: l) t s') (fun _ => False) s) as Hw.
  { eapply vp_push; [apply Hs|done..|]. intros s' Hv'. by eapply sim_view. }
  unfold rwp, wp, ret in *. destruct (push v s); try done. unfold done_with. exists r, c. by rewrite Er.
Qed.

Lemma done_here {A} sync r0 r c l t s (a : A) (res : A -> list Z) :
  sim sync r c l t s -> same_frame r0 r -> res a = [] -> done_with res sync r0 l a t s.
Proof. intros Hs Em Er. unfold done_with. exists r, c. by rewrite Er. Qed.

(** *** Reads *)

Lemma rwp_getFrame {A B C} snap sync r c l t s (f : EVMFrame -> C) v (jm : RM HS A) (h : C -> HM HS B) Q R :
  sim sync r c l t s -> f (fr s) = v -> rwp snap jm (h v) Q R t s -> rwp snap jm (bind (getFrame f) h) Q R t s.
Proof. intros _ <- Hk. exact Hk. Qed.

Lemma sim_frame_msg sync r c l t s : sim sync r c l t s -> set_gas 0 (Msg (fr s)) = Msg r.
Proof. intros [Hv _]. by eapply view_msg. Qed.

Lemma msg_field {X} (f : evmc_message -> X) m m' :
  (forall x, f (set_gas 0 x) = f x) -> set_gas 0 m = m' -> f m = f m'.
Proof. intros Hf <-. by rewrite Hf. Qed.

Lemma rwp_getCtx {A B C} snap sync r c l t s (f : Context_ HS -> C) (jm : RM HS A) (h : C -> HM HS B) Q R :
  sim sync r c l t s -> rwp snap jm (h (f c)) Q R t s -> rwp snap jm (bind (getCtx f) h) Q R t s.
Proof. intros [[_ _ _ _ _ <-] _] Hk. exact Hk. Qed.

Lemma rwp_getInst {A B C} snap (f : EVMInstance -> C) (k : C -> RM HS A) (hm : HM HS B) Q R t s :
  rwp snap (k (f (rInst t))) hm Q R t s -> rwp snap (bind (getInst f) k) hm Q R t s.
Proof. done. Qed.

Lemma rwp_gets {A B C} snap (f : RtState HS -> C) (k : C -> RM HS A) (hm : HM HS B) Q R t s :
  rwp snap (k (f t)) hm Q R t s -> rwp snap (bind (gets f) k) hm Q R t s.
Proof. done. Qed.

Lemma rwp_message {A B} snap sync r c l t s (k : evmc_message -> RM HS A) (hm : HM HS B) Q R :
  sim sync r c l t s ->
  (forall m, set_gas 0 m = Msg r -> (synced sync = true -> gas m = Gas (rInst t)) -> rwp snap (k m) hm Q R t s) ->
  rwp snap (bind getCurrentMessage k) hm Q R t s.
Proof.
  intros Hs Hk. destruct (sim_vars _ _ _ _ _ _ Hs) as (p & Hp & Em).
  apply (rwp_left _ _ _ _ _ _ _ _ (rMsgs t p) t).
  - unfold getCurrentMessage, bind, getInst, gets. by rewrite Hp.
  - apply Hk; [done|]. intros E. destruct Hs as [_ []]. auto.
Qed.

Lemma rwp_askHost {A B C} snap sync r c l t s (f : HS -> C) (k : C -> RM HS A) (hm : HM HS B) Q R :
  sim sync r c l t s -> rwp snap (k (f (hst c))) hm Q R t s -> rwp snap (bind (askHost f) k) hm Q R t s.
Proof. intros [_ []] Hk. unfold rwp, bind, askHost, gets in *. by rewrite ma_host0. Qed.

Lemma rwp_hostRead {A B C} snap sync r c l t s (f : HS -> C) (jm : RM HS A) (h : C -> HM HS B) Q R :
  sim sync r c l t s -> rwp snap jm (h (f (hst c))) Q R t s -> rwp snap jm (bind (hostRead f) h) Q R t s.
Proof. apply (rwp_getCtx _ _ _ _ _ _ _ (fun c => f (hst c))). Qed.

Lemma rwp_static {A B} snap sync r c l t s (k : bool -> RM HS A) (hm : HM HS B) Q R :
  sim sync r c l t s -> rwp snap (k (is_static r)) hm Q R t s -> rwp snap (bind instStaticMode k) hm Q R t s.
Proof.
  intros Hs Hk. destruct (sim_vars _ _ _ _ _ _ Hs) as (p & Hp & Em).
  apply (rwp_left _ _ _ _ _ _ _ _ (is_static r) t); [|done].
  unfold instStaticMode, getCurrentMessage, bind, getInst, gets. rewrite Hp. cbn.
  unfold is_static. by rewrite (msg_field flags (rMsgs t p) (Msg r)).
Qed.

Lemma rwp_isStatic {A B} snap sync r c l t s (jm : RM HS A) (h : bool -> HM HS B) Q R :
  sim sync r c l t s -> rwp snap jm (h (is_static r)) Q R t s -> rwp snap jm (bind isStaticMode h) Q R t s.
Proof. intros [Hv _] Hk. apply rwp_right. by eapply vp_isStatic. Qed.

(** *** The relation after an update of the instance *)

(** An instance that differs in gas and memory only. *)
Record same_but (i i' : EVMInstance) : Prop := {
  sb_code : ModCode i' = ModCode i;
  sb_refund : GasRefund i' = GasRefund i;
  sb_rev : Rev i' = Rev i;
  sb_current : CurrentMessage i' = CurrentMessage i;
  sb_stack : MessageStack i' = MessageStack i;
  sb_refunds : GasRefundStack i' = GasRefundStack i;
  sb_return : InstReturnData i' = InstReturnData i;
}.

Lemma same_but_refl i : same_but i i.
Proof. by split. Qed.

Lemma matches_step sync r c t i mg :
  matches sync r c t -> same_but (rInst t) i -> inst_ok i -> (0 < MemorySize i -> MemoryBase i = true) ->
  (forall p, synced sync = true -> CurrentMessage i = Some p -> mg p = Gas i) ->
  matches sync r c (putInst (mkIS i mg) t).
Proof.
  intros [] [] Hi Hb Hg. split; cbn [putInst set_rMsgs set_rInst rInst rMsgs rHost inst mgas]; try congruence; auto.
  - rewrite sb_current0. intros p Hp. destruct (ma_msg0 p Hp). done.
  - rewrite sb_return0. auto.
  - destruct ma_caches0. split; cbn [putInst set_rMsgs set_rInst rInst rCache rKeccak inst]; auto.
    rewrite sb_current0. auto.
Qed.

Lemma restore_snapshot r i :
  head (GasRefundStack i) = Some (u64 (GasRefundSnapshot r)) ->
  - 2 ^ 63 <= GasRefundSnapshot r < 2 ^ 63 ->
  GasRefund (restoreGasRefundSnapshot i) = GasRefundSnapshot r /\
  Gas (restoreGasRefundSnapshot i) = Gas i.
Proof.
  intros Hh Hr. unfold restoreGasRefundSnapshot. destruct (GasRefundStack i) as [|x l]; [done|].
  cbn in Hh. injection Hh as ->. cbn. split; [|done].
  unfold swrap, wrap. rewrite Zplus_mod_idemp_l. fold (i64 (GasRefundSnapshot r)). by apply i64_small.
Qed.

Lemma lift_throw {A} (m : IM A) t e i0 :
  m (viewInst t) = Throw e i0 -> lift m t = Throw e (setExecutionError e (putInst i0 t)).
Proof. unfold lift. by intros ->. Qed.

(** A trap for lack of gas. *)
Lemma gas_trapped sync r c l t s s' st :
  sim sync r c l t s -> fails GasLimitExceeded st -> cx s' = set_Status st c ->
  trapped GasLimitExceeded (GasRefundSnapshot r) (setExecutionError GasLimitExceeded t) s'.
Proof.
  intros [_ []] Hf Hc. destruct (restore_snapshot r (rInst t)) as [E _]; [done..|].
  split; cbn; [by rewrite Hc|done|done|done].
Qed.

(** *** Gas *)

Lemma sim_gas sync r c l t s : sim sync r c l t s -> 0 <= Gas (rInst t) < 2 ^ 63.
Proof. intros [_ []]. by destruct ma_inst0. Qed.

(** Writing the gas fields back changes nothing. *)
Lemma sim_same sync r c l t s : sim sync r c l t s -> sim sync r c l (putInst (viewInst t) t) s.
Proof.
  intros Hs. destruct (Hs) as [Hv Hm]. split; [done|]. unfold viewInst. destruct (Hm).
  apply matches_step; auto using same_but_refl.
Qed.

(** [chargeGas] on an instance with a message. *)
Lemma instance_charge_run i mg p k :
  CurrentMessage i = Some p -> 0 <= Gas i < 2 ^ 63 -> 0 <= k ->
  Instance_.chargeGas k (mkIS i mg) =
  if Gas i <? k then Throw GasLimitExceeded (mkIS i mg)
  else Ret tt (mkIS (set_Gas (Gas i - k) i) (set_mgas p (Gas i - k) mg)).
Proof.
  intros Hp Hg Hk. unfold Instance_.chargeGas, bind, gets. cbn [inst]. rewrite Hp. cbv beta iota. cbn [inst].
  destruct (Z.ltb_spec (Gas i) k); [done|]. unfold modify, setGas. cbn [inst mgas].
  by rewrite u64_small, i64_small by lia.
Qed.

Lemma instance_chargeAll_run i mg p :
  CurrentMessage i = Some p -> 0 <= Gas i < 2 ^ 63 ->
  Instance_.chargeAll (mkIS i mg) = Throw GasLimitExceeded (mkIS i mg).
Proof.
  intros Hp Hg. unfold Instance_.chargeAll, bind, gets. cbn [inst]. rewrite u64_small by lia.
  rewrite (instance_charge_run _ _ p) by (done || lia). by rewrite (proj2 (Z.ltb_lt _ _)) by lia.
Qed.

Lemma sim_charged sync r c l t s s' k p :
  sim sync r c l t s -> CurrentMessage (rInst t) = Some p -> 0 <= k <= Gas (rInst t) ->
  view r l (Instance_.visible (rInst t)) (Gas (rInst t) - k) c s' ->
  sim sync r c l (putInst (mkIS (set_Gas (Gas (rInst t) - k) (rInst t))
                     (set_mgas p (Gas (rInst t) - k) (fun x => gas (rMsgs t x)))) t) s'.
Proof.
  intros Hs Hp Hk Hv. pose proof (sim_gas _ _ _ _ _ _ Hs) as Hg. destruct Hs as [_ Hm].
  split; [done|]. destruct (Hm). apply matches_step; auto.
  - by split.
  - apply set_Gas_ok; [done|lia].
  - intros q _ Hq. cbn in Hq. rewrite Hp in Hq. injection Hq as <-. unfold set_mgas. by rewrite decide_True.
Qed.

(** A charge, and what the interpreter does for the same amount. *)
Lemma rwp_charge_gen {B} sync r c l t s k (hm : HM HS B) (Q : unit -> B -> RtState HS -> hstate HS -> Prop) R :
  sim sync r c l t s -> 0 <= k ->
  (Gas (rInst t) < k -> wp hm (fun _ _ => False) (fun s' => cx s' = set_Status EVMC_OUT_OF_GAS c) s) ->
  (k <= Gas (rInst t) ->
   wp hm (fun b s' => view r l (Instance_.visible (rInst t)) (Gas (rInst t) - k) c s' /\
            forall t', sim sync r c l t' s' ->
              Instance_.visible (rInst t') = Instance_.visible (rInst t) ->
              Gas (rInst t') = Gas (rInst t) - k -> Q tt b t' s') (fun _ => False) s) ->
  rwp (GasRefundSnapshot r) (charge k) hm Q R t s.
Proof.
  intros Hs Hk Hlow Hok. destruct (sim_vars _ _ _ _ _ _ Hs) as (p & Hp & _).
  pose proof (sim_gas _ _ _ _ _ _ Hs) as Hg.
  pose proof (instance_charge_run (rInst t) (fun x => gas (rMsgs t x)) p k Hp Hg Hk) as E.
  destruct (Z.ltb_spec (Gas (rInst t)) k) as [Hlt|Hle].
  - eapply rwp_trap; [by apply lift_throw|]. eapply wp_mono; [| |by apply Hlow]; [done|].
    intros s' Hc. eapply gas_trapped; [apply sim_same, Hs|by left|done].
  - specialize (Hok Hle). unfold rwp, charge, lift, viewInst, wp in *. rewrite E.
    destruct (hm s) as [b s'| | |]; try done. destruct Hok as [Hv HQ]. apply HQ; [|done..]. by eapply sim_charged.
Qed.

Lemma rwp_charge sync r c l t s k Q R :
  sim sync r c l t s -> 0 <= k ->
  (forall t' s', sim sync r c l t' s' -> Instance_.visible (rInst t') = Instance_.visible (rInst t) ->
     Gas (rInst t') = Gas (rInst t) - k -> Q tt tt t' s') ->
  rwp (GasRefundSnapshot r) (charge k) (orStatus (chargeGas k) EVMC_OUT_OF_GAS) Q R t s.
Proof.
  intros Hs Hk HQ. pose proof (si_view _ _ _ _ _ _ Hs) as Hv. eapply rwp_charge_gen; [done|done|..].
  - intros Hlt. eapply vp_pay; [done|done|by auto|lia].
  - intros Hle. eapply vp_pay; [done|done|lia|]. intros _ s' Hv'. split; [done|]. auto.
Qed.

Lemma vp_chargeSigned r l m g c s k (Q : unit -> hstate HS -> Prop) (R : hstate HS -> Prop) :
  view r l m g c s -> 0 <= k ->
  (g < k -> forall s', cx s' = set_Status EVMC_OUT_OF_GAS c -> R s') ->
  (k <= g -> forall s', view r l m (g - k) c s' -> Q tt s') -> wp (chargeSigned k) Q R s.
Proof.
  intros Hv Hk Hf Ht. pose proof (view_bounds _ _ _ _ _ _ Hv) as (_ & Hg & _).
  unfold chargeSigned. apply wp_bind, wp_getFrame. rewrite (v_gas _ _ _ _ _ _ Hv).
  destruct (Z.ltb_spec g k); [eapply vp_fail; [done|by auto]|].
  apply wp_modify, Ht; [done|]. rewrite i64_small by lia.
  destruct Hv as [Hw <- <- <- Hv <-]. split; try done. destruct Hw; split; try done.
  unfold fgas in *. simpl. lia.
Qed.

Lemma rwp_chargeSigned sync r c l t s k Q R :
  sim sync r c l t s -> 0 <= k ->
  (forall t' s', sim sync r c l t' s' -> Instance_.visible (rInst t') = Instance_.visible (rInst t) ->
     Gas (rInst t') = Gas (rInst t) - k -> Q tt tt t' s') ->
  rwp (GasRefundSnapshot r) (charge k) (chargeSigned k) Q R t s.
Proof.
  intros Hs Hk HQ. pose proof (si_view _ _ _ _ _ _ Hs) as Hv. eapply rwp_charge_gen; [done|done|..].
  - intros Hlt. eapply vp_chargeSigned; [done|done|by auto|lia].
  - intros Hle. eapply vp_chargeSigned; [done|done|lia|]. intros _ s' Hv'. split; [done|]. auto.
Qed.
End Rules.

(** * Memory *)

Section MemoryRules.
Context {HS : Type} {I : Intx} {H : EvmcHost HS} {V : Evmc} {TO : Tolerance}.
Implicit Types (t : RtState HS) (s : hstate HS) (c : Context_ HS) (r : EVMFrame) (l : list Z).

(** The 64-bit operands compiled code makes of an offset and a size. *)
Definition sat (v : Z) : Z := normalizeOperandU64 v U64MAX.

Lemma fitsU64_spec v : is_u256 v -> fitsU64 v = (v <? 2 ^ 64).
Proof.
  intros Hv. unfold fitsU64. pose proof (words_value v Hv) as E. unfold of_words in E.
  pose proof (word_range v 0). pose proof (word_range v 1). pose proof (word_range v 2). pose proof (word_range v 3).
  destruct (Z.eqb_spec (word v 1) 0), (Z.eqb_spec (word v 2) 0), (Z.eqb_spec (word v 3) 0); cbn [andb];
    symmetry; first [apply Z.ltb_lt; lia|apply Z.ltb_ge; lia].
Qed.

Lemma word0_small v : is_u64 v -> word v 0 = v.
Proof. apply low64_small. Qed.

Lemma sat_spec v : is_u256 v -> sat v = if v <? 2 ^ 64 then v else UINT64_MAX.
Proof.
  intros Hv. unfold sat, normalizeOperandU64, U64MAX. rewrite fitsU64_spec by done.
  destruct (Z.ltb_spec v (2 ^ 64)); [|done]. apply word0_small. unfold in_u in *. lia.
Qed.

Lemma sat_u64 v : is_u256 v -> is_u64 (sat v).
Proof. intros Hv. rewrite sat_spec by done. unfold in_u, UINT64_MAX in *. case_match; lia. Qed.

Lemma sat_saturates v : is_u256 v -> sat v = uint256ToUint64 v.
Proof. intros Hv. by rewrite sat_spec, uint256ToUint64_spec by done. Qed.

(** An access to [n] bytes at [o] as compiled code passes it on. *)
Record same_access (o n jo jn : Z) : Prop := {
  sa_size : jn = sat n;
  sa_offset : n <> 0 -> jo = sat o;
  sa_range : is_u64 jo;
}.

Lemma same_access_sat o n : is_u256 o -> same_access o n (sat o) (sat n).
Proof. split; auto using sat_u64. Qed.

Lemma same_access_affordable m g o n jo jn :
  is_u256 o -> is_u256 n -> same_access o n jo jn ->
  affordable m g jo jn 0 <-> affordable m g o n 0.
Proof.
  intros Ho Hn [-> Hjo Hr]. rewrite (sat_spec n) by done. unfold affordable.
  destruct (Z.eq_dec n 0) as [->|Hn0].
  { split; (intros [_ Hg]; split; [by left|exact Hg]). }
  specialize (Hjo Hn0). rewrite sat_spec in Hjo by done.
  unfold in_u, UINT64_MAX, MAX_REQUIRED_MEMORY_SIZE in *.
  destruct (Z.ltb_spec n (2 ^ 64)), (Z.ltb_spec o (2 ^ 64)); subst jo; [done|..];
    split; intros [[?|?] _]; lia.
Qed.

Lemma same_access_exact m g o n jo jn :
  is_u256 o -> is_u256 n -> same_access o n jo jn -> affordable m g o n 0 ->
  jn = n /\ (n <> 0 -> jo = o) /\ touched m jo jn = touched m o n /\ touch_fee m jo jn = touch_fee m o n.
Proof.
  intros Ho Hn [-> Hjo Hr] [Ha _]. rewrite sat_spec by done.
  unfold in_u, MAX_REQUIRED_MEMORY_SIZE in *.
  destruct (Z.eq_dec n 0) as [->|Hn0]; [by cbn|].
  destruct Ha as [?|Ha]; [done|]. specialize (Hjo Hn0). rewrite sat_spec in Hjo by done.
  rewrite (proj2 (Z.ltb_lt n (2 ^ 64))) by lia. rewrite (proj2 (Z.ltb_lt o (2 ^ 64))) in Hjo by lia.
  by subst jo.
Qed.

(** [expandMemory] *)
Lemma instance_expand_run i mg p n :
  let fee := expansion_fee (MemorySize i) n in
  inst_ok i -> CurrentMessage i = Some p -> 0 <= n <= MAX_REQUIRED_MEMORY_SIZE ->
  Instance_.expandMemory n (mkIS i mg) =
  if Gas i <? fee then Throw GasLimitExceeded (mkIS i mg)
  else Ret tt (mkIS (Instance_.grow (ceil32 n) (set_Gas (Gas i - fee) i)) (set_mgas p (Gas i - fee) mg)).
Proof.
  intros fee Hi Hp Hn. destruct (Hi) as [Hw Hs _ Hg _].
  assert (Instance_.calculateMemoryExpansionCost (MemorySize i) (ceil32 n) = fee) as Ef
    by (rewrite instance_fee; apply memory_cost_exact; done || lia).
  unfold Instance_.expandMemory. unfold bind at 1, gets. cbn [inst].
  rewrite u64_small by (unfold MAX_REQUIRED_MEMORY_SIZE in *; lia). fold (ceil32 n). rewrite Ef.
  unfold bind. rewrite (instance_charge_run i mg p fee) by (done || apply expansion_fee_nonneg; lia).
  by destruct (Gas i <? fee).
Qed.

Lemma grow_same n i : same_but i (Instance_.grow n i) /\ Gas (Instance_.grow n i) = Gas i.
Proof. unfold Instance_.grow. case_match; by split. Qed.

Lemma grow_base n i :
  (0 < MemorySize i -> MemoryBase i = true) ->
  0 < MemorySize (Instance_.grow n i) -> MemoryBase (Instance_.grow n i) = true.
Proof. unfold Instance_.grow. by case_match. Qed.

Lemma same_but_trans i1 i2 i3 : same_but i1 i2 -> same_but i2 i3 -> same_but i1 i3.
Proof. intros [] []. split; congruence. Qed.

Lemma same_but_gas g i : same_but i (set_Gas g i).
Proof. by split. Qed.

(** [expandMemoryChecked] on a related state. *)
Lemma jit_touch sync r c l t s off size :
  let m := Instance_.visible (rInst t) in
  let g := Gas (rInst t) in
  sim sync r c l t s -> is_u64 off -> is_u64 size ->
  (affordable m g off size 0 -> exists t', expandChecked off size t = Ret true t' /\
     Instance_.visible (rInst t') = touched m off size /\
     Gas (rInst t') = g - touch_fee m off size /\ matches sync r c t') /\
  (~ affordable m g off size 0 ->
     expandChecked off size t = Throw GasLimitExceeded
       (setExecutionError GasLimitExceeded (putInst (viewInst t) t))).
Proof.
  intros m g Hs Ho Hz. destruct (sim_vars _ _ _ _ _ _ Hs) as (p & Hp & _).
  destruct (sim_same _ _ _ _ _ _ Hs) as [Hvs Hms].
  destruct (Hs) as [_ Hm]. destruct (Hm). destruct (ma_inst0).
  pose proof (length_visible (rInst t) ma_inst0) as Hl. fold m in Hl.
  set (mg := fun x => gas (rMsgs t x)).
  unfold expandChecked, lift, viewInst. fold mg. unfold Instance_.expandMemoryChecked, affordable, touched, touch_fee.
  destruct (Z.eqb_spec size 0) as [->|Hn].
  { split; [|intros []; split; [by left|lia]]. intros _. eexists. split; [done|]. cbn. rewrite Z.sub_0_r. done. }
  assert ((Instance_.chargeAll ;;; ret false) (mkIS (rInst t) mg)
          = Throw GasLimitExceeded (mkIS (rInst t) mg)) as Eall
    by (unfold bind; by rewrite (instance_chargeAll_run _ _ p)).
  unfold in_u in *. unfold Instance_.calcRequiredMemorySize, UINT64_MAX.
  destruct (Z.ltb_spec (2 ^ 64 - 1 - size) off).
  { rewrite Eall. split; [|done]. unfold MAX_REQUIRED_MEMORY_SIZE. lia. }
  destruct (Z.ltb_spec MAX_REQUIRED_MEMORY_SIZE (off + size)); [rewrite Eall; split; [lia|done]|].
  unfold bind. rewrite (instance_expand_run _ _ p) by (done || lia). rewrite <- Hl.
  set (fee := expansion_fee (Z.of_nat (length m)) (off + size)).
  assert (0 <= fee) by (apply expansion_fee_nonneg; lia).
  destruct (Z.ltb_spec (Gas (rInst t)) fee) as [Hlt|Hle]; [split; [lia|done]|].
  split; [|intros []; split; [by right|lia]]. intros _. eexists. split; [done|].
  destruct (grow_visible (off + size) (set_Gas (Gas (rInst t) - fee) (rInst t))) as [Ev Hi];
    [apply set_Gas_ok; done || lia|lia|].
  cbn [putInst rInst inst set_rMsgs set_rInst]. split_and!; [exact Ev|by rewrite grow_gas|].
  destruct (grow_same (ceil32 (off + size)) (set_Gas (Gas (rInst t) - fee) (rInst t))) as [Hsb Hgg].
  apply matches_step; [done| |done|by apply grow_base|].
  - eapply same_but_trans; [apply same_but_gas|done].
  - intros q _ Hq. rewrite (sb_current _ _ Hsb) in Hq. cbn in Hq. rewrite Hp in Hq. injection Hq as <-.
    rewrite Hgg. unfold set_mgas. by rewrite decide_True.
Qed.

Lemma not_affordable_trapped sync r c l t s s' :
  sim sync r c l t s -> cx s' = set_Status EVMC_OUT_OF_GAS c ->
  trapped GasLimitExceeded (GasRefundSnapshot r)
    (setExecutionError GasLimitExceeded (putInst (viewInst t) t)) s'.
Proof. intros Hs Hc. eapply gas_trapped; [apply sim_same, Hs|by left|done]. Qed.

Lemma rwp_touch sync r c l t s o n jo jn Q R :
  let m := Instance_.visible (rInst t) in
  let g := Gas (rInst t) in
  sim sync r c l t s -> is_u256 o -> is_u256 n -> same_access o n jo jn ->
  (affordable m g o n 0 -> forall t' s', sim sync r c l t' s' ->
     Instance_.visible (rInst t') = touched m o n -> Q true tt t' s') ->
  rwp (GasRefundSnapshot r) (expandChecked jo jn)
    (orStatus (checkMemoryExpandAndChargeGas o n) EVMC_OUT_OF_GAS) Q R t s.
Proof.
  intros m g Hs Ho Hn Ha HQ. pose proof (si_view _ _ _ _ _ _ Hs) as Hv. fold m g in Hv.
  assert (is_u64 jn) as Hjn by (rewrite (sa_size _ _ _ _ Ha); by apply sat_u64).
  destruct (jit_touch sync r c l t s jo jn Hs (sa_range _ _ _ _ Ha) Hjn) as [Hyes Hno]. fold m g in Hyes, Hno.
  rewrite (same_access_affordable m g o n jo jn) in * by done.
  assert (wp (orStatus (checkMemoryExpandAndChargeGas o n) EVMC_OUT_OF_GAS)
    (fun _ s' => affordable m g o n 0 /\ view r l (touched m o n) (g - touch_fee m o n) c s')
    (fun s' => ~ affordable m g o n 0 /\ cx s' = set_Status EVMC_OUT_OF_GAS c) s) as Hw
    by (eapply vp_payTouch; by auto).
  unfold wp in Hw. unfold rwp.
  destruct (orStatus _ _ s) as [[] s'|s'| |]; try done.
  - destruct Hw as [Haf Hv']. destruct (Hyes Haf) as (t' & -> & Ev & Eg & Hm).
    destruct (same_access_exact m g o n jo jn) as (_ & _ & Et & Ef); [done..|]. rewrite Et in Ev. rewrite Ef in Eg.
    apply HQ; [done| |done]. split; [|done]. by rewrite Ev, Eg.
  - destruct Hw as [Haf Hc]. rewrite Hno by done. by eapply not_affordable_trapped.
Qed.

(** *** Reading and writing *)

Lemma sim_length sync r c l t s :
  sim sync r c l t s -> Z.of_nat (length (Instance_.visible (rInst t))) = MemorySize (rInst t).
Proof. intros [_ []]. by apply length_visible. Qed.


Lemma take_drop_take (l : list Z) n off k :
  (off + n <= k)%nat -> take n (drop off (take k l)) = take n (drop off l).
Proof. intros Hk. rewrite !take_drop_commute, take_take. do 2 f_equal. lia. Qed.

Lemma take_write_at (l bs : list Z) off k :
  (off + length bs <= k)%nat -> (k <= length l)%nat ->
  take k (write_at off bs l) = write_at off bs (take k l).
Proof.
  intros Hk Hl. unfold write_at. rewrite take_take, Nat.min_l by lia.
  assert (length (take off l) = off) as E by (rewrite length_take; lia).
  rewrite take_app_ge by lia. f_equal. rewrite take_app_ge by lia. f_equal.
  rewrite E, skipn_firstn_comm. f_equal. lia.
Qed.

Lemma base_read_run sync r c l t s off n :
  sim sync r c l t s -> 0 <= off -> 0 <= n -> n = 0 \/ off + n <= Z.of_nat (length (Instance_.visible (rInst t))) ->
  base_read off n t = Ret (take (Z.to_nat n) (drop (Z.to_nat off) (Instance_.visible (rInst t)))) t.
Proof.
  intros Hs Ho Hn Hr. pose proof (sim_length _ _ _ _ _ _ Hs) as Hl. destruct Hs as [_ []].
  pose proof (io_buffer _ ma_inst0) as Hb. unfold base_read, bind, getInst, gets. fold (buffer (rInst t)).
  destruct (Z.eqb_spec n 0) as [->|]; [done|]. destruct Hr as [?|Hr]; [done|].
  rewrite ma_base0 by lia. rewrite !(proj2 (Z.leb_le _ _)) by lia. cbn [andb]. unfold ret. f_equal.
  rewrite visible_buffer. symmetry. apply take_drop_take. lia.
Qed.

(** The range of an access that has been paid for. *)
Lemma touched_range m g o n :
  is_u256 o -> is_u256 n -> affordable m g o n 0 -> n = 0 \/ o + n <= Z.of_nat (length (touched m o n)).
Proof.
  intros Ho Hn _. destruct (Z.eq_dec n 0) as [->|]; [by left|right]. unfold in_u in *.
  apply touched_length; lia.
Qed.

Lemma rwp_read {A B} snap sync r c l t s off joff n (k : list Z -> RM HS A) (h : list Z -> HM HS B) Q R :
  sim sync r c l t s -> 0 <= off -> 0 <= joff -> 0 <= n -> (n <> 0 -> joff = off) ->
  n = 0 \/ off + n <= Z.of_nat (length (Instance_.visible (rInst t))) ->
  (forall bs, Forall is_byte bs -> length bs = Z.to_nat n -> rwp snap (k bs) (h bs) Q R t s) ->
  rwp snap (bind (base_read joff n) k) (bind (mem_read off n) h) Q R t s.
Proof.
  intros Hs Ho Hjo Hn Ej Hr Hk. pose proof (si_view _ _ _ _ _ _ Hs) as Hv.
  pose proof (view_bounds _ _ _ _ _ _ Hv) as (_ & _ & _ & _ & Hb & _).
  destruct (Z.eq_dec n 0) as [->|Hn0].
  { apply (rwp_left _ _ _ _ _ _ _ _ [] t); [done|]. apply rwp_right. unfold mem_read.
    apply wp_bind, wp_getFrame, wp_ret, Hk; done. }
  rewrite Ej by done. destruct Hr as [?|Hr]; [done|].
  eapply rwp_left; [eapply base_read_run; by auto|]. apply rwp_right.
  eapply vp_mem_read; [done|done|done|done|]. apply Hk.
  - by apply Forall_take, Forall_drop.
  - rewrite length_take, length_drop. lia.
Qed.

Lemma matches_memory sync r c t b n buf :
  matches sync r c t -> inst_ok (set_InstMemory b n buf (rInst t)) -> (0 < n -> b = true) ->
  matches sync r c (set_rInst (set_InstMemory b n buf (rInst t)) t).
Proof.
  intros [] Hi Hb. split; try done. destruct ma_caches0. by split.
Qed.

Lemma rwp_write sync r c l t s off bs Q R :
  sim sync r c l t s -> 0 <= off -> Forall is_byte bs ->
  bs = [] \/ off + Z.of_nat (length bs) <= Z.of_nat (length (Instance_.visible (rInst t))) ->
  (forall t' s', sim sync r c l t' s' ->
     length (Instance_.visible (rInst t')) = length (Instance_.visible (rInst t)) -> Q tt tt t' s') ->
  rwp (GasRefundSnapshot r) (base_write off bs) (mem_write off bs) Q R t s.
Proof.
  intros Hs Ho Hbs Hr HQ. destruct (decide (bs = [])) as [->|Hne].
  { unfold rwp, base_write, mem_write, bind, getInst, getFrame, gets. cbn. by apply HQ. }
  destruct Hr as [?|Hr]; [done|].
  assert (0 < length bs)%nat by (destruct bs; cbn; [done|lia]).
  pose proof (sim_length _ _ _ _ _ _ Hs) as Hl. destruct (Hs) as [Hv Hm]. destruct (Hm).
  destruct (ma_inst0). set (buf' := write_at (Z.to_nat off) bs (buffer (rInst t))).
  assert (length buf' = length (buffer (rInst t))) as Elen by (apply length_write_at; lia).
  set (t' := set_rInst (set_InstMemory true (MemorySize (rInst t)) (Some buf') (rInst t)) t).
  assert (base_write off bs t = Ret tt t') as E.
  { unfold base_write, bind, getInst, gets. fold (buffer (rInst t)).
    rewrite (proj2 (Nat.eqb_neq _ _)) by lia. rewrite ma_base0 by lia.
    rewrite !(proj2 (Z.leb_le _ _)) by lia. done. }
  assert (Instance_.visible (rInst t') = write_at (Z.to_nat off) bs (Instance_.visible (rInst t))) as Ev.
  { rewrite !visible_buffer. cbn [rInst t' set_rInst set_InstMemory MemorySize]. apply take_write_at; lia. }
  assert (wp (mem_write off bs) (fun _ s' => sim sync r c l t' s') (fun _ => False) s) as Hw.
  { eapply vp_mem_write; [done|done|done|done|]. intros s' Hv'. split; [by rewrite Ev|].
    apply matches_memory; [done| |done]. split; try done. rewrite buffer_set. cbn [MemorySize set_InstMemory]. lia. }
  unfold rwp, wp in *. rewrite E. destruct (mem_write off bs s) as [[] s'| | |]; try done.
  apply HQ; [done|]. rewrite Ev. apply length_write_at. lia.
Qed.
End MemoryRules.

(** * Host and caches *)

Section HostRules.
Context {HS : Type} {I : Intx} {H : EvmcHost HS} {V : Evmc} {TO : Tolerance} {HL : HostLaws HS H} {TC : TxConstant HS H}.
Implicit Types (t : RtState HS) (s : hstate HS) (c : Context_ HS) (r : EVMFrame) (l : list Z).

Lemma wf_set_hst c h : wf_ctx c -> wf_ctx (set_hst h c).
Proof. by intros []. Qed.

Lemma matches_host sync r c t h :
  matches sync r c t -> get_tx_context h = get_tx_context (hst c) ->
  matches sync r (set_hst h c) (set_rHost h t).
Proof.
  intros [] E. split; try done; cbn [hst set_hst rHost set_rHost].
  - by apply wf_set_hst.
  - by rewrite E.
  - rewrite E. destruct ma_caches0. by split.
Qed.

Lemma rwp_host {A} snap sync r c l t s (f : HS -> A * HS) Q R :
  sim sync r c l t s -> (forall h, get_tx_context (f h).2 = get_tx_context h) ->
  (forall t' s', sim sync r (set_hst (f (hst c)).2 c) l t' s' -> rInst t' = rInst t ->
     Q (f (hst c)).1 (f (hst c)).1 t' s') ->
  rwp snap (doHost f) (hostDo f) Q R t s.
Proof.
  intros [Hv Hm] Hf HQ. assert (wp (hostDo f) (fun a s' => a = (f (hst c)).1 /\
    view r l (Instance_.visible (rInst t)) (Gas (rInst t)) (set_hst (f (hst c)).2 c) s') (fun _ => False) s) as Hw
    by (eapply vp_hostDo; done).
  unfold rwp, wp, doHost in *. rewrite (ma_host _ _ _ _ Hm).
  pose proof (matches_host _ _ _ _ (f (hst c)).2 Hm (Hf _)) as Hm'.
  destruct (f (hst c)) as [a h]. cbn [fst snd] in *. destruct (hostDo f s) as [b s'| | |]; try done.
  destruct Hw as [-> Hv']. apply HQ; [|done]. by split.
Qed.

(** Access to an account or a slot, which may be cold. *)
Lemma rwp_coldAccount snap sync r c l t s a Q R :
  sim sync r c l t s ->
  (forall b h t' s', sim sync r (set_hst h c) l t' s' -> rInst t' = rInst t -> Q b b t' s') ->
  rwp snap (isColdAccount a) (coldAccount (Rev (Inst c)) a) Q R t s.
Proof.
  intros Hs HQ. unfold isColdAccount, coldAccount. apply rwp_getInst.
  rewrite (ma_rev _ _ _ _ (si_matches _ _ _ _ _ _ Hs)). destruct (rev_ge _ _).
  - apply rwp_bind. eapply rwp_host; [done|intros; apply tx_account|]. intros t' s' Hs' Ei. by eapply rwp_ret, HQ.
  - apply rwp_ret. eapply (HQ false (hst c)); [by rewrite set_hst_same|done].
Qed.

Lemma rwp_coldStorage snap sync r c l t s a k Q R :
  sim sync r c l t s ->
  (forall b h t' s', sim sync r (set_hst h c) l t' s' -> rInst t' = rInst t -> Q b b t' s') ->
  rwp snap (isColdStorage a k) (coldStorage (Rev (Inst c)) a k) Q R t s.
Proof.
  intros Hs HQ. unfold isColdStorage, coldStorage. apply rwp_getInst.
  rewrite (ma_rev _ _ _ _ (si_matches _ _ _ _ _ _ Hs)). destruct (rev_ge _ _).
  - apply rwp_bind. eapply rwp_host; [done|intros; apply tx_storage|]. intros t' s' Hs' Ei. by eapply rwp_ret, HQ.
  - apply rwp_ret. eapply (HQ false (hst c)); [by rewrite set_hst_same|done].
Qed.

(** The transaction context of the interpreter's frame, and the cached one. *)
Lemma sim_set_MTx sync r c l t s :
  sim sync r c l t s ->
  sim sync (set_MTx (get_tx_context (hst c)) r) c l t (on_fr (set_MTx (get_tx_context (hst c))) s).
Proof.
  intros [[Hw Hr Ho Hm Hg Hc] []]. subst r. split.
  - split; try done. destruct Hw; split; try done. apply get_tx_context_ok.
  - split; try done. by right.
Qed.

Lemma rwp_getTx {A B} snap sync r c l t s (jm : RM HS A) (h : evmc_tx_context -> HM HS B) Q R :
  sim sync r c l t s ->
  (forall r' s', sim sync r' c l t s' -> same_frame r r' ->
     rwp snap jm (h (get_tx_context (hst c))) Q R t s') ->
  rwp snap jm (bind getTxContext h) Q R t s.
Proof.
  intros Hs Hk. pose proof (sim_set_MTx _ _ _ _ _ _ Hs) as Hs'. destruct (Hs) as [[_ Hr _ _ _ Hc] []].
  apply rwp_right. unfold getTxContext. apply wp_bind, wp_getFrame.
  assert (MTx (fr s) = MTx r) as -> by (by rewrite <- Hr).
  destruct (Z.eqb_spec (block_timestamp (MTx r)) 0).
  - apply wp_bind, wp_getCtx. rewrite Hc. by apply wp_bind, wp_modify, wp_ret, (Hk _ _ Hs').
  - destruct ma_tx0 as [?| ->]; [done|]. by apply wp_ret, (Hk r s).
Qed.

Lemma matches_cache sync r c t ca :
  matches sync r c t -> caches_ok (get_tx_context (hst c)) (Msg r) (set_rCache ca t) ->
  matches sync r c (set_rCache ca t).
Proof. by intros [] Hc. Qed.

Lemma sim_cache sync r c l t s ca :
  sim sync r c l t s -> caches_ok (get_tx_context (hst c)) (Msg r) (set_rCache ca t) ->
  sim sync r c l (set_rCache ca t) s.
Proof. intros [Hv Hm] Hc. split; [done|]. by apply matches_cache. Qed.

Lemma rwp_cachedTx {A B} snap sync r c l t s (k : evmc_tx_context -> RM HS A) (hm : HM HS B) Q R :
  sim sync r c l t s ->
  (forall t', sim sync r c l t' s -> rwp snap (k (get_tx_context (hst c))) hm Q R t' s) ->
  rwp snap (bind cachedTxContext k) hm Q R t s.
Proof.
  intros Hs Hk. destruct (Hs) as [_ []]. destruct (ma_caches0).
  unfold cachedTxContext. apply rwp_assoc_l, rwp_gets.
  destruct (TxContextCached (rCache t)) eqn:Ec.
  - apply rwp_assoc_l. eapply rwp_left; [done|]. apply rwp_gets. rewrite ca_tx0 by done. by apply Hk.
  - apply rwp_assoc_l, rwp_assoc_l. eapply rwp_askHost; [done|]. eapply rwp_left; [done|]. apply rwp_gets.
    apply Hk. apply sim_cache; [done|]. by split.
Qed.
End HostRules.
