(* ===== verification/EvmImportedOps.v ===== *)
(** The helpers of compiled code against the interpreter's handlers: each
    operation, with the conversions compiled code makes around it, agrees
    with the handler of its opcode on related states. *)

From stdpp Require Import gmap.
From S2P Require Import Prelude Intx Evmc GasStorageCost EvmInstance Frame HandlerUtil.
From S2P Require Import HandlersArith HandlersEnv HandlersCall Interpreter WellFormed Concrete HandlerSafety View.
From S2P Require Import AluSpecs MemorySpecs CallSpecs InstanceSpecs EvmImported EvmImportedSim.

#[local] Open Scope Z_scope.

(** * Words and bytes *)

Lemma le_bytes_app n k v :
  le_bytes n v ++ le_bytes k (v / 2 ^ (8 * Z.of_nat n)) = le_bytes (n + k) v.
Proof.
  revert v. induction n as [|n IH]; intros v; cbn [le_bytes Nat.add app].
  - by rewrite Z.pow_0_r, Z.div_1_r.
  - f_equal. rewrite <- IH. f_equal. f_equal. change 256 with (2 ^ 8).
    rewrite Z.div_div, <- Z.pow_add_r by lia. do 2 f_equal. lia.
Qed.

Lemma le_bytes_snoc n v : le_bytes (S n) v = le_bytes n v ++ [(v / 2 ^ (8 * Z.of_nat n)) mod 256].
Proof. rewrite <- Nat.add_1_r, <- le_bytes_app. done. Qed.

Lemma reverse_le_bytes n v : reverse (le_bytes n v) = be_bytes n v.
Proof. induction n as [|n IH]; [done|]. rewrite le_bytes_snoc, reverse_snoc, IH. done. Qed.

Lemma le_bytes_mod n v : le_bytes n (v mod 2 ^ (8 * Z.of_nat n)) = le_bytes n v.
Proof.
  revert v. induction n as [|n IH]; intros v; [done|]. cbn [le_bytes].
  replace (8 * Z.of_nat (S n)) with (8 + 8 * Z.of_nat n) by lia. rewrite Z.pow_add_r by lia.
  change (2 ^ 8) with 256. rewrite Z.rem_mul_r, (Z.mul_comm 256) by lia. f_equal.
  - by rewrite Z_mod_plus_full, Z.mod_mod by lia.
  - rewrite <- (IH (v / 256)). f_equal. rewrite Z.div_add by lia.
    rewrite (Z.div_small (v mod 256)) by (apply Z.mod_pos_bound; lia). lia.
Qed.

Lemma pack_bytes v : packU256Argument v = le_bytes 32 v.
Proof.
  unfold packU256Argument, word. change (2 ^ 64) with (2 ^ (8 * Z.of_nat 8)). rewrite !le_bytes_mod.
  change (64 * Z.of_nat 0) with 0. rewrite Z.pow_0_r, Z.div_1_r.
  change (le_bytes 32 v) with (le_bytes (8 + (8 + (8 + 8))) v). rewrite <- le_bytes_app. f_equal.
  rewrite <- le_bytes_app. f_equal. rewrite <- le_bytes_app. rewrite !Z.div_div by lia. done.
Qed.

Lemma load_address v : loadAddressFromLE (packU256Argument v) = be_bytes 20 v.
Proof.
  rewrite pack_bytes. unfold loadAddressFromLE.
  change 32%nat with (20 + 12)%nat. rewrite <- le_bytes_app, take_app_le by (rewrite length_le_bytes; lia).
  rewrite take_ge by (rewrite length_le_bytes; lia). apply reverse_le_bytes.
Qed.

Lemma load_bytes32 v : loadBytes32FromLE (packU256Argument v) = be_bytes 32 v.
Proof.
  rewrite pack_bytes. unfold loadBytes32FromLE.
  rewrite take_ge by (rewrite length_le_bytes; lia). apply reverse_le_bytes.
Qed.

Lemma le_value_snoc bs b : le_value (bs ++ [b]) = le_value bs + 2 ^ (8 * Z.of_nat (length bs)) * b.
Proof.
  induction bs as [|x bs IH]; cbn [le_value app length]; [lia|]. rewrite IH.
  replace (8 * Z.of_nat (S (length bs))) with (8 + 8 * Z.of_nat (length bs)) by lia.
  rewrite Z.pow_add_r by lia. change (2 ^ 8) with 256. lia.
Qed.

Lemma le_value_reverse bs : le_value (reverse bs) = be_value bs.
Proof.
  induction bs as [|b bs IH]; [done|]. rewrite reverse_cons, le_value_snoc, IH, length_reverse.
  cbn [be_value]. lia.
Qed.

Lemma bswap_value bs : Forall is_byte bs -> length bs = 8%nat -> bswap (le_value bs) = be_value bs.
Proof.
  intros Hb Hl. unfold bswap. replace (le_bytes 8 (le_value bs)) with bs; [apply le_value_reverse|].
  symmetry. rewrite <- Hl. by apply le_bytes_value.
Qed.

Lemma convert_bytes32 bs :
  bytes_n 32 bs -> convertBytes32ToU256Operand bs = be_value bs.
Proof.
  intros [Hl Hb]. unfold convertBytes32ToU256Operand.
  assert (forall k, (k + 8 <= 32)%nat -> bswap (le_value (take 8 (drop k bs))) = be_value (take 8 (drop k bs))) as E.
  { intros k Hk. apply bswap_value; [by apply Forall_take, Forall_drop|]. rewrite length_take, length_drop. lia. }
  rewrite !E by lia. rewrite drop_0.
  assert (bs = take 8 bs ++ take 8 (drop 8 bs) ++ take 8 (drop 16 bs) ++ take 8 (drop 24 bs)) as Es.
  { rewrite <- (take_drop 8 bs) at 1. f_equal. rewrite <- (take_drop 8 (drop 8 bs)) at 1. f_equal.
    rewrite drop_drop. cbn [Nat.add]. rewrite <- (take_drop 8 (drop 16 bs)) at 1. f_equal.
    rewrite drop_drop. cbn [Nat.add]. symmetry. apply take_ge. rewrite length_drop. lia. }
  rewrite Es at 5. rewrite !be_value_app, !length_app, !length_take, !length_drop, Hl. unfold of_words.
  generalize (be_value (take 8 bs)), (be_value (take 8 (drop 8 bs))), (be_value (take 8 (drop 16 bs))),
    (be_value (take 8 (drop 24 bs))). intros.
  change (8 * Z.of_nat (8 `min` (32 - 24))) with 64.
  change (8 * Z.of_nat (8 `min` (32 - 16) + 8 `min` (32 - 24))) with 128.
  change (8 * Z.of_nat (8 `min` (32 - 8) + (8 `min` (32 - 16) + 8 `min` (32 - 24)))) with 192. lia.
Qed.

(** * Rules for whole statements *)

Section Statements.
Context {HS : Type} {I : Intx} {H : EvmcHost HS} {V : Evmc} {TO : Tolerance} {IL : IntxLaws I}.
Context {HL : HostLaws HS H} {TC : TxConstant HS H}.
Implicit Types (t : RtState HS) (s : hstate HS) (c : Context_ HS) (r : EVMFrame) (l : list Z).

(** The result of an operation without one, of one that gives a word. *)
Definition nothing (_ : unit) : list Z := [].
Definition one (v : Z) : list Z := [v].

(** A helper that does nothing where the handler does nothing. *)
Lemma agrees_idle {A} sync r c l l0 t s (jm : RM HS A) hm st (P : Prop) a (res : A -> list Z) :
  sim sync r c l0 t s ->
  computes hm st c s P r l (Instance_.visible (rInst t)) (Gas (rInst t)) c -> P ->
  jm t = Ret a t -> res a = [] -> agrees jm hm res sync r l t s.
Proof.
  intros [_ Hm] [Hc _] HP Ej Er. destruct (Hc HP) as (s' & Es & Hv). unfold agrees. rewrite Ej.
  exists s', r, c. by rewrite Er.
Qed.

Lemma word_copy_gas n : 0 < n <= MAX_REQUIRED_MEMORY_SIZE ->
  calculateWordCopyGas n = u64 (numWords n * WORD_COPY_COST) /\ calculateWordCopyGas n <> 0.
Proof.
  intros Hn. pose proof (words_bound n ltac:(lia)). assert (0 < words n) by (unfold words; div_lia).
  unfold calculateWordCopyGas. rewrite (proj2 (Z.eqb_neq n 0)) by lia. rewrite numWords_spec by lia.
  unfold WORD_COPY_COST. rewrite (u64_small (words n)), u64_small by lia. lia.
Qed.

Lemma rwp_chargeCopy sync r c l t s n Q R :
  sim sync r c l t s -> 0 < n <= MAX_REQUIRED_MEMORY_SIZE ->
  (forall t' s', sim sync r c l t' s' ->
     Instance_.visible (rInst t') = Instance_.visible (rInst t) -> Q tt tt t' s') ->
  rwp (GasRefundSnapshot r) (chargeCopy n) (orStatus (copyCodeAndChargeGas n) EVMC_OUT_OF_GAS) Q R t s.
Proof.
  intros Hs Hn HQ. destruct (word_copy_gas n Hn) as [E Ene]. unfold chargeCopy.
  rewrite (proj2 (Z.eqb_neq _ 0)) by done. rewrite E. unfold copyCodeAndChargeGas.
  eapply rwp_charge; [done|apply copyCodeAndChargeGas_cost|auto].
Qed.

(** Nothing to pay. *)
Lemma wp_pay_nothing sync r c l t s st (Q : unit -> hstate HS -> Prop) R :
  sim sync r c l t s -> (forall s', sim sync r c l t s' -> Q tt s') -> wp (orStatus (chargeGas 0) st) Q R s.
Proof.
  intros Hs HQ. apply wp_bind. pose proof (sim_gas _ _ _ _ _ _ Hs). eapply vp_chargeGas; [apply Hs|lia|lia|].
  intros _ s' Hv. rewrite Z.sub_0_r in Hv. apply wp_ret, HQ. by eapply sim_view.
Qed.

Lemma wp_touch_nothing sync r c l t s o st (Q : unit -> hstate HS -> Prop) R :
  sim sync r c l t s -> Q tt s -> wp (orStatus (checkMemoryExpandAndChargeGas o 0) st) Q R s.
Proof. done. Qed.

Lemma rwp_chargeCopy_any sync r c l t s n Q R :
  sim sync r c l t s -> 0 <= n <= MAX_REQUIRED_MEMORY_SIZE ->
  (forall t' s', sim sync r c l t' s' ->
     Instance_.visible (rInst t') = Instance_.visible (rInst t) -> Q tt tt t' s') ->
  rwp (GasRefundSnapshot r) (chargeCopy n) (orStatus (copyCodeAndChargeGas n) EVMC_OUT_OF_GAS) Q R t s.
Proof.
  intros Hs Hn HQ. destruct (Z.eq_dec n 0) as [->|]; [|apply (rwp_chargeCopy sync r c l); done || lia].
  assert (wp (orStatus (chargeGas 0) EVMC_OUT_OF_GAS) (fun _ s' => Q tt tt t s') (fun _ => False) s) as Hw
    by (eapply wp_pay_nothing; [eassumption|auto]).
  unfold rwp, wp in *. change (chargeCopy 0 t) with (@Ret ErrorCode _ _ tt t).
  change (copyCodeAndChargeGas 0) with (@chargeGas HS 0). by destruct (orStatus _ _ s) as [[] ?| | |].
Qed.

Lemma rwp_buf {A B} snap t s buf off n (k : list Z -> RM HS A) (h : list Z -> HM HS B) Q R :
  Forall is_byte buf -> 0 <= off -> 0 <= n -> n = 0 \/ off + n <= Z.of_nat (length buf) ->
  (forall bs, Forall is_byte bs -> length bs = Z.to_nat n -> rwp snap (k bs) (h bs) Q R t s) ->
  rwp snap (bind (const_read buf off n) k) (bind (buf_read buf off n) h) Q R t s.
Proof.
  intros Hb Ho Hn Hr Hk. unfold const_read, buf_read.
  destruct (Z.eqb_spec n 0) as [->|]; [by apply rwp_bind, rwp_ret, Hk|]. destruct Hr as [?|Hr]; [done|].
  rewrite !(proj2 (Z.leb_le _ _)) by lia. cbn [andb]. apply rwp_bind, rwp_ret, Hk.
  - by apply Forall_take, Forall_drop.
  - rewrite length_take, length_drop. lia.
Qed.

(** The bytes there are, and zeros up to [n]. *)
Lemma rwp_zeros sync r c l t s dest k n :
  sim sync r c l t s -> 0 <= dest -> 0 <= k -> dest + n <= Z.of_nat (length (Instance_.visible (rInst t))) ->
  rwp (GasRefundSnapshot r) (if k <? n then base_write (dest + k) (zeros (n - k)) else ret tt)
    (if k <? n then mem_write (dest + k) (zeros (n - k)) else ret tt)
    (fun a _ => done_with nothing sync r l a) (done_with nothing sync r l) t s.
Proof.
  intros Hs Hd Hk Hn. destruct (Z.ltb_spec k n); [|by apply rwp_ret; eapply done_here].
  eapply rwp_write; [done|lia|apply Forall_zeros|right; rewrite zeros_length; lia|].
  intros. by eapply done_here.
Qed.

Lemma rwp_padded sync r c l t s dest bs k n :
  sim sync r c l t s -> Forall is_byte bs -> 0 <= dest -> k = Z.of_nat (length bs) -> k <= n ->
  dest + n <= Z.of_nat (length (Instance_.visible (rInst t))) ->
  rwp (GasRefundSnapshot r)
    (base_write dest bs ;;; if k <? n then base_write (dest + k) (zeros (n - k)) else ret tt)
    (mem_write dest bs ;;; if k <? n then mem_write (dest + k) (zeros (n - k)) else ret tt)
    (fun a _ => done_with nothing sync r l a) (done_with nothing sync r l) t s.
Proof.
  intros Hs Hb Hd Hk Hkn Hn. apply rwp_bind. eapply rwp_write; [done|done|done|right; lia|].
  intros t' s' Hs' Hl'. eapply rwp_zeros; [done|lia|lia|lia].
Qed.

Lemma sim_input sync r c l t s :
  sim sync r c l t s -> Forall is_byte (input_data (Msg r)) /\ Z.of_nat (length (input_data (Msg r))) < 2 ^ 63.
Proof. intros [Hv _]. by eapply view_input_ok. Qed.

Lemma sat_zero n : is_u256 n -> (sat n =? 0) = (n =? 0).
Proof.
  intros Hn. rewrite sat_spec by done. unfold UINT64_MAX. destruct (Z.ltb_spec n (2 ^ 64)); [done|].
  rewrite (proj2 (Z.eqb_neq n 0)) by lia. done.
Qed.

(** A paid access of at least a byte. *)
Lemma access_facts m g o n :
  is_u256 o -> is_u256 n -> n <> 0 -> affordable m g o n 0 ->
  0 < n <= MAX_REQUIRED_MEMORY_SIZE /\ 0 <= o /\ sat n = n /\ sat o = o /\
  uint256ToUint64 n = n /\ uint256ToUint64 o = o /\ low64 n = n /\ low64 o = o /\
  o + n <= Z.of_nat (length (touched m o n)).
Proof.
  intros Ho Hn Hn0 Ha. destruct (affordable_range m g o n Ho Hn Ha) as (Hr & En & El & Hoff).
  destruct Hoff as (Eo & Elo & Ho0); [lia|]. rewrite !sat_saturates by done.
  destruct (touched_range m g o n) as [?|?]; [done..|]. split_and!; try done; lia.
Qed.
End Statements.

Ltac jit_operands :=
  eapply rwp_check; [eassumption|simpl; lia|];
  repeat (eapply rwp_pop; [eassumption|intros ? ? ?]).

(** * Copies *)

Section Copies.
Context {HS : Type} {I : Intx} {H : EvmcHost HS} {V : Evmc} {TO : Tolerance} {IL : IntxLaws I}.
Context {HL : HostLaws HS H} {TC : TxConstant HS H}.
Implicit Types (t : RtState HS) (s : hstate HS) (c : Context_ HS) (r : EVMFrame) (l : list Z).

Lemma copy_nothing sync r c l0 l t s jm hm dest data o :
  sim sync r c l0 t s ->
  computes hm EVMC_OUT_OF_GAS c s (affordable (Instance_.visible (rInst t)) (Gas (rInst t)) dest 0 (3 * words 0))
    r l (stored (Instance_.visible (rInst t)) dest (slice data o 0))
    (Gas (rInst t) - copy_fee (Instance_.visible (rInst t)) dest 0) c ->
  jm t = Ret tt t -> agrees jm hm nothing sync r l t s.
Proof.
  intros Hs Hc Ej. pose proof (sim_gas _ _ _ _ _ _ Hs) as Hg. rewrite stored_empty in Hc.
  assert (copy_fee (Instance_.visible (rInst t)) dest 0 = 0) as Ef by reflexivity.
  rewrite Ef, Z.sub_0_r in Hc. eapply agrees_idle; [done..| |exact Ej|done].
  split; [by left|]. change (0 <= Gas (rInst t)). lia.
Qed.

Lemma agrees_CallDataCopy sync r c dest o n l t s :
  sim sync r c (dest :: o :: n :: l) t s ->
  agrees (jitCallDataCopy dest o n) CallDataCopy_doExecute nothing sync r l t s.
Proof.
  intros Hs. destruct (Z.eq_dec n 0) as [->|Hn0].
  { eapply copy_nothing; [done|apply vp_CallDataCopy, Hs|done]. }
  destruct (sim_input _ _ _ _ _ _ Hs) as [Hb Hi].
  apply agrees_rwp. unfold jitCallDataCopy, CallDataCopy_doExecute. jit_operands.
  fold (sat dest) (sat o) (sat n). unfold evmSetCallDataCopy.
  rewrite sat_zero, (proj2 (Z.eqb_neq n 0)) by done.
  apply rwp_bind. eapply rwp_touch; [eassumption|done|done|by apply same_access_sat|].
  intros Ha t1 s1 Hs1 Ev1. destruct (access_facts (Instance_.visible (rInst t)) (Gas (rInst t)) dest n)
    as (Hn & Hd & En & Ed & En' & Ed' & _ & _ & Hlen); [done..|]. rewrite En, Ed, En', Ed', (sat_saturates o) by done.
  eapply rwp_getFrame; [eassumption|eapply view_input, Hs1|]. cbn [negb].
  apply rwp_bind. eapply rwp_chargeCopy; [eassumption|lia|]. intros t2 s2 Hs2 Ev2.
  eapply rwp_message; [eassumption|]. intros msg Em _.
  rewrite (msg_field input_data msg (Msg r)) by done. set (data := input_data (Msg r)) in *.
  set (jo := uint256ToUint64 o). assert (0 <= jo) by (by apply uint256ToUint64_range).
  assert (Z.min jo (Z.of_nat (length data)) = if Z.of_nat (length data) <? jo then Z.of_nat (length data) else jo) as ->
    by (case_match; lia).
  set (src := if Z.of_nat (length data) <? jo then _ else _).
  assert (0 <= src <= Z.of_nat (length data)) by (unfold src; case_match; lia).
  rewrite u64_small by lia.
  assert ((if src <? Z.of_nat (length data) then Z.min n (Z.of_nat (length data) - src) else 0)
          = Z.min n (Z.of_nat (length data) - src)) as -> by (case_match; lia).
  set (k := Z.min n (Z.of_nat (length data) - src)).
  assert (dest + n <= Z.of_nat (length (Instance_.visible (rInst t2)))) by (rewrite Ev2, Ev1; done).
  destruct (Z.ltb_spec 0 k) as [Hk|Hk].
  - apply rwp_assoc, rwp_assoc_l. eapply rwp_buf; [done|lia|lia|right; lia|]. intros bs Hbs Hl.
    eapply rwp_padded; [eassumption|done|lia|lia|lia|done].
  - apply rwp_bind, rwp_ret. eapply rwp_zeros; [eassumption|lia|lia|done].
Qed.

Lemma sim_wf sync r c l t s : sim sync r c l t s -> wf_ctx c.
Proof. by intros [_ []]. Qed.

Lemma sim_code sync r c l t s : sim sync r c l t s -> ModCode (rInst t) = ModCode (Inst c).
Proof. by intros [_ []]. Qed.

(** [normalizeOffsetWithSize] lets through what memory can hold. *)
Lemma normalize_run t o n :
  is_u256 o -> is_u256 n ->
  (exists jo, normalizeOffsetWithSize o n t = Ret (jo, n) t /\ same_access o n jo n) \/
  (normalizeOffsetWithSize o n t = Throw GasLimitExceeded (setExecutionError GasLimitExceeded t) /\
   oversized o n = true /\ forall m g, ~ affordable m g o n 0).
Proof.
  intros Ho Hn. unfold normalizeOffsetWithSize, normalizeOperandU64Trap, bind.
  rewrite fitsU64_spec by done. rewrite fitsU64_spec by done. unfold in_u in *.
  destruct (Z.ltb_spec n (2 ^ 64)).
  - cbn. rewrite word0_small by (unfold in_u; lia).
    destruct (Z.eqb_spec n 0) as [->|Hn0]; cbn [negb andb].
    { left. eexists. split; [done|]. split; [done|done|]. unfold in_u. lia. }
    destruct (Z.ltb_spec o (2 ^ 64)); cbn [negb].
    + left. eexists. split; [done|]. rewrite word0_small by (unfold in_u; lia).
      split; [rewrite sat_spec by done|intros _; rewrite sat_spec by done|unfold in_u; lia];
        by rewrite (proj2 (Z.ltb_lt _ _)) by lia.
    + right. split_and!; [done|unfold oversized; rewrite (proj2 (Z.eqb_neq _ _)), (proj2 (Z.leb_le _ o)) by lia; by rewrite orb_true_r|].
      intros m g [[?|?] _]; unfold MAX_REQUIRED_MEMORY_SIZE in *; lia.
  - right. split_and!; [done|unfold oversized; by rewrite (proj2 (Z.leb_le _ n)) by lia|]. intros m g [[?|?] _]; unfold MAX_REQUIRED_MEMORY_SIZE in *; lia.
Qed.

Lemma sim_operands sync r c l t s : sim sync r c l t s -> Forall is_u256 l.
Proof. intros [Hv _]. by apply view_bounds in Hv as (_ & _ & _ & _ & _ & ?). Qed.

Lemma agrees_CodeCopy sync r c dest o n l t s :
  sim sync r c (dest :: o :: n :: l) t s ->
  agrees (jitCodeCopy dest o n) CodeCopy_doExecute nothing sync r l t s.
Proof.
  intros Hs. pose proof (sim_wf _ _ _ _ _ _ Hs) as Hwf.
  pose proof (vp_CodeCopy r dest o n l _ _ c s (si_view _ _ _ _ _ _ Hs) Hwf) as Hc.
  pose proof (sim_operands _ _ _ _ _ _ Hs) as Hu. decompose_Forall_hyps.
  destruct (Z.eq_dec n 0) as [->|Hn0]; [by eapply copy_nothing|].
  destruct (normalize_run t dest n) as [(jo & En & Ha)|[En [Hov Hno]]]; [done..| |].
  2:{ unfold agrees, jitCodeCopy, bind. rewrite En. destruct Hc as [_ Hc].
      destruct Hc as (s' & Es & Ec); [apply unaffordable_touch; [apply Z.mul_nonneg_nonneg; [lia|by apply words_nonneg]|done]|].
      exists s'. split; [done|]. eapply gas_trapped; [exact Hs|by left|done]. }
  clear Hc. apply agrees_rwp. unfold jitCodeCopy, CodeCopy_doExecute.
  eapply rwp_left; [exact En|]. cbn [fst snd]. fold (sat o). unfold evmSetCodeCopy.
  rewrite (proj2 (Z.eqb_neq n 0)) by done.
  eapply rwp_check; [eassumption|simpl; lia|]. eapply rwp_getCtx; [eassumption|].
  repeat (eapply rwp_pop; [eassumption|intros ? ? ?]).
  apply rwp_bind. eapply rwp_touch; [eassumption|done|done|done|].
  intros Haf t1 s1 Hs1 Ev1. destruct (access_facts (Instance_.visible (rInst t)) (Gas (rInst t)) dest n)
    as (Hn & Hd & Esn & Ed & En' & Ed' & _ & _ & Hlen); [done..|].
  rewrite En', Ed', (sat_saturates o) by done. rewrite (sa_offset _ _ _ _ Ha Hn0), Ed. cbn [negb].
  apply rwp_bind. eapply rwp_chargeCopy; [eassumption|lia|]. intros t2 s2 Hs2 Ev2.
  apply rwp_getInst. rewrite (sim_code _ _ _ _ _ _ Hs2). set (data := ModCode (Inst c)) in *.
  assert (0 <= uint256ToUint64 o) by (by apply uint256ToUint64_range).
  assert (dest + n <= Z.of_nat (length (Instance_.visible (rInst t2)))) by (rewrite Ev2, Ev1; done).
  destruct (Z.ltb_spec (uint256ToUint64 o) (Z.of_nat (length data))).
  - eapply rwp_buf; [apply Hwf|lia|lia|right; lia|]. intros bs Hbs Hl.
    eapply rwp_padded; [eassumption|done|lia|lia|lia|done].
  - rewrite (proj2 (Z.ltb_lt 0 n)) by lia.
    eapply rwp_write; [eassumption|lia|apply Forall_zeros|right; rewrite zeros_length; lia|].
    intros. by eapply done_here.
Qed.

(** [setGas(0)] and a trap. *)
Lemma stopped_trapped sync r c l t s s' e :
  sim sync r c l t s -> e = EVMStaticModeViolation \/ e = OutOfBoundsMemory ->
  cx s' = set_Status (MapErrToStatus e) c ->
  trapped e (GasRefundSnapshot r) (setExecutionError e (set_rInst (setGas 0 (rInst t)) t)) s'.
Proof.
  intros [_ []] He Hc. destruct (restore_snapshot r (setGas 0 (rInst t))) as [E Eg]; [done..|].
  destruct He as [-> | ->]; (split; [left; by rewrite Hc|exact Eg|exact E|done]).
Qed.

Lemma sat_check o n size :
  is_u256 o -> is_u256 n -> 0 <= size < 2 ^ 63 ->
  (size <? sat o) || (size <? sat n) || (size <? u64 (sat o + sat n)) = (size <? o + n).
Proof.
  intros Ho Hn Hs. rewrite !sat_spec by done. unfold in_u, UINT64_MAX in *.
  destruct (Z.ltb_spec o (2 ^ 64)).
  2:{ rewrite (proj2 (Z.ltb_lt size (2 ^ 64 - 1))) by lia. symmetry. apply Z.ltb_lt. lia. }
  destruct (Z.ltb_spec size o); [symmetry; apply Z.ltb_lt; lia|].
  destruct (Z.ltb_spec n (2 ^ 64)).
  2:{ rewrite (proj2 (Z.ltb_lt size (2 ^ 64 - 1))) by lia. symmetry. apply Z.ltb_lt. lia. }
  destruct (Z.ltb_spec size n); [symmetry; apply Z.ltb_lt; lia|]. cbn [orb]. by rewrite u64_small by lia.
Qed.

Lemma agrees_ReturnDataCopy sync r c dest o n l t s :
  sim sync r c (dest :: o :: n :: l) t s -> returned sync = true ->
  agrees (jitReturnDataCopy dest o n) ReturnDataCopy_doExecute nothing sync r l t s.
Proof.
  intros Hs Hret. pose proof (sim_wf _ _ _ _ _ _ Hs) as Hwf. destruct (Hwf) as [_ Hb Hi _ _ _].
  pose proof (sim_operands _ _ _ _ _ _ Hs) as Hu. decompose_Forall_hyps.
  assert (InstReturnData (rInst t) = ReturnData c) as Er by (destruct Hs as [_ []]; auto).
  assert (evmSetReturnDataCopy (sat dest) (sat o) (sat n) t =
    if Z.of_nat (length (ReturnData c)) <? o + n
    then Throw OutOfBoundsMemory (setExecutionError OutOfBoundsMemory (set_rInst (setGas 0 (rInst t)) t))
    else (if n =? 0 then ret tt
          else
            ok <- expandChecked (sat dest) (sat n) ;;
            if negb ok then ret tt
            else
              chargeCopy (sat n) ;;;
              bs <- const_read (ReturnData c) (sat o)
                      (Z.min (sat n) (u64 (Z.of_nat (length (ReturnData c)) - sat o))) ;;
              base_write (sat dest) bs) t) as Ej.
  { unfold evmSetReturnDataCopy. unfold bind at 1. unfold getInst at 1, gets at 1. rewrite Er, sat_check, sat_zero by (done || lia).
    by destruct (_ <? o + n). }
  destruct (Z.ltb_spec (Z.of_nat (length (ReturnData c))) (o + n)) as [Hout|Hin].
  { destruct (vp_ReturnDataCopy_out r dest o n l _ _ c s (si_view _ _ _ _ _ _ Hs) Hwf Hout) as (s' & Es & Ec).
    unfold agrees, jitReturnDataCopy. fold (sat dest) (sat o) (sat n). rewrite Ej. exists s'. split; [done|].
    eapply stopped_trapped; [exact Hs|by right|done]. }
  pose proof (vp_ReturnDataCopy_in r dest o n l _ _ c s (si_view _ _ _ _ _ _ Hs) Hwf Hin) as Hc.
  destruct (Z.eq_dec n 0) as [->|Hn0]; [eapply copy_nothing; [exact Hs|exact Hc|exact Ej]|]. clear Hc.
  apply agrees_rwp. unfold rwp, jitReturnDataCopy. fold (sat dest) (sat o) (sat n). rewrite Ej. rewrite (proj2 (Z.eqb_neq n 0)) by done.
  match goal with |- match ?jm t with _ => _ end => change (rwp (GasRefundSnapshot r) jm ReturnDataCopy_doExecute
    (fun a _ => done_with nothing sync r l a) (done_with nothing sync r l) t s) end.
  unfold ReturnDataCopy_doExecute. jit_operands. eapply rwp_getCtx; [eassumption|].
  rewrite returndata_check by (done || lia). rewrite (proj2 (Z.ltb_ge _ _)) by lia.
  apply rwp_right, wp_ret. apply rwp_bind. eapply rwp_touch; [eassumption|done|done|by apply same_access_sat|].
  intros Ha t1 s1 Hs1 Ev1. destruct (access_facts (Instance_.visible (rInst t)) (Gas (rInst t)) dest n)
    as (Hn & Hd & En & Ed & En' & Ed' & _ & _ & Hlen); [done..|]. rewrite En, Ed, En', Ed', (sat_saturates o) by done.
  cbn [negb]. apply rwp_bind. eapply rwp_chargeCopy; [eassumption|lia|]. intros t2 s2 Hs2 Ev2.
  assert (0 <= o) by (match goal with Hu : is_u256 o |- _ => apply Hu end).
  rewrite uint256ToUint64_small by (unfold in_u; lia). rewrite u64_small, Z.min_l by lia.
  rewrite (proj2 (Z.ltb_lt 0 n)) by lia. eapply rwp_buf; [done|lia|lia|by right|]. intros bs Hbs Hl.
  eapply rwp_write; [eassumption|lia|done|right; rewrite Hl, Ev2, Ev1; lia|].
  intros. by eapply done_here.
Qed.
End Copies.

(** * Accounts, storage and blocks *)

(** Code is smaller than 4 GiB. *)
Class CodeBound (HS : Type) (H : EvmcHost HS) : Prop := {
  copy_code_past a o n h : 2 ^ 32 - 1 <= o -> copy_code a o n h = [];
}.

#[export] Instance null_host_code : CodeBound null_host null_host_ops.
Proof. by split. Qed.

Section Accounts.
Context {HS : Type} {I : Intx} {H : EvmcHost HS} {V : Evmc} {TO : Tolerance} {IL : IntxLaws I} {VL : EvmcLaws V}.
Context {HL : HostLaws HS H} {TC : TxConstant HS H} {CB : CodeBound HS H}.
Implicit Types (t : RtState HS) (s : hstate HS) (c : Context_ HS) (r : EVMFrame) (l : list Z).

(** The surcharge of a cold account, as the two kinds of handlers pay it. *)
Lemma rwp_coldCharge {B} sync r c l t s a (pay : Z -> HM HS unit) (h : unit -> HM HS B) (k : unit -> RM HS Z) Q R :
  sim sync r c l t s ->
  (forall c' t' s', sim sync r c' l t' s' -> forall Q' R',
     (forall t2 s2, sim sync r c' l t2 s2 -> Q' tt tt t2 s2) ->
     rwp (GasRefundSnapshot r) (charge ADDITIONAL_COLD_ACCOUNT_ACCESS_COST)
       (pay ADDITIONAL_COLD_ACCOUNT_ACCESS_COST) Q' R' t' s') ->
  (forall h' t' s', sim sync r (set_hst h' c) l t' s' -> rwp (GasRefundSnapshot r) (k tt) (h tt) Q R t' s') ->
  rwp (GasRefundSnapshot r) (chargeColdAccount a ;;; k tt)
    (Rev_ <- currentRevision ;; cold <- coldAccount Rev_ a ;;
     (if cold then pay ADDITIONAL_COLD_ACCOUNT_ACCESS_COST else ret tt) ;;; h tt) Q R t s.
Proof.
  intros Hs Hpay Hk. eapply rwp_getCtx; [exact Hs|]. unfold chargeColdAccount. apply rwp_assoc_l, rwp_bind.
  eapply rwp_coldAccount; [exact Hs|]. intros cold h' t1 s1 Hs1 _. apply rwp_bind. destruct cold.
  - eapply Hpay; [exact Hs1|]. intros t2 s2 Hs2. by eapply Hk.
  - apply rwp_ret. by eapply Hk.
Qed.

Lemma rwp_askLast {A B} snap sync r c l t s (f : HS -> A) (hm : HM HS B) Q R :
  sim sync r c l t s -> rwp snap (ret (f (hst c))) hm Q R t s -> rwp snap (askHost f) hm Q R t s.
Proof.
  intros Hs Hk. unfold rwp, askHost, gets, ret in *. by rewrite (ma_host _ _ _ _ (si_matches _ _ _ _ _ _ Hs)).
Qed.

Lemma sim_room sync r c x l t s : sim sync r c (x :: l) t s -> (length l < 1024)%nat.
Proof. intros [Hv _]. apply view_bounds in Hv as (Hl & _). simpl in Hl. lia. Qed.

Lemma bytes_u256 bs : bytes_n 32 bs -> is_u256 (be_load bs).
Proof. intros [Hl Hb]. eapply be_load_range; [done|lia]. Qed.

Lemma bytes20_u256 bs : bytes_n 20 bs -> is_u256 (be_load bs).
Proof. intros [Hl Hb]. eapply be_load_range; [done|lia]. Qed.

Lemma agrees_Balance sync r c x l t s :
  sim sync r c (x :: l) t s -> agrees (jitBalance x) Balance_doExecute one sync r l t s.
Proof.
  intros Hs. pose proof (sim_room _ _ _ _ _ _ _ Hs). apply agrees_rwp. unfold jitBalance, evmGetBalance, Balance_doExecute.
  jit_operands. rewrite load_address, be_trunc_address_spec by done.
  eapply (rwp_coldCharge _ _ _ _ _ _ _ (fun k => orStatus (chargeGas k) EVMC_OUT_OF_GAS) (fun _ => _) (fun _ => _)); [eassumption|..].
  - intros c' t' s1 Hs1 Q' R' HQ. eapply rwp_charge; [exact Hs1|done|auto].
  - intros h' t1 s1 Hs1. eapply rwp_hostRead; [exact Hs1|]. eapply rwp_askHost; [exact Hs1|].
    eapply rwp_push_ret; [exact Hs1|done|done|apply bytes_u256, get_balance_bytes|done].
Qed.

Lemma agrees_ExtCodeSize sync r c x l t s :
  sim sync r c (x :: l) t s -> agrees (jitExtCodeSize x) ExtCodeSize_doExecute one sync r l t s.
Proof.
  intros Hs. pose proof (sim_room _ _ _ _ _ _ _ Hs). apply agrees_rwp. unfold jitExtCodeSize, evmGetExtCodeSize, ExtCodeSize_doExecute.
  jit_operands. rewrite load_address, be_trunc_address_spec by done.
  eapply (rwp_coldCharge _ _ _ _ _ _ _ chargeSigned (fun _ => _) (fun _ => _)); [eassumption|..].
  - intros c' t' s1 Hs1 Q' R' HQ. eapply rwp_chargeSigned; [exact Hs1|done|auto].
  - intros h' t1 s1 Hs1. eapply rwp_hostRead; [exact Hs1|]. eapply rwp_room; [exact Hs1|done|].
    eapply rwp_askLast; [exact Hs1|].
    eapply rwp_push_ret; [exact Hs1|done|done|apply u256_of_u64, get_code_size_range|done].
Qed.

Lemma agrees_ExtCodeHash sync r c x l t s :
  sim sync r c (x :: l) t s -> agrees (jitExtCodeHash x) ExtCodeHash_doExecute one sync r l t s.
Proof.
  intros Hs. pose proof (sim_room _ _ _ _ _ _ _ Hs). apply agrees_rwp. unfold jitExtCodeHash, evmGetExtCodeHash, ExtCodeHash_doExecute.
  jit_operands. rewrite load_address, be_trunc_address_spec by done.
  eapply (rwp_coldCharge _ _ _ _ _ _ _ chargeSigned (fun _ => _) (fun _ => _)); [eassumption|..].
  - intros c' t' s1 Hs1 Q' R' HQ. eapply rwp_chargeSigned; [exact Hs1|done|auto].
  - intros h' t1 s1 Hs1. eapply rwp_room; [exact Hs1|done|].
    eapply rwp_hostRead; [exact Hs1|]. eapply rwp_askHost; [exact Hs1|].
    eapply rwp_push_ret; [exact Hs1|done|done|apply bytes_u256, get_code_hash_bytes|done].
Qed.

(** The clamped offset of a code copy. *)
Lemma copy_code_clamp a o n (h : HS) :
  copy_code a (if 2 ^ 32 - 1 <? o then 2 ^ 32 - 1 else o) n h = copy_code a o n h.
Proof. destruct (Z.ltb_spec (2 ^ 32 - 1) o); [|done]. by rewrite !copy_code_past by lia. Qed.

Definition extcode_tail (Addr : list Z) (DestOffset Offset Size : Z) : RM HS unit :=
  copied <- askHost (copy_code Addr (if 2 ^ 32 - 1 <? Offset then 2 ^ 32 - 1 else Offset) Size) ;;
  base_write DestOffset copied ;;;
  if Z.of_nat (length copied) <? Size
  then base_write (DestOffset + Z.of_nat (length copied)) (zeros (Size - Z.of_nat (length copied)))
  else ret tt.

Lemma agrees_ExtCodeCopy sync r c x dest o n l t s :
  sim sync r c (x :: dest :: o :: n :: l) t s ->
  agrees (jitExtCodeCopy x dest o n) ExtCodeCopy_doExecute nothing sync r l t s.
Proof.
  intros Hs. apply agrees_rwp. unfold jitExtCodeCopy, evmSetExtCodeCopy, ExtCodeCopy_doExecute.
  jit_operands. rewrite load_address, be_trunc_address_spec by done. fold (sat dest) (sat o) (sat n).
  apply rwp_bind. eapply rwp_touch; [eassumption|done|done|by apply same_access_sat|].
  intros Ha t1 s1 Hs1 Ev1. destruct (affordable_range (Instance_.visible (rInst t)) (Gas (rInst t)) dest n)
    as (Hn & En & _ & Hoff); [done..|]. rewrite !sat_saturates, En by done. cbn [negb].
  apply rwp_bind. eapply rwp_chargeCopy_any; [exact Hs1|done|]. intros t2 s2 Hs2 Ev2.
  eapply rwp_getCtx; [exact Hs2|]. unfold chargeColdAccount. apply rwp_assoc_l, rwp_bind.
  eapply rwp_coldAccount; [exact Hs2|]. intros cold h' t3 s3 Hs3 Ei3.
  assert (Instance_.visible (rInst t3) = touched (Instance_.visible (rInst t)) dest n) as Ev3 by congruence.
  apply rwp_bind.
  assert (forall t4 s4, sim sync r (set_hst h' c) l t4 s4 ->
    Instance_.visible (rInst t4) = touched (Instance_.visible (rInst t)) dest n ->
    rwp (GasRefundSnapshot r)
      (if n =? 0 then ret tt else extcode_tail (be_bytes 20 x) (uint256ToUint64 dest) (uint256ToUint64 o) n)
      (if 0 <? n then
         copied <- hostRead (copy_code (be_bytes 20 x) (uint256ToUint64 o) n) ;;
         mem_write (uint256ToUint64 dest) copied ;;;
         (if Z.of_nat (length copied) <? n
          then mem_write (uint256ToUint64 dest + Z.of_nat (length copied)) (zeros (n - Z.of_nat (length copied)))
          else ret tt)
       else ret tt) (fun a _ => done_with nothing sync r l a) (done_with nothing sync r l) t4 s4) as Htail.
  { intros t4 s4 Hs4 Ev4. destruct (Z.eqb_spec n 0) as [->|Hn0]; [apply rwp_ret; by eapply done_here|].
    rewrite (proj2 (Z.ltb_lt 0 n)) by lia. unfold extcode_tail.
    eapply rwp_hostRead; [exact Hs4|]. eapply rwp_askHost; [exact Hs4|].
    destruct Hoff as (Ed & _ & Hd); [lia|]. rewrite Ed. rewrite copy_code_clamp.
    destruct (copy_code_bytes (be_bytes 20 x) (uint256ToUint64 o) n h') as [Hcl Hcb]; [lia|].
    cbn [hst set_hst]. eapply rwp_padded; [exact Hs4|done|done|done|done|].
    rewrite Ev4. apply touched_length; lia. }
  destruct cold.
  - eapply rwp_chargeSigned; [exact Hs3|done|]. intros t4 s4 Hs4 Ev4 _. apply Htail; [done|congruence].
  - apply rwp_ret. by apply Htail.
Qed.

(** ** Storage *)

Lemma agrees_SLoad sync r c x l t s :
  sim sync r c (x :: l) t s -> agrees (evmGetSLoad x) SLoad_doExecute one sync r l t s.
Proof.
  intros Hs. pose proof (sim_room _ _ _ _ _ _ _ Hs). apply agrees_rwp. unfold evmGetSLoad, SLoad_doExecute.
  jit_operands. eapply rwp_message; [eassumption|]. intros msg Em _.
  rewrite (msg_field recipient msg (Msg r)) by done.
  eapply rwp_getCtx; [eassumption|]. eapply rwp_getFrame; [eassumption|eapply view_recipient; eapply si_view; eassumption|].
  apply rwp_bind. eapply rwp_coldStorage; [eassumption|]. intros cold h' t1 s1 Hs1 _. apply rwp_bind.
  assert (forall t2 s2, sim sync r (set_hst h' c) l t2 s2 ->
    rwp (GasRefundSnapshot r)
      (Value <- askHost (get_storage (recipient (Msg r)) (be_store x)) ;; ret (be_load Value))
      (v <- hostRead (get_storage (recipient (Msg r)) (be_store x)) ;; push (be_load v))
      (fun a _ => done_with one sync r l a) (done_with one sync r l) t2 s2) as Htail.
  { intros t2 s2 Hs2. eapply rwp_hostRead; [exact Hs2|]. eapply rwp_askHost; [exact Hs2|].
    eapply rwp_push_ret; [exact Hs2|done|done|apply bytes_u256, get_storage_bytes|done]. }
  destruct cold; [|by apply rwp_ret, Htail]. eapply rwp_chargeSigned; [exact Hs1|done|auto].
Qed.

Lemma agrees_TLoad sync r c x l t s :
  sim sync r c (x :: l) t s -> agrees (evmGetTLoad x) TLoad_doExecute one sync r l t s.
Proof.
  intros Hs. pose proof (sim_room _ _ _ _ _ _ _ Hs). apply agrees_rwp. unfold evmGetTLoad, TLoad_doExecute.
  jit_operands. eapply rwp_message; [eassumption|]. intros msg Em _.
  rewrite (msg_field recipient msg (Msg r)) by done.
  eapply rwp_getFrame; [eassumption|eapply view_recipient; eapply si_view; eassumption|].
  eapply rwp_hostRead; [eassumption|]. eapply rwp_askHost; [eassumption|].
  eapply rwp_push_ret; [eassumption|done|done|apply bytes_u256, get_transient_storage_bytes|done].
Qed.

(** A write in a static frame. *)
Lemma rwp_static_stop {A B} sync r c l t s (hm : unit -> HM HS B) Q R :
  sim sync r c l t s ->
  rwp (GasRefundSnapshot r) (@triggerStaticModeViolation HS A)
    (EVM_SET_EXCEPTION_UNLESS false EVMC_STATIC_MODE_VIOLATION ;;; hm tt) Q R t s.
Proof.
  intros Hs. eapply rwp_trap; [done|]. apply wp_bind. eapply vp_unless; [apply Hs|done|].
  intros _ s' Hc. eapply stopped_trapped; [exact Hs|by left|done].
Qed.

Lemma agrees_TStore sync r c k v l t s :
  sim sync r c (k :: v :: l) t s -> agrees (evmSetTStore k v) TStore_doExecute nothing sync r l t s.
Proof.
  intros Hs. apply agrees_rwp. unfold evmSetTStore, TStore_doExecute.
  eapply rwp_isStatic; [exact Hs|]. eapply rwp_static; [exact Hs|].
  destruct (is_static r); [by eapply (rwp_static_stop _ _ _ _ _ _ (fun _ => _))|].
  apply rwp_right, wp_ret. jit_operands. eapply rwp_message; [eassumption|]. intros msg Em _.
  rewrite (msg_field recipient msg (Msg r)) by done.
  eapply rwp_getFrame; [eassumption|eapply view_recipient; eapply si_view; eassumption|].
  eapply rwp_host; [eassumption|intros; apply tx_transient|]. intros. by eapply done_here.
Qed.

Lemma sim_refund sync r c l t s x :
  sim sync r c l t s ->
  sim sync r (refunded x c) l (set_rInst (addGasRefund x (rInst t)) t)
    (on_cx (fun c => set_Inst (addGasRefund x (Inst c)) c) s).
Proof.
  intros [[Hw Hr Ho Hm Hg Hc] []]. split.
  - split; try done. cbn [cx on_cx]. by rewrite Hc.
  - split; try done; cbn [rInst set_rInst].
    + by destruct ma_inst.
    + unfold addGasRefund, refunded. cbn. by rewrite ma_refund.
    + by destruct ma_wf.
    + by destruct ma_caches.
Qed.

Lemma agrees_SStore sync r c k v l t s :
  sim sync r c (k :: v :: l) t s -> agrees (evmSetSStore k v) SStore_doExecute nothing sync r l t s.
Proof.
  intros Hs. apply agrees_rwp. unfold evmSetSStore, SStore_doExecute.
  eapply rwp_isStatic; [exact Hs|]. eapply rwp_static; [exact Hs|].
  destruct (is_static r); [by eapply (rwp_static_stop _ _ _ _ _ _ (fun _ => _))|].
  apply rwp_right, wp_ret. eapply rwp_message; [exact Hs|]. intros msg Em _.
  rewrite (msg_field recipient msg (Msg r)) by done.
  eapply rwp_getCtx; [exact Hs|]. do 2 apply rwp_getInst. rewrite (ma_rev _ _ _ _ (si_matches _ _ _ _ _ _ Hs)).
  eapply rwp_getFrame; [exact Hs|apply (v_gas _ _ _ _ _ _ (si_view _ _ _ _ _ _ Hs))|].
  destruct (rev_ge (Rev (Inst c)) EVMC_ISTANBUL && _).
  { eapply rwp_trap; [done|]. apply wp_bind. eapply vp_unless; [apply Hs|done|].
    intros _ s' Hc. eapply gas_trapped; [exact Hs|by left|done]. }
  apply rwp_bind, rwp_ret. jit_operands.
  eapply rwp_getFrame; [eassumption|eapply view_recipient; eapply si_view; eassumption|].
  apply rwp_bind. eapply rwp_coldStorage; [eassumption|]. intros cold h' t1 s1 Hs1 _.
  apply rwp_bind. eapply rwp_host; [exact Hs1|intros; apply tx_set_storage|].
  intros t2 s2 Hs2 _. cbn [hst set_hst] in *. apply rwp_bind.
  destruct (set_storage _ _ _ h') as [st h2]. cbn [fst snd] in *.
  pose proof (sstore_cost_range (Rev (Inst c)) st).
  assert (0 <= (if cold then COLD_SLOAD_COST else 0) <= 2100) by (by destruct cold).
  eapply rwp_charge; [exact Hs2|unfold wrap; apply Z.mod_pos_bound; lia|]. intros t3 s3 Hs3 _ _.
  unfold rwp. cbn. eapply done_here; [by apply sim_refund|done|done].
Qed.
End Accounts.
