(* ===== verification/EvmImportedEnv.v ===== *)
(** More helpers of compiled code against the handlers: call data, blocks and
    blobs, hashes, logs and the queries without operands; then arithmetic. *)

From stdpp Require Import gmap.
From S2P Require Import Prelude Intx Evmc GasStorageCost EvmInstance Frame HandlerUtil HandlersArith HandlersEnv HandlersCall Interpreter WellFormed Concrete HandlerSafety View AluSpecs MemorySpecs CallSpecs InstanceSpecs EvmImported EvmImportedSim EvmImportedOps.

#[local] Open Scope Z_scope.

Section Env.
Context {HS : Type} {I : Intx} {H : EvmcHost HS} {V : Evmc} {TO : Tolerance} {IL : IntxLaws I} {VL : EvmcLaws V}.
Context {HL : HostLaws HS H} {TC : TxConstant HS H} {CB : CodeBound HS H}.
Implicit Types (t : RtState HS) (s : hstate HS) (c : Context_ HS) (r : EVMFrame) (l : list Z).

(** ** Call data *)

Lemma slice_sat data o n :
  is_u256 o -> Z.of_nat (length data) < 2 ^ 63 -> slice data (sat o) n = slice data o n.
Proof.
  intros Ho Hd. rewrite sat_spec by done. unfold UINT64_MAX. destruct (Z.ltb_spec o (2 ^ 64)); [done|].
  by rewrite !slice_past by lia.
Qed.

Lemma slice_word data o : Forall is_byte data -> bytes_n 32 (slice data o 32).
Proof. intros Hd. split; [by rewrite length_slice|by apply slice_bytes]. Qed.

Lemma caches_loads t x m p o b :
  caches_ok x m t -> CurrentMessage (rInst t) = Some p -> b = slice (input_data m) o 32 ->
  caches_ok x m (set_rCache (set_CalldataLoads (<[(p, o) := b]> (CalldataLoads (rCache t))) (rCache t)) t).
Proof.
  intros [] Hp ->. split; try done. intros p' o' b' Hp'. cbn in Hp'. cbn [rCache set_rCache set_CalldataLoads CalldataLoads].
  rewrite lookup_insert_Some. intros [[[= -> ->] <-]|[_ E]]; [done|]. by eapply ca_loads.
Qed.

(** What the helper reads, from the cache or from the message. *)
Lemma jit_load_run sync r c l t s o :
  sim sync r c l t s -> 0 <= o ->
  exists t', evmGetCallDataLoad o t = Ret (slice (input_data (Msg r)) o 32) t' /\ sim sync r c l t' s.
Proof.
  intros Hs Ho. destruct (sim_vars _ _ _ _ _ _ Hs) as (p & Hp & Em).
  pose proof (ma_caches _ _ _ _ (si_matches _ _ _ _ _ _ Hs)) as Hca.
  unfold evmGetCallDataLoad, bind, getInst, gets. rewrite Hp.
  rewrite (msg_field input_data (rMsgs t p) (Msg r)) by done. set (data := input_data (Msg r)).
  destruct (CalldataLoads (rCache t) !! (p, o)) as [b|] eqn:Ec.
  { rewrite (ca_loads _ _ _ Hca p o b Hp Ec). by exists t. }
  set (res := slice data o 32).
  assert ((if o <? Z.of_nat (length data)
           then bs <- const_read data o (Z.min 32 (Z.of_nat (length data) - o)) ;; ret (bs ++ drop (length bs) zero32)
           else ret zero32) t = Ret res t) as E.
  { destruct (Z.ltb_spec o (Z.of_nat (length data))).
    - unfold const_read, bind. rewrite (proj2 (Z.eqb_neq _ 0)), !(proj2 (Z.leb_le _ _)) by lia.
      cbn [andb]. unfold ret. f_equal. unfold res.
      rewrite (slice_split data o 32 (Z.min 32 (Z.of_nat (length data) - o))) by lia. f_equal.
      unfold zero32, zeros. rewrite drop_replicate, length_take, length_drop. f_equal. lia.
    - unfold res. by rewrite slice_past by lia. }
  unfold bind in E. rewrite E. eexists. split; [done|]. apply sim_cache; [done|]. by apply caches_loads.
Qed.

Lemma agrees_CallDataLoad sync r c o l t s :
  sim sync r c (o :: l) t s -> agrees (jitCallDataLoad o) CallDataLoad_doExecute one sync r l t s.
Proof.
  intros Hs. destruct (sim_input _ _ _ _ _ _ Hs) as [Hb Hi].
  pose proof (sim_operands _ _ _ _ _ _ Hs) as Hu. decompose_Forall_hyps.
  destruct (jit_load_run _ _ _ _ _ _ (sat o) Hs) as (t' & E & Hs'); [by apply sat_u64|].
  destruct (proj1 (vp_CallDataLoad r o l _ _ c s (si_view _ _ _ _ _ _ Hs')) Logic.I) as (s' & Es & Hv).
  unfold agrees, jitCallDataLoad, bind. fold (sat o). rewrite E, slice_sat by done. cbn.
  exists s', r, c. split_and!; [done| |done]. rewrite convert_bytes32 by (by apply slice_word).
  split; [done|]. apply Hs'.
Qed.

(** ** Blocks and blobs *)

Lemma sim_tx sync r c l t s : sim sync r c l t s -> tx_ok (get_tx_context (hst c)).
Proof. intros _. apply get_tx_context_ok. Qed.

(** The block number as a signed word. *)
Lemma block_range v ub :
  is_u256 v -> 0 <= ub < 2 ^ 63 ->
  (i64 (sat v) <? ub) && (Z.max (ub - 256) 0 <=? i64 (sat v)) =
  (v <? of_i64 ub) && (Z.max (ub - 256) 0 <=? i64 (low64 v)) /\
  ((v <? of_i64 ub) && (Z.max (ub - 256) 0 <=? i64 (low64 v)) = true -> i64 (sat v) = i64 (low64 v)).
Proof.
  intros Hv Hub. rewrite of_i64_spec by done. rewrite sat_spec by done. unfold UINT64_MAX, in_u in *.
  destruct (Z.ltb_spec v (2 ^ 64)).
  - rewrite low64_small by (unfold in_u; lia). split; [|done].
    destruct (Z.ltb_spec v (2 ^ 63)); [by rewrite i64_small by lia|].
    rewrite (proj2 (Z.ltb_ge v ub)) by lia. cbn [andb]. apply andb_false_iff. right. apply Z.leb_gt.
    assert (i64 v = v - 2 ^ 64) as -> by (unfold swrap; rewrite (Z.mod_eq (v + 2 ^ (64 - 1))) by lia;
      replace ((v + 2 ^ (64 - 1)) / 2 ^ 64) with 1 by (apply Z.div_unique with (v - 2 ^ 63); lia); lia).
    lia.
  - rewrite (proj2 (Z.ltb_ge v ub)) by lia. split; [|done]. cbn [andb].
    change (i64 (2 ^ 64 - 1)) with (-1). apply andb_false_iff. right. apply Z.leb_gt. lia.
Qed.

Lemma zero32_bytes : bytes_n 32 zero32.
Proof. apply zeros_bytes. Qed.

Lemma convert_load bs : bytes_n 32 bs -> convertBytes32ToU256Operand bs = be_load bs.
Proof. intros Hb. rewrite convert_bytes32 by done. destruct Hb. symmetry. apply be_load_spec; [done|lia]. Qed.

Lemma agrees_BlockHash sync r c v l t s :
  sim sync r c (v :: l) t s -> agrees (jitBlockHash v) BlockHash_doExecute one sync r l t s.
Proof.
  intros Hs. pose proof (sim_room _ _ _ _ _ _ _ Hs). destruct (sim_tx _ _ _ _ _ _ Hs).
  apply agrees_rwp. unfold jitBlockHash, evmGetBlockHash, BlockHash_doExecute. jit_operands. fold (sat v).
  eapply rwp_getTx; [eassumption|]. intros r' s1 Hs1 Em. pose proof (proj2 Em) as Esn. apply rwp_assoc_l. eapply rwp_askHost; [exact Hs1|].
  destruct (block_range v (block_number (get_tx_context (hst c)))) as [Eb Ev]; [done..|]. rewrite Eb.
  set (Hash := if (v <? of_i64 (block_number (get_tx_context (hst c))))
                 && (Z.max (block_number (get_tx_context (hst c)) - 256) 0 <=? i64 (low64 v))
               then get_block_hash (i64 (low64 v)) (hst c) else zero32).
  assert (bytes_n 32 Hash) as Hh by (unfold Hash; case_match; [apply get_block_hash_bytes|apply zero32_bytes]).
  assert (forall t2, sim sync r' c l t2 s1 ->
    rwp (GasRefundSnapshot r) (ret (convertBytes32ToU256Operand Hash)) (push (be_load Hash))
      (fun a _ => done_with one sync r l a) (done_with one sync r l) t2 s1) as Htail.
  { intros t2 Hs2. eapply rwp_push_ret; [exact Hs2|done|done|by apply bytes_u256|].
    unfold one. by rewrite convert_load. }
  set (t2 := set_rCache (set_BlockHashes (<[i64 (sat v) := Hash]> (BlockHashes (rCache t))) (rCache t)) t).
  assert (sim sync r' c l t2 s1) as Hs2
    by (apply sim_cache; [done|]; by destruct (ma_caches _ _ _ _ (si_matches _ _ _ _ _ _ Hs1))).
  specialize (Htail t2 Hs2). unfold Hash in *. case_match eqn:Eq.
  - apply rwp_assoc_l. eapply rwp_hostRead; [exact Hs1|]. eapply rwp_askHost; [exact Hs1|].
    unfold t2 in Htail. rewrite (Ev eq_refl) in Htail |- *. exact Htail.
  - apply rwp_right, wp_ret. exact Htail.
Qed.

Lemma jit_blob_run sync r c l t s i :
  sim sync r c l t s -> 0 <= i ->
  exists t', evmGetBlobHash i t = Ret (blob_hash_at (get_tx_context (hst c)) i) t' /\ sim sync r c l t' s.
Proof.
  intros Hs Hi. pose proof (ma_host _ _ _ _ (si_matches _ _ _ _ _ _ Hs)) as Eh.
  pose proof (ma_caches _ _ _ _ (si_matches _ _ _ _ _ _ Hs)) as Hca.
  unfold evmGetBlobHash. unfold bind at 1, askHost, gets. rewrite Eh. set (x := get_tx_context (hst c)) in *.
  unfold bind at 1. destruct (BlobHashes (rCache t) !! i) as [b|] eqn:Ec.
  { rewrite (ca_blobs _ _ _ Hca i b Ec). by exists t. }
  assert ((if Z.of_nat (length (blob_hashes x)) <=? i then ret zero32
           else of_option (blob_hashes x !! Z.to_nat i) : RM HS (list Z)) t = Ret (blob_hash_at x i) t) as E.
  { unfold blob_hash_at. destruct (Z.leb_spec (Z.of_nat (length (blob_hashes x))) i); [done|].
    destruct (lookup_lt_is_Some_2 (blob_hashes x) (Z.to_nat i)) as [b Hb]; [lia|]. by rewrite Hb. }
  unfold bind at 1. rewrite E. eexists. split; [done|]. apply sim_cache; [done|]. destruct Hca. split; try done.
  intros j b. cbn [rCache set_rCache set_BlobHashes BlobHashes].
  rewrite lookup_insert_Some. intros [[-> <-]|[_ Ej]]; [done|]. by apply ca_blobs.
Qed.

Lemma agrees_BlobHash sync r c v l t s :
  sim sync r c (v :: l) t s -> agrees (jitBlobHash v) BlobHash_doExecute one sync r l t s.
Proof.
  intros Hs. pose proof (sim_room _ _ _ _ _ _ _ Hs). destruct (sim_tx _ _ _ _ _ _ Hs).
  apply agrees_rwp. unfold jitBlobHash, BlobHash_doExecute. jit_operands. fold (sat v).
  eapply rwp_getTx; [eassumption|]. intros r' s1 Hs1 Em. pose proof (proj2 Em) as Esn. set (x := get_tx_context (hst c)) in *.
  destruct (jit_blob_run _ _ _ _ _ _ (sat v) Hs1) as (t2 & Ej & Hs2); [by apply sat_u64|].
  eapply rwp_left; [exact Ej|]. rewrite sat_saturates by done.
  assert (uint256ToUint64 v = if v <? 2 ^ 64 then v else UINT64_MAX) as Ev by (by apply uint256ToUint64_spec).
  unfold blob_hash_at. fold x. unfold UINT64_MAX, in_u in *.
  destruct (Z.leb_spec (Z.of_nat (length (blob_hashes x))) v).
  - rewrite (proj2 (Z.leb_le _ (uint256ToUint64 v))) by (rewrite Ev; case_match; lia).
    eapply rwp_exit; [done|]. apply wp_bind. eapply vp_push; [apply Hs2|done|unfold in_u; lia|].
    intros s3 Hv3. apply wp_exit. exists r', c. split; [|done].
    rewrite convert_bytes32 by apply zero32_bytes. by eapply sim_view.
  - assert (uint256ToUint64 v = v) as -> by (rewrite Ev, (proj2 (Z.ltb_lt _ _)) by lia; done).
    rewrite (proj2 (Z.leb_gt _ v)) by done.
    destruct (lookup_lt_is_Some_2 (blob_hashes x) (Z.to_nat v)) as [b Hb]; [lia|]. rewrite Hb.
    apply rwp_right, wp_ret. eapply rwp_room; [exact Hs2|done|].
    assert (bytes_n 32 b) by (by eapply (Forall_lookup_1 _ _ _ _ tx_ok_hashes)).
    eapply rwp_push_ret; [exact Hs2|done|done|by apply bytes_u256|]. unfold one. cbn. by rewrite convert_load.
Qed.

(** ** Exponentiation *)

Lemma agrees_Exp sync r c a b l t s :
  sim sync r c (a :: b :: l) t s -> agrees (evmGetExp a b) Exp_doExecute one sync r l t s.
Proof.
  intros Hs. pose proof (sim_operands _ _ _ _ _ _ Hs) as Hu. decompose_Forall_hyps.
  apply agrees_rwp. unfold evmGetExp, Exp_doExecute. eapply rwp_check; [exact Hs|simpl; lia|].
  eapply rwp_getFrame; [exact Hs|eapply sim_sp, Hs|]. cbn [length]. rewrite !Nat.sub_succ, !Nat.sub_0_r.
  pose proof (si_view _ _ _ _ _ _ Hs) as Hv.
  apply rwp_right. unfold wp at 1. unfold stack_at at 1. unfold bind at 1, getFrame at 1, gets at 1.
  change (S (length l)) with (length (b :: l)). rewrite (view_cell _ [] _ _ _ _ _ _ Hv). cbn [of_option].
  apply rwp_right. unfold wp at 1. unfold stack_at at 1. unfold bind at 1, getFrame at 1, gets at 1.
  rewrite (view_cell _ [a] _ _ _ _ _ _ Hv). cbn [of_option ret].
  eapply rwp_getCtx; [exact Hs|]. apply rwp_getInst. rewrite (ma_rev _ _ _ _ (si_matches _ _ _ _ _ _ Hs)).
  apply rwp_bind. eapply rwp_charge; [exact Hs|unfold wrap; apply Z.mod_pos_bound; lia|].
  intros t1 s1 Hs1 _ _. pose proof (si_view _ _ _ _ _ _ Hs1) as Hv1. unfold rwp. cbn [ret].
  pose proof (view_cell _ [a] _ _ _ _ _ _ Hv1) as Hc%lookup_lt_Some.
  rewrite bind_stack_set, (proj2 (Nat.ltb_lt _ _)) by done. cbn.
  exists r, c. split; [|done]. eapply sim_view; [exact Hs1|].
  apply (view_result _ [a; b] _ _ _ _ _ (uexp a b) Hv1); [simpl; lia|by apply uexp_range].
Qed.

(** ** Hashes *)

(** The hash cache is transparent. *)
Lemma hash_run sync r c l t s data n :
  sim sync r c l t s -> Z.of_nat (length data) = n -> 0 <= n <= MAX_REQUIRED_MEMORY_SIZE ->
  exists t', hashInput data n t = Ret (keccak256 data) t' /\ sim sync r c l t' s.
Proof.
  intros [Hv Hm] Hl Hn. pose proof (ma_caches _ _ _ _ Hm) as [Htx Hbl Hld Hk].
  assert (u32 n = n) as En by (apply Z.mod_small; unfold MAX_REQUIRED_MEMORY_SIZE in Hn; lia).
  unfold hashInput. unfold bind at 1, gets. rewrite En.
  destruct (lookup_keccak (rKeccak t) data n) as [R|] eqn:El.
  - assert (R = keccak256 data) as ->.
    { unfold lookup_keccak in El. destruct (KeccakCacheMaxInputLen <? n); [done|].
      by eapply find_slot_sound. }
    eexists. split; [done|]. split; [done|]. by apply matches_cache.
  - eexists. split; [done|]. split; [done|]. destruct Hm. split; try done. split; try done.
    by apply insert_keccak_ok.
Qed.

Lemma hash_charge n : 0 <= u64 (u64 (numWords n) * 6).
Proof. unfold wrap. apply Z.mod_pos_bound. lia. Qed.

Lemma hash_bytes data : bytes_n 32 (keccak256 data).
Proof. apply keccak256_bytes. Qed.

(** Compiled code that refuses an access before the interpreter does. *)
Lemma agrees_refused {A} sync r c l l0 t s (jm : RM HS A) hm (res : A -> list Z) :
  sim sync r c l0 t s ->
  jm t = Throw GasLimitExceeded (setExecutionError GasLimitExceeded t) ->
  wp hm (fun _ _ => False)
    (fun s' => exists st, fails GasLimitExceeded st /\ cx s' = set_Status st c) s ->
  agrees jm hm res sync r l t s.
Proof.
  intros Hs Ej Hw. apply agrees_rwp. eapply rwp_trap; [exact Ej|]. eapply wp_mono; [| |exact Hw]; [done|].
  intros s' (st & Hf & Hc). by eapply gas_trapped.
Qed.

Lemma refused_gas c s' :
  cx s' = set_Status EVMC_OUT_OF_GAS c ->
  exists st, fails GasLimitExceeded st /\ cx (HS := HS) s' = set_Status st c.
Proof. intros Hc. exists EVMC_OUT_OF_GAS. split; [by left|done]. Qed.

Lemma agrees_Keccak256 sync r c o n l t s :
  sim sync r c (o :: n :: l) t s -> agrees (jitKeccak256 o n) Keccak256_doExecute one sync r l t s.
Proof.
  intros Hs. pose proof (sim_operands _ _ _ _ _ _ Hs) as Hu. decompose_Forall_hyps.
  pose proof (sim_room _ _ _ _ _ _ _ Hs) as Hroom. simpl in Hroom.
  destruct (normalize_run t o n) as [(jo & En & Ha)|[En [Hov Hno]]]; [done..| |].
  2:{ eapply agrees_refused; [exact Hs|unfold jitKeccak256, bind; by rewrite En|].
      unfold Keccak256_doExecute. pose proof (si_view _ _ _ _ _ _ Hs) as Hv. vp_operands.
      apply wp_bind. eapply vp_payTouch; [eassumption|done..| |by intros ?%Hno]. intros _ s9. apply refused_gas. }
  apply agrees_rwp. unfold jitKeccak256, Keccak256_doExecute. eapply rwp_left; [exact En|]. cbn [fst snd].
  jit_operands. unfold evmGetKeccak256.
  assert (forall t1 s1 data, sim sync r c l t1 s1 -> Z.of_nat (length data) = n -> 0 <= n <= MAX_REQUIRED_MEMORY_SIZE ->
    rwp (GasRefundSnapshot r)
      (y <- (h <- hashInput data n ;; ret (Some h)) ;;
       match y with Some bs => ret (convertBytes32ToU256Operand bs) | None => undef end)
      (push (be_load (keccak256 data))) (fun a _ => done_with one sync r l a) (done_with one sync r l) t1 s1) as Htail.
  { intros t1 s1 data Hs1 Hl Hn. destruct (hash_run _ _ _ _ _ _ data n Hs1 Hl Hn) as (t2 & E & Hs2).
    eapply rwp_left; [unfold bind; by rewrite E|]. eapply rwp_push_ret; [exact Hs2|done|lia|apply bytes_u256, hash_bytes|].
    unfold one. rewrite convert_load by apply hash_bytes. done. }
  destruct (Z.ltb_spec 0 n) as [Hn|Hn].
  - apply rwp_assoc_l, rwp_bind. eapply rwp_touch; [eassumption|done|done|done|].
    intros Haf t1 s1 Hs1 Ev1. destruct (access_facts (Instance_.visible (rInst t)) (Gas (rInst t)) o n)
      as (Hn' & Ho & _ & Eo & _ & _ & Eln & Elo & Hlen); [done..|lia|done|]. rewrite Eln, Elo. cbn [negb].
    rewrite (proj2 (Z.eqb_neq n 0)) by lia. rewrite (sa_offset _ _ _ _ Ha), Eo by lia.
    apply rwp_assoc_l, rwp_bind. eapply rwp_charge; [exact Hs1|apply hash_charge|]. intros t2 s2 Hs2 Ev2 _.
    apply rwp_assoc_l. eapply rwp_read; [exact Hs2|lia|lia|lia|done|right; rewrite Ev2, Ev1; done|].
    intros bs Hb Hl. apply Htail; [done|lia|lia].
  - assert (n = 0) as -> by (unfold in_u in *; lia). change (low64 0) with 0. cbn [Z.eqb].
    apply rwp_right. eapply wp_touch_nothing; [eassumption|]. apply rwp_right.
    change (u64 (u64 (numWords 0) * 6)) with 0. eapply wp_pay_nothing; [eassumption|]. intros s1 Hs1.
    apply rwp_right. unfold mem_read. apply wp_bind, wp_getFrame, wp_ret. by apply Htail.
Qed.

(** ** Logs *)

Lemma jitLog_generic o n ts :
  (length ts <= 4)%nat ->
  jitLog (HS := HS) o n ts =
  (x <- normalizeOffsetWithSize o n ;; evmEmitLogGeneric x.1 x.2 (map Some (map packU256Argument ts))).
Proof.
  intros Hl. destruct ts as [|t1 [|t2 [|t3 [|t4 [|]]]]]; [done..|]. simpl in Hl. lia.
Qed.

Lemma log_topics ts : map loadBytes32FromLE (omap id (map Some (map packU256Argument ts))) = map (be_bytes 32) ts.
Proof.
  assert (forall bs : list (list Z), omap id (map Some bs) = bs) as E
    by (induction bs as [|b bs IH]; [done|]; cbn; by rewrite IH).
  rewrite E, map_map. apply map_ext, load_bytes32.
Qed.

Lemma rwp_popTopics {A B} snap sync r c ts l t s (jm : RM HS A) (h : list (list Z) -> HM HS B) Q R :
  sim sync r c (ts ++ l) t s ->
  (forall s', sim sync r c l t s' -> rwp snap jm (h (map (be_bytes 32) ts)) Q R t s') ->
  rwp snap jm (bind (popTopics (length ts)) h) Q R t s.
Proof.
  revert s h. induction ts as [|x ts IH]; intros s h Hs Hk; cbn [length popTopics]; [by apply rwp_right, wp_ret, Hk|].
  apply rwp_assoc. eapply rwp_pop; [exact Hs|]. intros Hx s1 Hs1. apply rwp_assoc. eapply IH; [exact Hs1|].
  intros s2 Hs2. apply rwp_right, wp_ret. rewrite be_store_spec by done. by apply Hk.
Qed.

Definition log_opcode (ts : list Z) : Z := byte_of_opcode OP_LOG0 + Z.of_nat (length ts).

Lemma log_opcode_topics ts :
  (length ts <= 4)%nat -> Z.to_nat (u32 (log_opcode ts - byte_of_opcode OP_LOG0)) = length ts.
Proof.
  intros Hl. unfold log_opcode. replace (_ + _ - _) with (Z.of_nat (length ts)) by lia.
  unfold wrap. rewrite Z.mod_small by lia. lia.
Qed.

(** The tail of LOG after the fee: topics, data, and the host. *)
Lemma rwp_emit sync r c ts l t s o jo n self :
  sim sync r c (ts ++ l) t s -> 0 <= o -> 0 <= jo -> 0 <= n -> (n <> 0 -> jo = o) ->
  n = 0 \/ o + n <= Z.of_nat (length (Instance_.visible (rInst t))) -> recipient (Msg r) = self ->
  rwp (GasRefundSnapshot r)
    (Data <- base_read jo n ;; doHost (fun h => (tt, emit_log self Data (map (be_bytes 32) ts) h)))
    (Topics <- popTopics (length ts) ;;
     self <- getFrame (fun f => recipient (Msg f)) ;;
     data <- mem_read o n ;;
     hostDo (fun h => (tt, emit_log self data Topics h)))
    (fun a _ => done_with nothing sync r l a) (done_with nothing sync r l) t s.
Proof.
  intros Hs Ho Hjo Hn Ej Hr <-. eapply rwp_popTopics; [exact Hs|]. intros s1 Hs1.
  eapply rwp_getFrame; [exact Hs1|eapply view_recipient, si_view, Hs1|].
  eapply rwp_read; [exact Hs1|done..|]. intros bs _ _.
  eapply rwp_host; [exact Hs1|intros; apply tx_log|]. intros. by eapply done_here.
Qed.

Lemma agrees_Log sync r c o n ts l t s :
  sim sync r c (o :: n :: ts ++ l) t s -> (length ts <= 4)%nat ->
  (is_static r = true -> oversized o n = true -> static_late = true) ->
  agrees (jitLog o n ts) (Log_doExecute (log_opcode ts)) nothing sync r l t s.
Proof.
  intros Hs Hl Hlate. rewrite jitLog_generic by done. pose proof (sim_operands _ _ _ _ _ _ Hs) as Hu.
  apply Forall_cons_1 in Hu as [Ho Hu]. apply Forall_cons_1 in Hu as [Hn _]. pose proof (si_view _ _ _ _ _ _ Hs) as Hv.
  destruct (normalize_run t o n) as [(jo & En & Ha)|[En [Hov Hno]]]; [done..| |].
  2:{ eapply agrees_refused; [exact Hs|unfold bind; by rewrite En|]. unfold Log_doExecute.
      apply wp_bind. eapply vp_isStatic; [exact Hv|]. apply wp_bind. eapply vp_unless; [exact Hv| |].
      - intros _. rewrite log_opcode_topics by done. apply wp_bind. eapply vp_check; [exact Hv|simpl; rewrite length_app; lia|].
        repeat (apply wp_bind; eapply vp_pop; [eassumption|intros ? ? ?]).
        apply wp_bind. eapply vp_payTouch; [eassumption|done..| |by intros ?%Hno]. intros _ s9. apply refused_gas.
      - intros Hst%negb_false_iff s9 Hc. eexists. split; [|exact Hc]. right. auto. }
  apply agrees_rwp. unfold Log_doExecute. eapply rwp_left; [exact En|]. cbn [fst snd]. unfold evmEmitLogGeneric.
  eapply rwp_message; [exact Hs|]. intros msg Em _. rewrite (msg_field recipient msg (Msg r)), log_topics by done.
  eapply rwp_isStatic; [exact Hs|]. eapply rwp_static; [exact Hs|].
  destruct (is_static r); [by eapply (rwp_static_stop _ _ _ _ _ _ (fun _ => _))|].
  apply rwp_right, wp_ret. rewrite log_opcode_topics by done.
  eapply rwp_check; [exact Hs|simpl; rewrite length_app; lia|].
  eapply rwp_pop; [exact Hs|intros _ s1 Hs1]. eapply rwp_pop; [exact Hs1|intros _ s2 Hs2].
  destruct (Z.ltb_spec 0 n) as [Hp|Hz].
  - apply rwp_bind. eapply rwp_touch; [exact Hs2|done|done|done|].
    intros Haf t3 s3 Hs3 Ev3. destruct (access_facts (Instance_.visible (rInst t)) (Gas (rInst t)) o n)
      as (Hn' & Ho' & _ & Eo & _ & _ & Eln & Elo & Hlen); [done..|lia|done|]. rewrite Eln, Elo. cbn [negb].
    rewrite (proj2 (Z.eqb_neq n 0)) by lia. rewrite (sa_offset _ _ _ _ Ha), Eo by lia.
    rewrite u64_small by (unfold MAX_REQUIRED_MEMORY_SIZE in *; lia). rewrite (proj2 (Z.eqb_neq (8 * n) 0)) by lia.
    apply rwp_bind. eapply rwp_charge; [exact Hs3|lia|]. intros t4 s4 Hs4 Ev4 _.
    eapply rwp_emit; [exact Hs4|lia|lia|lia|done|right; rewrite Ev4, Ev3; done|done].
  - assert (n = 0) as -> by (unfold in_u in *; lia). change (low64 0) with 0. cbn [Z.eqb].
    apply rwp_right. eapply wp_touch_nothing; [exact Hs2|]. apply rwp_right.
    change (u64 (8 * 0)) with 0. eapply wp_pay_nothing; [exact Hs2|]. intros s3 Hs3.
    pose proof (rwp_emit sync r c ts l t s3 0 0 0 _ Hs3 ltac:(lia) ltac:(lia) ltac:(lia) ltac:(done) ltac:(by left) eq_refl) as He.
    exact He.
Qed.

(** ** Queries without operands *)

Definition queries : list (RM HS Z * HM HS unit) :=
  [(asWord evmGetAddress, doExecute AddressHandler);
   (asWord evmGetOrigin, doExecute OriginHandler);
   (asWord evmGetCaller, doExecute CallerHandler);
   (asWord evmGetCallValue, doExecute CallValueHandler);
   (evmGetCallDataSize, doExecute CallDataSizeHandler);
   (evmGetCodeSize, doExecute CodeSizeHandler);
   (evmGetGasPrice, doExecute GasPriceHandler);
   (evmGetReturnDataSize, doExecute ReturnDataSizeHandler);
   (asWord evmGetCoinBase, doExecute CoinBaseHandler);
   (evmGetTimestamp, doExecute TimeStampHandler);
   (evmGetNumber, doExecute NumberHandler);
   (asWord evmGetPrevRandao, doExecute PrevRanDaoHandler);
   (evmGetGasLimit, doExecute GasLimitHandler);
   (asWord evmGetChainId, doExecute ChainIdHandler);
   (evmGetSelfBalance, doExecute SelfBalanceHandler);
   (evmGetBaseFee, doExecute BaseFeeHandler);
   (evmGetBlobBaseFee, doExecute BlobBaseFeeHandler);
   (evmGetGas, doExecute GasHandler)].

(** Both sides find the same word. *)
Definition same_word sync r c l (a v : Z) t s : Prop :=
  a = v /\ is_u256 v /\ exists r', sim sync r' c l t s /\ same_frame r r'.

Lemma agrees_query sync r c l t s (jm : RM HS Z) (hm : HM HS Z) :
  sim sync r c l t s -> (length l < 1024)%nat ->
  rwp (GasRefundSnapshot r) jm hm (same_word sync r c l) noexit t s ->
  agrees jm (pushValue hm) one sync r l t s.
Proof.
  intros Hs Hl Hw. apply agrees_rwp. unfold pushValue. eapply rwp_room; [exact Hs|done|].
  unfold rwp, bind in *. destruct (jm t) as [a t'| |e t'|]; try done; destruct (hm s) as [v s'| | |]; try done.
  destruct Hw as (-> & Hv & r' & Hs' & Em).
  pose proof (rwp_push_ret sync r r' c l t' s' v v one Hs' Em Hl Hv eq_refl) as Hp.
  unfold rwp, ret in Hp. by destruct (push v s').
Qed.

Lemma padded_load a : bytes_n 20 a -> convertBytes32ToU256Operand (PaddedAddress a) = be_load a.
Proof.
  intros [Hl Hb]. rewrite convert_bytes32.
  - unfold PaddedAddress. rewrite be_value_app, be_value_zeros. rewrite be_load_spec by (done || lia). lia.
  - unfold PaddedAddress. split; [rewrite length_app, length_replicate; lia|].
    apply Forall_app; split; [apply Forall_zeros|done].
Qed.

Lemma u256_of_small n : Z.of_nat n < 2 ^ 63 -> is_u256 (Z.of_nat n).
Proof. unfold in_u. lia. Qed.

Lemma same_here sync r r' c l t s a v :
  sim sync r' c l t s -> same_frame r r' -> a = v -> is_u256 v -> same_word sync r c l a v t s.
Proof. intros Hs Em -> Hv. split_and!; [done|done|]. by exists r'. Qed.

(** A query about the message, about the transaction. *)
Lemma query_message {X} sync r c l t s (f : evmc_message -> X) (k : X -> Z) (h : X -> Z) :
  sim sync r c l t s -> (forall x, f (set_gas 0 x) = f x) -> k (f (Msg r)) = h (f (Msg r)) -> is_u256 (h (f (Msg r))) ->
  rwp (GasRefundSnapshot r) (m <- getCurrentMessage ;; ret (k (f m)))
    (x <- getFrame (fun fr => f (Msg fr)) ;; ret (h x)) (same_word sync r c l) noexit t s.
Proof.
  intros Hs Hf Ek Hv. eapply rwp_message; [exact Hs|]. intros m Em _. rewrite (msg_field f m (Msg r)) by done.
  eapply rwp_getFrame; [exact Hs|apply (msg_field f); [done|eapply sim_frame_msg, Hs]|].
  apply rwp_ret. by eapply same_here.
Qed.

Lemma query_asked sync r c l t s (k h : evmc_tx_context -> Z) :
  sim sync r c l t s -> k (get_tx_context (hst c)) = h (get_tx_context (hst c)) ->
  is_u256 (h (get_tx_context (hst c))) ->
  rwp (GasRefundSnapshot r) (x <- askHost get_tx_context ;; ret (k x)) (x <- getTxContext ;; ret (h x))
    (same_word sync r c l) noexit t s.
Proof.
  intros Hs Ek Hv. eapply rwp_getTx; [exact Hs|]. intros r' s' Hs' Em. eapply rwp_askHost; [exact Hs'|].
  apply rwp_ret. by eapply same_here.
Qed.

Lemma query_cached sync r c l t s (k h : evmc_tx_context -> Z) :
  sim sync r c l t s -> k (get_tx_context (hst c)) = h (get_tx_context (hst c)) ->
  is_u256 (h (get_tx_context (hst c))) ->
  rwp (GasRefundSnapshot r) (x <- cachedTxContext ;; ret (k x)) (x <- getTxContext ;; ret (h x))
    (same_word sync r c l) noexit t s.
Proof.
  intros Hs Ek Hv. eapply rwp_getTx; [exact Hs|]. intros r' s' Hs' Em. eapply rwp_cachedTx; [exact Hs'|].
  intros t' Hs''. apply rwp_ret. by eapply same_here.
Qed.

Lemma sim_addresses sync r c l t s :
  sim sync r c l t s -> bytes_n 20 (recipient (Msg r)) /\ bytes_n 20 (sender (Msg r)) /\ bytes_n 32 (value (Msg r)).
Proof. intros [[[] <- _ _ _ _] _]. done. Qed.

Lemma i64_word z : 0 <= z < 2 ^ 63 -> is_u256 (of_i64 z).
Proof. intros. by eapply of_i64_range. Qed.

Lemma agrees_queries sync r c l t s :
  sim sync r c l t s -> returned sync = true -> (length l < 1024)%nat ->
  Forall (fun q => agrees q.1 q.2 one sync r l t s) queries.
Proof.
  intros Hs Hmode Hl. pose proof (sim_wf _ _ _ _ _ _ Hs) as [_ _ Hret _ Hcode _].
  destruct (sim_tx _ _ _ _ _ _ Hs). destruct (sim_addresses _ _ _ _ _ _ Hs) as (Ha & Hse & Hva).
  destruct (sim_input _ _ _ _ _ _ Hs) as [_ Hi]. pose proof (sim_gas _ _ _ _ _ _ Hs).
  repeat apply Forall_cons; try apply Forall_nil_2; cbn [fst snd]; (eapply agrees_query; [exact Hs|done|]);
    unfold asWord; try apply rwp_assoc_l.
  - apply (query_message sync r c l t s recipient (fun a => convertBytes32ToU256Operand (PaddedAddress a)) be_load); auto using padded_load, bytes20_u256.
  - apply (query_cached sync r c l t s (fun x => convertBytes32ToU256Operand (PaddedAddress (tx_origin x))) (fun x => be_load (tx_origin x))); auto using padded_load, bytes20_u256.
  - apply (query_message sync r c l t s sender (fun a => convertBytes32ToU256Operand (PaddedAddress a)) be_load); auto using padded_load, bytes20_u256.
  - apply (query_message sync r c l t s value convertBytes32ToU256Operand be_load); auto using convert_load, bytes_u256.
  - apply (query_message sync r c l t s input_data (fun d => Z.of_nat (length d)) (fun d => Z.of_nat (length d))); auto using u256_of_small.
  - eapply rwp_getCtx; [exact Hs|]. unfold rwp, evmGetCodeSize, getInst, gets, ret. rewrite (sim_code _ _ _ _ _ _ Hs).
    eapply same_here; [exact Hs|done|done|]. apply u256_of_small. lia.
  - apply query_asked; auto using bytes_u256.
  - eapply rwp_getCtx; [exact Hs|]. unfold rwp, evmGetReturnDataSize, getInst, gets, ret.
    rewrite (ma_return _ _ _ _ (si_matches _ _ _ _ _ _ Hs)) by done.
    eapply same_here; [exact Hs|done|done|]. by apply u256_of_small.
  - apply (query_cached sync r c l t s (fun x => convertBytes32ToU256Operand (PaddedAddress (block_coinbase x))) (fun x => be_load (block_coinbase x))); auto using padded_load, bytes20_u256.
  - apply query_asked; auto using i64_word.
  - apply query_asked; auto using i64_word.
  - apply (query_cached sync r c l t s (fun x => convertBytes32ToU256Operand (block_prev_randao x)) (fun x => be_load (block_prev_randao x))); auto using convert_load, bytes_u256.
  - apply query_asked; auto using i64_word.
  - apply (query_cached sync r c l t s (fun x => convertBytes32ToU256Operand (chain_id x)) (fun x => be_load (chain_id x))); auto using convert_load, bytes_u256.
  - eapply rwp_message; [exact Hs|]. intros m Em _. rewrite (msg_field recipient m (Msg r)) by done.
    eapply rwp_getFrame; [exact Hs|eapply view_recipient, si_view, Hs|].
    eapply rwp_hostRead; [exact Hs|]. eapply rwp_askHost; [exact Hs|]. apply rwp_ret.
    eapply same_here; [exact Hs|done|done|apply bytes_u256, get_balance_bytes].
  - apply query_asked; auto using bytes_u256.
  - apply query_asked; auto using bytes_u256.
  - eapply rwp_getFrame; [exact Hs|apply (v_gas _ _ _ _ _ _ (si_view _ _ _ _ _ _ Hs))|].
    unfold rwp, evmGetGas, getInst, gets, ret. eapply same_here; [exact Hs|done| |by apply i64_word].
    by rewrite of_i64_spec.
Qed.
End Env.

(** The arithmetic helpers of compiled code against the operators of the
    interpreter.

    Four of the helpers compute a result another way than the interpreter:
    signed division by absolute values, modular multiplication through a
    512-bit product, the count of leading zeros through a word. *)

#[local] Open Scope Z_scope.

Section Alu.
Context {I : Intx} {IL : IntxLaws I} {I5 : Intx512} {IL5 : Intx512Laws I5}.

(** The arithmetic helpers of the runtime, by the instruction they compute,
    on its operands with the top one first. *)
Definition helperAlu (op : evmc_opcode) (args : list Z) : option Z :=
  match op, args with
  | OP_MUL, [a; b] => Some (evmGetMul a b)
  | OP_DIV, [a; b] => Some (evmGetDiv a b)
  | OP_SDIV, [a; b] => Some (evmGetSDiv a b)
  | OP_MOD, [a; b] => Some (evmGetMod a b)
  | OP_SMOD, [a; b] => Some (evmGetSMod a b)
  | OP_ADDMOD, [a; b; n] => Some (evmGetAddMod a b n)
  | OP_MULMOD, [a; b; n] => Some (evmGetMulMod a b n)
  | OP_CLZ, [a] => Some (evmGetClz a)
  | _, _ => None
  end.

(** ** Signed division *)

(** Two's complement negation. *)
Lemma negate_spec v : is_u256 v -> uadd (unot v) 1 = wrap 256 (- v).
Proof.
  intros Hv. unfold in_u in Hv. rewrite unot_spec by done.
  rewrite uadd_spec; [|unfold in_u; lia|by apply u256_lt].
  unfold wrap. replace (2 ^ 256 - 1 - v + 1) with (- v + 1 * 2 ^ 256) by lia. by rewrite Z_mod_plus_full.
Qed.

Lemma sign_shift v : is_u256 v -> negb (ushr v 255 =? 0) = negb (v <? 2 ^ 255).
Proof.
  intros Hv. rewrite ushr_spec by (done || by apply u256_lt). change (255 <? 256) with true. cbn iota.
  rewrite Z.shiftr_div_pow2 by lia. unfold in_u in Hv. f_equal.
  destruct (Z.ltb_spec v (2 ^ 255)).
  - by rewrite Z.div_small by lia.
  - apply Z.eqb_neq. assert (1 <= v / 2 ^ 255); [|lia]. apply Z.div_le_lower_bound; lia.
Qed.

(** The magnitude and the sign of the signed reading. *)
Lemma magnitude v : is_u256 v ->
  (if negb (v <? 2 ^ 255) then uadd (unot v) 1 else v) = Z.abs (sval v) /\
  0 <= Z.abs (sval v) <= 2 ^ 255 /\ negb (v <? 2 ^ 255) = (sval v <? 0).
Proof.
  intros Hv. rewrite sval_cases, negate_spec by done. unfold in_u in Hv.
  destruct (Z.ltb_spec v (2 ^ 255)); cbn [negb].
  - split_and!; [lia..|]. symmetry. apply Z.ltb_ge. lia.
  - split_and!; [|lia..|symmetry; apply Z.ltb_lt; lia].
    unfold wrap. rewrite Z.abs_neq by lia. replace (- v) with (2 ^ 256 - v + (-1) * 2 ^ 256) by lia.
    rewrite Z_mod_plus_full, Z.mod_small; lia.
Qed.

Lemma quot_abs a b : b <> 0 ->
  Z.quot a b = if xorb (a <? 0) (b <? 0) then - (Z.abs a / Z.abs b) else Z.abs a / Z.abs b.
Proof.
  intros Hb. destruct (Z.ltb_spec a 0), (Z.ltb_spec b 0); cbn [xorb];
    rewrite ?(Z.abs_neq a), ?(Z.abs_eq a), ?(Z.abs_neq b), ?(Z.abs_eq b) by lia;
    rewrite <- Z.quot_div_nonneg by lia;
    rewrite ?Z.quot_opp_l, ?Z.quot_opp_r by lia; lia.
Qed.

Lemma sdiv_abs a b : is_u256 a -> is_u256 b -> evmGetSDiv a b = SDivOP a b.
Proof.
  intros Ha Hb. unfold evmGetSDiv, SDivOP. destruct (Z.eqb_spec b 0) as [|Hb0]; [done|].
  rewrite sdivrem_spec, !sign_shift by done. cbn [fst].
  destruct (magnitude a Ha) as (-> & Ra & ->), (magnitude b Hb) as (-> & Rb & ->).
  assert (sval b <> 0) as Hs.
  { rewrite sval_cases by done. unfold in_u in Hb. destruct (b <? 2 ^ 255); lia. }
  assert (is_u256 (Z.abs (sval a))) as Ua by (unfold in_u; lia).
  assert (is_u256 (Z.abs (sval b))) as Ub by (unfold in_u; lia).
  rewrite udiv_spec by (done || lia). rewrite quot_abs by done.
  assert (0 <= Z.abs (sval a) / Z.abs (sval b) <= Z.abs (sval a)) as Hq.
  { split; [apply Z.div_pos; lia|]. apply Z.div_le_upper_bound; nia. }
  destruct (xorb _ _).
  - apply negate_spec. unfold in_u. lia.
  - unfold wrap. rewrite Z.mod_small; lia.
Qed.

(** ** Products and counts *)

Lemma mulmod_wide a b n : is_u256 a -> is_u256 b -> is_u256 n -> evmGetMulMod a b n = MulmodOP a b n.
Proof.
  intros Ha Hb Hn. unfold evmGetMulMod, MulmodOP. destruct (Z.eqb_spec n 0); [done|].
  rewrite mulmod_spec by done. unfold in_u in *.
  assert (0 <= a * b < 2 ^ 512) as Hp.
  { split; [nia|]. change (2 ^ 512) with (2 ^ 256 * 2 ^ 256). apply Z.mul_lt_mono_nonneg; lia. }
  assert (2 ^ 256 < 2 ^ 512) by (by apply Z.pow_lt_mono_r).
  rewrite umul512_spec by (unfold in_u; lia). rewrite (Z.mod_small (a * b)) by done.
  rewrite umod512_spec by (unfold in_u; lia). unfold wrap. apply Z.mod_small.
  pose proof (Z.mod_pos_bound (a * b) n). lia.
Qed.

Lemma clz_word a : is_u256 a -> evmGetClz a = ClzOP a.
Proof.
  intros Ha. unfold evmGetClz, ClzOP. assert (0 <= uclz a <= 256) as Hc.
  { rewrite uclz_spec by done. destruct (Z.eqb_spec a 0); [lia|]. unfold in_u in Ha.
    pose proof (Z.log2_nonneg a). assert (Z.log2 a < 256) by (apply Z.log2_lt_pow2; lia). lia. }
  unfold of_words, u64, wrap. rewrite Z.mod_small by lia. lia.
Qed.

(** Every arithmetic helper returns what the Yellow Paper defines. *)
Lemma helperAlu_spec op args v :
  Forall (fun a => is_u256 a) args -> helperAlu op args = Some v -> alu_spec op args = Some v.
Proof.
  intros Hu. unfold helperAlu, alu_spec.
  destruct op, args as [|a [|b [|d [|]]]]; try done; decompose_Forall_hyps; intros [= <-]; f_equal.
  - symmetry. by apply umul_spec.
  - unfold evmGetDiv. destruct (Z.eqb_spec b 0); [done|]. symmetry. by apply udiv_spec.
  - rewrite sdiv_abs by done. unfold SDivOP. destruct (Z.eqb_spec b 0); [done|]. by rewrite sdivrem_spec.
  - unfold evmGetMod. destruct (Z.eqb_spec b 0); [done|]. symmetry. by apply umod_spec.
  - unfold evmGetSMod. destruct (Z.eqb_spec b 0); [done|]. by rewrite sdivrem_spec.
  - unfold evmGetAddMod. destruct (Z.eqb_spec d 0); [done|]. symmetry. by apply addmod_spec.
  - rewrite mulmod_wide by done. unfold MulmodOP. destruct (Z.eqb_spec d 0); [done|]. symmetry. by apply mulmod_spec.
  - rewrite clz_word by done. symmetry. by apply uclz_spec.
Qed.
End Alu.
