(* ===== verification/EvmImportedCalls.v ===== *)
(** Calls and creations made by compiled code against the handlers of the
    interpreter.

    The interpreter clears its return data when a call begins, compiled code
    when it ends; the interpreter expands memory for the input and then for
    the output, compiled code once for the larger of the two; the accounts of
    gas, refund, memory and return data are settled in a different order.
    The lemmas below show that none of this can be observed. *)

From stdpp Require Import gmap.
From S2P Require Import Prelude Intx Evmc GasStorageCost EvmInstance Frame HandlerUtil.
From S2P Require Import HandlersArith HandlersEnv HandlersCall Interpreter WellFormed Concrete HandlerSafety View.
From S2P Require Import AluSpecs MemorySpecs CallSpecs InstanceSpecs EvmImported EvmImportedSim EvmImportedOps EvmImportedEnv.

#[local] Open Scope Z_scope.

(** * Two accesses to memory *)

(** The one of two ranges that reaches further. *)
Definition farther (oA nA oB nB : Z) : Z * Z :=
  if nA =? 0 then (oB, nB)
  else if nB =? 0 then (oA, nA)
  else if oA + nA <? oB + nB then (oB, nB) else (oA, nA).

Lemma extended_twice m a b : a <= b -> extended (extended m a) b = extended m b.
Proof.
  intros Hab. unfold extended. rewrite length_app, length_replicate, <- app_assoc, <- replicate_add.
  do 2 f_equal. assert (ceil32 a <= ceil32 b) by (unfold ceil32; div_lia). lia.
Qed.

Lemma length_extended m n :
  Z.of_nat (length m) mod 32 = 0 -> words (Z.of_nat (length (extended m n))) = Z.max (words (Z.of_nat (length m))) (words n).
Proof.
  intros Hm. unfold extended, words, ceil32. rewrite length_app, length_replicate.
  apply Z.mod_divide in Hm as [k Hk]; [|lia]. set (a := (n + 31) / 32). rewrite Hk.
  assert (forall x, (x * 32 + 31) / 32 = x) as E by (intros; div_lia). rewrite E.
  transitivity ((Z.max k a * 32 + 31) / 32); [|apply E]. f_equal. lia.
Qed.

Lemma fee_twice m a b :
  Z.of_nat (length m) mod 32 = 0 -> a <= b ->
  expansion_fee (Z.of_nat (length m)) a + expansion_fee (Z.of_nat (length (extended m a))) b
  = expansion_fee (Z.of_nat (length m)) b.
Proof.
  intros Hm Hab. unfold expansion_fee. rewrite length_extended by done.
  assert (words a <= words b) by (unfold words; div_lia).
  rewrite <- Z.max_assoc, (Z.max_r (words a) (words b)) by done. lia.
Qed.

Lemma length_touched m o n : Z.of_nat (length m) mod 32 = 0 -> Z.of_nat (length (touched m o n)) mod 32 = 0.
Proof.
  intros Hm. unfold touched, extended, ceil32. destruct (n =? 0); [done|]. rewrite length_app, length_replicate.
  apply Z.mod_divide in Hm as [k Hk]; [|lia]. apply Z.mod_divide; [lia|].
  exists (Z.max k ((o + n + 31) / 32)). lia.
Qed.

(** Paying for both accesses is paying for the farther one. *)
Lemma farther_touched m g oA nA oB nB o n :
  farther oA nA oB nB = (o, n) -> Z.of_nat (length m) mod 32 = 0 -> 0 <= g ->
  0 <= oA -> 0 <= nA -> 0 <= oB -> 0 <= nB ->
  touched (touched m oA nA) oB nB = touched m o n /\
  touch_fee m oA nA + touch_fee (touched m oA nA) oB nB = touch_fee m o n /\
  (affordable m g oA nA 0 /\ affordable (touched m oA nA) (g - touch_fee m oA nA) oB nB 0 <-> affordable m g o n 0).
Proof.
  intros Ef Hm Hg HoA HnA HoB HnB. unfold farther in Ef.
  destruct (Z.eqb_spec nA 0) as [->|HA0].
  { injection Ef as <- <-. cbn. rewrite Z.sub_0_r. split_and!; [done..|]. unfold affordable at 1. cbn. intuition lia. }
  destruct (Z.eqb_spec nB 0) as [->|HB0].
  { injection Ef as <- <-. cbn. split_and!; [done|lia|]. split; [by intros [? _]|]. intros Ha. split; [done|].
    destruct Ha as [_ Ha]. split; [by left|]. cbn. lia. }
  destruct (Z.ltb_spec (oA + nA) (oB + nB)); injection Ef as <- <-.
  - pose proof (fee_twice m (oA + nA) (oB + nB) Hm ltac:(lia)) as Hf.
    pose proof (expansion_fee_nonneg (Z.of_nat (length m)) (oA + nA) ltac:(lia)).
    pose proof (expansion_fee_nonneg (Z.of_nat (length (extended m (oA + nA)))) (oB + nB) ltac:(lia)).
    unfold affordable, touched, touch_fee. rewrite !(proj2 (Z.eqb_neq _ 0)) by done.
    rewrite extended_twice by lia. split_and!; [done|done|]. intuition lia.
  - pose proof (length_touched m oA nA Hm). pose proof (touched_length m oA nA HoA ltac:(lia)).
    destruct (touched_covered (touched m oA nA) oB nB) as [Et Efee]; [lia|lia|done|].
    split_and!; [done|lia|]. split; [by intros [? _]|]. intros Ha. split; [done|]. destruct Ha as [Hr Ha].
    split; [right; lia|]. lia.
Qed.

(** [expandMemoryChecked] with two ranges expands for the farther one. *)
Lemma checked2_farther oA nA oB nB s o n :
  0 < nA -> 0 < nB -> is_u64 oA -> is_u64 nA -> is_u64 oB -> is_u64 nB -> farther oA nA oB nB = (o, n) ->
  Instance_.expandMemoryChecked2 oA nA oB nB s = Instance_.expandMemoryChecked o n s.
Proof.
  intros HA HB. unfold in_u. intros ???? Ef. unfold Instance_.expandMemoryChecked2, farther in *.
  rewrite !(proj2 (Z.ltb_lt _ _)) by done. cbn [negb andb].
  rewrite !(proj2 (Z.eqb_neq _ 0)) in * by lia. unfold Instance_.calcRequiredMemorySize, UINT64_MAX in *.
  destruct (Z.ltb_spec (oA + nA) (oB + nB)); injection Ef as <- <-; unfold Instance_.expandMemoryChecked;
    rewrite !(proj2 (Z.eqb_neq _ 0)) by lia; unfold Instance_.calcRequiredMemorySize, UINT64_MAX;
    destruct (Z.ltb_spec (2 ^ 64 - 1 - nA) oA), (Z.ltb_spec (2 ^ 64 - 1 - nB) oB); try lia; try done.
  - by rewrite Z.max_r by lia.
  - by rewrite Z.max_l by lia.
Qed.

Section Touch.
Context {HS : Type} {I : Intx} {H : EvmcHost HS} {V : Evmc} {TO : Tolerance} {IL : IntxLaws I}.
Context {HL : HostLaws HS H} {TC : TxConstant HS H}.
Implicit Types (t : RtState HS) (s : hstate HS) (c : Context_ HS) (r : EVMFrame) (l : list Z).

Lemma callMemory_farther oA nA oB nB o n t :
  is_u64 oA -> is_u64 nA -> is_u64 oB -> is_u64 nB -> farther oA nA oB nB = (o, n) ->
  expandCallMemory oA nA oB nB t = expandChecked o n t \/ (n = 0 /\ expandCallMemory oA nA oB nB t = Ret true t).
Proof.
  intros HoA HnA HoB HnB Ef. pose proof Ef as Ef'. unfold expandCallMemory, farther in *. unfold in_u in HnA, HnB.
  destruct (Z.ltb_spec 0 nA), (Z.ltb_spec 0 nB); cbn [andb].
  - left. unfold expandChecked, lift. by rewrite (checked2_farther oA nA oB nB (viewInst t) o n).
  - left. assert (nB = 0) as -> by lia. rewrite (proj2 (Z.eqb_neq nA 0)) in Ef by lia. by injection Ef as <- <-.
  - left. assert (nA = 0) as -> by lia. by injection Ef as <- <-.
  - right. assert (nA = 0) as -> by lia. injection Ef as <- <-. split; [lia|done].
Qed.

Definition both (m : list Z) (g oA nA oB nB : Z) : Prop :=
  affordable m g oA nA 0 /\ affordable (touched m oA nA) (g - touch_fee m oA nA) oB nB 0.

Lemma wp_touch2 r c l m g s oA nA jA oB nB jB :
  view r l m g c s -> is_u256 oA -> is_u256 nA -> is_u256 oB -> is_u256 nB ->
  same_access oA nA jA nA -> same_access oB nB jB nB ->
  wp (orStatus (checkMemoryExpandAndChargeGas oA nA) EVMC_OUT_OF_GAS ;;;
      orStatus (checkMemoryExpandAndChargeGas oB nB) EVMC_OUT_OF_GAS)
    (fun _ s' => both m g jA nA jB nB /\
       view r l (touched (touched m jA nA) jB nB)
         (g - (touch_fee m jA nA + touch_fee (touched m jA nA) jB nB)) c s')
    (fun s' => ~ both m g jA nA jB nB /\ cx s' = set_Status EVMC_OUT_OF_GAS c) s.
Proof.
  intros Hv HoA HnA HoB HnB HA HB. unfold both.
  pose proof (same_access_affordable m g oA nA jA nA HoA HnA HA) as EA.
  apply wp_bind. eapply vp_payTouch; [exact Hv|done|done| |].
  { intros Hno s' Hc. split; [by intros [?%EA _]|done]. }
  intros Ha s1 Hv1. destruct (same_access_exact m g oA nA jA nA) as (_ & _ & -> & ->); [done..|].
  pose proof (same_access_affordable (touched m oA nA) (g - touch_fee m oA nA) oB nB jB nB HoB HnB HB) as EB.
  eapply vp_payTouch; [exact Hv1|done|done| |].
  { intros Hno s' Hc. split; [by intros [_ ?%EB]|done]. }
  intros Ha' s2 Hv2. destruct (same_access_exact (touched m oA nA) (g - touch_fee m oA nA) oB nB jB nB) as (_ & _ & -> & ->); [done..|].
  split; [by rewrite EA, EB|]. by rewrite Z.sub_add_distr.
Qed.

(** The two expansions of the interpreter are the one of compiled code. *)
Lemma rwp_touch2 sync r c l t s oA nA jA oB nB jB Q R :
  let m := Instance_.visible (rInst t) in
  sim sync r c l t s -> is_u256 oA -> is_u256 nA -> is_u256 oB -> is_u256 nB ->
  same_access oA nA jA nA -> same_access oB nB jB nB ->
  (forall t' s', sim sync r c l t' s' ->
     0 <= nA <= MAX_REQUIRED_MEMORY_SIZE -> 0 <= nB <= MAX_REQUIRED_MEMORY_SIZE ->
     (nA <> 0 -> jA = oA /\ oA + nA <= Z.of_nat (length (Instance_.visible (rInst t')))) ->
     (nB <> 0 -> jB = oB /\ oB + nB <= Z.of_nat (length (Instance_.visible (rInst t')))) ->
     Q true tt t' s') ->
  rwp (GasRefundSnapshot r) (expandCallMemory jA nA jB nB)
    (orStatus (checkMemoryExpandAndChargeGas oA nA) EVMC_OUT_OF_GAS ;;;
     orStatus (checkMemoryExpandAndChargeGas oB nB) EVMC_OUT_OF_GAS) Q R t s.
Proof.
  intros m Hs HoA HnA HoB HnB HA HB HQ. pose proof (si_view _ _ _ _ _ _ Hs) as Hv. fold m in Hv.
  pose proof (view_bounds _ _ _ _ _ _ Hv) as (_ & Hg & Hm & _).
  assert (is_u64 nA) as UA by (rewrite (sa_size _ _ _ _ HA); by apply sat_u64).
  assert (is_u64 nB) as UB by (rewrite (sa_size _ _ _ _ HB); by apply sat_u64).
  pose proof (sa_range _ _ _ _ HA) as RA. pose proof (sa_range _ _ _ _ HB) as RB.
  pose proof (wp_touch2 _ _ _ _ _ _ _ _ _ _ _ _ Hv HoA HnA HoB HnB HA HB) as Hw.
  destruct (farther jA nA jB nB) as [jo jn] eqn:Ef.
  destruct (farther_touched m (Gas (rInst t)) jA nA jB nB jo jn Ef Hm) as (Et & Efee & Haf);
    [unfold in_u in *; lia..|]. fold (both m (Gas (rInst t)) jA nA jB nB) in Haf. rewrite Et, Efee in Hw.
  assert (is_u64 jo /\ is_u64 jn) as [Uo Un]
    by (unfold farther in Ef; repeat case_match; by injection Ef as <- <-).
  assert (forall s', both m (Gas (rInst t)) jA nA jB nB ->
    forall t', sim sync r c l t' s' -> Instance_.visible (rInst t') = touched m jo jn -> Q true tt t' s') as HQ'.
  { intros s' [Ha Hb] t' Hs' Ev.
    pose proof (proj1 (same_access_affordable _ _ _ _ _ _ HoA HnA HA) Ha) as Ha'.
    pose proof (proj1 (same_access_affordable _ _ _ _ _ _ HoB HnB HB) Hb) as Hb'.
    destruct (same_access_exact _ _ _ _ _ _ HoA HnA HA Ha') as (_ & EA & _).
    destruct (same_access_exact _ _ _ _ _ _ HoB HnB HB Hb') as (_ & EB & _).
    destruct (affordable_range _ _ _ _ HoA HnA Ha') as [? _], (affordable_range _ _ _ _ HoB HnB Hb') as [? _].
    unfold in_u in *. apply HQ; [done..| |]; (intros Hne; split; [by auto|]); rewrite Ev, <- Et.
    - rewrite <- EA by done. pose proof (touched_length m jA nA ltac:(lia) ltac:(lia)) as HL1.
      unfold touched at 1. destruct (nB =? 0); [lia|]. unfold extended. rewrite length_app. lia.
    - rewrite <- EB by done. apply touched_length; lia. }
  unfold rwp. unfold wp in Hw. destruct (callMemory_farther jA nA jB nB jo jn t) as [->|[-> E]]; [done..| |].
  - destruct (jit_touch sync r c l t s jo jn Hs Uo Un) as [Hyes Hno]. fold m in Hyes, Hno.
    destruct (bind _ _ s) as [[] s'|s'| |]; try done.
    + destruct Hw as [Hb Hv']. destruct (Hyes (proj1 Haf Hb)) as (t' & -> & Ev & Eg & Hmt).
      eapply HQ'; [done| |done]. split; [by rewrite Ev, Eg|done].
    + destruct Hw as [Hb Hc]. rewrite Hno by (by rewrite <- Haf). by eapply not_affordable_trapped.
  - rewrite E. destruct (bind _ _ s) as [[] s'|s'| |]; try done.
    + destruct Hw as [Hb Hv']. eapply HQ'; [done| |done]. cbn in Hv'. rewrite Z.sub_0_r in Hv'. by eapply sim_view.
    + destruct Hw as [[] _]. apply Haf. split; [by left|]. cbn. lia.
Qed.
End Touch.

(** * The call itself *)

Section Call.
Context {HS : Type} {I : Intx} {H : EvmcHost HS} {V : Evmc} {TO : Tolerance} {IL : IntxLaws I}.
Context {HL : HostLaws HS H} {TC : TxConstant HS H}.
Implicit Types (t : RtState HS) (s : hstate HS) (c : Context_ HS) (r : EVMFrame) (l : list Z).

(** The message of a call is none of those in use. *)
Lemma fresh_ref_fresh ms m : m ∈ ms -> m <> Some (fresh_ref ms).
Proof.
  intros Hm ->. unfold fresh_ref in Hm.
  assert (forall x : option MsgRef, x ∈ ms -> (ref_number x <= foldr Nat.max 0 (map ref_number ms))%nat) as Hle.
  { clear. induction ms as [|y ms IH]; [by intros x ?%not_elem_of_nil|]. intros x [->|Hx]%elem_of_cons; cbn; [lia|].
    specialize (IH _ Hx). lia. }
  specialize (Hle _ Hm). cbn [ref_number] in Hle. lia.
Qed.

(** Pushing and popping a message leaves the instance as it was. *)
Lemma pushed_popped (i : EVMInstance) p p' d :
  inst_ok i -> (0 < MemorySize i -> MemoryBase i = true) -> head (MessageStack i) = Some (Some p) ->
  CurrentMessage i = Some p -> d p = Gas i ->
  let i' := popMessage d (pushMessage d (Some p') i) in
  same_but i i' /\ Gas i' = Gas i /\ Instance_.visible i' = Instance_.visible i /\ inst_ok i' /\
  (0 < MemorySize i' -> MemoryBase i' = true).
Proof.
  intros Hi Hb Htop Hcur Hd. destruct (Hi) as [Hw Hz Hbuf Hg Hm].
  destruct i as [code g0 ref rev cur ms grs base size buf mst rd st sts].
  cbn [MessageStack CurrentMessage Gas MemorySize MemoryBase head] in *.
  destruct ms as [|x ms]; [done|]. injection Htop as ->. cbn. subst. rewrite u64_small by lia.
  split_and!; try done; [by split..|]. intros Hpos. destruct buf; [done|]. cbn in Hbuf. lia.
Qed.

Lemma matches_pushed sync r c t p M i :
  matches sync r c t -> same_but (rInst t) i -> Gas i = Gas (rInst t) -> inst_ok i ->
  (0 < MemorySize i -> MemoryBase i = true) -> CurrentMessage (rInst t) <> Some p ->
  matches sync r c (set_rInst i (set_rMsgs (fun q => if decide (q = p) then M else rMsgs t q) t)).
Proof.
  intros [] [] Eg Hi Hb Hp. split; cbn [rInst rMsgs rHost set_rInst set_rMsgs]; rewrite ?Eg; try congruence; auto.
  - rewrite sb_current. intros q Hq. rewrite decide_False by congruence. auto.
  - rewrite sb_current. intros q Hy Hq. rewrite decide_False by congruence. auto.
  - rewrite sb_return. auto.
  - destruct ma_caches. split; cbn [rInst rCache rKeccak set_rInst set_rMsgs]; auto. rewrite sb_current. auto.
Qed.

Lemma rwp_callHost snap sync r c l t s M Q R :
  sim sync r c l t s -> synced sync = true ->
  (forall t' s', sim sync r (set_hst (host_call M (hst c)).2 c) l t' s' ->
     Instance_.visible (rInst t') = Instance_.visible (rInst t) -> Gas (rInst t') = Gas (rInst t) ->
     Q (host_call M (hst c)).1 (host_call M (hst c)).1 t' s') ->
  rwp snap (callHost M) (hostDo (host_call M)) Q R t s.
Proof.
  intros Hs Hsy HQ. destruct (sim_vars _ _ _ _ _ _ Hs) as (p & Hp & _). destruct (Hs) as [Hv Hm].
  destruct (Hm). set (p' := fresh_ref (MessageStack (rInst t))).
  assert (p <> p') as Hne.
  { intros Ep. apply (fresh_ref_fresh (MessageStack (rInst t)) (Some p)); [|by rewrite Ep].
    apply head_Some_elem_of. by rewrite ma_top, Hp. }
  set (msgs := fun q => if decide (q = p') then M else rMsgs t q).
  set (d := fun q => gas (msgs q)).
  destruct (pushed_popped (rInst t) p p' d) as (Hsb & Eg & Ev & Hi & Hb); [done|done|by rewrite ma_top, Hp|done| |].
  { unfold d, msgs. rewrite decide_False by done. auto. }
  set (i' := popMessage d (pushMessage d (Some p') (rInst t))) in *.
  assert (callHost M t = Ret (host_call M (hst c)).1
    (set_rHost (host_call M (hst c)).2 (set_rInst i' (set_rMsgs msgs t)))) as E.
  { unfold callHost, bind, modify, doHost. cbn [rHost set_rMsgs set_rInst]. rewrite ma_host.
    by destruct (host_call M (hst c)). }
  assert (matches sync r (set_hst (host_call M (hst c)).2 c)
    (set_rHost (host_call M (hst c)).2 (set_rInst i' (set_rMsgs msgs t)))) as Hm'.
  { apply matches_host; [|apply tx_call]. apply matches_pushed; try done. congruence. }
  assert (wp (hostDo (host_call M)) (fun a s' => a = (host_call M (hst c)).1 /\
    view r l (Instance_.visible (rInst t)) (Gas (rInst t)) (set_hst (host_call M (hst c)).2 c) s') (fun _ => False) s) as Hw
    by (eapply vp_hostDo; done).
  unfold rwp, wp in *. rewrite E. destruct (hostDo _ s) as [b s'| | |]; try done. destruct Hw as [-> Hv'].
  apply HQ; [|done..]. split; [|done]. cbn [rInst set_rHost set_rInst]. by rewrite Ev, Eg.
Qed.

(** ** Return data *)

Lemma sim_returned sync r c l t s d :
  sim sync r c l t s -> Forall is_byte d -> Z.of_nat (length d) < 2 ^ 63 ->
  sim (mute sync) r (set_ReturnData d c) l t (on_cx (set_ReturnData d) s).
Proof.
  intros [[Hw Hr Ho Hm Hg Hc] []] Hb Hl. split.
  - split; try done. cbn [cx on_cx]. by rewrite Hc.
  - split; try done. by destruct ma_wf.
Qed.

Lemma sim_unmute sync r c l t s d :
  sim (mute sync) r c l t s -> ReturnData c = d ->
  sim sync r c l (set_rInst (set_InstReturnData d (rInst t)) t) s.
Proof.
  intros [Hv []] <-. split; [done|]. split; try done; cbn [rInst set_rInst].
  - by destruct ma_inst.
  - by destruct ma_caches.
Qed.

Lemma mute_twice sync : mute (mute sync) = mute sync.
Proof. done. Qed.

Lemma rwp_setReturn {A B} snap sync r c l t s d (jm : RM HS A) (h : unit -> HM HS B) Q R :
  sim sync r c l t s -> Forall is_byte d -> Z.of_nat (length d) < 2 ^ 63 ->
  (forall s', sim (mute sync) r (set_ReturnData d c) l t s' -> rwp snap jm (h tt) Q R t s') ->
  rwp snap jm (bind (setReturnData d) h) Q R t s.
Proof.
  intros Hs Hb Hl Hk. apply rwp_right. unfold setReturnData. apply wp_modify, Hk.
  by apply sim_returned.
Qed.
End Call.

(** * The gas of a call *)

Section CallGas.
Context {HS : Type} {I : Intx} {H : EvmcHost HS} {V : Evmc} {TO : Tolerance} {IL : IntxLaws I}.
Context {HL : HostLaws HS H} {TC : TxConstant HS H}.
Implicit Types (t : RtState HS) (s : hstate HS) (c : Context_ HS) (r : EVMFrame) (l : list Z).

Definition has_value_args (k : evmc_call_kind) : bool :=
  match k with EVMC_CALL | EVMC_CALLCODE => true | _ => false end.

(** A static call is a call without value to compiled code, and to the
    interpreter a call without a value operand.  It is an instruction from
    Byzantium on, where a call without value creates no account. *)
Definition value_args (rev : evmc_revision) (k : evmc_call_kind) (a : bool) (Val : Z) : Prop :=
  a = has_value_args k \/
  (a = false /\ k = EVMC_CALL /\ Val = 0 /\ rev_lt rev EVMC_SPURIOUS_DRAGON = false).

Lemma sim_status sync r c l t s :
  sim sync r c l t s -> sim sync r c l t (on_cx (set_Status EVMC_SUCCESS) s).
Proof.
  intros [[Hw Hr Ho Hm Hg Hc] Hma]. split; [|done]. split; try done. cbn [cx on_cx]. rewrite Hc.
  destruct Hma. rewrite <- ma_status. by destruct c.
Qed.

Lemma jit_surcharge_run t rev k Val dest :
  let v := negb (Val =? 0) in
  (if has_value_args k then
     GasCost <-
       (if match k with EVMC_CALL => true | _ => false end && (v || rev_lt rev EVMC_SPURIOUS_DRAGON) then
          AccountState <- askHost (account_exists dest) ;;
          ret (if negb AccountState then (if v then CALL_VALUE_COST else 0) + ACCOUNT_CREATION_COST
               else if v then CALL_VALUE_COST else 0)
        else ret (if v then CALL_VALUE_COST else 0)) ;;
     charge GasCost
   else ret tt) t
  = (if has_value_args k then charge (call_surcharge rev k true v dest (rHost t)) else ret tt) t.
Proof.
  intros v. unfold call_surcharge, is_plain_call, bind, askHost, gets.
  destruct k, v, (rev_lt rev _), (account_exists dest (rHost t)) eqn:E; cbn; rewrite ?E; reflexivity.
Qed.

Lemma rwp_surcharge sync r c l t s k a Val dest Q R :
  let v := negb (Val =? 0) in
  let x := call_surcharge (Rev (Inst c)) k a v dest (hst c) in
  sim sync r c l t s -> value_args (Rev (Inst c)) k a Val ->
  (forall t' s', sim sync r c l t' s' -> Instance_.visible (rInst t') = Instance_.visible (rInst t) ->
     Gas (rInst t') = Gas (rInst t) - x -> Q tt tt t' s') ->
  rwp (GasRefundSnapshot r)
    (if has_value_args k then charge (call_surcharge (Rev (Inst c)) k true v dest (hst c)) else ret tt)
    (if a then
        exists_ <- hostRead (account_exists dest) ;;
        orStatus (chargeGas
          (if match k with EVMC_CALL => true | _ => false end
              && (v || rev_lt (Rev (Inst c)) EVMC_SPURIOUS_DRAGON) && negb exists_
           then (if v then CALL_VALUE_COST else 0) + ACCOUNT_CREATION_COST
           else if v then CALL_VALUE_COST else 0)) EVMC_OUT_OF_GAS
      else ret tt) Q R t s.
Proof.
  intros v x Hs Ha HQ. pose proof (si_view _ _ _ _ _ _ Hs) as Hv. pose proof (sim_gas _ _ _ _ _ _ Hs) as Hg.
  assert (forall y, a = y -> x = call_surcharge (Rev (Inst c)) k y v dest (hst c)) as Ex by (by intros ? <-).
  clearbody x. destruct Ha as [Ea|(Ea & -> & -> & Hrev)]; specialize (Ex _ Ea); subst a.
  - destruct (surcharge_range (Rev (Inst c)) k (has_value_args k) v dest (hst c)) as [Hx _]. rewrite <- Ex in Hx.
    destruct (has_value_args k) eqn:Ek; rewrite <- ?Ex.
    + eapply rwp_charge_gen; [exact Hs|lia|..].
      * intros Hlt. apply (vp_surcharge r l _ _ c s true v k dest _ _ Hv); [by auto|]. rewrite <- Ex. lia.
      * intros Hle. apply (vp_surcharge r l _ _ c s true v k dest _ _ Hv); rewrite <- Ex; [lia|].
        intros _ s' Hv'. split; [done|]. auto.
    + apply rwp_ret, HQ; [done|done|]. rewrite Ex. unfold call_surcharge. lia.
  - cbn [has_value_args]. unfold v in *. cbn [Z.eqb negb] in *.
    assert (call_surcharge (Rev (Inst c)) EVMC_CALL true false dest (hst c) = 0) as ->
      by (unfold call_surcharge; by rewrite Hrev).
    eapply rwp_charge_gen; [exact Hs|lia|lia|]. intros _. apply wp_ret. rewrite Z.sub_0_r. split; [done|].
    intros t' Hs' Ev Eg. apply HQ; [done|done|]. rewrite Ex. unfold call_surcharge. lia.
Qed.

(** [addGas] of the stipend. *)
Lemma sim_addGas sync r c l t s x :
  sim sync r c l t s -> 0 <= x -> Gas (rInst t) + x < 2 ^ 63 ->
  exists t', lift (Instance_.addGas x) t = Ret tt t' /\
    sim sync r c l t' (on_fr (fun f => set_fgas (i64 (fgas f + x)) f) s) /\
    Gas (rInst t') = Gas (rInst t) + x /\ Instance_.visible (rInst t') = Instance_.visible (rInst t).
Proof.
  intros Hs Hx Hlt. destruct (sim_vars _ _ _ _ _ _ Hs) as (p & Hp & _). pose proof (sim_gas _ _ _ _ _ _ Hs) as Hg.
  destruct Hs as [Hv Hm].
  unfold lift, viewInst, Instance_.addGas, bind, gets. cbn [inst]. rewrite Hp. cbv beta iota. cbn [inst].
  rewrite (proj2 (Z.ltb_ge _ _)) by (unfold UINT64_MAX; lia). unfold modify, setGas. cbn [inst mgas].
  rewrite u64_small, i64_small by lia. eexists. split; [done|]. split; [|done]. split.
  - by apply vp_addStipend; [|lia].
  - destruct (Hm). apply matches_step; auto.
    + by split.
    + apply set_Gas_ok; [done|lia].
    + intros q _ Hq. cbn in Hq. rewrite Hp in Hq. injection Hq as <-. unfold set_mgas. by rewrite decide_True.
Qed.

(** Before EIP-150 more gas than there is cannot be asked for. *)
Lemma rwp_askedGas {A B} sync r c l t s ga (k : Z -> RM HS A) (h : Z -> HM HS B) Q R :
  sim sync r c l t s -> is_u256 ga ->
  (forall cg, 0 <= cg <= Gas (rInst t) -> rwp (GasRefundSnapshot r) (k cg) (h cg) Q R t s) ->
  rwp (GasRefundSnapshot r)
    (CallGas <-
       (if rev_ge (Rev (Inst c)) EVMC_TANGERINE_WHISTLE then
          ret (Z.min (sat ga) (Gas (rInst t) - Gas (rInst t) / 64))
        else if Gas (rInst t) <? sat ga then trigger GasLimitExceeded
        else ret (sat ga)) ;; k CallGas)
    (CallGas <-
       (if rev_ge (Rev (Inst c)) EVMC_TANGERINE_WHISTLE then
          ret (Z.min (uint256ToUint64 ga) (Gas (rInst t) - Gas (rInst t) / 64))
        else if Gas (rInst t) <? uint256ToUint64 ga then setStatus EVMC_OUT_OF_GAS ;;; exit
        else ret (uint256ToUint64 ga)) ;; h CallGas) Q R t s.
Proof.
  intros Hs Hga Hk. pose proof (sim_gas _ _ _ _ _ _ Hs) as Hg. pose proof (sat_u64 ga Hga) as Hu.
  rewrite <- sat_saturates by done. unfold in_u in Hu. destruct (rev_ge _ _).
  - apply rwp_bind, rwp_ret, Hk. pose proof (all_but_64th_range (Gas (rInst t))) as Ha.
    unfold all_but_64th in Ha. lia.
  - destruct (Z.ltb_spec (Gas (rInst t)) (sat ga)); [|by apply rwp_bind, rwp_ret, Hk; lia].
    apply rwp_bind. eapply rwp_trap; [done|]. eapply vp_fail; [apply (si_view _ _ _ _ _ _ Hs)|].
    intros s' Hc. eapply gas_trapped; [exact Hs|by left|done].
Qed.

Lemma view_fgas sync r c l t s : sim sync r c l t s -> fgas (fr s) = Gas (rInst t).
Proof. intros [Hv _]. by destruct Hv. Qed.

Lemma light_failure sync r c l t s :
  sim (mute sync) r c l t s -> ReturnData c = [] ->
  wp lightFailure (fun _ _ => False)
    (fun s' => sim sync r c l (set_rInst (set_InstReturnData [] (rInst t)) t) s') s.
Proof.
  intros Hs Hd. unfold lightFailure, setStatus, modCtx, exit, bind, modify, wp.
  apply sim_unmute; [by apply sim_status|done].
Qed.

Lemma rwp_callGas sync r c l t s k a ga dest Val :
  sim (mute sync) r c l t s -> ReturnData c = [] -> value_args (Rev (Inst c)) k a Val -> is_u256 ga ->
  rwp (GasRefundSnapshot r) (callGas k (sat ga) dest Val) (Call_gas a (negb (Val =? 0)) k dest ga Val)
    (fun og cg t' s' => og = Some cg /\ sim (mute sync) r c l t' s' /\ 0 <= cg <= Gas (rInst t') /\
       Instance_.visible (rInst t') = Instance_.visible (rInst t))
    (fun og t' s' => og = None /\ sim sync r c l t' s') t s.
Proof.
  intros Hs Hd Ha Hga. unfold callGas, Call_gas. eapply rwp_getCtx; [exact Hs|]. apply rwp_getInst.
  rewrite (ma_rev _ _ _ _ (si_matches _ _ _ _ _ _ Hs)). fold (has_value_args k).
  set (v := negb (Val =? 0)). pose proof (sim_gas _ _ _ _ _ _ Hs) as Hg.
  assert (a && v = has_value_args k && v /\ (a && v = true -> 9000 <= call_surcharge (Rev (Inst c)) k a v dest (hst c)))
    as [Eav H9].
  { split; [|apply surcharge_range]. destruct Ha as [->|(-> & -> & -> & _)]; done. }
  apply rwp_bind. pose proof (jit_surcharge_run t (Rev (Inst c)) k Val dest) as Ej. cbv zeta in Ej. fold v in Ej.
  rewrite (ma_host _ _ _ _ (si_matches _ _ _ _ _ _ Hs)) in Ej.
  unfold rwp at 1. rewrite Ej. fold v.
  apply (rwp_surcharge (mute sync) r c l t s k a Val dest
    (fun _ _ => rwp (GasRefundSnapshot r) _ _ _ _) noexit Hs Ha).
  fold v. intros t1 s1 Hs1 Ev1 Eg1.
  eapply rwp_getFrame; [exact Hs1|by eapply view_fgas|]. apply rwp_getInst.
  rewrite u64_small by (pose proof (sim_gas _ _ _ _ _ _ Hs1); lia).
  eapply rwp_askedGas; [exact Hs1|done|]. intros cg Hcg. rewrite <- Eav.
  destruct (a && v) eqn:E; [|apply rwp_right, wp_ret, rwp_ret; split_and!; [done..|lia|lia|done]].
  specialize (H9 eq_refl). destruct (sim_addGas _ _ _ _ _ _ CALL_GAS_STIPEND Hs1) as (t2 & Ea & Hs2 & Eg2 & Ev2);
    [done|unfold CALL_GAS_STIPEND; lia|].
  eapply rwp_left; [exact Ea|]. apply rwp_assoc, rwp_right, wp_modify, rwp_assoc.
  eapply rwp_getFrame; [exact Hs2|eapply view_recipient; eapply si_view; exact Hs2|].
  apply rwp_assoc. eapply rwp_hostRead; [exact Hs2|]. eapply rwp_message; [exact Hs2|]. intros msg Em _.
  rewrite (msg_field recipient msg (Msg r)) by done. eapply rwp_askHost; [exact Hs2|].
  destruct (be_load _ <? Val).
  - eapply rwp_exit; [done|]. apply wp_bind. eapply wp_mono; [| |by apply (light_failure sync r c l t2)]; [done|].
    cbn beta. by intros s' Hs'.
  - apply rwp_right, wp_ret, rwp_ret. rewrite u64_small by (unfold CALL_GAS_STIPEND; lia).
    unfold CALL_GAS_STIPEND in *. split_and!; [done|done|lia|lia|by rewrite Ev2].
Qed.
End CallGas.

(** * After the call *)

Section Finish.
Context {HS : Type} {I : Intx} {H : EvmcHost HS} {V : Evmc} {TO : Tolerance} {IL : IntxLaws I}.
Context {HL : HostLaws HS H} {TC : TxConstant HS H}.
Implicit Types (t : RtState HS) (s : hstate HS) (c : Context_ HS) (r : EVMFrame) (l : list Z).

(** The gas used and the refund may be settled after the output is stored. *)
Lemma refund_last {A} t x off bs (K : RM HS A) :
  (onInst (addGasRefund x) ;;; base_write off bs ;;; K) t = (base_write off bs ;;; onInst (addGasRefund x) ;;; K) t.
Proof.
  destruct t as [i msgs ca res ex er ke ho]. unfold base_write, bind, onInst, modify, getInst, gets.
  unfold set_rInst. cbn [rInst rMsgs rCache rResult rExitCode rErr rKeccak rHost].
  unfold addGasRefund, set_GasRefund. cbn [MemoryBase MemoryBuf]. destruct (length bs =? 0)%nat; [done|].
  by destruct (_ && _).
Qed.

Lemma charge_last {A} t p k off bs (K : RM HS A) :
  CurrentMessage (rInst t) = Some p -> 0 <= Gas (rInst t) < 2 ^ 63 -> 0 <= k <= Gas (rInst t) ->
  (charge k ;;; base_write off bs ;;; K) t = (base_write off bs ;;; charge k ;;; K) t.
Proof.
  intros Hp Hg Hk. destruct t as [i msgs ca res ex er ke ho]. cbn [rInst] in *.
  assert (forall j, CurrentMessage j = Some p -> Gas j = Gas i ->
    charge k (mkRt j msgs ca res ex er ke ho) =
    Ret tt (putInst (mkIS (set_Gas (Gas i - k) j) (set_mgas p (Gas i - k) (fun q => gas (msgs q))))
              (mkRt j msgs ca res ex er ke ho))) as Ec.
  { intros j Hj Egj. unfold charge, lift, viewInst. cbn [rInst rMsgs].
    rewrite (instance_charge_run j _ p) by (done || lia). rewrite Egj. by rewrite (proj2 (Z.ltb_ge _ _)) by lia. }
  unfold bind at 1. rewrite Ec by done. unfold base_write, bind, onInst, modify, getInst, gets. cbn [rInst].
  cbn [putInst set_rMsgs set_rInst rInst inst mgas rMsgs rCache rResult rExitCode rErr rKeccak rHost].
  destruct (length bs =? 0)%nat; [unfold ret; by rewrite Ec|].
  unfold set_Gas. cbn [MemoryBase MemoryBuf].
  destruct (_ && _); [|done]. unfold set_rInst. cbn [rInst rMsgs rCache rResult rExitCode rErr rKeccak rHost].
  rewrite Ec by done. reflexivity.
Qed.

Lemma bind_ext {E S A B} (m : @body E S A) (k k' : A -> @body E S B) (s : S) :
  (forall a (s' : S), k a s' = k' a s') -> bind m k s = bind m k' s.
Proof. intros Hk. unfold bind. by destruct (m s). Qed.

Lemma finish_order {A} t p k x (w : bool) off bs (K : RM HS A) :
  CurrentMessage (rInst t) = Some p -> 0 <= Gas (rInst t) < 2 ^ 63 -> 0 <= k <= Gas (rInst t) ->
  ((if 0 <? k then charge k else ret tt) ;;; onInst (addGasRefund x) ;;;
   (if w then base_write off bs else ret tt) ;;; K) t =
  ((if w then base_write off bs else ret tt) ;;;
   (if 0 <? k then charge k else ret tt) ;;; onInst (addGasRefund x) ;;; K) t.
Proof.
  intros Hp Hg Hk. destruct w; [|done].
  transitivity (((if 0 <? k then charge k else ret tt) ;;; base_write off bs ;;; onInst (addGasRefund x) ;;; K) t).
  - apply bind_ext. intros _ t'. apply refund_last.
  - destruct (0 <? k); [by apply (charge_last t p)|done].
Qed.

Lemma rwp_same {A B} snap (jm jm' : RM HS A) (hm : HM HS B) Q R t s :
  jm t = jm' t -> rwp snap jm' hm Q R t s -> rwp snap jm hm Q R t s.
Proof. unfold rwp. by intros ->. Qed.

(** What the interpreter does with the result of a call. *)
Definition Call_finish (MsgGas OutputOffset64 OutputSize64 : Z) (Result : evmc_result) : HM HS unit :=
  (if is_success (status_code Result) then _ <- pop ;; push 1 else ret tt) ;;;
  setReturnData (output_data Result) ;;;
  let CopySize := Z.min OutputSize64 (Z.of_nat (length (output_data Result))) in
  (if 0 <? CopySize then mem_write OutputOffset64 (take (Z.to_nat CopySize) (output_data Result))
   else ret tt) ;;;
  let CallGas := positive_part MsgGas in
  let GasLeft := positive_part (gas_left Result) in
  let GasUsed := if GasLeft <? CallGas then CallGas - GasLeft else 0 in
  (if 0 <? GasUsed then orStatus (chargeGas GasUsed) EVMC_OUT_OF_GAS else ret tt) ;;;
  addRefund (gas_refund Result) ;;;
  setStatus EVMC_SUCCESS.

Lemma wp_result sync r c l t s b :
  sim sync r c (0 :: l) t s ->
  wp (if b : bool then _ <- pop ;; push 1 else ret tt)
    (fun _ s' => sim sync r c ((if b then 1 else 0) :: l) t s') (fun _ => False) s.
Proof.
  intros Hs. pose proof (sim_room _ _ _ _ _ _ _ Hs) as Hl. destruct b; [|by apply wp_ret].
  apply wp_bind. eapply vp_pop; [apply Hs|]. intros _ s1 Hv1. eapply vp_push; [exact Hv1|done|unfold in_u; lia|].
  intros s2 Hv2. by eapply sim_view.
Qed.

Lemma rwp_finishCall sync r c l t s g jo o n Res :
  sim (mute sync) r c (0 :: l) t s -> 0 <= g <= Gas (rInst t) ->
  Forall is_byte (output_data Res) -> Z.of_nat (length (output_data Res)) < 2 ^ 63 ->
  0 <= n -> (n <> 0 -> jo = o /\ 0 <= o /\ o + n <= Z.of_nat (length (Instance_.visible (rInst t)))) ->
  rwp (GasRefundSnapshot r) (finishCall g jo n Res) (Call_finish g o n Res)
    (fun a _ => done_with one sync r l a) (done_with one sync r l) t s.
Proof.
  intros Hs Hg Hb Hl Hn Ho. pose proof (sim_gas _ _ _ _ _ _ Hs) as Hg63.
  destruct (sim_vars _ _ _ _ _ _ Hs) as (p & Hp & _).
  assert (0 <= positive_part (gas_left Res)) by (unfold positive_part; destruct (Z.ltb_spec 0 (gas_left Res)); lia).
  assert (positive_part g = g) as Epg by (unfold positive_part; destruct (Z.ltb_spec 0 g); lia).
  unfold finishCall, Call_finish. rewrite Epg.
  set (used := if positive_part (gas_left Res) <? g then g - positive_part (gas_left Res) else 0).
  assert (0 <= used <= Gas (rInst t)) as Hu by (unfold used; destruct (Z.ltb_spec (positive_part (gas_left Res)) g); lia).
  cbv zeta. eapply rwp_same; [by apply (finish_order t p)|].
  set (size := Z.of_nat (length (output_data Res))).
  set (bs := take (Z.to_nat (Z.min n size)) (output_data Res)).
  assert ((0 <? n) && (0 <? size) = (0 <? Z.min n size)) as Ew.
  { destruct (Z.ltb_spec 0 n), (Z.ltb_spec 0 size), (Z.ltb_spec 0 (Z.min n size)); cbn; lia || done. }
  rewrite Ew. clear Ew. apply rwp_right. eapply wp_mono; [| |apply wp_result; exact Hs]; [|done]. intros [] s1 Hs1. cbn beta.
  eapply rwp_setReturn; [exact Hs1|done|done|]. rewrite mute_twice. intros s2 Hs2. apply rwp_bind.
  assert (forall t3 s3, sim (mute sync) r (set_ReturnData (output_data Res) c)
      ((if is_success (status_code Res) then 1 else 0) :: l) t3 s3 ->
    rwp (GasRefundSnapshot r)
      ((if 0 <? used then charge used else ret tt) ;;; onInst (addGasRefund (gas_refund Res)) ;;;
       setInstReturnData (output_data Res) ;;; ret (if is_success (status_code Res) then 1 else 0))
      ((if 0 <? used then orStatus (chargeGas used) EVMC_OUT_OF_GAS else ret tt) ;;;
       addRefund (gas_refund Res) ;;; setStatus EVMC_SUCCESS)
      (fun a _ => done_with one sync r l a) (done_with one sync r l) t3 s3) as Hrest.
  { intros t3 s3 Hs3. apply rwp_bind.
    assert (forall t4 s4, sim (mute sync) r (set_ReturnData (output_data Res) c)
        ((if is_success (status_code Res) then 1 else 0) :: l) t4 s4 ->
      rwp (GasRefundSnapshot r)
        (onInst (addGasRefund (gas_refund Res)) ;;; setInstReturnData (output_data Res) ;;;
         ret (if is_success (status_code Res) then 1 else 0))
        (addRefund (gas_refund Res) ;;; setStatus EVMC_SUCCESS)
        (fun a _ => done_with one sync r l a) (done_with one sync r l) t4 s4) as Hend.
    { intros t4 s4 Hs4. pose proof (sim_refund _ _ _ _ _ _ (gas_refund Res) Hs4) as Hs5.
      apply sim_status, (sim_unmute sync _ _ _ _ _ (output_data Res)) in Hs5; [|done].
      unfold rwp, done_with. eexists _, _. split; [exact Hs5|done]. }
    destruct (0 <? used); [|by apply rwp_ret, Hend].
    eapply rwp_charge; [exact Hs3|lia|]. intros t4 s4 Hs4 _ _. by apply Hend. }
  destruct (Z.ltb_spec 0 (Z.min n size)); [|by apply rwp_ret, Hrest].
  destruct Ho as (-> & Ho0 & Hr); [lia|].
  eapply rwp_write; [exact Hs2|done|by apply Forall_take| |intros t3 s3 Hs3 _; by apply Hrest].
  right. unfold bs. rewrite length_take. lia.
Qed.
End Finish.
