(* ===== verification/EvmImportedCallOps.v ===== *)
(** CALL, CALLCODE, DELEGATECALL, STATICCALL, CREATE and CREATE2 of compiled
    code agree with the handlers of the interpreter. *)

From stdpp Require Import gmap.
From S2P Require Import Prelude Intx Evmc GasStorageCost EvmInstance Frame HandlerUtil.
From S2P Require Import HandlersArith HandlersEnv HandlersCall Interpreter WellFormed Concrete HandlerSafety View.
From S2P Require Import AluSpecs MemorySpecs StaticMode CallSpecs InstanceSpecs EvmImported EvmImportedSim EvmImportedOps EvmImportedEnv.
From S2P Require Import EvmImportedCalls.

#[local] Open Scope Z_scope.

(** * Calls *)

Section Calls.
Context {HS : Type} {I : Intx} {H : EvmcHost HS} {V : Evmc} {TO : Tolerance} {IL : IntxLaws I}.
Context {HL : HostLaws HS H} {TC : TxConstant HS H} {VL : EvmcLaws V}.
Implicit Types (t : RtState HS) (s : hstate HS) (c : Context_ HS) (r : EVMFrame) (l : list Z).

(** The kind of message, whether it is forced to be static, and whether a
    value is among the operands. *)
Definition call_shape (op : evmc_opcode) : option (evmc_call_kind * bool * bool) :=
  match op with
  | OP_CALL => Some (EVMC_CALL, false, true)
  | OP_CALLCODE => Some (EVMC_CALLCODE, false, true)
  | OP_DELEGATECALL => Some (EVMC_DELEGATECALL, false, false)
  | OP_STATICCALL => Some (EVMC_CALL, true, false)
  | _ => None
  end.

(** Compiled code does not follow delegation designators (EIP-7702). *)
Definition no_delegation c (dest : list Z) : Prop :=
  rev_lt (Rev (Inst c)) EVMC_PRAGUE = true \/
  forall h, take 3 (copy_code dest 0 23 h) <> DelegationMagicBytes.

Lemma wp_resolve r l m g c s dest (Q : list Z -> hstate HS -> Prop) R :
  view r l m g c s -> no_delegation c dest -> Q dest s -> wp (resolveDelegatedCallCodeAddress dest) Q R s.
Proof.
  intros Hv Hd HQ. unfold resolveDelegatedCallCodeAddress. apply wp_bind, wp_getCtx.
  rewrite (v_cx _ _ _ _ _ _ Hv). destruct (rev_lt (Rev (Inst c)) EVMC_PRAGUE) eqn:E; [by apply wp_ret|].
  destruct Hd as [Hd|Hd]; [congruence|]. apply wp_bind, wp_getCtx. rewrite bool_decide_false by apply Hd.
  rewrite orb_true_r. by apply wp_ret.
Qed.

(** The statements of [CallHandler::doExecute] after the operands. *)
Definition Call_rest (OpCode : evmc_opcode) (HasValueArgs : bool)
    (GasArg DestVal Val InputOffset InputSize OutputOffset OutputSize : Z) : HM HS unit :=
  let Dest := be_trunc_address DestVal in
  let HasValue := negb (Val =? 0) in
  EVM_REQUIRE_STACK_SPACE 1 ;;;
  push 0 ;;;
  clearReturnData ;;;
  Rev_ <- currentRevision ;;
  cold <- coldAccount Rev_ Dest ;;
  (if cold then orStatus (chargeGas ADDITIONAL_COLD_ACCOUNT_ACCESS_COST) EVMC_OUT_OF_GAS
   else ret tt) ;;;
  CodeAddress <- resolveDelegatedCallCodeAddress Dest ;;
  static <- isStaticMode ;;
  let is_call := match OpCode with OP_CALL => true | _ => false end in
  EVM_SET_EXCEPTION_UNLESS (negb (is_call && HasValue && static)) EVMC_STATIC_MODE_VIOLATION ;;;
  orStatus (checkMemoryExpandAndChargeGas InputOffset InputSize) EVMC_OUT_OF_GAS ;;;
  orStatus (checkMemoryExpandAndChargeGas OutputOffset OutputSize) EVMC_OUT_OF_GAS ;;;
  CallKind <-
    (match OpCode with
     | OP_CALL => ret EVMC_CALL
     | OP_CALLCODE => ret EVMC_CALLCODE
     | OP_DELEGATECALL => ret EVMC_DELEGATECALL
     | OP_STATICCALL => ret EVMC_CALL
     | _ => throw EVMInvalidInstruction
     end) ;;
  CallGas <- Call_gas HasValueArgs HasValue CallKind Dest GasArg Val ;;
  m <- getFrame Msg ;;
  if Z.of_nat MAXSTACK <=? depth m then lightFailure
  else
    let InputSize64 := low64 InputSize in
    let InputOffset64 := if InputSize64 =? 0 then 0 else low64 InputOffset in
    let OutputSize64 := low64 OutputSize in
    let OutputOffset64 := if OutputSize64 =? 0 then 0 else low64 OutputOffset in
    input <- mem_read InputOffset64 InputSize64 ;;
    let NewMsg := call_message OpCode m CallKind CallGas Dest CodeAddress Val input in
    Result <- hostDo (host_call NewMsg) ;;
    Call_finish (gas NewMsg) OutputOffset64 OutputSize64 Result.

Lemma Call_unfold op k f :
  call_shape op = Some (k, f, true) ->
  Call_doExecute op =
  (HasValueArgs <- (EVM_STACK_CHECK 7 ;;; ret true) ;;
   ga <- pop ;; d <- pop ;; v <- (if HasValueArgs then pop else ret 0) ;;
   iO <- pop ;; iN <- pop ;; oO <- pop ;; oN <- pop ;; Call_rest op HasValueArgs ga d v iO iN oO oN).
Proof. intros Hop. destruct op; try discriminate Hop; reflexivity. Qed.

Lemma Call_unfold_no_value op k f :
  call_shape op = Some (k, f, false) ->
  Call_doExecute op =
  (HasValueArgs <- (EVM_STACK_CHECK 6 ;;; ret false) ;;
   ga <- pop ;; d <- pop ;; v <- (if HasValueArgs then pop else ret 0) ;;
   iO <- pop ;; iN <- pop ;; oO <- pop ;; oN <- pop ;; Call_rest op HasValueArgs ga d v iO iN oO oN).
Proof. intros Hop. destruct op; try discriminate Hop; reflexivity. Qed.

(** Both build the same message. *)
Lemma same_message op k f hva m m' g dest val input :
  call_shape op = Some (k, f, hva) -> set_gas 0 m = set_gas 0 m' ->
  Z.land (flags m) (u32 (Z.lnot EVMC_DELEGATED)) = flags m ->
  call_msg k f m' g dest input val = call_message op m k g dest dest val input.
Proof.
  intros Hs Em Hf. unfold call_msg, call_message. rewrite bool_decide_true by done. cbn [negb].
  assert (forall X (p : evmc_message -> X), (forall x, p (set_gas 0 x) = p x) -> p m' = p m) as Ep.
  { intros X p Hp. by rewrite <- (Hp m), Em. }
  rewrite (Ep _ flags), (Ep _ depth), (Ep _ recipient), (Ep _ sender), (Ep _ value) by done.
  destruct op; try done; injection Hs as <- <- <-; rewrite ?Hf; try done.
  cbn. f_equal. symmetry. apply land_delegated_static.
Qed.

Lemma vp_coldAccount r l m g c s a (Q : bool -> hstate HS -> Prop) R :
  view r l m g c s -> (forall b h s', view r l m g (set_hst h c) s' -> Q b s') ->
  wp (coldAccount (Rev (Inst c)) a) Q R s.
Proof.
  intros Hv HQ. unfold coldAccount. destruct (rev_ge _ _).
  - apply wp_bind. eapply vp_hostDo; [exact Hv|]. intros s' Hv'. by eapply wp_ret, HQ.
  - apply wp_ret. eapply (HQ false (hst c)). by rewrite set_hst_same.
Qed.

(** Operands that do not fit 64 bits are refused at once. *)
Definition refusal (s' : hstate HS) : Prop := fails GasLimitExceeded (Status (cx s')).

Lemma refusal_gas c s' : cx s' = set_Status EVMC_OUT_OF_GAS c -> refusal s'.
Proof. unfold refusal. intros ->. by left. Qed.
Lemma refusal_static c s' : static_late = true -> cx s' = set_Status EVMC_STATIC_MODE_VIOLATION c -> refusal s'.
Proof. unfold refusal. intros ? ->. by right. Qed.

Lemma refused_trapped sync r c l t s s' :
  sim sync r c l t s -> refusal s' ->
  trapped GasLimitExceeded (GasRefundSnapshot r) (setExecutionError GasLimitExceeded t) s'.
Proof.
  intros [_ []] Hf. destruct (restore_snapshot r (rInst t)) as [E _]; [done..|]. by split.
Qed.

Lemma wp_refused_access {A} r l m g c s dest (b : bool -> bool) iO iN oO oN (K : list Z -> HM HS A) :
  view r l m g c s -> no_delegation c dest ->
  is_u256 iO -> is_u256 iN -> is_u256 oO -> is_u256 oN ->
  (forall m' g', ~ affordable m' g' iO iN 0) \/ (forall m' g', ~ affordable m' g' oO oN 0) ->
  (b (is_static r) = false -> static_late = true) ->
  wp (CodeAddress <- resolveDelegatedCallCodeAddress dest ;;
      static <- isStaticMode ;;
      EVM_SET_EXCEPTION_UNLESS (b static) EVMC_STATIC_MODE_VIOLATION ;;;
      orStatus (checkMemoryExpandAndChargeGas iO iN) EVMC_OUT_OF_GAS ;;;
      orStatus (checkMemoryExpandAndChargeGas oO oN) EVMC_OUT_OF_GAS ;;;
      K CodeAddress)
    (fun _ _ => False) refusal s.
Proof.
  intros Hv Hd HiO HiN HoO HoN Hno Hlate. apply wp_bind. eapply wp_resolve; [exact Hv|exact Hd|].
  apply wp_bind. eapply vp_isStatic; [exact Hv|]. apply wp_bind. eapply vp_unless; [exact Hv| |].
  2:{ intros Hst s5 Hc. eapply refusal_static; eauto. }
  intros _. apply wp_bind. eapply vp_payTouch; [exact Hv|done|done|intros _ s5 Hc; by eapply refusal_gas|].
  intros Ha s5 Hv5. apply wp_bind. eapply vp_payTouch; [exact Hv5|done|done|intros _ s6 Hc; by eapply refusal_gas|].
  intros Ha' s6 Hv6. destruct Hno as [Hno|Hno]; exfalso; by eapply Hno.
Qed.

(** A call with value is refused in a static frame. *)
Definition refuses_value (op : evmc_opcode) (v : Z) r : bool :=
  match op with OP_CALL => true | _ => false end && negb (v =? 0) && is_static r.

Lemma wp_Call_refused r l m g c s op hva ga d v iO iN oO oN :
  view r l m g c s -> (length l < 1024)%nat -> no_delegation c (be_trunc_address d) ->
  is_u256 iO -> is_u256 iN -> is_u256 oO -> is_u256 oN ->
  (forall m' g', ~ affordable m' g' iO iN 0) \/ (forall m' g', ~ affordable m' g' oO oN 0) ->
  (refuses_value op v r = true -> static_late = true) ->
  wp (Call_rest op hva ga d v iO iN oO oN) (fun _ _ => False) refusal s.
Proof.
  intros Hv Hl Hd HiO HiN HoO HoN Hno Hlate. unfold Call_rest.
  apply wp_bind. unfold EVM_REQUIRE_STACK_SPACE. apply wp_bind, wp_getFrame.
  rewrite (view_sp _ _ _ _ _ _ Hv), (proj2 (Nat.ltb_ge _ _)) by lia. apply wp_ret.
  apply wp_bind. eapply vp_push; [exact Hv|done|unfold in_u; lia|]. intros s1 Hv1.
  apply wp_bind. unfold clearReturnData. apply wp_modify.
  set (s2 := on_cx _ s1). assert (view r (0 :: l) m g (set_ReturnData [] c) s2) as Hv2.
  { destruct Hv1 as [Hw1 Hr1 Ho1 Hm1 Hg1 Hc1]. split; try done. cbn [cx on_cx s2]. by rewrite Hc1. }
  apply wp_bind, wp_getCtx. rewrite (v_cx _ _ _ _ _ _ Hv2). apply wp_bind.
  eapply vp_coldAccount; [exact Hv2|]. intros cold h s3 Hv3. apply wp_bind. destruct cold.
  - eapply vp_pay; [exact Hv3|done|intros _ s4 Hc; by eapply refusal_gas|]. intros _ s4 Hv4.
    eapply (wp_refused_access _ _ _ _ _ _ _ (fun b => negb (_ && b)) _ _ _ _ (fun _ => _));
      [eassumption|done..|]. intros Hb%negb_false_iff. by apply Hlate.
  - eapply wp_ret, (wp_refused_access _ _ _ _ _ _ _ (fun b => negb (_ && b)) _ _ _ _ (fun _ => _));
      [eassumption|done..|]. intros Hb%negb_false_iff. by apply Hlate.
Qed.

Lemma rwp_assoc_r {A B B' B''} snap (jm : RM HS A) (m : HM HS B) (f : B -> HM HS B') (h : B' -> HM HS B'') Q R t s :
  rwp snap jm (bind (bind m f) h) Q R t s -> rwp snap jm (x <- m ;; y <- f x ;; h y) Q R t s.
Proof. unfold rwp, bind. by destruct (m s). Qed.

Lemma read_run sync r c l t s joff off n :
  sim sync r c l t s -> 0 <= joff -> 0 <= n ->
  (n <> 0 -> joff = off /\ off + n <= Z.of_nat (length (Instance_.visible (rInst t)))) ->
  exists bs, base_read joff n t = Ret bs t /\
    wp (mem_read (if n =? 0 then 0 else off) n) (fun bs' s' => bs' = bs /\ s' = s) (fun _ => False) s.
Proof.
  intros Hs Hj Hn Ho. destruct (Z.eqb_spec n 0) as [->|Hn0].
  - exists []. split; [done|]. unfold mem_read. by apply wp_bind, wp_getFrame, wp_ret.
  - destruct (Ho Hn0) as [-> Hr]. eexists. split; [eapply base_read_run; by auto|].
    eapply vp_mem_read; [apply (si_view _ _ _ _ _ _ Hs)|done|lia|done|done].
Qed.

(** From the gas of the callee on. *)
Lemma rwp_call_end sync r c l t s op k f hva cg d v iO iN jA oO oN jB :
  call_shape op = Some (k, f, hva) -> sim (mute sync) r c (0 :: l) t s -> synced sync = true ->
  ReturnData c = [] -> 0 <= cg <= Gas (rInst t) ->
  Z.land (flags (Msg r)) (u32 (Z.lnot EVMC_DELEGATED)) = flags (Msg r) ->
  is_u64 jA -> 0 <= iN <= MAX_REQUIRED_MEMORY_SIZE -> is_u64 jB -> 0 <= oN <= MAX_REQUIRED_MEMORY_SIZE ->
  (iN <> 0 -> jA = iO /\ iO + iN <= Z.of_nat (length (Instance_.visible (rInst t)))) ->
  (oN <> 0 -> jB = oO /\ oO + oN <= Z.of_nat (length (Instance_.visible (rInst t)))) ->
  rwp (GasRefundSnapshot r)
    (CurrentMsg <- getCurrentMessage ;;
     InputData <- base_read jA iN ;;
     if Z.of_nat MAXSTACK <=? depth CurrentMsg then failWith 0
     else
       let CallMsg := call_msg k f CurrentMsg cg d InputData v in
       Result <- callHost CallMsg ;;
       finishCall (gas CallMsg) jB oN Result)
    (m <- getFrame Msg ;;
     if Z.of_nat MAXSTACK <=? depth m then lightFailure
     else
       let InputSize64 := low64 iN in
       let InputOffset64 := if InputSize64 =? 0 then 0 else low64 iO in
       let OutputSize64 := low64 oN in
       let OutputOffset64 := if OutputSize64 =? 0 then 0 else low64 oO in
       input <- mem_read InputOffset64 InputSize64 ;;
       let NewMsg := call_message op m k cg d d v input in
       Result <- hostDo (host_call NewMsg) ;;
       Call_finish (gas NewMsg) OutputOffset64 OutputSize64 Result)
    (fun a _ => done_with one sync r l a) (done_with one sync r l) t s.
Proof.
  intros Hop Hs Hsy Hd Hcg Hfl HjA HiN HjB HoN HA HB.
  eapply rwp_message; [exact Hs|]. intros m Em _.
  eapply (rwp_getFrame _ _ _ _ _ _ _ Msg); [exact Hs|reflexivity|].
  pose proof (sim_frame_msg _ _ _ _ _ _ Hs) as Em'. set (m' := Msg (fr s)) in *.
  assert (low64 iN = iN /\ low64 oN = oN) as [-> ->]
    by (unfold MAX_REQUIRED_MEMORY_SIZE in *; split; apply low64_small; unfold in_u; lia).
  assert (iN <> 0 -> jA = low64 iO /\ low64 iO + iN <= Z.of_nat (length (Instance_.visible (rInst t)))) as HA'.
  { intros Hne. destruct (HA Hne) as [-> Hr]. rewrite low64_small by done. done. }
  destruct (read_run _ _ _ _ _ _ jA (low64 iO) iN Hs) as (bs & Ej & Ew); [unfold in_u in HjA; lia|lia|done|].
  eapply rwp_left; [exact Ej|]. rewrite (msg_field depth m (Msg r)), (msg_field depth m' (Msg r)) by done.
  destruct (_ <=? _).
  { eapply rwp_exit; [done|]. eapply wp_mono; [| |by apply (light_failure sync)]; [done|].
    intros s' Hs'. unfold done_with. by exists r, c. }
  apply rwp_right. eapply wp_mono; [| |exact Ew]; [|done]. intros bs' s' [-> ->]. cbv zeta beta.
  assert (call_msg k f m cg d bs v = call_message op m' k cg d d v bs) as EM.
  { eapply same_message; [exact Hop|by rewrite Em, Em'|]. by rewrite (msg_field flags m' (Msg r)). }
  rewrite EM. set (NewMsg := call_message op m' k cg d d v bs). apply rwp_bind.
  eapply rwp_callHost; [exact Hs|exact Hsy|]. intros t1 s1 Hs1 Ev1 Eg1.
  assert (gas NewMsg = cg) as -> by (apply i64_small; pose proof (sim_gas _ _ _ _ _ _ Hs); lia).
  eapply rwp_finishCall; [exact Hs1|lia|apply host_call_output|apply host_call_size|lia|].
  intros Hne. destruct (HB Hne) as [-> Hr]. rewrite (proj2 (Z.eqb_neq _ 0)) by done. rewrite Ev1.
  rewrite low64_small by done. split_and!; [done|apply HjB|done].
Qed.

Lemma rwp_call_rest sync r c l t s op k f hva ga d v iO iN jA oO oN jB :
  call_shape op = Some (k, f, hva) -> sim sync r c l t s -> (length l < 1024)%nat -> synced sync = true ->
  value_args (Rev (Inst c)) k hva v -> (op = OP_STATICCALL -> v = 0) ->
  no_delegation c (be_trunc_address d) ->
  Z.land (flags (Msg r)) (u32 (Z.lnot EVMC_DELEGATED)) = flags (Msg r) ->
  is_u256 ga -> is_u256 d -> is_u256 iO -> is_u256 iN -> is_u256 oO -> is_u256 oN ->
  same_access iO iN jA iN -> same_access oO oN jB oN ->
  rwp (GasRefundSnapshot r) (evmHandleCallInternal k (sat ga) (Some (packU256Argument d)) v jA iN jB oN f)
    (Call_rest op hva ga d v iO iN oO oN)
    (fun a _ => done_with one sync r l a) (done_with one sync r l) t s.
Proof.
  intros Hop Hs Hl Hsy Hva Hst Hd Hfl Hga Hdu HiO HiN HoO HoN HA HB.
  unfold evmHandleCallInternal, Call_rest. rewrite load_address, be_trunc_address_spec in * by done.
  eapply rwp_room; [exact Hs|done|]. eapply rwp_push; [exact Hs|done|unfold in_u; lia|]. intros s1 Hs1.
  eapply (rwp_setReturn _ _ _ _ _ _ _ []); [exact Hs1|done|done|]. intros s2 Hs2.
  eapply (rwp_coldCharge _ _ _ _ _ _ _ (fun k => orStatus (chargeGas k) EVMC_OUT_OF_GAS) (fun _ => _) (fun _ => _));
    [exact Hs2| |].
  { intros c' t' s3 Hs3 Q' R' HQ. eapply rwp_charge; [exact Hs3|done|auto]. }
  intros h' t3 s3 Hs3. apply rwp_right. eapply wp_resolve; [apply (si_view _ _ _ _ _ _ Hs3)|exact Hd|].
  eapply rwp_isStatic; [exact Hs3|]. eapply rwp_static; [exact Hs3|].
  assert (match k with EVMC_CALL => true | _ => false end && negb (v =? 0) && is_static r =
          match op with OP_CALL => true | _ => false end && negb (v =? 0) && is_static r) as ->.
  { destruct op; try done; injection Hop as <- <- <-; try done. by rewrite (Hst eq_refl). }
  destruct (_ && is_static r); [by eapply (rwp_static_stop _ _ _ _ _ _ (fun _ => _))|].
  apply rwp_right, wp_ret, rwp_assoc_r, rwp_bind.
  eapply rwp_touch2; [exact Hs3|done..|]. intros t4 s4 Hs4 RA RB FA FB. cbn [negb].
  apply (rwp_right _ _ (match op with OP_CALL => ret EVMC_CALL | _ => _ end)).
  assert (forall Q : evmc_call_kind -> hstate HS -> Prop, Q k s4 ->
    wp (match op with
        | OP_CALL => ret EVMC_CALL
        | OP_CALLCODE => ret EVMC_CALLCODE
        | OP_DELEGATECALL => ret EVMC_DELEGATECALL
        | OP_STATICCALL => ret EVMC_CALL
        | _ => throw EVMInvalidInstruction
        end) Q (fun _ => False) s4) as Hkind.
  { intros Q HQ. destruct op; try done; by injection Hop as <- <- <-. }
  apply Hkind. clear Hkind. apply rwp_bind_exit.
  eapply rwp_mono; [| |by eapply rwp_callGas].
  - intros og cg t5 s5 (-> & Hs5 & Hcg & Ev). cbv iota.
    eapply rwp_call_end; [exact Hop|exact Hs5|done|done|done|done|apply (sa_range _ _ _ _ HA)|done|
      apply (sa_range _ _ _ _ HB)|done|by rewrite Ev|by rewrite Ev].
  - intros og t5 s5 [-> Hs5]. unfold done_with. eexists _, _. by split.
Qed.

(** ** The instructions *)

Lemma refused_call {A} sync r c l l' t s (jm : RM HS A) hm (res : A -> list Z) :
  sim sync r c l t s -> jm t = Throw GasLimitExceeded (setExecutionError GasLimitExceeded t) ->
  wp hm (fun _ _ => False) refusal s -> agrees jm hm res sync r l' t s.
Proof.
  intros Hs Ej Hw. apply agrees_rwp. eapply rwp_trap; [exact Ej|]. eapply wp_mono; [| |exact Hw]; [done|].
  intros s' Hf. by eapply refused_trapped.
Qed.

(** The call compiled code makes for an instruction. *)
Definition jitCallOp (op : evmc_opcode) (ga d v iO iN oO oN : Z) : RM HS Z :=
  match op with
  | OP_CALL => jitCall ga d v iO iN oO oN
  | OP_CALLCODE => jitCallCode ga d v iO iN oO oN
  | OP_DELEGATECALL => jitDelegateCall ga d iO iN oO oN
  | OP_STATICCALL => jitStaticCall ga d iO iN oO oN
  | _ => undef
  end.

Definition call_operands (hva : bool) (ga d v iO iN oO oN : Z) : list Z :=
  if hva then [ga; d; v; iO; iN; oO; oN] else [ga; d; iO; iN; oO; oN].

Lemma jitCallOp_unfold op k f hva ga d v iO iN oO oN t :
  call_shape op = Some (k, f, hva) ->
  jitCallOp op ga d v iO iN oO oN t =
  (a <- normalizeOffsetWithSize iO iN ;; b <- normalizeOffsetWithSize oO oN ;;
   evmHandleCallInternal k (sat ga) (Some (packU256Argument d)) (if hva then v else 0) a.1 a.2 b.1 b.2 f) t.
Proof.
  intros Hs. destruct op; try discriminate Hs; injection Hs as <- <- <-;
    unfold jitCallOp, jitCall, jitCallCode, jitDelegateCall, jitStaticCall, evmHandleCall, evmHandleCallCode,
      evmHandleDelegateCall, evmHandleStaticCall, sat; reflexivity.
Qed.

Lemma wp_Call_operands op k f hva ga d v iO iN oO oN r l m g c s (Q : unit -> hstate HS -> Prop) R :
  call_shape op = Some (k, f, hva) -> view r (call_operands hva ga d v iO iN oO oN ++ l) m g c s ->
  (forall s', view r l m g c s' -> wp (Call_rest op hva ga d (if hva then v else 0) iO iN oO oN) Q R s') ->
  wp (Call_doExecute op) Q R s.
Proof.
  intros Hop Hv Hk. destruct hva; [rewrite (Call_unfold _ _ _ Hop)|rewrite (Call_unfold_no_value _ _ _ Hop)];
    cbn [call_operands app] in Hv; apply wp_bind, wp_bind; (eapply vp_check; [exact Hv|simpl; lia|]); apply wp_ret.
  - repeat (apply wp_bind; eapply vp_pop; [eassumption|intros ? ? ?]). by apply Hk.
  - do 2 (apply wp_bind; eapply vp_pop; [eassumption|]; intros ? ? ?). apply wp_bind, wp_ret.
    do 4 (apply wp_bind; eapply vp_pop; [eassumption|]; intros ? ? ?). by apply Hk.
Qed.

Lemma refuses_no_value op k f hva v r :
  call_shape op = Some (k, f, hva) -> refuses_value op (if hva then v else 0) r = true -> refuses_value op v r = true.
Proof. intros Hop. by destruct op; try discriminate Hop; injection Hop as <- <- <-. Qed.

(** A rule for the handler alone, used in a comparison. *)
Lemma rwp_handler {A B} snap (jm : RM HS A) (hm hm' : HM HS B) (P : hstate HS -> Prop) Q R t s :
  (forall (Q' : B -> hstate HS -> Prop) R', (forall s', P s' -> wp hm' Q' R' s') -> wp hm Q' R' s) ->
  (forall s', P s' -> rwp snap jm hm' Q R t s') -> rwp snap jm hm Q R t s.
Proof.
  intros Hm Hk. unfold rwp in *. destruct (jm t) as [a t'| |e t'|].
  - apply (Hm (fun b s' => Q a b t' s') (R a t')). intros s' Hp. by apply Hk.
  - assert (wp hm (fun _ _ => False) (fun _ => False) s) as F by (by apply Hm; intros s' ?%Hk).
    unfold wp in F. by destruct (hm s).
  - apply (Hm (fun _ _ => False) (trapped e snap t')). intros s' Hp. by apply Hk.
  - assert (wp hm (fun _ _ => False) (fun _ => False) s) as F by (by apply Hm; intros s' ?%Hk).
    unfold wp in F. by destruct (hm s).
Qed.

(** What compiled code relies on when it makes a call. *)
Record call_ready (op : evmc_opcode) (d : Z) sync r c : Prop := {
  cr_synced : synced sync = true;
  cr_flags : Z.land (flags (Msg r)) (u32 (Z.lnot EVMC_DELEGATED)) = flags (Msg r);
  cr_target : no_delegation c (be_bytes 20 d);
  cr_defined : op = OP_STATICCALL -> rev_lt (Rev (Inst c)) EVMC_SPURIOUS_DRAGON = false;
}.

Lemma agrees_Call op k f hva ga d v iO iN oO oN sync r c l t s :
  call_shape op = Some (k, f, hva) -> sim sync r c (call_operands hva ga d v iO iN oO oN ++ l) t s ->
  call_ready op d sync r c ->
  (refuses_value op v r = true -> oversized iO iN || oversized oO oN = true -> static_late = true) ->
  agrees (jitCallOp op ga d v iO iN oO oN) (Call_doExecute op) one sync r l t s.
Proof.
  intros Hop Hs [Hsy Hfl Htarget Hdef] Hlate. pose proof (sim_operands _ _ _ _ _ _ Hs) as Hu.
  assert (is_u256 ga /\ is_u256 d /\ is_u256 iO /\ is_u256 iN /\ is_u256 oO /\ is_u256 oN /\ (length l < 1024)%nat)
    as (Hga & Hd & HiO & HiN & HoO & HoN & Hl).
  { pose proof (view_bounds _ _ _ _ _ _ (si_view _ _ _ _ _ _ Hs)) as (Hl & _).
    destruct hva; cbn [call_operands app length] in *; decompose_Forall_hyps; split_and!; done || lia. }
  set (v' := if hva then v else 0).
  assert (value_args (Rev (Inst c)) k hva v' /\ (op = OP_STATICCALL -> v' = 0)) as [Hva Hst].
  { unfold v'. destruct op; try discriminate Hop; injection Hop as <- <- <-; (split; [|done]).
    all: first [by left|right; auto]. }
  rewrite <- be_trunc_address_spec in Htarget by done.
  destruct (normalize_run t iO iN) as [(jA & EA & HA)|[EA [Hov Hno]]]; [done..| |].
  2:{ eapply refused_call; [exact Hs|rewrite (jitCallOp_unfold _ _ _ _ _ _ _ _ _ _ _ _ Hop); unfold bind; by rewrite EA|].
      eapply wp_Call_operands; [exact Hop|apply (si_view _ _ _ _ _ _ Hs)|]. intros s' Hv'.
      eapply wp_Call_refused; [exact Hv'|done..|by left|]. intros Hr. apply Hlate; [by eapply refuses_no_value|by rewrite Hov]. }
  destruct (normalize_run t oO oN) as [(jB & EB & HB)|[EB [Hov Hno]]]; [done..| |].
  2:{ eapply refused_call; [exact Hs|rewrite (jitCallOp_unfold _ _ _ _ _ _ _ _ _ _ _ _ Hop); unfold bind; by rewrite EA, EB|].
      eapply wp_Call_operands; [exact Hop|apply (si_view _ _ _ _ _ _ Hs)|]. intros s' Hv'.
      eapply wp_Call_refused; [exact Hv'|done..|by right|]. intros Hr. apply Hlate; [by eapply refuses_no_value|by rewrite Hov, orb_true_r]. }
  apply agrees_rwp. eapply (rwp_same _ _ (evmHandleCallInternal k (sat ga) (Some (packU256Argument d)) v' jA iN jB oN f)).
  { rewrite (jitCallOp_unfold _ _ _ _ _ _ _ _ _ _ _ _ Hop). unfold bind. by rewrite EA, EB. }
  eapply rwp_handler; [intros Q R; eapply wp_Call_operands; [exact Hop|apply (si_view _ _ _ _ _ _ Hs)]|].
  fold v'. intros s' Hv'. eapply rwp_call_rest; [exact Hop|by eapply sim_view|done..].
Qed.
End Calls.
