(* ===== verification/EvmImportedCreate.v ===== *)
(** CREATE and CREATE2 of compiled code agree with the handlers of the
    interpreter, but for the return data of a creation that succeeds: the
    interpreter clears it, compiled code keeps what the host returns; then the
    instructions that end a frame. *)

From stdpp Require Import gmap.
From S2P Require Import Prelude Intx Evmc GasStorageCost EvmInstance Frame HandlerUtil HandlersArith HandlersEnv HandlersCall Interpreter WellFormed Concrete HandlerSafety View AluSpecs MemorySpecs CallSpecs InstanceSpecs EvmImported EvmImportedSim EvmImportedOps EvmImportedEnv EvmImportedCalls EvmImportedCallOps.

#[local] Open Scope Z_scope.

Section Create.
Context {HS : Type} {I : Intx} {H : EvmcHost HS} {V : Evmc} {TO : Tolerance} {IL : IntxLaws I}.
Context {HL : HostLaws HS H} {TC : TxConstant HS H} {VL : EvmcLaws V}.
Implicit Types (t : RtState HS) (s : hstate HS) (c : Context_ HS) (r : EVMFrame) (l : list Z).

(** ** Memory for the init code *)

Definition read_bytes (m : list Z) (off n : Z) : list Z := take (Z.to_nat n) (drop (Z.to_nat off) m).

(** An access that has been paid for, and read. *)
Record covers t (o n : Z) (bs : list Z) : Prop := {
  cv_size : 0 <= n <= MAX_REQUIRED_MEMORY_SIZE;
  cv_bytes : n <> 0 -> is_u64 o /\ o + n <= Z.of_nat (length (Instance_.visible (rInst t))) /\
               bs = read_bytes (Instance_.visible (rInst t)) o n;
  cv_none : n = 0 -> bs = [];
}.

Lemma covers_same t t' o n bs :
  covers t o n bs -> Instance_.visible (rInst t') = Instance_.visible (rInst t) -> covers t' o n bs.
Proof. intros [] E. split; rewrite ?E; done. Qed.

Lemma rwp_expandRead sync r c l t s o n jo jn Q R :
  sim sync r c l t s -> is_u256 o -> is_u256 n -> same_access o n jo jn ->
  (forall bs t' s', sim sync r c l t' s' -> covers t' o n bs -> Q (Some bs) tt t' s') ->
  rwp (GasRefundSnapshot r) (expandRead jo jn)
    (orStatus (checkMemoryExpandAndChargeGas o n) EVMC_OUT_OF_GAS) Q R t s.
Proof.
  intros Hs Ho Hn Ha HQ. unfold expandRead.
  assert (jn = 0 <-> n = 0) as Ez
    by (rewrite (sa_size _ _ _ _ Ha), <- !Z.eqb_eq; by rewrite sat_zero).
  assert (0 <= jn) by (rewrite (sa_size _ _ _ _ Ha); apply sat_u64; done).
  destruct (Z.ltb_spec 0 jn) as [Hpos|Hz].
  - assert (rwp (GasRefundSnapshot r) (expandChecked jo jn)
      (orStatus (checkMemoryExpandAndChargeGas o n) EVMC_OUT_OF_GAS)
      (fun ok _ t' s' => ok = true /\ sim sync r c l t' s' /\ exists bs, base_read jo jn t' = Ret bs t' /\ covers t' o n bs)
      noexit t s) as Hw.
    { eapply rwp_touch; [exact Hs|done..|]. intros Haf t' s' Hs' Ev. split_and!; [done|done|].
      destruct (access_facts _ _ o n Ho Hn ltac:(lia) Haf) as (Hr & Ho0 & En & Es & _ & _ & _ & _ & Hlen).
      assert (jo = o) as -> by (rewrite (sa_offset _ _ _ _ Ha) by lia; done).
      assert (jn = n) as -> by (rewrite (sa_size _ _ _ _ Ha); done).
      rewrite <- Ev in Hlen. eexists. split; [eapply base_read_run; [exact Hs'|lia|lia|by right]|].
      split; [lia| |lia]. intros _. split_and!; [apply (sa_range _ _ _ _ Ha)|done|done]. }
    unfold rwp, bind in *. destruct (expandChecked jo jn t) as [ok t'| |e t'|]; try done;
      destruct (orStatus _ _ s) as [[] s'|s'| |]; try done.
    destruct Hw as (-> & Hs' & bs & Eb & Hc). cbn [negb]. rewrite Eb. cbv beta iota. by apply HQ.
  - assert (n = 0) as -> by lia. unfold rwp, ret. cbn. apply HQ; [done|]. split; done.
Qed.

Lemma wp_covered sync r c l t s o n bs (Q : list Z -> hstate HS -> Prop) R :
  sim sync r c l t s -> covers t o n bs -> Q bs s ->
  wp (mem_read (if low64 n =? 0 then 0 else low64 o) (low64 n)) Q R s.
Proof.
  intros Hs [Hn Hb Hnone] HQ. rewrite (low64_small n) by (unfold in_u, MAX_REQUIRED_MEMORY_SIZE in *; lia).
  destruct (Z.eqb_spec n 0) as [->|Hn0].
  - rewrite Hnone in HQ by done. unfold mem_read. by apply wp_bind, wp_getFrame, wp_ret.
  - destruct (Hb Hn0) as (Uo & Hr & ->). rewrite low64_small by done. unfold in_u in Uo.
    eapply vp_mem_read; [apply (si_view _ _ _ _ _ _ Hs)|lia|lia|done|done].
Qed.

(** ** After the creation *)

Definition Create_finish (g : Z) (Result : evmc_result) : HM HS unit :=
  let CallGas := positive_part g in
  let GasLeft := positive_part (gas_left Result) in
  (if GasLeft <? CallGas then _ <- chargeGas (CallGas - GasLeft) ;; ret tt else ret tt) ;;;
  addRefund (gas_refund Result) ;;;
  (if is_success (status_code Result) then
     setReturnData [] ;;;
     _ <- pop ;;
     push (be_load (create_address Result))
   else setReturnData (output_data Result)) ;;;
  setStatus EVMC_SUCCESS.

(** A 32-byte result as an operand. *)
Definition word_of (bs : list Z) : list Z := [convertBytes32ToU256Operand bs].

Lemma sim_keep sync r c l t s d :
  sim (mute sync) r c l t s -> sim (mute sync) r c l (set_rInst (set_InstReturnData d (rInst t)) t) s.
Proof.
  intros [Hv []]. split; [done|]. split; try done; cbn [rInst set_rInst].
  - by destruct ma_inst.
  - by destruct ma_caches.
Qed.

Lemma wp_created sync r c l t s Res :
  sim (mute sync) r c (0 :: l) t s -> bytes_n 20 (create_address Res) ->
  Forall is_byte (output_data Res) -> Z.of_nat (length (output_data Res)) < 2 ^ 63 ->
  wp ((if is_success (status_code Res) then
         setReturnData [] ;;; _ <- pop ;; push (be_load (create_address Res))
       else setReturnData (output_data Res)) ;;; setStatus EVMC_SUCCESS)
    (fun _ s' => exists c', sim (mute sync) r c'
       ((if is_success (status_code Res) then be_load (create_address Res) else 0) :: l) t s') (fun _ => False) s.
Proof.
  intros Hs Ha Hb Hl. pose proof (sim_room _ _ _ _ _ _ _ Hs) as Hroom. apply wp_bind. destruct (is_success _).
  - apply wp_bind. unfold setReturnData. apply wp_modify.
    pose proof (sim_returned _ _ _ _ _ _ [] Hs ltac:(done) ltac:(done)) as Hs1. rewrite mute_twice in Hs1.
    apply wp_bind. eapply vp_pop; [apply Hs1|]. intros _ s2 Hv2.
    eapply vp_push; [exact Hv2|done|by apply bytes20_u256|]. intros s3 Hv3.
    apply wp_modify. eexists. apply sim_status. eapply sim_view; [exact Hs1|exact Hv3].
  - unfold setReturnData. apply wp_modify, wp_modify. eexists. apply sim_status.
    rewrite <- mute_twice. by apply sim_returned.
Qed.

Lemma rwp_finishCreate sync r c l t s g Res :
  sim (mute sync) r c (0 :: l) t s -> 0 <= g <= Gas (rInst t) -> bytes_n 20 (create_address Res) ->
  Forall is_byte (output_data Res) -> Z.of_nat (length (output_data Res)) < 2 ^ 63 ->
  rwp (GasRefundSnapshot r) (finishCreate g Res) (Create_finish g Res)
    (fun a _ => done_with word_of (mute sync) r l a) (done_with word_of (mute sync) r l) t s.
Proof.
  intros Hs Hg Ha Hb Hl.
  assert (0 <= positive_part (gas_left Res)) by (unfold positive_part; destruct (Z.ltb_spec 0 (gas_left Res)); lia).
  assert (positive_part g = g) as Epg by (unfold positive_part; destruct (Z.ltb_spec 0 g); lia).
  unfold finishCreate, Create_finish. rewrite Epg. cbv zeta.
  set (left := positive_part (gas_left Res)) in *. apply rwp_bind.
  assert (forall t1 s1, sim (mute sync) r c (0 :: l) t1 s1 ->
    rwp (GasRefundSnapshot r)
      (onInst (addGasRefund (gas_refund Res)) ;;; setInstReturnData (output_data Res) ;;;
       if is_success (status_code Res) then
         onCache (push_CreateAddress (PaddedAddress (create_address Res))) ;;; ret (PaddedAddress (create_address Res))
       else ret ZeroAddress)
      (addRefund (gas_refund Res) ;;;
       (if is_success (status_code Res) then
          setReturnData [] ;;; _ <- pop ;; push (be_load (create_address Res))
        else setReturnData (output_data Res)) ;;; setStatus EVMC_SUCCESS)
      (fun a _ => done_with word_of (mute sync) r l a) (done_with word_of (mute sync) r l) t1 s1) as Hend.
  { intros t1 s1 Hs1. pose proof (sim_refund _ _ _ _ _ _ (gas_refund Res) Hs1) as Hs2.
    eapply rwp_left; [done|]. apply rwp_right. unfold addRefund. apply wp_modify.
    eapply rwp_left; [done|]. apply (sim_keep _ _ _ _ _ _ (output_data Res)) in Hs2.
    pose proof (wp_created _ _ _ _ _ _ Res Hs2 Ha Hb Hl) as Hw. unfold rwp, wp in *.
    destruct (bind _ _ _) as [[] s3| | |]; try done. destruct Hw as [c' Hs3].
    destruct (is_success _); exists r, c'; (split; [|done]).
    - unfold word_of. cbn [app]. rewrite padded_load by done. apply sim_cache; [exact Hs3|].
      destruct Hs3 as [_ []]. by destruct ma_caches.
    - exact Hs3. }
  destruct (Z.ltb_spec left g) as [Hlt|Hge]; [|by apply rwp_ret, Hend].
  rewrite (proj2 (Z.eqb_neq _ 0)) by lia.
  eapply rwp_charge_gen; [exact Hs|lia|lia|]. intros Hle. apply wp_bind.
  eapply vp_chargeGas; [apply (si_view _ _ _ _ _ _ Hs)|lia|lia|]. intros _ s1 Hv1. apply wp_ret.
  split; [done|]. intros t1 Hs1 _ _. by apply Hend.
Qed.

(** ** The whole of it *)

Definition create_shape (op : evmc_opcode) : option (evmc_call_kind * bool) :=
  match op with
  | OP_CREATE => Some (EVMC_CREATE, false)
  | OP_CREATE2 => Some (EVMC_CREATE2, true)
  | _ => None
  end.

(** The statements of [CreateHandler::doExecute] after memory is paid for. *)
Definition Create_end (OpCode : evmc_opcode) (is2 : bool) (Val CodeOffset CodeSizeVal Salt : Z) : HM HS unit :=
  Rev_ <- currentRevision ;;
  EVM_SET_EXCEPTION_UNLESS
    (negb (rev_ge Rev_ EVMC_SHANGHAI && (MAX_SIZE_OF_INITCODE <? CodeSizeVal))) EVMC_OUT_OF_GAS ;;;
  let InitCodeWordCost := 6 * b2z is2 + 2 * b2z (rev_ge Rev_ EVMC_SHANGHAI) in
  let InitCodeSize := uint256ToUint64 (udiv (uadd CodeSizeVal 31) 32) in
  let InitCodeCost := u64 (InitCodeWordCost * InitCodeSize) in
  orStatus (chargeGas InitCodeCost) EVMC_OUT_OF_GAS ;;;
  m <- getFrame Msg ;;
  if Z.of_nat MAXSTACK <=? depth m then lightFailure
  else
    bal <- hostRead (get_balance (recipient m)) ;;
    if negb (Val =? 0) && (be_load bal <? Val) then lightFailure
    else
      let CodeSize := low64 CodeSizeVal in
      let CodeOffset64 := if CodeSize =? 0 then 0 else low64 CodeOffset in
      initcode <- mem_read CodeOffset64 CodeSize ;;
      let g :=
        if rev_ge Rev_ EVMC_TANGERINE_WHISTLE then gas m - Z.quot (gas m) 64 else gas m in
      Result <- hostDo (host_call (create_message OpCode m g Val Salt initcode)) ;;
      Create_finish g Result.

Definition Create_rest (OpCode : evmc_opcode) (is2 : bool) (Val CodeOffset CodeSizeVal Salt : Z) : HM HS unit :=
  EVM_REQUIRE_STACK_SPACE 1 ;;;
  push 0 ;;;
  clearReturnData ;;;
  static <- isStaticMode ;;
  EVM_SET_EXCEPTION_UNLESS (negb static) EVMC_STATIC_MODE_VIOLATION ;;;
  orStatus (checkMemoryExpandAndChargeGas CodeOffset CodeSizeVal) EVMC_OUT_OF_GAS ;;;
  Create_end OpCode is2 Val CodeOffset CodeSizeVal Salt.

Lemma Create_unfold op k is2 :
  create_shape op = Some (k, is2) ->
  Create_doExecute op =
  (EVM_STACK_CHECK (if is2 then 4 else 3) ;;;
   v <- pop ;; o <- pop ;; n <- pop ;; salt <- (if is2 then pop else ret 0) ;; Create_rest op is2 v o n salt).
Proof. intros Hop. destruct op; try discriminate Hop; injection Hop as <- <-; reflexivity. Qed.

(** The price of the init code. *)
Lemma initcode_cost n w :
  0 <= n <= MAX_REQUIRED_MEMORY_SIZE -> 0 <= w <= 8 ->
  u64 (w * uint256ToUint64 (udiv (uadd n 31) 32)) = u64 (w * (u64 (n + 31) / 32)) /\
  u64 (w * (u64 (n + 31) / 32)) = w * words n.
Proof.
  unfold MAX_REQUIRED_MEMORY_SIZE. intros Hn Hw.
  assert (is_u256 n) by (unfold in_u; lia). assert (is_u256 31) by (unfold in_u; lia).
  rewrite uadd_spec, (Z.mod_small (n + 31)) by (done || lia).
  rewrite udiv_spec by (unfold in_u; lia). fold (words n). assert (0 <= words n <= n + 31) by (unfold words; div_lia).
  rewrite uint256ToUint64_spec, (proj2 (Z.ltb_lt _ _)) by (unfold in_u; lia).
  rewrite (u64_small (n + 31)) by lia. fold (words n). split; [done|]. apply u64_small. nia.
Qed.

Lemma same_creation op k is2 m m' g val salt js initcode :
  create_shape op = Some (k, is2) -> set_gas 0 m = set_gas 0 m' -> flags m = 0 -> is_u256 salt ->
  js = (if is2 then Some (packU256Argument salt) else None) -> (is2 = false -> salt = 0) ->
  create_msg k m g val initcode js = create_message op m' g val salt initcode.
Proof.
  intros Hop Em Hf Hu -> Hz. unfold create_msg, create_message.
  assert (forall X (p : evmc_message -> X), (forall x, p (set_gas 0 x) = p x) -> p m' = p m) as Ep.
  { intros X p Hp. by rewrite <- (Hp m), Em. }
  rewrite Hf, (Ep _ depth), (Ep _ recipient), (be_store_spec salt) by done.
  destruct op; try discriminate Hop; injection Hop as <- <-.
  - by rewrite (Hz eq_refl).
  - by rewrite load_bytes32.
Qed.

Lemma word_cost k is2 op (b : bool) :
  create_shape op = Some (k, is2) ->
  match k with EVMC_CREATE2 => 6 | _ => 0 end + (if b then 2 else 0) = 6 * b2z is2 + 2 * b2z b.
Proof. destruct op; try discriminate; intros [= <- <-]; by destruct b. Qed.

(** Compiled code skips a charge of nothing. *)
Lemma rwp_initcode sync r c l t s n w Q R :
  sim sync r c l t s -> 0 <= n <= MAX_REQUIRED_MEMORY_SIZE -> 0 <= w <= 8 ->
  (forall t' s', sim sync r c l t' s' -> Instance_.visible (rInst t') = Instance_.visible (rInst t) -> Q tt tt t' s') ->
  rwp (GasRefundSnapshot r)
    (if negb (w =? 0) && negb (n =? 0) && negb (u64 (w * (u64 (n + 31) / 32)) =? 0)
     then charge (u64 (w * (u64 (n + 31) / 32))) else ret tt)
    (orStatus (chargeGas (u64 (w * uint256ToUint64 (udiv (uadd n 31) 32)))) EVMC_OUT_OF_GAS) Q R t s.
Proof.
  intros Hs Hn Hw HQ. destruct (initcode_cost n w Hn Hw) as [-> ->].
  assert (0 <= words n) by (unfold words; div_lia).
  destruct (_ && _) eqn:E.
  - eapply rwp_charge; [exact Hs|nia|]. intros t' s' Hs' Ev _. by apply HQ.
  - assert (w * words n = 0) as ->.
    { destruct (Z.eqb_spec w 0) as [->|]; [done|]. destruct (Z.eqb_spec n 0) as [->|]; [by rewrite Z.mul_0_r|].
      destruct (Z.eqb_spec (w * words n) 0); done. }
    assert (wp (orStatus (chargeGas 0) EVMC_OUT_OF_GAS) (fun _ s' => Q tt tt t s') (fun _ => False) s) as Hp
      by (eapply wp_pay_nothing; [exact Hs|auto]).
    unfold rwp, wp, ret in *. by destruct (orStatus _ _ s) as [[] ?| | |].
Qed.

Lemma rwp_create_end sync r c l t s op k is2 v o n salt bs js :
  create_shape op = Some (k, is2) -> sim (mute sync) r c (0 :: l) t s -> synced sync = true ->
  ReturnData c = [] -> covers t o n bs -> flags (Msg r) = 0 -> is_u256 salt ->
  js = (if is2 then Some (packU256Argument salt) else None) -> (is2 = false -> salt = 0) ->
  rwp (GasRefundSnapshot r)
    (Rev_ <- getInst Rev ;;
     (if rev_ge Rev_ EVMC_SHANGHAI && (MAX_SIZE_OF_INITCODE <? n)
      then lift Instance_.chargeAll else ret tt) ;;;
     let InitCodeWordCost :=
       (match k with EVMC_CREATE2 => 6 | _ => 0 end)
       + (if rev_ge Rev_ EVMC_SHANGHAI then 2 else 0) in
     let InitCodeWords := u64 (n + 31) / 32 in
     let InitCodeCost := u64 (InitCodeWordCost * InitCodeWords) in
     (if negb (InitCodeWordCost =? 0) && negb (n =? 0) && negb (InitCodeCost =? 0)
      then charge InitCodeCost else ret tt) ;;;
     Msg_ <- getCurrentMessage ;;
     if Z.of_nat MAXSTACK <=? depth Msg_ then failWith ZeroAddress
     else
       bal <- askHost (get_balance (recipient Msg_)) ;;
       if negb (v =? 0) && (be_load bal <? v) then failWith ZeroAddress
       else
         let g :=
           if rev_ge Rev_ EVMC_TANGERINE_WHISTLE && (0 <? gas Msg_)
           then gas Msg_ - Z.quot (gas Msg_) 64 else gas Msg_ in
         Result <- callHost (create_msg k Msg_ g v bs js) ;;
         finishCreate g Result)
    (Create_end op is2 v o n salt)
    (fun a _ => done_with word_of (mute sync) r l a) (done_with word_of (mute sync) r l) t s.
Proof.
  intros Hop Hs Hsy Hd Hc Hf Hu Hjs Hz. unfold Create_end. eapply rwp_getCtx; [exact Hs|]. apply rwp_getInst.
  rewrite (ma_rev _ _ _ _ (si_matches _ _ _ _ _ _ Hs)). apply rwp_bind.
  destruct (rev_ge (Rev (Inst c)) EVMC_SHANGHAI && _); cbn [negb].
  { destruct (sim_vars _ _ _ _ _ _ Hs) as (p & Hp & _). pose proof (sim_gas _ _ _ _ _ _ Hs) as Hg.
    eapply rwp_trap; [apply lift_throw, (instance_chargeAll_run _ _ p Hp Hg)|].
    eapply vp_unless; [apply (si_view _ _ _ _ _ _ Hs)|done|]. intros _ s' Hcx. by eapply not_affordable_trapped. }
  apply rwp_ret. cbv zeta. rewrite (word_cost _ _ _ _ Hop). apply rwp_bind.
  eapply rwp_initcode; [exact Hs|apply Hc|destruct is2, (rev_ge _ EVMC_SHANGHAI); cbn; lia|]. intros t1 s1 Hs1 Ev1.
  apply (covers_same _ t1) in Hc; [|done].
  eapply rwp_message; [exact Hs1|]. intros m Em Eg. specialize (Eg Hsy).
  eapply (rwp_getFrame _ _ _ _ _ _ _ Msg); [exact Hs1|reflexivity|].
  pose proof (sim_frame_msg _ _ _ _ _ _ Hs1) as Em'. pose proof (view_fgas _ _ _ _ _ _ Hs1) as Eg'.
  unfold fgas in Eg'. set (m' := Msg (fr s1)) in *.
  rewrite (msg_field depth m (Msg r)), (msg_field depth m' (Msg r)) by done.
  assert (wp lightFailure (fun _ _ => False)
    (fun s' => done_with word_of (mute sync) r l ZeroAddress (set_rInst (set_InstReturnData [] (rInst t1)) t1) s') s1) as Hfail.
  { eapply wp_mono; [| |apply (light_failure (mute sync)); [by rewrite mute_twice|done]]; [done|].
    intros s' Hs'. by exists r, c. }
  destruct (_ <=? depth _); [by eapply rwp_exit|].
  rewrite (msg_field recipient m (Msg r)), (msg_field recipient m' (Msg r)) by done.
  eapply rwp_hostRead; [exact Hs1|]. eapply rwp_askHost; [exact Hs1|].
  destruct (_ && (be_load _ <? v)); [by eapply rwp_exit|].
  apply rwp_right. eapply wp_covered; [exact Hs1|exact Hc|]. rewrite Eg, Eg'.
  pose proof (sim_gas _ _ _ _ _ _ Hs1) as Hg.
  assert ((if rev_ge (Rev (Inst c)) EVMC_TANGERINE_WHISTLE && (0 <? Gas (rInst t1))
           then Gas (rInst t1) - Gas (rInst t1) ÷ 64 else Gas (rInst t1)) =
          (if rev_ge (Rev (Inst c)) EVMC_TANGERINE_WHISTLE
           then Gas (rInst t1) - Gas (rInst t1) ÷ 64 else Gas (rInst t1))) as ->.
  { destruct (rev_ge _ EVMC_TANGERINE_WHISTLE); [|done]. cbn [andb].
    destruct (Z.ltb_spec 0 (Gas (rInst t1))); [done|]. by replace (Gas (rInst t1)) with 0 by lia. }
  set (g := if rev_ge (Rev (Inst c)) EVMC_TANGERINE_WHISTLE then _ else _).
  assert (0 <= g <= Gas (rInst t1)) as Hgg.
  { unfold g. destruct (rev_ge _ EVMC_TANGERINE_WHISTLE); [|lia]. rewrite Z.quot_div_nonneg by lia.
    pose proof (all_but_64th_range (Gas (rInst t1))) as Ha. unfold all_but_64th in Ha. lia. }
  assert (create_msg k m g v bs js = create_message op m' g v salt bs) as ->.
  { eapply same_creation; [exact Hop|by rewrite Em, Em'| |done..]. by rewrite (msg_field flags m (Msg r)). }
  apply rwp_bind. eapply rwp_callHost; [exact Hs1|exact Hsy|]. intros t2 s2 Hs2 Ev2 Eg2.
  eapply rwp_finishCreate; [exact Hs2|lia|apply host_call_address|apply host_call_output|apply host_call_size].
Qed.

(** The creation compiled code makes for an instruction. *)
Definition jitCreateOp (op : evmc_opcode) (v o n salt : Z) : RM HS Z :=
  match op with
  | OP_CREATE => jitCreate v o n
  | OP_CREATE2 => jitCreate2 v o n salt
  | _ => undef
  end.

Definition create_operands (is2 : bool) (v o n salt : Z) : list Z :=
  if is2 then [v; o; n; salt] else [v; o; n].

Lemma jitCreateOp_unfold op k is2 v o n salt t :
  create_shape op = Some (k, is2) ->
  jitCreateOp op v o n salt t =
  (x <- normalizeOffsetWithSize o n ;;
   bs <- evmHandleCreateInternal k v x.1 x.2 (if is2 then Some (packU256Argument salt) else None) ;;
   ret (convertBytes32ToU256Operand bs)) t.
Proof.
  intros Hop. destruct op; try discriminate Hop; injection Hop as <- <-;
    unfold jitCreateOp, jitCreate, jitCreate2, evmHandleCreate, evmHandleCreate2; reflexivity.
Qed.

Lemma wp_Create_operands op k is2 v o n salt r l m g c s (Q : unit -> hstate HS -> Prop) R :
  create_shape op = Some (k, is2) -> view r (create_operands is2 v o n salt ++ l) m g c s ->
  (forall s', view r l m g c s' -> wp (Create_rest op is2 v o n (if is2 then salt else 0)) Q R s') ->
  wp (Create_doExecute op) Q R s.
Proof.
  intros Hop Hv Hk. rewrite (Create_unfold _ _ _ Hop). apply wp_bind.
  eapply vp_check; [exact Hv|destruct is2; simpl; lia|].
  destruct is2; cbn [create_operands app] in Hv.
  - repeat (apply wp_bind; eapply vp_pop; [eassumption|intros ? ? ?]). by apply Hk.
  - do 3 (apply wp_bind; eapply vp_pop; [eassumption|]; intros ? ? ?). apply wp_bind, wp_ret. by apply Hk.
Qed.

Lemma wp_Create_refused r l m g c s op is2 v o n salt :
  view r l m g c s -> (length l < 1024)%nat -> is_u256 o -> is_u256 n ->
  (forall m' g', ~ affordable m' g' o n 0) -> (is_static r = true -> static_late = true) ->
  wp (Create_rest op is2 v o n salt) (fun _ _ => False) refusal s.
Proof.
  intros Hv Hl Ho Hn Hno Hlate. unfold Create_rest.
  apply wp_bind. unfold EVM_REQUIRE_STACK_SPACE. apply wp_bind, wp_getFrame.
  rewrite (view_sp _ _ _ _ _ _ Hv), (proj2 (Nat.ltb_ge _ _)) by lia. apply wp_ret.
  apply wp_bind. eapply vp_push; [exact Hv|done|unfold in_u; lia|]. intros s1 Hv1.
  apply wp_bind. unfold clearReturnData. apply wp_modify.
  set (s2 := on_cx _ s1). assert (view r (0 :: l) m g (set_ReturnData [] c) s2) as Hv2.
  { destruct Hv1 as [Hw1 Hr1 Ho1 Hm1 Hg1 Hc1]. split; try done. cbn [cx on_cx s2]. by rewrite Hc1. }
  apply wp_bind. eapply vp_isStatic; [exact Hv2|]. apply wp_bind. eapply vp_unless; [exact Hv2| |].
  2:{ intros Hst%negb_false_iff s5 Hc. eapply refusal_static; eauto. }
  intros _. apply wp_bind. eapply vp_payTouch; [exact Hv2|done|done|intros _ s5 Hc; by eapply refusal_gas|].
  intros Ha. exfalso. by eapply Hno.
Qed.

Lemma rwp_create_rest sync r c l t s op k is2 v o n jo salt js :
  create_shape op = Some (k, is2) -> sim sync r c l t s -> (length l < 1024)%nat -> synced sync = true ->
  (is_static r = false -> flags (Msg r) = 0) -> is_u256 o -> is_u256 n -> is_u256 salt -> same_access o n jo n ->
  js = (if is2 then Some (packU256Argument salt) else None) -> (is2 = false -> salt = 0) ->
  rwp (GasRefundSnapshot r) (evmHandleCreateInternal k v jo n js) (Create_rest op is2 v o n salt)
    (fun a _ => done_with word_of (mute sync) r l a) (done_with word_of (mute sync) r l) t s.
Proof.
  intros Hop Hs Hl Hsy Hf Ho Hn Hu Ha Hjs Hz. unfold evmHandleCreateInternal, Create_rest.
  eapply rwp_room; [exact Hs|done|]. eapply rwp_push; [exact Hs|done|unfold in_u; lia|]. intros s1 Hs1.
  eapply (rwp_setReturn _ _ _ _ _ _ _ []); [exact Hs1|done|done|]. intros s2 Hs2.
  eapply rwp_isStatic; [exact Hs2|]. eapply rwp_static; [exact Hs2|].
  destruct (is_static r) eqn:Est; [by eapply (rwp_static_stop _ _ _ _ _ _ (fun _ => _))|].
  apply rwp_right, wp_ret, rwp_bind. eapply rwp_expandRead; [exact Hs2|done..|]. intros bs t3 s3 Hs3 Hc. cbv iota.
  eapply rwp_create_end; [exact Hop|exact Hs3|by auto..].
Qed.

(** What compiled code relies on when it creates a contract. *)
Record create_ready sync r : Prop := {
  cc_synced : synced sync = true;
  cc_flags : is_static r = false -> flags (Msg r) = 0;
}.

Lemma agrees_Create op k is2 v o n salt sync r c l t s :
  create_shape op = Some (k, is2) -> sim sync r c (create_operands is2 v o n salt ++ l) t s ->
  create_ready sync r -> (is_static r = true -> oversized o n = true -> static_late = true) ->
  agrees (jitCreateOp op v o n salt) (Create_doExecute op) one (mute sync) r l t s.
Proof.
  intros Hop Hs [Hsy Hf] Hlate. pose proof (sim_operands _ _ _ _ _ _ Hs) as Hu.
  assert (is_u256 o /\ is_u256 n /\ is_u256 (if is2 then salt else 0) /\ (length l < 1024)%nat) as (Ho & Hn & Hsalt & Hl).
  { pose proof (view_bounds _ _ _ _ _ _ (si_view _ _ _ _ _ _ Hs)) as (Hl & _).
    destruct is2; cbn [create_operands app length] in *; decompose_Forall_hyps; split_and!; done || lia. }
  destruct (normalize_run t o n) as [(jo & En & Ha)|[En [Hov Hno]]]; [done..| |].
  2:{ apply agrees_rwp. eapply rwp_trap; [rewrite (jitCreateOp_unfold _ _ _ _ _ _ _ _ Hop); unfold bind; by rewrite En|].
      eapply wp_Create_operands; [exact Hop|apply (si_view _ _ _ _ _ _ Hs)|]. intros s' Hv'.
      eapply wp_mono; [| |eapply wp_Create_refused; eauto]; [done|]. intros s2 Hf2. by eapply refused_trapped. }
  apply agrees_rwp. eapply (rwp_same _ _ (bs <- evmHandleCreateInternal k v jo n (if is2 then Some (packU256Argument salt) else None) ;;
    ret (convertBytes32ToU256Operand bs))).
  { rewrite (jitCreateOp_unfold _ _ _ _ _ _ _ _ Hop). unfold bind at 1. by rewrite En. }
  eapply rwp_handler; [intros Q R; eapply wp_Create_operands; [exact Hop|apply (si_view _ _ _ _ _ _ Hs)]|].
  intros s' Hv'. pose proof (rwp_create_rest sync r c l t s' op k is2 v o n jo (if is2 then salt else 0)
    (if is2 then Some (packU256Argument salt) else None) Hop (sim_view _ _ _ _ _ _ _ _ Hs Hv') Hl Hsy Hf Ho Hn Hsalt Ha) as Hw.
  assert (rwp (GasRefundSnapshot r)
    (evmHandleCreateInternal k v jo n (if is2 then Some (packU256Argument salt) else None))
    (Create_rest op is2 v o n (if is2 then salt else 0))
    (fun a _ => done_with word_of (mute sync) r l a) (done_with word_of (mute sync) r l) t s') as Hw'
    by (apply Hw; by destruct is2).
  unfold rwp, bind in *. by destruct (evmHandleCreateInternal _ _ _ _ _ t) as [bs t'| |e t'|].
Qed.
End Create.

(** RETURN, REVERT and SELFDESTRUCT of compiled code end an execution with the
    result of the interpreter's frame. *)

#[local] Open Scope Z_scope.

Section Ends.
Context {HS : Type} {I : Intx} {H : EvmcHost HS} {V : Evmc} {TO : Tolerance} {IL : IntxLaws I}.
Context {HL : HostLaws HS H} {TC : TxConstant HS H} {VL : EvmcLaws V}.
Implicit Types (t : RtState HS) (s : hstate HS) (c : Context_ HS) (r : EVMFrame) (l : list Z).

(** Compiled code has ended, and its result is that of the frame. *)
Record ended t s : Prop := {
  nd_status : status_code (rResult t) = Status (cx s);
  nd_gas : gas_left (rResult t) = fgas (fr s);
  nd_refund : gas_refund (rResult t) = GasRefund (Inst (cx s));
  nd_output : output_data (rResult t) = ReturnData (cx s);
  nd_exit : rErr t = Some InstanceExit;
}.

Definition agrees_ended (jm : RM HS unit) (hm : HM HS unit) r t s : Prop :=
  match jm t with
  | Ret _ t' => exists s', call hm s = Ret tt s' /\ ended t' s'
  | Throw e t' => exists s', call hm s = Ret tt s' /\ trapped e (GasRefundSnapshot r) t' s'
  | _ => False
  end.

Lemma ended_rwp (jm : RM HS unit) hm r t s :
  rwp (GasRefundSnapshot r) jm hm (fun _ _ => ended) noexit t s -> agrees_ended jm hm r t s.
Proof.
  unfold rwp, agrees_ended, call, noexit. destruct (jm t) as [a t'| |e t'|]; [|done| |done];
    destruct (hm s) as [[] s'|s'| |]; try done; by exists s'.
Qed.

Lemma agrees_Return sync r c o n l t s :
  sim sync r c (o :: n :: l) t s -> agrees_ended (jitReturn o n) Return_body r t s.
Proof.
  intros Hs. pose proof (sim_operands _ _ _ _ _ _ Hs) as Hu. decompose_Forall_hyps.
  apply ended_rwp. unfold jitReturn, evmSetReturn, Return_body. jit_operands. fold (sat o) (sat n).
  apply rwp_bind. eapply rwp_expandRead; [eassumption|done|done|by apply same_access_sat|]. intros bs t1 s1 Hs1 Hc.
  cbv iota. apply rwp_right. eapply wp_covered; [exact Hs1|exact Hc|].
  pose proof (view_fgas _ _ _ _ _ _ Hs1) as Eg. pose proof (sim_gas _ _ _ _ _ _ Hs1).
  destruct Hs1 as [Hv1 []]. pose proof (v_cx _ _ _ _ _ _ Hv1) as Ec.
  unfold rwp. cbn. split; cbn; rewrite ?Ec; try done.
  rewrite i64_small by lia. symmetry. exact Eg.
Qed.

Lemma agrees_Revert sync r c o n l t s :
  sim sync r c (o :: n :: l) t s -> agrees_ended (jitRevert o n) Revert_body r t s.
Proof.
  intros Hs. pose proof (sim_operands _ _ _ _ _ _ Hs) as Hu. decompose_Forall_hyps.
  apply ended_rwp. unfold jitRevert, evmSetRevert, Revert_body. jit_operands. fold (sat o) (sat n).
  apply rwp_bind. eapply rwp_expandRead; [eassumption|done|done|by apply same_access_sat|]. intros bs t1 s1 Hs1 Hc.
  cbv iota. apply rwp_right. eapply wp_covered; [exact Hs1|exact Hc|].
  pose proof (view_fgas _ _ _ _ _ _ Hs1) as Eg. pose proof (sim_gas _ _ _ _ _ _ Hs1).
  destruct Hs1 as [Hv1 []]. pose proof (v_cx _ _ _ _ _ _ Hv1) as Ec.
  destruct (restore_snapshot r (rInst t1)) as [Er Egr]; [done..|].
  assert (GasRefundSnapshot (fr s1) = GasRefundSnapshot r) as Esn by (by rewrite <- (v_rest _ _ _ _ _ _ Hv1)).
  unfold rwp. cbn -[restoreGasRefundSnapshot]. split; cbn -[restoreGasRefundSnapshot]; rewrite ?Ec; try done.
  - rewrite Egr, i64_small by lia. symmetry. exact Eg.
  - by rewrite Er, Esn.
Qed.

(** ** SELFDESTRUCT *)

(** The messages of the instance do not change with gas. *)
Lemma charge_stack k t t' : charge k t = Ret tt t' -> MessageStack (rInst t') = MessageStack (rInst t).
Proof.
  unfold charge, lift, viewInst, Instance_.chargeGas, bind, gets. cbn.
  destruct (CurrentMessage (rInst t)); [|done]. destruct (_ <? _); [done|]. by intros [= <-].
Qed.

Lemma rwp_known {A B} snap (P : RtState HS -> Prop) (jm : RM HS A) (hm : HM HS B) Q R t s :
  (forall a t', jm t = Ret a t' -> P t') ->
  rwp snap jm hm (fun a b t' s' => P t' -> Q a b t' s') R t s -> rwp snap jm hm Q R t s.
Proof.
  intros HP. unfold rwp. destruct (jm t) as [a t'| | |]; try done. destruct (hm s); try done. eauto.
Qed.

(** The only message of the instance is released, and the execution ends. *)
Lemma rwp_release snap sync r c l t s x :
  sim sync r c l t s -> synced sync = true -> MessageStack (rInst t) = [x] ->
  rwp snap releaseInstance (setStatus EVMC_SUCCESS ;;; setReturnData []) (fun _ _ => ended) noexit t s.
Proof.
  intros Hs Hsy Hst. destruct (sim_vars _ _ _ _ _ _ Hs) as (p & Hp & _).
  pose proof (view_fgas _ _ _ _ _ _ Hs) as Eg. pose proof (sim_gas _ _ _ _ _ _ Hs) as Hg.
  destruct Hs as [Hv []]. pose proof (ma_sync p Hsy Hp) as Em. pose proof (v_cx _ _ _ _ _ _ Hv) as Ec.
  unfold rwp, releaseInstance, setInstReturnData, getCurrentMessage, onInst, getInst, bind, modify, gets.
  cbn [rInst set_rInst set_InstReturnData CurrentMessage]. rewrite Hp. cbn beta iota. unfold popMessage.
  cbn [rInst rMsgs set_rInst set_InstReturnData MessageStack MemoryStack]. rewrite Hst. cbn [tail]. rewrite Em.
  destruct (MemoryStack (rInst t)) as [|[d sz] ms]; cbn;
    (split; cbn; [done| |by rewrite Ec|done|done]); rewrite u64_small, i64_small by lia; by rewrite <- Eg.
Qed.

Lemma jitSelfDestruct_unfold b t :
  jitSelfDestruct b t =
  (static <- instStaticMode ;;
   if static then triggerStaticModeViolation
   else
     Msg_ <- getCurrentMessage ;;
     Rev_ <- getInst Rev ;;
     let BenefAddr := be_bytes 20 b in
     IsCold <- isColdAccount BenefAddr ;;
     (if IsCold then charge COLD_ACCOUNT_ACCESS_COST else ret tt) ;;;
     (if rev_ge Rev_ EVMC_TANGERINE_WHISTLE then
        bal <- askHost (get_balance (recipient Msg_)) ;;
        if bool_decide (Rev_ = EVMC_TANGERINE_WHISTLE) || nonzero_bytes bal then
          ex <- askHost (account_exists BenefAddr) ;;
          if negb ex then charge ACCOUNT_CREATION_COST else ret tt
        else ret tt
      else ret tt) ;;;
     first <- doHost (selfdestruct (recipient Msg_) BenefAddr) ;;
     (if first && rev_lt Rev_ EVMC_LONDON then onInst (addGasRefund EXTRA_REFUND_BEFORE_LONDON)
      else ret tt) ;;;
     releaseInstance) t.
Proof. unfold jitSelfDestruct, evmHandleSelfDestruct. by rewrite load_address. Qed.

(** A charge made or not. *)
Lemma rwp_chargeIf sync r c l t s (b : bool) k ms (Q : unit -> unit -> RtState HS -> hstate HS -> Prop) R :
  sim sync r c l t s -> MessageStack (rInst t) = ms -> 0 <= k ->
  (forall t' s', sim sync r c l t' s' -> MessageStack (rInst t') = ms -> Q tt tt t' s') ->
  rwp (GasRefundSnapshot r) (if b then charge k else ret tt)
    (if b then orStatus (chargeGas k) EVMC_OUT_OF_GAS else ret tt) Q R t s.
Proof.
  intros Hs Hst Hk HQ. destruct b; [|by apply rwp_ret, HQ].
  eapply (rwp_known _ (fun t' => MessageStack (rInst t') = ms)).
  { intros [] t' E. rewrite <- Hst. by eapply charge_stack. }
  eapply rwp_charge; [exact Hs|done|]. intros t' s' Hs' _ _ E. by apply HQ.
Qed.

Lemma agrees_SelfDestruct sync r c b l t s x :
  sim sync r c (b :: l) t s -> synced sync = true -> MessageStack (rInst t) = [x] ->
  agrees_ended (jitSelfDestruct b) SelfDestruct_body r t s.
Proof.
  intros Hs Hsy Hst. apply ended_rwp. eapply rwp_same; [apply jitSelfDestruct_unfold|]. unfold SelfDestruct_body.
  eapply rwp_isStatic; [exact Hs|]. eapply rwp_static; [exact Hs|].
  destruct (is_static r); [by eapply (rwp_static_stop _ _ _ _ _ _ (fun _ => _))|].
  apply rwp_right, wp_ret. jit_operands. rewrite be_trunc_address_spec by done.
  eapply rwp_message; [eassumption|]. intros msg Em _. rewrite (msg_field recipient msg (Msg r)) by done.
  eapply rwp_getCtx; [eassumption|]. apply rwp_getInst. rewrite (ma_rev _ _ _ _ (si_matches _ _ _ _ _ _ Hs)).
  apply rwp_bind. eapply rwp_coldAccount; [eassumption|]. intros cold h t1 s1 Hs1 Ei1. rewrite <- Ei1 in Hst.
  apply rwp_bind. eapply rwp_chargeIf; [exact Hs1|exact Hst|done|]. intros t2 s2 Hs2 Hst2.
  eapply rwp_getFrame; [exact Hs2|eapply view_recipient; eapply si_view; exact Hs2|]. apply rwp_bind.
  assert (forall t3 s3, sim sync r (set_hst h c) l t3 s3 -> MessageStack (rInst t3) = [x] ->
    rwp (GasRefundSnapshot r)
      (first <- doHost (selfdestruct (recipient (Msg r)) (be_bytes 20 b)) ;;
       (if first && rev_lt (Rev (Inst c)) EVMC_LONDON then onInst (addGasRefund EXTRA_REFUND_BEFORE_LONDON)
        else ret tt) ;;; releaseInstance)
      (first <- hostDo (selfdestruct (recipient (Msg r)) (be_bytes 20 b)) ;;
       (if first && rev_lt (Rev (Inst c)) EVMC_LONDON then addRefund EXTRA_REFUND_BEFORE_LONDON else ret tt) ;;;
       setStatus EVMC_SUCCESS ;;; setReturnData []) (fun _ _ => ended) noexit t3 s3) as Hend.
  { intros t3 s3 Hs3 Hst3. apply rwp_bind. eapply rwp_host; [exact Hs3|intros; apply tx_selfdestruct|].
    intros t4 s4 Hs4 Ei4. rewrite <- Ei4 in Hst3. destruct (_ && _).
    - apply rwp_bind. eapply rwp_release; [by apply sim_refund|done|done].
    - apply rwp_bind, rwp_ret. by eapply rwp_release. }
  destruct (rev_ge _ _); [|by apply rwp_ret, Hend].
  eapply rwp_hostRead; [exact Hs2|]. eapply rwp_askHost; [exact Hs2|]. destruct (_ || _); [|by apply rwp_ret, Hend].
  eapply rwp_hostRead; [exact Hs2|]. eapply rwp_askHost; [exact Hs2|].
  eapply rwp_chargeIf; [exact Hs2|exact Hst2|done|exact Hend].
Qed.
End Ends.
