(* ===== verification/EvmImportedRun.v ===== *)
(** Compiled code and the interpreter, instruction by instruction and over
    sequences of instructions. *)

From stdpp Require Import gmap.
From S2P Require Import Prelude Intx Evmc GasStorageCost EvmInstance Frame HandlerUtil.
From S2P Require Import HandlersArith HandlersEnv HandlersCall Interpreter WellFormed Concrete HandlerSafety View.
From S2P Require Import AluSpecs MemorySpecs CallSpecs InstanceSpecs EvmImported EvmImportedSim EvmImportedOps EvmImportedEnv.
From S2P Require Import EvmImportedEnv.

#[local] Open Scope Z_scope.

Section Run.
Context {HS : Type} {I : Intx} {I5 : Intx512} {H : EvmcHost HS} {V : Evmc} {TO : Tolerance}.
Implicit Types (t : RtState HS) (s : hstate HS) (c : Context_ HS) (r : EVMFrame) (l : list Z).

(** A helper that returns a word, one that returns nothing. *)
Definition asOperand (m : RM HS Z) : RM HS (list Z) := x <- m ;; ret [x].
Definition quiet (m : RM HS unit) : RM HS (list Z) := m ;;; ret [].

(** What compiled code does for the instructions that it leaves to a function
    of the runtime, by their operands with the top one first, and the operands
    it leaves: the cases of [EVMByteCodeVisitor::decode] whose [handle]
    function emits a call whatever the operands.  The instructions compiled
    without a call (MUL, EXP, ADDRESS, CALLER, CALLVALUE, CALLDATASIZE,
    CODESIZE, RETURNDATASIZE, GAS and the operations on the stack and the
    memory), those with a call on one path only (DIV, MOD, ADDMOD), those that
    end or leave the frame, and those that move the program counter have no
    entry. *)
Definition jitAlu (op : evmc_opcode) (args : list Z) : option Z :=
  match op, args with
  | OP_SDIV, [a; b] => Some (jitSDiv a b)
  | OP_SMOD, [a; b] => Some (jitSMod a b)
  | OP_MULMOD, [a; b; n] => Some (jitMulMod a b n)
  | OP_CLZ, [a] => Some (jitClz a)
  | _, _ => None
  end.

Definition jitQuery (op : evmc_opcode) : option (RM HS Z) :=
  match op with
  | OP_ORIGIN => Some jitOrigin
  | OP_GASPRICE => Some jitGasPrice
  | OP_COINBASE => Some jitCoinBase
  | OP_TIMESTAMP => Some jitTimestamp
  | OP_NUMBER => Some jitNumber
  | OP_PREVRANDAO => Some jitPrevRandao
  | OP_GASLIMIT => Some jitGasLimit
  | OP_CHAINID => Some jitChainId
  | OP_SELFBALANCE => Some jitSelfBalance
  | OP_BASEFEE => Some jitBaseFee
  | OP_BLOBBASEFEE => Some jitBlobBaseFee
  | _ => None
  end.

Definition jitEffect (op : evmc_opcode) (args : list Z) : option (RM HS (list Z)) :=
  match op, args with
  | OP_KECCAK256, [o; n] => Some (asOperand (jitKeccak256 o n))
  | OP_BALANCE, [a] => Some (asOperand (jitBalance a))
  | OP_CALLDATALOAD, [o] => Some (asOperand (jitCallDataLoad o))
  | OP_CALLDATACOPY, [d; o; n] => Some (quiet (jitCallDataCopy d o n))
  | OP_CODECOPY, [d; o; n] => Some (quiet (jitCodeCopy d o n))
  | OP_EXTCODESIZE, [a] => Some (asOperand (jitExtCodeSize a))
  | OP_EXTCODECOPY, [a; d; o; n] => Some (quiet (jitExtCodeCopy a d o n))
  | OP_RETURNDATACOPY, [d; o; n] => Some (quiet (jitReturnDataCopy d o n))
  | OP_EXTCODEHASH, [a] => Some (asOperand (jitExtCodeHash a))
  | OP_BLOCKHASH, [b] => Some (asOperand (jitBlockHash b))
  | OP_BLOBHASH, [i] => Some (asOperand (jitBlobHash i))
  | OP_SLOAD, [k] => Some (asOperand (jitSLoad k))
  | OP_SSTORE, [k; v] => Some (quiet (jitSStore k v))
  | OP_TLOAD, [k] => Some (asOperand (jitTLoad k))
  | OP_TSTORE, [k; v] => Some (quiet (jitTStore k v))
  | OP_LOG0, [o; n] => Some (quiet (jitLog o n []))
  | OP_LOG1, [o; n; t1] => Some (quiet (jitLog o n [t1]))
  | OP_LOG2, [o; n; t1; t2] => Some (quiet (jitLog o n [t1; t2]))
  | OP_LOG3, [o; n; t1; t2; t3] => Some (quiet (jitLog o n [t1; t2; t3]))
  | OP_LOG4, [o; n; t1; t2; t3; t4] => Some (quiet (jitLog o n [t1; t2; t3; t4]))
  | _, _ => None
  end.

(** The logs, which compiled code refuses late in a static frame. *)
Definition is_log (op : evmc_opcode) : bool :=
  match op with OP_LOG0 | OP_LOG1 | OP_LOG2 | OP_LOG3 | OP_LOG4 => true | _ => false end.

Definition jitOperation (op : evmc_opcode) (args : list Z) : option (RM HS (list Z)) :=
  match jitAlu op args with
  | Some v => Some (ret [v])
  | None =>
      match jitEffect op args with
      | Some m => Some m
      | None => match args with [] => asOperand <$> jitQuery op | _ => None end
      end
  end.

(** How many operands an instruction takes. *)
Definition operand_count (op : evmc_opcode) : nat :=
  match op with
  | OP_MULMOD | OP_CALLDATACOPY | OP_CODECOPY | OP_RETURNDATACOPY | OP_LOG1 => 3
  | OP_EXTCODECOPY | OP_LOG2 => 4
  | OP_LOG3 => 5
  | OP_LOG4 => 6
  | OP_SDIV | OP_SMOD | OP_KECCAK256 | OP_SSTORE | OP_TSTORE | OP_LOG0 => 2
  | OP_CLZ | OP_BALANCE | OP_CALLDATALOAD | OP_EXTCODESIZE | OP_EXTCODEHASH | OP_BLOCKHASH | OP_BLOBHASH
  | OP_SLOAD | OP_TLOAD => 1
  | _ => 0
  end.

(** A sequence of instructions on an operand stack, compiled. *)
Fixpoint jitRun (ops : list evmc_opcode) (l : list Z) : RM HS (list Z) :=
  match ops with
  | [] => ret l
  | op :: ops' =>
      match jitOperation op (take (operand_count op) l) with
      | Some m => res <- m ;; jitRun ops' (res ++ drop (operand_count op) l)
      | None => undef
      end
  end.

(** The same, interpreted: a status other than success stops the sequence. *)
Fixpoint handlersRun (ops : list evmc_opcode) : HM HS unit :=
  match ops with
  | [] => ret tt
  | op :: ops' =>
      match chunk_handler op with
      | Some m =>
          call m ;;;
          st <- getCtx Status ;;
          if is_success st then handlersRun ops' else exit
      | None => undef
      end
  end.

(** How many operands it leaves. *)
Definition result_count (op : evmc_opcode) : nat :=
  match op with
  | OP_CALLDATACOPY | OP_CODECOPY | OP_EXTCODECOPY | OP_RETURNDATACOPY | OP_SSTORE | OP_TSTORE
  | OP_LOG0 | OP_LOG1 | OP_LOG2 | OP_LOG3 | OP_LOG4 => 0
  | _ => 1
  end.

(** The instructions have an entry, the operands suffice, and there is room
    for the results. *)
Fixpoint fits (ops : list evmc_opcode) (depth : nat) : bool :=
  match ops with
  | [] => true
  | op :: ops' =>
      let k := operand_count op in
      let d := (result_count op + (depth - k))%nat in
      match jitOperation op (replicate k 0) with
      | None => false
      | Some _ => (k <=? depth)%nat && (d <=? 1024)%nat && fits ops' d
      end
  end.

(** ** One instruction *)

Lemma agrees_asOperand m hm sync r l t s : agrees m hm one sync r l t s -> agrees (asOperand m) hm (fun x => x) sync r l t s.
Proof. unfold agrees, asOperand, bind. by destruct (m t). Qed.

Lemma agrees_quiet m hm sync r l t s :
  agrees m hm nothing sync r l t s -> agrees (quiet m) hm (fun x => x) sync r l t s.
Proof. unfold agrees, quiet, bind. by destruct (m t) as [[] ?| | |]. Qed.

Definition yields (n : nat) (m : RM HS (list Z)) : Prop := forall t res t', m t = Ret res t' -> length res = n.

Lemma yields_ret v : yields 1 (ret [v]).
Proof. by intros t res t' [= <- <-]. Qed.
Lemma yields_asOperand m : yields 1 (asOperand m).
Proof. intros t res t'. unfold asOperand, bind. destruct (m t); try done. by intros [= <- <-]. Qed.
Lemma yields_quiet m : yields 0 (quiet m).
Proof. intros t res t'. unfold quiet, bind. destruct (m t); try done. by intros [= <- <-]. Qed.

Lemma jitOperation_yields op args m : jitOperation op args = Some m -> yields (result_count op) m.
Proof.
  intros E. unfold jitOperation in E. destruct (jitAlu op args) eqn:Ea.
  { injection E as <-. destruct op; try done; apply yields_ret. }
  destruct (jitEffect op args) eqn:Ee.
  { injection E as <-. unfold jitEffect in Ee.
    destruct op; try discriminate Ee; repeat (destruct args as [|? args]; try discriminate Ee);
      injection Ee as <-; auto using yields_asOperand, yields_quiet. }
  destruct args; [|done]. destruct (jitQuery op) eqn:Eq; [|done]. injection E as <-.
  destruct op; try discriminate Eq; apply yields_asOperand.
Qed.
End Run.

Section RunCorrect.
Context {HS : Type} {I : Intx} {I5 : Intx512} {H : EvmcHost HS} {V : Evmc} {TO : Tolerance}.
Context {IL : IntxLaws I} {IL5 : Intx512Laws I5} {HL : HostLaws HS H} {TC : TxConstant HS H} {CB : CodeBound HS H} {VL : EvmcLaws V}.
Implicit Types (t : RtState HS) (s : hstate HS) (c : Context_ HS) (r : EVMFrame) (l : list Z).

Lemma jitAlu_helper op args v : jitAlu op args = Some v -> helperAlu op args = Some v.
Proof. unfold jitAlu, helperAlu. destruct op; try done; by destruct args as [|? [|? [|? [|? ?]]]]. Qed.

Lemma agrees_alu op M args v sync r c l t s :
  chunk_handler op = Some M -> jitAlu op args = Some v -> sim sync r c (args ++ l) t s ->
  agrees (ret [v]) M (fun x => x) sync r l t s.
Proof.
  intros HM Hv Hs. pose proof (sim_operands _ _ _ _ _ _ Hs) as [Hu _]%Forall_app.
  assert (op <> OP_EXP) as Hop by (by intros ->).
  destruct (alu_runs op M args v r l _ _ c s Hop HM (helperAlu_spec _ _ _ Hu (jitAlu_helper _ _ _ Hv))
    (si_view _ _ _ _ _ _ Hs)) as (s' & E & Hv').
  unfold agrees, ret, call. rewrite E. exists s', r, c. split_and!; [done| |done]. by eapply sim_view.
Qed.

Lemma agrees_effect op args m sync r c l t s :
  jitEffect op args = Some m -> sim sync r c (args ++ l) t s -> returned sync = true ->
  (is_static r = true -> is_log op = true -> static_late = true) ->
  exists M, chunk_handler op = Some M /\ agrees m M (fun x => x) sync r l t s.
Proof.
  intros E Hs Hret Hlate. unfold jitEffect in E.
  destruct op; try discriminate E; repeat (destruct args as [|? args]; try discriminate E);
    injection E as <-; (eexists; split; [reflexivity|]); cbn [app] in Hs;
    first [apply agrees_asOperand|apply agrees_quiet].
  - by eapply agrees_Keccak256.
  - by eapply agrees_Balance.
  - by eapply agrees_CallDataLoad.
  - by eapply agrees_CallDataCopy.
  - by eapply agrees_CodeCopy.
  - by eapply agrees_ExtCodeSize.
  - by eapply agrees_ExtCodeCopy.
  - by eapply agrees_ReturnDataCopy.
  - by eapply agrees_ExtCodeHash.
  - by eapply agrees_BlockHash.
  - by eapply agrees_BlobHash.
  - by eapply agrees_SLoad.
  - by eapply agrees_SStore.
  - by eapply agrees_TLoad.
  - by eapply agrees_TStore.
  - by apply (agrees_Log _ _ c _ _ []); [|simpl; lia|auto].
  - by apply (agrees_Log _ _ c _ _ [_]); [|simpl; lia|auto].
  - by apply (agrees_Log _ _ c _ _ [_; _]); [|simpl; lia|auto].
  - by apply (agrees_Log _ _ c _ _ [_; _; _]); [|simpl; lia|auto].
  - by apply (agrees_Log _ _ c _ _ [_; _; _; _]); [|simpl; lia|auto].
Qed.

Lemma agrees_jitQuery op m sync r c l t s :
  jitQuery op = Some m -> sim sync r c l t s -> returned sync = true -> (length l < 1024)%nat ->
  exists M, chunk_handler op = Some M /\ agrees (asOperand m) M (fun x => x) sync r l t s.
Proof.
  intros E Hs Hret Hl. pose proof (agrees_queries _ _ _ _ _ _ Hs Hret Hl) as Hq. unfold queries in Hq.
  repeat (apply Forall_cons_1 in Hq as [? Hq]). cbn [fst snd] in *.
  destruct op; try discriminate E; injection E as <-; (eexists; split; [reflexivity|]); by apply agrees_asOperand.
Qed.

(** The compiled code of an instruction agrees with its handler. *)
Lemma agrees_operation op args m sync r c l t s :
  jitOperation op args = Some m -> sim sync r c (args ++ l) t s -> returned sync = true ->
  (result_count op + length l <= 1024)%nat -> (is_static r = true -> is_log op = true -> static_late = true) ->
  exists M, chunk_handler op = Some M /\ agrees m M (fun x => x) sync r l t s.
Proof.
  intros E Hs Hret Hl Hlate. unfold jitOperation in E. destruct (jitAlu op args) as [v|] eqn:Ea.
  { injection E as <-. assert (is_Some (chunk_handler (HS := HS) op)) as [M HM] by (destruct op; try done; by eexists).
    exists M. split; [done|]. by eapply agrees_alu. }
  destruct (jitEffect op args) eqn:Ee; [injection E as <-; by eapply agrees_effect|].
  destruct args; [|done]. destruct (jitQuery op) eqn:Eq; [|done]. injection E as <-.
  eapply agrees_jitQuery; [exact Eq|exact Hs|done|]. destruct op; try discriminate Eq; simpl in Hl; lia.
Qed.

(** ** Sequences *)

(** Whether an instruction has an entry depends on the number of operands
    only. *)
Lemma jitOperation_some op (args args' : list Z) :
  length args = length args' -> is_Some (jitOperation (HS := HS) op args) -> is_Some (jitOperation (HS := HS) op args').
Proof.
  intros El [m E]. unfold jitOperation, jitAlu, jitEffect, jitQuery in *.
  destruct op;
    repeat (destruct args as [|? args]; destruct args' as [|? args']; try discriminate El; try discriminate E; try by eexists).
Qed.

Lemma error_status e : is_success (MapErrToStatus e) = false.
Proof. by destruct e. Qed.

Lemma trapped_status e snap t s : trapped e snap t s -> is_success (Status (cx s)) = false.
Proof. intros [[-> |(_ & -> & ->)] _ _ _]; [apply error_status|done]. Qed.

Lemma run_agrees ops sync r c l t s :
  sim sync r c l t s -> returned sync = true -> fits (HS := HS) ops (length l) = true ->
  (is_static r = true -> existsb is_log ops = true -> static_late = true) ->
  match jitRun ops l t with
  | Ret l' t' => exists s' r' c', handlersRun ops s = Ret tt s' /\ sim sync r' c' l' t' s' /\ same_frame r r'
  | Throw e t' => exists s', handlersRun ops s = Exit s' /\ trapped e (GasRefundSnapshot r) t' s'
  | _ => False
  end.
Proof.
  intros Hs Hret. revert r c l t s Hs. induction ops as [|op ops IH]; intros r c l t s Hs Hf Hlate.
  { exists s, r, c. done. }
  cbn [jitRun handlersRun fits existsb] in *. set (k := operand_count op) in *.
  destruct (jitOperation (HS := HS) op (replicate k 0)) as [m0|] eqn:E0; [|done].
  rewrite !andb_true_iff, !Nat.leb_le in Hf. destruct Hf as [[Hk Hd] Hf].
  destruct (jitOperation_some op (replicate k 0) (take k l)) as [m E];
    [rewrite length_replicate, length_take; lia|by eexists|].
  rewrite E. rewrite <- (take_drop k l) in Hs.
  destruct (agrees_operation op (take k l) m sync r c (drop k l) t s E Hs Hret) as (M & EM & Ha);
    [rewrite length_drop; lia|intros ? Hlog; apply Hlate; [done|by rewrite Hlog]|]. rewrite EM. unfold agrees in Ha.
  pose proof (jitOperation_yields op (take k l) m E t) as Hy. unfold bind at 1.
  destruct (m t) as [res t'| |e t'|]; try done.
  - destruct Ha as (s' & r' & c' & Ec & Hs' & Hr). specialize (Hy res t' eq_refl).
    assert (handlersRun (op :: ops) s = handlersRun ops s') as Eh.
    { cbn [handlersRun]. rewrite EM. unfold bind. rewrite Ec. unfold getCtx, gets.
      rewrite (v_cx _ _ _ _ _ _ (si_view _ _ _ _ _ _ Hs')). by destruct Hs' as [_ []]; rewrite ma_status. }
    cbn [handlersRun] in Eh. rewrite EM in Eh. rewrite Eh.
    assert (fits (HS := HS) ops (length (res ++ drop k l)) = true) as Hf'
      by (by rewrite length_app, length_drop, Hy).
    destruct Hr as [Em Esn].
    assert (is_static r' = true -> existsb is_log ops = true -> static_late = true) as Hlate'.
    { unfold is_static. rewrite Em. intros ? El. apply Hlate; [done|by rewrite El, orb_true_r]. }
    specialize (IH _ _ _ _ _ Hs' Hf' Hlate'). rewrite Esn in IH.
    destruct (jitRun ops (res ++ drop k l) t') as [l2 t2| |e t2|]; try done.
    destruct IH as (s2 & r2 & c2 & E2 & Hs2 & [Em2 Esn2]). exists s2, r2, c2. split_and!; [done|done|].
    split; congruence.
  - destruct Ha as (s' & Ec & Htr). exists s'. split; [|done].
    unfold bind. rewrite Ec. unfold getCtx, gets. by rewrite (trapped_status _ _ _ _ Htr).
Qed.
End RunCorrect.
