(* ===== verification/EvmImportedTheorems.v ===== *)
(** What compiled code and the interpreter have in common: the theorems about
    the runtime of compiled code, with examples. *)

From stdpp Require Import gmap.
From S2P Require Import Prelude Intx Evmc GasStorageCost EvmInstance Frame HandlerUtil.
From S2P Require Import HandlersArith HandlersEnv HandlersCall Interpreter WellFormed Concrete HandlerSafety View.
From S2P Require Import AluSpecs MemorySpecs CallSpecs InstanceSpecs EvmImported EvmImportedSim EvmImportedOps EvmImportedEnv.
From S2P Require Import EvmImportedEnv EvmImportedCalls EvmImportedCallOps EvmImportedCreate EvmImportedRun.

#[local] Open Scope Z_scope.

Section Claims.
Context {HS : Type} {I : Intx} {I5 : Intx512} {H : EvmcHost HS} {V : Evmc}.
Context {IL : IntxLaws I} {IL5 : Intx512Laws I5} {HL : HostLaws HS H} {TC : TxConstant HS H} {CB : CodeBound HS H} {VL : EvmcLaws V}.
Implicit Types (t : RtState HS) (s : hstate HS) (c : Context_ HS) (r : EVMFrame) (l : list Z).

(** The one difference in status admitted below: compiled code refuses ranges
    that do not fit 64 bits before it looks at the mode of the frame, so a
    static frame may stop there for the violation instead of for gas.  It
    arises for logs, for calls with value and for creations. *)
Definition late_run (ops : list evmc_opcode) r : Tolerance := is_static r && existsb is_log ops.
Definition late_call (op : evmc_opcode) (v iO iN oO oN : Z) r : Tolerance :=
  refuses_value op v r && (oversized iO iN || oversized oO oN).
Definition late_create (o n : Z) r : Tolerance := is_static r && oversized o n.

(** C17.  Compiled code refines the interpreter: a sequence of instructions
    that are compiled to a call of the runtime (SDIV, SMOD, MULMOD and CLZ of
    operands unknown to the compiler, hashes, queries, copies, storage, logs),
    run on a state related to a frame, either ends related to the frame the
    handlers leave, with the same operands, memory, gas, refund, return data
    and host, or traps where a handler stops the frame, with the status of the
    trap, all gas taken and the refund of the frame restored.  The caches of
    the runtime cannot be observed.  The statuses are equal, but that a log in
    a static frame may be refused for gas by compiled code and for the mode by
    the handler. *)
Theorem compiled_run_refines ops sync r c l t s :
  sim sync r c l t s -> returned sync = true -> fits (HS := HS) ops (length l) = true ->
  match jitRun ops l t with
  | Ret l' t' => exists s' r' c', handlersRun ops s = Ret tt s' /\ sim sync r' c' l' t' s' /\ same_frame r r'
  | Throw e t' =>
      exists s', handlersRun ops s = Exit s' /\ trapped (TO := late_run ops r) e (GasRefundSnapshot r) t' s'
  | _ => False
  end.
Proof.
  intros Hs Hret Hf. eapply (run_agrees (TO := late_run ops r)); [done..|].
  intros E1 E2. unfold static_late, late_run. by rewrite E1, E2.
Qed.

(** C22.  CALL, CALLCODE, DELEGATECALL and STATICCALL of compiled code agree
    with the handlers of the interpreter on every branch: the same message
    reaches the host, gas, stipend, refund, memory and return data are settled
    alike, and a call that is refused, that fails lightly or that runs out of
    gas does so on both sides with the same status.  One status differs: a
    CALL with value in a static frame whose input or output range does not fit
    64 bits is out of gas in compiled code, and may be a violation of the
    static mode for the handler.  Conditions: the target is not a delegated
    account (compiled code does not follow delegation designators), the
    message of the frame does not carry the delegation flag (compiled code
    passes it on), the gas of the message is in step, and STATICCALL is not
    used before Spurious Dragon. *)
Theorem compiled_calls_agree op k f hva ga d v iO iN oO oN sync r c l t s :
  call_shape op = Some (k, f, hva) -> sim sync r c (call_operands hva ga d v iO iN oO oN ++ l) t s ->
  call_ready op d sync r c ->
  agrees (TO := late_call op v iO iN oO oN r) (jitCallOp op ga d v iO iN oO oN) (Call_doExecute op) one sync r l t s.
Proof.
  intros. eapply (agrees_Call (TO := late_call op v iO iN oO oN r)); [done..|].
  intros E1 E2. unfold static_late, late_call. by rewrite E1, E2.
Qed.

(** C24.  CREATE and CREATE2 of compiled code agree with the handlers of the
    interpreter but for the return data, in a frame whose message carries no
    flags other than the static one (compiled code passes them on to the
    creation): the same message reaches the host, init code is limited and
    paid for alike, the operand left is the address of the new account, or
    zero, and failures have the same status, but that in a static frame a
    range that does not fit 64 bits is out of gas in compiled code and a
    violation of the static mode for the handler. *)
Theorem compiled_creates_agree op k is2 v o n salt sync r c l t s :
  create_shape op = Some (k, is2) -> sim sync r c (create_operands is2 v o n salt ++ l) t s ->
  create_ready sync r ->
  agrees (TO := late_create o n r) (jitCreateOp op v o n salt) (Create_doExecute op) one (mute sync) r l t s.
Proof.
  intros. eapply (agrees_Create (TO := late_create o n r)); [done..|].
  intros E1 E2. unfold static_late, late_create. by rewrite E1, E2.
Qed.

(** C25.  RETURN, REVERT and SELFDESTRUCT end compiled code with the result of
    the interpreter's frame: its status, gas, refund and output, or a trap
    with exactly the status of the frame. *)
Theorem compiled_ends_agree sync r c l t s :
  sim sync r c l t s ->
  (forall o n l', l = o :: n :: l' ->
     agrees_ended (TO := false) (jitReturn o n) Return_body r t s /\
     agrees_ended (TO := false) (jitRevert o n) Revert_body r t s) /\
  (forall b l' x, l = b :: l' -> synced sync = true -> MessageStack (rInst t) = [x] ->
     agrees_ended (TO := false) (jitSelfDestruct b) SelfDestruct_body r t s).
Proof.
  intros Hs. split.
  - intros o n l' ->. split; [by eapply agrees_Return|by eapply agrees_Revert].
  - intros b l' x -> Hsy Hst. by eapply agrees_SelfDestruct.
Qed.
End Claims.

(** * Examples *)

(** An instance with one message and an empty memory. *)
Definition sample_rt_instance (g : Z) : EVMInstance :=
  mkInst countdown g 0 EVMC_CANCUN (Some (MExt 0)) [Some (MExt 0)] [0] true 0
    (Some (replicate 40 9)) [] [] [] 0.

Definition sample_rt (g : Z) : RtState null_host :=
  mkRt (sample_rt_instance g) (fun _ => sample_msg g)
    (mkExecCache tx_context_zero false ∅ ∅ ∅ [] []) (mkResult EVMC_SUCCESS 0 0 [] zero20) 0 None empty_keccak [].

Definition full : mode := mkMode true true.

Lemma sample_sim l g :
  (length l <= 1024)%nat -> Forall is_u256 l -> 0 <= g < 2 ^ 63 ->
  sim full sample_rest sample_context l (sample_rt g) (sample_state l [] g).
Proof.
  intros Hl Hu Hg. split; [by apply sample_view|]. split; try done.
  - apply countdown_ctx_wf.
  - by left.
  - split; try done; try (intros; cbn in *; by rewrite lookup_empty in * ). apply empty_keccak_ok.
Qed.

Lemma agrees_returns {HS} `{Intx} `{EvmcHost HS} `{Evmc} `{Tolerance} {A} (jm : RM HS A) hm res sync r l t s a t' :
  jm t = Ret a t' -> agrees jm hm res sync r l t s ->
  exists s' r' c', call hm s = Ret tt s' /\ sim sync r' c' (res a ++ l) t' s'.
Proof. unfold agrees. intros ->. intros (s' & r' & c' & E & Hs & _). by exists s', r', c'. Qed.

Lemma sample_call_run : exists t', jitCallOp OP_CALL 9000 1 0 0 0 0 64 (sample_rt 50000) = Ret 0 t'.
Proof. eexists. vm_compute. reflexivity. Qed.

Lemma sample_create_run : exists t', jitCreateOp OP_CREATE2 0 0 64 5 (sample_rt 50000) = Ret 0 t'.
Proof. eexists. vm_compute. reflexivity. Qed.

(** ORIGIN, then SSTORE of a value at that key, a hash of the first word of
    memory and a signed division of it by the price of gas. *)
Definition sample_ops : list evmc_opcode := [OP_ORIGIN; OP_SSTORE; OP_KECCAK256; OP_GASPRICE; OP_SDIV].

Lemma compiled_run_refines_witness :
  exists l' t' s' r' c', jitRun sample_ops [7; 0; 32] (sample_rt 50000) = Ret l' t' /\
    handlersRun sample_ops (sample_state [7; 0; 32] [] 50000) = Ret tt s' /\
    sim full r' c' l' t' s' /\ l' = [0].
Proof.
  pose proof (compiled_run_refines sample_ops full sample_rest sample_context [7; 0; 32] (sample_rt 50000)
    (sample_state [7; 0; 32] [] 50000) ltac:(apply sample_sim; sample_side) eq_refl eq_refl) as Hr.
  assert (exists t', jitRun sample_ops [7; 0; 32] (sample_rt 50000) = Ret [0] t') as [t' E]
    by (eexists; vm_compute; reflexivity).
  rewrite E in Hr. destruct Hr as (s' & r' & c' & Eh & Hs & _).
  exists [0], t', s', r', c'. exact (conj E (conj Eh (conj Hs eq_refl))).
Defined.

Lemma compiled_calls_agree_witness :
  exists t' s' r' c', jitCallOp OP_CALL 9000 1 0 0 0 0 64 (sample_rt 50000) = Ret 0 t' /\
    call (Call_doExecute OP_CALL) (sample_state [9000; 1; 0; 0; 0; 0; 64] [] 50000) = Ret tt s' /\
    sim full r' c' [0] t' s'.
Proof.
  pose proof (compiled_calls_agree OP_CALL EVMC_CALL false true 9000 1 0 0 0 0 64 full sample_rest sample_context []
    (sample_rt 50000) (sample_state [9000; 1; 0; 0; 0; 0; 64] [] 50000) eq_refl
    ltac:(apply sample_sim; sample_side)
    ltac:(split; [reflexivity|reflexivity|left; reflexivity|discriminate])) as Ha.
  destruct sample_call_run as [t' E]. destruct (agrees_returns _ _ _ _ _ _ _ _ _ _ E Ha) as (s' & r' & c' & Eh & Hs).
  exists t', s', r', c'. exact (conj E (conj Eh Hs)).
Defined.

Lemma compiled_creates_agree_witness :
  exists t' s' r' c', jitCreateOp OP_CREATE2 0 0 64 5 (sample_rt 50000) = Ret 0 t' /\
    call (Create_doExecute OP_CREATE2) (sample_state [0; 0; 64; 5] [] 50000) = Ret tt s' /\
    sim (mute full) r' c' [0] t' s'.
Proof.
  pose proof (compiled_creates_agree OP_CREATE2 EVMC_CREATE2 true 0 0 64 5 full sample_rest sample_context []
    (sample_rt 50000) (sample_state [0; 0; 64; 5] [] 50000) eq_refl
    ltac:(apply sample_sim; sample_side) ltac:(split; reflexivity)) as Ha.
  destruct sample_create_run as [t' E]. destruct (agrees_returns _ _ _ _ _ _ _ _ _ _ E Ha) as (s' & r' & c' & Eh & Hs).
  exists t', s', r', c'. exact (conj E (conj Eh Hs)).
Defined.

Lemma compiled_ends_agree_witness :
  exists t' s', jitRevert 0 32 (sample_rt 100) = Ret tt t' /\
    call Revert_body (sample_state [0; 32] [] 100) = Ret tt s' /\ ended t' s' /\
    Status (cx s') = EVMC_REVERT.
Proof.
  pose proof (compiled_ends_agree full sample_rest sample_context [0; 32] (sample_rt 100)
    (sample_state [0; 32] [] 100) ltac:(apply sample_sim; sample_side)) as [Ha _].
  destruct (Ha 0 32 [] eq_refl) as [_ Hv]. unfold agrees_ended in Hv.
  assert (exists t', jitRevert 0 32 (sample_rt 100) = Ret tt t' /\ status_code (rResult t') = EVMC_REVERT) as (t' & E & Es)
    by (eexists; vm_compute; split; reflexivity).
  rewrite E in Hv. destruct Hv as (s' & Eh & He). exists t', s'. split_and!; [done|done|done|].
  by rewrite <- (nd_status _ _ He).
Defined.
