(* ===== verification/EvmcVm.v ===== *)
(** The EVMC virtual machine: [src/src/vm/dt_evmc_vm.cpp], with what it uses of
    [runtime.cpp], [evm_module.{h,cpp}], [evm_module_loader.h], [codeholder.cpp]
    and [isolation.cpp].  What is modelled is the machine in interpreter mode;
    the path into compiled code ([executeMultipassFastPath]) is a parameter of
    [execute].

    A [DTVM] owns a runtime with its loaded modules, a least-recently-used
    cache from (code address, revision) to modules, and reusable instances
    and interpreter contexts, one per call depth.

    A module pointer is the module's name, which is its key in the runtime's
    pool; a name is never given out twice.  Reading a module that is no longer
    in the pool is undefined behaviour, the outcome [None] ([VUndef]).  An idle
    instance may keep the address of a module that is gone; where the allocator
    gives that address to a new module, [isModuleInUse] answers true for it,
    and [getOrCreateInstance] leaves the pointer as it would set it.  An
    iterator into [LRUOrder] is the key it points at, which the list holds at
    most once.  [execute] is split at the interpreter: [enterCall] sets a call
    up, [leaveCall] takes its result; in between, the host may call [execute]
    again ([nested], below). *)

From stdpp Require Export gmap strings.
From S2P Require Import Prelude Intx Evmc GasStorageCost EvmInstance Frame BytecodeCache SppGraph Spp.
From S2P Require Import Interpreter.

#[local] Open Scope Z_scope.

(** ** Names and keys *)

(** ["mod_" + std::to_string(n)], ["tmp_mod_" + std::to_string(n)] *)
Inductive ModName : Type := mod_ (n : Z) | tmp_mod_ (n : Z).

#[export] Instance ModName_eq_dec : EqDecision ModName.
Proof. solve_decision. Defined.
#[export] Instance ModName_countable : Countable ModName.
Proof.
  refine (inj_countable'
    (fun m => match m with mod_ n => (true, n) | tmp_mod_ n => (false, n) end)
    (fun p : bool * Z => if p.1 then mod_ p.2 else tmp_mod_ p.2) _).
  by intros [].
Defined.

Definition revisions : list evmc_revision :=
  [EVMC_FRONTIER; EVMC_HOMESTEAD; EVMC_TANGERINE_WHISTLE; EVMC_SPURIOUS_DRAGON; EVMC_BYZANTIUM;
   EVMC_CONSTANTINOPLE; EVMC_PETERSBURG; EVMC_ISTANBUL; EVMC_BERLIN; EVMC_LONDON; EVMC_PARIS;
   EVMC_SHANGHAI; EVMC_CANCUN; EVMC_PRAGUE; EVMC_OSAKA; EVMC_EXPERIMENTAL].

#[export] Instance evmc_revision_countable : Countable evmc_revision.
Proof.
  refine (inj_countable (fun r => Z.to_nat (rev_num r)) (fun n => revisions !! n) _).
  by intros [].
Defined.

Record CodeAddrRevKey : Type := mkKey { Addr : list Z; KRev : evmc_revision }.

(** [CodeAddrRevEqual] *)
#[export] Instance CodeAddrRevKey_eq_dec : EqDecision CodeAddrRevKey.
Proof. solve_decision. Defined.
#[export] Instance CodeAddrRevKey_countable : Countable CodeAddrRevKey.
Proof.
  refine (inj_countable' (fun k => (Addr k, KRev k)) (fun p => mkKey p.1 p.2) _).
  by intros [].
Defined.

(** ** Configuration *)

Inductive RunMode : Type := InterpMode | SinglepassMode | MultipassMode | UnknownMode.

#[export] Instance RunMode_eq_dec : EqDecision RunMode.
Proof. solve_decision. Defined.

Record RuntimeConfig : Type := mkConfig {
  Mode : RunMode;
  EnableEvmGasMetering : bool;
  DisableMultipassGreedyRA : bool;
}.

Definition set_Mode (m : RunMode) (c : RuntimeConfig) : RuntimeConfig :=
  mkConfig m (EnableEvmGasMetering c) (DisableMultipassGreedyRA c).
Definition set_GasMetering (b : bool) (c : RuntimeConfig) : RuntimeConfig :=
  mkConfig (Mode c) b (DisableMultipassGreedyRA c).
Definition set_GreedyRA (b : bool) (c : RuntimeConfig) : RuntimeConfig :=
  mkConfig (Mode c) (EnableEvmGasMetering c) b.

Definition parseBoolEnvValue (Value : string) : option bool :=
  if bool_decide (Value = "1") || bool_decide (Value = "true") || bool_decide (Value = "TRUE")
  then Some true
  else if bool_decide (Value = "0") || bool_decide (Value = "false") || bool_decide (Value = "FALSE")
  then Some false
  else None.

Inductive evmc_set_option_result : Type :=
| EVMC_SET_OPTION_SUCCESS | EVMC_SET_OPTION_INVALID_NAME | EVMC_SET_OPTION_INVALID_VALUE.

(** [set_option], on the configuration of the machine. *)
Definition set_option_config (Name Value : string) (c : RuntimeConfig)
  : evmc_set_option_result * RuntimeConfig :=
  if bool_decide (Name = "mode") then
    if bool_decide (Value = "interpreter") then (EVMC_SET_OPTION_SUCCESS, set_Mode InterpMode c)
    else if bool_decide (Value = "multipass")
    then (EVMC_SET_OPTION_SUCCESS, set_Mode MultipassMode c)
    else (EVMC_SET_OPTION_INVALID_VALUE, c)
  else if bool_decide (Name = "enable_gas_metering") then
    if bool_decide (Value = "true") then (EVMC_SET_OPTION_SUCCESS, set_GasMetering true c)
    else if bool_decide (Value = "false") then (EVMC_SET_OPTION_SUCCESS, set_GasMetering false c)
    else (EVMC_SET_OPTION_INVALID_VALUE, c)
  else (EVMC_SET_OPTION_INVALID_NAME, c).

(** ** Modules *)

Record EVMModule : Type := mkModule {
  MCode : list Z;
  MRevision : evmc_revision;
  BytecodeCache_ : option EVMBytecodeCache;     (* None: not initialised *)
}.

Definition PresetMaxModuleSize : Z := 1024 * 1024 * 1024.

(** The errors of a load and their phases ([errors.def]). *)
Inductive LoadError : Type := ModuleSizeTooLarge.
Inductive ErrorPhase : Type :=
| Unspecified | BeforeLoad | Load_ | Instantiation | Compilation | BeforeExecution | Execution.
Inductive ErrorSubphase : Type :=
| NoSubphase | Lexing | Parsing | ContextInit | MIREmission | MIRVerification | CgIREmission
| RegAlloc | MCEmission | ObjectEmission.
Definition getPhase (e : LoadError) : ErrorPhase := match e with ModuleSizeTooLarge => Load_ end.
Definition getSubphase (e : LoadError) : ErrorSubphase :=
  match e with ModuleSizeTooLarge => NoSubphase end.

(** [newRawDataCodeHolder]: a copy of the bytes. *)
Definition newRawDataCodeHolder (Data : list Z) : LoadError + list Z :=
  if PresetMaxModuleSize <? Z.of_nat (length Data) then inl ModuleSizeTooLarge else inr Data.

(** [EVMModule::newEVMModule] with [EVMModuleLoader::load]. *)
Definition newEVMModule (CodeHolder : list Z) (Rev : evmc_revision) : EVMModule :=
  mkModule CodeHolder Rev None.

Section Cache.
Context {I : Intx} {V : Evmc}.

(** The cache, and the module that keeps it from now on. *)
Definition getBytecodeCache (m : EVMModule) : option (EVMBytecodeCache * EVMModule) :=
  match BytecodeCache_ m with
  | Some c => Some (c, m)
  | None =>
      c ← buildBytecodeCache (MCode m) (MRevision m);
      Some (c, mkModule (MCode m) (MRevision m) (Some c))
  end.
End Cache.

Record Runtime : Type := mkRuntime {
  RTConfig : RuntimeConfig;
  EVMModulePool : gmap ModName EVMModule;
}.

Definition loadEVMModule (Name : ModName) (Code : list Z) (Rev : evmc_revision) (rt : Runtime)
  : (LoadError + ModName) * Runtime :=
  match EVMModulePool rt !! Name with
  | Some _ => (inr Name, rt)
  | None =>
      match newRawDataCodeHolder Code with
      | inl e => (inl e, rt)
      | inr Holder =>
          (inr Name, mkRuntime (RTConfig rt) (<[Name := newEVMModule Holder Rev]> (EVMModulePool rt)))
      end
  end.

(** Reads the module's name, so the module must be there. *)
Definition unloadEVMModule (Mod : ModName) (rt : Runtime) : option Runtime :=
  _ ← EVMModulePool rt !! Mod;
  Some (mkRuntime (RTConfig rt) (delete Mod (EVMModulePool rt))).

(** [validateCodeMatch]: the sizes, and up to 256 bytes at either end. *)
Definition validateCodeMatch (Code : list Z) (Mod : EVMModule) : bool :=
  let CodeSize := length Code in
  if negb (CodeSize =? length (MCode Mod))%nat then false
  else if (CodeSize =? 0)%nat then true
  else
    let HeadLen := Nat.min CodeSize 256 in
    if negb (bool_decide (take HeadLen Code = take HeadLen (MCode Mod))) then false
    else if (256 <? CodeSize)%nat then
      let TailLen := Nat.min CodeSize 256 in
      let TailOffset := (CodeSize - TailLen)%nat in
      bool_decide (take TailLen (drop TailOffset Code) = take TailLen (drop TailOffset (MCode Mod)))
    else true.

(** ** Instances *)

(** An [EVMInstance] object and the module pointer it holds, of which
    [ModCode] is the code. *)
Record InstObj : Type := mkObj { obj : EVMInstance; getModule : ModName }.

(** [EVMInstance::newEVMInstance]: the default member values, [Rev] included,
    and the gas limit. *)
Definition newEVMInstance (Code : list Z) (GasLimit : Z) : EVMInstance :=
  setGas GasLimit (mkInst Code 0 0 DEFAULT_REVISION None [] [] false 0 None [] [] [] 0).

Definition createEVMInstance (Mod : ModName) (m : EVMModule) (GasLimit : Z) : InstObj :=
  mkObj (newEVMInstance (MCode m) GasLimit) Mod.

(** ** The machine *)

Section Vm.
Context {HS : Type} {I : Intx} {H : EvmcHost HS} {V : Evmc}.

(** The interface and context pointers of [WrappedHost]. *)
Definition HostRef : Type := Z * Z.

Record DTVM : Type := mkVM {
  Config : RuntimeConfig;
  RT : option Runtime;
  ExecHost : HostRef;
  Iso : bool;                                      (* Iso != nullptr *)
  LastCodeSize : nat;
  L0Mod : option ModName;
  LRUOrder : list CodeAddrRevKey;                  (* front first *)
  AddrCache : gmap CodeAddrRevKey ModName;
  ModCounter : Z;                                  (* uint64_t *)
  CachedMainInst : option InstObj;
  CachedCtx : option (Context_ HS);
  NestedCtxPool : list (option (Context_ HS));
  CacheInsts : list InstObj;
}.

Definition set_Config (c : RuntimeConfig) (v : DTVM) : DTVM :=
  mkVM c (RT v) (ExecHost v) (Iso v) (LastCodeSize v) (L0Mod v) (LRUOrder v) (AddrCache v)
    (ModCounter v) (CachedMainInst v) (CachedCtx v) (NestedCtxPool v) (CacheInsts v).
Definition set_RT (r : option Runtime) (v : DTVM) : DTVM :=
  mkVM (Config v) r (ExecHost v) (Iso v) (LastCodeSize v) (L0Mod v) (LRUOrder v) (AddrCache v)
    (ModCounter v) (CachedMainInst v) (CachedCtx v) (NestedCtxPool v) (CacheInsts v).
Definition set_ExecHost (h : HostRef) (v : DTVM) : DTVM :=
  mkVM (Config v) (RT v) h (Iso v) (LastCodeSize v) (L0Mod v) (LRUOrder v) (AddrCache v)
    (ModCounter v) (CachedMainInst v) (CachedCtx v) (NestedCtxPool v) (CacheInsts v).
Definition set_Iso (b : bool) (v : DTVM) : DTVM :=
  mkVM (Config v) (RT v) (ExecHost v) b (LastCodeSize v) (L0Mod v) (LRUOrder v) (AddrCache v)
    (ModCounter v) (CachedMainInst v) (CachedCtx v) (NestedCtxPool v) (CacheInsts v).
Definition set_L0 (n : nat) (m : option ModName) (v : DTVM) : DTVM :=
  mkVM (Config v) (RT v) (ExecHost v) (Iso v) n m (LRUOrder v) (AddrCache v)
    (ModCounter v) (CachedMainInst v) (CachedCtx v) (NestedCtxPool v) (CacheInsts v).
Definition set_Cache (l : list CodeAddrRevKey) (a : gmap CodeAddrRevKey ModName) (v : DTVM)
  : DTVM :=
  mkVM (Config v) (RT v) (ExecHost v) (Iso v) (LastCodeSize v) (L0Mod v) l a
    (ModCounter v) (CachedMainInst v) (CachedCtx v) (NestedCtxPool v) (CacheInsts v).
Definition set_ModCounter (n : Z) (v : DTVM) : DTVM :=
  mkVM (Config v) (RT v) (ExecHost v) (Iso v) (LastCodeSize v) (L0Mod v) (LRUOrder v)
    (AddrCache v) n (CachedMainInst v) (CachedCtx v) (NestedCtxPool v) (CacheInsts v).
Definition set_Insts (m : option InstObj) (l : list InstObj) (v : DTVM) : DTVM :=
  mkVM (Config v) (RT v) (ExecHost v) (Iso v) (LastCodeSize v) (L0Mod v) (LRUOrder v)
    (AddrCache v) (ModCounter v) m (CachedCtx v) (NestedCtxPool v) l.
Definition set_Ctxs (c : option (Context_ HS)) (l : list (option (Context_ HS))) (v : DTVM) : DTVM :=
  mkVM (Config v) (RT v) (ExecHost v) (Iso v) (LastCodeSize v) (L0Mod v) (LRUOrder v)
    (AddrCache v) (ModCounter v) (CachedMainInst v) c l (CacheInsts v).

(** The modules of [VM->RT]. *)
Definition Modules (v : DTVM) : gmap ModName EVMModule :=
  match RT v with Some r => EVMModulePool r | None => ∅ end.

(** [DTVM::DTVM]: the defaults, then the environment. *)
Definition DTVM_new (getenv : string -> option string) : DTVM :=
  let Config := mkConfig MultipassMode true false in
  let Config :=
    match getenv "DTVM_EVM_MODE" with
    | Some m =>
        if bool_decide (m = "interpreter") then set_Mode InterpMode Config
        else if bool_decide (m = "multipass") then set_Mode MultipassMode Config
        else Config
    | None => Config
    end in
  let Config :=
    match getenv "DTVM_EVM_ENABLE_GAS_METERING" with
    | Some s => match parseBoolEnvValue s with Some b => set_GasMetering b Config | None => Config end
    | None => Config
    end in
  let Config := set_GreedyRA true Config in
  let Config :=
    match getenv "DTVM_EVM_DISABLE_MULTIPASS_GREEDYRA" with
    | Some s => match parseBoolEnvValue s with Some b => set_GreedyRA b Config | None => Config end
    | None => Config
    end in
  mkVM Config None (0, 0) false 0 None [] ∅ 0 None None [] [].

Definition set_option (Name Value : string) (v : DTVM) : evmc_set_option_result * DTVM :=
  let '(r, c) := set_option_config Name Value (Config v) in (r, set_Config c v).

Definition isModuleInUse (Mod : ModName) (v : DTVM) : bool :=
  match CachedMainInst v with
  | Some o => bool_decide (getModule o = Mod)
  | None => false
  end || existsb (fun o => bool_decide (getModule o = Mod)) (CacheInsts v).

(** [Runtime::newEVMRuntime] with [RuntimeConfig::validate].  The path that is
    modelled asks for a runtime in interpreter mode; in another mode the answer
    depends on the compilers that were built in, here none. *)
Definition newEVMRuntime (c : RuntimeConfig) : option Runtime :=
  match Mode c with
  | InterpMode => Some (mkRuntime c ∅)
  | SinglepassMode | MultipassMode | UnknownMode => None
  end.

Definition ensureRuntimeAndIsolation (v : DTVM) : bool * DTVM :=
  match match RT v with
        | Some _ => Some v
        | None => match newEVMRuntime (Config v) with
                  | Some rt => Some (set_RT (Some rt) v)
                  | None => None
                  end
        end with
  | None => (false, v)
  | Some v => (true, if Iso v then v else set_Iso true v)
  end.

Definition shouldUsePersistentModuleCache (Msg : evmc_message) : bool :=
  match kind Msg with EVMC_CREATE | EVMC_CREATE2 => false | _ => true end.

Definition shouldRetryModuleLoadWithFastRA (v : DTVM) (e : LoadError) : bool :=
  match Mode (Config v), getPhase e, getSubphase e with
  | MultipassMode, Compilation, RegAlloc => negb (DisableMultipassGreedyRA (Config v))
  | _, _, _ => false
  end.

(** The retry runs under a configuration that is put back afterwards
    ([ScopedConfig]). *)
Definition loadEVMModuleWithRegAllocRetry (Name : ModName) (Code : list Z) (Rev : evmc_revision)
    (v : DTVM) : option ((LoadError + ModName) * DTVM) :=
  rt ← RT v;
  let '(r, rt) := loadEVMModule Name Code Rev rt in
  match r with
  | inr _ => Some (r, set_RT (Some rt) v)
  | inl e =>
      if negb (shouldRetryModuleLoadWithFastRA v e) then Some (r, set_RT (Some rt) v)
      else
        let Previous := RTConfig rt in
        let rt := mkRuntime (set_GreedyRA true (Config v)) (EVMModulePool rt) in
        let '(r, rt) := loadEVMModule Name Code Rev rt in
        Some (r, set_RT (Some (mkRuntime Previous (EVMModulePool rt))) v)
  end.

Definition loadTransientModule (Code : list Z) (Rev : evmc_revision) (v : DTVM)
  : option (option ModName * DTVM) :=
  let ModName_ := tmp_mod_ (ModCounter v) in
  let v := set_ModCounter (u64 (ModCounter v + 1)) v in
  '(r, v) ← loadEVMModuleWithRegAllocRetry ModName_ Code Rev v;
  Some (match r with inl _ => None | inr m => Some m end, v).

Definition unloadModule (Mod : ModName) (v : DTVM) : option DTVM :=
  rt ← RT v;
  rt ← unloadEVMModule Mod rt;
  Some (set_RT (Some rt) v).

Definition MAX_MODULE_CACHE_SIZE : nat := 4096.

(** The list without the node of key [k]. *)
Definition lru_erase (k : CodeAddrRevKey) (l : list CodeAddrRevKey) : list CodeAddrRevKey :=
  filter (fun k' => k' <> k) l.

Definition pop_back {A} (l : list A) : list A := take (length l - 1) l.

(** The eviction loop; [fuel] is the length of [LRUOrder], which every turn
    shortens. *)
Fixpoint evictLoop (fuel : nat) (v : DTVM) : option DTVM :=
  if (size (AddrCache v) <? MAX_MODULE_CACHE_SIZE)%nat then Some v
  else
    match last (LRUOrder v) with
    | None => Some v
    | Some VictimKey =>
        match fuel with
        | O => None
        | S fuel' =>
            match AddrCache v !! VictimKey with
            | Some VictimMod =>
                if isModuleInUse VictimMod v then Some v
                else
                  let v := if bool_decide (L0Mod v = Some VictimMod)
                           then set_L0 (LastCodeSize v) None v else v in
                  v ← unloadModule VictimMod v;
                  evictLoop fuel'
                    (set_Cache (pop_back (LRUOrder v)) (delete VictimKey (AddrCache v)) v)
            | None => evictLoop fuel' (set_Cache (pop_back (LRUOrder v)) (AddrCache v) v)
            end
        end
    end.

(** An entry whose module does not match the code. *)
Definition evictStale (AddrKey : CodeAddrRevKey) (Msg : evmc_message) (OldMod : ModName) (v : DTVM)
  : option DTVM :=
  let v := if bool_decide (L0Mod v = Some OldMod) && (depth Msg =? 0)
           then set_L0 (LastCodeSize v) None v else v in
  v ← unloadModule OldMod v;
  Some (set_Cache (lru_erase AddrKey (LRUOrder v)) (delete AddrKey (AddrCache v)) v).

(** The cold path: make room, load, enter the new module. *)
Definition loadCached (AddrKey : CodeAddrRevKey) (Code : list Z) (v : DTVM)
  : option (option ModName * DTVM) :=
  v ← evictLoop (length (LRUOrder v)) v;
  let ModName_ := mod_ (ModCounter v) in
  let v := set_ModCounter (u64 (ModCounter v + 1)) v in
  '(r, v) ← loadEVMModuleWithRegAllocRetry ModName_ Code (KRev AddrKey) v;
  match r with
  | inl _ => Some (None, v)
  | inr m => Some (Some m, set_Cache (AddrKey :: LRUOrder v) (<[AddrKey := m]> (AddrCache v)) v)
  end.

(** The module ([None]: null) and [IsTransient]. *)
Definition findModuleCached (Code : list Z) (Rev : evmc_revision) (Msg : evmc_message) (v : DTVM)
  : option (option ModName * bool * DTVM) :=
  if negb (shouldUsePersistentModuleCache Msg) then
    '(m, v) ← loadTransientModule Code Rev v;
    Some (m, true, v)
  else
    let AddrKey := mkKey (code_address Msg) Rev in
    '(m, v) ←
      (match AddrCache v !! AddrKey with
       | Some OldMod =>
           Mod ← Modules v !! OldMod;
           if validateCodeMatch Code Mod
           then Some (Some OldMod, set_Cache (AddrKey :: lru_erase AddrKey (LRUOrder v)) (AddrCache v) v)
           else v ← evictStale AddrKey Msg OldMod v; loadCached AddrKey Code v
       | None => loadCached AddrKey Code v
       end);
    match m with
    | None => Some (None, false, v)
    | Some _ => Some (m, false, set_L0 (length Code) m v)
    end.

(** ** Instances and contexts of a call *)

(** Where the objects of a call live. *)
Inductive InstSlot : Type := SMain | SNested (Idx : nat).
Inductive CtxSlot : Type := CMain | CNested (Depth : nat).

#[export] Instance CtxSlot_eq_dec : EqDecision CtxSlot.
Proof. solve_decision. Defined.

Definition getInst (s : InstSlot) (v : DTVM) : option InstObj :=
  match s with SMain => CachedMainInst v | SNested i => CacheInsts v !! i end.
Definition putInst (s : InstSlot) (o : InstObj) (v : DTVM) : DTVM :=
  match s with
  | SMain => set_Insts (Some o) (CacheInsts v) v
  | SNested i => set_Insts (CachedMainInst v) (<[i := o]> (CacheInsts v)) v
  end.

Definition getOrCreateInstance (Mod : ModName) (Rev : evmc_revision) (Depth : Z) (v : DTVM)
  : option (InstSlot * DTVM) :=
  m ← Modules v !! Mod;
  if 0 <? Depth then
    let '(slot, v) :=
      if (Z.of_nat (length (CacheInsts v)) <? Depth) then
        (SNested (length (CacheInsts v)),
         set_Insts (CachedMainInst v) (CacheInsts v ++ [createEVMInstance Mod m 0]) v)
      else (SNested (Z.to_nat Depth - 1), v) in
    o ← getInst slot v;
    Some (slot, putInst slot (mkObj (resetForNewCall Rev (MCode m) (obj o)) Mod) v)
  else
    match CachedMainInst v with
    | None => Some (SMain, putInst SMain (createEVMInstance Mod m 0) v)
    | Some o =>
        if bool_decide (getModule o <> Mod)
        then Some (SMain, putInst SMain (mkObj (resetForNewCall Rev (MCode m) (obj o)) Mod) v)
        else Some (SMain, putInst SMain (mkObj (resetForNewCall Rev (ModCode (obj o)) (obj o)) Mod) v)
    end.

(** [InterpreterExecContext(Inst)] *)
Definition newContext (i : EVMInstance) (h : HS) : Context_ HS :=
  mkCtx [] [] EVMC_SUCCESS [] (mkResult (EVMC_OTHER (-1)) 0 0 [] zero20) false i h.

(** The context of a slot, new or reset for [i]; the host's state is the
    current one.  [Pool.resize(Depth + 1)] fills with null pointers. *)
Definition pickContext (s : CtxSlot) (i : EVMInstance) (h : HS) (v : DTVM) : Context_ HS * DTVM :=
  let old := match s with
             | CMain => CachedCtx v
             | CNested d => default None (NestedCtxPool v !! d)
             end in
  let c := match old with
           | None => newContext i h
           | Some c => set_hst h (resetForNewCall_ctx i None c)
           end in
  match s with
  | CMain => (c, set_Ctxs (Some c) (NestedCtxPool v) v)
  | CNested d =>
      let Pool := NestedCtxPool v in
      let Pool := if (length Pool <=? d)%nat then Pool ++ replicate (d + 1 - length Pool) None else Pool in
      (c, set_Ctxs (CachedCtx v) (<[d := Some c]> Pool) v)
  end.

Definition putContext (s : CtxSlot) (c : Context_ HS) (v : DTVM) : DTVM :=
  match s with
  | CMain => set_Ctxs (Some c) (NestedCtxPool v) v
  | CNested d => set_Ctxs (CachedCtx v) (<[d := Some c]> (NestedCtxPool v)) v
  end.

(** ** Calls *)

(** A call that is being interpreted: its guards and its objects. *)
Record Call : Type := mkCall {
  cPrevHost : HostRef;             (* HostScope *)
  cMod : ModName;
  cTransient : bool;               (* ModGuard.ShouldUnload *)
  cInst : InstSlot;
  cCtx : CtxSlot;
}.

Definition failure : evmc_result := mkResult EVMC_FAILURE 0 0 [] zero20.

(** [MsgWithCode] *)
Definition with_code (Code : list Z) (m : evmc_message) : evmc_message :=
  mkMsg (kind m) (flags m) (depth m) (gas m) (recipient m) (sender m) (input_data m) (value m)
    (create2_salt m) (code_address m) Code.

(** [executeInterpreterFastPath] up to [Interpreter.interpret()]: a result
    when it returns before, else the call and the state of its context with
    its top frame allocated, with the bytecode cache of its module. *)
Inductive entered : Type :=
| Refused (r : evmc_result)
| Entered (call : Call) (Cache : EVMBytecodeCache) (s : hstate HS).

(** From the found module on: instance, bytecode cache, message, context and
    top frame. *)
Definition setUpCall (Prev : HostRef) (Mod : ModName) (IsTransientMod : bool) (Rev : evmc_revision)
    (Msg : evmc_message) (h : HS) (v : DTVM) : option (entered * DTVM) :=
  '(slot, v) ← getOrCreateInstance Mod Rev (depth Msg) v;
  mo ← Modules v !! Mod;
  '(Cache, mo) ← getBytecodeCache mo;
  rt ← RT v;
  let v := set_RT (Some (mkRuntime (RTConfig rt) (<[Mod := mo]> (EVMModulePool rt)))) v in
  let MsgWithCode := with_code (MCode mo) Msg in
  o ← getInst slot v;
  let i := pushMessage (fun _ => gas MsgWithCode) (Some (MExt 0)) (obj o) in
  let ReuseTopLevel := negb IsTransientMod && (depth Msg =? 0) in
  if negb ReuseTopLevel && negb ((0 <=? depth Msg) && (depth Msg <=? 1024)) then None
  else
    let ctx := if ReuseTopLevel then CMain else CNested (Z.to_nat (depth Msg)) in
    let '(c, v) := pickContext ctx i h v in
    let s := allocTopFrame (fun _ => gas MsgWithCode) MsgWithCode None c in
    let v := putInst slot (mkObj (Inst (cx s)) (getModule o)) v in
    Some (Entered (mkCall Prev Mod IsTransientMod slot ctx) Cache s, v).

Definition enterCall (Host : HostRef) (Rev : evmc_revision) (Msg : evmc_message) (Code : list Z)
    (h : HS) (v : DTVM) : option (entered * DTVM) :=
  let Prev := ExecHost v in
  let v := set_ExecHost Host v in
  let '(ok, v) := ensureRuntimeAndIsolation v in
  if negb ok then Some (Refused failure, set_ExecHost Prev v)
  else
    '(m, IsTransientMod, v) ← findModuleCached Code Rev Msg v;
    match m with
    | None => Some (Refused failure, set_ExecHost Prev v)
    | Some Mod => setUpCall Prev Mod IsTransientMod Rev Msg h v
    end.

(** The rest: the result, and the guards that go out of scope.  The instance
    and the context are the ones the interpreter worked on. *)
Definition leaveCall (call : Call) (c : Context_ HS) (v : DTVM) : option (evmc_result * DTVM) :=
  let r := ExeResult c in
  let Result := mkResult (status_code r) (i64 (Gas (Inst c))) (gas_refund r) (output_data r)
                  (create_address r) in
  let v := putInst (cInst call) (mkObj (Inst c) (cMod call)) v in
  let v := putContext (cCtx call) c v in
  v ← (if cTransient call then unloadModule (cMod call) v else Some v);
  Some (Result, set_ExecHost (cPrevHost call) v).

(** ** [execute] *)

Inductive vm_out : Type :=
| VReturn (r : evmc_result) (h : HS) (v : DTVM)
| VThrow (e : ErrorCode)
| VUndef
| VFuel.

(** [nested] is what the calls that the host makes back into the machine
    while the interpreter runs do to it. *)
Definition executeInterpreterFastPath (R : runner) (fuel : nat) (nested : DTVM -> DTVM)
    (Host : HostRef) (Rev : evmc_revision) (Msg : evmc_message) (Code : list Z) (h : HS) (v : DTVM)
  : vm_out :=
  match enterCall Host Rev Msg Code h v with
  | None => VUndef
  | Some (Refused r, v) => VReturn r h v
  | Some (Entered call Cache s, v) =>
      match interpret R fuel Cache (Some (fr s)) (cx s) with
      | IReturn c =>
          match leaveCall call c (nested v) with
          | Some (r, v) => VReturn r (hst c) v
          | None => VUndef
          end
      | IThrow e => VThrow e
      | IUndef => VUndef
      | IFuel => VFuel
      end
  end.

Definition execute
    (executeMultipassFastPath : HostRef -> evmc_revision -> evmc_message -> list Z -> HS -> DTVM -> vm_out)
    (R : runner) (fuel : nat) (nested : DTVM -> DTVM) (Host : HostRef)
    (Rev : evmc_revision) (Msg : evmc_message) (Code : list Z) (h : HS) (v : DTVM) : vm_out :=
  match Mode (Config v) with
  | InterpMode => executeInterpreterFastPath R fuel nested Host Rev Msg Code h v
  | _ => executeMultipassFastPath Host Rev Msg Code h v
  end.

(** [DTVM::~DTVM]: the instances go, then the cached modules. *)
Definition unloadAll (ms : list ModName) (rt : Runtime) : option Runtime :=
  foldl (fun o m => rt ← o; unloadEVMModule m rt) (Some rt) ms.

Definition destroy (v : DTVM) : option (option Runtime) :=
  match RT v with
  | None => Some None
  | Some rt => rt ← unloadAll (snd <$> map_to_list (AddrCache v)) rt; Some (Some rt)
  end.
End Vm.

Arguments DTVM HS : clear implicits.
Arguments entered HS : clear implicits.
Arguments vm_out HS : clear implicits.
