(* ===== verification/EvmcVmSafety.v ===== *)
(** The EVMC machine is safe under re-entrancy: a step relation over the calls
    that are being interpreted, and its invariant.  Every active call keeps
    its module loaded and has an instance and a context of its own; entering
    a call never touches a module that is gone; nothing is leaked. *)

From S2P Require Import Prelude Intx Evmc GasStorageCost EvmInstance Frame HandlerUtil.
From S2P Require Import BytecodeCache SppGraph Spp Interpreter WellFormed ChunkTable InstanceSpecs EvmcVm.

#[local] Open Scope Z_scope.

(** ** The invariant of the machine *)

(** The number a name was made from. *)
Definition mod_num (m : ModName) : Z := match m with mod_ n | tmp_mod_ n => n end.

Section Vm.
Context {HS : Type} {I : Intx} {V : Evmc}.
Implicit Types (v : DTVM HS) (c : Context_ HS) (m : ModName).

Definition getCtx_ (s : CtxSlot) v : option (Context_ HS) :=
  match s with CMain => CachedCtx v | CNested d => default None (NestedCtxPool v !! d) end.

Definition module_ok (mo : EVMModule) : Prop :=
  Forall is_byte (MCode mo) /\ Z.of_nat (length (MCode mo)) <= PresetMaxModuleSize /\
  forall cache, BytecodeCache_ mo = Some cache ->
    buildBytecodeCache (MCode mo) (MRevision mo) = Some cache.

Record vm_inv v : Prop := {
  vi_nodup : NoDup (LRUOrder v);
  vi_keys : forall k, k ∈ LRUOrder v <-> is_Some (AddrCache v !! k);
  vi_entry : forall k m, AddrCache v !! k = Some m ->
    (exists n, m = mod_ n) /\
    exists mo, Modules v !! m = Some mo /\ MRevision mo = KRev k;
  vi_inj : forall k k' m, AddrCache v !! k = Some m -> AddrCache v !! k' = Some m -> k = k';
  vi_module : forall m mo, Modules v !! m = Some mo -> module_ok mo;
  vi_loaded_num : forall m, is_Some (Modules v !! m) -> mod_num m < ModCounter v;
  vi_inst_num : forall s o, getInst s v = Some o -> mod_num (getModule o) < ModCounter v;
  vi_inst : forall s o mo, getInst s v = Some o -> Modules v !! getModule o = Some mo ->
    ModCode (obj o) = MCode mo;
  vi_ctx : forall s c, getCtx_ s v = Some c -> Forall frame_object (below c ++ spare c);
  vi_counter : 0 <= ModCounter v < 2 ^ 64;
}.

(** ** Calls in progress

    The innermost call comes first, each with its depth. *)
Abbreviation calls := (list (Call * Z)).
Implicit Types (act : calls).

(** An instance slot a call of depth [d] may have. *)
Definition slot_ok (d : Z) (s : InstSlot) : Prop :=
  match s with SMain => d = 0 | SNested i => Z.of_nat i < d end.
Definition ctx_ok (d : Z) (call : Call) : Prop :=
  cCtx call = if negb (cTransient call) && (d =? 0) then CMain else CNested (Z.to_nat d).

Record call_inv v (call : Call) (d : Z) : Prop := {
  ci_depth : 0 <= d;
  ci_loaded : is_Some (Modules v !! cMod call);
  ci_inst : exists o, getInst (cInst call) v = Some o /\ getModule o = cMod call;
  ci_slot : slot_ok d (cInst call);
  ci_ctx : ctx_ok d call;
  ci_ctx_there : exists c, getCtx_ (cCtx call) v = Some c /\
    MCode <$> Modules v !! cMod call = Some (ModCode (Inst c));
  ci_owner : if cTransient call then exists n, cMod call = tmp_mod_ n
             else exists k, AddrCache v !! k = Some (cMod call);
}.

Record active_inv v act : Prop := {
  ai_depths : StronglySorted (fun a b => b.2 < a.2) act;
  ai_call : Forall (fun p => call_inv v p.1 p.2) act;
  ai_slots : NoDup (map (fun p => cInst p.1) act);
  ai_temps : NoDup (map (fun p => cMod p.1) (filter (fun p => cTransient p.1 = true) act));
  ai_pool : forall m, is_Some (Modules v !! m) ->
    (exists k, AddrCache v !! k = Some m) \/
    exists call d, (call, d) ∈ act /\ cTransient call = true /\ cMod call = m;
}.

(** A name stands for one code: what [v'] has under a name [v] had given out,
    [v] had with the same code. *)
Definition same_code v v' : Prop :=
  ModCounter v <= ModCounter v' /\
  forall m mo', mod_num m < ModCounter v -> Modules v' !! m = Some mo' ->
    exists mo, Modules v !! m = Some mo /\ MCode mo' = MCode mo.

Lemma same_code_trans v1 v2 v3 : same_code v1 v2 -> same_code v2 v3 -> same_code v1 v3.
Proof.
  intros [H1 H2] [H3 H4]. split; [lia|]. intros m mo Hm Hmo.
  destruct (H4 m mo ltac:(lia) Hmo) as (mo1 & Hmo1 & ->). by apply H2.
Qed.

Lemma same_code_sub v v' : ModCounter v <= ModCounter v' -> Modules v' ⊆ Modules v -> same_code v v'.
Proof.
  intros Hc Hs. split; [lia|]. intros m mo _ Hmo. exists mo. split; [|done]. by eapply lookup_weaken.
Qed.

Lemma same_code_new v v' p m mo :
  ModCounter v <= ModCounter v' -> p ⊆ Modules v -> Modules v' = <[m := mo]> p ->
  mod_num m = ModCounter v -> same_code v v'.
Proof.
  intros Hc Hs Hm Hn. split; [lia|]. intros m' mo' Hlt. rewrite Hm, lookup_insert_ne by (intros ->; lia).
  intros Hmo. exists mo'. split; [|done]. by eapply lookup_weaken.
Qed.

(** ** Writing the modules *)

Definition with_modules (p : gmap ModName EVMModule) v : DTVM HS :=
  set_RT (Some (mkRuntime (match RT v with Some r => RTConfig r | None => Config v end) p)) v.

Lemma unloadModule_run v m :
  is_Some (Modules v !! m) -> unloadModule m v = Some (with_modules (delete m (Modules v)) v).
Proof.
  unfold unloadModule, Modules, with_modules. destruct (RT v) as [rt|]; [|by intros []].
  intros [mo Hmo]. cbn. unfold unloadEVMModule. by rewrite Hmo.
Qed.

Lemma load_run v name Code Rev :
  RT v <> None -> Modules v !! name = None ->
  loadEVMModuleWithRegAllocRetry name Code Rev v =
  Some (if PresetMaxModuleSize <? Z.of_nat (length Code)
        then (inl ModuleSizeTooLarge, with_modules (Modules v) v)
        else (inr name, with_modules (<[name := newEVMModule Code Rev]> (Modules v)) v)).
Proof.
  unfold loadEVMModuleWithRegAllocRetry, Modules, with_modules. destruct (RT v) as [[cfg p]|]; [|done].
  intros _ Hn. cbn in *. unfold loadEVMModule. cbn. rewrite Hn. unfold newRawDataCodeHolder.
  destruct (_ <? _); [|done]. unfold shouldRetryModuleLoadWithFastRA. cbn. by destruct (Mode (Config v)).
Qed.

(** [vm_inv] reads the cache, the modules, the counter and the objects. *)
Lemma vm_inv_set_L0 v n o : vm_inv v -> vm_inv (set_L0 n o v).
Proof. intros []. by split. Qed.
Lemma vm_inv_ExecHost v h : vm_inv v -> vm_inv (set_ExecHost h v).
Proof. intros []. by split. Qed.

(** ** Eviction *)

(** What eviction may do: drop cached modules, those that must be [used] apart. *)
Context (used : ModName -> Prop).

Record evicted v v' : Prop := {
  ev_rest : v' = set_Cache (LRUOrder v') (AddrCache v') (set_L0 (LastCodeSize v) (L0Mod v') (set_RT (RT v') v));
  ev_rt : RT v <> None -> RT v' <> None;
  ev_modules : Modules v' ⊆ Modules v;
  ev_cache : AddrCache v' ⊆ AddrCache v;
  ev_in_use : forall m, used m -> Modules v' !! m = Modules v !! m;
  ev_used_key : forall k m, used m -> AddrCache v !! k = Some m -> AddrCache v' !! k = Some m;
  ev_temp : forall n, Modules v' !! tmp_mod_ n = Modules v !! tmp_mod_ n;
  ev_pool : forall m, is_Some (Modules v' !! m) -> (exists k, AddrCache v !! k = Some m) ->
    exists k, AddrCache v' !! k = Some m;
}.

Lemma evicted_refl v : evicted v v.
Proof. split; try done. by destruct v. Qed.

Lemma evicted_insts v v' :
  evicted v v' -> (forall s, getInst s v' = getInst s v) /\ (forall s, getCtx_ s v' = getCtx_ s v) /\
  ModCounter v' = ModCounter v /\ (forall m, isModuleInUse m v' = isModuleInUse m v).
Proof. intros [-> _ _ _ _ _ _]. done. Qed.

Lemma evicted_trans v1 v2 v3 : evicted v1 v2 -> evicted v2 v3 -> evicted v1 v3.
Proof.
  intros H12 H23. destruct H12, H23. split.
  - rewrite ev_rest1, ev_rest0. done.
  - auto.
  - by etransitivity.
  - by etransitivity.
  - intros m Hm. rewrite ev_in_use1 by done. auto.
  - intros k m Hm Hk. apply ev_used_key1; auto.
  - intros n. by rewrite ev_temp1.
  - intros m Hm Hk. apply ev_pool1; [done|]. apply ev_pool0; [|done].
    destruct Hm as [mo Hmo]. exists mo. by eapply lookup_weaken.
Qed.

(** Dropping the entry of [k] and its module. *)
Lemma drop_entry v k m l :
  vm_inv v -> AddrCache v !! k = Some m -> NoDup l ->
  (forall k', k' ∈ l <-> k' ∈ LRUOrder v /\ k' <> k) ->
  vm_inv (set_Cache l (delete k (AddrCache v)) (with_modules (delete m (Modules v)) v)).
Proof.
  intros [] Hk Hnd Hl. set (v' := set_Cache _ _ _).
  split; cbn [LRUOrder AddrCache set_Cache]; try done;
    change (Modules v') with (delete m (Modules v)); change (AddrCache v') with (delete k (AddrCache v)); change (LRUOrder v') with l.
  - intros k'. rewrite Hl, vi_keys0, lookup_delete_is_Some. split; intros []; split; auto.
  - intros k' m' (Hne & Hk')%lookup_delete_Some. destruct (vi_entry0 k' m' Hk') as (Hn & mo & Hmo & ?).
    split; [done|]. exists mo. split; [|done]. apply lookup_delete_Some. split; [|done].
    intros <-. by apply Hne, (vi_inj0 _ _ m).
  - intros k1 k2 m' (_ & H1)%lookup_delete_Some (_ & H2)%lookup_delete_Some. by eapply vi_inj0.
  - intros m' mo (_ & Hmo)%lookup_delete_Some. by eapply vi_module0.
  - intros m' [_ Hm]%lookup_delete_is_Some. by apply vi_loaded_num0.
  - intros s o mo Ho (_ & Hmo)%lookup_delete_Some. by eapply vi_inst0.
Qed.

Lemma drop_entry_evicted v k m l :
  vm_inv v -> AddrCache v !! k = Some m -> ~ used m ->
  evicted v (set_Cache l (delete k (AddrCache v)) (with_modules (delete m (Modules v)) v)).
Proof.
  intros [] Hk Hu. set (v' := set_Cache _ _ _). split; try done;
    change (Modules v') with (delete m (Modules v)); change (AddrCache v') with (delete k (AddrCache v)).
  - apply delete_subseteq.
  - apply delete_subseteq.
  - intros m' Hm'. apply lookup_delete_ne. congruence.
  - intros k' m' Hm' Hk'. apply lookup_delete_Some. split; [|done]. congruence.
  - intros n. apply lookup_delete_ne. destruct (vi_entry0 k m Hk) as ([n' ->] & _). done.
  - intros m' [Hne Hm']%lookup_delete_is_Some [k' Hk']. exists k'. apply lookup_delete_Some.
    split; [|done]. congruence.
Qed.

Lemma evicted_set_L0 v o : evicted v (set_L0 (LastCodeSize v) o v).
Proof. by split. Qed.

Lemma last_pop_back {A} (l : list A) k : last l = Some k -> l = pop_back l ++ [k].
Proof.
  intros Hl. apply last_Some in Hl as [l' ->]. unfold pop_back.
  by rewrite length_app, Nat.add_sub, take_app_length.
Qed.

Lemma length_pop_back {A} (l : list A) : length (pop_back l) = (length l - 1)%nat.
Proof. unfold pop_back. rewrite length_take. lia. Qed.

Lemma pop_back_keys (l : list CodeAddrRevKey) k :
  NoDup l -> last l = Some k ->
  NoDup (pop_back l) /\ forall k', k' ∈ pop_back l <-> k' ∈ l /\ k' <> k.
Proof.
  intros Hnd Hl%last_pop_back. rewrite Hl in Hnd. apply NoDup_app in Hnd as (Hp & Hd & _).
  split; [done|]. intros k'. rewrite Hl at 2. rewrite elem_of_app, list_elem_of_singleton. split.
  - intros Hk'. split; [by left|]. intros ->. by apply (Hd k), list_elem_of_singleton.
  - intros [[?|?] ?]; done.
Qed.

Lemma evictLoop_safe fuel v :
  vm_inv v -> (forall m, used m -> isModuleInUse m v = true) -> (length (LRUOrder v) <= fuel)%nat ->
  exists v', evictLoop fuel v = Some v' /\ vm_inv v' /\ evicted v v'.
Proof.
  revert v. induction fuel as [|fuel IH]; intros v Hv Hheld Hf; cbn [evictLoop];
    (destruct (_ <? _)%nat; [exists v; split_and!; [done..|apply evicted_refl]|]);
    destruct (last (LRUOrder v)) as [k|] eqn:Hl; try (exists v; split_and!; [done..|apply evicted_refl]).
  { apply last_Some in Hl as [l Hl]. rewrite Hl, length_app in Hf. cbn in Hf. lia. }
  destruct (AddrCache v !! k) as [m|] eqn:Hk.
  2: { exfalso. assert (k ∈ LRUOrder v) as Hin by (rewrite (last_pop_back _ _ Hl); apply elem_of_app; right; by left).
       apply (vi_keys _ Hv) in Hin as [? ?]. congruence. }
  destruct (isModuleInUse m v) eqn:Hu; [exists v; split_and!; [done..|apply evicted_refl]|].
  set (v0 := if bool_decide _ then _ else v).
  assert (vm_inv v0) as Hv0 by (subst v0; case_bool_decide; [by apply vm_inv_set_L0|done]).
  assert (evicted v v0) as He0 by (subst v0; case_bool_decide; [apply evicted_set_L0|apply evicted_refl]).
  assert (AddrCache v0 = AddrCache v /\ LRUOrder v0 = LRUOrder v /\ isModuleInUse m v0 = isModuleInUse m v)
    as (Ea & El & Eu) by (subst v0; by case_bool_decide).
  rewrite <- Ea in Hk. rewrite <- El in Hl. rewrite <- Eu in Hu. clearbody v0.
  destruct (vi_entry _ Hv0 k m Hk) as (_ & mo & Hmo & _).
  rewrite unloadModule_run by (by eexists). cbn [mbind option_bind].
  destruct (pop_back_keys _ k (vi_nodup _ Hv0) Hl) as [Hnd Hin].
  pose proof (drop_entry v0 k m (pop_back (LRUOrder v0)) Hv0 Hk Hnd Hin) as Hv1.
  assert (~ used m) as Hidle by (intros Hm%Hheld; congruence).
  pose proof (drop_entry_evicted v0 k m (pop_back (LRUOrder v0)) Hv0 Hk Hidle) as He1.
  destruct (IH _ Hv1) as (v' & Hv' & ? & ?).
  { intros m' Hm'. destruct (evicted_insts _ _ He1) as (_ & _ & _ & ->).
    destruct (evicted_insts _ _ He0) as (_ & _ & _ & ->). by apply Hheld. }
  { cbn [LRUOrder set_Cache]. rewrite length_pop_back, El. lia. }
  exists v'. split_and!; [done..|]. eapply evicted_trans; [done|]. by eapply evicted_trans.
Qed.

(** ** Loading *)

Lemma u64_next n : 0 <= n -> n + 1 < 2 ^ 64 -> u64 (n + 1) = n + 1.
Proof. intros. apply wrap_small. unfold in_u. lia. Qed.

Lemma fresh_name v m : vm_inv v -> mod_num m = ModCounter v -> Modules v !! m = None.
Proof.
  intros Hv Hm. apply eq_None_not_Some. intros Hs. pose proof (vi_loaded_num _ Hv m Hs). lia.
Qed.

Lemma count_up v : vm_inv v -> ModCounter v + 1 < 2 ^ 64 ->
  vm_inv (set_ModCounter (u64 (ModCounter v + 1)) v).
Proof.
  intros Hv Hc. rewrite u64_next by (destruct (vi_counter _ Hv); lia). destruct Hv. split; try done;
    cbn [ModCounter set_ModCounter]; try lia.
  - intros m Hm. specialize (vi_loaded_num0 m Hm). lia.
  - intros s o Ho. specialize (vi_inst_num0 s o Ho). lia.
Qed.

(** A module nothing refers to yet. *)
Lemma add_module v m mo :
  vm_inv v -> Modules v !! m = None -> mod_num m < ModCounter v ->
  (forall s o, getInst s v = Some o -> getModule o <> m) -> module_ok mo ->
  vm_inv (with_modules (<[m := mo]> (Modules v)) v).
Proof.
  intros [] Hn Hm Hi Hok. set (v' := with_modules _ _).
  split; try done; change (Modules v') with (<[m := mo]> (Modules v)).
  - intros k m' Hk. destruct (vi_entry0 k m' Hk) as (? & mo' & Hmo & ?). split; [done|].
    exists mo'. split; [|done]. rewrite lookup_insert_ne by congruence. done.
  - intros m' mo' [[_ <-]|[_ Hmo]]%lookup_insert_Some; [done|by eapply vi_module0].
  - intros m' [->|[_ Hs]]%lookup_insert_is_Some; [done|by apply vi_loaded_num0].
  - intros s o mo' Ho [[E _]|[_ Hmo]]%lookup_insert_Some; [|by eapply vi_inst0].
    by destruct (Hi s o Ho).
Qed.

Lemma add_entry v k m mo :
  vm_inv v -> AddrCache v !! k = None -> (forall k', AddrCache v !! k' <> Some m) ->
  (exists n, m = mod_ n) -> Modules v !! m = Some mo ->
  MRevision mo = KRev k -> vm_inv (set_Cache (k :: LRUOrder v) (<[k := m]> (AddrCache v)) v).
Proof.
  intros [] Hk Hm Hn Hmo Hr. set (v' := set_Cache _ _ _).
  split; try done; change (AddrCache v') with (<[k := m]> (AddrCache v));
    change (LRUOrder v') with (k :: LRUOrder v); change (Modules v') with (Modules v).
  - constructor; [|done]. rewrite vi_keys0, Hk. by intros [].
  - intros k'. rewrite elem_of_cons, vi_keys0, lookup_insert_is_Some'. split; intros [->|?]; auto.
  - intros k' m' [[<- <-]|[_ Hk']]%lookup_insert_Some; [|by apply vi_entry0]. split; [done|]. by exists mo.
  - intros k1 k2 m' [[<- <-]|[_ H1]]%lookup_insert_Some [[<- E]|[_ H2]]%lookup_insert_Some;
      [done|by destruct (Hm k2)|subst m'; by destruct (Hm k1)|by eapply vi_inj0].
Qed.

Lemma touch_entry v k :
  vm_inv v -> is_Some (AddrCache v !! k) ->
  vm_inv (set_Cache (k :: lru_erase k (LRUOrder v)) (AddrCache v) v).
Proof.
  intros [] Hk. set (v' := set_Cache _ _ _). split; try done;
    change (LRUOrder v') with (k :: lru_erase k (LRUOrder v)); change (AddrCache v') with (AddrCache v).
  - constructor; [|by apply NoDup_filter]. unfold lru_erase. rewrite list_elem_of_filter. by intros [].
  - intros k'. rewrite elem_of_cons. unfold lru_erase. rewrite list_elem_of_filter, <- vi_keys0.
    split; [|destruct (decide (k' = k)); auto]. intros [->|[_ ?]]; [by apply vi_keys0|done].
Qed.

(** Matching code passes the check. *)
Lemma validate_same Code mo : MCode mo = Code -> validateCodeMatch Code mo = true.
Proof.
  intros <-. unfold validateCodeMatch. rewrite Nat.eqb_refl. cbn [negb].
  destruct (_ =? 0)%nat; [done|]. rewrite !bool_decide_true by done. cbn [negb].
  by destruct (_ <? _)%nat.
Qed.

(** What finding a module for [Code] does to the machine. *)
Record found (Code : list Z) (Rev : evmc_revision) v (mm : option ModName) (tr : bool) v' : Prop := {
  fo_rt : RT v' <> None;
  fo_insts : CachedMainInst v' = CachedMainInst v /\ CacheInsts v' = CacheInsts v;
  fo_ctxs : CachedCtx v' = CachedCtx v /\ NestedCtxPool v' = NestedCtxPool v;
  fo_host : ExecHost v' = ExecHost v /\ Config v' = Config v;
  fo_counter : ModCounter v <= ModCounter v' <= ModCounter v + 1;
  fo_code : same_code v v';
  fo_in_use : forall m, used m -> is_Some (Modules v !! m) -> Modules v' !! m = Modules v !! m;
  fo_used_key : forall k m, used m -> AddrCache v !! k = Some m -> AddrCache v' !! k = Some m;
  fo_temp : forall n, is_Some (Modules v !! tmp_mod_ n) -> is_Some (Modules v' !! tmp_mod_ n);
  fo_pool : forall m, is_Some (Modules v' !! m) ->
    (exists k, AddrCache v' !! k = Some m) \/ (tr = true /\ mm = Some m) \/
    is_Some (Modules v !! m) /\ ~ (exists k, AddrCache v !! k = Some m);
  fo_result :
    match mm with
    | None => PresetMaxModuleSize < Z.of_nat (length Code)
    | Some m =>
        (exists mo, Modules v' !! m = Some mo /\ MCode mo = Code /\ MRevision mo = Rev) /\
        if tr then (exists n, m = tmp_mod_ n) /\ Modules v !! m = None
        else exists k, AddrCache v' !! k = Some m
    end;
}.

Lemma cached_or_not (a : gmap CodeAddrRevKey ModName) m :
  (exists k, a !! k = Some m) \/ ~ (exists k, a !! k = Some m).
Proof.
  destruct (decide (m ∈ (map_to_list a).*2)) as [Hm|Hm]; [left|right].
  - apply list_elem_of_fmap in Hm as ([k m'] & -> & Hk%elem_of_map_to_list). by exists k.
  - intros [k Hk]. apply Hm, list_elem_of_fmap. exists (k, m). split; [done|].
    by apply elem_of_map_to_list.
Qed.

(** A loaded module is not in the cache unless its name says so. *)
Lemma temp_not_cached v k n : vm_inv v -> AddrCache v !! k = Some (tmp_mod_ n) -> False.
Proof. intros Hv Hk. by destruct (vi_entry _ Hv k _ Hk) as ([? ?] & _). Qed.

Lemma unnamed v m s o : vm_inv v -> mod_num m = ModCounter v -> getInst s v = Some o -> getModule o <> m.
Proof. intros Hv Hm Ho <-. pose proof (vi_inst_num _ Hv s o Ho). lia. Qed.

Lemma new_module_ok Code Rev :
  Forall is_byte Code -> (PresetMaxModuleSize <? Z.of_nat (length Code)) = false ->
  module_ok (newEVMModule Code Rev).
Proof. intros ? ?%Z.ltb_ge. by split_and!. Qed.

Lemma loadTransient_found Code Rev v :
  vm_inv v -> RT v <> None -> ModCounter v + 1 < 2 ^ 64 -> Forall is_byte Code ->
  exists mm v', loadTransientModule Code Rev v = Some (mm, v') /\ vm_inv v' /\
    found Code Rev v mm true v'.
Proof.
  intros Hv Hrt Hc HC. unfold loadTransientModule.
  pose proof (count_up v Hv Hc) as Hv1. pose proof (fresh_name v (tmp_mod_ (ModCounter v)) Hv eq_refl) as Hn.
  assert (u64 (ModCounter v + 1) = ModCounter v + 1) as Eu
    by (apply u64_next; destruct (vi_counter _ Hv); lia).
  set (v1 := set_ModCounter _ v) in *.
  rewrite (load_run v1) by done. cbn [mbind option_bind].
  destruct (_ <? _) eqn:Hsize; cbn [mbind option_bind]; eexists _, _; (split; [reflexivity|]).
  - split; [by destruct Hv1; split|]. split; try done; cbn [ModCounter with_modules set_RT v1 set_ModCounter].
    + rewrite Eu. lia.
    + apply same_code_sub; [|done]. cbn. lia.
    + intros m Hm. destruct (cached_or_not (AddrCache v) m) as [Hk|Hk]; [by left|].
      right; right. by split.
    + by apply Z.ltb_lt.
  - split.
    + apply add_module; [done..|cbn; lia| |by apply new_module_ok].
      intros s o Ho. by eapply (unnamed v).
    + split; try done; cbn [ModCounter with_modules set_RT v1 set_ModCounter].
      * rewrite Eu. lia.
      * eapply same_code_new; [cbn; lia|done|done|done].
      * intros m _ [mo Hm]. apply lookup_insert_ne. intros <-. congruence.
      * intros n Hm. by apply lookup_insert_is_Some'; right.
      * intros m Hm. change (is_Some (<[tmp_mod_ (ModCounter v) := newEVMModule Code Rev]> (Modules v) !! m)) in Hm.
        apply lookup_insert_is_Some' in Hm as [<-|Hm]; [by right; left|].
        destruct (cached_or_not (AddrCache v) m) as [Hk|Hk]; [by left|].
        right; right. by split.
      * split; [|by split; [eexists|]]. exists (newEVMModule Code Rev).
        split; [|done]. apply lookup_insert_eq.
Qed.

(** After making room, a module that is too large is not added. *)
Lemma found_too_large Code k v v0 :
  evicted v v0 -> RT v <> None -> ModCounter v + 1 < 2 ^ 64 -> 0 <= ModCounter v ->
  PresetMaxModuleSize < Z.of_nat (length Code) ->
  found Code (KRev k) v None false (with_modules (Modules v0) (set_ModCounter (ModCounter v + 1) v0)).
Proof.
  intros He Hrt Hc H0 Hsize. destruct (evicted_insts _ _ He) as (_ & _ & Ec & _). destruct He as [Er Ert Em Ea Eiu Euk Et Ep].
  split; try done; cbn [ModCounter with_modules set_RT set_ModCounter]; try (rewrite Er; done).
  - lia.
  - apply same_code_sub; [cbn; lia|done].
  - intros m Hu Hm. by apply Eiu.
  - intros n Hm. by rewrite <- Et in Hm.
  - intros m Hm. destruct (cached_or_not (AddrCache v) m) as [Hk'|Hk']; [left; by apply Ep|].
    right; right. split; [|done]. destruct Hm as [mo Hmo]. exists mo. by eapply lookup_weaken.
Qed.

(** Any other is loaded under a new name and entered in the cache. *)
Lemma found_loaded Code k v v0 :
  let m := mod_ (ModCounter v) in
  evicted v v0 -> RT v <> None -> ModCounter v + 1 < 2 ^ 64 -> 0 <= ModCounter v ->
  Modules v0 !! m = None -> (forall k', AddrCache v0 !! k' <> Some m) -> AddrCache v !! k = None ->
  found Code (KRev k) v (Some m) false
    (set_Cache (k :: LRUOrder v0) (<[k := m]> (AddrCache v0))
      (with_modules (<[m := newEVMModule Code (KRev k)]> (Modules v0)) (set_ModCounter (ModCounter v + 1) v0))).
Proof.
  intros m He Hrt Hc H0 Hn Hnot Hk. destruct (evicted_insts _ _ He) as (_ & _ & Ec & _).
  destruct He as [Er Ert Em Ea Eiu Euk Et Ep].
  split; try done; cbn [ModCounter with_modules set_RT set_ModCounter set_Cache]; try (rewrite Er; done).
  - lia.
  - eapply same_code_new; [cbn; lia|exact Em|done|done].
  - intros m' Hu [mo Hm]. rewrite <- Eiu by done. apply lookup_insert_ne. intros <-.
    rewrite <- Eiu in Hm by done. congruence.
  - intros k' m' Hu Hk'. specialize (Euk k' m' Hu Hk'). cbn [AddrCache set_Cache].
    rewrite lookup_insert_ne by congruence. done.
  - intros n Hm. rewrite <- Et in Hm. by apply lookup_insert_is_Some'; right.
  - intros m' Hm. change (is_Some (<[m := newEVMModule Code (KRev k)]> (Modules v0) !! m')) in Hm.
    apply lookup_insert_is_Some' in Hm as [<-|Hm]; [left; exists k; apply lookup_insert_eq|].
    destruct (cached_or_not (AddrCache v) m') as [Hk'|Hk'].
    + left. destruct (Ep m' Hm Hk') as [k' Hk'']. exists k'. cbn [AddrCache set_Cache].
      rewrite lookup_insert_ne; [done|]. intros <-. eapply lookup_weaken in Hk''; [|done]. congruence.
    + right; right. split; [|done]. destruct Hm as [mo Hmo]. exists mo. by eapply lookup_weaken.
  - split; [|exists k; apply lookup_insert_eq]. exists (newEVMModule Code (KRev k)).
    split; [|done]. apply lookup_insert_eq.
Qed.

Lemma loadCached_found Code k v :
  vm_inv v -> (forall m, used m -> isModuleInUse m v = true) -> RT v <> None ->
  ModCounter v + 1 < 2 ^ 64 -> Forall is_byte Code -> AddrCache v !! k = None ->
  exists mm v', loadCached k Code v = Some (mm, v') /\ vm_inv v' /\ found Code (KRev k) v mm false v'.
Proof.
  intros Hv Hheld Hrt Hc HC Hk. unfold loadCached.
  destruct (evictLoop_safe _ v Hv Hheld (le_n _)) as (v0 & -> & Hv0 & He). cbn [mbind option_bind].
  destruct (evicted_insts _ _ He) as (_ & _ & Ec & Eu). destruct (vi_counter _ Hv) as [H0 _]. rewrite Ec in *.
  pose proof (fresh_name v0 (mod_ (ModCounter v)) Hv0 (eq_sym Ec)) as Hn.
  rewrite (u64_next (ModCounter v)) by lia.
  assert (vm_inv (set_ModCounter (ModCounter v + 1) v0)) as Hv1.
  { rewrite <- (u64_next (ModCounter v)), <- Ec by lia. apply count_up; [done|lia]. }
  set (v1 := set_ModCounter _ v0) in *. assert (RT v1 <> None) as Hrt1 by (by apply (ev_rt _ _ He)).
  rewrite (load_run v1) by done. cbn [mbind option_bind].
  destruct (_ <? _) eqn:Hsize; cbn [mbind option_bind]; eexists _, _; (split; [reflexivity|]).
  { split; [by destruct Hv1; split|]. apply (found_too_large Code k v v0); try done. by apply Z.ltb_lt. }
  assert (forall k', AddrCache v0 !! k' <> Some (mod_ (ModCounter v))) as Hnot.
  { intros k' Hk'. destruct (vi_entry _ Hv0 k' _ Hk') as (_ & mo & Hmo & _). congruence. }
  split; [|by apply (found_loaded Code k v v0)]. set (p := <[_ := _]> (Modules v1)).
  assert (vm_inv (with_modules p v1)) as Hv2.
  { apply add_module; [done..|cbn; lia| |by apply new_module_ok].
    intros s o Ho. eapply (unnamed v0); [done|by rewrite Ec|done]. }
  apply (add_entry _ k _ (newEVMModule Code (KRev k)) Hv2); try done; [|by eexists|apply lookup_insert_eq].
  destruct (AddrCache v0 !! k) eqn:E; [|done]. eapply lookup_weaken in E; [|apply He]. congruence.
Qed.

Lemma found_set_L0 Code Rev v mm tr v' n o :
  found Code Rev v mm tr v' -> found Code Rev v mm tr (set_L0 n o v').
Proof. intros []. by split. Qed.

Lemma found_touched Code Rev v k m mo :
  RT v <> None -> AddrCache v !! k = Some m -> Modules v !! m = Some mo ->
  MCode mo = Code -> MRevision mo = Rev ->
  found Code Rev v (Some m) false (set_Cache (k :: lru_erase k (LRUOrder v)) (AddrCache v) v).
Proof.
  intros Hrt Hk Hmo Hcode Hrev. split; try done; cbn [ModCounter set_Cache]; try lia.
  - by apply same_code_sub.
  - intros m' Hm'. destruct (cached_or_not (AddrCache v) m') as [Hk'|Hk']; [by left|].
    right; right. by split.
  - split; [|by exists k]. by exists mo.
Qed.

(** Making room first. *)
Lemma found_evicted Code Rev v v1 mm v' :
  evicted v v1 -> found Code Rev v1 mm false v' -> found Code Rev v mm false v'.
Proof.
  intros He Hf. destruct (evicted_insts _ _ He) as (_ & _ & Ec & _). pose proof (ev_rest _ _ He) as Er.
  pose proof (same_code_sub v v1 ltac:(lia) (ev_modules _ _ He)) as Hs. destruct He, Hf.
  assert (CachedMainInst v1 = CachedMainInst v /\ CacheInsts v1 = CacheInsts v /\
    CachedCtx v1 = CachedCtx v /\ NestedCtxPool v1 = NestedCtxPool v /\
    ExecHost v1 = ExecHost v /\ Config v1 = Config v) as (E1 & E2 & E3 & E4 & E5 & E6) by (rewrite Er; done).
  split; rewrite <- ?E1, <- ?E2, <- ?E3, <- ?E4, <- ?E5, <- ?E6, <- ?Ec; try done.
  - by eapply same_code_trans.
  - intros m Hu Hm. rewrite <- ev_in_use0 in Hm |- * by done. auto.
  - auto.
  - intros n Hn. rewrite <- ev_temp0 in Hn. auto.
  - intros m Hm. destruct (fo_pool0 m Hm) as [?|[[? _]|[Hs1 Hno]]]; [by left|done|].
    right; right. split; [destruct Hs1 as [mo Hmo]; exists mo; by eapply lookup_weaken|].
    intros Hk. by apply Hno, ev_pool0.
Qed.

(** A stale entry goes with its module, if no call needs that. *)
Lemma evictStale_safe k Msg m v :
  vm_inv v -> AddrCache v !! k = Some m -> ~ used m ->
  exists v', evictStale k Msg m v = Some v' /\ vm_inv v' /\ evicted v v' /\ AddrCache v' !! k = None.
Proof.
  intros Hv Hk Hu. unfold evictStale. set (v0 := if _ && _ then _ else v).
  assert (vm_inv v0) as Hv0 by (subst v0; destruct (_ && _); [by apply vm_inv_set_L0|done]).
  assert (evicted v v0) as He0 by (subst v0; destruct (_ && _); [apply evicted_set_L0|apply evicted_refl]).
  assert (AddrCache v0 = AddrCache v) as Ea by (subst v0; by destruct (_ && _)).
  rewrite <- Ea in Hk. clearbody v0. destruct (vi_entry _ Hv0 k m Hk) as (_ & mo & Hmo & _).
  rewrite unloadModule_run by (by eexists). cbn [mbind option_bind]. eexists. split; [reflexivity|]. split_and!.
  - apply (drop_entry v0 k m (lru_erase k (LRUOrder v0))); [done..|apply NoDup_filter, Hv0|].
    intros k'. unfold lru_erase. rewrite list_elem_of_filter. tauto.
  - eapply evicted_trans; [done|]. by apply (drop_entry_evicted v0 k m (lru_erase k (LRUOrder v0))).
  - apply lookup_delete_eq.
Qed.

(** What a lookup needs of the code it is given: an entry that passes the check
    has that code, and a module that is to be replaced is not needed. *)
Definition code_known (Code : list Z) (Rev : evmc_revision) (Msg : evmc_message) v : Prop :=
  shouldUsePersistentModuleCache Msg = true ->
  forall m mo, AddrCache v !! mkKey (code_address Msg) Rev = Some m -> Modules v !! m = Some mo ->
    if validateCodeMatch Code mo then MCode mo = Code else ~ used m.

Lemma findModuleCached_found Code Rev Msg v :
  vm_inv v -> (forall m, used m -> isModuleInUse m v = true) -> RT v <> None ->
  ModCounter v + 1 < 2 ^ 64 -> Forall is_byte Code -> code_known Code Rev Msg v ->
  exists mm tr v', findModuleCached Code Rev Msg v = Some (mm, tr, v') /\ vm_inv v' /\
    found Code Rev v mm tr v' /\ tr = negb (shouldUsePersistentModuleCache Msg).
Proof.
  intros Hv Hheld Hrt Hc HC Hat. unfold findModuleCached, code_known in *.
  destruct (shouldUsePersistentModuleCache Msg) eqn:Hp; cbn [negb].
  2: { destruct (loadTransient_found Code Rev v Hv Hrt Hc HC) as (mm & v' & -> & ? & ?).
       cbn [mbind option_bind]. by exists mm, true, v'. }
  specialize (Hat eq_refl). set (k := mkKey _ Rev) in *.
  assert (forall w, vm_inv w -> evicted v w -> AddrCache w !! k = None ->
    exists mm v', loadCached k Code w = Some (mm, v') /\ vm_inv v' /\ found Code Rev v mm false v') as Hload.
  { intros w Hw He Hk. destruct (evicted_insts _ _ He) as (_ & _ & Ec & Eu).
    destruct (loadCached_found Code k w Hw) as (mm & v' & ? & ? & Hf); [intros m Hm; rewrite Eu; auto
      |by apply (ev_rt _ _ He)|by rewrite Ec|done..|].
    exists mm, v'. split_and!; [done..|]. by eapply found_evicted. }
  assert (forall mm (v' : DTVM HS), vm_inv v' /\ found Code Rev v mm false v' ->
    exists tr v'', (match mm with None => Some (None, false, v') | Some _ => Some (mm, false, set_L0 (length Code) mm v') end)
      = Some (mm, tr, v'') /\ vm_inv v'' /\ found Code Rev v mm tr v'' /\ tr = false) as Hend.
  { intros [m|] v' [? ?]; (eexists _, _; split; [reflexivity|]); split_and!; try done.
    - by apply vm_inv_set_L0.
    - by apply found_set_L0. }
  destruct (AddrCache v !! k) as [m|] eqn:Hk.
  - destruct (vi_entry _ Hv k m Hk) as (_ & mo & Hmo & Hrev). specialize (Hat m mo eq_refl Hmo).
    rewrite Hmo. cbn [mbind option_bind]. destruct (validateCodeMatch Code mo).
    + cbn [mbind option_bind]. exists (Some m). apply (Hend (Some m)).
      split; [apply touch_entry; [done|by eexists]|by eapply found_touched].
    + destruct (evictStale_safe k Msg m v Hv Hk Hat) as (w & -> & Hw & He & Hnone). cbn [mbind option_bind].
      destruct (Hload w Hw He Hnone) as (mm & v' & -> & ?). cbn [mbind option_bind]. exists mm. by apply Hend.
  - destruct (Hload v Hv (evicted_refl v) Hk) as (mm & v' & -> & ?). cbn [mbind option_bind].
    exists mm. by apply Hend.
Qed.

(** ** Instances *)

Lemma getInst_put_eq s o v : is_Some (getInst s v) \/ s = SMain -> getInst s (putInst s o v) = Some o.
Proof.
  destruct s as [|i]; [done|]. intros [Hi|]; [|done]. apply list_lookup_insert_eq.
  by apply lookup_lt_is_Some.
Qed.
Lemma getInst_put_ne s s' o v : s <> s' -> getInst s' (putInst s o v) = getInst s' v.
Proof. destruct s as [|i], s' as [|j]; try done. intros Hne. apply list_lookup_insert_ne. by intros ->. Qed.

(** An instance object for a loaded module. *)
Lemma vm_inv_putInst v s o mo :
  vm_inv v -> Modules v !! getModule o = Some mo -> ModCode (obj o) = MCode mo ->
  vm_inv (putInst s o v).
Proof.
  intros [] Hmo Hc. destruct s as [|i].
  - split; try done; intros [|j].
    + intros o' [= <-]. apply vi_loaded_num0. by eexists.
    + intros o'. apply (vi_inst_num0 (SNested j)).
    + intros o' mo' [= <-] Hm. change (Modules v !! getModule o = Some mo') in Hm. congruence.
    + intros o' mo'. apply (vi_inst0 (SNested j)).
  - assert (forall s' o', getInst s' (putInst (SNested i) o v) = Some o' -> o' = o \/ getInst s' v = Some o')
      as Hcase.
    { intros [|j] o'; [by right|]. cbn. intros [[_ [-> _]]|[_ ?]]%list_lookup_insert_Some; [by left|by right]. }
    split; try done; intros s' o'.
    + intros [->|Ho]%Hcase; [apply vi_loaded_num0; by eexists|by eapply vi_inst_num0].
    + intros mo' [->|Ho]%Hcase Hm; [|by eapply vi_inst0].
      change (Modules v !! getModule o = Some mo') in Hm. congruence.
Qed.

(** A new object at the end of [CacheInsts]. *)
Lemma vm_inv_pushInst v o mo :
  vm_inv v -> Modules v !! getModule o = Some mo -> ModCode (obj o) = MCode mo ->
  vm_inv (set_Insts (CachedMainInst v) (CacheInsts v ++ [o]) v).
Proof.
  intros [] Hmo Hc.
  assert (forall s' o', getInst s' (set_Insts (CachedMainInst v) (CacheInsts v ++ [o]) v) = Some o' ->
            o' = o \/ getInst s' v = Some o') as Hcase.
  { intros [|j] o'; [by right|]. cbn. intros [?|[_ Hl]]%lookup_app_Some; [by right|left].
    by apply list_lookup_singleton_Some in Hl as [_ ->]. }
  split; try done; intros s' o'.
  - intros [->|Ho]%Hcase; [apply vi_loaded_num0; by eexists|by eapply vi_inst_num0].
  - intros mo' [->|Ho]%Hcase Hm; [|by eapply vi_inst0].
    change (Modules v !! getModule o = Some mo') in Hm. congruence.
Qed.

(** The instance of a call, among the ones in use. *)
Record instanced (m : ModName) (mo : EVMModule) (Rev : evmc_revision) (d : Z) v (s : InstSlot) v' : Prop := {
  in_rest : v' = set_Insts (CachedMainInst v') (CacheInsts v') v;
  in_slot : slot_ok d s;
  in_new : (exists o, getInst s v' = Some o /\ getModule o = m /\
    ModCode (obj o) = MCode mo /\ MessageStack (obj o) = [] /\ GasRefund (obj o) = 0 /\
    (getInst SMain v <> None \/ d <> 0 -> EvmInstance.Rev (obj o) = Rev) /\
    (getInst SMain v = None -> d = 0 -> EvmInstance.Rev (obj o) = DEFAULT_REVISION));
  in_other : forall s', s' <> s -> is_Some (getInst s' v) -> getInst s' v' = getInst s' v;
  in_free : forall s' d', slot_ok d' s' -> 0 <= d' < d -> is_Some (getInst s' v) -> s' <> s;
}.

Lemma getOrCreateInstance_instanced m mo Rev d v :
  vm_inv v -> Modules v !! m = Some mo -> 0 <= d ->
  exists s v', getOrCreateInstance m Rev d v = Some (s, v') /\ vm_inv v' /\ instanced m mo Rev d v s v'.
Proof.
  intros Hv Hmo Hd. unfold getOrCreateInstance. rewrite Hmo. cbn [mbind option_bind].
  destruct (Z.ltb_spec 0 d) as [Hpos|Hz].
  - destruct (Z.ltb_spec (Z.of_nat (length (CacheInsts v))) d) as [Hlt|Hge].
    + set (v1 := set_Insts _ _ v).
      assert (getInst (SNested (length (CacheInsts v))) v1 = Some (createEVMInstance m mo 0)) as Hg.
      { cbn. by rewrite list_lookup_middle. }
      rewrite Hg. cbn [mbind option_bind]. eexists _, _. split; [reflexivity|]. split.
      * eapply vm_inv_putInst; [|done|done]. by eapply (vm_inv_pushInst v).
      * split; [done|done| | |].
        -- eexists. split; [apply getInst_put_eq; left; by rewrite Hg|]. split_and!; try done. lia.
        -- intros s' Hs' Hi. rewrite getInst_put_ne by done. destruct s' as [|i]; [done|]. cbn in *.
           apply lookup_app_l. by apply lookup_lt_is_Some.
        -- intros s' d' _ _ Hi ->. cbn in Hi. apply lookup_lt_is_Some in Hi. lia.
    + destruct (lookup_lt_is_Some_2 (CacheInsts v) (Z.to_nat d - 1)) as [o Ho]; [lia|].
      cbn [getInst]. rewrite Ho. cbn [mbind option_bind]. eexists _, _. split; [reflexivity|]. split.
      * by eapply vm_inv_putInst.
      * split; [done|cbn; lia| | |].
        -- eexists. split; [apply getInst_put_eq; left; cbn; by rewrite Ho|]. split_and!; try done. lia.
        -- intros s' Hs' Hi. by apply getInst_put_ne.
        -- intros s' d' Hok Hd' Hi ->. cbn in Hok. lia.
  - assert (d = 0) as -> by lia. destruct (CachedMainInst v) as [o|] eqn:Hm.
    + assert (exists o', (if bool_decide (getModule o <> m)
         then Some (SMain, putInst SMain (mkObj (resetForNewCall Rev (MCode mo) (obj o)) m) v)
         else Some (SMain, putInst SMain (mkObj (resetForNewCall Rev (ModCode (obj o)) (obj o)) m) v))
         = Some (SMain, putInst SMain (mkObj (resetForNewCall Rev (MCode mo) o') m) v)) as (o' & ->).
      { exists (obj o). case_bool_decide as E; [done|]. subst m.
        by rewrite (vi_inst _ Hv SMain o mo Hm Hmo). }
      eexists _, _. split; [reflexivity|]. split; [by eapply vm_inv_putInst|].
      split; [done|done| | |]; try (intros; lia).
      * eexists. split; [reflexivity|]. split_and!; try done. cbn. by rewrite Hm.
      * intros s' Hs' Hi. by apply getInst_put_ne.
    + eexists _, _. split; [reflexivity|]. split; [by eapply vm_inv_putInst|].
      split; [done|done| | |]; try (intros; lia).
      * eexists. split; [reflexivity|]. split_and!; try done. cbn. rewrite Hm. by intros [|].
      * intros s' Hs' Hi. by apply getInst_put_ne.
Qed.

Lemma inst_in_use s o v : getInst s v = Some o -> isModuleInUse (getModule o) v = true.
Proof.
  unfold isModuleInUse. destruct s as [|i]; cbn [getInst].
  - intros ->. by rewrite bool_decide_true.
  - intros Ho. apply orb_true_iff; right. apply existsb_exists. exists o.
    split; [|by apply bool_decide_eq_true]. apply list_elem_of_In. by eapply list_elem_of_lookup_2.
Qed.

(** Initialising the bytecode cache of a module. *)
Lemma vm_inv_setModule v m mo mo' :
  vm_inv v -> Modules v !! m = Some mo -> MCode mo' = MCode mo -> MRevision mo' = MRevision mo ->
  module_ok mo' -> vm_inv (with_modules (<[m := mo']> (Modules v)) v).
Proof.
  intros [] Hmo Hc Hr Hok. set (v' := with_modules _ _).
  split; try done; change (Modules v') with (<[m := mo']> (Modules v)).
  - intros k m' Hk. destruct (vi_entry0 k m' Hk) as (? & mo1 & Hmo1 & E2). split; [done|].
    destruct (decide (m = m')) as [<-|Hne].
    + exists mo'. rewrite lookup_insert_eq. split_and!; [done|congruence..].
    + exists mo1. by rewrite lookup_insert_ne.
  - intros m' mo1 [[_ <-]|[_ Hmo1]]%lookup_insert_Some; [done|by eapply vi_module0].
  - intros m' [<-|Hs]%lookup_insert_is_Some'; apply vi_loaded_num0; [by eexists|done].
  - intros s o mo1 Ho [[E <-]|[_ Hmo1]]%lookup_insert_Some; [|by eapply vi_inst0].
    rewrite Hc. eapply vi_inst0; [done|]. by rewrite <- E.
Qed.

(** ** Contexts *)

Lemma clear_objects l : Forall frame_object l -> Forall frame_object (releaseAllFrameBuffersIfLarge l).
Proof. induction 1 as [|f l Hf _ IH]; [constructor|]. constructor; [by destruct Hf|done]. Qed.

(** A context ready for a call of instance [i]. *)
Record ready (i : EVMInstance) (h : HS) c : Prop := {
  rd_below : below c = [];
  rd_spare : Forall frame_object (spare c);
  rd_status : Status c = EVMC_SUCCESS;
  rd_data : ReturnData c = [];
  rd_inst : Inst c = i;
  rd_hst : hst c = h;
}.

Lemma pickContext_ready s i h v :
  vm_inv v -> let '(c, v') := pickContext s i h v in
  ready i h c /\ vm_inv v' /\ v' = set_Ctxs (CachedCtx v') (NestedCtxPool v') v /\
  getCtx_ s v' = Some c /\ forall s', s' <> s -> getCtx_ s' v' = getCtx_ s' v.
Proof.
  intros Hv. unfold pickContext. fold (getCtx_ s v). set (c := match getCtx_ s v with Some _ => _ | None => _ end).
  assert (ready i h c) as Hr.
  { subst c. destruct (getCtx_ s v) as [c0|] eqn:E; [|by split; constructor].
    split; try done. cbn. apply clear_objects. pose proof (vi_ctx _ Hv s c0 E) as Hc.
    apply Forall_app in Hc as [? ?]. apply Forall_app. split; [by apply Forall_rev|done]. }
  assert (forall s' c', s' <> s \/ c' = c -> getCtx_ s' v = Some c' \/ c' = c -> Forall frame_object (below c' ++ spare c'))
    as Hok.
  { intros s' c' _ [Hc'| ->]; [by eapply (vi_ctx _ Hv)|]. destruct Hr as [-> ? _ _ _ _]. done. }
  clearbody c. destruct s as [|d].
  - split; [done|]. split.
    + destruct Hv. split; try done. intros [|d] c'; [|by apply (vi_ctx0 (CNested d))].
      intros [= <-]. apply (Hok CMain); by right.
    + split_and!; [done..|]. by intros [|d].
  - set (P := if (length (NestedCtxPool v) <=? d)%nat
              then NestedCtxPool v ++ replicate (d + 1 - length (NestedCtxPool v)) None else NestedCtxPool v).
    assert (d < length P)%nat as Hlen.
    { subst P. destruct (Nat.leb_spec (length (NestedCtxPool v)) d); [|done].
      rewrite length_app, length_replicate. lia. }
    assert (forall d', d' <> d -> default None (<[d := Some c]> P !! d') = default None (NestedCtxPool v !! d'))
      as Hother.
    { intros d' Hne. rewrite list_lookup_insert_ne by done. subst P.
      destruct (Nat.leb_spec (length (NestedCtxPool v)) d); [|done].
      destruct (Nat.lt_ge_cases d' (length (NestedCtxPool v))); [by rewrite lookup_app_l|].
      rewrite lookup_app_r, (lookup_ge_None_2 (NestedCtxPool v)) by done.
      destruct (replicate _ (@None (Context_ HS)) !! _) as [o|] eqn:E; [|done]. by apply lookup_replicate in E as [-> _]. }
    assert (default None (<[d := Some c]> P !! d) = Some c) as Hself by (by rewrite list_lookup_insert_eq).
    split; [done|]. split.
    + destruct Hv. split; try done. intros [|d'] c'; [by apply (vi_ctx0 CMain)|]. cbn.
      destruct (decide (d' = d)) as [->|Hne].
      * rewrite Hself. intros [= <-]. apply (Hok (CNested d)); by right.
      * rewrite Hother by done. intros Hc'. by apply (vi_ctx0 (CNested d')).
    + split_and!; [done|done|]. intros [|d'] Hne; [done|]. apply Hother. congruence.
Qed.
End Vm.

(** ** Entering a call *)

Section Enter.
Context {HS : Type} {I : Intx} {V : Evmc} {IL : IntxLaws I} {VL : EvmcLaws V}.
Implicit Types (v : DTVM HS) (c : Context_ HS) (m : ModName) (act : list (Call * Z)).

Lemma getBytecodeCache_run mo :
  module_ok mo -> exists Cache mo', getBytecodeCache mo = Some (Cache, mo') /\ module_ok mo' /\
    MCode mo' = MCode mo /\ MRevision mo' = MRevision mo /\
    buildBytecodeCache (MCode mo) (MRevision mo) = Some Cache.
Proof.
  intros (Hb & Hl & Hc). unfold getBytecodeCache. destruct (BytecodeCache_ mo) as [Cache|] eqn:E.
  { exists Cache, mo. split_and!; try done; [|by apply Hc].
    split_and!; [done..|]. rewrite E. by intros cache [= <-]; apply Hc. }
  destruct (metrics_table_some (MRevision mo)) as [MT Hmt].
  rewrite (buildBytecodeCache_eq (MCode mo) (MRevision mo) MT Hmt) by (unfold PresetMaxModuleSize in Hl; lia).
  cbn [mbind option_bind]. eexists _, _. split; [reflexivity|]. split_and!; try done.
  split_and!; [done..|]. intros cache [= <-]. cbn [MCode MRevision].
  apply (buildBytecodeCache_eq (MCode mo) (MRevision mo) MT Hmt). unfold PresetMaxModuleSize in Hl; lia.
Qed.

(** The modules of the calls in progress. *)
Definition held act m : Prop := m ∈ map (fun p => cMod p.1) act.
Abbreviation found act := (found (HS := HS) (held act)).

(** A call the host may make: deeper than those in progress; and where the
    cache has a module for its address and revision, the code is that module's
    or differs from it in what [validateCodeMatch] compares, and then no call
    in progress runs that module.  A host that keeps the code of an address
    immutable, as the comment of [validateCodeMatch] asks, meets this. *)
Record request v act (Rev : evmc_revision) (Msg : evmc_message) (Code : list Z) : Prop := {
  rq_mode : RT v <> None \/ Mode (Config v) = InterpMode;
  rq_depth : 0 <= depth Msg <= 1024;
  rq_nested : Forall (fun p => p.2 < depth Msg) act;
  rq_counter : ModCounter v + 1 < 2 ^ 64;
  rq_bytes : Forall is_byte Code;
  rq_code : code_known (held act) Code Rev Msg v;
}.

(** What the interpreter is given. *)
Record fresh_call (Rev : evmc_revision) (Msg : evmc_message) (Code : list Z) (h : HS)
    (CacheRev : evmc_revision) (s : hstate HS) (Cache : EVMBytecodeCache) : Prop := {
  fc_frame : exists st, fr s = mkFrame st [] [] (with_code Code Msg) false tx_context_zero 0 0 0 0 /\
    length st = MAXSTACK /\ Forall is_u256 st;
  fc_ctx : below (cx s) = [] /\ Forall frame_object (spare (cx s)) /\ Status (cx s) = EVMC_SUCCESS /\
    ReturnData (cx s) = [] /\ hst (cx s) = h;
  fc_inst : ModCode (Inst (cx s)) = Code /\ GasRefund (Inst (cx s)) = 0 /\
    EvmInstance.Rev (Inst (cx s)) = Rev;
  fc_cache : buildBytecodeCache Code CacheRev = Some Cache;
}.

(** The revision the interpreter runs under: a main instance that is created
    for the call has the default one. *)
Definition revision_of v (Rev : evmc_revision) (Msg : evmc_message) : evmc_revision :=
  match CachedMainInst v with
  | None => if depth Msg =? 0 then DEFAULT_REVISION else Rev
  | Some _ => Rev
  end.

Lemma ensure_run v :
  RT v <> None \/ Mode (Config v) = InterpMode ->
  exists v', ensureRuntimeAndIsolation v = (true, v') /\ RT v' <> None /\ Modules v' = Modules v /\
    v' = set_Iso (Iso v') (set_RT (RT v') v).
Proof.
  intros Hm. unfold ensureRuntimeAndIsolation. destruct (RT v) as [rt|] eqn:E.
  - exists (if Iso v then v else set_Iso true v). split; [done|].
    destruct v as [? ? ? iso]; cbn in *; subst; by destruct iso.
  - destruct Hm as [?|Hm]; [done|]. unfold newEVMRuntime. rewrite Hm.
    eexists. split; [reflexivity|]. set (v1 := set_RT _ v).
    assert (Modules v = ∅) as Em by (unfold Modules; by rewrite E).
    destruct (Iso v1) eqn:Ei; rewrite Em; (split; [done|]); (split; [done|]); [|done].
    change (Iso v1) with (Iso v) in Ei. by destruct v; cbn in *; subst.
Qed.

Lemma vm_inv_ensure v v' :
  Modules v' = Modules v -> v' = set_Iso (Iso v') (set_RT (RT v') v) -> vm_inv v -> vm_inv v'.
Proof.
  intros Hm Hv []. assert (AddrCache v' = AddrCache v /\ LRUOrder v' = LRUOrder v /\
    ModCounter v' = ModCounter v /\ (forall s, getInst s v' = getInst s v) /\
    (forall s, getCtx_ s v' = getCtx_ s v)) as (E1 & E2 & E3 & E4 & E5) by (rewrite Hv; done).
  split; rewrite ?E1, ?E2, ?E3, ?Hm; try done.
  - intros s o. rewrite E4. apply vi_inst_num0.
  - intros s o mo. rewrite E4. apply vi_inst0.
  - intros s c. rewrite E5. apply vi_ctx0.
Qed.

(** The instance after [pushMessage] and [allocTopFrame]. *)
Lemma alloc_inst deref ext msg i c :
  Inst c = pushMessage deref (Some (MExt 0)) i ->
  let j := Inst (cx (allocTopFrame ext msg None c)) in
  ModCode j = ModCode i /\ GasRefund j = GasRefund i /\ EvmInstance.Rev j = EvmInstance.Rev i.
Proof.
  intros Hi. unfold allocTopFrame. destruct (spare c); cbn [cx set_Inst Inst];
    unfold pushMessage at 1 2 3; destruct (MessageStack (Inst c)); cbn; rewrite Hi;
    unfold pushMessage; by destruct (MessageStack i).
Qed.

Lemma alloc_cx ext msg c :
  below (cx (allocTopFrame ext msg None c)) = below c /\
  (Forall frame_object (spare c) -> Forall frame_object (spare (cx (allocTopFrame ext msg None c)))) /\
  Status (cx (allocTopFrame ext msg None c)) = Status c /\
  ReturnData (cx (allocTopFrame ext msg None c)) = ReturnData c /\
  hst (cx (allocTopFrame ext msg None c)) = hst c.
Proof.
  unfold allocTopFrame. destruct (spare c) as [|f l]; split_and!; try done. cbn.
  by intros ?%Forall_inv_tail.
Qed.

(** *** The calls in progress *)

(** What a call in progress owns is as it was: the code of its module, its
    instance and its context. *)
Record undisturbed v v' (call : Call) : Prop := {
  ud_code : MCode <$> Modules v' !! cMod call = MCode <$> Modules v !! cMod call;
  ud_inst : getInst (cInst call) v' = getInst (cInst call) v;
  ud_ctx : getCtx_ (cCtx call) v' = getCtx_ (cCtx call) v;
}.

Lemma undisturbed_trans v1 v2 v3 call :
  undisturbed v1 v2 call -> undisturbed v2 v3 call -> undisturbed v1 v3 call.
Proof. intros [] []. split; congruence. Qed.

Lemma undisturbed_all v1 v2 v3 act :
  Forall (fun p => undisturbed v1 v2 p.1) act -> Forall (fun p => undisturbed v2 v3 p.1) act ->
  Forall (fun p => undisturbed v1 v3 p.1) act.
Proof. rewrite !Forall_forall. intros H1 H2 p Hp. by eapply undisturbed_trans; [apply H1|apply H2]. Qed.

Lemma call_inv_mono v v' call d :
  undisturbed v v' call ->
  (forall k, AddrCache v !! k = Some (cMod call) -> AddrCache v' !! k = Some (cMod call)) ->
  call_inv v call d -> call_inv v' call d.
Proof.
  intros [Hm Hi Hc] Hk []. split; try done; rewrite ?Hm, ?Hi, ?Hc; try done.
  - rewrite <- (fmap_is_Some MCode), Hm. by apply fmap_is_Some.
  - destruct (cTransient call); [done|]. destruct ci_owner0 as [k ?]. exists k. auto.
Qed.

Lemma undisturbed_found act Code Rev v mm tr v' call d :
  found act Code Rev v mm tr v' -> held act (cMod call) -> call_inv v call d ->
  undisturbed v v' call.
Proof.
  intros [? [Hi1 Hi2] [Hc1 Hc2] _ _ _ Hu _ _ _ _] Hin Hc. split.
  - rewrite Hu; [done..|apply Hc].
  - destruct (cInst call); cbn; congruence.
  - destruct (cCtx call); cbn; by rewrite ?Hc1, ?Hc2.
Qed.

Lemma call_inv_found act Code Rev v mm tr v' call d :
  found act Code Rev v mm tr v' -> held act (cMod call) -> call_inv v call d -> call_inv v' call d.
Proof.
  intros Hf Hin Hc. eapply call_inv_mono; [by eapply undisturbed_found| |done].
  intros k. by apply (fo_used_key _ _ _ _ _ _ _ Hf).
Qed.

Lemma held_in act call d : (call, d) ∈ act -> held act (cMod call).
Proof. intros Hin. apply list_elem_of_fmap. by exists (call, d). Qed.

(** The eviction loop keeps the modules of the calls in progress. *)
Lemma held_in_use v act m : active_inv v act -> held act m -> isModuleInUse m v = true.
Proof.
  intros [_ Hc _ _ _] (p & -> & Hin)%list_elem_of_fmap. rewrite Forall_forall in Hc.
  destruct (ci_inst _ _ _ (Hc p Hin)) as (o & Ho & <-). by eapply inst_in_use.
Qed.

Lemma call_in v act call d : active_inv v act -> (call, d) ∈ act -> call_inv v call d.
Proof. intros [_ Hc _ _ _] Hin. rewrite Forall_forall in Hc. by apply (Hc (call, d)). Qed.

Lemma call_inv_ensure v v' call d :
  Modules v' = Modules v -> v' = set_Iso (Iso v') (set_RT (RT v') v) ->
  call_inv v call d -> call_inv v' call d.
Proof.
  intros Hm Hv. assert (AddrCache v' = AddrCache v /\ (forall s, getInst s v' = getInst s v) /\
    (forall s, getCtx_ s v' = getCtx_ s v)) as (E1 & E2 & E3) by (rewrite Hv; done).
  apply call_inv_mono; [split|]; rewrite ?Hm, ?E1, ?E2, ?E3; done.
Qed.

(** Calls of different depths run in different contexts. *)
Lemma ctx_distinct call call' d d' :
  ctx_ok d call -> ctx_ok d' call' -> 0 <= d' < d -> cCtx call' <> cCtx call.
Proof.
  unfold ctx_ok. intros -> -> Hd.
  destruct (negb (cTransient call) && (d =? 0)) eqn:E1, (negb (cTransient call') && (d' =? 0)); try done.
  - apply andb_true_iff in E1 as [_ E1%Z.eqb_eq]. lia.
  - intros [= E]. lia.
Qed.

Lemma contexts_distinct v act : active_inv v act -> NoDup (map (fun p => cCtx p.1) act).
Proof.
  intros [Hs Hc _ _ _]. induction Hs as [|[call d] act _ IH Hall]; [constructor|].
  apply Forall_cons_iff in Hc as [Hcall Hc]. cbn [map fst]. constructor; [|by apply IH].
  intros ([call' d'] & E & Hin)%list_elem_of_fmap. rewrite Forall_forall in Hall, Hc.
  specialize (Hall _ Hin). specialize (Hc _ Hin). cbn [fst snd] in *.
  eapply ctx_distinct; [apply Hcall|apply Hc|split; [apply Hc|done]|done].
Qed.

(** No call was entered. *)
Lemma active_refused Code Rev v tr v' act :
  active_inv v act -> found act Code Rev v None tr v' ->
  active_inv v' act /\ Forall (fun p => undisturbed v v' p.1) act.
Proof.
  intros Ha Hf. split; [split; try apply Ha|].
  - apply Forall_forall. intros [call d] Hin.
    exact (call_inv_found _ _ _ _ _ _ _ _ _ Hf (held_in _ _ _ Hin) (call_in _ _ _ _ Ha Hin)).
  - intros m Hm. destruct (fo_pool _ _ _ _ _ _ _ Hf m Hm) as [?|[[_ ?]|[Hm' Hk]]]; [by left|done|].
    destruct (ai_pool _ _ Ha m Hm') as [?|?]; [done|by right].
  - apply Forall_forall. intros [call d] Hin.
    exact (undisturbed_found _ _ _ _ _ _ _ _ _ Hf (held_in _ _ _ Hin) (call_in _ _ _ _ Ha Hin)).
Qed.

(** The state [v'] of a machine in which [call] was entered from [v]. *)
Lemma active_entered Code Rev v m tr v1 v' act call d :
  active_inv v act -> found act Code Rev v (Some m) tr v1 ->
  Forall (fun p => p.2 < d) act -> cMod call = m -> cTransient call = tr -> call_inv v' call d ->
  (forall s d', slot_ok d' s -> 0 <= d' < d -> is_Some (getInst s v1) -> s <> cInst call) ->
  (forall x, MCode <$> Modules v' !! x = MCode <$> Modules v1 !! x) -> AddrCache v' = AddrCache v1 ->
  (forall s, s <> cInst call -> is_Some (getInst s v1) -> getInst s v' = getInst s v1) ->
  (forall s, s <> cCtx call -> getCtx_ s v' = getCtx_ s v1) ->
  active_inv v' ((call, d) :: act) /\ Forall (fun p => undisturbed v v' p.1) act.
Proof.
  intros Ha Hf Hd Hm Htr Hcall Hfree Hmods Hac Hinst Hctx.
  assert (forall call' d', (call', d') ∈ act -> call_inv v1 call' d' /\ cInst call' <> cInst call /\
    undisturbed v v1 call' /\ undisturbed v1 v' call') as Hold.
  { intros call' d' Hin. pose proof (held_in _ _ _ Hin) as Hheld.
    pose proof (call_in _ _ _ _ Ha Hin) as Hc0.
    pose proof (call_inv_found _ _ _ _ _ _ _ _ _ Hf Hheld Hc0) as Hc.
    destruct (ci_inst _ _ _ Hc) as (o & Ho & _). rewrite Forall_forall in Hd. specialize (Hd _ Hin).
    pose proof (ci_depth _ _ _ Hc) as H0. cbn [snd] in Hd.
    assert (cInst call' <> cInst call) as Hne by (eapply Hfree; [apply Hc|done|by rewrite Ho]).
    split; [done|]. split; [done|]. split; [by eapply undisturbed_found|].
    split; [apply Hmods|apply Hinst; [done|by eexists]|]. apply Hctx. eapply ctx_distinct; [apply Hcall|apply Hc|done]. }
  split; [|apply Forall_forall; intros [call' d'] (_ & _ & ? & ?)%Hold; by eapply undisturbed_trans].
  split.
  - constructor; [apply Ha|done].
  - constructor; [done|]. apply Forall_forall. intros [call' d'] Hin. destruct (Hold _ _ Hin) as (Hc & _ & _ & Hu).
    apply (call_inv_mono v1); [done|by rewrite Hac|done].
  - cbn [map]. constructor; [|apply Ha]. intros ([call' d'] & E & Hin)%list_elem_of_fmap.
    by destruct (Hold _ _ Hin) as (_ & ? & _).
  - rewrite filter_cons. case_decide as Ht; [|apply Ha]. cbn [map fst] in *. constructor; [|apply Ha].
    intros ([call' d'] & E & [_ Hin]%list_elem_of_filter)%list_elem_of_fmap.
    pose proof (fo_result _ _ _ _ _ _ _ Hf) as Hr. cbn beta iota in Hr. rewrite <- Htr, Ht in Hr.
    destruct Hr as (_ & _ & Hnone). destruct (ci_loaded _ _ _ (call_in _ _ _ _ Ha Hin)) as [mo Hmo].
    cbn [fst] in E. congruence.
  - intros x Hx. rewrite <- (fmap_is_Some MCode), Hmods, fmap_is_Some in Hx. rewrite Hac.
    destruct (fo_pool _ _ _ _ _ _ _ Hf x Hx) as [?|[[E1 [= <-]]|[Hx' Hk]]].
    + by left.
    + right. exists call, d. split_and!; [by left|congruence|done].
    + destruct (ai_pool _ _ Ha x Hx') as [?|(call' & d' & Hin & ?)]; [done|].
      right. exists call', d'. split; [by right|done].
Qed.

(** *** Entering *)

Record entered_ok (Rev : evmc_revision) (Msg : evmc_message) (Code : list Z) (h : HS) v act
    (e : entered HS) v' : Prop := {
  eo_inv : vm_inv v';
  eo_kept : Config v' = Config v /\ ModCounter v <= ModCounter v' <= ModCounter v + 1;
  eo_code : same_code v v';
  eo_others : Forall (fun p => undisturbed v v' p.1) act;
  eo_case :
    match e with
    | Refused r => r = failure /\ PresetMaxModuleSize < Z.of_nat (length Code) /\
        active_inv v' act /\ ExecHost v' = ExecHost v
    | Entered call Cache s =>
        Z.of_nat (length Code) <= PresetMaxModuleSize /\
        active_inv v' ((call, depth Msg) :: act) /\ cPrevHost call = ExecHost v /\
        fresh_call (revision_of v Rev Msg) Msg Code h Rev s Cache /\
        (MCode <$> Modules v' !! cMod call = Some Code)
    end;
}.

(** The interpreter starts from an empty frame on the instance of the call. *)
Lemma fresh_of_ready Rev CacheRev Msg Code h (o : InstObj) c Cache :
  let Msg' := with_code Code Msg in
  ready (pushMessage (fun _ => gas Msg') (Some (MExt 0)) (obj o)) h c ->
  ModCode (obj o) = Code -> GasRefund (obj o) = 0 -> EvmInstance.Rev (obj o) = Rev ->
  buildBytecodeCache Code CacheRev = Some Cache ->
  fresh_call Rev Msg Code h CacheRev (allocTopFrame (fun _ => gas Msg') Msg' None c) Cache.
Proof.
  intros Msg' [Hb Hsp Hst Hrd Hi Hh] Ec Egr Erev Hbuild.
  destruct (alloc_inst _ (fun _ => gas Msg') Msg' (obj o) c Hi) as (A1 & A2 & A3).
  destruct (alloc_frame (fun _ => gas Msg') Msg' None c) as (st & Efr & Hfr).
  destruct (alloc_cx (fun _ => gas Msg') Msg' c) as (C1 & C2 & C3 & C4 & C5).
  split; [|split_and!; [by rewrite C1|by apply C2|by rewrite C3|by rewrite C4|by rewrite C5]
    |by split_and!; [rewrite A1|rewrite A2|rewrite A3]|done].
  exists st. rewrite Efr. destruct (Hfr Hsp) as [? ?]. split_and!; [|done..]. f_equal.
  rewrite Hi. unfold pushMessage. by destruct (MessageStack (obj o)).
Qed.

(** The revision of the instance a call gets. *)
Lemma instanced_revision m mo Rev Msg v slot v' o :
  instanced m mo Rev (depth Msg) v slot v' -> getInst slot v' = Some o ->
  EvmInstance.Rev (obj o) = revision_of v Rev Msg.
Proof.
  intros [_ _ (o1 & Ho1 & _ & _ & _ & _ & Erev1 & Erev0) _ _] Ho. assert (o1 = o) as -> by congruence.
  unfold revision_of. cbn [getInst] in Erev1, Erev0. destruct (CachedMainInst v); [apply Erev1; by left|].
  destruct (Z.eqb_spec (depth Msg) 0); [by apply Erev0|apply Erev1; by right].
Qed.

(** The state of the machine once the module, the instance and the context of
    a call are in place. *)
Lemma placed_active Code Rev v m tr v1 v2 v4 v5 act d mo mo' Prev slot ctx o' :
  active_inv v act -> found act Code Rev v (Some m) tr v1 -> Modules v1 !! m = Some mo ->
  instanced m mo Rev d v1 slot v2 -> 0 <= d -> Forall (fun p => p.2 < d) act ->
  Modules v4 = <[m := mo']> (Modules v2) -> MCode mo' = MCode mo -> AddrCache v4 = AddrCache v2 ->
  (forall s, getInst s v4 = getInst s v2) ->
  (exists c, getCtx_ ctx v4 = Some c /\ ModCode (Inst c) = MCode mo) ->
  (forall s, s <> ctx -> getCtx_ s v4 = getCtx_ s v2) ->
  v5 = putInst slot o' v4 -> getInst slot v5 = Some o' -> getModule o' = m ->
  ctx_ok d (mkCall Prev m tr slot ctx) ->
  active_inv v5 ((mkCall Prev m tr slot ctx, d) :: act) /\ Forall (fun p => undisturbed v v5 p.1) act.
Proof.
  intros Ha Hf Hmo [Er Hslot _ Hother Hfree] Hd0 Hn M4 Ec A4 I4 (c & Hself & Hcc) Hoth E5 I5 Em Hctx.
  assert (Modules v2 = Modules v1 /\ AddrCache v2 = AddrCache v1 /\ forall s, getCtx_ s v2 = getCtx_ s v1)
    as (Emod & Eac & Ectx) by (rewrite Er; done).
  assert (Modules v5 = Modules v4 /\ AddrCache v5 = AddrCache v4 /\ forall s, getCtx_ s v5 = getCtx_ s v4)
    as (M5 & A5 & X5) by (rewrite E5; unfold putInst; by destruct slot).
  destruct (fo_result _ _ _ _ _ _ _ Hf) as [_ Hown].
  eapply (active_entered Code Rev v m tr v1); try done.
  - split; cbn [cMod cInst cCtx cTransient]; [lia| | |done|done| |].
    + rewrite M5, M4, lookup_insert_eq. by eexists.
    + by exists o'.
    + exists c. rewrite X5, M5, M4, lookup_insert_eq. cbn. by rewrite Hcc, Ec.
    + destruct tr; [by destruct Hown as [[n ->] _]; exists n|]. by rewrite A5, A4, Eac.
  - intros x. rewrite M5, M4, Emod. destruct (decide (m = x)) as [<-|Hne].
    + rewrite lookup_insert_eq, Hmo. cbn. by rewrite Ec.
    + by rewrite lookup_insert_ne.
  - by rewrite A5, A4.
  - intros s' Hs' Hi'. rewrite E5. cbn [cInst] in Hs'. rewrite getInst_put_ne by done.
    rewrite I4. by apply Hother.
  - intros s' Hs'. cbn [cCtx] in Hs'. by rewrite X5, Hoth, Ectx.
Qed.

(** From the found module on. *)
Lemma enter_found Rev Msg Code h v v1 m tr act Prev :
  vm_inv v1 -> active_inv v act -> found act Code Rev v (Some m) tr v1 ->
  0 <= depth Msg <= 1024 -> Forall (fun p => p.2 < depth Msg) act ->
  exists call Cache s v',
    setUpCall Prev m tr Rev Msg h v1 = Some (Entered call Cache s, v') /\
    vm_inv v' /\ Config v' = Config v /\ ModCounter v' = ModCounter v1 /\ same_code v1 v' /\
    cPrevHost call = Prev /\
    (active_inv v' ((call, depth Msg) :: act) /\ Forall (fun p => undisturbed v v' p.1) act) /\
    fresh_call (revision_of v1 Rev Msg) Msg Code h Rev s Cache /\
    MCode <$> Modules v' !! cMod call = Some Code.
Proof.
  intros Hv1 Ha Hf Hd Hn. unfold setUpCall.
  destruct (fo_result _ _ _ _ _ _ _ Hf) as [(mo & Hmo & Hcode & Hrev) Hown].
  destruct (getOrCreateInstance_instanced m mo Rev (depth Msg) v1 Hv1 Hmo (proj1 Hd))
    as (slot & v2 & -> & Hv2 & Hins). pose proof Hins as [Er _ (o & Ho & Em & Ec & Ems & Egr & _) _ _].
  cbn [mbind option_bind]. assert (Modules v2 = Modules v1 /\ RT v2 = RT v1 /\ Config v2 = Config v1 /\
    ModCounter v2 = ModCounter v1) as (Emod & Ert & Ecfg & Ecnt) by (rewrite Er; done).
  rewrite Emod, Hmo. cbn [mbind option_bind].
  destruct (getBytecodeCache_run mo (vi_module _ Hv1 m mo Hmo)) as (Cache & mo' & -> & Hok' & Ec' & Er' & Hbuild).
  cbn [mbind option_bind]. destruct (RT v2) as [rt|] eqn:Ert2; [|exfalso; by destruct (fo_rt _ _ _ _ _ _ _ Hf)].
  cbn [mbind option_bind]. set (v3 := set_RT _ v2).
  assert (v3 = with_modules (<[m := mo']> (Modules v2)) v2) as Ev3
    by (unfold v3, with_modules, Modules; by rewrite Ert2).
  assert (vm_inv v3) as Hv3 by (rewrite Ev3; eapply vm_inv_setModule; [done|by rewrite Emod|done..]).
  change (getInst slot v3) with (getInst slot v2). rewrite Ho. cbn [mbind option_bind].
  rewrite Ec', Hcode. set (ctx := if negb tr && _ then _ else _).
  rewrite (proj2 (Z.leb_le 0 (depth Msg))), (proj2 (Z.leb_le (depth Msg) 1024)) by lia. rewrite andb_false_r.
  set (i := pushMessage _ _ (obj o)). pose proof (pickContext_ready ctx i h v3 Hv3) as Hpick.
  destruct (pickContext ctx i h v3) as [c v4]. destruct Hpick as (Hready & Hv4 & Er4 & Hself & Hoth).
  assert (fresh_call (revision_of v1 Rev Msg) Msg Code h Rev
    (allocTopFrame (fun _ => gas (with_code Code Msg)) (with_code Code Msg) None c) Cache) as Hfresh.
  { apply (fresh_of_ready _ _ _ _ _ o); [done|congruence|done|by eapply instanced_revision|congruence]. }
  eexists _, _, _, _. split; [reflexivity|]. set (s := allocTopFrame _ _ None c) in *.
  set (o' := mkObj (Inst (cx s)) (getModule o)). set (v5 := putInst slot o' v4).
  assert (Modules v4 = <[m := mo']> (Modules v2) /\ AddrCache v4 = AddrCache v2 /\
    (forall s, getInst s v4 = getInst s v2) /\ Config v4 = Config v2 /\ ModCounter v4 = ModCounter v2)
    as (M4 & A4 & I4 & K4 & N4).
  { assert (Modules v3 = <[m := mo']> (Modules v2)) as <- by (by rewrite Ev3). rewrite Er4. done. }
  assert (vm_inv v5) as Hv5.
  { eapply vm_inv_putInst with (mo := mo'); [done| |].
    - cbn [getModule o']. rewrite Em, M4. apply lookup_insert_eq.
    - change (ModCode (Inst (cx s)) = MCode mo'). destruct (fc_inst _ _ _ _ _ _ _ Hfresh) as [-> _]. congruence. }
  assert (Modules v5 = Modules v4 /\ Config v5 = Config v4 /\ ModCounter v5 = ModCounter v4) as (M5 & K5 & N5)
    by (unfold v5, putInst; by destruct slot).
  assert (getInst slot v5 = Some o') as I5 by (apply getInst_put_eq; left; rewrite I4, Ho; by eexists).
  split; [done|]. split; [rewrite K5, K4, Ecfg; apply Hf|]. split; [congruence|]. split.
  { split; [lia|]. intros x mo1 _. rewrite M5, M4, Emod. intros [[<- <-]|[_ ?]]%lookup_insert_Some; eauto. }
  split; [done|]. split; [|split; [done|]].
  - eapply (placed_active Code Rev v m tr v1 v2 v4 v5); try done; [lia|]. exists c. split; [done|].
    destruct Hready as [_ _ _ _ -> _]. unfold i, pushMessage. by destruct (MessageStack (obj o)).
  - cbn [cMod]. rewrite M5, M4, lookup_insert_eq. cbn. by rewrite Ec', Hcode.
Qed.

Lemma active_ensure v v' act :
  Modules v' = Modules v -> v' = set_Iso (Iso v') (set_RT (RT v') v) ->
  active_inv v act -> active_inv v' act.
Proof.
  intros Hm Hv []. split; try done.
  - eapply Forall_impl; [done|]. intros [call d]. by apply call_inv_ensure.
  - rewrite Hm. intros m Hs. assert (AddrCache v' = AddrCache v) as -> by (rewrite Hv; done). auto.
Qed.

Lemma active_ExecHost v h act : active_inv v act -> active_inv (set_ExecHost h v) act.
Proof.
  intros []. split; try done. eapply Forall_impl; [done|]. intros [call d] []. by split.
Qed.

Lemma enterCall_safe Host Rev Msg Code h v act :
  vm_inv v -> active_inv v act -> request v act Rev Msg Code ->
  exists e v', enterCall Host Rev Msg Code h v = Some (e, v') /\
    entered_ok Rev Msg Code h v act e v'.
Proof.
  intros Hv Ha [Hmode Hd Hn Hc HC Hat]. unfold enterCall. set (v0 := set_ExecHost Host v).
  destruct (ensure_run v0 Hmode) as (v1 & -> & Hrt & Hm & Hv1). cbn [negb].
  assert (vm_inv v1) as HI1 by (eapply vm_inv_ensure, vm_inv_ExecHost; done).
  assert (active_inv v1 act) as HA1 by (eapply active_ensure, active_ExecHost; done).
  assert (ModCounter v1 = ModCounter v /\ Config v1 = Config v /\ CachedMainInst v1 = CachedMainInst v)
    as (E1 & E2 & E3) by (rewrite Hv1; done).
  assert (Forall (fun p => undisturbed v v1 p.1) act) as HU1.
  { apply Forall_forall. intros p _. split; [by rewrite Hm|by rewrite Hv1..]. }
  assert (code_known (held act) Code Rev Msg v1) as Hat1.
  { intros Hp m mo. rewrite Hm. replace (AddrCache v1) with (AddrCache v) by (by rewrite Hv1). by apply Hat. }
  assert (forall m, held act m -> isModuleInUse m v1 = true) as Huse by (intros m; by apply held_in_use).
  destruct (findModuleCached_found (held act) Code Rev Msg v1 HI1 Huse Hrt ltac:(lia) HC Hat1)
    as (mm & tr & v2 & -> & HI2 & Hf & _). cbn [mbind option_bind].
  destruct (fo_host _ _ _ _ _ _ _ Hf) as [_ Ec]. pose proof (fo_counter _ _ _ _ _ _ _ Hf) as Hcnt.
  destruct mm as [m|].
  - destruct (enter_found Rev Msg Code h v1 v2 m tr act (ExecHost v) HI2 HA1 Hf Hd Hn)
      as (call & Cache & s & v' & -> & Hv' & K & N & SC & P & [A U] & F & G).
    eexists _, _. split; [reflexivity|].
    split; [done|split; [congruence|lia]|eapply same_code_trans, same_code_trans; [|apply Hf|done];
      apply same_code_sub; [lia|by rewrite Hm]|by eapply undisturbed_all|].
    assert (revision_of v2 Rev Msg = revision_of v Rev Msg) as <-
      by (unfold revision_of; by rewrite (proj1 (fo_insts _ _ _ _ _ _ _ Hf)), E3).
    split_and!; try done. destruct (fo_result _ _ _ _ _ _ _ Hf) as [(mo & Hmo & <- & _) _].
    by destruct (vi_module _ HI2 m mo Hmo) as (_ & ? & _).
  - destruct (active_refused _ _ _ _ _ _ HA1 Hf) as [A U].
    eexists _, _. split; [reflexivity|]. split; [by apply vm_inv_ExecHost| | | |].
    + split; [by rewrite <- E2, <- Ec|]. cbn [ModCounter set_ExecHost]. lia.
    + eapply same_code_trans; [|apply Hf]. apply same_code_sub; [lia|by rewrite Hm].
    + eapply undisturbed_all; [exact HU1|]. eapply Forall_impl; [exact U|]. intros p []. by split.
    + split_and!; [done|apply (fo_result _ _ _ _ _ _ _ Hf)| |done].
      by eapply active_ExecHost.
Qed.

(** ** Leaving a call *)

(** The context the interpreter leaves. *)
Definition result_ok v (call : Call) c : Prop :=
  Forall frame_object (below c ++ spare c) /\
  forall mo, Modules v !! cMod call = Some mo -> ModCode (Inst c) = MCode mo.

Lemma putContext_ok s c v :
  vm_inv v -> Forall frame_object (below c ++ spare c) ->
  vm_inv (putContext s c v) /\ putContext s c v = set_Ctxs (CachedCtx (putContext s c v))
    (NestedCtxPool (putContext s c v)) v /\
  forall s', s' <> s -> getCtx_ s' (putContext s c v) = getCtx_ s' v.
Proof.
  intros Hv Hc. destruct s as [|d].
  - split; [|split; [done|by intros [|d]]]. destruct Hv. split; try done.
    intros [|d] c'; [by intros [= <-]|by apply (vi_ctx0 (CNested d))].
  - split; [|split; [done|]].
    + destruct Hv. split; try done. intros [|d'] c'; [by apply (vi_ctx0 CMain)|]. cbn.
      destruct (<[d := Some c]> (NestedCtxPool v) !! d') as [x|] eqn:E; [|done].
      apply list_lookup_insert_Some in E as [(_ & <- & _)|(_ & E)]; [by intros [= <-]|].
      intros Hx. apply (vi_ctx0 (CNested d')). cbn. by rewrite E.
    + intros [|d'] Hs'; [done|]. cbn. rewrite list_lookup_insert_ne; [done|congruence].
Qed.

(** Dropping a transient module. *)
Lemma vm_inv_dropTemp v n :
  vm_inv v -> vm_inv (with_modules (delete (tmp_mod_ n) (Modules v)) v).
Proof.
  intros []. set (v' := with_modules _ _).
  split; try done; change (Modules v') with (delete (tmp_mod_ n) (Modules v)).
  - intros k m Hk. destruct (vi_entry0 k m Hk) as ([x ->] & mo & ? & ?). split; [by eexists|].
    exists mo. by rewrite lookup_delete_ne.
  - intros m mo (_ & Hmo)%lookup_delete_Some. by eapply vi_module0.
  - intros m [_ Hm]%lookup_delete_is_Some. by apply vi_loaded_num0.
  - intros s o mo Ho (_ & Hmo)%lookup_delete_Some. by eapply vi_inst0.
Qed.

(** The calls that go on when [call] is left in a state [v'] that differs
    from [v] in [call]'s own objects. *)
Lemma active_left v v' call d act :
  active_inv v ((call, d) :: act) -> (forall k n, AddrCache v !! k <> Some (tmp_mod_ n)) ->
  Modules v' = (if cTransient call then delete (cMod call) (Modules v) else Modules v) ->
  AddrCache v' = AddrCache v ->
  (forall s, s <> cInst call -> getInst s v' = getInst s v) ->
  (forall s, s <> cCtx call -> getCtx_ s v' = getCtx_ s v) ->
  active_inv v' act /\ Forall (fun p => undisturbed v v' p.1) act.
Proof.
  intros Ha Hnocache Hmods Hac Hinst Hctx. pose proof (contexts_distinct _ _ Ha) as Hctxs.
  destruct Ha as [Hdep Hcalls Hslots Htemps Hpool].
  apply StronglySorted_inv in Hdep as [Hdep _]. apply Forall_cons_iff in Hcalls as [Hcall Hcalls].
  cbn [map fst] in Hslots, Hctxs. apply NoDup_cons in Hslots as [Hnot Hslots], Hctxs as [Hnotc _].
  assert (forall p, p ∈ act -> cTransient call = true -> cMod p.1 <> cMod call) as Hne.
  { intros p Hp Ht E. rewrite filter_cons_True in Htemps by done. cbn [map fst] in Htemps.
    apply NoDup_cons in Htemps as [Hout _]. apply Hout, list_elem_of_fmap. exists p. split; [done|].
    apply list_elem_of_filter. split; [|done]. rewrite Forall_forall in Hcalls.
    pose proof (ci_owner _ _ _ (Hcalls p Hp)) as Ho. destruct (cTransient p.1); [done|].
    destruct Ho as [k Hk]. pose proof (ci_owner _ _ _ Hcall) as Ho. cbn [fst] in Ho.
    rewrite Ht in Ho. destruct Ho as [n Ho]. destruct (ci_loaded _ _ _ Hcall) as [mo _].
    exfalso. rewrite E, Ho in Hk. by eapply Hnocache. }
  assert (Forall (fun p => undisturbed v v' p.1) act) as Hu.
  { apply Forall_forall. intros p Hp. split.
    - rewrite Hmods. destruct (cTransient call); [|done]. by rewrite lookup_delete_ne by (symmetry; auto).
    - apply Hinst. intros E. apply Hnot, list_elem_of_fmap. by exists p.
    - apply Hctx. intros E. apply Hnotc, list_elem_of_fmap. by exists p. }
  split; [|done]. split; try done.
  - apply Forall_forall. intros p Hp. rewrite Forall_forall in Hcalls, Hu.
    apply (call_inv_mono v); [by apply Hu|by rewrite Hac|by apply Hcalls].
  - rewrite filter_cons in Htemps. case_decide; [|done]. by apply NoDup_cons in Htemps as [_ ?].
  - intros x Hx. rewrite Hac. assert (is_Some (Modules v !! x)) as Hx0.
    { rewrite Hmods in Hx. destruct (cTransient call); [|done]. by apply lookup_delete_is_Some in Hx as []. }
    destruct (Hpool x Hx0) as [?|(call' & d' & Hin & Ht & E)]; [by left|].
    apply elem_of_cons in Hin as [[= -> ->]|Hin]; [|right; by exists call', d'].
    rewrite Hmods, Ht, E, lookup_delete_eq in Hx. by destruct Hx.
Qed.

Lemma leaveCall_safe v call d act c :
  vm_inv v -> active_inv v ((call, d) :: act) -> result_ok v call c ->
  exists v', leaveCall call c v =
      Some (mkResult (status_code (ExeResult c)) (i64 (Gas (Inst c))) (gas_refund (ExeResult c))
              (output_data (ExeResult c)) (create_address (ExeResult c)), v') /\
    vm_inv v' /\ active_inv v' act /\ ExecHost v' = cPrevHost call /\
    same_code v v' /\ Config v' = Config v /\ RT v' <> None /\
    Forall (fun p => undisturbed v v' p.1) act.
Proof.
  intros Hv Ha [Hobj Hcode]. pose proof (ai_call _ _ Ha) as Hcall.
  apply Forall_cons_iff in Hcall as [Hcall _]. cbn [fst snd] in Hcall.
  destruct (ci_loaded _ _ _ Hcall) as [mo Hmo]. unfold leaveCall.
  set (v1 := putInst (cInst call) _ v).
  assert (Modules v1 = Modules v /\ AddrCache v1 = AddrCache v /\ (forall s, getCtx_ s v1 = getCtx_ s v) /\
    Config v1 = Config v /\ ModCounter v1 = ModCounter v) as (M1 & A1 & X1 & K1 & N1)
    by (unfold v1, putInst; by destruct (cInst call)).
  assert (vm_inv v1) as Hv1 by (by eapply vm_inv_putInst; [|done|apply Hcode]).
  destruct (putContext_ok (cCtx call) c v1 Hv1 Hobj) as (Hv2 & Er & Hx).
  set (v2 := putContext (cCtx call) c v1) in *.
  assert (Modules v2 = Modules v /\ AddrCache v2 = AddrCache v /\ (forall s, getInst s v2 = getInst s v1) /\
    Config v2 = Config v /\ ModCounter v2 = ModCounter v) as (M2 & A2 & I2 & K2 & N2) by (rewrite Er; done).
  assert (forall s, s <> cInst call -> getInst s v2 = getInst s v) as Hin.
  { intros s Hs. rewrite I2. by apply getInst_put_ne. }
  assert (forall s, s <> cCtx call -> getCtx_ s v2 = getCtx_ s v) as Hc2.
  { intros s Hs. by rewrite Hx, X1. }
  assert (forall k n, AddrCache v !! k <> Some (tmp_mod_ n)) as Hnc.
  { intros k n Hk. exact (temp_not_cached v k n Hv Hk). }
  assert (RT v2 <> None) as Hrt2.
  { intros E. unfold Modules at 1 in M2. rewrite E in M2. rewrite <- M2, lookup_empty in Hmo. done. }
  assert (forall v3 : DTVM HS, vm_inv v3 ->
    Modules v3 = (if cTransient call then delete (cMod call) (Modules v) else Modules v) ->
    v3 = set_RT (RT v3) v2 -> RT v3 <> None -> let v' := set_ExecHost (cPrevHost call) v3 in
    vm_inv v' /\ active_inv v' act /\ ExecHost v' = cPrevHost call /\
    same_code v v' /\ Config v' = Config v /\ RT v' <> None /\
    Forall (fun p => undisturbed v v' p.1) act) as Hend.
  { intros v3 Hv3 M3 E3 Hrt3 v'.
    destruct (active_left v v' call d act Ha Hnc) as [Ha3 Hu3]; [done|by unfold v'; rewrite E3..|].
    split_and!; try done; [by apply vm_inv_ExecHost| |unfold v'; rewrite E3; done].
    apply same_code_sub; [unfold v'; rewrite E3; cbn; lia|]. change (Modules v') with (Modules v3). rewrite M3.
    destruct (cTransient call); [apply delete_subseteq|done]. }
  destruct (cTransient call) eqn:Ht.
  - pose proof (ci_owner _ _ _ Hcall) as Ho. rewrite Ht in Ho. destruct Ho as [n Ho].
    rewrite unloadModule_run by (rewrite M2, Hmo; by eexists). cbn [mbind option_bind].
    eexists. split; [reflexivity|]. apply Hend; try done; [rewrite Ho; by apply vm_inv_dropTemp|by rewrite M2].
  - cbn [mbind option_bind]. eexists. split; [reflexivity|]. apply Hend; try done. by destruct v2.
Qed.

(** ** The step relation *)

Record sys : Type := mkSys { mach : DTVM HS; active : list (Call * Z) }.

(** The host enters and leaves calls; an embedder may set options. *)
Inductive vm_step : sys -> sys -> Prop :=
| vm_enter Host Rev Msg Code h v act call Cache s v' :
    request v act Rev Msg Code -> enterCall Host Rev Msg Code h v = Some (Entered call Cache s, v') ->
    vm_step (mkSys v act) (mkSys v' ((call, depth Msg) :: act))
| vm_refuse Host Rev Msg Code h v act r v' :
    request v act Rev Msg Code -> enterCall Host Rev Msg Code h v = Some (Refused r, v') ->
    vm_step (mkSys v act) (mkSys v' act)
| vm_leave v call d act c r v' :
    result_ok v call c -> leaveCall call c v = Some (r, v') ->
    vm_step (mkSys v ((call, d) :: act)) (mkSys v' act)
| vm_option Name Value v act :
    vm_step (mkSys v act) (mkSys (set_option Name Value v).2 act).

Definition sys_inv (S : sys) : Prop := vm_inv (mach S) /\ active_inv (mach S) (active S).

Lemma set_option_same Name Value v :
  exists cfg, (set_option Name Value v).2 = set_Config cfg v.
Proof. unfold set_option. destruct (set_option_config _ _ _) as [r cfg]. by exists cfg. Qed.

Lemma step_safe S S' : vm_step S S' -> sys_inv S -> sys_inv S' /\ same_code (mach S) (mach S').
Proof.
  intros Hstep [Hv Ha]. destruct Hstep as [Host Rev Msg Code h v act call Cache s v' Hr He
    |Host Rev Msg Code h v act r v' Hr He|v call d act c r v' Hok Hl|Name Value v act]; cbn [mach active] in *.
  - destruct (enterCall_safe Host Rev Msg Code h v act Hv Ha Hr) as (e & v1 & He1 & [Hi _ Hs _ Hc]).
    rewrite He in He1. injection He1 as <- <-. split; [split; [done|apply Hc]|done].
  - destruct (enterCall_safe Host Rev Msg Code h v act Hv Ha Hr) as (e & v1 & He1 & [Hi _ Hs _ Hc]).
    rewrite He in He1. injection He1 as <- <-. split; [split; [done|apply Hc]|done].
  - destruct (leaveCall_safe v call d act c Hv Ha Hok) as (v1 & Hl1 & Hv1 & Ha1 & _ & Hs & _).
    rewrite Hl in Hl1. injection Hl1 as _ <-. done.
  - destruct (set_option_same Name Value v) as [cfg ->]. split; [split|by apply same_code_sub]; cbn [mach active].
    + destruct Hv. by split.
    + destruct Ha. split; try done. eapply Forall_impl; [done|]. intros [call d] []. by split.
Qed.

Lemma steps_safe S S' :
  rtc vm_step S S' -> sys_inv S -> sys_inv S' /\ same_code (mach S) (mach S').
Proof.
  induction 1 as [S|S1 S2 S3 H12 _ IH]; intros HS1; [split; [done|by apply same_code_sub]|].
  destruct (step_safe S1 S2 H12 HS1) as [HS2 Hc]. destruct (IH HS2) as [HS3 Hc'].
  split; [done|by eapply same_code_trans].
Qed.

(** A step leaves the calls that go on alone. *)
Lemma step_undisturbed S S' :
  vm_step S S' -> sys_inv S -> forall p, p ∈ active S -> p ∈ active S' -> undisturbed (mach S) (mach S') p.1.
Proof.
  intros Hstep [Hv Ha] p Hp Hp'. destruct Hstep as [Host Rev Msg Code h v act call Cache s v' Hr He
    |Host Rev Msg Code h v act r v' Hr He|v call d act c r v' Hok Hl|Name Value v act]; cbn [mach active] in *.
  - destruct (enterCall_safe Host Rev Msg Code h v act Hv Ha Hr) as (e & v1 & He1 & [_ _ _ Hu _]).
    rewrite He in He1. injection He1 as <- <-. rewrite Forall_forall in Hu. by apply Hu.
  - destruct (enterCall_safe Host Rev Msg Code h v act Hv Ha Hr) as (e & v1 & He1 & [_ _ _ Hu _]).
    rewrite He in He1. injection He1 as <- <-. rewrite Forall_forall in Hu. by apply Hu.
  - destruct (leaveCall_safe v call d act c Hv Ha Hok) as (v1 & Hl1 & _ & _ & _ & _ & _ & _ & Hu).
    rewrite Hl in Hl1. injection Hl1 as _ <-. rewrite Forall_forall in Hu. by apply Hu.
  - by destruct (set_option_same Name Value v) as [cfg ->].
Qed.

(** A step during which the calls [act] stay in progress. *)
Definition within act S S' : Prop :=
  vm_step S S' /\ act `suffix_of` active S /\ act `suffix_of` active S'.

Lemma within_undisturbed act S S' :
  rtc (within act) S S' -> sys_inv S -> Forall (fun p => undisturbed (mach S) (mach S') p.1) act.
Proof.
  induction 1 as [S|S1 S2 S3 (H12 & [l1 E1] & [l2 E2]) _ IH]; intros HS1; [by apply Forall_forall|].
  eapply undisturbed_all, IH; [|by eapply step_safe]. apply Forall_forall. intros p Hp.
  apply (step_undisturbed S1 S2 H12 HS1); rewrite ?E1, ?E2; apply elem_of_app; by right.
Qed.

Definition init_sys (getenv : string -> option string) : sys := mkSys (DTVM_new getenv) [].

Lemma init_inv getenv : sys_inv (init_sys getenv).
Proof.
  set (v := DTVM_new (HS := HS) getenv).
  assert (AddrCache v = ∅) as EA by done. assert (Modules v = ∅) as EM by done.
  assert (forall s, getInst s v = None) as EI by (by intros []).
  assert (forall s, getCtx_ s v = None) as EX by (by intros []).
  split; change (mach (init_sys getenv)) with v; [|change (active (init_sys getenv)) with (@nil (Call * Z))].
  - split; rewrite ?EA, ?EM; try (intros *; rewrite ?lookup_empty, ?EI, ?EX; done).
    + constructor.
    + intros k. rewrite lookup_empty. split; [by intros ?%elem_of_nil|by intros []].
  - split; [constructor..|]. intros x. rewrite EM, lookup_empty. by intros [].
Qed.

Lemma reachable_inv getenv S : rtc vm_step (init_sys getenv) S -> sys_inv S.
Proof. intros Hr. by apply (steps_safe _ _ Hr), init_inv. Qed.
End Enter.
