(* ===== verification/EvmcVmTheorems.v ===== *)
(** The theorems about the EVMC machine: its calls do not disturb each other,
    entering one is always defined, nothing is leaked, [execute] returns what
    the instruction-by-instruction semantics gives on a fresh frame; and two
    places where it does not do what it means to. *)

From S2P Require Import Prelude Intx Evmc GasStorageCost EvmInstance Frame HandlerUtil.
From S2P Require Import BytecodeCache SppGraph Spp Interpreter WellFormed Concrete RefInterp ChunkTable.
From S2P Require Import InterpretTheorems InstanceSpecs EvmcVm EvmcVmSafety.

#[local] Open Scope Z_scope.

Section Lemmas.
Context {HS : Type} {I : Intx} {V : Evmc} {IL : IntxLaws I} {VL : EvmcLaws V}.
Implicit Types (v : DTVM HS) (S : sys (HS := HS)).

Lemma unloadAll_run ms rt :
  NoDup ms -> (forall m, m ∈ ms -> is_Some (EVMModulePool rt !! m)) ->
  exists rt', unloadAll ms rt = Some rt' /\
    forall m, is_Some (EVMModulePool rt' !! m) <-> is_Some (EVMModulePool rt !! m) /\ m ∉ ms.
Proof.
  unfold unloadAll. revert rt. induction ms as [|m ms IH]; intros rt Hnd Hall.
  { exists rt. split; [done|]. intros m. split; [|by intros []]. intros ?. split; [done|]. apply not_elem_of_nil. }
  apply NoDup_cons in Hnd as [Hm Hnd]. cbn [foldl mbind option_bind].
  destruct (Hall m ltac:(by left)) as [mo Hmo]. 
  set (rt1 := mkRuntime (RTConfig rt) (delete m (EVMModulePool rt))).
  assert (unloadEVMModule m rt = Some rt1) as -> by (unfold unloadEVMModule; by rewrite Hmo).
  assert (forall x, is_Some (EVMModulePool rt1 !! x) <-> m <> x /\ is_Some (EVMModulePool rt !! x)) as H1.
  { intros x. apply lookup_delete_is_Some. }
  destruct (IH rt1 Hnd) as (rt' & -> & Hrt').
  { intros x Hx. apply H1. split; [|apply Hall; by right]. by intros <-. }
  exists rt'. split; [done|]. intros x. rewrite Hrt', H1, not_elem_of_cons. intuition congruence.
Qed.

(** The interpreter starts from a well-formed state. *)
Lemma fresh_started Rev Msg Code (h : HS) (s : hstate HS) Cache :
  msg_ok Msg -> Forall is_byte Code -> Z.of_nat (length Code) <= PresetMaxModuleSize ->
  fresh_call Rev Msg Code h Rev s Cache -> started Cache (fr s) (cx s).
Proof.
  intros [Hg Hi Hz Hr Hs Hv] HC Hl [(st & Ef & Hlen & Hst) (Hb & Hsp & Hs' & Hd & Hh) (Hc & Hgr & Hrev) Hcache].
  split; [|by rewrite Hc, Hrev].
  split; unfold start; cbn [fr cx].
  - rewrite Ef. split; cbn; try done; try lia. apply tx_zero_ok.
  - split; cbn; try done; rewrite ?Hd; try done; rewrite Hc; [done|]. unfold PresetMaxModuleSize in Hl. lia.
Qed.

(** The gas and the rest of the result are those of the context. *)
Lemma result_eta (s : hstate HS) c :
  wf_frame (fr s) -> failed s c \/ ended s c ->
  mkResult (status_code (ExeResult c)) (i64 (Gas (Inst c))) (gas_refund (ExeResult c))
    (output_data (ExeResult c)) (create_address (ExeResult c)) = ExeResult c.
Proof.
  intros Hw He. pose proof (wf_gas _ Hw). assert (i64 (Gas (Inst c)) = gas_left (ExeResult c)) as ->.
  { destruct He as [[]|[]].
    - by rewrite failed_inst, failed_gas.
    - assert (Gas (Inst c) = gas_left (ExeResult c)) as -> by (by injection ended_inst).
      apply i64_small. lia. }
  by destruct (ExeResult c).
Qed.

Lemma ended_code (s : hstate HS) c :
  failed s c \/ ended s c -> ModCode (Inst c) = ModCode (Inst (cx s)) /\ below c = [] /\
  (Forall frame_object (spare (cx s)) -> Forall frame_object (spare c)).
Proof.
  intros [[]|[]].
  - by rewrite failed_inst.
  - by split; [injection ended_inst|].
Qed.
End Lemmas.

(** * Properties *)

Section Claims.
Context {HS : Type} {I : Intx} {V : Evmc} {IL : IntxLaws I} {VL : EvmcLaws V}.

(** The module cache of [v]: the recency list and the map have the same keys,
    an entry has a loaded module of its revision, and a loaded module has an
    entry or is the transient module of a call of [act]. *)
Definition consistent (v : DTVM HS) (act : list (Call * Z)) : Prop :=
  NoDup (LRUOrder v) /\ (forall k, k ∈ LRUOrder v <-> is_Some (AddrCache v !! k)) /\
  (forall k m, AddrCache v !! k = Some m -> exists mo, Modules v !! m = Some mo /\ MRevision mo = KRev k) /\
  (forall m, is_Some (Modules v !! m) -> (exists k, AddrCache v !! k = Some m) \/
    exists call d, (call, d) ∈ act /\ cTransient call = true /\ cMod call = m).

Lemma inv_consistent v act : vm_inv v -> active_inv v act -> consistent v act.
Proof.
  intros Hv Ha. split_and!; [apply Hv..| |apply Ha]. intros k m Hk.
  by destruct (vi_entry _ Hv k m Hk) as (_ & ?).
Qed.

(** C32. Calls in progress do not disturb each other.  In every state the
    machine can reach by entering and leaving calls, each call in progress has
    its module still loaded, its instance and its context hold that module's
    code, and no two calls share an instance or a context.  While the calls
    [act] stay in progress, no step (calls nested in them entered, refused or
    left, options set) changes the contents of their instances or contexts or
    the code of their modules.  A call is entered deeper than those in
    progress; its code is that of the cached module of its address and
    revision, or differs in the bytes [validateCodeMatch] compares, and then no
    call in progress runs that module (a stale module is unloaded without
    asking whether it is in use). *)
Theorem calls_isolated getenv (S : sys) :
  rtc vm_step (init_sys getenv) S ->
  let v : DTVM HS := mach S in
  Forall (fun p => exists mo o c, Modules v !! cMod p.1 = Some mo /\
    getInst (cInst p.1) v = Some o /\ getModule o = cMod p.1 /\ ModCode (obj o) = MCode mo /\
    getCtx_ (cCtx p.1) v = Some c /\ ModCode (Inst c) = MCode mo) (active S) /\
  NoDup (map (fun p => cInst p.1) (active S)) /\ NoDup (map (fun p => cCtx p.1) (active S)) /\
  forall act S', rtc (within act) S S' -> Forall (fun p =>
    getInst (cInst p.1) (mach S') = getInst (cInst p.1) v /\
    getCtx_ (cCtx p.1) (mach S') = getCtx_ (cCtx p.1) v /\
    MCode <$> Modules (mach S') !! cMod p.1 = MCode <$> Modules v !! cMod p.1) act.
Proof.
  intros HS0%reachable_inv v. pose proof HS0 as [Hv Ha]. split_and!; [|apply Ha|by eapply contexts_distinct|].
  - eapply Forall_impl; [apply Ha|]. intros p [_ [mo Hmo] (o & Ho & Eo) _ _ (c & Hc & Ec) _].
    exists mo, o, c. rewrite Hmo in Ec. injection Ec as Ec. split_and!; try done.
    eapply (vi_inst _ Hv); [done|by rewrite Eo].
  - intros act S' Hw. eapply Forall_impl; [exact (within_undisturbed act S S' Hw HS0)|]. by intros p [].
Qed.

(** C33. Entering and leaving calls is always defined.  From a reachable state,
    a call deeper than those in progress gets an instance and a context that no
    call in progress has, and a fresh frame on exactly the code the host passed
    and the bytecode cache built from it, whether its module was cached,
    loaded, reloaded over a stale entry or transient; only code above the size
    limit is refused.  After any steps that bring the machine back to this
    call, leaving it with what the interpreter may return is defined too.  In
    all these states the module cache is consistent, and at the end the host
    context is the one before the call.  Where the cache has a module
    for the address and revision of the call, the code must be that module's
    or differ in the bytes [validateCodeMatch] compares, and then no
    call in progress may run it. *)
Theorem enter_defined getenv (S : sys) Host Rev Msg Code (h : HS) :
  rtc vm_step (init_sys getenv) S -> request (mach S) (active S) Rev Msg Code ->
  exists e v', enterCall Host Rev Msg Code h (mach S) = Some (e, v') /\
    match e with
    | Refused r => status_code r = EVMC_FAILURE /\ PresetMaxModuleSize < Z.of_nat (length Code) /\
        consistent v' (active S) /\ ExecHost v' = ExecHost (mach S)
    | Entered call Cache s => let act := (call, depth Msg) :: active S in
        fresh_call (revision_of (mach S) Rev Msg) Msg Code h Rev s Cache /\
        Forall (fun p => cInst p.1 <> cInst call /\ cCtx p.1 <> cCtx call) (active S) /\
        consistent v' act /\
        forall v2 c, rtc vm_step (mkSys v' act) (mkSys v2 act) -> result_ok v2 call c ->
          exists r v3, leaveCall call c v2 = Some (r, v3) /\ consistent v3 (active S) /\
            ExecHost v3 = ExecHost (mach S)
    end.
Proof.
  intros [Hv Ha]%reachable_inv Hr.
  destruct (enterCall_safe Host Rev Msg Code h _ _ Hv Ha Hr) as (e & v' & He & [Hv' _ _ _ Hc]).
  exists e, v'. split; [done|]. destruct e as [r|call Cache s].
  - destruct Hc as (-> & ? & ? & ?). split_and!; try done. by apply inv_consistent.
  - destruct Hc as (_ & Ha' & Hprev & Hf & _). split; [done|]. split; [|split; [by apply inv_consistent|]].
    + pose proof (ai_slots _ _ Ha') as Hs. pose proof (contexts_distinct _ _ Ha') as Hx. cbn [map fst] in Hs, Hx.
      apply NoDup_cons in Hs as [Hs _], Hx as [Hx _]. apply Forall_forall. intros p Hp.
      split; intros E; [apply Hs|apply Hx]; rewrite <- E; apply list_elem_of_fmap; by exists p.
    + intros v2 c Hn Hok. destruct (steps_safe _ _ Hn (conj Hv' Ha')) as [[Hv2 Ha2] _].
      destruct (leaveCall_safe _ _ _ _ _ Hv2 Ha2 Hok) as (v3 & Hl & Hv3 & Ha3 & Hh & _).
      eexists _, v3. split_and!; [done|by apply inv_consistent|congruence].
Qed.

(** Nothing is leaked: when no call is in progress, destroying the
    machine unloads every module that was ever loaded. *)
Theorem destroy_unloads_all getenv (S : sys) :
  rtc vm_step (init_sys getenv) S -> active S = [] ->
  exists rt, destroy (mach S : DTVM HS) = Some rt /\
    match rt with None => RT (mach S) = None | Some r => EVMModulePool r = ∅ end.
Proof.
  intros [Hv Ha]%reachable_inv Hact. unfold destroy. destruct (RT (mach S)) as [rt|] eqn:Ert; [|by eexists].
  assert (EVMModulePool rt = Modules (mach S)) as Ep by (unfold Modules; by rewrite Ert).
  destruct (unloadAll_run (map_to_list (AddrCache (mach S))).*2 rt) as (rt' & -> & Hrt').
  - apply NoDup_fmap_2_strong; [|apply NoDup_map_to_list].
    intros [k m] [k' m'] Hk%elem_of_map_to_list Hk'%elem_of_map_to_list [= <-].
    by rewrite (vi_inj _ Hv k k' m).
  - intros m ([k m'] & -> & Hk%elem_of_map_to_list)%list_elem_of_fmap. rewrite Ep.
    destruct (vi_entry _ Hv k m' Hk) as (_ & mo & Hmo & _). by exists mo.
  - eexists. split; [reflexivity|]. apply map_empty. intros m. apply eq_None_not_Some.
    intros [Hm Hout]%Hrt'. rewrite Ep in Hm. destruct (ai_pool _ _ Ha m Hm) as [[k Hk]|(? & ? & Hin & _)].
    + apply Hout, list_elem_of_fmap. exists (k, m). split; [done|]. by apply elem_of_map_to_list.
    + rewrite Hact in Hin. by apply elem_of_nil in Hin.
Qed.
End Claims.

Section Execute.
Context {HS : Type} {I : Intx} {H : EvmcHost HS} {V : Evmc}.
Context {IL : IntxLaws I} {HL : HostLaws HS H} {VL : EvmcLaws V}.

(** What the interpreter leaves is what [leaveCall] expects, even after the
    host has called back into the machine. *)
Lemma interpreted_ok (v1 v2 : DTVM HS) call d act (s : hstate HS) Rev Msg Code h Cache c :
  vm_inv v1 -> active_inv v1 ((call, d) :: act) ->
  vm_inv v2 -> active_inv v2 ((call, d) :: act) -> same_code v1 v2 ->
  fresh_call Rev Msg Code h Rev s Cache ->
  MCode <$> Modules v1 !! cMod call = Some Code ->
  failed (start (fr s) (cx s)) c \/ ended (start (fr s) (cx s)) c -> result_ok v2 call c.
Proof.
  intros Hv1 Ha1 Hv2 Ha2 [_ Hsame] Hf Hcode He. destruct (ended_code _ _ He) as (Ec & Eb & Hob).
  split.
  - rewrite Eb. apply Hob. by destruct (fc_ctx _ _ _ _ _ _ _ Hf) as (_ & ? & _).
  - intros mo2 Hmo2. rewrite Ec. cbn [start cx set_Status Inst].
    destruct (fc_inst _ _ _ _ _ _ _ Hf) as [-> _].
    assert (call_inv v1 call d) as Hc by (eapply call_in; [exact Ha1|by left]).
    destruct (Hsame _ _ (vi_loaded_num _ Hv1 _ (ci_loaded _ _ _ Hc)) Hmo2) as (mo1 & Hmo1 & ->).
    rewrite Hmo1 in Hcode. by injection Hcode.
Qed.

(** C35. [execute] in interpreter mode is correct, whatever the machine has
    cached, whatever calls are in progress and whatever calls the host makes
    back into it: it returns the result of charging and executing one
    instruction after the other, from a fresh frame with the message, the
    code and the revision it was given (or both fail exceptionally); it ends
    within fuel bounded by gas and code size, restores the host context, and
    its effect on the machine is a run of the step relation from the state it
    was called in, so all this holds again afterwards.  A top-level call needs
    the main instance to be there, or to ask for the default revision; the
    code must be within the size limit and, where the cache has a module for
    its address and revision, be that module's or differ in the bytes
    [validateCodeMatch] compares, and then no call in progress runs it; what
    the host does in between must itself be a run of the step relation. *)
Theorem execute_refines_steps getenv (S : sys) compiled R fuel nested Host Rev Msg Code (h : HS) MT :
  rtc vm_step (init_sys getenv) S -> request (mach S) (active S) Rev Msg Code ->
  Mode (Config (mach S)) = InterpMode -> revision_of (mach S) Rev Msg = Rev ->
  msg_ok Msg -> Z.of_nat (length Code) <= PresetMaxModuleSize -> metrics_table Rev = Some MT ->
  (Z.to_nat (gas Msg) * (length Code + 1) + length Code <= fuel)%nat ->
  (forall call Cache s v1, enterCall Host Rev Msg Code h (mach S) = Some (Entered call Cache s, v1) ->
    rtc vm_step (mkSys v1 ((call, depth Msg) :: active S))
      (mkSys (nested v1) ((call, depth Msg) :: active S))) ->
  exists Cache s c1 o c2 v',
    execute compiled R fuel nested Host Rev Msg Code h (mach S) = VReturn (ExeResult c1) (hst c1) v' /\
    fresh_call Rev Msg Code h Rev s Cache /\
    spec_run MT Cache (fr s) (cx s) o /\ finish o = IReturn c2 /\
    same_result (start (fr s) (cx s)) c1 c2 /\
    rtc vm_step S (mkSys v' (active S)) /\ ExecHost v' = ExecHost (mach S).
Proof.
  intros Hr Hq Hmode Hrev Hmsg Hl Hmt Hfuel Hnest. pose proof (reachable_inv _ _ Hr) as [Hv Ha].
  destruct (enterCall_safe Host Rev Msg Code h _ _ Hv Ha Hq) as (e & v1 & He & [Hv1 _ _ _ Hc]).
  destruct e as [r|call Cache s]; [destruct Hc as (_ & ? & _); lia|].
  destruct Hc as (_ & Ha1 & Hprev & Hf & Hmod). rewrite Hrev in Hf.
  pose proof (fresh_started Rev Msg Code h s Cache Hmsg (rq_bytes _ _ _ _ _ Hq) Hl Hf) as Hst.
  destruct (fc_frame _ _ _ _ _ _ _ Hf) as (st & Ef & _). destruct (fc_inst _ _ _ _ _ _ _ Hf) as (Ec & _ & Er).
  destruct (interpret_sim R MT Cache (fr s) (cx s) fuel Hst) as (c1 & o & c2 & Hi & Hs & Hfin & Hsame & Hend).
  { by rewrite Er. }
  { unfold fuel_bound, start. rewrite Ec, Ef. cbn. lia. }
  pose proof (Hnest _ _ _ _ He) as Hn. destruct (steps_safe _ _ Hn (conj Hv1 Ha1)) as [[Hv2 Ha2] Hsc].
  cbn [mach active] in Hv2, Ha2, Hsc.
  pose proof (failed_or_ended _ _ _ Hsame Hend) as Hend1.
  assert (result_ok (nested v1) call c1) as Hok.
  { exact (interpreted_ok v1 _ call _ _ s Rev Msg Code h Cache c1 Hv1 Ha1 Hv2 Ha2 Hsc Hf Hmod Hend1). }
  destruct (leaveCall_safe _ _ _ _ _ Hv2 Ha2 Hok) as (v' & Hlv & _ & _ & Hh & _).
  exists Cache, s, c1, o, c2, v'. split_and!; try done.
  - unfold execute, executeInterpreterFastPath. rewrite Hmode, He, Hi, Hlv.
    by rewrite (result_eta _ _ (proj1 (started_wf _ _ _ Hst)) Hend1).
  - apply rtc_l with (mkSys v1 ((call, depth Msg) :: active S)).
    + destruct S as [v0 act]. exact (vm_enter Host Rev Msg Code h v0 act call Cache s v1 Hq He).
    + eapply rtc_r; [exact Hn|]. by eapply vm_leave.
  - congruence.
Qed.
End Execute.

(** * Where the machine falls short *)

Section Findings.
Context {HS : Type} {I : Intx} {V : Evmc} {IL : IntxLaws I} {VL : EvmcLaws V}.

(** C36. The first top-level call ignores the revision it is given: as long
    as the machine has no main instance, the one it creates runs under the
    default revision, whatever [Rev] is. *)
Theorem first_call_ignores_revision getenv (S : sys) Host Rev Msg Code (h : HS) :
  rtc vm_step (init_sys getenv) S -> request (mach S) (active S) Rev Msg Code ->
  CachedMainInst (mach S) = None -> depth Msg = 0 -> Z.of_nat (length Code) <= PresetMaxModuleSize ->
  exists call Cache s v', enterCall Host Rev Msg Code h (mach S) = Some (Entered call Cache s, v') /\
    EvmInstance.Rev (Inst (cx s)) = DEFAULT_REVISION.
Proof.
  intros [Hv Ha]%reachable_inv Hq Hm Hd Hl.
  destruct (enterCall_safe Host Rev Msg Code h _ _ Hv Ha Hq) as (e & v' & He & [_ _ _ _ Hc]).
  destruct e as [r|call Cache s]; [destruct Hc as (_ & ? & _); lia|].
  destruct Hc as (_ & _ & _ & Hf & _). exists call, Cache, s, v'. split; [done|].
  destruct (fc_inst _ _ _ _ _ _ _ Hf) as (_ & _ & ->). unfold revision_of. by rewrite Hm, Hd.
Qed.

Lemma evictLoop_stops fuel (v : DTVM HS) k m :
  last (LRUOrder v) = Some k -> AddrCache v !! k = Some m -> isModuleInUse m v = true ->
  (0 < fuel)%nat -> evictLoop fuel v = Some v.
Proof.
  intros Hl Hk Hu Hf. destruct fuel as [|fuel]; [lia|]. cbn [evictLoop].
  destruct (_ <? _)%nat; [done|]. by rewrite Hl, Hk, Hu.
Qed.

(** The bound of the module cache does not hold: while an instance, be
    it idle, holds the least recently used module, a miss evicts nothing and
    adds its module, however many there are; and that module stays the least
    recently used, so the next miss does the same. *)
Theorem pinned_module_stops_eviction (v : DTVM HS) k0 m0 k Code :
  vm_inv v -> RT v <> None -> last (LRUOrder v) = Some k0 -> AddrCache v !! k0 = Some m0 ->
  isModuleInUse m0 v = true -> AddrCache v !! k = None ->
  Z.of_nat (length Code) <= PresetMaxModuleSize ->
  exists m v', loadCached k Code v = Some (Some m, v') /\
    size (AddrCache v') = Datatypes.S (size (AddrCache v)) /\
    last (LRUOrder v') = Some k0 /\ AddrCache v' !! k0 = Some m0 /\ isModuleInUse m0 v' = true.
Proof.
  intros Hv Hrt Hl Hk0 Hu Hk Hsize. unfold loadCached.
  rewrite (evictLoop_stops _ v k0 m0) by (done || by destruct (LRUOrder v); cbn; [|lia]).
  cbn [mbind option_bind]. pose proof (fresh_name v (mod_ (ModCounter v)) Hv eq_refl) as Hn.
  rewrite (load_run (set_ModCounter _ v)) by done. rewrite (proj2 (Z.ltb_ge _ _)) by done.
  cbn [mbind option_bind]. eexists _, _. split; [reflexivity|]. cbn [AddrCache LRUOrder set_Cache with_modules set_RT set_ModCounter].
  split_and!.
  - by apply map_size_insert_None.
  - rewrite last_cons, Hl. done.
  - rewrite lookup_insert_ne by congruence. done.
  - done.
Qed.
End Findings.

(** * Witnesses *)

Definition interp_env_vars (n : string) : option string :=
  if bool_decide (n = "DTVM_EVM_MODE") then Some "interpreter" else None.

Definition vm0 : DTVM null_host := DTVM_new interp_env_vars.

(** The code of every account of the examples: PUSH0, STOP. *)
Definition push0_code : list Z := [0x5f; 0x00].

(** A machine without compiled code. *)
Definition no_compiled : HostRef -> evmc_revision -> evmc_message -> list Z -> null_host ->
    DTVM null_host -> vm_out null_host :=
  fun _ _ _ _ h v => VReturn failure h v.

Definition call_msg (addr : Z) (d g : Z) : evmc_message :=
  mkMsg EVMC_CALL 0 d g zero20 zero20 [] zero32 zero32 (replicate 19 0 ++ [addr]) [].

Lemma call_msg_ok a d g : 0 <= g < 2 ^ 63 -> msg_ok (call_msg a d g).
Proof. intros. split; try done; try apply zeros_bytes. Qed.

Lemma call_request (v : DTVM null_host) act a d Rev Code :
  Mode (Config v) = InterpMode -> 0 <= d <= 1024 -> Forall (fun p => p.2 < d) act ->
  ModCounter v + 1 < 2 ^ 64 -> forallb (fun b => (0 <=? b) && (b <? 256)) Code = true ->
  match AddrCache v !! mkKey (replicate 19 0 ++ [a]) Rev with
  | Some m => match Modules v !! m with
      | Some mo => if validateCodeMatch Code mo then bool_decide (MCode mo = Code)
                   else negb (existsb (fun p => bool_decide (cMod p.1 = m)) act)
      | None => true
      end
  | None => true
  end = true ->
  request v act Rev (call_msg a d 100) Code.
Proof.
  intros Hmode Hd Hn Hc Hb Hk. split; try done; [by right| |].
  - apply Forall_forall. intros b Hin%list_elem_of_In. eapply forallb_forall in Hb; [|done]. unfold is_byte. lia.
  - intros _ m mo Hm Hmo. cbn [code_address call_msg] in Hm. rewrite Hm, Hmo in Hk.
    destruct (validateCodeMatch Code mo); [by apply bool_decide_eq_true in Hk|].
    intros (p & -> & Hp)%list_elem_of_fmap. apply negb_true_iff in Hk.
    assert (existsb (fun q => bool_decide (cMod q.1 = cMod p.1)) act = true) as E; [|congruence].
    apply existsb_exists. exists p. split; [by apply list_elem_of_In|by apply bool_decide_eq_true].
Qed.

(** The same call twice: under London PUSH0 is undefined, and only the second
    call says so. *)
Definition call_once (v : DTVM null_host) : vm_out null_host :=
  execute no_compiled Portable 1000 id (1, 1) EVMC_LONDON (call_msg 7 0 100) push0_code [] v.

Example second_call_differs :
  match call_once vm0 with
  | VReturn r1 _ v1 =>
      match call_once v1 with
      | VReturn r2 _ _ => (status_code r1, status_code r2) = (EVMC_SUCCESS, EVMC_UNDEFINED_INSTRUCTION)
      | _ => False
      end
  | _ => False
  end.
Proof. vm_compute. reflexivity. Qed.

(** A top-level call to account 7, in it a call to account 8; and the machine
    after the first one alone was left again. *)
Definition e1 : option (entered null_host * DTVM null_host) :=
  enterCall (1, 1) EVMC_CANCUN (call_msg 7 0 100) push0_code [] vm0.
Definition machine_of (e : option (entered null_host * DTVM null_host)) : DTVM null_host :=
  match e with Some (_, v) => v | None => vm0 end.
Definition call_of (e : option (entered null_host * DTVM null_host)) : Call :=
  match e with Some (Entered c _ _, _) => c | _ => mkCall (0, 0) (mod_ 0) false SMain CMain end.
Definition context_of (e : option (entered null_host * DTVM null_host)) : Context_ null_host :=
  match e with Some (Entered _ _ s, _) => cx s | _ => sample_ctx [] EVMC_CANCUN end.
Definition is_entered (e : option (entered null_host * DTVM null_host)) : bool :=
  match e with Some (Entered _ _ _, _) => true | _ => false end.

Definition sys1 : sys := mkSys (machine_of e1) [(call_of e1, 0)].
Definition e2 : option (entered null_host * DTVM null_host) :=
  enterCall (2, 2) EVMC_CANCUN (call_msg 8 1 100) push0_code [] (machine_of e1).
Definition sys2 : sys := mkSys (machine_of e2) [(call_of e2, 1); (call_of e1, 0)].
Definition left1 : option (evmc_result * DTVM null_host) :=
  leaveCall (call_of e1) (context_of e1) (machine_of e1).
Definition sys3 : sys := mkSys (match left1 with Some (_, v) => v | None => vm0 end) [].

Definition left2 : option (evmc_result * DTVM null_host) :=
  leaveCall (call_of e2) (context_of e2) (machine_of e2).
Definition sys4 : sys := mkSys (match left2 with Some (_, v) => v | None => vm0 end) [(call_of e1, 0)].

Lemma entered_step Host Rev a d v act :
  request v act Rev (call_msg a d 100) push0_code ->
  let e := enterCall Host Rev (call_msg a d 100) push0_code [] v in
  is_entered e = true ->
  vm_step (mkSys v act) (mkSys (machine_of e) ((call_of e, d) :: act)).
Proof.
  intros Hq e He. destruct e as [[[r|call Cache s] v']|] eqn:E; try done.
  exact (vm_enter Host Rev (call_msg a d 100) push0_code [] v act call Cache s v' Hq E).
Qed.

(** Solves the conditions of a request in a concrete machine. *)
Ltac asks := apply call_request; [by vm_compute|lia|repeat constructor; cbn; lia|by vm_compute..].

Lemma sys1_reachable : rtc vm_step (init_sys interp_env_vars) sys1.
Proof. apply rtc_once, (entered_step (1, 1) EVMC_CANCUN 7 0 vm0 []); [asks|by vm_compute]. Qed.

Lemma sys2_step : vm_step sys1 sys2.
Proof.
  apply (entered_step (2, 2) EVMC_CANCUN 8 1 (machine_of e1) [(call_of e1, 0)]); [asks|by vm_compute].
Qed.

Lemma sys2_reachable : rtc vm_step (init_sys interp_env_vars) sys2.
Proof. eapply rtc_r; [exact sys1_reachable|exact sys2_step]. Qed.

Lemma left_ok (v : DTVM null_host) call (c : Context_ null_host) :
  below c ++ spare c = [] -> MCode <$> Modules v !! cMod call = Some (ModCode (Inst c)) ->
  result_ok v call c.
Proof. intros Hb Hc. split; [rewrite Hb; constructor|]. intros mo Hmo. rewrite Hmo in Hc. by injection Hc. Qed.

Lemma left_step v call d act (c : Context_ null_host) :
  result_ok v call c -> bool_decide (is_Some (leaveCall call c v)) = true ->
  vm_step (mkSys v ((call, d) :: act))
    (mkSys (match leaveCall call c v with Some (_, v) => v | None => vm0 end) act).
Proof.
  intros Hok [[r v'] E]%bool_decide_eq_true. rewrite E. exact (vm_leave v call d act c r v' Hok E).
Qed.

Lemma sys3_reachable : rtc vm_step (init_sys interp_env_vars) sys3.
Proof.
  eapply rtc_r; [exact sys1_reachable|].
  apply (left_step (machine_of e1) (call_of e1) 0 [] (context_of e1)); [apply left_ok|]; by vm_compute.
Qed.

Lemma sys4_step : vm_step sys2 sys4.
Proof.
  apply (left_step (machine_of e2) (call_of e2) 1 [(call_of e1, 0)] (context_of e2)); [apply left_ok|];
    by vm_compute.
Qed.

Lemma sys4_reachable : rtc vm_step (init_sys interp_env_vars) sys4.
Proof. eapply rtc_r; [exact sys2_reachable|exact sys4_step]. Qed.

(** Two nested calls; and the inner one entered and left, which leaves the outer
    one's context alone. *)
Lemma calls_isolated_witness :
  (length (active sys2) = 2%nat /\
   NoDup (map (fun p => cInst p.1) (active sys2)) /\ NoDup (map (fun p => cCtx p.1) (active sys2))) /\
  getCtx_ (cCtx (call_of e1)) (mach sys4) = getCtx_ (cCtx (call_of e1)) (mach sys1).
Proof.
  split.
  - pose proof (calls_isolated interp_env_vars sys2 sys2_reachable) as (_ & H1 & H2 & _). by split_and!.
  - pose proof (calls_isolated interp_env_vars sys1 sys1_reachable) as (_ & _ & _ & H).
    assert (rtc (within (active sys1)) sys1 sys4) as Hw.
    { eapply rtc_l; [|apply rtc_once]; (split; [exact sys2_step || exact sys4_step|split]);
        [by exists []|by exists [(call_of e2, 1)]|by exists [(call_of e2, 1)]|by exists []]. }
    specialize (H (active sys1) sys4 Hw). apply Forall_inv in H. by destruct H as (_ & ? & _).
Defined.

(** The account of the inner call, asked for again with new code: its module is
    stale and is replaced. *)
Definition stop_code : list Z := [0x00].

Lemma enter_defined_witness :
  exists e v', enterCall (3, 3) EVMC_CANCUN (call_msg 8 1 100) stop_code [] (mach sys4) = Some (e, v') /\
    match e with
    | Refused r => status_code r = EVMC_FAILURE /\ PresetMaxModuleSize < Z.of_nat (length stop_code) /\
        consistent v' (active sys4) /\ ExecHost v' = ExecHost (mach sys4)
    | Entered call Cache s => let act := (call, 1) :: active sys4 in
        fresh_call (revision_of (mach sys4) EVMC_CANCUN (call_msg 8 1 100)) (call_msg 8 1 100)
          stop_code [] EVMC_CANCUN s Cache /\
        Forall (fun p => cInst p.1 <> cInst call /\ cCtx p.1 <> cCtx call) (active sys4) /\
        consistent v' act /\
        forall v2 c, rtc vm_step (mkSys v' act) (mkSys v2 act) -> result_ok v2 call c ->
          exists r v3, leaveCall call c v2 = Some (r, v3) /\ consistent v3 (active sys4) /\
            ExecHost v3 = ExecHost (mach sys4)
    end.
Proof.
  refine (enter_defined interp_env_vars sys4 (3, 3) EVMC_CANCUN (call_msg 8 1 100) stop_code [] sys4_reachable _).
  asks.
Defined.

(** Where the condition on stale modules fails: the outer call's account, asked
    for with new code while that call is in progress, has its module unloaded. *)
Example stale_eviction_unloads_active :
  match enterCall (3, 3) EVMC_CANCUN (call_msg 7 1 100) stop_code [] (mach sys1) with
  | Some (Entered _ _ _, v') => Modules v' !! cMod (call_of e1) = None
  | _ => False
  end.
Proof. by vm_compute. Qed.

Lemma destroy_unloads_all_witness :
  size (Modules (mach sys3)) = 1%nat /\
  exists rt, destroy (mach sys3) = Some rt /\
    match rt with None => RT (mach sys3) = None | Some r => EVMModulePool r = ∅ end.
Proof.
  split; [by vm_compute|].
  exact (destroy_unloads_all interp_env_vars sys3 sys3_reachable eq_refl).
Defined.

Lemma execute_refines_steps_witness :
  exists Cache s c1 o c2 v',
    execute no_compiled Cgoto 500 id (1, 1) EVMC_CANCUN (call_msg 7 0 100) push0_code [] vm0
      = VReturn (ExeResult c1) (hst c1) v' /\
    fresh_call EVMC_CANCUN (call_msg 7 0 100) push0_code [] EVMC_CANCUN s Cache /\
    spec_run sample_metrics Cache (fr s) (cx s) o /\ finish o = IReturn c2 /\
    same_result (start (fr s) (cx s)) c1 c2 /\
    rtc vm_step (init_sys interp_env_vars) (mkSys v' []) /\ ExecHost v' = (0, 0).
Proof.
  refine (execute_refines_steps interp_env_vars (init_sys interp_env_vars) no_compiled Cgoto 500 id (1, 1)
            EVMC_CANCUN (call_msg 7 0 100) push0_code [] sample_metrics _ _ _ _ _ _ _ _ _).
  - done.
  - asks.
  - done.
  - done.
  - by apply call_msg_ok.
  - by vm_compute.
  - done.
  - vm_compute. lia.
  - done.
Defined.

Lemma first_call_ignores_revision_witness :
  exists call Cache s v',
    enterCall (1, 1) EVMC_LONDON (call_msg 7 0 100) push0_code [] vm0 = Some (Entered call Cache s, v') /\
    EvmInstance.Rev (Inst (cx s)) = EVMC_CANCUN.
Proof.
  refine (first_call_ignores_revision interp_env_vars (init_sys interp_env_vars) (1, 1)
            EVMC_LONDON (call_msg 7 0 100) push0_code [] _ _ _ _ _); try done.
  asks.
Defined.

Lemma pinned_module_stops_eviction_witness :
  exists m v', loadCached (mkKey [] EVMC_CANCUN) push0_code (mach sys3) = Some (Some m, v') /\
    size (AddrCache v') = Datatypes.S (size (AddrCache (mach sys3))) /\
    last (LRUOrder v') = Some (mkKey (replicate 19 0 ++ [7]) EVMC_CANCUN) /\
    AddrCache v' !! mkKey (replicate 19 0 ++ [7]) EVMC_CANCUN = Some (mod_ 0) /\
    isModuleInUse (mod_ 0) v' = true.
Proof.
  refine (pinned_module_stops_eviction (mach sys3) (mkKey (replicate 19 0 ++ [7]) EVMC_CANCUN)
            (mod_ 0) (mkKey [] EVMC_CANCUN) push0_code
            (proj1 (reachable_inv _ _ sys3_reachable)) _ _ _ _ _ _);
    vm_compute; (reflexivity || discriminate).
Defined.
