(* ===== verification/SppTheorems.v ===== *)
(** The control-flow graph of the gas blocks and the graph analyses: the
    graph is consistent, reachability is exact, the dominator sets are the
    dominance relation when nothing jumps to the entry; and two inputs on
    which an analysis does not compute what it is named after. *)

From S2P Require Import Prelude Intx Evmc GasStorageCost HandlerUtil BytecodeCache SppGraph Spp SppSets.
From S2P Require Import SppSets Concrete.

#[local] Open Scope Z_scope.

(** ** Consistent graphs *)

(** Successors and predecessors mirror each other and are blocks. *)
Record graph_ok (Blocks : list GasBlock) : Prop := {
  go_mirror : forall a b, b ∈ Succs (blockAt Blocks a) <-> a ∈ Preds (blockAt Blocks b);
  go_range : forall a b, b ∈ Succs (blockAt Blocks a) -> (b < length Blocks)%nat;
}.

Lemma blockAt_ge Blocks i : (length Blocks <= i)%nat -> blockAt Blocks i = emptyBlock.
Proof.
  intros Hi. unfold blockAt. rewrite list_lookup_total_alt, lookup_ge_None_2 by done. done.
Qed.

Lemma succ_lt Blocks a b : b ∈ Succs (blockAt Blocks a) -> (a < length Blocks)%nat.
Proof.
  intros Hb. destruct (Nat.lt_ge_cases a (length Blocks)) as [|Hge]; [done|].
  rewrite blockAt_ge in Hb by done. by apply elem_of_nil in Hb.
Qed.

Lemma blockAt_alter f Blocks i j :
  blockAt (alter f i Blocks) j =
  if (i =? j)%nat && (i <? length Blocks)%nat then f (blockAt Blocks j) else blockAt Blocks j.
Proof.
  unfold blockAt. rewrite !list_lookup_total_alt.
  destruct (Nat.eqb_spec i j) as [->|Hne]; cbn [andb].
  - rewrite list_lookup_alter_eq. destruct (Nat.ltb_spec j (length Blocks)) as [Hlt|Hge].
    + destruct (lookup_lt_is_Some_2 Blocks j Hlt) as [b ->]. done.
    + by rewrite lookup_ge_None_2.
  - by rewrite list_lookup_alter_ne.
Qed.

Lemma elem_add_once x y l : y ∈ add_once x l <-> y ∈ l \/ y = x.
Proof.
  unfold add_once. case_bool_decide as Hx.
  - split; [by left|]. intros [?| ->]; done.
  - rewrite elem_of_app, list_elem_of_singleton. done.
Qed.

Lemma length_alter_blocks f i (Blocks : list GasBlock) : length (alter f i Blocks) = length Blocks.
Proof. apply length_alter. Qed.

Lemma length_addEdge Blocks a b : length (addEdge Blocks a b) = length Blocks.
Proof. unfold addEdge. case_match; [done|]. by rewrite !length_alter_blocks. Qed.

(** What an edge adds. *)
Lemma addEdge_spec Blocks x y a b :
  (b ∈ Succs (blockAt (addEdge Blocks x y) a) <->
     b ∈ Succs (blockAt Blocks a) \/ a = x /\ b = y /\ (x < length Blocks /\ y < length Blocks)%nat) /\
  (a ∈ Preds (blockAt (addEdge Blocks x y) b) <->
     a ∈ Preds (blockAt Blocks b) \/ a = x /\ b = y /\ (x < length Blocks /\ y < length Blocks)%nat).
Proof.
  unfold addEdge. destruct (_ || _) eqn:E.
  { apply orb_true_iff in E as [E%Nat.leb_le|E%Nat.leb_le]; split; (split; [by left|]);
      intros [?|(_ & _ & ? & ?)]; try done; lia. }
  apply orb_false_iff in E as [Ex%Nat.leb_gt Ey%Nat.leb_gt].
  rewrite !blockAt_alter, !length_alter_blocks, (proj2 (Nat.ltb_lt x _)), (proj2 (Nat.ltb_lt y _)) by lia.
  rewrite !andb_true_r.
  destruct (Nat.eqb_spec y a), (Nat.eqb_spec x a), (Nat.eqb_spec y b), (Nat.eqb_spec x b); subst;
    cbn [Succs Preds set_Succs set_Preds]; rewrite ?elem_add_once; split; split; intros; destruct_or?;
    destruct_and?; subst; auto; try (right; split_and!; done || lia); try done.
Qed.

Lemma addEdge_ok Blocks x y : graph_ok Blocks -> graph_ok (addEdge Blocks x y).
Proof.
  intros [Hm Hr]. split; intros a b.
  - rewrite (proj1 (addEdge_spec Blocks x y a b)), (proj2 (addEdge_spec Blocks x y a b)). by rewrite Hm.
  - rewrite (proj1 (addEdge_spec Blocks x y a b)), length_addEdge.
    intros [?|(_ & -> & _ & ?)]; [by eapply Hr|done].
Qed.

Lemma elem_removeAll x y l : y ∈ removeAll x l <-> y ∈ l /\ y <> x.
Proof. unfold removeAll. rewrite list_elem_of_filter. tauto. Qed.

(** Removing an edge on both sides. *)
Lemma removeEdge_ok Blocks x y :
  graph_ok Blocks -> (x < length Blocks)%nat -> (y < length Blocks)%nat ->
  graph_ok (alter (fun b => set_Preds (removeAll x (Preds b)) b) y
              (alter (fun b => set_Succs (removeAll y (Succs b)) b) x Blocks)).
Proof.
  intros [Hm Hr] Hx Hy. split; intros a b; rewrite !blockAt_alter, !length_alter_blocks,
    (proj2 (Nat.ltb_lt x _)), (proj2 (Nat.ltb_lt y _)) by lia; rewrite !andb_true_r.
  - specialize (Hm a b).
    destruct (Nat.eqb_spec y a), (Nat.eqb_spec x a), (Nat.eqb_spec y b), (Nat.eqb_spec x b); subst;
      cbn [Succs Preds set_Succs set_Preds]; rewrite ?elem_removeAll; rewrite ?Hm; split; intros;
      destruct_and?; split_and?; try done; try congruence.
  - intros Hb. apply (Hr a).
    destruct (Nat.eqb_spec y a), (Nat.eqb_spec x a); subst;
      cbn [Succs Preds set_Succs set_Preds] in Hb; rewrite ?elem_removeAll in Hb; destruct_and?; done.
Qed.

(** A fresh block has no edge. *)
Lemma blockAt_snoc Blocks nb i :
  blockAt (Blocks ++ [nb]) i =
  if (i <? length Blocks)%nat then blockAt Blocks i
  else if (i =? length Blocks)%nat then nb else emptyBlock.
Proof.
  unfold blockAt. rewrite !list_lookup_total_alt.
  destruct (Nat.ltb_spec i (length Blocks)) as [Hlt|Hge]; [by rewrite lookup_app_l|].
  rewrite lookup_app_r by done. destruct (Nat.eqb_spec i (length Blocks)) as [->|Hne].
  - by rewrite Nat.sub_diag.
  - rewrite lookup_ge_None_2; [done|]. cbn [length]. lia.
Qed.

Lemma appendBlock_ok Blocks nb :
  graph_ok Blocks -> Succs nb = [] -> Preds nb = [] -> graph_ok (Blocks ++ [nb]).
Proof.
  intros [Hm Hr] HS HP.
  assert (forall i, Succs (blockAt (Blocks ++ [nb]) i) = Succs (blockAt Blocks i) /\
                    Preds (blockAt (Blocks ++ [nb]) i) = Preds (blockAt Blocks i)) as He.
  { intros i. rewrite blockAt_snoc. destruct (Nat.ltb_spec i (length Blocks)) as [|Hge]; [done|].
    rewrite (blockAt_ge Blocks i Hge). by destruct (i =? length Blocks)%nat. }
  split; intros a b; rewrite (proj1 (He a)); [rewrite (proj2 (He b)); apply Hm|].
  intros Hb%Hr. rewrite length_app. cbn [length]. lia.
Qed.

Lemma splitEdge_ok n Blocks ch x y :
  graph_ok Blocks -> (x < length Blocks)%nat -> (y < length Blocks)%nat ->
  graph_ok (splitEdge n (Blocks, ch) (x, y)).1 /\
  (length Blocks <= length (splitEdge n (Blocks, ch) (x, y)).1)%nat.
Proof.
  intros Hg Hx Hy. cbn [splitEdge]. destruct (_ <=? _)%nat; [done|]. cbn [fst]. split.
  - by apply addEdge_ok, addEdge_ok, appendBlock_ok; [apply removeEdge_ok|..].
  - rewrite !length_addEdge, length_app, !length_alter_blocks. lia.
Qed.

Lemma edgesToSplit_lt Blocks :
  Forall (fun e => (e.1 < length Blocks /\ e.2 < length Blocks)%nat) (edgesToSplit Blocks).
Proof.
  apply List.Forall_forall. intros [x y] He. unfold edgesToSplit in He.
  apply in_flat_map in He as (a & Ha%in_seq & He). destruct (_ <=? 1)%nat; [done|].
  apply in_flat_map in He as (b & _ & He).
  destruct (Nat.leb_spec (length Blocks) b); [done|]. destruct (_ <? _)%nat; [|done].
  destruct He as [[= <- <-]|[]]. cbn [fst snd]. lia.
Qed.

Lemma split_ok n Blocks : graph_ok Blocks -> graph_ok (splitCriticalEdges n Blocks).1.
Proof.
  unfold splitCriticalEdges. generalize (edgesToSplit_lt Blocks).
  generalize (edgesToSplit Blocks) as es. intros es. generalize false as ch. revert Blocks.
  induction es as [|[x y] es IH]; intros Blocks ch Hes Hg; [done|]. cbn [fold_left].
  apply Forall_cons_iff in Hes as [[Hx Hy] Hes]. cbn [fst snd] in *.
  destruct (splitEdge_ok n Blocks ch x y Hg Hx Hy) as [Hg' Hl].
  destruct (splitEdge n (Blocks, ch) (x, y)) as [Bs ch']. cbn [fst] in *. apply IH; [|done].
  eapply Forall_impl; [done|]. intros ? [? ?]. lia.
Qed.

Section Cfg.
Context {I : Intx}.
Context (Code : list Z) (MT : metrics) (JD PV : list Z).

Lemma addEdgeTo_ok At i pc Blocks : graph_ok Blocks -> graph_ok (addEdgeTo At i pc Blocks).
Proof. intros. unfold addEdgeTo. destruct (default None _); [by apply addEdge_ok|done]. Qed.

Lemma addEdges_ok At JB Blocks i :
  graph_ok Blocks -> graph_ok (addEdges Code JD PV At JB Blocks i).
Proof.
  intros Hg. unfold addEdges. set (Bs := if _ && _ then _ else _).
  assert (graph_ok Bs) as HB by (subst Bs; destruct (_ && _); [by apply addEdgeTo_ok|done]).
  destruct (isJumpOpcode _); [|done]. destruct (resolves _ _ _ _); [by apply addEdgeTo_ok|].
  clearbody Bs. revert Bs HB. induction JB as [|x JB IH]; intros Bs HB; [done|].
  by apply IH, addEdge_ok.
Qed.

Lemma buildCFG_ok Blocks At : graph_ok Blocks -> graph_ok (buildCFG Code JD PV Blocks At).
Proof.
  unfold buildCFG. generalize (jumpDestBlocks Code JD (length Blocks) At) as JB. intros JB.
  generalize (seq 0 (length Blocks)) as l. intros l. revert Blocks.
  induction l as [|x l IH]; intros Blocks Hg; [done|]. by apply IH, addEdges_ok.
Qed.

(** The blocks start without edges. *)
Definition no_edges (b : GasBlock) : Prop := Succs b = [] /\ Preds b = [].

Lemma extendBlock_no_edges fuel M Block pc :
  no_edges Block -> no_edges (extendBlock Code MT fuel M Block pc).1.
Proof.
  revert Block pc. induction fuel as [|fuel IH]; intros Block pc Hn; [done|]. cbn [extendBlock].
  destruct (Code !! pc); [|done]. destruct (_ && _); [done|].
  destruct (isGasChunkTerminator _); [done|]. by apply IH.
Qed.

Lemma collect_no_edges fuel M pc Blocks At :
  Forall no_edges Blocks -> Forall no_edges (collectBlocks Code MT fuel M pc Blocks At).1.
Proof.
  revert pc Blocks At. induction fuel as [|fuel IH]; intros pc Blocks At Hn; [done|].
  cbn [collectBlocks]. destruct (_ <=? _)%nat; [done|]. destruct (negb _); [by apply IH|].
  destruct (_ <=? _)%nat; [done|].
  pose proof (extendBlock_no_edges (length Code) M (newBlock pc) pc (conj eq_refl eq_refl)) as Hb.
  destruct (extendBlock _ _ _ _ _ _) as [B e]. apply IH, Forall_app. split; [done|].
  by repeat constructor; apply Hb.
Qed.

Lemma gas_blocks_no_edges : Forall no_edges (buildGasBlocks Code MT).1.
Proof. unfold buildGasBlocks. destruct (_ =? _)%nat; [done|]. by apply collect_no_edges. Qed.

Lemma no_edges_ok Blocks : Forall no_edges Blocks -> graph_ok Blocks.
Proof.
  intros Hn.
  assert (forall i, no_edges (blockAt Blocks i)) as Hi.
  { intros i. unfold blockAt. rewrite list_lookup_total_alt. destruct (Blocks !! i) eqn:E; [|done].
    rewrite Forall_lookup in Hn. by eapply Hn. }
  split; intros a b; rewrite (proj1 (Hi a)); [rewrite (proj2 (Hi b))|];
    [split|]; by intros ?%elem_of_nil.
Qed.

End Cfg.

(** The graph of a code: what [buildGasChunksSPP] analyses when no jump is
    dynamic. *)
Definition code_graph {I : Intx} (Code : list Z) (MT : metrics) : list GasBlock :=
  let '(JD, PV) :=
    buildJumpDestMapAndPushCache Code (replicate (length Code) 0) (replicate (length Code) 0) in
  let '(Blocks, At) := buildGasBlocks Code MT in
  (splitCriticalEdges (length Code) (buildCFG Code JD PV Blocks At)).1.

Lemma code_graph_ok {I : Intx} Code MT : graph_ok (code_graph Code MT).
Proof.
  unfold code_graph. destruct (buildJumpDestMapAndPushCache _ _ _) as [JD PV].
  pose proof (gas_blocks_no_edges Code MT) as Hn.
  destruct (buildGasBlocks Code MT) as [Blocks At]. by apply split_ok, buildCFG_ok, no_edges_ok.
Qed.

(** ** Dominance *)

Section Dominance.
Context (Blocks : list GasBlock).

(** The paths from the entry, last block first. *)
Inductive path : list nat -> nat -> Prop :=
| path_entry : path [0%nat] 0%nat
| path_edge p a b : path p a -> cfg Blocks a b -> path (b :: p) b.

(** [d] is on every path from the entry to [n]. *)
Definition dominates (d n : nat) : Prop := forall p, path p n -> d ∈ p.

Lemma path_rtc p n : path p n -> rtc (cfg Blocks) 0%nat n.
Proof. induction 1 as [|p a b _ IH He]; [done|]. by eapply rtc_r. Qed.

Lemma rtc_path n : rtc (cfg Blocks) 0%nat n -> exists p, path p n.
Proof.
  revert n. apply rtc_ind_r; [by exists [0%nat]; constructor|].
  intros a b _ He [p Hp]. exists (b :: p). by eapply path_edge.
Qed.

Lemma path_lt p n x : (0 < length Blocks)%nat -> path p n -> x ∈ p -> (x < length Blocks)%nat.
Proof.
  intros H0. induction 1 as [|p a b _ IH (_ & _ & Hb & _)]; [by intros ->%list_elem_of_singleton|].
  by intros [->|?]%elem_of_cons; [|apply IH].
Qed.

Context (Hok : graph_ok Blocks) (Hne : (0 < length Blocks)%nat).
Context (Hentry : Preds (blockAt Blocks 0) = []).
Context (R : list bool) (HR : forall k, flagAt R k = true <-> rtc (cfg Blocks) 0%nat k).

Lemma cfg_pred a b : cfg Blocks a b -> a ∈ Preds (blockAt Blocks b).
Proof. intros (_ & Hb & _). by apply (go_mirror _ Hok). Qed.

Lemma pred_cfg a b : (b < length Blocks)%nat -> a ∈ Preds (blockAt Blocks b) -> cfg Blocks a b.
Proof.
  intros Hb Ha. apply (go_mirror _ Hok) in Ha. split; [by eapply succ_lt|]. split_and!; [done..|by reflexivity].
Qed.

Lemma cfg_domPreds a b : flagAt R a = true -> cfg Blocks a b -> a ∈ domPreds Blocks R b.
Proof.
  intros Ha He. apply list_elem_of_filter. split; [|by apply cfg_pred].
  split; [by destruct He|done].
Qed.

Lemma noPreds_reachable n : flagAt R n = true -> noPreds Blocks R n = true <-> n = 0%nat.
Proof.
  intros Hn. unfold noPreds. rewrite Hn. cbn [negb orb]. rewrite bool_decide_eq_true.
  split; [|by intros ->]. intros Hp. apply HR in Hn. apply rtc_inv_r in Hn as [->|(a & _ & He)]; [done|].
  apply cfg_pred in He. rewrite Hp in He. by apply elem_of_nil in He.
Qed.

Lemma dominance_root d n :
  rtc (cfg Blocks) 0%nat n /\ dominates d n -> noPreds Blocks R n = true -> d = n.
Proof.
  intros [Hn Hd] Hp. apply HR in Hn. apply (noPreds_reachable n Hn) in Hp as ->.
  specialize (Hd _ path_entry). by apply list_elem_of_singleton in Hd.
Qed.

Lemma dominance_step d n :
  rtc (cfg Blocks) 0%nat n /\ dominates d n -> noPreds Blocks R n = false -> d <> n ->
  (d < length Blocks)%nat /\ domPreds Blocks R n <> [] /\
  forall p, p ∈ domPreds Blocks R n -> rtc (cfg Blocks) 0%nat p /\ dominates d p.
Proof.
  intros [Hn Hd] Hp Hdn.
  assert (n <> 0%nat) as Hn0.
  { intros ->. rewrite (proj2 (noPreds_reachable 0 (proj2 (HR 0) (rtc_refl _ _))) eq_refl) in Hp. done. }
  destruct (rtc_path n Hn) as [q Hq]. split_and!.
  - eapply path_lt; [done..|by apply Hd].
  - apply rtc_inv_r in Hn as [?|(a & Ha%HR & He)]; [done|].
    pose proof (cfg_domPreds a n Ha He) as Hin. intros E. rewrite E in Hin. by apply elem_of_nil in Hin.
  - intros p [[_ HRp] Hpp]%list_elem_of_filter. split; [by apply HR|]. intros q' Hq'.
    assert (n < length Blocks)%nat as Hlt.
    { eapply path_lt; [done|exact Hq|]. destruct Hq; by left. }
    specialize (Hd _ (path_edge _ _ _ Hq' (pred_cfg p n Hlt Hpp))).
    by apply elem_of_cons in Hd as [?|?].
Qed.

(** A fixed point of the transfer function with the roots in place is below
    dominance. *)
Lemma fixed_sound Dom (D : nat -> nat -> Prop) p n k :
  dom_inv Blocks R D Dom -> dom_fixed Blocks R Dom ->
  path p n -> bitsetTest (domAt Dom n) k = true -> k ∈ p.
Proof.
  intros [Hg Hr _ _] Hfix. induction 1 as [|p a b Hp IH He]; intros Hk.
  - apply Hr in Hk as ->; [by left|done|]. by apply noPreds_reachable; [apply HR|].
  - pose proof He as (Hal & _ & Hb & _). assert (flagAt R a = true) as Ha by (apply HR; by eapply path_rtc).
    assert (noPreds Blocks R b = false) as Hnp.
    { unfold noPreds. rewrite (proj2 (HR b)) by (eapply rtc_r; [by apply HR|done]). cbn [negb orb].
      apply bool_decide_eq_false. intros E. pose proof (cfg_pred a b He) as Hin. rewrite E in Hin.
      by apply elem_of_nil in Hin. }
    rewrite <- (Hfix b Hb Hnp) in Hk. apply (domNew_spec Blocks R Dom b Hg Hb) in Hk as [->|(_ & _ & Hall)].
    + by left.
    + right. apply IH, Hall. by apply cfg_domPreds.
Qed.

Lemma dominators_exact :
  exists Dom, computeDominators Blocks R = Some Dom /\
    forall n d, flagAt R n = true -> bitsetTest (domAt Dom n) d = true <-> dominates d n.
Proof.
  destruct (computeDominators_total Blocks R _ dominance_root dominance_step) as (Dom & HD & Hinv & Hfix).
  exists Dom. split; [done|]. intros n d Hn. split.
  - intros Hk p Hp. by eapply fixed_sound.
  - intros Hd. apply HR in Hn as Hrtc. apply (di_above _ _ _ _ Hinv); [|done].
    destruct (rtc_path n Hrtc) as [p Hp]. eapply path_lt; [done|exact Hp|]. by destruct Hp; left.
Qed.
End Dominance.

(** * Theorems *)

(** The graph that the metering pass analyses is consistent: after the
    edges of the code are added and the critical ones split, a block lists
    another as a successor exactly when that one lists it as a predecessor,
    and every edge ends at a block. *)
Theorem code_graph_consistent {I : Intx} (Code : list Z) (MT : metrics) :
  graph_ok (code_graph Code MT).
Proof. apply code_graph_ok. Qed.

(** C28. [computeReachable] ends on every graph and marks exactly the blocks
    with a path from the entry. *)
Theorem reachable_exact (Blocks : list GasBlock) :
  Blocks <> [] ->
  exists R, computeReachable Blocks 0 = Some R /\ length R = length Blocks /\
    forall k, flagAt R k = true <-> exists p, path Blocks p k.
Proof.
  intros Hne. destruct (computeReachable_total Blocks 0) as (R & HR & Hl & Hk).
  exists R. split_and!; [done..|]. intros k. rewrite Hk by (destruct Blocks; cbn; [done|lia]).
  split; [apply rtc_path|]. intros [p Hp]. by eapply path_rtc.
Qed.

(** C29. On a consistent graph whose entry has no predecessor,
    [computeDominators] ends and the set it gives a reachable block is the
    set of the blocks on every path from the entry to it. *)
Theorem dominators_correct (Blocks : list GasBlock) :
  graph_ok Blocks -> Blocks <> [] -> Preds (blockAt Blocks 0) = [] ->
  exists R Dom, computeReachable Blocks 0 = Some R /\ computeDominators Blocks R = Some Dom /\
    forall n d, flagAt R n = true -> bitsetTest (domAt Dom n) d = true <-> dominates Blocks d n.
Proof.
  intros Hok Hne He. assert (0 < length Blocks)%nat as H0 by (destruct Blocks; cbn; [done|lia]).
  destruct (computeReachable_total Blocks 0) as (R & HR & _ & Hk).
  destruct (dominators_exact Blocks Hok H0 He R (Hk H0)) as (Dom & HD & Hd). by exists R, Dom.
Qed.

(** JUMPDEST, PUSH1 1, PUSH1 0, JUMPI, STOP: a loop to the first byte. *)
Definition loop_to_entry : list Z := [0x5b; 0x60; 1; 0x60; 0; 0x57; 0x00].

(** Where the code jumps back to its first byte the sets are wrong: the
    block after the loop is counted among the dominators of the entry, and
    the edge that leaves the loop becomes a back edge. *)
Theorem dominators_wrong_at_looping_entry :
  let B := code_graph loop_to_entry sample_metrics in
  exists R Dom, computeReachable B 0 = Some R /\ computeDominators B R = Some Dom /\
    bitsetTest (domAt Dom 0) 1 = true /\ ~ dominates B 1 0 /\
    isBackEdge (findBackEdgesUsingDominators B Dom) 0 1 = true.
Proof.
  intros B. eexists _, _. split_and!; try by vm_compute.
  intros Hd. specialize (Hd _ (path_entry B)). by apply list_elem_of_singleton in Hd.
Qed.

(** [order] lists a block after its successors, back edges apart. *)
Definition reverse_topological (Blocks : list GasBlock) (Back : list (list nat)) (order : list nat)
  : Prop :=
  forall i j a b, order !! i = Some a -> order !! j = Some b ->
    b ∈ Succs (blockAt Blocks a) -> isBackEdge Back a b = false -> (j < i)%nat.

(** PUSH1 0, JUMPDEST, JUMPDEST, STOP: three blocks in a row. *)
Definition three_in_a_row : list Z := [0x60; 0; 0x5b; 0x5b; 0x00].

(** [computeReverseTopo] does not return a reverse topological order,
    not even on straight-line code: a block that was pushed is emitted
    before its own successors are looked at. *)
Theorem reverse_topo_wrong :
  let B := code_graph three_in_a_row sample_metrics in
  exists R Dom order, computeReachable B 0 = Some R /\ computeDominators B R = Some Dom /\
    computeReverseTopo B (findBackEdgesUsingDominators B Dom) = Some order /\
    ~ reverse_topological B (findBackEdgesUsingDominators B Dom) order.
Proof.
  intros B. eexists _, _, _. split_and!; try by vm_compute.
  intros Ht. specialize (Ht 0%nat 2%nat 1%nat 2%nat eq_refl eq_refl).
  assert (2 < 0)%nat; [|lia]. apply Ht; [|done]. subst B. vm_compute. by left.
Qed.

(** ** Witnesses *)

Lemma reachable_exact_witness :
  exists R, computeReachable (code_graph three_in_a_row sample_metrics) 0 = Some R /\
    length R = length (code_graph three_in_a_row sample_metrics) /\
    forall k, flagAt R k = true <-> exists p, path (code_graph three_in_a_row sample_metrics) p k.
Proof. refine (reachable_exact _ _). by vm_compute. Defined.

Lemma dominators_correct_witness :
  let B := code_graph three_in_a_row sample_metrics in
  exists R Dom, computeReachable B 0 = Some R /\ computeDominators B R = Some Dom /\
    forall n d, flagAt R n = true -> bitsetTest (domAt Dom n) d = true <-> dominates B d n.
Proof.
  intros B. refine (dominators_correct B (code_graph_ok _ _) _ _); by vm_compute.
Defined.
