(* ===== verification/Rlp.v ===== *)
(** Recursive-length-prefix encoding and the address of a created account:
    [src/src/utils/rlp_encoding.cpp] and, of [src/src/utils/evm.cpp],
    [uint256beToBytes] and [computeCreateAddress].

    The encoders are checked against a decoder written from the definition of
    the format (Yellow Paper, appendix B): whatever they produce decodes to
    the tree it came from, also in the middle of a longer message. *)

From S2P Require Import Prelude Intx Evmc Concrete.

#[local] Open Scope Z_scope.

(** ** The encoder *)

Definition RLP_OFFSET_SHORT_STRING : Z := 0x80.
Definition RLP_OFFSET_SHORT_LIST : Z := 0xc0.

(** [while (Temp > 0)]: the bytes of a length, the most significant first.  A
    [size_t] has eight bytes, so eight rounds leave nothing
    ([lengthBytes_spec]). *)
Fixpoint lengthBytes (rounds : nat) (Temp : Z) (LengthBytes : list Z) : list Z :=
  match rounds with
  | O => LengthBytes
  | S rounds =>
      if 0 <? Temp then lengthBytes rounds (Z.shiftr Temp 8) (u8 (Z.land Temp 0xFF) :: LengthBytes)
      else LengthBytes
  end.

Definition encodeLength (Length Offset : Z) : list Z :=
  if Length <? 56 then [u8 (Length + Offset)]
  else
    let LengthBytes := lengthBytes 8 Length [] in
    u8 (Z.of_nat (length LengthBytes) + Offset + 55) :: LengthBytes.

Definition encodeString (Input : list Z) : list Z :=
  match Input with
  | [] => [RLP_OFFSET_SHORT_STRING]
  | [b] => if b <? RLP_OFFSET_SHORT_STRING then Input
           else encodeLength (Z.of_nat (length Input)) RLP_OFFSET_SHORT_STRING ++ Input
  | _ => encodeLength (Z.of_nat (length Input)) RLP_OFFSET_SHORT_STRING ++ Input
  end.

Definition encodeListFromEncodedItems (Items : list (list Z)) : list Z :=
  let Payload := concat Items in
  encodeLength (Z.of_nat (length Payload)) RLP_OFFSET_SHORT_LIST ++ Payload.

Definition encodeList (Items : list (list Z)) : list Z :=
  let Payload := foldl (fun Payload Item => Payload ++ encodeString Item) [] Items in
  encodeLength (Z.of_nat (length Payload)) RLP_OFFSET_SHORT_LIST ++ Payload.

Section Address.
Context {I : Intx} {V : Evmc}.

(** The significant bytes of a big-endian number. *)
Definition uint256beToBytes (Value : list Z) : list Z :=
  let Val := be_load Value in
  if Val =? 0 then []
  else drop (32 - Z.to_nat (count_significant_bytes Val)) (be_store Val).

(** What [computeCreateAddress] hashes. *)
Definition createPreimage (Sender : list Z) (SenderNonce : Z) : list Z :=
  encodeList [Sender; uint256beToBytes (be_store SenderNonce)].

Definition computeCreateAddress (Sender : list Z) (SenderNonce : Z) : list Z :=
  let BaseHash := keccak256 (createPreimage Sender SenderNonce) in
  drop (length BaseHash - 20) BaseHash.
End Address.

(** ** The format *)

(** A message is a byte string or a list of messages. *)
#[warnings="-register-all"]
Inductive rlp : Type := RStr (s : list Z) | RList (l : list rlp).

Fixpoint rlp_rect' (P : rlp -> Prop) (Hs : forall s, P (RStr s))
    (Hl : forall l, Forall P l -> P (RList l)) (t : rlp) : P t :=
  match t with
  | RStr s => Hs s
  | RList l => Hl l ((fix go l : Forall P l :=
      match l with
      | [] => Forall_nil_2 P
      | t :: l => Forall_cons_2 P t l (rlp_rect' P Hs Hl t) (go l)
      end) l)
  end.

(** The first [n] bytes and the others. *)
Definition cut (n : Z) (bs : list Z) : option (list Z * list Z) :=
  if n <=? Z.of_nat (length bs) then Some (take (Z.to_nat n) bs, drop (Z.to_nat n) bs) else None.

(** Whether a message is a list, the length of its payload, and what follows
    the header. *)
Definition header (bs : list Z) : option (bool * Z * list Z) :=
  match bs with
  | [] => None
  | b :: bs' =>
      if b <? 0x80 then Some (false, 1, bs)
      else if b <? 0xb8 then Some (false, b - 0x80, bs')
      else if b <? 0xc0 then '(l, r) ← cut (b - 0xb7) bs'; Some (false, be_value l, r)
      else if b <? 0xf8 then Some (true, b - 0xc0, bs')
      else '(l, r) ← cut (b - 0xf7) bs'; Some (true, be_value l, r)
  end.

Fixpoint decode (fuel : nat) (bs : list Z) : option (rlp * list Z) :=
  match fuel with
  | O => None
  | S fuel =>
      '(isList, n, r) ← header bs;
      '(p, r) ← cut n r;
      if isList : bool then l ← decodeAll fuel p; Some (RList l, r) else Some (RStr p, r)
  end
with decodeAll (fuel : nat) (bs : list Z) : option (list rlp) :=
  match fuel with
  | O => None
  | S fuel =>
      match bs with
      | [] => Some []
      | _ => '(t, r) ← decode fuel bs; l ← decodeAll fuel r; Some (t :: l)
      end
  end.

(** A tree, encoded the way its users combine the functions. *)
Fixpoint encode (t : rlp) : list Z :=
  match t with
  | RStr s => encodeString s
  | RList l => encodeListFromEncodedItems (map encode l)
  end.

(** Strings of bytes, and lengths that a [size_t] holds. *)
Fixpoint rlp_ok (t : rlp) : Prop :=
  match t with
  | RStr s => Forall is_byte s /\ Z.of_nat (length s) < 2 ^ 64
  | RList l =>
      Z.of_nat (length (concat (map encode l))) < 2 ^ 64 /\
      (fix go l := match l with [] => True | t :: l => rlp_ok t /\ go l end) l
  end.

(** Fuel that decodes a tree. *)
Fixpoint rlp_size (t : rlp) : nat :=
  match t with
  | RStr _ => 1
  | RList l => S (S (sum_list_with (fun t => S (rlp_size t)) l))
  end.

(** ** Lengths *)

Lemma lengthBytes_spec n T acc :
  0 <= T < 2 ^ (8 * Z.of_nat n) ->
  exists l, lengthBytes n T acc = l ++ acc /\ be_value l = T /\ (length l <= n)%nat /\
    (0 < T -> (0 < length l)%nat).
Proof.
  revert T acc. induction n as [|n IH]; intros T acc HT; cbn [lengthBytes].
  { exists []. split_and!; [done|cbn; lia|cbn; lia|]. lia. }
  destruct (Z.ltb_spec 0 T); [|exists []; split_and!; [done|cbn; lia|cbn; lia|lia]].
  rewrite Z.shiftr_div_pow2 by lia.
  change (Z.land T 0xFF) with (Z.land T (Z.ones 8)). rewrite Z.land_ones by lia.
  destruct (IH (T / 2 ^ 8) (u8 (T mod 2 ^ 8) :: acc)) as (l & -> & Hv & Hl & _).
  { split; [apply Z.div_pos; lia|]. apply Z.div_lt_upper_bound; [lia|].
    rewrite <- Z.pow_add_r by lia. replace (8 + 8 * Z.of_nat n) with (8 * Z.of_nat (S n)) by lia. lia. }
  exists (l ++ [u8 (T mod 2 ^ 8)]). rewrite <- app_assoc. split_and!; [done| | |].
  - rewrite be_value_app, Hv. unfold wrap. rewrite Z.mod_mod by lia. cbn [be_value length].
    pose proof (Z.div_mod T (2 ^ 8)). lia.
  - rewrite length_app. cbn. lia.
  - rewrite length_app. cbn. lia.
Qed.

(** The comparisons of a goal, the impossible ones dropped. *)
Ltac split_ltb :=
  repeat match goal with |- context [Z.ltb ?a ?b] => destruct (Z.ltb_spec a b); try lia end.

(** The header of a payload of [n] bytes, a string's or a list's. *)
Definition offset_of (isList : bool) : Z :=
  if isList then RLP_OFFSET_SHORT_LIST else RLP_OFFSET_SHORT_STRING.

Lemma cut_app l r n : n = Z.of_nat (length l) -> cut n (l ++ r) = Some (l, r).
Proof.
  intros ->. unfold cut. rewrite length_app, (proj2 (Z.leb_le _ _)) by lia.
  by rewrite Nat2Z.id, take_app_length, drop_app_length.
Qed.

Lemma header_length isList n r :
  0 <= n < 2 ^ 64 ->
  header (encodeLength n (offset_of isList) ++ r) = Some (isList, n, r).
Proof.
  intros Hn. unfold encodeLength. destruct (Z.ltb_spec n 56).
  - rewrite (wrap_small 8) by (unfold in_u, offset_of, RLP_OFFSET_SHORT_LIST, RLP_OFFSET_SHORT_STRING; destruct isList; lia).
    destruct isList; cbn [header app offset_of];
      unfold RLP_OFFSET_SHORT_LIST, RLP_OFFSET_SHORT_STRING; split_ltb; do 3 f_equal; lia.
  - destruct (lengthBytes_spec 8 n [] ltac:(lia)) as (l & -> & Hv & Hl & Hpos).
    specialize (Hpos ltac:(lia)). rewrite app_nil_r, (wrap_small 8) by (unfold in_u, offset_of, RLP_OFFSET_SHORT_LIST, RLP_OFFSET_SHORT_STRING; destruct isList; lia).
    destruct isList; cbn [header app offset_of];
      unfold RLP_OFFSET_SHORT_LIST, RLP_OFFSET_SHORT_STRING; split_ltb;
      rewrite (cut_app l) by lia; cbn [mbind option_bind]; by rewrite Hv.
Qed.

(** ** Decoding what was encoded *)

Lemma decode_header fuel bs isList n p r :
  header bs = Some (isList, n, p ++ r) -> n = Z.of_nat (length p) ->
  decode (S fuel) bs =
  if isList then l ← decodeAll fuel p; Some (RList l, r) else Some (RStr p, r).
Proof.
  intros Hh Hn. cbn [decode]. rewrite Hh. cbn [mbind option_bind]. by rewrite (cut_app p).
Qed.

Lemma decode_string fuel s r :
  Forall is_byte s -> Z.of_nat (length s) < 2 ^ 64 ->
  decode (S fuel) (encodeString s ++ r) = Some (RStr s, r).
Proof.
  intros Hs Hl. assert (decode (S fuel) (encodeLength (Z.of_nat (length s)) (offset_of false) ++ s ++ r) =
    Some (RStr s, r)) as Hlong.
  { rewrite (decode_header _ _ false (Z.of_nat (length s)) s r); [done|by apply header_length; lia|done]. }
  destruct s as [|b [|b' s]].
  - done.
  - cbn [encodeString]. destruct (b <? _) eqn:Eb; [|by rewrite <- app_assoc].
    apply (decode_header _ _ false 1 [b]); [|done]. cbn [header app].
    apply Z.ltb_lt in Eb. unfold RLP_OFFSET_SHORT_STRING in Eb. by rewrite (proj2 (Z.ltb_lt _ _)) by lia.
  - cbn [encodeString]. by rewrite <- app_assoc.
Qed.

Lemma encodeLength_ne n o : encodeLength n o <> [].
Proof. unfold encodeLength. by destruct (_ <? _). Qed.

Lemma encode_ne t : encode t <> [].
Proof.
  destruct t as [[|b [|? ?]]|l]; cbn [encode encodeString]; [done|destruct (_ <? _); [done|]| |];
    unfold encodeListFromEncodedItems; intros [E _]%app_eq_nil; by apply encodeLength_ne in E.
Qed.

Lemma decodeAll_cons fuel bs :
  bs <> [] -> decodeAll (S fuel) bs = ('(t, r) ← decode fuel bs; l ← decodeAll fuel r; Some (t :: l)).
Proof. by destruct bs. Qed.

Lemma decode_encode t fuel r :
  rlp_ok t -> (rlp_size t <= fuel)%nat -> decode fuel (encode t ++ r) = Some (t, r).
Proof.
  revert fuel r. induction t as [s|l IH] using rlp_rect'; intros fuel r Hok Hf;
    (destruct fuel as [|fuel]; [cbn in Hf; lia|]).
  { destruct Hok. by apply decode_string. }
  destruct Hok as [Hlen Hok]. cbn [encode]. unfold encodeListFromEncodedItems. rewrite <- app_assoc.
  rewrite (decode_header _ _ true (Z.of_nat (length (concat (map encode l)))) (concat (map encode l)) r);
    [|by apply (header_length true); lia|done].
  assert (decodeAll fuel (concat (map encode l)) = Some l) as ->; [|done].
  assert (S (sum_list_with (fun t => S (rlp_size t)) l) <= fuel)%nat as Hf' by (cbn in Hf; lia).
  clear Hf Hlen. revert fuel Hf'. induction IH as [|t l Ht _ IHl]; intros fuel Hf; cbn [sum_list_with] in Hf.
  { destruct fuel; [lia|done]. }
  destruct fuel as [|fuel]; [lia|]. cbn [map concat].
  rewrite decodeAll_cons by (intros [E _]%app_eq_nil; by apply encode_ne in E).
  destruct Hok as [Hok1 Hok]. rewrite Ht; [|done|lia]. cbn [mbind option_bind].
  rewrite IHl; [done|done|lia].
Qed.

(** [encodeList] is the encoding of a list of strings. *)
Lemma encodeList_encode Items : encodeList Items = encode (RList (map RStr Items)).
Proof.
  unfold encodeList. cbn [encode]. unfold encodeListFromEncodedItems.
  assert (forall acc, foldl (fun p i => p ++ encodeString i) acc Items =
    acc ++ concat (map encode (map RStr Items))) as E; [|by rewrite (E [])].
  induction Items as [|i l IH]; intros acc; cbn; [by rewrite app_nil_r|].
  by rewrite IH, app_assoc.
Qed.

Lemma encode_inj t t' : rlp_ok t -> rlp_ok t' -> encode t = encode t' -> t = t'.
Proof.
  intros Ht Ht' E. pose proof (decode_encode t (rlp_size t + rlp_size t') [] Ht ltac:(lia)) as H1.
  rewrite E, (decode_encode t') in H1; [|done|lia]. by injection H1.
Qed.

(** ** The preimage of an address *)

Section Address.
Context {I : Intx} {V : Evmc} {IL : IntxLaws I}.

Lemma uint256beToBytes_value Value :
  Forall is_byte Value -> (length Value <= 32)%nat ->
  be_value (uint256beToBytes Value) = be_value Value /\
  Forall is_byte (uint256beToBytes Value) /\ (length (uint256beToBytes Value) <= 32)%nat.
Proof.
  intros HV Hl. unfold uint256beToBytes. rewrite be_load_spec by done.
  pose proof (be_value_range Value HV) as Hr.
  assert (is_u256 (be_value Value)) as Hu.
  { eapply in_u_mono; [|done]. lia. }
  destruct (Z.eqb_spec (be_value Value) 0) as [E|Hne].
  { rewrite E. split_and!; [done|constructor|cbn; lia]. }
  rewrite be_store_spec, count_significant_bytes_spec by done.
  rewrite (proj2 (Z.eqb_neq _ _)) by done. set (v := be_value Value) in *.
  set (k := Z.to_nat _). rewrite length_drop, length_be_bytes.
  split_and!; [|by apply Forall_drop, be_bytes_range|lia].
  assert (v < 2 ^ (8 * Z.of_nat k)) as Hk.
  { unfold k. pose proof (Z.log2_nonneg v). pose proof (Z.div_pos (Z.log2 v) 8).
    rewrite Z2Nat.id by lia. apply Z.log2_lt_pow2; [unfold in_u in *; lia|].
    pose proof (Z.div_mod (Z.log2 v) 8). pose proof (Z.mod_pos_bound (Z.log2 v) 8). lia. }
  pose proof (be_value_store 32 v Hu) as Hst.
  rewrite <- (take_drop (32 - k) (be_bytes 32 v)), be_value_app in Hst.
  set (hi := be_value (take _ _)) in *. rewrite length_drop, length_be_bytes in Hst.
  pose proof (be_value_range (take (32 - k) (be_bytes 32 v)) ltac:(apply Forall_take, be_bytes_range)) as Hhi.
  pose proof (be_value_range (drop (32 - k) (be_bytes 32 v)) ltac:(apply Forall_drop, be_bytes_range)) as Hlo.
  change (be_value (take _ _)) with hi in Hhi.
  destruct (decide (32 <= k)%nat) as [Hge|Hlt].
  - replace (32 - k)%nat with 0%nat by lia. rewrite drop_0. by apply be_value_store.
  - replace (32 - (32 - k))%nat with k in Hst by lia. unfold in_u in *.
    set (P := 2 ^ (8 * Z.of_nat k)) in *. assert (hi = 0) as E0; [|rewrite E0 in Hst; lia].
    assert (hi < 1); [|lia]. apply (Z.mul_lt_mono_pos_r P); lia.
Qed.

Lemma create_items_ok Sender Nonce :
  bytes_n 20 Sender -> is_u64 Nonce ->
  rlp_ok (RList (map RStr [Sender; uint256beToBytes (be_store Nonce)])).
Proof.
  intros [Hl Hb] Hn. rewrite be_store_spec by (by apply u256_of_u64).
  destruct (uint256beToBytes_value (be_bytes 32 Nonce)) as (_ & Hb' & Hl');
    [apply be_bytes_range|by rewrite length_be_bytes|].
  set (n := uint256beToBytes _) in *.
  assert (forall s, (length s <= 32)%nat -> (length (encodeString s) <= 33)%nat) as Hs.
  { intros s Hs. unfold encodeString, encodeLength. rewrite (proj2 (Z.ltb_lt _ 56)) by lia.
    destruct s as [|? [|? ?]]; [cbn; lia|destruct (_ <? _); cbn in *; lia|cbn in *; lia]. }
  cbn [rlp_ok map]. split_and!; try done; try lia. cbn [concat encode].
  rewrite !length_app. pose proof (Hs Sender ltac:(lia)). pose proof (Hs n ltac:(lia)). cbn [length]. lia.
Qed.

(** Two accounts or two nonces never hash the same bytes. *)
Lemma create_preimage_inj Sender Sender' Nonce Nonce' :
  bytes_n 20 Sender -> bytes_n 20 Sender' -> is_u64 Nonce -> is_u64 Nonce' ->
  createPreimage Sender Nonce = createPreimage Sender' Nonce' -> Sender = Sender' /\ Nonce = Nonce'.
Proof.
  intros HS HS' HN HN'. unfold createPreimage. rewrite !encodeList_encode.
  intros E%encode_inj; [|by apply create_items_ok..]. injection E as -> E. split; [done|].
  rewrite !be_store_spec in E by (by apply u256_of_u64).
  destruct (uint256beToBytes_value (be_bytes 32 Nonce)) as (H1 & _);
    [apply be_bytes_range|by rewrite length_be_bytes|].
  destruct (uint256beToBytes_value (be_bytes 32 Nonce')) as (H2 & _);
    [apply be_bytes_range|by rewrite length_be_bytes|].
  rewrite E, H2 in H1. rewrite !be_value_store in H1 by (by apply u256_of_u64). done.
Qed.
End Address.

(** * Properties *)

Section Claims.
Context {I : Intx} {V : Evmc} {IL : IntxLaws I}.

(** C38. The RLP encoders lose nothing: a message built with them, strings and
    lists nested at will, decodes to the tree it was built from wherever it
    stands in a longer message; [encodeList] is the special case of a list of
    strings; and [computeCreateAddress] hashes different bytes for different
    senders or nonces. *)
Theorem rlp_roundtrip t rest fuel Items Sender Sender' Nonce Nonce' :
  rlp_ok t -> (rlp_size t <= fuel)%nat ->
  bytes_n 20 Sender -> bytes_n 20 Sender' -> is_u64 Nonce -> is_u64 Nonce' ->
  decode fuel (encode t ++ rest) = Some (t, rest) /\
  encodeList Items = encode (RList (map RStr Items)) /\
  (computeCreateAddress Sender Nonce =
     let h := keccak256 (encode (RList [RStr Sender; RStr (uint256beToBytes (be_store Nonce))])) in
     drop (length h - 20) h) /\
  (createPreimage Sender Nonce = createPreimage Sender' Nonce' -> Sender = Sender' /\ Nonce = Nonce').
Proof.
  intros Ht Hf HS HS' HN HN'. split_and!.
  - by apply decode_encode.
  - apply encodeList_encode.
  - unfold computeCreateAddress, createPreimage. by rewrite encodeList_encode.
  - by apply create_preimage_inj.
Qed.
End Claims.

(** * Witnesses *)

(** A long string and an empty list, nested. *)
Definition sample_tree : rlp := RList [RStr (replicate 60 7); RList []; RStr [5]; RStr [200]].

Lemma rlp_roundtrip_witness :
  decode 20 (encode sample_tree ++ [1; 2]) = Some (sample_tree, [1; 2]) /\
  encodeList [[5]; []] = encode (RList (map RStr [[5]; []])) /\
  (computeCreateAddress zero20 1024 =
     let h := keccak256 (encode (RList [RStr zero20; RStr (uint256beToBytes (be_store 1024))])) in
     drop (length h - 20) h) /\
  (createPreimage zero20 1024 = createPreimage zero20 3 -> zero20 = zero20 /\ 1024 = 3).
Proof.
  apply (rlp_roundtrip sample_tree [1; 2] 20 [[5]; []] zero20 zero20 1024 3).
  - cbn [rlp_ok sample_tree]. split; [apply Z.ltb_lt; by vm_compute|]. split_and!; try done.
    + apply Forall_replicate. done.
    + by repeat constructor.
    + by repeat constructor.
  - vm_compute. lia.
  - apply zeros_bytes.
  - apply zeros_bytes.
  - done.
  - done.
Defined.
