(* ===== verification/Leb128.v ===== *)
(** Reading numbers of a WebAssembly module: [src/src/utils/wasm.h]
    ([readLEBNumber], [readSafeLEBNumber], [skipLEBNumber],
    [readFixedNumber]) and the cursor of the loaders,
    [src/src/action/loader_common.h].

    A pair of pointers [Ip], [End] is the list of the bytes between them.  An
    error is the [ErrorCode] that is thrown.  Shifting by the width of the
    type or more has no defined result; [readLEBNumber] does so on numbers
    that are too long, so that result is a parameter, [wide_shift], and the
    theorems hold whatever it is. *)

From S2P Require Import Prelude Intx.

#[local] Open Scope Z_scope.

(** ** Types and errors *)

(** The template argument [T]. *)
Inductive int_ty : Type := TU8 | TI32 | TU32 | TI64 | TU64.

#[export] Instance int_ty_eq_dec : EqDecision int_ty.
Proof. solve_decision. Defined.

Definition sizeof (T : int_ty) : Z :=
  match T with TU8 => 1 | TI32 | TU32 => 4 | TI64 | TU64 => 8 end.
Definition Signed (T : int_ty) : bool :=
  match T with TI32 | TI64 => true | TU8 | TU32 | TU64 => false end.

(** Conversion to [T]. *)
Definition cast (T : int_ty) (z : Z) : Z :=
  if Signed T then swrap (sizeof T * 8) z else wrap (sizeof T * 8) z.

Definition MaxBytes (T : int_ty) : Z := (sizeof T * 8 + 6) / 7.

(** The error codes of the loaders ([common/errors.def]). *)
Inductive ErrorCode : Type :=
| UnexpectedEnd | LEBIntTooLong | LEBIntTooLarge | InvalidType
| UnknownTypeIdx | UnknownFunction | UnknownTable | UnknownMemory | UnknownGlobal | UnknownLocal
| UnknownLabel | UnsupportedOpcode | UnsupportedImport | TypeMismatch | TypeMismatchStackSize
| TypeMismatchExpectDataStackEmpty | TypeMismatchBrTableTargets | TypeMismatchElseMissing
| TypeMismatchSelectStackEmpty | ElseMismatchIf | GlobalIsImmutable | ZeroFlagExpected
| AlignMustLargerThanNatural | BlockStackNotEmptyAtEndOfFunction | OpcodesRemainAfterEndOfFunction
| MagicNotDetected | UnknownBinaryVersion | ConstExprRequired | TypeMismatchOrConstExprRequired
| SizeMinimumGreaterThenMaximum | SectionSizeMismath | JunkAfterLastSection | TooLongName
| InvalidUTF8Encoding | SymbolAllocFailed | InvalidSectionId | InvalidFuncTypeFlag | InvalidLimitsFlag
| InvalidImportKind | InvalidExportKind | InvalidMutability | InvalidStartFuncType | InvalidGasFuncType
| OutOfOrderNameSubSection | DuplicateSubSection | InvalidNameSubSection | OutOfRangeFuncIdx
| OutOfOrderFuncIdx | DuplicateFuncName | InvalidNameSectionPosition | DuplicateExportName
| FuncCodeInconsistent | DataSegAndDataCountInconsistent | UnknownImport | IncompatibleImportType
| TooManyItems | TooManyTypes | TooManyParams | TooManyReturns | TooManyImports | TooManyFunctions
| TooManyTables | TooManyMemories | TooManyGlobals | TooManyExports | TooManyElemSegments
| TooManyDataSegments | TooManyLocals | SectionSizeTooLarge | FunctionSizeTooLarge | TableSizeTooLarge
| MemorySizeTooLarge | DataSegmentTooLarge | DataSectionTooLarge | CodeSectionTooLarge.

(** ** LEB128 *)

Section Leb.
Variable wide_shift : Z -> Z -> Z.

(** [((T)(Byte & 0x7f)) << Shift] *)
Definition shl (T : int_ty) (b Shift : Z) : Z :=
  if Shift <? sizeof T * 8 then cast T (Z.shiftl b Shift) else cast T (wide_shift b Shift).

Record leb_state : Type := mkLeb {
  Result : Z;
  Shift : Z;
  Count : Z;
  Byte : Z;
}.

Definition leb_init : leb_state := mkLeb 0 0 0 0.

(** The loop; [n] is the distance from [Ip] to the adjusted [End]. *)
Fixpoint lebLoop (T : int_ty) (n : nat) (bs : list Z) (s : leb_state) : leb_state * list Z :=
  match n, bs with
  | S n, b :: bs =>
      let R := cast T (Z.lor (Result s) (shl T (Z.land b 0x7f) (Shift s))) in
      let s' := mkLeb R (Shift s + 7) (Count s) b in
      if Z.land b 0x80 =? 0 then (s', bs)
      else lebLoop T n bs (mkLeb R (Shift s + 7) (Count s + 1) b)
  | _, _ => (s, bs)
  end.

Definition readLEBNumber (T : int_ty) (bs : list Z) : ErrorCode + (Z * list Z) :=
  let '(s, rest) := lebLoop T (Z.to_nat (MaxBytes T + 1)) bs leb_init in
  if (MaxBytes T <=? Count s) || negb (Z.land (Byte s) 0x80 =? 0) then inl LEBIntTooLong
  else if negb (Signed T) && (sizeof T =? 4) && (sizeof T * 8 <=? Shift s) then
    if negb (Z.land (Byte s) 0xf0 =? 0) then inl LEBIntTooLarge else inr (Result s, rest)
  else if Signed T then
    if Shift s <? sizeof T * 8 then
      if negb (Z.land (Byte s) 0x40 =? 0)
      then inr (cast T (Z.lor (Result s) (wrap (sizeof T * 8) (Z.shiftl (-1) (Shift s)))), rest)
      else inr (Result s, rest)
    else if sizeof T =? 4 then
      let SignBitSet := negb (Z.land (Byte s) 0x8 =? 0) in
      let TopBits := Z.land (Byte s) 0xf0 in
      if (SignBitSet && negb (TopBits =? 0x70)) || (negb SignBitSet && negb (TopBits =? 0))
      then inl LEBIntTooLarge else inr (Result s, rest)
    else
      let SignBitSet := negb (Z.land (Byte s) 0x1 =? 0) in
      let TopBits := Z.land (Byte s) 0xfe in
      if (SignBitSet && negb (TopBits =? 0x7e)) || (negb SignBitSet && negb (TopBits =? 0))
      then inl LEBIntTooLarge else inr (Result s, rest)
  else inr (Result s, rest).

(** The loop without a bound; it runs off the end of the bytes when no byte
    ends the number. *)
Fixpoint safeLoop (T : int_ty) (bs : list Z) (s : leb_state) : option (leb_state * list Z) :=
  match bs with
  | [] => None
  | b :: bs =>
      let R := cast T (Z.lor (Result s) (shl T (Z.land b 0x7f) (Shift s))) in
      let s' := mkLeb R (Shift s + 7) (Count s) b in
      if Z.land b 0x80 =? 0 then Some (s', bs) else safeLoop T bs s'
  end.

Definition readSafeLEBNumber (T : int_ty) (bs : list Z) : option (Z * list Z) :=
  '(s, rest) ← safeLoop T bs leb_init;
  Some (if Signed T && (Shift s <? sizeof T * 8) && negb (Z.land (Byte s) 0x40 =? 0)
        then cast T (Z.lor (Result s) (wrap (sizeof T * 8) (Z.shiftl (-1) (Shift s))))
        else Result s, rest).

(** [while ((Ip < End) && ( *(Ip++) & 0x80))] *)
Fixpoint skipLoop (n : nat) (bs : list Z) : nat * list Z :=
  match n, bs with
  | S n, b :: bs => if negb (Z.land b 0x80 =? 0) then skipLoop n bs else (n, bs)
  | _, _ => (n, bs)
  end.

(** The bytes after the number, and whether [ZEN_ASSERT(Ip < End)] holds. *)
Definition skipLEBNumber (T : int_ty) (bs : list Z) : list Z * bool :=
  let '(n, rest) := skipLoop (Z.to_nat (MaxBytes T + 1)) bs in
  (rest, (0 <? n)%nat && (0 <? length rest)%nat).

(** ** Numbers of fixed length *)

(** [readFixedNumber], on the object representation of the number. *)
Definition readFixedNumber (size : nat) (bs : list Z) : list Z * list Z :=
  if (length bs <? size)%nat then (replicate size 0, []) else (take size bs, drop size bs).

(** ** The cursor of a loader: the bytes from [Ptr] to [End] *)

Definition readByte (bs : list Z) : ErrorCode + (Z * list Z) :=
  match bs with [] => inl UnexpectedEnd | b :: bs => inr (b, bs) end.

Definition readBytes (Size : Z) (bs : list Z) : ErrorCode + (list Z * list Z) :=
  if Z.of_nat (length bs) <? Size then inl UnexpectedEnd
  else inr (take (Z.to_nat Size) bs, drop (Z.to_nat Size) bs).

Definition readLEB (T : int_ty) (bs : list Z) : ErrorCode + (Z * list Z) :=
  match bs with [] => inl UnexpectedEnd | _ => readLEBNumber T bs end.

Definition readI32 : list Z -> ErrorCode + (Z * list Z) := readLEB TI32.
Definition readI64 : list Z -> ErrorCode + (Z * list Z) := readLEB TI64.
Definition readU32 : list Z -> ErrorCode + (Z * list Z) := readLEB TU32.

(** [readU64] returns a [uint32_t]. *)
Definition readU64 (bs : list Z) : ErrorCode + (Z * list Z) :=
  match readLEB TU64 bs with inl e => inl e | inr (v, r) => inr (u32 v, r) end.

Definition readPlainU32 (bs : list Z) : ErrorCode + (Z * list Z) :=
  match readBytes 4 bs with inl e => inl e | inr (b, r) => inr (le_value b, r) end.
End Leb.
