(* ===== verification/Leb128Correct.v ===== *)
(** The readers of [Leb128] against the definition of the format: the groups
    of seven bits up to the first byte below 128 make up the number, which is
    accepted when it has no more bytes than its type allows and is in the
    range of the type. *)

From S2P Require Import Prelude Intx Leb128.

#[local] Open Scope Z_scope.

(** ** The format *)

(** The bytes of the number that starts a string, and those after it. *)
Fixpoint leb_split (bs : list Z) : option (list Z * list Z) :=
  match bs with
  | [] => None
  | b :: bs => if b <? 128 then Some ([b], bs) else '(g, r) ← leb_split bs; Some (b :: g, r)
  end.

Fixpoint leb_unsigned (g : list Z) : Z :=
  match g with [] => 0 | b :: g => b mod 128 + 128 * leb_unsigned g end.

(** The value: the top bit of the last group is the sign of a signed number. *)
Definition leb_value (T : int_ty) (g : list Z) : Z :=
  if Signed T then swrap (7 * Z.of_nat (length g)) (leb_unsigned g) else leb_unsigned g.

(** What reading gives.  For a [uint64_t] the range is not checked: the value
    is taken modulo [2 ^ 64]. *)
Definition leb_spec (T : int_ty) (bs : list Z) : ErrorCode + (Z * list Z) :=
  match leb_split (take (Z.to_nat (MaxBytes T)) bs) with
  | None => inl LEBIntTooLong
  | Some (g, _) =>
      let v := leb_value T g in
      if (cast T v =? v) || bool_decide (T = TU64) then inr (cast T v, drop (length g) bs)
      else inl LEBIntTooLarge
  end.

(** ** Casts *)

Lemma width_pos T : 0 < sizeof T * 8.
Proof. by destruct T. Qed.

Lemma MaxBytes_values T : MaxBytes T = match T with TU8 => 2 | TI32 | TU32 => 5 | TI64 | TU64 => 10 end.
Proof. by destruct T. Qed.

Lemma wrap_lor w a b : 0 <= w -> wrap w (Z.lor a b) = Z.lor (wrap w a) (wrap w b).
Proof. intros. unfold wrap. rewrite <- !Z.land_ones by lia. apply Z.land_lor_distr_l. Qed.

Lemma wrap_swrap w z : 0 <= w -> wrap w (swrap w z) = wrap w z.
Proof.
  intros. unfold wrap, swrap. rewrite Zminus_mod_idemp_l. f_equal. lia.
Qed.

Lemma wrap_wrap w z : wrap w (wrap w z) = wrap w z.
Proof. unfold wrap. apply Zmod_mod. Qed.

Lemma swrap_wrap w z : swrap w (wrap w z) = swrap w z.
Proof. unfold swrap, wrap. by rewrite Zplus_mod_idemp_l. Qed.

(** A cast depends on the low bits only. *)
Lemma cast_eq T a b : wrap (sizeof T * 8) a = wrap (sizeof T * 8) b -> cast T a = cast T b.
Proof.
  intros E. unfold cast. destruct (Signed T); [|done].
  by rewrite <- (swrap_wrap _ a), <- (swrap_wrap _ b), E.
Qed.

Lemma wrap_cast T z : wrap (sizeof T * 8) (cast T z) = wrap (sizeof T * 8) z.
Proof.
  pose proof (width_pos T). unfold cast. destruct (Signed T); [apply wrap_swrap; lia|apply wrap_wrap].
Qed.

Lemma cast_cast T z : cast T (cast T z) = cast T z.
Proof. apply cast_eq, wrap_cast. Qed.

Lemma cast_lor T a b : cast T (Z.lor (cast T a) (cast T b)) = cast T (Z.lor a b).
Proof.
  pose proof (width_pos T). apply cast_eq. by rewrite !wrap_lor, !wrap_cast by lia.
Qed.

(** ** Bytes *)

(** A fact about every byte, by looking at each. *)
Lemma all_bytes (P : Z -> bool) :
  forallb P (seqZ 0 256) = true -> forall b, is_byte b -> P b = true.
Proof.
  intros H b Hb. rewrite forallb_forall in H. apply H, list_elem_of_In, elem_of_seqZ.
  unfold in_u in Hb. lia.
Qed.

Lemma high_bit b : is_byte b -> (Z.land b 0x80 =? 0) = (b <? 128).
Proof.
  intros Hb. apply eqb_prop.
  exact (all_bytes (fun b => eqb (Z.land b 0x80 =? 0) (b <? 128)) eq_refl b Hb).
Qed.

Lemma low_bits b : Z.land b 0x7f = b mod 128.
Proof. apply (Z.land_ones b 7). lia. Qed.

(** ** The groups of a number *)

Inductive closed : list Z -> Prop :=
| closed_last b : 0 <= b < 128 -> closed [b]
| closed_more b g : 128 <= b < 256 -> closed g -> closed (b :: g).

Lemma leb_split_closed bs g r :
  Forall is_byte bs -> leb_split bs = Some (g, r) -> bs = g ++ r /\ closed g.
Proof.
  intros Hbs. revert g. induction Hbs as [|b bs Hb Hbs IH]; intros g; cbn [leb_split]; [done|].
  unfold in_u in Hb. destruct (Z.ltb_spec b 128).
  - intros [= <- <-]. split; [done|]. constructor. lia.
  - destruct (leb_split bs) as [[g' r']|]; cbn [mbind option_bind]; [|done].
    intros [= <- <-]. destruct (IH g' eq_refl) as [-> Hg]. split; [done|]. constructor; [lia|done].
Qed.

Lemma leb_split_none bs : leb_split bs = None -> Forall (fun b => 128 <= b) bs.
Proof.
  induction bs as [|b bs IH]; cbn [leb_split]; [constructor|].
  destruct (Z.ltb_spec b 128); [done|]. destruct (leb_split bs) as [[]|]; [done|]. auto.
Qed.

Lemma closed_bound g : closed g -> 0 <= leb_unsigned g < 2 ^ (7 * Z.of_nat (length g)).
Proof.
  induction 1 as [b Hb|b g Hb Hg IH]; cbn [leb_unsigned length].
  - rewrite Z.mod_small by lia. change (2 ^ (7 * Z.of_nat 1)) with 128. lia.
  - pose proof (Z.mod_pos_bound b 128). rewrite Nat2Z.inj_succ.
    replace (7 * Z.succ (Z.of_nat (length g))) with (7 + 7 * Z.of_nat (length g)) by lia.
    rewrite Z.pow_add_r by lia. change (2 ^ 7) with 128. nia.
Qed.

(** The number in terms of its last group. *)
Lemma closed_top g : closed g ->
  exists low, leb_unsigned g = low + List.last g 0 * 2 ^ (7 * (Z.of_nat (length g) - 1)) /\
    0 <= low < 2 ^ (7 * (Z.of_nat (length g) - 1)) /\ 0 <= List.last g 0 < 128.
Proof.
  induction 1 as [b Hb|b g Hb Hg (low & E & Hlow & Hlast)].
  - exists 0. cbn. rewrite Z.mod_small by lia. lia.
  - exists (b mod 128 + 128 * low). pose proof (Z.mod_pos_bound b 128).
    assert (List.last (b :: g) 0 = List.last g 0) as -> by (by destruct Hg).
    cbn [leb_unsigned length]. rewrite E. assert (0 < length g)%nat by (destruct Hg; cbn; lia).
    replace (7 * (Z.of_nat (S (length g)) - 1)) with (7 + 7 * (Z.of_nat (length g) - 1)) by lia.
    rewrite Z.pow_add_r by lia. change (2 ^ 7) with 128. nia.
Qed.

(** ** The loops *)

Section Loops.
Context (wide_shift : Z -> Z -> Z).
Abbreviation lebLoop := (lebLoop wide_shift).
Abbreviation safeLoop := (safeLoop wide_shift).
Abbreviation shl := (shl wide_shift).

Lemma lor_next x b S : 0 <= S -> 0 <= x < 2 ^ S -> Z.lor x (Z.shiftl b S) = x + b * 2 ^ S.
Proof.
  intros HS Hx. assert (Z.land x (Z.shiftl b S) = 0) as E.
  { apply Z.bits_inj'. intros n Hn. rewrite Z.land_spec, Z.bits_0.
    destruct (Z.lt_ge_cases n S); [rewrite Z.shiftl_spec_low by lia; apply andb_false_r|].
    by rewrite (u_bits_high S x) by done. }
  by rewrite <- Z.lxor_lor, <- Z.add_nocarry_lxor, Z.shiftl_mul_pow2 by done.
Qed.

(** One round of either loop. *)
Lemma round_result T x b S :
  0 <= S < sizeof T * 8 -> 0 <= x < 2 ^ S ->
  cast T (Z.lor (cast T x) (shl T (Z.land b 0x7f) S)) = cast T (x + b mod 128 * 2 ^ S).
Proof.
  intros HS Hx. unfold Leb128.shl. rewrite (proj2 (Z.ltb_lt _ _)), cast_lor, low_bits by lia.
  by rewrite lor_next by lia.
Qed.

Lemma next_bound x b S : 0 <= S -> 0 <= x < 2 ^ S -> 0 <= x + b mod 128 * 2 ^ S < 2 ^ (S + 7).
Proof.
  intros HS Hx. pose proof (Z.mod_pos_bound b 128). rewrite Z.pow_add_r by lia. change (2 ^ 7) with 128. nia.
Qed.

Lemma next_value x b u S :
  0 <= S -> x + b mod 128 * 2 ^ S + u * 2 ^ (S + 7) = x + (b mod 128 + 128 * u) * 2 ^ S.
Proof. intros HS. rewrite Z.pow_add_r by lia. change (2 ^ 7) with 128. lia. Qed.

(** The state after the groups [g]. *)
Definition after (T : int_ty) (g : list Z) (x : Z) (s : leb_state) : leb_state :=
  mkLeb (cast T (x + leb_unsigned g * 2 ^ Shift s)) (Shift s + 7 * Z.of_nat (length g))
    (Count s + Z.of_nat (length g) - 1) (List.last g 0).

Lemma lebLoop_closed T g r n s x :
  closed g -> (length g <= n)%nat -> Result s = cast T x -> 0 <= Shift s -> 0 <= x < 2 ^ Shift s ->
  Shift s + 7 * (Z.of_nat (length g) - 1) < sizeof T * 8 ->
  lebLoop T n (g ++ r) s = (after T g x s, r).
Proof.
  intros Hg. revert n s x. induction Hg as [b Hb|b g Hb Hg IH]; intros n s x Hn HR HS Hx Hw;
    (destruct n as [|n]; [cbn in Hn; lia|]); cbn [app Leb128.lebLoop length] in *;
    rewrite high_bit, HR, round_result by (done || (unfold in_u; lia)).
  - rewrite (proj2 (Z.ltb_lt _ _)) by lia. unfold after. cbn [leb_unsigned length List.last].
    rewrite Z.mul_0_r, Z.add_0_r. do 2 f_equal; lia.
  - rewrite (proj2 (Z.ltb_ge _ _)) by lia. assert (0 < length g)%nat by (destruct Hg; cbn; lia).
    rewrite (IH n _ (x + b mod 128 * 2 ^ Shift s)); cbn [Result Shift]; try done; try lia;
      [|by apply next_bound].
    unfold after. cbn [leb_unsigned length Shift Count]. rewrite next_value by done.
    assert (List.last (b :: g) 0 = List.last g 0) as -> by (by destruct Hg). do 2 f_equal; lia.
Qed.

Lemma safeLoop_closed T g r s x :
  closed g -> Result s = cast T x -> 0 <= Shift s -> 0 <= x < 2 ^ Shift s ->
  Shift s + 7 * (Z.of_nat (length g) - 1) < sizeof T * 8 ->
  exists s', safeLoop T (g ++ r) s = Some (s', r) /\ Result s' = Result (after T g x s) /\
    Shift s' = Shift (after T g x s) /\ Byte s' = List.last g 0.
Proof.
  intros Hg. revert s x. induction Hg as [b Hb|b g Hb Hg IH]; intros s x HR HS Hx Hw;
    cbn [app Leb128.safeLoop length] in *;
    rewrite high_bit, HR, round_result by (done || (unfold in_u; lia)).
  - rewrite (proj2 (Z.ltb_lt _ _)) by lia. eexists. split; [done|]. cbn.
    rewrite Z.add_0_r. split_and!; [done|lia|done].
  - rewrite (proj2 (Z.ltb_ge _ _)) by lia. assert (0 < length g)%nat by (destruct Hg; cbn; lia).
    destruct (IH (mkLeb (cast T (x + b mod 128 * 2 ^ Shift s)) (Shift s + 7) (Count s) b)
      (x + b mod 128 * 2 ^ Shift s)) as (s' & -> & HR' & HS' & HB'); cbn [Result Shift]; try done; try lia;
      [by apply next_bound|].
    exists s'. split; [done|]. cbn [after Result Shift] in *. rewrite HR', HS', HB', next_value by done.
    assert (List.last (b :: g) 0 = List.last g 0) as -> by (by destruct Hg).
    cbn [leb_unsigned length]. split_and!; [done|lia|done].
Qed.

Lemma skipLoop_closed g r n :
  closed g -> (length g <= n)%nat -> skipLoop n (g ++ r) = ((n - length g)%nat, r).
Proof.
  intros Hg. revert n. induction Hg as [b Hb|b g Hb Hg IH]; intros n Hn;
    (destruct n as [|n]; [cbn in Hn; lia|]); cbn [app skipLoop length] in *;
    rewrite high_bit by (unfold in_u; lia).
  - rewrite (proj2 (Z.ltb_lt _ _)) by lia. cbn [negb]. f_equal. lia.
  - rewrite (proj2 (Z.ltb_ge _ _)) by lia. cbn [negb]. rewrite IH by lia. done.
Qed.

Lemma last_default (l : list Z) a d : List.last (a :: l) d = List.last l a.
Proof.
  revert a d. induction l as [|b l IH]; intros a d; [done|].
  change (List.last (b :: l) d = List.last (b :: l) a). by rewrite !IH.
Qed.

(** Bytes that do not end a number. *)
Lemma lebLoop_open T l r n s :
  Forall is_byte l -> Forall (fun b => 128 <= b) l -> (length l <= n)%nat ->
  exists R, lebLoop T n (l ++ r) s =
    lebLoop T (n - length l) r
      (mkLeb R (Shift s + 7 * Z.of_nat (length l)) (Count s + Z.of_nat (length l)) (List.last l (Byte s))).
Proof.
  intros Hl. revert n s. induction Hl as [|b l Hb Hl IH]; intros n s Hbig Hn.
  { exists (Result s). destruct s as [R S C B]. cbn [app length List.last Shift Count Byte Result].
    rewrite Nat.sub_0_r. f_equal. f_equal; lia. }
  apply Forall_cons_iff in Hbig as [Hb' Hbig]. destruct n as [|n]; [cbn in Hn; lia|].
  cbn [app Leb128.lebLoop length] in *. rewrite high_bit, (proj2 (Z.ltb_ge _ _)) by (done || lia).
  edestruct (IH n) as [R ->]; [done|lia|]. exists R. cbn [Shift Count Byte Result].
  replace (List.last (b :: l) (Byte s)) with (List.last l b) by (by rewrite last_default).
  replace (S n - S (length l))%nat with (n - length l)%nat by lia. f_equal. f_equal; lia.
Qed.
End Loops.

(** ** The checks after the loop *)

Lemma bit6 b : is_byte b -> b < 128 -> (Z.land b 0x40 =? 0) = (b <? 64).
Proof.
  intros Hb Hs. pose proof (all_bytes (fun b => (128 <=? b) || eqb (Z.land b 0x40 =? 0) (b <? 64)) eq_refl b Hb) as E.
  cbn beta in E. rewrite (proj2 (Z.leb_gt _ _)) in E by lia. by apply eqb_prop.
Qed.

Lemma top_u32 b : is_byte b -> (Z.land b 0xf0 =? 0) = (b <? 16).
Proof.
  intros Hb. apply eqb_prop. exact (all_bytes (fun b => eqb (Z.land b 0xf0 =? 0) (b <? 16)) eq_refl b Hb).
Qed.

(** The bits of the last group above the sign bit repeat it. *)
Definition sign_repeats (b sign top ones : Z) : bool :=
  let SignBitSet := negb (Z.land b sign =? 0) in
  let TopBits := Z.land b top in
  (SignBitSet && negb (TopBits =? ones)) || (negb SignBitSet && negb (TopBits =? 0)).

Lemma top_i32 b : is_byte b -> b < 128 -> sign_repeats b 0x8 0xf0 0x70 = (8 <=? b) && (b <? 120).
Proof.
  intros Hb Hs.
  pose proof (all_bytes (fun b => (128 <=? b) || eqb (sign_repeats b 0x8 0xf0 0x70) ((8 <=? b) && (b <? 120)))
    eq_refl b Hb) as E.
  cbn beta in E. rewrite (proj2 (Z.leb_gt _ _)) in E by lia. by apply eqb_prop.
Qed.

Lemma top_i64 b : is_byte b -> b < 128 -> sign_repeats b 0x1 0xfe 0x7e = (1 <=? b) && (b <? 127).
Proof.
  intros Hb Hs.
  pose proof (all_bytes (fun b => (128 <=? b) || eqb (sign_repeats b 0x1 0xfe 0x7e) ((1 <=? b) && (b <? 127)))
    eq_refl b Hb) as E.
  cbn beta in E. rewrite (proj2 (Z.leb_gt _ _)) in E by lia. by apply eqb_prop.
Qed.

Lemma swrap_cases n u :
  0 < n -> 0 <= u < 2 ^ n -> swrap n u = if u <? 2 ^ (n - 1) then u else u - 2 ^ n.
Proof.
  intros Hn Hu. assert (2 ^ n = 2 * 2 ^ (n - 1)) as E by (rewrite <- Z.pow_succ_r by lia; f_equal; lia).
  unfold swrap. destruct (Z.ltb_spec u (2 ^ (n - 1))).
  - rewrite Z.mod_small by lia. lia.
  - replace (u + 2 ^ (n - 1)) with (u - 2 ^ (n - 1) + 1 * 2 ^ n) by lia.
    rewrite Z.mod_add, Z.mod_small by lia. lia.
Qed.

(** Sign extension by hand. *)
Lemma sign_extend T g :
  Signed T = true -> closed g -> 7 * Z.of_nat (length g) < sizeof T * 8 ->
  leb_value T g =
  if negb (Z.land (List.last g 0) 0x40 =? 0)
  then cast T (Z.lor (cast T (leb_unsigned g)) (wrap (sizeof T * 8) (Z.shiftl (-1) (7 * Z.of_nat (length g)))))
  else cast T (leb_unsigned g).
Proof.
  intros HT Hg Hw. set (S := 7 * Z.of_nat (length g)) in *.
  destruct (closed_top g Hg) as (low & E & Hlow & Hlast). pose proof (closed_bound g Hg) as Hu.
  assert (0 < length g)%nat by (destruct Hg; cbn; lia). fold S in Hu.
  rewrite bit6 by (unfold in_u; lia). unfold leb_value. rewrite HT. fold S.
  rewrite swrap_cases by (try done; unfold S; lia).
  assert (2 ^ (S - 1) = 64 * 2 ^ (7 * (Z.of_nat (length g) - 1))) as E1.
  { change 64 with (2 ^ 6). rewrite <- Z.pow_add_r by lia. f_equal. unfold S. lia. }
  assert (2 ^ S = 2 * 2 ^ (S - 1)) as E2 by (rewrite <- Z.pow_succ_r by (unfold S; lia); f_equal; lia).
  assert (2 ^ S <= 2 ^ (sizeof T * 8 - 1)) as E3 by (apply Z.pow_le_mono_r; lia).
  assert (forall z, - 2 ^ S <= z < 2 ^ S -> cast T z = z) as Hc.
  { intros z Hz. unfold cast. rewrite HT. apply swrap_small; [apply width_pos|lia]. }
  set (P := 2 ^ (7 * (Z.of_nat (length g) - 1))) in *. set (top := List.last g 0) in *.
  destruct (Z.ltb_spec top 64); cbn [negb].
  - assert (top * P <= 63 * P) by (apply Z.mul_le_mono_nonneg_r; lia).
    rewrite (proj2 (Z.ltb_lt _ _)), Hc by lia. done.
  - assert (64 * P <= top * P) by (apply Z.mul_le_mono_nonneg_r; lia).
    rewrite (proj2 (Z.ltb_ge _ _)) by lia.
    assert (cast T (Z.lor (cast T (leb_unsigned g)) (wrap (sizeof T * 8) (Z.shiftl (-1) S))) =
      cast T (Z.lor (leb_unsigned g) (Z.shiftl (-1) S))) as ->.
    { pose proof (width_pos T). apply cast_eq. by rewrite !wrap_lor, wrap_cast, wrap_wrap by lia. }
    rewrite lor_next by (unfold S in *; lia). rewrite Hc by lia. lia.
Qed.

Lemma swrap_fits w z :
  0 < w -> (swrap w z =? z) = (- 2 ^ (w - 1) <=? z) && (z <? 2 ^ (w - 1)).
Proof.
  intros Hw. destruct (Z.eqb_spec (swrap w z) z) as [E|E].
  - pose proof (swrap_range w z Hw). symmetry. apply andb_true_iff. rewrite Z.leb_le, Z.ltb_lt. lia.
  - symmetry. apply andb_false_iff. rewrite Z.leb_gt, Z.ltb_ge.
    destruct (Z.lt_ge_cases z (- 2 ^ (w - 1))); [by left|right].
    destruct (Z.lt_ge_cases z (2 ^ (w - 1))); [|done]. by rewrite swrap_small in E by lia.
Qed.

Lemma swrap_swrap w n z : 0 <= w <= n -> swrap w (swrap n z) = swrap w z.
Proof.
  intros Hw. rewrite <- (swrap_wrap w z), <- (swrap_wrap w (swrap n z)). f_equal. unfold wrap, swrap.
  assert (2 ^ n = 2 ^ (n - w) * 2 ^ w) as E by (rewrite <- Z.pow_add_r by lia; f_equal; lia).
  rewrite Zminus_mod, Z.mod_mod_divide, <- Zminus_mod by (by exists (2 ^ (n - w))). f_equal. lia.
Qed.

Section Read.
Context (wide_shift : Z -> Z -> Z).

(** A signed number of the greatest length. *)
Lemma longest_signed T g :
  Signed T = true -> closed g -> Z.of_nat (length g) = MaxBytes T ->
  (cast T (leb_value T g) =? leb_value T g) =
    negb (if sizeof T =? 4 then sign_repeats (List.last g 0) 0x8 0xf0 0x70
          else sign_repeats (List.last g 0) 0x1 0xfe 0x7e) /\
  cast T (leb_value T g) = cast T (leb_unsigned g).
Proof.
  intros HT Hg HL. destruct (closed_top g Hg) as (low & E & Hlow & Hlast).
  pose proof (closed_bound g Hg) as Hu. unfold leb_value, cast. rewrite HT, HL in *. split.
  2: { apply swrap_swrap. by destruct T. }
  rewrite swrap_fits by apply width_pos. rewrite swrap_cases by (try done; by destruct T).
  destruct T; try done; [rewrite top_i32|rewrite top_i64]; try (unfold in_u; lia); cbn [sizeof Z.eqb Pos.eqb].
  - change (7 * (MaxBytes TI32 - 1)) with 28 in *. change (7 * MaxBytes TI32) with 35 in *.
    change (4 * 8 - 1) with 31. change (35 - 1) with 34. 
    destruct (Z.leb_spec 8 (List.last g 0)), (Z.ltb_spec (List.last g 0) 120),
      (Z.ltb_spec (leb_unsigned g) (2 ^ 34)); cbn [andb negb];
      rewrite ?andb_true_iff, ?andb_false_iff, ?Z.leb_le, ?Z.ltb_lt, ?Z.leb_gt, ?Z.ltb_ge; lia.
  - change (7 * (MaxBytes TI64 - 1)) with 63 in *. change (7 * MaxBytes TI64) with 70 in *.
    change (8 * 8 - 1) with 63. change (70 - 1) with 69. 
    destruct (Z.leb_spec 1 (List.last g 0)), (Z.ltb_spec (List.last g 0) 127),
      (Z.ltb_spec (leb_unsigned g) (2 ^ 69)); cbn [andb negb];
      rewrite ?andb_true_iff, ?andb_false_iff, ?Z.leb_le, ?Z.ltb_lt, ?Z.leb_gt, ?Z.ltb_ge; lia.
Qed.

Lemma unsigned_fits w u : 0 <= u -> 0 < w -> (wrap w u =? u) = (u <? 2 ^ w).
Proof.
  intros Hu Hw. destruct (Z.ltb_spec u (2 ^ w)).
  - apply Z.eqb_eq, wrap_small. unfold in_u. lia.
  - apply Z.eqb_neq. pose proof (wrap_range w u ltac:(lia)) as Hr. unfold in_u in Hr. lia.
Qed.

(** The state after the groups of the number. *)
Lemma read_closed T g r :
  T <> TU8 -> closed g -> Z.of_nat (length g) <= MaxBytes T ->
  readLEBNumber wide_shift T (g ++ r) =
  let v := leb_value T g in
  if (cast T v =? v) || bool_decide (T = TU64) then inr (cast T v, r) else inl LEBIntTooLarge.
Proof.
  intros HT Hg HL. unfold readLEBNumber.
  assert (0 < length g)%nat by (destruct Hg; cbn; lia).
  destruct (closed_top g Hg) as (low & E & Hlow & Hlast). pose proof (closed_bound g Hg) as Hu.
  assert (7 * (Z.of_nat (length g) - 1) < sizeof T * 8) as Hw
    by (clear - HL; rewrite MaxBytes_values in HL; destruct T; cbn [sizeof]; lia).
  rewrite (lebLoop_closed wide_shift T g r _ leb_init 0); try done; [|lia|by destruct T].
  unfold after. cbn [Count Byte Shift Result leb_init]. rewrite !Z.add_0_l, Z.mul_1_r.
  rewrite (proj2 (Z.leb_gt _ _)), high_bit, (proj2 (Z.ltb_lt _ 128)) by (unfold in_u; lia). cbn [orb negb].
  destruct (Signed T) eqn:ES; cbn [negb andb].
  - destruct (Z.ltb_spec (7 * Z.of_nat (length g)) (sizeof T * 8)).
    + pose proof (sign_extend T g ES Hg ltac:(lia)) as Ev. cbn zeta.
      assert (cast T (leb_value T g) = leb_value T g) as Ec by (rewrite Ev; destruct (negb _); apply cast_cast).
      rewrite Ec, Z.eqb_refl, Ev. cbn [orb]. by destruct (negb _).
    + assert (Z.of_nat (length g) = MaxBytes T) as HL' by (clear - HL ES H0; rewrite MaxBytes_values in *; destruct T; cbn [sizeof] in *; try done; lia).
      destruct (longest_signed T g ES Hg HL') as [Ef Ev]. cbn zeta. rewrite Ef, Ev.
      rewrite bool_decide_false, orb_false_r by (by intros ->). 
      unfold sign_repeats. destruct T; try done; cbn [sizeof Z.eqb Pos.eqb]; by destruct (_ || _).
  - unfold leb_value, cast. rewrite ES. cbn zeta. destruct T; try done; cbn [sizeof Z.eqb Pos.eqb andb].
    + rewrite unsigned_fits, bool_decide_false, orb_false_r, top_u32 by (done || (unfold in_u; lia)).
      destruct (Z.leb_spec (4 * 8) (7 * Z.of_nat (length g))).
      * assert (length g = 5)%nat as E5 by (rewrite MaxBytes_values in HL; lia). rewrite E5 in E, Hlow.
        change (7 * (Z.of_nat 5 - 1)) with 28 in *.
        destruct (Z.ltb_spec (List.last g 0) 16); cbn [negb].
        -- rewrite (proj2 (Z.ltb_lt _ _)) by lia. done.
        -- rewrite (proj2 (Z.ltb_ge _ _)) by lia. done.
      * rewrite (proj2 (Z.ltb_lt _ _)); [done|].
        enough (2 ^ (7 * Z.of_nat (length g)) <= 2 ^ (4 * 8)) by lia. apply Z.pow_le_mono_r; lia.
    + by rewrite orb_true_r.
Qed.

(** Too many bytes, or no last one. *)
Lemma read_open T bs :
  Forall is_byte bs -> bs <> [] -> leb_split (take (Z.to_nat (MaxBytes T)) bs) = None ->
  readLEBNumber wide_shift T bs = inl LEBIntTooLong.
Proof.
  intros Hbs Hne Hn%leb_split_none. set (M := Z.to_nat (MaxBytes T)) in *. unfold readLEBNumber.
  destruct (lebLoop_open wide_shift T (take M bs) (drop M bs) (Z.to_nat (MaxBytes T + 1)) leb_init)
    as [R HR]; [by apply Forall_take|done|rewrite length_take; subst M; destruct T; cbn; lia|].
  rewrite take_drop in HR. rewrite HR. clear HR. cbn [leb_init Shift Count Byte].
  assert (Z.of_nat M = MaxBytes T) as EM by (by destruct T).
  destruct (drop M bs) as [|c r] eqn:Er.
  - assert (take M bs = bs) as E by (rewrite <- (take_drop M bs) at 2; by rewrite Er, app_nil_r).
    rewrite E in *. assert (128 <= List.last bs 0 < 256) as Hlast.
    { destruct bs as [|b bs]; [done|]. rewrite last_default.
      rewrite Forall_forall in Hbs, Hn. assert (In (List.last bs b) (b :: bs)) as Hin.
      { clear. revert b. induction bs as [|c bs IH]; intros b; [by left|]. right. rewrite last_default. apply IH. }
      specialize (Hbs _ Hin). specialize (Hn _ Hin). cbn in Hn. unfold in_u in Hbs. lia. }
    assert (forall n s, lebLoop wide_shift T n [] s = (s, [])) as Enil by (by intros []).
    rewrite Enil. cbn [Count Byte]. rewrite high_bit, (proj2 (Z.ltb_ge _ _)) by (unfold in_u; lia).
    by rewrite orb_true_r.
  - assert (length (take M bs) = M) as El.
    { rewrite length_take. pose proof (length_drop bs M) as Hd. rewrite Er in Hd. cbn in Hd. lia. }
    rewrite El. replace (Z.to_nat (MaxBytes T + 1) - M)%nat with 1%nat by lia.
    cbn [lebLoop Result Shift Count Byte]. destruct (Z.land c 0x80 =? 0); cbn [Count];
      rewrite (proj2 (Z.leb_le _ _)) by lia; done.
Qed.

(** The groups of an accepted number start the bytes. *)
Lemma split_groups n bs g r :
  Forall is_byte bs -> leb_split (take n bs) = Some (g, r) ->
  closed g /\ (0 < length g <= n)%nat /\ bs = g ++ drop (length g) bs.
Proof.
  intros Hbs Es. pose proof (leb_split_closed _ _ _ ltac:(by apply Forall_take) Es) as [Et Hg].
  split; [done|]. split.
  - pose proof (length_take bs n) as Hl. rewrite Et, length_app in Hl. destruct Hg; cbn in *; lia.
  - rewrite <- (take_drop n bs), Et, <- app_assoc, drop_app_length. done.
Qed.

Lemma readLEBNumber_spec T bs :
  T <> TU8 -> Forall is_byte bs -> bs <> [] -> readLEBNumber wide_shift T bs = leb_spec T bs.
Proof.
  intros HT Hbs Hne. unfold leb_spec. destruct (leb_split _) as [[g r]|] eqn:Es; [|by apply read_open].
  destruct (split_groups _ _ _ _ Hbs Es) as (Hg & HL & Eb).
  rewrite Eb at 1. apply read_closed; [done|done|]. lia.
Qed.

(** A number that was accepted is read without checks, and skipped, alike. *)
Lemma spec_agrees T bs v rest :
  T <> TU8 -> Forall is_byte bs -> leb_spec T bs = inr (v, rest) ->
  readSafeLEBNumber wide_shift T bs = Some (v, rest) /\
  skipLEBNumber T bs = (rest, negb (bool_decide (rest = []))).
Proof.
  intros HT Hbs. unfold leb_spec. destruct (leb_split _) as [[g r]|] eqn:Es; [|done].
  destruct (split_groups _ _ _ _ Hbs Es) as (Hg & HL & Eb). set (rest' := drop (length g) bs) in *.
  intros Hv. assert (rest = rest' /\ v = cast T (leb_value T g) /\
    (cast T (leb_value T g) = leb_value T g \/ T = TU64)) as (-> & -> & Hok).
  { cbn zeta in Hv. destruct (_ || _) eqn:Eo in Hv; [|done]. injection Hv as <- <-. split_and!; try done.
    apply orb_true_iff in Eo as [?%Z.eqb_eq|?%bool_decide_eq_true]; auto. }
  assert (7 * (Z.of_nat (length g) - 1) < sizeof T * 8) as Hw.
  { clear - HL. rewrite MaxBytes_values in HL. destruct T; cbn [sizeof]; lia. }
  rewrite Eb. split.
  - unfold readSafeLEBNumber. destruct (safeLoop_closed wide_shift T g rest' leb_init 0) as (s & -> & HR & HS & HB);
      try done; [by destruct T|].
    cbn [mbind option_bind]. do 2 f_equal. rewrite HR, HS, HB. cbn [after Result Shift leb_init].
    rewrite !Z.add_0_l, Z.mul_1_r. destruct (Signed T) eqn:ES; cbn [andb].
    + destruct (Z.ltb_spec (7 * Z.of_nat (length g)) (sizeof T * 8)); cbn [andb].
      * rewrite (sign_extend T g ES Hg) by done. destruct (negb _); by rewrite cast_cast.
      * assert (Z.of_nat (length g) = MaxBytes T) as HL'.
        { clear - HL ES H. rewrite MaxBytes_values in *. destruct T; cbn [sizeof] in *; try done; lia. }
        symmetry. by apply longest_signed.
    + unfold leb_value. by rewrite ES.
  - unfold skipLEBNumber. rewrite skipLoop_closed by (done || lia). f_equal.
    rewrite (proj2 (Nat.ltb_lt _ _)) by lia. by destruct rest'.
Qed.
End Read.

(** * Properties *)


(** * Witnesses *)

