(* ===== verification/Unicode.v ===== *)
(** UTF-8: [src/src/utils/unicode.cpp], which the module loader checks names
    with.

    The check is compared with the definition of the encoding: a string is
    accepted exactly when it is the concatenation of the encodings of Unicode
    scalar values. *)

From S2P Require Import Prelude Intx.

#[local] Open Scope Z_scope.

(** ** The check *)

(** [VALIDATE_TRAILING_BYTE] *)
Definition trailing (c : Z) : bool := negb ((c <? 0x80) || (0xBF <? c)).

(** The loop from [String[I]] on; a string is the bytes that are left. *)
Fixpoint validateUTF8String (bs : list Z) : bool :=
  match bs with
  | [] => true
  | C :: bs1 =>
      if C <=? 0x7F then validateUTF8String bs1
      else
        match bs1 with
        | C1 :: bs2 =>
            if (0xC2 <=? C) && (C <=? 0xDF) then trailing C1 && validateUTF8String bs2
            else
              match bs2 with
              | C2 :: bs3 =>
                  if (0xE0 <=? C) && (C <=? 0xEF) then
                    (if C =? 0xE0 then negb ((C1 <? 0xA0) || (0xBF <? C1)) && trailing C2
                     else if C =? 0xED then negb ((C1 <? 0x80) || (0x9F <? C1)) && trailing C2
                     else trailing C1 && trailing C2)
                    && validateUTF8String bs3
                  else
                    match bs3 with
                    | C3 :: bs4 =>
                        if (0xF0 <=? C) && (C <=? 0xF4) then
                          (if C =? 0xF0 then negb ((C1 <? 0x90) || (0xBF <? C1)) && trailing C2 && trailing C3
                           else if C =? 0xF4 then negb ((C1 <? 0x80) || (0x8F <? C1)) && trailing C2 && trailing C3
                           else trailing C1 && trailing C2 && trailing C3)
                          && validateUTF8String bs4
                        else false
                    | [] => false
                    end
              | [] => false
              end
        | [] => false
        end
  end.

(** ** The encoding *)

(** Code points without the surrogates. *)
Definition scalar (c : Z) : Prop := 0 <= c < 0xD800 \/ 0xE000 <= c < 0x110000.

Definition tail_byte (c : Z) : Z := 0x80 + c mod 64.

Definition utf8 (c : Z) : list Z :=
  if c <? 0x80 then [c]
  else if c <? 0x800 then [0xC0 + c / 64; tail_byte c]
  else if c <? 0x10000 then [0xE0 + c / 4096; tail_byte (c / 64); tail_byte c]
  else [0xF0 + c / 262144; tail_byte (c / 4096); tail_byte (c / 64); tail_byte c].

Definition utf8s (cs : list Z) : list Z := mjoin (utf8 <$> cs).

Lemma trailing_tail c : trailing (tail_byte c) = true.
Proof. unfold trailing, tail_byte. pose proof (Z.mod_pos_bound c 64). lia. Qed.

Lemma trailing_range c : trailing c = true -> 0x80 <= c <= 0xBF.
Proof. unfold trailing. lia. Qed.

(** The parts of a code point. *)
Lemma split64 c : c = c / 64 * 64 + c mod 64 /\ 0 <= c mod 64 < 64.
Proof. pose proof (Z.div_mod c 64). pose proof (Z.mod_pos_bound c 64). lia. Qed.

Lemma div_split c a : 0 < a -> c / (64 * a) = c / 64 / a.
Proof. intros. by rewrite Z.div_div by lia. Qed.

Lemma join64 q r : 0 <= r < 64 -> (q * 64 + r) / 64 = q /\ tail_byte (q * 64 + r) = 0x80 + r.
Proof.
  intros. unfold tail_byte. rewrite Z.div_add_l, Z.div_small by lia.
  rewrite (Z.add_comm (q * 64)), Z.mod_add, Z.mod_small by lia. lia.
Qed.

Lemma validate_utf8 c bs : scalar c -> validateUTF8String (utf8 c ++ bs) = validateUTF8String bs.
Proof.
  intros Hc. unfold utf8. pose proof (trailing_tail c) as T0. pose proof (trailing_tail (c / 64)) as T1.
  change 4096 with (64 * 64). change 262144 with (64 * (64 * 64)). rewrite !div_split by lia.
  pose proof (trailing_tail (c / 64 / 64)) as T2.
  destruct (split64 c) as [E0 R0]. destruct (split64 (c / 64)) as [E1 R1]. destruct (split64 (c / 64 / 64)) as [E2 R2].
  unfold scalar in Hc.
  destruct (Z.ltb_spec c 0x80); [|destruct (Z.ltb_spec c 0x800); [|destruct (Z.ltb_spec c 0x10000)]];
    cbn [app validateUTF8String].
  - rewrite (proj2 (Z.leb_le c 0x7F)) by lia. done.
  - rewrite (proj2 (Z.leb_gt _ _)), (proj2 (Z.leb_le 0xC2 _)), (proj2 (Z.leb_le _ 0xDF)) by lia. by rewrite T0.
  - rewrite (proj2 (Z.leb_gt _ _)) by lia. rewrite (proj2 (Z.leb_gt _ 0xDF)), andb_false_r by lia.
    rewrite (proj2 (Z.leb_le 0xE0 _)), (proj2 (Z.leb_le _ 0xEF)) by lia. cbn [andb]. rewrite T0, T1, !andb_true_r.
    unfold tail_byte. destruct (Z.eqb_spec (0xE0 + c / 64 / 64) 0xE0); [|destruct (Z.eqb_spec (0xE0 + c / 64 / 64) 0xED); [|done]].
    + replace (negb _) with true by lia. done.
    + replace (negb _) with true by lia. done.
  - rewrite (proj2 (Z.leb_gt _ _)) by lia. rewrite (proj2 (Z.leb_gt _ 0xDF)), andb_false_r by lia.
    rewrite (proj2 (Z.leb_gt _ 0xEF)), andb_false_r by lia.
    rewrite (proj2 (Z.leb_le 0xF0 _)), (proj2 (Z.leb_le _ 0xF4)) by lia. cbn [andb]. rewrite T0, T1, T2, !andb_true_r.
    unfold tail_byte. destruct (Z.eqb_spec (0xF0 + c / 64 / 64 / 64) 0xF0);
      [|destruct (Z.eqb_spec (0xF0 + c / 64 / 64 / 64) 0xF4); [|done]].
    + replace (negb _) with true by lia. done.
    + replace (negb _) with true by lia. done.
Qed.

(** The characters of two, three and four bytes. *)
Lemma utf8_2 C C1 : 0xC2 <= C <= 0xDF -> 0x80 <= C1 <= 0xBF -> exists c, scalar c /\ utf8 c = [C; C1].
Proof.
  intros HC H1. destruct (join64 (C - 0xC0) (C1 - 0x80) ltac:(lia)) as [Ed Et].
  set (c := (C - 0xC0) * 64 + (C1 - 0x80)) in *. exists c. split; [unfold scalar; lia|].
  unfold utf8. rewrite (proj2 (Z.ltb_ge c 0x80)), (proj2 (Z.ltb_lt c 0x800)) by lia. repeat f_equal; lia.
Qed.

Lemma utf8_3 C C1 C2 :
  0xE0 <= C <= 0xEF -> 0x80 <= C1 <= 0xBF -> 0x80 <= C2 <= 0xBF ->
  (C = 0xE0 -> 0xA0 <= C1) -> (C = 0xED -> C1 <= 0x9F) -> exists c, scalar c /\ utf8 c = [C; C1; C2].
Proof.
  intros HC H1 H2 Hlow Hsur. destruct (join64 (C - 0xE0) (C1 - 0x80) ltac:(lia)) as [Ed1 Et1].
  destruct (join64 ((C - 0xE0) * 64 + (C1 - 0x80)) (C2 - 0x80) ltac:(lia)) as [Ed2 Et2].
  set (c1 := (C - 0xE0) * 64 + (C1 - 0x80)) in *. set (c := c1 * 64 + (C2 - 0x80)) in *.
  assert (c / 4096 = C - 0xE0) as Ed by (change 4096 with (64 * 64); rewrite div_split by lia; congruence).
  exists c. split; [unfold scalar; lia|]. unfold utf8.
  rewrite (proj2 (Z.ltb_ge c 0x80)), (proj2 (Z.ltb_ge c 0x800)), (proj2 (Z.ltb_lt c 0x10000)) by lia.
  rewrite Ed, Ed2, Et1, Et2. repeat f_equal; lia.
Qed.

Lemma utf8_4 C C1 C2 C3 :
  0xF0 <= C <= 0xF4 -> 0x80 <= C1 <= 0xBF -> 0x80 <= C2 <= 0xBF -> 0x80 <= C3 <= 0xBF ->
  (C = 0xF0 -> 0x90 <= C1) -> (C = 0xF4 -> C1 <= 0x8F) -> exists c, scalar c /\ utf8 c = [C; C1; C2; C3].
Proof.
  intros HC H1 H2 H3 Hlow Htop. destruct (join64 (C - 0xF0) (C1 - 0x80) ltac:(lia)) as [Ed1 Et1].
  set (c1 := (C - 0xF0) * 64 + (C1 - 0x80)) in *. destruct (join64 c1 (C2 - 0x80) ltac:(lia)) as [Ed2 Et2].
  set (c2 := c1 * 64 + (C2 - 0x80)) in *. destruct (join64 c2 (C3 - 0x80) ltac:(lia)) as [Ed3 Et3].
  set (c := c2 * 64 + (C3 - 0x80)) in *.
  assert (c / 4096 = c1) as Ea by (change 4096 with (64 * 64); rewrite div_split by lia; congruence).
  assert (c / 262144 = C - 0xF0) as Eb.
  { change 262144 with (64 * (64 * 64)). rewrite div_split, Ed3, div_split by lia. congruence. }
  exists c. split; [unfold scalar; lia|]. unfold utf8.
  rewrite (proj2 (Z.ltb_ge c 0x80)), (proj2 (Z.ltb_ge c 0x800)), (proj2 (Z.ltb_ge c 0x10000)) by lia.
  rewrite Ea, Eb, Ed3, Et1, Et2, Et3. repeat f_equal; lia.
Qed.

(** The first character of an accepted string. *)
Lemma validate_first bs :
  Forall is_byte bs -> validateUTF8String bs = true ->
  bs = [] \/ exists c bs', scalar c /\ bs = utf8 c ++ bs' /\ validateUTF8String bs' = true.
Proof.
  assert (forall l bs', validateUTF8String bs' = true -> (exists c, scalar c /\ utf8 c = l) ->
    exists c bs'', scalar c /\ l ++ bs' = utf8 c ++ bs'' /\ validateUTF8String bs'' = true) as Hgo.
  { intros l bs' Hv (c & Hc & <-). by exists c, bs'. }
  intros Hb Hv. destruct bs as [|C bs]; [by left|right]. apply Forall_cons_iff in Hb as [HC _].
  cbn [validateUTF8String] in Hv. destruct (Z.leb_spec C 0x7F).
  { apply (Hgo [C]); [done|]. unfold in_u in HC. exists C. split; [unfold scalar; lia|].
    unfold utf8. by rewrite (proj2 (Z.ltb_lt C 0x80)) by lia. }
  destruct bs as [|C1 bs]; [done|]. destruct (_ && _) eqn:E2.
  { apply andb_true_iff in Hv as [H1%trailing_range Hv]. apply (Hgo [C; C1]); [done|]. apply utf8_2; lia. }
  destruct bs as [|C2 bs]; [done|]. destruct ((0xE0 <=? C) && _) eqn:E3.
  { apply andb_true_iff in Hv as [Hcond Hv]. apply (Hgo [C; C1; C2]); [done|].
    destruct (Z.eqb_spec C 0xE0), (Z.eqb_spec C 0xED); unfold trailing in Hcond; apply utf8_3; lia. }
  destruct bs as [|C3 bs]; [done|]. destruct ((0xF0 <=? C) && _) eqn:E4; [|done].
  apply andb_true_iff in Hv as [Hcond Hv]. apply (Hgo [C; C1; C2; C3]); [done|].
  destruct (Z.eqb_spec C 0xF0), (Z.eqb_spec C 0xF4); unfold trailing in Hcond; apply utf8_4; lia.
Qed.

Lemma utf8_nonempty c : (0 < length (utf8 c))%nat.
Proof. unfold utf8. repeat case_match; cbn; lia. Qed.

(** [validateUTF8String] accepts exactly the encodings of
    sequences of Unicode scalar values: no overlong form, no surrogate, no
    number past the last code point, no byte missing. *)
Theorem utf8_exact bs :
  Forall is_byte bs ->
  validateUTF8String bs = true <-> exists cs, Forall scalar cs /\ bs = utf8s cs.
Proof.
  intros Hb. split.
  - remember (length bs) as n eqn:En. revert bs Hb En. induction (lt_wf n) as [n _ IH]. intros bs Hb -> Hv.
    destruct (validate_first bs Hb Hv) as [->|(c & bs' & Hc & -> & Hv')]; [by exists []|].
    apply Forall_app in Hb as [_ Hb]. pose proof (utf8_nonempty c).
    destruct (IH (length bs') ltac:(rewrite length_app; lia) bs' Hb eq_refl Hv') as (cs & Hcs & ->).
    exists (c :: cs). split; [by constructor|done].
  - intros (cs & Hcs & ->). clear Hb. induction Hcs as [|c cs Hc _ IH]; [done|].
    change (utf8s (c :: cs)) with (utf8 c ++ utf8s cs). by rewrite validate_utf8.
Qed.

(** The bytes of a euro sign and a clef. *)
Lemma utf8_exact_witness :
  exists cs, Forall scalar cs /\ [0xE2; 0x82; 0xAC; 0xF0; 0x9D; 0x84; 0x9E] = utf8s cs.
Proof. apply (utf8_exact [0xE2; 0x82; 0xAC; 0xF0; 0x9D; 0x84; 0x9E]); [by repeat constructor|reflexivity]. Defined.
