(* ===== verification/FunctionLoader.v ===== *)
(** The validator of WebAssembly function bodies:
    [src/src/action/function_loader.{h,cpp}], with what it uses of
    [loader_common.h], [common/type.h], [runtime/module.{h,cpp}] and the
    [wasm_defs] tables.  The build has neither [ZEN_ENABLE_DWASM], whose
    limits come on top, nor [ZEN_ENABLE_MULTIPASS_JIT], whose list of callees
    does not influence the result.

    A vector used as a stack is a list with the last element first.  A pointer
    into the body is its offset from [Start].  Reading past a vector, a table
    or an [ZEN_ABORT] is undefined behaviour ([Undef]). *)

From S2P Require Import Prelude Intx Leb128.

#[local] Open Scope Z_scope.

(** ** Types *)

Inductive WASMType : Type :=
| VOID | I8 | I16 | I32 | I64 | F32 | F64 | FUNCREF | ANY | ERROR_TYPE.

#[export] Instance WASMType_eq_dec : EqDecision WASMType.
Proof. solve_decision. Defined.

Definition getWASMTypeSize (Type_ : WASMType) : option Z :=
  match Type_ with
  | I8 => Some 1
  | I16 => Some 2
  | I32 | F32 => Some 4
  | I64 | F64 => Some 8
  | ANY => Some 4
  | VOID | FUNCREF | ERROR_TYPE => None
  end.

Definition getWASMTypeCellNum (Type_ : WASMType) : option Z :=
  match Type_ with
  | VOID => Some 0
  | I8 | I16 | I32 | F32 => Some 1
  | I64 | F64 => Some 2
  | FUNCREF | ANY | ERROR_TYPE => None
  end.

Definition getWASMValTypeFromOpcode (Opcode : Z) : WASMType :=
  if Opcode =? 0x7f then I32 else if Opcode =? 0x7e then I64
  else if Opcode =? 0x7d then F32 else if Opcode =? 0x7c then F64 else ERROR_TYPE.

Definition getWASMBlockTypeFromOpcode (Opcode : Z) : WASMType :=
  if Opcode =? 0x40 then VOID else getWASMValTypeFromOpcode Opcode.

(** ** What the validator reads of the module *)

Record TypeEntry : Type := mkType { ParamTypes : list WASMType; ReturnTypes : list WASMType }.
Record GlobalEntry : Type := mkGlobal { GType : WASMType; Mutable : bool }.

Record Module_ : Type := mkMod {
  TypeTable : list TypeEntry;
  ImportFunctionTable : list nat;               (* the type indices *)
  InternalFunctionTable : list nat;
  ImportGlobalTable : list GlobalEntry;
  InternalGlobalTable : list GlobalEntry;
  NumTotalTables : nat;
  NumTotalMemories : nat;
}.

Definition getNumTotalFunctions (M : Module_) : Z :=
  Z.of_nat (length (ImportFunctionTable M) + length (InternalFunctionTable M)).
Definition getNumImportGlobals (M : Module_) : Z := Z.of_nat (length (ImportGlobalTable M)).
Definition getNumTotalGlobals (M : Module_) : Z :=
  Z.of_nat (length (ImportGlobalTable M) + length (InternalGlobalTable M)).
Definition isValidType (M : Module_) (TypeIdx : Z) : bool := TypeIdx <? Z.of_nat (length (TypeTable M)).
Definition isValidFunc (M : Module_) (FuncIdx : Z) : bool := FuncIdx <? getNumTotalFunctions M.
Definition isValidTable (M : Module_) (TableIdx : Z) : bool := TableIdx <? Z.of_nat (NumTotalTables M).
Definition isValidGlobal (M : Module_) (GlobalIdx : Z) : bool := GlobalIdx <? getNumTotalGlobals M.
Definition getDeclaredType (M : Module_) (TypeIdx : nat) : option TypeEntry := TypeTable M !! TypeIdx.
Definition getFunctionTypeIdx (M : Module_) (FuncIdx : nat) : option nat :=
  if (FuncIdx <? length (ImportFunctionTable M))%nat then ImportFunctionTable M !! FuncIdx
  else InternalFunctionTable M !! (FuncIdx - length (ImportFunctionTable M))%nat.
Definition getFunctionType (M : Module_) (FuncIdx : nat) : option TypeEntry :=
  getFunctionTypeIdx M FuncIdx ≫= getDeclaredType M.
Definition getInternalGlobal (M : Module_) (Idx : nat) : option GlobalEntry := InternalGlobalTable M !! Idx.
Definition getGlobalType (M : Module_) (GlobalIdx : nat) : option WASMType :=
  if (GlobalIdx <? length (ImportGlobalTable M))%nat then GType <$> ImportGlobalTable M !! GlobalIdx
  else GType <$> getInternalGlobal M (GlobalIdx - length (ImportGlobalTable M)).

(** ** Control blocks *)

Inductive LabelType_ : Type := LABEL_BLOCK | LABEL_LOOP | LABEL_IF | LABEL_FUNCTION.

#[export] Instance LabelType_eq_dec : EqDecision LabelType_.
Proof. solve_decision. Defined.

Inductive ControlBlockType : Type := BTWasm (t : WASMType) | BTEntry (t : TypeEntry).

Definition isBalanced (t : ControlBlockType) : bool :=
  match t with
  | BTWasm t => bool_decide (t = VOID)
  | BTEntry t => (length (ParamTypes t) =? length (ReturnTypes t))%nat
                 && bool_decide (ParamTypes t = ReturnTypes t)
  end.

Definition getParamTypes (t : ControlBlockType) : list WASMType :=
  match t with BTWasm _ => [] | BTEntry t => ParamTypes t end.

Definition getReturnTypes (t : ControlBlockType) : list WASMType :=
  match t with
  | BTWasm t => if bool_decide (t = VOID) then [] else [t]
  | BTEntry t => ReturnTypes t
  end.

(** [EndPtr] is only written to a block that is being removed. *)
Record ControlBlock : Type := mkBlock {
  StackPolymorphic : bool;
  LabelType : LabelType_;
  BlockType : ControlBlockType;
  StartPtr : nat;
  ElsePtr : option nat;
  InitStackSize : Z;
  InitNumValues : nat;
}.

Record FunctionLoader : Type := mkLoader {
  LCode : list Z;                     (* the bytes from [Start] to [End] *)
  Ptr : nat;
  StackSize : Z;
  MaxStackSize : Z;
  MaxBlockDepth : Z;
  ControlBlocks : list ControlBlock;  (* the innermost first *)
  ValueTypes : list WASMType;         (* the top first *)
  Stats : Z;
}.

Definition set_Code (c : list Z) (s : FunctionLoader) : FunctionLoader :=
  mkLoader c (Ptr s) (StackSize s) (MaxStackSize s) (MaxBlockDepth s) (ControlBlocks s) (ValueTypes s) (Stats s).
Definition set_Ptr (p : nat) (s : FunctionLoader) : FunctionLoader :=
  mkLoader (LCode s) p (StackSize s) (MaxStackSize s) (MaxBlockDepth s) (ControlBlocks s) (ValueTypes s) (Stats s).
Definition set_Stack (n m : Z) (l : list WASMType) (s : FunctionLoader) : FunctionLoader :=
  mkLoader (LCode s) (Ptr s) n m (MaxBlockDepth s) (ControlBlocks s) l (Stats s).
Definition set_Blocks (d : Z) (l : list ControlBlock) (s : FunctionLoader) : FunctionLoader :=
  mkLoader (LCode s) (Ptr s) (StackSize s) (MaxStackSize s) d l (ValueTypes s) (Stats s).
Definition set_Stats (n : Z) (s : FunctionLoader) : FunctionLoader :=
  mkLoader (LCode s) (Ptr s) (StackSize s) (MaxStackSize s) (MaxBlockDepth s) (ControlBlocks s) (ValueTypes s) n.

Definition set_polymorphic (p : bool) (b : ControlBlock) : ControlBlock :=
  mkBlock p (LabelType b) (BlockType b) (StartPtr b) (ElsePtr b) (InitStackSize b) (InitNumValues b).
Definition set_ElsePtr (p : option nat) (b : ControlBlock) : ControlBlock :=
  mkBlock (StackPolymorphic b) (LabelType b) (BlockType b) (StartPtr b) p (InitStackSize b) (InitNumValues b).

(** [Module::StatsFlags] *)
Definition SF_global : Z := 1.
Definition SF_memory : Z := 2.
Definition SF_table : Z := 4.

Abbreviation lbody := (body (E := ErrorCode) (S := FunctionLoader)).

(** ** The cursor *)

(** A reader of [LoaderCommon], at [Ptr]. *)
Definition reading {A} (f : list Z -> ErrorCode + (A * list Z)) : lbody A := fun s =>
  match f (drop (Ptr s) (LCode s)) with
  | inl e => Throw e s
  | inr (a, rest) => Ret a (set_Ptr (length (LCode s) - length rest) s)
  end.

Definition readTypeBase (Func : Z -> WASMType) : lbody WASMType :=
  TypeOpcode <- reading readByte;;
  let Type_ := Func TypeOpcode in
  if bool_decide (Type_ = ERROR_TYPE) then throw InvalidType else ret Type_.

Definition readBlockType : lbody WASMType := readTypeBase getWASMBlockTypeFromOpcode.

(** [readFloatingPoint]: the object representation of the number. *)
Definition readF32 : lbody (list Z) := reading (readBytes 4).
Definition readF64 : lbody (list Z) := reading (readBytes 8).

(** ** The stacks *)

(** [ControlBlocks.back()] *)
Definition back : lbody ControlBlock := s <- gets ControlBlocks;; of_option (head s).
Definition set_back (f : ControlBlock -> ControlBlock) : lbody unit := fun s =>
  match ControlBlocks s with
  | [] => Undef
  | b :: l => Ret tt (set_Blocks (MaxBlockDepth s) (f b :: l) s)
  end.

Definition pushBlock (Label : LabelType_) (Type_ : ControlBlockType) (Start : nat) : lbody unit :=
  modify (fun s =>
    let l := mkBlock false Label Type_ Start None (StackSize s) (length (ValueTypes s)) :: ControlBlocks s in
    set_Blocks (Z.max (MaxBlockDepth s) (Z.of_nat (length l))) l s).

Definition popBlock : lbody unit := fun s =>
  match ControlBlocks s with
  | [] => Undef
  | _ :: l => Ret tt (set_Blocks (MaxBlockDepth s) l s)
  end.

(** [std::vector::resize] *)
Definition resize (n : nat) (l : list WASMType) : list WASMType :=
  replicate (n - length l) VOID ++ drop (length l - n) l.

Definition resetStack : lbody unit :=
  Block <- back;;
  modify (fun s =>
    set_Stack (InitStackSize Block) (MaxStackSize s) (resize (InitNumValues Block) (ValueTypes s)) s).

Definition setStackPolymorphic (Polymorphic : bool) : lbody unit := set_back (set_polymorphic Polymorphic).

Definition popValueType (Type_ : WASMType) : lbody WASMType :=
  Block <- back;;
  s <- gets id;;
  if (length (ValueTypes s) <? InitNumValues Block)%nat then undef      (* ZEN_ASSERT *)
  else if (length (ValueTypes s) =? InitNumValues Block)%nat then
    if StackPolymorphic Block then ret ANY else throw TypeMismatchStackSize
  else
    Top <- of_option (head (ValueTypes s));;
    Type_ <- (if bool_decide (Top = ANY) then
                if bool_decide (Type_ = ANY) then throw TypeMismatch else ret Type_
              else if bool_decide (Type_ = ANY) then ret Top
              else if bool_decide (Top = Type_) then ret Type_ else throw TypeMismatch);;
    TypeSize <- of_option (getWASMTypeSize Type_);;
    if StackSize s <? TypeSize then throw TypeMismatchStackSize
    else
      modify (fun s => set_Stack (StackSize s - TypeSize) (MaxStackSize s) (tail (ValueTypes s)) s);;;
      ret Type_.

Definition pushValueType (Type_ : WASMType) : lbody unit :=
  TypeSize <- of_option (getWASMTypeSize Type_);;
  modify (fun s =>
    let n := u32 (StackSize s + TypeSize) in
    set_Stack n (Z.max (MaxStackSize s) n) (Type_ :: ValueTypes s) s).

(** A loop over an array, in the given order. *)
Fixpoint for_each (f : WASMType -> lbody unit) (l : list WASMType) : lbody unit :=
  match l with [] => ret tt | t :: l => f t;;; for_each f l end.

Definition popTypes (Types : list WASMType) : lbody unit :=
  for_each (fun t => popValueType t;;; ret tt) (reverse Types).
Definition pushTypes (Types : list WASMType) : lbody unit := for_each pushValueType Types.

Fixpoint popAndPushValueType (NumPops : nat) (PoppedType PushedType : WASMType) : lbody unit :=
  match NumPops with
  | O => pushValueType PushedType
  | S n => popValueType PoppedType;;; popAndPushValueType n PoppedType PushedType
  end.

Definition pushBlockParamTypes : lbody unit :=
  Block <- back;; pushTypes (getParamTypes (BlockType Block)).

(** ** Checks *)

(** The loop of [checkTargetBlockStack], on its copy of [ValueTypes]. *)
Fixpoint targetLoop (Types FuncValueTypes : list WASMType) (AvailStackSize : Z) : lbody unit :=
  match Types with
  | [] => ret tt
  | RetType :: Types =>
      TypeSize <- of_option (getWASMTypeSize RetType);;
      if AvailStackSize <? TypeSize then throw TypeMismatchExpectDataStackEmpty
      else
        Type_ <- of_option (head FuncValueTypes);;
        if bool_decide (Type_ = RetType)
        then targetLoop Types (tail FuncValueTypes) (AvailStackSize - TypeSize)
        else throw TypeMismatch
  end.

Definition checkTargetBlockStack (Types : list WASMType) (AvailStackSize : Z) : lbody unit :=
  l <- gets ValueTypes;; targetLoop (reverse Types) l AvailStackSize.

(** [NumReturnCells] *)
Fixpoint numCells (Types : list WASMType) : option Z :=
  match Types with
  | [] => Some 0
  | t :: l => n ← getWASMTypeCellNum t; m ← numCells l; Some (u32 (n + m))
  end.

Definition checkTopTypes (Block : ControlBlock) (Types : list WASMType) (IsBranch : bool) : lbody unit :=
  s <- gets id;;
  if StackSize s <? InitStackSize Block then throw TypeMismatchStackSize
  else if StackPolymorphic Block then
    popTypes Types;;;
    pushTypes Types;;;
    s <- gets id;;
    let n := (length (ValueTypes s) - InitNumValues Block)%nat in
    if (n <? length Types)%nat || (negb IsBranch && negb (n =? length Types)%nat)
    then throw TypeMismatchStackSize
    else for_each (fun t =>
      l <- gets ValueTypes;;
      Top <- of_option (head l);;
      if bool_decide (Top = t) then ret tt else throw TypeMismatch) (reverse Types)
  else
    let AvailStackSize := StackSize s - InitStackSize Block in
    NumReturnCells <- of_option (numCells Types);;
    if Z.shiftr AvailStackSize 2 =? NumReturnCells then checkTargetBlockStack Types AvailStackSize
    else throw TypeMismatchStackSize.

Definition checkBlockStack : lbody unit :=
  Block <- back;; checkTopTypes Block (getReturnTypes (BlockType Block)) false.

Section Body.
(** The result of an oversized shift (see [Leb128]). *)
Context (wide_shift : Z -> Z -> Z).
(** The module, the function's type and the types of its locals. *)
Context (Mod : Module_) (FuncTypeEntry : TypeEntry) (LocalTypes : list WASMType).

Definition readI32_ : lbody Z := reading (readI32 wide_shift).
Definition readI64_ : lbody Z := reading (readI64 wide_shift).
Definition readU32_ : lbody Z := reading (readU32 wide_shift).

(** The types a branch to a block carries. *)
Definition labelTypes (Block : ControlBlock) : list WASMType :=
  if bool_decide (LabelType Block = LABEL_LOOP) then getParamTypes (BlockType Block)
  else getReturnTypes (BlockType Block).

Definition checkBranch : lbody ControlBlock :=
  Depth <- readU32_;;
  blocks <- gets ControlBlocks;;
  if Z.of_nat (length blocks) <=? Depth then throw UnknownLabel
  else
    TargetBlock <- of_option (blocks !! Z.to_nat Depth);;
    let Types := labelTypes TargetBlock in
    CurBlock <- back;;
    if StackPolymorphic CurBlock then
      popTypes Types;;; pushTypes Types;;; ret TargetBlock
    else
      s <- gets id;;
      checkTargetBlockStack Types (u32 (StackSize s - InitStackSize CurBlock));;;
      ret TargetBlock.

Definition readLocal : lbody WASMType :=
  LocalIdx <- readU32_;;
  let NumParams := Z.of_nat (length (ParamTypes FuncTypeEntry)) in
  if NumParams + Z.of_nat (length LocalTypes) <=? LocalIdx then throw UnknownLocal
  else if LocalIdx <? NumParams then of_option (ParamTypes FuncTypeEntry !! Z.to_nat LocalIdx)
  else of_option (LocalTypes !! Z.to_nat (LocalIdx - NumParams)).

Definition hasMemory : bool := negb (NumTotalMemories Mod =? 0)%nat.

(** ** The instructions *)

(** [opcode_loadstore.def]: the natural alignments from [I32_LOAD] on. *)
Definition Aligns : list Z :=
  [2; 3; 2; 3; 0; 0; 1; 1; 0; 0; 1; 1; 2; 2; 2; 3; 2; 3; 0; 1; 0; 1; 2].

Definition checkMemoryAlign (Opcode Align : Z) : option bool :=
  a ← Aligns !! Z.to_nat (Opcode - 0x28); Some (Align <=? a).

Definition in_range (lo hi op : Z) : bool := (lo <=? op) && (op <=? hi).

(** The instructions that pop a number of values of one type and push one. *)
Definition numericType (op : Z) : option (nat * WASMType * WASMType) :=
  if op =? 0x45 then Some (1%nat, I32, I32)                        (* I32_EQZ *)
  else if in_range 0x46 0x4f op then Some (2%nat, I32, I32)        (* I32_EQ .. I32_GE_U *)
  else if op =? 0x50 then Some (1%nat, I64, I32)                   (* I64_EQZ *)
  else if in_range 0x51 0x5a op then Some (2%nat, I64, I32)        (* I64_EQ .. I64_GE_U *)
  else if in_range 0x5b 0x60 op then Some (2%nat, F32, I32)        (* F32_EQ .. F32_GE *)
  else if in_range 0x61 0x66 op then Some (2%nat, F64, I32)        (* F64_EQ .. F64_GE *)
  else if in_range 0x67 0x69 op then Some (1%nat, I32, I32)        (* I32_CLZ .. I32_POPCNT *)
  else if in_range 0x6a 0x78 op then Some (2%nat, I32, I32)        (* I32_ADD .. I32_ROTR *)
  else if in_range 0x79 0x7b op then Some (1%nat, I64, I64)        (* I64_CLZ .. I64_POPCNT *)
  else if in_range 0x7c 0x8a op then Some (2%nat, I64, I64)        (* I64_ADD .. I64_ROTR *)
  else if in_range 0x8b 0x91 op then Some (1%nat, F32, F32)        (* F32_ABS .. F32_SQRT *)
  else if in_range 0x92 0x98 op then Some (2%nat, F32, F32)        (* F32_ADD .. F32_COPYSIGN *)
  else if in_range 0x99 0x9f op then Some (1%nat, F64, F64)        (* F64_ABS .. F64_SQRT *)
  else if in_range 0xa0 0xa6 op then Some (2%nat, F64, F64)        (* F64_ADD .. F64_COPYSIGN *)
  else if op =? 0xa7 then Some (1%nat, I64, I32)                   (* I32_WRAP_I64 *)
  else if in_range 0xa8 0xa9 op then Some (1%nat, F32, I32)        (* I32_TRUNC_*_F32 *)
  else if in_range 0xaa 0xab op then Some (1%nat, F64, I32)        (* I32_TRUNC_*_F64 *)
  else if in_range 0xac 0xad op then Some (1%nat, I32, I64)        (* I64_EXTEND_*_I32 *)
  else if in_range 0xae 0xaf op then Some (1%nat, F32, I64)        (* I64_TRUNC_*_F32 *)
  else if in_range 0xb0 0xb1 op then Some (1%nat, F64, I64)        (* I64_TRUNC_*_F64 *)
  else if in_range 0xb2 0xb3 op then Some (1%nat, I32, F32)        (* F32_CONVERT_*_I32 *)
  else if in_range 0xb4 0xb5 op then Some (1%nat, I64, F32)        (* F32_CONVERT_*_I64 *)
  else if op =? 0xb6 then Some (1%nat, F64, F32)                   (* F32_DEMOTE_F64 *)
  else if in_range 0xb7 0xb8 op then Some (1%nat, I32, F64)        (* F64_CONVERT_*_I32 *)
  else if in_range 0xb9 0xba op then Some (1%nat, I64, F64)        (* F64_CONVERT_*_I64 *)
  else if op =? 0xbb then Some (1%nat, F32, F64)                   (* F64_PROMOTE_F32 *)
  else if op =? 0xbc then Some (1%nat, F32, I32)                   (* I32_REINTERPRET_F32 *)
  else if op =? 0xbd then Some (1%nat, F64, I64)                   (* I64_REINTERPRET_F64 *)
  else if op =? 0xbe then Some (1%nat, I32, F32)                   (* F32_REINTERPRET_I32 *)
  else if op =? 0xbf then Some (1%nat, I64, F64)                   (* F64_REINTERPRET_I64 *)
  else if in_range 0xc0 0xc1 op then Some (1%nat, I32, I32)        (* I32_EXTEND*_S *)
  else if in_range 0xc2 0xc4 op then Some (1%nat, I64, I64)        (* I64_EXTEND*_S *)
  else None.

(** Loads and stores: whether it is a store, and the type of the value. *)
Definition memoryType (op : Z) : option (bool * WASMType) :=
  if (op =? 0x28) || in_range 0x2c 0x2f op then Some (false, I32)
  else if (op =? 0x29) || in_range 0x30 0x35 op then Some (false, I64)
  else if op =? 0x2a then Some (false, F32)
  else if op =? 0x2b then Some (false, F64)
  else if (op =? 0x36) || in_range 0x3a 0x3b op then Some (true, I32)
  else if (op =? 0x37) || in_range 0x3c 0x3e op then Some (true, I64)
  else if op =? 0x38 then Some (true, F32)
  else if op =? 0x39 then Some (true, F64)
  else None.

Definition addStats (flag : Z) : lbody unit := modify (fun s => set_Stats (Z.lor (Stats s) flag) s).

(** [*OpcodePtr = Byte(Opcode)] with [OpcodePtr = Ptr - 1] *)
Definition patchOpcode (Opcode : Z) : lbody unit :=
  modify (fun s => set_Code (<[(Ptr s - 1)%nat := Opcode]> (LCode s)) s).

(** [resetStack(); setStackPolymorphic(true);] *)
Definition unreachable : lbody unit := resetStack;;; setStackPolymorphic true.

(** BLOCK, LOOP and IF *)
Definition loadBlock (Label : LabelType_) : lbody unit :=
  (if bool_decide (Label = LABEL_IF) then popValueType I32;;; ret tt else ret tt);;;
  Type_ <- readBlockType;;
  p <- gets Ptr;;
  pushBlock Label (BTWasm Type_) p;;;
  pushBlockParamTypes.

Definition loadElse : lbody unit :=
  Block <- back;;
  if negb (bool_decide (LabelType Block = LABEL_IF)) || negb (bool_decide (ElsePtr Block = None))
  then throw ElseMismatchIf
  else
    checkBlockStack;;;
    p <- gets Ptr;;
    set_back (set_ElsePtr (Some (p - 1)%nat));;;
    resetStack;;;
    setStackPolymorphic false;;;
    pushBlockParamTypes.

(** [for (uint32_t I = 0; I <= NumTargets; ++I)].  Every turn reads a byte or
    throws, so the bytes of the function are turns enough; [Expected] is what
    the first turn leaves. *)
Fixpoint brTableLoop (fuel : nat) (NumTargets I : Z) (Expected : list WASMType) : lbody unit :=
  match fuel with
  | O => undef
  | S fuel =>
      if NumTargets <? I then ret tt
      else
        TargetBlock <- checkBranch;;
        let Actual := if bool_decide (LabelType TargetBlock = LABEL_LOOP) then []
                      else getReturnTypes (BlockType TargetBlock) in
        if I =? 0 then brTableLoop fuel NumTargets (u32 (I + 1)) Actual
        else if bool_decide (Expected = Actual) then brTableLoop fuel NumTargets (u32 (I + 1)) Expected
        else throw TypeMismatchBrTableTargets
  end.

Definition loadBrTable : lbody unit :=
  NumTargets <- readU32_;;
  popValueType I32;;;
  n <- gets (fun s => length (LCode s));;
  brTableLoop (n + 2) NumTargets 0 [];;;
  unreachable.

Definition loadEnd : lbody unit :=
  Block <- back;;
  checkBlockStack;;;
  (if bool_decide (LabelType Block = LABEL_IF) && bool_decide (ElsePtr Block = None)
      && negb (isBalanced (BlockType Block))
   then throw TypeMismatchElseMissing else ret tt);;;
  if bool_decide (LabelType Block = LABEL_FUNCTION) then
    popBlock;;;
    s <- gets id;;
    if (Ptr s <? length (LCode s))%nat then throw OpcodesRemainAfterEndOfFunction else ret tt
  else popBlock.

Definition loadGetGlobal : lbody unit :=
  GlobalIdx <- readU32_;;
  if negb (isValidGlobal Mod GlobalIdx) then throw UnknownGlobal
  else if GlobalIdx <? getNumImportGlobals Mod then throw UnsupportedImport
  else
    GlobalType <- of_option (getGlobalType Mod (Z.to_nat GlobalIdx));;
    pushValueType GlobalType;;;
    addStats SF_global.

Definition loadSetGlobal : lbody unit :=
  GlobalIdx <- readU32_;;
  if negb (isValidGlobal Mod GlobalIdx) then throw UnknownGlobal
  else
    let InternalGlobalIdx := swrap 32 (u32 (GlobalIdx - getNumImportGlobals Mod)) in
    if InternalGlobalIdx <? 0 then throw UnsupportedImport
    else
      Global <- of_option (getInternalGlobal Mod (Z.to_nat InternalGlobalIdx));;
      if negb (Mutable Global) then throw GlobalIsImmutable
      else popValueType (GType Global);;; addStats SF_global.

(** MEMORY_SIZE and MEMORY_GROW, up to the memory index *)
Definition readMemIdx : lbody unit :=
  if negb hasMemory then throw UnknownMemory
  else
    MemIdx <- reading readByte;;
    if MemIdx =? 0 then ret tt else throw ZeroFlagExpected.

Definition loadMemoryAccess (Opcode : Z) (isStore : bool) (t : WASMType) : lbody unit :=
  if negb hasMemory then throw UnknownMemory
  else
    Align <- readU32_;;
    readU32_;;;
    ok <- of_option (checkMemoryAlign Opcode Align);;
    if negb ok then throw AlignMustLargerThanNatural
    else
      (if isStore then popValueType t;;; popValueType I32;;; ret tt
       else popAndPushValueType 1 I32 t);;;
      addStats SF_memory.

Definition loadDrop : lbody unit :=
  Type_ <- popValueType ANY;;
  if bool_decide (Type_ = I64) || bool_decide (Type_ = F64) then patchOpcode 0xc5 else ret tt.

Definition loadSelect : lbody unit :=
  popValueType I32;;;
  Type1 <- popValueType ANY;;
  Type2 <- popValueType ANY;;
  if negb (bool_decide (Type1 = Type2)) && negb (bool_decide (Type1 = ANY))
     && negb (bool_decide (Type2 = ANY))
  then throw TypeMismatchSelectStackEmpty
  else
    let Type_ := if bool_decide (Type1 = ANY) then Type2 else Type1 in
    (if bool_decide (Type_ = I64) || bool_decide (Type_ = F64) then patchOpcode 0xc6 else ret tt);;;
    pushValueType Type_.

Definition loadReturn : lbody unit :=
  popTypes (ReturnTypes FuncTypeEntry);;; unreachable.

Definition loadCall : lbody unit :=
  CalleeIdx <- readU32_;;
  if negb (isValidFunc Mod CalleeIdx) then throw UnknownFunction
  else
    CalleeFuncType <- of_option (getFunctionType Mod (Z.to_nat CalleeIdx));;
    popTypes (ParamTypes CalleeFuncType);;;
    pushTypes (ReturnTypes CalleeFuncType).

Definition loadCallIndirect : lbody unit :=
  TypeIdx <- readU32_;;
  if negb (isValidType Mod TypeIdx) then throw UnknownTypeIdx
  else
    TableIdx <- reading readByte;;
    if negb (TableIdx =? 0) then throw ZeroFlagExpected
    else if negb (isValidTable Mod TableIdx) then throw UnknownTable
    else
      popValueType I32;;;
      CalleeFuncType <- of_option (getDeclaredType Mod (Z.to_nat TypeIdx));;
      popTypes (ParamTypes CalleeFuncType);;;
      pushTypes (ReturnTypes CalleeFuncType);;;
      addStats SF_table.

(** [switch (Opcode)] *)
Definition loadOpcode (Opcode : Z) : lbody unit :=
  if Opcode =? 0x00 then unreachable
  else if Opcode =? 0x01 then ret tt
  else if Opcode =? 0x02 then loadBlock LABEL_BLOCK
  else if Opcode =? 0x03 then loadBlock LABEL_LOOP
  else if Opcode =? 0x04 then loadBlock LABEL_IF
  else if Opcode =? 0x05 then loadElse
  else if Opcode =? 0x0b then loadEnd
  else if Opcode =? 0x0c then checkBranch;;; unreachable
  else if Opcode =? 0x0d then popValueType I32;;; checkBranch;;; ret tt
  else if Opcode =? 0x0e then loadBrTable
  else if Opcode =? 0x0f then loadReturn
  else if Opcode =? 0x10 then loadCall
  else if Opcode =? 0x11 then loadCallIndirect
  else if Opcode =? 0x1a then loadDrop
  else if Opcode =? 0x1b then loadSelect
  else if Opcode =? 0x20 then LocalType <- readLocal;; pushValueType LocalType
  else if Opcode =? 0x21 then LocalType <- readLocal;; popValueType LocalType;;; ret tt
  else if Opcode =? 0x22 then LocalType <- readLocal;; popValueType LocalType;;; pushValueType LocalType
  else if Opcode =? 0x23 then loadGetGlobal
  else if Opcode =? 0x24 then loadSetGlobal
  else if Opcode =? 0x3f then readMemIdx;;; pushValueType I32;;; addStats SF_memory
  else if Opcode =? 0x40 then readMemIdx;;; popAndPushValueType 1 I32 I32;;; addStats SF_memory
  else if Opcode =? 0x41 then readI32_;;; pushValueType I32
  else if Opcode =? 0x42 then readI64_;;; pushValueType I64
  else if Opcode =? 0x43 then readF32;;; pushValueType F32
  else if Opcode =? 0x44 then readF64;;; pushValueType F64
  else match memoryType Opcode with
  | Some (isStore, t) => loadMemoryAccess Opcode isStore t
  | None =>
      match numericType Opcode with
      | Some (n, popped, pushed) => popAndPushValueType n popped pushed
      | None => throw UnsupportedOpcode
      end
  end.

(** One turn of [while (Ptr < End)] *)
Definition loadStep : lbody unit := Opcode <- reading readByte;; loadOpcode Opcode.

(** Every turn reads a byte, so the bytes left are turns enough. *)
Fixpoint loadLoop (fuel : nat) : lbody unit := fun s =>
  if (Ptr s <? length (LCode s))%nat then
    match fuel with
    | O => Undef
    | S fuel => (loadStep;;; loadLoop fuel) s
    end
  else Ret tt s.

Definition initLoader (Code : list Z) : FunctionLoader := mkLoader Code 0 0 0 0 [] [] 0.

Definition load (Code : list Z) : out ErrorCode FunctionLoader unit :=
  (pushBlock LABEL_FUNCTION (BTEntry FuncTypeEntry) 0;;;
   loadLoop (length Code);;;
   s <- gets id;;
   if negb (length (ControlBlocks s) =? 0)%nat then throw BlockStackNotEmptyAtEndOfFunction
   else if negb (Ptr s =? length (LCode s))%nat then throw UnexpectedEnd
   else ret tt) (initLoader Code).
End Body.
