(* ===== verification/WasmValid.v ===== *)
(** The validation algorithm of the WebAssembly specification (appendix
    "Validation Algorithm", without multi-value blocks), as the reference
    for [FunctionLoader]: a decoder of instructions, and a machine with a
    stack of operand types, an unknown type among them, and a stack of
    control frames. *)

From S2P Require Import Prelude Intx Leb128 Leb128Correct FunctionLoader.

#[local] Open Scope Z_scope.

(** ** Instructions *)

(** The result of a block: no value or one. *)
Abbreviation blocktype := (option WASMType).

Inductive instr : Type :=
| Unreachable | Nop
| Block (t : blocktype) | Loop (t : blocktype) | If (t : blocktype) | Else | End
| Br (l : Z) | BrIf (l : Z) | BrTable (ls : list Z) (l : Z) | Return
| Call (f : Z) | CallIndirect (t : Z)
| Drop | Select
| LocalGet (x : Z) | LocalSet (x : Z) | LocalTee (x : Z) | GlobalGet (x : Z) | GlobalSet (x : Z)
| Load (t : WASMType) (align natural : Z) | Store (t : WASMType) (align natural : Z)
| MemorySize | MemoryGrow
| Const (t : WASMType)
| Numeric (ins : list WASMType) (out : WASMType).

(** Instructions with operands and a result of these types, in the order of
    their opcodes from [i32.eqz] (0x45) to [i64.extend32_s] (0xc4). *)
Definition un (a r : WASMType) : list WASMType * WASMType := ([a], r).
Definition bin (a r : WASMType) : list WASMType * WASMType := ([a; a], r).

Definition numeric_table : list (list WASMType * WASMType) :=
  (* tests and comparisons *)
  [un I32 I32] ++ replicate 10 (bin I32 I32) ++ [un I64 I32] ++ replicate 10 (bin I64 I32)
  ++ replicate 6 (bin F32 I32) ++ replicate 6 (bin F64 I32)
  (* arithmetic *)
  ++ replicate 3 (un I32 I32) ++ replicate 15 (bin I32 I32)
  ++ replicate 3 (un I64 I64) ++ replicate 15 (bin I64 I64)
  ++ replicate 7 (un F32 F32) ++ replicate 7 (bin F32 F32)
  ++ replicate 7 (un F64 F64) ++ replicate 7 (bin F64 F64)
  (* conversions *)
  ++ [un I64 I32; un F32 I32; un F32 I32; un F64 I32; un F64 I32]
  ++ [un I32 I64; un I32 I64; un F32 I64; un F32 I64; un F64 I64; un F64 I64]
  ++ [un I32 F32; un I32 F32; un I64 F32; un I64 F32; un F64 F32]
  ++ [un I32 F64; un I32 F64; un I64 F64; un I64 F64; un F32 F64]
  ++ [un F32 I32; un F64 I64; un I32 F32; un I64 F64]
  (* sign extension *)
  ++ [un I32 I32; un I32 I32; un I64 I64; un I64 I64; un I64 I64].

(** The value type and the width in bytes of a memory access, in the order of
    the opcodes from [i32.load] (0x28). *)
Definition load_table : list (WASMType * Z) :=
  [(I32, 4); (I64, 8); (F32, 4); (F64, 8);
   (I32, 1); (I32, 1); (I32, 2); (I32, 2);
   (I64, 1); (I64, 1); (I64, 2); (I64, 2); (I64, 4); (I64, 4)].
Definition store_table : list (WASMType * Z) :=
  [(I32, 4); (I64, 8); (F32, 4); (F64, 8); (I32, 1); (I32, 2); (I64, 1); (I64, 2); (I64, 4)].

(** ** Decoding *)

Definition u32_imm (bs : list Z) : option (Z * list Z) :=
  match bs with [] => None | _ =>
    match leb_spec TU32 bs with inl _ => None | inr p => Some p end end.
Definition skip_imm (T : int_ty) (bs : list Z) : option (list Z) :=
  match bs with [] => None | _ =>
    match leb_spec T bs with inl _ => None | inr (_, r) => Some r end end.
Definition skip_bytes (n : nat) (bs : list Z) : option (list Z) :=
  if (length bs <? n)%nat then None else Some (drop n bs).
Definition zero_byte (bs : list Z) : option (list Z) :=
  match bs with b :: r => if b =? 0 then Some r else None | [] => None end.

Definition val_type (b : Z) : option WASMType :=
  match b with 0x7f => Some I32 | 0x7e => Some I64 | 0x7d => Some F32 | 0x7c => Some F64 | _ => None end.
Definition block_type (bs : list Z) : option (blocktype * list Z) :=
  match bs with
  | [] => None
  | b :: r => if b =? 0x40 then Some (None, r) else t ← val_type b; Some (Some t, r)
  end.

(** [n] labels of a branch table. *)
Fixpoint labels (fuel : nat) (n : Z) (bs : list Z) : option (list Z * list Z) :=
  if n <=? 0 then Some ([], bs)
  else match fuel with
       | O => None
       | S fuel => '(l, r) ← u32_imm bs; '(ls, r) ← labels fuel (n - 1) r; Some (l :: ls, r)
       end.

Definition memarg (i : WASMType -> Z -> Z -> instr) (e : WASMType * Z) (bs : list Z)
  : option (instr * list Z) :=
  '(a, r) ← u32_imm bs; r ← skip_imm TU32 r; Some (i e.1 a (Z.log2 e.2), r).

Definition with_u32 (i : Z -> instr) (bs : list Z) : option (instr * list Z) :=
  '(x, r) ← u32_imm bs; Some (i x, r).
Definition with_block (i : blocktype -> instr) (bs : list Z) : option (instr * list Z) :=
  '(t, r) ← block_type bs; Some (i t, r).

(** The immediates of [op]. *)
Definition decode_op (op : Z) (bs : list Z) : option (instr * list Z) :=
  match op with
  | 0x00 => Some (Unreachable, bs) | 0x01 => Some (Nop, bs)
  | 0x02 => with_block Block bs | 0x03 => with_block Loop bs | 0x04 => with_block If bs
  | 0x05 => Some (Else, bs) | 0x0b => Some (End, bs)
  | 0x0c => with_u32 Br bs | 0x0d => with_u32 BrIf bs
  | 0x0e => '(n, r) ← u32_imm bs; '(ls, r) ← labels (length r) n r; '(l, r) ← u32_imm r;
            Some (BrTable ls l, r)
  | 0x0f => Some (Return, bs)
  | 0x10 => with_u32 Call bs
  | 0x11 => '(t, r) ← u32_imm bs; r ← zero_byte r; Some (CallIndirect t, r)
  | 0x1a => Some (Drop, bs) | 0x1b => Some (Select, bs)
  | 0x20 => with_u32 LocalGet bs | 0x21 => with_u32 LocalSet bs | 0x22 => with_u32 LocalTee bs
  | 0x23 => with_u32 GlobalGet bs | 0x24 => with_u32 GlobalSet bs
  | 0x3f => r ← zero_byte bs; Some (MemorySize, r)
  | 0x40 => r ← zero_byte bs; Some (MemoryGrow, r)
  | 0x41 => r ← skip_imm TI32 bs; Some (Const I32, r)
  | 0x42 => r ← skip_imm TI64 bs; Some (Const I64, r)
  | 0x43 => r ← skip_bytes 4 bs; Some (Const F32, r)
  | 0x44 => r ← skip_bytes 8 bs; Some (Const F64, r)
  | _ =>
      if in_range 0x28 0x35 op then e ← load_table !! Z.to_nat (op - 0x28); memarg Load e bs
      else if in_range 0x36 0x3e op then e ← store_table !! Z.to_nat (op - 0x36); memarg Store e bs
      else if in_range 0x45 0xc4 op
      then '(ins, out) ← numeric_table !! Z.to_nat (op - 0x45); Some (Numeric ins out, bs)
      else None
  end.

Definition decode_instr (bs : list Z) : option (instr * list Z) :=
  match bs with [] => None | op :: bs => decode_op op bs end.

(** ** The machine *)

(** [None] is the unknown type. *)
Record ctrl : Type := mkCtrl {
  c_if : bool;                       (* an [if] without an [else] so far *)
  c_label : list WASMType;
  c_end : list WASMType;
  c_height : nat;
  c_unreachable : bool;
}.
Record vstate : Type := mkV { opds : list (option WASMType); ctrls : list ctrl }.

Definition push_opd (t : option WASMType) (v : vstate) : vstate := mkV (t :: opds v) (ctrls v).
Definition push_opds (ts : list WASMType) (v : vstate) : vstate :=
  foldl (fun v t => push_opd (Some t) v) v ts.

Definition pop_opd (v : vstate) : option (option WASMType * vstate) :=
  c ← head (ctrls v);
  if (length (opds v) =? c_height c)%nat then if c_unreachable c then Some (None, v) else None
  else match opds v with [] => None | t :: l => Some (t, mkV l (ctrls v)) end.

Definition pop_expect (t : WASMType) (v : vstate) : option vstate :=
  '(a, v) ← pop_opd v;
  match a with None => Some v | Some a => if bool_decide (a = t) then Some v else None end.

Definition pop_opds (ts : list WASMType) (v : vstate) : option vstate :=
  foldl (fun o t => o ≫= pop_expect t) (Some v) (reverse ts).

Definition push_ctrl (is_if : bool) (label end_ : list WASMType) (v : vstate) : vstate :=
  mkV (opds v) (mkCtrl is_if label end_ (length (opds v)) false :: ctrls v).

Definition pop_ctrl (v : vstate) : option (ctrl * vstate) :=
  c ← head (ctrls v);
  v ← pop_opds (c_end c) v;
  if (length (opds v) =? c_height c)%nat then Some (c, mkV (opds v) (tail (ctrls v))) else None.

Definition set_unreachable (v : vstate) : option vstate :=
  match ctrls v with
  | [] => None
  | c :: cs =>
      Some (mkV (drop (length (opds v) - c_height c) (opds v))
        (mkCtrl (c_if c) (c_label c) (c_end c) (c_height c) true :: cs))
  end.

Section Validate.
Context (M : Module_) (F : TypeEntry) (Locals : list WASMType).

Definition local_type (x : Z) : option WASMType := (ParamTypes F ++ Locals) !! Z.to_nat x.

(** A call with these types. *)
Definition call_type (t : TypeEntry) (v : vstate) : option vstate :=
  push_opds (ReturnTypes t) <$> pop_opds (ParamTypes t) v.

Definition label_at (l : Z) (v : vstate) : option (list WASMType) :=
  c_label <$> ctrls v !! Z.to_nat l.

(** A label of a branch table: its types are there, and those of the default
    label. *)
Definition table_label (deflt : list WASMType) (l : Z) (v : vstate) : option vstate :=
  ts ← label_at l v;
  if bool_decide (ts = deflt) then push_opds ts <$> pop_opds ts v else None.

Definition step_instr (i : instr) (v : vstate) : option vstate :=
  match i with
  | Unreachable => set_unreachable v
  | Nop => Some v
  | Block t => Some (push_ctrl false (option_list t) (option_list t) v)
  | Loop t => Some (push_ctrl false [] (option_list t) v)
  | If t => v ← pop_expect I32 v; Some (push_ctrl true (option_list t) (option_list t) v)
  | Else => '(c, v) ← pop_ctrl v;
            if c_if c then Some (push_ctrl false (c_end c) (c_end c) v) else None
  | End => '(c, v) ← pop_ctrl v;
           if c_if c && negb (bool_decide (c_end c = [])) then None else Some (push_opds (c_end c) v)
  | Br l => ts ← label_at l v; pop_opds ts v ≫= set_unreachable
  | BrIf l => v ← pop_expect I32 v; ts ← label_at l v; push_opds ts <$> pop_opds ts v
  | BrTable ls l =>
      v ← pop_expect I32 v;
      ts ← label_at l v;
      v ← foldl (fun o l => o ≫= table_label ts l) (Some v) ls;
      pop_opds ts v ≫= set_unreachable
  | Return => pop_opds (ReturnTypes F) v ≫= set_unreachable
  | Call f => t ← getFunctionType M (Z.to_nat f); call_type t v
  | CallIndirect t =>
      if (NumTotalTables M =? 0)%nat then None
      else t ← TypeTable M !! Z.to_nat t; v ← pop_expect I32 v; call_type t v
  | Drop => '(_, v) ← pop_opd v; Some v
  | Select =>
      v ← pop_expect I32 v; '(t1, v) ← pop_opd v; '(t2, v) ← pop_opd v;
      match t1, t2 with
      | Some a, Some b => if bool_decide (a = b) then Some (push_opd t1 v) else None
      | None, _ => Some (push_opd t2 v)
      | _, None => Some (push_opd t1 v)
      end
  | LocalGet x => t ← local_type x; Some (push_opd (Some t) v)
  | LocalSet x => t ← local_type x; pop_expect t v
  | LocalTee x => t ← local_type x; push_opd (Some t) <$> pop_expect t v
  | GlobalGet x =>
      g ← (ImportGlobalTable M ++ InternalGlobalTable M) !! Z.to_nat x;
      Some (push_opd (Some (GType g)) v)
  | GlobalSet x =>
      g ← (ImportGlobalTable M ++ InternalGlobalTable M) !! Z.to_nat x;
      if Mutable g then pop_expect (GType g) v else None
  | Load t a n =>
      if (NumTotalMemories M =? 0)%nat || (n <? a) then None
      else push_opd (Some t) <$> pop_expect I32 v
  | Store t a n =>
      if (NumTotalMemories M =? 0)%nat || (n <? a) then None else pop_expect t v ≫= pop_expect I32
  | MemorySize => if (NumTotalMemories M =? 0)%nat then None else Some (push_opd (Some I32) v)
  | MemoryGrow =>
      if (NumTotalMemories M =? 0)%nat then None else push_opd (Some I32) <$> pop_expect I32 v
  | Const t => Some (push_opd (Some t) v)
  | Numeric ins out => push_opd (Some out) <$> pop_opds ins v
  end.

(** A body is valid when its instructions take the machine from the frame of
    the function to the end of that frame, with no bytes left. *)
Fixpoint validates (fuel : nat) (bs : list Z) (v : vstate) : bool :=
  match ctrls v with
  | [] => bool_decide (bs = [])
  | _ =>
      match fuel with
      | O => false
      | S fuel =>
          match decode_instr bs with
          | None => false
          | Some (i, r) => match step_instr i v with None => false | Some v => validates fuel r v end
          end
      end
  end.

Definition valid_function (Code : list Z) : bool :=
  validates (length Code) Code (push_ctrl false (ReturnTypes F) (ReturnTypes F) (mkV [] [])).
End Validate.
