(* ===== verification/FunctionLoaderInv.v ===== *)
(** The invariant of [FunctionLoader] and what its operations do, in terms of
    the machine of [WasmValid].

    The loader counts the bytes of the operand stack in [StackSize] and
    decides some of its checks by that count.  The count is exact as long as
    no value of unknown type ([ANY]) is on the stack; such a value counts four
    bytes but may be popped as eight, and from then on the count is only a
    lower bound.  The invariant is therefore stated for both cases: [inv true]
    is the exact one, [inv false] the other. *)

From S2P Require Import Prelude Intx Leb128 Leb128Correct FunctionLoader WasmValid.

#[local] Open Scope Z_scope.

(** ** Outcomes: falling through with [Q], or throwing *)

Definition runs {A} (m : lbody A) (Q : A -> FunctionLoader -> Prop) (s : FunctionLoader) : Prop :=
  match m s with Ret a s' => Q a s' | Throw _ _ => True | Exit _ | Undef => False end.

Lemma runs_ret {A} (a : A) Q s : Q a s -> runs (ret a) Q s.
Proof. done. Qed.
Lemma runs_throw {A} e (Q : A -> _ -> Prop) s : runs (throw e) Q s.
Proof. done. Qed.
Lemma runs_gets {A} (f : _ -> A) Q s : Q (f s) s -> runs (gets f) Q s.
Proof. done. Qed.
Lemma runs_modify f Q s : Q tt (f s) -> runs (modify f) Q s.
Proof. done. Qed.
Lemma runs_bind {A B} (m : lbody A) (k : A -> lbody B) Q s :
  runs m (fun a s' => runs (k a) Q s') s -> runs (bind m k) Q s.
Proof. unfold runs, bind. by destruct (m s). Qed.
Lemma runs_assoc {A B C} (m : lbody A) (k : A -> lbody B) (h : B -> lbody C) Q s :
  runs (bind (bind m k) h) Q s -> runs (bind m (fun a => bind (k a) h)) Q s.
Proof. unfold runs, bind. by destruct (m s). Qed.
Lemma runs_mono {A} (m : lbody A) (Q Q' : A -> _ -> Prop) s :
  runs m Q s -> (forall a s', Q a s' -> Q' a s') -> runs m Q' s.
Proof. unfold runs. destruct (m s); naive_solver. Qed.
Lemma runs_option {A} (o : option A) a Q s : o = Some a -> Q a s -> runs (of_option o) Q s.
Proof. by intros ->. Qed.

(** ** Types and sizes *)

Definition is_val (t : WASMType) : Prop := match t with I32 | I64 | F32 | F64 => True | _ => False end.
Definition stackable (t : WASMType) : Prop := is_val t \/ t = ANY.

Definition size_of (t : WASMType) : Z := default 0 (getWASMTypeSize t).

Fixpoint bytes (V : list WASMType) : Z := match V with [] => 0 | t :: V => size_of t + bytes V end.

Lemma stackable_size t : stackable t -> getWASMTypeSize t = Some (size_of t) /\ 4 <= size_of t <= 8.
Proof. by intros [H| ->]; [destruct t|]. Qed.
Lemma val_stackable t : is_val t -> stackable t.
Proof. by left. Qed.
Lemma bytes_nonneg V : Forall stackable V -> 0 <= bytes V <= 8 * Z.of_nat (length V).
Proof.
  induction 1 as [|t V Ht _ IH]; cbn [bytes length]; [lia|].
  destruct (stackable_size t Ht). lia.
Qed.
Lemma bytes_app V V' : bytes (V ++ V') = bytes V + bytes V'.
Proof. induction V; cbn [bytes app]; lia. Qed.

(** The first values pushed. *)
Definition bottom (n : nat) (V : list WASMType) : list WASMType := drop (length V - n) V.

Lemma length_bottom n V : (n <= length V)%nat -> length (bottom n V) = n.
Proof. intros. unfold bottom. rewrite length_drop. lia. Qed.
Lemma bottom_all V : bottom (length V) V = V.
Proof. unfold bottom. by rewrite Nat.sub_diag. Qed.
Lemma bottom_cons n t V : (n <= length V)%nat -> bottom n (t :: V) = bottom n V.
Proof. intros. unfold bottom. cbn [length]. by replace (S (length V) - n)%nat with (S (length V - n)) by lia. Qed.
Lemma bottom_bottom n m V : (m <= n <= length V)%nat -> bottom m (bottom n V) = bottom m V.
Proof. intros. unfold bottom. rewrite drop_drop, length_drop. f_equal. lia. Qed.
Lemma bottom_forall (P : WASMType -> Prop) n V : Forall P V -> Forall P (bottom n V).
Proof. apply Forall_drop. Qed.
Lemma bottom_bytes n V : Forall stackable V -> 0 <= bytes (bottom n V) <= bytes V.
Proof.
  intros HV. pose proof (bytes_app (take (length V - n) V) (drop (length V - n) V)) as E.
  rewrite take_drop in E. pose proof (bytes_nonneg _ (Forall_take _ (length V - n) _ HV)).
  pose proof (bytes_nonneg _ (Forall_drop _ (length V - n) _ HV)). unfold bottom. lia.
Qed.

(** ** The invariant *)

Definition type_ok (t : TypeEntry) : Prop :=
  Forall is_val (ParamTypes t) /\ Forall is_val (ReturnTypes t) /\ (length (ReturnTypes t) <= 1)%nat.

Record mod_ok (M : Module_) : Prop := {
  mo_types : Forall type_ok (TypeTable M);
  mo_imports : Forall (fun i => i < length (TypeTable M))%nat (ImportFunctionTable M);
  mo_funcs : Forall (fun i => i < length (TypeTable M))%nat (InternalFunctionTable M);
  mo_globals : Forall (fun g => is_val (GType g)) (ImportGlobalTable M ++ InternalGlobalTable M);
  mo_few : getNumTotalGlobals M < 2 ^ 31;
}.

(** The count of some bytes. *)
Definition counts (exact : bool) (n m : Z) : Prop := if exact then n = m else 0 <= n <= m.

Definition block_ok (b : ControlBlock) : Prop :=
  match BlockType b with
  | BTWasm t => (t = VOID \/ is_val t) /\ LabelType b <> LABEL_FUNCTION
  | BTEntry t => type_ok t /\ LabelType b = LABEL_FUNCTION /\ ElsePtr b = None
  end.

Fixpoint blocks_ok (exact : bool) (Max : Z) (l : list ControlBlock) (V : list WASMType) : Prop :=
  match l with
  | [] => True
  | b :: l =>
      block_ok b /\ (InitNumValues b <= length V)%nat /\
      counts exact (InitStackSize b) (bytes (bottom (InitNumValues b) V)) /\ InitStackSize b <= Max /\
      (LabelType b = LABEL_FUNCTION <-> l = []) /\
      blocks_ok exact Max l (bottom (InitNumValues b) V)
  end.

Record inv (exact : bool) (s : FunctionLoader) : Prop := {
  i_bytes : Forall is_byte (LCode s);
  i_length : Z.of_nat (length (LCode s)) <= 2 ^ 24;
  i_ptr : (Ptr s <= length (LCode s))%nat;
  i_stackable : Forall stackable (ValueTypes s);
  i_val : exact = true -> Forall is_val (ValueTypes s);
  i_room : (length (ValueTypes s) <= Ptr s)%nat;
  i_count : counts exact (StackSize s) (bytes (ValueTypes s));
  i_max : StackSize s <= MaxStackSize s;
  i_blocks : blocks_ok exact (MaxStackSize s) (ControlBlocks s) (ValueTypes s);
}.

(** [n] more values may be pushed. *)
Definition room (n : nat) (s : FunctionLoader) : Prop := (length (ValueTypes s) + n <= Ptr s)%nat.

(** ** The abstract machine *)

Definition opd (t : WASMType) : option WASMType := if bool_decide (t = ANY) then None else Some t.
Definition abs_block (b : ControlBlock) : ctrl :=
  mkCtrl (bool_decide (LabelType b = LABEL_IF) && bool_decide (ElsePtr b = None))
    (labelTypes b) (getReturnTypes (BlockType b)) (InitNumValues b) (StackPolymorphic b).
Definition abs (s : FunctionLoader) : vstate :=
  mkV (map opd (ValueTypes s)) (map abs_block (ControlBlocks s)).

(** Only the operand stack changes. *)
Record stack_only (s s' : FunctionLoader) : Prop := {
  so_code : LCode s' = LCode s;
  so_ptr : Ptr s' = Ptr s;
  so_blocks : ControlBlocks s' = ControlBlocks s;
  so_max : MaxStackSize s <= MaxStackSize s';
}.

Lemma stack_only_refl s : stack_only s s.
Proof. by split. Qed.
Lemma stack_only_trans s1 s2 s3 : stack_only s1 s2 -> stack_only s2 s3 -> stack_only s1 s3.
Proof. intros [] []. split; congruence || lia. Qed.

Lemma opd_val t : is_val t -> opd t = Some t.
Proof. unfold opd. by destruct t. Qed.

Lemma counts_exact e n m : counts e n m -> 0 <= m -> 0 <= n <= m.
Proof. unfold counts. destruct e; lia. Qed.

Lemma blocks_max e Max Max' l V : Max <= Max' -> blocks_ok e Max l V -> blocks_ok e Max' l V.
Proof.
  intros Hm. revert V. induction l as [|b l IH]; intros V; [done|]. cbn [blocks_ok].
  intros (? & ? & ? & ? & ? & ?). split_and!; try done; [lia|by apply IH].
Qed.

(** The blocks look at the values below the innermost one only. *)
Lemma blocks_base e Max b l V V' :
  blocks_ok e Max (b :: l) V -> (InitNumValues b <= length V')%nat ->
  bottom (InitNumValues b) V' = bottom (InitNumValues b) V -> blocks_ok e Max (b :: l) V'.
Proof. cbn [blocks_ok]. intros (? & ? & ? & ? & ? & ?) Hl ->. by split_and!. Qed.

Lemma blocks_weak e Max l V : Forall stackable V -> blocks_ok e Max l V -> blocks_ok false Max l V.
Proof.
  revert V. induction l as [|b l IH]; intros V HV; [done|]. cbn [blocks_ok].
  intros (? & ? & Hc & ? & ? & ?). split_and!; try done.
  - apply (counts_exact e); [done|]. by apply bottom_bytes.
  - apply IH; [by apply bottom_forall|done].
Qed.

Lemma inv_weak e s : inv e s -> inv false s.
Proof.
  intros []. split; try done.
  - apply (counts_exact e); [done|]. by apply bytes_nonneg.
  - by eapply blocks_weak.
Qed.

(** ** Pushing and popping *)

Lemma inv_stack e s n m V :
  inv e s -> Forall stackable V -> (e = true -> Forall is_val V) -> (length V <= Ptr s)%nat ->
  counts e n (bytes V) -> n <= m -> MaxStackSize s <= m -> blocks_ok e m (ControlBlocks s) V ->
  inv e (set_Stack n m V s).
Proof. intros []. by split. Qed.

Lemma push_runs' e t s :
  inv e s -> room 1 s -> stackable t -> (e = true -> is_val t) ->
  runs (pushValueType t) (fun _ s' => inv e s' /\ stack_only s s' /\ ValueTypes s' = t :: ValueTypes s) s.
Proof.
  intros Hi Hr Ht Hval. destruct (stackable_size t Ht) as [Es Hs].
  unfold pushValueType. apply runs_bind. eapply runs_option; [exact Es|]. apply runs_modify.
  pose proof Hi as [Hb Hl Hp Hst Hv Hrm Hc Hm Hbl]. pose proof (bytes_nonneg _ Hst) as Hn.
  pose proof (counts_exact _ _ _ Hc ltac:(lia)) as Hc'. unfold room in Hr.
  assert (u32 (StackSize s + size_of t) = StackSize s + size_of t) as ->
    by (apply wrap_small; unfold in_u; lia).
  split_and!; [|by split; cbn; try done; lia|done].
  apply inv_stack; try done; try lia.
  - by constructor.
  - intros E. constructor; auto.
  - cbn [length]. lia.
  - cbn [bytes]. unfold counts in *. destruct e; lia.
  - destruct (ControlBlocks s) as [|b l] eqn:Eb; [done|]. eapply blocks_base.
    + eapply (blocks_max _ (MaxStackSize s)); [lia|exact Hbl].
    + cbn [length]. destruct Hbl as (_ & ? & _). lia.
    + apply bottom_cons. by destruct Hbl as (_ & ? & _).
Qed.

Lemma push_runs e t s :
  inv e s -> room 1 s -> is_val t ->
  runs (pushValueType t) (fun _ s' => inv e s' /\ stack_only s s' /\ ValueTypes s' = t :: ValueTypes s) s.
Proof. intros. apply push_runs'; try done. by left. Qed.

(** What a pop of [t] takes off. *)
Record popped (e : bool) (t : WASMType) (s : FunctionLoader) (a : WASMType) (s' : FunctionLoader) : Prop := {
  po_inv : inv e s';
  po_stack : stack_only s s';
  po_stackable : stackable a;
  po_length : (length (ValueTypes s') <= length (ValueTypes s))%nat;
  po_type : t = ANY \/ a = t \/ a = ANY;
  po_opd : exists top, pop_opd (abs s) = Some (top, abs s') /\
    (t = ANY -> top = opd a) /\ (is_val t -> top = None \/ top = Some t);
}.

Lemma pop_abs s b l :
  ControlBlocks s = b :: l ->
  pop_opd (abs s) =
  if (length (ValueTypes s) =? InitNumValues b)%nat
  then if StackPolymorphic b then Some (None, abs s) else None
  else match ValueTypes s with
       | [] => None
       | t :: V => Some (opd t, mkV (map opd V) (map abs_block (ControlBlocks s)))
       end.
Proof.
  intros Eb. unfold pop_opd, abs. cbn [ctrls opds]. rewrite Eb. cbn. rewrite length_map.
  destruct (_ =? _)%nat; [done|]. by destruct (ValueTypes s).
Qed.

(** The values without the top one, which is popped as a [t']. *)
Lemma inv_pop e s b l top V t' :
  inv e s -> ControlBlocks s = b :: l -> ValueTypes s = top :: V ->
  length (ValueTypes s) <> InitNumValues b -> t' = top \/ top = ANY /\ is_val t' ->
  stackable t' -> size_of t' <= StackSize s ->
  inv e (set_Stack (StackSize s - size_of t') (MaxStackSize s) V s).
Proof.
  intros Hi Eb EV E Ht' Hst' Hle. pose proof Hi as [Hb Hl Hp Hst Hv Hrm Hc Hm Hbl].
  destruct (stackable_size t' Hst') as [_ Hs]. rewrite Eb in Hbl. rewrite EV in *.
  apply Forall_cons_iff in Hst as [Htop Hst]. cbn [length bytes] in *.
  assert (InitNumValues b <= length V)%nat by (destruct Hbl as (_ & ? & _); cbn [length] in *; lia).
  apply inv_stack; try done; try lia.
  - intros Ee. by apply Hv, Forall_cons_iff in Ee as [_ ?].
  - unfold counts in *. destruct e.
    + specialize (Hv eq_refl). apply Forall_cons_iff in Hv as [Hv _].
      destruct Ht' as [->|[-> _]]; [lia|done].
    + assert (size_of ANY = 4) as E4 by done. destruct Ht' as [->|[-> ?]]; lia.
  - rewrite Eb. apply (blocks_base _ _ b l (top :: V)); [done|done|]. by rewrite bottom_cons.
Qed.

Lemma pop_runs e t s :
  inv e s -> ControlBlocks s <> [] -> stackable t -> runs (popValueType t) (popped e t s) s.
Proof.
  intros Hi Hne Ht. unfold popValueType, back. apply runs_bind, runs_bind, runs_gets.
  destruct (ControlBlocks s) as [|b l] eqn:Eb; [done|]. eapply runs_option; [done|].
  apply runs_bind, runs_gets. cbn [id]. pose proof (pop_abs s b l Eb) as Ep.
  pose proof (i_blocks _ _ Hi) as Hbl. rewrite Eb in Hbl. destruct Hbl as (_ & Hinit & _).
  rewrite (proj2 (Nat.ltb_ge _ _)) by exact Hinit.
  destruct (Nat.eqb_spec (length (ValueTypes s)) (InitNumValues b)) as [E|E].
  { destruct (StackPolymorphic b); [|apply runs_throw]. apply runs_ret.
    split; [done|apply stack_only_refl|by right|done|auto|]. exists None. split_and!; [done|by intros|auto]. }
  destruct (ValueTypes s) as [|top V] eqn:EV; [cbn in Hinit, E; lia|].
  apply runs_bind. eapply runs_option; [done|]. apply runs_bind.
  pose proof (i_stackable _ _ Hi) as Hst. rewrite EV in Hst. apply Forall_cons_iff in Hst as [Htop _].
  assert (forall t', (t' = top /\ (t = ANY \/ t = top) \/ top = ANY /\ t' = t /\ is_val t) ->
    runs (TypeSize <- of_option (getWASMTypeSize t');;
          if StackSize s <? TypeSize then throw TypeMismatchStackSize
          else modify (fun s => set_Stack (StackSize s - TypeSize) (MaxStackSize s) (tail (ValueTypes s)) s);;;
               ret t') (popped e t s) s) as Hpop.
  { intros t' Ht'. assert (stackable t') as Hst' by (destruct Ht' as [[-> _]|(_ & -> & ?)]; [done|by left]).
    apply runs_bind. eapply runs_option; [by apply stackable_size|].
    destruct (Z.ltb_spec (StackSize s) (size_of t')); [apply runs_throw|].
    apply runs_bind, runs_modify, runs_ret. rewrite EV. cbn [tail]. split; [|by split|done| | |].
    - apply (inv_pop e s b l top V); try done; [by rewrite EV|]. destruct Ht' as [[? ?]|(? & ? & ?)]; subst; auto.
    - rewrite EV. cbn. lia.
    - destruct Ht' as [[? [?|?]]|(? & ? & ?)]; subst; auto.
    - exists (opd top). rewrite Ep. split_and!; [done| |].
      + intros ->. destruct Ht' as [[-> _]|(_ & _ & [])]. done.
      + intros Hv. destruct Ht' as [[? [?|?]]|(? & ? & ?)]; subst; [done|right; by apply opd_val|by left]. }
  case_bool_decide as H1; [case_bool_decide as H2; [apply runs_throw|]|case_bool_decide as H2;
    [|case_bool_decide as H3; [|apply runs_throw]]]; apply runs_ret, Hpop.
  - right. destruct Ht; [auto|done].
  - left. auto.
  - left. auto.
Qed.

(** A pop of a value type is the pop of the specification. *)
Lemma popped_expect e t s a s' : popped e t s a s' -> is_val t -> pop_expect t (abs s) = Some (abs s').
Proof.
  intros [] Ht. destruct po_opd0 as (top & Hp & _ & Htop). unfold pop_expect. rewrite Hp. cbn.
  destruct (Htop Ht) as [->| ->]; [done|]. by rewrite bool_decide_true.
Qed.

Lemma pop_val e t s :
  inv e s -> ControlBlocks s <> [] -> is_val t ->
  runs (popValueType t) (fun a s' => inv e s' /\ stack_only s s' /\
    (length (ValueTypes s') <= length (ValueTypes s))%nat /\ pop_expect t (abs s) = Some (abs s')) s.
Proof.
  intros Hi Hne Ht. eapply runs_mono; [apply pop_runs; [done|done|by left]|].
  intros a s' Hp. pose proof (popped_expect _ _ _ _ _ Hp Ht). destruct Hp. by split_and!.
Qed.

(** A push, in the machine. *)
Lemma push_abs t s s' :
  is_val t -> stack_only s s' -> ValueTypes s' = t :: ValueTypes s -> abs s' = push_opd (Some t) (abs s).
Proof. intros Ht [] EV. unfold abs, push_opd. rewrite EV, so_blocks0. cbn. by rewrite opd_val. Qed.

(** ** Several values *)

Lemma popTypes_runs e ts s :
  inv e s -> ControlBlocks s <> [] -> Forall is_val ts ->
  runs (popTypes ts) (fun _ s' => inv e s' /\ stack_only s s' /\
    (length (ValueTypes s') <= length (ValueTypes s))%nat /\ pop_opds ts (abs s) = Some (abs s')) s.
Proof.
  unfold popTypes, pop_opds. intros Hi Hne Hts. assert (Forall is_val (reverse ts)) as Hr by (by apply Forall_reverse).
  revert Hr. generalize (reverse ts) as l. clear Hts. intros l Hl. revert s Hi Hne.
  induction Hl as [|t l Ht _ IH]; intros s Hi Hne; cbn [for_each foldl].
  { apply runs_ret. split_and!; [done|apply stack_only_refl|lia|done]. }
  apply runs_bind, runs_bind. eapply runs_mono; [by apply pop_val|]. cbn beta.
  intros _ s1 (Hi1 & Hs1 & Hl1 & Hp). apply runs_ret. cbn [mbind option_bind]. rewrite Hp.
  eapply runs_mono; [apply IH; [done|]|].
  - by rewrite (so_blocks _ _ Hs1).
  - cbn beta. intros _ s2 (Hi2 & Hs2 & Hl2 & Hp2). split_and!; [done|by eapply stack_only_trans|lia|done].
Qed.

Lemma pushTypes_runs e ts s :
  inv e s -> room (length ts) s -> Forall is_val ts ->
  runs (pushTypes ts) (fun _ s' => inv e s' /\ stack_only s s' /\
    ValueTypes s' = reverse ts ++ ValueTypes s /\ abs s' = push_opds ts (abs s)) s.
Proof.
  unfold pushTypes, push_opds. intros Hi Hr Hts. revert s Hi Hr.
  induction Hts as [|t l Ht _ IH]; intros s Hi Hr; cbn [for_each foldl].
  { apply runs_ret. split_and!; [done|apply stack_only_refl|done|done]. }
  apply runs_bind. eapply runs_mono; [apply push_runs; [done| |done]|].
  { unfold room in *. cbn [length] in Hr. lia. }
  cbn beta. intros _ s1 (Hi1 & Hs1 & HV1). eapply runs_mono; [apply IH; [done|]|].
  - unfold room in *. rewrite HV1, (so_ptr _ _ Hs1). cbn [length] in *. lia.
  - cbn beta. intros _ s2 (Hi2 & Hs2 & HV2 & Ha2). split_and!; [done|by eapply stack_only_trans| |].
    + by rewrite HV2, HV1, reverse_cons, <- app_assoc.
    + by rewrite Ha2, (push_abs t s s1).
Qed.

(** ** The innermost block *)

(** Nothing but the innermost block and the operand stack changes. *)
Record same_cursor (s s' : FunctionLoader) : Prop := {
  sc_code : LCode s' = LCode s;
  sc_ptr : Ptr s' = Ptr s;
  sc_max : MaxStackSize s <= MaxStackSize s';
}.

Lemma stack_cursor s s' : stack_only s s' -> same_cursor s s'.
Proof. by intros []. Qed.

Lemma inv_blocks e s d l :
  inv e s -> blocks_ok e (MaxStackSize s) l (ValueTypes s) -> inv e (set_Blocks d l s).
Proof. intros []. by split. Qed.

Lemma resize_bottom n V : (n <= length V)%nat -> resize n V = bottom n V.
Proof. intros. unfold resize. by replace (n - length V)%nat with 0%nat by lia. Qed.

Lemma reset_runs e b l s :
  inv e s -> ControlBlocks s = b :: l ->
  runs resetStack (fun _ s' => inv e s' /\ stack_only s s' /\
    ValueTypes s' = bottom (InitNumValues b) (ValueTypes s)) s.
Proof.
  intros Hi Eb. unfold resetStack, back. apply runs_bind, runs_bind, runs_gets. rewrite Eb.
  eapply runs_option; [done|]. apply runs_modify.
  pose proof Hi as [Hb Hl Hp Hst Hv Hrm Hc Hm Hbl]. rewrite Eb in Hbl.
  pose proof Hbl as (Hok & Hinit & Hic & Him & Hf & Hbl'). rewrite resize_bottom by done.
  split_and!; [|by split; try done; cbn; lia|done]. apply inv_stack; try done; try lia.
  - by apply bottom_forall.
  - intros E. by apply bottom_forall, Hv.
  - rewrite length_bottom by done. lia.
  - rewrite Eb. eapply blocks_base; [exact Hbl|by rewrite length_bottom|]. apply bottom_bottom. lia.
Qed.

Lemma set_back_runs e b l f s :
  inv e s -> ControlBlocks s = b :: l -> block_ok (f b) -> LabelType (f b) = LabelType b ->
  InitNumValues (f b) = InitNumValues b -> InitStackSize (f b) = InitStackSize b ->
  runs (set_back f) (fun _ s' => inv e s' /\ same_cursor s s' /\ ValueTypes s' = ValueTypes s /\
    ControlBlocks s' = f b :: l) s.
Proof.
  intros Hi Eb Hok El En Es. unfold set_back, runs. rewrite Eb. split_and!; [|by split|done|done].
  apply inv_blocks; [done|]. pose proof (i_blocks _ _ Hi) as Hbl. rewrite Eb in Hbl.
  destruct Hbl as (_ & Hinit & Hic & Him & Hf & Hbl). cbn [blocks_ok]. rewrite El, En, Es. by split_and!.
Qed.

Lemma map_drop_opd n V : map opd (drop n V) = drop n (map opd V).
Proof. revert V. induction n as [|n IH]; intros [|t V]; cbn; auto. Qed.

Lemma unreachable_runs e s :
  inv e s -> ControlBlocks s <> [] ->
  runs unreachable (fun _ s' => inv e s' /\ same_cursor s s' /\ ControlBlocks s' <> [] /\
    set_unreachable (abs s) = Some (abs s')) s.
Proof.
  intros Hi Hne. destruct (ControlBlocks s) as [|b l] eqn:Eb; [done|].
  unfold unreachable. apply runs_bind. eapply runs_mono; [by eapply reset_runs|]. cbn beta.
  intros _ s1 (Hi1 & Hs1 & HV1). assert (ControlBlocks s1 = b :: l) as Eb1 by (by rewrite (so_blocks _ _ Hs1)).
  pose proof (i_blocks _ _ Hi) as Hbl. rewrite Eb in Hbl. destruct Hbl as (Hok & Hinit & _).
  eapply runs_mono; [by eapply set_back_runs|]. cbn beta. intros _ s2 (Hi2 & Hs2 & HV2 & Eb2).
  split_and!; [done| |by rewrite Eb2|].
  - destruct Hs1, Hs2. split; congruence || lia.
  - unfold set_unreachable, abs. rewrite Eb, HV2, HV1, Eb2. cbn [map ctrls opds abs_block c_height].
    rewrite length_map. unfold bottom. rewrite map_drop_opd. done.
Qed.

(** ** Checks of the operand stack *)

(** The bytes above the innermost block. *)
Definition above (n : nat) (V : list WASMType) : list WASMType := take (length V - n) V.

Lemma above_bytes n V : bytes V = bytes (above n V) + bytes (bottom n V).
Proof. unfold above, bottom. by rewrite <- bytes_app, take_drop. Qed.

Lemma above_small n V : Forall stackable V -> bytes (above n V) < 4 -> (length V <= n)%nat.
Proof.
  intros HV Hs. unfold above in Hs. destruct V as [|t V]; [cbn; lia|].
  destruct (decide (length (t :: V) <= n)%nat); [done|]. exfalso.
  assert (Forall stackable (take (length (t :: V) - n) (t :: V))) as H1 by (by apply Forall_take).
  destruct (length (t :: V) - n)%nat as [|k] eqn:Ek; [lia|]. cbn [take] in Hs, H1. cbn [bytes] in Hs.
  apply Forall_cons_iff in H1 as [Ht H2]. destruct (stackable_size t Ht). pose proof (bytes_nonneg _ H2). lia.
Qed.

Lemma above_cons n t V : (n <= length V)%nat -> bytes (above n (t :: V)) = size_of t + bytes (above n V).
Proof.
  intros. unfold above. cbn [length]. by replace (S (length V) - n)%nat with (S (length V - n)) by lia.
Qed.

(** Type lists of blocks. *)
Definition short (ts : list WASMType) : Prop := Forall is_val ts /\ (length ts <= 1)%nat.

Lemma block_short b : block_ok b -> short (getReturnTypes (BlockType b)) /\ short (labelTypes b).
Proof.
  assert (short []) as H0 by (split; [constructor|cbn; lia]).
  unfold block_ok, labelTypes. destruct (BlockType b) as [t|t]; cbn [getReturnTypes getParamTypes].
  - intros [Ht _]. assert (short (if bool_decide (t = VOID) then [] else [t])) as Hs.
    { case_bool_decide; [done|]. destruct Ht; [done|]. split; [by repeat constructor|cbn; lia]. }
    split; [done|]. by destruct (bool_decide (LabelType b = LABEL_LOOP)).
  - intros ((? & ? & ?) & E & _). rewrite E. done.
Qed.

Lemma short_cases ts : short ts -> ts = [] \/ exists t, ts = [t] /\ is_val t.
Proof.
  intros [Hv Hl]. destruct ts as [|t [|]]; [by left|right|cbn in Hl; lia].
  apply Forall_cons_iff in Hv as [Hv _]. eauto.
Qed.

(** Popping a value that is there. *)
Lemma pop_top_abs s b l t V :
  ControlBlocks s = b :: l -> ValueTypes s = t :: V -> is_val t -> length (ValueTypes s) <> InitNumValues b ->
  pop_opds [t] (abs s) = Some (mkV (map opd V) (map abs_block (b :: l))) /\
  push_opds [t] (mkV (map opd V) (map abs_block (b :: l))) = abs s.
Proof.
  intros Eb EV Ht Hne. split.
  - unfold pop_opds. cbn. unfold pop_expect. rewrite (pop_abs s b l Eb), EV in *.
    rewrite (proj2 (Nat.eqb_neq _ _)) by done. cbn [mbind option_bind]. rewrite opd_val by done.
    by rewrite bool_decide_true, Eb.
  - unfold abs. rewrite EV, Eb. cbn. by rewrite opd_val.
Qed.

(** The values of [ts] are on top. *)
Definition on_top (ts : list WASMType) (s s' : FunctionLoader) : Prop :=
  exists v, pop_opds ts (abs s) = Some v /\ abs s' = push_opds ts v.

Lemma target_runs e ts b l s avail :
  inv e s -> ControlBlocks s = b :: l -> short ts ->
  (4 <= avail -> 0 < bytes (ValueTypes s)) ->
  (e = true -> avail = bytes (above (InitNumValues b) (ValueTypes s))) ->
  runs (checkTargetBlockStack ts avail) (fun _ s' => s' = s /\
    (e = true -> on_top ts s s) /\
    (forall t, ts = [t] -> size_of t <= avail)) s.
Proof.
  intros Hi Eb Hts Hav Hex. unfold checkTargetBlockStack. apply runs_bind, runs_gets.
  destruct (short_cases ts Hts) as [->|(t & -> & Ht)]; cbn [reverse rev_append targetLoop].
  { apply runs_ret. split_and!; [done| |done]. intros _. by exists (abs s). }
  destruct (stackable_size t ltac:(by left)) as [Es Hs].
  apply runs_bind. eapply runs_option; [exact Es|]. destruct (Z.ltb_spec avail (size_of t)); [apply runs_throw|].
  specialize (Hav ltac:(lia)). destruct (ValueTypes s) as [|top V] eqn:EV; [cbn in Hav; lia|].
  apply runs_bind. eapply runs_option; [done|]. case_bool_decide as Etop; [|apply runs_throw]. subst top.
  apply runs_ret. split_and!; [done| |by intros ? [= <-]]. intros He. specialize (Hex He).
  destruct (pop_top_abs s b l t V Eb EV Ht) as [Hp Hq].
  - intros E. rewrite Hex in *. unfold above in *. rewrite <- E, EV, Nat.sub_diag in *. cbn in *. lia.
  - exists (mkV (map opd V) (map abs_block (b :: l))). by rewrite Hq.
Qed.

Lemma num_cells ts : short ts -> exists n, numCells ts = Some n /\ 4 * n = bytes ts.
Proof.
  intros Hts. destruct (short_cases ts Hts) as [->|(t & -> & Ht)]; [by exists 0|].
  exists (size_of t / 4). destruct t; try done; by vm_compute.
Qed.

(** Values that take up all the bytes above the block are all its values. *)
Lemma exact_height s b l ts v :
  Forall stackable (ValueTypes s) -> ControlBlocks s = b :: l -> short ts ->
  (InitNumValues b <= length (ValueTypes s))%nat ->
  bytes (above (InitNumValues b) (ValueTypes s)) < bytes ts + 4 ->
  pop_opds ts (abs s) = Some v -> abs s = push_opds ts v -> length (opds v) = InitNumValues b.
Proof.
  intros Hst Eb Hts Hinit Hb Hp Hq. destruct (short_cases ts Hts) as [->|(t & -> & Ht)].
  - cbn in Hp, Hb. injection Hp as <-. cbn [abs opds]. rewrite length_map.
    pose proof (above_small _ _ Hst Hb). lia.
  - assert (opds (abs s) = Some t :: opds v) as E by (by rewrite Hq).
    unfold abs in E. cbn [opds] in E. destruct (ValueTypes s) as [|top V] eqn:EV; [done|].
    injection E as Eo EV'. rewrite <- EV', length_map. apply Forall_cons_iff in Hst as [Htop Hst].
    assert (top = t) as -> by (unfold opd in Eo; case_bool_decide; congruence).
    assert (length (t :: V) <> InitNumValues b) as Hne.
    { intros Ei. unfold pop_opds in Hp. cbn in Hp. unfold pop_expect in Hp.
      rewrite (pop_abs s b l Eb), EV, (proj2 (Nat.eqb_eq _ _)) in Hp by done.
      destruct (StackPolymorphic b); [|done]. cbn in Hp. injection Hp as <-.
      unfold abs in EV'. rewrite EV in EV'. cbn [opds map] in EV'.
      apply (f_equal length) in EV'. cbn in EV'. lia. }
    cbn [length] in *. rewrite above_cons in Hb by lia. cbn [bytes] in Hb.
    pose proof (above_small (InitNumValues b) V Hst ltac:(lia)). lia.
Qed.

(** In unreachable code the results are popped and pushed again. *)
Lemma polymorphic_top e b l s :
  inv e s -> room 1 s -> ControlBlocks s = b :: l -> short (getReturnTypes (BlockType b)) ->
  runs (let ts := getReturnTypes (BlockType b) in
    popTypes ts;;; pushTypes ts;;;
    s <- gets id;;
    let n := (length (ValueTypes s) - InitNumValues b)%nat in
    if (n <? length ts)%nat || (negb false && negb (n =? length ts)%nat)
    then throw TypeMismatchStackSize
    else for_each (fun t =>
      l <- gets ValueTypes;;
      Top <- of_option (head l);;
      if bool_decide (Top = t) then ret tt else throw TypeMismatch) (reverse ts))
    (fun _ s' => inv e s' /\ stack_only s s' /\
      exists v, pop_opds (getReturnTypes (BlockType b)) (abs s) = Some v /\
        length (opds v) = InitNumValues b /\ abs s' = push_opds (getReturnTypes (BlockType b)) v) s.
Proof.
  intros Hi Hroom Eb Hts. set (ts := getReturnTypes (BlockType b)) in *. cbn zeta.
  apply runs_bind. eapply runs_mono; [apply popTypes_runs; [done|by rewrite Eb|apply Hts]|]. cbn beta.
  intros _ s1 (Hi1 & Hs1 & Hl1 & Hp1). apply runs_bind.
  assert (room (length ts) s1) as Hr1.
  { unfold room in *. rewrite (so_ptr _ _ Hs1). destruct Hts. lia. }
  eapply runs_mono; [apply pushTypes_runs; [done|done|apply Hts]|]. cbn beta.
  intros _ s2 (Hi2 & Hs2 & HV2 & Ha2). apply runs_bind, runs_gets. cbn [id].
  destruct (_ || _) eqn:En; [apply runs_throw|]. apply orb_false_iff in En as [_ En].
  cbn [negb andb] in En. apply negb_false_iff, Nat.eqb_eq in En.
  assert (length (ValueTypes s1) = InitNumValues b) as Hlen.
  { rewrite HV2, length_app, length_reverse in En.
    pose proof (i_blocks _ _ Hi1) as Hbl. rewrite (so_blocks _ _ Hs1), Eb in Hbl. destruct Hbl as (_ & ? & _). lia. }
  assert (inv e s2 /\ stack_only s s2 /\ exists v, pop_opds ts (abs s) = Some v /\
    length (opds v) = InitNumValues b /\ abs s2 = push_opds ts v) as Hpost.
  { split_and!; [done|by eapply stack_only_trans|]. exists (abs s1). split_and!; [done| |done].
    cbn [abs opds]. by rewrite length_map. }
  destruct (short_cases ts Hts) as [->|(t & -> & Ht)]; cbn [reverse rev_append for_each]; [by apply runs_ret|].
  apply runs_bind, runs_bind, runs_gets. rewrite HV2. apply runs_bind. eapply runs_option; [done|].
  rewrite bool_decide_true by done. apply runs_ret. by apply runs_ret.
Qed.

(** Ending a block: its results are what it leaves. *)
Lemma checkBlock_runs e b l s :
  inv e s -> room 1 s -> ControlBlocks s = b :: l ->
  runs checkBlockStack (fun _ s' => inv e s' /\ stack_only s s' /\
    (e = true -> exists v, pop_opds (getReturnTypes (BlockType b)) (abs s) = Some v /\
       length (opds v) = InitNumValues b /\ abs s' = push_opds (getReturnTypes (BlockType b)) v)) s.
Proof.
  intros Hi Hroom Eb. unfold checkBlockStack, back. apply runs_bind, runs_bind, runs_gets. rewrite Eb.
  eapply runs_option; [done|]. pose proof (i_blocks _ _ Hi) as Hbl. rewrite Eb in Hbl.
  destruct Hbl as (Hok & Hinit & Hic & Him & Hf & Hbl). destruct (block_short b Hok) as [Hts _].
  set (ts := getReturnTypes (BlockType b)) in *. unfold checkTopTypes. apply runs_bind, runs_gets. cbn [id].
  destruct (Z.ltb_spec (StackSize s) (InitStackSize b)); [apply runs_throw|].
  destruct (StackPolymorphic b).
  - eapply runs_mono; [by apply (polymorphic_top e b l s)|]. cbn beta. intros _ s' (? & ? & ?). by split_and!.
  - apply runs_bind. destruct (num_cells ts Hts) as (n & En & Hn). eapply runs_option; [exact En|].
    destruct (Z.eqb_spec (Z.shiftr (StackSize s - InitStackSize b) 2) n) as [Esz|]; [|apply runs_throw].
    rewrite Z.shiftr_div_pow2 in Esz by lia. change (2 ^ 2) with 4 in Esz.
    pose proof (i_count _ _ Hi) as Hc. pose proof (bytes_nonneg _ (i_stackable _ _ Hi)) as Hnn.
    assert (0 <= bytes (bottom (InitNumValues b) (ValueTypes s))) as Hnb
      by (by apply bottom_bytes, (i_stackable _ _ Hi)).
    pose proof (counts_exact _ _ _ Hc ltac:(lia)). pose proof (counts_exact _ _ _ Hic ltac:(lia)).
    pose proof (above_bytes (InitNumValues b) (ValueTypes s)) as Ha.
    eapply runs_mono; [apply (target_runs e ts b l s); [done|done|done|lia|]|].
    { intros ->. cbn in Hc, Hic. lia. }
    cbn beta. intros _ s' (-> & Htop & Hsz). split_and!; [done|apply stack_only_refl|]. intros He.
    destruct (Htop He) as (v & Hp & Hq). exists v. split_and!; [done| |done]. subst e. cbn in Hc, Hic.
    eapply exact_height; try done; [by apply Hi|]. rewrite <- Hn. 
    pose proof (Z.div_mod (StackSize s - InitStackSize b) 4). pose proof (Z.mod_pos_bound (StackSize s - InitStackSize b) 4).
    lia.
Qed.
