(* ===== verification/FunctionLoaderSteps.v ===== *)
(** Every instruction of [FunctionLoader] against the specification: from a
    state that satisfies the invariant it throws, or ends in one that does,
    and in the exact case it has decoded an instruction and made the step of
    [WasmValid] for it. *)

From S2P Require Import Prelude Intx Leb128 Leb128Correct FunctionLoader WasmValid FunctionLoaderInv.

#[local] Open Scope Z_scope.

(** ** Reading *)

(** A reader takes at least one byte. *)
Definition advances {A} (f : list Z -> ErrorCode + (A * list Z)) : Prop :=
  forall bs a rest, Forall is_byte bs -> f bs = inr (a, rest) ->
    exists k, (0 < k <= length bs)%nat /\ rest = drop k bs.

(** Only the cursor moves. *)
Record moved (s s' : FunctionLoader) : Prop := {
  mv_code : LCode s' = LCode s;
  mv_ptr : (Ptr s < Ptr s')%nat;
  mv_blocks : ControlBlocks s' = ControlBlocks s;
  mv_values : ValueTypes s' = ValueTypes s;
  mv_max : MaxStackSize s' = MaxStackSize s;
}.

Lemma moved_abs s s' : moved s s' -> abs s' = abs s.
Proof. intros []. unfold abs. congruence. Qed.
Lemma moved_room n s s' : moved s s' -> room n s -> room (S n) s'.
Proof. intros []. unfold room. rewrite mv_values0. lia. Qed.
Lemma inv_room e s : inv e s -> room 0 s.
Proof. intros []. unfold room. lia. Qed.

Lemma reading_runs {A} e (f : list Z -> ErrorCode + (A * list Z)) s :
  inv e s -> advances f ->
  runs (reading f) (fun a s' => inv e s' /\ moved s s' /\
    f (drop (Ptr s) (LCode s)) = inr (a, drop (Ptr s') (LCode s'))) s.
Proof.
  intros Hi Hf. unfold runs, reading. destruct (f _) as [er|[a rest]] eqn:Ef; [done|].
  destruct (Hf _ _ _ ltac:(apply Forall_drop, Hi) Ef) as (k & Hk & ->).
  rewrite length_drop in Hk. rewrite drop_drop, length_drop.
  replace (length (LCode s) - (length (LCode s) - (Ptr s + k)))%nat with (Ptr s + k)%nat by lia.
  split_and!; [|by split; cbn; try lia|done].
  destruct Hi. split; cbn; try done; lia.
Qed.

Lemma advances_byte : advances readByte.
Proof. intros [|b bs] a rest _; cbn; [done|]. intros [= <- <-]. exists 1%nat. split; [cbn; lia|done]. Qed.

Lemma advances_bytes n : 0 < n -> advances (readBytes n).
Proof.
  intros Hn bs a rest _. unfold readBytes. destruct (Z.ltb_spec (Z.of_nat (length bs)) n); [done|].
  intros [= <- <-]. exists (Z.to_nat n). split; [lia|done].
Qed.

Section Steps.
Context (wide_shift : Z -> Z -> Z) (M : Module_) (F : TypeEntry) (Locals : list WASMType).
Hypothesis HM : mod_ok M.
Hypothesis HF : type_ok F.
Hypothesis HL : Forall is_val Locals.

Lemma readLEB_imm T bs v rest :
  T <> TU8 -> Forall is_byte bs -> readLEB wide_shift T bs = inr (v, rest) ->
  bs <> [] /\ leb_spec T bs = inr (v, rest).
Proof.
  intros HT Hb. unfold readLEB. destruct bs as [|b bs]; [done|]. rewrite readLEBNumber_spec by done. done.
Qed.

Lemma leb_spec_rest T bs v rest :
  Forall is_byte bs -> leb_spec T bs = inr (v, rest) ->
  (exists k, (0 < k <= length bs)%nat /\ rest = drop k bs) /\ exists z, v = cast T z.
Proof.
  intros Hb. unfold leb_spec. destruct (leb_split _) as [[g r]|] eqn:Es; [|done].
  destruct (split_groups _ _ _ _ Hb Es) as (_ & Hl & Eb). cbn zeta. destruct (_ || _); [|done].
  intros [= <- <-]. split; [|by eexists]. exists (length g). split; [|done].
  pose proof (f_equal length Eb) as E. rewrite length_app in E. lia.
Qed.

Lemma advances_leb T : T <> TU8 -> advances (readLEB wide_shift T).
Proof.
  intros HT bs v rest Hb Hr. destruct (readLEB_imm T bs v rest HT Hb Hr) as [_ Hs].
  by destruct (leb_spec_rest T bs v rest Hb Hs).
Qed.

Lemma u32_imm_of bs v rest :
  Forall is_byte bs -> readU32 wide_shift bs = inr (v, rest) ->
  u32_imm bs = Some (v, rest) /\ 0 <= v < 2 ^ 32.
Proof.
  intros Hb Hr. destruct (readLEB_imm TU32 bs v rest ltac:(done) Hb Hr) as [Hne Hs]. split.
  - unfold u32_imm. destruct bs; [done|]. by rewrite Hs.
  - destruct (leb_spec_rest TU32 bs v rest Hb Hs) as [_ [z ->]]. apply (wrap_range 32). lia.
Qed.

Lemma u32_runs e s :
  inv e s ->
  runs (readU32_ wide_shift) (fun x s' => inv e s' /\ moved s s' /\ 0 <= x < 2 ^ 32 /\
    u32_imm (drop (Ptr s) (LCode s)) = Some (x, drop (Ptr s') (LCode s'))) s.
Proof.
  intros Hi. eapply runs_mono; [apply (reading_runs e (readU32 wide_shift)); [done|by apply advances_leb]|].
  cbn beta. intros x s' (Hi' & Hm & Hr). destruct (u32_imm_of _ _ _ ltac:(apply Forall_drop, Hi) Hr) as (? & ? & ?).
  by split_and!.
Qed.

(** An immediate that is not used. *)
Lemma imm_runs e T s :
  inv e s -> T <> TU8 ->
  runs (reading (readLEB wide_shift T)) (fun _ s' => inv e s' /\ moved s s' /\
    skip_imm T (drop (Ptr s) (LCode s)) = Some (drop (Ptr s') (LCode s'))) s.
Proof.
  intros Hi HT. eapply runs_mono; [apply (reading_runs e (readLEB wide_shift T)); [done|by apply advances_leb]|].
  cbn beta. intros x s' (Hi' & Hm & Hr). split_and!; [done..|].
  destruct (readLEB_imm T _ _ _ HT ltac:(apply Forall_drop, Hi) Hr) as [Hne Hs].
  unfold skip_imm. destruct (drop _ _); [done|]. by rewrite Hs.
Qed.

Lemma float_runs e n s :
  inv e s -> 0 < n ->
  runs (reading (readBytes n)) (fun _ s' => inv e s' /\ moved s s' /\
    skip_bytes (Z.to_nat n) (drop (Ptr s) (LCode s)) = Some (drop (Ptr s') (LCode s'))) s.
Proof.
  intros Hi Hn. eapply runs_mono; [apply (reading_runs e (readBytes n)); [done|by apply advances_bytes]|].
  cbn beta. intros x s' (Hi' & Hm & Hr). split_and!; [done..|]. unfold readBytes in Hr. unfold skip_bytes.
  destruct (Z.ltb_spec (Z.of_nat (length (drop (Ptr s) (LCode s)))) n); [done|].
  rewrite (proj2 (Nat.ltb_ge _ _)) by lia. injection Hr as _ Hr. by rewrite <- Hr.
Qed.

(** ** Branches *)

(** The cursor and the operand stack change. *)
Record advanced (s s' : FunctionLoader) : Prop := {
  ad_code : LCode s' = LCode s;
  ad_ptr : (Ptr s < Ptr s')%nat;
  ad_blocks : ControlBlocks s' = ControlBlocks s;
  ad_max : MaxStackSize s <= MaxStackSize s';
}.

Lemma advanced_trans s1 s2 s3 : advanced s1 s2 -> advanced s2 s3 -> advanced s1 s3.
Proof. intros [] []. split; congruence || lia. Qed.
Lemma moved_stack s1 s2 s3 : moved s1 s2 -> stack_only s2 s3 -> advanced s1 s3.
Proof. intros [] []. split; congruence || lia. Qed.
Lemma moved_advanced s1 s2 : moved s1 s2 -> advanced s1 s2.
Proof. intros []. split; try done. lia. Qed.

Lemma blocks_elem e Max l V b : blocks_ok e Max l V -> b ∈ l -> block_ok b.
Proof.
  revert V. induction l as [|c l IH]; intros V; cbn [blocks_ok]; [by intros _ ?%elem_of_nil|].
  intros (? & _ & _ & _ & _ & Hl) [->|Hb]%elem_of_cons; [done|by eapply IH].
Qed.

(** The bytes above a block are no fewer than counted. *)
Lemma branch_avail e s b l :
  inv e s -> ControlBlocks s = b :: l ->
  let avail := u32 (StackSize s - InitStackSize b) in
  (4 <= avail -> 0 < bytes (ValueTypes s)) /\
  (e = true -> avail = bytes (above (InitNumValues b) (ValueTypes s))).
Proof.
  intros Hi Eb avail. pose proof (i_blocks _ _ Hi) as Hbl. rewrite Eb in Hbl. destruct Hbl as (_ & _ & Hic & _).
  pose proof (bottom_bytes (InitNumValues b) _ (i_stackable _ _ Hi)) as Hbb.
  pose proof (bytes_nonneg _ (i_stackable _ _ Hi)) as Hn. pose proof (i_count _ _ Hi) as Hc.
  pose proof (above_bytes (InitNumValues b) (ValueTypes s)) as Ha. split.
  - intros Hav. destruct (Z.eq_dec (bytes (ValueTypes s)) 0) as [E|]; [|lia].
    pose proof (counts_exact _ _ _ Hc ltac:(lia)). pose proof (counts_exact _ _ _ Hic ltac:(lia)).
    unfold avail in Hav. replace (StackSize s - InitStackSize b) with 0 in Hav by lia. change (u32 0) with 0 in Hav. lia.
  - intros ->. cbn in Hc, Hic. unfold avail. rewrite Hc, Hic, (wrap_small 32); [lia|].
    pose proof (i_room _ _ Hi). pose proof (i_ptr _ _ Hi). pose proof (i_length _ _ Hi). unfold in_u. lia.
Qed.

Lemma checkBranch_runs e s :
  inv e s -> ControlBlocks s <> [] ->
  runs (checkBranch wide_shift) (fun target s' => inv e s' /\ advanced s s' /\
    exists x, u32_imm (drop (Ptr s) (LCode s)) = Some (x, drop (Ptr s') (LCode s')) /\
      ControlBlocks s !! Z.to_nat x = Some target /\ block_ok target /\
      (e = true -> on_top (labelTypes target) s s')) s.
Proof.
  intros Hi Hne. unfold checkBranch. apply runs_bind. eapply runs_mono; [by apply u32_runs|]. cbn beta.
  intros x s1 (Hi1 & Hm1 & Hx & Himm). apply runs_bind, runs_gets.
  destruct (Z.leb_spec (Z.of_nat (length (ControlBlocks s1))) x); [apply runs_throw|].
  destruct (lookup_lt_is_Some_2 (ControlBlocks s1) (Z.to_nat x)) as [target Htarget]; [lia|].
  apply runs_bind. eapply runs_option; [exact Htarget|].
  assert (block_ok target) as Hok.
  { eapply blocks_elem; [exact (i_blocks _ _ Hi1)|]. by apply list_elem_of_lookup_2 in Htarget. }
  destruct (block_short target Hok) as [_ Hts]. set (ts := labelTypes target) in *. cbn zeta.
  destruct (ControlBlocks s) as [|b l] eqn:Eb; [done|].
  assert (ControlBlocks s1 = b :: l) as Eb1 by (rewrite (mv_blocks _ _ Hm1); done).
  unfold back. apply runs_bind, runs_bind, runs_gets. rewrite Eb1. eapply runs_option; [done|].
  assert (room 1 s1) as Hr1 by (eapply moved_room; [done|by eapply inv_room]).
  rewrite <- Eb1 in *. pose proof (moved_abs _ _ Hm1) as Ha1.
  destruct (StackPolymorphic b).
  - apply runs_bind. eapply runs_mono; [apply popTypes_runs; [done|by rewrite Eb1|apply Hts]|]. cbn beta.
    intros _ s2 (Hi2 & Hs2 & Hl2 & Hp2). apply runs_bind.
    eapply runs_mono; [apply pushTypes_runs; [done| |apply Hts]|].
    { unfold room in *. rewrite (so_ptr _ _ Hs2). destruct Hts. lia. }
    cbn beta. intros _ s3 (Hi3 & Hs3 & HV3 & Ha3). apply runs_ret.
    pose proof (stack_only_trans _ _ _ Hs2 Hs3) as Hs13. split_and!; [done|by eapply moved_stack|].
    exists x. rewrite (so_ptr _ _ Hs13), (so_code _ _ Hs13). split_and!; try done.
    intros _. exists (abs s2). by rewrite <- Ha1.
  - apply runs_bind, runs_gets. cbn [id]. apply runs_bind. destruct (branch_avail e s1 b l Hi1 Eb1) as [Hav1 Hav2].
    eapply runs_mono; [apply (target_runs e ts b l s1); try done|]. cbn beta.
    intros _ s2 (-> & Htop & _). apply runs_ret. split_and!; [done|by apply moved_advanced|].
    exists x. split_and!; try done. intros He. destruct (Htop He) as (v & Hp & Hq). exists v.
    by rewrite <- Ha1.
Qed.

(** ** Facts about the machine of the specification *)

Definition based (v : vstate) : Prop :=
  exists c cs, ctrls v = c :: cs /\ (c_height c <= length (opds v))%nat.

Lemma abs_based e s : inv e s -> ControlBlocks s <> [] -> based (abs s).
Proof.
  intros Hi Hne. pose proof (i_blocks _ _ Hi) as Hbl. unfold based, abs.
  destruct (ControlBlocks s) as [|b l]; [done|]. destruct Hbl as (_ & ? & _).
  exists (abs_block b), (map abs_block l). split; [done|]. cbn [opds]. by rewrite length_map.
Qed.

Lemma pop_expect_based t v v' : based v -> pop_expect t v = Some v' -> ctrls v' = ctrls v /\ based v'.
Proof.
  intros (c & cs & Ec & Hh). unfold pop_expect, pop_opd. rewrite Ec. cbn [head mbind option_bind].
  destruct (Nat.eqb_spec (length (opds v)) (c_height c)).
  - destruct (c_unreachable c); [|done]. cbn. intros [= <-]. split; [done|]. by exists c, cs.
  - destruct (opds v) as [|a l] eqn:Eo; [done|]. cbn [mbind option_bind].
    assert (based (mkV l (c :: cs))) by (exists c, cs; cbn [length] in *; split; [done|cbn; lia]).
    destruct a as [a|]; [case_bool_decide; [|done]|]; by intros [= <-].
Qed.

Lemma pop_opds_based ts v v' : based v -> pop_opds ts v = Some v' -> ctrls v' = ctrls v /\ based v'.
Proof.
  unfold pop_opds. generalize (reverse ts) as l. intros l. revert v.
  induction l as [|t l IH]; intros v Hb; cbn [foldl].
  - by intros [= <-].
  - cbn [mbind option_bind]. destruct (pop_expect t v) as [v1|] eqn:E.
    + intros Hl. destruct (pop_expect_based t v v1 Hb E) as [Ec Hb1]. destruct (IH v1 Hb1 Hl) as [-> ?]. done.
    + intros Hl. exfalso. clear IH. induction l; [done|]. cbn in Hl. auto.
Qed.

Lemma ctrls_push_opds ts v : ctrls (push_opds ts v) = ctrls v.
Proof. unfold push_opds. revert v. induction ts as [|t ts IH]; intros v; [done|]. cbn [foldl]. by rewrite IH. Qed.

Lemma unreachable_push ts v : based v -> set_unreachable (push_opds ts v) = set_unreachable v.
Proof.
  revert v. induction ts as [|t ts IH]; intros v Hb; [done|]. unfold push_opds. cbn [foldl].
  change (set_unreachable (push_opds ts (push_opd (Some t) v)) = set_unreachable v).
  destruct Hb as (c & cs & Ec & Hh). rewrite IH by (exists c, cs; cbn; split; [done|lia]).
  unfold set_unreachable, push_opd. cbn [ctrls opds]. rewrite Ec. cbn [length].
  by replace (S (length (opds v)) - c_height c)%nat with (S (length (opds v) - c_height c)) by lia.
Qed.

(** A branch that is taken: what it carries is popped. *)
Lemma on_top_unreachable e ts s s' :
  inv e s -> ControlBlocks s <> [] -> on_top ts s s' ->
  pop_opds ts (abs s) ≫= set_unreachable = set_unreachable (abs s').
Proof.
  intros Hi Hne (v & Hp & ->). rewrite Hp. cbn [mbind option_bind].
  destruct (pop_opds_based ts (abs s) v) as [_ Hb]; [by eapply abs_based|done|]. by rewrite unreachable_push.
Qed.

Lemma label_abs x s b :
  ControlBlocks s !! Z.to_nat x = Some b -> label_at x (abs s) = Some (labelTypes b).
Proof.
  intros Hb. unfold label_at, abs. cbn [ctrls].
  change (map abs_block (ControlBlocks s)) with (abs_block <$> ControlBlocks s).
  by rewrite list_lookup_fmap, Hb.
Qed.

(** ** Instructions *)

(** What executing the instruction with opcode [op] comes to. *)
Record did (e : bool) (op : Z) (s s' : FunctionLoader) : Prop := {
  d_inv : inv e s';
  d_length : length (LCode s') = length (LCode s);
  d_code : drop (Ptr s') (LCode s') = drop (Ptr s') (LCode s);
  d_ptr : (Ptr s <= Ptr s')%nat;
  d_max : MaxStackSize s <= MaxStackSize s';
  d_blocks : ControlBlocks s' = [] -> Ptr s' = length (LCode s');
  d_step : e = true -> exists i,
    decode_op op (drop (Ptr s) (LCode s)) = Some (i, drop (Ptr s') (LCode s)) /\
    step_instr M F Locals i (abs s) = Some (abs s');
}.

(** The common case: the code stays and a block is left. *)
Lemma did_intro e op s s' :
  inv e s' -> LCode s' = LCode s -> (Ptr s <= Ptr s')%nat -> MaxStackSize s <= MaxStackSize s' ->
  ControlBlocks s' <> [] ->
  (e = true -> exists i, decode_op op (drop (Ptr s) (LCode s)) = Some (i, drop (Ptr s') (LCode s)) /\
    step_instr M F Locals i (abs s) = Some (abs s')) -> did e op s s'.
Proof. intros Hi Hc Hp Hm Hb Hs. split; rewrite ?Hc; done. Qed.

(** The state in which an instruction starts, its opcode read. *)
Definition ready (e : bool) (s : FunctionLoader) : Prop := inv e s /\ room 1 s /\ ControlBlocks s <> [].

Lemma did_unreachable e s : ready e s -> runs unreachable (fun _ => did e 0x00 s) s.
Proof.
  intros (Hi & _ & Hne). eapply runs_mono; [by apply unreachable_runs|]. cbn beta.
  intros _ s' (Hi' & [Ec Ep Em] & Hne' & Hs). apply did_intro; try done; [lia|].
  intros _. exists Unreachable. by rewrite Ep.
Qed.

Lemma did_br e s : ready e s -> runs (checkBranch wide_shift;;; unreachable) (fun _ => did e 0x0c s) s.
Proof.
  intros (Hi & _ & Hne). apply runs_bind. eapply runs_mono; [by apply checkBranch_runs|]. cbn beta.
  intros target s1 (Hi1 & [Ec Ep Eb Em] & x & Himm & Ht & Hok & Htop).
  eapply runs_mono; [by apply unreachable_runs; [|rewrite Eb]|]. cbn beta.
  intros _ s2 (Hi2 & [Ec2 Ep2 Em2] & Hne2 & Hs).
  apply did_intro; [done|congruence|lia|lia|done|]. intros He. exists (Br x). split.
  - change (decode_op 0x0c) with (with_u32 Br). unfold with_u32. rewrite Himm. cbn. by rewrite Ep2, Ec.
  - cbn [step_instr]. rewrite (label_abs x s target Ht), <- Hs. apply (on_top_unreachable e); [done|done|by apply Htop].
Qed.

Lemma did_br_if e s :
  ready e s -> runs (popValueType I32;;; checkBranch wide_shift;;; ret tt) (fun _ => did e 0x0d s) s.
Proof.
  intros (Hi & _ & Hne). apply runs_bind. eapply runs_mono; [by apply pop_val|]. cbn beta.
  intros _ s1 (Hi1 & [Ec1 Ep1 Eb1 Em1] & _ & Hp1). apply runs_bind.
  eapply runs_mono; [by apply checkBranch_runs; [|rewrite Eb1]|]. cbn beta.
  intros target s2 (Hi2 & [Ec2 Ep2 Eb2 Em2] & x & Himm & Ht & Hok & Htop). apply runs_ret.
  apply did_intro; [done|congruence|lia|lia|congruence|]. intros He. exists (BrIf x). split.
  - change (decode_op 0x0d) with (with_u32 BrIf). unfold with_u32.
    rewrite <- Ep1, <- Ec1, Himm. cbn. by rewrite Ec2.
  - cbn [step_instr]. rewrite Hp1. cbn [mbind option_bind]. rewrite (label_abs x s1 target Ht).
    destruct (Htop He) as (v & Hp & Hq). cbn [mbind option_bind]. by rewrite Hp, Hq.
Qed.

(** ** Blocks *)

Definition result_of (t : WASMType) : blocktype := if bool_decide (t = VOID) then None else Some t.

Lemma result_types t : option_list (result_of t) = getReturnTypes (BTWasm t).
Proof. unfold result_of. cbn. by case_bool_decide. Qed.

Lemma block_type_of b bs :
  let t := getWASMBlockTypeFromOpcode b in
  t <> ERROR_TYPE -> (t = VOID \/ is_val t) /\ block_type (b :: bs) = Some (result_of t, bs).
Proof.
  cbn zeta. unfold getWASMBlockTypeFromOpcode, getWASMValTypeFromOpcode, block_type.
  destruct (Z.eqb_spec b 0x40); [intros _; split; [by left|done]|].
  destruct (Z.eqb_spec b 0x7f) as [->|]; [intros _; split; [by right|done]|].
  destruct (Z.eqb_spec b 0x7e) as [->|]; [intros _; split; [by right|done]|].
  destruct (Z.eqb_spec b 0x7d) as [->|]; [intros _; split; [by right|done]|].
  destruct (Z.eqb_spec b 0x7c) as [->|]; [intros _; split; [by right|done]|done].
Qed.

Lemma blockType_runs e s :
  inv e s ->
  runs readBlockType (fun t s' => inv e s' /\ moved s s' /\ (t = VOID \/ is_val t) /\
    block_type (drop (Ptr s) (LCode s)) = Some (result_of t, drop (Ptr s') (LCode s'))) s.
Proof.
  intros Hi. unfold readBlockType, readTypeBase. apply runs_bind.
  eapply runs_mono; [apply (reading_runs e readByte); [done|apply advances_byte]|]. cbn beta.
  intros b s1 (Hi1 & Hm1 & Hb). case_bool_decide as Ht; [apply runs_throw|]. apply runs_ret.
  destruct (drop (Ptr s) (LCode s)) as [|b' bs]; [done|]. injection Hb as -> Hb.
  destruct (block_type_of b (drop (Ptr s1) (LCode s1)) Ht) as [Hv Hbt]. rewrite Hb. by split_and!.
Qed.

(** The block that is pushed, and the frame of the specification. *)
Lemma pushBlock_runs e s Label t p :
  inv e s -> ControlBlocks s <> [] -> t = VOID \/ is_val t -> Label <> LABEL_FUNCTION ->
  runs (pushBlock Label (BTWasm t) p;;; pushBlockParamTypes) (fun _ s' => inv e s' /\ same_cursor s s' /\
    ControlBlocks s' <> [] /\
    abs s' = push_ctrl (bool_decide (Label = LABEL_IF))
      (if bool_decide (Label = LABEL_LOOP) then [] else getReturnTypes (BTWasm t))
      (getReturnTypes (BTWasm t)) (abs s)) s.
Proof.
  intros Hi Hne Ht HL'. unfold pushBlock. apply runs_bind, runs_modify. cbn zeta.
  unfold pushBlockParamTypes, back. apply runs_bind, runs_bind, runs_gets. eapply runs_option; [done|].
  apply runs_ret. split_and!; [|by split|done|].
  - apply inv_blocks; [done|]. cbn [blocks_ok InitNumValues InitStackSize LabelType]. rewrite bottom_all.
    destruct Hi. split_and!; try done; by split.
  - unfold abs, push_ctrl, abs_block at 1, labelTypes. cbn [ControlBlocks set_Blocks ValueTypes map opds ctrls
      LabelType BlockType ElsePtr InitNumValues StackPolymorphic getParamTypes].
    rewrite length_map. by rewrite andb_true_r.
Qed.

Lemma did_block e s op Label (mk : blocktype -> instr) :
  ready e s -> decode_op op = with_block mk ->
  (Label = LABEL_BLOCK /\ mk = Block \/ Label = LABEL_LOOP /\ mk = Loop \/ Label = LABEL_IF /\ mk = If) ->
  runs (loadBlock Label) (fun _ => did e op s) s.
Proof.
  intros (Hi & _ & Hne) Hop Hlab. unfold loadBlock. apply runs_bind.
  assert (runs (if bool_decide (Label = LABEL_IF) then popValueType I32;;; ret tt else ret tt)
    (fun _ s1 => inv e s1 /\ stack_only s s1 /\
      (if bool_decide (Label = LABEL_IF) then pop_expect I32 (abs s) else Some (abs s)) = Some (abs s1)) s) as Hpop.
  { case_bool_decide; [|apply runs_ret; split_and!; [done|apply stack_only_refl|done]].
    apply runs_bind. eapply runs_mono; [by apply pop_val|]. cbn beta. intros _ s1 (? & ? & _ & ?). by apply runs_ret. }
  eapply runs_mono; [exact Hpop|]. cbn beta. intros _ s1 (Hi1 & [Ec1 Ep1 Eb1 Em1] & Hp1).
  apply runs_bind. eapply runs_mono; [by apply blockType_runs|]. cbn beta.
  intros t s2 (Hi2 & Hm2 & Hv & Hbt). apply runs_bind, runs_gets.
  assert (ControlBlocks s2 <> []) as Hne2 by (by rewrite (mv_blocks _ _ Hm2), Eb1).
  eapply runs_mono; [apply (pushBlock_runs e s2 Label t); try done; by destruct Hlab as [[-> _]|[[-> _]|[-> _]]]|].
  cbn beta. intros _ s3 (Hi3 & [Ec3 Ep3 Em3] & Hne3 & Ha3). pose proof (moved_abs _ _ Hm2) as Ha2.
  destruct Hm2 as [Ec2 Ep2 Eb2 Ev2 Em2].
  apply did_intro; [done|congruence|lia|lia|done|]. intros _. exists (mk (result_of t)). split.
  - rewrite Hop. unfold with_block. rewrite <- Ep1, <- Ec1, Hbt. cbn. by rewrite Ep3, Ec2.
  - rewrite Ha3, Ha2. destruct Hlab as [[-> ->]|[[-> ->]|[-> ->]]]; cbn [step_instr]; rewrite ?result_types;
      rewrite ?bool_decide_true, ?bool_decide_false in Hp1 by done.
    + by replace (abs s1) with (abs s) by congruence.
    + by replace (abs s1) with (abs s) by congruence.
    + by rewrite Hp1.
Qed.

Lemma opds_push_opds ts v : opds (push_opds ts v) = map Some (reverse ts) ++ opds v.
Proof.
  unfold push_opds. revert v. induction ts as [|t ts IH]; intros v; [done|]. cbn [foldl].
  rewrite IH, reverse_cons, map_app, <- app_assoc. done.
Qed.

(** The frame of the specification when the results of the block are there. *)
Lemma pop_ctrl_abs e s b l v :
  inv e s -> ControlBlocks s = b :: l -> pop_opds (getReturnTypes (BlockType b)) (abs s) = Some v ->
  length (opds v) = InitNumValues b ->
  pop_ctrl (abs s) = Some (abs_block b, mkV (opds v) (map abs_block l)).
Proof.
  intros Hi Eb Hp Hl. unfold pop_ctrl.
  assert (head (ctrls (abs s)) = Some (abs_block b)) as -> by (unfold abs; cbn [ctrls]; by rewrite Eb).
  cbn [mbind option_bind]. change (c_end (abs_block b)) with (getReturnTypes (BlockType b)). rewrite Hp. cbn [mbind option_bind].
  rewrite (proj2 (Nat.eqb_eq _ _)) by done.
  destruct (pop_opds_based _ _ _ ltac:(eapply abs_based; [done|by rewrite Eb]) Hp) as [-> _].
  unfold abs. cbn [ctrls]. by rewrite Eb.
Qed.

(** The values below the results. *)
Lemma below_results s ts v n :
  abs s = push_opds ts v -> length (opds v) = n -> map opd (bottom n (ValueTypes s)) = opds v.
Proof.
  intros Ha Hl. apply (f_equal opds) in Ha. rewrite opds_push_opds in Ha. cbn [abs opds] in Ha.
  unfold bottom. rewrite map_drop_opd, Ha. rewrite <- (length_map opd (ValueTypes s)), Ha, length_app.
  rewrite Hl, Nat.add_sub. apply drop_app_length.
Qed.

Lemma did_else e s : ready e s -> runs loadElse (fun _ => did e 0x05 s) s.
Proof.
  intros (Hi & Hr & Hne). destruct (ControlBlocks s) as [|b l] eqn:Eb; [done|].
  unfold loadElse, back. apply runs_bind, runs_bind, runs_gets. rewrite Eb. eapply runs_option; [done|].
  destruct (_ || _) eqn:Eif; [apply runs_throw|].
  apply orb_false_iff in Eif as [Elab%negb_false_iff%bool_decide_eq_true Eelse%negb_false_iff%bool_decide_eq_true].
  pose proof (blocks_elem _ _ _ _ b (i_blocks _ _ Hi) ltac:(rewrite Eb; by left)) as Hok.
  assert (exists t, BlockType b = BTWasm t) as [t Et].
  { unfold block_ok in Hok. destruct (BlockType b); [by eexists|]. destruct Hok as (_ & ? & _). congruence. }
  apply runs_bind. eapply runs_mono; [by eapply checkBlock_runs|]. cbn beta.
  intros _ s1 (Hi1 & [Ec1 Ep1 Eb1 Em1] & Hs1). apply runs_bind, runs_gets. rewrite Eb in Eb1.
  apply runs_bind. eapply runs_mono; [eapply (set_back_runs e b l); try done|].
  { unfold block_ok in *. cbn. rewrite Et in *. done. }
  cbn beta. intros _ s2 (Hi2 & [Ec2 Ep2 Em2] & EV2 & Eb2). apply runs_bind.
  eapply runs_mono; [by eapply reset_runs|]. cbn beta. intros _ s3 (Hi3 & [Ec3 Ep3 Eb3 Em3] & EV3).
  rewrite Eb2 in Eb3. apply runs_bind.
  eapply runs_mono; [eapply (set_back_runs e _ l); try done|].
  { unfold block_ok in *. cbn. rewrite Et in *. done. }
  cbn beta. intros _ s4 (Hi4 & [Ec4 Ep4 Em4] & EV4 & Eb4).
  unfold pushBlockParamTypes, back. apply runs_bind, runs_bind, runs_gets. rewrite Eb4.
  eapply runs_option; [done|]. cbn [set_polymorphic set_ElsePtr BlockType]. rewrite Et. cbn [getParamTypes].
  apply runs_ret. apply did_intro; [done|congruence|lia|lia|by rewrite Eb4|]. intros He.
  destruct (Hs1 He) as (v & Hp & Hl & Ha). exists Else. split; [cbn; do 3 f_equal; congruence|].
  cbn [step_instr]. rewrite (pop_ctrl_abs e s b l v) by done. cbn [mbind option_bind].
  unfold abs_block at 1 2 3. cbn [c_if c_end]. rewrite !bool_decide_true by done. cbn [andb].
  rewrite Et in *. unfold push_ctrl, abs. rewrite Eb4, EV4, EV3, EV2. cbn [map opds ctrls InitNumValues set_ElsePtr].
  rewrite (below_results s1 _ v _ Ha Hl). unfold abs_block at 2, labelTypes. cbn. rewrite Hl, Et, Elab.
  cbn. done.
Qed.

(** The blocks around the one that ends. *)
Lemma blocks_outer e Max b l V : blocks_ok e Max (b :: l) V -> blocks_ok e Max l V.
Proof.
  intros (_ & Hinit & _ & _ & _ & Hl). destruct l as [|b2 l]; [done|].
  pose proof Hl as (_ & Hinit2 & _). rewrite length_bottom in Hinit2 by done.
  eapply blocks_base; [exact Hl|lia|]. rewrite bottom_bottom by lia. done.
Qed.

Lemma popBlock_runs e b l s :
  inv e s -> ControlBlocks s = b :: l ->
  runs popBlock (fun _ s' => inv e s' /\ same_cursor s s' /\ ValueTypes s' = ValueTypes s /\
    ControlBlocks s' = l) s.
Proof.
  intros Hi Eb. unfold runs, popBlock. rewrite Eb. split_and!; [|by split|done|done].
  apply inv_blocks; [done|]. pose proof (i_blocks _ _ Hi) as Hbl. rewrite Eb in Hbl. by eapply blocks_outer.
Qed.

Lemma balanced_if b :
  block_ok b -> bool_decide (LabelType b = LABEL_IF) && bool_decide (ElsePtr b = None)
    && negb (isBalanced (BlockType b)) = false ->
  c_if (abs_block b) && negb (bool_decide (c_end (abs_block b) = [])) = false.
Proof.
  unfold block_ok, abs_block. cbn [c_if c_end]. destruct (BlockType b) as [t|t]; cbn [isBalanced getReturnTypes].
  - destruct (bool_decide (t = VOID)); [|done]. intros _ _. cbn. by rewrite andb_false_r.
  - by intros (_ & -> & _).
Qed.

(** The end of a block in the specification. *)
Lemma end_step e b l s s1 s2 v :
  inv e s -> ControlBlocks s = b :: l -> pop_opds (getReturnTypes (BlockType b)) (abs s) = Some v ->
  length (opds v) = InitNumValues b -> abs s1 = push_opds (getReturnTypes (BlockType b)) v ->
  c_if (abs_block b) && negb (bool_decide (c_end (abs_block b) = [])) = false ->
  ValueTypes s2 = ValueTypes s1 -> ControlBlocks s2 = l ->
  step_instr M F Locals End (abs s) = Some (abs s2).
Proof.
  intros Hi Eb Hp Hl Ha Hbal EV2 Eb2. cbn [step_instr]. rewrite (pop_ctrl_abs e s b l v) by done.
  cbn [mbind option_bind]. rewrite Hbal. change (c_end (abs_block b)) with (getReturnTypes (BlockType b)).
  f_equal. unfold abs. rewrite EV2, Eb2. apply (f_equal opds) in Ha. cbn [abs opds] in Ha. rewrite Ha.
  assert (forall w, push_opds (getReturnTypes (BlockType b)) w =
    mkV (opds (push_opds (getReturnTypes (BlockType b)) w)) (ctrls w)) as E.
  { intros w. rewrite <- (ctrls_push_opds (getReturnTypes (BlockType b)) w). by destruct (push_opds _ w). }
  rewrite E. f_equal. by rewrite !opds_push_opds.
Qed.

Lemma did_end e s : ready e s -> runs loadEnd (fun _ => did e 0x0b s) s.
Proof.
  intros (Hi & Hr & Hne). destruct (ControlBlocks s) as [|b l] eqn:Eb; [done|].
  unfold loadEnd, back. apply runs_bind, runs_bind, runs_gets. rewrite Eb. eapply runs_option; [done|].
  apply runs_bind. eapply runs_mono; [by eapply checkBlock_runs|]. cbn beta.
  intros _ s1 (Hi1 & [Ec1 Ep1 Eb1 Em1] & Hs1). apply runs_bind.
  destruct (_ && negb _) eqn:Ebal; [apply runs_throw|]. apply runs_ret. rewrite Eb in Eb1.
  pose proof (i_blocks _ _ Hi) as Hbl. rewrite Eb in Hbl. destruct Hbl as (Hok & _ & _ & _ & Hf & _).
  assert (forall s2, same_cursor s1 s2 -> ValueTypes s2 = ValueTypes s1 -> ControlBlocks s2 = l -> e = true ->
    exists i, decode_op 0x0b (drop (Ptr s) (LCode s)) = Some (i, drop (Ptr s2) (LCode s)) /\
      step_instr M F Locals i (abs s) = Some (abs s2)) as Hstep.
  { intros s2 [Ec2 Ep2 Em2] EV2 Eb2 He. destruct (Hs1 He) as (v & Hp & Hl & Ha). exists End.
    split; [cbn; do 3 f_equal; congruence|]. eapply end_step; try done. by apply balanced_if. }
  destruct (bool_decide (LabelType b = LABEL_FUNCTION)) eqn:Elab.
  - apply runs_bind. eapply runs_mono; [by eapply popBlock_runs|]. cbn beta.
    intros _ s2 (Hi2 & Hs2 & EV2 & Eb2). apply runs_bind, runs_gets. cbn [id].
    destruct (Nat.ltb_spec (Ptr s2) (length (LCode s2))); [apply runs_throw|]. apply runs_ret.
    pose proof (Hstep s2 Hs2 EV2 Eb2). destruct Hs2 as [Ec2 Ep2 Em2]. pose proof (i_ptr _ _ Hi2).
    split; [done|congruence|congruence|lia|lia|lia|done].
  - eapply runs_mono; [by eapply popBlock_runs|]. cbn beta. intros _ s2 (Hi2 & Hs2 & EV2 & Eb2).
    pose proof (Hstep s2 Hs2 EV2 Eb2). destruct Hs2 as [Ec2 Ep2 Em2]. apply bool_decide_eq_false in Elab.
    apply did_intro; [done|congruence|lia|lia| |done]. rewrite Eb2. intros ->. by apply Elab, Hf.
Qed.

(** ** Branch tables *)

Lemma rev_case {A} (l : list A) : l = [] \/ exists l' x, l = l' ++ [x].
Proof. induction l as [|x l _] using rev_ind; [by left|right; by exists l, x]. Qed.

(** Labels one after the other in the code. *)
Inductive u32s : list Z -> list Z -> list Z -> Prop :=
| u32s_nil bs : u32s [] bs bs
| u32s_cons l ls bs r r' : u32_imm bs = Some (l, r) -> u32s ls r r' -> u32s (l :: ls) bs r'.

Lemma u32_imm_shorter bs x r : Forall is_byte bs -> u32_imm bs = Some (x, r) ->
  (length r < length bs)%nat /\ Forall is_byte r.
Proof.
  intros Hb. unfold u32_imm. destruct bs as [|b bs]; [done|]. destruct (leb_spec _ _) as [|[y r']] eqn:Es; [done|].
  intros [= -> ->]. destruct (leb_spec_rest TU32 _ _ _ Hb Es) as [(k & Hk & ->) _].
  rewrite length_drop. split; [lia|by apply Forall_drop].
Qed.

Lemma u32s_labels ls l bs r :
  Forall is_byte bs -> u32s (ls ++ [l]) bs r ->
  exists r', labels (length bs) (Z.of_nat (length ls)) bs = Some (ls, r') /\ u32_imm r' = Some (l, r).
Proof.
  assert (forall fuel, (length bs <= fuel)%nat -> Forall is_byte bs -> u32s (ls ++ [l]) bs r ->
    exists r', labels fuel (Z.of_nat (length ls)) bs = Some (ls, r') /\ u32_imm r' = Some (l, r)) as H;
    [|by apply H]. revert bs. induction ls as [|x ls IH]; intros bs fuel Hf Hb Hu.
  - cbn [app] in Hu. inversion_clear Hu as [|? ? ? ? ? Himm Hu']. inversion Hu'; subst.
    exists bs. split; [|done]. by destruct fuel.
  - cbn [app] in Hu. inversion_clear Hu as [|? ? ? r1 ? Himm Hu'].
    destruct (u32_imm_shorter bs x r1 Hb Himm) as [Hlt Hb1].
    destruct fuel as [|fuel]; [lia|]. destruct (IH r1 fuel ltac:(lia) Hb1 Hu') as (r' & Hl & Hr').
    exists r'. split; [|done]. cbn [labels length].
    rewrite (proj2 (Z.leb_gt _ _)) by lia. rewrite Himm. cbn [mbind option_bind].
    replace (Z.of_nat (S (length ls)) - 1) with (Z.of_nat (length ls)) by lia. by rewrite Hl.
Qed.

Lemma actual_types b : block_ok b ->
  (if bool_decide (LabelType b = LABEL_LOOP) then [] else getReturnTypes (BlockType b)) = labelTypes b.
Proof.
  unfold block_ok, labelTypes. case_bool_decide as E; [|done]. destruct (BlockType b); [done|].
  intros (_ & ? & _). congruence.
Qed.

Definition table_fold (ts : list WASMType) (ls : list Z) (o : option vstate) : option vstate :=
  foldl (fun o l => o ≫= table_label ts l) o ls.

Lemma table_label_top x s s' target :
  ControlBlocks s !! Z.to_nat x = Some target -> on_top (labelTypes target) s s' ->
  table_label (labelTypes target) x (abs s) = Some (abs s').
Proof.
  intros Ht (v & Hp & Ha). unfold table_label. rewrite (label_abs x s target Ht). cbn [mbind option_bind].
  rewrite bool_decide_true by done. by rewrite Hp, Ha.
Qed.

(** What is left of a branch table: labels whose types are [T]. *)
Record tabled (e : bool) (n : Z) (T : list WASMType) (s s' : FunctionLoader) : Prop := {
  tb_inv : inv e s';
  tb_code : LCode s' = LCode s;
  tb_ptr : (Ptr s <= Ptr s')%nat;
  tb_blocks : ControlBlocks s' = ControlBlocks s;
  tb_max : MaxStackSize s <= MaxStackSize s';
  tb_labels : exists ls, u32s ls (drop (Ptr s) (LCode s)) (drop (Ptr s') (LCode s')) /\
    Z.of_nat (length ls) = n /\
    (e = true -> table_fold T ls (Some (abs s)) = Some (abs s'));
}.

Lemma tabled_cons e n T s s1 s2 target x :
  advanced s s1 -> u32_imm (drop (Ptr s) (LCode s)) = Some (x, drop (Ptr s1) (LCode s1)) ->
  ControlBlocks s !! Z.to_nat x = Some target -> labelTypes target = T ->
  (e = true -> on_top (labelTypes target) s s1) -> tabled e n T s1 s2 -> tabled e (n + 1) T s s2.
Proof.
  intros [Ec Ep Eb Em] Himm Ht <- Htop [Hi Ec2 Ep2 Eb2 Em2 (ls & Hu & Hl & Hf)].
  split; [done|congruence|lia|congruence|lia|]. exists (x :: ls). split_and!.
  - econstructor; [exact Himm|done].
  - cbn [length]. lia.
  - intros He. unfold table_fold. cbn [foldl mbind option_bind].
    rewrite (table_label_top x s s1 target Ht (Htop He)). by apply Hf.
Qed.

Lemma brTable_runs e fuel N I T s :
  inv e s -> ControlBlocks s <> [] -> 1 <= I <= N + 1 -> 0 <= N < 2 ^ 32 ->
  I + Z.of_nat (length (LCode s) - Ptr s) < 2 ^ 32 -> (length (LCode s) - Ptr s < fuel)%nat ->
  runs (brTableLoop wide_shift fuel N I T) (fun _ s' => tabled e (N + 1 - I) T s s') s.
Proof.
  revert I s. induction fuel as [|fuel IH]; intros I s Hi Hne HI HN Hov Hf; [lia|]. cbn [brTableLoop].
  destruct (Z.ltb_spec N I).
  { apply runs_ret. split; try done. exists []. split_and!; [constructor|cbn; lia|done]. }
  apply runs_bind. eapply runs_mono; [by apply checkBranch_runs|]. cbn beta.
  intros target s1 (Hi1 & Had & x & Himm & Ht & Hok & Htop). rewrite actual_types by done.
  rewrite (proj2 (Z.eqb_neq _ _)) by lia. case_bool_decide as ET; [|apply runs_throw]. cbn zeta.
  destruct Had as [Ec Ep Eb Em] eqn:Ead. pose proof (i_ptr _ _ Hi1) as Hp1. rewrite Ec in Hp1.
  assert (u32 (I + 1) = I + 1) as -> by (apply wrap_small; unfold in_u; lia).
  eapply runs_mono; [apply IH; [done|congruence|lia|lia|rewrite Ec; lia|rewrite Ec; lia]|]. cbn beta.
  intros _ s2 Htab. replace (N + 1 - I) with (N + 1 - (I + 1) + 1) by lia.
  by eapply tabled_cons.
Qed.

(** The labels of a whole table. *)
Lemma table_loop_runs e fuel N s :
  inv e s -> ControlBlocks s <> [] -> 0 <= N < 2 ^ 32 -> (length (LCode s) - Ptr s + 1 < fuel)%nat ->
  runs (brTableLoop wide_shift fuel N 0 []) (fun _ s' => exists T, tabled e (N + 1) T s s') s.
Proof.
  intros Hi Hne HN Hf. destruct fuel as [|fuel]; [lia|]. cbn [brTableLoop].
  rewrite (proj2 (Z.ltb_ge _ _)) by lia. apply runs_bind. eapply runs_mono; [by apply checkBranch_runs|]. cbn beta.
  intros target s1 (Hi1 & Had & x & Himm & Ht & Hok & Htop). rewrite actual_types by done. cbn [Z.eqb].
  destruct Had as [Ec Ep Eb Em] eqn:Ead. pose proof (i_length _ _ Hi) as Hlen.
  change (u32 (0 + 1)) with 1.
  eapply runs_mono; [apply (brTable_runs e fuel N 1 (labelTypes target) s1);
    [done|congruence|lia|lia|rewrite Ec; lia|rewrite Ec; lia]|]. cbn beta.
  intros _ s2 Htab. exists (labelTypes target). replace (N + 1) with (N + 1 - 1 + 1) by lia. by eapply tabled_cons.
Qed.

Lemma table_label_based ts l v v' : based v -> table_label ts l v = Some v' -> ctrls v' = ctrls v /\ based v'.
Proof.
  intros Hb. unfold table_label. destruct (label_at l v) as [ts'|]; [|done]. cbn [mbind option_bind].
  case_bool_decide; [|done]. destruct (pop_opds ts' v) as [w|] eqn:Ep; [|done]. intros [= <-].
  destruct (pop_opds_based ts' v w Hb Ep) as [Ec (c & cs & Ecs & Hh)]. rewrite ctrls_push_opds. split; [done|].
  exists c, cs. rewrite ctrls_push_opds, opds_push_opds, length_app. split; [done|lia].
Qed.

Lemma table_fold_none ts ls : table_fold ts ls None = None.
Proof. unfold table_fold. induction ls; [done|]. by cbn. Qed.

Lemma table_fold_based ts ls v v' :
  based v -> table_fold ts ls (Some v) = Some v' -> ctrls v' = ctrls v /\ based v'.
Proof.
  revert v. induction ls as [|l ls IH]; intros v Hb; [by intros [= <-]|].
  unfold table_fold. cbn [foldl mbind option_bind]. destruct (table_label ts l v) as [v1|] eqn:E.
  - intros Hf. destruct (table_label_based ts l v v1 Hb E) as [<- Hb1]. by apply IH.
  - intros Hf. pose proof (table_fold_none ts ls) as Hn. unfold table_fold in Hn. congruence.
Qed.

(** The last label of the table is the default. *)
Lemma table_last T ls l v v' :
  based v -> table_fold T (ls ++ [l]) (Some v) = Some v' ->
  label_at l v = Some T /\ exists w, table_fold T ls (Some v) = Some w /\
    pop_opds T w ≫= set_unreachable = set_unreachable v'.
Proof.
  intros Hb. unfold table_fold. rewrite foldl_app. cbn [foldl].
  destruct (foldl _ (Some v) ls) as [w|] eqn:Ew; [|done]. cbn [mbind option_bind]. intros Hl.
  destruct (table_fold_based T ls v w Hb Ew) as [Ec Hw]. unfold table_label, label_at in *. rewrite Ec in Hl.
  destruct (ctrls v !! Z.to_nat l) as [c|]; [|done]. cbn [fmap option_fmap option_map mbind option_bind] in *.
  case_bool_decide as ET; [|done]. rewrite ET in *. split; [done|]. exists w. split; [done|].
  destruct (pop_opds T w) as [u|] eqn:Eu; [|done]. injection Hl as <-. cbn [mbind option_bind].
  destruct (pop_opds_based T w u Hw Eu) as [_ Hu]. by rewrite unreachable_push.
Qed.

Lemma did_br_table e s : ready e s -> runs (loadBrTable wide_shift) (fun _ => did e 0x0e s) s.
Proof.
  intros (Hi & _ & Hne). unfold loadBrTable. apply runs_bind. eapply runs_mono; [by apply u32_runs|]. cbn beta.
  intros N s1 (Hi1 & Hm1 & HN & Himm). pose proof (moved_abs _ _ Hm1) as Ha1. destruct Hm1 as [Ec1 Ep1 Eb1 EV1 Em1].
  apply runs_bind. eapply runs_mono; [by apply pop_val; [|rewrite Eb1|]|]. cbn beta.
  intros _ s2 (Hi2 & [Ec2 Ep2 Eb2 Em2] & _ & Hp2). apply runs_bind, runs_gets. apply runs_bind.
  eapply runs_mono; [apply (table_loop_runs e); [done|by rewrite Eb2, Eb1|done|lia]|]. cbn beta.
  intros _ s3 (T & [Hi3 Ec3 Ep3 Eb3 Em3 (ls & Hu & Hlen & Hf)]).
  eapply runs_mono; [apply unreachable_runs; [done|by rewrite Eb3, Eb2, Eb1]|]. cbn beta.
  intros _ s4 (Hi4 & [Ec4 Ep4 Em4] & Hne4 & Hs4).
  apply did_intro; [done|congruence|lia|lia|done|]. intros He. specialize (Hf He).
  destruct (rev_case ls) as [->|(ls' & l & ->)]; [cbn in Hlen; lia|].
  destruct (u32s_labels ls' l _ _ ltac:(apply Forall_drop, Hi2) Hu) as (r' & Hlab & Hdef).
  rewrite length_app in Hlen. cbn [length] in Hlen. exists (BrTable ls' l). split.
  - cbn [decode_op]. rewrite Himm. cbn [mbind option_bind]. rewrite <- Ep2, <- Ec2.
    replace N with (Z.of_nat (length ls')) by lia. rewrite Hlab. cbn [mbind option_bind]. rewrite Hdef. cbn.
    by rewrite Ec3, Ec2, Ep4, Ec1.
  - cbn [step_instr]. rewrite <- Ha1, Hp2. cbn [mbind option_bind].
    destruct (table_last T ls' l _ _ ltac:(eapply abs_based; [exact Hi2|by rewrite Eb2, Eb1]) Hf) as (-> & w & Hw & Hq).
    cbn [mbind option_bind]. unfold table_fold in Hw. rewrite Hw. cbn [mbind option_bind]. by rewrite Hq.
Qed.

(** ** Instructions without control flow *)

(** Only the operand stack and the statistics change. *)
Lemma did_stack e op s s' i :
  inv e s' -> stack_only s s' -> ControlBlocks s <> [] ->
  (forall bs, decode_op op bs = Some (i, bs)) -> step_instr M F Locals i (abs s) = Some (abs s') -> did e op s s'.
Proof.
  intros Hi [Ec Ep Eb Em] Hne Hd Hs. apply did_intro; [done|done|lia|done|congruence|].
  intros _. exists i. by rewrite Hd, Ep.
Qed.

(** An immediate is read first. *)
Lemma did_imm e op s s1 s' i :
  inv e s' -> moved s s1 -> stack_only s1 s' -> ControlBlocks s <> [] ->
  decode_op op (drop (Ptr s) (LCode s)) = Some (i, drop (Ptr s1) (LCode s1)) ->
  step_instr M F Locals i (abs s) = Some (abs s') -> did e op s s'.
Proof.
  intros Hi [Ec Ep Eb Ev Em] [Ec1 Ep1 Eb1 Em1] Hne Hd Hs. apply did_intro; [done|congruence|lia|lia|congruence|].
  intros _. exists i. rewrite Hd, Ep1. by rewrite Ec.
Qed.

(** Counting an access leaves the machine as it is. *)
Lemma stats_runs e n s0 s :
  inv e s -> stack_only s0 s ->
  runs (addStats n) (fun _ s' => inv e s' /\ stack_only s0 s' /\ abs s' = abs s) s.
Proof. intros [] []. apply runs_modify. by split_and!; [split|split|]. Qed.

Lemma room_after s s1 : room 1 s -> stack_only s s1 ->
  (length (ValueTypes s1) <= length (ValueTypes s))%nat -> room 1 s1.
Proof. unfold room. intros Hr [] Hl. lia. Qed.

Lemma call_runs e t s :
  ready e s -> type_ok t ->
  runs (popTypes (ParamTypes t);;; pushTypes (ReturnTypes t)) (fun _ s' => inv e s' /\ stack_only s s' /\
    call_type t (abs s) = Some (abs s')) s.
Proof.
  intros (Hi & Hr & Hne) (Hp & Hret & Hl). apply runs_bind. eapply runs_mono; [by apply popTypes_runs|]. cbn beta.
  intros _ s1 (Hi1 & Hs1 & Hl1 & Hp1). pose proof (room_after _ _ Hr Hs1 Hl1) as Hr1.
  eapply runs_mono; [apply pushTypes_runs; [done| |done]|]. { unfold room in *. lia. }
  cbn beta. intros _ s2 (Hi2 & Hs2 & HV2 & Ha2). split_and!; [done|by eapply stack_only_trans|].
  unfold call_type. by rewrite Hp1, Ha2.
Qed.

Lemma popPush_runs e n a r s :
  ready e s -> is_val a -> is_val r ->
  runs (popAndPushValueType n a r) (fun _ s' => inv e s' /\ stack_only s s' /\
    push_opd (Some r) <$> pop_opds (replicate n a) (abs s) = Some (abs s')) s.
Proof.
  intros Hready Ha Hr. unfold pop_opds. rewrite reverse_replicate. revert s Hready.
  induction n as [|n IH]; intros s (Hi & Hro & Hne); cbn [popAndPushValueType replicate foldl].
  - eapply runs_mono; [by apply push_runs|]. cbn beta. intros _ s1 (Hi1 & Hs1 & HV1).
    split_and!; [done|done|]. cbn. by rewrite (push_abs r s s1).
  - apply runs_bind. eapply runs_mono; [by apply pop_val|]. cbn beta. intros _ s1 (Hi1 & Hs1 & Hl1 & Hp1).
    eapply runs_mono; [apply IH; split_and!; [done|by eapply room_after|by rewrite (so_blocks _ _ Hs1)]|]. cbn beta.
    intros _ s2 (Hi2 & Hs2 & Hp2). split_and!; [done|by eapply stack_only_trans|].
    cbn [mbind option_bind]. by rewrite Hp1.
Qed.

(** Every byte, by looking at each. *)
Lemma each_byte (P : Z -> Prop) op : Forall P (seqZ 0 256) -> is_byte op -> P op.
Proof.
  intros H Hop. rewrite Forall_forall in H. apply H, list_elem_of_In, elem_of_seqZ. unfold in_u in Hop. lia.
Qed.

Ltac each_byte :=
  let l := eval vm_compute in (seqZ 0 256) in change (seqZ 0 256) with l;
  repeat (apply Forall_cons_2; [vm_compute; try exact I; by repeat split|]); apply Forall_nil_2.

Lemma numeric_table_ok op :
  is_byte op ->
  match numericType op with
  | Some (n, a, r) =>
      (forall bs, decode_op op bs = Some (Numeric (replicate n a) r, bs)) /\ is_val a /\ is_val r
  | None => True
  end.
Proof. intros Hop. pattern op. apply each_byte; [clear; each_byte|done]. Qed.

Lemma memory_table_ok op :
  is_byte op ->
  match memoryType op with
  | Some (isStore, t) =>
      let e := default (VOID, 0)
        (if isStore then store_table !! Z.to_nat (op - 0x36) else load_table !! Z.to_nat (op - 0x28)) in
      (forall bs, decode_op op bs = memarg (if isStore then Store else Load) e bs) /\
      e.1 = t /\ Aligns !! Z.to_nat (op - 0x28) = Some (Z.log2 e.2) /\ is_val t
  | None => True
  end.
Proof.
  intros Hop. pattern op. apply each_byte; [clear|done].
  let l := eval vm_compute in (seqZ 0 256) in change (seqZ 0 256) with l.
  repeat (apply Forall_cons_2; [lazy -[memarg]; try exact I; by repeat split|]); apply Forall_nil_2.
Qed.

Lemma did_numeric e op n a r s :
  ready e s -> is_byte op -> numericType op = Some (n, a, r) ->
  runs (popAndPushValueType n a r) (fun _ => did e op s) s.
Proof.
  intros Hs Hop Hn. pose proof (numeric_table_ok op Hop) as Ht. rewrite Hn in Ht. destruct Ht as (Hd & Ha & Hr).
  eapply runs_mono; [by apply popPush_runs|]. cbn beta. intros _ s' (Hi & Hst & Hp).
  eapply did_stack; [done|done|apply Hs|exact Hd|done].
Qed.

Lemma did_const e op t T s :
  ready e s -> T <> TU8 -> is_val t ->
  (forall bs, decode_op op bs = (r ← skip_imm T bs; Some (Const t, r))) ->
  runs (reading (readLEB wide_shift T);;; pushValueType t) (fun _ => did e op s) s.
Proof.
  intros (Hi & Hr & Hne) HT Ht Hd. apply runs_bind. eapply runs_mono; [by apply imm_runs|]. cbn beta.
  intros _ s1 (Hi1 & Hm1 & Himm). eapply runs_mono; [apply push_runs; [done| |done]|].
  { pose proof (moved_room _ _ _ Hm1 Hr). unfold room in *. lia. }
  cbn beta. intros _ s2 (Hi2 & Hs2 & HV2). eapply did_imm; [done|done|done|done| |].
  - rewrite Hd, Himm. done.
  - cbn [step_instr]. rewrite <- (moved_abs _ _ Hm1). by rewrite (push_abs t s1 s2).
Qed.

Lemma did_float e op t n s :
  ready e s -> 0 < n -> is_val t ->
  (forall bs, decode_op op bs = (r ← skip_bytes (Z.to_nat n) bs; Some (Const t, r))) ->
  runs (reading (readBytes n);;; pushValueType t) (fun _ => did e op s) s.
Proof.
  intros (Hi & Hr & Hne) Hn Ht Hd. apply runs_bind. eapply runs_mono; [by apply float_runs|]. cbn beta.
  intros _ s1 (Hi1 & Hm1 & Himm). eapply runs_mono; [apply push_runs; [done| |done]|].
  { pose proof (moved_room _ _ _ Hm1 Hr). unfold room in *. lia. }
  cbn beta. intros _ s2 (Hi2 & Hs2 & HV2). eapply did_imm; [done|done|done|done| |].
  - rewrite Hd, Himm. done.
  - cbn [step_instr]. rewrite <- (moved_abs _ _ Hm1). by rewrite (push_abs t s1 s2).
Qed.

(** ** Locals *)

Lemma local_runs e s :
  inv e s ->
  runs (readLocal wide_shift F Locals) (fun t s' => inv e s' /\ moved s s' /\ is_val t /\
    exists x, u32_imm (drop (Ptr s) (LCode s)) = Some (x, drop (Ptr s') (LCode s')) /\
      local_type F Locals x = Some t) s.
Proof.
  intros Hi. unfold readLocal. apply runs_bind. eapply runs_mono; [by apply u32_runs|]. cbn beta zeta.
  intros x s1 (Hi1 & Hm1 & Hx & Himm). destruct (Z.leb_spec (Z.of_nat (length (ParamTypes F)) + Z.of_nat (length Locals)) x);
    [apply runs_throw|].
  assert (forall t, local_type F Locals x = Some t -> inv e s1 /\ moved s s1 /\ is_val t /\
    exists x, u32_imm (drop (Ptr s) (LCode s)) = Some (x, drop (Ptr s1) (LCode s1)) /\
      local_type F Locals x = Some t) as Hpost.
  { intros t Ht. split_and!; [done|done| |by exists x]. destruct HF as (Hp & _).
    eapply (Forall_lookup_1 is_val (ParamTypes F ++ Locals)); [|exact Ht]. apply Forall_app. done. }
  destruct (Z.ltb_spec x (Z.of_nat (length (ParamTypes F)))).
  - destruct (lookup_lt_is_Some_2 (ParamTypes F) (Z.to_nat x)) as [t Ht]; [lia|].
    eapply runs_option; [exact Ht|]. apply Hpost. unfold local_type. by apply lookup_app_l_Some.
  - destruct (lookup_lt_is_Some_2 Locals (Z.to_nat (x - Z.of_nat (length (ParamTypes F))))) as [t Ht]; [lia|].
    eapply runs_option; [exact Ht|]. apply Hpost. unfold local_type. rewrite lookup_app_r by lia.
    rewrite <- Ht. f_equal. lia.
Qed.

Lemma with_u32_imm mk s s' x :
  u32_imm (drop (Ptr s) (LCode s)) = Some (x, drop (Ptr s') (LCode s')) ->
  with_u32 mk (drop (Ptr s) (LCode s)) = Some (mk x, drop (Ptr s') (LCode s')).
Proof. intros H. unfold with_u32. by rewrite H. Qed.

Lemma did_get_local e s :
  ready e s -> runs (t <- readLocal wide_shift F Locals;; pushValueType t) (fun _ => did e 0x20 s) s.
Proof.
  intros (Hi & Hr & Hne). apply runs_bind. eapply runs_mono; [by apply local_runs|]. cbn beta.
  intros t s1 (Hi1 & Hm1 & Ht & x & Himm & Hx). eapply runs_mono; [apply push_runs; [done| |done]|].
  { pose proof (moved_room _ _ _ Hm1 Hr). unfold room in *. lia. }
  cbn beta. intros _ s2 (Hi2 & Hs2 & HV2).
  eapply did_imm; [done|done|done|done|by apply (with_u32_imm LocalGet)|].
  cbn [step_instr]. rewrite Hx, <- (moved_abs _ _ Hm1). cbn. by rewrite (push_abs t s1 s2).
Qed.

Lemma did_set_local e s :
  ready e s -> runs (t <- readLocal wide_shift F Locals;; popValueType t;;; ret tt) (fun _ => did e 0x21 s) s.
Proof.
  intros (Hi & Hr & Hne). apply runs_bind. eapply runs_mono; [by apply local_runs|]. cbn beta.
  intros t s1 (Hi1 & Hm1 & Ht & x & Himm & Hx). apply runs_bind.
  eapply runs_mono; [apply pop_val; [done|by rewrite (mv_blocks _ _ Hm1)|done]|]. cbn beta.
  intros _ s2 (Hi2 & Hs2 & _ & Hp2). apply runs_ret.
  eapply did_imm; [done|done|done|done|by apply (with_u32_imm LocalSet)|].
  cbn [step_instr]. by rewrite Hx, <- (moved_abs _ _ Hm1).
Qed.

Lemma did_tee_local e s :
  ready e s ->
  runs (t <- readLocal wide_shift F Locals;; popValueType t;;; pushValueType t) (fun _ => did e 0x22 s) s.
Proof.
  intros (Hi & Hr & Hne). apply runs_bind. eapply runs_mono; [by apply local_runs|]. cbn beta.
  intros t s1 (Hi1 & Hm1 & Ht & x & Himm & Hx). apply runs_bind.
  eapply runs_mono; [apply pop_val; [done|by rewrite (mv_blocks _ _ Hm1)|done]|]. cbn beta.
  intros _ s2 (Hi2 & Hs2 & Hl2 & Hp2). eapply runs_mono; [apply push_runs; [done| |done]|].
  { pose proof (moved_room _ _ _ Hm1 Hr). eapply room_after; [|done|done]. unfold room in *. lia. }
  cbn beta. intros _ s3 (Hi3 & Hs3 & HV3).
  eapply did_imm; [done|done|by eapply stack_only_trans|done|by apply (with_u32_imm LocalTee)|].
  cbn [step_instr]. rewrite Hx, <- (moved_abs _ _ Hm1). cbn [mbind option_bind]. rewrite Hp2. cbn.
  by rewrite (push_abs t s2 s3).
Qed.
End Steps.

(** The remaining instructions of [FunctionLoader] against the specification,
    and the whole [switch]. *)

#[local] Open Scope Z_scope.

Section Ops.
Context (wide_shift : Z -> Z -> Z) (M : Module_) (F : TypeEntry) (Locals : list WASMType).
Hypothesis HM : mod_ok M.
Hypothesis HF : type_ok F.
Hypothesis HL : Forall is_val Locals.

#[local] Abbreviation did := (did M F Locals).

Lemma ready_moved e s s1 : ready e s -> inv e s1 -> moved s s1 -> ready e s1.
Proof.
  intros (_ & Hr & Hne) Hi Hm. split_and!; [done| |by rewrite (mv_blocks _ _ Hm)].
  pose proof (moved_room _ _ _ Hm Hr). unfold room in *. lia.
Qed.

Lemma did_nop e s : ready e s -> runs (ret tt) (fun _ => did e 0x01 s) s.
Proof. intros (Hi & _ & Hne). apply runs_ret. by eapply did_stack; [|apply stack_only_refl| | |]. Qed.

(** ** Calls *)

Lemma did_return e s : ready e s -> runs (loadReturn F) (fun _ => did e 0x0f s) s.
Proof.
  intros (Hi & _ & Hne). unfold loadReturn. apply runs_bind. eapply runs_mono; [apply popTypes_runs; [done..|apply HF]|].
  cbn beta. intros _ s1 (Hi1 & [Ec1 Ep1 Eb1 Em1] & _ & Hp1).
  eapply runs_mono; [by apply unreachable_runs; [|rewrite Eb1]|]. cbn beta.
  intros _ s2 (Hi2 & [Ec2 Ep2 Em2] & Hne2 & Hs2). apply did_intro; [done|congruence|lia|lia|done|].
  intros _. exists Return. split; [cbn; do 3 f_equal; lia|]. cbn [step_instr]. by rewrite Hp1, <- Hs2.
Qed.

Lemma func_type f :
  0 <= f -> isValidFunc M f = true -> exists t, getFunctionType M (Z.to_nat f) = Some t /\ type_ok t.
Proof.
  intros Hf Hv. unfold isValidFunc, getNumTotalFunctions in Hv. apply Z.ltb_lt in Hv.
  assert (exists i, getFunctionTypeIdx M (Z.to_nat f) = Some i /\ (i < length (TypeTable M))%nat) as (i & Ei & Hi).
  { unfold getFunctionTypeIdx. destruct (Nat.ltb_spec (Z.to_nat f) (length (ImportFunctionTable M))).
    - destruct (lookup_lt_is_Some_2 (ImportFunctionTable M) (Z.to_nat f)) as [i Ei]; [done|].
      exists i. split; [done|]. by eapply Forall_lookup_1 in Ei; [|apply HM].
    - destruct (lookup_lt_is_Some_2 (InternalFunctionTable M) (Z.to_nat f - length (ImportFunctionTable M))) as [i Ei];
        [lia|]. exists i. split; [done|]. by eapply Forall_lookup_1 in Ei; [|apply HM]. }
  destruct (lookup_lt_is_Some_2 (TypeTable M) i Hi) as [t Et]. exists t. unfold getFunctionType. rewrite Ei. cbn.
  split; [done|]. by eapply Forall_lookup_1 in Et; [|apply HM].
Qed.

Lemma did_call e s : ready e s -> runs (loadCall wide_shift M) (fun _ => did e 0x10 s) s.
Proof.
  intros Hs. pose proof Hs as (Hi & _ & Hne). unfold loadCall. apply runs_bind.
  eapply runs_mono; [by apply u32_runs|]. cbn beta. intros f s1 (Hi1 & Hm1 & Hf & Himm).
  destruct (isValidFunc M f) eqn:Hv; [|apply runs_throw]. cbn [negb].
  destruct (func_type f ltac:(lia) Hv) as (t & Et & Ht). apply runs_bind. eapply runs_option; [exact Et|].
  eapply runs_mono; [apply (call_runs e); [by eapply ready_moved|done]|]. cbn beta. intros _ s2 (Hi2 & Hs2 & Hc).
  eapply did_imm; [done|done|done|done|by apply (with_u32_imm Call)|]. cbn [step_instr]. rewrite Et. cbn.
  by rewrite <- (moved_abs _ _ Hm1).
Qed.

Lemma zero_byte_runs e s :
  inv e s ->
  runs (reading readByte) (fun b s' => inv e s' /\ moved s s' /\
    (b = 0 -> zero_byte (drop (Ptr s) (LCode s)) = Some (drop (Ptr s') (LCode s')))) s.
Proof.
  intros Hi. eapply runs_mono; [apply (reading_runs e readByte); [done|apply advances_byte]|]. cbn beta.
  intros b s1 (Hi1 & Hm1 & Hb). split_and!; [done|done|]. intros ->. destruct (drop (Ptr s) (LCode s)) as [|c bs]; [done|].
  injection Hb as -> Hb. cbn. by rewrite Hb.
Qed.

Lemma moved_trans s1 s2 s3 : moved s1 s2 -> moved s2 s3 -> moved s1 s3.
Proof. intros [] []. split; congruence || lia. Qed.

Lemma did_call_indirect e s : ready e s -> runs (loadCallIndirect wide_shift M) (fun _ => did e 0x11 s) s.
Proof.
  intros Hs. pose proof Hs as (Hi & _ & Hne). unfold loadCallIndirect. apply runs_bind.
  eapply runs_mono; [by apply u32_runs|]. cbn beta. intros x s1 (Hi1 & Hm1 & Hx & Himm).
  destruct (isValidType M x) eqn:Hv; [|apply runs_throw]. cbn [negb]. apply runs_bind.
  eapply runs_mono; [by apply zero_byte_runs|]. cbn beta. intros b s2 (Hi2 & Hm2 & Hz).
  destruct (Z.eqb_spec b 0) as [->|]; [|apply runs_throw]. cbn [negb]. specialize (Hz eq_refl).
  destruct (isValidTable M 0) eqn:Htab; [|apply runs_throw]. cbn [negb].
  pose proof (moved_trans _ _ _ Hm1 Hm2) as Hm. destruct (ready_moved e s s2 Hs Hi2 Hm) as (_ & Hr2 & Hne2).
  apply runs_bind. eapply runs_mono; [by apply pop_val|]. cbn beta. intros _ s3 (Hi3 & Hs3 & Hl3 & Hp3).
  unfold isValidType in Hv. apply Z.ltb_lt in Hv.
  destruct (lookup_lt_is_Some_2 (TypeTable M) (Z.to_nat x)) as [t Et]; [lia|].
  apply runs_bind. eapply runs_option; [exact Et|]. apply runs_assoc, runs_bind.
  eapply runs_mono; [apply (call_runs e)|].
  { split_and!; [done|by eapply room_after|by rewrite (so_blocks _ _ Hs3)]. }
  { by eapply Forall_lookup_1 in Et; [|apply HM]. }
  cbn beta. intros _ s4 (Hi4 & Hs4 & Hc).
  eapply runs_mono; [apply (stats_runs e _ s2); [done|by eapply stack_only_trans]|]. cbn beta.
  intros _ s5 (Hi5 & Hs5 & Ha5). eapply did_imm; [done|done|done|done| |].
  - cbn [decode_op]. rewrite Himm. cbn [mbind option_bind]. rewrite Hz. done.
  - cbn [step_instr]. unfold isValidTable in Htab. destruct (Nat.eqb_spec (NumTotalTables M) 0) as [E|]; [by rewrite E in Htab|].
    rewrite Et. cbn [mbind option_bind]. by rewrite <- (moved_abs _ _ Hm), Hp3, Ha5.
Qed.

(** ** Globals *)

Lemma global_at x :
  0 <= x -> isValidGlobal M x = true -> getNumImportGlobals M <= x ->
  exists g, getInternalGlobal M (Z.to_nat (x - getNumImportGlobals M)) = Some g /\ is_val (GType g) /\
    (ImportGlobalTable M ++ InternalGlobalTable M) !! Z.to_nat x = Some g /\
    getGlobalType M (Z.to_nat x) = Some (GType g).
Proof.
  unfold isValidGlobal, getNumTotalGlobals, getNumImportGlobals. intros Hx Hv%Z.ltb_lt Hge.
  destruct (lookup_lt_is_Some_2 (InternalGlobalTable M) (Z.to_nat x - length (ImportGlobalTable M))) as [g Eg]; [lia|].
  exists g. assert ((ImportGlobalTable M ++ InternalGlobalTable M) !! Z.to_nat x = Some g) as E
    by (rewrite lookup_app_r by lia; done).
  split_and!; [|by eapply (Forall_lookup_1 _ _ _ _ (mo_globals _ HM)) in E|done|].
  - unfold getInternalGlobal. rewrite <- Eg. f_equal. lia.
  - unfold getGlobalType, getInternalGlobal. rewrite (proj2 (Nat.ltb_ge _ _)) by lia. by rewrite Eg.
Qed.

Lemma did_get_global e s : ready e s -> runs (loadGetGlobal wide_shift M) (fun _ => did e 0x23 s) s.
Proof.
  intros Hs. pose proof Hs as (Hi & _ & Hne). unfold loadGetGlobal. apply runs_bind.
  eapply runs_mono; [by apply u32_runs|]. cbn beta. intros x s1 (Hi1 & Hm1 & Hx & Himm).
  destruct (isValidGlobal M x) eqn:Hv; [|apply runs_throw]. cbn [negb].
  destruct (Z.ltb_spec x (getNumImportGlobals M)); [apply runs_throw|].
  destruct (global_at x ltac:(lia) Hv ltac:(lia)) as (g & _ & Hg & Eg & Et).
  apply runs_bind. eapply runs_option; [exact Et|]. apply runs_bind.
  destruct (ready_moved e s s1 Hs Hi1 Hm1) as (_ & Hr1 & Hne1).
  eapply runs_mono; [by apply push_runs|]. cbn beta. intros _ s2 (Hi2 & Hs2 & HV2).
  eapply runs_mono; [by apply (stats_runs e _ s1)|]. cbn beta. intros _ s3 (Hi3 & Hs3 & Ha3).
  eapply did_imm; [done|done|done|done|by apply (with_u32_imm GlobalGet)|]. cbn [step_instr]. rewrite Eg.
  cbn [mbind option_bind]. by rewrite Ha3, <- (moved_abs _ _ Hm1), (push_abs (GType g) s1 s2).
Qed.

Lemma did_set_global e s : ready e s -> runs (loadSetGlobal wide_shift M) (fun _ => did e 0x24 s) s.
Proof.
  intros Hs. pose proof Hs as (Hi & _ & Hne). unfold loadSetGlobal. apply runs_bind.
  eapply runs_mono; [by apply u32_runs|]. cbn beta zeta. intros x s1 (Hi1 & Hm1 & Hx & Himm).
  destruct (isValidGlobal M x) eqn:Hv; [|apply runs_throw]. cbn [negb].
  assert (x < getNumTotalGlobals M) as Hlt by (by apply Z.ltb_lt in Hv). pose proof (mo_few _ HM) as Hfew.
  assert (0 <= getNumImportGlobals M <= getNumTotalGlobals M) as Himp
    by (unfold getNumImportGlobals, getNumTotalGlobals; lia).
  assert (swrap 32 (u32 (x - getNumImportGlobals M)) = x - getNumImportGlobals M) as ->.
  { rewrite swrap_wrap. apply swrap_small; lia. }
  destruct (Z.ltb_spec (x - getNumImportGlobals M) 0); [apply runs_throw|].
  destruct (global_at x ltac:(lia) Hv ltac:(lia)) as (g & Ei & Hg & Eg & _).
  apply runs_bind. eapply runs_option; [exact Ei|]. destruct (Mutable g) eqn:Emut; [|apply runs_throw]. cbn [negb].
  apply runs_bind. destruct (ready_moved e s s1 Hs Hi1 Hm1) as (_ & Hr1 & Hne1).
  eapply runs_mono; [by apply pop_val|]. cbn beta. intros _ s2 (Hi2 & Hs2 & _ & Hp2).
  eapply runs_mono; [by apply (stats_runs e _ s1)|]. cbn beta. intros _ s3 (Hi3 & Hs3 & Ha3).
  eapply did_imm; [done|done|done|done|by apply (with_u32_imm GlobalSet)|]. cbn [step_instr]. rewrite Eg.
  cbn [mbind option_bind]. by rewrite Emut, Ha3, <- (moved_abs _ _ Hm1).
Qed.

(** ** Memory *)

Lemma memIdx_runs e s :
  inv e s ->
  runs (readMemIdx M) (fun _ s' => inv e s' /\ moved s s' /\ (NumTotalMemories M =? 0)%nat = false /\
    zero_byte (drop (Ptr s) (LCode s)) = Some (drop (Ptr s') (LCode s'))) s.
Proof.
  intros Hi. unfold readMemIdx, hasMemory. destruct (NumTotalMemories M =? 0)%nat eqn:Em; [apply runs_throw|]. cbn [negb].
  apply runs_bind. eapply runs_mono; [by apply zero_byte_runs|]. cbn beta. intros b s1 (Hi1 & Hm1 & Hz).
  destruct (Z.eqb_spec b 0); [|apply runs_throw]. apply runs_ret. auto.
Qed.

Lemma did_memory_size e s :
  ready e s -> runs (readMemIdx M;;; pushValueType I32;;; addStats SF_memory) (fun _ => did e 0x3f s) s.
Proof.
  intros Hs. pose proof Hs as (Hi & _ & Hne). apply runs_bind. eapply runs_mono; [by apply memIdx_runs|]. cbn beta.
  intros _ s1 (Hi1 & Hm1 & Em & Hz). destruct (ready_moved e s s1 Hs Hi1 Hm1) as (_ & Hr1 & Hne1). apply runs_bind.
  eapply runs_mono; [by apply push_runs|]. cbn beta. intros _ s2 (Hi2 & Hs2 & HV2).
  eapply runs_mono; [by apply (stats_runs e _ s1)|]. cbn beta. intros _ s3 (Hi3 & Hs3 & Ha3).
  eapply (did_imm _ _ _ _ _ _ _ _ MemorySize); [done|done|done|done|cbn [decode_op]; by rewrite Hz|].
  cbn [step_instr]. by rewrite Em, Ha3, <- (moved_abs _ _ Hm1), (push_abs I32 s1 s2).
Qed.

Lemma did_memory_grow e s :
  ready e s -> runs (readMemIdx M;;; popAndPushValueType 1 I32 I32;;; addStats SF_memory) (fun _ => did e 0x40 s) s.
Proof.
  intros Hs. pose proof Hs as (Hi & _ & Hne). apply runs_bind. eapply runs_mono; [by apply memIdx_runs|]. cbn beta.
  intros _ s1 (Hi1 & Hm1 & Em & Hz). pose proof (ready_moved e s s1 Hs Hi1 Hm1) as Hs1. apply runs_bind.
  eapply runs_mono; [by apply (popPush_runs e)|]. cbn beta. intros _ s2 (Hi2 & Hs2 & Hp2).
  eapply runs_mono; [by apply (stats_runs e _ s1)|]. cbn beta. intros _ s3 (Hi3 & Hs3 & Ha3).
  eapply (did_imm _ _ _ _ _ _ _ _ MemoryGrow); [done|done|done|done|cbn [decode_op]; by rewrite Hz|].
  cbn [step_instr]. by rewrite Em, Ha3, <- (moved_abs _ _ Hm1).
Qed.

Lemma access_runs e (isStore : bool) t s :
  ready e s -> is_val t ->
  runs (if isStore then popValueType t;;; popValueType I32;;; ret tt else popAndPushValueType 1 I32 t)
    (fun _ s' => inv e s' /\ stack_only s s' /\
      (if isStore then pop_expect t (abs s) ≫= pop_expect I32 else push_opd (Some t) <$> pop_expect I32 (abs s))
      = Some (abs s')) s.
Proof.
  intros Hs Ht. destruct isStore; [|by apply (popPush_runs e 1)]. destruct Hs as (Hi & _ & Hne).
  apply runs_bind. eapply runs_mono; [by apply pop_val|]. cbn beta. intros _ s1 (Hi1 & Hs1 & _ & Hp1).
  apply runs_bind. eapply runs_mono; [apply pop_val; [done|by rewrite (so_blocks _ _ Hs1)|done]|]. cbn beta.
  intros _ s2 (Hi2 & Hs2 & _ & Hp2). apply runs_ret. split_and!; [done|by eapply stack_only_trans|]. by rewrite Hp1.
Qed.

Lemma did_memory_access e op isStore t s :
  ready e s -> is_byte op -> memoryType op = Some (isStore, t) ->
  runs (loadMemoryAccess wide_shift M op isStore t) (fun _ => did e op s) s.
Proof.
  intros Hs Hop Hmt. pose proof Hs as (Hi & _ & Hne). pose proof (memory_table_ok op Hop) as Htab. rewrite Hmt in Htab.
  cbn zeta in Htab. set (en := default _ _) in Htab. destruct Htab as (Hd & Hen & Hal & Ht).
  unfold loadMemoryAccess, hasMemory. destruct (NumTotalMemories M =? 0)%nat eqn:Em; [apply runs_throw|]. cbn [negb].
  apply runs_bind. eapply runs_mono; [by apply u32_runs|]. cbn beta. intros a s1 (Hi1 & Hm1 & Ha & Himm).
  apply runs_bind. eapply runs_mono; [by apply (imm_runs wide_shift e TU32)|]. cbn beta. intros _ s2 (Hi2 & Hm2 & Hskip).
  apply runs_bind. unfold checkMemoryAlign. rewrite Hal. eapply runs_option; [done|].
  destruct (Z.leb_spec a (Z.log2 en.2)); [|apply runs_throw]. cbn [negb]. pose proof (moved_trans _ _ _ Hm1 Hm2) as Hm.
  apply runs_bind. eapply runs_mono; [apply (access_runs e); [by eapply ready_moved|done]|]. cbn beta.
  intros _ s3 (Hi3 & Hs3 & Hp3). eapply runs_mono; [by apply (stats_runs e _ s2)|]. cbn beta.
  intros _ s4 (Hi4 & Hs4 & Ha4). eapply did_imm; [done|done|done|done| |].
  - rewrite Hd. unfold memarg. rewrite Himm. cbn [mbind option_bind]. by rewrite Hskip.
  - rewrite (moved_abs _ _ Hm) in Hp3. rewrite Ha4, Hen.
    destruct isStore; cbn [step_instr]; by rewrite Em, (proj2 (Z.ltb_ge _ _)).
Qed.

(** ** Values of any type *)

(** An opcode that is already read is patched. *)
Record patched (s s' : FunctionLoader) : Prop := {
  pa_length : length (LCode s') = length (LCode s);
  pa_code : drop (Ptr s') (LCode s') = drop (Ptr s') (LCode s);
  pa_ptr : Ptr s' = Ptr s;
  pa_blocks : ControlBlocks s' = ControlBlocks s;
  pa_values : ValueTypes s' = ValueTypes s;
  pa_max : MaxStackSize s' = MaxStackSize s;
}.

Lemma patch_runs e (c : bool) op s :
  inv e s -> (1 <= Ptr s)%nat -> is_byte op ->
  runs (if c then patchOpcode op else ret tt) (fun _ s' => inv e s' /\ patched s s') s.
Proof.
  intros Hi Hp Hop. destruct c; [|by apply runs_ret]. apply runs_modify. split.
  - destruct Hi. split; cbn; rewrite ?length_insert; try done. by apply Forall_insert.
  - split; cbn; try done; [by rewrite length_insert|]. apply drop_insert_lt. lia.
Qed.

Lemma did_patched e op s s1 s' i :
  inv e s' -> stack_only s s1 -> patched s1 s' -> ControlBlocks s <> [] ->
  (forall bs, decode_op op bs = Some (i, bs)) -> step_instr M F Locals i (abs s) = Some (abs s1) -> did e op s s'.
Proof.
  intros Hi [Ec Ep Eb Em] [El Ec1 Ep1 Eb1 Ev1 Em1] Hne Hd Hs. split; try done; try congruence; try lia.
  intros _. exists i. rewrite Hd, Ep1, Ep. split; [done|]. rewrite Hs. unfold abs. congruence.
Qed.

Lemma did_drop e s : ready e s -> runs loadDrop (fun _ => did e 0x1a s) s.
Proof.
  intros (Hi & Hr & Hne). unfold loadDrop. apply runs_bind. eapply runs_mono; [apply pop_runs; [done|done|by right]|].
  cbn beta. intros a s1 [Hi1 Hs1 Ha Hl _ (top & Hp & _)].
  eapply runs_mono; [apply (patch_runs e _ 0xc5); [done| |done]|].
  { rewrite (so_ptr _ _ Hs1). unfold room in Hr. lia. }
  cbn beta. intros _ s2 (Hi2 & Hp2). eapply (did_patched _ _ _ _ _ Drop); [done|done|done|done|done|].
  cbn [step_instr]. by rewrite Hp.
Qed.

(** A push of a value that may be of unknown type. *)
Lemma push_any e t s :
  inv e s -> room 1 s -> stackable t ->
  runs (pushValueType t) (fun _ s' => ValueTypes s' = t :: ValueTypes s /\
    ((e = true -> is_val t) -> inv e s' /\ stack_only s s' /\ abs s' = push_opd (opd t) (abs s))) s.
Proof.
  intros Hi Hr Ht. assert (e = true /\ t = ANY \/ (e = true -> is_val t)) as [[-> ->]|Hv].
  { destruct Ht; [by right|]. destruct e; [by left|by right]. }
  - apply runs_bind. eapply runs_option; [by apply stackable_size|]. apply runs_modify. split; [done|].
    intros H. by destruct (H eq_refl).
  - eapply runs_mono; [by apply push_runs'|]. cbn beta. intros _ s1 (Hi1 & Hs1 & HV1). split; [done|]. intros _.
    split_and!; [done|done|]. unfold abs, push_opd. by rewrite HV1, (so_blocks _ _ Hs1).
Qed.

Lemma select_step a b s s1 s2 s3 :
  stackable a -> stackable b ->
  negb (bool_decide (a = b)) && negb (bool_decide (a = ANY)) && negb (bool_decide (b = ANY)) = false ->
  pop_expect I32 (abs s) = Some (abs s1) -> pop_opd (abs s1) = Some (opd a, abs s2) ->
  pop_opd (abs s2) = Some (opd b, abs s3) ->
  step_instr M F Locals Select (abs s) =
    Some (push_opd (opd (if bool_decide (a = ANY) then b else a)) (abs s3)).
Proof.
  intros Ha Hb Hc H1 H2 H3. cbn [step_instr]. rewrite H1. cbn [mbind option_bind]. rewrite H2. cbn [mbind option_bind].
  rewrite H3. cbn [mbind option_bind]. unfold opd in *.
  destruct (bool_decide (a = ANY)) eqn:Ea; [by rewrite ?Ea|]. rewrite Ea.
  destruct (bool_decide (b = ANY)) eqn:Eb; [done|]. cbn in Hc. rewrite !andb_true_r in Hc. apply negb_false_iff in Hc.
  by rewrite Hc.
Qed.

Lemma abs_values s s' : ValueTypes s' = ValueTypes s -> ControlBlocks s' = ControlBlocks s -> abs s' = abs s.
Proof. unfold abs. congruence. Qed.

Lemma did_select e s :
  ready e s -> runs loadSelect (fun _ s' => (e = true -> ANY ∉ ValueTypes s') -> did e 0x1b s s') s.
Proof.
  intros (Hi & Hr & Hne). unfold loadSelect. apply runs_bind. eapply runs_mono; [by apply pop_val|]. cbn beta.
  intros _ s1 (Hi1 & Hs1 & Hl1 & Hp1). apply runs_bind.
  eapply runs_mono; [apply pop_runs; [done|by rewrite (so_blocks _ _ Hs1)|by right]|]. cbn beta.
  intros a s2 [Hi2 Hs2 Ha Hl2 _ (top2 & Hp2 & Ht2 & _)]. rewrite Ht2 in Hp2 by done.
  pose proof (stack_only_trans _ _ _ Hs1 Hs2) as Hs12. apply runs_bind.
  eapply runs_mono; [apply pop_runs; [done|by rewrite (so_blocks _ _ Hs12)|by right]|]. cbn beta.
  intros b s3 [Hi3 Hs3 Hb Hl3 _ (top3 & Hp3 & Ht3 & _)]. rewrite Ht3 in Hp3 by done.
  destruct (_ && _) eqn:Hc; [apply runs_throw|]. pose proof (select_step a b s s1 s2 s3 Ha Hb Hc Hp1 Hp2 Hp3) as Hstep.
  set (t := if bool_decide (a = ANY) then b else a) in *. cbn zeta.
  assert (stackable t) as Ht by (unfold t; by destruct (bool_decide (a = ANY))).
  pose proof (stack_only_trans _ _ _ Hs12 Hs3) as Hs13. apply runs_bind.
  eapply runs_mono; [apply (patch_runs e _ 0xc6); [done| |done]|].
  { rewrite (so_ptr _ _ Hs13). unfold room in Hr. lia. }
  cbn beta. intros _ s4 (Hi4 & [El Ec4 Ep4 Eb4 Ev4 Em4]). eapply runs_mono; [apply (push_any e t s4); [done| |done]|].
  { unfold room in *. rewrite Ev4, Ep4, (so_ptr _ _ Hs13). lia. }
  cbn beta. intros _ s5 (HV5 & H5) Hany. destruct H5 as (Hi5 & [Ec5 Ep5 Eb5 Em5] & Ha5).
  { intros E. destruct Ht as [|Et]; [done|]. exfalso. apply (Hany E). rewrite HV5, Et. by left. }
  destruct Hs13 as [Ec Ep Eb Em].
  split; [done|congruence|rewrite Ec5, Ep5; congruence|lia|lia|intros E; congruence|].
  intros _. exists Select. rewrite Hstep, Ha5. split; [cbn; do 3 f_equal; congruence|].
  by rewrite (abs_values s3 s4).
Qed.

(** ** The switch *)

Lemma runs_relax {A} (m : lbody A) e op s :
  runs m (fun _ => did e op s) s ->
  runs m (fun _ s' => (e = true -> ANY ∉ ValueTypes s') -> did e op s s') s.
Proof. intros H. eapply runs_mono; [exact H|]. auto. Qed.

(** The next case of the switch. *)
Ltac branch :=
  match goal with |- runs (if ?op =? ?k then _ else _) _ _ => destruct (Z.eqb_spec op k) as [->|_] end.

Lemma loadOpcode_runs e op s :
  ready e s -> is_byte op ->
  runs (loadOpcode wide_shift M F Locals op) (fun _ s' => (e = true -> ANY ∉ ValueTypes s') -> did e op s s') s.
Proof.
  intros Hs Hop. unfold loadOpcode.
  branch; [by apply runs_relax, did_unreachable|]. branch; [by apply runs_relax, did_nop|].
  branch; [apply runs_relax, (did_block M F Locals e s _ _ Block); auto|].
  branch; [apply runs_relax, (did_block M F Locals e s _ _ Loop); auto|].
  branch; [apply runs_relax, (did_block M F Locals e s _ _ If); auto|].
  branch; [by apply runs_relax, did_else|]. branch; [by apply runs_relax, did_end|].
  branch; [by apply runs_relax, did_br|]. branch; [by apply runs_relax, did_br_if|].
  branch; [by apply runs_relax, did_br_table|]. branch; [by apply runs_relax, did_return|].
  branch; [by apply runs_relax, did_call|]. branch; [by apply runs_relax, did_call_indirect|].
  branch; [by apply runs_relax, did_drop|]. branch; [by apply did_select|].
  branch; [by apply runs_relax, did_get_local|]. branch; [by apply runs_relax, did_set_local|].
  branch; [by apply runs_relax, did_tee_local|]. branch; [by apply runs_relax, did_get_global|].
  branch; [by apply runs_relax, did_set_global|]. branch; [by apply runs_relax, did_memory_size|].
  branch; [by apply runs_relax, did_memory_grow|].
  branch; [by apply runs_relax, did_const|]. branch; [by apply runs_relax, did_const|].
  branch; [by apply runs_relax, did_float|]. branch; [by apply runs_relax, did_float|].
  destruct (memoryType op) as [[isStore t]|] eqn:Em; [by apply runs_relax, did_memory_access|].
  destruct (numericType op) as [[[n a] r]|] eqn:En; [by apply runs_relax, did_numeric|apply runs_throw].
Qed.
End Ops.
