(* ===== verification/FunctionLoaderTheorems.v ===== *)
(** What [FunctionLoader::load] guarantees: it ends with a verdict on every
    input, and the bodies it accepts are valid and fit the stack it computes,
    as long as no value of unknown type reaches its type stack; with such
    values it accepts bodies that are neither. *)

From S2P Require Import Prelude Intx Leb128 Leb128Correct FunctionLoader WasmValid FunctionLoaderInv FunctionLoaderSteps.

#[local] Open Scope Z_scope.

Section Load.
Context (wide_shift : Z -> Z -> Z) (M : Module_) (F : TypeEntry) (Locals : list WASMType).

(** The states at the head of the loop of [load]. *)
Fixpoint visited (fuel : nat) (s : FunctionLoader) : list FunctionLoader :=
  s :: if (Ptr s <? length (LCode s))%nat then
         match fuel with
         | O => []
         | S fuel =>
             match loadStep wide_shift M F Locals s with
             | Ret _ s' => visited fuel s'
             | _ => []
             end
         end
       else [].

(** The state after [pushBlock], in which the loop starts. *)
Definition startLoader (Code : list Z) : FunctionLoader :=
  mkLoader Code 0 0 0 1 [mkBlock false LABEL_FUNCTION (BTEntry F) 0 None 0 0] [] 0.

Definition trace (Code : list Z) : list FunctionLoader := visited (length Code) (startLoader Code).

Hypothesis HM : mod_ok M.
Hypothesis HF : type_ok F.
Hypothesis HL : Forall is_val Locals.

(** One turn of the loop. *)
Record stepped (e : bool) (s s' : FunctionLoader) : Prop := {
  st_inv : inv e s';
  st_length : length (LCode s') = length (LCode s);
  st_code : drop (Ptr s') (LCode s') = drop (Ptr s') (LCode s);
  st_ptr : (Ptr s < Ptr s')%nat;
  st_max : MaxStackSize s <= MaxStackSize s';
  st_blocks : ControlBlocks s' <> [] \/ Ptr s' = length (LCode s');
  st_step : e = true -> exists i,
    decode_instr (drop (Ptr s) (LCode s)) = Some (i, drop (Ptr s') (LCode s)) /\
    step_instr M F Locals i (abs s) = Some (abs s');
}.

Lemma loadStep_runs e s :
  inv e s -> ControlBlocks s <> [] ->
  runs (loadStep wide_shift M F Locals) (fun _ s' => (e = true -> ANY ∉ ValueTypes s') -> stepped e s s') s.
Proof.
  intros Hi Hne. unfold loadStep. apply runs_bind.
  eapply runs_mono; [apply (reading_runs e readByte); [done|apply advances_byte]|]. cbn beta.
  intros op s1 (Hi1 & Hm1 & Hop). pose proof (moved_abs _ _ Hm1) as Ha1.
  destruct (drop (Ptr s) (LCode s)) as [|c bs] eqn:Ed; [done|]. injection Hop as -> Hbs.
  assert (is_byte op) as Hb.
  { pose proof (Forall_drop _ (Ptr s) _ (i_bytes _ _ Hi)) as Hf. rewrite Ed in Hf. by apply Forall_cons_iff in Hf as [? _]. }
  eapply runs_mono; [apply loadOpcode_runs; try done|].
  { split_and!; [done|eapply moved_room; [exact Hm1|by eapply inv_room]|by rewrite (mv_blocks _ _ Hm1)]. }
  cbn beta. intros _ s2 H2 Hany. destruct Hm1 as [Ec Ep Eb Ev Em]. destruct (H2 Hany) as [Hi2 Hl2 Hc2 Hp2 Hm2 Hb2 Hs2].
  split; [done|congruence|congruence|lia|lia| |].
  - destruct (ControlBlocks s2); [right; auto|by left].
  - intros He. destruct (Hs2 He) as (i & Hd & Hs). exists i. rewrite Ed. cbn [decode_instr].
    rewrite Hbs, Hd, Ec, <- Ha1. done.
Qed.

(** ** The loop *)

Definition good (e : bool) (s : FunctionLoader) : Prop :=
  inv e s /\ (ControlBlocks s <> [] \/ Ptr s = length (LCode s)).

Lemma loadLoop_runs fuel s :
  good false s -> (length (LCode s) - Ptr s <= fuel)%nat ->
  runs (loadLoop wide_shift M F Locals fuel) (fun _ s' => inv false s' /\ length (LCode s') = length (LCode s) /\
    MaxStackSize s <= MaxStackSize s') s.
Proof.
  revert s. induction fuel as [|fuel IH]; intros s [Hi Hb] Hf; unfold runs; cbn [loadLoop];
    (destruct (Nat.ltb_spec (Ptr s) (length (LCode s))); [|by split_and!]); [lia|].
  apply runs_bind. eapply runs_mono; [apply (loadStep_runs false); [done|destruct Hb; [done|lia]]|]. cbn beta.
  intros _ s1 Hs1. destruct Hs1 as [Hi1 Hl1 Hc1 Hp1 Hm1 Hb1 _]; [done|].
  eapply runs_mono; [apply IH; [done|lia]|]. cbn beta. intros _ s2 (Hi2 & Hl2 & Hm2). split_and!; [done|congruence|lia].
Qed.

Lemma ret_of {A} (m : lbody A) Q s a s' : runs m Q s -> m s = Ret a s' -> Q a s'.
Proof. unfold runs. intros H E. by rewrite E in H. Qed.

(** One turn and the rest, when the loop falls through. *)
Lemma loop_turn fuel s s' :
  (Ptr s < length (LCode s))%nat -> loadLoop wide_shift M F Locals (S fuel) s = Ret tt s' ->
  exists s1, loadStep wide_shift M F Locals s = Ret tt s1 /\ loadLoop wide_shift M F Locals fuel s1 = Ret tt s' /\
    visited (S fuel) s = s :: visited fuel s1.
Proof.
  intros Hlt. cbn [loadLoop visited]. rewrite (proj2 (Nat.ltb_lt _ _)) by done. unfold bind.
  destruct (loadStep _ _ _ _ s) as [[] s1| | |]; [|done..]. intros H. by exists s1.
Qed.

Lemma loop_done fuel s :
  (length (LCode s) <= Ptr s)%nat -> loadLoop wide_shift M F Locals fuel s = Ret tt s /\ visited fuel s = [s].
Proof. intros H. by destruct fuel; cbn [loadLoop visited]; rewrite (proj2 (Nat.ltb_ge _ _)). Qed.

Lemma validates_end fuel v : ctrls v = [] -> validates M F Locals fuel [] v = true.
Proof. intros E. by destruct fuel; cbn [validates]; rewrite E. Qed.

Lemma visited_head fuel s : exists l, visited fuel s = s :: l.
Proof. destruct fuel; cbn; eauto. Qed.

Lemma exact_fits s s' : inv true s -> MaxStackSize s <= MaxStackSize s' -> bytes (ValueTypes s) <= MaxStackSize s'.
Proof. intros [] ?. cbn in *. lia. Qed.

Lemma loadLoop_sound fuel s s' :
  good true s -> (length (LCode s) - Ptr s <= fuel)%nat ->
  loadLoop wide_shift M F Locals fuel s = Ret tt s' -> ControlBlocks s' = [] ->
  Forall (fun v => ANY ∉ ValueTypes v) (visited fuel s) ->
  validates M F Locals fuel (drop (Ptr s) (LCode s)) (abs s) = true /\
  Forall (fun v => bytes (ValueTypes v) <= MaxStackSize s') (visited fuel s).
Proof.
  revert s. induction fuel as [|fuel IH]; intros s [Hi Hb] Hf Hl Hend Hany;
    (destruct (decide (length (LCode s) <= Ptr s)%nat) as [Hge|Hlt];
     [match goal with |- context [validates _ _ _ ?n _ _] =>
        destruct (loop_done n s Hge) as [El Ev] end; rewrite Ev; rewrite El in Hl; injection Hl as <-;
        split; [|constructor; [by apply exact_fits|done]];
        rewrite drop_ge by done; apply validates_end; unfold abs; by rewrite Hend|]); [lia|].
  assert (Ptr s < length (LCode s))%nat as Hlt' by lia.
  destruct (loop_turn fuel s s' Hlt' Hl) as (s1 & Hs1 & Hl1 & Ev). rewrite Ev in *.
  apply Forall_cons_iff in Hany as [_ Hany]. destruct (visited_head fuel s1) as [l El].
  assert (ControlBlocks s <> []) as Hne by (destruct Hb; [done|lia]).
  pose proof (ret_of _ _ _ _ _ (loadStep_runs true s Hi Hne) Hs1) as Hst. cbn beta in Hst.
  destruct Hst as [Hi1 Hlen Hc1 Hp1 Hm1 Hb1 Hs].
  { intros _. rewrite El in Hany. by apply Forall_cons_iff in Hany as [? _]. }
  destruct (IH s1 ltac:(done) ltac:(lia) Hl1 Hend Hany) as [Hv Hm]. destruct (Hs eq_refl) as (i & Hd & Hi').
  pose proof (ret_of _ _ _ _ _ (loadLoop_runs fuel s1 (conj (inv_weak _ _ Hi1) Hb1) ltac:(lia)) Hl1) as (_ & _ & Hmm).
  split; [|constructor; [apply exact_fits; [done|lia]|done]].
  cbn [validates]. assert (exists c cs, ctrls (abs s) = c :: cs) as (c & cs & Ec).
  { unfold abs. cbn [ctrls]. destruct (ControlBlocks s); [done|by eexists _, _]. }
  rewrite Ec, Hd, Hi', <- Hc1. done.
Qed.

Lemma start_good Code : Forall is_byte Code -> Z.of_nat (length Code) <= 2 ^ 24 -> good true (startLoader Code).
Proof.
  intros Hb Hl. split; [|by left]. split; cbn; try done; try lia.
Qed.

Lemma load_start Code :
  load wide_shift M F Locals Code =
  (loadLoop wide_shift M F Locals (length Code);;;
   s <- gets id;;
   if negb (length (ControlBlocks s) =? 0)%nat then throw BlockStackNotEmptyAtEndOfFunction
   else if negb (Ptr s =? length (LCode s))%nat then throw UnexpectedEnd
   else ret tt) (startLoader Code).
Proof. done. Qed.

Lemma load_accepts Code s :
  load wide_shift M F Locals Code = Ret tt s ->
  loadLoop wide_shift M F Locals (length Code) (startLoader Code) = Ret tt s /\ ControlBlocks s = [] /\
  Ptr s = length (LCode s).
Proof.
  rewrite load_start. unfold bind, gets. destruct (loadLoop _ _ _ _ _ _) as [[] s1| | |]; [|done..]. cbn [id].
  destruct (Nat.eqb_spec (length (ControlBlocks s1)) 0) as [E|]; [|done]. cbn [negb].
  destruct (Nat.eqb_spec (Ptr s1) (length (LCode s1))); [|done]. intros [= <-]. split_and!; [done| |done].
  by apply nil_length_inv.
Qed.

Lemma load_runs Code :
  Forall is_byte Code -> Z.of_nat (length Code) <= 2 ^ 24 ->
  match load wide_shift M F Locals Code with
  | Ret _ s => ControlBlocks s = [] /\ Ptr s = length Code /\ length (LCode s) = length Code /\ inv false s
  | Throw _ _ => True
  | Exit _ | Undef => False
  end.
Proof.
  intros Hb Hl. destruct (start_good Code Hb Hl) as [Hi Hne]. apply inv_weak in Hi. rewrite load_start.
  refine (runs_bind _ _ (fun _ s => ControlBlocks s = [] /\ Ptr s = length Code /\
    length (LCode s) = length Code /\ inv false s) _ _).
  eapply runs_mono; [apply (loadLoop_runs _ _ (conj Hi Hne)); cbn; lia|]. cbn beta.
  intros _ s (Hs & Elen & _). cbn in Elen. apply runs_bind, runs_gets. cbn [id].
  destruct (Nat.eqb_spec (length (ControlBlocks s)) 0) as [E|]; [|apply runs_throw]. cbn [negb].
  destruct (Nat.eqb_spec (Ptr s) (length (LCode s))); [|apply runs_throw]. apply runs_ret.
  split_and!; [by apply nil_length_inv|congruence|done|done].
Qed.

(** C30. For a well-formed module, [FunctionLoader::load] reaches a verdict on
    every sequence of bytes: it returns or throws, and never reads past the
    body, below the type stack or the stack of blocks, or outside a table of
    the module; the loops end within the bytes of the body. *)
Theorem load_total Code :
  Forall is_byte Code -> Z.of_nat (length Code) <= 2 ^ 24 ->
  (exists s, load wide_shift M F Locals Code = Ret tt s /\ ControlBlocks s = [] /\ Ptr s = length Code /\
     0 <= StackSize s <= MaxStackSize s) \/
  (exists e s, load wide_shift M F Locals Code = Throw e s).
Proof.
  intros Hb Hl. pose proof (load_runs Code Hb Hl) as Hr.
  destruct (load wide_shift M F Locals Code) as [[] s| |e s|]; [left|done|right; by eexists _, _|done].
  exists s. destruct Hr as (Eb & Ep & _ & []). cbn in *. split_and!; try done; lia.
Qed.

(** A body that [FunctionLoader::load] accepts without ever having a value
    of unknown type ([ANY]) on its type stack is valid by the algorithm of the
    specification, and the operands of every state of the run fit the
    [MaxStackSize] it computes. *)
Theorem load_sound Code s :
  Forall is_byte Code -> Z.of_nat (length Code) <= 2 ^ 24 ->
  load wide_shift M F Locals Code = Ret tt s -> Forall (fun v => ANY ∉ ValueTypes v) (trace Code) ->
  valid_function M F Locals Code = true /\
  Forall (fun v => bytes (ValueTypes v) <= MaxStackSize s) (trace Code).
Proof.
  intros Hb Hl E Hany. destruct (load_accepts Code s E) as (El & Eb & _).
  by apply (loadLoop_sound (length Code) (startLoader Code) s (start_good Code Hb Hl) ltac:(cbn; lia) El Eb).
Qed.
End Load.

(** ** Concrete bodies *)

Definition demo_module : Module_ :=
  mkMod [mkType [I32] [I32]; mkType [] []] [] [0%nat; 1%nat] [] [mkGlobal I64 true] 1 1.

Lemma demo_module_ok : mod_ok demo_module.
Proof. split; cbn; by repeat constructor. Qed.

(** A loop that counts its argument down, and returns it. *)
Definition countdown : list Z :=
  [0x02; 0x40; 0x03; 0x40; 0x20; 0; 0x45; 0x0d; 1; 0x20; 0; 0x41; 1; 0x6b; 0x21; 0;
   0x23; 0; 0x42; 1; 0x7c; 0x24; 0; 0x0c; 0; 0x0b; 0x0b; 0x20; 0; 0x0b].

(** Blocks whose unreachable end takes eight bytes off for a value of unknown
    type that was counted as four. *)
Definition drift : list Z :=
  let blk := [0x02; 0x7f; 0x41; 0; 0x0c; 0; 0x1b; 0x50; 0x0b] in
  [0x41; 0] ++ blk ++ blk ++ blk ++ [0x1a; 0x0b].

(** With values of unknown type [FunctionLoader::load] accepts a body that
    is not valid (it leaves three values at the end of a function without
    results) and computes a [MaxStackSize] smaller than the operands that are
    on the stack at once. *)
Theorem load_accepts_invalid wide_shift :
  let F := mkType [] [] in
  exists s, load wide_shift demo_module F [] drift = Ret tt s /\ valid_function demo_module F [] drift = false /\
    Exists (fun v => MaxStackSize s < bytes (ValueTypes v)) (trace wide_shift demo_module F [] drift).
Proof.
  eexists. split_and!; [vm_compute; done|vm_compute; done|].
  vm_compute. repeat (first [apply Exists_cons_hd; reflexivity|apply Exists_cons_tl]).
Qed.

Lemma load_total_witness :
  (exists s, load (fun _ _ => 0) demo_module (mkType [I32] [I32]) [] countdown = Ret tt s /\ ControlBlocks s = [] /\
     Ptr s = length countdown /\ 0 <= StackSize s <= MaxStackSize s) \/
  (exists e s, load (fun _ _ => 0) demo_module (mkType [I32] [I32]) [] countdown = Throw e s).
Proof.
  apply (load_total (fun _ _ => 0) demo_module (mkType [I32] [I32]) [] demo_module_ok).
  - by repeat constructor.
  - constructor.
  - by repeat constructor.
  - by vm_compute.
Defined.

Lemma load_sound_witness : exists s,
  load (fun _ _ => 0) demo_module (mkType [I32] [I32]) [] countdown = Ret tt s /\ MaxStackSize s = 16 /\
  valid_function demo_module (mkType [I32] [I32]) [] countdown = true /\
  Forall (fun v => bytes (ValueTypes v) <= MaxStackSize s)
    (trace (fun _ _ => 0) demo_module (mkType [I32] [I32]) [] countdown).
Proof.
  eexists. split; [vm_compute; reflexivity|]. split; [reflexivity|].
  apply (load_sound (fun _ _ => 0) demo_module (mkType [I32] [I32]) [] demo_module_ok).
  - by repeat constructor.
  - constructor.
  - by repeat constructor.
  - by vm_compute.
  - by vm_compute.
  - vm_compute. repeat (apply Forall_cons_2; [apply (bool_decide_unpack (_ ∉ _)); vm_compute; exact I|]). apply Forall_nil_2.
Defined.
