(* ===== verification/ConstStringPool.v ===== *)
(** The pool of symbols: [src/src/common/const_string_pool.{h,cpp}], for a
    build without [ZEN_ENABLE_CHECKED_ARITHMETIC].

    An entry lives in one slot of [EntriesArray], so a pointer to an entry is
    the index of its slot; a slot that holds no entry holds the tagged index
    of the next free one.  Slot 0 holds an entry of which only [RefCount] is
    written.  [None] is undefined behaviour.  Allocation does not fail, as
    [ZEN_ASSERT] demands. *)

From stdpp Require Import gmap.
From Stdlib Require Import Ascii String.
From S2P Require Import Prelude Intx.

#[local] Open Scope Z_scope.

(** ** The symbols known in advance *)

Definition bytes_of (s : string) : list Z := (fun c => Z.of_N (N_of_ascii c)) <$> list_ascii_of_string s.

(** [common/const_strings.def]; symbol [I + 1] is the one at [I]. *)
Definition WASMInitSymbols : list (list Z) := bytes_of <$>
  ["null"; "env"; "name"; "dylink"; "GOT.func"; "wasi_unstable"; "wasi_snapshot_preview1"; "spectest"; "table";
   "memory"; "__stack_pointer"; "__user_stack_pointer"; "__memory_base"; "__table_base"; "__data_end";
   "__instrumented_use_gas"; "vnmi_init_ctx"; "vnmi_destroy_ctx"]%string.

Definition WASM_SYMBOLS_END : Z := 19.
Definition WASM_SYMBOLS_MAX : Z := 2 ^ 30 - 1.

(** ** The pool *)

Record ConstStringEntry : Type := mkEntry { RefCount : Z; Len : Z; Hash : Z; HashNext : Z; Str8 : list Z }.

Definition set_RefCount (n : Z) (e : ConstStringEntry) : ConstStringEntry :=
  mkEntry n (Len e) (Hash e) (HashNext e) (Str8 e).
Definition set_HashNext (n : Z) (e : ConstStringEntry) : ConstStringEntry :=
  mkEntry (RefCount e) (Len e) (Hash e) n (Str8 e).

Inductive Slot : Type :=
| Zeroth (RefCount : Z)
| Entry (e : ConstStringEntry)
| FreeSlot (Next : Z).

Record ConstStringPool : Type := mkPool {
  HashTableSize : Z;
  StrHashTable : option (list Z);
  EntriesCount : Z;
  EntriesSize : Z;
  EntriesArray : option (list Slot);
  FreeIndex : Z;
  RecycleIndex : Z;
}.

(** [ConstStringPool()] *)
Definition newPool : ConstStringPool := mkPool 0 None 0 0 None 0 0.

Definition isReserved (Sym : Z) : bool := Sym <? WASM_SYMBOLS_END.

(** [int32_t] *)
Definition int32 (x : Z) : option Z := if (- 2 ^ 31 <=? x) && (x <? 2 ^ 31) then Some x else None.

(** The entry in a slot. *)
Definition entryAt (E : list Slot) (I : Z) : option ConstStringEntry :=
  match E !! Z.to_nat I with Some (Entry e) => Some e | _ => None end.
Definition setSlot (E : list Slot) (I : Z) (x : Slot) : list Slot := <[Z.to_nat I := x]> E.

(** ** The table of entries *)

(** The free slots from [I] to [NewSize]. *)
Definition freeSlots (Start NewSize : Z) : list Slot :=
  (fun I => FreeSlot (if I =? NewSize - 1 then 0 else I + 1)) <$> seqZ Start (NewSize - Start).

Definition resizeEntriesArray (p : ConstStringPool) : option (bool * ConstStringPool) :=
  x ← int32 (EntriesSize p * 3);
  let NewSize := u32 (Z.quot x 2) in
  let NewSize := if NewSize <? 211 then 211 else NewSize in
  if WASM_SYMBOLS_MAX <? NewSize then Some (false, p)
  else
    let Old := default [] (EntriesArray p) in
    if EntriesSize p =? 0 then
      Some (true, mkPool (HashTableSize p) (StrHashTable p) (EntriesCount p + 1) NewSize
        (Some (Zeroth 1 :: freeSlots 1 NewSize)) 1 0)
    else
      Some (true, mkPool (HashTableSize p) (StrHashTable p) (EntriesCount p) NewSize
        (Some (Old ++ freeSlots (EntriesSize p) NewSize)) (EntriesSize p) 0).

(** FNV-1a *)
Definition getStringHash (Str : list Z) : Z :=
  fold_left (fun Hash c => u32 (Z.lxor Hash c * 16777619)) Str 2166136261.

(** [P->Hash == H && P->Len == Len && std::memcmp(P->Str8, Str, Len) == 0], with
    the [size_t] of the string *)
Definition sameString (P : ConstStringEntry) (H : Z) (Str : list Z) : bool :=
  (Hash P =? H) && (Len P =? Z.of_nat (length Str)) && bool_decide (take (length Str) (Str8 P) = Str).

(** [while (I != 0)] along a chain; 0 is the end. *)
Fixpoint findLoop (fuel : nat) (E : list Slot) (H : Z) (Str : list Z) (I : Z) : option Z :=
  if I =? 0 then Some 0
  else
    match fuel with
    | O => None
    | S fuel =>
        P ← entryAt E I;
        if sameString P H Str then Some I else findLoop fuel E H Str (HashNext P)
    end.

(** A chain has no more entries than the table. *)
Definition findString (p : ConstStringPool) (T : list Z) (E : list Slot) (H : Z) (Str : list Z) : option Z :=
  I ← T !! Z.to_nat (Z.land H (HashTableSize p - 1));
  findLoop (length E) E H Str I.

Definition probeSymbol (Str : list Z) (p : ConstStringPool) : option Z :=
  T ← StrHashTable p;
  E ← EntriesArray p;
  findString p T E (getStringHash Str) Str.

Definition holdEntry (E : list Slot) (Sym : Z) : option (list Slot) :=
  if isReserved Sym then Some E
  else
    P ← entryAt E Sym;
    n ← int32 (RefCount P + 1);
    Some (setSlot E Sym (Entry (set_RefCount n P))).

Definition set_Entries (E : list Slot) (p : ConstStringPool) : ConstStringPool :=
  mkPool (HashTableSize p) (StrHashTable p) (EntriesCount p) (EntriesSize p) (Some E) (FreeIndex p) (RecycleIndex p).

Definition findAndHoldSymbol (Str : list Z) (p : ConstStringPool) : option (Z * ConstStringPool) :=
  Ret_ ← probeSymbol Str p;
  if Ret_ =? 0 then Some (0, p)
  else
    E ← EntriesArray p;
    E' ← holdEntry E Ret_;
    Some (Ret_, set_Entries E' p).

(** ** The hash table *)

(** [while (H != 0)]: the entries of a chain go to the new table. *)
Fixpoint rehashChain (fuel : nat) (Mask : Z) (E : list Slot) (NewT : list Z) (H : Z) : option (list Slot * list Z) :=
  if H =? 0 then Some (E, NewT)
  else
    match fuel with
    | O => None
    | S fuel =>
        P ← entryAt E H;
        let J := Z.to_nat (Z.land (Hash P) Mask) in
        Next ← NewT !! J;
        rehashChain fuel Mask (setSlot E H (Entry (set_HashNext Next P))) (<[J := H]> NewT) (HashNext P)
    end.

Fixpoint rehash (Mask : Z) (T : list Z) (E : list Slot) (NewT : list Z) : option (list Slot * list Z) :=
  match T with
  | [] => Some (E, NewT)
  | H :: T => '(E', NewT') ← rehashChain (length E) Mask E NewT H; rehash Mask T E' NewT'
  end.

Definition resizeHashTbl (NewSize : Z) (p : ConstStringPool) : option ConstStringPool :=
  T ← StrHashTable p;
  E ← EntriesArray p;
  '(E', T') ← rehash (NewSize - 1) (take (Z.to_nat (HashTableSize p)) T) E (replicate (Z.to_nat NewSize) 0);
  Some (mkPool NewSize (Some T') (EntriesCount p) (EntriesSize p) (Some E') (FreeIndex p) (RecycleIndex p)).

(** ** Symbols *)

(** [Len] is a [uint32_t]; the bytes that follow are all there. *)
Definition newStringEntry (Str : list Z) : ConstStringEntry := mkEntry 1 (u32 (Z.of_nat (length Str))) 0 0 Str.

(** A new entry takes the slot [FreeIndex] and heads its chain; [Recycle] is
    whether an empty free list is replaced by the recycled slots. *)
Definition placeEntry (Recycle : bool) (Resize Hash_ : Z) (Str : list Z) (p : ConstStringPool) : option (Z * ConstStringPool) :=
  T ← StrHashTable p;
  E ← EntriesArray p;
  let Hash1 := Z.land Hash_ (HashTableSize p - 1) in
  let I := FreeIndex p in
  x ← E !! Z.to_nat I;
  match x with
  | FreeSlot Next =>
      let Free := if Recycle && (Next =? 0) then (RecycleIndex p, 0) else (Next, RecycleIndex p) in
      First ← T !! Z.to_nat Hash1;
      let New := newStringEntry Str in
      let Entry_ := mkEntry (RefCount New) (Len New) Hash_ First (Str8 New) in
      let p1 := mkPool (HashTableSize p) (Some (<[Z.to_nat Hash1 := I]> T)) (EntriesCount p + 1) (EntriesSize p)
                  (Some (setSlot E I (Entry Entry_))) Free.1 Free.2 in
      if Resize <=? EntriesCount p1 then p2 ← resizeHashTbl Resize p1; Some (I, p2) else Some (I, p1)
  | _ => None
  end.

Definition newSymbolInit (Str : list Z) (p : ConstStringPool) : option (Z * ConstStringPool) :=
  T ← StrHashTable p;
  E ← EntriesArray p;
  Resize ← int32 (HashTableSize p * 2);
  let Hash_ := getStringHash Str in
  I ← findString p T E Hash_ Str;
  if negb (I =? 0) then Some (0, p) else placeEntry false Resize Hash_ Str p.

Definition newSymbol_ (Str : list Z) (p : ConstStringPool) : option (Z * ConstStringPool) :=
  Resize ← int32 (HashTableSize p * 2);
  match StrHashTable p, EntriesArray p with
  | Some T, Some E =>
      let Hash_ := getStringHash Str in
      I ← findString p T E Hash_ Str;
      if negb (I =? 0) then E' ← holdEntry E I; Some (I, set_Entries E' p)
      else if FreeIndex p =? 0 then
        match resizeEntriesArray p with
        | Some (true, p1) => placeEntry true Resize Hash_ Str p1
        | Some (false, p1) => Some (0, p1)
        | None => None
        end
      else placeEntry true Resize Hash_ Str p
  | _, _ => Some (0, p)
  end.

(** The search for the entry before [Sym]'s, and its removal from the chain;
    the index of the entry. *)
Fixpoint unlinkLoop (fuel : nat) (E : list Slot) (Sym Index : Z) : option (list Slot) :=
  match fuel with
  | O => None
  | S fuel =>
      PrevEntry ← entryAt E Index;
      let Index' := HashNext PrevEntry in
      if Index' =? Sym then
        CurEntry ← entryAt E Index';
        Some (setSlot E Index (Entry (set_HashNext (HashNext CurEntry) PrevEntry)))
      else unlinkLoop fuel E Sym Index'
  end.

Definition freeSymbolInternal (Sym : Z) (p : ConstStringPool) : option ConstStringPool :=
  match EntriesArray p, StrHashTable p with
  | Some E, Some T =>
      x ← E !! Z.to_nat Sym;
      match x with
      | FreeSlot _ => Some p
      | Zeroth _ => None
      | Entry FreeEntry =>
          n ← int32 (RefCount FreeEntry - 1);
          let E := setSlot E Sym (Entry (set_RefCount n FreeEntry)) in
          if 0 <? n then Some (set_Entries E p)
          else
            let Hash_ := Z.to_nat (Z.land (Hash FreeEntry) (HashTableSize p - 1)) in
            Index ← T !! Hash_;
            '(E1, T1) ← (if Index =? Sym then Some (E, <[Hash_ := HashNext FreeEntry]> T)
                         else E' ← unlinkLoop (length E) E Sym Index; Some (E', T));
            let E2 := setSlot E1 Sym (FreeSlot (if negb (RecycleIndex p =? 0) then RecycleIndex p else 0)) in
            Some (mkPool (HashTableSize p) (Some T1) (EntriesCount p - 1) (EntriesSize p) (Some E2) (FreeIndex p) Sym)
      end
  | _, _ => Some p
  end.

Definition freeSymbol_ (Sym : Z) (p : ConstStringPool) : option ConstStringPool :=
  if isReserved Sym then Some p else freeSymbolInternal Sym p.

Definition getNumSymbols (p : ConstStringPool) : Z := EntriesCount p.

(** The string of a symbol, up to its length; [Some None] is [nullptr]. *)
Definition dumpSymbolString (Sym : Z) (p : ConstStringPool) : option (option (list Z)) :=
  match StrHashTable p with
  | None => Some None
  | Some _ =>
      if EntriesSize p <=? swrap 32 Sym then Some None
      else
        E ← EntriesArray p;
        x ← E !! Z.to_nat Sym;
        match x with FreeSlot _ => Some None | Entry e => Some (Some (Str8 e)) | Zeroth _ => None end
  end.

(** ** The life of a pool *)

(** The assertions of [destroyPool] on the entries that are left, from slot
    [I] on. *)
Fixpoint assertCounts (I : Z) (E : list Slot) : bool :=
  match E with
  | [] => true
  | x :: E =>
      match x with
      | FreeSlot _ => true
      | Zeroth n | Entry (mkEntry n _ _ _ _) =>
          ((I <? WASM_SYMBOLS_END) && (n =? 1)) || ((WASM_SYMBOLS_END <=? I) && (n =? 0))
      end && assertCounts (I + 1) E
  end.

Definition destroyPool (p : ConstStringPool) : option ConstStringPool :=
  match EntriesArray p with
  | Some E => if assertCounts 0 E
              then Some (mkPool (HashTableSize p) None (EntriesCount p) (EntriesSize p) None (FreeIndex p) (RecycleIndex p))
              else None
  | None => Some (mkPool (HashTableSize p) None (EntriesCount p) (EntriesSize p) None (FreeIndex p) (RecycleIndex p))
  end.

(** The reserved symbols, one after the other. *)
Fixpoint initSymbols (l : list (list Z)) (p : ConstStringPool) : option (bool * ConstStringPool) :=
  match l with
  | [] => Some (true, p)
  | Str :: l =>
      '(Sym, p1) ← newSymbolInit Str p;
      if Sym =? 0 then p' ← destroyPool p1; Some (false, p') else initSymbols l p1
  end.

Definition initPool (p : ConstStringPool) : option (bool * ConstStringPool) :=
  match StrHashTable p with
  | Some _ => Some (true, p)
  | None =>
      let p1 := mkPool 128 (Some (replicate 128 0)) 0 0 None 0 (RecycleIndex p) in
      match resizeEntriesArray p1 with
      | Some (true, p2) => initSymbols WASMInitSymbols p2
      | Some (false, p2) => p' ← destroyPool p2; Some (false, p')
      | None => None
      end
  end.

Definition initialPool : ConstStringPool := default newPool (snd <$> initPool newPool).
