(* ===== verification/ConstStringPoolInv.v ===== *)
(** The representation of a pool of symbols: chains of a hash table, a free
    list and a list of recycled slots, all threaded through one array. *)

From stdpp Require Import gmap.
From S2P Require Import Prelude Intx ConstStringPool.

#[local] Open Scope Z_scope.

(** ** Slots *)

Lemma entryAt_Some E i e : entryAt E i = Some e <-> E !! Z.to_nat i = Some (Entry e).
Proof. unfold entryAt. destruct (E !! _) as [[]|]; naive_solver. Qed.

Lemma entryAt_set E i j x :
  0 <= i -> (Z.to_nat i < length E)%nat -> 0 <= j ->
  entryAt (setSlot E i x) j = if decide (i = j) then match x with Entry e => Some e | _ => None end else entryAt E j.
Proof.
  intros Hi Hl Hj. unfold entryAt, setSlot. destruct (decide (i = j)) as [->|Hne].
  - rewrite list_lookup_insert_eq by done. by destruct x.
  - by rewrite list_lookup_insert_ne by lia.
Qed.

Lemma entryAt_set_eq E i e : (Z.to_nat i < length E)%nat -> entryAt (setSlot E i (Entry e)) i = Some e.
Proof. intros Hl. unfold entryAt, setSlot. by rewrite list_lookup_insert_eq. Qed.

Lemma entryAt_set_ne E i j x : Z.to_nat i <> Z.to_nat j -> entryAt (setSlot E i x) j = entryAt E j.
Proof. intros Hl. unfold entryAt, setSlot. by rewrite list_lookup_insert_ne. Qed.

Lemma entryAt_lt E i e : entryAt E i = Some e -> (Z.to_nat i < length E)%nat.
Proof. intros H%entryAt_Some. by apply lookup_lt_Some in H. Qed.

Lemma length_setSlot E i x : length (setSlot E i x) = length E.
Proof. apply length_insert. Qed.

(** Slot 0 is never free nor an entry. *)
Definition zeroth (E : list Slot) : Prop := exists n, E !! 0%nat = Some (Zeroth n).

Lemma entryAt_pos E i e : zeroth E -> entryAt E i = Some e -> 0 < i.
Proof.
  intros [n Hn] He%entryAt_Some. destruct (Z.to_nat i) eqn:Ei; [congruence|lia].
Qed.

(** The number of entries. *)
Definition is_entry (x : Slot) : Prop := match x with Entry _ => True | _ => False end.
#[export] Instance is_entry_dec x : Decision (is_entry x).
Proof. destruct x; cbn; apply _. Defined.
Definition live (E : list Slot) : nat := length (filter is_entry E).

Lemma live_set E i x y :
  E !! i = Some y ->
  (live (<[i := x]> E) + (if decide (is_entry y) then 1 else 0) = live E + (if decide (is_entry x) then 1 else 0))%nat.
Proof.
  intros Hi. rewrite <- (take_drop_middle E i y Hi) at 2. rewrite (insert_take_drop E i x) by (by eapply lookup_lt_Some).
  unfold live. rewrite !list.filter_app, !length_app, !filter_cons.
  repeat destruct (decide _); cbn; lia.
Qed.

(** ** Chains *)

Fixpoint linked (E : list Slot) (h : Z) (c : list Z) : Prop :=
  match c with
  | [] => h = 0
  | i :: c => h = i /\ i <> 0 /\ exists e, entryAt E i = Some e /\ linked E (HashNext e) c
  end.

Lemma linked_frame E E' h c :
  (forall i, i ∈ c -> HashNext <$> entryAt E' i = HashNext <$> entryAt E i) -> linked E h c -> linked E' h c.
Proof.
  revert h. induction c as [|i c IH]; intros h Hsame; cbn [linked]; [done|]. intros (-> & Hi & e & He & Hc).
  split_and!; [done|done|]. pose proof (Hsame i ltac:(set_solver)) as Hn. rewrite He in Hn.
  destruct (entryAt E' i) as [e'|] eqn:He'; [|done]. cbn in Hn. injection Hn as Hn. exists e'. split; [done|].
  rewrite Hn. apply IH; [|done]. set_solver.
Qed.

Lemma linked_in E h c i : linked E h c -> i ∈ c -> i <> 0 /\ exists e, entryAt E i = Some e.
Proof.
  revert h. induction c as [|j c IH]; intros h; cbn [linked]; [set_solver|]. intros (-> & Hj & e & He & Hc).
  intros [->|Hi]%elem_of_cons; [by eauto|]. by eapply IH.
Qed.

Lemma linked_head E h c : linked E h c -> h = default 0 (head c).
Proof. destruct c; cbn; [done|]. by intros (-> & _). Qed.

Fixpoint free_list (E : list Slot) (h : Z) (l : list Z) : Prop :=
  match l with
  | [] => h = 0
  | i :: l => h = i /\ 0 < i /\ exists n, E !! Z.to_nat i = Some (FreeSlot n) /\ free_list E n l
  end.

Lemma free_list_frame E E' h l :
  (forall i n, i ∈ l -> E !! Z.to_nat i = Some (FreeSlot n) -> E' !! Z.to_nat i = Some (FreeSlot n)) ->
  free_list E h l -> free_list E' h l.
Proof.
  revert h. induction l as [|i l IH]; intros h Hsame; cbn [free_list]; [done|]. intros (-> & Hi & n & Hn & Hl).
  split_and!; [done|done|]. exists n. split; [apply Hsame; [set_solver|done]|]. apply IH; [|done]. set_solver.
Qed.

Lemma free_list_in E h l i : free_list E h l -> i ∈ l -> 0 < i /\ exists n, E !! Z.to_nat i = Some (FreeSlot n).
Proof.
  revert h. induction l as [|j l IH]; intros h; cbn [free_list]; [set_solver|]. intros (-> & Hj & n & Hn & Hl).
  intros [->|Hi]%elem_of_cons; [by eauto|]. by eapply IH.
Qed.

Lemma free_list_det E h l l' : free_list E h l -> free_list E h l' -> l = l'.
Proof.
  revert h l'. induction l as [|i l IH]; intros h [|i' l']; cbn [free_list]; [done| | |].
  - intros -> (? & ? & _). lia.
  - intros (-> & ? & _) ?. lia.
  - intros (-> & _ & n & Hn & Hl) (<- & _ & n' & Hn' & Hl'). rewrite Hn in Hn'. injection Hn' as <-.
    f_equal. by eapply IH.
Qed.

(** A list without repetitions of slots is no longer than the array. *)
Lemma slots_length n (c : list Z) : NoDup c -> (forall i, i ∈ c -> 0 <= i < Z.of_nat n) -> (length c <= n)%nat.
Proof.
  intros Hnd Hc. replace n with (length (seqZ 0 (Z.of_nat n))) by (rewrite length_seqZ; lia).
  apply submseteq_length, NoDup_submseteq; [done|]. intros i Hi. apply elem_of_seqZ. specialize (Hc i Hi). lia.
Qed.

(** ** The hash table *)

Definition bucket (size : Z) (e : ConstStringEntry) : nat := Z.to_nat (Z.land (Hash e) (size - 1)).

(** The chains [cs] of the table [T] hold the entries of [D]. *)
Record buckets (D : Z -> Prop) (E : list Slot) (T : list Z) (cs : list (list Z)) (size : Z) : Prop := {
  bu_len : length cs = length T;
  bu_chain : forall b h c, T !! b = Some h -> cs !! b = Some c -> linked E h c /\ NoDup c;
  bu_in : forall b c i, cs !! b = Some c -> i ∈ c -> D i /\ exists e, entryAt E i = Some e /\ bucket size e = b;
  bu_all : forall i e, entryAt E i = Some e -> D i -> exists c, cs !! bucket size e = Some c /\ i ∈ c;
}.

Lemma buckets_empty E size n : buckets (fun _ => False) E (replicate n 0) (replicate n []) size.
Proof.
  split.
  - by rewrite !length_replicate.
  - intros b h c [-> _]%lookup_replicate [-> _]%lookup_replicate. split; [done|constructor].
  - intros b c i [-> _]%lookup_replicate Hi. by apply elem_of_nil in Hi.
  - done.
Qed.

(** An entry is put at the head of its chain. *)
Lemma buckets_push D E T cs size i e h :
  buckets D E T cs size -> 0 < i -> (Z.to_nat i < length E)%nat -> ~ D i -> (forall j, D j -> 0 < j) ->
  T !! bucket size e = Some h -> HashNext e = h ->
  exists c, cs !! bucket size e = Some c /\
  buckets (fun j => D j \/ j = i) (setSlot E i (Entry e)) (<[bucket size e := i]> T) (<[bucket size e := i :: c]> cs) size.
Proof.
  intros [Hlen Hchain Hin Hall] Hi Hl HD Hpos Hh Hnext. set (b := bucket size e) in *.
  assert (b < length T)%nat as Hb by (by eapply lookup_lt_Some).
  destruct (lookup_lt_is_Some_2 cs b) as [c Hc]; [lia|]. exists c. split; [done|].
  assert (i ∉ c) as Hic by (intros H; by destruct (Hin b c i Hc H)).
  assert (forall j, D j -> entryAt (setSlot E i (Entry e)) j = entryAt E j) as Hsame.
  { intros j Hj. apply entryAt_set_ne. assert (j <> i) by (by intros ->). specialize (Hpos j Hj). lia. }
  assert (forall b' c' h', cs !! b' = Some c' -> linked E h' c' -> linked (setSlot E i (Entry e)) h' c') as Hfr.
  { intros b' c' h' Hc' Hl'. eapply linked_frame; [|exact Hl']. intros j Hj. by rewrite Hsame by (by eapply Hin). }
  split.
  - by rewrite !length_insert.
  - intros b' h' c' Hh' Hc'. destruct (decide (b' = b)) as [->|Hne].
    + rewrite list_lookup_insert_eq in Hh' by lia. rewrite list_lookup_insert_eq in Hc' by lia. injection Hh' as <-. injection Hc' as <-.
      destruct (Hchain _ _ _ Hh Hc) as [Hlk Hnd]. split; [|by constructor]. cbn [linked]. split_and!; [done|lia|].
      exists e. split; [by apply entryAt_set_eq|]. rewrite Hnext. by eapply Hfr.
    + rewrite list_lookup_insert_ne in Hh' by done. rewrite list_lookup_insert_ne in Hc' by done. destruct (Hchain _ _ _ Hh' Hc') as [Hlk Hnd]. split; [|done].
      by eapply Hfr.
  - intros b' c' j Hc' Hj. assert (j = i /\ b' = b \/ exists c0, cs !! b' = Some c0 /\ j ∈ c0) as [[-> ->]|(c0 & Hc0 & Hj0)].
    { destruct (decide (b' = b)) as [->|Hne].
      - rewrite list_lookup_insert_eq in Hc' by lia. injection Hc' as <-. apply elem_of_cons in Hj as [->|Hj]; eauto.
      - rewrite list_lookup_insert_ne in Hc' by done. eauto. }
    + split; [by right|]. exists e. split; [by apply entryAt_set_eq|done].
    + destruct (Hin _ _ _ Hc0 Hj0) as (HDj & e' & He' & Hb'). split; [by left|]. exists e'. split; [|done].
      by rewrite Hsame.
  - intros j ej Hej [HDj| ->].
    + rewrite Hsame in Hej by done. destruct (Hall _ _ Hej HDj) as (c' & Hc' & Hj).
      destruct (decide (bucket size ej = b)) as [Eb|Hne].
      * rewrite Eb in *. rewrite list_lookup_insert_eq by lia. eexists. split; [done|]. apply elem_of_cons. right. congruence.
      * rewrite list_lookup_insert_ne by done. eauto.
    + rewrite entryAt_set_eq in Hej by done. injection Hej as <-. fold b. rewrite list_lookup_insert_eq by lia.
      eexists. split; [done|]. by apply elem_of_cons; left.
Qed.

Lemma bucket_lt size e n : (exists k, 0 <= k /\ size = 2 ^ k) -> Z.of_nat n = size -> (bucket size e < n)%nat.
Proof.
  intros (k & Hk & ->) Hn. unfold bucket.
  replace (2 ^ k - 1) with (Z.ones k) by (rewrite Z.ones_equiv; lia). rewrite Z.land_ones by done.
  pose proof (Z.mod_pos_bound (Hash e) (2 ^ k)). lia.
Qed.

(** ** Arrays that differ in [HashNext] only *)

Definition erase (x : Slot) : Slot := match x with Entry e => Entry (set_HashNext 0 e) | _ => x end.
Definition relinked (E E' : list Slot) : Prop := erase <$> E' = erase <$> E.

Lemma relinked_length E E' : relinked E E' -> length E' = length E.
Proof. intros H. apply (f_equal length) in H. by rewrite !length_fmap in H. Qed.

Lemma relinked_lookup E E' i x : relinked E E' -> E !! i = Some x -> exists x', E' !! i = Some x' /\ erase x' = erase x.
Proof.
  intros H Hx. apply (f_equal (fun l => l !! i)) in H. rewrite !list_lookup_fmap, Hx in H.
  destruct (E' !! i) as [x'|]; [|done]. exists x'. split; [done|]. by injection H.
Qed.

Lemma relinked_entry E E' i e :
  relinked E E' -> entryAt E i = Some e -> exists e', entryAt E' i = Some e' /\ set_HashNext 0 e' = set_HashNext 0 e.
Proof.
  intros H He%entryAt_Some. destruct (relinked_lookup _ _ _ _ H He) as ([|e'|] & Hx & Ex); try done.
  injection Ex as E1 E2 E3 E4. exists e'. split; [by apply entryAt_Some|]. unfold set_HashNext. by rewrite E1, E2, E3, E4.
Qed.

Lemma relinked_free E E' i n : relinked E E' -> E !! i = Some (FreeSlot n) -> E' !! i = Some (FreeSlot n).
Proof. intros H Hx. destruct (relinked_lookup _ _ _ _ H Hx) as ([|?|?] & Hx' & Ex); try done. by injection Ex as ->. Qed.

Lemma relinked_zeroth E E' : relinked E E' -> zeroth E -> zeroth E'.
Proof. intros H [n Hn]. destruct (relinked_lookup _ _ _ _ H Hn) as ([|?|?] & Hx' & Ex); try done. by eexists. Qed.

Lemma live_erase E : live (erase <$> E) = live E.
Proof.
  unfold live. induction E as [|x E IH]; [done|]. rewrite fmap_cons, !filter_cons.
  destruct x; cbn; repeat destruct (decide _); try done; cbn; lia.
Qed.
Lemma relinked_live E E' : relinked E E' -> live E' = live E.
Proof. intros H. by rewrite <- (live_erase E), <- (live_erase E'), H. Qed.

Lemma relinked_set E i e n : entryAt E i = Some e -> relinked E (setSlot E i (Entry (set_HashNext n e))).
Proof.
  intros He%entryAt_Some. unfold relinked, setSlot. rewrite list_fmap_insert. apply list_insert_id.
  by rewrite list_lookup_fmap, He.
Qed.

Lemma relinked_trans E1 E2 E3 : relinked E1 E2 -> relinked E2 E3 -> relinked E1 E3.
Proof. unfold relinked. congruence. Qed.
Lemma relinked_sym E1 E2 : relinked E1 E2 -> relinked E2 E1.
Proof. unfold relinked. congruence. Qed.

(** ** Rehashing *)

Lemma buckets_dom_live (D D' : Z -> Prop) E T cs size :
  (forall i e, entryAt E i = Some e -> D i <-> D' i) -> buckets D E T cs size -> buckets D' E T cs size.
Proof.
  intros HD [H1 H2 H3 H4]. split; [done|done| |].
  - intros b c i Hc Hi. destruct (H3 _ _ _ Hc Hi) as (? & e & He & ?). rewrite <- HD; eauto.
  - intros i e He. rewrite <- HD by done. by apply H4.
Qed.

Lemma buckets_dom (D D' : Z -> Prop) E T cs size :
  (forall i, D i <-> D' i) -> buckets D E T cs size -> buckets D' E T cs size.
Proof. intros HD. by apply buckets_dom_live. Qed.

Section Rehash.
Context (size : Z) (Hsize : exists k, 0 <= k /\ size = 2 ^ k).

Lemma rehashChain_spec c : forall fuel E NT H ncs (D : Z -> Prop),
  zeroth E -> linked E H c -> NoDup c -> (forall i, i ∈ c -> ~ D i) -> (forall i, D i -> 0 < i) -> (length c <= fuel)%nat ->
  buckets D E NT ncs size -> Z.of_nat (length NT) = size ->
  exists E' NT' ncs', rehashChain fuel (size - 1) E NT H = Some (E', NT') /\
    buckets (fun i => D i \/ i ∈ c) E' NT' ncs' size /\ relinked E E' /\ Z.of_nat (length NT') = size /\
    (forall i, 0 < i -> i ∉ c -> entryAt E' i = entryAt E i).
Proof.
  induction c as [|h c IH]; intros fuel E NT H ncs D Hz Hl Hnd HD Hpos Hf Hb HNT; cbn [linked] in Hl.
  { subst H. exists E, NT, ncs. split_and!; try done; [by destruct fuel|].
    eapply buckets_dom; [|exact Hb]. intros i. rewrite elem_of_nil. tauto. }
  destruct Hl as (-> & Hh & e & He & Hl). destruct fuel as [|fuel]; [cbn in Hf; lia|]. cbn [rehashChain].
  rewrite (proj2 (Z.eqb_neq h 0) Hh), He. cbn [mbind option_bind]. change (Z.to_nat (Z.land (Hash e) (size - 1))) with (bucket size e).
  destruct (lookup_lt_is_Some_2 NT (bucket size e)) as [first Hfirst]; [by apply bucket_lt|]. rewrite Hfirst. cbn [mbind option_bind].
  pose proof (entryAt_pos _ _ _ Hz He) as Hhpos. apply list.NoDup_cons in Hnd as [Hhc Hnd].
  destruct (buckets_push D E NT ncs size h (set_HashNext first e) first) as (c0 & Hc0 & Hb'); try done.
  { by eapply entryAt_lt. } { apply HD, elem_of_cons. by left. }
  set (E1 := setSlot E h _) in *. assert (relinked E E1) as Hr1 by (by apply relinked_set).
  assert (forall i, 0 < i -> i <> h -> entryAt E1 i = entryAt E i) as Hsame by (intros i Hi Hne; apply entryAt_set_ne; lia).
  pose proof (fun H1 H2 H3 H4 H5 => IH fuel E1 _ (HashNext e) _ _ (relinked_zeroth _ _ Hr1 Hz) H1 H2 H3 H4 H5 Hb') as IH'.
  destruct IH' as (E' & NT' & ncs' & Ereh & HbE & Hr & HlT & Hsm); clear IH.
  - eapply linked_frame; [|exact Hl]. intros i Hi. destruct (linked_in _ _ _ _ Hl Hi) as [_ [ei Hei]].
    rewrite Hsame; [done|by eapply entryAt_pos|]. by intros ->.
  - done.
  - intros i Hi [HDi| ->]; [|done]. apply (HD i); [|done]. apply elem_of_cons. by right.
  - intros i [Hi| ->]; auto.
  - cbn in Hf. lia.
  - by rewrite length_insert.
  - exists E', NT', ncs'. split_and!; try done; [|by eapply relinked_trans|].
    + eapply buckets_dom; [|exact HbE]. intros i. rewrite elem_of_cons. tauto.
    + intros i Hi [Hne Hin]%not_elem_of_cons. by rewrite Hsm, Hsame.
Qed.

Lemma rehash_spec T : forall cs E NT ncs (D : Z -> Prop),
  zeroth E -> Forall2 (linked E) T cs -> NoDup (mjoin cs) -> (forall i, i ∈ mjoin cs -> ~ D i) -> (forall i, D i -> 0 < i) ->
  buckets D E NT ncs size -> Z.of_nat (length NT) = size ->
  exists E' NT' ncs', rehash (size - 1) T E NT = Some (E', NT') /\
    buckets (fun i => D i \/ i ∈ mjoin cs) E' NT' ncs' size /\ relinked E E' /\ Z.of_nat (length NT') = size.
Proof.
  induction T as [|H T IH]; intros cs E NT ncs D Hz Hall Hnd HD Hpos Hb HNT; cbn [rehash].
  { apply Forall2_nil_inv_l in Hall as ->. exists E, NT, ncs. split_and!; try done.
    eapply buckets_dom; [|exact Hb]. intros i. change (mjoin []) with (@nil Z). rewrite elem_of_nil. tauto. }
  apply Forall2_cons_inv_l in Hall as (c & cs' & Hc & Hcs & ->).
  change (mjoin (c :: cs')) with (c ++ mjoin cs') in *. apply list.NoDup_app in Hnd as (Hnd1 & Hdis & Hnd2).
  destruct (rehashChain_spec c (length E) E NT H ncs D) as (E1 & NT1 & ncs1 & -> & Hb1 & Hr1 & HT1 & Hsame); try done.
  { intros i Hi. apply HD, elem_of_app. by left. }
  { apply slots_length; [done|]. intros i Hi. destruct (linked_in _ _ _ _ Hc Hi) as [_ [e He]].
    pose proof (entryAt_pos _ _ _ Hz He). apply entryAt_lt in He. lia. }
  cbn [mbind option_bind].
  pose proof (fun H1 H2 H3 H4 => IH cs' E1 NT1 ncs1 _ (relinked_zeroth _ _ Hr1 Hz) H1 H2 H3 H4 Hb1) as IH'.
  destruct IH' as (E2 & NT2 & ncs2 & Ereh & Hb2 & Hr2 & HT2); clear IH.
  - apply Forall2_same_length_lookup. split; [by eapply Forall2_length|]. intros j h' c' Hh' Hc'.
    pose proof (Forall2_lookup_lr _ _ _ _ _ _ Hcs Hh' Hc') as Hl'. eapply linked_frame; [|exact Hl']. intros i Hi.
    destruct (linked_in _ _ _ _ Hl' Hi) as [_ [e He]]. rewrite Hsame; [done|by eapply entryAt_pos|].
    intros Hic. apply (Hdis i Hic). apply list_elem_of_join. exists c'. split; [done|]. by eapply list_elem_of_lookup_2.
  - done.
  - intros i Hi [HDi|Hic]; [|by eapply Hdis]. apply (HD i); [|done]. apply elem_of_app. by right.
  - intros i [Hi|Hi]; [by auto|]. destruct (linked_in _ _ _ _ Hc Hi) as [_ [e He]]. by eapply entryAt_pos.
  - done.
  - exists E2, NT2, ncs2. split_and!; try done; [|by eapply relinked_trans].
    eapply buckets_dom; [|exact Hb2]. intros i. rewrite elem_of_app. tauto.
Qed.
End Rehash.

(** ** Removal *)

Lemma unlinkLoop_spec c1 : forall fuel E Sym Index i c2,
  zeroth E -> linked E Index (i :: c1 ++ Sym :: c2) -> NoDup (i :: c1 ++ Sym :: c2) -> (S (length c1) <= fuel)%nat ->
  exists E', unlinkLoop fuel E Sym Index = Some E' /\ relinked E E' /\ linked E' Index (i :: c1 ++ c2) /\
    (forall j, 0 < j -> j ∉ i :: c1 -> entryAt E' j = entryAt E j).
Proof.
  induction c1 as [|i2 c1 IH]; intros fuel E Sym Index i c2 Hz Hl Hnd Hf; (destruct fuel as [|fuel]; [lia|]);
    cbn [app linked] in Hl; destruct Hl as (-> & Hi & e & He & Hl); cbn [unlinkLoop]; rewrite He; cbn [mbind option_bind];
    pose proof (entryAt_pos _ _ _ Hz He) as Hipos; apply list.NoDup_cons in Hnd as [Hic Hnd].
  - destruct Hl as (E1 & Hs & eS & HeS & Hl). rewrite E1, Z.eqb_refl, HeS. cbn [mbind option_bind]. eexists. split; [done|].
    assert (forall j, 0 < j -> j ∉ [i] -> entryAt (setSlot E i (Entry (set_HashNext (HashNext eS) e))) j = entryAt E j) as Hsame.
    { intros j Hj [Hne _]%not_elem_of_cons. apply entryAt_set_ne. lia. }
    split_and!; [by apply relinked_set| |done]. cbn [linked app]. split_and!; [done|done|].
    eexists. split; [apply entryAt_set_eq; by eapply entryAt_lt|]. cbn [HashNext set_HashNext].
    eapply linked_frame; [|exact Hl]. intros j Hj. destruct (linked_in _ _ _ _ Hl Hj) as [_ [ej Hej]].
    rewrite Hsame; [done|by eapply entryAt_pos|]. intros ->%list_elem_of_singleton. apply Hic. cbn. apply elem_of_cons. by right.
  - assert (HashNext e = i2) as E1 by apply Hl. rewrite E1 in *. apply list.NoDup_cons in Hnd as Hnd2. destruct Hnd2 as [Hi2 _].
    rewrite (proj2 (Z.eqb_neq i2 Sym)) by (intros ->; apply Hi2; apply elem_of_app; right; by left).
    destruct (IH fuel E Sym i2 i2 c2 Hz Hl Hnd) as (E' & -> & Hr & Hl' & Hsame); [cbn in Hf; lia|].
    exists E'. split_and!; [done|done| |].
    + change ((i2 :: c1) ++ c2) with (i2 :: c1 ++ c2). cbn [linked]. split_and!; [done|done|]. exists e. split; [|by rewrite E1].
      rewrite Hsame; [done|done|]. intros Hin. apply Hic. cbn in *. apply elem_of_cons in Hin as [->|Hin]; [by left|].
      right. apply elem_of_app. by left.
    + intros j Hj [_ Hn]%not_elem_of_cons. by apply Hsame.
Qed.

Lemma buckets_remove E T cs size b c1 c2 Sym h' E' T' :
  buckets (fun i => 0 < i) E T cs size -> cs !! b = Some (c1 ++ Sym :: c2) -> zeroth E' ->
  (forall j, 0 < j -> j <> Sym -> set_HashNext 0 <$> entryAt E' j = set_HashNext 0 <$> entryAt E j) ->
  (forall j, 0 < j -> j ∉ c1 -> j <> Sym -> entryAt E' j = entryAt E j) ->
  entryAt E' Sym = None -> T' !! b = Some h' -> linked E' h' (c1 ++ c2) -> (forall b', b' <> b -> T' !! b' = T !! b') ->
  length T' = length T ->
  buckets (fun i => 0 < i) E' T' (<[b := c1 ++ c2]> cs) size.
Proof.
  intros [Hlen Hchain Hin Hall] Hb Hz Hkey Hsame Hgone Hh' Hl' HT' HlT.
  pose proof (lookup_lt_Some _ _ _ Hb) as Hbl. destruct (lookup_lt_is_Some_2 T b) as [h Hh]; [lia|].
  destruct (Hchain _ _ _ Hh Hb) as [_ Hnd]. apply list.NoDup_app in Hnd as (Hnd1 & Hdis & Hnd2).
  apply list.NoDup_cons in Hnd2 as [Hs2 Hnd2].
  assert (forall j, j ∈ c1 ++ c2 -> j <> Sym /\ j ∈ c1 ++ Sym :: c2) as Hsub.
  { intros j Hj. apply elem_of_app in Hj as [Hj|Hj]; (split; [|apply elem_of_app]).
    - intros ->. apply (Hdis Sym Hj). by left.
    - by left.
    - by intros ->.
    - right. by right. }
  assert (forall b' c i, cs !! b' = Some c -> i ∈ c -> i <> Sym ->
    0 < i /\ exists e, entryAt E' i = Some e /\ bucket size e = b') as Hin'.
  { intros b' c i Hc Hi Hne. destruct (Hin _ _ _ Hc Hi) as (Hpos & e & He & Hbe). split; [done|].
    specialize (Hkey i Hpos Hne). rewrite He in Hkey. destruct (entryAt E' i) as [e'|]; [|done]. exists e'. split; [done|].
    rewrite <- Hbe. unfold bucket. injection Hkey as _ _ -> _. done. }
  split.
  - by rewrite length_insert, HlT.
  - intros b' x c Hx Hc. destruct (decide (b' = b)) as [->|Hne].
    + rewrite list_lookup_insert_eq in Hc by done. injection Hc as <-. rewrite Hh' in Hx. injection Hx as <-.
      split; [done|]. apply list.NoDup_app. split_and!; [done| |done]. intros j Hj1 Hj2. apply (Hdis j Hj1). by right.
    + rewrite list_lookup_insert_ne in Hc by done. rewrite HT' in Hx by done. destruct (Hchain _ _ _ Hx Hc) as [Hl Hndc].
      split; [|done]. eapply linked_frame; [|exact Hl]. intros j Hj. destruct (Hin _ _ _ Hc Hj) as (Hpos & e & He & Hbe).
      assert (j ∉ c1 ++ Sym :: c2) as Hnot.
      { intros Hj'. destruct (Hin _ _ _ Hb Hj') as (_ & e' & He' & Hbe'). congruence. }
      rewrite elem_of_app, elem_of_cons in Hnot. rewrite Hsame; [done|done|tauto|tauto].
  - intros b' c i Hc Hi. destruct (decide (b' = b)) as [->|Hne].
    + rewrite list_lookup_insert_eq in Hc by done. injection Hc as <-. destruct (Hsub i Hi). by eapply Hin'.
    + rewrite list_lookup_insert_ne in Hc by done. eapply Hin'; [done|done|]. intros ->.
      destruct (Hin _ _ _ Hc Hi) as (_ & e & He & Hbe). destruct (Hin b _ Sym Hb) as (_ & e' & He' & Hbe'); [|congruence].
      apply elem_of_app. right. by left.
  - intros i e' He' Hpos. assert (i <> Sym) as Hne by (intros ->; congruence). specialize (Hkey i Hpos Hne). rewrite He' in Hkey.
    destruct (entryAt E i) as [e|] eqn:He; [|done]. assert (Hash e' = Hash e) as Eh by (by injection Hkey).
    destruct (Hall i e He Hpos) as (c & Hc & Hi). unfold bucket in *. rewrite Eh.
    set (b' := Z.to_nat _) in *. destruct (decide (b' = b)) as [Eb|Hnb].
    + rewrite Eb in *. rewrite list_lookup_insert_eq by done. eexists. split; [done|]. rewrite Hb in Hc. injection Hc as <-.
      rewrite elem_of_app, elem_of_cons in Hi. apply elem_of_app. tauto.
    + rewrite list_lookup_insert_ne by done. eauto.
Qed.
