(* ===== verification/ConstStringPoolCorrect.v ===== *)
(** The pool of symbols is correct: what each operation does to a pool that is
    well-formed, and that it stays so. *)

From stdpp Require Import gmap.
From S2P Require Import Prelude Intx ConstStringPool ConstStringPoolInv.

#[local] Open Scope Z_scope.

(** ** Well-formed pools *)

(** A string whose length the 32 bits of an entry can hold. *)
Definition short (str : list Z) : Prop := Z.of_nat (length str) < 2 ^ 32.

Definition entry_wf (e : ConstStringEntry) : Prop :=
  Hash e = getStringHash (Str8 e) /\ Len e = u32 (Z.of_nat (length (Str8 e))) /\ 1 <= RefCount e < 2 ^ 31.

Record rep (p : ConstStringPool) (E : list Slot) (T : list Z) (cs : list (list Z)) (fl rl : list Z) : Prop := {
  r_T : StrHashTable p = Some T;
  r_E : EntriesArray p = Some E;
  r_size : exists k, 0 <= k /\ HashTableSize p = 2 ^ k;
  r_lenT : Z.of_nat (length T) = HashTableSize p;
  r_lenE : Z.of_nat (length E) = EntriesSize p;
  r_zero : zeroth E;
  r_entries : forall i e, entryAt E i = Some e -> entry_wf e;
  r_table : buckets (fun i => 0 < i) E T cs (HashTableSize p);
  r_distinct : forall i j e e', 0 < i -> 0 < j -> entryAt E i = Some e -> entryAt E j = Some e' ->
    short (Str8 e) -> Str8 e = Str8 e' -> i = j;
  r_free : free_list E (FreeIndex p) fl;
  r_recycle : free_list E (RecycleIndex p) rl;
  r_nodup : NoDup (fl ++ rl);
  r_count : EntriesCount p = 1 + Z.of_nat (live E);
  r_max : EntriesSize p <= WASM_SYMBOLS_MAX;
}.

(** ** Lookup *)

Lemma sameString_found e Str : entry_wf e -> sameString e (getStringHash Str) Str = true -> short (Str8 e) -> Str8 e = Str.
Proof.
  intros (_ & Hl & _) [[_ E1%Z.eqb_eq]%andb_true_iff E2%bool_decide_eq_true]%andb_true_iff Hs. unfold short in Hs.
  rewrite Hl, (wrap_small 32) in E1 by (unfold in_u; lia). by rewrite take_ge in E2 by lia.
Qed.
Lemma sameString_self e Str : entry_wf e -> short Str -> Str8 e = Str -> sameString e (getStringHash Str) Str = true.
Proof.
  intros (Hh & Hl & _) Hs <-. unfold sameString, short in *. rewrite Hh, Hl, (wrap_small 32), !Z.eqb_refl by (unfold in_u; lia).
  by rewrite bool_decide_true by apply firstn_all.
Qed.

(** A longer string is never found again. *)
Lemma sameString_long e H Str : entry_wf e -> ~ short Str -> sameString e H Str = false.
Proof.
  intros (_ & Hl & _) Hs. unfold sameString, short in *. pose proof (wrap_range 32 (Z.of_nat (length (Str8 e))) ltac:(lia)) as Hr.
  unfold in_u in Hr. rewrite Hl, (proj2 (Z.eqb_neq _ (Z.of_nat (length Str)))) by lia. by rewrite andb_false_r.
Qed.

(** What a search for a string finds among the entries of [c]. *)
Definition found (E : list Slot) (Str : list Z) (dom : Z -> Prop) (k : Z) : Prop :=
  (k = 0 /\ forall i e, 0 < i -> dom i -> entryAt E i = Some e -> short Str -> Str8 e <> Str) \/
  (0 < k /\ exists e, entryAt E k = Some e /\ (short (Str8 e) -> Str8 e = Str)).

Lemma findLoop_spec E Str c : forall fuel h,
  zeroth E -> (forall i e, entryAt E i = Some e -> entry_wf e) -> linked E h c -> (length c <= fuel)%nat ->
  exists k, findLoop fuel E (getStringHash Str) Str h = Some k /\ found E Str (fun i => i ∈ c) k.
Proof.
  induction c as [|i c IH]; intros fuel h Hz Hwf Hl Hf; cbn [linked] in Hl.
  - subst h. exists 0. split; [by destruct fuel|]. left. split; [done|]. by intros i e _ Hi%elem_of_nil.
  - destruct Hl as (-> & Hi & e & He & Hl). destruct fuel as [|fuel]; [cbn in Hf; lia|]. cbn [findLoop].
    rewrite (proj2 (Z.eqb_neq i 0) Hi), He. cbn [mbind option_bind]. destruct (sameString e _ Str) eqn:Es.
    + exists i. split; [done|]. right. split; [by eapply entryAt_pos|]. exists e. split; [done|]. by apply sameString_found; [eauto|].
    + destruct (IH fuel (HashNext e) Hz Hwf Hl) as (k & Hk & Hfound); [cbn in Hf; lia|]. exists k. split; [done|].
      destruct Hfound as [[-> Hno]|?]; [left|by right]. split; [done|]. intros j ej Hpos Hj Hej Hs Eq.
      apply elem_of_cons in Hj as [->|Hj]; [|by eapply Hno].
      assert (ej = e) as -> by congruence. by rewrite sameString_self in Es by eauto.
Qed.

Lemma chain_length E T cs size b c :
  zeroth E -> buckets (fun i => 0 < i) E T cs size -> cs !! b = Some c -> (length c <= length E)%nat.
Proof.
  intros Hz [Hlen Hchain Hin _] Hc. destruct (lookup_lt_is_Some_2 T b) as [h Hh]; [apply lookup_lt_Some in Hc; lia|].
  destruct (Hchain _ _ _ Hh Hc) as [_ Hnd]. apply slots_length; [done|]. intros i Hi.
  destruct (Hin _ _ _ Hc Hi) as (? & e & He & _). apply entryAt_lt in He. lia.
Qed.

Lemma hash_bucket_lt p E T cs fl rl Str :
  rep p E T cs fl rl -> (Z.to_nat (Z.land (getStringHash Str) (HashTableSize p - 1)) < length T)%nat.
Proof.
  intros Hr. apply (bucket_lt _ (mkEntry 0 0 (getStringHash Str) 0 [])); [apply Hr|apply Hr].
Qed.

Lemma findString_spec p E T cs fl rl Str :
  rep p E T cs fl rl -> exists k, findString p T E (getStringHash Str) Str = Some k /\ found E Str (fun _ => True) k.
Proof.
  intros Hr. pose proof (hash_bucket_lt _ _ _ _ _ _ Str Hr) as Hb. destruct Hr. unfold findString.
  set (b := Z.to_nat _) in *. destruct (lookup_lt_is_Some_2 T b Hb) as [h Hh]. rewrite Hh. cbn [mbind option_bind].
  pose proof r_table0 as [Hlen Hchain _ Hall]. destruct (lookup_lt_is_Some_2 cs b) as [c Hc]; [lia|].
  destruct (Hchain _ _ _ Hh Hc) as [Hl _].
  destruct (findLoop_spec E Str c (length E) h) as (k & Hk & Hfound); [done|done|done|by eapply chain_length|].
  exists k. split; [done|]. destruct Hfound as [[-> Hno]|?]; [left|by right]. split; [done|].
  intros i e Hi _ He Hs Es. destruct (Hall i e He Hi) as (c' & Hc' & Hin).
  assert (bucket (HashTableSize p) e = b) as Eb.
  { unfold bucket, b. destruct (r_entries0 _ _ He) as (-> & _). by rewrite Es. }
  rewrite Eb, Hc in Hc'. injection Hc' as <-. by eapply Hno.
Qed.

(** ** Holding an entry *)

Lemma buckets_same D E E' T cs size :
  (forall i, (fun e => (HashNext e, Hash e)) <$> entryAt E' i = (fun e => (HashNext e, Hash e)) <$> entryAt E i) ->
  buckets D E T cs size -> buckets D E' T cs size.
Proof.
  intros Hs [H1 H2 H3 H4]. split; [done| | |].
  - intros b h c Hh Hc. destruct (H2 _ _ _ Hh Hc) as [Hl ?]. split; [|done]. eapply linked_frame; [|exact Hl].
    intros i _. specialize (Hs i). destruct (entryAt E' i), (entryAt E i); try done. cbn in Hs |- *. congruence.
  - intros b c i Hc Hi. destruct (H3 _ _ _ Hc Hi) as (HD & e & He & Hb). split; [done|]. specialize (Hs i). rewrite He in Hs.
    destruct (entryAt E' i) as [e'|]; [|done]. injection Hs as _ Eh. exists e'. split; [done|]. unfold bucket in *. by rewrite Eh.
  - intros i e' He' HD. specialize (Hs i). rewrite He' in Hs. destruct (entryAt E i) as [e|] eqn:He; [|done].
    injection Hs as _ Eh. destruct (H4 i e He HD) as (c & Hc & Hi). exists c. split; [|done]. unfold bucket in *. by rewrite Eh.
Qed.

Lemma set_entry_lookup E k e n i :
  entryAt E k = Some e -> entryAt (setSlot E k (Entry (set_RefCount n e))) i =
    if decide (Z.to_nat i = Z.to_nat k) then Some (set_RefCount n e) else entryAt E i.
Proof.
  intros He. destruct (decide _) as [Ei|Hne].
  - unfold entryAt at 1. rewrite Ei. change (entryAt (setSlot E k (Entry (set_RefCount n e))) k = Some (set_RefCount n e)).
    apply entryAt_set_eq. by eapply entryAt_lt.
  - by apply entryAt_set_ne.
Qed.

Lemma set_slot_free E k x i n :
  (forall m, E !! Z.to_nat k <> Some (FreeSlot m)) -> E !! i = Some (FreeSlot n) -> setSlot E k x !! i = Some (FreeSlot n).
Proof. intros Hk Hi. unfold setSlot. rewrite list_lookup_insert_ne; [done|]. intros E1. rewrite E1 in Hk. by eapply Hk. Qed.

Lemma set_slot_zeroth E k x : 0 < k -> zeroth E -> zeroth (setSlot E k x).
Proof. intros Hk [n Hn]. exists n. unfold setSlot. rewrite list_lookup_insert_ne; [done|]. lia. Qed.

Lemma rep_count p E T cs fl rl k e n :
  rep p E T cs fl rl -> entryAt E k = Some e -> 1 <= n < 2 ^ 31 ->
  rep (set_Entries (setSlot E k (Entry (set_RefCount n e))) p) (setSlot E k (Entry (set_RefCount n e))) T cs fl rl.
Proof.
  intros [] He Hn. pose proof (entryAt_pos _ _ _ r_zero0 He) as Hk.
  pose proof (proj1 (entryAt_Some _ _ _) He) as Hslot.
  assert (forall m, E !! Z.to_nat k <> Some (FreeSlot m)) as Hnf by congruence.
  split; cbn; try done.
  - by rewrite length_setSlot.
  - by apply set_slot_zeroth.
  - intros i ei. rewrite (set_entry_lookup _ _ _ _ _ He). destruct (decide _); [|by eauto].
    intros [= <-]. destruct (r_entries0 _ _ He) as (? & ? & _). split_and!; try done; cbn; lia.
  - eapply buckets_same; [|exact r_table0]. intros i. rewrite (set_entry_lookup _ _ _ _ _ He).
    destruct (decide _) as [Ei|]; [|done]. unfold entryAt. rewrite Ei, Hslot. done.
  - intros i j ei ej Hi Hj. rewrite !(set_entry_lookup _ _ _ _ _ He).
    destruct (decide (Z.to_nat i = Z.to_nat k)), (decide (Z.to_nat j = Z.to_nat k)); intros Hei Hej Hs Es.
    + lia.
    + injection Hei as <-. cbn in Hs, Es. assert (k = j) by (by eapply r_distinct0). lia.
    + injection Hej as <-. cbn in Es. assert (i = k) by (by eapply r_distinct0). lia.
    + by eapply r_distinct0.
  - eapply free_list_frame; [|exact r_free0]. intros i m _. by apply set_slot_free.
  - eapply free_list_frame; [|exact r_recycle0]. intros i m _. by apply set_slot_free.
  - unfold setSlot. pose proof (live_set E (Z.to_nat k) (Entry (set_RefCount n e)) _ Hslot) as Hlive.
    destruct (decide (is_entry (Entry (set_RefCount n e)))) as [_|[]]; [|done].
    destruct (decide (is_entry (Entry e))) as [_|[]]; [|done]. lia.
Qed.

(** ** A larger hash table *)

Lemma mjoin_nodup (cs : list (list Z)) :
  (forall b c, cs !! b = Some c -> NoDup c) ->
  (forall b b' c c' i, cs !! b = Some c -> cs !! b' = Some c' -> i ∈ c -> i ∈ c' -> b = b') -> NoDup (mjoin cs).
Proof.
  induction cs as [|c cs IH]; intros Hnd Hdis; [constructor|]. change (NoDup (c ++ mjoin cs)). apply list.NoDup_app.
  split_and!; [by apply (Hnd 0%nat)| |].
  - intros i Hi (c' & Hi' & [b Hb]%list_elem_of_lookup)%list_elem_of_join. by specialize (Hdis 0%nat (S b) c c' i eq_refl Hb Hi Hi').
  - apply IH.
    + intros b c' Hc. by apply (Hnd (S b)).
    + intros b b' c1 c2 i H1 H2 Hi1 Hi2. by pose proof (Hdis (S b) (S b') c1 c2 i H1 H2 Hi1 Hi2) as [= ->].
Qed.

(** What a pool holds, whatever the table that finds it. *)
Record same_contents (E E' : list Slot) (p p' : ConstStringPool) : Prop := {
  sc_relinked : relinked E E';
  sc_count : EntriesCount p' = EntriesCount p;
  sc_size : EntriesSize p' = EntriesSize p;
  sc_free : FreeIndex p' = FreeIndex p;
  sc_recycle : RecycleIndex p' = RecycleIndex p;
}.

Lemma resizeHashTbl_spec p E T cs fl rl k :
  rep p E T cs fl rl -> 0 <= k ->
  exists p' E' T' cs', resizeHashTbl (2 ^ k) p = Some p' /\ rep p' E' T' cs' fl rl /\ same_contents E E' p p' /\
    HashTableSize p' = 2 ^ k.
Proof.
  intros [] Hk. pose proof r_table0 as [Hlen Hchain Hin Hall]. unfold resizeHashTbl. rewrite r_T0, r_E0. cbn [mbind option_bind].
  rewrite take_ge by lia. set (size := 2 ^ k). assert (exists k, 0 <= k /\ size = 2 ^ k) as Hsize by eauto.
  destruct (rehash_spec size Hsize T cs E (replicate (Z.to_nat size) 0) (replicate (Z.to_nat size) []) (fun _ => False))
    as (E' & T' & cs' & -> & Hb & Hr & HlT); try done.
  - apply Forall2_same_length_lookup. split; [lia|]. intros b h c Hh Hc. by apply (Hchain b).
  - apply mjoin_nodup.
    + intros b c Hc. destruct (lookup_lt_is_Some_2 T b) as [h Hh]; [apply lookup_lt_Some in Hc; lia|]. by apply (Hchain b h).
    + intros b b' c c' i Hc Hc' Hi Hi'. destruct (Hin _ _ _ Hc Hi) as (_ & e & He & <-).
      destruct (Hin _ _ _ Hc' Hi') as (_ & e' & He' & <-). congruence.
  - intros i _ [].
  - apply buckets_empty.
  - rewrite length_replicate. unfold size. lia.
  - cbn [mbind option_bind]. do 4 eexists. split; [done|].
    pose proof (relinked_sym _ _ Hr) as Hr'.
    assert (forall i e', entryAt E' i = Some e' -> exists e, entryAt E i = Some e /\ set_HashNext 0 e = set_HashNext 0 e') as Hback
      by (intros i e' He'; by eapply relinked_entry).
    split_and!; [|by split|done]. split; cbn; try done.
    + by rewrite (relinked_length _ _ Hr).
    + by eapply relinked_zeroth.
    + intros i e' (e & He & Ee)%Hback. injection Ee as E1 E2 E3 E4. destruct (r_entries0 _ _ He) as (? & ? & ?).
      unfold entry_wf. by rewrite <- E1, <- E2, <- E3, <- E4.
    + eapply buckets_dom_live; [|exact Hb]. cbn beta. intros i e' (e & He & _)%Hback.
      split; [intros [[]|(c & Hi & [b Hc]%list_elem_of_lookup)%list_elem_of_join]|]; [by eapply Hin|]. intros Hi. right.
      destruct (Hall i e He Hi) as (c & Hc & Hic). apply list_elem_of_join. exists c. split; [done|]. by eapply list_elem_of_lookup_2.
    + intros i j e1 e2 Hi Hj (e1' & He1 & Ee1)%Hback (e2' & He2 & Ee2)%Hback Hs Es. injection Ee1 as _ _ _ E1. injection Ee2 as _ _ _ E2.
      eapply r_distinct0; [done|done|done|done|congruence|]. congruence.
    + eapply free_list_frame; [|exact r_free0]. intros i n _. by apply relinked_free.
    + eapply free_list_frame; [|exact r_recycle0]. intros i n _. by apply relinked_free.
    + by rewrite (relinked_live _ _ Hr).
Qed.

(** ** A new entry *)

(** The pool with one symbol [I] more, for [Str]. *)
Record placed (E E' : list Slot) (p p' : ConstStringPool) (I : Z) (Str : list Z) : Prop := {
  pl_new : exists e, entryAt E' I = Some e /\ Str8 e = Str /\ RefCount e = 1;
  pl_old : forall i, 0 < i -> i <> I -> set_HashNext 0 <$> entryAt E' i = set_HashNext 0 <$> entryAt E i;
  pl_size : EntriesSize p' = EntriesSize p;
  pl_count : EntriesCount p' = EntriesCount p + 1;
  pl_table : HashTableSize p' <= Z.max (HashTableSize p) (EntriesCount p');
}.

Lemma rep_insert p E T cs I fl rl Str h fi ri fl' rl' :
  let b := Z.to_nat (Z.land (getStringHash Str) (HashTableSize p - 1)) in
  let e := mkEntry 1 (u32 (Z.of_nat (length Str))) (getStringHash Str) h Str in
  let E' := setSlot E I (Entry e) in
  rep p E T cs (I :: fl) rl -> (forall i e, 0 < i -> entryAt E i = Some e -> short Str -> Str8 e <> Str) -> T !! b = Some h ->
  free_list E' fi fl' -> free_list E' ri rl' -> NoDup (fl' ++ rl') ->
  exists cs', rep (mkPool (HashTableSize p) (Some (<[b := I]> T)) (EntriesCount p + 1) (EntriesSize p) (Some E') fi ri)
    E' (<[b := I]> T) cs' fl' rl'.
Proof.
  intros b e E' [] Hno Hh Hfi Hri Hnd. cbn [free_list] in r_free0. destruct r_free0 as (EI & HI & n & Hn & _).
  pose proof (lookup_lt_Some _ _ _ Hn) as HIl.
  assert (entryAt E I = None) as HnoI by (unfold entryAt; by rewrite Hn).
  destruct (buckets_push (fun j => 0 < j /\ j <> I) E T cs (HashTableSize p) I e h) as (c & Hc & Hb); try done; [|lia|lia|].
  { eapply buckets_dom_live; [|exact r_table0]. cbn beta. intros i ei Hei. split; [|by intros [? _]]. intros Hi. split; [done|].
    intros ->. congruence. }
  eexists. fold E' in Hb. change (bucket (HashTableSize p) e) with b in Hb.
  assert (forall i, 0 < i -> entryAt E' i = if decide (i = I) then Some e else entryAt E i) as Hat.
  { intros i Hi. unfold E'. rewrite (entryAt_set E I i (Entry e)) by lia. destruct (decide (I = i)), (decide (i = I)); congruence. }
  split; cbn; try done.
  - by rewrite length_insert.
  - unfold E'. by rewrite length_setSlot.
  - by apply set_slot_zeroth.
  - intros i ei Hei. pose proof (entryAt_pos E' i ei ltac:(by apply set_slot_zeroth) Hei) as Hi. rewrite Hat in Hei by done.
    destruct (decide (i = I)); [|by eauto]. injection Hei as <-. by split_and!.
  - eapply buckets_dom; [|exact Hb]. intros i. cbn beta. split; [intros [[? _]| ->]; done|]. destruct (decide (i = I)); [by right|by left].
  - intros i j ei ej Hi Hj. rewrite !Hat by done. destruct (decide (i = I)), (decide (j = I)); try congruence.
    + intros [= <-] Hej Hs Es. cbn in Hs, Es. by destruct (Hno j ej Hj Hej Hs).
    + intros Hei [= <-] Hs Es. cbn in Es. rewrite Es in Hs. by destruct (Hno i ei Hi Hei Hs).
    + intros. by eapply r_distinct0.
  - unfold E', setSlot. pose proof (live_set E (Z.to_nat I) (Entry e) _ Hn) as Hlive.
    destruct (decide (is_entry (Entry e))) as [_|[]]; [|done]. destruct (decide (is_entry (FreeSlot n))) as [[]|_]. lia.
Qed.

Lemma free_lists_keep E I e h l : free_list E h l -> 0 < I -> I ∉ l -> free_list (setSlot E I (Entry e)) h l.
Proof.
  intros Hl HI Hin. pose proof Hl as Hl'. eapply free_list_frame; [|exact Hl]. intros i n Hi Hn. unfold setSlot.
  rewrite list_lookup_insert_ne; [done|]. destruct (free_list_in _ _ _ _ Hl' Hi) as [Hpos _]. intros E1.
  assert (i = I) by lia. by subst.
Qed.

Lemma placeEntry_spec Recycle p E T cs I fl rl Str :
  rep p E T cs (I :: fl) rl -> (forall i e, 0 < i -> entryAt E i = Some e -> short Str -> Str8 e <> Str) ->
  exists p' E' T' cs' fl' rl', placeEntry Recycle (HashTableSize p * 2) (getStringHash Str) Str p = Some (I, p') /\
    rep p' E' T' cs' fl' rl' /\ placed E E' p p' I Str /\ (length fl <= length fl')%nat /\
    (Recycle = false -> fl' = fl /\ rl' = rl).
Proof.
  intros Hrep Hno. pose proof (hash_bucket_lt _ _ _ _ _ _ Str Hrep) as Hb. pose proof Hrep as [].
  pose proof r_free0 as Hfl. cbn [free_list] in Hfl. destruct Hfl as (EI & HI & n & Hn & Hfl).
  destruct (lookup_lt_is_Some_2 T _ Hb) as [h Hh]. unfold placeEntry. rewrite r_T0, r_E0. cbn [mbind option_bind].
  rewrite EI, Hn. cbn [mbind option_bind]. rewrite Hh. cbn [mbind option_bind RefCount Len Str8 newStringEntry]. set (e := mkEntry _ _ _ _ _).
  pose proof r_nodup0 as Hnd. apply list.NoDup_cons in Hnd as [HIn Hnd]. rewrite elem_of_app in HIn.
  set (fr := if Recycle && (n =? 0) then (RecycleIndex p, 0) else (n, RecycleIndex p)).
  assert (exists fl' rl', free_list (setSlot E I (Entry e)) fr.1 fl' /\ free_list (setSlot E I (Entry e)) fr.2 rl' /\
    NoDup (fl' ++ rl') /\ (length fl <= length fl')%nat /\ (Recycle = false -> fl' = fl /\ rl' = rl))
    as (fl' & rl' & Hfl' & Hrl' & Hnd' & Hlen).
  { unfold fr. destruct (Recycle && (n =? 0)) eqn:En.
    - apply andb_true_iff in En as [-> En%Z.eqb_eq]. subst n. destruct fl as [|? fl]; [|cbn in Hfl; destruct Hfl; lia].
      exists rl, []. split_and!; [apply free_lists_keep; [done|done|tauto]|done|by rewrite app_nil_r|cbn; lia|done].
    - exists fl, rl. split_and!; [apply free_lists_keep; [done|done|tauto]|apply free_lists_keep; [done|done|tauto]|done|lia|done]. }
  destruct (rep_insert p E T cs I fl rl Str h fr.1 fr.2 fl' rl') as [cs' Hrep']; try done.
  set (p1 := mkPool _ _ _ _ _ _ _). fold e in Hrep'. 
  assert (placed E (setSlot E I (Entry e)) p p1 I Str) as Hpl.
  { split; cbn; try done; [|intros i Hi Hne|lia].
    - exists e. split; [|done]. apply entryAt_set_eq. by eapply lookup_lt_Some.
    - by rewrite entryAt_set_ne by lia. }
  destruct (Z.leb_spec (HashTableSize p * 2) (EntriesCount p1)) as [Hge|_]; [|by do 6 eexists].
  destruct r_size0 as (k & Hk & Esize). assert (HashTableSize p * 2 = 2 ^ (k + 1)) as Etwice by (rewrite Esize, Z.pow_add_r by lia; lia).
  rewrite Etwice in Hge |- *.
  destruct (resizeHashTbl_spec p1 _ _ _ _ _ (k + 1) Hrep' ltac:(lia)) as (p2 & E2 & T2 & cs2 & -> & Hrep2 & [Hrel Ec Es Ef Er] & Hsz).
  cbn [mbind option_bind]. do 6 eexists. split; [done|]. split; [exact Hrep2|]. split; [|exact Hlen]. split.
  - destruct Hpl as [(e1 & He1 & Es1 & Er1) _ _ _ _]. destruct (relinked_entry _ _ _ _ Hrel He1) as (e2 & He2 & Ee).
    injection Ee as E1 _ _ E4. exists e2. split_and!; [done|congruence|congruence].
  - intros i Hi Hne. destruct Hpl as [_ Hold _ _ _]. rewrite <- (Hold i Hi Hne).
    destruct (entryAt (setSlot E I (Entry e)) i) as [e1|] eqn:He1.
    + destruct (relinked_entry _ _ _ _ Hrel He1) as (e2 & -> & Ee). cbn. by rewrite Ee.
    + destruct (entryAt E2 i) as [e2|] eqn:He2; [|done].
      destruct (relinked_entry _ _ _ _ (relinked_sym _ _ Hrel) He2) as (e1 & ? & _). congruence.
  - by rewrite Es.
  - by rewrite Ec.
  - rewrite Hsz, Ec. lia.
Qed.

(** ** More slots *)

Lemma free_list_seq E m : forall s,
  0 < s -> (forall i, s <= i < s + Z.of_nat (S m) ->
    E !! Z.to_nat i = Some (FreeSlot (if i =? s + Z.of_nat m then 0 else i + 1))) ->
  free_list E s (seqZ s (Z.of_nat (S m))).
Proof.
  induction m as [|m IH]; intros s Hs HE; rewrite seqZ_cons by lia; cbn [free_list].
  - split_and!; [done|done|]. eexists. split; [apply HE; lia|].
    replace (s =? s + Z.of_nat 0) with true by (symmetry; apply Z.eqb_eq; lia).
    replace (Z.pred (Z.of_nat 1)) with 0 by lia. done.
  - split_and!; [done|done|]. eexists. split; [apply HE; lia|].
    replace (s =? s + Z.of_nat (S m)) with false by (symmetry; apply Z.eqb_neq; lia).
    replace (Z.pred (Z.of_nat (S (S m)))) with (Z.of_nat (S m)) by lia. replace (Z.succ s) with (s + 1) by lia.
    apply IH; [lia|]. intros i Hi. rewrite HE by lia. by replace (s + Z.of_nat (S m)) with (s + 1 + Z.of_nat m) by lia.
Qed.

Lemma freeSlots_lookup Start NewSize i :
  0 <= i < NewSize - Start -> freeSlots Start NewSize !! Z.to_nat i = Some (FreeSlot (if Start + i =? NewSize - 1 then 0 else Start + i + 1)).
Proof.
  intros Hi. unfold freeSlots. rewrite list_lookup_fmap, lookup_seqZ_lt by lia. cbn. rewrite Z2Nat.id by lia. done.
Qed.

Lemma entryAt_app E F i : (forall x, x ∈ F -> ~ is_entry x) -> entryAt (E ++ F) i = entryAt E i.
Proof.
  intros HF. unfold entryAt. destruct (E !! Z.to_nat i) as [x|] eqn:Ex; [by rewrite (lookup_app_l_Some _ _ _ _ Ex)|].
  apply lookup_ge_None in Ex. rewrite lookup_app_r by done. destruct (F !! _) as [[]|] eqn:Ey; try done.
  destruct (HF _ (list_elem_of_lookup_2 _ _ _ Ey)). done.
Qed.

Lemma freeSlots_free Start NewSize x : x ∈ freeSlots Start NewSize -> ~ is_entry x.
Proof. unfold freeSlots. intros (i & -> & _)%list_elem_of_fmap. by intros []. Qed.

Lemma live_app E F : (forall x, x ∈ F -> ~ is_entry x) -> live (E ++ F) = live E.
Proof.
  intros HF. unfold live. rewrite list.filter_app, length_app. destruct (filter is_entry F) as [|x l] eqn:Ex; [cbn; lia|].
  assert (x ∈ filter is_entry F) as Hx by (rewrite Ex; by left). apply list_elem_of_filter in Hx as [Hx HxF]. by apply HF in HxF.
Qed.

Lemma resizeEntriesArray_spec p E T cs rl :
  rep p E T cs [] rl -> EntriesSize p <= 5 * 2 ^ 27 + 19 ->
  exists p' fl', resizeEntriesArray p = Some (true, p') /\ rep p' (E ++ freeSlots (EntriesSize p) (EntriesSize p')) T cs fl' [] /\
    EntriesCount p' = EntriesCount p /\ HashTableSize p' = HashTableSize p /\ fl' <> [] /\
    EntriesSize p' - Z.of_nat (length fl') = EntriesSize p.
Proof.
  intros [] Hsz. unfold resizeEntriesArray. destruct r_zero0 as [z Hz]. pose proof (lookup_lt_Some _ _ _ Hz) as Hpos.
  set (s := EntriesSize p) in *. assert (0 < s) as Hs by lia.
  replace (int32 (s * 3)) with (Some (s * 3)) by (unfold int32; rewrite (proj2 (Z.leb_le _ _)), (proj2 (Z.ltb_lt _ _)) by lia; done).
  cbn [mbind option_bind]. rewrite Z.quot_div_nonneg by lia. rewrite (wrap_small 32) by (unfold in_u; div_lia).
  set (n := if _ <? 211 then 211 else _). assert (s < n <= WASM_SYMBOLS_MAX) as Hn.
  { unfold n, WASM_SYMBOLS_MAX. destruct (Z.ltb_spec (s * 3 / 2) 211); div_lia. }
  rewrite (proj2 (Z.ltb_ge _ _)) by lia. rewrite (proj2 (Z.eqb_neq _ _)) by lia. rewrite r_E0. cbn [default].
  set (m := Z.to_nat (n - s - 1)). exists (mkPool (HashTableSize p) (StrHashTable p) (EntriesCount p) n
    (Some (E ++ freeSlots s n)) s 0), (seqZ s (Z.of_nat (S m))). cbn [EntriesSize EntriesCount HashTableSize].
  split; [done|]. split; [|split_and!; [done|done|by rewrite seqZ_cons by lia|rewrite length_seqZ; lia]].
  assert (forall i, entryAt (E ++ freeSlots s n) i = entryAt E i) as Hat
    by (intros i; apply entryAt_app; intros x; apply freeSlots_free).
  split; cbn; try done.
  - rewrite length_app. unfold freeSlots. rewrite length_fmap, length_seqZ. lia.
  - exists z. by apply lookup_app_l_Some.
  - intros i e. rewrite Hat. apply r_entries0.
  - eapply buckets_same; [|exact r_table0]. intros i. by rewrite Hat.
  - intros i j e e' Hi Hj. rewrite !Hat. by apply r_distinct0.
  - apply free_list_seq; [done|]. intros i Hi. rewrite lookup_app_r by lia.
    replace (Z.to_nat i - length E)%nat with (Z.to_nat (i - s)) by lia. rewrite freeSlots_lookup by lia.
    replace (s + (i - s)) with i by lia. by replace (n - 1) with (s + Z.of_nat m) by lia.
  - rewrite app_nil_r. apply NoDup_seqZ.
  - rewrite live_app; [done|]. intros x. apply freeSlots_free.
  - lia.
Qed.

(** ** Freeing a symbol *)

(** The pool without the symbol [Sym]. *)
Record removed (E E' : list Slot) (p p' : ConstStringPool) (Sym : Z) : Prop := {
  rm_gone : entryAt E' Sym = None;
  rm_old : forall i, 0 < i -> i <> Sym -> set_HashNext 0 <$> entryAt E' i = set_HashNext 0 <$> entryAt E i;
  rm_size : EntriesSize p' = EntriesSize p;
  rm_count : EntriesCount p' = EntriesCount p - 1;
  rm_table : HashTableSize p' = HashTableSize p;
  rm_free : FreeIndex p' = FreeIndex p;
}.

(** The chain of [Sym] without it: the array and the table after. *)
Lemma unlink_spec E T cs size Sym e b c1 c2 h :
  zeroth E -> buckets (fun i => 0 < i) E T cs size -> entryAt E Sym = Some e -> cs !! b = Some (c1 ++ Sym :: c2) -> T !! b = Some h ->
  exists E' T' h', (if h =? Sym then Some (E, <[b := HashNext e]> T)
                    else E' ← unlinkLoop (length E) E Sym h; Some (E', T)) = Some (E', T') /\
    relinked E E' /\ linked E' h' (c1 ++ c2) /\ T' !! b = Some h' /\ (forall b', b' <> b -> T' !! b' = T !! b') /\
    length T' = length T /\ (forall j, 0 < j -> j ∉ c1 -> entryAt E' j = entryAt E j).
Proof.
  intros Hz Hb He Hc Hh. destruct (bu_chain _ _ _ _ _ Hb _ _ _ Hh Hc) as [Hl Hnd]. pose proof (lookup_lt_Some _ _ _ Hh) as Hbl.
  destruct c1 as [|i c1].
  - cbn [app linked] in Hl. destruct Hl as (-> & _ & e' & He' & Hl). rewrite He in He'. injection He' as <-. rewrite Z.eqb_refl.
    exists E, (<[b := HashNext e]> T), (HashNext e). split_and!; try done.
    + by rewrite list_lookup_insert_eq.
    + intros b' Hne. by rewrite list_lookup_insert_ne.
    + by rewrite length_insert.
  - pose proof (linked_head _ _ _ Hl) as Eh. cbn in Eh. subst h. apply list.NoDup_cons in Hnd as Hnd1. destruct Hnd1 as [Hi _].
    rewrite (proj2 (Z.eqb_neq i Sym)) by (intros ->; apply Hi; apply elem_of_app; right; by left).
    destruct (unlinkLoop_spec c1 (length E) E Sym i i c2 Hz Hl Hnd) as (E' & -> & Hr & Hl' & Hsame).
    { pose proof (chain_length _ _ _ _ _ _ Hz Hb Hc) as Hcl. cbn in Hcl. rewrite length_app in Hcl. cbn in Hcl. lia. }
    cbn [mbind option_bind]. by exists E', T, i.
Qed.

(** The array [E1] is [E] with [Sym] unlinked from its chain. *)
Record detached (E E1 : list Slot) (Sym : Z) (c1 : list Z) : Prop := {
  de_zero : zeroth E1;
  de_length : length E1 = length E;
  de_key : forall j, 0 < j -> j <> Sym -> set_HashNext 0 <$> entryAt E1 j = set_HashNext 0 <$> entryAt E j;
  de_same : forall j, 0 < j -> j ∉ c1 -> j <> Sym -> entryAt E1 j = entryAt E j;
  de_free : forall i n, E !! i = Some (FreeSlot n) -> E1 !! i = Some (FreeSlot n);
  de_live : live E1 = live E;
  de_entry : exists e, entryAt E1 Sym = Some e;
}.

Lemma rep_remove p E T cs fl rl Sym e c1 c2 E1 T1 h' :
  let b := bucket (HashTableSize p) e in
  let E2 := setSlot E1 Sym (FreeSlot (RecycleIndex p)) in
  let p' := mkPool (HashTableSize p) (Some T1) (EntriesCount p - 1) (EntriesSize p) (Some E2) (FreeIndex p) Sym in
  rep p E T cs fl rl -> entryAt E Sym = Some e -> cs !! b = Some (c1 ++ Sym :: c2) -> NoDup (c1 ++ Sym :: c2) ->
  detached E E1 Sym c1 -> linked E1 h' (c1 ++ c2) -> T1 !! b = Some h' -> (forall b', b' <> b -> T1 !! b' = T !! b') ->
  length T1 = length T ->
  rep p' E2 T1 (<[b := c1 ++ c2]> cs) fl (Sym :: rl) /\ removed E E2 p p' Sym.
Proof.
  intros b E2 p' [] He Hc Hnd [Hz1 HlE Hkey1 Hsame1 Hfree Hlive [e1 He1]] Hl Hh HT HlT.
  pose proof (entryAt_pos _ _ _ r_zero0 He) as Hpos. pose proof (proj1 (entryAt_Some _ _ _) He) as Hslot.
  assert (forall j, 0 < j -> j <> Sym -> entryAt E2 j = entryAt E1 j) as H21 by (intros j Hj Hne; apply entryAt_set_ne; lia).
  assert (zeroth E2) as Hz2 by (by apply set_slot_zeroth).
  assert (E2 !! Z.to_nat Sym = Some (FreeSlot (RecycleIndex p))) as HSym
    by (unfold E2, setSlot; rewrite list_lookup_insert_eq; [done|]; rewrite HlE; by eapply entryAt_lt).
  assert (entryAt E2 Sym = None) as Hgone by (unfold entryAt; by rewrite HSym).
  assert (forall j, 0 < j -> j <> Sym -> set_HashNext 0 <$> entryAt E2 j = set_HashNext 0 <$> entryAt E j) as Hkey
    by (intros j Hj Hne; rewrite H21 by done; by apply Hkey1).
  assert (forall j ej, entryAt E2 j = Some ej -> exists ej', entryAt E j = Some ej' /\ set_HashNext 0 ej = set_HashNext 0 ej') as Hback.
  { intros j ej Hej. pose proof (entryAt_pos _ _ _ Hz2 Hej) as Hj. assert (j <> Sym) as Hne by congruence.
    specialize (Hkey j Hj Hne). rewrite Hej in Hkey. destruct (entryAt E j) as [ej'|]; [|done]. exists ej'. split; [done|]. cbn in Hkey. congruence. }
  assert (forall h l, free_list E h l -> free_list E2 h l) as Hfl.
  { intros h l. apply free_list_frame. intros i n _ Hn. unfold E2, setSlot. rewrite list_lookup_insert_ne; [by apply Hfree|].
    intros Ei. rewrite Ei in Hslot. congruence. }
  split; [|by split]. split; cbn; try done; try lia.
  - unfold E2. rewrite length_setSlot. lia.
  - intros i ei (ei' & Hei & Ee)%Hback. injection Ee as E1' E2' E3' E4'. destruct (r_entries0 _ _ Hei) as (? & ? & ?).
    unfold entry_wf. by rewrite E1', E2', E3', E4'.
  - eapply buckets_remove; try done.
    + intros j Hj Hn Hne. rewrite H21 by done. by apply Hsame1.
    + eapply linked_frame; [|exact Hl]. intros j Hj. destruct (linked_in _ _ _ _ Hl Hj) as [_ [ej Hej]].
      rewrite H21; [done|exact (entryAt_pos _ _ _ Hz1 Hej)|]. intros ->. apply list.NoDup_app in Hnd as (_ & Hd & Hnd2).
      apply list.NoDup_cons in Hnd2 as [Hn2 _]. apply elem_of_app in Hj as [Hj|Hj]; [|done]. apply (Hd _ Hj). by left.
  - intros i j ei ej Hi Hj (ei' & Hei & Eei)%Hback (ej' & Hej & Eej)%Hback Hs Es. injection Eei as _ _ _ E4i. injection Eej as _ _ _ E4j.
    eapply r_distinct0; [done|done|done|done|congruence|]. congruence.
  - by apply Hfl.
  - split_and!; [done|done|]. eexists. split; [done|]. by apply Hfl.
  - rewrite <- Permutation_middle. constructor; [|done]. intros [Hin|Hin]%elem_of_app.
    + destruct (free_list_in _ _ _ _ r_free0 Hin) as [_ [n Hn]]. congruence.
    + destruct (free_list_in _ _ _ _ r_recycle0 Hin) as [_ [n Hn]]. congruence.
  - pose proof (live_set E1 (Z.to_nat Sym) (FreeSlot (RecycleIndex p)) _ (proj1 (entryAt_Some _ _ _) He1)) as Hls.
    destruct (decide (is_entry (Entry e1))) as [_|[]]; [|done]. destruct (decide (is_entry (FreeSlot _))) as [[]|_].
    unfold E2, setSlot. lia.
Qed.

Lemma freeLast_spec p E T cs fl rl Sym e :
  rep p E T cs fl rl -> entryAt E Sym = Some e -> RefCount e = 1 ->
  exists p' E' T' cs' rl', freeSymbolInternal Sym p = Some p' /\ rep p' E' T' cs' fl rl' /\ removed E E' p p' Sym.
Proof.
  intros Hrep He Hone. pose proof Hrep as []. pose proof (entryAt_pos _ _ _ r_zero0 He) as Hpos.
  pose proof (proj1 (entryAt_Some _ _ _) He) as Hslot. unfold freeSymbolInternal. rewrite r_E0, r_T0, Hslot. cbn [mbind option_bind].
  rewrite Hone. change (int32 (1 - 1)) with (Some 0). cbn [mbind option_bind Z.ltb Z.compare].
  set (E0 := setSlot E Sym (Entry (set_RefCount 0 e))). change (Z.to_nat (Z.land (Hash e) (HashTableSize p - 1))) with (bucket (HashTableSize p) e).
  destruct (bu_all _ _ _ _ _ r_table0 Sym e He Hpos) as (c & Hc & (c1 & c2 & ->)%list_elem_of_split).
  destruct (lookup_lt_is_Some_2 T (bucket (HashTableSize p) e)) as [h Hh]; [by apply bucket_lt|]. rewrite Hh. cbn [mbind option_bind].
  destruct (bu_chain _ _ _ _ _ r_table0 _ _ _ Hh Hc) as [_ Hnd].
  assert (zeroth E0) as Hz0 by (by apply set_slot_zeroth).
  assert (forall i, entryAt E0 i = if decide (Z.to_nat i = Z.to_nat Sym) then Some (set_RefCount 0 e) else entryAt E i) as Hat0
    by (intros i; by apply set_entry_lookup).
  assert (forall j, 0 < j -> j <> Sym -> entryAt E0 j = entryAt E j) as H0
    by (intros j Hj Hne; rewrite Hat0; destruct (decide _); [lia|done]).
  assert (entryAt E0 Sym = Some (set_RefCount 0 e)) as He0 by (rewrite Hat0; by destruct (decide _)).
  assert (buckets (fun i => 0 < i) E0 T cs (HashTableSize p)) as Hb0.
  { eapply buckets_same; [|exact r_table0]. intros i. rewrite Hat0. destruct (decide _) as [Ei|]; [|done].
    unfold entryAt. by rewrite Ei, Hslot. }
  destruct (unlink_spec E0 T cs (HashTableSize p) Sym (set_RefCount 0 e) _ c1 c2 h Hz0 Hb0 He0 Hc Hh)
    as (E1 & T1 & h' & Eu & Hr & Hl & Hh' & HT & HlT & Hsame).
  cbn [HashNext set_RefCount] in Eu. rewrite Eu. cbn [mbind option_bind]. clear Eu.
  set (r := if negb _ then _ else _). assert (r = RecycleIndex p) as -> by (unfold r; destruct (Z.eqb_spec (RecycleIndex p) 0); cbn; congruence).
  destruct (rep_remove p E T cs fl rl Sym e c1 c2 E1 T1 h') as [Hrep' Hrm]; try done; [|by do 5 eexists].
  split.
  - by eapply relinked_zeroth.
  - rewrite (relinked_length _ _ Hr). apply length_setSlot.
  - intros j Hj Hne. rewrite <- H0 by done. destruct (entryAt E0 j) as [ej|] eqn:Ej.
    + destruct (relinked_entry _ _ _ _ Hr Ej) as (e1 & -> & Ee). cbn. by rewrite Ee.
    + destruct (entryAt E1 j) as [e1|] eqn:E1j; [|done].
      destruct (relinked_entry _ _ _ _ (relinked_sym _ _ Hr) E1j) as (? & ? & _). congruence.
  - intros j Hj Hn Hne. rewrite Hsame by done. by apply H0.
  - intros i n Hn. eapply relinked_free; [exact Hr|]. apply set_slot_free; [congruence|done].
  - rewrite (relinked_live _ _ Hr). pose proof (live_set E (Z.to_nat Sym) (Entry (set_RefCount 0 e)) _ Hslot) as Hls.
    destruct (decide (is_entry (Entry e))) as [_|[]]; [|done]. destruct (decide (is_entry (Entry (set_RefCount 0 e)))) as [_|[]]; [|done].
    unfold E0, setSlot. lia.
  - destruct (relinked_entry _ _ _ _ Hr He0) as (e1 & ? & _). by exists e1.
Qed.

(** ** The reserved symbols *)

Lemma rep_empty n :
  let p := mkPool 128 (Some (replicate 128 0)) 1 (Z.of_nat (S (S n))) (Some (Zeroth 1 :: freeSlots 1 (Z.of_nat (S (S n))))) 1 0 in
  Z.of_nat (S (S n)) <= WASM_SYMBOLS_MAX ->
  rep p (Zeroth 1 :: freeSlots 1 (Z.of_nat (S (S n)))) (replicate 128 0) (replicate 128 []) (seqZ 1 (Z.of_nat (S n))) [].
Proof.
  intros p Hn. set (F := freeSlots 1 _). assert (forall i, entryAt (Zeroth 1 :: F) i = None) as Hat.
  { intros i. change (Zeroth 1 :: F) with ([Zeroth 1] ++ F). rewrite entryAt_app by (intros x; apply freeSlots_free).
    unfold entryAt. by destruct (Z.to_nat i). }
  split; cbn [HashTableSize StrHashTable EntriesCount EntriesSize EntriesArray FreeIndex RecycleIndex p]; try done.
  - by exists 7.
  - cbn. unfold F, freeSlots. rewrite length_fmap, length_seqZ. lia.
  - by exists 1.
  - intros i e. by rewrite Hat.
  - eapply buckets_dom_live; [|apply buckets_empty]. intros i e. by rewrite Hat.
  - intros i j e e' _ _. by rewrite Hat.
  - apply free_list_seq; [lia|]. intros i Hi. destruct (Z.to_nat i) as [|j] eqn:Ei; [lia|]. cbn.
    replace j with (Z.to_nat (i - 1)) by lia. unfold F. rewrite freeSlots_lookup by lia.
    replace (1 + (i - 1)) with i by lia. by replace (Z.of_nat (S (S n)) - 1) with (1 + Z.of_nat n) by lia.
  - rewrite app_nil_r. apply NoDup_seqZ.
  - change (Zeroth 1 :: F) with ([Zeroth 1] ++ F). rewrite live_app; [done|]. intros x. apply freeSlots_free.
Qed.

(** The entries are those of [strs], in order, each held once. *)
Definition listed (E : list Slot) (strs : list (list Z)) : Prop :=
  (forall j e, 0 < j -> entryAt E j = Some e -> strs !! Z.to_nat (j - 1) = Some (Str8 e) /\ RefCount e = 1) /\
  (forall j str, 0 < j -> strs !! Z.to_nat (j - 1) = Some str -> exists e, entryAt E j = Some e /\ Str8 e = str).

Lemma newSymbolInit_spec p E T cs fl strs str I :
  rep p E T cs (I :: fl) [] -> listed E strs -> Forall short strs -> I = Z.of_nat (S (length strs)) -> str ∉ strs -> HashTableSize p <= 128 ->
  EntriesCount p < 128 ->
  exists p' E' T' cs', newSymbolInit str p = Some (I, p') /\ rep p' E' T' cs' fl [] /\ listed E' (strs ++ [str]) /\
    HashTableSize p' <= 128 /\ EntriesCount p' = EntriesCount p + 1 /\ EntriesSize p' = EntriesSize p.
Proof.
  intros Hrep [Hl1 Hl2] Hshort HI Hnin Hsz Hcount. unfold newSymbolInit. rewrite (r_T _ _ _ _ _ _ Hrep), (r_E _ _ _ _ _ _ Hrep). cbn [mbind option_bind].
  assert (0 < HashTableSize p) as Hpos by (destruct (r_size _ _ _ _ _ _ Hrep) as (k & ? & ->); lia).
  replace (int32 (HashTableSize p * 2)) with (Some (HashTableSize p * 2))
    by (unfold int32; rewrite (proj2 (Z.leb_le _ _)), (proj2 (Z.ltb_lt _ _)) by lia; done).
  cbn [mbind option_bind]. assert (forall i e, 0 < i -> entryAt E i = Some e -> Str8 e <> str) as Hno.
  { intros i e Hi He Es. destruct (Hl1 i e Hi He) as [Hs _]. apply Hnin. rewrite <- Es. by eapply list_elem_of_lookup_2. }
  destruct (findString_spec _ _ _ _ _ _ str Hrep) as (k & -> & Hf). cbn [mbind option_bind].
  destruct Hf as [[-> _]|(Hk & e & He & Es)].
  2: { destruct (Hl1 k e Hk He) as [Hs _]. by destruct (Hno k e Hk He (Es (Forall_lookup_1 _ _ _ _ Hshort Hs))). }
  cbn [negb Z.eqb].
  destruct (placeEntry_spec false p E T cs I fl [] str Hrep (fun i e Hi He _ => Hno i e Hi He))
    as (p' & E' & T' & cs' & fl' & rl' & -> & Hrep' & [(e & He & Es & Er) Hold Hs Hc Ht] & _ & Hsame).
  destruct (Hsame eq_refl) as [-> ->]. do 4 eexists. split; [done|]. split; [done|]. split; [|split_and!; [lia|done|done]].
  assert (forall j, 0 < j -> j <> I -> Z.to_nat (j - 1) <> length strs) as Hidx by lia.
  split.
  - intros j ej Hj Hej. destruct (decide (j = I)) as [->|Hne].
    + rewrite He in Hej. injection Hej as <-. split; [|done]. rewrite lookup_app_r by lia.
      replace (Z.to_nat (I - 1) - length strs)%nat with 0%nat by lia. cbn. by rewrite Es.
    + specialize (Hold j Hj Hne). rewrite Hej in Hold. destruct (entryAt E j) as [e0|] eqn:He0; [|done].
      injection Hold as E1 _ _ E4. destruct (Hl1 j e0 Hj He0) as [Hx Hy]. rewrite E1, E4. split; [|done]. by apply lookup_app_l_Some.
  - intros j s Hj Hs'. destruct (decide (j = I)) as [->|Hne].
    + exists e. split; [done|]. rewrite lookup_app_r in Hs' by lia.
      replace (Z.to_nat (I - 1) - length strs)%nat with 0%nat in Hs' by lia. injection Hs' as <-. done.
    + apply lookup_app_Some in Hs' as [Hs'|[Hge Hs']]; [|apply list_lookup_singleton_Some in Hs' as [? _]; specialize (Hidx j Hj Hne); lia].
      destruct (Hl2 j s Hj Hs') as (e0 & He0 & Es0). specialize (Hold j Hj Hne). rewrite He0 in Hold.
      destruct (entryAt E' j) as [e1|]; [|done]. injection Hold as _ _ _ E4. exists e1. split; [done|congruence].
Qed.

Lemma initSymbols_spec l : forall p E T cs m strs,
  rep p E T cs (seqZ (Z.of_nat (S (length strs))) (Z.of_nat m)) [] -> listed E strs -> Forall short (strs ++ l) -> NoDup (strs ++ l) ->
  (length l <= m)%nat ->
  HashTableSize p <= 128 -> EntriesCount p + Z.of_nat (length l) <= 128 ->
  exists p' E' T' cs', initSymbols l p = Some (true, p') /\ listed E' (strs ++ l) /\ HashTableSize p' <= 128 /\
    EntriesCount p' = EntriesCount p + Z.of_nat (length l) /\ EntriesSize p' = EntriesSize p /\
    rep p' E' T' cs' (seqZ (Z.of_nat (S (length (strs ++ l)))) (Z.of_nat (m - length l))) [].
Proof.
  induction l as [|str l IH]; intros p E T cs m strs Hrep Hl Hshort Hnd Hm Hsz Hc; cbn [initSymbols].
  - rewrite app_nil_r. do 4 eexists. split_and!; try done; [cbn; lia|]. by rewrite Nat.sub_0_r.
  - destruct m as [|m]; [cbn in Hm; lia|]. rewrite seqZ_cons in Hrep by lia. cbn [length] in Hc, Hm.
    apply list.NoDup_app in Hnd as Hnd1. destruct Hnd1 as (_ & Hdis & _).
    destruct (newSymbolInit_spec p E T cs _ strs str _ Hrep Hl (proj1 (proj1 (Forall_app _ _ _) Hshort)) eq_refl) as (p1 & E1 & T1 & cs1 & -> & Hrep1 & Hl1 & Hsz1 & Hc1 & Hs1);
      [intros Hin; apply (Hdis _ Hin); by left|done|lia|].
    cbn [mbind option_bind]. rewrite (proj2 (Z.eqb_neq _ 0)) by lia.
    destruct (IH p1 E1 T1 cs1 m (strs ++ [str])) as (p' & E' & T' & cs' & -> & Hl' & Hsz' & Hc' & Hs' & Hrep'); try done.
    + rewrite length_app. cbn [length]. replace (Z.of_nat (S (length strs + 1))) with (Z.succ (Z.of_nat (S (length strs)))) by lia.
      by replace (Z.of_nat m) with (Z.pred (Z.of_nat (S m))) by lia.
    + by rewrite <- app_assoc.
    + by rewrite <- app_assoc.
    + lia.
    + lia.
    + rewrite <- app_assoc in *. cbn [app] in *. do 4 eexists. split_and!; try done; [cbn [length]; lia|congruence].
Qed.

Lemma resize_first T r :
  resizeEntriesArray (mkPool 128 T 0 0 None 0 r) = Some (true, mkPool 128 T 1 211 (Some (Zeroth 1 :: freeSlots 1 211)) 1 0).
Proof. unfold resizeEntriesArray. generalize (freeSlots 1). intros F. reflexivity. Qed.

Lemma init_nodup : NoDup WASMInitSymbols.
Proof. apply (bool_decide_unpack (NoDup WASMInitSymbols)). vm_compute. exact I. Qed.

Lemma init_short : Forall short WASMInitSymbols.
Proof. by repeat constructor. Qed.

Lemma initial_listed : listed (Zeroth 1 :: freeSlots 1 211) [].
Proof.
  split; [|by intros j str Hj]. intros j e Hj He. exfalso.
  change (Zeroth 1 :: freeSlots 1 211) with ([Zeroth 1] ++ freeSlots 1 211) in He.
  rewrite entryAt_app in He by (intros x; apply freeSlots_free). unfold entryAt in He.
  by destruct (Z.to_nat j) as [|n] eqn:Ej; [lia|].
Qed.

(** [initPool] succeeds. *)
Lemma initPool_spec : exists E T cs,
  initPool newPool = Some (true, initialPool) /\ rep initialPool E T cs (seqZ WASM_SYMBOLS_END 192) [] /\
  listed E WASMInitSymbols /\ HashTableSize initialPool <= 128 /\ EntriesCount initialPool = WASM_SYMBOLS_END /\ EntriesSize initialPool = 211.
Proof.
  pose proof (rep_empty 209 ltac:(by vm_compute)) as Hrep. cbn zeta in Hrep. change (Z.of_nat (S (S 209))) with 211 in Hrep.
  change (Z.of_nat (S 209)) with (Z.of_nat 210) in Hrep.
  destruct (initSymbols_spec WASMInitSymbols _ _ _ _ 210 [] Hrep initial_listed init_short init_nodup)
    as (p' & E & T & cs & Ei & Hl & Hsz & Hc & Hs & Hrep').
  - change (length WASMInitSymbols) with 18%nat. lia.
  - done.
  - done.
  - assert (initPool newPool = Some (true, p')) as Er by (unfold initPool; cbn [StrHashTable newPool RecycleIndex]; rewrite resize_first; exact Ei).
    assert (initialPool = p') as -> by (unfold initialPool; by rewrite Er).
    exists E, T, cs. by split_and!.
Qed.
