(* ===== verification/ModuleLoader.v ===== *)
(** The loader of WebAssembly modules: [src/src/action/module_loader.{h,cpp}],
    with the entries of a module ([src/src/runtime/module.h]), the limits of
    [src/src/common/defines.h] for a build without [ZEN_ENABLE_DWASM], and what
    it uses of [runtime.cpp] and [utils/math.h].  [SpecTest] is the option
    [ZEN_ENABLE_SPEC_TEST]; the hooks for checked arithmetic and the lists
    the multipass compiler collects are not modelled.

    A pointer into the module is its offset from [Start].  The size of a
    module is below the address space, so adding a 32-bit number to a pointer
    does not overflow.  A table of entries is written when its section ends:
    nothing looks at an entry before it is complete.  Of a byte sequence that
    the function loader patches in place, the module keeps the patched one. *)

From stdpp Require Import gmap.
From S2P Require Import Prelude Intx Leb128 FunctionLoader Unicode.

#[local] Open Scope Z_scope.

(** ** Limits *)

Definition UINT16_MAX : Z := 2 ^ 16 - 1.
Definition UINT32_MAX : Z := 2 ^ 32 - 1.
Definition WasmMagicNumber : Z := 0x6d736100.
Definition WasmVersion : Z := 1.
Definition PresetMaxNumMemories : Z := 1.
Definition PresetMaxNumTables : Z := 1.
Definition PresetMaxNumTypes : Z := UINT16_MAX.
Definition PresetMaxNumImports : Z := UINT16_MAX.
Definition PresetMaxNumFunctions : Z := UINT16_MAX.
Definition PresetMaxNumGlobals : Z := UINT16_MAX.
Definition PresetMaxNumExports : Z := UINT16_MAX.
Definition PresetMaxNumElemSegments : Z := UINT16_MAX.
Definition PresetMaxNumDataSegments : Z := 1024 * 1024.
Definition PresetMaxFunctionLocals : Z := UINT16_MAX.
Definition PresetMaxFunctionLocalCells : Z := UINT16_MAX.
Definition PresetMaxTableSize : Z := 1024 * 1024.
Definition PresetMaxTotalDataSize : Z := 1024 * 1024 * 1024.
Definition PresetMaxSectionSize : Z := 512 * 1024 * 1024.
Definition PresetMaxNameLength : Z := UINT16_MAX.
Definition PresetMaxNumParams : Z := UINT16_MAX.
Definition PresetMaxNumParamCells : Z := UINT16_MAX.
Definition PresetMaxNumReturns : Z := 1.
Definition PresetMaxNumReturnCells : Z := 2 ^ 6 - 1.
Definition PresetMaxMemoryPages : Z := 2 ^ 16.
Definition PresetMaxFunctionSize : Z := 16 * 1024 * 1024.
Definition PresetMaxTotalFunctionSize : Z := 512 * 1024 * 1024.
Definition PresetMaxDataSegmentSize : Z := 128 * 1024 * 1024.

(** [-1u] *)
Definition NONE32 : Z := UINT32_MAX.

(** ** Symbols *)

(** The names that are known in advance ([common/const_strings.def]). *)
Definition WASM_SYMBOL_NULL : Z := 0.
Definition WASM_SYMBOL_name : Z := 3.
Definition WASM_SYMBOL_wasi_unstable : Z := 6.
Definition WASM_SYMBOL_wasi_snapshot_preview1 : Z := 7.
Definition WASM_SYMBOL_spectest : Z := 8.
Definition WASM_SYMBOL_func_gas : Z := 16.

(** What the loader uses of the symbol pool of the runtime; [None] is
    undefined behaviour. *)
Class SymbolPool (P : Type) : Type := {
  newSymbol : list Z -> P -> option (Z * P);
  freeSymbol : Z -> P -> option P;
}.

(** ** The entries of a module *)

(** A declared type. *)
Record TypeDecl : Type := mkDecl { DType : TypeEntry; SmallestTypeIdx : nat }.

Record ImportFunctionEntry : Type := mkImportFunc {
  IFModule : Z; IFField : Z; IFTypeIdx : nat; FuncPtr : Z }.
Record ImportTableEntry : Type := mkImportTable {
  ITModule : Z; ITField : Z; ITInitSize : Z; ITMaxSize : Z }.
Record ImportMemoryEntry : Type := mkImportMemory {
  IMModule : Z; IMField : Z; InitPages : Z; MaxPages : Z }.
Record ImportGlobalEntry : Type := mkImportGlobal {
  IGModule : Z; IGField : Z; IGType : WASMType; IGMutable : bool; IGOffset : Z }.
Record FuncEntry : Type := mkFunc { FName : Z; TypeIdx : nat; OriginTypeIdx : nat }.
Record TableEntry : Type := mkTable { TInitSize : Z; TMaxSize : Z }.
Record MemoryEntry : Type := mkMemory { MInitSize : Z; MMaxSize : Z }.

(** [union InitExpr]; a floating-point number is its object representation. *)
Inductive InitExpr : Type :=
| InitGlobal (GlobalIdx : Z) | InitI32 (n : Z) | InitI64 (n : Z) | InitF32 (bs : list Z) | InitF64 (bs : list Z).

Record GlobalDef : Type := mkGlobalDef {
  GDType : WASMType; GDMutable : bool; GDInitExprKind : Z; GDInitExprVal : InitExpr; GDOffset : Z }.
Record ExportEntry : Type := mkExport { XName : Z; XKind : Z; ItemIdx : Z }.
Record ElemEntry : Type := mkElem {
  ETableIdx : Z; EInitExprKind : Z; EInitExprVal : InitExpr; FuncIdxs : list Z }.
Record CodeEntry : Type := mkCode {
  CodePtr : nat; CCodeSize : Z; CMaxStackSize : Z; CMaxBlockDepth : Z; NumLocals : Z; NumLocalCells : Z;
  CLocalTypes : list WASMType; LocalOffsets : list Z; CStats : Z; CodeOffset : Z }.
Record DataEntry : Type := mkData {
  DMemIdx : Z; DSize : Z; DOffset : Z; DInitExprKind : Z; DInitExprVal : InitExpr }.

Record WasmModule : Type := mkModule {
  Types_ : list TypeDecl;
  ImportFuncs : list ImportFunctionEntry;
  ImportTables : list ImportTableEntry;
  ImportMemories : list ImportMemoryEntry;
  ImportGlobals : list ImportGlobalEntry;
  Funcs : list FuncEntry;
  Tables : list TableEntry;
  Memories : list MemoryEntry;
  Globals : list GlobalDef;
  GlobalVarSize : Z;
  Exports : list ExportEntry;
  GasFuncIdx : Z;
  StartFuncIdx : Z;
  Elements : list ElemEntry;
  DataCount : Z;
  Codes : list CodeEntry;
  Datas : list DataEntry;
}.

Definition newModule : WasmModule :=
  mkModule [] [] [] [] [] [] [] [] [] 0 [] NONE32 NONE32 [] NONE32 [] [].

Definition set_Types (t : list TypeDecl) (m : WasmModule) : WasmModule :=
  mkModule t (ImportFuncs m) (ImportTables m) (ImportMemories m) (ImportGlobals m) (Funcs m) (Tables m)
    (Memories m) (Globals m) (GlobalVarSize m) (Exports m) (GasFuncIdx m) (StartFuncIdx m) (Elements m)
    (DataCount m) (Codes m) (Datas m).
Definition set_Imports (f : list ImportFunctionEntry) (t : list ImportTableEntry) (mm : list ImportMemoryEntry)
    (g : list ImportGlobalEntry) (n : Z) (m : WasmModule) : WasmModule :=
  mkModule (Types_ m) f t mm g (Funcs m) (Tables m) (Memories m) (Globals m) n (Exports m) (GasFuncIdx m)
    (StartFuncIdx m) (Elements m) (DataCount m) (Codes m) (Datas m).
Definition set_Funcs (f : list FuncEntry) (m : WasmModule) : WasmModule :=
  mkModule (Types_ m) (ImportFuncs m) (ImportTables m) (ImportMemories m) (ImportGlobals m) f (Tables m)
    (Memories m) (Globals m) (GlobalVarSize m) (Exports m) (GasFuncIdx m) (StartFuncIdx m) (Elements m)
    (DataCount m) (Codes m) (Datas m).
Definition set_Tables (t : list TableEntry) (m : WasmModule) : WasmModule :=
  mkModule (Types_ m) (ImportFuncs m) (ImportTables m) (ImportMemories m) (ImportGlobals m) (Funcs m) t
    (Memories m) (Globals m) (GlobalVarSize m) (Exports m) (GasFuncIdx m) (StartFuncIdx m) (Elements m)
    (DataCount m) (Codes m) (Datas m).
Definition set_Memories (mm : list MemoryEntry) (m : WasmModule) : WasmModule :=
  mkModule (Types_ m) (ImportFuncs m) (ImportTables m) (ImportMemories m) (ImportGlobals m) (Funcs m) (Tables m)
    mm (Globals m) (GlobalVarSize m) (Exports m) (GasFuncIdx m) (StartFuncIdx m) (Elements m)
    (DataCount m) (Codes m) (Datas m).
Definition set_Globals (g : list GlobalDef) (n : Z) (m : WasmModule) : WasmModule :=
  mkModule (Types_ m) (ImportFuncs m) (ImportTables m) (ImportMemories m) (ImportGlobals m) (Funcs m) (Tables m)
    (Memories m) g n (Exports m) (GasFuncIdx m) (StartFuncIdx m) (Elements m)
    (DataCount m) (Codes m) (Datas m).
Definition set_Exports (l : list ExportEntry) (gas : Z) (m : WasmModule) : WasmModule :=
  mkModule (Types_ m) (ImportFuncs m) (ImportTables m) (ImportMemories m) (ImportGlobals m) (Funcs m) (Tables m)
    (Memories m) (Globals m) (GlobalVarSize m) l gas (StartFuncIdx m) (Elements m)
    (DataCount m) (Codes m) (Datas m).
Definition set_Start (n : Z) (m : WasmModule) : WasmModule :=
  mkModule (Types_ m) (ImportFuncs m) (ImportTables m) (ImportMemories m) (ImportGlobals m) (Funcs m) (Tables m)
    (Memories m) (Globals m) (GlobalVarSize m) (Exports m) (GasFuncIdx m) n (Elements m)
    (DataCount m) (Codes m) (Datas m).
Definition set_Elements (l : list ElemEntry) (m : WasmModule) : WasmModule :=
  mkModule (Types_ m) (ImportFuncs m) (ImportTables m) (ImportMemories m) (ImportGlobals m) (Funcs m) (Tables m)
    (Memories m) (Globals m) (GlobalVarSize m) (Exports m) (GasFuncIdx m) (StartFuncIdx m) l
    (DataCount m) (Codes m) (Datas m).
Definition set_DataCount (n : Z) (m : WasmModule) : WasmModule :=
  mkModule (Types_ m) (ImportFuncs m) (ImportTables m) (ImportMemories m) (ImportGlobals m) (Funcs m) (Tables m)
    (Memories m) (Globals m) (GlobalVarSize m) (Exports m) (GasFuncIdx m) (StartFuncIdx m) (Elements m)
    n (Codes m) (Datas m).
Definition set_Codes (l : list CodeEntry) (m : WasmModule) : WasmModule :=
  mkModule (Types_ m) (ImportFuncs m) (ImportTables m) (ImportMemories m) (ImportGlobals m) (Funcs m) (Tables m)
    (Memories m) (Globals m) (GlobalVarSize m) (Exports m) (GasFuncIdx m) (StartFuncIdx m) (Elements m)
    (DataCount m) l (Datas m).
Definition set_Datas (l : list DataEntry) (m : WasmModule) : WasmModule :=
  mkModule (Types_ m) (ImportFuncs m) (ImportTables m) (ImportMemories m) (ImportGlobals m) (Funcs m) (Tables m)
    (Memories m) (Globals m) (GlobalVarSize m) (Exports m) (GasFuncIdx m) (StartFuncIdx m) (Elements m)
    (DataCount m) (Codes m) l.

(** What the function loader reads of the module. *)
Definition view (m : WasmModule) : Module_ :=
  mkMod (DType <$> Types_ m) (IFTypeIdx <$> ImportFuncs m) (TypeIdx <$> Funcs m)
    ((fun g => mkGlobal (IGType g) (IGMutable g)) <$> ImportGlobals m)
    ((fun g => mkGlobal (GDType g) (GDMutable g)) <$> Globals m)
    (length (ImportTables m) + length (Tables m)) (length (ImportMemories m) + length (Memories m)).

Definition isValidMem (m : WasmModule) (MemIdx : Z) : bool :=
  MemIdx <? Z.of_nat (NumTotalMemories (view m)).
Definition isValidImportGlobal (m : WasmModule) (GlobalIdx : Z) : bool :=
  GlobalIdx <? Z.of_nat (length (ImportGlobals m)).

(** ** Host modules *)

Record NativeFuncDesc : Type := mkNative {
  n_name : Z; n_ptr : Z; n_param_count : Z; n_ret_count : Z; n_func_type : list WASMType; n_isReserved : bool }.

(** ** The loader *)

Section Loader.
Context {P : Type} {SP : SymbolPool P}.
(** The result of an oversized shift (see [Leb128]), [ZEN_ENABLE_SPEC_TEST],
    and the host modules of the runtime. *)
Context (wide_shift : Z -> Z -> Z) (SpecTest : bool) (HostModulePool : gmap Z (list NativeFuncDesc)).

Record ModuleLoader : Type := mkML {
  MBytes : list Z;
  MPtr : nat;
  MEnd : nat;
  Mod : WasmModule;
  HasNameSection : bool;
  Pool : P;
}.

Definition set_MBytes (b : list Z) (s : ModuleLoader) : ModuleLoader :=
  mkML b (MPtr s) (MEnd s) (Mod s) (HasNameSection s) (Pool s).
Definition set_MPtr (p : nat) (s : ModuleLoader) : ModuleLoader :=
  mkML (MBytes s) p (MEnd s) (Mod s) (HasNameSection s) (Pool s).
Definition set_MEnd (p : nat) (s : ModuleLoader) : ModuleLoader :=
  mkML (MBytes s) (MPtr s) p (Mod s) (HasNameSection s) (Pool s).
Definition set_Mod (m : WasmModule) (s : ModuleLoader) : ModuleLoader :=
  mkML (MBytes s) (MPtr s) (MEnd s) m (HasNameSection s) (Pool s).
Definition set_HasName (b : bool) (s : ModuleLoader) : ModuleLoader :=
  mkML (MBytes s) (MPtr s) (MEnd s) (Mod s) b (Pool s).
Definition set_Pool (p : P) (s : ModuleLoader) : ModuleLoader :=
  mkML (MBytes s) (MPtr s) (MEnd s) (Mod s) (HasNameSection s) p.

#[local] Abbreviation mbody := (body (E := ErrorCode) (S := ModuleLoader)).

Definition getMod {A} (f : WasmModule -> A) : mbody A := gets (fun s => f (Mod s)).
Definition putMod (f : WasmModule -> WasmModule) : mbody unit := modify (fun s => set_Mod (f (Mod s)) s).

(** A reader of [LoaderCommon], between [Ptr] and [End]. *)
Definition scan {A} (f : list Z -> ErrorCode + (A * list Z)) : mbody A := fun s =>
  match f (drop (MPtr s) (take (MEnd s) (MBytes s))) with
  | inl e => Throw e s
  | inr (a, rest) => Ret a (set_MPtr (MEnd s - length rest) s)
  end.

Definition mByte : mbody Z := scan readByte.
Definition mU32 : mbody Z := scan (readU32 wide_shift).

Definition mTypeBase (Func : Z -> WASMType) : mbody WASMType :=
  TypeOpcode <- mByte;;
  let Type_ := Func TypeOpcode in
  if bool_decide (Type_ = ERROR_TYPE) then throw InvalidType else ret Type_.

Definition getWASMRefTypeFromOpcode (Opcode : Z) : WASMType :=
  if Opcode =? 0x70 then FUNCREF else ERROR_TYPE.
Definition readValType : mbody WASMType := mTypeBase getWASMValTypeFromOpcode.
Definition readRefType : mbody WASMType := mTypeBase getWASMRefTypeFromOpcode.

(** [addOverflow] and [mulOverflow] on [uint32_t], throwing [e]. *)
Definition add32 (e : ErrorCode) (x y : Z) : mbody Z :=
  if UINT32_MAX <? x + y then throw e else ret (x + y).
Definition mul32 (e : ErrorCode) (x y : Z) : mbody Z :=
  if UINT32_MAX <? x * y then throw e else ret (x * y).

Definition check (b : bool) (e : ErrorCode) : mbody unit := if b then ret tt else throw e.

(** [for (uint32_t I = 0; I < N; ++I)].  Every turn of such a loop reads a
    byte or throws, so that one turn more than there are bytes is enough. *)
Fixpoint forLoop {A} (fuel : nat) (I N : Z) (f : Z -> A -> mbody A) (a : A) : mbody A :=
  if I <? N then
    match fuel with
    | O => undef
    | S fuel => a' <- f I a;; forLoop fuel (I + 1) N f a'
    end
  else ret a.

Definition for_ {A} (N : Z) (f : Z -> A -> mbody A) (a : A) : mbody A :=
  n <- gets (fun s => (MEnd s - MPtr s)%nat);; forLoop (S n) 0 N f a.

(** ** Symbols *)

Definition mNewSymbol (str : list Z) : mbody Z := fun s =>
  match newSymbol str (Pool s) with Some (k, p) => Ret k (set_Pool p s) | None => Undef end.
Definition mFreeSymbol (k : Z) : mbody unit := fun s =>
  match freeSymbol k (Pool s) with Some p => Ret tt (set_Pool p s) | None => Undef end.

(** The scope of a [SymbolWrapper], which frees the symbol when an exception
    passes. *)
Definition guarded {A} (k : Z) (m : mbody A) : mbody A := fun s =>
  match m s with
  | Throw e s' => match mFreeSymbol k s' with Ret _ s'' => Throw e s'' | _ => Undef end
  | o => o
  end.

(** And when it ends. *)
Definition scoped {A} (k : Z) (m : mbody A) : mbody A :=
  a <- guarded k m;; mFreeSymbol k;;; ret a.

Definition readName : mbody Z :=
  NameLen <- mU32;;
  NameBytes <- scan (readBytes NameLen);;
  check (NameLen <=? PresetMaxNameLength) TooLongName;;;
  check (validateUTF8String NameBytes) InvalidUTF8Encoding;;;
  NameSymbol <- mNewSymbol NameBytes;;
  check (negb (NameSymbol =? WASM_SYMBOL_NULL)) SymbolAllocFailed;;;
  ret NameSymbol.

(** ** Types and expressions *)

Definition readLimits : mbody (Z * option Z) :=
  Flag <- mByte;;
  check (Flag <=? 1) InvalidLimitsFlag;;;
  Min <- mU32;;
  if Flag =? 1 then
    Max <- mU32;;
    check (Min <=? Max) SizeMinimumGreaterThenMaximum;;;
    ret (Min, Some Max)
  else ret (Min, None).

Definition readTableType : mbody (Z * Z) :=
  readRefType;;;
  l <- readLimits;;
  let MaxTableSize := default PresetMaxTableSize l.2 in
  check ((l.1 <=? PresetMaxTableSize) && (MaxTableSize <=? PresetMaxTableSize)) TableSizeTooLarge;;;
  ret (l.1, MaxTableSize).

Definition readMemoryType : mbody (Z * Z) :=
  l <- readLimits;;
  let MaxMemPages := default PresetMaxMemoryPages l.2 in
  check ((l.1 <=? PresetMaxMemoryPages) && (MaxMemPages <=? PresetMaxMemoryPages)) MemorySizeTooLarge;;;
  ret (l.1, MaxMemPages).

Definition readGlobalType : mbody (WASMType * bool) :=
  Type_ <- readValType;;
  MutableFlag <- mByte;;
  check (MutableFlag <=? 1) InvalidMutability;;;
  ret (Type_, MutableFlag =? 1).

Definition readConstExpr (Type_ : WASMType) : mbody (Z * InitExpr) :=
  Opcode <- mByte;;
  r <- (if Opcode =? 0x41 then n <- scan (readI32 wide_shift);; ret (I32, InitI32 n)
        else if Opcode =? 0x42 then n <- scan (readI64 wide_shift);; ret (I64, InitI64 n)
        else if Opcode =? 0x43 then bs <- scan (readBytes 4);; ret (F32, InitF32 bs)
        else if Opcode =? 0x44 then bs <- scan (readBytes 8);; ret (F64, InitF64 bs)
        else if Opcode =? 0x23 then
          GlobalIdx <- mU32;;
          ok <- getMod (fun m => isValidImportGlobal m GlobalIdx);;
          check ok UnknownGlobal;;;
          g <- getMod (fun m => ImportGlobals m !! Z.to_nat GlobalIdx);;
          Global <- of_option g;;
          check (negb (IGMutable Global)) ConstExprRequired;;;
          ret (IGType Global, InitGlobal GlobalIdx)
        else throw TypeMismatchOrConstExprRequired);;
  check (bool_decide (r.1 = Type_)) TypeMismatch;;;
  e <- mByte;;
  check (e =? 0x0b) TypeMismatchOrConstExprRequired;;;
  ret (Opcode, r.2).

(** ** Imported functions *)

Definition resolveHostModule (Name : Z) : option (list NativeFuncDesc) :=
  HostModulePool !! (if Name =? WASM_SYMBOL_wasi_unstable then WASM_SYMBOL_wasi_snapshot_preview1 else Name).

(** The normal lookup, from [I] on. *)
Fixpoint findFunc (FieldName : Z) (I : nat) (l : list NativeFuncDesc) : option nat :=
  match l with
  | [] => None
  | f :: l => if negb (n_isReserved f) && (n_name f =? FieldName) then Some I else findFunc FieldName (S I) l
  end.

(** The fast lookup; [None] is undefined behaviour. *)
Definition fastFunc (FieldName : Z) (HostFuncs : list NativeFuncDesc) : option (option nat) :=
  f0 ← HostFuncs !! 0%nat;
  fn ← HostFuncs !! (length HostFuncs - 1)%nat;
  if (n_name f0 <=? FieldName) && (FieldName <=? n_name fn) then
    let NameIdx := FieldName - n_name f0 in
    if NameIdx <? Z.of_nat (length HostFuncs) then
      f ← HostFuncs !! Z.to_nat NameIdx;
      Some (if n_name f =? FieldName then Some (Z.to_nat NameIdx) else None)
    else Some None
  else Some None.

(** [Expected[I] != Actual[Base + I]] for an [I] stops the loading. *)
Fixpoint sameTypes (Expected : list WASMType) (Base : nat) (Actual : list WASMType) : option bool :=
  match Expected with
  | [] => Some true
  | t :: l => a ← Actual !! Base; if bool_decide (t = a) then sameTypes l (S Base) Actual else Some false
  end.

Definition resolveImportFunction (ModuleName FieldName : Z) (Expected : TypeEntry) : mbody Z :=
  match resolveHostModule ModuleName with
  | None => throw UnknownImport
  | Some HostFuncs =>
      fast <- of_option (fastFunc FieldName HostFuncs);;
      match (match fast with Some i => Some i | None => findFunc FieldName 0 HostFuncs end) with
      | None => throw UnknownImport
      | Some FoundIdx =>
          f <- of_option (HostFuncs !! FoundIdx);;
          check (Z.of_nat (length (ReturnTypes Expected)) =? n_ret_count f) IncompatibleImportType;;;
          check (Z.of_nat (length (ParamTypes Expected)) =? n_param_count f) IncompatibleImportType;;;
          r <- of_option (sameTypes (ReturnTypes Expected) (Z.to_nat (n_param_count f)) (n_func_type f));;
          check r IncompatibleImportType;;;
          p <- of_option (sameTypes (ParamTypes Expected) 0 (n_func_type f));;
          check p IncompatibleImportType;;;
          ret (n_ptr f)
      end
  end.

(** ** Sections *)

(** The parameter or return types of a declared type: their cells and they. *)
Definition readValTypes (N : Z) (e : ErrorCode) : mbody (Z * list WASMType) :=
  for_ N (fun _ acc =>
    Type_ <- readValType;;
    NumCells <- of_option (getWASMTypeCellNum Type_);;
    n <- add32 e acc.1 NumCells;;
    ret (n, acc.2 ++ [Type_])) (0, []).

(** [TypeEntry::isEqual] *)
Definition isEqual (t1 t2 : TypeEntry) : bool :=
  (length (ParamTypes t1) =? length (ParamTypes t2))%nat && (length (ReturnTypes t1) =? length (ReturnTypes t2))%nat
  && bool_decide (ParamTypes t1 = ParamTypes t2) && bool_decide (ReturnTypes t1 = ReturnTypes t2).

(** The first entry equal to [t], or [I]. *)
Fixpoint smallestIdx (t : TypeEntry) (J I : nat) (l : list TypeDecl) : nat :=
  match l with
  | [] => I
  | d :: l => if isEqual t (DType d) then J else smallestIdx t (S J) I l
  end.

Definition loadTypeSection : mbody unit :=
  NumTypes <- mU32;;
  check (NumTypes <=? PresetMaxNumTypes) TooManyTypes;;;
  l <- for_ NumTypes (fun I acc =>
    Flag <- mByte;;
    check (Flag =? 0x60) InvalidFuncTypeFlag;;;
    NumParams <- mU32;;
    check (NumParams <=? PresetMaxNumParams) TooManyParams;;;
    ps <- readValTypes NumParams TooManyParams;;
    check (ps.1 <=? PresetMaxNumParamCells) TooManyParams;;;
    NumReturns <- mU32;;
    check (NumReturns <=? PresetMaxNumReturns) TooManyReturns;;;
    rs <- readValTypes NumReturns TooManyReturns;;
    check (rs.1 <=? PresetMaxNumReturnCells) TooManyReturns;;;
    let Entry := mkType ps.2 rs.2 in
    ret (acc ++ [mkDecl Entry (smallestIdx Entry 0 (Z.to_nat I) acc)])) [];;
  putMod (set_Types l).

(** [ZEN_ALIGN] on [uint32_t], for a power of two *)
Definition ZEN_ALIGN (v a : Z) : Z := Z.land (u32 (v + a - 1)) (u32 (Z.lnot (a - 1))).

(** The offset of the next global variable. *)
Definition nextGlobalOffset (GlobalOffset : Z) (Type_ : WASMType) : mbody Z :=
  TypeSize <- of_option (getWASMTypeSize Type_);;
  add32 TooManyGlobals (ZEN_ALIGN GlobalOffset TypeSize) TypeSize.

Record Imports : Type := mkImports {
  iFuncs : list ImportFunctionEntry;
  iTables : list ImportTableEntry;
  iMemories : list ImportMemoryEntry;
  iGlobals : list ImportGlobalEntry;
  iOffset : Z;
}.

(** The import of one item, its names read. *)
Definition loadImport (ModuleName FieldName : Z) (acc : Imports) : mbody Imports :=
  ImportKind <- mByte;;
  if ImportKind =? 0 then
    TypeIdx <- mU32;;
    M <- getMod view;;
    check (isValidType M TypeIdx) UnknownTypeIdx;;;
    d <- getMod (fun m => Types_ m !! Z.to_nat TypeIdx);;
    Type_ <- of_option d;;
    ptr <- resolveImportFunction ModuleName FieldName (DType Type_);;
    ret (mkImports (iFuncs acc ++ [mkImportFunc ModuleName FieldName (SmallestTypeIdx Type_) ptr])
           (iTables acc) (iMemories acc) (iGlobals acc) (iOffset acc))
  else if (ImportKind =? 1) && SpecTest then
    t <- readTableType;;
    ret (mkImports (iFuncs acc) (iTables acc ++ [mkImportTable ModuleName FieldName t.1 t.2])
           (iMemories acc) (iGlobals acc) (iOffset acc))
  else if (ImportKind =? 2) && SpecTest then
    t <- readMemoryType;;
    ret (mkImports (iFuncs acc) (iTables acc) (iMemories acc ++ [mkImportMemory ModuleName FieldName t.1 t.2])
           (iGlobals acc) (iOffset acc))
  else if (ImportKind =? 3) && SpecTest then
    t <- readGlobalType;;
    check (negb t.2) InvalidMutability;;;
    next <- nextGlobalOffset (iOffset acc) t.1;;
    ret (mkImports (iFuncs acc) (iTables acc) (iMemories acc)
           (iGlobals acc ++ [mkImportGlobal ModuleName FieldName t.1 t.2 (iOffset acc)]) next)
  else if (1 <=? ImportKind) && (ImportKind <=? 3) then throw UnsupportedImport
  else throw InvalidImportKind.

(** The loop over the imports; the names read so far are freed when an
    exception passes. *)
Fixpoint importLoop (fuel : nat) (I N : Z) (acc : Imports) : mbody Imports :=
  if I <? N then
    match fuel with
    | O => undef
    | S fuel =>
        ModuleName <- readName;;
        guarded ModuleName
          (FieldName <- readName;;
           guarded FieldName (acc' <- loadImport ModuleName FieldName acc;; importLoop fuel (I + 1) N acc'))
    end
  else ret acc.

Definition loadImportSection : mbody unit :=
  NumImports <- mU32;;
  check (NumImports <=? PresetMaxNumImports) TooManyImports;;;
  n <- gets (fun s => (MEnd s - MPtr s)%nat);;
  r <- importLoop (S n) 0 NumImports (mkImports [] [] [] [] 0);;
  check (Z.of_nat (length (iFuncs r)) <=? PresetMaxNumFunctions) TooManyFunctions;;;
  check (Z.of_nat (length (iTables r)) <=? PresetMaxNumTables) TooManyTables;;;
  check (Z.of_nat (length (iMemories r)) <=? PresetMaxNumMemories) TooManyMemories;;;
  check (Z.of_nat (length (iGlobals r)) <=? PresetMaxNumGlobals) TooManyGlobals;;;
  putMod (set_Imports (iFuncs r) (iTables r) (iMemories r) (iGlobals r) (iOffset r)).

Definition loadFunctionSection : mbody unit :=
  NumFunctions <- mU32;;
  imp <- getMod (fun m => Z.of_nat (length (ImportFuncs m)));;
  Total <- add32 TooManyFunctions NumFunctions imp;;
  check (Total <=? PresetMaxNumFunctions) TooManyFunctions;;;
  l <- for_ NumFunctions (fun _ acc =>
    TypeIdx <- mU32;;
    M <- getMod view;;
    check (isValidType M TypeIdx) UnknownTypeIdx;;;
    d <- getMod (fun m => Types_ m !! Z.to_nat TypeIdx);;
    Type_ <- of_option d;;
    ret (acc ++ [mkFunc WASM_SYMBOL_NULL (SmallestTypeIdx Type_) (Z.to_nat TypeIdx)])) [];;
  putMod (set_Funcs l).

Definition loadTableSection : mbody unit :=
  NumTables <- mU32;;
  imp <- getMod (fun m => Z.of_nat (length (ImportTables m)));;
  Total <- add32 TooManyTables NumTables imp;;
  check (Total <=? PresetMaxNumTables) TooManyTables;;;
  l <- for_ NumTables (fun _ acc => t <- readTableType;; ret (acc ++ [mkTable t.1 t.2])) [];;
  putMod (set_Tables l).

Definition loadMemorySection : mbody unit :=
  NumMemories <- mU32;;
  imp <- getMod (fun m => Z.of_nat (length (ImportMemories m)));;
  Total <- add32 TooManyMemories NumMemories imp;;
  check (Total <=? PresetMaxNumMemories) TooManyMemories;;;
  l <- for_ NumMemories (fun _ acc => t <- readMemoryType;; ret (acc ++ [mkMemory t.1 t.2])) [];;
  putMod (set_Memories l).

Definition loadGlobalSection : mbody unit :=
  NumGlobals <- mU32;;
  imp <- getMod (fun m => Z.of_nat (length (ImportGlobals m)));;
  Total <- add32 TooManyGlobals NumGlobals imp;;
  check (Total <=? PresetMaxNumGlobals) TooManyGlobals;;;
  o <- getMod GlobalVarSize;;
  r <- for_ NumGlobals (fun _ acc =>
    t <- readGlobalType;;
    e <- readConstExpr t.1;;
    next <- nextGlobalOffset acc.2 t.1;;
    ret (acc.1 ++ [mkGlobalDef t.1 t.2 e.1 e.2 acc.2], next)) ([], o);;
  putMod (set_Globals r.1 r.2).

(** The item of an export; the gas function, if it is one. *)
Definition checkExport (Name Kind Idx : Z) (Gas : Z) : mbody Z :=
  m <- getMod id;;
  if Kind =? 0 then
    check (isValidFunc (view m) Idx) UnknownFunction;;;
    if Name =? WASM_SYMBOL_func_gas then
      t <- of_option (getFunctionType (view m) (Z.to_nat Idx));;
      check (bool_decide (ParamTypes t = [I64]) && bool_decide (ReturnTypes t = [])) InvalidGasFuncType;;;
      ret Idx
    else ret Gas
  else if Kind =? 1 then check (isValidTable (view m) Idx) UnknownTable;;; ret Gas
  else if Kind =? 2 then check (isValidMem m Idx) UnknownMemory;;; ret Gas
  else if Kind =? 3 then check (isValidGlobal (view m) Idx) UnknownGlobal;;; ret Gas
  else throw InvalidExportKind.

Definition loadExportSection : mbody unit :=
  NumExports <- mU32;;
  check (NumExports <=? PresetMaxNumExports) TooManyExports;;;
  g <- getMod GasFuncIdx;;
  r <- for_ NumExports (fun _ acc =>
    Name <- readName;;
    check (negb (bool_decide (Name ∈ (XName <$> acc.1)))) DuplicateExportName;;;
    ExportKind <- mByte;;
    ExportIdx <- mU32;;
    gas <- checkExport Name ExportKind ExportIdx acc.2;;
    ret (acc.1 ++ [mkExport Name ExportKind ExportIdx], gas)) ([], g);;
  putMod (set_Exports r.1 r.2).

Definition loadStartSection : mbody unit :=
  Idx <- mU32;;
  m <- getMod view;;
  check (isValidFunc m Idx) UnknownFunction;;;
  t <- of_option (getFunctionType m (Z.to_nat Idx));;
  check ((length (ParamTypes t) =? 0)%nat && (length (ReturnTypes t) =? 0)%nat) InvalidStartFuncType;;;
  putMod (set_Start Idx).

(** [initFuncIdxTable] checks the size of the array. *)
Definition loadElementSection : mbody unit :=
  NumElemSegments <- mU32;;
  check (NumElemSegments <=? PresetMaxNumElemSegments) TooManyElemSegments;;;
  l <- for_ NumElemSegments (fun _ acc =>
    TableIdx <- mU32;;
    m <- getMod view;;
    check (isValidTable m TableIdx) UnknownTable;;;
    e <- readConstExpr I32;;
    NumFuncIdxs <- mU32;;
    check (4 * NumFuncIdxs <=? UINT32_MAX) TooManyItems;;;
    fs <- for_ NumFuncIdxs (fun _ fs =>
      FuncIdx <- mU32;;
      check (isValidFunc m FuncIdx) UnknownFunction;;;
      ret (fs ++ [FuncIdx])) [];;
    ret (acc ++ [mkElem TableIdx e.1 e.2 fs])) [];;
  putMod (set_Elements l).

Definition loadDataCountSection : mbody unit := n <- mU32;; putMod (set_DataCount n).

(** *** Code *)

(** The first pass over the local variables: their number and their cells. *)
Definition countLocals (NumLocalVectors : Z) : mbody (Z * Z) :=
  for_ NumLocalVectors (fun _ acc =>
    NumSameLocals <- mU32;;
    n <- add32 TooManyLocals acc.1 NumSameLocals;;
    Type_ <- readValType;;
    NumCells <- of_option (getWASMTypeCellNum Type_);;
    same <- mul32 TooManyLocals NumSameLocals NumCells;;
    cells <- add32 TooManyLocals acc.2 same;;
    ret (n, cells)) (0, 0).

(** The second pass writes [NumLocals] types. *)
Definition readLocals (NumLocalVectors NumLocals : Z) : mbody (list WASMType) :=
  for_ NumLocalVectors (fun _ acc =>
    NumSameLocals <- mU32;;
    Type_ <- readValType;;
    if NumLocals <? Z.of_nat (length acc) + NumSameLocals then undef
    else ret (acc ++ replicate (Z.to_nat NumSameLocals) Type_)) [].

(** The offsets of variables of these types, from [LocalOffset] on, and the
    offset after them. *)
Fixpoint localOffsets (e : ErrorCode) (LocalOffset : Z) (l : list WASMType) : mbody (list Z * Z) :=
  match l with
  | [] => ret ([], LocalOffset)
  | t :: l =>
      Size <- of_option (getWASMTypeCellNum t);;
      next <- add32 e LocalOffset Size;;
      r <- localOffsets e next l;;
      ret (LocalOffset :: r.1, r.2)
  end.

(** [FunctionLoader::load] on the bytes up to [CodePtrEnd], which it patches. *)
Definition loadFunction (FuncType : TypeEntry) (LocalTypes : list WASMType) (CodePtrEnd : nat) : mbody FunctionLoader :=
  fun s =>
    let body_ := drop (MPtr s) (take CodePtrEnd (MBytes s)) in
    let patch fs := set_MBytes (take (MPtr s) (MBytes s) ++ LCode fs ++ drop CodePtrEnd (MBytes s)) s in
    match load wide_shift (view (Mod s)) FuncType LocalTypes body_ with
    | Ret _ fs => Ret fs (patch fs)
    | Throw e fs => Throw e (patch fs)
    | Exit _ | Undef => Undef
    end.

(** The body of function [I]. *)
Definition loadCode (I : Z) (CodeOffset_ : Z) : mbody (CodeEntry * Z) :=
  CodeSize <- mU32;;
  check (CodeSize <=? PresetMaxFunctionSize) FunctionSizeTooLarge;;;
  CodePtrStart <- gets MPtr;;
  NumLocalVectors <- mU32;;
  PrevPtr <- gets MPtr;;
  counts_ <- countLocals NumLocalVectors;;
  check ((counts_.1 <=? PresetMaxFunctionLocals) && (counts_.2 <=? PresetMaxFunctionLocalCells)) TooManyLocals;;;
  modify (set_MPtr PrevPtr);;;
  LocalTypes <- readLocals NumLocalVectors counts_.1;;
  if Z.of_nat (length LocalTypes) <? counts_.1 then undef     (* types that were never written *)
  else
    t <- getMod (fun m => getFunctionType (view m) (Z.to_nat I));;
    FuncType <- of_option t;;
    add32 TooManyLocals (Z.of_nat (length (ParamTypes FuncType))) counts_.1;;;
    ps <- localOffsets TooManyParams 0 (ParamTypes FuncType);;
    ls <- localOffsets TooManyLocals ps.2 LocalTypes;;
    Ptr_ <- gets MPtr;;
    let ActualCodeSize := u32 (Z.of_nat CodePtrStart + CodeSize - Z.of_nat Ptr_) in
    let CodePtrEnd := (Ptr_ + Z.to_nat ActualCodeSize)%nat in
    End_ <- gets MEnd;;
    check (CodePtrEnd <=? End_)%nat UnexpectedEnd;;;
    fs <- loadFunction FuncType LocalTypes CodePtrEnd;;
    modify (set_MPtr CodePtrEnd);;;
    next <- add32 CodeSectionTooLarge CodeOffset_ ActualCodeSize;;
    check (next <=? PresetMaxTotalFunctionSize) CodeSectionTooLarge;;;
    ret (mkCode Ptr_ ActualCodeSize (MaxStackSize fs) (MaxBlockDepth fs) counts_.1 counts_.2
           LocalTypes (ps.1 ++ ls.1) (Stats fs) CodeOffset_, next).

Definition loadCodeSection : mbody unit :=
  NumCodes <- mU32;;
  n <- getMod (fun m => Z.of_nat (length (Funcs m)));;
  check (NumCodes =? n) FuncCodeInconsistent;;;
  imp <- getMod (fun m => Z.of_nat (length (ImportFuncs m)));;
  r <- for_ NumCodes (fun I acc =>
    c <- loadCode (imp + I) acc.2;;
    ret (acc.1 ++ [c.1], c.2)) ([], 0);;
  putMod (set_Codes r.1).

(** *** Data *)

Definition loadDataSection : mbody unit :=
  NumDataSegments <- mU32;;
  check (NumDataSegments <=? PresetMaxNumDataSegments) TooManyDataSegments;;;
  count <- getMod DataCount;;
  check ((count =? NONE32) || (NumDataSegments =? count)) DataSegAndDataCountInconsistent;;;
  r <- for_ NumDataSegments (fun _ acc =>
    MemIdx <- mU32;;
    m <- getMod id;;
    check (isValidMem m MemIdx) UnknownMemory;;;
    e <- readConstExpr I32;;
    DataSegmentSize <- mU32;;
    check (DataSegmentSize <=? PresetMaxDataSegmentSize) DataSegmentTooLarge;;;
    total <- add32 DataSegmentTooLarge acc.2 DataSegmentSize;;
    p <- gets MPtr;;
    End_ <- gets MEnd;;
    let next := (p + Z.to_nat DataSegmentSize)%nat in
    check (next <=? End_)%nat UnexpectedEnd;;;
    modify (set_MPtr next);;;
    ret (acc.1 ++ [mkData MemIdx DataSegmentSize (u32 (Z.of_nat p)) e.1 e.2], total)) ([], 0);;
  check (r.2 <=? PresetMaxTotalDataSize) DataSectionTooLarge;;;
  putMod (set_Datas r.1).

(** *** Names *)

(** [Func.Name = FuncName.release()] *)
Definition setFuncName (i : nat) (Name : Z) : mbody unit :=
  l <- getMod Funcs;;
  f <- of_option (l !! i);;
  putMod (set_Funcs (<[i := mkFunc Name (TypeIdx f) (OriginTypeIdx f)]> l)).

Definition loadFuncNames : mbody unit :=
  NumFuncNames <- mU32;;
  n <- getMod (fun m => getNumTotalFunctions (view m));;
  check (NumFuncNames <=? n) OutOfRangeFuncIdx;;;
  for_ NumFuncNames (fun _ LastFuncIdx =>
    FuncIdx <- mU32;;
    m <- getMod view;;
    check (isValidFunc m FuncIdx) UnknownFunction;;;
    (if LastFuncIdx =? NONE32 then ret tt
     else
       check (LastFuncIdx <=? FuncIdx) OutOfOrderFuncIdx;;;
       check (negb (FuncIdx =? LastFuncIdx)) DuplicateFuncName);;;
    FuncName <- readName;;
    NumImportFuncs <- getMod (fun m => Z.of_nat (length (ImportFuncs m)));;
    (if NumImportFuncs <=? FuncIdx then setFuncName (Z.to_nat (FuncIdx - NumImportFuncs)) FuncName
     else mFreeSymbol FuncName);;;
    ret FuncIdx) NONE32;;;
  ret tt.

(** [NoneSubSec], and the type of the last subsection known. *)
Definition NoneSubSec : Z := 255.
Definition NAMESEC_FUNCTION : Z := 1.
Definition NAMESEC_LAST : Z := 10.

(** [while (Ptr < End)]; every turn reads a byte. *)
Fixpoint nameLoop (fuel : nat) (LastSubSecType : Z) : mbody unit := fun s =>
  if (MPtr s <? MEnd s)%nat then
    match fuel with
    | O => Undef
    | S fuel =>
        (SubSecType <- mByte;;
         SubSecSize <- mU32;;
         (if LastSubSecType =? NoneSubSec then ret tt
          else
            check (LastSubSecType <=? SubSecType) OutOfOrderNameSubSection;;;
            check (negb (SubSecType =? LastSubSecType)) DuplicateSubSection;;;
            check (SubSecType <=? NAMESEC_LAST) InvalidNameSubSection);;;
         check (SubSecSize <=? PresetMaxSectionSize) SectionSizeTooLarge;;;
         p <- gets MPtr;;
         End_ <- gets MEnd;;
         let SubSecEnd := (p + Z.to_nat SubSecSize)%nat in
         check (SubSecEnd <=? End_)%nat UnexpectedEnd;;;
         modify (set_MEnd SubSecEnd);;;
         (if SubSecType =? NAMESEC_FUNCTION then loadFuncNames else modify (set_MPtr SubSecEnd));;;
         modify (set_MEnd End_);;;
         p <- gets MPtr;;
         check (p =? SubSecEnd)%nat SectionSizeMismath;;;
         nameLoop fuel SubSecType) s
    end
  else Ret tt s.

Definition loadNameSection : mbody unit :=
  n <- gets (fun s => (MEnd s - MPtr s)%nat);;
  nameLoop n NoneSubSec;;;
  modify (set_HasName true).

Definition loadCustomSection : mbody unit :=
  Name <- readName;;
  scoped Name
    (if Name =? WASM_SYMBOL_name then loadNameSection else modify (fun s => set_MPtr (MEnd s) s)).

(** ** The module *)

(** [getSectionOrder]; the data count comes before the code. *)
Definition getSectionOrder (SecType : Z) : Z :=
  if SecType =? 0x0c then 10 else if SecType =? 0x0a then 11 else if SecType =? 0x0b then 12 else SecType.

Definition SEC_LAST : Z := 0x0c.

Definition loadSection (SecType : Z) : mbody unit :=
  if SecType =? 0 then loadCustomSection
  else if SecType =? 1 then loadTypeSection
  else if SecType =? 2 then loadImportSection
  else if SecType =? 3 then loadFunctionSection
  else if SecType =? 4 then loadTableSection
  else if SecType =? 5 then loadMemorySection
  else if SecType =? 6 then loadGlobalSection
  else if SecType =? 7 then loadExportSection
  else if SecType =? 8 then loadStartSection
  else if SecType =? 9 then loadElementSection
  else if SecType =? 12 then loadDataCountSection
  else if SecType =? 10 then loadCodeSection
  else if SecType =? 11 then loadDataSection
  else undef.

(** One section of [loadModuleBody]; the order of the last section. *)
Definition loadOneSection (LastSecOrder : Z) : mbody Z :=
  SecType <- mByte;;
  SecSize <- mU32;;
  check (SecType <=? SEC_LAST) InvalidSectionId;;;
  last <- (if SecType =? 0 then ret LastSecOrder
           else
             check (LastSecOrder <? getSectionOrder SecType) JunkAfterLastSection;;;
             ret (getSectionOrder SecType));;
  named <- gets HasNameSection;;
  check (negb named || (SecType =? 0)) InvalidNameSectionPosition;;;
  check (SecSize <=? PresetMaxSectionSize) SectionSizeTooLarge;;;
  p <- gets MPtr;;
  End_ <- gets MEnd;;
  let SecEnd := (p + Z.to_nat SecSize)%nat in
  check (SecEnd <=? End_)%nat UnexpectedEnd;;;
  modify (set_MEnd SecEnd);;;
  loadSection SecType;;;
  modify (set_MEnd End_);;;
  p <- gets MPtr;;
  check (p =? SecEnd)%nat SectionSizeMismath;;;
  ret last.

(** [while (Ptr < End)]; every turn reads a byte. *)
Fixpoint sectionLoop (fuel : nat) (LastSecOrder : Z) : mbody unit := fun s =>
  if (MPtr s <? MEnd s)%nat then
    match fuel with
    | O => Undef
    | S fuel => (last <- loadOneSection LastSecOrder;; sectionLoop fuel last) s
    end
  else Ret tt s.

Definition loadModuleHeader : mbody unit :=
  magic <- scan readPlainU32;;
  check (magic =? WasmMagicNumber) MagicNotDetected;;;
  version <- scan readPlainU32;;
  check (version =? WasmVersion) UnknownBinaryVersion.

Definition loadModuleBody : mbody unit :=
  n <- gets (fun s => (MEnd s - MPtr s)%nat);;
  sectionLoop n 0;;;
  m <- getMod id;;
  check (length (Funcs m) =? length (Codes m))%nat FuncCodeInconsistent.

(** The tables and memories of the test host. *)
Definition patchForSpecTest (m : WasmModule) : WasmModule :=
  set_Imports (ImportFuncs m)
    ((fun t => if ITModule t =? WASM_SYMBOL_spectest
               then mkImportTable (ITModule t) (ITField t) 10 20 else t) <$> ImportTables m)
    ((fun t => if IMModule t =? WASM_SYMBOL_spectest
               then mkImportMemory (IMModule t) (IMField t) 1 2 else t) <$> ImportMemories m)
    (ImportGlobals m) (GlobalVarSize m) m.

(** [ModuleLoader::load] on the bytes of a module. *)
Definition loadModule (Bytes_ : list Z) (p : P) : out ErrorCode ModuleLoader unit :=
  (loadModuleHeader;;;
   loadModuleBody;;;
   if SpecTest then putMod patchForSpecTest else ret tt)
  (mkML Bytes_ 0 (length Bytes_) newModule false p).
End Loader.
