(* ===== verification/ModuleLoaderInv.v ===== *)
(** The rules the module loader is verified with: what the readers, the loops
    and the scopes of symbols do, whatever the bytes. *)

From stdpp Require Import gmap.
From S2P Require Import Prelude Intx Leb128 Leb128Correct FunctionLoader FunctionLoaderInv FunctionLoaderSteps Unicode ModuleLoader.

#[local] Open Scope Z_scope.

(** ** The symbol pool *)

(** The symbols that may be asked of a pool: fewer than its reference counts
    and its table of entries have room for. *)
Definition MaxSymbols : Z := 5 * 2 ^ 27.

(** [holds p l]: the references of [l] are held, a symbol as often as it is in
    [l].  [aged n p]: at most [n] symbols have been asked of the pool. *)
Class SymbolPoolLaws (P : Type) {SP : SymbolPool P} : Type := {
  holds : P -> list Z -> Prop;
  aged : Z -> P -> Prop;
  holds_perm p l l' : l ≡ₚ l' -> holds p l -> holds p l';
  new_law p n l str :
    Forall is_byte str -> Z.of_nat (length str) <= PresetMaxNameLength -> holds p l -> aged n p -> n < MaxSymbols ->
    exists k p', newSymbol str p = Some (k, p') /\ holds p' (k :: l) /\ aged (n + 1) p';
  free_law p l k : holds p (k :: l) ->
    exists p', freeSymbol k p = Some p' /\ holds p' l /\ forall n, aged n p -> aged n p';
}.

Section Rules.
Context {P : Type} {SP : SymbolPool P} {SL : SymbolPoolLaws P}.
Context (wide_shift : Z -> Z -> Z).

#[local] Abbreviation ML := (ModuleLoader (P := P)).
#[local] Abbreviation mbody := (body (E := ErrorCode) (S := ML)).

(** At least these references are held. *)
Definition held (l : list Z) (s : ML) : Prop := exists rest, holds (Pool s) (l ++ rest).

Lemma held_nil k l s : held (k :: l) s -> held l s.
Proof.
  intros [rest Hr]. exists (k :: rest). eapply holds_perm; [|exact Hr]. cbn. apply Permutation_middle.
Qed.

(** ** Outcomes: falling through with [Q], or throwing, with the references
    of [l] still held. *)
Definition runs {A} (l : list Z) (m : mbody A) (Q : A -> ML -> Prop) (s : ML) : Prop :=
  match m s with Ret a s' => Q a s' | Throw _ s' => held l s' | Exit _ | Undef => False end.

Lemma mruns_ret {A} l (a : A) Q s : Q a s -> runs l (ret a) Q s.
Proof. done. Qed.
Lemma mruns_throw {A} l e (Q : A -> _ -> Prop) s : held l s -> runs l (throw e) Q s.
Proof. done. Qed.
Lemma mruns_gets {A} l (f : _ -> A) Q s : Q (f s) s -> runs l (gets f) Q s.
Proof. done. Qed.
Lemma mruns_modify l f Q s : Q tt (f s) -> runs l (modify f) Q s.
Proof. done. Qed.
Lemma mruns_bind {A B} l (m : mbody A) (k : A -> mbody B) Q s :
  runs l m (fun a s' => runs l (k a) Q s') s -> runs l (bind m k) Q s.
Proof. unfold runs, bind. by destruct (m s). Qed.
Lemma mruns_mono {A} l (m : mbody A) (Q Q' : A -> _ -> Prop) s :
  runs l m Q s -> (forall a s', Q a s' -> Q' a s') -> runs l m Q' s.
Proof. unfold runs. destruct (m s); naive_solver. Qed.
Lemma mruns_option {A} l (o : option A) a Q s : o = Some a -> Q a s -> runs l (of_option o) Q s.
Proof. by intros ->. Qed.
Lemma mruns_check l b e Q s : held l s -> (b = true -> Q tt s) -> runs l (check b e) Q s.
Proof. unfold check, runs. intros Hh HQ. destruct b; [by apply HQ|done]. Qed.
Lemma mruns_ret_of {A} l (m : mbody A) Q s a s' : runs l m Q s -> m s = Ret a s' -> Q a s'.
Proof. unfold runs. intros H E. by rewrite E in H. Qed.

(** ** States *)

(** The pool has room for [n] more symbols. *)
Definition room (n : nat) (s : ML) : Prop := exists a, aged a (Pool s) /\ a + Z.of_nat n <= MaxSymbols.

Lemma room_weak n n' s s' : room n s -> Pool s' = Pool s -> (n' <= n)%nat -> room n' s'.
Proof. intros (a & Ha & Hn) E Hn'. exists a. rewrite E. split; [done|lia]. Qed.

Record ok (l : list Z) (s : ML) : Prop := {
  ok_bytes : Forall is_byte (MBytes s);
  ok_size : Z.of_nat (length (MBytes s)) <= 2 ^ 29;
  ok_ptr : (MPtr s <= MEnd s <= length (MBytes s))%nat;
  ok_held : held l s;
  ok_room : room (length (MBytes s) - MPtr s) s;
}.

(** At least [n] bytes are read, and nothing else changes; the pool may. *)
Record reads (n : nat) (s s' : ML) : Prop := {
  rd_bytes : MBytes s' = MBytes s;
  rd_end : MEnd s' = MEnd s;
  rd_mod : Mod s' = Mod s;
  rd_named : HasNameSection s' = HasNameSection s;
  rd_ptr : (MPtr s + n <= MPtr s')%nat;
}.

Lemma reads_refl s : reads 0 s s.
Proof. by split; try lia. Qed.
Lemma reads_trans n1 n2 s1 s2 s3 : reads n1 s1 s2 -> reads n2 s2 s3 -> reads (n1 + n2) s1 s3.
Proof. intros [] []. split; congruence || lia. Qed.
Lemma reads_weak n n' s s' : (n' <= n)%nat -> reads n s s' -> reads n' s s'.
Proof. intros ? []. split; done || lia. Qed.

Lemma scan_runs {A} l (f : list Z -> ErrorCode + (A * list Z)) s :
  ok l s -> advances f ->
  runs l (scan f) (fun a s' => ok l s' /\ reads 1 s s' /\ s' = set_MPtr (MPtr s') s /\
    exists rest, f (drop (MPtr s) (take (MEnd s) (MBytes s))) = inr (a, rest)) s.
Proof.
  intros [Hb Hl Hp Hh Hroom] Hf. unfold runs, scan. destruct (f _) as [er|[a rest]] eqn:Ef; [done|].
  destruct (Hf _ _ _ ltac:(by apply Forall_drop, Forall_take) Ef) as (k & Hk & ->).
  rewrite length_drop, length_take in Hk. rewrite !length_drop, length_take.
  split_and!; [|split; cbn; try done; lia|done|by eexists].
  split; cbn; try done; [lia|]. eapply room_weak; [done|done|cbn; lia].
Qed.

Lemma scan_reads {A} l (f : list Z -> ErrorCode + (A * list Z)) s :
  ok l s -> advances f -> runs l (scan f) (fun a s' => ok l s' /\ reads 1 s s') s.
Proof. intros Hs Hf. eapply mruns_mono; [by apply scan_runs|]. by intros a s' (? & ? & _). Qed.

Lemma mByte_runs l s : ok l s -> runs l mByte (fun b s' => ok l s' /\ reads 1 s s' /\ is_byte b) s.
Proof.
  intros Hs. eapply mruns_mono; [apply (scan_runs l readByte); [done|apply advances_byte]|]. cbn beta.
  intros b s' (Hs' & Hr & _ & rest & E). split_and!; [done|done|].
  assert (Forall is_byte (drop (MPtr s) (take (MEnd s) (MBytes s)))) as Hb by (by apply Forall_drop, Forall_take, Hs).
  destruct (drop _ _) as [|c bs]; [done|]. injection E as -> ->. by apply Forall_cons_iff in Hb as [? _].
Qed.

Lemma mU32_runs l s :
  ok l s -> runs l (mU32 wide_shift) (fun x s' => ok l s' /\ reads 1 s s' /\ 0 <= x < 2 ^ 32) s.
Proof.
  intros Hs. eapply mruns_mono; [apply (scan_runs l (readU32 wide_shift)); [done|by apply advances_leb]|]. cbn beta.
  intros x s' (Hs' & Hr & _ & rest & E). split_and!; [done|done|..];
    destruct (u32_imm_of wide_shift _ _ _ ltac:(by apply Forall_drop, Forall_take, Hs) E) as (_ & ?); lia.
Qed.

Lemma mTypeBase_runs l (f : Z -> WASMType) s :
  ok l s -> runs l (mTypeBase f) (fun t s' => ok l s' /\ reads 1 s s' /\ exists b, t = f b /\ t <> ERROR_TYPE) s.
Proof.
  intros Hs. unfold mTypeBase. apply mruns_bind. eapply mruns_mono; [by apply mByte_runs|]. cbn beta.
  intros b s1 (Hs1 & Hr1 & _). cbn zeta. case_bool_decide; [by apply mruns_throw, Hs1|]. apply mruns_ret.
  split_and!; [done|done|]. by exists b.
Qed.

Lemma readValType_runs l s :
  ok l s -> runs l readValType (fun t s' => ok l s' /\ reads 1 s s' /\ is_val t) s.
Proof.
  intros Hs. eapply mruns_mono; [by apply mTypeBase_runs|]. cbn beta. intros t s' (? & ? & b & -> & Ht).
  split_and!; [done|done|]. unfold getWASMValTypeFromOpcode in *. by repeat case_match.
Qed.

(** ** Loops *)

Lemma for_runs {A} l N (f : Z -> A -> mbody A) (J : Z -> A -> ML -> Prop) a s :
  0 <= N -> J 0 a s ->
  (forall I a s, 0 <= I < N -> J I a s ->
    runs l (f I a) (fun a' s' => J (I + 1) a' s' /\ (MPtr s < MPtr s' <= MEnd s')%nat /\ MEnd s' = MEnd s) s) ->
  runs l (for_ N f a) (fun a' s' => J N a' s') s.
Proof.
  intros HN HJ Hf. unfold for_. apply mruns_bind, mruns_gets.
  assert (forall fuel I a s, (MEnd s - MPtr s < fuel)%nat -> 0 <= I <= N -> J I a s ->
    runs l (forLoop fuel I N f a) (fun a' s' => J N a' s') s) as H; [|apply H; [lia|lia|done]].
  clear a s HJ. induction fuel as [|fuel IH]; intros I a s Hfuel HI HJ; [lia|]. cbn [forLoop].
  destruct (Z.ltb_spec I N); [|apply mruns_ret; by replace N with I by lia].
  apply mruns_bind. eapply mruns_mono; [apply Hf; [lia|done]|]. cbn beta. intros a' s' (HJ' & Hp & He).
  apply IH; [lia|lia|done].
Qed.

(** The usual loop: it only reads. *)
Lemma for_reads {A} l N (f : Z -> A -> mbody A) (R : Z -> A -> Prop) a s :
  ok l s -> 0 <= N -> R 0 a ->
  (forall I a s1, 0 <= I < N -> ok l s1 -> reads 0 s s1 -> R I a ->
    runs l (f I a) (fun a' s' => ok l s' /\ reads 1 s1 s' /\ R (I + 1) a') s1) ->
  runs l (for_ N f a) (fun a' s' => ok l s' /\ reads 0 s s' /\ R N a') s.
Proof.
  intros Hs HN HR Hf. apply (for_runs l N f (fun I a s' => ok l s' /\ reads 0 s s' /\ R I a)); [done| |].
  - split_and!; [done|apply reads_refl|done].
  - intros I b s1 HI (Hs1 & Hr1 & HR1). eapply mruns_mono; [by apply Hf|]. cbn beta.
    intros b' s2 (Hs2 & Hr2 & HR2). split_and!; [done| |done| | |].
    + eapply reads_weak; [|by eapply reads_trans]. lia.
    + destruct Hr2. lia.
    + apply Hs2.
    + apply Hr2.
Qed.

(** ** Arithmetic *)

Lemma add32_runs l e x y (Q : Z -> ML -> Prop) s :
  held l s -> (x + y <= UINT32_MAX -> Q (x + y) s) -> runs l (add32 e x y) Q s.
Proof. intros Hh HQ. unfold add32. destruct (Z.ltb_spec UINT32_MAX (x + y)); [done|]. by apply HQ. Qed.
Lemma mul32_runs l e x y (Q : Z -> ML -> Prop) s :
  held l s -> (x * y <= UINT32_MAX -> Q (x * y) s) -> runs l (mul32 e x y) Q s.
Proof. intros Hh HQ. unfold mul32. destruct (Z.ltb_spec UINT32_MAX (x * y)); [done|]. by apply HQ. Qed.

Lemma getMod_runs {A} l (f : WasmModule -> A) (Q : A -> ML -> Prop) s : Q (f (Mod s)) s -> runs l (getMod f) Q s.
Proof. done. Qed.

Lemma val_cells t : is_val t -> exists n, getWASMTypeCellNum t = Some n /\ 1 <= n <= 2.
Proof. destruct t; try done; intros _; eexists; (split; [reflexivity|lia]). Qed.
Lemma val_size t : is_val t -> exists n, getWASMTypeSize t = Some n /\ (n = 4 \/ n = 8).
Proof. destruct t; try done; intros _; eexists; (split; [reflexivity|lia]). Qed.

(** ** Symbols *)

(** The bytes of a name, after its length. *)
Lemma nameBytes_runs l len s :
  ok l s -> 0 <= len ->
  runs l (scan (readBytes len)) (fun str s' => ok l s' /\ reads 0 s s' /\ Pool s' = Pool s /\ Forall is_byte str /\
    Z.of_nat (length str) = len) s.
Proof.
  intros [Hb Hl Hp Hh Hroom] Hlen. unfold runs, scan, readBytes. set (bs := drop _ _).
  assert (length bs = MEnd s - MPtr s)%nat as Hbs by (unfold bs; rewrite length_drop, length_take; lia).
  destruct (Z.ltb_spec (Z.of_nat (length bs)) len); [done|]. rewrite length_drop. split_and!; [..|done| |].
  - split; cbn; try done; [lia|]. eapply room_weak; [done|done|cbn; lia].
  - split; cbn; try done. lia.
  - by apply Forall_take, Forall_drop, Forall_take.
  - rewrite length_take. lia.
Qed.

Lemma readName_runs l s :
  ok l s -> runs l (readName wide_shift) (fun k s' => ok (k :: l) s' /\ reads 1 s s') s.
Proof.
  intros Hs. unfold readName. apply mruns_bind.
  eapply mruns_mono; [apply (scan_runs l (readU32 wide_shift)); [done|by apply advances_leb]|]. cbn beta.
  intros len s1 (Hs1 & Hr1 & Ep1 & rest1 & E).
  destruct (u32_imm_of wide_shift _ _ _ ltac:(by apply Forall_drop, Forall_take, Hs) E) as (_ & Hlen).
  apply mruns_bind. eapply mruns_mono; [apply nameBytes_runs; [done|lia]|]. cbn beta.
  intros str s2 (Hs2 & Hr2 & Ep2 & Hstr & Elen).
  apply mruns_bind, mruns_check; [apply Hs2|]. intros Hmax%Z.leb_le.
  apply mruns_bind, mruns_check; [apply Hs2|]. intros _. apply mruns_bind. unfold runs at 1, mNewSymbol.
  destruct Hs2 as [Hb Hl Hp [rest Hh] _], Hs as [_ _ Hp0 _ (a & Ha & Hroom)].
  rewrite Ep1 in Ep2. cbn in Ep2. rewrite <- Ep2 in Ha. destruct Hr1 as [Eb1 Ee1 Em1 En1 Hp1], Hr2 as [Eb2 Ee2 Em2 En2 Hp2].
  destruct (new_law _ a _ str Hstr ltac:(lia) Hh Ha ltac:(lia)) as (k & p & -> & Hk & Ha').
  assert (held (k :: l) (set_Pool p s2)) as Hheld by (by exists rest).
  apply mruns_bind, mruns_check; [by eapply held_nil|]. intros _. apply mruns_ret. split; [|split; cbn; congruence || lia].
  split; cbn; try done. exists (a + 1). split; [done|]. rewrite Eb2, Eb1. lia.
Qed.

Lemma free_runs l k s :
  held (k :: l) s ->
  runs l (mFreeSymbol k) (fun _ s' => held l s' /\ s' = set_Pool (Pool s') s /\ forall n, room n s -> room n s') s.
Proof.
  intros [rest Hh]. unfold runs, mFreeSymbol. destruct (free_law _ _ _ Hh) as (p & -> & Hp & Ha).
  split_and!; [by exists rest|done|]. intros n (a & Hroom & Hn). exists a. split; [by apply Ha|done].
Qed.

Lemma free_ok l k s : ok (k :: l) s -> runs l (mFreeSymbol k) (fun _ s' => ok l s' /\ s' = set_Pool (Pool s') s) s.
Proof.
  intros [Hb Hl Hp Hh Hroom]. eapply mruns_mono; [by apply free_runs|]. cbn beta. intros _ s' (Hh' & E & Hr).
  split; [|done]. apply Hr in Hroom. rewrite E in Hroom, Hh' |- *. by split.
Qed.

Lemma guarded_runs {A} l k (m : mbody A) Q s : runs (k :: l) m Q s -> runs l (guarded k m) Q s.
Proof.
  unfold runs, guarded. destruct (m s) as [a s1|s1|e s1|]; try done. intros Hh.
  pose proof (free_runs l k s1 Hh) as Hf. unfold runs in Hf. destruct (mFreeSymbol k s1) as [[] s2|s2|e2 s2|] eqn:E; try done.
  - by destruct Hf.
  - unfold mFreeSymbol in E. by destruct (freeSymbol k _).
Qed.
End Rules.
