(* ===== verification/ConstStringPoolTheorems.v ===== *)
(** What the pool of symbols promises: a symbol stands for one string as long
    as it is held, and no call on held symbols has undefined behaviour.  The
    pool discharges the laws the module loader relies on. *)

From stdpp Require Import gmap.
From S2P Require Import Prelude Intx Leb128 FunctionLoader ConstStringPool ConstStringPoolInv ConstStringPoolCorrect ModuleLoader ModuleLoaderInv.

#[local] Open Scope Z_scope.

(** ** The abstract state *)

(** The string of a symbol. *)
Definition name_of (p : ConstStringPool) (k : Z) : option (list Z) :=
  E ← EntriesArray p; e ← entryAt E k; Some (Str8 e).

Definition refs (E : list Slot) (k : Z) : Z := match entryAt E k with Some e => RefCount e | None => 0 end.

(** The reserved symbols are there. *)
Definition reserved (E : list Slot) : Prop :=
  forall k str, 1 <= k -> WASMInitSymbols !! Z.to_nat (k - 1) = Some str ->
    exists e, entryAt E k = Some e /\ Str8 e = str /\ RefCount e = 1.

(** The references to symbols that are not reserved are those of [l]. *)
Definition pool_holds (p : ConstStringPool) (l : list Z) : Prop :=
  exists E T cs fl rl, rep p E T cs fl rl /\ reserved E /\
    forall k, WASM_SYMBOLS_END <= k -> refs E k = Z.of_nat (count_occ Z.eq_dec l k).

(** At most [n] symbols were asked of the pool. *)
Record pool_aged (n : Z) (p : ConstStringPool) : Prop := {
  pa_nonneg : 0 <= n;
  pa_slots : exists E fl, EntriesArray p = Some E /\ free_list E (FreeIndex p) fl /\
    EntriesSize p - Z.of_nat (length fl) <= n + WASM_SYMBOLS_END;
  pa_refs : forall E i e, EntriesArray p = Some E -> entryAt E i = Some e -> RefCount e <= n + 1;
  pa_count : EntriesCount p <= n + WASM_SYMBOLS_END;
  pa_table : HashTableSize p <= Z.max 128 (n + WASM_SYMBOLS_END);
}.

(** ** Helpers *)

Lemma refs_key E E' i : set_HashNext 0 <$> entryAt E' i = set_HashNext 0 <$> entryAt E i -> refs E' i = refs E i.
Proof. unfold refs. destruct (entryAt E' i), (entryAt E i); try done. by intros [= -> _ _ _]. Qed.

Lemma entry_key E E' i e' :
  set_HashNext 0 <$> entryAt E' i = set_HashNext 0 <$> entryAt E i -> entryAt E' i = Some e' ->
  exists e, entryAt E i = Some e /\ RefCount e = RefCount e' /\ Str8 e = Str8 e'.
Proof.
  intros H He'. rewrite He' in H. destruct (entryAt E i) as [e|]; [|done]. exists e. split; [done|]. by injection H.
Qed.

Lemma name_some p E T cs fl rl k str :
  rep p E T cs fl rl -> name_of p k = Some str <-> exists e, entryAt E k = Some e /\ Str8 e = str.
Proof.
  intros Hr. unfold name_of. rewrite (r_E _ _ _ _ _ _ Hr). cbn. destruct (entryAt E k) as [e|]; cbn.
  - split; [intros [= <-]; by exists e|intros (? & [= <-] & <-); done].
  - split; [done|by intros (? & ? & _)].
Qed.

Lemma reserved_keep E E' :
  (forall k, 1 <= k < WASM_SYMBOLS_END -> set_HashNext 0 <$> entryAt E' k = set_HashNext 0 <$> entryAt E k) ->
  reserved E -> reserved E'.
Proof.
  intros Hk Hres k str H1 Hs. destruct (Hres k str H1 Hs) as (e & He & Es & Er).
  assert (set_HashNext 0 <$> entryAt E k = set_HashNext 0 <$> entryAt E' k) as H.
  { symmetry. apply Hk. apply lookup_lt_Some in Hs. change (length WASMInitSymbols) with 18%nat in Hs. unfold WASM_SYMBOLS_END. lia. }
  destruct (entry_key _ _ _ _ H He) as (e' & ? & ? & ?). exists e'. split_and!; congruence.
Qed.

Lemma reserved_slot E k : reserved E -> 1 <= k < WASM_SYMBOLS_END -> exists e, entryAt E k = Some e.
Proof.
  intros Hres Hk. destruct (lookup_lt_is_Some_2 WASMInitSymbols (Z.to_nat (k - 1))) as [str Hs].
  { change (length WASMInitSymbols) with 18%nat. unfold WASM_SYMBOLS_END in Hk. lia. }
  destruct (Hres k str ltac:(lia) Hs) as (e & He & _). by exists e.
Qed.

Lemma count_cons_ne l k k' : k <> k' -> count_occ Z.eq_dec (k :: l) k' = count_occ Z.eq_dec l k'.
Proof. intros Hne. by apply count_occ_cons_neq. Qed.

(** ** A symbol is asked for *)

(** No entry has a string longer than its length can say. *)
Definition tidy (p : ConstStringPool) : Prop := forall k str, name_of p k = Some str -> short str.

(** The new symbol [k] for [str]; the others keep their strings. *)
Definition interned (n : Z) (l : list Z) (str : list Z) (p : ConstStringPool) (k : Z) (p' : ConstStringPool) : Prop :=
  0 < k /\ pool_holds p' (k :: l) /\ pool_aged (n + 1) p' /\ (tidy p -> name_of p' k = Some str) /\
  forall j s, name_of p j = Some s -> name_of p' j = Some s.

Lemma interned_of n l str p k p' E T cs fl rl E' T' cs' fl' rl' :
  rep p E T cs fl rl -> rep p' E' T' cs' fl' rl' -> reserved E' -> pool_aged (n + 1) p' -> 0 < k ->
  (forall k, WASM_SYMBOLS_END <= k -> refs E k = Z.of_nat (count_occ Z.eq_dec l k)) ->
  (forall j, WASM_SYMBOLS_END <= j -> refs E' j = refs E j + if decide (j = k) then 1 else 0) ->
  (tidy p -> exists e, entryAt E' k = Some e /\ Str8 e = str) ->
  (forall j e, entryAt E j = Some e -> exists e', entryAt E' j = Some e' /\ Str8 e' = Str8 e) ->
  interned n l str p k p'.
Proof.
  intros Hrep Hrep' Hres Hage Hk Hrefs Hrefs' Hnew Hold. split_and!; [done| |done|intros Ht; eapply name_some; eauto|].
  - exists E', T', cs', fl', rl'. split_and!; [done|done|]. intros j Hj. rewrite Hrefs', Hrefs by done.
    destruct (decide (j = k)) as [->|Hne]; [rewrite count_occ_cons_eq by done; lia|rewrite count_cons_ne by done; lia].
  - intros j s. rewrite (name_some _ _ _ _ _ _ _ _ Hrep), (name_some _ _ _ _ _ _ _ _ Hrep'). intros (e & He & <-). by apply Hold.
Qed.

Lemma hold_found p n l str k E T cs fl rl e :
  rep p E T cs fl rl -> reserved E -> (forall k, WASM_SYMBOLS_END <= k -> refs E k = Z.of_nat (count_occ Z.eq_dec l k)) ->
  pool_aged n p -> n < MaxSymbols -> 0 < k -> entryAt E k = Some e -> (short (Str8 e) -> Str8 e = str) ->
  exists E', holdEntry E k = Some E' /\ interned n l str p k (set_Entries E' p).
Proof.
  intros Hrep Hres Hrefs Hage Hn Hk He Es.
  assert (tidy p -> Str8 e = str) as Ht0 by (intros Ht; apply Es, (Ht k), (name_some _ _ _ _ _ _ _ _ Hrep); eauto).
  pose proof Hage as [Hn0 (E0 & fl0 & HE0 & Hfl0 & Hsl) Hr Hc Ht].
  pose proof (r_E _ _ _ _ _ _ Hrep) as HE. rewrite HE in HE0. injection HE0 as <-.
  unfold holdEntry, isReserved. destruct (Z.ltb_spec k WASM_SYMBOLS_END) as [Hlt|Hge].
  - exists E. split; [done|]. assert (set_Entries E p = p) as -> by (destruct p; cbn in *; by rewrite HE).
    eapply interned_of; try done; [| |by eauto|by eauto].
    + split; [lia| |intros E1 i ei HE1 Hei; specialize (Hr E1 i ei HE1 Hei)|..]; [|lia..].
      exists E, fl0. split_and!; [done|done|lia].
    + intros j Hj. destruct (decide (j = k)); lia.
  - rewrite He. cbn [mbind option_bind]. pose proof (Hr E k e HE He) as Hre. destruct (r_entries _ _ _ _ _ _ Hrep k e He) as (_ & _ & Hre1).
    replace (int32 (RefCount e + 1)) with (Some (RefCount e + 1))
      by (unfold int32; rewrite (proj2 (Z.leb_le _ _)), (proj2 (Z.ltb_lt _ _)) by (unfold MaxSymbols in Hn; lia); done).
    cbn [mbind option_bind]. eexists. split; [done|]. set (E' := setSlot E k _).
    pose proof (rep_count p E T cs fl rl k e (RefCount e + 1) Hrep He ltac:(unfold MaxSymbols in Hn; lia)) as Hrep'. fold E' in Hrep'.
    assert (forall i, entryAt E' i = if decide (Z.to_nat i = Z.to_nat k) then Some (set_RefCount (RefCount e + 1) e) else entryAt E i) as Hat
      by (intros i; by apply set_entry_lookup).
    eapply interned_of; try done.
    + eapply reserved_keep; [|exact Hres]. intros j Hj. rewrite Hat. by destruct (decide _); [unfold WASM_SYMBOLS_END in *; lia|].
    + split; cbn; try lia.
      * exists E', fl. split_and!; [done|apply Hrep'|]. rewrite (free_list_det _ _ _ _ (r_free _ _ _ _ _ _ Hrep) Hfl0). lia.
      * intros E1 i ei [= <-]. rewrite Hat. destruct (decide _); [intros [= <-]; cbn; lia|]. intros Hei. specialize (Hr E i ei HE Hei). lia.
    + intros j Hj. unfold refs. rewrite Hat. destruct (decide (j = k)) as [->|Hne].
      * rewrite decide_True by done. rewrite He. done.
      * rewrite decide_False by (unfold WASM_SYMBOLS_END in *; lia). lia.
    + intros Ht1. rewrite Hat, decide_True by done. eexists. split; [done|]. by apply Ht0.
    + intros j ej Hej. rewrite Hat. destruct (decide _) as [Ej|]; [|by eauto]. eexists. split; [done|]. cbn.
      unfold entryAt in He, Hej. rewrite Ej in Hej. destruct (E !! Z.to_nat k) as [[]|]; congruence.
Qed.

Lemma place_new p n l str I E T cs fl rl :
  rep p E T cs (I :: fl) rl -> reserved E -> (forall k, WASM_SYMBOLS_END <= k -> refs E k = Z.of_nat (count_occ Z.eq_dec l k)) ->
  0 <= n -> EntriesSize p - Z.of_nat (length fl) <= n + 1 + WASM_SYMBOLS_END ->
  (forall i e, entryAt E i = Some e -> RefCount e <= n + 1) -> EntriesCount p <= n + WASM_SYMBOLS_END ->
  HashTableSize p <= Z.max 128 (n + WASM_SYMBOLS_END) ->
  (forall i e, 0 < i -> entryAt E i = Some e -> short str -> Str8 e <> str) ->
  exists p', placeEntry true (HashTableSize p * 2) (getStringHash str) str p = Some (I, p') /\ interned n l str p I p'.
Proof.
  intros Hrep Hres Hrefs Hn Hsl Hr Hc Ht Hno.
  destruct (placeEntry_spec true p E T cs I fl rl str Hrep Hno) as (p' & E' & T' & cs' & fl' & rl' & Ep & Hrep' & [Hnew Hold Hs Hcnt Htb] & Hlen & _).
  exists p'. split; [done|]. pose proof (r_free _ _ _ _ _ _ Hrep) as Hfl. cbn [free_list] in Hfl. destruct Hfl as (_ & HI & m & Hm & _).
  assert (entryAt E I = None) as HnoI by (unfold entryAt; by rewrite Hm).
  assert (WASM_SYMBOLS_END <= I) as HIge.
  { destruct (Z.lt_ge_cases I WASM_SYMBOLS_END); [|done]. destruct (reserved_slot E I Hres) as [e He]; [lia|]. congruence. }
  destruct Hnew as (e & He & Es & Er). eapply interned_of; try done.
  - eapply reserved_keep; [|exact Hres]. intros k Hk. apply Hold; lia.
  - split; [lia|exists E', fl'; split_and!; [apply Hrep'|apply Hrep'|lia]| |lia|lia].
    intros E1 i ei HE1 Hei. rewrite (r_E _ _ _ _ _ _ Hrep') in HE1. injection HE1 as <-.
    destruct (decide (i = I)) as [->|Hne]; [assert (ei = e) by congruence; subst; lia|].
    destruct (entry_key E E' i ei) as (e0 & He0 & <- & _); [|done|specialize (Hr i e0 He0); lia].
    apply Hold; [|done]. eapply entryAt_pos; [apply Hrep'|done].
  - intros j Hj. unfold WASM_SYMBOLS_END in *. destruct (decide (j = I)) as [->|Hne].
    + unfold refs. by rewrite He, HnoI, Er.
    + rewrite (refs_key E E' j); [lia|]. apply Hold; lia.
  - by exists e.
  - intros j ej Hej. assert (j <> I) as Hne by congruence. pose proof (entryAt_pos _ _ _ (r_zero _ _ _ _ _ _ Hrep) Hej) as Hj.
    destruct (entry_key E' E j ej) as (e' & He' & _ & Es'); [by rewrite Hold|done|]. by exists e'.
Qed.

Lemma newSymbol_step p n l str :
  pool_holds p l -> pool_aged n p -> n < MaxSymbols -> exists k p', newSymbol_ str p = Some (k, p') /\ interned n l str p k p'.
Proof.
  intros (E & T & cs & fl & rl & Hrep & Hres & Hrefs) Hage Hn. pose proof Hage as [Hn0 (E0 & fl0 & HE0 & Hfl0 & Hsl) Hr Hc Ht].
  pose proof (r_E _ _ _ _ _ _ Hrep) as HE. rewrite HE in HE0. injection HE0 as <-.
  rewrite (free_list_det _ _ _ _ Hfl0 (r_free _ _ _ _ _ _ Hrep)) in Hsl. clear Hfl0 fl0.
  unfold newSymbol_. unfold MaxSymbols, WASM_SYMBOLS_END in *.
  assert (0 < HashTableSize p) as Hpos by (destruct (r_size _ _ _ _ _ _ Hrep) as (k & ? & ->); lia).
  replace (int32 (HashTableSize p * 2)) with (Some (HashTableSize p * 2))
    by (unfold int32; rewrite (proj2 (Z.leb_le _ _)), (proj2 (Z.ltb_lt _ _)) by lia; done).
  cbn [mbind option_bind]. rewrite (r_T _ _ _ _ _ _ Hrep), HE.
  destruct (findString_spec _ _ _ _ _ _ str Hrep) as (k & -> & Hfound). cbn [mbind option_bind].
  destruct Hfound as [[-> Hno]|(Hk & e & He & Es)].
  2: { rewrite (proj2 (Z.eqb_neq k 0)) by lia. cbn [negb].
       destruct (hold_found p n l str k E T cs fl rl e) as (E' & -> & Hint); try done. cbn [mbind option_bind]. by eexists _, _. }
  cbn [negb Z.eqb]. assert (forall i e, 0 < i -> entryAt E i = Some e -> short str -> Str8 e <> str) as Hno' by eauto.
  pose proof (r_free _ _ _ _ _ _ Hrep) as Hfl. destruct fl as [|I fl].
  - cbn in Hfl. rewrite Hfl. cbn [Z.eqb]. cbn in Hsl.
    destruct (resizeEntriesArray_spec p E T cs rl Hrep ltac:(lia)) as (p1 & fl1 & -> & Hrep1 & Ec & Eh & Hne & Esz).
    destruct fl1 as [|I fl1]; [done|]. rewrite <- Eh.
    assert (forall i, entryAt (E ++ freeSlots (EntriesSize p) (EntriesSize p1)) i = entryAt E i) as Hat
      by (intros i; apply entryAt_app; intros x; apply freeSlots_free).
    cbn [length] in Esz.
    destruct (place_new p1 n l str I _ T cs fl1 [] Hrep1) as (p' & -> & Hint); try done; try (unfold WASM_SYMBOLS_END; lia).
    + eapply reserved_keep; [|exact Hres]. intros k _. by rewrite Hat.
    + intros k Hk. unfold refs. rewrite Hat. by apply Hrefs.
    + intros i e. rewrite Hat. by apply Hr.
    + intros i e. rewrite Hat. by apply Hno'.
    + eexists _, _. split; [done|]. destruct Hint as (? & ? & ? & Hname & Hkeep).
      assert (forall j s, name_of p1 j = Some s <-> name_of p j = Some s) as Hsame.
      { intros j s. rewrite (name_some _ _ _ _ _ _ _ _ Hrep), (name_some _ _ _ _ _ _ _ _ Hrep1). by setoid_rewrite Hat. }
      split_and!; try done; [intros Ht1; apply Hname; intros j s Hj%Hsame; by apply (Ht1 j)|]. intros j s Hj. apply Hkeep.
      apply (name_some _ _ _ _ _ _ _ _ Hrep) in Hj as (e & He & Es). apply (name_some _ _ _ _ _ _ _ _ Hrep1). exists e. by rewrite Hat.
  - cbn in Hfl. destruct Hfl as (EI & HI & _). rewrite EI, (proj2 (Z.eqb_neq I 0)) by lia. cbn [length] in Hsl.
    destruct (place_new p n l str I E T cs fl rl Hrep) as (p' & -> & Hint); try done; try (unfold WASM_SYMBOLS_END; lia); [by eauto|].
    by eexists _, _.
Qed.

(** ** A symbol is given back *)

(** The other symbols keep their strings, and [k] too while it is held. *)
Definition released (l : list Z) (p : ConstStringPool) (k : Z) (p' : ConstStringPool) : Prop :=
  pool_holds p' l /\ (forall n, pool_aged n p -> pool_aged n p') /\
  forall j s, name_of p j = Some s -> j <> k \/ j < WASM_SYMBOLS_END \/ k ∈ l -> name_of p' j = Some s.

Lemma release_last p l k E T cs fl rl e :
  rep p E T cs fl rl -> reserved E -> (forall j, WASM_SYMBOLS_END <= j -> refs E j = Z.of_nat (count_occ Z.eq_dec (k :: l) j)) ->
  WASM_SYMBOLS_END <= k -> entryAt E k = Some e -> RefCount e = 1 ->
  exists p', freeSymbolInternal k p = Some p' /\ released l p k p'.
Proof.
  intros Hrep Hres Hrefs Hk He Hone.
  destruct (freeLast_spec p E T cs fl rl k e Hrep He Hone) as (p' & E' & T' & cs' & rl' & -> & Hrep' & [Hgone Hold Hs Hc Ht Hf]).
  assert (count_occ Z.eq_dec l k = 0%nat) as Hl0.
  { pose proof (Hrefs k Hk) as Hx. unfold refs in Hx. rewrite He, Hone, count_occ_cons_eq in Hx by done. lia. }
  exists p'. split; [done|]. split_and!.
  - exists E', T', cs', fl, rl'. split_and!; [done| |].
    + eapply reserved_keep; [|exact Hres]. intros j Hj. apply Hold; lia.
    + intros j Hj. destruct (decide (j = k)) as [->|Hne]; [unfold refs; rewrite Hgone, Hl0; done|].
      rewrite (refs_key E E' j) by (apply Hold; [unfold WASM_SYMBOLS_END in *; lia|done]). rewrite Hrefs, count_cons_ne by done. done.
  - intros n [Hn (E0 & fl0 & HE0 & Hfl0 & Hsl) Hr Hc0 Ht0]. rewrite (r_E _ _ _ _ _ _ Hrep) in HE0. injection HE0 as <-.
    rewrite (free_list_det _ _ _ _ Hfl0 (r_free _ _ _ _ _ _ Hrep)) in Hsl. split; [done| | |lia|lia].
    + exists E', fl. split_and!; [apply Hrep'|apply Hrep'|lia].
    + intros E1 i ei HE1 Hei. rewrite (r_E _ _ _ _ _ _ Hrep') in HE1. injection HE1 as <-.
      assert (i <> k) as Hne by congruence. pose proof (entryAt_pos _ _ _ (r_zero _ _ _ _ _ _ Hrep') Hei) as Hi.
      destruct (entry_key E E' i ei (Hold i Hi Hne) Hei) as (e0 & He0 & <- & _).
      apply (Hr E i e0); [apply Hrep|done].
  - intros j s Hj Hcond. apply (name_some _ _ _ _ _ _ _ _ Hrep) in Hj as (ej & Hej & Es). apply (name_some _ _ _ _ _ _ _ _ Hrep').
    assert (j <> k) as Hne.
    { intros ->. destruct Hcond as [?|[?|Hin]]; [done|lia|]. apply list_elem_of_In, (count_occ_In Z.eq_dec) in Hin. lia. }
    pose proof (entryAt_pos _ _ _ (r_zero _ _ _ _ _ _ Hrep) Hej) as Hpos.
    destruct (entry_key E' E j ej) as (e' & He' & _ & Es'); [by rewrite Hold|done|]. exists e'. split; [done|congruence].
Qed.

Lemma release_more p l k E T cs fl rl e :
  rep p E T cs fl rl -> reserved E -> (forall j, WASM_SYMBOLS_END <= j -> refs E j = Z.of_nat (count_occ Z.eq_dec (k :: l) j)) ->
  WASM_SYMBOLS_END <= k -> entryAt E k = Some e -> 1 < RefCount e ->
  released l p k (set_Entries (setSlot E k (Entry (set_RefCount (RefCount e - 1) e))) p).
Proof.
  intros Hrep Hres Hrefs Hk He Hmore. set (E' := setSlot E k _). destruct (r_entries _ _ _ _ _ _ Hrep k e He) as (_ & _ & Hmax).
  pose proof (rep_count p E T cs fl rl k e (RefCount e - 1) Hrep He ltac:(lia)) as Hrep'. fold E' in Hrep'.
  assert (forall i, entryAt E' i = if decide (Z.to_nat i = Z.to_nat k) then Some (set_RefCount (RefCount e - 1) e) else entryAt E i) as Hat
    by (intros i; by apply set_entry_lookup).
  split_and!.
  - exists E', T, cs, fl, rl. split_and!; [done| |].
    + eapply reserved_keep; [|exact Hres]. intros j Hj. rewrite Hat. by destruct (decide _); [unfold WASM_SYMBOLS_END in *; lia|].
    + intros j Hj. specialize (Hrefs j Hj). unfold refs in *. rewrite Hat. destruct (decide (j = k)) as [->|Hne].
      * rewrite decide_True by done. rewrite He, count_occ_cons_eq in Hrefs by done. cbn [RefCount set_RefCount]. lia.
      * rewrite decide_False by (unfold WASM_SYMBOLS_END in *; lia). by rewrite count_cons_ne in Hrefs by done.
  - intros n [Hn (E0 & fl0 & HE0 & Hfl0 & Hsl) Hr Hc0 Ht0]. rewrite (r_E _ _ _ _ _ _ Hrep) in HE0. injection HE0 as <-.
    rewrite (free_list_det _ _ _ _ Hfl0 (r_free _ _ _ _ _ _ Hrep)) in Hsl. split; [done| | |done|done].
    + exists E', fl. split_and!; [done|apply Hrep'|done].
    + intros E1 i ei [= <-]. rewrite Hat. pose proof (r_E _ _ _ _ _ _ Hrep) as HE.
      destruct (decide _); [|by apply Hr]. intros [= <-]. cbn. specialize (Hr E k e HE He). lia.
  - intros j s Hj _. apply (name_some _ _ _ _ _ _ _ _ Hrep) in Hj as (ej & Hej & Es). apply (name_some _ _ _ _ _ _ _ _ Hrep').
    rewrite Hat. destruct (decide _) as [Ej|]; [|by eauto]. eexists. split; [done|]. cbn.
    unfold entryAt in He, Hej. rewrite Ej in Hej. destruct (E !! Z.to_nat k) as [[]|]; congruence.
Qed.

Lemma freeSymbol_step p l k : pool_holds p (k :: l) -> exists p', freeSymbol_ k p = Some p' /\ released l p k p'.
Proof.
  intros (E & T & cs & fl & rl & Hrep & Hres & Hrefs). unfold freeSymbol_, isReserved.
  destruct (Z.ltb_spec k WASM_SYMBOLS_END) as [Hlt|Hge].
  - exists p. split; [done|]. split_and!; [|done|done]. exists E, T, cs, fl, rl. split_and!; [done|done|].
    intros j Hj. rewrite Hrefs, count_cons_ne by lia. done.
  - pose proof (Hrefs k Hge) as Hk. rewrite count_occ_cons_eq in Hk by done. unfold refs in Hk.
    destruct (entryAt E k) as [e|] eqn:He; [|lia].
    destruct (decide (RefCount e = 1)) as [Hone|Hne]; [by eapply release_last|].
    eexists. split; [|eapply release_more; try done; lia].
    unfold freeSymbolInternal. rewrite (r_E _ _ _ _ _ _ Hrep), (r_T _ _ _ _ _ _ Hrep), (proj1 (entryAt_Some _ _ _) He). cbn [mbind option_bind].
    destruct (r_entries _ _ _ _ _ _ Hrep k e He) as (_ & _ & Hmax).
    replace (int32 (RefCount e - 1)) with (Some (RefCount e - 1))
      by (unfold int32; rewrite (proj2 (Z.leb_le _ _)), (proj2 (Z.ltb_lt _ _)) by lia; done).
    cbn [mbind option_bind]. by rewrite (proj2 (Z.ltb_lt 0 _)) by lia.
Qed.

(** ** The laws of the module loader *)

#[export] Instance const_pool : SymbolPool ConstStringPool := {| newSymbol := newSymbol_; freeSymbol := freeSymbol_ |}.

Lemma pool_holds_perm p l l' : l ≡ₚ l' -> pool_holds p l -> pool_holds p l'.
Proof.
  intros Hp (E & T & cs & fl & rl & Hrep & Hres & Hrefs). exists E, T, cs, fl, rl. split_and!; [done|done|].
  intros k Hk. rewrite Hrefs by done. f_equal. by apply (Permutation_count_occ Z.eq_dec).
Qed.

#[export] Program Instance const_pool_laws : SymbolPoolLaws ConstStringPool :=
  {| holds := pool_holds; aged := pool_aged |}.
Next Obligation. exact pool_holds_perm. Qed.
Next Obligation.
  intros p n l str _ _ Hl Ha Hn. destruct (newSymbol_step p n l str Hl Ha Hn) as (k & p' & E & _ & ? & ? & _). by eexists _, _.
Qed.
Next Obligation.
  intros p l k Hl. destruct (freeSymbol_step p l k Hl) as (p' & E & ? & ? & _). by eexists.
Qed.

Lemma initial_holds : pool_holds initialPool [].
Proof.
  destruct initPool_spec as (E & T & cs & _ & Hrep & [Hl1 Hl2] & _). exists E, T, cs, (seqZ WASM_SYMBOLS_END 192), []. split_and!; [done| |].
  - intros k str Hk Hs. destruct (Hl2 k str ltac:(lia) Hs) as (e & He & Es). exists e. split_and!; [done|done|]. by apply (Hl1 k); [lia|].
  - intros k Hk. unfold refs. destruct (entryAt E k) as [e|] eqn:He; [|done]. unfold WASM_SYMBOLS_END in Hk.
    destruct (Hl1 k e ltac:(lia) He) as [Hs _]. apply lookup_lt_Some in Hs. change (length WASMInitSymbols) with 18%nat in Hs. lia.
Qed.

Lemma initial_aged : pool_aged 0 initialPool.
Proof.
  destruct initPool_spec as (E & T & cs & _ & Hrep & [Hl1 _] & Hsz & Hc & Hs). revert Hrep Hsz Hc Hs.
  generalize initialPool. intros p Hrep Hsz Hc Hs. split; [lia| | |lia|lia].
  - exists E, (seqZ WASM_SYMBOLS_END 192). split_and!; [apply Hrep|apply Hrep|]. rewrite Hs, length_seqZ. unfold WASM_SYMBOLS_END. lia.
  - intros E1 i e HE1 He. rewrite (r_E _ _ _ _ _ _ Hrep) in HE1. injection HE1 as <-.
    destruct (Hl1 i e) as [_ ->]; [|done|lia]. eapply entryAt_pos; [apply Hrep|done].
Qed.

(** ** Histories *)

(** The pools that calls of [newSymbol] and [freeSymbol] give, on strings with
    [ok]: [h] are the symbols held with the strings they were asked for, [n] the
    number of calls of [newSymbol]. *)
Inductive history (ok : list Z -> Prop) : ConstStringPool -> list (Z * list Z) -> Z -> Prop :=
| history_init : history ok initialPool [] 0
| history_new p h n str k p' :
    history ok p h n -> ok str -> newSymbol_ str p = Some (k, p') -> history ok p' ((k, str) :: h) (n + 1)
| history_free p h1 k str h2 n p' :
    history ok p (h1 ++ (k, str) :: h2) n -> freeSymbol_ k p = Some p' -> history ok p' (h1 ++ h2) n.

Lemma dump_name p l k str : pool_holds p l -> name_of p k = Some str -> dumpSymbolString k p = Some (Some str).
Proof.
  intros (E & T & cs & fl & rl & Hrep & _) Hk. apply (name_some _ _ _ _ _ _ _ _ Hrep) in Hk as (e & He & <-).
  pose proof (entryAt_pos _ _ _ (r_zero _ _ _ _ _ _ Hrep) He) as Hpos. pose proof (entryAt_lt _ _ _ He) as Hlt.
  pose proof (r_max _ _ _ _ _ _ Hrep) as Hmax. pose proof (r_lenE _ _ _ _ _ _ Hrep) as HlE. unfold WASM_SYMBOLS_MAX in Hmax.
  unfold dumpSymbolString. rewrite (r_T _ _ _ _ _ _ Hrep), (r_E _ _ _ _ _ _ Hrep). cbn [mbind option_bind].
  rewrite swrap_small by lia. rewrite (proj2 (Z.leb_gt _ _)) by lia. by rewrite (proj1 (entryAt_Some _ _ _) He).
Qed.

Lemma name_inj p l k k' str : pool_holds p l -> short str -> name_of p k = Some str -> name_of p k' = Some str -> k = k'.
Proof.
  intros (E & T & cs & fl & rl & Hrep & _) Hs (e & He & Es)%(name_some _ _ _ _ _ _ _ _ Hrep) (e' & He' & Es')%(name_some _ _ _ _ _ _ _ _ Hrep).
  eapply (r_distinct _ _ _ _ _ _ Hrep); [..|exact He|exact He'|congruence|congruence]; (eapply entryAt_pos; [apply Hrep|done]).
Qed.

Lemma probe_name p l str : pool_holds p l -> tidy p -> short str -> exists k, probeSymbol str p = Some k /\
  (k = 0 /\ (forall j, name_of p j <> Some str) \/ 0 < k /\ name_of p k = Some str).
Proof.
  intros (E & T & cs & fl & rl & Hrep & _) Ht Hs. destruct (findString_spec _ _ _ _ _ _ str Hrep) as (k & Hk & Hf). exists k.
  unfold probeSymbol. rewrite (r_T _ _ _ _ _ _ Hrep), (r_E _ _ _ _ _ _ Hrep). split; [done|].
  destruct Hf as [[-> Hno]|(Hpos & e & He & Es)]; [left|right]; (split; [done|]).
  - intros j (e & He & Es)%(name_some _ _ _ _ _ _ _ _ Hrep). eapply (Hno j e); try done.
    eapply entryAt_pos; [apply Hrep|done].
  - eapply name_some; [exact Hrep|]. exists e. split; [done|]. apply Es, (Ht k), (name_some _ _ _ _ _ _ _ _ Hrep). by exists e.
Qed.

(** Every entry is held or reserved. *)
Lemma holds_tidy p h :
  pool_holds p h.*1 -> Forall (fun x => name_of p x.1 = Some x.2) h -> Forall short h.*2 -> tidy p.
Proof.
  intros (E & T & cs & fl & rl & Hrep & Hres & Hrefs) Hf Hs k str (e & He & <-)%(name_some _ _ _ _ _ _ _ _ Hrep).
  pose proof (entryAt_pos _ _ _ (r_zero _ _ _ _ _ _ Hrep) He) as Hpos. destruct (Z.le_gt_cases WASM_SYMBOLS_END k) as [Hge|Hlt].
  - specialize (Hrefs k Hge). unfold refs in Hrefs. rewrite He in Hrefs. destruct (r_entries _ _ _ _ _ _ Hrep k e He) as (_ & _ & Hr).
    assert (k ∈ h.*1) as ([k' s] & -> & Hin)%list_elem_of_fmap by (apply list_elem_of_In, (count_occ_In Z.eq_dec); lia).
    pose proof (proj1 (list.Forall_forall _ _) Hf _ Hin) as Hn. cbn in Hn, He.
    apply (name_some _ _ _ _ _ _ _ _ Hrep) in Hn as (e' & He' & <-). assert (e = e') as -> by congruence.
    apply (proj1 (list.Forall_forall _ _) Hs). by apply (list_elem_of_fmap_2 snd) in Hin.
  - destruct (lookup_lt_is_Some_2 WASMInitSymbols (Z.to_nat (k - 1))) as [s Hs1].
    { change (length WASMInitSymbols) with 18%nat. unfold WASM_SYMBOLS_END in Hlt. lia. }
    destruct (Hres k s ltac:(lia) Hs1) as (e' & He' & <- & _). assert (e = e') as -> by congruence.
    exact (Forall_lookup_1 _ _ _ _ init_short Hs1).
Qed.

(** What every history keeps. *)
Lemma history_inv ok p h n : history ok p h n -> n <= MaxSymbols -> pool_holds p h.*1 /\ pool_aged n p /\ Forall ok h.*2.
Proof.
  induction 1 as [|p h n str k p' _ IH Hok E|p h1 k str h2 n p' _ IH E]; intros Hn.
  - split_and!; [apply initial_holds|apply initial_aged|constructor].
  - destruct (IH ltac:(lia)) as (Hh & Ha & Hs). destruct (newSymbol_step p n h.*1 str Hh Ha ltac:(lia)) as (k0 & p0 & E0 & Hk & ? & ? & _).
    rewrite E in E0. injection E0 as <- <-. split_and!; [done|done|by constructor].
  - destruct (IH Hn) as (Hh & Ha & Hs). rewrite fmap_app, fmap_cons in Hh. rewrite fmap_app, fmap_cons in Hs. cbn in Hh, Hs.
    assert (pool_holds p (k :: (h1 ++ h2).*1)) as Hh' by (rewrite fmap_app; eapply pool_holds_perm; [|exact Hh]; symmetry; apply Permutation_middle).
    destruct (freeSymbol_step p _ k Hh') as (p0 & E0 & ? & Hage & _). rewrite E in E0. injection E0 as <-.
    split_and!; [done|by apply Hage|]. rewrite fmap_app. apply Forall_app in Hs as [? [_ ?]%Forall_cons_1]. by apply Forall_app.
Qed.

(** And those on short strings. *)
Lemma history_names p h n :
  history short p h n -> n <= MaxSymbols -> Forall (fun x => 0 < x.1 /\ name_of p x.1 = Some x.2) h.
Proof.
  induction 1 as [|p h n str k p' Hp IH Hok E|p h1 k str h2 n p' Hp IH E]; intros Hn; [done| |].
  - destruct (history_inv _ _ _ _ Hp ltac:(lia)) as (Hh & Ha & Hs). specialize (IH ltac:(lia)).
    destruct (newSymbol_step p n h.*1 str Hh Ha ltac:(lia)) as (k0 & p0 & E0 & Hk & _ & _ & Hname & Hkeep).
    rewrite E in E0. injection E0 as <- <-. constructor.
    + split; [done|]. apply Hname. eapply holds_tidy; [exact Hh| |done]. eapply Forall_impl; [|exact IH]. by intros x [_ ?].
    + eapply Forall_impl; [|exact IH]. intros x [? ?]. split; [done|by apply Hkeep].
  - destruct (history_inv _ _ _ _ Hp Hn) as (Hh & _ & _). specialize (IH Hn). rewrite fmap_app, fmap_cons in Hh. cbn in Hh.
    assert (pool_holds p (k :: (h1 ++ h2).*1)) as Hh' by (rewrite fmap_app; eapply pool_holds_perm; [|exact Hh]; symmetry; apply Permutation_middle).
    destruct (freeSymbol_step p _ k Hh') as (p0 & E0 & _ & _ & Hkeep). rewrite E in E0. injection E0 as <-.
    apply Forall_app in IH as [Hf1 [_ Hf2]%Forall_cons_1]. apply list.Forall_forall. intros x Hx.
    assert (0 < x.1 /\ name_of p x.1 = Some x.2) as [? Hnm].
    { apply elem_of_app in Hx as [Hx|Hx]; [by apply (proj1 (list.Forall_forall _ _) Hf1)|by apply (proj1 (list.Forall_forall _ _) Hf2)]. }
    split; [done|]. apply Hkeep; [done|]. destruct (decide (x.1 = k)) as [<-|?]; [right; right|by left].
    by apply list_elem_of_fmap_2.
Qed.

(** C26. Whatever the calls before, fewer than [MaxSymbols] of them for new
    symbols, the symbol pool answers: a symbol can be asked for, and every
    symbol that is held can be given back, without undefined behaviour and
    without failing.  The strings may have any length. *)
Theorem symbol_pool_safe ok p h n :
  history ok p h n -> n < MaxSymbols ->
  (forall str, exists k p', newSymbol_ str p = Some (k, p') /\ k <> 0) /\
  (forall k str, (k, str) ∈ h -> exists p', freeSymbol_ k p = Some p') /\ 0 <= getNumSymbols p.
Proof.
  intros Hh Hn. destruct (history_inv ok p h n Hh ltac:(lia)) as (Hold & Hage & _). split_and!.
  - intros str. destruct (newSymbol_step p n _ str Hold Hage Hn) as (k & p' & E & Hk & _). exists k, p'. split; [done|lia].
  - intros k str (h1 & h2 & ->)%list_elem_of_split. rewrite fmap_app, fmap_cons in Hold.
    destruct (freeSymbol_step p (h1.*1 ++ h2.*1) k) as (p' & E & _); [|by exists p'].
    eapply pool_holds_perm; [|exact Hold]. symmetry. apply Permutation_middle.
  - destruct Hold as (E & T & cs & fl & rl & Hrep & _). unfold getNumSymbols. rewrite (r_count _ _ _ _ _ _ Hrep). lia.
Qed.

(** C16. Where only strings of fewer than 2^32 bytes are asked for, a symbol that
    is held stands for the string it was asked for: it is found under this
    string and its string can be read back, and two symbols that are held are
    equal exactly if their strings are. *)
Theorem symbols_are_strings p h n :
  history short p h n -> n <= MaxSymbols ->
  (forall k str, (k, str) ∈ h -> dumpSymbolString k p = Some (Some str) /\ probeSymbol str p = Some k) /\
  (forall k str k' str', (k, str) ∈ h -> (k', str') ∈ h -> k = k' <-> str = str').
Proof.
  intros Hh Hn. destruct (history_inv _ p h n Hh Hn) as (Hold & _ & Hs). pose proof (history_names p h n Hh Hn) as Hf.
  assert (tidy p) as Ht by (eapply holds_tidy; [exact Hold| |done]; eapply Forall_impl; [|exact Hf]; by intros x [_ ?]).
  rewrite list.Forall_forall in Hf.
  assert (forall k str, (k, str) ∈ h -> 0 < k /\ name_of p k = Some str) as Hname by (intros k str Hx; by apply (Hf (k, str))).
  split.
  - intros k str Hx. destruct (Hname k str Hx) as [Hk Hk']. pose proof (Ht _ _ Hk') as Hsh. split; [by eapply dump_name|].
    destruct (probe_name p _ str Hold Ht Hsh) as (k' & -> & [[-> Hno]|[_ Hs']]); [by apply Hno in Hk'|].
    f_equal. by eapply name_inj.
  - intros k str k' str' [_ H1]%Hname [_ H2]%Hname. pose proof (Ht _ _ H1). split; [intros ->; congruence|intros ->; by eapply name_inj].
Qed.

(** A slot that is freed while the free list is empty is lost: the next new
    symbol makes the array larger and forgets the recycled slots. *)
Definition after_new (str : list Z) (p : ConstStringPool) : ConstStringPool := default p (snd <$> newSymbol_ str p).

Example recycled_slots_lost :
  let full := fold_right after_new initialPool ((fun i => [i]) <$> seqZ 0 192) in
  let freed := default full (freeSymbol_ 50 full) in
  let p := after_new [200] freed in
  (FreeIndex freed, RecycleIndex freed, EntriesSize freed) = (0, 50, 211) /\
  (FreeIndex p, RecycleIndex p, EntriesSize p) = (212, 0, 316) /\ entryAt (default [] (EntriesArray p)) 50 = None.
Proof. vm_compute. auto. Qed.

(** ** Witnesses *)

(** A string is asked for twice and given back once. *)
Definition pool_a : ConstStringPool := after_new [97] initialPool.
Definition pool_b : ConstStringPool := after_new [98] pool_a.
Definition pool_c : ConstStringPool := after_new [97] pool_b.
Definition pool_d : ConstStringPool := default pool_c (freeSymbol_ 19 pool_c).

Lemma pool_d_history : history short pool_d [(20, [98]); (19, [97])] 3.
Proof.
  apply (history_free _ pool_c [] 19 [97]); [|vm_compute; reflexivity].
  apply (history_new _ pool_b _ 2); [|done|vm_compute; reflexivity]. apply (history_new _ pool_a _ 1); [|done|vm_compute; reflexivity].
  apply (history_new _ initialPool _ 0); [|done|vm_compute; reflexivity]. apply history_init.
Qed.

Lemma symbol_pool_safe_witness :
  (forall str, exists k p', newSymbol_ str pool_d = Some (k, p') /\ k <> 0) /\
  (forall k str, (k, str) ∈ [(20, [98]); (19, [97])] -> exists p', freeSymbol_ k pool_d = Some p') /\ 0 <= getNumSymbols pool_d.
Proof. apply (symbol_pool_safe short pool_d _ 3 pool_d_history). vm_compute. reflexivity. Defined.

Lemma symbols_are_strings_witness :
  dumpSymbolString 19 pool_d = Some (Some [97]) /\ probeSymbol [98] pool_d = Some 20 /\ (19 = 20 <-> [97] = [98]).
Proof.
  assert (3 <= MaxSymbols) as Hn by (vm_compute; discriminate).
  destruct (symbols_are_strings pool_d _ 3 pool_d_history Hn) as [H1 H2].
  assert ((20, [98]) ∈ [(20, [98]); (19, [97])]) as Hb by left.
  assert ((19, [97]) ∈ [(20, [98]); (19, [97])]) as Ha by (right; left).
  split; [exact (proj1 (H1 _ _ Ha))|]. split; [exact (proj2 (H1 _ _ Hb))|]. exact (H2 _ _ _ _ Ha Hb).
Defined.
