(* ===== verification/ModuleLoaderSections.v ===== *)
(** What each section of a module gives: the entries the loader writes are
    well-formed with respect to the sections before. *)

From stdpp Require Import gmap.
From S2P Require Import Prelude Intx Leb128 Leb128Correct FunctionLoader FunctionLoaderInv WasmValid FunctionLoaderSteps Unicode ModuleLoader ModuleLoaderInv.

#[local] Open Scope Z_scope.

(** One statement of the loader, by its rule. *)
Tactic Notation "mstep" uconstr(L) "as" simple_intropattern(a) simple_intropattern(s) simple_intropattern(H) :=
  apply mruns_bind; eapply mruns_mono; [apply L; try done|cbn beta; intros a s H].
Tactic Notation "mcheck" simple_intropattern(H) :=
  apply mruns_bind, mruns_check; [by eauto using ok_held|intros H].

(** Reads, one after the other. *)
Ltac reads_tac :=
  repeat match goal with H : reads _ _ _ |- _ => destruct H end; split; (congruence || lia).

#[export] Instance TypeEntry_eq_dec : EqDecision TypeEntry.
Proof. solve_decision. Defined.

(** The host functions: a module has some, and their types are there. *)
Definition host_ok (Hosts : gmap Z (list NativeFuncDesc)) : Prop :=
  forall k fs, Hosts !! k = Some fs -> fs <> [] /\
    Forall (fun f => 0 <= n_param_count f /\ 0 <= n_ret_count f /\
      Z.of_nat (length (n_func_type f)) = n_param_count f + n_ret_count f) fs.

Section Sections.
Context {P : Type} {SP : SymbolPool P} {SL : SymbolPoolLaws P}.
Context (wide_shift : Z -> Z -> Z) (SpecTest : bool) (Hosts : gmap Z (list NativeFuncDesc)).
Hypothesis HH : host_ok Hosts.

#[local] Abbreviation ML := (ModuleLoader (P := P)).
#[local] Abbreviation mbody := (body (E := ErrorCode) (S := ML)).
Implicit Types (l : list Z) (s : ML).

(** ** Types and expressions *)

Lemma readLimits_runs l s :
  ok l s -> runs l (readLimits wide_shift) (fun r s' => ok l s' /\ reads 1 s s' /\ 0 <= r.1) s.
Proof.
  intros Hs. unfold readLimits. mstep mByte_runs as b s1 (Hs1 & Hr1 & _). mcheck _.
  mstep mU32_runs as n s2 (Hs2 & Hr2 & Hn). destruct (b =? 1).
  - mstep mU32_runs as m s3 (Hs3 & Hr3 & Hm). mcheck _. apply mruns_ret. split_and!; [done|reads_tac|cbn; lia].
  - apply mruns_ret. split_and!; [done|reads_tac|cbn; lia].
Qed.

Lemma readTableType_runs l s :
  ok l s -> runs l (readTableType wide_shift) (fun t s' => ok l s' /\ reads 1 s s' /\ 0 <= t.1 <= PresetMaxTableSize) s.
Proof.
  intros Hs. unfold readTableType. mstep mTypeBase_runs as t s1 (Hs1 & Hr1 & _).
  mstep readLimits_runs as r s2 (Hs2 & Hr2 & Hn). cbn zeta. mcheck Hmax. apply andb_true_iff in Hmax as [Hmax%Z.leb_le _].
  apply mruns_ret. split_and!; [done|reads_tac|done|done].
Qed.

Lemma readMemoryType_runs l s :
  ok l s -> runs l (readMemoryType wide_shift) (fun t s' => ok l s' /\ reads 1 s s' /\ 0 <= t.1 <= PresetMaxMemoryPages) s.
Proof.
  intros Hs. unfold readMemoryType. mstep readLimits_runs as r s2 (Hs2 & Hr2 & Hn). cbn zeta. mcheck Hmax.
  apply andb_true_iff in Hmax as [Hmax%Z.leb_le _]. apply mruns_ret. by split_and!.
Qed.

Lemma readGlobalType_runs l s :
  ok l s -> runs l readGlobalType (fun t s' => ok l s' /\ reads 1 s s' /\ is_val t.1) s.
Proof.
  intros Hs. unfold readGlobalType. mstep readValType_runs as t s1 (Hs1 & Hr1 & Ht).
  mstep mByte_runs as b s2 (Hs2 & Hr2 & _). mcheck _. apply mruns_ret. split_and!; [done|reads_tac|done].
Qed.

(** A constant expression of type [t]: the opcode and the literal, or an
    imported global variable. *)
Definition expr_wf (ig : list ImportGlobalEntry) (t : WASMType) (e : Z * InitExpr) : Prop :=
  match e.2 with
  | InitI32 _ => e.1 = 0x41 /\ t = I32
  | InitI64 _ => e.1 = 0x42 /\ t = I64
  | InitF32 bs => e.1 = 0x43 /\ t = F32 /\ length bs = 4%nat /\ Forall is_byte bs
  | InitF64 bs => e.1 = 0x44 /\ t = F64 /\ length bs = 8%nat /\ Forall is_byte bs
  | InitGlobal x => e.1 = 0x23 /\ 0 <= x /\ exists g, ig !! Z.to_nat x = Some g /\ IGType g = t
  end.

Lemma literal_runs {A} l (f : list Z -> ErrorCode + (A * list Z)) (k : A -> WASMType * InitExpr) (R : WASMType * InitExpr -> Prop) s :
  ok l s -> advances f -> (forall bs a rest, Forall is_byte bs -> f bs = inr (a, rest) -> R (k a)) ->
  runs l (a <- scan f;; ret (k a)) (fun r s' => ok l s' /\ reads 0 s s' /\ R r) s.
Proof.
  intros Hs Hf HR. apply mruns_bind. eapply mruns_mono; [by apply scan_runs|]. cbn beta.
  intros a s' (Hs' & Hr & _ & rest & E). apply mruns_ret. split_and!; [done|reads_tac|].
  eapply HR; [|exact E]. by apply Forall_drop, Forall_take, Hs.
Qed.

Lemma readBytes_length n bs a rest :
  0 <= n -> Forall is_byte bs -> readBytes n bs = inr (a, rest) -> Z.of_nat (length a) = n /\ Forall is_byte a.
Proof.
  intros Hn Hb. unfold readBytes. destruct (Z.ltb_spec (Z.of_nat (length bs)) n); [done|]. intros [= <- _].
  rewrite length_take. split; [lia|by apply Forall_take].
Qed.

Lemma readConstExpr_runs l t s :
  ok l s -> runs l (readConstExpr wide_shift t) (fun r s' => ok l s' /\ reads 1 s s' /\ expr_wf (ImportGlobals (Mod s)) t r) s.
Proof.
  intros Hs. unfold readConstExpr. mstep mByte_runs as op s1 (Hs1 & Hr1 & _). apply mruns_bind.
  match goal with |- runs l ?m ?Q s1 => cut (runs l m (fun r s' => ok l s' /\ reads 0 s1 s' /\
    expr_wf (ImportGlobals (Mod s)) r.1 (op, r.2)) s1) end.
  { intros Hr. eapply mruns_mono; [exact Hr|]. cbn beta. intros r s2 (Hs2 & Hr2 & Hw). mcheck Ht.
    apply bool_decide_eq_true in Ht as <-. mstep mByte_runs as e s3 (Hs3 & Hr3 & _). mcheck _. apply mruns_ret.
    split_and!; [done|reads_tac|done]. }
  destruct (Z.eqb_spec op 0x41) as [->|].
  { apply (literal_runs l _ (fun n => (I32, InitI32 n)) (fun r => expr_wf _ r.1 (_, r.2))); [done|by apply advances_leb|done]. }
  destruct (Z.eqb_spec op 0x42) as [->|].
  { apply (literal_runs l _ (fun n => (I64, InitI64 n)) (fun r => expr_wf _ r.1 (_, r.2))); [done|by apply advances_leb|done]. }
  destruct (Z.eqb_spec op 0x43) as [->|].
  { apply (literal_runs l _ (fun n => (F32, InitF32 n)) (fun r => expr_wf _ r.1 (_, r.2))); [done|by apply advances_bytes|].
    intros bs a rest Hb [E Ha]%readBytes_length; [|done|done]. split_and!; [done|done| |done]. lia. }
  destruct (Z.eqb_spec op 0x44) as [->|].
  { apply (literal_runs l _ (fun n => (F64, InitF64 n)) (fun r => expr_wf _ r.1 (_, r.2))); [done|by apply advances_bytes|].
    intros bs a rest Hb [E Ha]%readBytes_length; [|done|done]. split_and!; [done|done| |done]. lia. }
  destruct (Z.eqb_spec op 0x23) as [->|]; [|by apply mruns_throw, Hs1].
  mstep mU32_runs as x s2 (Hs2 & Hr2 & Hx). apply mruns_bind, getMod_runs. mcheck Hv. apply mruns_bind, getMod_runs.
  assert (Mod s2 = Mod s) as Em by (destruct Hr1, Hr2; congruence). rewrite Em in *.
  unfold isValidImportGlobal in Hv. apply Z.ltb_lt in Hv.
  destruct (lookup_lt_is_Some_2 (ImportGlobals (Mod s)) (Z.to_nat x)) as [g Hg]; [lia|].
  apply mruns_bind. eapply mruns_option; [exact Hg|]. mcheck _. apply mruns_ret. split_and!; [done|reads_tac|].
  split_and!; [done|lia|by exists g].
Qed.

(** ** Imported functions *)

Lemma fastFunc_some name fs : fs <> [] -> exists o, fastFunc name fs = Some o /\
  forall i, o = Some i -> (i < length fs)%nat.
Proof.
  intros Hne. assert (0 < length fs)%nat as Hl by (destruct fs; [done|cbn; lia]). unfold fastFunc.
  destruct (lookup_lt_is_Some_2 fs 0 Hl) as [f0 ->]. cbn [mbind option_bind].
  destruct (lookup_lt_is_Some_2 fs (length fs - 1)) as [fn ->]; [lia|]. cbn [mbind option_bind].
  destruct (_ && _) eqn:E; [|by exists None]. destruct (Z.ltb_spec (name - n_name f0) (Z.of_nat (length fs))); [|by exists None].
  destruct (lookup_lt_is_Some_2 fs (Z.to_nat (name - n_name f0))) as [f ->]; [lia|]. cbn [mbind option_bind].
  eexists. split; [done|]. intros i. destruct (_ =? _); [|done]. intros [= <-]. lia.
Qed.

Lemma findFunc_some name i fs j : findFunc name i fs = Some j -> (i <= j < i + length fs)%nat.
Proof.
  revert i. induction fs as [|f fs IH]; intros i; cbn [findFunc length]; [done|].
  destruct (_ && _); [intros [= <-]; lia|]. intros H. apply IH in H. lia.
Qed.

Lemma sameTypes_some ts base actual :
  (base + length ts <= length actual)%nat -> exists b, sameTypes ts base actual = Some b.
Proof.
  revert base. induction ts as [|t ts IH]; intros base Hl; cbn [sameTypes length] in *; [by eexists|].
  destruct (lookup_lt_is_Some_2 actual base) as [a ->]; [lia|]. cbn [mbind option_bind].
  case_bool_decide; [apply IH; lia|by eexists].
Qed.

Lemma resolve_runs l M F t s :
  ok l s -> runs l (resolveImportFunction Hosts M F t) (fun _ s' => s' = s) s.
Proof.
  intros Hs. pose proof (ok_held _ _ Hs) as Hh. unfold resolveImportFunction, resolveHostModule.
  destruct (Hosts !! _) as [fs|] eqn:Ef; [|by apply mruns_throw]. destruct (HH _ _ Ef) as [Hne Hfs].
  destruct (fastFunc_some F fs Hne) as (o & Eo & Ho). apply mruns_bind. eapply mruns_option; [exact Eo|].
  destruct (match o with Some i => Some i | None => findFunc F 0 fs end) as [i|] eqn:Ei; [|by apply mruns_throw].
  assert (i < length fs)%nat as Hi.
  { destruct o; [injection Ei as ->; by apply Ho|]. apply findFunc_some in Ei. lia. }
  destruct (lookup_lt_is_Some_2 fs i Hi) as [f Hf]. apply mruns_bind. eapply mruns_option; [exact Hf|].
  destruct (Forall_lookup_1 _ _ _ _ Hfs Hf) as (Hp & Hr & Hl).
  mcheck Hret. mcheck Hpar. apply Z.eqb_eq in Hret, Hpar.
  destruct (sameTypes_some (ReturnTypes t) (Z.to_nat (n_param_count f)) (n_func_type f)) as [b1 E1]; [lia|].
  apply mruns_bind. eapply mruns_option; [exact E1|]. mcheck _.
  destruct (sameTypes_some (ParamTypes t) 0 (n_func_type f)) as [b2 E2]; [lia|].
  apply mruns_bind. eapply mruns_option; [exact E2|]. mcheck _. by apply mruns_ret.
Qed.

(** ** Types *)

(** The cells of values of these types. *)
Definition cells_of (t : WASMType) : Z := default 0 (getWASMTypeCellNum t).
Fixpoint cells (ts : list WASMType) : Z := match ts with [] => 0 | t :: ts => cells_of t + cells ts end.

Lemma cells_app ts us : cells (ts ++ us) = cells ts + cells us.
Proof. induction ts as [|t ts IH]; cbn [app cells]; lia. Qed.

Lemma readValTypes_runs l N e s :
  ok l s -> 0 <= N ->
  runs l (readValTypes N e) (fun r s' => ok l s' /\ reads 0 s s' /\ Forall is_val r.2 /\ Z.of_nat (length r.2) = N /\
    r.1 = cells r.2) s.
Proof.
  intros Hs HN. unfold readValTypes.
  eapply mruns_mono; [apply (for_reads l N _ (fun I (acc : Z * list WASMType) => Forall is_val acc.2 /\
    Z.of_nat (length acc.2) = I /\ acc.1 = cells acc.2)); [done|done|done|]|].
  - intros I acc s1 HI Hs1 _ (Hv & Hl & Hc). mstep readValType_runs as t s2 (Hs2 & Hr2 & Ht).
    destruct (val_cells t Ht) as (n & En & _). apply mruns_bind. eapply mruns_option; [exact En|].
    apply mruns_bind, add32_runs; [apply Hs2|]. intros _. apply mruns_ret. cbn [fst snd]. split_and!; [done|done| | |].
    + apply Forall_app. split; [done|by repeat constructor].
    + rewrite length_app. cbn. lia.
    + rewrite cells_app, Hc. assert (cells_of t = n) as Ect by (unfold cells_of; by rewrite En). cbn [cells]. rewrite Ect. lia.
  - cbn beta. intros r s' (? & ? & ? & ? & ?). by split_and!.
Qed.

Lemma isEqual_spec t1 t2 : isEqual t1 t2 = bool_decide (t1 = t2).
Proof.
  unfold isEqual. destruct t1 as [p1 r1], t2 as [p2 r2]. cbn [ParamTypes ReturnTypes].
  destruct (decide (p1 = p2)) as [->|Hp].
  - destruct (decide (r1 = r2)) as [->|Hr].
    + by rewrite !Nat.eqb_refl, !bool_decide_true.
    + rewrite (bool_decide_false (r1 = r2)), andb_false_r by done. symmetry. apply bool_decide_eq_false. congruence.
  - rewrite (bool_decide_false (p1 = p2)), andb_false_r by done. symmetry. apply bool_decide_eq_false. congruence.
Qed.

(** [d] refers to the first type like its own. *)
Definition first_like (ds : list TypeDecl) (d : TypeDecl) : Prop :=
  (exists d', ds !! SmallestTypeIdx d = Some d' /\ DType d' = DType d) /\
  (forall j d', (j < SmallestTypeIdx d)%nat -> ds !! j = Some d' -> DType d' <> DType d).
Definition canonical (ds : list TypeDecl) : Prop := Forall (first_like ds) ds.

Lemma smallest_spec t J I ds :
  let k := smallestIdx t J I ds in
  (k = I /\ Forall (fun d => DType d <> t) ds) \/
  exists i d, k = (J + i)%nat /\ ds !! i = Some d /\ DType d = t /\
    forall j d', (j < i)%nat -> ds !! j = Some d' -> DType d' <> t.
Proof.
  cbn zeta. revert J. induction ds as [|d ds IH]; intros J; cbn [smallestIdx]; [by left|].
  rewrite isEqual_spec. case_bool_decide as E.
  - right. exists 0%nat, d. split_and!; [lia|done|done|]. intros. lia.
  - destruct (IH (S J)) as [[-> Hf]|(i & d0 & -> & Hi & Ht & Hmin)].
    + left. split; [done|]. constructor; [congruence|done].
    + right. exists (S i), d0. split_and!; [lia|done|done|]. intros [|j] d' Hj.
      * intros [= <-]. congruence.
      * apply Hmin. lia.
Qed.

Lemma first_like_app ds d d0 : first_like ds d -> first_like (ds ++ [d0]) d.
Proof.
  intros [(d' & Hd' & Ed') Hmin]. split.
  - exists d'. split; [by apply lookup_app_l_Some|done].
  - intros j d'' Hj. apply lookup_lt_Some in Hd'. rewrite lookup_app_l by lia. by apply Hmin.
Qed.

Lemma canonical_snoc ds t :
  canonical ds -> canonical (ds ++ [mkDecl t (smallestIdx t 0 (length ds) ds)]).
Proof.
  intros Hc. set (d := mkDecl _ _). apply Forall_app. split.
  { eapply Forall_impl; [intros x; apply first_like_app|exact Hc]. }
  constructor; [|done]. unfold first_like. cbn [SmallestTypeIdx d DType].
  destruct (smallest_spec t 0 (length ds) ds) as [[-> Hf]|(i & d0 & -> & Hi & Ht & Hmin)].
  - split; [exists d; by rewrite lookup_app_r, Nat.sub_diag|]. intros j d' Hj. rewrite lookup_app_l by done.
    intros Hd'. by apply (Forall_lookup_1 _ _ _ _ Hf Hd').
  - cbn [Nat.add]. apply lookup_lt_Some in Hi as Hlt. split.
    + exists d0. by rewrite lookup_app_l.
    + intros j d' Hj. rewrite lookup_app_l by lia. by apply Hmin.
Qed.

(** What a section leaves: the module [m], and the cursor further on. *)
Record wrote l s (m : WasmModule) s' : Prop := {
  w_ok : ok l s';
  w_bytes : MBytes s' = MBytes s;
  w_end : MEnd s' = MEnd s;
  w_mod : Mod s' = m;
  w_named : HasNameSection s' = HasNameSection s;
  w_ptr : (MPtr s <= MPtr s')%nat;
}.

Lemma put_runs l s s1 f :
  ok l s1 -> reads 0 s s1 -> runs l (putMod f) (fun _ s' => wrote l s (f (Mod s)) s') s1.
Proof.
  intros Hs Hr. apply mruns_modify. destruct Hs, Hr. split; cbn; [by split|done|done|congruence|done|lia].
Qed.

Definition types_wf (ds : list TypeDecl) : Prop :=
  Forall (fun d => type_ok (DType d)) ds /\ canonical ds /\ Z.of_nat (length ds) <= PresetMaxNumTypes /\
  Forall (fun d => cells (ParamTypes (DType d)) <= PresetMaxNumParamCells) ds.

Lemma loadTypeSection_runs l s :
  ok l s ->
  runs l (loadTypeSection wide_shift) (fun _ s' => exists ds, types_wf ds /\ wrote l s (set_Types ds (Mod s)) s') s.
Proof.
  intros Hs. unfold loadTypeSection. mstep mU32_runs as N s1 (Hs1 & Hr1 & HN). mcheck Hmax. apply Z.leb_le in Hmax.
  apply mruns_bind. eapply mruns_mono; [apply (for_reads l N _ (fun I ds => Z.of_nat (length ds) = I /\
    Forall (fun d => type_ok (DType d)) ds /\ canonical ds /\
    Forall (fun d => cells (ParamTypes (DType d)) <= PresetMaxNumParamCells) ds));
    [done|lia|split_and!; [done|done|constructor|constructor]|]|].
  - intros I ds s2 HI Hs2 _ (Hl & Hok & Hc & Hpc). mstep mByte_runs as b s3 (Hs3 & Hr3 & _). mcheck _.
    mstep mU32_runs as np s4 (Hs4 & Hr4 & Hnp). mcheck _.
    apply mruns_bind. eapply mruns_mono; [apply readValTypes_runs; [done|lia]|]. cbn beta.
    intros ps s5 (Hs5 & Hr5 & Hps & Hlp & Ecells). mcheck Hcells. apply Z.leb_le in Hcells. mstep mU32_runs as nr s6 (Hs6 & Hr6 & Hnr). mcheck Hone.
    apply mruns_bind. eapply mruns_mono; [apply readValTypes_runs; [done|lia]|]. cbn beta.
    intros rs s7 (Hs7 & Hr7 & Hrs & Hlr & _). mcheck _. cbn zeta. apply mruns_ret. apply Z.leb_le in Hone.
    unfold PresetMaxNumReturns in Hone. split_and!; [done|reads_tac| | | |].
    + rewrite length_app. cbn. lia.
    + apply Forall_app. split; [done|]. constructor; [|done]. split_and!; [done|done|cbn; lia].
    + replace (Z.to_nat I) with (length ds) by lia. by apply canonical_snoc.
    + apply Forall_app. split; [done|]. constructor; [|done]. cbn. by rewrite <- Ecells.
  - cbn beta. intros ds s2 (Hs2 & Hr2 & Hl & Hok & Hc & Hpc). eapply mruns_mono; [apply (put_runs l s); [done|reads_tac]|].
    cbn beta. intros _ s3 Hw. exists ds. split; [|done]. split_and!; [done|done|lia|done].
Qed.

(** ** The layout of the global variables *)

Lemma align_bound v a : a = 4 \/ a = 8 -> 0 <= v <= 2 ^ 31 -> v <= ZEN_ALIGN v a <= v + 7.
Proof.
  intros Ha Hv. unfold ZEN_ALIGN. rewrite (wrap_small 32 (v + a - 1)) by (unfold in_u; lia).
  assert (exists n, 0 <= n /\ a = 2 ^ n /\ u32 (Z.lnot (a - 1)) = Z.land (Z.lnot (Z.ones n)) (Z.ones 32)) as (n & Hn & E & ->)
    by (destruct Ha as [-> | ->]; [exists 2|exists 3]; (split; [lia|by vm_compute])).
  rewrite (Z.land_comm (Z.lnot _)), Z.land_assoc, Z.land_ones by lia.
  rewrite (Z.mod_small (v + a - 1)) by lia. rewrite <- Z.ldiff_land, Z.ldiff_ones_r, Z.shiftl_mul_pow2, Z.shiftr_div_pow2 by lia.
  rewrite <- E. pose proof (Z.div_mod (v + a - 1) a). pose proof (Z.mod_pos_bound (v + a - 1) a). lia.
Qed.

(** Ranges one after the other, from [o] to [e]. *)
Fixpoint chain (o : Z) (rs : list (Z * Z)) (e : Z) : Prop :=
  match rs with
  | [] => o <= e
  | r :: rs => o <= r.1 /\ 0 <= r.2 /\ chain (r.1 + r.2) rs e
  end.

Lemma chain_snoc o rs e r e' : chain o rs e -> e <= r.1 -> 0 <= r.2 -> r.1 + r.2 <= e' -> chain o (rs ++ [r]) e'.
Proof.
  revert o. induction rs as [|x rs IH]; intros o; cbn [chain app].
  - intros. split_and!; lia.
  - intros (? & ? & ?) ? ? ?. split_and!; [done|done|by apply IH].
Qed.

Lemma nextOffset_runs l o t s :
  ok l s -> is_val t -> 0 <= o <= 2 ^ 31 ->
  runs l (nextGlobalOffset o t) (fun o' s' => s' = s /\ o + size_of t <= o' <= o + 16) s.
Proof.
  intros Hs Ht Ho. destruct (val_size t Ht) as (n & En & Hn). unfold nextGlobalOffset.
  apply mruns_bind. eapply mruns_option; [exact En|]. apply add32_runs; [apply Hs|]. intros _.
  pose proof (align_bound o n Hn Ho). split; [done|]. unfold size_of. rewrite En. change (default 0 (Some n)) with n. destruct Hn; lia.
Qed.

Definition import_range (g : ImportGlobalEntry) : Z * Z := (IGOffset g, size_of (IGType g)).
Definition global_range (g : GlobalDef) : Z * Z := (GDOffset g, size_of (GDType g)).

(** ** Imports *)

Record imports_wf (ds : list TypeDecl) (r : Imports) : Prop := {
  iw_funcs : Forall (fun f => IFTypeIdx f < length ds)%nat (iFuncs r);
  iw_globals : Forall (fun g => is_val (IGType g) /\ IGMutable g = false) (iGlobals r);
  iw_chain : chain 0 (import_range <$> iGlobals r) (iOffset r);
  iw_offset : 0 <= iOffset r <= 16 * Z.of_nat (length (iGlobals r));
  iw_tables : Forall (fun t => 0 <= ITInitSize t <= PresetMaxTableSize) (iTables r);
  iw_memories : Forall (fun t => 0 <= InitPages t <= PresetMaxMemoryPages) (iMemories r);
}.

Definition imports_size (r : Imports) : Z := Z.of_nat (length (iGlobals r)).

Lemma first_like_lt ds d i : canonical ds -> ds !! i = Some d -> (SmallestTypeIdx d < length ds)%nat.
Proof. intros Hc Hd. destruct (Forall_lookup_1 _ _ _ _ Hc Hd) as [(d' & Hd' & _) _]. by apply lookup_lt_Some in Hd'. Qed.

Lemma declared_type ds x (m : WasmModule) :
  ds = Types_ m -> 0 <= x -> isValidType (view m) x = true -> exists d, ds !! Z.to_nat x = Some d.
Proof.
  intros -> Hx Hv%Z.ltb_lt. unfold view in Hv. cbn [TypeTable] in Hv. rewrite length_fmap in Hv.
  apply lookup_lt_is_Some_2. lia.
Qed.

Lemma loadImport_runs l M F acc s :
  ok l s -> canonical (Types_ (Mod s)) -> imports_wf (Types_ (Mod s)) acc -> imports_size acc < 2 ^ 16 ->
  runs l (loadImport wide_shift SpecTest Hosts M F acc) (fun acc' s' => ok l s' /\ reads 1 s s' /\
    imports_wf (Types_ (Mod s)) acc' /\ imports_size acc' <= imports_size acc + 1) s.
Proof.
  intros Hs Hc [Hf Hg Hch Ho Htb Hmm] Hn. unfold loadImport, imports_size in *. mstep mByte_runs as k s1 (Hs1 & Hr1 & _).
  destruct (k =? 0).
  { mstep mU32_runs as x s2 (Hs2 & Hr2 & Hx). apply mruns_bind, getMod_runs. mcheck Hv. apply mruns_bind, getMod_runs.
    assert (Mod s2 = Mod s) as Em by (destruct Hr1, Hr2; congruence). rewrite Em in *.
    destruct (declared_type _ x (Mod s) eq_refl ltac:(lia) Hv) as [d Hd].
    apply mruns_bind. eapply mruns_option; [exact Hd|]. mstep resolve_runs as p s3 ->. apply mruns_ret.
    split_and!; [done|reads_tac| |cbn; lia]. split; cbn; try done. apply Forall_app. split; [done|].
    constructor; [|done]. cbn. by eapply first_like_lt. }
  destruct ((k =? 1) && SpecTest).
  { mstep readTableType_runs as t s2 (Hs2 & Hr2 & Ht). apply mruns_ret. split_and!; [done|reads_tac| |cbn; lia].
    split; try done. apply Forall_app. by split; [|constructor]. }
  destruct ((k =? 2) && SpecTest).
  { mstep readMemoryType_runs as t s2 (Hs2 & Hr2 & Ht). apply mruns_ret. split_and!; [done|reads_tac| |cbn; lia].
    split; try done. apply Forall_app. by split; [|constructor]. }
  destruct ((k =? 3) && SpecTest); [|destruct (_ && _); by apply mruns_throw, Hs1].
  mstep readGlobalType_runs as t s2 (Hs2 & Hr2 & Ht). mcheck Hmut. apply negb_true_iff in Hmut.
  apply mruns_bind. eapply mruns_mono; [apply nextOffset_runs; [done|done|lia]|]. cbn beta.
  intros o s3 (-> & Ho'). apply mruns_ret. split_and!; [done|reads_tac| |cbn; rewrite length_app; cbn; lia].
  destruct (stackable_size t.1 ltac:(by left)) as [_ Hsz]. split; cbn [iFuncs iGlobals iOffset]; try done.
  - apply Forall_app. split; [done|]. by repeat constructor.
  - rewrite fmap_app. eapply chain_snoc; [exact Hch|cbn; lia|cbn; lia|cbn; lia].
  - rewrite length_app. cbn. lia.
Qed.

Lemma ok_weak l k s : ok (k :: l) s -> ok l s.
Proof. intros []. split; try done. by eapply held_nil. Qed.

Lemma importLoop_runs fuel l I N acc s :
  ok l s -> canonical (Types_ (Mod s)) -> imports_wf (Types_ (Mod s)) acc -> imports_size acc <= I ->
  0 <= I <= N -> N < 2 ^ 16 -> (MEnd s - MPtr s < fuel)%nat ->
  runs l (importLoop wide_shift SpecTest Hosts fuel I N acc) (fun acc' s' => ok l s' /\ reads 0 s s' /\
    imports_wf (Types_ (Mod s)) acc') s.
Proof.
  revert l I acc s. induction fuel as [|fuel IH]; intros l I acc s Hs Hc Hacc Hsz HI HN Hf; [lia|]. cbn [importLoop].
  destruct (Z.ltb_spec I N); [|apply mruns_ret; split_and!; [done|apply reads_refl|done]].
  mstep readName_runs as k1 s1 (Hs1 & Hr1). apply guarded_runs. mstep readName_runs as k2 s2 (Hs2 & Hr2).
  apply guarded_runs. assert (Mod s2 = Mod s) as Em by (destruct Hr1, Hr2; congruence). apply mruns_bind.
  eapply mruns_mono; [apply loadImport_runs; rewrite ?Em; try done; lia|]. cbn beta.
  intros acc' s3 (Hs3 & Hr3 & Hacc' & Hsz'). rewrite Em in Hacc'. assert (Mod s3 = Mod s) as Em3 by (destruct Hr3; congruence).
  eapply mruns_mono; [apply IH; rewrite ?Em3; try done; try lia|].
  - pose proof (ok_ptr _ _ Hs3). destruct Hr1, Hr2, Hr3. lia.
  - cbn beta. rewrite Em3. intros acc'' s4 (Hs4 & Hr4 & Hacc''). split_and!; [by do 2 eapply ok_weak|reads_tac|done].
Qed.

Lemma loadImportSection_runs l s :
  ok l s -> canonical (Types_ (Mod s)) ->
  runs l (loadImportSection wide_shift SpecTest Hosts) (fun _ s' => exists r, imports_wf (Types_ (Mod s)) r /\
    Z.of_nat (length (iFuncs r)) <= PresetMaxNumFunctions /\ Z.of_nat (length (iTables r)) <= PresetMaxNumTables /\
    Z.of_nat (length (iMemories r)) <= PresetMaxNumMemories /\ Z.of_nat (length (iGlobals r)) <= PresetMaxNumGlobals /\
    wrote l s (set_Imports (iFuncs r) (iTables r) (iMemories r) (iGlobals r) (iOffset r) (Mod s)) s') s.
Proof.
  intros Hs Hc. unfold loadImportSection. mstep mU32_runs as N s1 (Hs1 & Hr1 & HN). mcheck Hmax. apply Z.leb_le in Hmax.
  apply mruns_bind, mruns_gets. assert (Mod s1 = Mod s) as Em by (by destruct Hr1). apply mruns_bind.
  eapply mruns_mono; [apply (importLoop_runs _ l 0 N); rewrite ?Em; try done; try lia|].
  - unfold PresetMaxNumImports, UINT16_MAX in Hmax. lia.
  - cbn beta. rewrite Em. intros r s2 (Hs2 & Hr2 & Hw). mcheck H1. mcheck H2. mcheck H3. mcheck H4.
    eapply mruns_mono; [apply (put_runs l s); [done|reads_tac]|]. cbn beta. intros _ s3 Hw3. exists r.
    apply Z.leb_le in H1, H2, H3, H4. by split_and!.
Qed.

(** ** Functions, tables, memories and globals *)

(** A function has the first type like the one it names. *)
Definition func_wf (ds : list TypeDecl) (f : FuncEntry) : Prop :=
  exists d, ds !! OriginTypeIdx f = Some d /\ TypeIdx f = SmallestTypeIdx d.

Lemma loadFunctionSection_runs l s :
  ok l s -> 
  runs l (loadFunctionSection wide_shift) (fun _ s' => exists fs, Forall (func_wf (Types_ (Mod s))) fs /\
    Z.of_nat (length (ImportFuncs (Mod s)) + length fs) <= PresetMaxNumFunctions /\
    wrote l s (set_Funcs fs (Mod s)) s') s.
Proof.
  intros Hs. unfold loadFunctionSection. mstep mU32_runs as N s1 (Hs1 & Hr1 & HN). apply mruns_bind, getMod_runs.
  apply mruns_bind, add32_runs; [apply Hs1|]. intros _. mcheck Hmax. apply Z.leb_le in Hmax.
  apply mruns_bind. eapply mruns_mono; [apply (for_reads l N _ (fun I fs => Z.of_nat (length fs) = I /\
    Forall (func_wf (Types_ (Mod s))) fs)); [done|lia|done|]|].
  - intros I fs s2 HI Hs2 Hr2 (Hl & Hfs). mstep mU32_runs as x s3 (Hs3 & Hr3 & Hx). apply mruns_bind, getMod_runs.
    mcheck Hv. apply mruns_bind, getMod_runs.
    assert (Mod s3 = Mod s) as Em by (destruct Hr1, Hr2, Hr3; congruence). rewrite Em in *.
    destruct (declared_type _ x (Mod s) eq_refl ltac:(lia) Hv) as [d Hd].
    apply mruns_bind. eapply mruns_option; [exact Hd|]. apply mruns_ret. split_and!; [done|reads_tac| |].
    + rewrite length_app. cbn. lia.
    + apply Forall_app. split; [done|]. constructor; [|done]. by exists d.
  - cbn beta. intros fs s2 (Hs2 & Hr2 & Hl & Hfs).
    eapply mruns_mono; [apply (put_runs l s); [done|reads_tac]|]. cbn beta. intros _ s3 Hw. exists fs.
    assert (Mod s1 = Mod s) as Em by (by destruct Hr1). rewrite Em in Hmax. split_and!; [done|lia|done].
Qed.

Lemma loadTableSection_runs l s :
  ok l s ->
  runs l (loadTableSection wide_shift) (fun _ s' => exists ts,
    Z.of_nat (length (ImportTables (Mod s)) + length ts) <= PresetMaxNumTables /\
    Forall (fun t => 0 <= TInitSize t <= PresetMaxTableSize) ts /\ wrote l s (set_Tables ts (Mod s)) s') s.
Proof.
  intros Hs. unfold loadTableSection. mstep mU32_runs as N s1 (Hs1 & Hr1 & HN). apply mruns_bind, getMod_runs.
  apply mruns_bind, add32_runs; [apply Hs1|]. intros _. mcheck Hmax. apply Z.leb_le in Hmax.
  apply mruns_bind. eapply mruns_mono; [apply (for_reads l N _ (fun I (ts : list TableEntry) => Z.of_nat (length ts) = I /\
    Forall (fun t => 0 <= TInitSize t <= PresetMaxTableSize) ts)); [done|lia|done|]|].
  - intros I ts s2 HI Hs2 Hr2 (Hl & Hts). mstep readTableType_runs as t s3 (Hs3 & Hr3 & Ht). apply mruns_ret.
    split_and!; [done|done|rewrite length_app; cbn; lia|]. apply Forall_app. by split; [|constructor].
  - cbn beta. intros ts s2 (Hs2 & Hr2 & Hl & Hts). eapply mruns_mono; [apply (put_runs l s); [done|reads_tac]|].
    cbn beta. intros _ s3 Hw. exists ts. assert (Mod s1 = Mod s) as Em by (by destruct Hr1). rewrite Em in Hmax.
    split_and!; [lia|done|done].
Qed.

Lemma loadMemorySection_runs l s :
  ok l s ->
  runs l (loadMemorySection wide_shift) (fun _ s' => exists ts,
    Z.of_nat (length (ImportMemories (Mod s)) + length ts) <= PresetMaxNumMemories /\
    Forall (fun t => 0 <= MInitSize t <= PresetMaxMemoryPages) ts /\ wrote l s (set_Memories ts (Mod s)) s') s.
Proof.
  intros Hs. unfold loadMemorySection. mstep mU32_runs as N s1 (Hs1 & Hr1 & HN). apply mruns_bind, getMod_runs.
  apply mruns_bind, add32_runs; [apply Hs1|]. intros _. mcheck Hmax. apply Z.leb_le in Hmax.
  apply mruns_bind. eapply mruns_mono; [apply (for_reads l N _ (fun I (ts : list MemoryEntry) => Z.of_nat (length ts) = I /\
    Forall (fun t => 0 <= MInitSize t <= PresetMaxMemoryPages) ts)); [done|lia|done|]|].
  - intros I ts s2 HI Hs2 Hr2 (Hl & Hts). mstep readMemoryType_runs as t s3 (Hs3 & Hr3 & Ht). apply mruns_ret.
    split_and!; [done|done|rewrite length_app; cbn; lia|]. apply Forall_app. by split; [|constructor].
  - cbn beta. intros ts s2 (Hs2 & Hr2 & Hl & Hts). eapply mruns_mono; [apply (put_runs l s); [done|reads_tac]|].
    cbn beta. intros _ s3 Hw. exists ts. assert (Mod s1 = Mod s) as Em by (by destruct Hr1). rewrite Em in Hmax.
    split_and!; [lia|done|done].
Qed.

(** The global variables of a module, the imported ones first. *)
Definition ranges (ig : list ImportGlobalEntry) (gs : list GlobalDef) : list (Z * Z) :=
  (import_range <$> ig) ++ (global_range <$> gs).

Record globals_wf (ig : list ImportGlobalEntry) (gs : list GlobalDef) (o : Z) : Prop := {
  gw_vals : Forall (fun g => is_val (GDType g)) gs;
  gw_chain : chain 0 (ranges ig gs) o;
  gw_offset : 0 <= o <= 16 * Z.of_nat (length ig + length gs);
  gw_inits : Forall (fun g => expr_wf ig (GDType g) (GDInitExprKind g, GDInitExprVal g)) gs;
}.

Lemma loadGlobalSection_runs l s :
  ok l s -> globals_wf (ImportGlobals (Mod s)) [] (GlobalVarSize (Mod s)) ->
  runs l (loadGlobalSection wide_shift) (fun _ s' => exists gs o, globals_wf (ImportGlobals (Mod s)) gs o /\
    Z.of_nat (length (ImportGlobals (Mod s)) + length gs) <= PresetMaxNumGlobals /\
    wrote l s (set_Globals gs o (Mod s)) s') s.
Proof.
  intros Hs Hg. unfold loadGlobalSection. mstep mU32_runs as N s1 (Hs1 & Hr1 & HN). apply mruns_bind, getMod_runs.
  apply mruns_bind, add32_runs; [apply Hs1|]. intros _. mcheck Hmax. apply Z.leb_le in Hmax.
  assert (Mod s1 = Mod s) as Em by (by destruct Hr1). rewrite Em in Hmax. unfold PresetMaxNumGlobals, UINT16_MAX in Hmax.
  apply mruns_bind, getMod_runs. rewrite Em. apply mruns_bind.
  eapply mruns_mono; [apply (for_reads l N _ (fun I (r : list GlobalDef * Z) => Z.of_nat (length r.1) = I /\
    globals_wf (ImportGlobals (Mod s)) r.1 r.2)); [done|lia|done|]|].
  - intros I r s2 HI Hs2 Hr2 (Hl & [Hv Hc Ho Hin]). mstep readGlobalType_runs as t s3 (Hs3 & Hr3 & Ht).
    mstep readConstExpr_runs as e s4 (Hs4 & Hr4 & He). assert (Mod s3 = Mod s) as Em3 by (destruct Hr1, Hr2, Hr3; congruence).
    rewrite Em3 in He. apply mruns_bind.
    eapply mruns_mono; [apply nextOffset_runs; [done|done|lia]|]. cbn beta. intros o s5 (-> & Ho').
    destruct (stackable_size t.1 ltac:(by left)) as [_ Hsz].
    apply mruns_ret. cbn [fst snd]. rewrite length_app. split_and!; [done|reads_tac|cbn; lia|]. split.
    + apply Forall_app. split; [done|]. by repeat constructor.
    + unfold ranges. rewrite fmap_app, app_assoc. eapply chain_snoc; [exact Hc|cbn; lia|cbn; lia|cbn; lia].
    + rewrite length_app. cbn. lia.
    + apply Forall_app. split; [done|]. by destruct e; constructor.
  - cbn beta. intros r s2 (Hs2 & Hr2 & Hl & Hw). eapply mruns_mono; [apply (put_runs l s); [done|reads_tac]|].
    cbn beta. intros _ s3 Hw3. exists r.1, r.2. split_and!; [done| |done]. unfold PresetMaxNumGlobals, UINT16_MAX. lia.
Qed.

(** ** Exports, start function, elements *)

Definition export_wf (m : WasmModule) (x : ExportEntry) : Prop :=
  0 <= ItemIdx x /\
  (XKind x = 0 /\ isValidFunc (view m) (ItemIdx x) = true \/ XKind x = 1 /\ isValidTable (view m) (ItemIdx x) = true \/
   XKind x = 2 /\ isValidMem m (ItemIdx x) = true \/ XKind x = 3 /\ isValidGlobal (view m) (ItemIdx x) = true).

(** The gas function takes the gas. *)
Definition gas_wf (m : WasmModule) (gas : Z) : Prop :=
  gas = NONE32 \/ 0 <= gas /\ getFunctionType (view m) (Z.to_nat gas) = Some (mkType [I64] []).

Lemma checkExport_runs l Name k x gas s :
  ok l s -> mod_ok (view (Mod s)) -> 0 <= x -> gas_wf (Mod s) gas ->
  runs l (checkExport Name k x gas) (fun gas' s' => s' = s /\ export_wf (Mod s) (mkExport Name k x) /\
    gas_wf (Mod s) gas') s.
Proof.
  intros Hs Hm Hx Hg. unfold checkExport, export_wf. cbn [ItemIdx XKind]. apply mruns_bind, getMod_runs. cbn [id].
  destruct (Z.eqb_spec k 0).
  { mcheck Hv. destruct (func_type (view (Mod s)) Hm x Hx Hv) as (t & Et & Ht).
    destruct (Name =? _); [|apply mruns_ret; split_and!; auto].
    apply mruns_bind. eapply mruns_option; [exact Et|]. mcheck Hc.
    apply andb_true_iff in Hc as [Hp%bool_decide_eq_true Hr%bool_decide_eq_true]. apply mruns_ret.
    split_and!; [done|done|auto|]. right. split; [done|]. rewrite Et. destruct t. cbn in *. by subst. }
  destruct (Z.eqb_spec k 1); [mcheck Hv; apply mruns_ret; split_and!; auto|].
  destruct (Z.eqb_spec k 2); [mcheck Hv; apply mruns_ret; split_and!; auto|].
  destruct (Z.eqb_spec k 3); [mcheck Hv; apply mruns_ret; split_and!; auto 10|]. by apply mruns_throw, Hs.
Qed.

Definition exports_wf (m : WasmModule) (xs : list ExportEntry) : Prop :=
  NoDup (XName <$> xs) /\ Forall (export_wf m) xs.

Lemma loadExportSection_runs l s :
  ok l s -> mod_ok (view (Mod s)) -> gas_wf (Mod s) (GasFuncIdx (Mod s)) ->
  runs l (loadExportSection wide_shift) (fun _ s' => exists xs gas, exports_wf (Mod s) xs /\ gas_wf (Mod s) gas /\
    wrote l s (set_Exports xs gas (Mod s)) s') s.
Proof.
  intros Hs Hm Hg. unfold loadExportSection. mstep mU32_runs as N s1 (Hs1 & Hr1 & HN). mcheck _.
  apply mruns_bind, getMod_runs. assert (Mod s1 = Mod s) as Em by (by destruct Hr1). rewrite Em. apply mruns_bind.
  eapply mruns_mono; [apply (for_reads l N _ (fun I (r : list ExportEntry * Z) => exports_wf (Mod s) r.1 /\
    gas_wf (Mod s) r.2)); [done|lia|by split; [split; constructor|]|]|].
  - intros I r s2 HI Hs2 Hr2 ([Hnd Hx] & Hgas). mstep readName_runs as k s3 (Hs3 & Hr3). apply ok_weak in Hs3.
    mcheck Hdup. apply negb_true_iff, bool_decide_eq_false in Hdup.
    mstep mByte_runs as kind s4 (Hs4 & Hr4 & _). mstep mU32_runs as x s5 (Hs5 & Hr5 & Hx5).
    assert (Mod s5 = Mod s) as Em5 by (destruct Hr1, Hr2, Hr3, Hr4, Hr5; congruence).
    apply mruns_bind. eapply mruns_mono; [apply checkExport_runs; rewrite ?Em5; try done; lia|]. cbn beta. rewrite Em5.
    intros gas s6 (-> & Hw & Hgas'). apply mruns_ret. cbn [fst snd]. split_and!; [done|reads_tac| |done].
    split; [|apply Forall_app; by split; [|constructor]]. rewrite fmap_app. apply list.NoDup_app. split_and!; [done| |apply NoDup_singleton].
    intros y Hy ->%list_elem_of_singleton. done.
  - cbn beta. intros r s2 (Hs2 & Hr2 & Hw & Hgas). eapply mruns_mono; [apply (put_runs l s); [done|reads_tac]|].
    cbn beta. intros _ s3 Hw3. by exists r.1, r.2.
Qed.

(** The start function takes and returns nothing. *)
Definition start_wf (m : WasmModule) (n : Z) : Prop :=
  n = NONE32 \/ 0 <= n /\ getFunctionType (view m) (Z.to_nat n) = Some (mkType [] []).

Lemma loadStartSection_runs l s :
  ok l s -> mod_ok (view (Mod s)) ->
  runs l (loadStartSection wide_shift) (fun _ s' => exists n, start_wf (Mod s) n /\ wrote l s (set_Start n (Mod s)) s') s.
Proof.
  intros Hs Hm. unfold loadStartSection. mstep mU32_runs as x s1 (Hs1 & Hr1 & Hx). apply mruns_bind, getMod_runs.
  assert (Mod s1 = Mod s) as Em by (by destruct Hr1). rewrite Em. mcheck Hv.
  destruct (func_type (view (Mod s)) Hm x ltac:(lia) Hv) as (t & Et & _). apply mruns_bind. eapply mruns_option; [exact Et|].
  mcheck Hc. apply andb_true_iff in Hc as [Hp%Nat.eqb_eq%nil_length_inv Hr%Nat.eqb_eq%nil_length_inv].
  eapply mruns_mono; [apply (put_runs l s); [done|reads_tac]|]. cbn beta. intros _ s2 Hw. exists x. split; [|done].
  right. split; [lia|]. rewrite Et. destruct t. cbn in *. by subst.
Qed.

Definition elem_wf (m : WasmModule) (e : ElemEntry) : Prop :=
  isValidTable (view m) (ETableIdx e) = true /\ Forall (fun f => 0 <= f /\ isValidFunc (view m) f = true) (FuncIdxs e) /\
  0 <= ETableIdx e /\ expr_wf (ImportGlobals m) I32 (EInitExprKind e, EInitExprVal e) /\
  4 * Z.of_nat (length (FuncIdxs e)) <= UINT32_MAX.

Lemma loadElementSection_runs l s :
  ok l s ->
  runs l (loadElementSection wide_shift) (fun _ s' => exists es, Forall (elem_wf (Mod s)) es /\
    wrote l s (set_Elements es (Mod s)) s') s.
Proof.
  intros Hs. unfold loadElementSection. mstep mU32_runs as N s1 (Hs1 & Hr1 & HN). mcheck _. apply mruns_bind.
  eapply mruns_mono; [apply (for_reads l N _ (fun I es => Forall (elem_wf (Mod s)) es)); [done|lia|done|]|].
  - intros I es s2 HI Hs2 Hr2 Hes. mstep mU32_runs as t s3 (Hs3 & Hr3 & Ht). apply mruns_bind, getMod_runs.
    assert (Mod s3 = Mod s) as Em by (destruct Hr1, Hr2, Hr3; congruence). rewrite Em. mcheck Hv.
    mstep readConstExpr_runs as e s4 (Hs4 & Hr4 & He). rewrite Em in He. mstep mU32_runs as n s5 (Hs5 & Hr5 & Hn).
    mcheck Hmax. apply Z.leb_le in Hmax. apply mruns_bind.
    eapply mruns_mono; [apply (for_reads l n _ (fun I fs => Z.of_nat (length fs) = I /\
      Forall (fun f => 0 <= f /\ isValidFunc (view (Mod s)) f = true) fs)); [done|lia|done|]|].
    + intros J fs s6 HJ Hs6 Hr6 (Hl & Hfs). mstep mU32_runs as f s7 (Hs7 & Hr7 & Hf). mcheck Hvf. apply mruns_ret.
      split_and!; [done|done|rewrite length_app; cbn; lia|]. apply Forall_app. split; [done|]. constructor; [split; [lia|done]|done].
    + cbn beta. intros fs s6 (Hs6 & Hr6 & Hl & Hfs). apply mruns_ret. split_and!; [done|reads_tac|].
      apply Forall_app. split; [done|]. constructor; [|done]. destruct e. split_and!; try done; cbn; lia.
  - cbn beta. intros es s2 (Hs2 & Hr2 & Hes). eapply mruns_mono; [apply (put_runs l s); [done|reads_tac]|].
    cbn beta. intros _ s3 Hw. by exists es.
Qed.
End Sections.
