(* ===== verification/ModuleLoaderCode.v ===== *)
(** The code, data and name sections: the two passes over the local
    variables agree, every body is given to the function loader with what it
    needs, and the bytes after a section are untouched. *)

From stdpp Require Import gmap.
From S2P Require Import Prelude Intx Leb128 Leb128Correct FunctionLoader FunctionLoaderInv WasmValid FunctionLoaderSteps FunctionLoaderTheorems Unicode ModuleLoader ModuleLoaderInv ModuleLoaderSections.

#[local] Open Scope Z_scope.

(** The offsets of variables of these types, in cells from [o] on. *)
Fixpoint offsets (o : Z) (ts : list WASMType) : list Z :=
  match ts with [] => [] | t :: ts => o :: offsets (o + cells_of t) ts end.

Lemma offsets_app o ts us : offsets o (ts ++ us) = offsets o ts ++ offsets (o + cells ts) us.
Proof.
  revert o. induction ts as [|t ts IH]; intros o; cbn [app offsets cells]; [by rewrite Z.add_0_r|].
  rewrite IH. do 2 f_equal. f_equal. lia.
Qed.

Lemma cells_replicate n t : cells (replicate n t) = Z.of_nat n * cells_of t.
Proof. induction n as [|n IH]; cbn [replicate cells]; lia. Qed.

(** [n] bytes of a module from [p] on. *)
Definition slice (p : nat) (n : Z) (bs : list Z) : list Z := take (Z.to_nat n) (drop p bs).

Section Code.
Context {P : Type} {SP : SymbolPool P} {SL : SymbolPoolLaws P}.
Context (wide_shift : Z -> Z -> Z).

#[local] Abbreviation ML := (ModuleLoader (P := P)).
#[local] Abbreviation mbody := (body (E := ErrorCode) (S := ML)).
Implicit Types (l : list Z) (s : ML).

(** ** Local variables *)

Lemma mruns_eq {A} l (m : mbody A) Q s : runs l m Q s -> runs l m (fun a s' => Q a s' /\ m s = Ret a s') s.
Proof. unfold runs. by destruct (m s). Qed.

(** Only the cursor moves. *)
Definition cursor_only {A} (m : mbody A) : Prop := forall s a s', m s = Ret a s' -> s' = set_MPtr (MPtr s') s.

Lemma scan_cursor {A} (f : list Z -> ErrorCode + (A * list Z)) : cursor_only (scan f).
Proof. intros s a s'. unfold scan. destruct (f _) as [|[b rest]]; [done|]. by intros [= <- <-]. Qed.

Lemma valType_cursor : cursor_only readValType.
Proof.
  intros s a s'. unfold readValType, mTypeBase, bind. destruct (mByte s) as [b s1| | |] eqn:E; [|done..].
  pose proof (scan_cursor _ _ _ _ E) as E1. case_bool_decide; [done|]. by intros [= _ <-].
Qed.

Definition readBody (NL : Z) : Z -> list WASMType -> mbody (list WASMType) := fun _ acc =>
  NumSameLocals <- mU32 wide_shift;;
  Type_ <- readValType;;
  if NL <? Z.of_nat (length acc) + NumSameLocals then undef
  else ret (acc ++ replicate (Z.to_nat NumSameLocals) Type_).

(** After [I] vectors the second pass has the types the first has counted. *)
Record counted l s I (n k : Z) s1 : Prop := {
  co_ok : ok l s1;
  co_reads : reads (Z.to_nat I) s s1;
  co_cursor : s1 = set_MPtr (MPtr s1) s;
  co_nonneg : 0 <= n;
  co_second : forall N NL, I <= N -> n <= NL -> exists ts, Z.of_nat (length ts) = n /\ cells ts = k /\ Forall is_val ts /\
    forall fuel, forLoop (fuel + Z.to_nat I) 0 N (readBody NL) [] s = forLoop fuel I N (readBody NL) ts s1;
}.

Lemma set_MPtr_twice p q s : set_MPtr p (set_MPtr q s) = set_MPtr p s.
Proof. done. Qed.

Lemma counted_step l s I n k s1 x t s2 s3 :
  0 <= I -> counted l s I n k s1 -> mU32 wide_shift s1 = Ret x s2 -> readValType s2 = Ret t s3 ->
  ok l s3 -> reads 1 s1 s2 -> reads 1 s2 s3 -> 0 <= x -> is_val t ->
  counted l s (I + 1) (n + x) (k + x * cells_of t) s3.
Proof.
  intros HI [Hok Hr Hc Hn Hsec] E2 E3 Hok3 Hr2 Hr3 Hx Ht. split; [done| | |lia|].
  - rewrite Z2Nat.inj_add by lia. change (Z.to_nat 1) with 1%nat. reads_tac.
  - pose proof (scan_cursor _ _ _ _ E2) as C2. pose proof (valType_cursor _ _ _ E3) as C3.
    rewrite C3. rewrite C2. rewrite Hc at 1. by rewrite !set_MPtr_twice.
  - intros N NL HN HNL. destruct (Hsec N NL ltac:(lia) ltac:(lia)) as (ts & Hl & Hk & Hv & Hfor).
    exists (ts ++ replicate (Z.to_nat x) t). split_and!.
    + rewrite length_app, length_replicate. lia.
    + rewrite cells_app, cells_replicate, Hk, Z2Nat.id by done. done.
    + apply Forall_app. split; [done|]. by apply Forall_replicate.
    + intros fuel. replace (fuel + Z.to_nat (I + 1))%nat with (S fuel + Z.to_nat I)%nat by lia.
      rewrite Hfor. cbn [forLoop]. rewrite (proj2 (Z.ltb_lt I N)) by lia. unfold bind at 1, readBody at 1, bind at 1.
      rewrite E2. unfold bind. rewrite E3. rewrite (proj2 (Z.ltb_ge NL _)) by lia. done.
Qed.

Lemma countLocals_runs l N s :
  ok l s -> 0 <= N ->
  runs l (countLocals wide_shift N) (fun r s' => counted l s N r.1 r.2 s') s.
Proof.
  intros Hs HN. unfold countLocals.
  eapply mruns_mono; [apply (for_runs l N _ (fun I (r : Z * Z) s1 => counted l s I r.1 r.2 s1)); [done| |]|done].
  - split; [done|apply reads_refl|by destruct s|done|]. intros N' NL _ HNL. exists []. split_and!; [done|done|done|].
    intros fuel. by rewrite Nat.add_0_r.
  - intros I r s1 HI Hc. pose proof (co_ok _ _ _ _ _ _ Hc) as Hs1. apply mruns_bind.
    eapply mruns_mono; [apply mruns_eq; by apply mU32_runs|]. cbn beta. intros x s2 ((Hs2 & Hr2 & Hx) & E2).
    apply mruns_bind, add32_runs; [apply Hs2|]. intros _. apply mruns_bind.
    eapply mruns_mono; [apply mruns_eq; by apply readValType_runs|]. cbn beta. intros t s3 ((Hs3 & Hr3 & Ht) & E3).
    destruct (val_cells t Ht) as (c & Ec & _). apply mruns_bind. eapply mruns_option; [exact Ec|].
    apply mruns_bind, mul32_runs; [apply Hs3|]. intros _. apply mruns_bind, add32_runs; [apply Hs3|]. intros _.
    apply mruns_ret. cbn [fst snd]. split_and!.
    + assert (c = cells_of t) as -> by (unfold cells_of; by rewrite Ec). eapply counted_step; try done; lia.
    + destruct Hr2, Hr3. lia.
    + apply Hs3.
    + destruct Hr2, Hr3. congruence.
Qed.

(** The second pass, from where the first started. *)
Lemma readLocals_eq l N s n k s1 :
  0 <= N -> counted l s N n k s1 -> exists ts, Z.of_nat (length ts) = n /\ cells ts = k /\ Forall is_val ts /\
    readLocals wide_shift N n s = Ret ts s1.
Proof.
  intros HN [Hok Hr Hc Hn Hsec]. destruct (Hsec N n ltac:(lia) ltac:(lia)) as (ts & Hl & Hk & Hv & Hfor).
  exists ts. split_and!; [done|done|done|]. unfold readLocals, for_, bind, gets.
  change (fun _ acc => _) with (readBody n). pose proof (ok_ptr _ _ Hok) as Hp.
  replace (S (MEnd s - MPtr s)) with (S (MEnd s - MPtr s) - Z.to_nat N + Z.to_nat N)%nat
    by (destruct Hr; lia).
  rewrite Hfor. destruct (S (MEnd s - MPtr s) - Z.to_nat N)%nat; cbn [forLoop]; by rewrite Z.ltb_irrefl.
Qed.

Lemma localOffsets_runs l e o ts s :
  ok l s -> Forall is_val ts ->
  runs l (localOffsets e o ts) (fun r s' => s' = s /\ r.1 = offsets o ts /\ r.2 = o + cells ts) s.
Proof.
  intros Hs Hts. revert o. induction Hts as [|t ts Ht _ IH]; intros o; cbn [localOffsets offsets cells].
  { apply mruns_ret. split_and!; [done|done|cbn; lia]. }
  destruct (val_cells t Ht) as (n & En & _). apply mruns_bind. eapply mruns_option; [exact En|].
  apply mruns_bind, add32_runs; [apply Hs|]. intros _. apply mruns_bind. eapply mruns_mono; [apply IH|]. cbn beta.
  intros r s' (-> & E1 & E2). apply mruns_ret. unfold cells_of. rewrite En. cbn. split_and!; [done|by rewrite E1|lia].
Qed.

(** ** Bodies *)

(** The bytes from the cursor on are those of the file. *)
Record unread (Bytes0 : list Z) s : Prop := {
  un_length : length (MBytes s) = length Bytes0;
  un_bytes : drop (MPtr s) (MBytes s) = drop (MPtr s) Bytes0;
}.

Lemma drop_more {A} n m (l l' : list A) : (n <= m)%nat -> drop n l = drop n l' -> drop m l = drop m l'.
Proof. intros Hn H. replace m with (n + (m - n))%nat by lia. by rewrite <- !drop_drop, H. Qed.

Lemma unread_reads B n s s' : unread B s -> reads n s s' -> unread B s'.
Proof. intros [Hl Hd] [E _ _ _ Hp]. split; rewrite E; [done|]. eapply drop_more; [|exact Hd]. lia. Qed.

Lemma slice_drop p n (bs : list Z) : drop p (take (p + Z.to_nat n) bs) = slice p n bs.
Proof. unfold slice. by rewrite take_drop_commute. Qed.

(** What loading a body of function [i] leaves in its entry and in the bytes
    [B'], which it patches. *)
Record code_wf (B B' : list Z) (m : WasmModule) (i : nat) (c : CodeEntry) : Prop := {
  cw_range : 0 <= CCodeSize c <= PresetMaxFunctionSize /\ Z.of_nat (CodePtr c) + CCodeSize c <= Z.of_nat (length B);
  cw_locals : Forall is_val (CLocalTypes c) /\ NumLocals c = Z.of_nat (length (CLocalTypes c)) /\
    NumLocals c <= PresetMaxFunctionLocals /\ NumLocalCells c = cells (CLocalTypes c);
  cw_body : exists F fs, getFunctionType (view m) i = Some F /\
    load wide_shift (view m) F (CLocalTypes c) (slice (CodePtr c) (CCodeSize c) B) = Ret tt fs /\
    CMaxStackSize c = MaxStackSize fs /\ CMaxBlockDepth c = MaxBlockDepth fs /\ CStats c = Stats fs /\
    LocalOffsets c = offsets 0 (ParamTypes F ++ CLocalTypes c) /\ slice (CodePtr c) (CCodeSize c) B' = LCode fs;
}.

(** The entry says what it does of other bytes that agree on the body. *)
Lemma slice_before p q n (bs bs' : list Z) :
  take q bs' = take q bs -> 0 <= n -> Z.of_nat p + n <= Z.of_nat q -> slice p n bs' = slice p n bs.
Proof.
  intros E Hn Hq. rewrite <- !slice_drop. apply (f_equal (take (p + Z.to_nat n))) in E.
  rewrite !take_take, Nat.min_l in E by lia. by rewrite E.
Qed.
Lemma code_wf_bytes B B1 B2 m i c q :
  code_wf B B1 m i c -> take q B2 = take q B1 -> Z.of_nat (CodePtr c) + CCodeSize c <= Z.of_nat q -> code_wf B B2 m i c.
Proof.
  intros [Hr Hl (F & fs & EF & El & H1 & H2 & H3 & H4 & H5)] E Hq. split; [done|done|]. exists F, fs. split_and!; try done.
  rewrite <- H5. apply (slice_before _ q); [done|apply Hr|done].
Qed.

Lemma loadFunction_runs l B F Locals n s :
  ok l s -> mod_ok (view (Mod s)) -> type_ok F -> Forall is_val Locals -> unread B s ->
  0 <= n <= PresetMaxFunctionSize -> (MPtr s + Z.to_nat n <= MEnd s)%nat ->
  runs l (loadFunction wide_shift F Locals (MPtr s + Z.to_nat n)) (fun fs s' =>
    load wide_shift (view (Mod s)) F Locals (slice (MPtr s) n B) = Ret tt fs /\
    s' = set_MBytes (MBytes s') s /\ ok l (set_MPtr (MPtr s + Z.to_nat n) s') /\
    unread B (set_MPtr (MPtr s + Z.to_nat n) s') /\ slice (MPtr s) n (MBytes s') = LCode fs /\
    take (MPtr s) (MBytes s') = take (MPtr s) (MBytes s)) s.
Proof.
  intros Hs Hm HF HL [Hul Hud] Hn He. unfold runs, loadFunction. rewrite slice_drop.
  assert (slice (MPtr s) n (MBytes s) = slice (MPtr s) n B) as -> by (unfold slice; by rewrite Hud).
  assert (length (slice (MPtr s) n B) = Z.to_nat n) as Hlen.
  { unfold slice. rewrite length_take, length_drop, <- Hul. pose proof (ok_ptr _ _ Hs). lia. }
  assert (Forall is_byte (slice (MPtr s) n B)) as Hbytes.
  { unfold slice. rewrite <- Hud. apply Forall_take, Forall_drop, Hs. }
  pose proof (load_runs wide_shift (view (Mod s)) F Locals Hm HF HL (slice (MPtr s) n B) Hbytes
    ltac:(rewrite Hlen; unfold PresetMaxFunctionSize in Hn; lia)) as Hr.
  destruct (load _ _ _ _ _) as [[] fs|fs|e fs|]; [|done| |done].
  - destruct Hr as (_ & _ & Elen & Hi). destruct Hs as [Hb Hl Hp Hh Hroom].
    assert (length (take (MPtr s) (MBytes s) ++ LCode fs) = MPtr s + Z.to_nat n)%nat as Epre
      by (rewrite length_app, length_take; lia).
    assert (length (MBytes s) = length ((take (MPtr s) (MBytes s) ++ LCode fs) ++ drop (MPtr s + Z.to_nat n) (MBytes s)))
      as Etot by (rewrite length_app, Epre, length_drop; lia).
    rewrite app_assoc. split_and!; [done|done| | | |].
    + split; cbn; [|lia|lia|done|eapply room_weak; [exact Hroom|done|rewrite <- Etot; cbn; lia]].
      apply Forall_app; split; [apply Forall_app; split; [by apply Forall_take|apply Hi]|by apply Forall_drop].
    + split; cbn; [lia|]. rewrite <- Epre at 1. rewrite drop_app_length.
      eapply drop_more; [|exact Hud]. lia.
    + cbn. rewrite <- slice_drop, <- Epre, take_app_length, drop_app_le by (rewrite length_take; lia).
      by rewrite drop_ge by (rewrite length_take; lia).
    + cbn. rewrite <- app_assoc, take_app_le by (rewrite length_take; lia). rewrite take_take, Nat.min_id. done.
  - destruct (ok_held _ _ Hs) as [rest ?]. by exists rest.
Qed.

(** A state further on in the same section; the bytes before the cursor may
    have been patched. *)
Record further l B s s' : Prop := {
  fu_ok : ok l s';
  fu_unread : unread B s';
  fu_end : MEnd s' = MEnd s;
  fu_mod : Mod s' = Mod s;
  fu_named : HasNameSection s' = HasNameSection s;
  fu_ptr : (MPtr s <= MPtr s')%nat;
  fu_before : take (MPtr s) (MBytes s') = take (MPtr s) (MBytes s);
}.

(** The size of what is left of a body. *)
Lemma actual_size start size p e :
  0 <= size <= PresetMaxFunctionSize -> (start <= p <= e)%nat -> Z.of_nat e <= 2 ^ 30 ->
  let n := u32 (Z.of_nat start + size - Z.of_nat p) in
  (p + Z.to_nat n <= e)%nat -> 0 <= n <= PresetMaxFunctionSize.
Proof.
  intros Hs Hp He n Hn. unfold PresetMaxFunctionSize in *.
  destruct (Z.le_gt_cases (Z.of_nat p) (Z.of_nat start + size)) as [Hle|Hgt].
  - unfold n. rewrite (wrap_small 32) by (unfold in_u; lia). lia.
  - assert (n = 2 ^ 32 + (Z.of_nat start + size - Z.of_nat p)) as E.
    { unfold n, wrap. rewrite <- (Z.mod_add _ 1), Z.mod_small by lia. lia. }
    lia.
Qed.

Lemma loadCode_runs l B I co s :
  ok l s -> mod_ok (view (Mod s)) -> unread B s -> 0 <= I -> isValidFunc (view (Mod s)) I = true ->
  runs l (loadCode wide_shift I co) (fun r s' => further l B s s' /\ (MPtr s < MPtr s')%nat /\
    code_wf B (MBytes s') (Mod s) (Z.to_nat I) r.1 /\ Z.of_nat (CodePtr r.1) + CCodeSize r.1 <= Z.of_nat (MPtr s')) s.
Proof.
  intros Hs Hm Hu HI Hv. destruct (func_type _ Hm I HI Hv) as (F & EF & HF). unfold loadCode.
  mstep mU32_runs as size s1 (Hs1 & Hr1 & Hsize). mcheck Hmax. apply Z.leb_le in Hmax. apply mruns_bind, mruns_gets.
  mstep mU32_runs as nv s2 (Hs2 & Hr2 & Hnv). apply mruns_bind, mruns_gets. apply mruns_bind.
  eapply mruns_mono; [apply countLocals_runs; [done|lia]|]. cbn beta. intros r s3 Hc. pose proof Hc as [Hs3 Hr3 Ec3 Hn3 _].
  mcheck Hcount. apply andb_true_iff in Hcount as [Hcount%Z.leb_le _].
  apply mruns_bind, mruns_modify. assert (set_MPtr (MPtr s2) s3 = s2) as ->
    by (rewrite Ec3, set_MPtr_twice; by destruct s2).
  destruct (readLocals_eq l nv s2 r.1 r.2 s3 ltac:(lia) Hc) as (ts & Hlts & Hcells & Hts & Ets).
  apply mruns_bind. unfold runs at 1. rewrite Ets. rewrite (proj2 (Z.ltb_ge _ _)) by lia.
  assert (Mod s3 = Mod s) as Em by (destruct Hr1, Hr2, Hr3; congruence). apply mruns_bind, getMod_runs. rewrite Em.
  apply mruns_bind. eapply mruns_option; [exact EF|]. apply mruns_bind, add32_runs; [apply Hs3|]. intros _.
  apply mruns_bind. eapply mruns_mono; [apply localOffsets_runs; [done|apply HF]|]. cbn beta. intros ps s4 (-> & Ep1 & Ep2).
  apply mruns_bind. eapply mruns_mono; [apply localOffsets_runs; [done|done]|]. cbn beta. intros ls s4 (-> & El1 & _).
  apply mruns_bind, mruns_gets. cbn zeta. set (n := u32 _). apply mruns_bind, mruns_gets.
  mcheck Hend. apply Nat.leb_le in Hend. pose proof Hs3 as [Hb3 Hl3 Hp3 Hh3 _].
  assert (0 <= n <= PresetMaxFunctionSize) as Hn.
  { eapply actual_size; [|split| |exact Hend]; try lia. destruct Hr2, Hr3. lia. }
  assert (unread B s3) as Hu3 by (eapply unread_reads; [eapply unread_reads; [eapply unread_reads; [exact Hu|done]|done]|done]).
  apply mruns_bind. rewrite <- Em in Hm.
  eapply mruns_mono; [apply (loadFunction_runs l B F ts n s3); try done|]. cbn beta.
  intros fs s5 (Eload & Es5 & Hs5 & Hu5 & Eslice & Ebefore). apply mruns_bind, mruns_modify.
  apply mruns_bind, add32_runs; [apply Hs5|]. intros _. mcheck _. apply mruns_ret. cbn [fst]. split_and!.
  - split; [done|done|rewrite Es5..| |]; cbn; try (destruct Hr1, Hr2, Hr3; congruence || lia).
    assert (MBytes s3 = MBytes s /\ (MPtr s <= MPtr s3)%nat) as [Eb Hle] by (destruct Hr1, Hr2, Hr3; split; congruence || lia).
    apply (f_equal (take (MPtr s))) in Ebefore. rewrite !take_take, Nat.min_l in Ebefore by lia. by rewrite Ebefore, Eb.
  - cbn. destruct Hr1, Hr2, Hr3. lia.
  - split; cbn; [split; [done|]|split_and!; [done|lia|lia|done]|].
    + destruct Hu3 as [Hul _]. lia.
    + exists F, fs. rewrite <- Em. split_and!; try done; [by rewrite Em|].
      rewrite Ep1, El1, Ep2, offsets_app. done.
  - cbn. lia.
Qed.

Lemma loadCodeSection_runs l B s :
  ok l s -> mod_ok (view (Mod s)) -> unread B s ->
  runs l (loadCodeSection wide_shift) (fun _ s' => exists cs, length cs = length (Funcs (Mod s)) /\
    (forall i c, cs !! i = Some c -> code_wf B (MBytes s') (Mod s) (length (ImportFuncs (Mod s)) + i) c) /\
    further l B (set_Mod (set_Codes cs (Mod s)) s) s') s.
Proof.
  intros Hs Hm Hu. unfold loadCodeSection. mstep mU32_runs as N s1 (Hs1 & Hr1 & HN). apply mruns_bind, getMod_runs.
  assert (Mod s1 = Mod s) as Em by (by destruct Hr1). rewrite Em. mcheck HNf. apply Z.eqb_eq in HNf.
  apply mruns_bind, getMod_runs. rewrite Em. apply mruns_bind.
  eapply mruns_mono; [apply (for_runs l N _ (fun I (r : list CodeEntry * Z) s' => further l B s1 s' /\
    Z.of_nat (length r.1) = I /\
    forall i c, r.1 !! i = Some c -> code_wf B (MBytes s') (Mod s) (length (ImportFuncs (Mod s)) + i) c /\
      Z.of_nat (CodePtr c) + CCodeSize c <= Z.of_nat (MPtr s'))); [lia| |]|].
  - split_and!; [|done|by intros i c]. split; try done. by eapply unread_reads.
  - intros I r s2 HI ([Hs2 Hu2 He2 Hm2 Hnm2 Hp2 Hbe2] & Hl & Hcs). apply mruns_bind.
    assert (Mod s2 = Mod s) as Em2 by congruence.
    assert (isValidFunc (view (Mod s)) (Z.of_nat (length (ImportFuncs (Mod s))) + I) = true) as Hv.
    { unfold isValidFunc, getNumTotalFunctions, view. cbn. rewrite !length_fmap. apply Z.ltb_lt. lia. }
    eapply mruns_mono; [apply (loadCode_runs l B); rewrite ?Em2; try done; lia|]. cbn beta. rewrite Em2.
    intros c s3 ([Hs3 Hu3 He3 Hm3 Hnm3 Hp3 Hbe3] & Hlt & Hc & Hend). apply mruns_ret. cbn [fst].
    split_and!; [|rewrite length_app; cbn; lia| |done|apply Hs3|congruence].
    + split; try done; try (congruence || lia). apply (f_equal (take (MPtr s1))) in Hbe3.
      rewrite !take_take, Nat.min_l in Hbe3 by lia. congruence.
    + intros i c' [Hi|[Hi Hc']]%lookup_app_Some.
      { destruct (Hcs _ _ Hi) as [Hw Hle]. split; [by eapply code_wf_bytes|lia]. }
      destruct (i - length r.1)%nat as [|k] eqn:Ei; [|done]. injection Hc' as <-.
      replace (length (ImportFuncs (Mod s)) + i)%nat with (Z.to_nat (Z.of_nat (length (ImportFuncs (Mod s))) + I)) by lia. done.
  - cbn beta. intros r s2 ([Hs2 Hu2 He2 Hm2 Hnm2 Hp2 Hbe2] & Hl & Hcs). apply mruns_modify. exists r.1.
    split_and!; [lia|by intros i c Hc; apply Hcs|]. split; cbn; try done; try (destruct Hr1; congruence || lia).
    + destruct Hs2. by split.
    + by destruct Hu2.
    + destruct Hr1 as [Eb1 _ _ _ Hle]. apply (f_equal (take (MPtr s))) in Hbe2.
      rewrite !take_take, Nat.min_l in Hbe2 by lia. congruence.
Qed.

(** ** Data *)

Definition data_wf (B : list Z) (m : WasmModule) (d : DataEntry) : Prop :=
  isValidMem m (DMemIdx d) = true /\ 0 <= DSize d <= PresetMaxDataSegmentSize /\ 0 <= DOffset d /\
  DOffset d + DSize d <= Z.of_nat (length B) /\ 0 <= DMemIdx d /\
  expr_wf (ImportGlobals m) I32 (DInitExprKind d, DInitExprVal d).

Lemma ok_move l p s : ok l s -> (MPtr s <= p <= MEnd s)%nat -> ok l (set_MPtr p s).
Proof. intros [] Hp. split; try done; cbn; [lia|]. eapply room_weak; [done|done|cbn; lia]. Qed.

Lemma loadDataSection_runs l B s :
  ok l s -> length (MBytes s) = length B ->
  runs l (loadDataSection wide_shift) (fun _ s' => exists ds, Forall (data_wf B (Mod s)) ds /\
    Z.of_nat (length ds) <= PresetMaxNumDataSegments /\ wrote l s (set_Datas ds (Mod s)) s') s.
Proof.
  intros Hs Hlen. unfold loadDataSection. mstep mU32_runs as N s1 (Hs1 & Hr1 & HN). mcheck Hmax. apply Z.leb_le in Hmax.
  apply mruns_bind, getMod_runs. mcheck _. apply mruns_bind.
  eapply mruns_mono; [apply (for_reads l N _ (fun I (r : list DataEntry * Z) => Z.of_nat (length r.1) = I /\
    Forall (data_wf B (Mod s)) r.1)); [done|lia|done|]|].
  - intros I r s2 HI Hs2 Hr2 (Hl & Hds). mstep mU32_runs as mi s3 (Hs3 & Hr3 & Hmi). apply mruns_bind, getMod_runs. cbn [id].
    assert (Mod s3 = Mod s) as Em by (destruct Hr1, Hr2, Hr3; congruence). rewrite Em. mcheck Hv.
    mstep readConstExpr_runs as e s4 (Hs4 & Hr4 & He). rewrite Em in He. mstep mU32_runs as n s5 (Hs5 & Hr5 & Hn). mcheck Hsz. apply Z.leb_le in Hsz.
    apply mruns_bind, add32_runs; [apply Hs5|]. intros _. apply mruns_bind, mruns_gets. apply mruns_bind, mruns_gets.
    cbn zeta. mcheck Hend. apply Nat.leb_le in Hend. apply mruns_bind, mruns_modify. apply mruns_ret. cbn [fst].
    pose proof Hs5 as [_ Hl5 Hp5 _ _]. assert (MBytes s5 = MBytes s) as Eb by (destruct Hr1, Hr2, Hr3, Hr4, Hr5; congruence).
    split_and!.
    + apply ok_move; [done|]. lia.
    + destruct Hr2, Hr3, Hr4, Hr5. split; cbn; congruence || lia.
    + rewrite length_app. cbn. lia.
    + apply Forall_app. split; [done|]. constructor; [|done]. destruct e. split_and!; cbn; try done; try lia;
        rewrite (wrap_small 32) by (unfold in_u; lia); rewrite Eb in *; lia.
  - cbn beta. intros r s2 (Hs2 & Hr2 & Hl & Hds). mcheck _. eapply mruns_mono; [apply (put_runs l s); [done|reads_tac]|].
    cbn beta. intros _ s3 Hw. exists r.1. split_and!; [done|lia|done].
Qed.

(** ** Names *)

(** Only names of functions change. *)
Record renamed (m m' : WasmModule) : Prop := {
  rn_rest : m' = set_Funcs (Funcs m') m;
  rn_types : (fun f => (TypeIdx f, OriginTypeIdx f)) <$> Funcs m' = (fun f => (TypeIdx f, OriginTypeIdx f)) <$> Funcs m;
}.

Lemma renamed_refl m : renamed m m.
Proof. split; [by destruct m|done]. Qed.
Lemma renamed_trans m1 m2 m3 : renamed m1 m2 -> renamed m2 m3 -> renamed m1 m3.
Proof. intros [E1 T1] [E2 T2]. split; [|congruence]. rewrite E2, E1. done. Qed.

Lemma renamed_length m m' : renamed m m' -> length (Funcs m') = length (Funcs m).
Proof. intros [_ H]. apply (f_equal length) in H. by rewrite !length_fmap in H. Qed.

Lemma renamed_view m m' : renamed m m' -> view m' = view m.
Proof.
  intros [E H]. assert (TypeIdx <$> Funcs m' = TypeIdx <$> Funcs m) as E2.
  { apply (f_equal (fmap fst)) in H. by rewrite <- !list_fmap_compose in H. }
  rewrite E. unfold view. cbn. by rewrite E2.
Qed.

Lemma set_name_renamed m i f k :
  Funcs m !! i = Some f -> renamed m (set_Funcs (<[i := mkFunc k (TypeIdx f) (OriginTypeIdx f)]> (Funcs m)) m).
Proof.
  intros Hf. split; [done|]. cbn. rewrite list_fmap_insert. cbn. apply list_insert_id.
  by rewrite list_lookup_fmap, Hf.
Qed.

(** Reading names. *)
Record named l s s' : Prop := {
  nm_ok : ok l s';
  nm_bytes : MBytes s' = MBytes s;
  nm_end : MEnd s' = MEnd s;
  nm_mod : renamed (Mod s) (Mod s');
  nm_flag : HasNameSection s' = HasNameSection s;
  nm_ptr : (MPtr s <= MPtr s')%nat;
}.

Lemma reads_named l n s s1 s2 : ok l s2 -> named l s s1 -> reads n s1 s2 -> named l s s2.
Proof. intros Hs [] []. split; try congruence. lia. Qed.

Lemma loadFuncNames_runs l s : ok l s -> runs l (loadFuncNames wide_shift) (fun _ s' => named l s s') s.
Proof.
  intros Hs. unfold loadFuncNames. mstep mU32_runs as N s1 (Hs1 & Hr1 & HN). apply mruns_bind, getMod_runs. mcheck _.
  apply mruns_bind. assert (named l s s) as H0 by (split; try done; apply renamed_refl).
  eapply mruns_mono; [apply (for_runs l N _ (fun _ _ s' => named l s s')); [lia|by eapply reads_named|]|by intros].
  intros I last s2 HI Hn2. pose proof (nm_ok _ _ _ Hn2) as Hs2. mstep mU32_runs as x s3 (Hs3 & Hr3 & Hx).
  apply mruns_bind, getMod_runs. mcheck Hv. apply mruns_bind.
  assert (runs l (if last =? NONE32 then ret tt else check (last <=? x) OutOfOrderFuncIdx;;;
    check (negb (x =? last)) DuplicateFuncName) (fun _ s' => s' = s3) s3) as Hord.
  { destruct (_ =? _); [by apply mruns_ret|]. mcheck _. apply mruns_check; [apply Hs3|]. done. }
  eapply mruns_mono; [exact Hord|]. cbn beta. intros _ s4 ->. mstep readName_runs as k s4 (Hs4 & Hr4).
  apply mruns_bind, getMod_runs. apply mruns_bind. assert (Mod s4 = Mod s3) as Em by (by destruct Hr4).
  pose proof (reads_named _ _ _ _ _ (ok_weak _ _ _ Hs4) (reads_named _ _ _ _ _ Hs3 Hn2 Hr3) Hr4) as Hn4.
  assert (forall s5, ok l s5 -> MBytes s5 = MBytes s4 -> MEnd s5 = MEnd s4 -> renamed (Mod s4) (Mod s5) ->
    HasNameSection s5 = HasNameSection s4 -> MPtr s5 = MPtr s4 ->
    named l s s5 /\ (MPtr s2 < MPtr s5 <= MEnd s5)%nat /\ MEnd s5 = MEnd s2) as Hend.
  { intros s5 Hs5 E1 E2 E3 E4 E5. destruct Hn4, Hr3, Hr4. split_and!; [|lia|apply Hs5|congruence].
    split; [done|congruence|congruence|by eapply renamed_trans|congruence|lia]. }
  destruct (Z.leb_spec (Z.of_nat (length (ImportFuncs (Mod s4)))) x).
  - unfold setFuncName. apply mruns_bind, getMod_runs.
    destruct (lookup_lt_is_Some_2 (Funcs (Mod s4)) (Z.to_nat (x - Z.of_nat (length (ImportFuncs (Mod s4)))))) as [f Hf].
    { unfold isValidFunc, getNumTotalFunctions, view in Hv. cbn in Hv. rewrite !length_fmap in Hv.
      apply Z.ltb_lt in Hv. rewrite Em in *. lia. }
    apply mruns_bind. eapply mruns_option; [exact Hf|]. apply mruns_modify. apply mruns_ret.
    apply Hend; try done; [|by apply set_name_renamed]. apply ok_weak in Hs4. destruct Hs4. by split.
  - eapply mruns_mono; [apply free_ok, Hs4|]. cbn beta. intros _ s5 [Hs5 E5]. apply mruns_ret. rewrite E5 in Hs5 |- *.
    apply Hend; try done. apply renamed_refl.
Qed.

Lemma named_trans l s1 s2 s3 : named l s1 s2 -> named l s2 s3 -> named l s1 s3.
Proof. intros [] []. split; try congruence; [by eapply renamed_trans|lia]. Qed.

(** The name section within its end. *)
Lemma nameLoop_runs fuel l last s :
  ok l s -> (MEnd s - MPtr s <= fuel)%nat -> runs l (nameLoop wide_shift fuel last) (fun _ s' => named l s s') s.
Proof.
  revert last s. induction fuel as [|fuel IH]; intros last s Hs Hf; unfold runs; cbn [nameLoop];
    (destruct (Nat.ltb_spec (MPtr s) (MEnd s)); [|by split; try done; apply renamed_refl]); [lia|].
  match goal with |- context [bind mByte ?k s] => change (runs l (bind mByte k) (fun _ s' => named l s s') s) end.
  mstep mByte_runs as ty s1 (Hs1 & Hr1 & _). mstep mU32_runs as size s2 (Hs2 & Hr2 & Hsize). apply mruns_bind.
  match goal with |- runs l ?m _ s2 => assert (runs l m (fun _ s' => s' = s2) s2) as Hord end.
  { destruct (_ =? _); [by apply mruns_ret|]. mcheck _. mcheck _. apply mruns_check; [apply Hs2|]. done. }
  eapply mruns_mono; [exact Hord|]. cbn beta. intros _ s3 ->. mcheck _. apply mruns_bind, mruns_gets.
  apply mruns_bind, mruns_gets. cbn zeta. mcheck Hend. apply Nat.leb_le in Hend. apply mruns_bind, mruns_modify.
  set (e := (MPtr s2 + Z.to_nat size)%nat) in *. apply mruns_bind.
  assert (ok l (set_MEnd e s2)) as Hs3 by (destruct Hs2; split; try done; cbn; lia).
  assert (runs l (if ty =? NAMESEC_FUNCTION then loadFuncNames wide_shift else modify (set_MPtr e))
    (fun _ s' => named l (set_MEnd e s2) s') (set_MEnd e s2)) as Hsub.
  { destruct (ty =? NAMESEC_FUNCTION); [by apply loadFuncNames_runs|]. apply mruns_modify. split; try done; cbn; [|apply renamed_refl|lia].
    apply ok_move; [done|]. cbn. lia. }
  eapply mruns_mono; [exact Hsub|]. cbn beta. intros _ s4 Hn4. pose proof Hn4 as [Hs4 Eb4 Ee4 Em4 Ef4 Ep4]. cbn in *.
  apply mruns_bind, mruns_modify. apply mruns_bind, mruns_gets.
  assert (named l s (set_MEnd (MEnd s2) s4)) as Hn.
  { destruct Hr1, Hr2. split; cbn; try congruence; [|lia]. destruct Hs4. split; cbn; try done.
    destruct Hs2. rewrite Eb4. lia. }
  apply mruns_bind, mruns_check; [apply Hn|]. intros _. eapply mruns_mono; [apply IH; [apply Hn|cbn; destruct Hr1, Hr2; lia]|]. cbn beta.
  intros _ s5 Hn5. by eapply named_trans.
Qed.

(** A custom section: only function names change, and the name section is noted. *)
Record custom l s s' : Prop := {
  cu_ok : ok l s';
  cu_bytes : MBytes s' = MBytes s;
  cu_end : MEnd s' = MEnd s;
  cu_mod : renamed (Mod s) (Mod s');
  cu_ptr : (MPtr s <= MPtr s')%nat;
}.

Lemma loadCustomSection_runs l s :
  ok l s -> runs l (loadCustomSection wide_shift) (fun _ s' => custom l s s') s.
Proof.
  intros Hs. unfold loadCustomSection. mstep readName_runs as k s1 (Hs1 & Hr1). unfold scoped.
  apply mruns_bind, guarded_runs.
  assert (runs (k :: l) (if k =? WASM_SYMBOL_name then loadNameSection wide_shift else modify (fun s => set_MPtr (MEnd s) s))
    (fun _ s' => custom (k :: l) s1 s') s1) as Hbody.
  { destruct (k =? WASM_SYMBOL_name).
    - unfold loadNameSection. apply mruns_bind, mruns_gets. apply mruns_bind.
      eapply mruns_mono; [apply nameLoop_runs; [done|lia]|]. cbn beta. intros _ s2 [Hs2 Eb2 Ee2 Em2 Ef2 Ep2].
      apply mruns_modify. split; try done. by destruct Hs2.
    - apply mruns_modify. pose proof (ok_ptr _ _ Hs1). split; try done; [|apply renamed_refl|cbn; lia].
      apply ok_move; [done|lia]. }
  eapply mruns_mono; [exact Hbody|]. cbn beta. intros u s2 [Hs2 Eb Ee Em Ep]. apply mruns_bind.
  eapply mruns_mono; [apply free_ok, Hs2|]. cbn beta. intros u2 s3 [Hs3 E3]. apply mruns_ret. rewrite E3 in Hs3 |- *.
  destruct Hr1 as [Eb1 Ee1 Em1 _ Ep1]. split; cbn; try congruence. lia.
Qed.

Lemma loadDataCountSection_runs l s :
  ok l s -> runs l (loadDataCountSection wide_shift) (fun _ s' => exists n, 0 <= n <= UINT32_MAX /\
    wrote l s (set_DataCount n (Mod s)) s') s.
Proof.
  intros Hs. unfold loadDataCountSection. mstep mU32_runs as n s1 (Hs1 & Hr1 & Hn).
  eapply mruns_mono; [apply (put_runs l s); [done|reads_tac]|]. cbn beta. intros _ s2 Hw. exists n.
  unfold UINT32_MAX. split; [lia|done].
Qed.
End Code.
