(* ===== verification/ModuleLoaderTheorems.v ===== *)
(** The loading of a whole module: the sections in their order, each with what
    the ones before have left. *)

From stdpp Require Import gmap.
From S2P Require Import Prelude Intx Leb128 Leb128Correct FunctionLoader FunctionLoaderInv WasmValid FunctionLoaderSteps FunctionLoaderTheorems Unicode ConstStringPool ConstStringPoolTheorems ModuleLoader ModuleLoaderInv ModuleLoaderSections ModuleLoaderCode.

#[local] Open Scope Z_scope.

(** ** Well-formed modules *)

(** The tables the function loader looks at. *)
Record tables_wf (m : WasmModule) : Prop := {
  tw_types : types_wf (Types_ m);
  tw_import_funcs : Forall (fun f => IFTypeIdx f < length (Types_ m))%nat (ImportFuncs m);
  tw_import_globals : Forall (fun g => is_val (IGType g) /\ IGMutable g = false) (ImportGlobals m);
  tw_funcs : Forall (func_wf (Types_ m)) (Funcs m);
  tw_globals : globals_wf (ImportGlobals m) (Globals m) (GlobalVarSize m);
  tw_num_funcs : Z.of_nat (length (ImportFuncs m) + length (Funcs m)) <= PresetMaxNumFunctions;
  tw_num_tables : Z.of_nat (length (ImportTables m) + length (Tables m)) <= PresetMaxNumTables;
  tw_num_memories : Z.of_nat (length (ImportMemories m) + length (Memories m)) <= PresetMaxNumMemories;
  tw_num_globals : Z.of_nat (length (ImportGlobals m) + length (Globals m)) <= PresetMaxNumGlobals;
  tw_import_tables : Forall (fun t => 0 <= ITInitSize t <= PresetMaxTableSize) (ImportTables m);
  tw_tables : Forall (fun t => 0 <= TInitSize t <= PresetMaxTableSize) (Tables m);
  tw_import_memories : Forall (fun t => 0 <= InitPages t <= PresetMaxMemoryPages) (ImportMemories m);
  tw_memories : Forall (fun t => 0 <= MInitSize t <= PresetMaxMemoryPages) (Memories m);
}.

(** The tables that refer to them; [B] are the bytes of the file and [B'] what
    the loader has made of them. *)
Record uses_wf (wide_shift : Z -> Z -> Z) (B B' : list Z) (m : WasmModule) : Prop := {
  us_exports : exports_wf m (Exports m);
  us_gas : gas_wf m (GasFuncIdx m);
  us_start : start_wf m (StartFuncIdx m);
  us_elements : Forall (elem_wf m) (Elements m);
  us_codes : forall i c, Codes m !! i = Some c -> code_wf wide_shift B B' m (length (ImportFuncs m) + i) c;
  us_datas : Forall (data_wf B m) (Datas m);
}.

(** The sections after the one of order [n] have not been read. *)
Definition fresh (n : Z) (m : WasmModule) : Prop :=
  (n < 1 -> Types_ m = []) /\
  (n < 2 -> ImportFuncs m = [] /\ ImportTables m = [] /\ ImportMemories m = [] /\ ImportGlobals m = [] /\ GlobalVarSize m = 0) /\
  (n < 3 -> Funcs m = []) /\ (n < 4 -> Tables m = []) /\ (n < 5 -> Memories m = []) /\ (n < 6 -> Globals m = []) /\
  (n < 7 -> Exports m = [] /\ GasFuncIdx m = NONE32) /\ (n < 8 -> StartFuncIdx m = NONE32) /\
  (n < 9 -> Elements m = []) /\ (n < 11 -> Codes m = []) /\ (n < 12 -> Datas m = []).

Lemma view_ok m : tables_wf m -> mod_ok (view m).
Proof.
  intros [[Hty [Hc _]] Hif Hig Hf [Hg _ _ _] _ _ _ Hn _ _ _ _]. split; cbn.
  - by apply Forall_fmap.
  - apply Forall_fmap. rewrite length_fmap. done.
  - apply Forall_fmap. rewrite length_fmap. eapply Forall_impl; [|exact Hf]. intros f (d & Hd & E). cbn. rewrite E.
    by eapply first_like_lt.
  - apply Forall_app. split; apply Forall_fmap; [|done]. eapply Forall_impl; [|exact Hig]. by intros g [? _].
  - unfold getNumTotalGlobals, view. cbn. rewrite !length_fmap. unfold PresetMaxNumGlobals, UINT16_MAX in Hn. lia.
Qed.

Lemma no_uses ws B B' m : fresh 6 m -> uses_wf ws B B' m.
Proof.
  intros (_ & _ & _ & _ & _ & _ & H7 & H8 & H9 & H11 & H12).
  destruct H7 as [E1 E2]; [lia|]. split; rewrite ?E1, ?E2, ?H8, ?H9, ?H11, ?H12 by lia; try done; try by left.
  split; [constructor|done].
Qed.

Lemma fresh_weak n n' m : n <= n' -> fresh n m -> fresh n' m.
Proof.
  intros Hn H. unfold fresh in *. destruct_and! H. split_and!; intros ?;
    match goal with H : _ -> ?G |- ?G => apply H; lia end.
Qed.

Section Load.
Context {P : Type} {SP : SymbolPool P} {SL : SymbolPoolLaws P}.
Context (wide_shift : Z -> Z -> Z) (SpecTest : bool) (Hosts : gmap Z (list NativeFuncDesc)).
Hypothesis HH : host_ok Hosts.

#[local] Abbreviation ML := (ModuleLoader (P := P)).
Implicit Types (l : list Z) (s : ML).

Definition wf (B B' : list Z) (n : Z) (m : WasmModule) : Prop :=
  tables_wf m /\ uses_wf wide_shift B B' m /\ fresh n m.

Lemma wf_new B B' : wf B B' 0 newModule.
Proof.
  assert (fresh 0 newModule) as Hf by done. split_and!; [|apply no_uses; by eapply fresh_weak|done].
  split; try done; split; try done; split; try done; constructor.
Qed.

(** A section before the exports is written. *)
Lemma wf_table B B' n m : tables_wf m -> fresh n m -> n <= 6 -> wf B B' n m.
Proof. intros Ht Hf Hn. split_and!; [done| |done]. apply no_uses. by eapply fresh_weak. Qed.


(** After the section of order [k], the module is [m']; the rest is as before. *)
Ltac still_fresh :=
  unfold fresh in *; cbn; destruct_and?; split_and!; intros ?; try lia;
  match goal with H : _ -> ?G |- ?G => apply H; lia end.

Lemma wf_types B B' n m ds : wf B B' n m -> n < 1 -> types_wf ds -> wf B B' 1 (set_Types ds m).
Proof.
  intros (Ht & _ & Hf) Hn Hds. apply wf_table; [|still_fresh|lia].
  pose proof Hf as (_ & H2 & H3 & _). destruct (H2 ltac:(lia)) as (E1 & _). destruct Ht.
  split; cbn; try done; [by rewrite E1|by rewrite H3 by lia].
Qed.

Lemma wf_imports B B' n m r :
  wf B B' n m -> n < 2 -> imports_wf (Types_ m) r ->
  Z.of_nat (length (iFuncs r)) <= PresetMaxNumFunctions -> Z.of_nat (length (iTables r)) <= PresetMaxNumTables ->
  Z.of_nat (length (iMemories r)) <= PresetMaxNumMemories -> Z.of_nat (length (iGlobals r)) <= PresetMaxNumGlobals ->
  wf B B' 2 (set_Imports (iFuncs r) (iTables r) (iMemories r) (iGlobals r) (iOffset r) m).
Proof.
  intros (Ht & _ & Hf) Hn [] ? ? ? ?. apply wf_table; [|still_fresh|lia].
  pose proof Hf as (_ & _ & H3 & H4 & H5 & H6 & _). destruct Ht.
  split; cbn; rewrite ?H3, ?H4, ?H5, ?H6 in * by lia; cbn; rewrite ?Nat.add_0_r; try done.
  split; rewrite ?app_nil_r; try done; [|cbn; lia]. unfold ranges. cbn. by rewrite app_nil_r.
Qed.

Lemma wf_funcs B B' n m fs :
  wf B B' n m -> n < 3 -> Forall (func_wf (Types_ m)) fs ->
  Z.of_nat (length (ImportFuncs m) + length fs) <= PresetMaxNumFunctions -> wf B B' 3 (set_Funcs fs m).
Proof. intros (Ht & _ & Hf) Hn ? ?. apply wf_table; [|still_fresh|lia]. destruct Ht. by split. Qed.

Lemma wf_tables B B' n m ts :
  wf B B' n m -> n < 4 -> Z.of_nat (length (ImportTables m) + length ts) <= PresetMaxNumTables ->
  Forall (fun t => 0 <= TInitSize t <= PresetMaxTableSize) ts -> wf B B' 4 (set_Tables ts m).
Proof. intros (Ht & _ & Hf) Hn ? ?. apply wf_table; [|still_fresh|lia]. destruct Ht. by split. Qed.

Lemma wf_memories B B' n m ts :
  wf B B' n m -> n < 5 -> Z.of_nat (length (ImportMemories m) + length ts) <= PresetMaxNumMemories ->
  Forall (fun t => 0 <= MInitSize t <= PresetMaxMemoryPages) ts ->
  wf B B' 5 (set_Memories ts m).
Proof. intros (Ht & _ & Hf) Hn ? ?. apply wf_table; [|still_fresh|lia]. destruct Ht. by split. Qed.

Lemma wf_globals B B' n m gs o :
  wf B B' n m -> n < 6 -> globals_wf (ImportGlobals m) gs o ->
  Z.of_nat (length (ImportGlobals m) + length gs) <= PresetMaxNumGlobals -> wf B B' 6 (set_Globals gs o m).
Proof. intros (Ht & _ & Hf) Hn ? ?. apply wf_table; [|still_fresh|lia]. destruct Ht. by split. Qed.

Lemma code_wf_view B B' m m' i c : view m' = view m -> code_wf wide_shift B B' m i c -> code_wf wide_shift B B' m' i c.
Proof. intros E [Hr Hl Hb]. split; [done|done|]. by rewrite E. Qed.

(** The sections that refer to the tables leave them. *)
Ltac refers :=
  intros (Ht & Hu & Hf) Hn; intros; split_and!;
  [by destruct Ht; split
  |destruct Hu; split; try done; intros i c Hi; match type of Ht with tables_wf ?m => apply (code_wf_view _ _ m); by eauto end
  |still_fresh].

Lemma wf_exports B B' n m xs gas :
  wf B B' n m -> n < 7 -> exports_wf m xs -> gas_wf m gas -> wf B B' 7 (set_Exports xs gas m).
Proof. refers. Qed.
Lemma wf_start B B' n m x : wf B B' n m -> n < 8 -> start_wf m x -> wf B B' 8 (set_Start x m).
Proof. refers. Qed.
Lemma wf_elements B B' n m es : wf B B' n m -> n < 9 -> Forall (elem_wf m) es -> wf B B' 9 (set_Elements es m).
Proof. refers. Qed.
Lemma wf_count B B' n m x : wf B B' n m -> n < 10 -> wf B B' 10 (set_DataCount x m).
Proof. refers. Qed.
Lemma wf_codes B B1 B2 n m cs :
  wf B B1 n m -> n < 11 ->
  (forall i c, cs !! i = Some c -> code_wf wide_shift B B2 m (length (ImportFuncs m) + i) c) -> wf B B2 11 (set_Codes cs m).
Proof. refers. Qed.
Lemma wf_datas B B' n m ds : wf B B' n m -> n < 12 -> Forall (data_wf B m) ds -> wf B B' 12 (set_Datas ds m).
Proof. refers. Qed.

(** Names change nothing else. *)
Lemma wf_renamed B B' n m m' : wf B B' n m -> renamed m m' -> wf B B' n m'.
Proof.
  intros (Ht & Hu & Hf) Hr. pose proof (renamed_view _ _ Hr) as Ev. pose proof (renamed_length _ _ Hr) as El.
  destruct Hr as [E Etypes]. rewrite E in Ev |- *. split_and!.
  - destruct Ht. split; cbn; rewrite ?El; try done.
    apply Forall_lookup. intros i f Hi.
    assert ((fun f => (TypeIdx f, OriginTypeIdx f)) <$> Funcs m !! i = Some (TypeIdx f, OriginTypeIdx f)) as Hi'.
    { rewrite <- list_lookup_fmap, <- Etypes, list_lookup_fmap, Hi. done. }
    destruct (Funcs m !! i) as [f'|] eqn:Ef; [|done]. injection Hi' as E1 E2.
    destruct (Forall_lookup_1 _ _ _ _ tw_funcs0 Ef) as (d & Hd & Ed). exists d. rewrite <- E2, <- E1. done.
  - destruct Hu as [Hx Hg Hst He Hc Hd]. unfold exports_wf, export_wf, gas_wf, start_wf, elem_wf, data_wf, isValidMem in *.
    split; unfold exports_wf, export_wf, gas_wf, start_wf, elem_wf, data_wf, isValidMem; rewrite ?Ev; try done.
    intros i c Hi. eapply code_wf_view; [exact Ev|by apply Hc].
  - unfold fresh in *. cbn. destruct_and?. split_and!; try done. intros Hn.
    match goal with H : n < 3 -> _ |- _ => rewrite (H Hn) in El end. by apply nil_length_inv.
Qed.
(** ** Sections *)

(** Sections up to order [n] have been read. *)
Record good l B n s : Prop := {
  go_ok : ok l s;
  go_unread : unread B s;
  go_wf : wf B (MBytes s) n (Mod s);
}.

(** A section has been read. *)
Definition after l B n s s' : Prop := good l B n s' /\ MEnd s' = MEnd s /\ (MPtr s <= MPtr s')%nat.

Lemma wrote_after l B n s m s' : good l B n s -> wrote l s m s' -> forall k, wf B (MBytes s) k m -> after l B k s s'.
Proof.
  intros [_ [Hl Hd] _] [Hok Eb Ee Em _ Hp] k Hk. split_and!; [|done|done]. split; [done| |by rewrite Em, Eb].
  split; rewrite Eb; [done|]. by eapply drop_more.
Qed.

Lemma loadSection_runs l B n s ty :
  good l B n s -> 1 <= ty <= SEC_LAST -> n < getSectionOrder ty ->
  runs l (loadSection wide_shift SpecTest Hosts ty) (fun _ s' => after l B (getSectionOrder ty) s s') s.
Proof.
  intros Hg Hty Hn. pose proof Hg as [Hs Hu Hw]. pose proof Hw as (Ht & Huse & Hf). pose proof (view_ok _ Ht) as Hm.
  pose proof (tw_types _ Ht) as (_ & Hc & _). unfold SEC_LAST in Hty.
  assert (ty = 1 \/ ty = 2 \/ ty = 3 \/ ty = 4 \/ ty = 5 \/ ty = 6 \/ ty = 7 \/ ty = 8 \/ ty = 9 \/ ty = 10 \/
    ty = 11 \/ ty = 12) as Hcases by lia.
  destruct_or! Hcases; subst ty; cbn in Hn |- *; unfold loadSection; cbn.
  - eapply mruns_mono; [by apply loadTypeSection_runs|]. cbn beta. intros _ s' (ds & Hds & Hwr).
    eapply wrote_after; [done|done|]. by eapply wf_types.
  - eapply mruns_mono; [by apply loadImportSection_runs|]. cbn beta. intros _ s' (r & Hr & ? & ? & ? & ? & Hwr).
    eapply wrote_after; [done|done|]. by eapply wf_imports.
  - eapply mruns_mono; [by apply loadFunctionSection_runs|]. cbn beta. intros _ s' (fs & ? & ? & Hwr).
    eapply wrote_after; [done|done|]. by eapply wf_funcs.
  - eapply mruns_mono; [by apply loadTableSection_runs|]. cbn beta. intros _ s' (ts & ? & ? & Hwr).
    eapply wrote_after; [done|done|]. by eapply wf_tables.
  - eapply mruns_mono; [by apply loadMemorySection_runs|]. cbn beta. intros _ s' (ts & ? & ? & Hwr).
    eapply wrote_after; [done|done|]. by eapply wf_memories.
  - eapply mruns_mono; [apply loadGlobalSection_runs; [done|]|].
    + pose proof (tw_globals _ Ht) as Hgl. destruct Hf as (_ & _ & _ & _ & _ & H6 & _). by rewrite H6 in Hgl by lia.
    + cbn beta. intros _ s' (gs & o & ? & ? & Hwr). eapply wrote_after; [done|done|]. by eapply wf_globals.
  - eapply mruns_mono; [apply loadExportSection_runs; [done|done|apply Huse]|]. cbn beta.
    intros _ s' (xs & gas & ? & ? & Hwr). eapply wrote_after; [done|done|]. by eapply wf_exports.
  - eapply mruns_mono; [by apply loadStartSection_runs|]. cbn beta. intros _ s' (x & ? & Hwr).
    eapply wrote_after; [done|done|]. by eapply wf_start.
  - eapply mruns_mono; [by apply loadElementSection_runs|]. cbn beta. intros _ s' (es & ? & Hwr).
    eapply wrote_after; [done|done|]. by eapply wf_elements.
  - eapply mruns_mono; [by apply (loadCodeSection_runs wide_shift l B)|]. cbn beta.
    intros _ s' (cs & _ & Hcs & [Hok Hu' Ee Em _ Hp]). split_and!; [|done|done]. split; [done|done|].
    rewrite Em. by eapply wf_codes.
  - eapply mruns_mono; [apply (loadDataSection_runs wide_shift l B); [done|apply Hu]|]. cbn beta. intros _ s' (ds & ? & _ & Hwr).
    eapply wrote_after; [done|done|]. by eapply wf_datas.
  - eapply mruns_mono; [by apply loadDataCountSection_runs|]. cbn beta. intros _ s' (x & _ & Hwr).
    eapply wrote_after; [done|done|]. by eapply wf_count.
Qed.

Lemma reads_good l B n k s s' : ok l s' -> good l B n s -> reads k s s' -> good l B n s'.
Proof. intros Hok [_ Hu Hw] Hr. split; [done|by eapply unread_reads|]. destruct Hr as [-> _ -> _ _]. done. Qed.

Lemma good_end l B n e s : good l B n s -> (MPtr s <= e <= length (MBytes s))%nat -> good l B n (set_MEnd e s).
Proof. intros [[] [] ?] He. by split; [split|split|]. Qed.

Lemma loadOneSection_runs l B n s :
  good l B n s -> runs l (loadOneSection wide_shift SpecTest Hosts n) (fun n' s' => good l B n' s' /\
    MEnd s' = MEnd s /\ (MPtr s < MPtr s')%nat) s.
Proof.
  intros Hg. pose proof (go_ok _ _ _ _ Hg) as Hs. unfold loadOneSection.
  mstep mByte_runs as ty s1 (Hs1 & Hr1 & Hty). mstep mU32_runs as size s2 (Hs2 & Hr2 & Hsize).
  pose proof (reads_good _ _ _ _ _ _ Hs2 (reads_good _ _ _ _ _ _ Hs1 Hg Hr1) Hr2) as Hg2.
  mcheck Hid. apply Z.leb_le in Hid. apply mruns_bind.
  assert (runs l (if ty =? 0 then ret n else check (n <? getSectionOrder ty) JunkAfterLastSection;;; ret (getSectionOrder ty))
    (fun k s' => s' = s2 /\ (ty = 0 /\ k = n \/ 1 <= ty /\ k = getSectionOrder ty /\ n < k)) s2) as Hord.
  { destruct (Z.eqb_spec ty 0); [apply mruns_ret; by auto|]. mcheck Hlt. apply Z.ltb_lt in Hlt. apply mruns_ret.
    split; [done|]. right. destruct Hty. split_and!; [lia|done|done]. }
  eapply mruns_mono; [exact Hord|]. cbn beta. intros k s3 (-> & Hk). apply mruns_bind, mruns_gets. mcheck _. mcheck _.
  apply mruns_bind, mruns_gets. apply mruns_bind, mruns_gets. cbn zeta. mcheck Hend. apply Nat.leb_le in Hend.
  apply mruns_bind, mruns_modify. set (e := (MPtr s2 + Z.to_nat size)%nat) in *.
  assert (good l B n (set_MEnd e s2)) as Hg3 by (apply good_end; [done|pose proof (ok_ptr _ _ Hs2); lia]).
  apply mruns_bind.
  assert (runs l (loadSection wide_shift SpecTest Hosts ty) (fun _ s' => after l B k (set_MEnd e s2) s') (set_MEnd e s2)) as Hsec.
  { destruct Hk as [[-> ->]|(Hge & -> & Hlt)]; [|by apply (loadSection_runs l B n)].
    change (runs l (loadCustomSection wide_shift) (fun _ s' => after l B n (set_MEnd e s2) s') (set_MEnd e s2)).
    eapply mruns_mono; [apply loadCustomSection_runs, Hg3|]. cbn beta. intros _ s' [Hok Eb Ee Em Hp].
    destruct Hg3 as [_ [Hul Hud] Hw]. split_and!; [|done|done]. split; [done| |rewrite Eb; by eapply wf_renamed].
    split; rewrite Eb; [done|]. by eapply drop_more. }
  eapply mruns_mono; [exact Hsec|]. cbn beta. intros _ s4 (Hg4 & Ee4 & Hp4). cbn in Ee4, Hp4.
  apply mruns_bind, mruns_modify. apply mruns_bind, mruns_gets.
  assert (good l B k (set_MEnd (MEnd s2) s4)) as Hg5.
  { apply good_end; [done|]. destruct Hg2 as [_ [E2 _] _], Hg4 as [[_ _ Hp _ _] [E4 _] _]. pose proof (ok_ptr _ _ Hs2). lia. }
  apply mruns_bind, mruns_check; [apply Hg5|]. intros _. apply mruns_ret. split_and!; [done| |].
  - cbn. destruct Hr1, Hr2. congruence.
  - cbn. destruct Hr1, Hr2. lia.
Qed.

Lemma sectionLoop_runs fuel l B n s :
  good l B n s -> (MEnd s - MPtr s <= fuel)%nat ->
  runs l (sectionLoop wide_shift SpecTest Hosts fuel n) (fun _ s' => (exists k, good l B k s') /\ MPtr s' = MEnd s) s.
Proof.
  revert n s. induction fuel as [|fuel IH]; intros n s Hg Hf; unfold runs; cbn [sectionLoop];
    (destruct (Nat.ltb_spec (MPtr s) (MEnd s)); [|pose proof (ok_ptr _ _ (go_ok _ _ _ _ Hg)); split; [by exists n|lia]]); [lia|].
  match goal with |- context [bind ?m ?k s] => 
    change (runs l (bind m k) (fun _ s' => (exists n', good l B n' s') /\ MPtr s' = MEnd s) s) end.
  apply mruns_bind. eapply mruns_mono; [by apply (loadOneSection_runs l B)|]. cbn beta. intros k s1 (Hg1 & Ee & Hp).
  rewrite <- Ee. apply IH; [done|]. lia.
Qed.

Lemma wf_patched B B' n m : wf B B' n m -> tables_wf (patchForSpecTest m) /\ uses_wf wide_shift B B' (patchForSpecTest m).
Proof.
  intros (Ht & Hu & _). assert (view (patchForSpecTest m) = view m) as Ev by (unfold view; cbn; by rewrite !length_fmap).
  split.
  - destruct Ht. split; cbn; rewrite ?length_fmap; try done; apply Forall_fmap;
      (eapply Forall_impl; [|eassumption]); intros t; cbn; by destruct (_ =? _).
  - destruct Hu as [Hx Hg Hst He Hc Hd]. unfold exports_wf, export_wf, gas_wf, start_wf, elem_wf, data_wf, isValidMem in *.
    split; unfold exports_wf, export_wf, gas_wf, start_wf, elem_wf, data_wf, isValidMem; rewrite ?Ev; try done.
    intros i c Hi. eapply code_wf_view; [exact Ev|by apply Hc].
Qed.

(** What is known of an accepted module. *)
Record accepted (B : list Z) s : Prop := {
  ac_tables : tables_wf (Mod s);
  ac_uses : uses_wf wide_shift B (MBytes s) (Mod s);
  ac_codes : length (Codes (Mod s)) = length (Funcs (Mod s));
  ac_read : MPtr s = length B;
  ac_length : length (MBytes s) = length B;
}.

Lemma advances_plain32 : advances readPlainU32.
Proof.
  intros bs a rest Hb. unfold readPlainU32. destruct (readBytes 4 bs) as [|[b r]] eqn:E; [done|]. intros [= _ <-].
  by apply (advances_bytes 4 ltac:(lia) bs b r Hb).
Qed.

Lemma loadModule_runs Bytes_ l a p :
  Forall is_byte Bytes_ -> Z.of_nat (length Bytes_) <= 2 ^ 29 ->
  holds p l -> aged a p -> a + Z.of_nat (length Bytes_) <= MaxSymbols ->
  match loadModule wide_shift SpecTest Hosts Bytes_ p with
  | Ret _ s => accepted Bytes_ s /\ held l s
  | Throw _ s => held l s
  | Exit _ | Undef => False
  end.
Proof.
  intros Hb Hsize Hl Ha Hroom. unfold loadModule. set (s0 := mkML _ _ _ _ _ _).
  match goal with |- match ?m s0 with _ => _ end => change (runs l m (fun _ s => accepted Bytes_ s /\ held l s) s0) end.
  assert (ok l s0) as Hs0.
  { split; try done; [cbn; lia| |]; [exists []; by rewrite app_nil_r|]. exists a. by rewrite Nat.sub_0_r. }
  assert (good l Bytes_ 0 s0) as Hg0 by (split; [done|done|apply wf_new]).
  unfold loadModuleHeader. apply mruns_bind.
  mstep scan_reads as magic s1 (Hs1 & Hr1); [apply advances_plain32|]. mcheck _.
  mstep scan_reads as version s2 (Hs2 & Hr2); [apply advances_plain32|].
  pose proof (reads_good _ _ _ _ _ _ Hs2 (reads_good _ _ _ _ _ _ Hs1 Hg0 Hr1) Hr2) as Hg2.
  apply mruns_check; [apply Hs2|]. intros _. unfold loadModuleBody. apply mruns_bind, mruns_bind, mruns_gets. apply mruns_bind.
  eapply mruns_mono; [apply (sectionLoop_runs _ l Bytes_); [done|lia]|]. cbn beta. intros _ s3 [[k [Hs3 [Hlen3 _] Hw3]] Hp3].
  apply mruns_bind, getMod_runs. apply mruns_check; [apply Hs3|]. cbn [id]. intros Hlen%Nat.eqb_eq.
  assert (MPtr s3 = length Bytes_) as Hread by (destruct Hr1, Hr2; cbn in *; congruence).
  destruct SpecTest.
  - apply mruns_modify. destruct (wf_patched _ _ _ _ Hw3). split; [by split|]. apply (ok_held _ _ Hs3).
  - apply mruns_ret. destruct Hw3 as (? & ? & _). split; [by split|apply Hs3].
Qed.
End Load.

(** ** The theorems *)

Section Theorems.
Context {P : Type} {SP : SymbolPool P} {SL : SymbolPoolLaws P}.
Context (wide_shift : Z -> Z -> Z) (SpecTest : bool) (Hosts : gmap Z (list NativeFuncDesc)).
Hypothesis HH : host_ok Hosts.

(** C15. [ModuleLoader::load] reaches a verdict on every sequence of at most
    2^29 bytes: it returns or throws, its loops end and no byte, entry or
    symbol is read out of bounds; and the symbols that were held before are
    still held.  This is so when every host module that is registered has at
    least one function, whose description has as many types as it says (the
    loader reads the first function of an empty one), and when the symbol pool
    has room for as many symbols as the file has bytes. *)
Theorem module_load_total Bytes_ l a (p : P) :
  Forall is_byte Bytes_ -> Z.of_nat (length Bytes_) <= 2 ^ 29 ->
  holds p l -> aged a p -> a + Z.of_nat (length Bytes_) <= MaxSymbols ->
  (exists s, loadModule wide_shift SpecTest Hosts Bytes_ p = Ret tt s /\ held l s) \/
  (exists e s, loadModule wide_shift SpecTest Hosts Bytes_ p = Throw e s /\ held l s).
Proof.
  intros Hb Hsize Hl Ha Hroom. pose proof (loadModule_runs wide_shift SpecTest Hosts HH Bytes_ l a p Hb Hsize Hl Ha Hroom) as Hr.
  destruct (loadModule _ _ _ _ _) as [[] s| |e s|]; try done; [left|right; by eexists _, _].
  destruct Hr as [_ ?]. by eexists.
Qed.

(** C18. A module that [ModuleLoader::load] accepts is well-formed: all its
    bytes were read; every type, function, table, memory and global variable
    its tables, exports, segments and start function name exists and has the
    right type; equal types share an index, the global variables do not
    overlap, export names are distinct, and each function has a body, within
    the file, that the function loader accepts. *)
Theorem module_load_wf Bytes_ l a (p : P) s :
  Forall is_byte Bytes_ -> Z.of_nat (length Bytes_) <= 2 ^ 29 ->
  holds p l -> aged a p -> a + Z.of_nat (length Bytes_) <= MaxSymbols ->
  loadModule wide_shift SpecTest Hosts Bytes_ p = Ret tt s -> accepted wide_shift Bytes_ s.
Proof.
  intros Hb Hsize Hl Ha Hroom E. pose proof (loadModule_runs wide_shift SpecTest Hosts HH Bytes_ l a p Hb Hsize Hl Ha Hroom) as Hr.
  rewrite E in Hr. by destruct Hr.
Qed.

(** The body of a function, as it is in the file. *)
Definition body_bytes (Bytes_ : list Z) (c : CodeEntry) : list Z := slice (CodePtr c) (CCodeSize c) Bytes_.

Lemma accepted_body Bytes_ (s : ModuleLoader (P := P)) i c :
  Forall is_byte Bytes_ -> accepted wide_shift Bytes_ s -> Codes (Mod s) !! i = Some c ->
  exists F fs, getFunctionType (view (Mod s)) (length (ImportFuncs (Mod s)) + i) = Some F /\ type_ok F /\
    load wide_shift (view (Mod s)) F (CLocalTypes c) (body_bytes Bytes_ c) = Ret tt fs /\ CMaxStackSize c = MaxStackSize fs /\
    Forall is_byte (body_bytes Bytes_ c) /\ Z.of_nat (length (body_bytes Bytes_ c)) <= 2 ^ 24.
Proof.
  intros Hb [Ht Hu Hcodes _] Hc. pose proof (view_ok _ Ht) as Hm. destruct (us_codes _ _ _ _ Hu i c Hc) as [Hrange _ (F & fs & EF & El & Es & _)].
  exists F, fs. split_and!; try done.
  - destruct (func_type (view (Mod s)) Hm (Z.of_nat (length (ImportFuncs (Mod s)) + i)) ltac:(lia)) as (F' & EF' & HF).
    + unfold isValidFunc, getNumTotalFunctions, view. cbn. rewrite !length_fmap. apply lookup_lt_Some in Hc. apply Z.ltb_lt. lia.
    + rewrite Nat2Z.id, EF in EF'. injection EF' as <-. done.
  - unfold body_bytes, slice. by apply Forall_take, Forall_drop.
  - unfold body_bytes, slice. rewrite length_take, length_drop. destruct Hrange as [[? Hmax] _]. unfold PresetMaxFunctionSize in Hmax. lia.
Qed.

(** C13. In a module that [ModuleLoader::load] accepts every body whose type
    stack never holds a value of unknown type is valid by the algorithm of
    the WebAssembly specification, against the types the module declares, and
    its operands fit the stack size recorded in its entry. *)
Theorem module_functions_valid Bytes_ l a (p : P) s i c :
  Forall is_byte Bytes_ -> Z.of_nat (length Bytes_) <= 2 ^ 29 ->
  holds p l -> aged a p -> a + Z.of_nat (length Bytes_) <= MaxSymbols ->
  loadModule wide_shift SpecTest Hosts Bytes_ p = Ret tt s -> Codes (Mod s) !! i = Some c ->
  exists F, getFunctionType (view (Mod s)) (length (ImportFuncs (Mod s)) + i) = Some F /\
    let steps := trace wide_shift (view (Mod s)) F (CLocalTypes c) (body_bytes Bytes_ c) in
    (Forall (fun v => ANY ∉ ValueTypes v) steps ->
     valid_function (view (Mod s)) F (CLocalTypes c) (body_bytes Bytes_ c) = true /\
     Forall (fun v => bytes (ValueTypes v) <= CMaxStackSize c) steps).
Proof.
  intros Hb Hsize Hl Ha Hroom E Hc. pose proof (loadModule_runs wide_shift SpecTest Hosts HH Bytes_ l a p Hb Hsize Hl Ha Hroom) as Hr.
  rewrite E in Hr. destruct Hr as [Hacc _].
  destruct (accepted_body Bytes_ s i c Hb Hacc Hc) as (F & fs & EF & HF & El & -> & Hbody & Hlen).
  exists F. split; [done|]. cbn zeta. intros Hany. pose proof (view_ok _ (ac_tables _ _ _ Hacc)) as Hm.
  destruct (us_codes _ _ _ _ (ac_uses _ _ _ Hacc) i c Hc) as [_ (Hlocals & _) _].
  destruct (load_accepts wide_shift _ F _ _ _ El) as (Eloop & Eb & _).
  apply (loadLoop_sound wide_shift _ F _ Hm HF Hlocals (length (body_bytes Bytes_ c)) (startLoader F (body_bytes Bytes_ c)) fs);
    [by apply start_good|cbn; lia|done..].
Qed.
End Theorems.

(** ** Witnesses *)

(** An exported function that adds its arguments, a memory with data, and two
    global variables, read with the symbols of a new runtime. *)
Definition adder : list Z :=
  [0; 0x61; 0x73; 0x6d; 1; 0; 0; 0;
   1; 7; 1; 0x60; 2; 0x7f; 0x7f; 1; 0x7f;
   3; 2; 1; 0;
   5; 3; 1; 0; 1;
   6; 11; 2; 0x7f; 1; 0x41; 5; 0x0b; 0x7e; 0; 0x42; 7; 0x0b;
   7; 7; 1; 3; 0x61; 0x64; 0x64; 0; 0;
   10; 11; 1; 9; 1; 1; 0x7e; 0x20; 0; 0x20; 1; 0x6a; 0x0b;
   11; 9; 1; 0; 0x41; 0; 0x0b; 3; 1; 2; 3].

Definition no_shift (_ _ : Z) : Z := 0.
Definition load_adder : out ErrorCode ModuleLoader unit := loadModule no_shift false ∅ adder initialPool.

Definition adder_loader : ModuleLoader :=
  match load_adder with Ret _ s => s | _ => mkML [] 0 0 newModule false initialPool end.
Definition adder_code : CodeEntry :=
  mkCode 55 6 8 1 1 2 [I64] [0; 1; 2] 0 0.

Lemma adder_loads : loadModule no_shift false ∅ adder initialPool = Ret tt adder_loader.
Proof. vm_compute. reflexivity. Qed.

Lemma no_hosts : host_ok ∅.
Proof. intros k fs. by rewrite lookup_empty. Qed.

Lemma adder_bytes : Forall is_byte adder.
Proof. by repeat constructor. Qed.

Lemma module_load_total_witness :
  (exists s, load_adder = Ret tt s /\ held [] s) \/ (exists e s, load_adder = Throw e s /\ held [] s).
Proof.
  apply (module_load_total no_shift false ∅ no_hosts adder [] 0 initialPool adder_bytes).
  - vm_compute. discriminate.
  - exact initial_holds.
  - exact initial_aged.
  - vm_compute. discriminate.
Defined.

Lemma module_load_wf_witness : accepted no_shift adder adder_loader.
Proof.
  apply (module_load_wf no_shift false ∅ no_hosts adder [] 0 initialPool adder_loader adder_bytes).
  - vm_compute. discriminate.
  - exact initial_holds.
  - exact initial_aged.
  - vm_compute. discriminate.
  - exact adder_loads.
Defined.

Lemma module_functions_valid_witness : exists F,
  getFunctionType (view (Mod adder_loader)) 0 = Some F /\
  let steps := trace no_shift (view (Mod adder_loader)) F [I64] (body_bytes adder adder_code) in
  (Forall (fun v => ANY ∉ ValueTypes v) steps ->
   valid_function (view (Mod adder_loader)) F [I64] (body_bytes adder adder_code) = true /\
   Forall (fun v => bytes (ValueTypes v) <= CMaxStackSize adder_code) steps).
Proof.
  apply (module_functions_valid no_shift false ∅ no_hosts adder [] 0 initialPool adder_loader 0%nat adder_code adder_bytes).
  - vm_compute. discriminate.
  - exact initial_holds.
  - exact initial_aged.
  - vm_compute. discriminate.
  - exact adder_loads.
  - vm_compute. reflexivity.
Defined.
