(* ===== verification/WasmNum.v ===== *)
(** The numbers of the WebAssembly interpreter, first floating point: [float] and
    [double] as the bits of their object representation, and what
    [src/src/action/interpreter.cpp] uses of the language and of [cmath] on
    them.  Arithmetic is that of IEEE 754 with rounding to nearest
    ([SpecFloat] of the standard library); a NaN keeps its sign and payload
    where the value is only moved or converted. *)

From Stdlib Require SpecFloat.
From S2P Require Import Prelude Intx Leb128.

#[local] Open Scope Z_scope.

(** [float] and [double] *)
Inductive float_ty : Type := F_32 | F_64.

#[export] Instance float_ty_eq_dec : EqDecision float_ty.
Proof. solve_decision. Defined.

Section Format.
Context (F : float_ty).

(** Bits of the significand, the implicit one included; the exponent of the
    infinities; bits of the representation. *)
Definition prec : Z := match F with F_32 => 24 | F_64 => 53 end.
Definition emax : Z := match F with F_32 => 128 | F_64 => 1024 end.
Definition fwidth : Z := match F with F_32 => 32 | F_64 => 64 end.
Definition emin_ : Z := SpecFloat.emin prec emax.

(** The stored significand and exponent. *)
Definition frac_bits (b : Z) : Z := b mod 2 ^ (prec - 1).
Definition exp_bits (b : Z) : Z := b / 2 ^ (prec - 1) mod 2 ^ (fwidth - prec).
Definition exp_max : Z := 2 ^ (fwidth - prec) - 1.

(** [std::signbit] *)
Definition signbit (b : Z) : bool := Z.testbit b (fwidth - 1).

Definition float_of_bits (b : Z) : SpecFloat.spec_float :=
  let s := signbit b in
  let e := exp_bits b in
  let m := frac_bits b in
  if e =? exp_max then
    if m =? 0 then SpecFloat.S754_infinity s else SpecFloat.S754_nan
  else if e =? 0 then
    match m with
    | Zpos p => SpecFloat.S754_finite s p emin_
    | _ => SpecFloat.S754_zero s
    end
  else
    match m + 2 ^ (prec - 1) with
    | Zpos p => SpecFloat.S754_finite s p (e - 1 + emin_)
    | _ => SpecFloat.S754_zero s
    end.

Definition sign_bits (s : bool) : Z := if s then 2 ^ (fwidth - 1) else 0.

(** [std::numeric_limits::quiet_NaN()] *)
Definition quiet_NaN : Z := exp_max * 2 ^ (prec - 1) + 2 ^ (prec - 2).
(** [std::numeric_limits::infinity()] and its negation *)
Definition infinity (s : bool) : Z := sign_bits s + exp_max * 2 ^ (prec - 1).

Definition bits_of_float (x : SpecFloat.spec_float) : Z :=
  match x with
  | SpecFloat.S754_zero s => sign_bits s
  | SpecFloat.S754_infinity s => infinity s
  | SpecFloat.S754_nan => quiet_NaN
  | SpecFloat.S754_finite s m e =>
      if Zpos m <? 2 ^ (prec - 1) then sign_bits s + Zpos m
      else sign_bits s + (e - emin_ + 1) * 2 ^ (prec - 1) + (Zpos m - 2 ^ (prec - 1))
  end.

(** [std::isnan] *)
Definition isnan (b : Z) : bool := (exp_bits b =? exp_max) && negb (frac_bits b =? 0).

(** [std::fabs] and unary minus act on the sign bit only. *)
Definition fabs (b : Z) : Z := b mod 2 ^ (fwidth - 1).
Definition fneg (b : Z) : Z := if signbit b then b - 2 ^ (fwidth - 1) else b + 2 ^ (fwidth - 1).

(** The operators. *)
Definition lift2 (f : SpecFloat.spec_float -> SpecFloat.spec_float -> SpecFloat.spec_float) (a b : Z) : Z :=
  bits_of_float (f (float_of_bits a) (float_of_bits b)).
Definition fadd : Z -> Z -> Z := lift2 (SpecFloat.SFadd prec emax).
Definition fsub : Z -> Z -> Z := lift2 (SpecFloat.SFsub prec emax).
Definition fmul : Z -> Z -> Z := lift2 (SpecFloat.SFmul prec emax).
Definition fdiv : Z -> Z -> Z := lift2 (SpecFloat.SFdiv prec emax).

Definition feq (a b : Z) : bool := SpecFloat.SFeqb (float_of_bits a) (float_of_bits b).
Definition flt (a b : Z) : bool := SpecFloat.SFltb (float_of_bits a) (float_of_bits b).
Definition fle (a b : Z) : bool := SpecFloat.SFleb (float_of_bits a) (float_of_bits b).

(** [std::sqrt] *)
Definition fsqrt (a : Z) : Z := bits_of_float (SpecFloat.SFsqrt prec emax (float_of_bits a)).

(** An integer with a sign for zero, rounded. *)
Definition of_Z (szero : bool) (z : Z) : Z := bits_of_float (SpecFloat.binary_normalize prec emax z 0 szero).

(** Rounding to an integer: [r] rounds the magnitude [m * 2 ^ -k] given the
    sign. *)
Definition to_integral (r : bool -> Z -> Z -> Z) (a : Z) : Z :=
  match float_of_bits a with
  | SpecFloat.S754_finite s m e =>
      if 0 <=? e then a
      else let q := r s (Zpos m) (- e) in of_Z s (if s then - q else q)
  | _ => a
  end.
Definition down (m k : Z) : Z := Z.shiftr m k.
Definition up (m k : Z) : Z := - Z.shiftr (- m) k.
Definition half_even (m k : Z) : Z :=
  let q := Z.shiftr m k in
  match 2 * (m - Z.shiftl q k) ?= 2 ^ k with
  | Lt => q
  | Gt => q + 1
  | Eq => if Z.even q then q else q + 1
  end.

(** [std::trunc], [std::floor], [std::ceil] and [std::rint] *)
Definition ftrunc : Z -> Z := to_integral (fun _ => down).
Definition ffloor : Z -> Z := to_integral (fun s => if s then up else down).
Definition fceil : Z -> Z := to_integral (fun s => if s then down else up).
Definition frint : Z -> Z := to_integral (fun _ => half_even).

(** The conversion to an integer type that can hold the integral part. *)
Definition int_part (a : Z) : Z :=
  match float_of_bits a with
  | SpecFloat.S754_finite s m e =>
      let q := if 0 <=? e then Z.shiftl (Zpos m) e else Z.shiftr (Zpos m) (- e) in
      if s then - q else q
  | _ => 0
  end.
End Format.

(** [static_cast] between the two types.  A NaN stays a NaN: it is made quiet
    and keeps its sign and the leading bits of its payload. *)
Definition float_cast (From To : float_ty) (b : Z) : Z :=
  if isnan From b then
    let payload := frac_bits From b in
    let d := prec To - prec From in
    let p := if 0 <=? d then Z.shiftl payload d else Z.shiftr payload (- d) in
    sign_bits To (signbit From b) + exp_max To * 2 ^ (prec To - 1) + Z.lor p (2 ^ (prec To - 2))
  else
    match float_of_bits From b with
    | SpecFloat.S754_finite s m e => bits_of_float To (SpecFloat.binary_round (prec To) (emax To) s m e)
    | x => bits_of_float To x
    end.

(** ** The representation *)

Definition is_float (F : float_ty) (b : Z) : Prop := in_u (fwidth F) b.

Example one_plus_one : fadd F_64 0x3ff0000000000000 0x3ff0000000000000 = 0x4000000000000000.
Proof. vm_compute. reflexivity. Qed.
Example third : fdiv F_32 0x3f800000 0x40400000 = 0x3eaaaaab.
Proof. vm_compute. reflexivity. Qed.
Example root_two : fsqrt F_64 0x4000000000000000 = 0x3ff6a09e667f3bcd.
Proof. vm_compute. reflexivity. Qed.
Example floor_minus_half : ffloor F_32 0xbf000000 = 0xbf800000.
Proof. vm_compute. reflexivity. Qed.
Example ceil_minus_half : fceil F_32 0xbf000000 = 0x80000000.
Proof. vm_compute. reflexivity. Qed.
Example rint_two_and_half : frint F_64 0x4004000000000000 = 0x4000000000000000.
Proof. vm_compute. reflexivity. Qed.
Example demote_pi : float_cast F_64 F_32 0x400921fb54442d18 = 0x40490fdb.
Proof. vm_compute. reflexivity. Qed.
Example promote_subnormal : float_cast F_32 F_64 1 = 0x36a0000000000000.
Proof. vm_compute. reflexivity. Qed.
Example of_big : of_Z F_32 false 16777217 = 0x4b800000.
Proof. vm_compute. reflexivity. Qed.

(** The numeric operators of the WebAssembly interpreter: the templates of
    [src/src/action/interpreter.cpp] that its switch instantiates
    ([BinaryOpHelper], [binaryOpMath], [binaryOpCount], [truncate], [convert],
    the checked arithmetic), and [FloatAttr] of [common/type.h].

    A value of an integer type is its number, one of a floating-point type its
    bits.  The code is C++17 built without [-fwrapv]: a signed sum, difference
    or product that overflows and a shift that the language leaves undefined
    give a marker instead of a value. *)

#[local] Open Scope Z_scope.

(** The exceptions of the interpreter ([common/errors.def]), and the markers of
    the operations that the language leaves undefined: the overflow of a signed
    operation, a shift by a count out of range or of a value that cannot be
    shifted, and [std::memcpy] between areas that overlap.  Nothing is known of
    a run that has reached a marker; [Undef] is kept for what no accepted
    module may reach. *)
Inductive Trap : Type :=
| UB_SignedOverflow | UB_Shift | UB_Overlap
| Unreachable_ | IntegerOverflow | IntegerDivByZero | InvalidConversionToInteger | OutOfBoundsMemory
| CallStackExhausted | UndefinedElement | UninitializedElement | IndirectCallTypeMismatch
| GasLimitExceeded | HostError (code : Z).

(** The template arguments of [valuePop] and [valuePush]. *)
Inductive num_ty : Type := NI (T : int_ty) | NF (F : float_ty).

#[export] Instance num_ty_eq_dec : EqDecision num_ty.
Proof. solve_decision. Defined.

(** [sizeof(T) * 8] *)
Definition bits (T : int_ty) : Z := sizeof T * 8.
Definition num_size (T : num_ty) : Z := match T with NI T => sizeof T | NF F => fwidth F / 8 end.

(** The value of type [T] with these bits. *)
Definition of_bits (T : num_ty) (b : Z) : Z := match T with NI T => cast T b | NF F => wrap (fwidth F) b end.
(** The bits of a value of type [T]. *)
Definition to_bits (T : num_ty) (v : Z) : Z := wrap (num_size T * 8) v.

Inductive BinaryOperator : Type :=
| BO_ADD | BO_SUB | BO_MUL | BO_DIV | BO_DIV_S | BO_EQ | BO_NE | BO_LT | BO_GT | BO_LE | BO_GE
| BO_REM_S | BO_REM_U | BO_AND | BO_OR | BO_XOR | BO_SHL | BO_SHR | BO_ROTL | BO_ROTR
| BO_MIN | BO_MAX | BO_COPYSIGN
| BC_CLZ | BC_CTZ | BC_POP_COUNT_I32 | BC_POP_COUNT_I64
| BM_SQRT | BM_FLOOR | BM_CEIL | BM_TRUNC | BM_NEAREST | BM_ABS | BM_NEG_F32 | BM_NEG_F64.

#[export] Instance BinaryOperator_eq_dec : EqDecision BinaryOperator.
Proof. solve_decision. Defined.

(** [CanonNaN]: the NaN of [float], as a value of the type. *)
Definition CanonNaN (T : num_ty) (Val : Z) : Z :=
  match T with
  | NI _ => Val
  | NF F => if isnan F Val then quiet_NaN F else Val
  end.

(** ** [BinaryOpHelper] *)

(** An exception or a value; [None] where there is no such instance. *)
Definition opres : Type := option (Trap + Z).

Definition least (T : int_ty) : Z := cast T (2 ^ (bits T - 1)).

Definition opDivS (T : int_ty) (LHS RHS : Z) : opres :=
  if (LHS =? least T) && (RHS =? -1) then Some (inl IntegerOverflow)
  else if RHS =? 0 then Some (inl IntegerDivByZero)
  else Some (inr (cast T (Z.quot LHS RHS))).

Definition opRemS (T : int_ty) (LHS RHS : Z) : opres :=
  if (LHS =? least T) && (RHS =? -1) then Some (inr 0)
  else if RHS =? 0 then Some (inl IntegerDivByZero)
  else Some (inr (cast T (Z.rem LHS RHS))).

Definition opRemU (T : int_ty) (LHS RHS : Z) : opres :=
  if RHS =? 0 then Some (inl IntegerDivByZero) else Some (inr (cast T (Z.rem LHS RHS))).

Definition opDivU (T : int_ty) (LHS RHS : Z) : opres :=
  if RHS =? 0 then Some (inl IntegerDivByZero) else Some (inr (cast T (Z.quot LHS RHS))).

Definition opDivF (F : float_ty) (LHS RHS : Z) : opres :=
  Some (inr (
    if feq F RHS 0 then
      if isnan F LHS || feq F LHS 0 then quiet_NaN F
      else infinity F (xorb (signbit F LHS) (signbit F RHS))
    else CanonNaN (NF F) (fdiv F LHS RHS))).

Definition opRotl (T : int_ty) (LHS RHS : Z) : opres :=
  let TypeBitNum := bits T in
  let Mask := TypeBitNum - 1 in
  let RHS := Z.land (RHS mod TypeBitNum) Mask in
  Some (inr (cast T (Z.lor (cast T (Z.shiftl LHS RHS)) (Z.shiftr LHS (Z.land (cast T (0 - RHS)) Mask))))).

Definition opRotr (T : int_ty) (LHS RHS : Z) : opres :=
  let TypeBitNum := bits T in
  let Mask := TypeBitNum - 1 in
  let RHS := Z.land (RHS mod TypeBitNum) Mask in
  Some (inr (cast T (Z.lor (Z.shiftr LHS RHS) (cast T (Z.shiftl LHS (Z.land (cast T (0 - RHS)) Mask)))))).

Definition opMin (F : float_ty) (LHS RHS : Z) : opres :=
  Some (inr (
    if isnan F LHS || isnan F RHS then quiet_NaN F
    else if feq F LHS 0 && feq F RHS 0 then if signbit F LHS then LHS else RHS
    else if flt F RHS LHS then RHS else LHS)).                       (* std::min *)

Definition opMax (F : float_ty) (LHS RHS : Z) : opres :=
  Some (inr (
    if isnan F LHS || isnan F RHS then quiet_NaN F
    else if feq F LHS 0 && feq F RHS 0 then if signbit F LHS then RHS else LHS
    else if flt F LHS RHS then RHS else LHS)).                       (* std::max *)

Definition opCopysign (F : float_ty) (LHS RHS : Z) : opres :=
  Some (inr (if signbit F RHS then fneg F (fabs F LHS) else fabs F LHS)).

(** [DECL_BINOP_IMPL] *)
Definition opArith (T : num_ty) (fi : Z -> Z -> Z) (ff : float_ty -> Z -> Z -> Z) (LHS RHS : Z) : opres :=
  match T with
  | NI T =>
      let r := fi LHS RHS in
      if Signed T && negb (cast T r =? r) then Some (inl UB_SignedOverflow) else Some (inr (cast T r))
  | NF F => Some (inr (CanonNaN T (ff F LHS RHS)))
  end.
Definition opBits (T : num_ty) (f : Z -> Z -> Z) (LHS RHS : Z) : opres :=
  match T with NI T => Some (inr (cast T (f LHS RHS))) | NF _ => None end.

(** The count is less than the width, and a signed number shifted to the left
    is not negative and leaves no bit of the unsigned type (before C++20).  The
    shift of a negative number to the right is that of the implementation. *)
Definition shift_defined (T : int_ty) (left : bool) (LHS RHS : Z) : bool :=
  (0 <=? RHS) && (RHS <? bits T) &&
  negb (left && Signed T && ((LHS <? 0) || (2 ^ bits T <=? Z.shiftl LHS RHS))).
Definition opShift (T : num_ty) (left : bool) (LHS RHS : Z) : opres :=
  match T with
  | NI T =>
      if shift_defined T left LHS RHS
      then Some (inr (cast T (if left then Z.shiftl LHS RHS else Z.shiftr LHS RHS)))
      else Some (inl UB_Shift)
  | NF _ => None
  end.

(** [DECL_COMPARE_IMPL] *)
Definition opCompare (T : num_ty) (fi : Z -> Z -> bool) (ff : float_ty -> Z -> Z -> bool) (LHS RHS : Z) : opres :=
  Some (inr (b2z (match T with NI _ => fi LHS RHS | NF F => ff F LHS RHS end))).

Definition only_int (T : num_ty) (f : int_ty -> Z -> Z -> opres) (LHS RHS : Z) : opres :=
  match T with NI T => f T LHS RHS | NF _ => None end.
Definition only_float (T : num_ty) (f : float_ty -> Z -> Z -> opres) (LHS RHS : Z) : opres :=
  match T with NI _ => None | NF F => f F LHS RHS end.

Definition BinaryOpHelper (T : num_ty) (Op : BinaryOperator) (LHS RHS : Z) : opres :=
  match Op with
  | BO_ADD => opArith T Z.add fadd LHS RHS
  | BO_SUB => opArith T Z.sub fsub LHS RHS
  | BO_MUL => opArith T Z.mul fmul LHS RHS
  | BO_AND => opBits T Z.land LHS RHS
  | BO_OR => opBits T Z.lor LHS RHS
  | BO_XOR => opBits T Z.lxor LHS RHS
  | BO_SHL => opShift T true LHS RHS
  | BO_SHR => opShift T false LHS RHS
  | BO_DIV => match T with NI T => opDivU T LHS RHS | NF F => opDivF F LHS RHS end
  | BO_DIV_S => only_int T opDivS LHS RHS
  | BO_REM_S => only_int T opRemS LHS RHS
  | BO_REM_U => only_int T opRemU LHS RHS
  | BO_ROTL => only_int T opRotl LHS RHS
  | BO_ROTR => only_int T opRotr LHS RHS
  | BO_MIN => only_float T opMin LHS RHS
  | BO_MAX => only_float T opMax LHS RHS
  | BO_COPYSIGN => only_float T opCopysign LHS RHS
  | BO_EQ => opCompare T Z.eqb feq LHS RHS
  | BO_NE => opCompare T (fun a b => negb (a =? b)) (fun F a b => negb (feq F a b)) LHS RHS
  | BO_LT => opCompare T Z.ltb flt LHS RHS
  | BO_GT => opCompare T Z.gtb (fun F a b => flt F b a) LHS RHS
  | BO_LE => opCompare T Z.leb fle LHS RHS
  | BO_GE => opCompare T Z.geb (fun F a b => fle F b a) LHS RHS
  | _ => None
  end.

(** [decltype(Ret)] *)
Definition ret_type (T : num_ty) (Op : BinaryOperator) : num_ty :=
  match Op with
  | BO_EQ | BO_NE | BO_LT | BO_GT | BO_LE | BO_GE => NI TI32
  | _ => T
  end.

(** ** [binaryOpMath]: the value pushed, of the type of the operand *)

(** [U & (1 << n)] decides which way the bit is changed. *)
Definition flip_sign (n U : Z) : Z :=
  if negb (Z.land U (Z.shiftl 1 n) =? 0) then Z.land U (Z.lnot (Z.shiftl 1 n)) else Z.lor U (Z.shiftl 1 n).

Definition binaryOpMath (F : float_ty) (Op : BinaryOperator) (Val : Z) : option Z :=
  match Op with
  | BM_SQRT => Some (CanonNaN (NF F) (fsqrt F Val))
  | BM_FLOOR => Some (CanonNaN (NF F) (ffloor F Val))
  | BM_CEIL => Some (CanonNaN (NF F) (fceil F Val))
  | BM_TRUNC => Some (CanonNaN (NF F) (ftrunc F Val))
  | BM_NEAREST => Some (CanonNaN (NF F) (frint F Val))
  | BM_ABS => Some (fabs F Val)
  | BM_NEG_F32 => if bool_decide (F = F_32) then Some (flip_sign 31 Val) else None
  | BM_NEG_F64 => if bool_decide (F = F_64) then Some (flip_sign 63 Val) else None
  | _ => None
  end.

(** ** [binaryOpCount] *)

(** [while (!ValBits.test(Idx)) { Num++; Idx--; }], [Idx] the next bit to
    test; at most the bits of the type. *)
Fixpoint clzLoop (fuel : nat) (Val Num Idx : Z) : Z :=
  match fuel with
  | O => Num
  | S fuel => if Z.testbit Val Idx then Num else clzLoop fuel Val (Num + 1) (Idx - 1)
  end.
(** [while (!ValBits.test(Idx) && Idx <= TypeBitNum) { Num++; Idx++; }] *)
Fixpoint ctzLoop (fuel : nat) (TypeBitNum Val Num Idx : Z) : Z :=
  match fuel with
  | O => Num
  | S fuel =>
      if negb (Z.testbit Val Idx) && (Idx <=? TypeBitNum) then ctzLoop fuel TypeBitNum Val (Num + 1) (Idx + 1)
      else Num
  end.
(** [std::bitset<n>(Val).count()] *)
Fixpoint bitCount (n : nat) (Val : Z) : Z :=
  match n with O => 0 | S n => b2z (Z.odd Val) + bitCount n (Z.div2 Val) end.

Definition binaryOpCount (T : int_ty) (Op : BinaryOperator) (Val : Z) : option Z :=
  let TypeBitNum := bits T in
  match Op with
  | BC_CLZ => Some (if Val =? 0 then TypeBitNum else clzLoop (Z.to_nat TypeBitNum) Val 0 (TypeBitNum - 1))
  | BC_CTZ => Some (if Val =? 0 then TypeBitNum else ctzLoop (Z.to_nat TypeBitNum) TypeBitNum Val 0 0)
  | BC_POP_COUNT_I32 => Some (bitCount 32 Val)
  | BC_POP_COUNT_I64 => Some (bitCount 64 Val)
  | _ => None
  end.

(** ** Conversions *)

(** [FloatAttr]: the values below and above the range of the target *)
Definition toIntMax (F : float_ty) (T : int_ty) (IsSigned : bool) : Z :=
  of_Z F false (match sizeof T =? 4, IsSigned with
    | true, true => 2147483648
    | false, true => 9223372036854775808
    | true, false => 4294967296
    | false, false => 18446744073709551616
    end).
Definition toIntMin (F : float_ty) (T : int_ty) (IsSigned : bool) : Z :=
  of_Z F false (match sizeof T =? 4, IsSigned, F with
    | true, true, F_32 => -2147483904
    | false, true, F_32 => -9223373136366403584
    | true, true, F_64 => -2147483649
    | false, true, F_64 => -9223372036854777856
    | _, false, _ => -1
    end).

Definition truncate (T : int_ty) (F : float_ty) (IsSigned : bool) (Src : Z) : Trap + Z :=
  if isnan F Src then inl InvalidConversionToInteger
  else if fle F Src (toIntMin F T IsSigned) || fle F (toIntMax F T IsSigned) Src then inl IntegerOverflow
  else if IsSigned then inr (cast T (cast TI64 (int_part F Src)))
  else inr (cast T (cast TU64 (int_part F Src))).

(** [static_cast<TargetType>] *)
Definition convert (Target Src : num_ty) (v : Z) : Z :=
  match Target, Src with
  | NI T, NI _ => cast T v
  | NF F, NI _ => of_Z F false v
  | NF F, NF G => float_cast G F v
  | NI T, NF F => cast T (int_part F v)
  end.

(** ** Checked arithmetic *)

(** [__builtin_{add,sub,mul}_overflow] on the type of [w] bits: the result
    when it is exact. *)
Definition builtin_overflow (Sign : bool) (w : Z) (r : Z) : option Z :=
  let r' := if Sign then swrap w r else wrap w r in
  if r' =? r then Some r else None.

Definition checkedOp (Opr : BinaryOperator) (a b : Z) : option Z :=
  match Opr with BO_ADD => Some (a + b) | BO_SUB => Some (a - b) | BO_MUL => Some (a * b) | _ => None end.

(** [w]: the width of [SignedT] and [UnsignedT]; [T]: [WasmReturnType] *)
Definition handleCheckedArithmeticImpl (Sign : bool) (Opr : BinaryOperator) (w : Z) (T : int_ty) (LHS RHS : Z)
  : option (Trap + Z) :=
  let conv := if Sign then swrap w else wrap w in
  r ← checkedOp Opr (conv LHS) (conv RHS);
  Some (match builtin_overflow Sign w r with
        | None => inl IntegerOverflow
        | Some Result => inr (cast T Result)
        end).

(** The high 64 bits of the result. *)
Definition handleCheckedI128ArithmeticImpl (Sign : bool) (Opr : BinaryOperator) (LHSLo LHSHi RHSLo RHSHi : Z)
  : option (Trap + Z) :=
  let hi z := if Sign then swrap 64 z else u64 z in
  let LHS := Z.shiftl (hi LHSHi) 64 + u64 LHSLo in
  let RHS := Z.shiftl (hi RHSHi) 64 + u64 RHSLo in
  match Opr with
  | BO_ADD | BO_SUB =>
      r ← checkedOp Opr LHS RHS;
      if Sign && ((LHSHi <? 0) || (RHSHi <? 0)) then Some (inl UB_Shift)       (* the shift of a negative [__int128_t] *)
      else Some (match builtin_overflow Sign 128 r with
            | None => inl IntegerOverflow
            | Some Result => inr (i64 (Z.shiftr Result 64))
            end)
  | _ => None
  end.
