(* ===== verification/WasmInterp.v ===== *)
(** The WebAssembly interpreter: [src/src/action/interpreter.{h,cpp}] and its
    caller [Runtime::callWasmFunctionInInterpMode], with what they use of
    [runtime/instance.{h,cpp}] and [utils/wasm.{h,cpp}].  The build has neither
    [ZEN_ENABLE_DWASM] nor [ZEN_ENABLE_CHECKED_ARITHMETIC].

    The interpreter keeps locals, frames, blocks and operands of all active
    functions in one area of memory, as 32-bit cells.  A pointer into the area
    is the number of cells below it; the sizes of its parts are multiples of a
    cell.  The frames and blocks are kept aside of the cells, each with its
    address, so a write of a cell that could reach one of them is undefined
    behaviour here ([Undef]), and so are a failed [ZEN_ASSERT], a read outside
    the body of the function and an access outside a table.  Signed overflow,
    shifts C++ does not define and a [std::memcpy] on overlapping cells end the
    run with a marker of [WasmNum.Trap].  Addresses in a body are offsets. *)

From stdpp Require Import gmap.
From S2P Require Import Prelude Intx Leb128 WasmNum FunctionLoader.

#[local] Open Scope Z_scope.

(** ** Instances *)

Inductive FunctionKind : Type := ByteCode | Native.

Record FunctionInstance : Type := mkFI {
  fKind : FunctionKind;
  fType : TypeEntry;
  fNumParamCells : Z;
  fNumReturnCells : Z;
  fNumLocalCells : Z;
  fLocalTypes : list WASMType;
  fLocalOffsets : list Z;
  fMaxStackSize : Z;
  fMaxBlockDepth : Z;
  fCode : list Z;               (* [CodePtr] and [CodeSize] of a body *)
  fFuncPtr : Z;                 (* [CodePtr] of a host function *)
}.

Record TableInstance : Type := mkTI { tElements : list Z }.

(** The bytes of the memory; those never written are zero. *)
Record MemoryInstance : Type := mkMI {
  CurPages : Z;
  mMaxPages : Z;
  MemSize : Z;
  MemData : gmap Z Z;
}.

Record GlobalInstance : Type := mkGI { gType : WASMType; gOffset : Z }.

(** What changes of an instance. *)
Record Instance_ : Type := mkInst {
  iMemory : option MemoryInstance;
  GlobalVarData : list Z;
  iTables : list TableInstance;
  iGas : Z;
}.

Definition set_iMemory (m : MemoryInstance) (i : Instance_) : Instance_ :=
  mkInst (Some m) (GlobalVarData i) (iTables i) (iGas i).
Definition set_GlobalVarData (d : list Z) (i : Instance_) : Instance_ :=
  mkInst (iMemory i) d (iTables i) (iGas i).
Definition setGas (g : Z) (i : Instance_) : Instance_ :=
  mkInst (iMemory i) (GlobalVarData i) (iTables i) g.

(** ** The state of the interpreter *)

Record BlockInfo : Type := mkBI {
  TargetAddr : nat;
  bValueStackPtr : Z;
  CellNum : Z;
  bLabelType : LabelType_;
}.

(** [Ctrl]: the blocks from [CtrlBasePtr] to [CtrlStackPtr], the last first. *)
Record InterpFrame : Type := mkFrame {
  FrameAddr : Z;
  frFuncInst : nat;
  frIp : nat;
  ValueBasePtr : Z;
  frValueStackPtr : Z;
  ValueBoundary : Z;
  frCtrl : list BlockInfo;
  frLocalPtr : Z;
}.

Record CacheValue : Type := mkCV { cvElsePtr : option nat; cvEndPtr : option nat }.

(** The stack of the context, its frames (the current one first, each followed
    by its [PrevFrame]), the variables of [interpret], the cache of block
    addresses and the instance. *)
Record WState : Type := mkW {
  Cells : gmap Z Z;
  Top : Z;
  TopBoundary : Z;
  Frames : list InterpFrame;
  Ip : nat;
  IpEnd : nat;
  ValStackPtr : Z;
  Ctrl : list BlockInfo;
  LocalPtr : Z;
  FuncInst : nat;
  LinearMemSize : Z;
  BlockAddrCache : gmap (nat * nat) CacheValue;
  Inst : Instance_;
}.

Definition set_Cells (c : gmap Z Z) (s : WState) : WState :=
  mkW c (Top s) (TopBoundary s) (Frames s) (Ip s) (IpEnd s) (ValStackPtr s) (Ctrl s) (LocalPtr s) (FuncInst s)
    (LinearMemSize s) (BlockAddrCache s) (Inst s).
Definition set_Frames (top : Z) (l : list InterpFrame) (s : WState) : WState :=
  mkW (Cells s) top (TopBoundary s) l (Ip s) (IpEnd s) (ValStackPtr s) (Ctrl s) (LocalPtr s) (FuncInst s)
    (LinearMemSize s) (BlockAddrCache s) (Inst s).
Definition set_Ip (p : nat) (s : WState) : WState :=
  mkW (Cells s) (Top s) (TopBoundary s) (Frames s) p (IpEnd s) (ValStackPtr s) (Ctrl s) (LocalPtr s) (FuncInst s)
    (LinearMemSize s) (BlockAddrCache s) (Inst s).
Definition set_ValStackPtr (p : Z) (s : WState) : WState :=
  mkW (Cells s) (Top s) (TopBoundary s) (Frames s) (Ip s) (IpEnd s) p (Ctrl s) (LocalPtr s) (FuncInst s)
    (LinearMemSize s) (BlockAddrCache s) (Inst s).
Definition set_Ctrl (l : list BlockInfo) (s : WState) : WState :=
  mkW (Cells s) (Top s) (TopBoundary s) (Frames s) (Ip s) (IpEnd s) (ValStackPtr s) l (LocalPtr s) (FuncInst s)
    (LinearMemSize s) (BlockAddrCache s) (Inst s).
Definition set_LinearMemSize (n : Z) (s : WState) : WState :=
  mkW (Cells s) (Top s) (TopBoundary s) (Frames s) (Ip s) (IpEnd s) (ValStackPtr s) (Ctrl s) (LocalPtr s) (FuncInst s)
    n (BlockAddrCache s) (Inst s).
Definition set_Cache (c : gmap (nat * nat) CacheValue) (s : WState) : WState :=
  mkW (Cells s) (Top s) (TopBoundary s) (Frames s) (Ip s) (IpEnd s) (ValStackPtr s) (Ctrl s) (LocalPtr s) (FuncInst s)
    (LinearMemSize s) c (Inst s).
Definition set_Inst (i : Instance_) (s : WState) : WState :=
  mkW (Cells s) (Top s) (TopBoundary s) (Frames s) (Ip s) (IpEnd s) (ValStackPtr s) (Ctrl s) (LocalPtr s) (FuncInst s)
    (LinearMemSize s) (BlockAddrCache s) i.

Abbreviation wbody := (body (E := Trap) (S := WState)).

(** [ZEN_ASSERT] *)
Definition zen_assert (b : bool) : wbody unit := if b then ret tt else undef.

(** ** Cells *)

Definition cellsOf (T : num_ty) : Z := num_size T / 4.

Definition readCell (s : WState) (a : Z) : Z := default 0 (Cells s !! a).

(** The object at an address. *)
Definition readCells (T : num_ty) (s : WState) (a : Z) : Z :=
  of_bits T (if cellsOf T =? 1 then readCell s a else readCell s a + 2 ^ 32 * readCell s (a + 1)).
Definition writeCells (T : num_ty) (a v : Z) (c : gmap Z Z) : gmap Z Z :=
  let b := to_bits T v in
  if cellsOf T =? 1 then <[a := b]> c else <[a + 1 := b / 2 ^ 32]> (<[a := b mod 2 ^ 32]> c).

(** [std::memset(Ptr, 0, n << 2)] and [std::memcpy(Dst, Src, n << 2)] *)
Fixpoint zeroCells (a : Z) (n : nat) (c : gmap Z Z) : gmap Z Z :=
  match n with O => c | S n => zeroCells (a + 1) n (<[a := 0]> c) end.
Fixpoint storeCells (a : Z) (l : list Z) (c : gmap Z Z) : gmap Z Z :=
  match l with [] => c | v :: l => storeCells (a + 1) l (<[a := v]> c) end.
Definition copyCells (dst src : Z) (n : nat) (s : WState) : gmap Z Z :=
  storeCells dst (map (fun i => readCell s (src + Z.of_nat i)) (seq 0 n)) (Cells s).

(** Whether two areas of [n] cells overlap. *)
Definition overlaps (a b n : Z) : bool := Z.abs (a - b) <? n.

(** ** The operand stack of the current frame *)

Definition curFrame : wbody InterpFrame := l <- gets Frames;; of_option (head l).

Definition valuePeek (T : num_ty) : wbody Z :=
  Frame <- curFrame;;
  s <- gets id;;
  zen_assert (ValueBasePtr Frame + cellsOf T <=? ValStackPtr s);;;
  ret (readCells T s (ValStackPtr s - cellsOf T)).

Definition valuePop (T : num_ty) : wbody Z :=
  Frame <- curFrame;;
  s <- gets id;;
  zen_assert (ValueBasePtr Frame + cellsOf T <=? ValStackPtr s);;;
  modify (set_ValStackPtr (ValStackPtr s - cellsOf T));;;
  ret (readCells T s (ValStackPtr s - cellsOf T)).

Definition valuePush (T : num_ty) (V : Z) : wbody unit :=
  Frame <- curFrame;;
  s <- gets id;;
  modify (set_Cells (writeCells T (ValStackPtr s) V (Cells s)));;;
  modify (set_ValStackPtr (ValStackPtr s + cellsOf T));;;
  zen_assert (ValStackPtr s + cellsOf T <=? ValueBoundary Frame).

Definition valueGet (T : num_ty) (Ptr : Z) : wbody Z :=
  s <- gets id;;
  zen_assert ((Ptr <? ValStackPtr s) && (Ptr + cellsOf T <=? ValStackPtr s) && (LocalPtr s <=? Ptr));;;
  ret (readCells T s Ptr).

(** The variables lie below the frame. *)
Definition valueSet (T : num_ty) (Ptr V : Z) : wbody unit :=
  Frame <- curFrame;;
  s <- gets id;;
  zen_assert (Ptr <? ValStackPtr s);;;
  if (LocalPtr s <=? Ptr) && (Ptr + cellsOf T <=? FrameAddr Frame)
  then modify (set_Cells (writeCells T Ptr V (Cells s))) else undef.

(** ** Frames *)

Definition sizeofInterpFrame : Z := 80.
Definition sizeofBlockInfo : Z := 24.

Section Interp.
(** The results of oversized shifts in a LEB128 number (see [Leb128]). *)
Context (wide_shift : Z -> Z -> Z).
(** The module, its functions and the places of its globals. *)
Context (Mod : Module_) (Functions : list FunctionInstance) (Globals_ : list GlobalInstance) (GasFuncIdx : Z).
(** Whether the allocator can enlarge a memory to a size. *)
Context (enlarge : MemoryInstance -> Z -> bool).
(** A host function: the instance after it, its result, its error. *)
Context (native : Z -> list (WASMType * Z) -> Instance_ -> Instance_ * Z * option Z).

Definition getFunctionInst (FuncIdx : nat) : wbody FunctionInstance := of_option (Functions !! FuncIdx).

Definition curFunc : wbody FunctionInstance := f <- gets FuncInst;; getFunctionInst f.

(** [None]: the stack is exhausted. *)
Definition allocFrame (F : nat) (LocalPtr_ : Z) : wbody bool :=
  Fn <- getFunctionInst F;;
  s <- gets id;;
  let LocalSize := Z.shiftl (fNumLocalCells Fn) 2 in
  let ControlSize := u32 (fMaxBlockDepth Fn * sizeofBlockInfo) in
  if TopBoundary s * 4 <=? Top s * 4 + LocalSize + sizeofInterpFrame + fMaxStackSize Fn + ControlSize then ret false
  else
    modify (set_Cells (zeroCells (Top s) (Z.to_nat (LocalSize / 4)) (Cells s)));;;
    let Addr := Top s + LocalSize / 4 in
    let CtrlBase := Addr + sizeofInterpFrame / 4 in
    let ValueBase := CtrlBase + ControlSize / 4 in
    let NewTop := ValueBase + fMaxStackSize Fn / 4 in
    modify (set_Frames NewTop (mkFrame Addr F 0 ValueBase ValueBase NewTop [] LocalPtr_ :: Frames s));;;
    ret true.

(** The frame is gone with [setCurFrame]. *)
Definition freeFrame (Fn : FunctionInstance) : wbody unit :=
  Frame <- curFrame;;
  let NewTop := FrameAddr Frame - Z.shiftl (fNumLocalCells Fn) 2 / 4 in
  zen_assert (0 <=? NewTop);;;
  modify (fun s => set_Frames NewTop (Frames s) s).

(** Undefined past the area that [allocFrame] gives the blocks of a frame. *)
Definition blockPush (Target : nat) (Vsp : Z) (Cells_ : Z) (Label : LabelType_) : wbody unit :=
  Fn <- curFunc;;
  l <- gets Ctrl;;
  if (Z.of_nat (length l) + 1) * sizeofBlockInfo <=? u32 (fMaxBlockDepth Fn * sizeofBlockInfo)
  then modify (set_Ctrl (mkBI Target Vsp Cells_ Label :: l)) else undef.

Definition blockPop1 : wbody unit := l <- gets Ctrl;; modify (set_Ctrl (tail l)).

(** [std::memcpy] of operands within the value stack of the frame, which is
    undefined where the areas overlap, that is where fewer operands are dropped
    than kept. *)
Definition moveOperands (dst src n : Z) : wbody unit :=
  Frame <- curFrame;;
  s <- gets id;;
  if (ValueBasePtr Frame <=? dst) && (dst + n <=? ValueBoundary Frame) && (ValueBasePtr Frame <=? src)
  then if overlaps dst src n then throw UB_Overlap
       else modify (set_Cells (copyCells dst src (Z.to_nat n) s))
  else undef.

Definition blockPop (Depth : Z) : wbody unit :=
  s <- gets id;;
  zen_assert ((0 <=? Depth) && (Depth + 1 <=? Z.of_nat (length (Ctrl s))));;;
  let ValStackPtrOld := ValStackPtr s in
  modify (set_Ctrl (drop (Z.to_nat Depth) (Ctrl s)));;;
  CurBlock <- of_option (Ctrl s !! Z.to_nat Depth);;
  modify (set_ValStackPtr (bValueStackPtr CurBlock));;;
  modify (set_Ip (TargetAddr CurBlock));;;
  if negb (bool_decide (bLabelType CurBlock = LABEL_LOOP)) then
    moveOperands (bValueStackPtr CurBlock) (ValStackPtrOld - CellNum CurBlock) (CellNum CurBlock);;;
    modify (set_ValStackPtr (bValueStackPtr CurBlock + CellNum CurBlock))
  else ret tt.

(** ** The body of the function *)

(** [*Ip++] *)
Definition fetch : wbody Z :=
  Fn <- curFunc;;
  p <- gets Ip;;
  b <- of_option (fCode Fn !! p);;
  modify (set_Ip (p + 1)%nat);;;
  ret b.

(** A reader of immediates, at [Ip]. *)
Definition atIp {A} (f : list Z -> option (A * list Z)) : wbody A :=
  Fn <- curFunc;;
  p <- gets Ip;;
  r <- of_option (f (drop p (fCode Fn)));;
  modify (set_Ip (length (fCode Fn) - length r.2)%nat);;;
  ret r.1.

Definition readLEB_ (T : int_ty) : wbody Z := atIp (readSafeLEBNumber wide_shift T).
(** [readFixedNumber] *)
Definition readFixed (size : nat) : wbody Z :=
  atIp (fun bs => let '(v, r) := readFixedNumber size bs in Some (le_value v, r)).

(** [skipLEBNumber] with its assertion. *)
Definition skipLEB (T : int_ty) (bs : list Z) : option (list Z) :=
  let '(r, ok) := skipLEBNumber T bs in if ok then Some r else None.

(** ** [findBlockAddr] *)

(** On a type index, which the loader refuses, the source steps back and reads on
    from the opcode, without end. *)
Definition skipBlockType (bs : list Z) : option (list Z) :=
  match bs with
  | [] => None
  | b :: r => if bool_decide (getWASMBlockTypeFromOpcode b = ERROR_TYPE) then None else Some r
  end.

(** [for (uint32_t I = 0; I <= NumTargets; ++I)]; a turn skips a byte. *)
Fixpoint skipLabels (fuel : nat) (n : Z) (bs : list Z) : option (list Z) :=
  if n <? 0 then Some bs
  else match fuel with
       | O => None
       | S fuel => r ← skipLEB TU32 bs; skipLabels fuel (n - 1) r
       end.

Definition skipBytes (n : nat) (bs : list Z) : option (list Z) :=
  if (length bs <? n)%nat then None else Some (drop n bs).

(** The cases other than blocks, ELSE and END: the bytes after the
    immediates. *)
Definition skipImmediates (Opcode : Z) (bs : list Z) : option (list Z) :=
  if in_range 0x00 0x01 Opcode then Some bs
  else if in_range 0x0c 0x0d Opcode then skipLEB TI32 bs
  else if Opcode =? 0x0e then
    '(NumTargets, r) ← readSafeLEBNumber wide_shift TU32 bs; skipLabels (S (length r)) NumTargets r
  else if Opcode =? 0x0f then Some bs
  else if Opcode =? 0x10 then skipLEB TU32 bs
  else if Opcode =? 0x11 then r ← skipLEB TU32 bs; skipBytes 1 r
  else if in_range 0x1a 0x1b Opcode || in_range 0xc5 0xc6 Opcode then Some bs
  else if in_range 0x1d 0x1e Opcode || in_range 0x20 0x24 Opcode then skipLEB TU32 bs
  else if in_range 0x28 0x3e Opcode then r ← skipLEB TU32 bs; skipLEB TU32 r
  else if in_range 0x3f 0x40 Opcode then skipLEB TU32 bs
  else if Opcode =? 0x41 then skipLEB TI32 bs
  else if Opcode =? 0x42 then skipLEB TI64 bs
  else if Opcode =? 0x43 then skipBytes 4 bs
  else if Opcode =? 0x44 then skipBytes 8 bs
  else if in_range 0x45 0xc4 Opcode then Some bs
  else None.

(** [BlockAddrCache[...].ElsePtr = ...] and [.EndPtr = ...] *)
Definition cacheAt (c : gmap (nat * nat) CacheValue) (k : nat * nat) : CacheValue := default (mkCV None None) (c !! k).
Definition setElse (k : nat * nat) (p : nat) (c : gmap (nat * nat) CacheValue) : gmap (nat * nat) CacheValue :=
  <[k := mkCV (Some p) (cvEndPtr (cacheAt c k))]> c.
Definition setEnd (k : nat * nat) (p : nat) (c : gmap (nat * nat) CacheValue) : gmap (nat * nat) CacheValue :=
  <[k := mkCV (cvElsePtr (cacheAt c k)) (Some p)]> c.

(** [while (Ptr < End)] in function [f] of [len] bytes, of which [bs] are left.
    A turn reads a byte.  [None] where the loop runs off the end, which leaves
    the addresses unset, or an assertion fails. *)
Fixpoint scanLoop (fuel : nat) (f len : nat) (bs : list Z) (BlockDepth : Z) (BlockStartPtrs : gmap Z nat)
    (cache : gmap (nat * nat) CacheValue) : option (gmap (nat * nat) CacheValue * CacheValue) :=
  match fuel, bs with
  | S fuel, Opcode :: r =>
      let Ptr := (len - length r)%nat in
      if in_range 0x02 0x04 Opcode then
        r ← skipBlockType r;
        scanLoop fuel f len r (BlockDepth + 1) (<[BlockDepth := (len - length r)%nat]> BlockStartPtrs) cache
      else if Opcode =? 0x05 then
        start ← BlockStartPtrs !! (BlockDepth - 1);
        scanLoop fuel f len r BlockDepth BlockStartPtrs (setElse (f, start) (Ptr - 1)%nat cache)
      else if Opcode =? 0x0b then
        start ← BlockStartPtrs !! (BlockDepth - 1);
        let cache := setEnd (f, start) (Ptr - 1)%nat cache in
        if BlockDepth - 1 =? 0 then
          start ← BlockStartPtrs !! 0; Some (cache, cacheAt cache (f, start))
        else scanLoop fuel f len r (BlockDepth - 1) BlockStartPtrs cache
      else
        r ← skipImmediates Opcode r; scanLoop fuel f len r BlockDepth BlockStartPtrs cache
  | _, _ => None
  end.

(** [ElseAddr] and [EndAddr] of the block that starts at [Ip]. *)
Definition findBlockAddr : wbody CacheValue :=
  Fn <- curFunc;;
  s <- gets id;;
  let Start := Ip s in
  match BlockAddrCache s !! (FuncInst s, Start) with
  | Some cv => ret cv
  | None =>
      r <- of_option (scanLoop (length (fCode Fn)) (FuncInst s) (length (fCode Fn)) (drop Start (fCode Fn)) 1
             {[0 := Start]} (BlockAddrCache s));;
      modify (set_Cache r.1);;;
      ret r.2
  end.

(** ** Control instructions *)

Definition blockCells : wbody Z :=
  b <- fetch;; of_option (getWASMTypeCellNum (getWASMBlockTypeFromOpcode b)).

Definition opBlock : wbody unit :=
  CellNum_ <- blockCells;;
  cv <- findBlockAddr;;
  EndAddr <- of_option (cvEndPtr cv);;
  Vsp <- gets ValStackPtr;;
  blockPush EndAddr Vsp CellNum_ LABEL_BLOCK.

Definition opLoop : wbody unit :=
  CellNum_ <- blockCells;;
  p <- gets Ip;;
  Vsp <- gets ValStackPtr;;
  blockPush p Vsp CellNum_ LABEL_LOOP.

Definition opIf : wbody unit :=
  CellNum_ <- blockCells;;
  Cond <- valuePop (NI TI32);;
  cv <- findBlockAddr;;
  EndAddr <- of_option (cvEndPtr cv);;
  Vsp <- gets ValStackPtr;;
  if negb (Cond =? 0) then blockPush EndAddr Vsp CellNum_ LABEL_IF
  else match cvElsePtr cv with
       | None => modify (set_Ip (EndAddr + 1)%nat)
       | Some ElseAddr =>
           blockPush EndAddr Vsp CellNum_ LABEL_IF;;; modify (set_Ip (ElseAddr + 1)%nat)
       end.

Definition opElse : wbody unit :=
  l <- gets Ctrl;;
  b <- of_option (head l);;
  modify (set_Ip (TargetAddr b)).

(** [Depth] is passed as an [int32_t]. *)
Definition opBr : wbody unit := Depth <- readLEB_ TU32;; blockPop (swrap 32 Depth).

Definition opBrIf : wbody unit :=
  Depth <- readLEB_ TU32;;
  Cond <- valuePop (NI TI32);;
  if negb (Cond =? 0) then blockPop (swrap 32 Depth) else ret tt.

(** [for (uint32_t I = 0; I < LabelIdx; I++)] *)
Fixpoint skipTargets (n : nat) : wbody unit :=
  match n with
  | O => ret tt
  | S n => atIp (fun bs => r ← skipLEB TU8 bs; Some (tt, r));;; skipTargets n
  end.

Definition opBrTable : wbody unit :=
  Count <- readLEB_ TU32;;
  i <- valuePop (NI TU32);;
  let LabelIdx := Z.min Count i in
  skipTargets (Z.to_nat LabelIdx);;;
  Depth <- readLEB_ TU32;;
  blockPop (swrap 32 Depth).

(** ** Calls *)

Definition num_of (t : WASMType) : option num_ty :=
  match t with
  | I32 => Some (NI TI32)
  | I64 => Some (NI TI64)
  | F32 => Some (NF F_32)
  | F64 => Some (NF F_64)
  | _ => None
  end.

(** The arguments of a host function, the last one popped first. *)
Fixpoint popArgs (ts : list WASMType) (acc : list (WASMType * Z)) : wbody (list (WASMType * Z)) :=
  match ts with
  | [] => ret acc
  | t :: ts => T <- of_option (num_of t);; v <- valuePop T;; popArgs ts ((t, v) :: acc)
  end.
(** The results: the call fills the first one, the others are zero. *)
Fixpoint pushResults (ts : list WASMType) (v : Z) : wbody unit :=
  match ts with
  | [] => ret tt
  | t :: ts => T <- of_option (num_of t);; valuePush T v;;; pushResults ts 0
  end.

Definition callNative (Callee : FunctionInstance) : wbody unit :=
  Args <- popArgs (reverse (ParamTypes (fType Callee))) [];;
  i <- gets Inst;;
  let '(i', Result, Err) := native (fFuncPtr Callee) Args i in
  modify (set_Inst i');;;
  match Err with
  | Some e => throw (HostError e)
  | None => pushResults (ReturnTypes (fType Callee)) Result
  end.

(** [updateFrame] without a return: the variables of the current frame. *)
Definition enterFrame (F : nat) : wbody unit :=
  Fn <- getFunctionInst F;;
  Frame <- curFrame;;
  modify (fun s =>
    mkW (Cells s) (Top s) (TopBoundary s) (Frames s) (frIp Frame) (length (fCode Fn)) (frValueStackPtr Frame)
      (frCtrl Frame) (frLocalPtr Frame) F (LinearMemSize s) (BlockAddrCache s) (Inst s)).

Definition syncFrame : wbody unit := fun s =>
  match Frames s with
  | [] => Undef
  | f :: l =>
      Ret tt (set_Frames (Top s)
        (mkFrame (FrameAddr f) (frFuncInst f) (Ip s) (ValueBasePtr f) (ValStackPtr s) (ValueBoundary f) (Ctrl s)
           (frLocalPtr f) :: l) s)
  end.

(** The locals lie below the frame. *)
Definition clearLocals (Fn : FunctionInstance) : wbody unit :=
  Frame <- curFrame;;
  s <- gets id;;
  let n := Z.shiftl (fNumLocalCells Fn) 2 / 4 in
  if LocalPtr s + fNumParamCells Fn + n <=? FrameAddr Frame
  then modify (set_Cells (zeroCells (LocalPtr s + fNumParamCells Fn) (Z.to_nat n) (Cells s))) else undef.

Definition pushFunctionBlock (Fn : FunctionInstance) : wbody unit :=
  s <- gets id;;
  blockPush (IpEnd s - 1)%nat (ValStackPtr s) (fNumReturnCells Fn) LABEL_FUNCTION.

Definition callByteCode (F : nat) (Callee : FunctionInstance) : wbody unit :=
  syncFrame;;;
  s <- gets id;;
  ok <- allocFrame F (ValStackPtr s - fNumParamCells Callee);;
  if negb ok then throw CallStackExhausted
  else
    enterFrame F;;;
    clearLocals Callee;;;
    pushFunctionBlock Callee.

Definition callFuncInst (F : nat) : wbody unit :=
  Callee <- getFunctionInst F;;
  match fKind Callee with
  | Native => callNative Callee
  | ByteCode => callByteCode F Callee
  end.

(** A call of the function that accounts for gas. *)
Definition chargeGasCall : wbody unit :=
  Delta <- valuePop (NI TU64);;
  i <- gets Inst;;
  if iGas i <? Delta then modify (set_Inst (setGas 0 i));;; throw GasLimitExceeded
  else modify (set_Inst (setGas (iGas i - Delta) i)).

Definition opCall : wbody unit :=
  FuncIdx <- readLEB_ TU32;;
  if FuncIdx =? GasFuncIdx then chargeGasCall else callFuncInst (Z.to_nat FuncIdx).

(** [TypeEntry::isEqual] *)
Definition typeIsEqual (t1 t2 : TypeEntry) : bool :=
  bool_decide (length (ParamTypes t1) = length (ParamTypes t2)) &&
  bool_decide (length (ReturnTypes t1) = length (ReturnTypes t2)) &&
  bool_decide (ParamTypes t1 = ParamTypes t2) && bool_decide (ReturnTypes t1 = ReturnTypes t2).

Definition opCallIndirect : wbody unit :=
  TypeIdx <- readLEB_ TU32;;
  modify (fun s => set_Ip (Ip s + 1)%nat s);;;
  ExpectedFuncType <- of_option (getDeclaredType Mod (Z.to_nat TypeIdx));;
  IndirectFuncIdx <- valuePop (NI TI32);;
  i <- gets Inst;;
  Table <- of_option (head (iTables i));;
  if (IndirectFuncIdx <? 0) || (Z.of_nat (length (tElements Table)) <=? IndirectFuncIdx) then throw UndefinedElement
  else
    FuncIdx <- of_option (tElements Table !! Z.to_nat IndirectFuncIdx);;
    if FuncIdx =? 2 ^ 32 - 1 then throw UninitializedElement
    else
      Callee <- getFunctionInst (Z.to_nat FuncIdx);;
      if negb (typeIsEqual (fType Callee) ExpectedFuncType) then throw IndirectCallTypeMismatch
      else callFuncInst (Z.to_nat FuncIdx).

(** [std::memcpy(LocalPtr, ValStackPtr, NumReturnCells << 2)]: to the value
    stack of the caller, or to the bottom of the stack; undefined where the
    areas overlap. *)
Definition copyResults (Fn : FunctionInstance) : wbody unit :=
  s <- gets id;;
  Frame <- curFrame;;
  let n := fNumReturnCells Fn in
  let src := ValStackPtr s - n in
  let '(lo, hi) := match tail (Frames s) with
                   | [] => (0, TopBoundary s)
                   | Prev :: _ => (ValueBasePtr Prev, ValueBoundary Prev)
                   end in
  if (lo <=? LocalPtr s) && (LocalPtr s + n <=? hi) && (ValueBasePtr Frame <=? src) &&
     negb (overlaps (LocalPtr s) src n)
  then modify (set_Cells (copyCells (LocalPtr s) src (Z.to_nat n) s)) else undef.

(** [setCurFrame(PrevFrame)] and [updateFrame] with a return *)
Definition leaveFrame (Fn : FunctionInstance) : wbody unit :=
  s <- gets id;;
  match tail (Frames s) with
  | [] => modify (set_Frames (Top s) [])
  | Prev :: rest =>
      PrevFn <- getFunctionInst (frFuncInst Prev);;
      modify (fun s =>
        mkW (Cells s) (Top s) (TopBoundary s) (Prev :: rest) (frIp Prev) (length (fCode PrevFn))
          (frValueStackPtr Prev - fNumParamCells Fn + fNumReturnCells Fn) (frCtrl Prev) (frLocalPtr Prev)
          (frFuncInst Prev) (LinearMemSize s) (BlockAddrCache s) (Inst s))
  end.

(** [interpret] returns where there is no caller; the frame stays the current
    one. *)
Definition opReturn : wbody unit :=
  Fn <- curFunc;;
  freeFrame Fn;;;
  copyResults Fn;;;
  l <- gets Frames;;
  match tail l with [] => exit | _ => leaveFrame Fn end.

Definition opEnd : wbody unit :=
  l <- gets Ctrl;;
  if (1 <? length l)%nat then blockPop1
  else
    Fn <- curFunc;;
    freeFrame Fn;;;
    copyResults Fn;;;
    leaveFrame Fn.

(** ** Variables *)

(** The type and address of a local variable. *)
Definition localVar : wbody (num_ty * Z) :=
  LocalIdx <- readLEB_ TU32;;
  Fn <- curFunc;;
  LocalType <- of_option ((ParamTypes (fType Fn) ++ fLocalTypes Fn) !! Z.to_nat LocalIdx);;
  LocalOffset <- of_option (fLocalOffsets Fn !! Z.to_nat LocalIdx);;
  p <- gets LocalPtr;;
  match LocalType with
  | F32 | I32 => ret (NI TI32, p + LocalOffset)
  | F64 | I64 => ret (NI TI64, p + LocalOffset)
  | _ => undef
  end.

Definition opGetLocal : wbody unit := v <- localVar;; x <- valueGet v.1 v.2;; valuePush v.1 x.
Definition opSetLocal : wbody unit := v <- localVar;; x <- valuePop v.1;; valueSet v.1 v.2 x.
Definition opTeeLocal : wbody unit := v <- localVar;; x <- valuePeek v.1;; valueSet v.1 v.2 x.

(** The object at a place of the globals. *)
Definition readGlobal (T : num_ty) (Offset : Z) : wbody Z :=
  i <- gets Inst;;
  let n := num_size T in
  if (0 <=? Offset) && (Offset + n <=? Z.of_nat (length (GlobalVarData i)))
  then ret (of_bits T (le_value (take (Z.to_nat n) (drop (Z.to_nat Offset) (GlobalVarData i))))) else undef.
Definition writeGlobal (T : num_ty) (Offset V : Z) : wbody unit :=
  i <- gets Inst;;
  let n := num_size T in
  if (0 <=? Offset) && (Offset + n <=? Z.of_nat (length (GlobalVarData i)))
  then modify (set_Inst (set_GlobalVarData
         (take (Z.to_nat Offset) (GlobalVarData i) ++ le_bytes (Z.to_nat n) (to_bits T V)
            ++ drop (Z.to_nat (Offset + n)) (GlobalVarData i)) i))
  else undef.

Definition globalVar : wbody GlobalInstance :=
  GlobalIdx <- readLEB_ TU32;; of_option (Globals_ !! Z.to_nat GlobalIdx).
Definition globalNum (t : WASMType) : wbody num_ty :=
  match t with
  | I32 | F32 => ret (NI TI32)
  | I64 | F64 => ret (NI TI64)
  | _ => undef
  end.

Definition opGetGlobal : wbody unit :=
  g <- globalVar;; T <- globalNum (gType g);; v <- readGlobal T (gOffset g);; valuePush T v.
Definition opSetGlobal : wbody unit :=
  g <- globalVar;; T <- globalNum (gType g);; v <- valuePop T;; writeGlobal T (gOffset g) v.
Definition opGetGlobal64 : wbody unit :=
  g <- globalVar;; v <- readGlobal (NI TI64) (gOffset g);; valuePush (NI TI64) v.
Definition opSetGlobal64 : wbody unit :=
  g <- globalVar;; v <- valuePop (NI TI64);; writeGlobal (NI TI64) (gOffset g) v.

(** ** Memory *)

Definition PageSize : Z := 65536.

(** [Instance::growLinearMemory] of the memory 0 *)
Definition growLinearMemory (GrowPagesDelta : Z) (m : MemoryInstance) : bool * MemoryInstance :=
  if GrowPagesDelta =? 0 then (true, m)
  else
    let NewMemPages := u32 (CurPages m + GrowPagesDelta) in
    if (NewMemPages <? CurPages m) || (mMaxPages m <? NewMemPages) then (false, m)
    else
      let NewMemSize := NewMemPages * PageSize in
      if 2 ^ 32 - 1 <=? NewMemSize then (false, m)
      else if negb (enlarge m NewMemSize) then (false, m)
      else (true, mkMI NewMemPages (mMaxPages m) NewMemSize (MemData m)).

Definition memory : wbody MemoryInstance := i <- gets Inst;; of_option (iMemory i).

Definition opMemoryGrow : wbody unit :=
  readLEB_ TU32;;;
  Memory <- memory;;
  GrowPageCount <- valuePop (NI TU32);;
  let '(ok, Memory') := growLinearMemory GrowPageCount Memory in
  modify (fun s => set_Inst (set_iMemory Memory' (Inst s)) s);;;
  (if ok then valuePush (NI TU32) (CurPages Memory) else valuePush (NI TI32) (-1));;;
  modify (set_LinearMemSize (MemSize Memory')).

Definition opMemorySize : wbody unit :=
  readLEB_ TU32;;; Memory <- memory;; valuePush (NI TU32) (CurPages Memory).

(** The bytes of the memory. *)
Definition memBytes (m : MemoryInstance) (a : Z) (n : nat) : list Z :=
  map (fun i => default 0 (MemData m !! (a + Z.of_nat i))) (seq 0 n).
Fixpoint memStore (a : Z) (l : list Z) (d : gmap Z Z) : gmap Z Z :=
  match l with [] => d | b :: l => memStore (a + 1) l (<[a := b]> d) end.

(** [SrcType], [sizeof(DestType)] *)
Definition storeOp (Src : num_ty) (DestSize : Z) : wbody unit :=
  readLEB_ TU32;;;
  Offset <- readLEB_ TU32;;
  Val <- valuePop Src;;
  Addr <- valuePop (NI TU32);;
  s <- gets id;;
  if LinearMemSize s <? u64 (Offset + DestSize + Addr) then throw OutOfBoundsMemory
  else
    Memory <- memory;;
    if Offset + Addr + DestSize <=? MemSize Memory then
      modify (set_Inst (set_iMemory (mkMI (CurPages Memory) (mMaxPages Memory) (MemSize Memory)
        (memStore (Offset + Addr) (le_bytes (Z.to_nat DestSize) (wrap (DestSize * 8) Val)) (MemData Memory))) (Inst s)))
    else undef.

(** [DestType]; the size of [SrcType] and whether it is signed *)
Definition loadOp (Dest : num_ty) (SrcSize : Z) (SrcSigned : bool) : wbody unit :=
  readLEB_ TU32;;;
  Offset <- readLEB_ TU32;;
  Addr <- valuePop (NI TU32);;
  s <- gets id;;
  if LinearMemSize s <? u64 (Offset + SrcSize + Addr) then throw OutOfBoundsMemory
  else
    Memory <- memory;;
    if Offset + Addr + SrcSize <=? MemSize Memory then
      let b := le_value (memBytes Memory (Offset + Addr) (Z.to_nat SrcSize)) in
      valuePush Dest (if SrcSigned then swrap (SrcSize * 8) b else wrap (SrcSize * 8) b)
    else undef.

(** ** Numeric instructions *)

Definition selectOp (T : num_ty) : wbody unit :=
  Cond <- valuePop (NI TU32);;
  V1 <- valuePop T;;
  V2 <- valuePop T;;
  if negb (Cond =? 0) then valuePush T V2 else valuePush T V1.

(** A result or an exception. *)
Definition value_of (r : option (Trap + Z)) : wbody Z :=
  match r with Some (inr v) => ret v | Some (inl e) => throw e | None => undef end.

Definition binaryOp (T : num_ty) (Op : BinaryOperator) : wbody unit :=
  RHS <- valuePop T;;
  LHS <- valuePop T;;
  Ret_ <- value_of (BinaryOpHelper T Op LHS RHS);;
  valuePush (ret_type T Op) Ret_.

Definition mathOp (F : float_ty) (Op : BinaryOperator) : wbody unit :=
  Val <- valuePop (NF F);; r <- of_option (binaryOpMath F Op Val);; valuePush (NF F) r.

Definition countOp (T : int_ty) (Op : BinaryOperator) : wbody unit :=
  Val <- valuePop (NI T);; r <- of_option (binaryOpCount T Op Val);; valuePush (NI T) r.

Definition binaryOpNEZ (T : int_ty) : wbody unit :=
  Val <- valuePop (NI T);; valuePush (NI TI32) (b2z (Val =? 0)).

(** [DstType], the width of [SrcType] *)
Definition binaryOpCV (Dst : int_ty) (SrcBits : Z) : wbody unit :=
  Val <- valuePop (NI Dst);; valuePush (NI Dst) (swrap SrcBits Val).

Definition truncateOp (T : int_ty) (F : float_ty) (IsSigned : bool) : wbody unit :=
  Src <- valuePop (NF F);; v <- value_of (Some (truncate T F IsSigned Src));; valuePush (NI T) v.

Definition convertOp (Target Src : num_ty) : wbody unit :=
  v <- valuePop Src;; valuePush Target (convert Target Src v).

Definition opWrap : wbody unit :=
  v <- valuePop (NI TI64);; valuePush (NI TI32) (Z.land v 0xFFFFFFFF).

Definition constOp (T : int_ty) : wbody unit := v <- readLEB_ T;; valuePush (NI T) v.
Definition floatConst (F : float_ty) : wbody unit :=
  v <- readFixed (Z.to_nat (fwidth F / 8));; valuePush (NF F) v.

Definition i32_ : num_ty := NI TI32.
Definition u32_ : num_ty := NI TU32.
Definition i64_ : num_ty := NI TI64.
Definition u64_ : num_ty := NI TU64.
Definition f32_ : num_ty := NF F_32.
Definition f64_ : num_ty := NF F_64.

(** The instances of the templates above. *)
Inductive numOp : Type :=
| ILoad (Dest : num_ty) (SrcSize : Z) (SrcSigned : bool) | IStore (Src : num_ty) (DestSize : Z)
| IConst (T : int_ty) | IFloatConst (F : float_ty)
| INEZ (T : int_ty) | IBinary (T : num_ty) (Op : BinaryOperator) | ICount (T : int_ty) (Op : BinaryOperator)
| IMath (F : float_ty) (Op : BinaryOperator) | ICV (Dst : int_ty) (SrcBits : Z)
| ITruncate (T : int_ty) (F : float_ty) (IsSigned : bool) | IConvert (Target Src : num_ty)
| IWrap | IReinterpret.

Definition runNum (n : numOp) : wbody unit :=
  match n with
  | ILoad Dest SrcSize SrcSigned => loadOp Dest SrcSize SrcSigned
  | IStore Src DestSize => storeOp Src DestSize
  | IConst T => constOp T
  | IFloatConst F => floatConst F
  | INEZ T => binaryOpNEZ T
  | IBinary T Op => binaryOp T Op
  | ICount T Op => countOp T Op
  | IMath F Op => mathOp F Op
  | ICV Dst SrcBits => binaryOpCV Dst SrcBits
  | ITruncate T F IsSigned => truncateOp T F IsSigned
  | IConvert Target Src => convertOp Target Src
  | IWrap => opWrap
  | IReinterpret => ret tt
  end.

(** The cases of the switch without control flow, by the template they
    instantiate, in the order of the source. *)

(** Constants. *)
Definition constCase (Opcode : Z) : option numOp :=
  match Opcode with
  | 0x41 => Some (IConst TI32) | 0x42 => Some (IConst TI64) | 0x43 => Some (IFloatConst F_32)
  | 0x44 => Some (IFloatConst F_64)
  | _ => None
  end.

(** Accesses to the memory. *)
Definition memoryCase (Opcode : Z) : option numOp :=
  match Opcode with
  | 0x28 | 0x2a => Some (ILoad u32_ 4 false) | 0x29 | 0x2b => Some (ILoad u64_ 8 false)
  | 0x2c => Some (ILoad u32_ 1 true) | 0x2d => Some (ILoad u32_ 1 false) | 0x2e => Some (ILoad u32_ 2 true)
  | 0x2f => Some (ILoad u32_ 2 false) | 0x30 => Some (ILoad u64_ 1 true) | 0x31 => Some (ILoad u64_ 1 false)
  | 0x32 => Some (ILoad u64_ 2 true) | 0x33 => Some (ILoad u64_ 2 false) | 0x34 => Some (ILoad u64_ 4 true)
  | 0x35 => Some (ILoad u64_ 4 false) | 0x36 | 0x38 => Some (IStore u32_ 4) | 0x37 | 0x39 => Some (IStore u64_ 8)
  | 0x3a => Some (IStore u32_ 1) | 0x3b => Some (IStore u32_ 2) | 0x3c => Some (IStore u64_ 1)
  | 0x3d => Some (IStore u64_ 2) | 0x3e => Some (IStore u64_ 4)
  | _ => None
  end.

(** Comparisons, and the negation of floating-point numbers. *)
Definition compareCase (Opcode : Z) : option numOp :=
  match Opcode with
  | 0x45 => Some (INEZ TI32) | 0x46 => Some (IBinary i32_ BO_EQ) | 0x47 => Some (IBinary i32_ BO_NE)
  | 0x48 => Some (IBinary i32_ BO_LT) | 0x49 => Some (IBinary u32_ BO_LT) | 0x4a => Some (IBinary i32_ BO_GT)
  | 0x4b => Some (IBinary u32_ BO_GT) | 0x4c => Some (IBinary i32_ BO_LE) | 0x4d => Some (IBinary u32_ BO_LE)
  | 0x4e => Some (IBinary i32_ BO_GE) | 0x4f => Some (IBinary u32_ BO_GE) | 0x50 => Some (INEZ TI64)
  | 0x51 => Some (IBinary i64_ BO_EQ) | 0x52 => Some (IBinary i64_ BO_NE) | 0x53 => Some (IBinary i64_ BO_LT)
  | 0x54 => Some (IBinary u64_ BO_LT) | 0x55 => Some (IBinary i64_ BO_GT) | 0x56 => Some (IBinary u64_ BO_GT)
  | 0x57 => Some (IBinary i64_ BO_LE) | 0x58 => Some (IBinary u64_ BO_LE) | 0x59 => Some (IBinary i64_ BO_GE)
  | 0x5a => Some (IBinary u64_ BO_GE) | 0x5b => Some (IBinary f32_ BO_EQ) | 0x5c => Some (IBinary f32_ BO_NE)
  | 0x5d => Some (IBinary f32_ BO_LT) | 0x5e => Some (IBinary f32_ BO_GT) | 0x5f => Some (IBinary f32_ BO_LE)
  | 0x60 => Some (IBinary f32_ BO_GE) | 0x61 => Some (IBinary f64_ BO_EQ) | 0x62 => Some (IBinary f64_ BO_NE)
  | 0x63 => Some (IBinary f64_ BO_LT) | 0x64 => Some (IBinary f64_ BO_GT) | 0x65 => Some (IBinary f64_ BO_LE)
  | 0x66 => Some (IBinary f64_ BO_GE) | 0x8c => Some (IMath F_32 BM_NEG_F32) | 0x9a => Some (IMath F_64 BM_NEG_F64)
  | _ => None
  end.

(** Arithmetic on integers. *)
Definition integerCase (Opcode : Z) : option numOp :=
  match Opcode with
  | 0x67 => Some (ICount TU32 BC_CLZ) | 0x68 => Some (ICount TU32 BC_CTZ)
  | 0x69 => Some (ICount TU32 BC_POP_COUNT_I32) | 0x6a => Some (IBinary i32_ BO_ADD)
  | 0x6b => Some (IBinary i32_ BO_SUB) | 0x6c => Some (IBinary i32_ BO_MUL) | 0x6d => Some (IBinary i32_ BO_DIV_S)
  | 0x6e => Some (IBinary u32_ BO_DIV) | 0x6f => Some (IBinary i32_ BO_REM_S) | 0x70 => Some (IBinary u32_ BO_REM_U)
  | 0x71 => Some (IBinary i32_ BO_AND) | 0x72 => Some (IBinary i32_ BO_OR) | 0x73 => Some (IBinary i32_ BO_XOR)
  | 0x74 => Some (IBinary i32_ BO_SHL) | 0x75 => Some (IBinary i32_ BO_SHR) | 0x76 => Some (IBinary u32_ BO_SHR)
  | 0x77 => Some (IBinary u32_ BO_ROTL) | 0x78 => Some (IBinary u32_ BO_ROTR) | 0x79 => Some (ICount TU64 BC_CLZ)
  | 0x7a => Some (ICount TU64 BC_CTZ) | 0x7b => Some (ICount TU64 BC_POP_COUNT_I64)
  | 0x7c => Some (IBinary i64_ BO_ADD) | 0x7d => Some (IBinary i64_ BO_SUB) | 0x7e => Some (IBinary i64_ BO_MUL)
  | 0x7f => Some (IBinary i64_ BO_DIV_S) | 0x80 => Some (IBinary u64_ BO_DIV) | 0x81 => Some (IBinary i64_ BO_REM_S)
  | 0x82 => Some (IBinary u64_ BO_REM_U) | 0x83 => Some (IBinary i64_ BO_AND)
  | _ => None
  end.

(** Arithmetic on floating-point numbers. *)
Definition floatCase (Opcode : Z) : option numOp :=
  match Opcode with
  | 0x8b => Some (IMath F_32 BM_ABS) | 0x8d => Some (IMath F_32 BM_CEIL) | 0x8e => Some (IMath F_32 BM_FLOOR)
  | 0x8f => Some (IMath F_32 BM_TRUNC) | 0x90 => Some (IMath F_32 BM_NEAREST) | 0x91 => Some (IMath F_32 BM_SQRT)
  | 0x92 => Some (IBinary f32_ BO_ADD) | 0x93 => Some (IBinary f32_ BO_SUB) | 0x94 => Some (IBinary f32_ BO_MUL)
  | 0x95 => Some (IBinary f32_ BO_DIV) | 0x96 => Some (IBinary f32_ BO_MIN) | 0x97 => Some (IBinary f32_ BO_MAX)
  | 0x98 => Some (IBinary f32_ BO_COPYSIGN) | 0x99 => Some (IMath F_64 BM_ABS) | 0x9b => Some (IMath F_64 BM_CEIL)
  | 0x9c => Some (IMath F_64 BM_FLOOR) | 0x9d => Some (IMath F_64 BM_TRUNC) | 0x9e => Some (IMath F_64 BM_NEAREST)
  | 0x9f => Some (IMath F_64 BM_SQRT) | 0xa0 => Some (IBinary f64_ BO_ADD) | 0xa1 => Some (IBinary f64_ BO_SUB)
  | 0xa2 => Some (IBinary f64_ BO_MUL) | 0xa3 => Some (IBinary f64_ BO_DIV) | 0xa4 => Some (IBinary f64_ BO_MIN)
  | 0xa5 => Some (IBinary f64_ BO_MAX) | 0xa6 => Some (IBinary f64_ BO_COPYSIGN)
  | _ => None
  end.

(** Conversions. *)
Definition convertCase (Opcode : Z) : option numOp :=
  match Opcode with
  | 0xa7 => Some IWrap | 0xa8 => Some (ITruncate TI32 F_32 true) | 0xa9 => Some (ITruncate TI32 F_32 false)
  | 0xaa => Some (ITruncate TI32 F_64 true) | 0xab => Some (ITruncate TI32 F_64 false)
  | 0xac => Some (IConvert i64_ i32_) | 0xad => Some (IConvert i64_ u32_) | 0xae => Some (ITruncate TI64 F_32 true)
  | 0xaf => Some (ITruncate TI64 F_32 false) | 0xb0 => Some (ITruncate TI64 F_64 true)
  | 0xb1 => Some (ITruncate TI64 F_64 false) | 0xb2 => Some (IConvert f32_ i32_) | 0xb3 => Some (IConvert f32_ u32_)
  | 0xb4 => Some (IConvert f32_ i64_) | 0xb5 => Some (IConvert f32_ u64_) | 0xb6 => Some (IConvert f32_ f64_)
  | 0xb7 => Some (IConvert f64_ i32_) | 0xb8 => Some (IConvert f64_ u32_) | 0xb9 => Some (IConvert f64_ i64_)
  | 0xba => Some (IConvert f64_ u64_) | 0xbb => Some (IConvert f64_ f32_)
  | 0xbc | 0xbd | 0xbe | 0xbf => Some IReinterpret | 0xc0 => Some (ICV TI32 8) | 0xc1 => Some (ICV TI32 16)
  | 0xc2 => Some (ICV TI64 8) | 0xc3 => Some (ICV TI64 16) | 0xc4 => Some (ICV TI64 32)
  | _ => None
  end.

(** The other operators on 64-bit integers. *)
Definition bitsCase (Opcode : Z) : option numOp :=
  match Opcode with
  | 0x84 => Some (IBinary i64_ BO_OR) | 0x85 => Some (IBinary i64_ BO_XOR) | 0x86 => Some (IBinary i64_ BO_SHL)
  | 0x87 => Some (IBinary i64_ BO_SHR) | 0x88 => Some (IBinary u64_ BO_SHR) | 0x89 => Some (IBinary u64_ BO_ROTL)
  | 0x8a => Some (IBinary u64_ BO_ROTR)
  | _ => None
  end.

Definition numericCase (Opcode : Z) : option numOp :=
  let orElse (o o' : option numOp) := match o with Some n => Some n | None => o' end in
  orElse (constCase Opcode) (orElse (memoryCase Opcode) (orElse (compareCase Opcode) (orElse (integerCase Opcode)
    (orElse (floatCase Opcode) (orElse (convertCase Opcode) (bitsCase Opcode)))))).

(** ** [interpret] *)

Definition dispatch (Opcode : Z) : wbody unit :=
  if Opcode =? 0x00 then throw Unreachable_
  else if Opcode =? 0x01 then ret tt
  else if Opcode =? 0x02 then opBlock
  else if Opcode =? 0x03 then opLoop
  else if Opcode =? 0x04 then opIf
  else if Opcode =? 0x05 then opElse
  else if Opcode =? 0x0b then opEnd
  else if Opcode =? 0x0c then opBr
  else if Opcode =? 0x0d then opBrIf
  else if Opcode =? 0x0e then opBrTable
  else if Opcode =? 0x0f then opReturn
  else if Opcode =? 0x10 then opCall
  else if Opcode =? 0x11 then opCallIndirect
  else if Opcode =? 0x1a then valuePop (NI TI32);;; ret tt
  else if Opcode =? 0xc5 then valuePop (NI TI64);;; ret tt
  else if Opcode =? 0x1b then selectOp (NI TI32)
  else if Opcode =? 0xc6 then selectOp (NI TI64)
  else if Opcode =? 0x20 then opGetLocal
  else if Opcode =? 0x21 then opSetLocal
  else if Opcode =? 0x22 then opTeeLocal
  else if Opcode =? 0x23 then opGetGlobal
  else if Opcode =? 0x24 then opSetGlobal
  else if Opcode =? 0x1d then opGetGlobal64
  else if Opcode =? 0x1e then opSetGlobal64
  else if Opcode =? 0x3f then opMemorySize
  else if Opcode =? 0x40 then opMemoryGrow
  else match numericCase Opcode with Some n => runNum n | None => undef end.

(** One turn of [while (Ip < IpEnd)] *)
Definition wstep : wbody unit := Opcode <- fetch;; dispatch Opcode.

(** [None]: the turns are used up. *)
Fixpoint interpLoop (fuel : nat) (s : WState) : option (out Trap WState unit) :=
  if (Ip s <? IpEnd s)%nat then
    match fuel with
    | O => None
    | S fuel =>
        match wstep s with
        | Ret _ s' => interpLoop fuel s'
        | o => Some o
        end
    end
  else Some (Ret tt s).

(** The variables of [interpret], from the current frame. *)
Definition startInterpret : wbody FunctionInstance :=
  Frame <- curFrame;;
  enterFrame (frFuncInst Frame);;;
  modify (fun s => set_LinearMemSize (match iMemory (Inst s) with Some m => MemSize m | None => 0 end) s);;;
  getFunctionInst (frFuncInst Frame).

(** The block of a host function is written above its frame and not read. *)
Definition interpret (fuel : nat) (s : WState) : option (out Trap WState unit) :=
  match startInterpret s with
  | Ret Fn s =>
      match fKind Fn with
      | Native => Some (callNative Fn s)
      | ByteCode =>
          match pushFunctionBlock Fn s with
          | Ret _ s => interpLoop fuel s
          | o => Some o
          end
      end
  | Exit s => Some (Exit s)
  | Throw e s => Some (Throw e s)
  | Undef => Some Undef
  end.

(** ** [Runtime::callWasmFunctionInInterpMode] *)

Definition PresetReservedStackSize : Z := 4 * 1024 * 1024.

(** [InterpStack::newInterpStack]; the area holds whatever it held. *)
Definition newInterpStack (c : gmap Z Z) (i : Instance_) : WState :=
  mkW c 0 (PresetReservedStackSize / 4) [] 0 0 0 [] 0 0 0 ∅ i.

(** [InterpStack::push] *)
Definition stackPush (T : num_ty) (V : Z) : wbody unit :=
  s <- gets id;;
  zen_assert (Top s + cellsOf T <=? TopBoundary s);;;
  modify (set_Cells (writeCells T (Top s) V (Cells s)));;;
  modify (set_Frames (Top s + cellsOf T) (Frames s)).

Fixpoint pushArgs (l : list (WASMType * Z)) : wbody unit :=
  match l with
  | [] => ret tt
  | (t, v) :: l => T <- of_option (num_of t);; stackPush T v;;; pushArgs l
  end.

(** The results are read from the bottom of the stack. *)
Fixpoint readResults (ts : list WASMType) (a : Z) (s : WState) : option (list Z) :=
  match ts with
  | [] => Some []
  | t :: ts => T ← num_of t; vs ← readResults ts (a + cellsOf T) s; Some (readCells T s a :: vs)
  end.

(** The results or the error of the call, with the instance it leaves. *)
Definition callWasmFunctionInInterpMode (fuel : nat) (c : gmap Z Z) (FuncIdx : nat) (Args : list (WASMType * Z))
    (i : Instance_) : option (out Trap Instance_ (list Z)) :=
  match (pushArgs Args;;; ok <- allocFrame FuncIdx 0;; zen_assert ok;;; getFunctionInst FuncIdx) (newInterpStack c i) with
  | Ret Fn s =>
      match interpret fuel s with
      | Some (Ret _ s' | Exit s') =>
          Some (match readResults (ReturnTypes (fType Fn)) 0 s' with
                | Some vs => Ret vs (Inst s')
                | None => Undef
                end)
      | Some (Throw e s') => Some (Throw e (Inst s'))
      | Some Undef => Some Undef
      | None => None
      end
  | _ => Some Undef
  end.

(** [Runtime::callWasmFunction], up to the call: the arguments fit the
    parameters. *)
Definition argsFit (Fn : FunctionInstance) (Args : list (WASMType * Z)) : bool :=
  bool_decide (length Args = length (ParamTypes (fType Fn))) && bool_decide (map fst Args = ParamTypes (fType Fn)).
End Interp.
