(* ===== verification/WasmTyped.v ===== *)
(** The encoding of WebAssembly instructions, as a relation, and, below, typed
    bodies: what the decoder
    of [WasmValid] accepts, the readers of the interpreter ([WasmInterp]) find
    at the same place. *)

From stdpp Require Import gmap.
From S2P Require Import Prelude Intx Leb128 Leb128Correct FunctionLoader WasmValid WasmNum WasmInterp.

#[local] Open Scope Z_scope.

(** ** Numbers *)

(** The bytes [g] are the number [x] of type [T], whatever follows. *)
Record leb_of (T : int_ty) (x : Z) (g : list Z) : Prop := {
  lo_closed : closed g;
  lo_bytes : Forall is_byte g;
  lo_length : (0 < length g <= Z.to_nat (MaxBytes T))%nat;
  lo_spec r : leb_spec T (g ++ r) = inr (x, r);
}.

Lemma closed_bytes g : closed g -> Forall is_byte g.
Proof. induction 1; constructor; unfold in_u; try lia; done. Qed.

Lemma split_app g r n : closed g -> (length g <= n)%nat -> exists r', leb_split (take n (g ++ r)) = Some (g, r').
Proof.
  intros Hg. revert n. induction Hg as [b Hb|b g Hb Hg IH]; intros n Hn;
    (destruct n as [|n]; [cbn in Hn; lia|]); cbn [app take leb_split].
  - rewrite (proj2 (Z.ltb_lt _ _)) by lia. eauto.
  - rewrite (proj2 (Z.ltb_ge _ _)) by lia. destruct (IH n) as [r' ->]; [cbn in Hn; lia|]. cbn. eauto.
Qed.

Lemma leb_spec_of T bs x r :
  Forall is_byte bs -> leb_spec T bs = inr (x, r) -> exists g, bs = g ++ r /\ leb_of T x g.
Proof.
  intros Hb. unfold leb_spec. destruct (leb_split _) as [[g r']|] eqn:Es; [|done].
  destruct (split_groups _ _ _ _ Hb Es) as (Hg & HL & Eb). cbn zeta. destruct (_ || _) eqn:Ec; [|done].
  intros [= <- <-]. exists g. split; [done|]. split; [done|by apply closed_bytes|done|].
  intros r. unfold leb_spec. destruct (split_app g r (Z.to_nat (MaxBytes T)) Hg ltac:(lia)) as [r'' ->].
  cbn zeta. rewrite Ec. by rewrite drop_app_length.
Qed.

Section Readers.
Context (wide_shift : Z -> Z -> Z).

Lemma leb_of_read T x g r :
  T <> TU8 -> leb_of T x g -> Forall is_byte r -> readSafeLEBNumber wide_shift T (g ++ r) = Some (x, r).
Proof.
  intros HT [_ Hb _ Hs] Hr. apply (spec_agrees wide_shift T (g ++ r) x r); [done|by apply Forall_app_2|done].
Qed.

Lemma leb_of_skip T x g r :
  T <> TU8 -> leb_of T x g -> Forall is_byte r -> r <> [] -> skipLEB T (g ++ r) = Some r.
Proof.
  intros HT [_ Hb _ Hs] Hr Hne. unfold skipLEB.
  destruct (spec_agrees wide_shift T (g ++ r) x r) as [_ ->]; [done|by apply Forall_app_2|done|].
  by rewrite bool_decide_false.
Qed.
End Readers.

(** The skipping of a number does not look at its type but for the number of
    bytes. *)
Lemma closed_skip T g r :
  closed g -> (length g <= Z.to_nat (MaxBytes T))%nat -> r <> [] -> skipLEB T (g ++ r) = Some r.
Proof.
  intros Hg Hl Hne. assert (0 <= MaxBytes T) by (rewrite MaxBytes_values; by destruct T).
  unfold skipLEB, skipLEBNumber. rewrite skipLoop_closed by (done || lia).
  rewrite (proj2 (Nat.ltb_lt _ _)) by lia. by destruct r.
Qed.

Lemma u32_imm_leb bs x r : Forall is_byte bs -> u32_imm bs = Some (x, r) -> exists g, bs = g ++ r /\ leb_of TU32 x g.
Proof.
  intros Hb. unfold u32_imm. destruct bs as [|b bs]; [done|]. destruct (leb_spec TU32 _) as [|[]] eqn:E; [done|].
  intros [= -> ->]. by apply leb_spec_of.
Qed.
Lemma skip_imm_of T bs r : Forall is_byte bs -> skip_imm T bs = Some r -> exists x g, bs = g ++ r /\ leb_of T x g.
Proof.
  intros Hb. unfold skip_imm. destruct bs as [|b bs]; [done|]. destruct (leb_spec T _) as [|[x r']] eqn:E; [done|].
  intros [= ->]. exists x. by apply leb_spec_of.
Qed.

Lemma leb_of_u32 x g : leb_of TU32 x g -> 0 <= x < 2 ^ 32.
Proof.
  intros [_ _ _ Hs]. specialize (Hs []). unfold leb_spec in Hs. destruct (leb_split _) as [[]|]; [|done].
  cbn zeta in Hs. destruct (_ || _); [|done]. injection Hs as <- _. by apply wrap_range.
Qed.

(** ** Instructions *)

(** Opcodes with a block type, and with an index. *)
Definition block_op (op : Z) : option (blocktype -> instr) :=
  if op =? 2 then Some Block else if op =? 3 then Some Loop else if op =? 4 then Some If else None.
Definition index_op (op : Z) : option (Z -> instr) :=
  if op =? 0x0c then Some Br else if op =? 0x0d then Some BrIf else if op =? 0x10 then Some Call
  else if op =? 0x20 then Some LocalGet else if op =? 0x21 then Some LocalSet else if op =? 0x22 then Some LocalTee
  else if op =? 0x23 then Some GlobalGet else if op =? 0x24 then Some GlobalSet else None.

(** Opcodes without immediates. *)
Definition plain_op (op : Z) : option instr :=
  if op =? 0x00 then Some Unreachable else if op =? 0x01 then Some Nop
  else if op =? 0x05 then Some Else else if op =? 0x0b then Some End
  else if op =? 0x0f then Some Return else if op =? 0x1a then Some Drop else if op =? 0x1b then Some Select
  else if in_range 0x45 0xc4 op then (fun e => Numeric e.1 e.2) <$> numeric_table !! Z.to_nat (op - 0x45)
  else None.

(** [op] and the immediates are the instruction. *)
Inductive encodes : Z -> instr -> list Z -> Prop :=
| enc_plain op i : plain_op op = Some i -> encodes op i []
| enc_block op i b t : block_op op = Some i -> block_type [b] = Some (t, []) -> encodes op (i t) [b]
| enc_index op i x g : index_op op = Some i -> leb_of TU32 x g -> encodes op (i x) g
| enc_table n gn ls gs l gl :
    leb_of TU32 n gn -> Forall2 (leb_of TU32) ls gs -> n = Z.of_nat (length ls) -> leb_of TU32 l gl ->
    encodes 0x0e (BrTable ls l) (gn ++ concat gs ++ gl)
| enc_indirect t g : leb_of TU32 t g -> encodes 0x11 (CallIndirect t) (g ++ [0])
| enc_memory_size : encodes 0x3f MemorySize [0]
| enc_memory_grow : encodes 0x40 MemoryGrow [0]
| enc_i32 x g : leb_of TI32 x g -> encodes 0x41 (Const I32) g
| enc_i64 x g : leb_of TI64 x g -> encodes 0x42 (Const I64) g
| enc_f32 g : length g = 4%nat -> encodes 0x43 (Const F32) g
| enc_f64 g : length g = 8%nat -> encodes 0x44 (Const F64) g
| enc_load op e a ga o go :
    in_range 0x28 0x35 op = true -> load_table !! Z.to_nat (op - 0x28) = Some e ->
    leb_of TU32 a ga -> leb_of TU32 o go -> encodes op (Load e.1 a (Z.log2 e.2)) (ga ++ go)
| enc_store op e a ga o go :
    in_range 0x36 0x3e op = true -> store_table !! Z.to_nat (op - 0x36) = Some e ->
    leb_of TU32 a ga -> leb_of TU32 o go -> encodes op (Store e.1 a (Z.log2 e.2)) (ga ++ go).

Lemma block_type_byte bs t r : block_type bs = Some (t, r) -> exists b, bs = b :: r /\ block_type [b] = Some (t, []).
Proof.
  destruct bs as [|b bs]; [done|]. cbn [block_type]. destruct (b =? 0x40) eqn:E; cbn [mbind option_bind].
  - intros [= <- <-]. exists b. by rewrite E.
  - destruct (val_type b) eqn:Ev; [|done]. cbn. intros [= <- <-]. exists b. by rewrite E, Ev.
Qed.

Lemma zero_byte_of bs r : zero_byte bs = Some r -> bs = 0 :: r.
Proof. destruct bs as [|b bs]; [done|]. cbn. destruct (Z.eqb_spec b 0); [|done]. by intros [= ->]; subst. Qed.

Lemma skip_bytes_of n bs r : skip_bytes n bs = Some r -> exists g, bs = g ++ r /\ length g = n.
Proof.
  unfold skip_bytes. destruct (Nat.ltb_spec (length bs) n); [done|]. intros [= <-].
  exists (take n bs). split; [by rewrite take_drop|]. rewrite length_take. lia.
Qed.

Lemma labels_of fuel n bs ls r :
  Forall is_byte bs -> 0 <= n < 2 ^ 32 -> labels fuel n bs = Some (ls, r) ->
  exists gs, bs = concat gs ++ r /\ Forall2 (leb_of TU32) ls gs /\ n = Z.of_nat (length ls).
Proof.
  revert n bs ls. induction fuel as [|fuel IH]; intros n bs ls Hb Hn; cbn [labels];
    (destruct (Z.leb_spec n 0); [intros [= <- <-]; exists []; split_and!; [done|constructor|cbn; lia]|]); [done|].
  destruct (u32_imm bs) as [[l r1]|] eqn:E1; [|done]. cbn [mbind option_bind].
  destruct (u32_imm_leb _ _ _ Hb E1) as (g & -> & Hg). apply Forall_app in Hb as [_ Hb].
  destruct (labels fuel (n - 1) r1) as [[ls' r2]|] eqn:E2; [|done]. cbn [mbind option_bind]. intros [= <- <-].
  destruct (IH (n - 1) r1 ls' Hb ltac:(lia) E2) as (gs & -> & Hgs & Hn'). exists (g :: gs). split_and!.
  - cbn. by rewrite app_assoc.
  - by constructor.
  - cbn [length]. lia.
Qed.

Lemma memarg_of i e bs r j :
  Forall is_byte bs -> memarg i e bs = Some (j, r) ->
  exists a ga o go, bs = (ga ++ go) ++ r /\ leb_of TU32 a ga /\ leb_of TU32 o go /\ j = i e.1 a (Z.log2 e.2).
Proof.
  intros Hb. unfold memarg. destruct (u32_imm bs) as [[a r1]|] eqn:E1; [|done]. cbn [mbind option_bind].
  destruct (u32_imm_leb _ _ _ Hb E1) as (ga & -> & Ha). apply Forall_app in Hb as [_ Hb].
  destruct (skip_imm TU32 r1) as [r2|] eqn:E2; [|done]. cbn [mbind option_bind]. intros [= <- <-].
  destruct (skip_imm_of _ _ _ Hb E2) as (o & go & -> & Ho). exists a, ga, o, go. by rewrite <- app_assoc.
Qed.

(** Loads, stores and numeric instructions. *)
Definition decode_tables (op : Z) (bs : list Z) : option (instr * list Z) :=
  if in_range 0x28 0x35 op then e ← load_table !! Z.to_nat (op - 0x28); memarg Load e bs
  else if in_range 0x36 0x3e op then e ← store_table !! Z.to_nat (op - 0x36); memarg Store e bs
  else if in_range 0x45 0xc4 op
  then '(ins, out) ← numeric_table !! Z.to_nat (op - 0x45); Some (Numeric ins out, bs)
  else None.

Lemma decode_tables_of op bs i r :
  Forall is_byte bs -> decode_tables op bs = Some (i, r) -> exists imm, bs = imm ++ r /\ encodes op i imm.
Proof.
  intros Hb. unfold decode_tables. destruct (in_range 0x28 0x35 op) eqn:E1.
  { destruct (load_table !! _) as [e|] eqn:Ee; [|done]. cbn [mbind option_bind]. intros H.
    destruct (memarg_of _ _ _ _ _ Hb H) as (a & ga & o & go & -> & Ha & Ho & ->).
    eexists. split; [done|]. by eapply enc_load. }
  destruct (in_range 0x36 0x3e op) eqn:E2.
  { destruct (store_table !! _) as [e|] eqn:Ee; [|done]. cbn [mbind option_bind]. intros H.
    destruct (memarg_of _ _ _ _ _ Hb H) as (a & ga & o & go & -> & Ha & Ho & ->).
    eexists. split; [done|]. by eapply enc_store. }
  destruct (in_range 0x45 0xc4 op) eqn:E3; [|done]. destruct (numeric_table !! _) as [[ins o]|] eqn:Ee; [|done].
  cbn [mbind option_bind]. intros [= <- <-]. exists []. split; [done|]. constructor. unfold plain_op. rewrite E3, Ee.
  unfold in_range in E3. apply andb_true_iff in E3 as [E3%Z.leb_le _].
  repeat (rewrite (proj2 (Z.eqb_neq _ _)) by lia). done.
Qed.

(** One more opcode. *)
Ltac opcode op k := let H := fresh "Hop" in destruct (Z.eqb_spec op k) as [->|H].

Lemma decode_encodes op bs i r :
  Forall is_byte bs -> decode_op op bs = Some (i, r) -> exists imm, bs = imm ++ r /\ encodes op i imm.
Proof.
  intros Hb.
  assert (forall i', block_op op = Some i' -> with_block i' bs = Some (i, r) ->
    exists imm, bs = imm ++ r /\ encodes op i imm) as Hblock.
  { intros i' Hi'. unfold with_block. destruct (block_type bs) as [[t r']|] eqn:E; [|done]. cbn [mbind option_bind].
    intros [= <- <-]. destruct (block_type_byte _ _ _ E) as (b & -> & Hb'). exists [b]. split; [done|].
    by constructor. }
  assert (forall i', index_op op = Some i' -> with_u32 i' bs = Some (i, r) ->
    exists imm, bs = imm ++ r /\ encodes op i imm) as Hindex.
  { intros i' Hi'. unfold with_u32. destruct (u32_imm bs) as [[x r']|] eqn:E; [|done]. cbn [mbind option_bind].
    intros [= <- <-]. destruct (u32_imm_leb _ _ _ Hb E) as (g & -> & Hg). exists g. split; [done|]. by constructor. }
  assert (forall i', plain_op op = Some i' -> Some (i', bs) = Some (i, r) ->
    exists imm, bs = imm ++ r /\ encodes op i imm) as Hplain.
  { intros i' Hi' [= <- <-]. exists []. split; [done|]. by constructor. }
  opcode op 0x00; [by apply Hplain|]. opcode op 0x01; [by apply Hplain|].
  opcode op 0x02; [by apply Hblock|]. opcode op 0x03; [by apply Hblock|]. opcode op 0x04; [by apply Hblock|].
  opcode op 0x05; [by apply Hplain|]. opcode op 0x0b; [by apply Hplain|].
  opcode op 0x0c; [by apply Hindex|]. opcode op 0x0d; [by apply Hindex|].
  opcode op 0x0e; [clear Hblock Hindex Hplain; cbn [decode_op]|].
  { destruct (u32_imm bs) as [[n r1]|] eqn:E1; [|done]. cbn [mbind option_bind].
    destruct (u32_imm_leb _ _ _ Hb E1) as (gn & -> & Hn). apply Forall_app in Hb as [_ Hb].
    destruct (labels _ n r1) as [[ls r2]|] eqn:E2; [|done]. cbn [mbind option_bind].
    destruct (labels_of _ _ _ _ _ Hb (leb_of_u32 _ _ Hn) E2) as (gs & -> & Hgs & ->).
    apply Forall_app in Hb as [_ Hb]. destruct (u32_imm r2) as [[l r3]|] eqn:E3; [|done]. cbn [mbind option_bind].
    intros [= <- <-]. destruct (u32_imm_leb _ _ _ Hb E3) as (gl & -> & Hl).
    exists (gn ++ concat gs ++ gl). split; [by rewrite <- !app_assoc|]. by econstructor. }
  opcode op 0x0f; [by apply Hplain|]. opcode op 0x10; [by apply Hindex|].
  opcode op 0x11; [clear Hblock Hindex Hplain; cbn [decode_op]|].
  { destruct (u32_imm bs) as [[t r1]|] eqn:E1; [|done]. cbn [mbind option_bind].
    destruct (u32_imm_leb _ _ _ Hb E1) as (g & -> & Hg). destruct (zero_byte r1) as [r2|] eqn:E2; [|done].
    cbn [mbind option_bind]. intros [= <- <-]. apply zero_byte_of in E2 as ->. exists (g ++ [0]).
    split; [by rewrite <- app_assoc|]. by constructor. }
  opcode op 0x1a; [by apply Hplain|]. opcode op 0x1b; [by apply Hplain|].
  opcode op 0x20; [by apply Hindex|]. opcode op 0x21; [by apply Hindex|]. opcode op 0x22; [by apply Hindex|].
  opcode op 0x23; [by apply Hindex|]. opcode op 0x24; [by apply Hindex|]. clear Hblock Hindex Hplain.
  opcode op 0x3f; [|opcode op 0x40; [|opcode op 0x41; [|opcode op 0x42; [|opcode op 0x43; [|opcode op 0x44]]]]];
    [cbn [decode_op].. |].
  1, 2: destruct (zero_byte bs) as [r1|] eqn:E; [|done]; cbn [mbind option_bind]; intros [= <- <-];
    apply zero_byte_of in E as ->; exists [0]; split; [done|constructor].
  1, 2: destruct (skip_imm _ bs) as [r1|] eqn:E; [|done]; cbn [mbind option_bind]; intros [= <- <-];
    destruct (skip_imm_of _ _ _ Hb E) as (x & g & -> & Hg); exists g; split; [done|by econstructor].
  1, 2: destruct (skip_bytes _ bs) as [r1|] eqn:E; [|done]; cbn [mbind option_bind]; intros [= <- <-];
    destruct (skip_bytes_of _ _ _ E) as (g & -> & Hg); exists g; split; [done|by constructor].
  intros H. apply decode_tables_of; [done|]. rewrite <- H. unfold decode_op, decode_tables.
  repeat case_match; done.
Qed.

(** Typed bodies: the instructions of a valid body with the states of the
    validation machine ([WasmValid]) before them, and the structure of the
    blocks in it. *)

#[local] Open Scope Z_scope.

#[export] Instance instr_eq_dec : EqDecision instr.
Proof. solve_decision. Defined.

(** ** Steps of the machine *)

(** The [n] operands pushed first. *)
Definition low {A} (n : nat) (l : list A) : list A := drop (length l - n) l.
Arguments low : simpl never.

Lemma low_app {A} n (l k : list A) : (n <= length k)%nat -> low n (l ++ k) = low n k.
Proof. intros. unfold low. rewrite length_app, drop_app_ge by lia. f_equal. lia. Qed.
Lemma low_all {A} (l : list A) : low (length l) l = l.
Proof. unfold low. by rewrite Nat.sub_diag. Qed.
Lemma low_cons {A} n x (l : list A) : (n <= length l)%nat -> low n (x :: l) = low n l.
Proof. apply (low_app n [x] l). Qed.
Lemma length_low {A} n (l : list A) : (n <= length l)%nat -> length (low n l) = n.
Proof. intros. unfold low. rewrite length_drop. lia. Qed.
Lemma low_low {A} n m (l : list A) : (m <= n <= length l)%nat -> low m (low n l) = low m l.
Proof. intros. unfold low. rewrite drop_drop, length_drop. f_equal. lia. Qed.
Lemma low_exact {A} n (l : list A) : length l = n -> low n l = l.
Proof. intros <-. apply low_all. Qed.

(** The heights of the control frames. *)
Fixpoint heights_ok (cs : list ctrl) (n : nat) : Prop :=
  match cs with [] => True | c :: cs => (c_height c <= n)%nat /\ heights_ok cs (c_height c) end.

Record wfv (v : vstate) : Prop := {
  wv_heights : heights_ok (ctrls v) (length (opds v));
  wv_if : Forall (fun c => c_if c = true -> c_label c = c_end c) (ctrls v);
}.

(** Only operands of the innermost frame change. *)
Record keeps (v v' : vstate) : Prop := {
  k_ctrls : ctrls v' = ctrls v;
  k_low : match ctrls v with
          | [] => True
          | c :: _ => (c_height c <= length (opds v'))%nat /\ low (c_height c) (opds v') = low (c_height c) (opds v)
          end;
}.

Lemma keeps_trans v1 v2 v3 : keeps v1 v2 -> keeps v2 v3 -> keeps v1 v3.
Proof.
  intros [E1 H1] [E2 H2]. split; [congruence|]. rewrite E1 in H2. destruct (ctrls v1); [done|].
  destruct H1, H2. split; [done|congruence].
Qed.
Lemma keeps_refl v : wfv v -> keeps v v.
Proof. intros [Hh _]. split; [done|]. destruct (ctrls v); [done|]. by destruct Hh. Qed.
Lemma keeps_wf v v' : wfv v -> keeps v v' -> wfv v'.
Proof.
  intros [Hh Hi] [E H]. split; rewrite E; [|done]. destruct (ctrls v); [done|]. destruct H, Hh. by split.
Qed.

Lemma keeps_push t v : wfv v -> keeps v (push_opd t v).
Proof.
  intros [Hh _]. split; [done|]. destruct (ctrls v) as [|c cs]; [done|]. destruct Hh. cbn.
  split; [lia|]. by apply low_cons.
Qed.
Lemma keeps_pop v t v' : wfv v -> pop_opd v = Some (t, v') -> keeps v v'.
Proof.
  intros Hw. pose proof Hw as [Hh _]. unfold pop_opd. destruct (ctrls v) as [|c cs] eqn:Ec; [done|].
  cbn [head mbind option_bind]. destruct (Nat.eqb_spec (length (opds v)) (c_height c)).
  - destruct (c_unreachable c); [|done]. intros [= <- <-]. by apply keeps_refl.
  - destruct (opds v) as [|a l] eqn:Eo; [done|]. intros [= <- <-]. destruct Hh as [Hh _]. split; [done|].
    rewrite Ec. cbn [opds ctrls length] in *. rewrite Eo, low_cons by lia. split; [lia|done].
Qed.
Lemma keeps_expect t v v' : wfv v -> pop_expect t v = Some v' -> keeps v v'.
Proof.
  intros Hw. unfold pop_expect. destruct (pop_opd v) as [[a v1]|] eqn:E; [|done]. cbn [mbind option_bind].
  pose proof (keeps_pop _ _ _ Hw E) as H. destruct a; [case_bool_decide; [|done]|]; by intros [= <-].
Qed.

Lemma foldl_none {A B} (f : A -> B -> option B) l : foldl (fun o t => o ≫= f t) None l = None.
Proof. induction l; done. Qed.

Lemma keeps_opds ts v v' : wfv v -> pop_opds ts v = Some v' -> keeps v v'.
Proof.
  unfold pop_opds. intros Hw. generalize (reverse ts) as l. intros l. revert v Hw.
  induction l as [|t l IH]; intros v Hw; cbn [foldl].
  - intros [= <-]. by apply keeps_refl.
  - cbn [mbind option_bind]. destruct (pop_expect t v) as [v1|] eqn:E; [|by rewrite foldl_none].
    intros H. pose proof (keeps_expect _ _ _ Hw E) as H1. eapply keeps_trans; [done|].
    apply IH; [by eapply keeps_wf|done].
Qed.
Lemma push_opds_eq ts v : push_opds ts v = mkV (reverse (map Some ts) ++ opds v) (ctrls v).
Proof.
  unfold push_opds. revert v. induction ts as [|t ts IH]; intros v; cbn [foldl map]; [by destruct v|].
  rewrite IH, reverse_cons. cbn. by rewrite <- app_assoc.
Qed.
Lemma keeps_pushes ts v : wfv v -> keeps v (push_opds ts v).
Proof.
  intros [Hh _]. rewrite push_opds_eq. split; [done|]. destruct (ctrls v) as [|c cs]; [done|]. destruct Hh.
  cbn. rewrite length_app, low_app by lia. split; [lia|done].
Qed.

(** ** What an instruction does to the frames *)

Inductive opens : instr -> Prop :=
| opens_block t : opens (Block t)
| opens_loop t : opens (Loop t)
| opens_if t : opens (If t).

Definition is_open (i : instr) : bool := match i with Block _ | Loop _ | If _ => true | _ => false end.

Definition mark (c c' : ctrl) : Prop :=
  c' = c \/ c' = mkCtrl (c_if c) (c_label c) (c_end c) (c_height c) true.

Section Body.
Context (M : Module_) (F : TypeEntry) (Locals : list WASMType).

Lemma pop_ctrl_eq v c v' :
  wfv v -> pop_ctrl v = Some (c, v') ->
  exists cs, ctrls v = c :: cs /\ v' = mkV (low (c_height c) (opds v)) cs /\ (c_height c <= length (opds v))%nat.
Proof.
  intros Hw. unfold pop_ctrl. pose proof Hw as [Hh _].
  destruct (ctrls v) as [|c0 cs] eqn:Ec; [done|]. cbn [head mbind option_bind].
  destruct (pop_opds _ v) as [v1|] eqn:Ep; [|done]. cbn [mbind option_bind].
  destruct (keeps_opds _ _ _ Hw Ep) as [E1 H1]. rewrite Ec in *. destruct H1 as [H1 H2].
  destruct (Nat.eqb_spec (length (opds v1)) (c_height c0)); [|done]. intros [= <- <-]. exists cs.
  split_and!; [done|rewrite E1; cbn; f_equal; by rewrite <- H2, low_exact|]. by destruct Hh.
Qed.

Lemma step_end v v' :
  wfv v -> step_instr M F Locals End v = Some v' ->
  exists c, ctrls v = c :: ctrls v' /\ opds v' = reverse (map Some (c_end c)) ++ low (c_height c) (opds v) /\
    (c_if c = true -> c_end c = []) /\ (c_height c <= length (opds v))%nat.
Proof.
  intros Hw. cbn [step_instr]. destruct (pop_ctrl v) as [[c v1]|] eqn:E; [|done]. cbn [mbind option_bind].
  destruct (pop_ctrl_eq _ _ _ Hw E) as (cs & Ec & -> & Hh).
  destruct (_ && _) eqn:Eb; [done|]. intros [= <-]. rewrite push_opds_eq. exists c. cbn. split_and!; try done.
  intros Hif. rewrite Hif in Eb. cbn in Eb. apply negb_false_iff in Eb. by apply bool_decide_eq_true in Eb.
Qed.

Lemma step_else v v' :
  wfv v -> step_instr M F Locals Else v = Some v' ->
  exists c cs, ctrls v = c :: cs /\ c_if c = true /\ (c_height c <= length (opds v))%nat /\
    v' = mkV (low (c_height c) (opds v)) (mkCtrl false (c_end c) (c_end c) (c_height c) false :: cs).
Proof.
  intros Hw. cbn [step_instr]. destruct (pop_ctrl v) as [[c v1]|] eqn:E; [|done]. cbn [mbind option_bind].
  destruct (pop_ctrl_eq _ _ _ Hw E) as (cs & Ec & -> & Hh).
  destruct (c_if c) eqn:Ei; [|done]. intros [= <-]. exists c, cs. split_and!; try done.
  unfold push_ctrl. cbn. by rewrite length_low.
Qed.

Lemma step_open i v v' :
  wfv v -> is_open i = true -> step_instr M F Locals i v = Some v' ->
  exists c v1, keeps v v1 /\ v' = mkV (opds v1) (c :: ctrls v) /\ c_height c = length (opds v1) /\
    c_unreachable c = false /\ (c_if c = true -> c_label c = c_end c).
Proof.
  intros Hw Ho. destruct i; try done; cbn [step_instr]; intros H.
  - injection H as <-. eexists _, v. split_and!; [by apply keeps_refl|done..].
  - injection H as <-. eexists _, v. split_and!; [by apply keeps_refl|done..].
  - destruct (pop_expect I32 v) as [v1|] eqn:E; [|done]. cbn [mbind option_bind] in H. injection H as <-.
    pose proof (keeps_expect _ _ _ Hw E) as Hk. pose proof Hk as [Ec _]. eexists _, v1.
    split_and!; [done|unfold push_ctrl; by rewrite Ec|done..].
Qed.

Lemma set_unreachable_eq v v' :
  wfv v -> set_unreachable v = Some v' ->
  exists c cs, ctrls v = c :: cs /\ (c_height c <= length (opds v))%nat /\
    v' = mkV (low (c_height c) (opds v)) (mkCtrl (c_if c) (c_label c) (c_end c) (c_height c) true :: cs).
Proof.
  intros [Hh _]. unfold set_unreachable. destruct (ctrls v) as [|c cs] eqn:E; [done|]. intros [= <-].
  destruct Hh. by exists c, cs.
Qed.

(** A step without a block, up to what it leaves in the innermost frame. *)
Definition inside (v v' : vstate) : Prop :=
  match ctrls v with
  | [] => ctrls v' = []
  | c :: cs => exists c', ctrls v' = c' :: cs /\ mark c c' /\ (c_height c <= length (opds v'))%nat /\
      low (c_height c) (opds v') = low (c_height c) (opds v)
  end.

Lemma keeps_inside v v' : keeps v v' -> inside v v'.
Proof.
  intros [E H]. unfold inside. destruct (ctrls v) as [|c cs]; [done|]. destruct H. exists c.
  split_and!; [done|by left|done|done].
Qed.
Lemma keeps_unreachable v v1 v' : wfv v -> keeps v v1 -> set_unreachable v1 = Some v' -> inside v v'.
Proof.
  intros Hw Hk H. destruct (set_unreachable_eq _ _ (keeps_wf _ _ Hw Hk) H) as (c & cs & Ec & Hh & ->).
  destruct Hk as [E Hk]. rewrite E in Ec. unfold inside. rewrite Ec in *. destruct Hk as [H1 H2].
  eexists. split_and!; [done|by right| |]; cbn; [by rewrite length_low|]. rewrite low_low by lia. done.
Qed.

Lemma keeps_table l ts v v' : wfv v -> table_label ts l v = Some v' -> keeps v v'.
Proof.
  intros Hw. unfold table_label. destruct (label_at l v) as [ts'|]; [|done]. cbn [mbind option_bind].
  case_bool_decide; [|done]. destruct (pop_opds ts' v) as [v1|] eqn:E; [|done]. cbn [fmap option_fmap option_map].
  intros [= <-]. pose proof (keeps_opds _ _ _ Hw E) as Hk. eapply keeps_trans; [done|].
  apply keeps_pushes. by eapply keeps_wf.
Qed.
Lemma keeps_tables ts ls v v' :
  wfv v -> foldl (fun o l => o ≫= table_label ts l) (Some v) ls = Some v' -> keeps v v'.
Proof.
  revert v. induction ls as [|l ls IH]; intros v Hw; cbn [foldl]; [intros [= <-]; by apply keeps_refl|].
  cbn [mbind option_bind]. destruct (table_label ts l v) as [v1|] eqn:E; [|by rewrite foldl_none].
  intros H. pose proof (keeps_table _ _ _ _ Hw E) as Hk. eapply keeps_trans; [done|].
  apply IH; [by eapply keeps_wf|done].
Qed.

(** The next operation of a step. *)
Ltac vstep :=
  match goal with
  | H : None = Some _ |- _ => discriminate H
  | H : Some _ = Some _ |- _ => injection H as <-
  | H : context [pop_expect ?t ?v ≫= _] |- _ =>
      let E := fresh "E" in let K := fresh "K" in let w := fresh "w" in
      destruct (pop_expect t v) as [w|] eqn:E; [|discriminate H]; cbn [mbind option_bind] in H;
      pose proof (keeps_expect t v w ltac:(assumption) E) as K;
      pose proof (keeps_wf v w ltac:(assumption) K)
  | H : context [pop_opds ?t ?v ≫= _] |- _ =>
      let E := fresh "E" in let K := fresh "K" in let w := fresh "w" in
      destruct (pop_opds t v) as [w|] eqn:E; [|discriminate H]; cbn [mbind option_bind] in H;
      pose proof (keeps_opds t v w ltac:(assumption) E) as K;
      pose proof (keeps_wf v w ltac:(assumption) K)
  | H : context [_ <$> pop_expect ?t ?v] |- _ =>
      let E := fresh "E" in let K := fresh "K" in let w := fresh "w" in
      destruct (pop_expect t v) as [w|] eqn:E; [|discriminate H]; cbn [fmap option_fmap option_map] in H;
      pose proof (keeps_expect t v w ltac:(assumption) E) as K;
      pose proof (keeps_wf v w ltac:(assumption) K)
  | H : context [_ <$> pop_opds ?t ?v] |- _ =>
      let E := fresh "E" in let K := fresh "K" in let w := fresh "w" in
      destruct (pop_opds t v) as [w|] eqn:E; [|discriminate H]; cbn [fmap option_fmap option_map] in H;
      pose proof (keeps_opds t v w ltac:(assumption) E) as K;
      pose proof (keeps_wf v w ltac:(assumption) K)
  | H : context [pop_opd ?v ≫= _] |- _ =>
      let E := fresh "E" in let K := fresh "K" in let w := fresh "w" in
      destruct (pop_opd v) as [[? w]|] eqn:E; [|discriminate H]; cbn [mbind option_bind] in H;
      pose proof (keeps_pop v _ w ltac:(assumption) E) as K;
      pose proof (keeps_wf v w ltac:(assumption) K)
  | H : context [label_at ?l ?v ≫= _] |- _ =>
      destruct (label_at l v) as [?|]; [|discriminate H]; cbn [mbind option_bind] in H
  | H : context [if ?b then _ else _] |- _ => destruct b
  | H : context [?o ≫= _] |- _ => destruct o; [|discriminate H]; cbn [mbind option_bind] in H
  | H : context [match ?o with None => _ | Some _ => _ end] |- _ => destruct o
  end.

Ltac keep := solve [ assumption | apply keeps_refl; assumption
  | apply keeps_push; assumption | apply keeps_pushes; assumption
  | eapply keeps_trans; [eassumption|]; keep ].

Lemma step_inside i v v' :
  wfv v -> is_open i = false -> i <> Else -> i <> End -> step_instr M F Locals i v = Some v' -> inside v v'.
Proof.
  intros Hw Ho He Hn. destruct i; try done; cbn [step_instr]; unfold call_type; intros H.
  all: repeat match goal with
    | H : foldl _ (Some ?v) ?ls ≫= _ = _ |- _ =>
        let E := fresh "E" in let K := fresh "K" in let w := fresh "w" in
        destruct (foldl _ (Some v) ls) as [w|] eqn:E; [|discriminate H]; cbn [mbind option_bind] in H;
        pose proof (keeps_tables _ _ v w ltac:(assumption) E) as K;
        pose proof (keeps_wf v w ltac:(assumption) K)
    | _ => vstep end.
  all: try (apply keeps_inside; first [keep | eapply keeps_expect; eassumption
    | eapply keeps_trans; [eassumption|eapply keeps_expect; eassumption]]).
  all: eapply keeps_unreachable; [eassumption| |eassumption]; keep.
Qed.

Lemma inside_wf v v' : wfv v -> inside v v' -> wfv v'.
Proof.
  intros [Hh Hi] H. unfold inside in H. destruct (ctrls v) as [|c cs]; [split; by rewrite H|].
  destruct H as (c' & E & Hm & Hl & _). destruct Hh as [_ Hh]. apply Forall_cons_1 in Hi as [Hi1 Hi2].
  split; rewrite E; destruct Hm as [->| ->]; (split || constructor); done.
Qed.

Lemma step_wf i v v' : wfv v -> step_instr M F Locals i v = Some v' -> wfv v'.
Proof.
  intros Hw H. destruct (is_open i) eqn:Ho.
  { destruct (step_open _ _ _ Hw Ho H) as (c & v1 & Hk & -> & Hc & _ & Hl). destruct (keeps_wf _ _ Hw Hk) as [Hh Hi].
    destruct Hk as [E _]. rewrite E in *. split; cbn; [|by constructor]. rewrite Hc. by split. }
  destruct (decide (i = Else)) as [->|Hne]; [|destruct (decide (i = End)) as [->|Hnd]].
  - destruct (step_else _ _ Hw H) as (c & cs & Ec & _ & Hl & ->). destruct Hw as [Hh Hi]. rewrite Ec in *.
    destruct Hh as [_ Hh]. apply Forall_cons_1 in Hi as [_ Hi]. split; cbn; [|by constructor].
    by rewrite length_low.
  - destruct (step_end _ _ Hw H) as (c & Ec & Eo & _ & Hl). destruct Hw as [Hh Hi]. rewrite Ec in *.
    apply Forall_cons_1 in Hi as [_ Hi]. split; [|done]. destruct Hh as [_ Hh]. rewrite Eo, length_app, length_low by done.
    destruct (ctrls v'); [done|]. destruct Hh. split; [lia|done].
  - eapply inside_wf; [done|]. by eapply step_inside.
Qed.

(** ** Nested blocks *)

(** Two states of one control frame. *)
Record alike (c c' : ctrl) : Prop := {
  al_height : c_height c' = c_height c;
  al_end : c_end c' = c_end c;
  al_label : c_label c' = c_label c;
}.

Lemma alike_refl c : alike c c.
Proof. done. Qed.
Lemma alike_trans c1 c2 c3 : alike c1 c2 -> alike c2 c3 -> alike c1 c3.
Proof. intros [] []. split; congruence. Qed.
Lemma mark_alike c c' : mark c c' -> alike c c' /\ c_if c' = c_if c.
Proof. by intros [->| ->]. Qed.

Definition depth_after (i : instr) (d : nat) : nat :=
  if is_open i then S d else match i with End => Nat.pred d | _ => d end.

Lemma heights_nested inner c cs n :
  heights_ok (inner ++ c :: cs) n ->
  (c_height c <= n)%nat /\ match inner with [] => True | x :: _ => (c_height c <= c_height x <= n)%nat end.
Proof.
  revert n. induction inner as [|x inner IH]; intros n; cbn [app heights_ok]; [by intros []|].
  intros [H1 H2]. destruct (IH _ H2) as [H3 _]. lia.
Qed.

Lemma low_sub {A} h n (l l' : list A) :
  (h <= n)%nat -> (n <= length l)%nat -> (n <= length l')%nat -> low n l' = low n l -> low h l' = low h l.
Proof. intros Hh H1 H2 E. rewrite <- (low_low n h l'), E, low_low by lia. done. Qed.

(** A step inside a block leaves its frame and the operands below it. *)
Record nested (inner : list ctrl) (c : ctrl) (cs : list ctrl) (O : list (option WASMType)) (v : vstate) : Prop := {
  ne_ctrls : ctrls v = inner ++ c :: cs;
  ne_height : (c_height c <= length (opds v))%nat;
  ne_low : low (c_height c) (opds v) = O;
}.

Lemma step_nested i v v' inner c cs O :
  wfv v -> nested inner c cs O v -> step_instr M F Locals i v = Some v' -> (i = End -> inner <> []) ->
  exists inner' c', nested inner' c' cs O v' /\ length inner' = depth_after i (length inner) /\ alike c c' /\
    (c_if c' = c_if c \/ i = Else /\ inner = [] /\ c_if c = true).
Proof.
  intros Hw [Ec Hl Ho] H Hend. pose proof Hw as [Hh _]. rewrite Ec in Hh.
  destruct (heights_nested _ _ _ _ Hh) as [_ Hx]. unfold depth_after. destruct (is_open i) eqn:Hop.
  { destruct (step_open _ _ _ Hw Hop H) as (c0 & v1 & [E1 E2] & -> & Hc & _). rewrite Ec in *.
    exists (c0 :: inner), c. split_and!; [|done|done|by left]. split; cbn; [done| |].
    - destruct inner as [|x inner]; cbn in E2; destruct E2; lia.
    - subst O. destruct inner as [|x inner]; cbn in E2; destruct E2 as [E2 E3]; [done|].
      eapply (low_sub _ (c_height x)); [lia..|done]. }
  destruct (decide (i = Else)) as [->|Hne]; [|destruct (decide (i = End)) as [->|Hnd]].
  - destruct (step_else _ _ Hw H) as (c0 & cs0 & E0 & Hif & Hl0 & ->). rewrite Ec in E0.
    destruct inner as [|x inner]; cbn [app] in *; injection E0 as <- <-.
    + exists [], (mkCtrl false (c_end c) (c_end c) (c_height c) false). split_and!; try done; [| |by right].
      * split; cbn; [done|by rewrite length_low|]. rewrite low_low by lia. done.
      * destruct Hw as [_ Hi]. rewrite Ec in Hi. apply Forall_cons_1 in Hi as [Hi _]. split; cbn; [done..|].
        by rewrite Hi.
    + exists (mkCtrl false (c_end x) (c_end x) (c_height x) false :: inner), c. split_and!; try done; [|by left].
      split; cbn; [done|rewrite length_low; lia|]. rewrite low_low by lia. done.
  - destruct (step_end _ _ Hw H) as (c0 & E0 & Eo & _ & Hl0). destruct inner as [|x inner]; [by destruct (Hend eq_refl)|].
    rewrite Ec in E0. cbn [app] in E0. injection E0 as <- E0. exists inner, c. split_and!; [|done|done|by left].
    split; [done| |]; rewrite Eo.
    + rewrite length_app, length_low by done. lia.
    + rewrite low_app by (rewrite length_low; lia). rewrite low_low by lia. done.
  - pose proof (step_inside _ _ _ Hw Hop Hne Hnd H) as Hin. unfold inside in Hin. rewrite Ec in Hin.
    replace (match i with End => _ | _ => length inner end) with (length inner) by (by destruct i).
    destruct inner as [|x inner]; destruct Hin as (c' & E' & Hm & Hl' & Hlow); cbn [app] in *.
    + destruct (mark_alike _ _ Hm) as [Ha Hi]. exists [], c'. split_and!; [|done|done|by left]. destruct Ha as [Eh _ _].
      split; rewrite ?Eh; [done|done|congruence].
    + exists (c' :: inner), c. split_and!; [|done|done|by left]. split; [done|lia|]. subst O.
      eapply (low_sub _ (c_height x)); [lia..|done].
Qed.

(** ** Typed bodies *)

(** An instruction of the body: the state before it and its bytes. *)
Record point : Type := mkPoint { pt_v : vstate; pt_i : instr; pt_op : Z; pt_imm : list Z }.

Definition pt_bytes (p : point) : list Z := pt_op p :: pt_imm p.

(** 64-bit values. *)
Definition wide (t : WASMType) : bool := match t with I64 | F64 => true | _ => false end.

(** The bytes are the instruction; a [drop] or [select] of 64-bit values has
    the opcode the loader put in. *)
Record op_ok (v : vstate) (i : instr) (op : Z) (imm : list Z) : Prop := {
  op_encodes : encodes op i imm \/ (i = Drop /\ op = 0xc5 /\ imm = []) \/ (i = Select /\ op = 0xc6 /\ imm = []);
  op_bytes : Forall is_byte (op :: imm);
  op_drop t v1 : i = Drop -> pop_opd v = Some (Some t, v1) -> op = if wide t then 0xc5 else 0x1a;
  op_select t v1 v2 : i = Select -> pop_expect I32 v = Some v1 -> pop_opd v1 = Some (Some t, v2) ->
    op = if wide t then 0xc6 else 0x1b;
}.

Inductive chain : vstate -> list point -> vstate -> Prop :=
| chain_nil v : chain v [] v
| chain_cons v v' v'' i op imm pts :
    ctrls v <> [] -> op_ok v i op imm -> step_instr M F Locals i v = Some v' -> chain v' pts v'' ->
    chain v (mkPoint v i op imm :: pts) v''.

Definition start_state : vstate := push_ctrl false (ReturnTypes F) (ReturnTypes F) (mkV [] []).

Record typed_body (Code : list Z) (pts : list point) (vend : vstate) : Prop := {
  tb_chain : chain start_state pts vend;
  tb_end : ctrls vend = [];
  tb_code : Code = concat (map pt_bytes pts);
}.

(** The state before instruction [k], and its offset. *)
Definition state_at (vend : vstate) (pts : list point) (k : nat) : vstate :=
  match pts !! k with Some p => pt_v p | None => vend end.
Definition pos (pts : list point) (k : nat) : nat := length (concat (map pt_bytes (take k pts))).

Lemma chain_suffix v pts vend k : chain v pts vend -> (k <= length pts)%nat -> chain (state_at vend pts k) (drop k pts) vend.
Proof.
  intros H. revert k. induction H as [v|v v' v'' i op imm pts Hc Ho Hs H IH]; intros k Hk.
  - destruct k; cbn in *; [constructor|lia].
  - destruct k as [|k]; [by econstructor|]. apply (IH k). cbn in Hk. lia.
Qed.

Lemma chain_start v pts vend : chain v pts vend -> state_at vend pts 0 = v.
Proof. by destruct 1. Qed.

Lemma chain_step v pts vend k p :
  chain v pts vend -> pts !! k = Some p ->
  ctrls (pt_v p) <> [] /\ op_ok (pt_v p) (pt_i p) (pt_op p) (pt_imm p) /\
  step_instr M F Locals (pt_i p) (pt_v p) = Some (state_at vend pts (S k)).
Proof.
  intros H. revert k. induction H as [v|v v' v'' i op imm pts Hc Ho Hs H IH]; intros k Hk; [done|].
  destruct k as [|k]; [|by apply IH]. injection Hk as <-. cbn. split_and!; try done.
  rewrite Hs. f_equal. symmetry. by apply chain_start.
Qed.

Lemma chain_wf v pts vend k : wfv v -> chain v pts vend -> wfv (state_at vend pts k).
Proof.
  intros Hw H. revert k. induction H as [v|v v' v'' i op imm pts Hc Ho Hs H IH]; intros k; [done|].
  destruct k as [|k]; [done|]. apply IH. by eapply step_wf.
Qed.

Lemma pos_0 pts : pos pts 0 = 0%nat.
Proof. done. Qed.
Lemma pos_S pts k p : pts !! k = Some p -> pos pts (S k) = (pos pts k + length (pt_bytes p))%nat.
Proof.
  intros H. unfold pos. rewrite (take_S_r _ _ _ H), map_app, concat_app, length_app. cbn. by rewrite app_nil_r.
Qed.
Lemma drop_pos pts k : drop (pos pts k) (concat (map pt_bytes pts)) = concat (map pt_bytes (drop k pts)).
Proof.
  rewrite <- (take_drop k pts) at 2. unfold pos. by rewrite map_app, concat_app, drop_app_length.
Qed.
Lemma pos_lt pts k p : pts !! k = Some p -> (pos pts k < length (concat (map pt_bytes pts)))%nat.
Proof.
  intros H. rewrite <- (take_drop k pts) at 2. rewrite map_app, concat_app, length_app. fold (pos pts k).
  rewrite (drop_S _ _ _ H). cbn. lia.
Qed.
Lemma pos_mono pts k j : (k < j)%nat -> (k < length pts)%nat -> (pos pts k < pos pts j)%nat.
Proof.
  intros Hk Hl. destruct (lookup_lt_is_Some_2 pts k Hl) as [p Hp]. unfold pos.
  replace (take j pts) with (take k pts ++ drop k (take j pts)).
  - rewrite map_app, concat_app, length_app, (drop_S (take j pts) p k) by (by rewrite lookup_take_lt). cbn. lia.
  - rewrite <- (take_drop k (take j pts)) at 2. by rewrite take_take, Nat.min_l by lia.
Qed.
Lemma pos_inj pts k j : (k < length pts)%nat -> (j < length pts)%nat -> pos pts k = pos pts j -> k = j.
Proof.
  intros Hk Hj E. destruct (Nat.lt_trichotomy k j) as [H|[H|H]]; [|done|].
  - pose proof (pos_mono pts k j H Hk). lia.
  - pose proof (pos_mono pts j k H Hj). lia.
Qed.
End Body.

Arguments tb_chain {_ _ _ _ _ _} _. Arguments tb_end {_ _ _ _ _ _} _. Arguments tb_code {_ _ _ _ _ _} _.
