(* ===== verification/WasmBlocks.v ===== *)
(** The ends of blocks: [findBlockAddr] of the interpreter finds the END and
    the ELSE that the validation pairs with a block, and its cache holds
    nothing else. *)

From stdpp Require Import gmap.
From S2P Require Import Prelude Intx Leb128 Leb128Correct WasmNum FunctionLoader WasmValid WasmInterp WasmTyped.

#[local] Open Scope Z_scope.

(** ** Pairing *)

(** The END of the block [d] levels out, and its ELSE. *)
Fixpoint find_end (d : nat) (l : list instr) : option nat :=
  match l with
  | [] => None
  | i :: l =>
      if is_open i then S <$> find_end (S d) l
      else if bool_decide (i = End) then match d with O => Some O | S d => S <$> find_end d l end
      else S <$> find_end d l
  end.
Fixpoint find_else (d : nat) (l : list instr) : option nat :=
  match l with
  | [] => None
  | i :: l =>
      if is_open i then S <$> find_else (S d) l
      else if bool_decide (i = End) then match d with O => None | S d => S <$> find_else d l end
      else if bool_decide (i = Else) then match d with O => Some O | S _ => S <$> find_else d l end
      else S <$> find_else d l
  end.

Section Pairing.
Context (M : Module_) (F : TypeEntry) (Locals : list WASMType).

Lemma block_end v pts vend inner c cs O :
  chain M F Locals v pts vend -> wfv v -> nested inner c cs O v -> ctrls vend = [] ->
  exists n p c', find_end (length inner) (map pt_i pts) = Some n /\ pts !! n = Some p /\ pt_i p = End /\
    nested [] c' cs O (pt_v p) /\ alike c c' /\
    (find_else (length inner) (map pt_i pts) = None -> c_if c' = c_if c).
Proof.
  intros H. revert inner c. induction H as [v|v v' v'' i op imm pts Hc Ho Hs H IH]; intros inner c Hw Hn Hend.
  { destruct Hn as [E _ _]. rewrite Hend in E. by destruct inner. }
  destruct (decide (i = End /\ inner = [])) as [[-> ->]|Hne].
  { by eexists 0%nat, _, c. }
  destruct (step_nested M F Locals i v v' inner c cs O Hw Hn Hs) as (inner' & c1 & Hn1 & Hlen & Ha1 & Hif1).
  { intros -> ->. by apply Hne. }
  destruct (IH inner' c1 (step_wf M F Locals _ _ _ Hw Hs) Hn1 Hend) as (n & p & c' & Hf & Hp & Hi & Hn' & Ha & Hif).
  exists (S n), p, c'. cbn [map find_end find_else lookup list_lookup pt_i].
  rewrite Hlen in *. unfold depth_after in *.
  assert (forall m, (if is_open i then S (length inner) else match i with End => Nat.pred (length inner) | _ => length inner end) = m ->
    m = if is_open i then S (length inner) else if bool_decide (i = End) then Nat.pred (length inner) else length inner) as Hd.
  { intros m <-. destruct (is_open i) eqn:E; [done|]. case_bool_decide as Hb; [by rewrite Hb|]. by destruct i. }
  specialize (Hd _ eq_refl). rewrite Hd in *. split_and!; try done; [|by eapply alike_trans|].
  - destruct (is_open i); [by rewrite Hf|]. case_bool_decide; [|by rewrite Hf].
    destruct inner; [by exfalso; apply Hne|]. cbn in *. by rewrite Hf.
  - intros Hnone. rewrite Hif.
    + destruct Hif1 as [?|(-> & -> & _)]; [done|]. cbn in Hnone. done.
    + destruct (is_open i); [by destruct (find_else _ _)|].
      case_bool_decide; [destruct inner; [by exfalso; apply Hne|]; cbn in *; by destruct (find_else _ _)|].
      destruct (bool_decide (i = Else)); [destruct (length inner); [done|]|]; by destruct (find_else _ _).
Qed.

Lemma block_else v pts vend inner c cs O n :
  chain M F Locals v pts vend -> wfv v -> nested inner c cs O v ->
  find_else (length inner) (map pt_i pts) = Some n ->
  exists p c', pts !! n = Some p /\ pt_i p = Else /\ nested [] c' cs O (pt_v p) /\ alike c c'.
Proof.
  intros H. revert inner c n. induction H as [v|v v' v'' i op imm pts Hc Ho Hs H IH]; intros inner c n Hw Hn; [done|].
  cbn [map find_else pt_i]. destruct (decide (i = End /\ inner = [])) as [[-> ->]|Hne]; [done|].
  destruct (step_nested M F Locals i v v' inner c cs O Hw Hn Hs) as (inner' & c1 & Hn1 & Hlen & Ha1 & _).
  { intros -> ->. by apply Hne. }
  destruct (decide (i = Else /\ inner = [])) as [[-> ->]|Hne2].
  { cbn. intros [= <-]. eexists _, c. by split_and!. }
  intros Hf. assert (exists m, n = S m /\ find_else (length inner') (map pt_i pts) = Some m) as (m & -> & Hf').
  { rewrite Hlen. unfold depth_after. destruct (is_open i); [|case_bool_decide as Hb; [subst i|case_bool_decide as Hb2]].
    - destruct (find_else (S (length inner)) _); [|done]. injection Hf as <-. eauto.
    - destruct inner; [by exfalso; apply Hne|]. cbn in *. destruct (find_else _ _); [|done]. injection Hf as <-. eauto.
    - subst i. destruct inner; [by exfalso; apply Hne2|]. cbn [length] in *.
      destruct (find_else _ _); [|done]. injection Hf as <-. eauto.
    - replace (match i with End => _ | _ => length inner end) with (length inner) by (by destruct i).
      destruct (find_else _ _); [|done]. injection Hf as <-. eauto. }
  destruct (IH inner' c1 m (step_wf M F Locals _ _ _ Hw Hs) Hn1 Hf') as (p & c' & Hp & Hi & Hn' & Ha).
  exists p, c'. split_and!; try done. by eapply alike_trans.
Qed.

(** Only an END closes a body. *)
Lemma chain_next v pts vend k p :
  wfv v -> chain M F Locals v pts vend -> ctrls vend = [] -> pts !! k = Some p -> pt_i p <> End -> (S k < length pts)%nat.
Proof.
  intros Hw H Hend Hp Hi. destruct (chain_step M F Locals v pts vend k p H Hp) as (Hne & _ & Hs).
  destruct (decide (S k < length pts)%nat) as [|Hge]; [done|exfalso].
  assert (wfv (pt_v p)) as Hwp.
  { pose proof (chain_wf M F Locals v pts vend k Hw H) as Hw'. unfold state_at in Hw'. by rewrite Hp in Hw'. }
  unfold state_at in Hs. rewrite (lookup_ge_None_2 pts (S k)) in Hs by lia.
  destruct (ctrls (pt_v p)) as [|c cs] eqn:Ec; [done|].
  assert (nested [] c cs (low (c_height c) (opds (pt_v p))) (pt_v p)) as Hn.
  { split; try done. destruct Hwp as [Hh _]. rewrite Ec in Hh. by destruct Hh. }
  destruct (step_nested M F Locals _ _ _ _ _ _ _ Hwp Hn Hs) as (inner' & c' & [E _ _] & _); [done|].
  rewrite Hend in E. by destruct inner'.
Qed.
End Pairing.

(** ** Skipping *)

Lemma block_byte b t r :
  block_type [b] = Some (t, []) ->
  skipBlockType (b :: r) = Some r /\
  getWASMTypeCellNum (getWASMBlockTypeFromOpcode b) = Some (match t with None => 0 | Some t => if wide t then 2 else 1 end).
Proof.
  cbn [block_type skipBlockType]. unfold getWASMBlockTypeFromOpcode, getWASMValTypeFromOpcode, val_type.
  destruct (Z.eqb_spec b 0x40) as [->|]; [by intros [= <-]|].
  destruct (Z.eqb_spec b 0x7f) as [->|]; [by intros [= <-]|].
  destruct (Z.eqb_spec b 0x7e) as [->|]; [by intros [= <-]|].
  destruct (Z.eqb_spec b 0x7d) as [->|]; [by intros [= <-]|].
  destruct (Z.eqb_spec b 0x7c) as [->|]; [by intros [= <-]|].
  intros H. exfalso. destruct (match b with 127 => _ | _ => _ end) eqn:E; [|done].
  repeat case_match; done.
Qed.

Section Skip.
Context (wide_shift : Z -> Z -> Z).

Lemma skipLabels_of ls gs l gl r fuel :
  Forall2 (leb_of TU32) ls gs -> leb_of TU32 l gl -> Forall is_byte r -> r <> [] -> (length ls < fuel)%nat ->
  skipLabels fuel (Z.of_nat (length ls)) ((concat gs ++ gl) ++ r) = Some r.
Proof.
  intros Hgs Hl Hr Hne. revert fuel. induction Hgs as [|x g ls gs Hg Hgs IH]; intros fuel Hf;
    (destruct fuel as [|fuel]; [cbn in Hf; lia|]); cbn [skipLabels length concat app].
  - rewrite (proj2 (Z.ltb_ge _ _)) by lia. rewrite (leb_of_skip wide_shift TU32 l gl r) by done. cbn [mbind option_bind].
    destruct fuel; by cbn [skipLabels].
  - rewrite (proj2 (Z.ltb_ge _ _)) by lia. rewrite <- !app_assoc.
    rewrite (leb_of_skip wide_shift TU32 x g); [|done|done| |].
    + cbn [mbind option_bind]. replace (Z.of_nat (S (length ls)) - 1) with (Z.of_nat (length ls)) by lia.
      rewrite app_assoc. apply IH. cbn in Hf. lia.
    + assert (Forall is_byte (concat gs)) as Hc by (apply Forall_concat; clear -Hgs; induction Hgs; constructor; [by eapply lo_bytes|done]).
      apply Forall_app_2; [done|]. apply Forall_app_2; [by eapply lo_bytes|done].
    + destruct (concat gs); [|done]. cbn. pose proof (lo_length _ _ _ Hl). by destruct gl; [cbn in *; lia|].
Qed.

Lemma concat_bytes ls gs : Forall2 (leb_of TU32) ls gs -> Forall is_byte (concat gs).
Proof. intros Hgs. apply Forall_concat. induction Hgs; constructor; [by eapply lo_bytes|done]. Qed.

Lemma concat_length ls gs : Forall2 (leb_of TU32) ls gs -> (length ls <= length (concat gs))%nat.
Proof.
  induction 1 as [|x g ls gs Hg _ IH]; cbn; [lia|]. rewrite length_app. pose proof (lo_length _ _ _ Hg). lia.
Qed.
Lemma app_not_nil {A} (l r : list A) : r <> [] -> l ++ r <> [].
Proof. by destruct l, r. Qed.
Lemma leb_not_nil T x g (r : list Z) : leb_of T x g -> g ++ r <> [].
Proof. intros H. pose proof (lo_length _ _ _ H). by destruct g; [cbn in *; lia|]. Qed.

Lemma memory_class op i a ga o go r :
  0x28 <= op <= 0x3e -> leb_of TU32 a ga -> leb_of TU32 o go -> Forall is_byte r -> r <> [] ->
  is_open i = false -> i <> Else -> i <> End ->
  is_open i = false /\ i <> Else /\ i <> End /\ in_range 2 4 op = false /\ op <> 5 /\ op <> 0xb /\
  skipImmediates wide_shift op ((ga ++ go) ++ r) = Some r.
Proof.
  intros Hop Ha Ho Hr Hne Hi1 Hi2 Hi3.
  assert (forall lo hi, hi < 0x28 \/ 0x3e < lo -> in_range lo hi op = false) as Hout.
  { intros lo hi [H|H]; unfold in_range.
    - by rewrite (proj2 (Z.leb_gt op hi)), andb_false_r by lia.
    - by rewrite (proj2 (Z.leb_gt lo op)) by lia. }
  split_and!; try done; [apply Hout; lia|lia|lia|]. unfold skipImmediates. rewrite !Hout by lia.
  repeat (rewrite (proj2 (Z.eqb_neq _ _)) by lia). cbn [orb].
  replace (in_range 0x28 0x3e op) with true
    by (symmetry; unfold in_range; rewrite (proj2 (Z.leb_le _ _)), (proj2 (Z.leb_le op _)) by lia; done).
  rewrite <- app_assoc, (leb_of_skip wide_shift TU32 a ga); [|done|done| |by eapply leb_not_nil].
  - cbn [mbind option_bind]. by apply (leb_of_skip wide_shift TU32 o go).
  - apply Forall_app_2; [by eapply lo_bytes|done].
Qed.

(** Opcodes by what the scan does on them. *)
Lemma scan_class v i op imm r :
  op_ok v i op imm -> Forall is_byte r -> r <> [] ->
  (is_open i = true /\ in_range 2 4 op = true /\ skipBlockType (imm ++ r) = Some r) \/
  (i = Else /\ op = 5 /\ imm = []) \/ (i = End /\ op = 0xb /\ imm = []) \/
  (is_open i = false /\ i <> Else /\ i <> End /\ in_range 2 4 op = false /\ op <> 5 /\ op <> 0xb /\
   skipImmediates wide_shift op (imm ++ r) = Some r).
Proof.
  intros [He Hb _ _] Hr Hne. destruct He as [He|[(-> & -> & ->)|(-> & -> & ->)]]; [|by right; right; right..].
  inversion He as [op' i' Hp|op' i' b t Hi Ht|op' i' x g Hi Hg|n gn ls gs l gl Hn Hgs En Hl|t g Hg| | |x g Hg|x g Hg
    |g Hg|g Hg|op' e a ga o go Hop He1 Ha Ho|op' e a ga o go Hop He1 Ha Ho]; subst.
  - unfold plain_op in Hp. 
    destruct (Z.eqb_spec op 0x00) as [->|]; [injection Hp as <-; by right; right; right|].
    destruct (Z.eqb_spec op 0x01) as [->|]; [injection Hp as <-; by right; right; right|].
    destruct (Z.eqb_spec op 0x05) as [->|]; [injection Hp as <-; by right; left|].
    destruct (Z.eqb_spec op 0x0b) as [->|]; [injection Hp as <-; by right; right; left|].
    destruct (Z.eqb_spec op 0x0f) as [->|]; [injection Hp as <-; by right; right; right|].
    destruct (Z.eqb_spec op 0x1a) as [->|]; [injection Hp as <-; by right; right; right|].
    destruct (Z.eqb_spec op 0x1b) as [->|]; [injection Hp as <-; by right; right; right|].
    destruct (in_range 0x45 0xc4 op) eqn:Er; [|done]. destruct (numeric_table !! _) as [[ins out]|]; [|done].
    injection Hp as <-. right; right; right. unfold in_range in Er. apply andb_true_iff in Er as [E1%Z.leb_le E2%Z.leb_le].
    assert (forall lo hi, hi < 0x45 \/ 0xc4 < lo -> in_range lo hi op = false) as Hout.
    { intros lo hi [H|H]; unfold in_range.
      - by rewrite (proj2 (Z.leb_gt op hi)), andb_false_r by lia.
      - by rewrite (proj2 (Z.leb_gt lo op)) by lia. }
    split_and!; try done; [apply Hout; lia|]. unfold skipImmediates. rewrite !Hout by lia.
    repeat (rewrite (proj2 (Z.eqb_neq _ _)) by lia). cbn [orb app].
    unfold in_range. by rewrite (proj2 (Z.leb_le _ _)), (proj2 (Z.leb_le op _)) by lia.
  - left. unfold block_op in Hi. destruct (block_byte b t r Ht) as [Hs _].
    destruct (Z.eqb_spec op 2) as [->|]; [injection Hi as <-; done|].
    destruct (Z.eqb_spec op 3) as [->|]; [injection Hi as <-; done|].
    destruct (Z.eqb_spec op 4) as [->|]; [injection Hi as <-; done|done].
  - right; right; right. pose proof (leb_of_skip wide_shift TU32 x imm r ltac:(done) Hg Hr Hne) as Hsk.
    assert (skipLEB TI32 (imm ++ r) = Some r) as Hsk'.
    { apply closed_skip; [by apply (lo_closed _ _ _ Hg)| |done]. pose proof (lo_length _ _ _ Hg) as Hlen.
      rewrite MaxBytes_values in *. lia. }
    unfold index_op in Hi.
    repeat match type of Hi with context [op =? ?k] =>
      destruct (Z.eqb_spec op k) as [->|]; [injection Hi as <-; by split_and!|] end. done.
  - right; right; right. split_and!; try done. cbn [skipImmediates in_range]. rewrite <- !app_assoc.
    assert (Forall is_byte (concat gs ++ gl ++ r)) as Hbs.
    { apply Forall_app_2; [by eapply concat_bytes|]. apply Forall_app_2; [by eapply lo_bytes|done]. }
    unfold skipImmediates. cbn [in_range Z.leb Z.compare andb Pos.compare Pos.compare_cont Z.eqb Pos.eqb].
    change (in_range 0 1 14) with false. change (in_range 12 13 14) with false. cbn iota.
    rewrite (leb_of_read wide_shift TU32 _ gn) by done. cbn [mbind option_bind]. rewrite app_assoc.
    apply (skipLabels_of ls gs l gl); try done. rewrite !length_app. pose proof (concat_length _ _ Hgs). lia.
  - right; right; right. split_and!; try done. rewrite <- app_assoc.
    change (skipImmediates wide_shift 17 (g ++ [0] ++ r)) with (r' ← skipLEB TU32 (g ++ [0] ++ r); skipBytes 1 r').
    rewrite (leb_of_skip wide_shift TU32 t g) by (done || by constructor). done.
  - right; right; right. split_and!; try done. 
    change (skipLEB TU32 ([0] ++ r) = Some r). apply closed_skip; [constructor; lia|vm_compute; lia|done].
  - right; right; right. split_and!; try done.
    change (skipLEB TU32 ([0] ++ r) = Some r). apply closed_skip; [constructor; lia|vm_compute; lia|done].
  - right; right; right. split_and!; try done. by apply (leb_of_skip wide_shift TI32 x).
  - right; right; right. split_and!; try done. by apply (leb_of_skip wide_shift TI64 x).
  - right; right; right. split_and!; try done. change (skipBytes 4 (imm ++ r) = Some r). unfold skipBytes.
    rewrite length_app, (proj2 (Nat.ltb_ge _ _)) by lia. by rewrite <- Hg, drop_app_length.
  - right; right; right. split_and!; try done. change (skipBytes 8 (imm ++ r) = Some r). unfold skipBytes.
    rewrite length_app, (proj2 (Nat.ltb_ge _ _)) by lia. by rewrite <- Hg, drop_app_length.
  - right; right; right. assert (0x28 <= op <= 0x35) as Hr2.
    { unfold in_range in Hop. apply andb_true_iff in Hop as [?%Z.leb_le ?%Z.leb_le]. lia. }
    apply (memory_class op (Load e.1 a (Z.log2 e.2)) a ga o go r); try done; lia.
  - right; right; right. assert (0x36 <= op <= 0x3e) as Hr2.
    { unfold in_range in Hop. apply andb_true_iff in Hop as [?%Z.leb_le ?%Z.leb_le]. lia. }
    apply (memory_class op (Store e.1 a (Z.log2 e.2)) a ga o go r); try done; lia.
Qed.
End Skip.

Lemma end_bytes v op imm : op_ok v End op imm -> op = 0xb /\ imm = [].
Proof.
  intros H. destruct (scan_class (fun _ _ => 0) v End op imm [0] H) as [[? _]|[[? _]|[(_ & -> & ->)|(_ & _ & ? & _)]]]; try done.
  by repeat constructor.
Qed.

(** ** The scan *)

(** What the cache holds for the block that instruction [k] opens. *)
Definition entry (pts : list point) (k : nat) : CacheValue :=
  let l := drop (S k) (map pt_i pts) in
  mkCV ((fun n => pos pts (S k + n)) <$> find_else 0 l) ((fun n => pos pts (S k + n)) <$> find_end 0 l).

Definition partial (cv e : CacheValue) : Prop :=
  (cvElsePtr cv = None \/ cvElsePtr cv = cvElsePtr e) /\ (cvEndPtr cv = None \/ cvEndPtr cv = cvEndPtr e).

(** A block of a body. *)
Definition block_at (pts : list point) (k : nat) : Prop :=
  exists p, pts !! k = Some p /\ is_open (pt_i p) = true.

(** The entries of the cache belong to blocks of the bodies and are complete
    but for the blocks [ss] of body [f]. *)
Definition cache_upto (bodies : nat -> option (list point)) (f : nat) (ss : list nat)
    (cache : gmap (nat * nat) CacheValue) : Prop :=
  forall g start cv, cache !! (g, start) = Some cv ->
  exists pts k, bodies g = Some pts /\ block_at pts k /\ start = pos pts (S k) /\ partial cv (entry pts k) /\
    (g = f /\ k ∈ ss \/ cv = entry pts k).

Definition cache_ok (bodies : nat -> option (list point)) (cache : gmap (nat * nat) CacheValue) : Prop :=
  forall g start cv, cache !! (g, start) = Some cv ->
  exists pts k, bodies g = Some pts /\ block_at pts k /\ start = pos pts (S k) /\ cv = entry pts k.

Lemma partial_refl e : partial e e.
Proof. split; by right. Qed.

Lemma cache_ok_upto bodies f cache : cache_ok bodies cache <-> cache_upto bodies f [] cache.
Proof.
  split; intros H g start cv Hc; destruct (H g start cv Hc) as (pts & k & Hb & Hk & Hs & Hr).
  - exists pts, k. subst cv. split_and!; try done; [apply partial_refl|by right].
  - destruct Hr as [_ [[_ []%elem_of_nil]|Hr]]. by exists pts, k.
Qed.

Section Scan.
Context (wide_shift : Z -> Z -> Z) (bodies : nat -> option (list point)).
Context (M : Module_) (F : TypeEntry) (Locals : list WASMType) (f : nat) (pts : list point) (vend : vstate).
Hypothesis Hchain : chain M F Locals (start_state F) pts vend.
Hypothesis Hend : ctrls vend = [].
Hypothesis Hbody : bodies f = Some pts.

Let l_ := map pt_i pts.
Let Code := concat (map pt_bytes pts).

Lemma start_wf : wfv (start_state F).
Proof. split; cbn; [lia|]. by constructor. Qed.

Lemma at_wf k : wfv (state_at vend pts k).
Proof. eapply chain_wf; [apply start_wf|done]. Qed.
Lemma pt_wf k p : pts !! k = Some p -> wfv (pt_v p).
Proof. intros H. pose proof (at_wf k) as Hw. unfold state_at in Hw. by rewrite H in Hw. Qed.

Lemma wf_nested v inner c cs : wfv v -> ctrls v = inner ++ c :: cs -> nested inner c cs (low (c_height c) (opds v)) v.
Proof. intros [Hh _] E. rewrite E in Hh. destruct (heights_nested _ _ _ _ Hh). by split. Qed.

(** The frame of the block that [k] opens, in the state after it. *)
Lemma opened k p :
  pts !! k = Some p -> is_open (pt_i p) = true ->
  exists c, ctrls (state_at vend pts (S k)) = c :: ctrls (pt_v p) /\ c_unreachable c = false /\
    c_height c = length (opds (state_at vend pts (S k))).
Proof.
  intros Hp Ho. destruct (chain_step M F Locals _ _ _ k p Hchain Hp) as (_ & _ & Hs).
  destruct (step_open M F Locals _ _ _ (pt_wf k p Hp) Ho Hs) as (c & v1 & _ & -> & Hc & Hu & _). exists c. by cbn.
Qed.

(** The END that closes it. *)
Lemma block_closes k p :
  pts !! k = Some p -> is_open (pt_i p) = true -> exists n, find_end 0 (drop (S k) l_) = Some n.
Proof.
  intros Hp Ho. destruct (opened k p Hp Ho) as (c & Ec & _).
  pose proof (lookup_lt_Some _ _ _ Hp) as Hl.
  pose proof (chain_suffix M F Locals _ _ _ (S k) Hchain ltac:(lia)) as Hsuf.
  destruct (block_end M F Locals _ _ _ [] c _ _ Hsuf (at_wf (S k)) (wf_nested _ [] _ _ (at_wf (S k)) Ec) Hend)
    as (n & _ & _ & Hf & _). cbn [length] in Hf. exists n. unfold l_. by rewrite List.skipn_map.
Qed.

(** At instruction [j], in the blocks that [ss] open, the innermost first. *)
Record scan_inv (j : nat) (ss : list nat) (cache : gmap (nat * nat) CacheValue) : Prop := {
  si_open l s : ss !! l = Some s -> (s < j)%nat /\ block_at pts s;
  si_end l s : ss !! l = Some s ->
    find_end 0 (drop (S s) l_) = (fun n => n + (j - S s))%nat <$> find_end l (drop j l_);
  si_else l s : ss !! l = Some s ->
    (exists n, find_else 0 (drop (S s) l_) = Some n /\
       cvElsePtr (cacheAt cache (f, pos pts (S s))) = Some (pos pts (S s + n)) /\
       exists inner c cs, ctrls (state_at vend pts j) = inner ++ c :: cs /\ length inner = l /\ c_if c = false) \/
    find_else 0 (drop (S s) l_) = (fun n => n + (j - S s))%nat <$> find_else l (drop j l_);
  si_cache : cache_upto bodies f ss cache;
}.

Definition starts_ok (ss : list nat) (Starts : gmap Z nat) : Prop :=
  forall l s, ss !! l = Some s -> Starts !! Z.of_nat (length ss - 1 - l) = Some (pos pts (S s)).

Lemma drop_map j p : pts !! j = Some p -> drop j l_ = pt_i p :: drop (S j) l_.
Proof. intros H. unfold l_. apply drop_S. by rewrite list_lookup_fmap, H. Qed.

(** The search goes on after the instruction. *)
Lemma shifted j s (o : option nat) :
  (s < j)%nat -> (fun n => n + (j - S s))%nat <$> (S <$> o) = (fun n => n + (S j - S s))%nat <$> o.
Proof. intros. destruct o; cbn; [f_equal; lia|done]. Qed.

(** What stays of the invariant when the frames of the open blocks are those
    of the state after the instruction. *)
Lemma else_keeps j p l l' s cache cache' :
  pts !! j = Some p -> (pt_i p = End -> (0 < l)%nat) -> l' = depth_after (pt_i p) l ->
  cvElsePtr (cacheAt cache' (f, pos pts (S s))) = cvElsePtr (cacheAt cache (f, pos pts (S s))) ->
  (exists n, find_else 0 (drop (S s) l_) = Some n /\
     cvElsePtr (cacheAt cache (f, pos pts (S s))) = Some (pos pts (S s + n)) /\
     exists inner c cs, ctrls (state_at vend pts j) = inner ++ c :: cs /\ length inner = l /\ c_if c = false) ->
  (exists n, find_else 0 (drop (S s) l_) = Some n /\
     cvElsePtr (cacheAt cache' (f, pos pts (S s))) = Some (pos pts (S s + n)) /\
     exists inner c cs, ctrls (state_at vend pts (S j)) = inner ++ c :: cs /\ length inner = l' /\ c_if c = false).
Proof.
  intros Hp Hl -> Hc (n & Hf & He & inner & c & cs & Ec & <- & Hif). exists n. rewrite Hc. split_and!; [done|done|].
  destruct (chain_step M F Locals _ _ _ j p Hchain Hp) as (_ & _ & Hs).
  unfold state_at in Ec. rewrite Hp in Ec.
  destruct (step_nested M F Locals _ _ _ inner c cs _ (pt_wf j p Hp) (wf_nested _ _ _ _ (pt_wf j p Hp) Ec) Hs)
    as (inner' & c' & [Ec' _ _] & Hlen & _ & Hif').
  { intros Hi ->. specialize (Hl Hi). cbn in Hl. lia. }
  exists inner', c', cs. split_and!; [done|done|]. destruct Hif' as [->|(_ & _ & ?)]; congruence.
Qed.

Lemma block_next k : block_at pts k -> (S k < length pts)%nat.
Proof.
  intros (p & Hp & Ho). apply (chain_next M F Locals _ _ _ k p start_wf Hchain Hend Hp). by intros E; rewrite E in Ho.
Qed.

Lemma start_inj k k' : block_at pts k -> block_at pts k' -> pos pts (S k) = pos pts (S k') -> k = k'.
Proof.
  intros Hk Hk' E. apply block_next in Hk, Hk'. apply pos_inj in E; lia.
Qed.

Lemma cacheAt_partial ss cache s :
  cache_upto bodies f ss cache -> block_at pts s -> partial (cacheAt cache (f, pos pts (S s))) (entry pts s).
Proof.
  intros Hc Hs. unfold cacheAt. destruct (cache !! _) as [cv|] eqn:E; [|split; by left].
  destruct (Hc _ _ _ E) as (pts' & k & Hb & Hk & Hpos & Hpa & _). rewrite Hbody in Hb. injection Hb as <-.
  cbn. by rewrite (start_inj s k Hs Hk Hpos).
Qed.

(** The entry of a block that is open is replaced. *)
Lemma upto_insert ss ss' cache s cv :
  cache_upto bodies f ss cache -> block_at pts s -> partial cv (entry pts s) ->
  (forall k, k ∈ ss -> k <> s -> k ∈ ss') -> (s ∈ ss' \/ cv = entry pts s) ->
  cache_upto bodies f ss' (<[(f, pos pts (S s)) := cv]> cache).
Proof.
  intros Hc Hs Hp Hss Hcv g start cv' Hl. destruct (decide ((g, start) = (f, pos pts (S s)))) as [E|Hne].
  - injection E as -> ->. rewrite lookup_insert_eq in Hl. injection Hl as <-. exists pts, s. split_and!; try done.
    destruct Hcv; [left|right]; done.
  - rewrite lookup_insert_ne in Hl by congruence. destruct (Hc _ _ _ Hl) as (pts' & k & Hb & Hk & Hpos & Hpa & Hor).
    exists pts', k. split_and!; try done. destruct Hor as [[-> Hin]|]; [left|by right]. split; [done|].
    apply Hss; [done|]. intros ->. rewrite Hbody in Hb. injection Hb as <-. by subst.
Qed.

Lemma upto_mono ss ss' cache : (forall k, k ∈ ss -> k ∈ ss') -> cache_upto bodies f ss cache -> cache_upto bodies f ss' cache.
Proof.
  intros Hss Hc g start cv Hl. destruct (Hc _ _ _ Hl) as (pts' & k & Hb & Hk & Hpos & Hpa & Hor).
  exists pts', k. split_and!; try done. destruct Hor as [[-> ?]|]; [left|right]; auto.
Qed.

Lemma cacheAt_insert_ne cache (k k' : nat * nat) cv : k <> k' -> cacheAt (<[k := cv]> cache) k' = cacheAt cache k'.
Proof. intros. unfold cacheAt. by rewrite lookup_insert_ne. Qed.

Lemma inv_open j p ss cache :
  scan_inv j ss cache -> pts !! j = Some p -> is_open (pt_i p) = true -> scan_inv (S j) (j :: ss) cache.
Proof.
  intros [Hop Hen Hel Hc] Hp Ho. pose proof (drop_map j p Hp) as Ed. split.
  - intros [|l] s Hs; cbn in Hs; [injection Hs as <-; split; [lia|by exists p]|]. destruct (Hop l s Hs). split; [lia|done].
  - intros [|l] s Hs; cbn in Hs; [injection Hs as <-; rewrite Nat.sub_diag; destruct (find_end _ _); cbn; [f_equal; lia|done]|].
    destruct (Hop l s Hs). rewrite (Hen l s Hs), Ed. cbn [find_end]. rewrite Ho. by apply shifted.
  - intros [|l] s Hs; cbn in Hs.
    { injection Hs as <-. right. rewrite Nat.sub_diag. destruct (find_else _ _); cbn; [f_equal; lia|done]. }
    destruct (Hop l s Hs). destruct (Hel l s Hs) as [H1|H1].
    + left. eapply (else_keeps j p l); try done; [|unfold depth_after; by rewrite Ho].
      intros E. by rewrite E in Ho.
    + right. rewrite H1, Ed. cbn [find_else]. rewrite Ho. by apply shifted.
  - eapply upto_mono; [|exact Hc]. intros. by right.
Qed.

Lemma inv_other j p ss cache :
  scan_inv j ss cache -> pts !! j = Some p -> is_open (pt_i p) = false -> pt_i p <> Else -> pt_i p <> End ->
  scan_inv (S j) ss cache.
Proof.
  intros [Hop Hen Hel Hc] Hp Ho Hne Hnd. pose proof (drop_map j p Hp) as Ed.
  assert (forall l, find_end l (pt_i p :: drop (S j) l_) = S <$> find_end l (drop (S j) l_)) as E1.
  { intros l. cbn. by rewrite Ho, bool_decide_false. }
  assert (forall l, find_else l (pt_i p :: drop (S j) l_) = S <$> find_else l (drop (S j) l_)) as E2.
  { intros l. cbn. by rewrite Ho, !bool_decide_false. }
  split; [| | |done].
  - intros l s Hs. destruct (Hop l s Hs). split; [lia|done].
  - intros l s Hs. destruct (Hop l s Hs). rewrite (Hen l s Hs), Ed, E1. by apply shifted.
  - intros l s Hs. destruct (Hop l s Hs). destruct (Hel l s Hs) as [H1|H1].
    + left. eapply (else_keeps j p l); try done. unfold depth_after. rewrite Ho. by destruct (pt_i p).
    + right. rewrite H1, Ed, E2. by apply shifted.
Qed.

Lemma inv_else j p s ss cache :
  scan_inv j (s :: ss) cache -> pts !! j = Some p -> pt_i p = Else -> NoDup (s :: ss) ->
  scan_inv (S j) (s :: ss) (setElse (f, pos pts (S s)) (pos pts j) cache).
Proof.
  intros [Hop Hen Hel Hc] Hp Hi Hnd. pose proof (drop_map j p Hp) as Ed. rewrite Hi in Ed.
  destruct (Hop 0%nat s eq_refl) as [Hsj Hbs].
  destruct (chain_step M F Locals _ _ _ j p Hchain Hp) as (_ & _ & Hs). rewrite Hi in Hs.
  destruct (step_else M F Locals _ _ (pt_wf j p Hp) Hs) as (c0 & cs0 & Ec0 & Hif0 & _ & Ev).
  assert (find_else 0 (drop (S s) l_) = Some (j - S s)%nat) as Hf.
  { destruct (Hel 0%nat s eq_refl) as [(n & Hf & _ & inner & c & cs & Ec & Hlen & Hif)|Hf].
    - exfalso. unfold state_at in Ec. rewrite Hp, Ec0 in Ec. destruct inner; [|done]. injection Ec as -> _. congruence.
    - by rewrite Hf, Ed. }
  assert (pos pts (S s + (j - S s)) = pos pts j) as Epos by (f_equal; lia).
  split.
  - intros l s' Hs'. destruct (Hop l s' Hs'). split; [lia|done].
  - intros l s' Hs'. destruct (Hop l s' Hs'). rewrite (Hen l s' Hs'), Ed. by apply shifted.
  - intros [|l] s' Hs'; cbn in Hs'.
    + injection Hs' as <-. left. exists (j - S s)%nat. split_and!; [done| |].
      * unfold setElse, cacheAt. rewrite lookup_insert_eq, Epos. done.
      * rewrite Ev. by eexists [], _, _.
    + destruct (Hop (S l) s' Hs') as [Hs'j Hbs'].
      assert (cacheAt (setElse (f, pos pts (S s)) (pos pts j) cache) (f, pos pts (S s')) =
        cacheAt cache (f, pos pts (S s'))) as Ecache.
      { apply cacheAt_insert_ne. intros [= E]. apply start_inj in E; [|done..]. subst s'.
        apply NoDup_cons_1_1 in Hnd. apply Hnd. by eapply list_elem_of_lookup_2. }
      destruct (Hel (S l) s' Hs') as [H1|H1].
      * left. eapply (else_keeps j p (S l)); try done; [intros; lia|by rewrite Hi|by rewrite Ecache].
      * right. rewrite H1, Ed. by apply shifted.
  - eapply upto_insert; [done|done| |done|left; by left].
    pose proof (cacheAt_partial _ _ _ Hc Hbs) as [_ Hpe]. split; [right|done]. unfold entry. fold l_. rewrite Hf.
    cbn [fmap option_fmap option_map cvElsePtr]. by rewrite Epos.
Qed.

Lemma inv_end j p s ss cache :
  scan_inv j (s :: ss) cache -> pts !! j = Some p -> pt_i p = End -> NoDup (s :: ss) ->
  scan_inv (S j) ss (setEnd (f, pos pts (S s)) (pos pts j) cache) /\
  cacheAt (setEnd (f, pos pts (S s)) (pos pts j) cache) (f, pos pts (S s)) = entry pts s.
Proof.
  intros [Hop Hen Hel Hc] Hp Hi Hnd. pose proof (drop_map j p Hp) as Ed. rewrite Hi in Ed.
  destruct (Hop 0%nat s eq_refl) as [Hsj Hbs].
  assert (pos pts (S s + (j - S s)) = pos pts j) as Epos by (f_equal; lia).
  assert (find_end 0 (drop (S s) l_) = Some (j - S s)%nat) as Hf.
  { rewrite (Hen 0%nat s eq_refl), Ed. done. }
  assert (mkCV (cvElsePtr (cacheAt cache (f, pos pts (S s)))) (Some (pos pts j)) = entry pts s) as Ecv.
  { unfold entry. fold l_. rewrite Hf. cbn [fmap option_fmap option_map]. rewrite Epos. f_equal.
    destruct (Hel 0%nat s eq_refl) as [(n & -> & -> & _)|Hf2]; [done|].
    rewrite Hf2, Ed. cbn. destruct (cacheAt_partial _ _ _ Hc Hbs) as [[?|E] _]; [done|]. rewrite E. unfold entry. fold l_.
    rewrite Hf2, Ed. done. }
  split; [|unfold setEnd, cacheAt at 1; by rewrite lookup_insert_eq].
  split.
  - intros l s' Hs'. destruct (Hop (S l) s' Hs'). split; [lia|done].
  - intros l s' Hs'. destruct (Hop (S l) s' Hs'). rewrite (Hen (S l) s' Hs'), Ed. by apply shifted.
  - intros l s' Hs'. destruct (Hop (S l) s' Hs') as [Hs'j Hbs'].
    assert (cacheAt (setEnd (f, pos pts (S s)) (pos pts j) cache) (f, pos pts (S s')) =
      cacheAt cache (f, pos pts (S s'))) as Ecache.
    { apply cacheAt_insert_ne. intros [= E]. apply start_inj in E; [|done..]. subst s'.
      apply NoDup_cons_1_1 in Hnd. apply Hnd. by eapply list_elem_of_lookup_2. }
    destruct (Hel (S l) s' Hs') as [H1|H1].
    + left. eapply (else_keeps j p (S l)); try done; [intros; lia|by rewrite Hi|by rewrite Ecache].
    + right. rewrite H1, Ed. by apply shifted.
  - unfold setEnd. rewrite Ecv. eapply upto_insert; [done|done|apply partial_refl| |by right].
    intros k Hk Hne. by apply elem_of_cons in Hk as [->|].
Qed.

Lemma bytes_at j p :
  pts !! j = Some p ->
  concat (map pt_bytes (drop j pts)) = pt_op p :: pt_imm p ++ concat (map pt_bytes (drop (S j) pts)).
Proof. intros H. by rewrite (drop_S _ _ _ H). Qed.

Lemma code_length j : length Code = (pos pts j + length (concat (map pt_bytes (drop j pts))))%nat.
Proof. unfold Code, pos. rewrite <- (take_drop j pts) at 1. by rewrite map_app, concat_app, length_app. Qed.

Lemma bytes_ok j : Forall is_byte (concat (map pt_bytes (drop j pts))).
Proof.
  apply Forall_concat, Forall_fmap, Forall_drop, Forall_lookup_2. intros k p Hp.
  destruct (chain_step M F Locals _ _ _ k p Hchain Hp) as (_ & [_ Hb _ _] & _). exact Hb.
Qed.

Lemma bytes_not_nil j : (j < length pts)%nat -> concat (map pt_bytes (drop j pts)) <> [].
Proof. intros H. destruct (lookup_lt_is_Some_2 pts j H) as [p Hp]. by rewrite (bytes_at j p Hp). Qed.

Lemma scan_point j ss cache : scan_inv j ss cache -> ss <> [] -> exists p, pts !! j = Some p.
Proof.
  intros [Hop Hen _ _] Hne. destruct ss as [|s ss]; [done|].
  destruct (Hop 0%nat s eq_refl) as [_ (q & Hq & Ho)]. destruct (block_closes s q Hq Ho) as [n Hn].
  specialize (Hen 0%nat s eq_refl). rewrite Hn in Hen.
  destruct (pts !! j) as [p|] eqn:E; [by exists p|exfalso].
  apply lookup_ge_None_1 in E. unfold l_ in Hen. rewrite (drop_ge (map pt_i pts) j) in Hen; [done|].
  rewrite length_map. lia.
Qed.

Lemma starts_cons ss Starts j : starts_ok ss Starts -> starts_ok (j :: ss) (<[Z.of_nat (length ss) := pos pts (S j)]> Starts).
Proof.
  intros Hs [|l] s Hl; cbn in Hl.
  - injection Hl as <-. cbn [length]. replace (S (length ss) - 1 - 0)%nat with (length ss) by lia. by rewrite lookup_insert_eq.
  - pose proof (lookup_lt_Some _ _ _ Hl). rewrite lookup_insert_ne by (cbn; lia). rewrite <- (Hs l s Hl). cbn [length].
    do 2 f_equal. lia.
Qed.
Lemma starts_tail s ss Starts : starts_ok (s :: ss) Starts -> starts_ok ss Starts.
Proof.
  intros Hs l s' Hl. rewrite <- (Hs (S l) s' Hl). cbn [length]. f_equal. pose proof (lookup_lt_Some _ _ _ Hl). lia.
Qed.

Lemma scanLoop_ok fuel j ss cache Starts s0 :
  scan_inv j ss cache -> starts_ok ss Starts -> NoDup ss -> list.last ss = Some s0 ->
  (length (concat (map pt_bytes (drop j pts))) <= fuel)%nat ->
  exists cache', scanLoop wide_shift fuel f (length Code) (concat (map pt_bytes (drop j pts))) (Z.of_nat (length ss)) Starts cache
      = Some (cache', entry pts s0) /\ cache_ok bodies cache'.
Proof.
  revert j ss cache Starts. induction fuel as [|fuel IH]; intros j ss cache Starts Hinv Hst Hnd Hlast Hf.
  { destruct (scan_point j ss cache Hinv) as [p Hp]; [by destruct ss|]. rewrite (bytes_at j p Hp) in Hf. cbn in Hf. lia. }
  destruct (scan_point j ss cache Hinv) as [p Hp]; [by destruct ss|].
  pose proof (code_length j) as Hlen. rewrite (bytes_at j p Hp) in Hf, Hlen |- *. cbn [length] in Hf, Hlen.
  rewrite length_app in Hf, Hlen. destruct ss as [|s ss]; [done|].
  destruct (chain_step M F Locals _ _ _ j p Hchain Hp) as (_ & Hop & _).
  assert (Starts !! (Z.of_nat (length (s :: ss)) - 1) = Some (pos pts (S s))) as Hs.
  { rewrite <- (Hst 0%nat s eq_refl). f_equal. cbn [length]. lia. }
  destruct (decide (pt_i p = End)) as [Hi|Hi].
  - rewrite Hi in Hop. destruct (end_bytes _ _ _ Hop) as [Eop Eimm]. rewrite Eop, Eimm in *. cbn [length app] in *.
    cbn [scanLoop]. change (in_range 2 4 11) with false. change (11 =? 5) with false. change (11 =? 11) with true.
    cbn iota. rewrite Hs. cbn [mbind option_bind].
    replace (length Code - length (concat (map pt_bytes (drop (S j) pts))) - 1)%nat with (pos pts j) by lia.
    destruct (inv_end j p s ss cache Hinv Hp Hi Hnd) as [Hinv' Hent]. cbn zeta.
    destruct ss as [|s1 ss].
    + cbn [length] in *. change (Z.of_nat 1 - 1 =? 0) with true. cbn iota.
      rewrite ((Hst 0%nat s eq_refl) : Starts !! 0 = Some (pos pts (S s))). cbn [mbind option_bind].
      injection Hlast as <-. rewrite Hent.
      eexists. split; [done|]. apply (cache_ok_upto _ f). apply Hinv'.
    + rewrite (proj2 (Z.eqb_neq _ _)) by (cbn [length]; lia).
      replace (Z.of_nat (S (length (s1 :: ss))) - 1) with (Z.of_nat (length (s1 :: ss))) by lia.
      apply IH; [done|by eapply starts_tail|by apply NoDup_cons_1_2 in Hnd|done|lia].
  - pose proof (chain_next M F Locals _ _ _ j p start_wf Hchain Hend Hp Hi) as Hnext.
    destruct (scan_class wide_shift _ _ _ _ _ Hop (bytes_ok (S j)) (bytes_not_nil (S j) Hnext))
      as [(Ho & Er & Hsk)|[(Hi' & Eop & Eimm)|[(Hi' & _)|(Ho & Hne & _ & Er & H5 & Hb & Hsk)]]]; [| |done|].
    + cbn [scanLoop]. rewrite Er, Hsk. cbn [mbind option_bind].
      replace (length Code - length (concat (map pt_bytes (drop (S j) pts))))%nat with (pos pts (S j)).
      2: { rewrite (pos_S _ _ _ Hp). cbn [pt_bytes length]. lia. }
      replace (Z.of_nat (length (s :: ss)) + 1) with (Z.of_nat (length (j :: s :: ss))) by (cbn [length]; lia).
      apply IH; [by eapply inv_open|by apply starts_cons| |done|lia].
      apply NoDup_cons_2; [|done]. intros [l Hl]%list_elem_of_lookup_1. destruct (si_open _ _ _ Hinv l j Hl). lia.
    + rewrite Eop, Eimm in *. cbn [length app] in *.
      cbn [scanLoop]. change (in_range 2 4 5) with false. change (5 =? 5) with true. cbn iota. rewrite Hs.
      cbn [mbind option_bind].
      replace (length Code - length (concat (map pt_bytes (drop (S j) pts))) - 1)%nat with (pos pts j) by lia.
      change (Z.of_nat (S (length ss))) with (Z.of_nat (length (s :: ss))).
      apply IH; [by eapply inv_else|done|done|done|lia].
    + cbn [scanLoop]. rewrite Er, (proj2 (Z.eqb_neq _ _) H5), (proj2 (Z.eqb_neq _ _) Hb), Hsk. cbn [mbind option_bind].
      apply IH; [by eapply inv_other|done|done|done|lia].
Qed.

Lemma scan_ok k cache :
  block_at pts k -> cache_ok bodies cache ->
  exists cache', scanLoop wide_shift (length Code) f (length Code) (drop (pos pts (S k)) Code) 1 {[0 := pos pts (S k)]} cache
      = Some (cache', entry pts k) /\ cache_ok bodies cache'.
Proof.
  intros Hk Hc. unfold Code at 3. rewrite drop_pos. change 1 with (Z.of_nat (length [k])).
  apply scanLoop_ok; [| |apply NoDup_singleton|done|].
  - split.
    + intros [|l] s Hs; [|done]. injection Hs as <-. split; [lia|done].
    + intros [|l] s Hs; [|done]. injection Hs as <-. rewrite Nat.sub_diag. destruct (find_end _ _); cbn; [f_equal; lia|done].
    + intros [|l] s Hs; [|done]. injection Hs as <-. right. rewrite Nat.sub_diag.
      destruct (find_else _ _); cbn; [f_equal; lia|done].
    + eapply upto_mono; [|by apply (cache_ok_upto _ f)]. by intros ? []%elem_of_nil.
  - intros [|l] s Hs; [|done]. injection Hs as <-. by rewrite lookup_singleton_eq.
  - rewrite (code_length (S k)). lia.
Qed.

Lemma cached k cache cv :
  block_at pts k -> cache_ok bodies cache -> cache !! (f, pos pts (S k)) = Some cv -> cv = entry pts k.
Proof.
  intros Hk Hc Hl. destruct (Hc _ _ _ Hl) as (pts' & k' & Hb & Hk' & Hp & ->). rewrite Hbody in Hb. injection Hb as <-.
  by rewrite (start_inj k k' Hk Hk' Hp).
Qed.
End Scan.
