(* ===== verification/WasmSafeInv.v ===== *)
(** Rules for the operations of the WebAssembly interpreter ([WasmInterp]) on
    its operand stack: where they are defined and what they leave alone; then
    the invariant of a running program. *)

From stdpp Require Import gmap.
From S2P Require Import Prelude Intx Leb128 Leb128Correct FunctionLoader WasmValid WasmNum WasmInterp WasmTyped WasmBlocks.

#[local] Open Scope Z_scope.

(** ** Outcomes: falling through with [Q], an exception, or a return with [R] *)

Definition safe {A} (m : wbody A) (Q : A -> WState -> Prop) (R : WState -> Prop) (s : WState) : Prop :=
  match m s with Ret a s' => Q a s' | Exit s' => R s' | Throw _ _ => True | Undef => False end.

Lemma safe_pure {A} (a : A) (Q : A -> WState -> Prop) R s : Q a s -> safe (ret a) Q R s.
Proof. done. Qed.
Lemma safe_throw {A} e (Q : A -> WState -> Prop) R s : safe (throw e) Q R s.
Proof. done. Qed.
Lemma safe_gets {A} (f : WState -> A) (Q : A -> WState -> Prop) R s : Q (f s) s -> safe (gets f) Q R s.
Proof. done. Qed.
Lemma safe_modify f (Q : unit -> WState -> Prop) R s : Q tt (f s) -> safe (modify f) Q R s.
Proof. done. Qed.
Lemma safe_bind {A B} (m : wbody A) (k : A -> wbody B) Q R s :
  safe m (fun a s' => safe (k a) Q R s') R s -> safe (bind m k) Q R s.
Proof. unfold safe, bind. by destruct (m s). Qed.
Lemma safe_mono {A} (m : wbody A) (Q Q' : A -> WState -> Prop) R s :
  safe m Q R s -> (forall a s', Q a s' -> Q' a s') -> safe m Q' R s.
Proof. unfold safe. destruct (m s); naive_solver. Qed.
Lemma safe_option {A} (o : option A) a (Q : A -> WState -> Prop) R s : o = Some a -> Q a s -> safe (of_option o) Q R s.
Proof. by intros ->. Qed.
Lemma safe_assert b (Q : unit -> WState -> Prop) R s : b = true -> Q tt s -> safe (zen_assert b) Q R s.
Proof. by intros ->. Qed.

(** ** What operations on the operands leave alone *)

Record quiet (s s' : WState) : Prop := {
  q_top : Top s' = Top s;
  q_bound : TopBoundary s' = TopBoundary s;
  q_frames : Frames s' = Frames s;
  q_end : IpEnd s' = IpEnd s;
  q_ctrl : Ctrl s' = Ctrl s;
  q_local : LocalPtr s' = LocalPtr s;
  q_func : FuncInst s' = FuncInst s;
  q_lin : LinearMemSize s' = LinearMemSize s;
  q_cache : BlockAddrCache s' = BlockAddrCache s;
  q_inst : Inst s' = Inst s;
}.

Lemma quiet_refl s : quiet s s.
Proof. by split. Qed.
Lemma quiet_trans s1 s2 s3 : quiet s1 s2 -> quiet s2 s3 -> quiet s1 s3.
Proof. intros [] []. split; congruence. Qed.

(** The operand stack has moved by [n] cells. *)
Record by_cells (n : Z) (s s' : WState) : Prop := {
  bc_quiet : quiet s s';
  bc_ip : Ip s' = Ip s;
  bc_vsp : ValStackPtr s' = ValStackPtr s + n;
}.

Lemma by_cells_trans n m s1 s2 s3 : by_cells n s1 s2 -> by_cells m s2 s3 -> by_cells (n + m) s1 s3.
Proof. intros [Q1 E1 V1] [Q2 E2 V2]. split; [by eapply quiet_trans|congruence|lia]. Qed.

(** The current frame. *)
Definition in_frame (s : WState) (f : InterpFrame) : Prop := head (Frames s) = Some f.

Lemma by_frame n s s' f : by_cells n s s' -> in_frame s f -> in_frame s' f.
Proof. intros [[] _ _] H. unfold in_frame in *. congruence. Qed.

Lemma pop_safe T s f R :
  in_frame s f -> ValueBasePtr f + cellsOf T <= ValStackPtr s ->
  safe (valuePop T) (fun _ s' => by_cells (- cellsOf T) s s') R s.
Proof.
  intros Hf Hv. unfold valuePop, curFrame. apply safe_bind, safe_bind, safe_gets. eapply safe_option; [exact Hf|].
  apply safe_bind, safe_gets. apply safe_bind, safe_assert; [by apply Z.leb_le|]. apply safe_bind, safe_modify, safe_pure.
  by repeat split.
Qed.

Lemma peek_safe T s f R :
  in_frame s f -> ValueBasePtr f + cellsOf T <= ValStackPtr s -> safe (valuePeek T) (fun _ s' => s' = s) R s.
Proof.
  intros Hf Hv. unfold valuePeek, curFrame. apply safe_bind, safe_bind, safe_gets. eapply safe_option; [exact Hf|].
  apply safe_bind, safe_gets. apply safe_bind, safe_assert; [by apply Z.leb_le|]. by apply safe_pure.
Qed.

Lemma push_safe T v s f R :
  in_frame s f -> ValStackPtr s + cellsOf T <= ValueBoundary f ->
  safe (valuePush T v) (fun _ s' => by_cells (cellsOf T) s s') R s.
Proof.
  intros Hf Hv. unfold valuePush, curFrame. apply safe_bind, safe_bind, safe_gets. eapply safe_option; [exact Hf|].
  apply safe_bind, safe_gets. apply safe_bind, safe_modify. apply safe_bind, safe_modify.
  apply safe_assert; [by apply Z.leb_le|]. by repeat split.
Qed.

Lemma get_safe T p s R :
  LocalPtr s <= p -> p + cellsOf T <= ValStackPtr s -> 0 < cellsOf T -> safe (valueGet T p) (fun _ s' => s' = s) R s.
Proof.
  intros H1 H2 H3. unfold valueGet. apply safe_bind, safe_gets. apply safe_bind, safe_assert; [|by apply safe_pure].
  cbn [id]. rewrite (proj2 (Z.ltb_lt _ _)), (proj2 (Z.leb_le _ _)), (proj2 (Z.leb_le _ _)) by lia. done.
Qed.

Lemma set_safe T p v s f R :
  in_frame s f -> LocalPtr s <= p -> p + cellsOf T <= FrameAddr f -> p < ValStackPtr s ->
  safe (valueSet T p v) (fun _ s' => by_cells 0 s s') R s.
Proof.
  intros Hf H1 H2 H3. unfold valueSet, curFrame. apply safe_bind, safe_bind, safe_gets. eapply safe_option; [exact Hf|].
  apply safe_bind, safe_gets. apply safe_bind, safe_assert; [by apply Z.ltb_lt|]. cbn [id].
  rewrite (proj2 (Z.leb_le _ _)), (proj2 (Z.leb_le _ _)) by lia. apply safe_modify. repeat split. cbn. lia.
Qed.

(** ** Cells of types *)

Definition tcell (t : WASMType) : Z := if wide t then 2 else 1.
Fixpoint tcells (l : list WASMType) : Z := match l with [] => 0 | t :: l => tcell t + tcells l end.

Lemma tcell_bounds t : 1 <= tcell t <= 2.
Proof. unfold tcell. destruct (wide t); lia. Qed.
Lemma tcells_nonneg l : 0 <= tcells l.
Proof. induction l as [|t l IH]; cbn; [lia|]. pose proof (tcell_bounds t). lia. Qed.
Lemma tcells_app l k : tcells (l ++ k) = tcells l + tcells k.
Proof. induction l; cbn; lia. Qed.
Lemma tcells_reverse l : tcells (reverse l) = tcells l.
Proof. induction l as [|t l IH]; [done|]. rewrite reverse_cons, tcells_app, IH. cbn. lia. Qed.
Lemma tcells_low n l : 0 <= tcells (low n l) <= tcells l.
Proof.
  unfold low. pose proof (tcells_app (take (length l - n) l) (drop (length l - n) l)) as E. rewrite take_drop in E.
  pose proof (tcells_nonneg (take (length l - n) l)). pose proof (tcells_nonneg (drop (length l - n) l)). lia.
Qed.
Lemma num_tcell t T : num_of t = Some T -> cellsOf T = tcell t.
Proof. by destruct t; intros [= <-]. Qed.
Lemma cellsOf_pos T : T <> NI TU8 -> 1 <= cellsOf T <= 2.
Proof. destruct T as [[]|[]]; try done; vm_compute; split; congruence. Qed.

(** ** Numeric instructions *)

Section Num.
Context (wide_shift : Z -> Z -> Z) (Functions : list FunctionInstance).

Abbreviation run := (runNum wide_shift Functions).

(** The operator has this instance. *)
Definition has_instance (T : num_ty) (Op : BinaryOperator) : bool :=
  match Op, T with
  | (BO_ADD | BO_SUB | BO_MUL | BO_DIV | BO_EQ | BO_NE | BO_LT | BO_GT | BO_LE | BO_GE), _ => true
  | (BO_AND | BO_OR | BO_XOR | BO_SHL | BO_SHR | BO_DIV_S | BO_REM_S | BO_REM_U | BO_ROTL | BO_ROTR), NI _ => true
  | (BO_MIN | BO_MAX | BO_COPYSIGN), NF _ => true
  | _, _ => false
  end.
Definition has_math (F : float_ty) (Op : BinaryOperator) : bool := bool_decide (is_Some (binaryOpMath F Op 0)).
Definition has_count (T : int_ty) (Op : BinaryOperator) : bool := bool_decide (is_Some (binaryOpCount T Op 0)).

Lemma instance_some T Op L R : has_instance T Op = true -> exists r, BinaryOpHelper T Op L R = Some r.
Proof.
  destruct Op, T as [T|F]; try done; intros _; cbn; unfold opDivU, opDivS, opRemS, opRemU, opShift;
    repeat case_match; eauto.
Qed.
Lemma math_some F Op v : has_math F Op = true -> exists r, binaryOpMath F Op v = Some r.
Proof.
  unfold has_math. intros H%bool_decide_eq_true. destruct Op; cbn in *; try (by destruct H); try (by eauto);
    destruct (bool_decide _); eauto; by destruct H.
Qed.
Lemma count_some T Op v : has_count T Op = true -> exists r, binaryOpCount T Op v = Some r.
Proof. unfold has_count. intros H%bool_decide_eq_true. destruct Op; cbn in *; try (by destruct H); eauto. Qed.

(** The cells an instance pops and pushes, and whether its parts exist. *)
Definition num_shape (n : numOp) : option (list Z * Z) :=
  match n with
  | INEZ T => Some ([cellsOf (NI T)], 1)
  | IBinary T Op => if has_instance T Op then Some ([cellsOf T; cellsOf T], cellsOf (ret_type T Op)) else None
  | ICount T Op => if has_count T Op then Some ([cellsOf (NI T)], cellsOf (NI T)) else None
  | IMath F Op => if has_math F Op then Some ([cellsOf (NF F)], cellsOf (NF F)) else None
  | ICV T _ => Some ([cellsOf (NI T)], cellsOf (NI T))
  | ITruncate T F _ => Some ([cellsOf (NF F)], cellsOf (NI T))
  | IConvert T T1 => Some ([cellsOf T1], cellsOf T)
  | IWrap => Some ([2], 1)
  | _ => None
  end.

(** An instruction that pops [pops] cells and pushes [push] cells. *)
Definition pops_pushes (m : wbody unit) (pops push : Z) : Prop :=
  forall s f R, in_frame s f -> ValueBasePtr f + pops <= ValStackPtr s ->
  ValStackPtr s - pops + push <= ValueBoundary f -> safe m (fun _ s' => by_cells (push - pops) s s') R s.

Lemma unary_safe T T' (g : Z -> wbody Z) :
  0 <= cellsOf T -> (forall v s R, safe (g v) (fun _ s' => s' = s) R s) ->
  pops_pushes (v <- valuePop T;; r <- g v;; valuePush T' r) (cellsOf T) (cellsOf T').
Proof.
  intros Hn Hg s f R Hf H1 H2. apply safe_bind. eapply safe_mono; [by apply (pop_safe _ _ f)|]. cbn beta.
  intros v s1 B1. apply safe_bind. eapply safe_mono; [apply Hg|]. cbn beta. intros r s2 ->.
  eapply safe_mono; [apply (push_safe _ _ _ f); [by eapply by_frame|destruct B1; lia]|]. cbn beta.
  intros _ s3 B2. pose proof (by_cells_trans _ _ _ _ _ B1 B2) as B. by rewrite Z.add_comm in B.
Qed.

Lemma safe_value r s R : (exists v, r = Some v) -> safe (value_of r) (fun _ s' => s' = s) R s.
Proof. intros [[e|v] ->]; done. Qed.
Lemma safe_some {A} (o : option A) s R : (exists v, o = Some v) -> safe (of_option o) (fun _ s' => s' = s) R s.
Proof. by intros [v ->]. Qed.

Lemma bind_ret_l {A B} (a : A) (k : A -> wbody B) s : bind (ret a) k s = k a s.
Proof. done. Qed.

Lemma unary_pure T T' (g : Z -> Z) :
  0 <= cellsOf T -> pops_pushes (v <- valuePop T;; valuePush T' (g v)) (cellsOf T) (cellsOf T').
Proof.
  intros Hn. exact (unary_safe T T' (fun v => ret (g v)) Hn (fun v s R => eq_refl)).
Qed.

Lemma binary_safe T T' (g : Z -> Z -> wbody Z) :
  0 <= cellsOf T -> (forall a b s R, safe (g a b) (fun _ s' => s' = s) R s) ->
  pops_pushes (a <- valuePop T;; b <- valuePop T;; r <- g a b;; valuePush T' r) (cellsOf T + cellsOf T) (cellsOf T').
Proof.
  intros Hn Hg s f R Hf H1 H2. apply safe_bind. eapply safe_mono; [apply (pop_safe _ _ f); [done|lia]|]. cbn beta.
  intros a s1 B1. pose proof (by_frame _ _ _ _ B1 Hf) as Hf1.
  eapply safe_mono; [apply (unary_safe T T' (g a) Hn (Hg a) s1 f); [done|destruct B1; lia|destruct B1; lia]|]. cbn beta.
  intros _ s2 B2. pose proof (by_cells_trans _ _ _ _ _ B1 B2) as B.
  by replace (- cellsOf T + (cellsOf T' - cellsOf T)) with (cellsOf T' - (cellsOf T + cellsOf T)) in B by lia.
Qed.

Lemma cellsOf_nonneg T : 0 <= cellsOf T.
Proof. by destruct T as [[]|[]]. Qed.

Lemma num_safe n pops push : num_shape n = Some (pops, push) -> pops_pushes (run n) (foldr Z.add 0 pops) push.
Proof.
  pose proof cellsOf_nonneg as Hnn.
  destruct n; cbn [num_shape runNum]; try done; try (case_match eqn:Hok; [|done]); intros [= <- <-];
    cbn [foldr]; rewrite ?Z.add_0_r.
  - apply (unary_pure (NI T) (NI TI32) (fun v => b2z (v =? 0))); auto.
  - apply (binary_safe T (ret_type T Op) (fun b a => value_of (BinaryOpHelper T Op a b))); [auto|].
    intros a b s R. apply safe_value. by apply instance_some.
  - apply (unary_safe (NI T) (NI T) (fun v => of_option (binaryOpCount T Op v))); [auto|].
    intros v s R. apply safe_some. by apply count_some.
  - apply (unary_safe (NF F) (NF F) (fun v => of_option (binaryOpMath F Op v))); [auto|].
    intros v s R. apply safe_some. by apply math_some.
  - apply (unary_pure (NI Dst) (NI Dst)); auto.
  - apply (unary_safe (NF F) (NI T) (fun v => value_of (Some (truncate T F IsSigned v)))); [auto|].
    intros v s R. apply safe_value. eauto.
  - apply (unary_pure Src Target); auto.
  - apply (unary_pure (NI TI64) (NI TI32)); auto.
Qed.

(** The switch has an instance with the operands of the instruction's type for
    each numeric opcode. *)
Definition shape_fits (op : Z) : bool :=
  match numericCase op, numeric_table !! Z.to_nat (op - 0x45) with
  | Some IReinterpret, Some (ins, o) => tcells ins =? tcell o
  | Some n, Some (ins, o) =>
      match num_shape n with
      | Some (pops, push) => (foldr Z.add 0 pops =? tcells ins) && (push =? tcell o)
      | None => false
      end
  | _, _ => false
  end.

Lemma shapes_fit : forallb shape_fits (map (fun n => 0x45 + Z.of_nat n) (seq 0 128)) = true.
Proof. vm_compute. reflexivity. Qed.

Lemma numeric_safe op ins o :
  in_range 0x45 0xc4 op = true -> numeric_table !! Z.to_nat (op - 0x45) = Some (ins, o) ->
  exists n, numericCase op = Some n /\ pops_pushes (run n) (tcells ins) (tcell o).
Proof.
  intros Hop Ht. unfold in_range in Hop. apply andb_true_iff in Hop as [H1%Z.leb_le H2%Z.leb_le].
  pose proof (proj1 (List.forallb_forall _ _) shapes_fit op) as Hs. unfold shape_fits in Hs. rewrite Ht in Hs.
  assert (In op (map (fun n => 0x45 + Z.of_nat n) (seq 0 128))) as Hin.
  { apply List.in_map_iff. exists (Z.to_nat (op - 0x45)). split; [lia|]. apply List.in_seq. lia. }
  specialize (Hs Hin). destruct (numericCase op) as [n|]; [|done]. exists n. split; [done|].
  assert (n = IReinterpret \/ exists pops push, num_shape n = Some (pops, push) /\
    foldr Z.add 0 pops = tcells ins /\ push = tcell o) as [->|(pops & push & Hn & <- & <-)].
  { destruct n; try (by left); right; destruct (num_shape _) as [[pops push]|]; try done;
      apply andb_true_iff in Hs as [?%Z.eqb_eq ?%Z.eqb_eq]; eauto. }
  - apply Z.eqb_eq in Hs. intros s f R Hf _ _. apply safe_pure. rewrite Hs, Z.sub_diag. repeat split. cbn. lia.
  - by apply num_safe.
Qed.
End Num.

(** Typing of the states of the WebAssembly interpreter: what a program, an
    instance and a state of [WasmInterp] owe to the validation of the bodies
    ([WasmTyped]), and the rules of the operations within an instruction. *)

#[local] Open Scope Z_scope.

(** ** Operands of reachable code *)

Definition reachable (cs : list ctrl) : Prop := Forall (fun c => c_unreachable c = false) cs.

Lemma low_map {A B} (f : A -> B) n l : low n (map f l) = map f (low n l).
Proof. unfold low. by rewrite length_map, List.skipn_map. Qed.

Lemma map_reverse {A B} (f : A -> B) l : map f (reverse l) = reverse (map f l).
Proof. exact (fmap_reverse f l). Qed.

Lemma u32_value b : 0 <= of_bits (NI TU32) b < 2 ^ 32.
Proof. cbn. apply (wrap_range 32). lia. Qed.

Section Pops.
Context (v : vstate) (V : list WASMType).
Hypothesis Ho : opds v = map Some V.
Hypothesis Hr : reachable (ctrls v).

Lemma pop_opd_live a v' : pop_opd v = Some (a, v') -> exists t V', V = t :: V' /\ a = Some t /\ v' = mkV (map Some V') (ctrls v).
Proof.
  unfold pop_opd. unfold reachable in Hr. destruct (ctrls v) as [|c cs]; [done|]. cbn [head mbind option_bind].
  apply Forall_cons_1 in Hr as [-> _]. case_match; [done|]. rewrite Ho. destruct V as [|t V']; [done|].
  intros [= <- <-]. eauto.
Qed.
Lemma pop_expect_live t v' : pop_expect t v = Some v' -> exists V', V = t :: V' /\ v' = mkV (map Some V') (ctrls v).
Proof.
  unfold pop_expect. destruct (pop_opd v) as [[a v1]|] eqn:E; [|done]. cbn [mbind option_bind].
  destruct (pop_opd_live _ _ E) as (t' & V' & -> & -> & ->). case_bool_decide; [|done]. subst. intros [= <-]. eauto.
Qed.
End Pops.

Lemma pop_opds_live ts v V v' :
  opds v = map Some V -> reachable (ctrls v) -> pop_opds ts v = Some v' ->
  exists V', V = reverse ts ++ V' /\ v' = mkV (map Some V') (ctrls v).
Proof.
  unfold pop_opds. generalize (reverse ts) as l. intros l. revert v V. induction l as [|t l IH]; intros v V Ho Hr; cbn [foldl].
  - intros [= <-]. exists V. split; [done|]. rewrite <- Ho. by destruct v.
  - cbn [mbind option_bind]. destruct (pop_expect t v) as [v1|] eqn:E; [|by rewrite foldl_none].
    destruct (pop_expect_live _ _ Ho Hr _ _ E) as (V1 & -> & ->). intros H.
    destruct (IH (mkV (map Some V1) (ctrls v)) V1 eq_refl Hr H) as (V' & -> & ->). eauto.
Qed.

Section Inv.
Context (wide_shift : Z -> Z -> Z).
Context (Mod : Module_) (Functions : list FunctionInstance) (Globals_ : list GlobalInstance) (GasFuncIdx : Z).
Context (native : Z -> list (WASMType * Z) -> Instance_ -> Instance_ * Z * option Z).
(** The instructions of the bodies. *)
Context (bodies : nat -> option (list point)).

(** ** Programs *)

Definition is_val (t : WASMType) : Prop := is_Some (num_of t).

Fixpoint offsets (a : Z) (l : list WASMType) : list Z :=
  match l with [] => [] | t :: l => a :: offsets (a + tcell t) l end.

(** The labels of a branch table, but for the last, take two bytes at most. *)
Definition short_labels (p : point) : Prop :=
  forall ls l gn gs gl, pt_i p = BrTable ls l -> pt_imm p = gn ++ concat gs ++ gl ->
  leb_of TU32 (Z.of_nat (length ls)) gn -> Forall2 (leb_of TU32) ls gs -> Forall (fun g => (length g <= 2)%nat) gs.

Record body_ok (Fn : FunctionInstance) (pts : list point) (vend : vstate) : Prop := {
  bo_typed : typed_body Mod (fType Fn) (fLocalTypes Fn) (fCode Fn) pts vend;
  bo_locals : fNumLocalCells Fn = tcells (fLocalTypes Fn);
  bo_offsets : fLocalOffsets Fn = offsets 0 (ParamTypes (fType Fn) ++ fLocalTypes Fn);
  bo_local_types : Forall is_val (fLocalTypes Fn);
  bo_stack k V : opds (state_at vend pts k) = map Some V -> reachable (ctrls (state_at vend pts k)) ->
    4 * tcells V <= fMaxStackSize Fn;
  bo_depth k : Z.of_nat (length (ctrls (state_at vend pts k))) <= fMaxBlockDepth Fn;
  bo_depth_max : fMaxBlockDepth Fn * sizeofBlockInfo < 2 ^ 32;
  bo_labels : Forall short_labels pts;
}.

Record func_ok (f : nat) (Fn : FunctionInstance) : Prop := {
  fo_type : getFunctionType Mod f = Some (fType Fn);
  fo_params : fNumParamCells Fn = tcells (ParamTypes (fType Fn));
  fo_returns : fNumReturnCells Fn = tcells (ReturnTypes (fType Fn));
  fo_param_types : Forall is_val (ParamTypes (fType Fn));
  fo_return_types : Forall is_val (ReturnTypes (fType Fn));
  fo_single : (length (ReturnTypes (fType Fn)) <= 1)%nat;
  fo_body : fKind Fn = ByteCode -> exists pts vend, bodies f = Some pts /\ body_ok Fn pts vend;
}.

Record program_ok : Prop := {
  po_funcs f Fn : Functions !! f = Some Fn -> func_ok f Fn;
  po_total f t : getFunctionType Mod f = Some t -> is_Some (Functions !! f);
  po_gas t : 0 <= GasFuncIdx -> getFunctionType Mod (Z.to_nat GasFuncIdx) = Some t -> t = mkType [I64] [];
  po_globals x g : (ImportGlobalTable Mod ++ InternalGlobalTable Mod) !! x = Some g ->
    exists gi, Globals_ !! x = Some gi /\ gType gi = GType g /\ is_val (GType g);
}.

(** ** Instances *)

Definition msize (i : Instance_) : Z := match iMemory i with Some m => MemSize m | None => 0 end.

Record inst_ok (i : Instance_) : Prop := {
  io_memory : NumTotalMemories Mod <> 0%nat -> is_Some (iMemory i);
  io_globals x gi : Globals_ !! x = Some gi ->
    0 <= gOffset gi /\ gOffset gi + 4 * tcell (gType gi) <= Z.of_nat (length (GlobalVarData i));
  io_table : NumTotalTables Mod <> 0%nat -> iTables i <> [];
  io_elements : Forall (fun t => Forall (fun e => e = 2 ^ 32 - 1 \/ is_Some (Functions !! Z.to_nat e)) (tElements t)) (iTables i);
}.

(** The instance of a state, and the bound of the memory that [interpret]
    keeps in a variable. *)
Definition iok (s : WState) : Prop := inst_ok (Inst s) /\ LinearMemSize s <= msize (Inst s).

Lemma inst_globals d i : inst_ok i -> length d = length (GlobalVarData i) -> inst_ok (set_GlobalVarData d i).
Proof. intros [] E. split; try done. cbn. by rewrite E. Qed.
Lemma inst_memory m i : inst_ok i -> inst_ok (set_iMemory m i).
Proof. by intros []. Qed.
Lemma inst_gas g i : inst_ok i -> inst_ok (setGas g i).
Proof. by intros []. Qed.

(** What host functions must respect. *)
Definition native_ok : Prop :=
  forall p Args i, inst_ok i -> inst_ok (native p Args i).1.1 /\ msize i <= msize (native p Args i).1.1.

(** ** Blocks *)

Section Blocks.
Context (F : TypeEntry) (pts : list point) (base : Z).

(** The address a branch to the block goes to: the start of a loop, or the END
    of another block. *)
Inductive target_ok (b : BlockInfo) (c : ctrl) (cs : list ctrl) (L : list WASMType) : Prop :=
| target_loop j p c0 :
    bLabelType b = LABEL_LOOP -> c_label c = [] -> c_if c = false -> pts !! j = Some p -> ctrls (pt_v p) = c0 :: cs ->
    alike c c0 -> c_unreachable c0 = false -> c_if c0 = false -> opds (pt_v p) = map Some L -> TargetAddr b = pos pts j ->
    target_ok b c cs L
| target_end e p c' :
    bLabelType b <> LABEL_LOOP -> c_label c = c_end c -> pts !! e = Some p -> pt_i p = End ->
    nested [] c' cs (map Some L) (pt_v p) -> alike c c' -> TargetAddr b = pos pts e ->
    target_ok b c cs L.

Record block_ok (b : BlockInfo) (c : ctrl) (cs : list ctrl) (L : list WASMType) : Prop := {
  bk_vsp : bValueStackPtr b = base + tcells L;
  bk_cells : CellNum b = tcells (c_end c);
  bk_target : target_ok b c cs L;
  bk_outer : cs = [] -> c_end c = ReturnTypes F;
}.

(** The blocks of the interpreter are the control frames of the validation,
    over the operands [V]. *)
Inductive blocks_ok : list BlockInfo -> list ctrl -> list WASMType -> Prop :=
| blocks_nil V : blocks_ok [] [] V
| blocks_cons b bs c cs V :
    (c_height c <= length V)%nat -> block_ok b c cs (low (c_height c) V) -> blocks_ok bs cs (low (c_height c) V) ->
    blocks_ok (b :: bs) (c :: cs) V.

(** Before instruction [k], with the operands [V]. *)
Record live (k : nat) (p : point) (V : list WASMType) (ip : nat) (vsp : Z) (bs : list BlockInfo) : Prop := {
  lv_point : pts !! k = Some p;
  lv_opds : opds (pt_v p) = map Some V;
  lv_reach : reachable (ctrls (pt_v p));
  lv_blocks : blocks_ok bs (ctrls (pt_v p)) V;
  lv_ip : ip = pos pts k;
  lv_vsp : vsp = base + tcells V;
}.

(** Before the END [e] of a block that a branch or an ELSE left, with the
    operands [L] below the block and its results. *)
Record leaving (e : nat) (p : point) (c : ctrl) (cs : list ctrl) (L : list WASMType)
    (ip : nat) (vsp : Z) (bs : list BlockInfo) : Prop := {
  le_point : pts !! e = Some p;
  le_end : pt_i p = End;
  le_nested : nested [] c cs (map Some L) (pt_v p);
  le_height : length L = c_height c;
  le_reach : reachable cs;
  le_blocks : blocks_ok bs (c :: cs) L;
  le_ip : ip = pos pts e;
  le_vsp : vsp = base + tcells L + tcells (c_end c);
}.

Inductive at_point (ip : nat) (vsp : Z) (bs : list BlockInfo) : Prop :=
| at_live k p V : live k p V ip vsp bs -> at_point ip vsp bs
| at_leaving e p c cs L : leaving e p c cs L ip vsp bs -> at_point ip vsp bs.

(** Blocks only need the operands below the innermost one. *)
Lemma blocks_low bs cs V V' :
  blocks_ok bs cs V ->
  match cs with [] => True | c :: _ => (c_height c <= length V')%nat /\ low (c_height c) V' = low (c_height c) V end ->
  blocks_ok bs cs V'.
Proof. intros H. destruct H as [|b bs c cs V Hh Hb H]; [constructor|]. intros [Hh' E]. constructor; [done|by rewrite E..]. Qed.

Lemma blocks_length bs cs V : blocks_ok bs cs V -> length bs = length cs.
Proof. induction 1; cbn; congruence. Qed.

(** The control frame of a block as the place it branches to has it. *)
Lemma block_moves b c c' cs L :
  block_ok b c cs L -> alike c c' -> (bLabelType b = LABEL_LOOP -> c_if c' = false) -> block_ok b c' cs L.
Proof.
  intros [E1 E2 Ht Ho] [A1 A2 A3] Hl. split; [done|by rewrite A2| |by rewrite A2].
  destruct Ht as [j p c0 H1 H2 H3 H4 H5 [B1 B2 B3] H6 H7 H8 H9|e p c0 H1 H2 H3 H4 H5 [B1 B2 B3] H6].
  - eapply (target_loop _ _ _ _ j p c0); try done; [congruence|by apply Hl|]. split; congruence.
  - eapply (target_end _ _ _ _ e p c0); try done; [congruence|]. split; congruence.
Qed.

Lemma blocks_move bs c c' cs V :
  blocks_ok bs (c :: cs) V -> alike c c' -> c_if c' = false \/ c_if c' = c_if c -> blocks_ok bs (c' :: cs) V.
Proof.
  intros H Ha Hi. inversion H as [|b bs' c1 cs1 V1 Hh Hb Hbs]; subst. pose proof Ha as [Eh _ _].
  constructor; rewrite ?Eh; try done. eapply block_moves; try done. intros Hl.
  destruct Hi as [|Ei]; [done|]. rewrite Ei. by destruct (bk_target _ _ _ _ Hb).
Qed.

(** The block at a depth. *)
Lemma blocks_at bs cs V n c :
  blocks_ok bs cs V -> cs !! n = Some c ->
  exists b L rest, bs !! n = Some b /\ drop n cs = c :: rest /\ block_ok b c rest L /\ (length L = c_height c)%nat /\
    blocks_ok (drop n bs) (c :: rest) L /\ exists K, V = K ++ L.
Proof.
  intros H. revert n. induction H as [V|b bs c0 cs V Hh Hb H IH]; intros n Hn; [done|].
  assert (exists K, V = K ++ low (c_height c0) V) as [K HK].
  { exists (take (length V - c_height c0) V). unfold low. by rewrite take_drop. }
  destruct n as [|n].
  - injection Hn as ->. exists b, (low (c_height c) V), cs. split_and!; try done; [by apply length_low| |eauto].
    constructor; rewrite ?low_exact by (by apply length_low); try done. by rewrite length_low.
  - destruct (IH n Hn) as (b' & L & rest & E1 & E2 & Hb' & HL & Hbs & K' & EK). exists b', L, rest.
    split_and!; try done. exists (K ++ K'). by rewrite <- app_assoc, <- EK, <- HK.
Qed.
End Blocks.

(** ** Frames *)

Definition fparams (Fn : FunctionInstance) : Z := tcells (ParamTypes (fType Fn)).
Definition freturns (Fn : FunctionInstance) : Z := tcells (ReturnTypes (fType Fn)).

Record frame_ok (fr : InterpFrame) (Fn : FunctionInstance) (pts : list point) : Prop := {
  fs_func : Functions !! frFuncInst fr = Some Fn;
  fs_kind : fKind Fn = ByteCode;
  fs_body : bodies (frFuncInst fr) = Some pts;
  fs_header : FrameAddr fr + sizeofInterpFrame / 4 <= ValueBasePtr fr;
  fs_bound : ValueBoundary fr = ValueBasePtr fr + fMaxStackSize Fn / 4;
  fs_locals : frLocalPtr fr + fparams Fn + fNumLocalCells Fn <= FrameAddr fr;
  fs_low : 0 <= frLocalPtr fr;
}.

Lemma fs_base {fr Fn pts} : frame_ok fr Fn pts -> FrameAddr fr <= ValueBasePtr fr.
Proof. intros Hf. pose proof (fs_header fr Fn pts Hf) as H. change (sizeofInterpFrame / 4) with 20 in H. lia. Qed.

(** The frame, its caller, the caller of that and so on: what a caller is to
    go on with is typed. *)
Inductive stack_ok (bound : Z) : list InterpFrame -> Prop :=
| stack_entry fr Fn pts :
    frame_ok fr Fn pts -> frLocalPtr fr = 0 -> freturns Fn <= bound -> stack_ok bound [fr]
| stack_call fr Fn pts prev FnP ptsP k p V rest :
    frame_ok fr Fn pts -> frame_ok prev FnP ptsP ->
    FrameAddr fr - fNumLocalCells Fn = ValueBoundary prev ->
    ValueBasePtr prev <= frLocalPtr fr -> frLocalPtr fr + freturns Fn <= ValueBoundary prev ->
    live (fType FnP) ptsP (ValueBasePtr prev) k p V (frIp prev) (frValueStackPtr prev - fparams Fn + freturns Fn) (frCtrl prev) ->
    stack_ok bound (prev :: rest) -> stack_ok bound (fr :: prev :: rest).

(** ** States *)

Record running (s : WState) (fr : InterpFrame) (rest : list InterpFrame) (Fn : FunctionInstance) (pts : list point) : Prop := {
  r_frames : Frames s = fr :: rest;
  r_stack : stack_ok (TopBoundary s) (fr :: rest);
  r_frame : frame_ok fr Fn pts;
  r_func : FuncInst s = frFuncInst fr;
  r_local : LocalPtr s = frLocalPtr fr;
  r_top : Top s = ValueBoundary fr;
  r_end : IpEnd s = length (fCode Fn);
  r_cache : cache_ok bodies (BlockAddrCache s);
  r_iok : iok s;
}.

Definition inv (s : WState) : Prop :=
  exists fr rest Fn pts, running s fr rest Fn pts /\
    at_point (fType Fn) pts (ValueBasePtr fr) (Ip s) (ValStackPtr s) (Ctrl s).

(** The entry function has returned. *)
Definition finished (s : WState) : Prop := Frames s = [] /\ Ip s = IpEnd s.

(** ** Within an instruction *)

(** What stays of the state [s0] where the instruction starts. *)
Record here (s0 s : WState) (ip : nat) (vsp : Z) : Prop := {
  h_top : Top s = Top s0;
  h_bound : TopBoundary s = TopBoundary s0;
  h_frames : Frames s = Frames s0;
  h_end : IpEnd s = IpEnd s0;
  h_ctrl : Ctrl s = Ctrl s0;
  h_local : LocalPtr s = LocalPtr s0;
  h_func : FuncInst s = FuncInst s0;
  h_cache : BlockAddrCache s = BlockAddrCache s0;
  h_iok : iok s;
  h_ip : Ip s = ip;
  h_vsp : ValStackPtr s = vsp;
}.

Lemma here_refl s : iok s -> here s s (Ip s) (ValStackPtr s).
Proof. by split. Qed.

(** Of the state, [running] only looks at the frames. *)
Lemma running_here s0 s ip vsp fr rest Fn pts :
  running s0 fr rest Fn pts -> here s0 s ip vsp -> running s fr rest Fn pts.
Proof. intros [] [E1 E2 E3 E4 E5 E6 E7 E8 Hi _ _]. split; try congruence; try done; by rewrite ?E2, ?E8. Qed.
Lemma running_Ctrl s l fr rest Fn pts : running s fr rest Fn pts -> running (set_Ctrl l s) fr rest Fn pts.
Proof. by intros []. Qed.
Lemma running_Ip s q fr rest Fn pts : running s fr rest Fn pts -> running (set_Ip q s) fr rest Fn pts.
Proof. by intros []. Qed.
Lemma running_Vsp s q fr rest Fn pts : running s fr rest Fn pts -> running (set_ValStackPtr q s) fr rest Fn pts.
Proof. by intros []. Qed.
Lemma running_Cells s c fr rest Fn pts : running s fr rest Fn pts -> running (set_Cells c s) fr rest Fn pts.
Proof. by intros []. Qed.
Lemma running_Cache s c fr rest Fn pts :
  running s fr rest Fn pts -> cache_ok bodies c -> running (set_Cache c s) fr rest Fn pts.
Proof. by intros []. Qed.

Section Here.
Context (s0 : WState) (fr : InterpFrame) (Fn : FunctionInstance).
Hypothesis Hfr : in_frame s0 fr.
Hypothesis Hfn : Functions !! FuncInst s0 = Some Fn.

Lemma here_frame s ip vsp : here s0 s ip vsp -> in_frame s fr.
Proof. intros H. unfold in_frame. by rewrite (h_frames _ _ _ _ H). Qed.

Lemma here_cells n s s' ip vsp : here s0 s ip vsp -> by_cells n s s' -> here s0 s' ip (vsp + n).
Proof.
  intros [] [[? ? ? ? ? ? ? El ? Ei] E1 E2]. split; try congruence. unfold iok in *. by rewrite Ei, El.
Qed.

Lemma here_pop T s ip vsp R :
  here s0 s ip vsp -> ValueBasePtr fr + cellsOf T <= vsp -> safe (valuePop T) (fun _ s' => here s0 s' ip (vsp - cellsOf T)) R s.
Proof.
  intros H Hv. eapply safe_mono; [apply (pop_safe _ _ fr); [by eapply here_frame|by rewrite (h_vsp _ _ _ _ H)]|].
  cbn beta. intros _ s' B. by eapply here_cells.
Qed.
Lemma here_push T v s ip vsp R :
  here s0 s ip vsp -> vsp + cellsOf T <= ValueBoundary fr -> safe (valuePush T v) (fun _ s' => here s0 s' ip (vsp + cellsOf T)) R s.
Proof.
  intros H Hv. eapply safe_mono; [apply (push_safe _ _ _ fr); [by eapply here_frame|by rewrite (h_vsp _ _ _ _ H)]|].
  cbn beta. intros _ s' B. by eapply here_cells.
Qed.
Lemma here_peek T s ip vsp R :
  here s0 s ip vsp -> ValueBasePtr fr + cellsOf T <= vsp -> safe (valuePeek T) (fun _ s' => here s0 s' ip vsp) R s.
Proof.
  intros H Hv. eapply safe_mono; [apply (peek_safe _ _ fr); [by eapply here_frame|by rewrite (h_vsp _ _ _ _ H)]|].
  by cbn beta; intros _ s' ->.
Qed.

(** The value popped is one of the type. *)
Lemma here_pop_bits T s ip vsp R :
  here s0 s ip vsp -> ValueBasePtr fr + cellsOf T <= vsp ->
  safe (valuePop T) (fun x s' => (exists b, x = of_bits T b) /\ here s0 s' ip (vsp - cellsOf T)) R s.
Proof.
  intros H Hv. pose proof (here_pop T s ip vsp R H Hv) as Hs. revert Hs. unfold safe.
  destruct (valuePop T s) as [x s'| | |] eqn:E; try done. intros H'. split; [|done]. revert E.
  unfold valuePop, curFrame, bind, gets, of_option, zen_assert, modify, ret. destruct (head (Frames s)); [|done].
  destruct (_ <=? _); [|done]. intros [= <- _]. unfold readCells. eauto.
Qed.

(** The instance changes. *)
Lemma here_set_Inst i s ip vsp : here s0 s ip vsp -> inst_ok i -> msize (Inst s) <= msize i -> here s0 (set_Inst i s) ip vsp.
Proof. intros [? ? ? ? ? ? ? ? [] ? ?] Hi Hm. split; try done. split; [done|]. cbn. lia. Qed.

Lemma here_func s ip vsp (Q : FunctionInstance -> WState -> Prop) R : here s0 s ip vsp -> Q Fn s -> safe (curFunc Functions) Q R s.
Proof.
  intros H HQ. unfold curFunc. apply safe_bind, safe_gets. unfold getFunctionInst. rewrite (h_func _ _ _ _ H).
  by eapply safe_option.
Qed.

Lemma here_set_Ip s ip vsp ip' : here s0 s ip vsp -> here s0 (set_Ip ip' s) ip' vsp.
Proof. by intros []; split. Qed.

Lemma here_fetch b s ip vsp R :
  here s0 s ip vsp -> fCode Fn !! ip = Some b -> safe (fetch Functions) (fun b' s' => b' = b /\ here s0 s' (S ip) vsp) R s.
Proof.
  intros H Hb. unfold fetch. apply safe_bind. eapply here_func; [done|]. apply safe_bind, safe_gets.
  rewrite (h_ip _ _ _ _ H). apply safe_bind. eapply safe_option; [done|]. apply safe_bind, safe_modify, safe_pure.
  split; [done|]. rewrite Nat.add_1_r. by eapply here_set_Ip.
Qed.

Lemma here_at {A} (f : list Z -> option (A * list Z)) g r x s ip vsp R :
  here s0 s ip vsp -> (0 < length g)%nat -> drop ip (fCode Fn) = g ++ r -> f (g ++ r) = Some (x, r) ->
  safe (atIp Functions f) (fun x' s' => x' = x /\ here s0 s' (ip + length g) vsp) R s.
Proof.
  intros H Hg Hd Hf. unfold atIp. apply safe_bind. eapply here_func; [done|]. apply safe_bind, safe_gets.
  rewrite (h_ip _ _ _ _ H), Hd. apply safe_bind. eapply safe_option; [done|]. apply safe_bind, safe_modify, safe_pure.
  split; [done|]. cbn [snd]. apply (f_equal length) in Hd. rewrite length_drop, length_app in Hd.
  replace (length (fCode Fn) - length r)%nat with (ip + length g)%nat by lia. by eapply here_set_Ip.
Qed.

Lemma here_leb T x g r s ip vsp R :
  here s0 s ip vsp -> drop ip (fCode Fn) = g ++ r -> leb_of T x g -> T <> TU8 -> Forall is_byte r ->
  safe (readLEB_ wide_shift Functions T) (fun x' s' => x' = x /\ here s0 s' (ip + length g) vsp) R s.
Proof.
  intros H Hd Hg HT Hr. pose proof (lo_length _ _ _ Hg). eapply here_at; [done|lia|done|]. by apply leb_of_read.
Qed.

Lemma here_fixed n g r s ip vsp R :
  here s0 s ip vsp -> drop ip (fCode Fn) = g ++ r -> length g = n -> (0 < n)%nat ->
  safe (readFixed Functions n) (fun _ s' => here s0 s' (ip + n) vsp) R s.
Proof.
  intros H Hd Hg Hn. eapply safe_mono; [eapply (here_at _ g r (le_value g)); [done|lia|done|]|].
  - unfold readFixedNumber. rewrite length_app, (proj2 (Nat.ltb_ge _ _)) by lia. subst n.
    by rewrite take_app_length, drop_app_length.
  - cbn beta. intros v s' [_ H']. by subst n.
Qed.

Lemma here_get T q s ip vsp R :
  here s0 s ip vsp -> LocalPtr s0 <= q -> q + cellsOf T <= vsp -> 0 < cellsOf T ->
  safe (valueGet T q) (fun _ s' => here s0 s' ip vsp) R s.
Proof.
  intros H H1 H2 H3. eapply safe_mono; [apply get_safe; rewrite ?(h_local _ _ _ _ H), ?(h_vsp _ _ _ _ H); done|].
  by cbn beta; intros _ s' ->.
Qed.
Lemma here_set T q v s ip vsp R :
  here s0 s ip vsp -> LocalPtr s0 <= q -> q + cellsOf T <= FrameAddr fr -> q < vsp ->
  safe (valueSet T q v) (fun _ s' => here s0 s' ip vsp) R s.
Proof.
  intros H H1 H2 H3.
  eapply safe_mono; [apply (set_safe _ _ _ _ fr); [by eapply here_frame|rewrite ?(h_local _ _ _ _ H), ?(h_vsp _ _ _ _ H); done..]|].
  cbn beta. intros _ s' B. rewrite <- (Z.add_0_r vsp). by eapply here_cells.
Qed.
End Here.
End Inv.

Arguments bo_typed {_ _ _ _} _. Arguments bo_locals {_ _ _ _} _. Arguments bo_offsets {_ _ _ _} _.
Arguments bo_local_types {_ _ _ _} _. Arguments bo_stack {_ _ _ _} _. Arguments bo_depth {_ _ _ _} _.
Arguments bo_depth_max {_ _ _ _} _. Arguments bo_labels {_ _ _ _} _. Arguments fo_type {_ _ _ _} _.
Arguments fo_params {_ _ _ _} _. Arguments fo_returns {_ _ _ _} _. Arguments fo_param_types {_ _ _ _} _.
Arguments fo_return_types {_ _ _ _} _. Arguments fo_single {_ _ _ _} _. Arguments fo_body {_ _ _ _} _. Arguments po_funcs {_ _ _ _ _} _.
Arguments po_total {_ _ _ _ _} _. Arguments po_gas {_ _ _ _ _} _. Arguments po_globals {_ _ _ _ _} _.
Arguments io_memory {_ _ _ _} _. Arguments io_globals {_ _ _ _} _. Arguments io_table {_ _ _ _} _.
Arguments io_elements {_ _ _ _} _. Arguments bk_vsp {_ _ _ _ _ _ _} _. Arguments bk_cells {_ _ _ _ _ _ _} _.
Arguments bk_target {_ _ _ _ _ _ _} _. Arguments bk_outer {_ _ _ _ _ _ _} _. Arguments lv_point {_ _ _ _ _ _ _ _ _} _.
Arguments lv_opds {_ _ _ _ _ _ _ _ _} _. Arguments lv_reach {_ _ _ _ _ _ _ _ _} _.
Arguments lv_blocks {_ _ _ _ _ _ _ _ _} _. Arguments lv_ip {_ _ _ _ _ _ _ _ _} _.
Arguments lv_vsp {_ _ _ _ _ _ _ _ _} _. Arguments le_point {_ _ _ _ _ _ _ _ _ _ _} _.
Arguments le_end {_ _ _ _ _ _ _ _ _ _ _} _. Arguments le_nested {_ _ _ _ _ _ _ _ _ _ _} _.
Arguments le_height {_ _ _ _ _ _ _ _ _ _ _} _. Arguments le_reach {_ _ _ _ _ _ _ _ _ _ _} _.
Arguments le_blocks {_ _ _ _ _ _ _ _ _ _ _} _. Arguments le_ip {_ _ _ _ _ _ _ _ _ _ _} _.
Arguments le_vsp {_ _ _ _ _ _ _ _ _ _ _} _. Arguments fs_func {_ _ _ _ _} _. Arguments fs_kind {_ _ _ _ _} _.
Arguments fs_body {_ _ _ _ _} _. Arguments fs_header {_ _ _ _ _} _. Arguments fs_base {_ _ _ _ _} _. Arguments fs_bound {_ _ _ _ _} _.
Arguments fs_locals {_ _ _ _ _} _. Arguments fs_low {_ _ _ _ _} _. Arguments r_frames {_ _ _ _ _ _ _ _ _} _.
Arguments r_stack {_ _ _ _ _ _ _ _ _} _. Arguments r_frame {_ _ _ _ _ _ _ _ _} _.
Arguments r_func {_ _ _ _ _ _ _ _ _} _. Arguments r_local {_ _ _ _ _ _ _ _ _} _.
Arguments r_top {_ _ _ _ _ _ _ _ _} _. Arguments r_end {_ _ _ _ _ _ _ _ _} _. Arguments r_cache {_ _ _ _ _ _ _ _ _} _.
Arguments r_iok {_ _ _ _ _ _ _ _ _} _. Arguments h_top {_ _ _ _ _ _ _} _. Arguments h_bound {_ _ _ _ _ _ _} _.
Arguments h_frames {_ _ _ _ _ _ _} _. Arguments h_end {_ _ _ _ _ _ _} _. Arguments h_ctrl {_ _ _ _ _ _ _} _.
Arguments h_local {_ _ _ _ _ _ _} _. Arguments h_func {_ _ _ _ _ _ _} _. Arguments h_cache {_ _ _ _ _ _ _} _.
Arguments h_iok {_ _ _ _ _ _ _} _. Arguments h_ip {_ _ _ _ _ _ _} _. Arguments h_vsp {_ _ _ _ _ _ _} _.
