(* ===== verification/WasmSafeSimple.v ===== *)
(** The instructions of the WebAssembly interpreter without control flow: from
    a typed state ([WasmSafeInv]) they are defined and lead to a typed state. *)

From stdpp Require Import gmap.
From S2P Require Import Prelude Intx Leb128 Leb128Correct WasmNum FunctionLoader WasmValid WasmInterp WasmTyped WasmBlocks WasmSafeInv.

#[local] Open Scope Z_scope.

Section Simple.
Context (wide_shift : Z -> Z -> Z).
Context (Mod : Module_) (Functions : list FunctionInstance) (Globals_ : list GlobalInstance) (GasFuncIdx : Z).
Context (enlarge : MemoryInstance -> Z -> bool).
Context (native : Z -> list (WASMType * Z) -> Instance_ -> Instance_ * Z * option Z).
Context (bodies : nat -> option (list point)).
Hypothesis Hprog : program_ok Mod Functions Globals_ GasFuncIdx bodies.

Abbreviation inv_ := (inv Mod Functions Globals_ bodies).
Abbreviation here_ := (here Mod Functions Globals_).

(** An instruction of a body, reached with the operands [V]. *)
Context (s0 : WState) (fr : InterpFrame) (rest : list InterpFrame) (Fn : FunctionInstance) (pts : list point) (vend : vstate).
Context (k : nat) (p : point) (V : list WASMType).
Hypothesis Hrun : running Mod Functions Globals_ bodies s0 fr rest Fn pts.
Hypothesis Hbody : body_ok Mod Fn pts vend.
Hypothesis Hlive : live (fType Fn) pts (ValueBasePtr fr) k p V (Ip s0) (ValStackPtr s0) (Ctrl s0).

Let base := ValueBasePtr fr.
Let v := pt_v p.
Let after := state_at vend pts (S k).

Lemma in_fr : in_frame s0 fr.
Proof. unfold in_frame. by rewrite (r_frames Hrun). Qed.
Lemma cur_fn : Functions !! FuncInst s0 = Some Fn.
Proof. rewrite (r_func Hrun). by eapply fs_func, r_frame. Qed.
Lemma body_chain : chain Mod (fType Fn) (fLocalTypes Fn) (start_state (fType Fn)) pts vend.
Proof. by eapply tb_chain, bo_typed. Qed.
Lemma body_code : fCode Fn = concat (map pt_bytes pts).
Proof. by eapply tb_code, bo_typed. Qed.
Lemma v_wf : wfv v.
Proof. eapply pt_wf; [apply body_chain|by eapply lv_point]. Qed.
Lemma v_step : step_instr Mod (fType Fn) (fLocalTypes Fn) (pt_i p) v = Some after.
Proof. by destruct (chain_step _ _ _ _ _ _ k p body_chain (lv_point Hlive)) as (_ & ? & ?). Qed.
Lemma v_op : op_ok v (pt_i p) (pt_op p) (pt_imm p).
Proof. by destruct (chain_step _ _ _ _ _ _ k p body_chain (lv_point Hlive)) as (_ & ? & ?). Qed.
Lemma v_state : state_at vend pts k = v.
Proof. unfold state_at. by rewrite (lv_point Hlive). Qed.

(** The bytes from the immediates on. *)
Lemma imm_bytes : exists r, drop (S (pos pts k)) (fCode Fn) = pt_imm p ++ r /\ Forall is_byte r /\ (pt_i p <> End -> r <> []) /\
  r = concat (map pt_bytes (drop (S k) pts)).
Proof.
  pose proof (lv_point Hlive) as Hp.
  exists (concat (map pt_bytes (drop (S k) pts))). split_and!; [| | |done].
  - pose proof (drop_pos pts k) as E. rewrite (drop_S _ _ _ Hp) in E. cbn [map concat pt_bytes app] in E.
    rewrite body_code. replace (S (pos pts k)) with (pos pts k + 1)%nat by lia. rewrite <- drop_drop, E. done.
  - eapply bytes_ok. apply body_chain.
  - intros Hi. eapply bytes_not_nil. eapply chain_next; [apply start_wf|apply body_chain| |done|done].
    by eapply tb_end, bo_typed.
Qed.
Lemma pos_next : pos pts (S k) = (S (pos pts k) + length (pt_imm p))%nat.
Proof. rewrite (pos_S _ _ _ (lv_point Hlive)). cbn. lia. Qed.

Lemma op_at : fCode Fn !! pos pts k = Some (pt_op p).
Proof.
  rewrite body_code. rewrite <- (Nat.add_0_r (pos pts k)), <- lookup_drop, drop_pos.
  by rewrite (drop_S _ _ _ (lv_point Hlive)).
Qed.

(** Room for the operands after the instruction. *)
Lemma room V' : after = mkV (map Some V') (ctrls v) -> base + tcells V' <= ValueBoundary fr.
Proof.
  intros E. rewrite (fs_bound (r_frame Hrun)). unfold base.
  pose proof (bo_stack Hbody (S k) V') as H. fold after in H. rewrite E in H.
  specialize (H eq_refl (lv_reach Hlive)).
  pose proof (Z.div_le_lower_bound (fMaxStackSize Fn) 4 (tcells V') ltac:(lia) ltac:(lia)). lia.
Qed.

(** The place after an instruction that keeps the blocks. *)
Lemma next_live V' :
  is_open (pt_i p) = false -> pt_i p <> Else -> pt_i p <> End -> after = mkV (map Some V') (ctrls v) ->
  exists p', live (fType Fn) pts base (S k) p' V' (pos pts (S k)) (base + tcells V') (Ctrl s0).
Proof.
  intros H1 H2 H3 E. destruct (lookup_lt_is_Some_2 pts (S k)) as [p' Hp'].
  { eapply chain_next; [apply start_wf|apply body_chain|by eapply tb_end, bo_typed|by eapply lv_point|done]. }
  assert (pt_v p' = mkV (map Some V') (ctrls v)) as Ep.
  { rewrite <- E. unfold after, state_at. by rewrite Hp'. }
  pose proof (step_inside _ _ _ _ _ _ v_wf H1 H2 H3 v_step) as Hin.
  destruct Hlive. exists p'. split; rewrite ?Ep; try done.
  eapply blocks_low; [done|]. unfold inside in Hin. fold v in lv_opds, lv_blocks |- *. rewrite E in Hin.
  cbn [ctrls opds] in *. destruct (ctrls v) as [|c cs]; [done|]. destruct Hin as (c' & [= <-] & _ & Hh & Hlow).
  rewrite length_map in Hh. split; [done|]. rewrite lv_opds, !low_map in Hlow.
  by apply (inj (map Some)) in Hlow.
Qed.

Lemma next_inv V' s :
  is_open (pt_i p) = false -> pt_i p <> Else -> pt_i p <> End -> after = mkV (map Some V') (ctrls v) ->
  here_ s0 s (pos pts (S k)) (base + tcells V') -> inv_ s.
Proof.
  intros H1 H2 H3 E H. exists fr, rest, Fn, pts. destruct (next_live V' H1 H2 H3 E) as [p' Hp'].
  split; [by eapply running_here|]. apply (at_live _ _ _ _ _ _ (S k) p' V').
  by rewrite (h_ip H), (h_vsp H), (h_ctrl H).
Qed.

Section At.
Context (s1 : WState) (R : WState -> Prop).
Hypothesis H1 : here_ s0 s1 (S (pos pts k)) (base + tcells V).

Abbreviation done_ := (fun (_ : unit) (s : WState) => inv_ s).

(** The next operation, by its rule. *)
Ltac here_step rule := apply safe_bind; eapply safe_mono; [eapply rule; eauto using in_fr, cur_fn|cbn beta].

Lemma opds_v : opds v = map Some V.
Proof. apply (lv_opds Hlive). Qed.
Lemma reach_v : reachable (ctrls v).
Proof. apply (lv_reach Hlive). Qed.

Lemma safe_nop : pt_i p = Nop -> pt_imm p = [] -> safe (ret tt) done_ R s1.
Proof.
  intros Hi Him. pose proof v_step as Hs. rewrite Hi in Hs. injection Hs as Hs. apply safe_pure.
  eapply (next_inv V); rewrite ?Hi; try done.
  - rewrite <- Hs, <- opds_v. by destruct v.
  - by rewrite pos_next, Him, Nat.add_0_r.
Qed.

Lemma safe_drop T :
  pt_i p = Drop -> pt_imm p = [] -> (pt_op p = 0x1a /\ T = NI TI32 \/ pt_op p = 0xc5 /\ T = NI TI64) ->
  safe (valuePop T;;; ret tt) done_ R s1.
Proof.
  intros Hi Him Hop. pose proof v_step as Hs. rewrite Hi in Hs. cbn [step_instr] in Hs.
  destruct (pop_opd v) as [[a v1]|] eqn:E; [|done]. cbn [mbind option_bind] in Hs. injection Hs as Hs.
  destruct (pop_opd_live _ _ opds_v reach_v _ _ E) as (t & V' & EV & -> & ->).
  pose proof (op_drop _ _ _ _ v_op t _ Hi E) as Hop'.
  assert (cellsOf T = tcell t) as HT.
  { unfold tcell. destruct Hop as [[Eop ->]|[Eop ->]]; rewrite Eop in Hop'; by destruct (wide t). }
  pose proof (tcells_nonneg V'). rewrite EV in H1. cbn [tcells] in H1.
  here_step here_pop; [rewrite HT; unfold base in *; lia|]. intros _ s2 H2. apply safe_pure.
  eapply (next_inv V'); rewrite ?Hi; try done. rewrite pos_next, Him, Nat.add_0_r.
  by replace (base + tcells V') with (base + (tcell t + tcells V') - cellsOf T) by lia.
Qed.

Lemma safe_select T :
  pt_i p = Select -> pt_imm p = [] -> (pt_op p = 0x1b /\ T = NI TI32 \/ pt_op p = 0xc6 /\ T = NI TI64) ->
  safe (selectOp T) done_ R s1.
Proof.
  intros Hi Him Hop. pose proof v_step as Hs. rewrite Hi in Hs. cbn [step_instr] in Hs.
  destruct (pop_expect I32 v) as [v1|] eqn:E1; [|done]. cbn [mbind option_bind] in Hs.
  destruct (pop_expect_live _ _ opds_v reach_v _ _ E1) as (V1 & EV & ->).
  destruct (pop_opd _) as [[t1 v2]|] eqn:E2 in Hs; [|done]. cbn [mbind option_bind] in Hs.
  destruct (pop_opd_live (mkV _ _) V1 eq_refl reach_v _ _ E2) as (t & V2 & EV1 & -> & ->).
  destruct (pop_opd _) as [[t2 v3]|] eqn:E3 in Hs; [|done]. cbn [mbind option_bind] in Hs.
  destruct (pop_opd_live (mkV _ _) V2 eq_refl reach_v _ _ E3) as (t' & V3 & EV2 & -> & ->).
  case_bool_decide as Et; [|done]. injection Hs as Hs. subst t' V2 V1. cbn [push_opd opds ctrls] in Hs.
  pose proof (op_select _ _ _ _ v_op t _ _ Hi E1 E2) as Hop'.
  assert (cellsOf T = tcell t) as HT.
  { unfold tcell. destruct Hop as [[Eop ->]|[Eop ->]]; rewrite Eop in Hop'; by destruct (wide t). }
  pose proof (tcells_nonneg V3). pose proof (tcell_bounds t). pose proof (room (t :: V3) (eq_sym Hs)) as Hroom.
  rewrite EV in H1. cbn [tcells] in H1, Hroom. change (tcell I32) with 1 in H1.
  here_step here_pop; [unfold base in *; change (cellsOf (NI TU32)) with 1; lia|]. intros c s2 H2.
  change (cellsOf (NI TU32)) with 1 in H2.
  here_step here_pop; [unfold base in *; lia|]. intros x1 s3 H3.
  here_step here_pop; [unfold base in *; lia|]. intros x2 s4 H4.
  assert (forall x, safe (valuePush T x) done_ R s4) as Hpush.
  { intros x. eapply safe_mono; [eapply here_push; eauto using in_fr, cur_fn; lia|]. cbn beta. intros _ s5 H5.
    eapply (next_inv (t :: V3)); rewrite ?Hi; try done. rewrite pos_next, Him, Nat.add_0_r. cbn [tcells].
    by replace (base + (tcell t + tcells V3)) with
      (base + (1 + (tcell t + (tcell t + tcells V3))) - 1 - cellsOf T - cellsOf T + cellsOf T) by lia. }
  by destruct (negb _).
Qed.

(** The rule of an instruction that replaces the operands [ins] by [outs]. *)
Lemma next_cells ins outs V' s :
  is_open (pt_i p) = false -> pt_i p <> Else -> pt_i p <> End -> V = ins ++ V' -> after = mkV (map Some (outs ++ V')) (ctrls v) ->
  here_ s0 s (pos pts (S k)) (base + tcells V - tcells ins + tcells outs) -> inv_ s.
Proof.
  intros Ho He Hn EV Ea H. eapply next_inv; try done. rewrite EV, tcells_app in H. rewrite tcells_app.
  by replace (base + (tcells outs + tcells V')) with (base + (tcells ins + tcells V') - tcells ins + tcells outs) by lia.
Qed.

Abbreviation run := (runNum wide_shift Functions).

Lemma safe_numeric ins o :
  pt_i p = Numeric ins o -> pt_imm p = [] -> in_range 0x45 0xc4 (pt_op p) = true ->
  numeric_table !! Z.to_nat (pt_op p - 0x45) = Some (ins, o) ->
  exists n, numericCase (pt_op p) = Some n /\ safe (run n) done_ R s1.
Proof.
  intros Hi Him Hr Ht.
  destruct (numeric_safe wide_shift Functions _ _ _ Hr Ht) as (n & Hn & Hsafe). exists n. split; [done|].
  pose proof v_step as Hs. rewrite Hi in Hs. cbn [step_instr] in Hs.
  destruct (pop_opds ins v) as [v1|] eqn:E1; [|done]. cbn [fmap option_fmap option_map] in Hs. injection Hs as Hs.
  destruct (pop_opds_live _ _ _ _ opds_v reach_v E1) as (V' & EV & ->). cbn [push_opd opds ctrls] in Hs.
  pose proof (room (o :: V') (eq_sym Hs)) as Hroom. pose proof (tcells_nonneg V'). cbn [tcells] in Hroom.
  assert (tcells V = tcells ins + tcells V') as Ec by (by rewrite EV, tcells_app, tcells_reverse).
  eapply safe_mono; [apply (Hsafe s1 fr)|].
  - eapply here_frame; [apply in_fr|done].
  - rewrite (h_vsp H1). unfold base. lia.
  - rewrite (h_vsp H1). lia.
  - cbn beta. intros _ s2 B. eapply (next_cells (reverse ins) [o] V'); rewrite ?Hi; try done.
    rewrite pos_next, Him, Nat.add_0_r, tcells_reverse. cbn [tcells].
    replace (base + tcells V - tcells ins + (tcell o + 0)) with (base + tcells V + (tcell o - tcells ins)) by lia.
    by eapply here_cells.
Qed.

Lemma push_const t T x g r (m : wbody Z) :
  pt_i p = Const t -> drop (S (pos pts k)) (fCode Fn) = g ++ r -> pt_imm p = g -> cellsOf T = tcell t ->
  safe m (fun _ s => here_ s0 s (S (pos pts k) + length g) (base + tcells V)) R s1 ->
  x = (y <- m;; valuePush T y) -> safe x done_ R s1.
Proof.
  intros Hi Hd Him HT Hm ->. pose proof v_step as Hs. rewrite Hi in Hs. cbn [step_instr] in Hs. injection Hs as Hs.
  unfold push_opd in Hs. rewrite opds_v in Hs. pose proof (room (t :: V) (eq_sym Hs)) as Hroom. cbn [tcells] in Hroom.
  apply safe_bind. eapply safe_mono; [exact Hm|]. cbn beta. intros y s2 H2.
  eapply safe_mono; [eapply here_push; eauto using in_fr, cur_fn; lia|]. cbn beta. intros _ s3 H3.
  eapply (next_cells [] [t] V); rewrite ?Hi; try done. rewrite pos_next, Him. cbn [tcells].
  by replace (base + tcells V - 0 + (tcell t + 0)) with (base + tcells V + cellsOf T) by lia.
Qed.

Lemma safe_const T t x :
  (T = TI32 /\ t = I32 \/ T = TI64 /\ t = I64) -> pt_i p = Const t -> leb_of T x (pt_imm p) ->
  safe (constOp wide_shift Functions T) done_ R s1.
Proof.
  intros HT Hi Hg. destruct imm_bytes as (r & Hd & Hr & _). eapply push_const; [done..| | |reflexivity].
  - by destruct HT as [[-> ->]|[-> ->]].
  - eapply safe_mono; [eapply here_leb; eauto using in_fr, cur_fn|by cbn beta; intros y s2 [_ ?]].
    by destruct HT as [[-> _]|[-> _]].
Qed.

Lemma safe_float_const T t :
  (T = F_32 /\ t = F32 \/ T = F_64 /\ t = F64) -> pt_i p = Const t -> length (pt_imm p) = Z.to_nat (fwidth T / 8) ->
  safe (floatConst Functions T) done_ R s1.
Proof.
  intros HT Hi Hg. destruct imm_bytes as (r & Hd & Hr & _). eapply push_const; [done..| | |reflexivity].
  - by destruct HT as [[-> ->]|[-> ->]].
  - rewrite Hg. eapply here_fixed; eauto using in_fr, cur_fn. destruct HT as [[-> _]|[-> _]]; vm_compute; lia.
Qed.

(** ** Variables *)

Lemma offsets_at l a i t :
  l !! i = Some t ->
  exists o, offsets a l !! i = Some (a + o) /\ 0 <= o /\ o + tcell t <= tcells l.
Proof.
  revert a i. induction l as [|t' l IH]; intros a [|i] H; try done; cbn [offsets tcells] in *.
  - injection H as ->. exists 0. pose proof (tcells_nonneg l). split; [cbn; f_equal; lia|lia].
  - destruct (IH (a + tcell t') i H) as (o & E & H2 & H3). exists (tcell t' + o). pose proof (tcell_bounds t').
    split; [etrans; [exact E|f_equal; lia]|lia].
Qed.

Lemma fn_ok : func_ok Mod bodies (frFuncInst fr) Fn.
Proof. eapply po_funcs; [done|]. by eapply fs_func, r_frame. Qed.

(** The variable that the immediate names. *)
Lemma here_local x g r t (Q : num_ty * Z -> WState -> Prop) :
  leb_of TU32 x g -> drop (S (pos pts k)) (fCode Fn) = g ++ r -> Forall is_byte r ->
  local_type (fType Fn) (fLocalTypes Fn) x = Some t ->
  (forall T q s2, here_ s0 s2 (S (pos pts k) + length g) (base + tcells V) -> cellsOf T = tcell t ->
     LocalPtr s0 <= q -> q + tcell t <= FrameAddr fr -> Q (T, q) s2) ->
  safe (localVar wide_shift Functions) Q R s1.
Proof.
  intros Hg Hd Hr Ht HQ. unfold local_type in Ht.
  here_step here_leb. intros ? s2 [-> H2]. apply safe_bind. eapply here_func; [exact cur_fn|exact H2|].
  apply safe_bind. eapply safe_option; [exact Ht|]. rewrite (bo_offsets Hbody).
  destruct (offsets_at _ 0 _ _ Ht) as (o & Eo & Ho1 & Ho2). apply safe_bind. eapply safe_option; [exact Eo|].
  apply safe_bind, safe_gets. rewrite (h_local H2).
  pose proof (fs_locals (r_frame Hrun)) as Hl. rewrite (bo_locals Hbody) in Hl. unfold fparams in Hl.
  rewrite tcells_app in Ho2. pose proof (r_local Hrun) as Hlp.
  assert (is_val t) as [T HT].
  { eapply Forall_lookup_1; [|exact Ht]. apply Forall_app_2; [apply (fo_param_types fn_ok)|apply (bo_local_types Hbody)]. }
  assert (forall T, cellsOf T = tcell t -> safe (ret (T, LocalPtr s0 + (0 + o))) Q R s2) as Hret.
  { intros T' HT'. apply safe_pure, HQ; try done; lia. }
  by destruct t; try done; apply Hret.
Qed.

Lemma frame_below : FrameAddr fr <= base.
Proof. apply (fs_base (r_frame Hrun)). Qed.

Lemma safe_local_get x :
  pt_i p = LocalGet x -> leb_of TU32 x (pt_imm p) -> safe (opGetLocal wide_shift Functions) done_ R s1.
Proof.
  intros Hi Hg. destruct imm_bytes as (r & Hd & Hr & _). pose proof v_step as Hs. rewrite Hi in Hs. cbn [step_instr] in Hs.
  destruct (local_type _ _ x) as [t|] eqn:Et; [|done]. cbn [mbind option_bind] in Hs. injection Hs as Hs.
  unfold push_opd in Hs. rewrite opds_v in Hs. pose proof (room (t :: V) (eq_sym Hs)) as Hroom. cbn [tcells] in Hroom.
  pose proof (tcells_nonneg V) as Hn0. pose proof (tcell_bounds t) as Hb0. pose proof frame_below as Hf0.
  apply safe_bind. eapply here_local; [done..|]. cbn [fst snd]. intros T q s2 H2 HT Hq1 Hq2.
  here_step here_get; [lia..|]. intros y s3 H3.
  eapply safe_mono; [eapply here_push; eauto using in_fr, cur_fn; lia|]. cbn beta. intros _ s4 H4.
  eapply (next_cells [] [t] V); rewrite ?Hi; try done. rewrite pos_next. cbn [tcells].
  by replace (base + tcells V - 0 + (tcell t + 0)) with (base + tcells V + cellsOf T) by lia.
Qed.

Lemma safe_local_set x :
  pt_i p = LocalSet x -> leb_of TU32 x (pt_imm p) -> safe (opSetLocal wide_shift Functions) done_ R s1.
Proof.
  intros Hi Hg. destruct imm_bytes as (r & Hd & Hr & _). pose proof v_step as Hs. rewrite Hi in Hs. cbn [step_instr] in Hs.
  destruct (local_type _ _ x) as [t|] eqn:Et; [|done]. cbn [mbind option_bind] in Hs.
  destruct (pop_expect_live _ _ opds_v reach_v _ _ Hs) as (V' & EV & Ea).
  pose proof (tcells_nonneg V') as Hn0. pose proof (tcell_bounds t) as Hb0. pose proof frame_below as Hf0.
  assert (tcells V = tcell t + tcells V') as Ec by (by rewrite EV).
  apply safe_bind. eapply here_local; [done..|]. cbn [fst snd]. intros T q s2 H2 HT Hq1 Hq2.
  here_step here_pop; [unfold base in *; lia|]. intros y s3 H3.
  eapply safe_mono; [eapply here_set; eauto using in_fr; lia|]. cbn beta. intros _ s4 H4.
  eapply (next_cells [t] [] V'); rewrite ?Hi; try done. rewrite pos_next. cbn [tcells].
  by replace (base + tcells V - (tcell t + 0) + 0) with (base + tcells V - cellsOf T) by lia.
Qed.

Lemma safe_local_tee x :
  pt_i p = LocalTee x -> leb_of TU32 x (pt_imm p) -> safe (opTeeLocal wide_shift Functions) done_ R s1.
Proof.
  intros Hi Hg. destruct imm_bytes as (r & Hd & Hr & _). pose proof v_step as Hs. rewrite Hi in Hs. cbn [step_instr] in Hs.
  destruct (local_type _ _ x) as [t|] eqn:Et; [|done]. cbn [mbind option_bind] in Hs.
  destruct (pop_expect t v) as [v1|] eqn:E1; [|done]. cbn [fmap option_fmap option_map] in Hs. injection Hs as Hs.
  destruct (pop_expect_live _ _ opds_v reach_v _ _ E1) as (V' & EV & ->). cbn [push_opd opds ctrls] in Hs.
  pose proof (tcells_nonneg V') as Hn0. pose proof (tcell_bounds t) as Hb0. pose proof frame_below as Hf0.
  assert (tcells V = tcell t + tcells V') as Ec by (by rewrite EV).
  apply safe_bind. eapply here_local; [done..|]. cbn [fst snd]. intros T q s2 H2 HT Hq1 Hq2.
  here_step here_peek; [unfold base in *; lia|]. intros y s3 H3.
  eapply safe_mono; [eapply here_set; eauto using in_fr; lia|]. cbn beta. intros _ s4 H4.
  eapply (next_cells [t] [t] V'); rewrite ?Hi; try done. rewrite pos_next.
  by rewrite Z.sub_add.
Qed.

(** The global that the immediate names. *)
Lemma here_global x g r e (Q : GlobalInstance -> WState -> Prop) :
  leb_of TU32 x g -> drop (S (pos pts k)) (fCode Fn) = g ++ r -> Forall is_byte r ->
  (ImportGlobalTable Mod ++ InternalGlobalTable Mod) !! Z.to_nat x = Some e ->
  (forall gi s2, here_ s0 s2 (S (pos pts k) + length g) (base + tcells V) -> Globals_ !! Z.to_nat x = Some gi ->
     gType gi = GType e -> is_val (GType e) -> Q gi s2) ->
  safe (globalVar wide_shift Functions Globals_) Q R s1.
Proof.
  intros Hg Hd Hr He HQ. here_step here_leb. intros ? s2 [-> H2].
  destruct (po_globals Hprog _ _ He) as (gi & Egi & Et & Hv). eapply safe_option; [exact Egi|]. by apply HQ.
Qed.

Lemma safe_globalNum t s (Q : num_ty -> WState -> Prop) :
  is_val t -> (forall T, cellsOf T = tcell t -> num_size T = 4 * tcell t -> Q T s) -> safe (globalNum t) Q R s.
Proof. intros [T HT] HQ. destruct t; try done; by apply safe_pure, HQ. Qed.

Lemma here_readGlobal T gi x s ip vsp :
  here_ s0 s ip vsp -> Globals_ !! x = Some gi -> num_size T = 4 * tcell (gType gi) ->
  safe (readGlobal T (gOffset gi)) (fun _ s' => here_ s0 s' ip vsp) R s.
Proof.
  intros H Hx HT. destruct (h_iok H) as [Hi _]. destruct (io_globals Hi _ _ Hx) as [Hb1 Hb2].
  unfold readGlobal. apply safe_bind, safe_gets.
  rewrite (proj2 (Z.leb_le _ _)), (proj2 (Z.leb_le _ _)) by lia. by apply safe_pure.
Qed.

Lemma here_writeGlobal T gi x y s ip vsp :
  here_ s0 s ip vsp -> Globals_ !! x = Some gi -> num_size T = 4 * tcell (gType gi) ->
  safe (writeGlobal T (gOffset gi) y) (fun _ s' => here_ s0 s' ip vsp) R s.
Proof.
  intros H Hx HT. destruct (h_iok H) as [Hi _]. destruct (io_globals Hi _ _ Hx) as [Hb1 Hb2].
  pose proof (tcell_bounds (gType gi)) as Ht.
  unfold writeGlobal. apply safe_bind, safe_gets.
  rewrite (proj2 (Z.leb_le _ _)), (proj2 (Z.leb_le _ _)) by lia. apply safe_modify, here_set_Inst; [done| |done].
  apply inst_globals; [done|]. rewrite !length_app, length_take, length_drop, length_le_bytes. lia.
Qed.

Lemma safe_global_get x :
  pt_i p = GlobalGet x -> leb_of TU32 x (pt_imm p) -> safe (opGetGlobal wide_shift Functions Globals_) done_ R s1.
Proof.
  intros Hi Hg. destruct imm_bytes as (r & Hd & Hr & _). pose proof v_step as Hs. rewrite Hi in Hs. cbn [step_instr] in Hs.
  destruct (_ !! Z.to_nat x) as [e|] eqn:Ee in Hs; [|done]. cbn [mbind option_bind] in Hs. injection Hs as Hs.
  unfold push_opd in Hs. rewrite opds_v in Hs. pose proof (room (GType e :: V) (eq_sym Hs)) as Hroom. cbn [tcells] in Hroom.
  apply safe_bind. eapply here_global; [done..|]. intros gi s2 H2 Egi Et Hv. rewrite <- Et in *.
  apply safe_bind, safe_globalNum; [done|]. intros T HT Hsz. here_step here_readGlobal. intros y s3 H3.
  eapply safe_mono; [eapply here_push; eauto using in_fr, cur_fn; lia|]. cbn beta. intros _ s4 H4.
  eapply (next_cells [] [gType gi] V); rewrite ?Hi; try done. rewrite pos_next. cbn [tcells].
  by replace (base + tcells V - 0 + (tcell (gType gi) + 0)) with (base + tcells V + cellsOf T) by lia.
Qed.

Lemma safe_global_set x :
  pt_i p = GlobalSet x -> leb_of TU32 x (pt_imm p) -> safe (opSetGlobal wide_shift Functions Globals_) done_ R s1.
Proof.
  intros Hi Hg. destruct imm_bytes as (r & Hd & Hr & _). pose proof v_step as Hs. rewrite Hi in Hs. cbn [step_instr] in Hs.
  destruct (_ !! Z.to_nat x) as [e|] eqn:Ee in Hs; [|done]. cbn [mbind option_bind] in Hs. destruct (Mutable e); [|done].
  destruct (pop_expect_live _ _ opds_v reach_v _ _ Hs) as (V' & EV & Ea).
  pose proof (tcells_nonneg V') as Hn0. assert (tcells V = tcell (GType e) + tcells V') as Ec by (by rewrite EV).
  apply safe_bind. eapply here_global; [done..|]. intros gi s2 H2 Egi Et Hv. rewrite <- Et in *.
  apply safe_bind, safe_globalNum; [done|]. intros T HT Hsz.
  here_step here_pop; [unfold base in *; lia|]. intros y s3 H3.
  eapply safe_mono; [by eapply here_writeGlobal|]. cbn beta. intros _ s4 H4.
  eapply (next_cells [gType gi] [] V'); rewrite ?Hi; try done. rewrite pos_next. cbn [tcells].
  by replace (base + tcells V - (tcell (gType gi) + 0) + 0) with (base + tcells V - cellsOf T) by lia.
Qed.

(** ** Memory *)

Lemma leb_zero : leb_of TU32 0 [0].
Proof. split; [constructor; lia|by repeat constructor|vm_compute; lia|done]. Qed.

Lemma here_memory s ip vsp (Q : MemoryInstance -> WState -> Prop) :
  here_ s0 s ip vsp -> NumTotalMemories Mod <> 0%nat ->
  (forall m, iMemory (Inst s) = Some m -> LinearMemSize s <= MemSize m -> Q m s) -> safe memory Q R s.
Proof.
  intros H Hm HQ. destruct (h_iok H) as [Hi Hl]. destruct (io_memory Hi Hm) as [m Em]. apply safe_bind, safe_gets.
  eapply safe_option; [exact Em|]. apply HQ; [done|]. unfold msize in Hl. by rewrite Em in Hl.
Qed.

Lemma safe_memory_size : pt_i p = MemorySize -> pt_imm p = [0] -> safe (opMemorySize wide_shift Functions) done_ R s1.
Proof.
  intros Hi Him. destruct imm_bytes as (r & Hd & Hr & _). pose proof v_step as Hs. rewrite Hi in Hs. cbn [step_instr] in Hs.
  destruct (Nat.eqb_spec (NumTotalMemories Mod) 0) as [|Hm]; [done|]. injection Hs as Hs.
  unfold push_opd in Hs. rewrite opds_v in Hs. pose proof (room (I32 :: V) (eq_sym Hs)) as Hroom. cbn [tcells] in Hroom.
  change (tcell I32) with (cellsOf (NI TU32)) in Hroom. rewrite Him in Hd.
  here_step (here_leb wide_shift Mod Functions Globals_ s0 Fn cur_fn TU32 0 [0]); [apply leb_zero|]. intros ? s2 [-> H2].
  apply safe_bind. eapply here_memory; [done..|]. intros m Em Hl.
  eapply safe_mono; [eapply here_push; eauto using in_fr, cur_fn; lia|]. cbn beta. intros _ s3 H3.
  eapply (next_cells [] [I32] V); rewrite ?Hi; try done. rewrite pos_next, Him. cbn [tcells].
  change (tcell I32) with (cellsOf (NI TU32)).
  by replace (base + tcells V - 0 + (cellsOf (NI TU32) + 0)) with (base + tcells V + cellsOf (NI TU32)) by lia.
Qed.

Lemma safe_memory_grow : pt_i p = MemoryGrow -> pt_imm p = [0] -> safe (opMemoryGrow wide_shift Functions enlarge) done_ R s1.
Proof.
  intros Hi Him. destruct imm_bytes as (r & Hd & Hr & _). pose proof v_step as Hs. rewrite Hi in Hs. cbn [step_instr] in Hs.
  destruct (Nat.eqb_spec (NumTotalMemories Mod) 0) as [|Hm]; [done|].
  destruct (pop_expect I32 v) as [v1|] eqn:E1; [|done]. cbn [fmap option_fmap option_map] in Hs. injection Hs as Hs.
  destruct (pop_expect_live _ _ opds_v reach_v _ _ E1) as (V' & EV & ->). cbn [push_opd opds ctrls] in Hs.
  pose proof (room (I32 :: V') (eq_sym Hs)) as Hroom. pose proof (tcells_nonneg V') as Hn0.
  assert (tcells V = tcells (I32 :: V')) as Ec by (by rewrite EV). cbn [tcells] in Hroom, Ec.
  change (tcell I32) with 1 in *. rewrite Him in Hd.
  here_step (here_leb wide_shift Mod Functions Globals_ s0 Fn cur_fn TU32 0 [0]); [apply leb_zero|]. intros ? s2 [-> H2].
  apply safe_bind. eapply here_memory; [done..|]. intros m Em Hl.
  here_step here_pop; [change (cellsOf (NI TU32)) with 1; unfold base in *; lia|]. intros d s3 H3.
  change (cellsOf (NI TU32)) with 1 in H3. destruct (growLinearMemory enlarge d m) as [ok m'].
  apply safe_bind, safe_modify. set (i' := set_iMemory m' (Inst s3)).
  assert (inst_ok Mod Functions Globals_ i') as Hi' by (apply inst_memory; apply (h_iok H3)).
  assert (forall T x, cellsOf T = 1 -> safe (valuePush T x) (fun _ s5 => by_cells 1 (set_Inst i' s3) s5) R (set_Inst i' s3)) as Hpush.
  { intros T x HT. eapply safe_mono; [apply (push_safe _ _ _ fr)|by rewrite HT].
    - change (in_frame s3 fr). eapply here_frame; [apply in_fr|exact H3].
    - change (ValStackPtr s3 + cellsOf T <= ValueBoundary fr). rewrite (h_vsp H3). lia. }
  apply safe_bind. eapply safe_mono; [by destruct ok; apply Hpush|]. cbn beta. intros _ s5 [[] Eip Evsp]. apply safe_modify.
  eapply (next_cells [I32] [I32] V'); rewrite ?Hi; try done. rewrite pos_next, Him, Z.sub_add. destruct H3.
  split; cbn in *; try congruence; [|lia]. split; cbn; rewrite q_inst; [done|]. cbn. lia.
Qed.

(** The sizes of memory accesses. *)
Definition access_fits (op : Z) : bool :=
  match numericCase op with
  | Some (ILoad D n _) => match load_table !! Z.to_nat (op - 0x28) with Some (t, m) => (cellsOf D =? tcell t) && (n =? m) | _ => false end
  | Some (IStore D n) => match store_table !! Z.to_nat (op - 0x36) with Some (t, m) => (cellsOf D =? tcell t) && (n =? m) | _ => false end
  | _ => false
  end.
Definition is_load (op : Z) : bool := match numericCase op with Some (ILoad _ _ _) => true | _ => false end.

Lemma access_checked :
  forallb (fun op => access_fits op && Bool.eqb (is_load op) (op <=? 0x35)) (map (fun n => 0x28 + Z.of_nat n) (seq 0 23)) = true.
Proof. vm_compute. reflexivity. Qed.

Lemma access_case op : 0x28 <= op <= 0x3e -> access_fits op = true /\ is_load op = (op <=? 0x35).
Proof.
  intros Hop. pose proof (proj1 (List.forallb_forall _ _) access_checked op) as H.
  apply andb_true_iff in H as [H1' H2'%Bool.eqb_prop]; [done|].
  apply List.in_map_iff. exists (Z.to_nat (op - 0x28)). split; [lia|]. apply List.in_seq. lia.
Qed.

Lemma access_sizes :
  forallb (fun e : WASMType * Z => (0 <? e.2) && (e.2 <=? 8)) (load_table ++ store_table) = true.
Proof. reflexivity. Qed.

(** A checked access lies in the memory. *)
Lemma access_in o n a s m : 
  0 <= o < 2 ^ 32 -> 0 <= a < 2 ^ 32 -> 0 < n <= 8 -> LinearMemSize s <= MemSize m ->
  (LinearMemSize s <? u64 (o + n + a)) = false -> (o + a + n <=? MemSize m) = true.
Proof.
  intros Ho Ha Hn Hl Hc%Z.ltb_ge. apply Z.leb_le. unfold u64, wrap in Hc. rewrite Z.mod_small in Hc by lia. lia.
Qed.

Lemma safe_load e a ga o go :
  in_range 0x28 0x35 (pt_op p) = true -> load_table !! Z.to_nat (pt_op p - 0x28) = Some e ->
  leb_of TU32 a ga -> leb_of TU32 o go -> pt_i p = Load e.1 a (Z.log2 e.2) -> pt_imm p = ga ++ go ->
  exists n, numericCase (pt_op p) = Some n /\ safe (run n) done_ R s1.
Proof.
  intros Hop Ht Ha Ho Hi Him. unfold in_range in Hop. apply andb_true_iff in Hop as [Hop1%Z.leb_le Hop2%Z.leb_le].
  destruct (access_case (pt_op p) ltac:(lia)) as [Hf Hl]. rewrite (proj2 (Z.leb_le _ _)) in Hl by lia.
  unfold access_fits in Hf. unfold is_load in Hl. destruct (numericCase (pt_op p)) as [n|]; [|done]. exists n. split; [done|].
  destruct n as [D n sg| | | | | | | | | | | |]; try done. rewrite Ht in Hf. destruct e as [t n0]. cbn [fst snd] in *.
  apply andb_true_iff in Hf as [HD%Z.eqb_eq ->%Z.eqb_eq].
  assert (0 < n0 <= 8) as Hn.
  { pose proof (proj1 (List.forallb_forall _ _) access_sizes (t, n0)) as Hsz. cbn [snd] in Hsz.
    apply andb_true_iff in Hsz as [?%Z.ltb_lt ?%Z.leb_le]; [done|]. apply List.in_or_app. left.
    apply list_elem_of_lookup_2 in Ht. by apply list_elem_of_In. }
  destruct imm_bytes as (r & Hd & Hr & _). rewrite Him, <- app_assoc in Hd.
  pose proof v_step as Hs. rewrite Hi in Hs. cbn [step_instr] in Hs.
  destruct (Nat.eqb_spec (NumTotalMemories Mod) 0) as [|Hm]; [done|]. cbn [orb] in Hs. destruct (_ <? a); [done|].
  destruct (pop_expect I32 v) as [v1|] eqn:E1; [|done]. cbn [fmap option_fmap option_map] in Hs. injection Hs as Hs.
  destruct (pop_expect_live _ _ opds_v reach_v _ _ E1) as (V' & EV & ->). cbn [push_opd opds ctrls] in Hs.
  pose proof (room (t :: V') (eq_sym Hs)) as Hroom. pose proof (tcells_nonneg V') as Hn0.
  assert (tcells V = tcells (I32 :: V')) as Ec by (by rewrite EV). cbn [tcells] in Hroom, Ec.
  change (tcell I32) with 1 in *. cbn [runNum]. unfold loadOp.
  here_step here_leb; [apply Forall_app_2; [by eapply lo_bytes|done]|]. intros ? s2 [-> H2].
  here_step here_leb; [by rewrite <- drop_drop, Hd, drop_app_length|]. intros ? s3 [-> H3].
  here_step here_pop_bits; [change (cellsOf (NI TU32)) with 1; unfold base in *; lia|]. intros x s4 [[b ->] H4].
  change (cellsOf (NI TU32)) with 1 in H4. apply safe_bind, safe_gets. cbn [id].
  destruct (LinearMemSize s4 <? _) eqn:Eb; [apply safe_throw|].
  apply safe_bind. eapply here_memory; [done..|]. intros m Em Hlm.
  rewrite (access_in _ _ _ s4 m (leb_of_u32 _ _ Ho) (u32_value b) Hn Hlm Eb).
  eapply safe_mono; [eapply here_push; eauto using in_fr, cur_fn; lia|]. cbn beta. intros _ s5 H5.
  eapply (next_cells [I32] [t] V'); rewrite ?Hi; try done. rewrite pos_next, Him, length_app, Nat.add_assoc. cbn [tcells].
  change (tcell I32) with 1. by replace (base + tcells V - (1 + 0) + (tcell t + 0)) with (base + tcells V - 1 + cellsOf D) by lia.
Qed.

Lemma safe_store e a ga o go :
  in_range 0x36 0x3e (pt_op p) = true -> store_table !! Z.to_nat (pt_op p - 0x36) = Some e ->
  leb_of TU32 a ga -> leb_of TU32 o go -> pt_i p = Store e.1 a (Z.log2 e.2) -> pt_imm p = ga ++ go ->
  exists n, numericCase (pt_op p) = Some n /\ safe (run n) done_ R s1.
Proof.
  intros Hop Ht Ha Ho Hi Him. unfold in_range in Hop. apply andb_true_iff in Hop as [Hop1%Z.leb_le Hop2%Z.leb_le].
  destruct (access_case (pt_op p) ltac:(lia)) as [Hf Hl]. rewrite (proj2 (Z.leb_gt _ _)) in Hl by lia.
  unfold access_fits in Hf. unfold is_load in Hl. destruct (numericCase (pt_op p)) as [n|]; [|done]. exists n. split; [done|].
  destruct n as [|D n| | | | | | | | | | |]; try done. rewrite Ht in Hf. destruct e as [t n0]. cbn [fst snd] in *.
  apply andb_true_iff in Hf as [HD%Z.eqb_eq ->%Z.eqb_eq].
  assert (0 < n0 <= 8) as Hn.
  { pose proof (proj1 (List.forallb_forall _ _) access_sizes (t, n0)) as Hsz. cbn [snd] in Hsz.
    apply andb_true_iff in Hsz as [?%Z.ltb_lt ?%Z.leb_le]; [done|]. apply List.in_or_app. right.
    apply list_elem_of_lookup_2 in Ht. by apply list_elem_of_In. }
  destruct imm_bytes as (r & Hd & Hr & _). rewrite Him, <- app_assoc in Hd.
  pose proof v_step as Hs. rewrite Hi in Hs. cbn [step_instr] in Hs.
  destruct (Nat.eqb_spec (NumTotalMemories Mod) 0) as [|Hm]; [done|]. cbn [orb] in Hs. destruct (_ <? a); [done|].
  destruct (pop_expect t v) as [v1|] eqn:E1; [|done]. cbn [mbind option_bind] in Hs.
  destruct (pop_expect_live _ _ opds_v reach_v _ _ E1) as (V1 & EV & ->).
  destruct (pop_expect_live (mkV _ _) V1 eq_refl reach_v _ _ Hs) as (V' & -> & Ea). cbn [ctrls] in Ea.
  pose proof (tcells_nonneg V') as Hn0. pose proof (tcell_bounds t) as Hb0.
  assert (tcells V = tcells (t :: I32 :: V')) as Ec by (by rewrite EV). cbn [tcells] in Ec.
  change (tcell I32) with 1 in *. cbn [runNum]. unfold storeOp.
  here_step here_leb; [apply Forall_app_2; [by eapply lo_bytes|done]|]. intros ? s2 [-> H2].
  here_step here_leb; [by rewrite <- drop_drop, Hd, drop_app_length|]. intros ? s3 [-> H3].
  here_step here_pop; [unfold base in *; lia|]. intros y s4 H4.
  here_step here_pop_bits; [change (cellsOf (NI TU32)) with 1; unfold base in *; lia|]. intros x s5 [[b ->] H5].
  change (cellsOf (NI TU32)) with 1 in H5. apply safe_bind, safe_gets. cbn [id].
  destruct (LinearMemSize s5 <? _) eqn:Eb; [apply safe_throw|].
  apply safe_bind. eapply here_memory; [done..|]. intros m Em Hlm.
  rewrite (access_in _ _ _ s5 m (leb_of_u32 _ _ Ho) (u32_value b) Hn Hlm Eb). apply safe_modify.
  eapply (next_cells [t; I32] [] V'); rewrite ?Hi; try done. rewrite pos_next, Him, length_app, Nat.add_assoc. cbn [tcells].
  change (tcell I32) with 1. replace (base + tcells V - (tcell t + (1 + 0)) + 0) with (base + tcells V - cellsOf D - 1) by lia.
  apply here_set_Inst; [done|apply inst_memory, (h_iok H5)|]. unfold msize at 1. rewrite Em. cbn. lia.
Qed.
End At.
End Simple.
