(* ===== verification/WasmSafeControl.v ===== *)
(** The blocks and branches of the WebAssembly interpreter: from a typed state
    ([WasmSafeInv]) they are defined and lead to a typed state. *)

From stdpp Require Import gmap.
From S2P Require Import Prelude Intx Leb128 Leb128Correct WasmNum FunctionLoader WasmValid WasmInterp WasmTyped WasmBlocks WasmSafeInv WasmSafeSimple.

#[local] Open Scope Z_scope.

(** ** Control frames of reachable code *)

Lemma pop_ctrl_live v V c v' :
  opds v = map Some V -> reachable (ctrls v) -> pop_ctrl v = Some (c, v') ->
  exists L cs, ctrls v = c :: cs /\ V = reverse (c_end c) ++ L /\ length L = c_height c /\ v' = mkV (map Some L) cs.
Proof.
  intros Ho Hr. unfold pop_ctrl. destruct (ctrls v) as [|c0 cs] eqn:Ec; [done|]. cbn [head mbind option_bind].
  destruct (pop_opds _ v) as [v1|] eqn:E1; [|done]. cbn [mbind option_bind].
  destruct (pop_opds_live _ _ V _ Ho ltac:(by rewrite Ec) E1) as (L & -> & ->). cbn [opds ctrls].
  destruct (Nat.eqb_spec (length (map Some L)) (c_height c0)) as [El|]; [|done]. intros [= <- <-].
  exists L, cs. rewrite length_map in El. by rewrite Ec.
Qed.

Lemma low_suffix {A} n (K L : list A) : length L = n -> low n (K ++ L) = L.
Proof. intros <-. by rewrite low_app, low_all. Qed.

Lemma tables_live ts ls v V v' :
  opds v = map Some V -> reachable (ctrls v) -> foldl (fun o l => o ≫= table_label ts l) (Some v) ls = Some v' ->
  v' = v /\ Forall (fun l => label_at l v = Some ts) ls.
Proof.
  intros Ho Hr. induction ls as [|l ls IH]; cbn [foldl]; [by intros [= ->]|]. cbn [mbind option_bind].
  destruct (table_label ts l v) as [v1|] eqn:E; [|by rewrite foldl_none]. unfold table_label in E.
  destruct (label_at l v) as [ts'|] eqn:El; [|done]. cbn [mbind option_bind] in E. case_bool_decide; [|done]. subst ts'.
  destruct (pop_opds ts v) as [v2|] eqn:Ep; [|done]. cbn [fmap option_fmap option_map] in E. injection E as <-.
  destruct (pop_opds_live _ _ V _ Ho Hr Ep) as (V' & EV & ->). rewrite push_opds_eq. cbn [opds ctrls].
  replace (mkV _ _) with v; [|destruct v as [o cs]; cbn in *; by rewrite Ho, EV, map_app, map_reverse].
  intros H. destruct (IH H). by split; [|constructor].
Qed.

Section Control.
Context (wide_shift : Z -> Z -> Z).
Context (Mod : Module_) (Functions : list FunctionInstance) (Globals_ : list GlobalInstance) (GasFuncIdx : Z).
Context (bodies : nat -> option (list point)).

Abbreviation inv_ := (inv Mod Functions Globals_ bodies).
Abbreviation here_ := (here Mod Functions Globals_).
Abbreviation running_ := (running Mod Functions Globals_ bodies).

Context (s0 : WState) (fr : InterpFrame) (rest : list InterpFrame) (Fn : FunctionInstance) (pts : list point) (vend : vstate).
Hypothesis Hrun : running_ s0 fr rest Fn pts.
Hypothesis Hbody : body_ok Mod Fn pts vend.

Let base := ValueBasePtr fr.

Abbreviation F_ := (fType Fn).
Abbreviation chain_ := (body_chain Mod Fn pts vend Hbody).
Abbreviation live_ := (live F_ pts base).
Abbreviation leaving_ := (leaving F_ pts base).
Abbreviation done_ := (fun (_ : unit) (s : WState) => inv_ s).

Lemma body_end : ctrls vend = [].
Proof. by eapply tb_end, bo_typed. Qed.

(** After an END that leaves a block. *)
Lemma point_after k : ctrls (state_at vend pts k) <> [] -> exists p, pts !! k = Some p /\ state_at vend pts k = pt_v p.
Proof.
  unfold state_at. destruct (pts !! k) as [p|]; [eauto|]. by rewrite body_end.
Qed.

Lemma live_end k p V ip vsp bs :
  live_ k p V ip vsp bs -> pt_i p = End ->
  exists c cs L, leaving_ k p c cs L ip vsp bs.
Proof.
  intros Hl Hi. destruct (chain_step _ _ _ _ _ _ k p chain_ (lv_point Hl)) as (_ & _ & Hs). rewrite Hi in Hs.
  cbn [step_instr] in Hs. destruct (pop_ctrl (pt_v p)) as [[c v']|] eqn:E; [|done].
  destruct (pop_ctrl_live _ V _ _ (lv_opds Hl) (lv_reach Hl) E) as (L & cs & Ec & -> & EL & _). exists c, cs, L.
  destruct Hl. rewrite Ec in *. apply Forall_cons_1 in lv_reach as [_ Hr]. split; try done.
  - split; [done| |]; rewrite lv_opds; [rewrite length_map, length_app; lia|]. rewrite map_app, low_suffix; [done|].
    by rewrite length_map.
  - eapply blocks_low; [done|]. rewrite low_suffix, low_exact by done. by rewrite EL.
  - rewrite tcells_app, tcells_reverse in lv_vsp. lia.
Qed.

(** The END of a block that is not the function. *)
Lemma leave_block e p c cs L ip vsp b bs :
  leaving_ e p c cs L ip vsp (b :: bs) -> cs <> [] ->
  exists p' V', live_ (S e) p' V' (S ip) vsp bs.
Proof.
  intros Hl Hcs. destruct (chain_step _ _ _ _ _ _ e p chain_ (le_point Hl)) as (_ & Hop & Hs). pose proof (le_end Hl) as Hi.
  rewrite Hi in *. destruct (end_bytes _ _ _ Hop) as [_ Him].
  assert (wfv (pt_v p)) as Hw by (eapply pt_wf; [apply chain_|apply (le_point Hl)]).
  destruct (step_end _ _ _ _ _ Hw Hs) as (c' & Ec & Eo & _). destruct (le_nested Hl) as [Ec' _ Elow]. cbn [app] in Ec'.
  rewrite Ec' in Ec. injection Ec as <- Ecs. destruct (point_after (S e)) as (p' & Hp' & Es); [by rewrite <- Ecs|].
  exists p', (reverse (c_end c) ++ L). rewrite Es in *. split; try done.
  - by rewrite Eo, Elow, map_app, map_reverse.
  - rewrite <- Ecs. apply (le_reach Hl).
  - rewrite <- Ecs. pose proof (le_blocks Hl) as Hb. inversion Hb as [|b' bs' c1 cs1 V1 Hh Hb1 Hbs]; subst.
    rewrite low_exact in Hbs by (symmetry; by rewrite (le_height Hl)).
    eapply blocks_low; [exact Hbs|]. destruct Hbs as [|b2 bs2 c2 cs2 V2 Hh2]; [done|]. rewrite low_app, length_app by done.
    split; [lia|done].
  - rewrite (le_ip Hl), (pos_S _ _ _ (le_point Hl)). unfold pt_bytes. rewrite Him. cbn. lia.
  - rewrite (le_vsp Hl), tcells_app, tcells_reverse. lia.
Qed.

(** ** Branches *)

(** A branch to label [l] with its operands on the stack. *)
Lemma here_branch s ip cs V1 ts l R :
  here_ s0 s ip (base + tcells (reverse ts ++ V1)) -> base + tcells (reverse ts ++ V1) <= ValueBoundary fr ->
  blocks_ok F_ pts base (Ctrl s0) cs V1 -> reachable cs -> 0 <= l < 2 ^ 31 ->
  c_label <$> cs !! Z.to_nat l = Some ts ->
  safe (blockPop (swrap 32 l)) done_ R s.
Proof.
  intros H Hroom Hbs Hr Hl Hc. rewrite swrap_small by (cbn; lia).
  destruct (cs !! Z.to_nat l) as [c|] eqn:Ec; [|done]. injection Hc as <-.
  destruct (blocks_at _ _ _ _ _ _ _ _ Hbs Ec) as (b & L & rest' & Eb & Er & Hb & EL & Hbs' & K & ->).
  rewrite !tcells_app, tcells_reverse in *. pose proof (tcells_nonneg K) as HK. pose proof (tcells_nonneg L) as HL.
  pose proof (running_here _ _ _ _ _ _ _ _ _ _ _ _ Hrun H) as Hrun1.
  assert (reachable rest') as Hr'.
  { assert (reachable (drop (Z.to_nat l) cs)) as Hd by (by apply Forall_drop). rewrite Er in Hd. by apply Forall_cons_1 in Hd as [_ ?]. }
  unfold blockPop. apply safe_bind, safe_gets. cbn [id]. apply safe_bind, safe_assert.
  { pose proof (lookup_lt_Some _ _ _ Eb). rewrite (h_ctrl H). rewrite !(proj2 (Z.leb_le _ _)) by lia. done. }
  apply safe_bind, safe_modify. apply safe_bind. eapply safe_option; [by rewrite (h_ctrl H)|].
  apply safe_bind, safe_modify. apply safe_bind, safe_modify. rewrite (h_ctrl H), (h_vsp H).
  set (s2 := set_Ip _ _).
  assert (running_ s2 fr rest Fn pts) as Hrun2 by (by apply running_Ip, running_Vsp, running_Ctrl).
  destruct (bk_target Hb) as [j pj c0 Hl1 Hl2 Hl3 Hj Ej Ha Hu Hif Eo Et|e pe c' Hl1 Hl2 He Hi Hn Ha Et].
  - rewrite Hl1. cbn [negb bool_decide]. rewrite bool_decide_true by done. apply safe_pure. exists fr, rest, Fn, pts.
    split; [done|]. apply (at_live _ _ _ _ _ _ j pj L). split; try done.
    + rewrite Ej. by constructor.
    + rewrite Ej. eapply blocks_move; [exact Hbs'|done|]. by left.
    + apply (bk_vsp Hb).
  - rewrite bool_decide_false by done. cbn [negb]. rewrite (bk_cells Hb), (bk_vsp Hb), <- Hl2.
    apply safe_bind. unfold moveOperands, curFrame. apply safe_bind, safe_bind, safe_gets.
    eapply safe_option; [by rewrite (r_frames Hrun2)|]. apply safe_bind, safe_gets. cbn [id].
    pose proof (tcells_nonneg (c_label c)) as Hlab. fold base.
    rewrite (proj2 (Z.leb_le _ _)), (proj2 (Z.leb_le _ _)), (proj2 (Z.leb_le _ _)) by lia. cbn [andb].
    destruct (overlaps _ _ _); [done|].
    apply safe_modify, safe_modify. exists fr, rest, Fn, pts. split; [by apply running_Vsp, running_Cells|].
    apply (at_leaving _ _ _ _ _ _ e pe c' rest' L). pose proof Ha as [A1 A2 _]. split; try done.
    + by rewrite A1.
    + change (Ctrl _) with (drop (Z.to_nat l) (Ctrl s0)). rewrite (drop_S _ _ _ Eb) in *.
      inversion Hbs' as [|b1 bs1 c1 cs1 V2 Hh Hb1 Hbs1]; subst. constructor; rewrite ?A1; try done.
      eapply block_moves; [exact Hb1|done|]. by intros.
    + cbn. by rewrite A2, <- Hl2.
Qed.

(** ** Blocks *)

Context (k : nat) (p : point) (V : list WASMType).
Hypothesis Hlive : live_ k p V (Ip s0) (ValStackPtr s0) (Ctrl s0).

Let v := pt_v p.
Let after := state_at vend pts (S k).

Abbreviation in_fr_ := (in_fr Mod Functions Globals_ bodies s0 fr rest Fn pts Hrun).
Abbreviation cur_fn_ := (cur_fn Mod Functions Globals_ bodies s0 fr rest Fn pts Hrun).
Abbreviation step_ := (v_step Mod s0 fr Fn pts vend k p V Hbody Hlive).
Abbreviation imm_ := (imm_bytes Mod s0 fr Fn pts vend k p V Hbody Hlive).
Abbreviation next_ := (pos_next s0 fr Fn pts k p V Hlive).
Abbreviation wf_ := (v_wf Mod s0 fr Fn pts vend k p V Hbody Hlive).

Lemma here_push_block s ip vsp q x n lab R (Q : unit -> WState -> Prop) :
  here_ s0 s ip vsp \/ (exists c s', s = set_Cache c s' /\ here_ s0 s' ip vsp) -> length (ctrls after) = S (length (ctrls v)) ->
  Q tt (set_Ctrl (mkBI q x n lab :: Ctrl s0) s) ->
  safe (blockPush Functions q x n lab) Q R s.
Proof.
  intros H Hlen HQ.
  assert (FuncInst s = FuncInst s0 /\ Ctrl s = Ctrl s0) as [Ef Ec].
  { destruct H as [H|(c & s' & -> & H)]; [by destruct H|]. by destruct H. }
  unfold blockPush, curFunc. apply safe_bind, safe_bind, safe_gets. unfold getFunctionInst. rewrite Ef.
  eapply safe_option; [apply cur_fn_|]. apply safe_bind, safe_gets. rewrite Ec.
  pose proof (bo_depth Hbody (S k)) as Hd. fold after in Hd. pose proof (bo_depth_max Hbody) as Hm.
  rewrite (blocks_length _ _ _ _ _ _ (lv_blocks Hlive)). unfold sizeofBlockInfo in *.
  unfold wrap. rewrite Z.mod_small by lia. rewrite (proj2 (Z.leb_le _ _)) by (fold v; lia). by apply safe_modify.
Qed.

Lemma open_next :
  is_open (pt_i p) = true -> exists c p', pts !! S k = Some p' /\ pt_v p' = after /\ ctrls after = c :: ctrls v.
Proof.
  intros Ho. destruct (opened _ _ _ _ _ chain_ k p (lv_point Hlive) Ho) as (c & Ec & _). fold after v in Ec.
  destruct (point_after (S k)) as (p' & Hp' & E); [by fold after; rewrite Ec|]. exists c, p'. by rewrite <- E.
Qed.

(** The END of the block that the instruction opens. *)
Lemma block_target c :
  is_open (pt_i p) = true -> ctrls after = c :: ctrls v ->
  exists n pe c', find_end 0 (drop (S k) (map pt_i pts)) = Some n /\ pts !! (S k + n)%nat = Some pe /\ pt_i pe = End /\
    nested [] c' (ctrls v) (low (c_height c) (opds after)) (pt_v pe) /\ alike c c' /\
    (find_else 0 (drop (S k) (map pt_i pts)) = None -> c_if c' = c_if c).
Proof.
  intros Ho Ec. pose proof (lookup_lt_Some _ _ _ (lv_point Hlive)) as Hl.
  pose proof (chain_suffix _ _ _ _ _ _ (S k) chain_ ltac:(lia)) as Hsuf.
  pose proof (at_wf _ _ _ _ _ chain_ (S k)) as Hw.
  destruct (block_end _ _ _ _ _ _ [] c _ _ Hsuf Hw (wf_nested _ [] _ _ Hw Ec) body_end)
    as (n & pe & c' & Hf & Hp & Hi & Hn & Ha & Hif).
  exists n, pe, c'. rewrite lookup_drop in Hp. rewrite List.skipn_map. by split_and!.
Qed.

Lemma here_findBlockAddr s vsp R (Q : CacheValue -> WState -> Prop) :
  here_ s0 s (pos pts (S k)) vsp -> is_open (pt_i p) = true ->
  (forall c, cache_ok bodies c -> Q (entry pts k) (set_Cache c s)) ->
  safe (findBlockAddr wide_shift Functions) Q R s.
Proof.
  intros H Ho HQ. assert (block_at pts k) as Hk by (exists p; split; [apply (lv_point Hlive)|done]).
  pose proof (r_cache Hrun) as Hc. pose proof (fs_body (r_frame Hrun)) as Hb. rewrite <- (r_func Hrun) in Hb.
  unfold findBlockAddr. apply safe_bind. eapply here_func; [apply cur_fn_|done|]. apply safe_bind, safe_gets. cbn [id].
  rewrite (h_ip H), (h_cache H), (h_func H).
  destruct (BlockAddrCache s0 !! _) as [cv|] eqn:Ecv.
  - apply safe_pure. rewrite (cached bodies Mod F_ (fLocalTypes Fn) (FuncInst s0) pts vend chain_ body_end Hb k _ cv Hk Hc Ecv).
    replace s with (set_Cache (BlockAddrCache s) s) by (by destruct s). apply HQ. by rewrite (h_cache H).
  - destruct (scan_ok wide_shift bodies Mod F_ (fLocalTypes Fn) (FuncInst s0) pts vend chain_ body_end Hb k _ Hk Hc)
      as (cache' & Es & Hc'). rewrite <- (body_code _ _ _ _ Hbody) in Es. apply safe_bind.
    eapply safe_option; [exact Es|]. apply safe_bind, safe_modify, safe_pure. cbn [fst snd]. by apply HQ.
Qed.

(** The block just opened. *)
Lemma push_blocks c q n lab V' :
  c_height c = length V' -> c_end c = option_list n -> blocks_ok F_ pts base (Ctrl s0) (ctrls v) V' ->
  target_ok pts (mkBI q (base + tcells V') (tcells (option_list n)) lab) c (ctrls v) V' ->
  blocks_ok F_ pts base (mkBI q (base + tcells V') (tcells (option_list n)) lab :: Ctrl s0) (c :: ctrls v) V'.
Proof.
  intros Hh He Hbs Ht. constructor; rewrite ?Hh, ?low_all; try done. split; cbn; try done; [by rewrite He|].
  intros Hnil. pose proof (chain_step _ _ _ _ _ _ k p chain_ (lv_point Hlive)) as [Hne _]. done.
Qed.

Section At.
Context (s1 : WState) (R : WState -> Prop).
Hypothesis H1 : here_ s0 s1 (S (pos pts k)) (base + tcells V).

Ltac here_step rule := apply safe_bind; eapply safe_mono; [eapply rule; eauto using in_fr, cur_fn|cbn beta].

(** The block type. *)
Lemma here_block b t (Q : Z -> WState -> Prop) :
  pt_imm p = [b] -> block_type [b] = Some (t, []) ->
  (forall s2, here_ s0 s2 (pos pts (S k)) (base + tcells V) -> Q (tcells (option_list t)) s2) ->
  safe (blockCells Functions) Q R s1.
Proof.
  intros Him Hb HQ. destruct imm_ as (r & Hd & _). rewrite Him in Hd.
  here_step (here_fetch Mod Functions Globals_ s0 Fn cur_fn_ b).
  { pose proof (lookup_drop (fCode Fn) (S (pos pts k)) 0) as E. rewrite Nat.add_0_r in E. by rewrite <- E, Hd. }
  intros ? s2 [-> H2]. destruct (block_byte b t [] Hb) as [_ E]. rewrite E.
  replace (S (S (pos pts k))) with (pos pts (S k)) in H2 by (rewrite next_, Him; cbn; lia).
  replace (match t with None => 0 | Some t => if wide t then 2 else 1 end) with (tcells (option_list t)).
  - by apply HQ.
  - destruct t as [t|]; [|done]. cbn. unfold tcell. by destruct (wide t).
Qed.

(** Going on inside the block. *)
Lemma enter_block c p' q V' n lab cache s2 vsp :
  here_ s0 s2 (pos pts (S k)) vsp -> vsp = base + tcells V' -> cache_ok bodies cache -> pts !! S k = Some p' -> pt_v p' = after ->
  after = mkV (map Some V') (c :: ctrls v) -> c_height c = length V' -> c_end c = option_list n -> c_unreachable c = false ->
  blocks_ok F_ pts base (Ctrl s0) (ctrls v) V' ->
  target_ok pts (mkBI q (base + tcells V') (tcells (option_list n)) lab) c (ctrls v) V' ->
  inv_ (set_Ctrl (mkBI q vsp (tcells (option_list n)) lab :: Ctrl s0) (set_Cache cache s2)).
Proof.
  intros H -> Hc Hp' Ep Ea Hh He Hu Hbs Ht. exists fr, rest, Fn, pts.
  split; [apply running_Ctrl, running_Cache; [|done]; by eapply running_here|].
  apply (at_live _ _ _ _ _ _ (S k) p' V'). split; rewrite ?Ep, ?Ea; try done.
  - constructor; [done|apply (lv_reach Hlive)].
  - by apply push_blocks.
  - apply (h_ip H).
  - apply (h_vsp H).
Qed.

Lemma end_target n pe c' c V' q lab :
  pts !! (S k + n)%nat = Some pe -> pt_i pe = End -> nested [] c' (ctrls v) (map Some V') (pt_v pe) -> alike c c' ->
  c_label c = c_end c -> lab <> LABEL_LOOP -> TargetAddr q = pos pts (S k + n) -> bLabelType q = lab ->
  target_ok pts q c (ctrls v) V'.
Proof. intros. eapply (target_end _ _ _ _ _ (S k + n)%nat pe c'); try done. congruence. Qed.

Lemma entry_end n : find_end 0 (drop (S k) (map pt_i pts)) = Some n -> cvEndPtr (entry pts k) = Some (pos pts (S k + n)).
Proof. intros E. unfold entry. cbn [cvEndPtr]. by rewrite E. Qed.

Lemma safe_block b t :
  pt_i p = Block t -> pt_imm p = [b] -> block_type [b] = Some (t, []) -> safe (opBlock wide_shift Functions) done_ R s1.
Proof.
  intros Hi Him Hb. pose proof step_ as Hs. rewrite Hi in Hs. cbn [step_instr] in Hs. injection Hs as Hs.
  unfold push_ctrl in Hs. fold v after in Hs. rewrite (lv_opds Hlive : opds v = _), length_map in Hs. symmetry in Hs.
  assert (is_open (pt_i p) = true) as Ho by (by rewrite Hi). destruct (open_next Ho) as (c & p' & Hp' & Ep & Ec).
  rewrite Hs in Ec. injection Ec as Ec. destruct (block_target c Ho ltac:(by rewrite Hs, Ec)) as (n & pe & c' & Hf & He & Hie & Hn & Ha & _).
  rewrite Hs, <- Ec in Hn. cbn [opds c_height] in Hn. rewrite low_map, low_all in Hn.
  apply safe_bind. eapply here_block; [done..|]. intros s2 H2. apply safe_bind. eapply here_findBlockAddr; [done..|].
  intros cache Hc. apply safe_bind. eapply safe_option; [by apply entry_end|]. apply safe_bind, safe_gets.
  change (ValStackPtr (set_Cache cache s2)) with (ValStackPtr s2). rewrite (h_vsp H2).
  eapply here_push_block; [right; eauto|by rewrite Hs|].
  eapply (enter_block c p' _ V t); subst c; try done. 
  - apply (lv_blocks Hlive).
  - by apply (end_target n pe c' _ V _ LABEL_BLOCK).
Qed.

Lemma safe_loop b t :
  pt_i p = Loop t -> pt_imm p = [b] -> block_type [b] = Some (t, []) -> safe (opLoop Functions) done_ R s1.
Proof.
  intros Hi Him Hb. pose proof step_ as Hs. rewrite Hi in Hs. cbn [step_instr] in Hs. injection Hs as Hs.
  unfold push_ctrl in Hs. fold v after in Hs. rewrite (lv_opds Hlive : opds v = _), length_map in Hs. symmetry in Hs.
  assert (is_open (pt_i p) = true) as Ho by (by rewrite Hi). destruct (open_next Ho) as (c & p' & Hp' & Ep & Ec).
  rewrite Hs in Ec. injection Ec as Ec.
  apply safe_bind. eapply here_block; [done..|]. intros s2 H2. apply safe_bind, safe_gets. apply safe_bind, safe_gets.
  rewrite (h_vsp H2), (h_ip H2). eapply here_push_block; [by left|by rewrite Hs|].
  replace s2 with (set_Cache (BlockAddrCache s2) s2) by (by destruct s2).
  eapply (enter_block c p' _ V t); subst c; try done.
  - rewrite (h_cache H2). apply (r_cache Hrun).
  - apply (lv_blocks Hlive).
  - eapply (target_loop _ _ _ _ _ (S k) p'); rewrite ?Ep, ?Hs; done.
Qed.

Lemma safe_else : pt_i p = Else -> pt_imm p = [] -> safe opElse done_ R s1.
Proof.
  intros Hi Him. pose proof step_ as Hs. rewrite Hi in Hs. cbn [step_instr] in Hs. fold v in Hs.
  destruct (pop_ctrl v) as [[c v1]|] eqn:E; [|done]. cbn [mbind option_bind] in Hs. destruct (c_if c) eqn:Hif; [|done].
  destruct (pop_ctrl_live v V _ _ (lv_opds Hlive) (lv_reach Hlive) E) as (L & cs & Ec & EV & EL & _).
  pose proof (lv_blocks Hlive) as Hbs. fold v in Hbs. rewrite Ec in Hbs. inversion Hbs as [|b bs c1 cs1 V1 Hh Hb Hbs1 E1]; subst.
  rewrite low_suffix in Hb, Hbs1 by done. unfold opElse. apply safe_bind, safe_gets. rewrite (h_ctrl H1), <- E1.
  apply safe_bind. eapply safe_option; [done|]. apply safe_modify. exists fr, rest, Fn, pts.
  split; [apply running_Ip; by eapply running_here|].
  destruct (bk_target Hb) as [j pj c0 _ _ Hif' _ _ _ _ _ _ _|e pe c' Hl1 Hl2 He Hie Hn Ha Et]; [congruence|].
  pose proof Ha as [A1 A2 _]. apply (at_leaving _ _ _ _ _ _ e pe c' cs L). split; try done.
  - by rewrite A1.
  - pose proof (lv_reach Hlive) as Hr. fold v in Hr. rewrite Ec in Hr. by apply Forall_cons_1 in Hr as [_ ?].
  - cbn. rewrite (h_ctrl H1), <- E1. constructor; rewrite ?A1, ?(low_exact _ L) by done; try done; [lia|].
    eapply block_moves; [exact Hb|done|by intros].
  - cbn. rewrite (h_vsp H1), A2, tcells_app, tcells_reverse. lia.
Qed.

Lemma keeps_blocks v' V' : keeps v v' -> opds v' = map Some V' -> blocks_ok F_ pts base (Ctrl s0) (ctrls v) V'.
Proof.
  intros [_ Hk] Ho. eapply blocks_low; [apply (lv_blocks Hlive)|]. fold v. destruct (ctrls v) as [|c cs]; [done|].
  destruct Hk as [H2 H3]. rewrite Ho, (lv_opds Hlive : opds v = _), ?low_map, ?length_map in *. split; [done|].
  by apply (inj (map Some)) in H3.
Qed.

(** Past an [if] without an [else], or into its [else]. *)
Lemma skip_if e pe c' V' cs cache s2 :
  here_ s0 s2 (pos pts (S k)) (base + tcells V') -> cache_ok bodies cache ->
  pts !! e = Some pe -> pt_i pe = End -> nested [] c' cs (map Some V') (pt_v pe) -> c_if c' = true ->
  blocks_ok F_ pts base (Ctrl s0) cs V' -> reachable cs -> cs <> [] ->
  inv_ (set_Ip (pos pts e + 1) (set_Cache cache s2)).
Proof.
  intros H Hc He Hi [Ec Hh Elow] Hif Hbs Hr Hcs. exists fr, rest, Fn, pts.
  split; [apply running_Ip, running_Cache; [|done]; by eapply running_here|].
  destruct (chain_step _ _ _ _ _ _ _ pe chain_ He) as (_ & Hop & Hs). rewrite Hi in *. destruct (end_bytes _ _ _ Hop) as [_ Him].
  assert (wfv (pt_v pe)) as Hw by (eapply pt_wf; [apply chain_|exact He]).
  destruct (step_end _ _ _ _ _ Hw Hs) as (c1 & Ec1 & Eo & Hnil & _). cbn [app] in Ec. rewrite Ec in Ec1.
  injection Ec1 as <- Ecs. rewrite (Hnil Hif), Elow in Eo. cbn in Eo.
  destruct (point_after (S e)) as (p' & Hp' & Es); [by rewrite <- Ecs|]. rewrite Es in *.
  apply (at_live _ _ _ _ _ _ (S e) p' V'). split; rewrite <- ?Ecs; try done.
  - cbn. by rewrite (h_ctrl H).
  - cbn [Ip set_Ip]. rewrite (pos_S _ _ _ He). unfold pt_bytes. rewrite Him. cbn. lia.
  - apply (h_vsp H).
Qed.

Lemma enter_else j pj c c' V' q t cache s2 :
  here_ s0 s2 (pos pts (S k)) (base + tcells V') -> cache_ok bodies cache ->
  pts !! j = Some pj -> pt_i pj = Else -> nested [] c' (ctrls v) (map Some V') (pt_v pj) -> alike c c' ->
  c_height c = length V' -> c_end c = option_list t -> c_label c = c_end c -> blocks_ok F_ pts base (Ctrl s0) (ctrls v) V' ->
  target_ok pts (mkBI q (base + tcells V') (tcells (option_list t)) LABEL_IF) c (ctrls v) V' ->
  inv_ (set_Ip (pos pts j + 1)
    (set_Ctrl (mkBI q (base + tcells V') (tcells (option_list t)) LABEL_IF :: Ctrl s0) (set_Cache cache s2))).
Proof.
  intros H Hc Hj Hi [Ec Hh Elow] Ha Hh' Hend Hlab Hbs Ht. exists fr, rest, Fn, pts.
  split; [apply running_Ip, running_Ctrl, running_Cache; [|done]; by eapply running_here|].
  destruct (chain_step _ _ _ _ _ _ _ pj chain_ Hj) as (_ & Hop & Hs). rewrite Hi in *.
  assert (wfv (pt_v pj)) as Hw by (eapply pt_wf; [apply chain_|exact Hj]).
  destruct (step_else _ _ _ _ _ Hw Hs) as (c1 & cs1 & Ec1 & Hif & _ & Es). cbn [app] in Ec. rewrite Ec in Ec1.
  injection Ec1 as <- <-. rewrite Elow in Es. destruct Ha as [A1 A2 A3].
  assert (pt_imm pj = []) as Him.
  { destruct (scan_class (fun _ _ => 0) _ _ _ _ [0] Hop) as [[? _]|[(_ & _ & ?)|[[? _]|(_ & ? & _)]]]; try done.
    by repeat constructor. }
  destruct (point_after (S j)) as (p' & Hp' & Es'); [by rewrite Es|]. rewrite Es' in Es.
  apply (at_live _ _ _ _ _ _ (S j) p' V'). split; rewrite ?Es; try done.
  - constructor; [done|apply (lv_reach Hlive)].
  - cbn [Ctrl set_Ip set_Ctrl ctrls]. eapply blocks_move; [by apply push_blocks| |by left].
    split; cbn; congruence.
  - cbn [Ip set_Ip]. rewrite (pos_S _ _ _ Hj). unfold pt_bytes. rewrite Him. cbn. lia.
  - apply (h_vsp H).
Qed.

Lemma ctrls_not_nil : ctrls v <> [].
Proof. by destruct (chain_step _ _ _ _ _ _ k p chain_ (lv_point Hlive)) as [Hne _]. Qed.

Lemma safe_if b t :
  pt_i p = If t -> pt_imm p = [b] -> block_type [b] = Some (t, []) -> safe (opIf wide_shift Functions) done_ R s1.
Proof.
  intros Hi Him Hb. pose proof step_ as Hs. rewrite Hi in Hs. cbn [step_instr] in Hs. fold v in Hs.
  destruct (pop_expect I32 v) as [v1|] eqn:E1; [|done]. cbn [mbind option_bind] in Hs. injection Hs as Hs.
  pose proof (keeps_expect _ _ _ wf_ E1) as Hk.
  destruct (pop_expect_live _ _ (lv_opds Hlive : opds v = _) (lv_reach Hlive) _ _ E1) as (V' & EV & ->).
  pose proof (keeps_blocks _ V' Hk eq_refl) as Hbs.
  unfold push_ctrl in Hs. cbn [opds ctrls] in Hs. fold v after in Hs. rewrite length_map in Hs. symmetry in Hs.
  assert (is_open (pt_i p) = true) as Ho by (by rewrite Hi). destruct (open_next Ho) as (c & p' & Hp' & Ep & Ec).
  rewrite Hs in Ec. injection Ec as Ec. destruct (block_target c Ho ltac:(by rewrite Hs, Ec)) as (n & pe & c' & Hf & He & Hie & Hn & Ha & Hnoelse).
  rewrite Hs, <- Ec in Hn. cbn [opds c_height] in Hn. rewrite low_map, low_all in Hn.
  pose proof (tcells_nonneg V') as Hn0. assert (tcells V = 1 + tcells V') as EcV by (by rewrite EV).
  assert (target_ok pts (mkBI (pos pts (S k + n)) (base + tcells V') (tcells (option_list t)) LABEL_IF) c (ctrls v) V') as Ht.
  { apply (end_target n pe c' _ V' _ LABEL_IF); try done. by subst c. }
  apply safe_bind. eapply here_block; [done..|]. intros s2 H2.
  here_step here_pop; [change (cellsOf (NI TI32)) with 1; unfold base in *; lia|]. intros x s3 H3.
  change (cellsOf (NI TI32)) with 1 in H3. replace (base + tcells V - 1) with (base + tcells V') in H3 by lia.
  apply safe_bind. eapply here_findBlockAddr; [done..|].
  intros cache Hc. apply safe_bind. eapply safe_option; [by apply entry_end|]. apply safe_bind, safe_gets.
  change (ValStackPtr (set_Cache cache s3)) with (ValStackPtr s3). rewrite (h_vsp H3). destruct (negb _).
  { eapply here_push_block; [right; eauto|by rewrite Hs|]. eapply (enter_block c p' _ V' t); subst c; done. }
  unfold entry at 1. cbn [cvElsePtr]. destruct (find_else 0 _) as [j|] eqn:Ej; cbn [fmap option_fmap option_map].
  - apply safe_bind. eapply here_push_block; [right; eauto|by rewrite Hs|]. apply safe_modify.
    pose proof (lookup_lt_Some _ _ _ (lv_point Hlive)) as Hlt.
    pose proof (chain_suffix _ _ _ _ _ _ (S k) chain_ ltac:(lia)) as Hsuf.
    pose proof (at_wf _ _ _ _ _ chain_ (S k)) as Hw. fold after in Hw, Hsuf.
    assert (ctrls after = [] ++ c :: ctrls v) as Eca by (by rewrite Hs, Ec).
    rewrite List.skipn_map in Ej.
    destruct (block_else _ _ _ _ _ _ [] c _ _ j Hsuf Hw (wf_nested _ [] _ _ Hw Eca) Ej) as (pj & cj & Hj & Hij & Hnj & Haj).
    rewrite lookup_drop in Hj. rewrite Hs, <- Ec in Hnj. cbn [opds c_height] in Hnj. rewrite low_map, low_all in Hnj.
    eapply (enter_else (S k + j) pj c cj V'); subst c; done.
  - apply safe_modify. eapply (skip_if (S k + n) pe c'); try done; [|apply (lv_reach Hlive)|apply ctrls_not_nil].
    rewrite (Hnoelse eq_refl). by rewrite <- Ec.
Qed.

Lemma live_room : base + tcells V <= ValueBoundary fr.
Proof.
  rewrite (fs_bound (r_frame Hrun)). fold base. pose proof (bo_stack Hbody k V) as H.
  unfold state_at in H. rewrite (lv_point Hlive) in H. specialize (H (lv_opds Hlive) (lv_reach Hlive)).
  pose proof (Z.div_le_lower_bound (fMaxStackSize Fn) 4 (tcells V) ltac:(lia) ltac:(lia)). lia.
Qed.

Lemma label_range x ts : 0 <= x < 2 ^ 32 -> label_at x v = Some ts -> 0 <= x < 2 ^ 31.
Proof.
  intros Hx Hl. unfold label_at in Hl. destruct (ctrls v !! Z.to_nat x) as [c|] eqn:E; [|done].
  apply lookup_lt_Some in E. pose proof (bo_depth Hbody k) as Hd. unfold state_at in Hd. rewrite (lv_point Hlive) in Hd.
  fold v in Hd. pose proof (bo_depth_max Hbody) as Hm. unfold sizeofBlockInfo in Hm. lia.
Qed.

(** A branch after [K] has been popped. *)
Lemma branch_now K V2 v2 ts v3 x ip s :
  V = K ++ V2 -> keeps v v2 -> v2 = mkV (map Some V2) (ctrls v) -> label_at x v2 = Some ts -> pop_opds ts v2 = Some v3 ->
  0 <= x < 2 ^ 32 -> here_ s0 s ip (base + tcells V2) -> safe (blockPop (swrap 32 x)) done_ R s.
Proof.
  intros EV Hk E2 Hl Hp Hx H. pose proof (keeps_wf _ _ wf_ Hk) as Hw2.
  pose proof (keeps_trans _ _ _ Hk (keeps_opds _ _ _ Hw2 Hp)) as Hk3. subst v2.
  destruct (pop_opds_live _ (mkV (map Some V2) _) V2 _ eq_refl (lv_reach Hlive) Hp) as (V1 & EV2 & ->).
  pose proof live_room as Hroom. rewrite EV, tcells_app in Hroom. pose proof (tcells_nonneg K) as HK.
  rewrite EV2 in H. eapply here_branch; [exact H|rewrite <- EV2; lia|by apply (keeps_blocks _ V1 Hk3)|apply (lv_reach Hlive)| |exact Hl].
  by eapply (label_range x ts).
Qed.

Lemma safe_br x : pt_i p = Br x -> leb_of TU32 x (pt_imm p) -> safe (opBr wide_shift Functions) done_ R s1.
Proof.
  intros Hi Hg. destruct imm_ as (r & Hd & Hr & _). pose proof step_ as Hs. rewrite Hi in Hs. cbn [step_instr] in Hs. fold v in Hs.
  destruct (label_at x v) as [ts|] eqn:El; [|done]. cbn [mbind option_bind] in Hs.
  destruct (pop_opds ts v) as [v1|] eqn:E1; [|done].
  here_step here_leb. intros ? s2 [-> H2].
  eapply (branch_now [] V v ts v1); try done; [by apply keeps_refl, wf_| |by eapply leb_of_u32].
  unfold v. rewrite <- (lv_opds Hlive). by destruct (pt_v p).
Qed.

Lemma safe_br_if x : pt_i p = BrIf x -> leb_of TU32 x (pt_imm p) -> safe (opBrIf wide_shift Functions) done_ R s1.
Proof.
  intros Hi Hg. destruct imm_ as (r & Hd & Hr & _). pose proof step_ as Hs. rewrite Hi in Hs. cbn [step_instr] in Hs. fold v in Hs.
  destruct (pop_expect I32 v) as [v1|] eqn:E1; [|done]. cbn [mbind option_bind] in Hs.
  pose proof (keeps_expect _ _ _ wf_ E1) as Hk.
  destruct (pop_expect_live _ _ (lv_opds Hlive : opds v = _) (lv_reach Hlive) _ _ E1) as (V2 & EV & ->).
  destruct (label_at x _) as [ts|] eqn:El; [|done]. cbn [mbind option_bind] in Hs.
  destruct (pop_opds ts _) as [v2|] eqn:E2; [|done]. cbn [fmap option_fmap option_map] in Hs. injection Hs as Hs.
  destruct (pop_opds_live _ (mkV (map Some V2) _) V2 _ eq_refl (lv_reach Hlive) E2) as (V3 & EV2 & ->).
  rewrite push_opds_eq in Hs. cbn [opds ctrls] in Hs. rewrite <- map_reverse, <- map_app, <- EV2 in Hs.
  pose proof (tcells_nonneg V2) as Hn0. assert (tcells V = 1 + tcells V2) as EcV by (by rewrite EV).
  here_step here_leb. intros ? s2 [-> H2].
  here_step here_pop; [change (cellsOf (NI TI32)) with 1; unfold base in *; lia|]. intros cnd s3 H3.
  change (cellsOf (NI TI32)) with 1 in H3. replace (base + tcells V - 1) with (base + tcells V2) in H3 by lia.
  destruct (negb _).
  - eapply (branch_now [I32] V2 _ ts); try done. by eapply leb_of_u32.
  - apply safe_pure. eapply next_inv; [exact Hrun|exact Hbody|exact Hlive|by rewrite Hi..|by symmetry|].
    by rewrite next_.
Qed.

(** The labels of a branch table are skipped. *)
Lemma here_skip gs j r ip vsp s (Q : unit -> WState -> Prop) :
  here_ s0 s ip vsp -> drop ip (fCode Fn) = concat gs ++ r -> (j <= length gs)%nat -> Forall closed gs ->
  Forall (fun g => (0 < length g <= 2)%nat) gs -> r <> [] ->
  (forall s', here_ s0 s' (ip + length (concat (take j gs))) vsp -> Q tt s') -> safe (skipTargets Functions j) Q R s.
Proof.
  revert gs ip s. induction j as [|j IH]; intros gs ip s H Hd Hj Hc Hl Hr HQ; cbn [skipTargets].
  - apply safe_pure, HQ. by rewrite Nat.add_0_r.
  - destruct gs as [|g gs]; [cbn in Hj; lia|]. cbn [concat] in Hd. rewrite <- app_assoc in Hd.
    apply Forall_cons_1 in Hc as [Hc1 Hc2]. apply Forall_cons_1 in Hl as [Hl1 Hl2].
    here_step (here_at Mod Functions Globals_ s0 Fn cur_fn_ (A := unit)); [lia| |].
    + rewrite (closed_skip TU8 g) by (done || (rewrite MaxBytes_values; cbn; lia) || by apply app_not_nil). done.
    + intros ? s2 [-> H2]. eapply (IH gs); [exact H2|by rewrite <- drop_drop, Hd, drop_app_length|cbn in Hj; lia|done..|].
      intros s3 H3. apply HQ. cbn [take concat]. rewrite length_app. by rewrite Nat.add_assoc.
Qed.

Lemma safe_br_table ls l gn gs gl :
  pt_i p = BrTable ls l -> pt_imm p = gn ++ concat gs ++ gl -> leb_of TU32 (Z.of_nat (length ls)) gn ->
  Forall2 (leb_of TU32) ls gs -> leb_of TU32 l gl -> safe (opBrTable wide_shift Functions) done_ R s1.
Proof.
  intros Hi Him Hgn Hgs Hgl. destruct imm_ as (r & Hd & Hr & Hne & _). rewrite Him, <- !app_assoc in Hd.
  pose proof step_ as Hs. rewrite Hi in Hs. cbn [step_instr] in Hs. fold v in Hs.
  destruct (pop_expect I32 v) as [v1|] eqn:E1; [|done]. cbn [mbind option_bind] in Hs.
  pose proof (keeps_expect _ _ _ wf_ E1) as Hk.
  destruct (pop_expect_live _ _ (lv_opds Hlive : opds v = _) (lv_reach Hlive) _ _ E1) as (V2 & EV & ->).
  destruct (label_at l _) as [ts|] eqn:El; [|done]. cbn [mbind option_bind] in Hs.
  destruct (foldl _ _ ls) as [v2|] eqn:E2 in Hs; [|done]. cbn [mbind option_bind] in Hs.
  destruct (tables_live _ _ (mkV _ _) V2 _ eq_refl (lv_reach Hlive) E2) as [-> Hls].
  destruct (pop_opds ts _) as [v3|] eqn:E3; [|done].
  pose proof (tcells_nonneg V2) as Hn0. assert (tcells V = 1 + tcells V2) as EcV by (by rewrite EV).
  assert (Forall is_byte (concat gs ++ gl ++ r)) as Hbytes.
  { apply Forall_app_2; [by eapply concat_bytes|]. apply Forall_app_2; [by eapply lo_bytes|done]. }
  assert (Forall (fun g => (0 < length g <= 2)%nat) gs) as Hshort.
  { pose proof (bo_labels Hbody) as Hlab. rewrite Forall_lookup in Hlab.
    pose proof (Hlab _ _ (lv_point Hlive) ls l gn gs gl Hi Him Hgn Hgs) as H2. clear -H2 Hgs.
    induction Hgs as [|x g ls gs Hg Hgs IH]; [constructor|]. apply Forall_cons_1 in H2 as [H2 H3].
    constructor; [pose proof (lo_length _ _ _ Hg); lia|by apply IH]. }
  assert (Forall closed gs) as Hclosed by (clear -Hgs; induction Hgs; constructor; [by eapply lo_closed|done]).
  assert (length ls = length gs) as Hlen by (by eapply Forall2_length).
  here_step here_leb. intros ? s2 [-> H2].
  here_step here_pop_bits; [change (cellsOf (NI TU32)) with 1; unfold base in *; lia|]. intros ? s3 [[b ->] H3].
  change (cellsOf (NI TU32)) with 1 in H3. replace (base + tcells V - 1) with (base + tcells V2) in H3 by lia.
  pose proof (u32_value b) as Hb. set (j := Z.to_nat (Z.min (Z.of_nat (length ls)) (of_bits (NI TU32) b))).
  assert (j <= length ls)%nat as Hj by lia. cbn zeta. apply safe_bind.
  eapply (here_skip gs j (gl ++ r)); [exact H3|by rewrite <- drop_drop, Hd, drop_app_length|lia|done..| |].
  { by eapply leb_not_nil. }
  intros s4 H4.
  assert (exists x g r', leb_of TU32 x g /\ Forall is_byte r' /\
    drop (S (pos pts k) + length gn + length (concat (take j gs))) (fCode Fn) = g ++ r' /\
    label_at x (mkV (map Some V2) (ctrls v)) = Some ts) as (x & g & r' & Hg & Hr' & Hd' & Hx).
  { rewrite <- !drop_drop, Hd, drop_app_length.
    assert (drop (length (concat (take j gs))) (concat gs ++ gl ++ r) = concat (drop j gs) ++ gl ++ r) as ->.
    { rewrite <- (take_drop j gs) at 2. by rewrite concat_app, <- app_assoc, drop_app_length. }
    destruct (drop j gs) as [|g gs'] eqn:Eg.
    - exists l, gl, r. cbn. by split_and!.
    - assert (gs !! j = Some g) as Egj.
      { pose proof (lookup_drop gs j 0) as E. rewrite Eg, Nat.add_0_r in E. by rewrite <- E. }
      destruct (Forall2_lookup_r _ _ _ _ _ Hgs Egj) as (x & Ex & Hg). exists x, g, (concat gs' ++ gl ++ r).
      split_and!; [done| |by cbn; rewrite <- app_assoc|].
      + apply Forall_app_2; [|apply Forall_app_2; [by eapply lo_bytes|done]].
        assert (Forall is_byte (concat (drop j gs))) as Hb'.
        { apply Forall_concat. apply Forall_drop. clear -Hgs. induction Hgs; constructor; [by eapply lo_bytes|done]. }
        rewrite Eg in Hb'. cbn in Hb'. by apply Forall_app in Hb' as [_ ?].
      + rewrite Forall_lookup in Hls. exact (Hls _ _ Ex). }
  here_step here_leb. intros ? s5 [-> H5].
  eapply (branch_now [I32] V2 _ ts v3); try done. by eapply leb_of_u32.
Qed.
End At.
End Control.
