(* ===== verification/WasmSafeCall.v ===== *)
(** Calls and returns of the WebAssembly interpreter: from a typed state
    ([WasmSafeInv]) they are defined and lead to a typed state, or end the
    entry function; and every instruction keeps the instance well-formed. *)

From stdpp Require Import gmap.
From S2P Require Import Prelude Intx Leb128 Leb128Correct FunctionLoader WasmValid WasmNum WasmInterp WasmTyped WasmBlocks WasmSafeInv WasmSafeSimple WasmSafeControl.

#[local] Open Scope Z_scope.

Lemma cells_bytes n : Z.shiftl n 2 / 4 = n.
Proof. rewrite Z.shiftl_mul_pow2 by lia. by apply Z.div_mul. Qed.

Section Call.
Context (wide_shift : Z -> Z -> Z).
Context (Mod : Module_) (Functions : list FunctionInstance) (Globals_ : list GlobalInstance) (GasFuncIdx : Z).
Context (native : Z -> list (WASMType * Z) -> Instance_ -> Instance_ * Z * option Z).
Context (bodies : nat -> option (list point)).
Hypothesis Hprog : program_ok Mod Functions Globals_ GasFuncIdx bodies.
Hypothesis Hnative : native_ok Mod Functions Globals_ native.

Abbreviation inv_ := (inv Mod Functions Globals_ bodies).
Abbreviation here_ := (here Mod Functions Globals_).
Abbreviation running_ := (running Mod Functions Globals_ bodies).

(** ** The start of a function *)

Lemma fn_body f Fn pts : Functions !! f = Some Fn -> fKind Fn = ByteCode -> bodies f = Some pts -> exists vend, body_ok Mod Fn pts vend.
Proof.
  intros Hf Hk Hb. destruct (fo_body (po_funcs Hprog _ _ Hf) Hk) as (pts' & vend & Hb' & H). rewrite Hb in Hb'.
  injection Hb' as <-. eauto.
Qed.

(** Nothing follows the END of a function. *)
Lemma last_end Fn pts vend e p :
  body_ok Mod Fn pts vend -> pts !! e = Some p -> pt_i p = End -> length (ctrls (pt_v p)) = 1%nat ->
  length (fCode Fn) = S (pos pts e).
Proof.
  intros Hbody He Hi Hlen. pose proof (body_chain _ _ _ _ Hbody) as Hc.
  destruct (chain_step _ _ _ _ _ _ e p Hc He) as (_ & Hop & Hs). rewrite Hi in *.
  destruct (end_bytes _ _ _ Hop) as [_ Him].
  destruct (step_end _ _ _ _ _ (pt_wf _ _ _ _ _ Hc e p He) Hs) as (c & Ec & _).
  assert (ctrls (state_at vend pts (S e)) = []) as En.
  { rewrite Ec in Hlen. cbn in Hlen. by destruct (ctrls _). }
  rewrite (body_code _ _ _ _ Hbody).
  assert (length pts = S e) as El.
  { destruct (pts !! S e) as [p'|] eqn:E.
    - destruct (chain_step _ _ _ _ _ _ _ _ Hc E) as [Hne _]. unfold state_at in En. rewrite E in En. done.
    - apply lookup_ge_None in E. apply lookup_lt_Some in He. lia. }
  rewrite <- (firstn_all pts) at 1. rewrite El. fold (pos pts (S e)). rewrite (pos_S _ _ _ He). unfold pt_bytes.
  rewrite Him. cbn. lia.
Qed.

(** The block of a function. *)
Lemma function_live Fn pts vend base :
  body_ok Mod Fn pts vend ->
  exists p, live (fType Fn) pts base 0 p [] 0 base
    [mkBI (length (fCode Fn) - 1) base (freturns Fn) LABEL_FUNCTION].
Proof.
  intros Hbody. pose proof (body_chain _ _ _ _ Hbody) as Hc. pose proof (chain_start _ _ _ _ _ _ Hc) as E0.
  destruct (point_after _ _ _ _ Hbody 0) as (p & Hp & Ep); [by rewrite E0|]. rewrite E0 in Ep. exists p.
  split; rewrite <- ?Ep; try done; [by repeat constructor| |cbn; lia].
  constructor; [done| |constructor]. rewrite low_exact by done. split; cbn; try done; [lia|].
  set (c := mkCtrl _ _ _ _ _).
  destruct (block_end _ _ _ _ _ _ [] c [] _ Hc (start_wf _) (wf_nested _ [] _ _ (start_wf _) eq_refl)
    (body_end _ _ _ _ Hbody)) as (n & pe & c' & _ & He & Hi & Hn & Ha & _).
  eapply (target_end _ _ _ _ _ n pe c'); try done.
  pose proof (ne_ctrls _ _ _ _ _ Hn) as Ec. cbn [TargetAddr].
  rewrite (last_end _ _ _ n pe Hbody He Hi); [lia|by rewrite Ec].
Qed.

Lemma safe_enter s fr rest Fn pts R :
  running_ s fr rest Fn pts -> Ip s = 0%nat -> ValStackPtr s = ValueBasePtr fr -> Ctrl s = [] ->
  safe (pushFunctionBlock Functions Fn) (fun _ s' => inv_ s') R s.
Proof.
  intros Hrun Eip Ev Ec. pose proof (r_frame Hrun) as Hfr.
  destruct (fn_body _ _ _ (fs_func Hfr) (fs_kind Hfr) (fs_body Hfr)) as [vend Hbody].
  pose proof (bo_depth Hbody 0) as Hd. pose proof (bo_depth_max Hbody) as Hm.
  rewrite (chain_start _ _ _ _ _ _ (body_chain _ _ _ _ Hbody)) in Hd. cbn [length ctrls start_state push_ctrl] in Hd.
  unfold pushFunctionBlock, blockPush, curFunc, getFunctionInst. apply safe_bind, safe_gets. cbn [id].
  apply safe_bind, safe_bind, safe_gets. rewrite (r_func Hrun). eapply safe_option; [apply (fs_func Hfr)|].
  apply safe_bind, safe_gets. rewrite Ec. cbn [length]. unfold sizeofBlockInfo in *. unfold wrap. rewrite Z.mod_small by lia.
  rewrite (proj2 (Z.leb_le _ _)) by lia. apply safe_modify. exists fr, rest, Fn, pts. split; [by apply running_Ctrl|].
  destruct (function_live Fn pts vend (ValueBasePtr fr) Hbody) as [p Hp]. eapply at_live. cbn.
  rewrite Eip, Ev, (r_end Hrun), (fo_returns (po_funcs Hprog _ _ (fs_func Hfr))). exact Hp.
Qed.

(** The frame that [allocFrame] makes for a callee. *)
Definition callee_frame (f : nat) (Callee : FunctionInstance) (top lp : Z) : InterpFrame :=
  let addr := top + fNumLocalCells Callee in
  let vb := addr + sizeofInterpFrame / 4 + u32 (fMaxBlockDepth Callee * sizeofBlockInfo) / 4 in
  mkFrame addr f 0 vb vb (vb + fMaxStackSize Callee / 4) [] lp.

Lemma safe_allocFrame f Callee lp s R (Q : bool -> WState -> Prop) :
  Functions !! f = Some Callee -> Q false s ->
  (forall c, Q true (set_Frames (ValueBoundary (callee_frame f Callee (Top s) lp))
     (callee_frame f Callee (Top s) lp :: Frames s) (set_Cells c s))) ->
  safe (allocFrame Functions f lp) Q R s.
Proof.
  intros Hf H1 H2. unfold allocFrame, getFunctionInst. apply safe_bind. eapply safe_option; [exact Hf|].
  apply safe_bind, safe_gets. destruct (_ <=? _); [by apply safe_pure|]. rewrite cells_bytes.
  apply safe_bind, safe_modify. apply safe_bind, safe_modify, safe_pure. apply H2.
Qed.

Lemma callee_ok f Callee ptsC vendC lp top :
  Functions !! f = Some Callee -> fKind Callee = ByteCode -> bodies f = Some ptsC -> body_ok Mod Callee ptsC vendC ->
  0 <= lp -> lp + fparams Callee <= top -> frame_ok Functions bodies (callee_frame f Callee top lp) Callee ptsC.
Proof.
  intros Hf Hk Hb Hok Hl1 Hl2. assert (0 <= u32 (fMaxBlockDepth Callee * sizeofBlockInfo) / 4) as Hu.
  { apply Z.div_pos; [|lia]. apply (wrap_range 32). lia. }
  split; try done; unfold callee_frame; cbn [FrameAddr ValueBasePtr frLocalPtr]; [|lia].
  change (sizeofInterpFrame / 4) with 20. lia.
Qed.

(** ** Returns *)

Lemma frame_fn fr Fn Fn' pts pts' :
  frame_ok Functions bodies fr Fn pts -> frame_ok Functions bodies fr Fn' pts' -> Fn = Fn' /\ pts = pts'.
Proof. intros [E1 _ E2 _ _ _ _] [E3 _ E4 _ _ _ _]. split; congruence. Qed.

Lemma single_cells ts : (length ts <= 1)%nat -> tcells ts <= 2.
Proof. destruct ts as [|t [|]]; simpl; [lia| |lia]. unfold tcell. intros _. destruct (wide t); lia. Qed.

Section Leave.
Context (s0 : WState) (fr : InterpFrame) (rest : list InterpFrame) (Fn : FunctionInstance) (pts : list point) (vend : vstate).
Hypothesis Hrun : running_ s0 fr rest Fn pts.
Hypothesis Hbody : body_ok Mod Fn pts vend.

Lemma fn_ok_ : func_ok Mod bodies (frFuncInst fr) Fn.
Proof. eapply po_funcs; [exact Hprog|]. apply (fs_func (r_frame Hrun)). Qed.

Lemma rest_cases : rest = [] \/ exists prev rest', rest = prev :: rest'.
Proof. destruct rest; eauto. Qed.

(** What a return does up to the change of frames. *)
Definition returned (s : WState) : Prop :=
  exists c, s = set_Cells c (set_Frames (FrameAddr fr - fNumLocalCells Fn) (Frames s0) s0).

Lemma safe_results R (Q : unit -> WState -> Prop) (m : wbody unit) :
  ValueBasePtr fr + freturns Fn <= ValStackPtr s0 ->
  (forall s, returned s -> safe m Q R s) -> safe (freeFrame Fn;;; copyResults Fn;;; m) Q R s0.
Proof.
  intros Hv Hm. pose proof (r_frame Hrun) as Hfr. pose proof (tcells_nonneg (ParamTypes (fType Fn))) as Hp.
  pose proof (fs_locals Hfr) as Hl. pose proof (fs_low Hfr) as H0. unfold fparams in *.
  unfold freeFrame, curFrame. apply safe_bind, safe_bind, safe_bind, safe_gets.
  eapply safe_option; [by rewrite (r_frames Hrun)|]. rewrite cells_bytes.
  apply safe_bind, safe_assert; [apply Z.leb_le; lia|]. apply safe_modify.
  unfold copyResults, curFrame. apply safe_bind, safe_bind, safe_gets. apply safe_bind, safe_bind, safe_gets.
  cbn [Frames set_Frames id]. rewrite (r_frames Hrun). eapply safe_option; [done|]. cbn [tail].
  rewrite (fo_returns fn_ok_). fold (freturns Fn).
  assert (exists lo hi, match rest with [] => (0, TopBoundary s0) | prev :: _ => (ValueBasePtr prev, ValueBoundary prev) end = (lo, hi)
    /\ lo <= LocalPtr s0 /\ LocalPtr s0 + freturns Fn <= hi) as (lo & hi & Elh & Hlo & Hhi).
  { rewrite (r_local Hrun). pose proof (r_stack Hrun) as Hs. inversion Hs as [fr1 Fn1 pts1 Hf1 E1 E2|
      fr1 Fn1 pts1 prev FnP ptsP k p V rest1 Hf1 Hf2 E1 E2 E3 E4 E5]; subst.
    - exists 0, (TopBoundary s0). rewrite E1.
      destruct (frame_fn _ _ _ _ _ Hfr Hf1) as [-> _]. split_and!; [done|lia|lia].
    - exists (ValueBasePtr prev), (ValueBoundary prev). destruct (frame_fn _ _ _ _ _ Hfr Hf1) as [-> _].
      by split_and!. }
  change (TopBoundary (set_Frames _ _ s0)) with (TopBoundary s0). rewrite Elh.
  change (LocalPtr (set_Frames _ _ s0)) with (LocalPtr s0).
  change (ValStackPtr (set_Frames _ _ s0)) with (ValStackPtr s0).
  rewrite !(proj2 (Z.leb_le _ _)) by lia. pose proof (fs_header Hfr) as Hbase. change (sizeofInterpFrame / 4) with 20 in Hbase.
  assert (overlaps (LocalPtr s0) (ValStackPtr s0 - freturns Fn) (freturns Fn) = false) as ->.
  { apply Z.ltb_ge. rewrite (r_local Hrun). pose proof (single_cells _ (fo_single fn_ok_)).
    pose proof (tcells_nonneg (fLocalTypes Fn)). pose proof (bo_locals Hbody). unfold freturns in *. lia. }
  cbn [andb negb]. apply safe_modify. apply Hm. by eexists; rewrite (r_frames Hrun).
Qed.

Abbreviation end_ := (fun (_ : unit) (s : WState) => inv_ s \/ finished s).

(** The caller goes on. *)
Lemma safe_caller R s prev rest' :
  returned s -> rest = prev :: rest' -> safe (leaveFrame Functions Fn) end_ R s.
Proof.
  intros [cs ->] Er. pose proof (r_stack Hrun) as Hs. pose proof (r_frame Hrun) as Hfr. rewrite Er in Hs.
  inversion_clear Hs as [|? Fn1 pts1 ? FnP ptsP k p V ? Hf1 Hf2 E1 E2 E3 Hlv Hst].
  destruct (frame_fn _ _ _ _ _ Hf1 Hfr) as [-> _].
  unfold leaveFrame. apply safe_bind, safe_gets. cbn [Frames set_Cells set_Frames id]. rewrite (r_frames Hrun), Er. cbn [tail].
  apply safe_bind. eapply safe_option; [apply (fs_func Hf2)|]. apply safe_modify. left. exists prev, rest', FnP, ptsP.
  split; [|eapply at_live].
  - split; try done; cbn. apply (r_cache Hrun). apply (r_iok Hrun).
  - cbn. rewrite (fo_params fn_ok_), (fo_returns fn_ok_). exact Hlv.
Qed.

(** The END of a block or of the function. *)
Lemma safe_end e p c cs L ip R s :
  leaving (fType Fn) pts (ValueBasePtr fr) e p c cs L ip (ValStackPtr s0) (Ctrl s0) -> s = s0 -> Ip s0 = S ip ->
  safe (opEnd Functions) end_ R s.
Proof.
  intros Hl -> Eip. pose proof (blocks_length _ _ _ _ _ _ (le_blocks Hl)) as Hlen. cbn [length] in Hlen.
  unfold opEnd. apply safe_bind, safe_gets. rewrite Hlen. destruct (Nat.ltb_spec 1 (S (length cs))) as [Hcs|Hcs].
  - apply safe_bind, safe_gets, safe_modify. left. exists fr, rest, Fn, pts. split; [by apply running_Ctrl|].
    destruct (Ctrl s0) as [|b bs] eqn:Ec; [done|].
    destruct (leave_block _ fr Fn pts vend Hbody e p c cs L ip (ValStackPtr s0) b bs Hl) as (p' & V' & Hlv).
    { by destruct cs; [cbn in Hcs; lia|]. }
    apply (at_live _ _ _ _ _ _ (S e) p' V'). cbn. rewrite Eip. exact Hlv.
  - destruct cs as [|]; [|cbn in Hcs; lia]. apply safe_bind. unfold curFunc, getFunctionInst. apply safe_bind, safe_gets.
    rewrite (r_func Hrun). eapply safe_option; [apply (fs_func (r_frame Hrun))|].
    pose proof (le_blocks Hl) as Hb. inversion Hb as [|b bs c1 cs1 V1 Hh Hb1 Hbs]; subst.
    pose proof (bk_outer Hb1 eq_refl) as Eret. pose proof (tcells_nonneg L) as HL.
    apply safe_results; [rewrite (le_vsp Hl); unfold freturns; rewrite <- Eret; lia|]. intros s Hret.
    destruct rest_cases as [Er|(prev & rest' & Er)]; [|by eapply safe_caller].
    unfold leaveFrame. apply safe_bind, safe_gets. destruct Hret as [cells ->]. cbn [Frames set_Cells set_Frames id].
    rewrite (r_frames Hrun), Er. cbn [tail]. apply safe_modify. right. split; [done|]. cbn. rewrite (r_end Hrun), Eip, (le_ip Hl).
    rewrite (last_end _ _ _ e p Hbody (le_point Hl) (le_end Hl)); [done|].
    by rewrite (ne_ctrls _ _ _ _ _ (le_nested Hl)).
Qed.

Lemma safe_return k p V R s :
  live (fType Fn) pts (ValueBasePtr fr) k p V (pos pts k) (ValStackPtr s0) (Ctrl s0) -> pt_i p = Return -> s = s0 ->
  (forall s', R s') -> safe (opReturn Functions) end_ R s.
Proof.
  intros Hl Hi -> HR. destruct (chain_step _ _ _ _ _ _ k p (body_chain _ _ _ _ Hbody) (lv_point Hl)) as (_ & _ & Hs).
  rewrite Hi in Hs. cbn [step_instr] in Hs. destruct (pop_opds _ (pt_v p)) as [v1|] eqn:E1; [|done].
  destruct (pop_opds_live _ _ _ _ (lv_opds Hl) (lv_reach Hl) E1) as (V' & EV & _). pose proof (tcells_nonneg V') as HV.
  apply safe_bind. unfold curFunc, getFunctionInst. apply safe_bind, safe_gets.
  rewrite (r_func Hrun). eapply safe_option; [apply (fs_func (r_frame Hrun))|].
  apply safe_results.
  { rewrite (lv_vsp Hl), EV, tcells_app, tcells_reverse. unfold freturns. lia. }
  intros s Hret. apply safe_bind, safe_gets.
  assert (Frames s = fr :: rest) as -> by (destruct Hret as [? ->]; exact (r_frames Hrun)). cbn [tail]. destruct rest_cases as [Er|(prev & rest' & Er)]; rewrite Er; [apply HR|].
  cbn match. eapply safe_caller; [exact Hret|exact Er].
Qed.
End Leave.

(** ** Calls *)

Section Callee.
Context (s0 : WState) (fr : InterpFrame) (rest : list InterpFrame) (Fn : FunctionInstance) (pts : list point) (vend : vstate).
Context (k : nat) (p : point) (V : list WASMType).
Hypothesis Hrun : running_ s0 fr rest Fn pts.
Hypothesis Hbody : body_ok Mod Fn pts vend.
Hypothesis Hlive : live (fType Fn) pts (ValueBasePtr fr) k p V (Ip s0) (ValStackPtr s0) (Ctrl s0).
Context (R : WState -> Prop).

Let base := ValueBasePtr fr.
Let v := pt_v p.
Let after := state_at vend pts (S k).

Abbreviation done_ := (fun (_ : unit) (s : WState) => inv_ s).
Abbreviation step_ := (v_step Mod s0 fr Fn pts vend k p V Hbody Hlive).

Ltac here_step rule := apply safe_bind; eapply safe_mono; [eapply rule; eauto using in_fr, cur_fn|cbn beta].

Lemma here_popArgs ts acc s ip vsp (Q : list (WASMType * Z) -> WState -> Prop) :
  here_ s0 s ip vsp -> Forall is_val ts -> base + tcells ts <= vsp ->
  (forall l s', here_ s0 s' ip (vsp - tcells ts) -> Q l s') -> safe (popArgs ts acc) Q R s.
Proof.
  intros H Hts. revert acc s vsp H. induction Hts as [|t ts [T HT] Hts IH]; intros acc s vsp H Hv HQ; cbn [popArgs].
  - apply safe_pure, HQ. cbn. by rewrite Z.sub_0_r.
  - cbn [tcells] in *. pose proof (num_tcell _ _ HT) as Ec. pose proof (tcells_nonneg ts) as Hn.
    apply safe_bind. eapply safe_option; [done|]. here_step here_pop; [unfold base in *; lia|]. intros x s2 H2.
    eapply IH; [exact H2|lia|]. intros l s3 H3. apply HQ.
    by replace (vsp - (tcell t + tcells ts)) with (vsp - cellsOf T - tcells ts) by lia.
Qed.

Lemma here_pushResults ts x s ip vsp (Q : unit -> WState -> Prop) :
  here_ s0 s ip vsp -> Forall is_val ts -> vsp + tcells ts <= ValueBoundary fr ->
  (forall s', here_ s0 s' ip (vsp + tcells ts) -> Q tt s') -> safe (pushResults ts x) Q R s.
Proof.
  intros H Hts. revert x s vsp H. induction Hts as [|t ts [T HT] Hts IH]; intros x s vsp H Hv HQ; cbn [pushResults].
  - apply safe_pure, HQ. cbn. by rewrite Z.add_0_r.
  - cbn [tcells] in *. pose proof (num_tcell _ _ HT) as Ec. pose proof (tcells_nonneg ts) as Hn.
    apply safe_bind. eapply safe_option; [done|]. here_step here_push; [lia|]. intros _ s2 H2.
    eapply IH; [exact H2|lia|]. intros s3 H3. apply HQ.
    by replace (vsp + (tcell t + tcells ts)) with (vsp + cellsOf T + tcells ts) by lia.
Qed.

(** The instruction calls a function of type [t]. *)
Definition calls (t : TypeEntry) (V' : list WASMType) : Prop :=
  is_open (pt_i p) = false /\ pt_i p <> Else /\ pt_i p <> End /\ after = mkV (map Some (reverse (ReturnTypes t) ++ V')) (ctrls v).

Lemma safe_native Callee f V' s :
  Functions !! f = Some Callee -> calls (fType Callee) V' ->
  here_ s0 s (pos pts (S k)) (base + tcells (reverse (ParamTypes (fType Callee)) ++ V')) ->
  safe (callNative native Callee) done_ R s.
Proof.
  intros Hf (Hc1 & Hc2 & Hc3 & Ea) H. pose proof (po_funcs Hprog _ _ Hf) as Hok.
  pose proof (room _ _ _ _ _ _ _ _ _ _ _ _ _ Hrun Hbody Hlive _ Ea) as Hroom.
  rewrite tcells_app, tcells_reverse in *. pose proof (tcells_nonneg V') as HV. fold base in Hroom.
  apply safe_bind. eapply here_popArgs; [exact H| | |].
  { apply Forall_reverse. apply (fo_param_types Hok). }
  { rewrite tcells_reverse. lia. }
  rewrite tcells_reverse. intros l s2 H2. apply safe_bind, safe_gets.
  destruct (native (fFuncPtr Callee) l (Inst s2)) as [[i' x] err] eqn:En. apply safe_bind, safe_modify.
  destruct err as [e|]; [apply safe_throw|].
  pose proof (Hnative (fFuncPtr Callee) l (Inst s2) (proj1 (h_iok H2))) as [Hi Hm]. rewrite En in Hi, Hm. cbn [fst] in Hi, Hm.
  eapply here_pushResults; [by apply here_set_Inst|apply (fo_return_types Hok)|lia|]. intros s3 H3.
  eapply next_inv; [exact Hrun|exact Hbody|exact Hlive|done..|exact Ea|]. rewrite tcells_app, tcells_reverse. fold base.
  by replace (base + (tcells (ReturnTypes (fType Callee)) + tcells V')) with
    (base + (tcells (ParamTypes (fType Callee)) + tcells V') - tcells (ParamTypes (fType Callee)) + tcells (ReturnTypes (fType Callee)))
    by lia.
Qed.

Lemma safe_bytecode Callee f V' s :
  Functions !! f = Some Callee -> fKind Callee = ByteCode -> calls (fType Callee) V' ->
  here_ s0 s (pos pts (S k)) (base + tcells (reverse (ParamTypes (fType Callee)) ++ V')) ->
  base + tcells (reverse (ParamTypes (fType Callee)) ++ V') <= ValueBoundary fr ->
  safe (callByteCode Functions f Callee) done_ R s.
Proof.
  intros Hf Hk (Hc1 & Hc2 & Hc3 & Ea) H Hcur. pose proof (po_funcs Hprog _ _ Hf) as Hok.
  pose proof (room _ _ _ _ _ _ _ _ _ _ _ _ _ Hrun Hbody Hlive _ Ea) as Hroom.
  destruct (next_live _ _ _ _ _ _ _ _ _ Hbody Hlive _ Hc1 Hc2 Hc3 Ea) as [p' Hnext].
  rewrite tcells_app, tcells_reverse in *. fold base in Hroom, Hnext. pose proof (tcells_nonneg V') as HV.
  destruct (fo_body Hok Hk) as (ptsC & vendC & HbC & HokC).
  pose proof (r_frame Hrun) as Hfr. pose proof (tcells_nonneg (ParamTypes (fType Callee))) as Hpar.
  pose proof (running_here _ _ _ _ _ _ _ _ _ _ _ _ Hrun H) as Hr1.
  apply safe_bind. unfold safe, syncFrame. rewrite (r_frames Hr1). cbn beta. set (s2 := set_Frames _ _ s).
  apply safe_bind, safe_gets. cbn [id]. change (ValStackPtr s2) with (ValStackPtr s).
  apply safe_bind. apply (safe_allocFrame f Callee); [done|apply safe_throw|]. intros c.
  change (Top s2) with (Top s). rewrite (fo_params Hok). set (lp := ValStackPtr s - _).
  set (nf := callee_frame f Callee (Top s) lp). cbn [negb].
  assert (lp = base + tcells V') as Elp by (unfold lp; rewrite (h_vsp H); lia).
  pose proof (fs_base Hfr) as Hb1. pose proof (fs_low Hfr) as Hb2. pose proof (fs_locals Hfr) as Hb3.
  assert (0 <= base) as Hb4.
  { unfold fparams in Hb3. rewrite (bo_locals Hbody) in Hb3. pose proof (tcells_nonneg (ParamTypes (fType Fn))).
    pose proof (tcells_nonneg (fLocalTypes Fn)). unfold base. lia. }
  assert (frame_ok Functions bodies nf Callee ptsC) as Hnf.
  { eapply callee_ok; try done; [lia|]. rewrite (r_top Hr1). unfold fparams. lia. }
  unfold enterFrame, getFunctionInst, curFrame. apply safe_bind, safe_bind. eapply safe_option; [exact Hf|].
  apply safe_bind, safe_bind, safe_gets. eapply safe_option; [done|]. apply safe_modify.
  set (s4 := mkW _ _ _ _ _ _ _ _ _ _ _ _ _).
  assert (running_ s4 nf (Frames s2) Callee ptsC) as Hr4.
  { split; try done; [|apply (r_cache Hr1)|apply (r_iok Hr1)]. cbn [TopBoundary Frames s4 s2 set_Frames].
    eapply (stack_call _ _ _ _ Callee ptsC _ Fn pts (S k) p' (reverse (ReturnTypes (fType Callee)) ++ V')); try done.
    - by destruct Hfr.
    - cbn. rewrite (r_top Hr1). lia.
    - cbn. fold base. lia.
    - cbn. unfold freturns. lia.
    - cbn. fold base. rewrite (h_ip H), (h_ctrl H), (h_vsp H). unfold fparams, freturns.
      replace (base + (tcells (ParamTypes (fType Callee)) + tcells V') - _ + tcells (ReturnTypes (fType Callee)))
        with (base + (tcells (ReturnTypes (fType Callee)) + tcells V')) by lia.
      exact Hnext.
    - pose proof (r_stack Hr1) as Hst. inversion_clear Hst as [? ? ? Hs1 Hs2 Hs3|? ? ? ? ? ? ? ? ? ? Hs1 Hs2 Hs3 Hs4 Hs5 Hs6 Hs7].
      + eapply stack_entry; [|done..]. by destruct Hs1.
      + eapply stack_call; try done. by destruct Hs1. }
  apply safe_bind. unfold clearLocals, curFrame. apply safe_bind, safe_bind, safe_gets. eapply safe_option; [done|].
  apply safe_bind, safe_gets. rewrite cells_bytes, (fo_params Hok).
  rewrite (proj2 (Z.leb_le _ _)) by apply (fs_locals Hnf). apply safe_modify.
  eapply safe_enter; [by apply running_Cells|done..].
Qed.

Lemma safe_callFuncInst Callee f K V' s :
  Functions !! f = Some Callee -> calls (fType Callee) V' -> V = K ++ reverse (ParamTypes (fType Callee)) ++ V' ->
  here_ s0 s (pos pts (S k)) (base + tcells (reverse (ParamTypes (fType Callee)) ++ V')) ->
  safe (callFuncInst Functions native f) done_ R s.
Proof.
  intros Hf Hc EV H. unfold callFuncInst, getFunctionInst. apply safe_bind. eapply safe_option; [exact Hf|].
  destruct (fKind Callee) eqn:Ek; [|by eapply safe_native]. eapply safe_bytecode; try done.
  pose proof (live_room _ _ _ _ _ _ _ _ _ _ Hrun Hbody _ _ _ Hlive) as Hroom. rewrite EV, tcells_app in Hroom.
  pose proof (tcells_nonneg K). fold base in Hroom. lia.
Qed.

(** The operands of a call. *)
Lemma call_type_live V0 v0 t :
  v0 = mkV (map Some V0) (ctrls v) -> call_type t v0 = Some after ->
  exists V', V0 = reverse (ParamTypes t) ++ V' /\ after = mkV (map Some (reverse (ReturnTypes t) ++ V')) (ctrls v).
Proof.
  intros E0. unfold call_type. destruct (pop_opds _ v0) as [v1|] eqn:E1; [|done]. cbn [fmap option_fmap option_map].
  intros [= E2]. subst v0. destruct (pop_opds_live _ (mkV (map Some V0) _) V0 _ eq_refl (lv_reach Hlive) E1) as (V' & -> & ->).
  exists V'. split; [done|]. rewrite <- E2, push_opds_eq. cbn. by rewrite map_app, map_reverse.
Qed.

Lemma v_eq : v = mkV (map Some V) (ctrls v).
Proof. pose proof (lv_opds Hlive : opds v = _) as E. destruct v. cbn in *. by rewrite E. Qed.

Section At.
Context (s1 : WState).
Hypothesis H1 : here_ s0 s1 (S (pos pts k)) (base + tcells V).

Lemma safe_call x :
  pt_i p = Call x -> leb_of TU32 x (pt_imm p) -> safe (opCall wide_shift Functions GasFuncIdx native) done_ R s1.
Proof.
  intros Hi Hg. destruct (imm_bytes _ _ _ _ _ _ _ _ _ Hbody Hlive) as (r & Hd & Hr & _).
  pose proof step_ as Hs. rewrite Hi in Hs. cbn [step_instr] in Hs. fold v after in Hs.
  destruct (getFunctionType Mod (Z.to_nat x)) as [t|] eqn:Et; [|done]. cbn [mbind option_bind] in Hs.
  destruct (call_type_live V v t v_eq Hs) as (V' & EV & Ea). pose proof (leb_of_u32 _ _ Hg) as Hx.
  here_step here_leb. intros ? s2 [-> H2]. rewrite <- (pos_next _ _ _ _ _ _ _ Hlive) in H2.
  destruct (Z.eqb_spec x GasFuncIdx) as [->|Hne].
  - rewrite (po_gas Hprog t ltac:(lia) Et) in *. cbn [ParamTypes ReturnTypes] in *. cbn in EV, Ea.
    pose proof (tcells_nonneg V') as HV. assert (tcells V = 2 + tcells V') as Ec by (by rewrite EV).
    here_step here_pop; [change (cellsOf (NI TU64)) with 2; unfold base in *; lia|]. intros d s3 H3.
    change (cellsOf (NI TU64)) with 2 in H3. apply safe_bind, safe_gets. destruct (_ <? d).
    { apply safe_bind, safe_modify, safe_throw. }
    apply safe_modify. eapply next_inv; [exact Hrun|exact Hbody|exact Hlive|by rewrite Hi..|exact Ea|]. fold base.
    replace (base + tcells V') with (base + tcells V - 2) by lia.
    apply here_set_Inst; [done|apply inst_gas, (h_iok H3)|done].
  - destruct (po_total Hprog _ _ Et) as [Callee Hf]. pose proof (fo_type (po_funcs Hprog _ _ Hf)) as Et'.
    rewrite Et in Et'. injection Et' as ->.
    eapply (safe_callFuncInst Callee _ [] V'); [exact Hf|by split_and!; rewrite ?Hi|exact EV|].
    by rewrite <- EV.
Qed.

Lemma typeIsEqual_eq t1 t2 : typeIsEqual t1 t2 = true -> t1 = t2.
Proof.
  unfold typeIsEqual. intros [[[_ _]%andb_true_iff H2]%andb_true_iff H3]%andb_true_iff.
  apply bool_decide_eq_true in H2, H3. destruct t1, t2. cbn in *. by subst.
Qed.

Lemma safe_call_indirect x g :
  pt_i p = CallIndirect x -> leb_of TU32 x g -> pt_imm p = g ++ [0] ->
  safe (opCallIndirect wide_shift Mod Functions native) done_ R s1.
Proof.
  intros Hi Hg Him. destruct (imm_bytes _ _ _ _ _ _ _ _ _ Hbody Hlive) as (r & Hd & Hr & _).
  rewrite Him, <- app_assoc in Hd. pose proof step_ as Hs. rewrite Hi in Hs. cbn [step_instr] in Hs. fold v after in Hs.
  destruct (Nat.eqb_spec (NumTotalTables Mod) 0) as [|Htab]; [done|].
  destruct (TypeTable Mod !! Z.to_nat x) as [t|] eqn:Et; [|done]. cbn [mbind option_bind] in Hs.
  destruct (pop_expect I32 v) as [v1|] eqn:E1; [|done]. cbn [mbind option_bind] in Hs.
  destruct (pop_expect_live _ _ (lv_opds Hlive : opds v = _) (lv_reach Hlive) _ _ E1) as (V0 & EV & E2).
  destruct (call_type_live V0 v1 t E2 Hs) as (V' & EV0 & Ea).
  pose proof (tcells_nonneg V0) as HV. assert (tcells V = 1 + tcells V0) as Ec by (by rewrite EV).
  here_step here_leb; [by constructor|]. intros ? s2 [-> H2]. apply safe_bind, safe_modify.
  assert (here_ s0 (set_Ip (Ip s2 + 1) s2) (pos pts (S k)) (base + tcells V)) as H3.
  { rewrite (pos_next _ _ _ _ _ _ _ Hlive), Him, length_app. cbn [length].
    replace (S (pos pts k) + (length g + 1))%nat with (Ip s2 + 1)%nat by (rewrite (h_ip H2); lia). by eapply here_set_Ip. }
  apply safe_bind. eapply safe_option; [exact Et|].
  here_step here_pop; [change (cellsOf (NI TI32)) with 1; unfold base in *; lia|]. intros j s4 H4.
  change (cellsOf (NI TI32)) with 1 in H4. replace (base + tcells V - 1) with (base + tcells V0) in H4 by lia.
  apply safe_bind, safe_gets. destruct (h_iok H4) as [Hi4 _]. pose proof (io_table Hi4 Htab) as Hne. pose proof (io_elements Hi4) as Hel.
  destruct (iTables (Inst s4)) as [|tb tbs]; [done|]. apply Forall_cons_1 in Hel as [Hel _].
  apply safe_bind. eapply safe_option; [done|].
  destruct (_ || _) eqn:Eb; [apply safe_throw|]. apply orb_false_iff in Eb as [Eb1%Z.ltb_ge Eb2%Z.leb_gt].
  destruct (lookup_lt_is_Some_2 (tElements tb) (Z.to_nat j)) as [e He]; [lia|]. apply safe_bind.
  eapply safe_option; [exact He|]. destruct (Z.eqb_spec e (2 ^ 32 - 1)) as [|Hne']; [apply safe_throw|].
  destruct (Forall_lookup_1 _ _ _ _ Hel He) as [|[Callee Hf]]; [done|]. apply safe_bind. eapply safe_option; [exact Hf|].
  destruct (typeIsEqual _ t) eqn:Eq; [|apply safe_throw]. apply typeIsEqual_eq in Eq. cbn [negb]. subst t.
  eapply (safe_callFuncInst Callee _ [I32] V'); [exact Hf|by split_and!; rewrite ?Hi|by rewrite EV, EV0|].
  by rewrite <- EV0.
Qed.
End At.
End Callee.
End Call.

(** The instance under the WebAssembly interpreter: whatever the interpreter
    does, and however it ends, the instance stays well-formed ([inst_ok] of
    [WasmSafeInv]). *)

#[local] Open Scope Z_scope.

Section Instance.
Context (wide_shift : Z -> Z -> Z).
Context (Mod : Module_) (Functions : list FunctionInstance) (Globals_ : list GlobalInstance) (GasFuncIdx : Z).
Context (enlarge : MemoryInstance -> Z -> bool).
Context (native : Z -> list (WASMType * Z) -> Instance_ -> Instance_ * Z * option Z).
Hypothesis Hnative : native_ok Mod Functions Globals_ native.

Abbreviation ok := (inst_ok Mod Functions Globals_).

Definition left_ok {A} (o : out Trap WState A) : Prop :=
  match o with Ret _ s | Exit s | Throw _ s => ok (Inst s) | Undef => True end.
Definition keeps_inst {A} (m : wbody A) : Prop := forall s, ok (Inst s) -> left_ok (m s).

Lemma ki_bind {A B} (m : wbody A) (f : A -> wbody B) : keeps_inst m -> (forall a, keeps_inst (f a)) -> keeps_inst (bind m f).
Proof. intros Hm Hf s Hs. specialize (Hm s Hs). unfold bind. destruct (m s); try done. by apply Hf. Qed.
Lemma ki_ret {A} (a : A) : keeps_inst (ret a).
Proof. by intros s Hs. Qed.
Lemma ki_throw {A} e : keeps_inst (A := A) (throw e).
Proof. by intros s Hs. Qed.
Lemma ki_exit : keeps_inst (A := unit) exit.
Proof. by intros s Hs. Qed.
Lemma ki_undef {A} : keeps_inst (A := A) undef.
Proof. by intros s Hs. Qed.
Lemma ki_gets {A} (f : WState -> A) : keeps_inst (gets f).
Proof. by intros s Hs. Qed.
Lemma ki_option {A} (o : option A) : keeps_inst (of_option o).
Proof. by intros s Hs; destruct o. Qed.
Lemma ki_assert b : keeps_inst (zen_assert b).
Proof. by intros s Hs; destruct b. Qed.
Lemma ki_modify f : (forall s, ok (Inst s) -> ok (Inst (f s))) -> keeps_inst (modify f).
Proof. intros H s Hs. by apply H. Qed.
Lemma ki_gets_bind {A B} (f : WState -> A) (g : A -> wbody B) :
  (forall s, ok (Inst s) -> left_ok (g (f s) s)) -> keeps_inst (bind (gets f) g).
Proof. intros H s Hs. by apply H. Qed.

(** Operations that do not name the instance. *)
Ltac ki :=
  repeat match goal with
  | |- keeps_inst (bind _ _) => apply ki_bind; [|intros ?]
  | |- keeps_inst (ret _) => apply ki_ret
  | |- keeps_inst (throw _) => apply ki_throw
  | |- keeps_inst exit => apply ki_exit
  | |- keeps_inst undef => apply ki_undef
  | |- keeps_inst (gets _) => apply ki_gets
  | |- keeps_inst (of_option _) => apply ki_option
  | |- keeps_inst (zen_assert _) => apply ki_assert
  | |- keeps_inst (modify _) => apply ki_modify; by intros ? ?
  | |- keeps_inst (if ?b then _ else _) => destruct b
  | |- keeps_inst (let _ := _ in _) => cbn zeta
  | |- keeps_inst (match ?x with _ => _ end) => destruct x
  | |- _ => progress auto with winst
  end.

Create HintDb winst.

Lemma ki_pop T : keeps_inst (valuePop T).
Proof. unfold valuePop, curFrame. ki. Qed.
Lemma ki_peek T : keeps_inst (valuePeek T).
Proof. unfold valuePeek, curFrame. ki. Qed.
Lemma ki_push T x : keeps_inst (valuePush T x).
Proof. unfold valuePush, curFrame. ki. Qed.
Lemma ki_get T a : keeps_inst (valueGet T a).
Proof. unfold valueGet. ki. Qed.
Lemma ki_set T a x : keeps_inst (valueSet T a x).
Proof. unfold valueSet, curFrame. ki. Qed.
Lemma ki_func : keeps_inst (curFunc Functions).
Proof. unfold curFunc, getFunctionInst. ki. Qed.
#[local] Hint Resolve ki_pop ki_peek ki_push ki_get ki_set ki_func : winst.

Lemma ki_fetch : keeps_inst (fetch Functions).
Proof. unfold fetch. ki. Qed.
Lemma ki_at {A} (f : list Z -> option (A * list Z)) : keeps_inst (atIp Functions f).
Proof. unfold atIp. ki. Qed.
#[local] Hint Resolve ki_fetch ki_at : winst.
Lemma ki_leb T : keeps_inst (readLEB_ wide_shift Functions T).
Proof. unfold readLEB_. ki. Qed.
Lemma ki_fixed n : keeps_inst (readFixed Functions n).
Proof. unfold readFixed. ki. Qed.
#[local] Hint Resolve ki_leb ki_fixed : winst.

Lemma ki_blockPush a b c d : keeps_inst (blockPush Functions a b c d).
Proof. unfold blockPush. ki. Qed.
Lemma ki_move a b c : keeps_inst (moveOperands a b c).
Proof. unfold moveOperands, curFrame. ki. Qed.
#[local] Hint Resolve ki_blockPush ki_move : winst.
Lemma ki_blockPop d : keeps_inst (blockPop d).
Proof. unfold blockPop. ki. Qed.
Lemma ki_findBlockAddr : keeps_inst (findBlockAddr wide_shift Functions).
Proof. unfold findBlockAddr. ki. Qed.
Lemma ki_cells : keeps_inst (blockCells Functions).
Proof. unfold blockCells. ki. Qed.
#[local] Hint Resolve ki_blockPop ki_findBlockAddr ki_cells : winst.

Lemma ki_skipTargets n : keeps_inst (skipTargets Functions n).
Proof. induction n; cbn [skipTargets]; ki. Qed.
Lemma ki_localVar : keeps_inst (localVar wide_shift Functions).
Proof. unfold localVar. ki. Qed.
Lemma ki_globalVar : keeps_inst (globalVar wide_shift Functions Globals_).
Proof. unfold globalVar. ki. Qed.
Lemma ki_globalNum t : keeps_inst (globalNum t).
Proof. unfold globalNum. ki. Qed.
Lemma ki_readGlobal T o : keeps_inst (readGlobal T o).
Proof. unfold readGlobal. ki. Qed.
Lemma ki_memory : keeps_inst memory.
Proof. unfold memory. ki. Qed.
Lemma ki_value r : keeps_inst (value_of r).
Proof. unfold value_of. ki. Qed.
#[local] Hint Resolve ki_skipTargets ki_localVar ki_globalVar ki_globalNum ki_readGlobal ki_memory ki_value : winst.

(** ** Operations on the instance *)

Lemma ki_writeGlobal T o x : keeps_inst (writeGlobal T o x).
Proof.
  apply ki_gets_bind. intros s Hs. cbn zeta. destruct (_ && _) eqn:E; [|done].
  apply andb_true_iff in E as [E1%Z.leb_le E2%Z.leb_le]. apply inst_globals; [done|].
  rewrite !length_app, length_take, length_drop, length_le_bytes.
  assert (0 <= num_size T) by (by destruct T as [[]|[]]). lia.
Qed.

Lemma ki_store T n : keeps_inst (storeOp wide_shift Functions T n).
Proof.
  unfold storeOp. apply ki_bind; [ki|intros _]. apply ki_bind; [ki|intros o]. apply ki_bind; [ki|intros x].
  apply ki_bind; [ki|intros a]. apply ki_gets_bind. intros s Hs. destruct (_ <? _); [done|].
  unfold memory, bind, gets. cbn [id]. destruct (iMemory (Inst s)); [|done]. cbn [of_option]. unfold ret.
  destruct (_ <=? _); [|done]. by apply inst_memory.
Qed.

Lemma ki_grow : keeps_inst (opMemoryGrow wide_shift Functions enlarge).
Proof.
  unfold opMemoryGrow. ki. apply ki_modify. intros s Hs. by apply inst_memory.
Qed.

Lemma ki_gas : keeps_inst chargeGasCall.
Proof.
  unfold chargeGasCall. apply ki_bind; [ki|intros d]. apply ki_gets_bind. intros s Hs.
  destruct (_ <? _); by apply inst_gas.
Qed.

Lemma ki_popArgs ts acc : keeps_inst (popArgs ts acc).
Proof. revert acc. induction ts; intros acc; cbn [popArgs]; ki. Qed.
Lemma ki_pushResults ts x : keeps_inst (pushResults ts x).
Proof. revert x. induction ts; intros x; cbn [pushResults]; ki. Qed.
#[local] Hint Resolve ki_writeGlobal ki_store ki_grow ki_gas ki_popArgs ki_pushResults : winst.

Lemma ki_callNative Fn : keeps_inst (callNative native Fn).
Proof.
  unfold callNative. apply ki_bind; [ki|intros Args]. apply ki_gets_bind. intros s Hs.
  destruct (Hnative (fFuncPtr Fn) Args (Inst s) Hs) as [Hi _].
  destruct (native _ Args (Inst s)) as [[i' r] e]. cbn [fst] in Hi.
  unfold bind, modify. destruct e as [e|]; [done|]. by apply ki_pushResults.
Qed.

(** ** Frames *)

Lemma ki_alloc f p : keeps_inst (allocFrame Functions f p).
Proof. unfold allocFrame, getFunctionInst. ki. Qed.
Lemma ki_enter f : keeps_inst (enterFrame Functions f).
Proof. unfold enterFrame, getFunctionInst, curFrame. ki. Qed.
Lemma ki_sync : keeps_inst syncFrame.
Proof. intros s Hs. unfold syncFrame. by destruct (Frames s). Qed.
Lemma ki_clear Fn : keeps_inst (clearLocals Fn).
Proof. unfold clearLocals, curFrame. ki. Qed.
Lemma ki_function Fn : keeps_inst (pushFunctionBlock Functions Fn).
Proof. unfold pushFunctionBlock. ki. Qed.
#[local] Hint Resolve ki_callNative ki_alloc ki_enter ki_sync ki_clear ki_function : winst.

Lemma ki_callFuncInst f : keeps_inst (callFuncInst Functions native f).
Proof. unfold callFuncInst, callByteCode, getFunctionInst. ki. Qed.
#[local] Hint Resolve ki_callFuncInst : winst.

Lemma ki_free Fn : keeps_inst (freeFrame Fn).
Proof. unfold freeFrame, curFrame. ki. Qed.
Lemma ki_results Fn : keeps_inst (copyResults Fn).
Proof. unfold copyResults, curFrame. ki. Qed.
Lemma ki_leave Fn : keeps_inst (leaveFrame Functions Fn).
Proof. unfold leaveFrame, getFunctionInst. ki. Qed.
#[local] Hint Resolve ki_free ki_results ki_leave : winst.

Lemma ki_num n : keeps_inst (runNum wide_shift Functions n).
Proof.
  destruct n; cbn [runNum];
    unfold loadOp, constOp, floatConst, binaryOpNEZ, binaryOp, countOp, mathOp, binaryOpCV, truncateOp, convertOp, opWrap; ki.
Qed.
#[local] Hint Resolve ki_num : winst.

Lemma ki_dispatch op : keeps_inst (dispatch wide_shift Mod Functions Globals_ GasFuncIdx enlarge native op).
Proof.
  unfold dispatch, opBlock, opLoop, opIf, opElse, opEnd, opBr, opBrIf, opBrTable, opReturn, opCall, opCallIndirect, selectOp,
    opGetLocal, opSetLocal, opTeeLocal, opGetGlobal, opSetGlobal, opGetGlobal64, opSetGlobal64, opMemorySize, blockPop1,
    getFunctionInst.
  ki.
Qed.

Lemma loop_inst fuel s o :
  ok (Inst s) ->
  interpLoop wide_shift Mod Functions Globals_ GasFuncIdx enlarge native fuel s = Some o -> left_ok o.
Proof.
  revert s. induction fuel as [|fuel IH]; intros s Hs; cbn [interpLoop]; (destruct (_ <? _)%nat; [|by intros [= <-]]); [done|].
  assert (keeps_inst (wstep wide_shift Mod Functions Globals_ GasFuncIdx enlarge native)) as Hk.
  { unfold wstep. apply ki_bind; [apply ki_fetch|apply ki_dispatch]. }
  specialize (Hk s Hs). destruct (wstep _ _ _ _ _ _ _ s); [by apply IH|..]; by intros [= <-].
Qed.

Lemma start_inst : keeps_inst (startInterpret Functions).
Proof. unfold startInterpret, curFrame, getFunctionInst. ki. Qed.

Lemma interpret_inst fuel s o :
  ok (Inst s) ->
  interpret wide_shift Mod Functions Globals_ GasFuncIdx enlarge native fuel s = Some o -> left_ok o.
Proof.
  intros Hs. unfold interpret. pose proof (start_inst s Hs) as H1.
  destruct (startInterpret Functions s) as [Fn s1| | |]; cbn in H1; try (by intros [= <-]).
  destruct (fKind Fn); [|intros [= <-]; by apply ki_callNative].
  pose proof (ki_function Fn s1 H1) as H2.
  destruct (pushFunctionBlock Functions Fn s1) as [[] s2| | |]; cbn in H2; try (by intros [= <-]). by apply loop_inst.
Qed.
End Instance.
