(* ===== verification/WasmSafeStep.v ===== *)
(** A turn of the loop of the WebAssembly interpreter from a typed state
    ([WasmSafeInv]) is defined and leads to a typed state, ends the entry
    function, or throws; so does the loop, and the call of a function. *)

From stdpp Require Import gmap.
From S2P Require Import Prelude Intx Leb128 Leb128Correct WasmNum FunctionLoader WasmValid WasmInterp WasmTyped WasmBlocks WasmSafeInv WasmSafeSimple WasmSafeControl WasmSafeCall.

#[local] Open Scope Z_scope.

Section Step.
Context (wide_shift : Z -> Z -> Z).
Context (Mod : Module_) (Functions : list FunctionInstance) (Globals_ : list GlobalInstance) (GasFuncIdx : Z).
Context (enlarge : MemoryInstance -> Z -> bool).
Context (native : Z -> list (WASMType * Z) -> Instance_ -> Instance_ * Z * option Z).
Context (bodies : nat -> option (list point)).
Hypothesis Hprog : program_ok Mod Functions Globals_ GasFuncIdx bodies.
Hypothesis Hnative : native_ok Mod Functions Globals_ native.

Abbreviation inv_ := (inv Mod Functions Globals_ bodies).
Abbreviation here_ := (here Mod Functions Globals_).
Abbreviation running_ := (running Mod Functions Globals_ bodies).
Abbreviation dispatch_ := (dispatch wide_shift Mod Functions Globals_ GasFuncIdx enlarge native).
Abbreviation end_ := (fun (_ : unit) (s : WState) => inv_ s \/ finished s).
Abbreviation any_ := (fun _ : WState => True).

Lemma dispatch_num op n : numericCase op = Some n -> dispatch_ op = runNum wide_shift Functions n.
Proof.
  intros H. unfold dispatch.
  repeat match goal with |- context [op =? ?k] => destruct (Z.eqb_spec op k) as [->|_]; [discriminate H|] end.
  by rewrite H.
Qed.

Section Instr.
Context (s0 : WState) (fr : InterpFrame) (rest : list InterpFrame) (Fn : FunctionInstance) (pts : list point) (vend : vstate).
Context (k : nat) (p : point) (V : list WASMType) (s1 : WState).
Hypothesis Hrun : running_ s0 fr rest Fn pts.
Hypothesis Hbody : body_ok Mod Fn pts vend.
Hypothesis Hlive : live (fType Fn) pts (ValueBasePtr fr) k p V (Ip s0) (ValStackPtr s0) (Ctrl s0).
Hypothesis H1 : here_ s0 s1 (S (pos pts k)) (ValueBasePtr fr + tcells V).

Lemma step_goes m : safe m (fun _ s => inv_ s) any_ s1 -> safe m end_ any_ s1.
Proof. intros H. eapply safe_mono; [exact H|]. cbn beta. auto. Qed.

Lemma step_num : (exists n, numericCase (pt_op p) = Some n /\
    safe (runNum wide_shift Functions n) (fun _ s => inv_ s) any_ s1) ->
  safe (dispatch_ (pt_op p)) end_ any_ s1.
Proof. intros (n & Hn & H). rewrite (dispatch_num _ _ Hn). by apply step_goes. Qed.

Lemma live1 : live (fType Fn) pts (ValueBasePtr fr) k p V (pos pts k) (ValStackPtr s1) (Ctrl s1).
Proof. destruct Hlive. split; try done; [by rewrite (h_ctrl H1)|apply (h_vsp H1)]. Qed.

Lemma run1 : running_ s1 fr rest Fn pts.
Proof. by eapply running_here. Qed.

(** Opcodes without immediates. *)
Lemma step_plain op : pt_op p = op -> plain_op op = Some (pt_i p) -> pt_imm p = [] -> safe (dispatch_ op) end_ any_ s1.
Proof.
  intros Eop Hp Him. unfold plain_op in Hp.
  destruct (Z.eqb_spec op 0x00) as [->|]; [apply safe_throw|].
  destruct (Z.eqb_spec op 0x01) as [->|]; [injection Hp as Hi; symmetry in Hi; apply step_goes; by eapply safe_nop|].
  destruct (Z.eqb_spec op 0x05) as [->|]; [injection Hp as Hi; symmetry in Hi; apply step_goes; by eapply safe_else|].
  destruct (Z.eqb_spec op 0x0b) as [->|].
  { injection Hp as Hi. symmetry in Hi. destruct (live_end _ _ _ _ _ Hbody _ _ _ _ _ _ live1 Hi) as (c & cs & L & Hl).
    by eapply safe_end; [exact Hprog|exact run1|exact Hbody|exact Hl| |apply (h_ip H1)]. }
  destruct (Z.eqb_spec op 0x0f) as [->|].
  { injection Hp as Hi. symmetry in Hi. by eapply safe_return; [exact Hprog|exact run1|exact Hbody|exact live1|..]. }
  destruct (Z.eqb_spec op 0x1a) as [->|]; [injection Hp as Hi; symmetry in Hi; apply step_goes; eapply safe_drop; eauto|].
  destruct (Z.eqb_spec op 0x1b) as [->|]; [injection Hp as Hi; symmetry in Hi; apply step_goes; eapply safe_select; eauto|].
  destruct (in_range 0x45 0xc4 op) eqn:Er; [|done]. destruct (numeric_table !! _) as [[ins o]|] eqn:Et; [|done].
  injection Hp as Hi. symmetry in Hi. subst op. apply step_num. by eapply safe_numeric.
Qed.

Lemma step_block i b t :
  block_op (pt_op p) = Some i -> block_type [b] = Some (t, []) -> pt_i p = i t -> pt_imm p = [b] ->
  safe (dispatch_ (pt_op p)) end_ any_ s1.
Proof.
  unfold block_op. intros Hi Hb Ei Him. apply step_goes.
  destruct (Z.eqb_spec (pt_op p) 2) as [->|]; [injection Hi as <-; by eapply safe_block|].
  destruct (Z.eqb_spec (pt_op p) 3) as [->|]; [injection Hi as <-; by eapply safe_loop|].
  destruct (Z.eqb_spec (pt_op p) 4) as [->|]; [injection Hi as <-; by eapply safe_if|done].
Qed.

Lemma step_index i x :
  index_op (pt_op p) = Some i -> leb_of TU32 x (pt_imm p) -> pt_i p = i x -> safe (dispatch_ (pt_op p)) end_ any_ s1.
Proof.
  unfold index_op. intros Hi Hg Ei. apply step_goes.
  destruct (Z.eqb_spec (pt_op p) 0x0c) as [->|]; [injection Hi as <-; by eapply safe_br|].
  destruct (Z.eqb_spec (pt_op p) 0x0d) as [->|]; [injection Hi as <-; by eapply safe_br_if|].
  destruct (Z.eqb_spec (pt_op p) 0x10) as [->|]; [injection Hi as <-; by eapply safe_call|].
  destruct (Z.eqb_spec (pt_op p) 0x20) as [->|]; [injection Hi as <-; by eapply safe_local_get|].
  destruct (Z.eqb_spec (pt_op p) 0x21) as [->|]; [injection Hi as <-; by eapply safe_local_set|].
  destruct (Z.eqb_spec (pt_op p) 0x22) as [->|]; [injection Hi as <-; by eapply safe_local_tee|].
  destruct (Z.eqb_spec (pt_op p) 0x23) as [->|]; [injection Hi as <-; by eapply safe_global_get|].
  destruct (Z.eqb_spec (pt_op p) 0x24) as [->|]; [injection Hi as <-; by eapply safe_global_set|done].
Qed.

Lemma step_encoded : safe (dispatch_ (pt_op p)) end_ any_ s1.
Proof.
  pose proof (v_op _ _ _ _ _ _ _ _ _ Hbody Hlive) as Hop.
  destruct (op_encodes _ _ _ _ Hop) as [He|[(Hi & Eop & Him)|(Hi & Eop & Him)]].
  2: { rewrite Eop. apply step_goes. eapply safe_drop; eauto. }
  2: { rewrite Eop. apply step_goes. eapply safe_select; eauto. }
  inversion He as [op' i' Hp|op' i' b t Hi Ht|op' i' x g Hi Hg|n gn ls gs l gl Hn Hgs En Hl|t g Hg| | |x g Hg|x g Hg
    |g Hg|g Hg|op' e a ga o go Hr He1 Ha Ho|op' e a ga o go Hr He1 Ha Ho].
  - by apply step_plain.
  - by eapply step_block.
  - by eapply step_index.
  - subst n. apply step_goes. by eapply safe_br_table.
  - apply step_goes. by eapply safe_call_indirect.
  - apply step_goes. by eapply safe_memory_size.
  - apply step_goes. by eapply safe_memory_grow.
  - apply step_goes. eapply (safe_const _ _ _ _ _ _ _ _ _ _ _ _ _ _ Hrun Hbody Hlive s1 any_ H1 TI32 I32 x); eauto.
  - apply step_goes. eapply (safe_const _ _ _ _ _ _ _ _ _ _ _ _ _ _ Hrun Hbody Hlive s1 any_ H1 TI64 I64 x); eauto.
  - apply step_goes. eapply (safe_float_const _ _ _ _ _ _ _ _ _ _ _ _ _ Hrun Hbody Hlive s1 any_ H1 F_32 F32); eauto.
  - apply step_goes. eapply (safe_float_const _ _ _ _ _ _ _ _ _ _ _ _ _ Hrun Hbody Hlive s1 any_ H1 F_64 F64); eauto.
  - apply step_num. by eapply safe_load with (a := a) (ga := ga).
  - apply step_num. by eapply safe_store with (a := a) (ga := ga).
Qed.
End Instr.

(** ** The loop *)

Abbreviation wstep_ := (wstep wide_shift Mod Functions Globals_ GasFuncIdx enlarge native).
Abbreviation interpLoop_ := (interpLoop wide_shift Mod Functions Globals_ GasFuncIdx enlarge native).

Lemma wstep_safe s : inv_ s -> safe wstep_ end_ any_ s.
Proof.
  intros (fr & rest & Fn & pts & Hrun & Hat). pose proof (r_frame Hrun) as Hfr.
  destruct (fn_body _ _ _ _ _ Hprog _ _ _ (fs_func Hfr) (fs_kind Hfr) (fs_body Hfr)) as [vend Hbody].
  pose proof (here_refl _ _ _ s (r_iok Hrun)) as H0. pose proof (cur_fn _ _ _ _ _ _ _ _ _ Hrun) as Hcur.
  apply safe_bind. destruct Hat as [k p V Hl|e p c cs L Hl].
  - rewrite (lv_ip Hl), (lv_vsp Hl) in H0. eapply safe_mono; [eapply here_fetch; [done|done|by eapply op_at]|].
    cbn beta. intros b s1 [-> H1]. by eapply step_encoded.
  - destruct (chain_step _ _ _ _ _ _ e p (body_chain _ _ _ _ Hbody) (le_point Hl)) as (_ & Hop & _).
    rewrite (le_end Hl) in Hop. destruct (end_bytes _ _ _ Hop) as [Eop _].
    eapply safe_mono; [eapply (here_fetch _ _ _ _ _ Hcur 0x0b _ _ _ _ H0)|].
    { rewrite (le_ip Hl), (body_code _ _ _ _ Hbody), <- (Nat.add_0_r (pos pts e)), <- lookup_drop, drop_pos.
      rewrite (drop_S _ _ _ (le_point Hl)). cbn. by rewrite Eop. }
    cbn beta. intros b s1 [-> H1]. change (safe (opEnd Functions) end_ any_ s1).
    eapply (safe_end _ _ _ _ _ Hprog s1); [by eapply running_here|exact Hbody| |done|apply (h_ip H1)].
    rewrite (h_vsp H1), (h_ctrl H1). exact Hl.
Qed.

Lemma loop_safe fuel s :
  inv_ s \/ finished s -> interpLoop_ fuel s <> Some Undef.
Proof.
  revert s. induction fuel as [|fuel IH]; intros s Hs; cbn [interpLoop]; (destruct (Nat.ltb_spec (Ip s) (IpEnd s)) as [Hlt|]; [|done]);
    [done|].
  destruct Hs as [Hs|[_ Hs]]; [|lia]. pose proof (wstep_safe s Hs) as Hsafe. unfold safe in Hsafe.
  destruct (wstep_ s) as [[] s'| | |]; try done. by apply IH.
Qed.

(** A turn that leads to the next one; the loop is out of fuel only after as
    many turns. *)
Definition turn (s s' : WState) : Prop := (Ip s < IpEnd s)%nat /\ wstep_ s = Ret tt s'.

Lemma loop_busy fuel s : interpLoop_ fuel s = None -> exists s', nsteps turn fuel s s' /\ (Ip s' < IpEnd s')%nat.
Proof.
  revert s. induction fuel as [|fuel IH]; intros s; cbn [interpLoop]; (destruct (Nat.ltb_spec (Ip s) (IpEnd s)) as [Hlt|]; [|done]).
  - intros _. exists s. split; [constructor|done].
  - destruct (wstep_ s) as [[] s1| | |] eqn:E; try done. intros (s' & Hn & Hl)%IH. exists s'. split; [|done].
    by apply (nsteps_l _ _ s s1).
Qed.

(** ** The call of a function *)

Abbreviation interpret_ := (interpret wide_shift Mod Functions Globals_ GasFuncIdx enlarge native).
Abbreviation call_ := (callWasmFunctionInInterpMode wide_shift Mod Functions Globals_ GasFuncIdx enlarge native).

(** The first frame and the arguments fit into the stack. *)
Definition entry_fits (Fn : FunctionInstance) : Prop :=
  4 * fparams Fn + 4 * fNumLocalCells Fn + sizeofInterpFrame + fMaxStackSize Fn + u32 (fMaxBlockDepth Fn * sizeofBlockInfo)
  < PresetReservedStackSize.

Lemma push_args_safe Args s R (Q : unit -> WState -> Prop) :
  Forall is_val (map fst Args) -> Top s + tcells (map fst Args) <= TopBoundary s ->
  (forall c, Q tt (set_Frames (Top s + tcells (map fst Args)) (Frames s) (set_Cells c s))) -> safe (pushArgs Args) Q R s.
Proof.
  revert s. induction Args as [|[t x] Args IH]; intros s Hv Hb HQ; cbn [pushArgs map fst tcells] in *.
  - apply safe_pure. specialize (HQ (Cells s)). rewrite Z.add_0_r in HQ. by destruct s.
  - apply Forall_cons_1 in Hv as [[T HT] Hv]. pose proof (num_tcell _ _ HT) as Ec. pose proof (tcells_nonneg (map fst Args)) as Hn.
    apply safe_bind. eapply safe_option; [done|]. apply safe_bind. unfold stackPush. apply safe_bind, safe_gets. cbn [id].
    apply safe_bind, safe_assert; [apply Z.leb_le; lia|]. apply safe_bind, safe_modify, safe_modify.
    apply IH; [done|cbn; lia|]. intros c. specialize (HQ c). cbn [Top set_Frames set_Cells Frames].
    replace (Top s + cellsOf T + tcells (map fst Args)) with (Top s + (tcell t + tcells (map fst Args))) by lia.
    exact HQ.
Qed.

Lemma results_some ts a s : Forall is_val ts -> exists vs, readResults ts a s = Some vs /\ length vs = length ts.
Proof.
  intros H. revert a. induction H as [|t ts [T HT] _ IH]; intros a; cbn [readResults]; [by exists []|].
  rewrite HT. cbn [mbind option_bind]. destruct (IH (a + cellsOf T)) as (vs & -> & El). cbn [mbind option_bind].
  eexists. split; [done|]. cbn. by rewrite El.
Qed.

(** The state in which [interpret] starts. *)
Definition entered (s : WState) (f : nat) (Fn : FunctionInstance) (pts : list point) : Prop :=
  Frames s = [callee_frame f Fn (fparams Fn) 0] /\ Top s = ValueBoundary (callee_frame f Fn (fparams Fn) 0) /\
  TopBoundary s = PresetReservedStackSize / 4 /\ BlockAddrCache s = ∅ /\ inst_ok Mod Functions Globals_ (Inst s) /\
  Functions !! f = Some Fn /\ fKind Fn = ByteCode /\ bodies f = Some pts.

Lemma start_safe s f Fn pts vend :
  entered s f Fn pts -> body_ok Mod Fn pts vend ->
  safe (startInterpret Functions) (fun Fn' s1 => Fn' = Fn /\ running_ s1 (callee_frame f Fn (fparams Fn) 0) [] Fn pts /\
    Ip s1 = 0%nat /\ ValStackPtr s1 = ValueBasePtr (callee_frame f Fn (fparams Fn) 0) /\ Ctrl s1 = []) any_ s.
Proof.
  intros (Ef & Et & Eb & Ec & Hi & Hf & Hk & Hb) Hbody. unfold startInterpret, curFrame, enterFrame, getFunctionInst, curFrame.
  apply safe_bind, safe_bind, safe_gets. rewrite Ef. eapply safe_option; [done|]. apply safe_bind, safe_bind.
  eapply safe_option; [exact Hf|]. apply safe_bind, safe_bind, safe_gets. rewrite Ef. eapply safe_option; [done|].
  apply safe_modify. apply safe_bind, safe_modify. eapply safe_option; [exact Hf|]. split; [done|]. split; [|done].
  assert (frame_ok Functions bodies (callee_frame f Fn (fparams Fn) 0) Fn pts) as Hfr by (eapply callee_ok; first [eassumption|lia]).
  pose proof (fo_single (po_funcs Hprog _ _ Hf)) as Hs.
  split; try done.
  - eapply stack_entry; [exact Hfr|done|]. cbn. rewrite Eb. unfold freturns. change (PresetReservedStackSize / 4) with 1048576.
    destruct (ReturnTypes (fType Fn)) as [|t [|]]; cbn in *; [lia| |lia]. pose proof (tcell_bounds t). lia.
  - cbn. by rewrite Ec.
Qed.

Lemma interpret_safe fuel s f Fn pts vend : entered s f Fn pts -> body_ok Mod Fn pts vend -> interpret_ fuel s <> Some Undef.
Proof.
  intros He Hbody. pose proof (start_safe s f Fn pts vend He Hbody) as Hs. unfold safe in Hs. unfold interpret.
  destruct (startInterpret Functions s) as [Fn' s1| | |]; try done. destruct Hs as (-> & Hrun & E1 & E2 & E3).
  rewrite (fs_kind (r_frame Hrun)).
  pose proof (safe_enter _ _ _ _ _ Hprog _ _ _ _ _ any_ Hrun E1 E2 E3) as Hs. unfold safe in Hs.
  destruct (pushFunctionBlock Functions Fn s1) as [[] s2| | |]; try done. apply loop_safe. by left.
Qed.

(** The call is still running after [fuel] turns from the start of the body. *)
Definition busy (fuel f : nat) : Prop :=
  exists s s', FuncInst s = f /\ Ip s = 0%nat /\ nsteps turn fuel s s' /\ (Ip s' < IpEnd s')%nat.

Lemma interpret_busy fuel s f Fn pts vend :
  entered s f Fn pts -> body_ok Mod Fn pts vend -> interpret_ fuel s = None -> busy fuel f.
Proof.
  intros He Hbody. pose proof (start_safe s f Fn pts vend He Hbody) as Hs. unfold safe in Hs. unfold interpret.
  destruct (startInterpret Functions s) as [Fn' s1| | |]; try done. destruct Hs as (-> & Hrun & E1 & E2 & E3).
  rewrite (fs_kind (r_frame Hrun)). destruct (pushFunctionBlock Functions Fn s1) as [[] s2| | |] eqn:E; try done.
  intros (s' & Hn & Hl)%loop_busy. exists s2, s'. split_and!; try done; revert E;
    unfold pushFunctionBlock, blockPush, curFunc, getFunctionInst, bind, gets, of_option, ret, modify; cbn [id];
    destruct (Functions !! FuncInst s1); try done; destruct (_ <=? _); try done; intros [= <-].
  - exact (r_func Hrun).
  - exact E1.
Qed.

(** What a call may leave: results of the function's type or an exception, and
    a well-formed instance. *)
Definition call_ok (fuel f : nat) (Fn : FunctionInstance) (o : option (out Trap Instance_ (list Z))) : Prop :=
  match o with
  | None => busy fuel f
  | Some (Ret vs i) => length vs = length (ReturnTypes (fType Fn)) /\ inst_ok Mod Functions Globals_ i
  | Some (Throw _ i) => inst_ok Mod Functions Globals_ i
  | Some (Exit _ | Undef) => False
  end.

Lemma prepare_safe c f Fn pts Args i R :
  inst_ok Mod Functions Globals_ i -> Functions !! f = Some Fn -> fKind Fn = ByteCode -> bodies f = Some pts ->
  argsFit Fn Args = true -> entry_fits Fn ->
  safe (pushArgs Args;;; ok <- allocFrame Functions f 0;; zen_assert ok;;; getFunctionInst Functions f)
    (fun Fn' s => Fn' = Fn /\ entered s f Fn pts) R (newInterpStack c i).
Proof.
  intros Hi Hf Hk Hb Hargs Hfit. unfold argsFit in Hargs. apply andb_true_iff in Hargs as [_ Hargs%bool_decide_eq_true].
  pose proof (po_funcs Hprog _ _ Hf) as Hok. unfold entry_fits in Hfit.
  assert (0 <= fMaxStackSize Fn) as Hms.
  { destruct (fn_body _ _ _ _ _ Hprog _ _ _ Hf Hk Hb) as [vend Hbody].
    pose proof (bo_stack Hbody 0 []) as Hst. rewrite (chain_start _ _ _ _ _ _ (body_chain _ _ _ _ Hbody)) in Hst.
    specialize (Hst eq_refl ltac:(by repeat constructor)). cbn in Hst. lia. }
  assert (0 <= fNumLocalCells Fn) as Hlc.
  { destruct (fn_body _ _ _ _ _ Hprog _ _ _ Hf Hk Hb) as [vend Hbody]. rewrite (bo_locals Hbody). apply tcells_nonneg. }
  assert (0 <= u32 (fMaxBlockDepth Fn * sizeofBlockInfo)) as Hu by (apply (wrap_range 32); lia).
  apply safe_bind, push_args_safe; rewrite Hargs; fold (fparams Fn).
  - apply (fo_param_types Hok).
  - cbn [Top TopBoundary newInterpStack]. change (PresetReservedStackSize / 4) with 1048576.
    change PresetReservedStackSize with 4194304 in *. change sizeofInterpFrame with 80 in *. lia.
  - intros cells. apply safe_bind. cbn [Top Frames newInterpStack]. rewrite Z.add_0_l.
    unfold allocFrame, getFunctionInst. apply safe_bind. eapply safe_option; [exact Hf|]. apply safe_bind, safe_gets. cbn [id].
    cbn [Top TopBoundary set_Frames set_Cells newInterpStack]. rewrite Z.shiftl_mul_pow2 by lia.
    rewrite (proj2 (Z.leb_gt _ _)).
    2: { change (PresetReservedStackSize / 4) with 1048576. change PresetReservedStackSize with 4194304 in *.
         change (2 ^ 2) with 4. lia. }
    apply safe_bind, safe_modify. apply safe_bind, safe_modify, safe_pure.
    apply safe_bind, safe_assert; [done|]. eapply safe_option; [exact Hf|]. split; [done|].
    change (2 ^ 2) with 4. rewrite Z.div_mul by lia. by split_and!.
Qed.

(** The preparation of a call throws nothing. *)
Definition throwless {A} (m : wbody A) : Prop := forall s e s', m s <> Throw e s'.

Lemma tl_bind {A B} (m : wbody A) (k : A -> wbody B) : throwless m -> (forall a, throwless (k a)) -> throwless (bind m k).
Proof. intros Hm Hk s e s'. specialize (Hm s). unfold bind. destruct (m s); try done; [apply Hk|by intros [= -> ->]; eapply Hm]. Qed.
Lemma tl_option {A} (o : option A) : throwless (of_option o).
Proof. by destruct o. Qed.
Lemma tl_assert b : throwless (zen_assert b).
Proof. by destruct b. Qed.
Lemma tl_args Args : throwless (pushArgs Args).
Proof.
  induction Args as [|[t x] Args IH]; [done|]. apply tl_bind; [apply tl_option|intros T]. apply tl_bind; [|done].
  apply tl_bind; [done|intros s]. apply tl_bind; [apply tl_assert|done].
Qed.
Lemma tl_prepare f Args :
  throwless (pushArgs Args;;; ok <- allocFrame Functions f 0;; zen_assert ok;;; getFunctionInst Functions f).
Proof.
  apply tl_bind; [apply tl_args|intros _]. apply tl_bind.
  - apply tl_bind; [apply tl_option|intros Fn]. apply tl_bind; [done|intros s]. cbn zeta. by case_match.
  - intros ok. apply tl_bind; [apply tl_assert|intros _]. apply tl_option.
Qed.

Lemma call_safe fuel c f Fn Args i :
  inst_ok Mod Functions Globals_ i -> Functions !! f = Some Fn -> fKind Fn = ByteCode -> argsFit Fn Args = true -> entry_fits Fn ->
  call_ok fuel f Fn (call_ fuel c f Args i).
Proof.
  intros Hi Hf Hk Hargs Hfit. pose proof (po_funcs Hprog _ _ Hf) as Hok.
  destruct (fo_body Hok Hk) as (pts & vend & Hb & Hbody).
  pose proof (prepare_safe c f Fn pts Args i (fun _ => False) Hi Hf Hk Hb Hargs Hfit) as Hs.
  pose proof (tl_prepare f Args (newInterpStack c i)) as Hno.
  unfold callWasmFunctionInInterpMode. unfold safe in Hs.
  destruct ((pushArgs Args;;; _) (newInterpStack c i)) as [Fn' s| |e s|] in Hs, Hno |- *; try done; [|by destruct (Hno e s)].
  destruct Hs as [-> He]. pose proof (interpret_safe fuel s f Fn pts vend He Hbody) as Hdef.
  pose proof (interpret_inst wide_shift Mod Functions Globals_ GasFuncIdx enlarge native Hnative fuel s) as Hinst.
  pose proof (interpret_busy fuel s f Fn pts vend He Hbody) as Hbusy. destruct He as (_ & _ & _ & _ & Hi' & _). specialize (Hinst) with (1 := Hi').
  destruct (interpret_ fuel s) as [[[] s'|s'|e s'|]|]; cbn [call_ok]; try done; [| |exact (Hinst _ eq_refl)|by apply Hbusy];
    destruct (results_some (ReturnTypes (fType Fn)) 0 s' (fo_return_types Hok)) as (vs & -> & Hlen);
    (split; [done|exact (Hinst _ eq_refl)]).
Qed.
End Step.
