(* ===== verification/LoaderTyped.v ===== *)
(** What [FunctionLoader::load] leaves to the interpreter: a body it accepts
    without values of unknown type on its type stack is, with the opcodes the
    loader patches, a typed body ([WasmTyped]), and the stack size and block
    depth that the loader records are enough for it. *)

From stdpp Require Import gmap.
From S2P Require Import Prelude Intx Leb128 Leb128Correct WasmNum FunctionLoader WasmValid WasmInterp WasmTyped WasmSafeInv FunctionLoaderInv FunctionLoaderSteps FunctionLoaderTheorems.

#[local] Open Scope Z_scope.

(** ** The code and the depth of blocks *)

(** A relation between the states of the loader that holds whenever the code
    and the depth counted stay and no block is opened. *)
Class Flat (R : FunctionLoader -> FunctionLoader -> Prop) : Prop := {
  flat_trans s1 s2 s3 : R s1 s2 -> R s2 s3 -> R s1 s3;
  flat_step s s' : LCode s' = LCode s -> MaxBlockDepth s' = MaxBlockDepth s ->
    (length (ControlBlocks s') <= length (ControlBlocks s))%nat -> R s s';
}.

(** The operations that keep it. *)
Definition keeping {A} (R : FunctionLoader -> FunctionLoader -> Prop) (m : lbody A) : Prop :=
  forall s, match m s with Ret _ s' => R s s' | _ => True end.

Lemma keeping_state {A} R (m : lbody A) s a s' : keeping R m -> m s = Ret a s' -> R s s'.
Proof. intros H E. specialize (H s). by rewrite E in H. Qed.

Create HintDb calm.

Section Compose.
Context {R : FunctionLoader -> FunctionLoader -> Prop} {HR : Flat R}.

Lemma keeping_bind {A B} (m : lbody A) (f : A -> lbody B) : keeping R m -> (forall a, keeping R (f a)) -> keeping R (bind m f).
Proof.
  intros Hm Hf s. specialize (Hm s). unfold bind. destruct (m s) as [a s1| | |]; try done. specialize (Hf a s1).
  destruct (f a s1); try done. by eapply flat_trans.
Qed.
Lemma flat_same s s' : LCode s' = LCode s -> MaxBlockDepth s' = MaxBlockDepth s -> ControlBlocks s' = ControlBlocks s -> R s s'.
Proof. intros E1 E2 E3. apply flat_step; [done|done|by rewrite E3]. Qed.
Lemma keeping_modify f :
  (forall s, LCode (f s) = LCode s /\ MaxBlockDepth (f s) = MaxBlockDepth s /\ ControlBlocks (f s) = ControlBlocks s) ->
  keeping R (modify f).
Proof. intros H s. destruct (H s) as (? & ? & ?). by apply flat_same. Qed.
End Compose.

(** Operations of operations that keep a relation. *)
Ltac calm_tac :=
  repeat match goal with
  | |- keeping _ (bind _ _) => apply keeping_bind; [|intros ?]
  | |- keeping _ (modify _) => apply keeping_modify; by intros ?
  | |- keeping _ (if ?b then _ else _) => destruct b
  | |- keeping _ (let _ := _ in _) => cbn zeta
  | |- keeping _ (match ?x with _ => _ end) => destruct x
  | |- _ => progress auto with calm
  end.

Section Keeping.
Context {R : FunctionLoader -> FunctionLoader -> Prop} {HR : Flat R}.

Lemma keeping_ret {A} (a : A) : keeping R (ret a).
Proof. intros s. by apply flat_same. Qed.
Lemma keeping_throw {A} e : keeping (A := A) R (throw e).
Proof. by intros s. Qed.
Lemma keeping_undef {A} : keeping (A := A) R undef.
Proof. by intros s. Qed.
Lemma keeping_gets {A} (f : FunctionLoader -> A) : keeping R (gets f).
Proof. intros s. by apply flat_same. Qed.
Lemma keeping_option {A} (o : option A) : keeping R (of_option o).
Proof. intros s. destruct o; [by apply flat_same|done]. Qed.
Lemma keeping_reading {A} (f : list Z -> ErrorCode + (A * list Z)) : keeping R (reading f).
Proof. intros s. unfold reading. destruct (f _) as [|[]]; [done|by apply flat_same]. Qed.
Lemma keeping_set_back f : keeping R (set_back f).
Proof. intros s. unfold set_back. destruct (ControlBlocks s) eqn:E; [done|]. apply flat_step; [done|done|by rewrite E]. Qed.
Lemma keeping_popBlock : keeping R popBlock.
Proof. intros s. unfold popBlock. destruct (ControlBlocks s) eqn:E; [done|]. apply flat_step; [done|done|rewrite E; cbn; lia]. Qed.
#[local] Hint Resolve keeping_ret keeping_throw keeping_undef keeping_gets keeping_option keeping_reading keeping_set_back
  keeping_popBlock : calm.

Lemma keeping_pop t : keeping R (popValueType t).
Proof. unfold popValueType, back. calm_tac. Qed.
Lemma keeping_push t : keeping R (pushValueType t).
Proof. unfold pushValueType. calm_tac. Qed.
#[local] Hint Resolve keeping_pop keeping_push : calm.
Lemma keeping_for_each f l : (forall t, keeping R (f t)) -> keeping R (for_each f l).
Proof. intros Hf. induction l; cbn [for_each]; calm_tac. Qed.
Lemma keeping_popTypes l : keeping R (popTypes l).
Proof. apply keeping_for_each. intros t. calm_tac. Qed.
Lemma keeping_pushTypes l : keeping R (pushTypes l).
Proof. apply keeping_for_each. intros t. calm_tac. Qed.
#[local] Hint Resolve keeping_popTypes keeping_pushTypes : calm.
Lemma keeping_popAndPush n a b : keeping R (popAndPushValueType n a b).
Proof. induction n; cbn [popAndPushValueType]; calm_tac. Qed.
Lemma keeping_target Types l n : keeping R (targetLoop Types l n).
Proof. revert l n. induction Types; intros l n; cbn [targetLoop]; calm_tac. Qed.
Lemma keeping_reset : keeping R resetStack.
Proof. unfold resetStack, back. calm_tac. Qed.
#[local] Hint Resolve keeping_popAndPush keeping_target keeping_reset : calm.
Lemma keeping_top b l x : keeping R (checkTopTypes b l x).
Proof. unfold checkTopTypes, checkTargetBlockStack. calm_tac. apply keeping_for_each. intros t. calm_tac. Qed.
Lemma keeping_params : keeping R pushBlockParamTypes.
Proof. unfold pushBlockParamTypes, back. calm_tac. Qed.
#[local] Hint Resolve keeping_top keeping_params : calm.
Lemma keeping_blockStack : keeping R checkBlockStack.
Proof. unfold checkBlockStack, back. calm_tac. Qed.
Lemma keeping_unreachable : keeping R unreachable.
Proof. unfold unreachable, setStackPolymorphic. calm_tac. Qed.
#[local] Hint Resolve keeping_blockStack keeping_unreachable : calm.

Context (wide_shift : Z -> Z -> Z) (M : Module_) (F : TypeEntry) (Locals : list WASMType).

Lemma keeping_branch : keeping R (checkBranch wide_shift).
Proof. unfold checkBranch, readU32_, checkTargetBlockStack, back. calm_tac. Qed.
#[local] Hint Resolve keeping_branch : calm.
Lemma keeping_table fuel n i e : keeping R (brTableLoop wide_shift fuel n i e).
Proof. revert i e. induction fuel; intros i e; cbn [brTableLoop]; calm_tac. Qed.
#[local] Hint Resolve keeping_table : calm.

(** The instructions that neither open a block nor are patched. *)
Lemma keeping_opcode op :
  ~ (2 <= op <= 4) -> op <> 0x1a -> op <> 0x1b -> keeping R (loadOpcode wide_shift M F Locals op).
Proof.
  intros Hb H1 H2. unfold loadOpcode. rewrite (proj2 (Z.eqb_neq op 0x1a) H1), (proj2 (Z.eqb_neq op 0x1b) H2).
  rewrite (proj2 (Z.eqb_neq op 2)), (proj2 (Z.eqb_neq op 3)), (proj2 (Z.eqb_neq op 4)) by lia.
  unfold loadElse, loadEnd, loadBrTable, loadReturn, loadCall, loadCallIndirect, readLocal, loadGetGlobal, loadSetGlobal,
    readMemIdx, loadMemoryAccess, readU32_, readI32_, readI64_, readF32, readF64, addStats, back, setStackPolymorphic.
  calm_tac.
Qed.

(** Opening a block, up to the block and after it. *)
Lemma keeping_block_type : keeping R readBlockType.
Proof. unfold readBlockType, readTypeBase. calm_tac. Qed.
Lemma keeping_condition (b : bool) : keeping R (if b then popValueType I32;;; ret tt else ret tt).
Proof. calm_tac. Qed.
End Keeping.

(** What opening a block does to a state. *)
Lemma block_state L s s' :
  loadBlock L s = Ret tt s' -> exists s1 s2 T p, pushBlock L T p s1 = Ret tt s2 /\
    forall R, Flat R -> R s s1 /\ R s2 s'.
Proof.
  unfold loadBlock. unfold bind at 1.
  match goal with |- context [match ?m with _ => _ end] => destruct m as [[] s0| | |] eqn:E0; try done end. unfold bind at 1.
  destruct (readBlockType s0) as [t s1| | |] eqn:E1; try done. cbn [gets]. intros E.
  exists s1. eexists _, _, _. split; [done|]. intros R HR. split.
  - eapply flat_trans; [exact (keeping_state _ _ _ _ _ (keeping_condition _) E0)|exact (keeping_state _ _ _ _ _ keeping_block_type E1)].
  - exact (keeping_state _ _ _ _ _ keeping_params E).
Qed.

(** The code stays, and the deepest nesting is counted. *)
Record calm (s s' : FunctionLoader) : Prop := {
  cm_code : LCode s' = LCode s;
  cm_max : MaxBlockDepth s <= MaxBlockDepth s';
  cm_depth : Z.of_nat (length (ControlBlocks s)) <= MaxBlockDepth s -> Z.of_nat (length (ControlBlocks s')) <= MaxBlockDepth s';
}.

#[export] Instance calm_flat : Flat calm.
Proof.
  split; [|intros s s' E1 E2 E3; split; [done|lia|lia]].
  intros s1 s2 s3 [] []. split; [congruence|lia|auto].
Qed.

Lemma calm_trans s1 s2 s3 : calm s1 s2 -> calm s2 s3 -> calm s1 s3.
Proof. apply flat_trans. Qed.

(** One block is opened at most. *)
Record opens (k : Z) (s s' : FunctionLoader) : Prop := {
  op_blocks : Z.of_nat (length (ControlBlocks s')) <= Z.of_nat (length (ControlBlocks s)) + k;
  op_depth : MaxBlockDepth s' <= Z.max (MaxBlockDepth s) (Z.of_nat (length (ControlBlocks s)) + k);
}.

#[export] Instance opens_flat : Flat (opens 0).
Proof. split; [|intros s s' E1 E2 E3; split; lia]. intros s1 s2 s3 [] []. split; lia. Qed.

Section Ops.
Context (wide_shift : Z -> Z -> Z) (M : Module_) (F : TypeEntry) (Locals : list WASMType).

Lemma calm_block L : keeping calm (loadBlock L).
Proof.
  intros s. destruct (loadBlock L s) as [[] s'| | |] eqn:E; try done.
  destruct (block_state _ _ _ E) as (s1 & s2 & T & p & E1 & HR). destruct (HR _ calm_flat) as [H1 H2].
  eapply calm_trans; [exact H1|]. eapply calm_trans; [|exact H2]. injection E1 as <-. split; cbn; [done|lia|lia].
Qed.

Lemma calm_opcode op : op <> 0x1a -> op <> 0x1b -> keeping calm (loadOpcode wide_shift M F Locals op).
Proof.
  intros H1 H2. destruct (decide (2 <= op <= 4)) as [Hb|Hb]; [|by apply keeping_opcode; [intros ?; apply Hb|..]].
  assert (op = 2 \/ op = 3 \/ op = 4) as [-> | [-> | ->]] by lia; exact (calm_block _).
Qed.

Lemma opens_block L : keeping (opens 1) (loadBlock L).
Proof.
  intros s. destruct (loadBlock L s) as [[] s'| | |] eqn:E; try done.
  destruct (block_state _ _ _ E) as (s1 & s2 & T & p & E1 & HR). destruct (HR _ opens_flat) as [[] []].
  injection E1 as <-. cbn in *. split; lia.
Qed.

Lemma opens_patched : keeping (opens 0) loadDrop /\ keeping (opens 0) loadSelect.
Proof.
  assert (forall op, keeping (opens 0) (patchOpcode op)) as Hp.
  { intros op s. unfold patchOpcode. cbn. split; cbn; lia. }
  pose proof (fun t => keeping_pop (R := opens 0) t) as Hpop. pose proof (fun t => keeping_push (R := opens 0) t) as Hpush.
  pose proof (@keeping_ret (opens 0) _) as Hret. pose proof (@keeping_throw (opens 0)) as Hthrow.
  split; unfold loadDrop, loadSelect; calm_tac.
Qed.

Lemma opens_weak {A} (m : lbody A) : keeping (opens 0) m -> keeping (opens 1) m.
Proof. intros H s. specialize (H s). destruct (m s); try done. destruct H. split; lia. Qed.

Lemma opens_step : keeping (opens 1) (loadStep wide_shift M F Locals).
Proof.
  intros s. unfold loadStep, bind. destruct (reading readByte s) as [op s1| | |] eqn:E1; try done.
  assert (opens 0 s s1) as [H1 H2] by exact (keeping_state _ _ _ _ _ (keeping_reading (R := opens 0) readByte) E1).
  assert (keeping (opens 1) (loadOpcode wide_shift M F Locals op)) as Hop.
  { destruct (decide (2 <= op <= 4)) as [Hb|Hb].
    { assert (op = 2 \/ op = 3 \/ op = 4) as [-> | [-> | ->]] by lia; exact (opens_block _). }
    destruct (decide (op = 0x1a)) as [->|]; [apply opens_weak, opens_patched|].
    destruct (decide (op = 0x1b)) as [->|]; [apply opens_weak, opens_patched|]. by apply opens_weak, keeping_opcode; [intros ?; apply Hb|..]. }
  specialize (Hop s1). destruct (loadOpcode _ _ _ _ op s1); try done. destruct Hop. split; lia.
Qed.

(** Each turn of the loop reads a byte. *)
Lemma opens_loop fuel s s' :
  loadLoop wide_shift M F Locals fuel s = Ret tt s' -> opens (Z.of_nat fuel) s s'.
Proof.
  revert s. induction fuel as [|fuel IH]; intros s;
    (destruct (decide (Ptr s < length (LCode s))%nat) as [Hlt|Hge];
     [|rewrite (proj1 (loop_done wide_shift M F Locals _ s ltac:(lia))); intros [= <-]; split; lia]).
  { cbn [loadLoop]. by rewrite (proj2 (Nat.ltb_lt _ _)). }
  intros H. destruct (loop_turn wide_shift M F Locals fuel s s' Hlt H) as (s1 & E1 & E2 & _).
  destruct (keeping_state _ _ _ _ _ opens_step E1), (IH _ E2). split; lia.
Qed.

(** ** Patched opcodes *)

(** What [op] becomes in state [v]. *)
Record patch (v : vstate) (op op' : Z) : Prop := {
  pa_kind : op' = op \/ op = 0x1a /\ op' = 0xc5 \/ op = 0x1b /\ op' = 0xc6;
  pa_drop t v1 : op = 0x1a -> pop_opd v = Some (Some t, v1) -> op' = if wide t then 0xc5 else 0x1a;
  pa_select t v1 v2 : op = 0x1b -> pop_expect I32 v = Some v1 -> pop_opd v1 = Some (Some t, v2) ->
    op' = if wide t then 0xc6 else 0x1b;
}.

(** The state but for the code. *)
Definition patched (p : nat) (op' : Z) (s s' : FunctionLoader) : Prop :=
  exists s2, calm s s2 /\ LCode s' = <[p := op']> (LCode s) /\ MaxBlockDepth s' = MaxBlockDepth s2 /\ ControlBlocks s' = ControlBlocks s2.

Lemma calm_patched p op s s' : calm s s' -> LCode s !! p = Some op -> patched p op s s'.
Proof. intros Hc Hp. exists s'. split_and!; try done. rewrite list_insert_id by done. apply (cm_code _ _ Hc). Qed.

Lemma wide_decide t : (bool_decide (t = I64) || bool_decide (t = F64)) = wide t.
Proof. by destruct t. Qed.

Lemma opd_some a t : opd a = Some t -> a = t.
Proof. unfold opd. case_bool_decide; [done|]. by intros [= ->]. Qed.

(** A pop of any type, when it returns. *)
Lemma pop_any s a s' :
  inv true s -> ControlBlocks s <> [] -> popValueType ANY s = Ret a s' ->
  inv true s' /\ ControlBlocks s' <> [] /\ calm s s' /\ Ptr s' = Ptr s /\ pop_opd (abs s) = Some (opd a, abs s').
Proof.
  intros Hi Hne E. pose proof (ret_of _ _ _ _ _ (pop_runs true ANY s Hi Hne ltac:(by right)) E) as [Hi' Hso _ _ _ (top & Hp & Ht & _)].
  split_and!; try done; [by rewrite (so_blocks _ _ Hso)|by eapply keeping_state; [apply (keeping_pop (R := calm))|]|by apply so_ptr|].
  by rewrite <- (Ht eq_refl).
Qed.

Lemma drop_patches p s s' :
  inv true s -> ControlBlocks s <> [] -> Ptr s = S p -> LCode s !! p = Some 0x1a -> loadDrop s = Ret tt s' ->
  exists op', patched p op' s s' /\ patch (abs s) 0x1a op'.
Proof.
  intros Hi Hne Hp Hop. unfold loadDrop, bind. destruct (popValueType ANY s) as [a s1| | |] eqn:E1; try done.
  destruct (pop_any _ _ _ Hi Hne E1) as (_ & _ & Hc & Hptr & Hpop). rewrite wide_decide. intros E.
  exists (if wide a then 0xc5 else 0x1a). split.
  - destruct (wide a); injection E as <-; [|by apply calm_patched]. exists s1. split_and!; try done.
    cbn. rewrite Hptr, Hp. cbn. by rewrite Nat.sub_0_r, (cm_code _ _ Hc).
  - split; [destruct (wide a); auto| |done]. intros t v1 _. rewrite Hpop. intros [= Ht _]. by apply opd_some in Ht as ->.
Qed.

Lemma select_patches p s s' :
  inv true s -> ControlBlocks s <> [] -> Ptr s = S p -> LCode s !! p = Some 0x1b -> loadSelect s = Ret tt s' ->
  exists op', patched p op' s s' /\ patch (abs s) 0x1b op'.
Proof.
  intros Hi Hne Hp Hop. unfold loadSelect, bind. destruct (popValueType I32 s) as [a0 s0| | |] eqn:E0; try done.
  pose proof (ret_of _ _ _ _ _ (pop_val true I32 s Hi Hne I) E0) as (Hi0 & Hso & _ & He).
  assert (ControlBlocks s0 <> []) as Hne0 by (by rewrite (so_blocks _ _ Hso)).
  assert (calm s s0) as Hc0 by (by eapply keeping_state; [apply (keeping_pop (R := calm))|]).
  destruct (popValueType ANY s0) as [a1 s1| | |] eqn:E1; try done.
  destruct (pop_any _ _ _ Hi0 Hne0 E1) as (Hi1 & Hne1 & Hc1 & Hptr1 & Hpop1).
  destruct (popValueType ANY s1) as [a2 s2| | |] eqn:E2; try done.
  destruct (pop_any _ _ _ Hi1 Hne1 E2) as (_ & _ & Hc2 & Hptr2 & _). destruct (_ && _); [done|].
  set (t0 := if bool_decide (a1 = ANY) then a2 else a1). cbn zeta. rewrite wide_decide. intros E.
  pose proof (calm_trans _ _ _ Hc0 (calm_trans _ _ _ Hc1 Hc2)) as Hc.
  exists (if wide t0 then 0xc6 else 0x1b). split.
  - destruct (wide t0).
    + cbn beta iota delta [patchOpcode modify] in E. destruct (pushValueType t0 _) as [[] s3| | |] eqn:E3; try done.
      injection E as <-. pose proof (keeping_state _ _ _ _ _ (keeping_push (R := calm) t0) E3) as Hc3.
      exists (set_Code (LCode s2) s3). split_and!; try done; [|].
      * destruct Hc3 as [_ Hm Hd]. eapply calm_trans; [exact Hc|]. by split.
      * rewrite (cm_code _ _ Hc3). cbn. rewrite Hptr2, Hptr1, (so_ptr _ _ Hso), Hp. cbn. by rewrite Nat.sub_0_r, (cm_code _ _ Hc).
    + cbn beta iota delta [ret] in E. apply calm_patched; [|done]. eapply calm_trans; [exact Hc|].
      by eapply keeping_state; [apply (keeping_push (R := calm) t0)|].
  - split; [destruct (wide t0); auto|done|]. intros t v1 v2 _. rewrite He. intros [= <-]. rewrite Hpop1. intros [= Ht _].
    apply opd_some in Ht as E3. subst a1. unfold t0. rewrite bool_decide_false; [done|]. intros ->. done.
Qed.

Lemma step_patches s s' :
  inv true s -> ControlBlocks s <> [] -> loadStep wide_shift M F Locals s = Ret tt s' ->
  exists op op', LCode s !! Ptr s = Some op /\ patched (Ptr s) op' s s' /\ patch (abs s) op op'.
Proof.
  intros Hi Hne. unfold loadStep, bind. destruct (reading readByte s) as [op s1| | |] eqn:E1; try done. intros E.
  pose proof (ret_of _ _ _ _ _ (reading_runs true readByte s Hi advances_byte) E1) as (Hi1 & Hm & Hb).
  destruct Hm as [Ec Ep Eb Ev Em]. assert (calm s s1) as Hc1 by (by eapply keeping_state; [apply (keeping_reading (R := calm))|]).
  assert (abs s1 = abs s) as Ea by (unfold abs; by rewrite Eb, Ev).
  destruct (drop (Ptr s) (LCode s)) as [|c bs] eqn:Ed; [done|]. cbn [readByte] in Hb. injection Hb as -> Hb.
  assert (LCode s !! Ptr s = Some op) as Hop.
  { pose proof (lookup_drop (LCode s) (Ptr s) 0) as El. rewrite Ed, Nat.add_0_r in El. by rewrite <- El. }
  exists op.
  assert (Ptr s1 = S (Ptr s)) as Ep1.
  { apply (f_equal length) in Hb, Ed. rewrite Ec, !length_drop in *. cbn in Ed. apply lookup_lt_Some in Hop.
    pose proof (i_ptr _ _ Hi1) as Hle. rewrite Ec in Hle. lia. }
  assert (ControlBlocks s1 <> []) as Hne1 by (by rewrite Eb).
  assert (forall op', patched (Ptr s) op' s1 s' -> patched (Ptr s) op' s s') as Hback.
  { intros op' (s2 & Hc & Hl & Hd & Hbl). exists s2. rewrite Ec in Hl. split_and!; try done. by eapply calm_trans. }
  destruct (decide (op = 0x1a)) as [->|H1]; [|destruct (decide (op = 0x1b)) as [->|H2]].
  - destruct (drop_patches (Ptr s) s1 s' Hi1 Hne1 Ep1 ltac:(by rewrite Ec) E) as (op' & Hp & Hpa). rewrite Ea in Hpa.
    exists op'. auto.
  - destruct (select_patches (Ptr s) s1 s' Hi1 Hne1 Ep1 ltac:(by rewrite Ec) E) as (op' & Hp & Hpa). rewrite Ea in Hpa.
    exists op'. auto.
  - exists op. split_and!; [done| |by split; auto].
    apply Hback, calm_patched; [|by rewrite Ec]. eapply keeping_state; [by apply calm_opcode|exact E].
Qed.
End Ops.

(** ** The instruction *)

Lemma plain_op_eq op i :
  plain_op op = Some i -> (i = Drop -> op = 0x1a) /\ (i = Select -> op = 0x1b) /\ (op = 0x1a -> i = Drop) /\ (op = 0x1b -> i = Select).
Proof.
  unfold plain_op.
  repeat match goal with |- context [op =? ?k] => destruct (Z.eqb_spec op k) as [->|]; [by intros [= <-]|] end.
  destruct (in_range _ _ _); [|done]. destruct (numeric_table !! _) as [[]|]; [|done]. by intros [= <-].
Qed.

Lemma encodes_patchable op i imm :
  encodes op i imm ->
  (i = Drop -> op = 0x1a) /\ (i = Select -> op = 0x1b) /\ (op = 0x1a -> i = Drop /\ imm = []) /\ (op = 0x1b -> i = Select /\ imm = []).
Proof.
  intros He. inversion He as [op' i' Hp|op' i' b t Hi Ht|op' i' x g Hi Hg|n gn ls gs l gl Hn Hgs En Hl|t g Hg| | |x g Hg|x g Hg
    |g Hg|g Hg|op' e a ga o go Hr He1 Ha Ho|op' e a ga o go Hr He1 Ha Ho]; subst; try (by split_and!).
  - destruct (plain_op_eq _ _ Hp) as (H1 & H2 & H3 & H4). split_and!; auto.
  - unfold block_op in Hi. repeat match type of Hi with context [op =? ?k] => destruct (Z.eqb_spec op k) as [->|] end;
      injection Hi as <- || done; by split_and!.
  - unfold index_op in Hi. repeat match type of Hi with context [op =? ?k] => destruct (Z.eqb_spec op k) as [->|] end;
      injection Hi as <- || done; by split_and!.
  - unfold in_range in Hr. apply andb_true_iff in Hr as [Hr%Z.leb_le _]. split_and!; try done; intros ->; lia.
  - unfold in_range in Hr. apply andb_true_iff in Hr as [Hr%Z.leb_le _]. split_and!; try done; intros ->; lia.
Qed.

Lemma op_ok_of v i op op' imm :
  encodes op i imm -> patch v op op' -> Forall is_byte (op :: imm) -> op_ok v i op' imm.
Proof.
  intros He Hp Hb. destruct (encodes_patchable _ _ _ He) as (H1 & H2 & H3 & H4). split.
  - destruct (pa_kind _ _ _ Hp) as [->|[[-> ->]|[-> ->]]]; [by left|destruct H3 as [-> ->]; auto|destruct H4 as [-> ->]; auto].
  - apply Forall_cons_1 in Hb as [Hb1 Hb2]. constructor; [|done].
    destruct (pa_kind _ _ _ Hp) as [->|[[_ ->]|[_ ->]]]; [done|by vm_compute|by vm_compute].
  - intros t v1 Hi. apply (pa_drop _ _ _ Hp), H1, Hi.
  - intros t v1 v2 Hi. apply (pa_select _ _ _ Hp), H2, Hi.
Qed.

(** ** Short labels *)

(** The next [n] numbers take two bytes at most. *)
Fixpoint short_groups (n : nat) (bs : list Z) : bool :=
  match n with
  | O => true
  | S n => match leb_split bs with Some (g, r) => (length g <=? 2)%nat && short_groups n r | None => false end
  end.
Definition short_table (i : instr) (bs : list Z) : bool :=
  match i with
  | BrTable ls _ => match leb_split bs with Some (_, r) => short_groups (length ls) r | None => false end
  | _ => true
  end.
(** The branch tables of a body have labels of two bytes at most, the last
    ones excepted. *)
Fixpoint short_tables (fuel : nat) (bs : list Z) : bool :=
  match fuel, bs with
  | S fuel, op :: r =>
      match decode_op op r with Some (i, r') => short_table i r && short_tables fuel r' | None => true end
  | _, _ => true
  end.

Lemma split_closed g r : closed g -> leb_split (g ++ r) = Some (g, r).
Proof.
  induction 1 as [b Hb|b g Hb Hg IH]; cbn [app leb_split].
  - by rewrite (proj2 (Z.ltb_lt _ _)) by lia.
  - rewrite (proj2 (Z.ltb_ge _ _)) by lia. by rewrite IH.
Qed.

Lemma short_groups_ok ls gs r :
  Forall2 (leb_of TU32) ls gs -> short_groups (length ls) (concat gs ++ r) = true -> Forall (fun g => (length g <= 2)%nat) gs.
Proof.
  induction 1 as [|x g ls gs Hg Hgs IH]; [constructor|]. cbn [length short_groups concat]. rewrite <- app_assoc.
  rewrite (split_closed _ _ (lo_closed _ _ _ Hg)). intros [H1%Nat.leb_le H2]%andb_true_iff. constructor; auto.
Qed.

Lemma short_table_ok v i op imm r : short_table i (imm ++ r) = true -> short_labels (mkPoint v i op imm).
Proof.
  intros H ls l gn gs gl Hi Him Hgn Hgs. cbn in Hi, Him. subst. cbn [short_table] in H.
  rewrite <- !app_assoc in H. rewrite (split_closed _ _ (lo_closed _ _ _ Hgn)) in H. by eapply short_groups_ok.
Qed.

(** ** The loop *)

Section Loop.
Context (wide_shift : Z -> Z -> Z) (M : Module_) (F : TypeEntry) (Locals : list WASMType).
Hypothesis HM : mod_ok M.
Hypothesis HF : type_ok F.
Hypothesis HL : Forall is_val Locals.

Abbreviation visited_ := (visited wide_shift M F Locals).
Abbreviation loadLoop_ := (loadLoop wide_shift M F Locals).

(** What the states the loop visits become in the end. *)
Record ends_in (fuel : nat) (s s' : FunctionLoader) (pts : list point) : Prop := {
  ei_chain : WasmTyped.chain M F Locals (abs s) pts (abs s');
  ei_code : drop (Ptr s) (LCode s') = concat (map pt_bytes pts);
  ei_before : take (Ptr s) (LCode s') = take (Ptr s) (LCode s);
  ei_states k : exists v, v ∈ visited_ fuel s /\ state_at (abs s') pts k = abs v;
  ei_inv : Forall (inv true) (visited_ fuel s);
  ei_labels : short_tables fuel (drop (Ptr s) (LCode s)) = true -> Forall short_labels pts;
  ei_max : MaxBlockDepth s <= MaxBlockDepth s';
  ei_depth : Z.of_nat (length (ControlBlocks s)) <= MaxBlockDepth s ->
    Forall (fun v => Z.of_nat (length (ControlBlocks v)) <= MaxBlockDepth s') (visited_ fuel s);
}.

(** A turn, as an instruction. *)
Lemma turn_point s s' :
  inv true s -> ControlBlocks s <> [] -> loadStep wide_shift M F Locals s = Ret tt s' -> stepped M F Locals true s s' ->
  exists i op imm op', drop (Ptr s) (LCode s) = op :: imm ++ drop (Ptr s') (LCode s) /\
    decode_op op (imm ++ drop (Ptr s') (LCode s)) = Some (i, drop (Ptr s') (LCode s)) /\ op_ok (abs s) i op' imm /\
    step_instr M F Locals i (abs s) = Some (abs s') /\ patched (Ptr s) op' s s' /\ Ptr s' = (Ptr s + S (length imm))%nat.
Proof.
  intros Hi Hne E [Hi' Hlen _ _ _ _ Hst]. destruct (Hst eq_refl) as (i & Hd & Hs).
  destruct (step_patches _ _ _ _ _ _ Hi Hne E) as (op & op' & Hop & Hp & Hpa).
  pose proof (Forall_drop _ (Ptr s) _ (i_bytes _ _ Hi)) as Hb. rewrite (drop_S _ _ _ Hop) in *. cbn [decode_instr] in Hd.
  apply Forall_cons_1 in Hb as [Hb1 Hb2]. destruct (decode_encodes _ _ _ _ Hb2 Hd) as (imm & Eimm & He).
  exists i, op, imm, op'. rewrite <- Eimm. split_and!; try done.
  - eapply op_ok_of; [exact He|done|]. constructor; [done|]. rewrite Eimm in Hb2. by apply Forall_app in Hb2 as [? _].
  - apply (f_equal length) in Eimm. rewrite length_app, !length_drop in Eimm. pose proof (i_ptr _ _ Hi') as Hp'.
    apply lookup_lt_Some in Hop. rewrite Hlen in Hp'. lia.
Qed.

Lemma done_typed fuel s s' :
  inv true s -> (length (LCode s) <= Ptr s)%nat -> loadLoop_ fuel s = Ret tt s' -> exists pts, ends_in fuel s s' pts.
Proof.
  intros Hi Hge Hl. destruct (loop_done wide_shift M F Locals fuel s Hge) as [El Ev]. rewrite El in Hl. injection Hl as <-.
  exists []. split; rewrite ?Ev; try done.
  - constructor.
  - by rewrite drop_ge.
  - intros k. exists s. split; [by left|done].
  - by apply Forall_singleton.
  - by constructor.
Qed.

Lemma loop_typed fuel s s' :
  good true s -> (length (LCode s) - Ptr s <= fuel)%nat -> loadLoop_ fuel s = Ret tt s' -> ControlBlocks s' = [] ->
  Forall (fun v => ANY ∉ ValueTypes v) (visited_ fuel s) -> exists pts, ends_in fuel s s' pts.
Proof.
  revert s. induction fuel as [|fuel IH]; intros s [Hi Hb] Hf Hl Hend Hany;
    (destruct (decide (length (LCode s) <= Ptr s)%nat) as [Hge|Hlt];
     [by eapply done_typed|]); [lia|].
  assert (Ptr s < length (LCode s))%nat as Hlt' by lia.
  destruct (loop_turn wide_shift M F Locals fuel s s' Hlt' Hl) as (s1 & Hs1 & Hl1 & Ev). rewrite Ev in Hany.
  apply Forall_cons_1 in Hany as [_ Hany]. destruct (visited_head wide_shift M F Locals fuel s1) as [l El].
  assert (ControlBlocks s <> []) as Hne by (destruct Hb; [done|lia]).
  pose proof (ret_of _ _ _ _ _ (loadStep_runs wide_shift M F Locals HM HF HL true s Hi Hne) Hs1) as Hst. cbn beta in Hst.
  assert (stepped M F Locals true s s1) as Hstep.
  { apply Hst. intros _. rewrite El in Hany. by apply Forall_cons_1 in Hany as [? _]. }
  destruct (turn_point s s1 Hi Hne Hs1 Hstep) as (i & op & imm & op' & Ed & Hdec & Hok & Hi' & Hpat & Hptr).
  destruct Hstep as [Hi1 Hlen Hc1 Hp1 Hm1 Hb1 _]. destruct Hpat as (s2 & Hcalm & Hcode & Hmax & Hblk).
  destruct (IH s1 ltac:(done) ltac:(lia) Hl1 Hend Hany) as [pts [Ech Ecode Ebef Est Einv Elab Emax Edep]].
  assert (drop (Ptr s) (take (Ptr s1) (LCode s1)) = op' :: imm) as Eseg.
  { rewrite Hcode, Hptr, <- take_drop_commute, drop_insert_ge by lia. rewrite Nat.sub_diag, Ed. cbn. by rewrite take_app_length. }
  exists (mkPoint (abs s) i op' imm :: pts). split.
  - econstructor; try done. unfold abs. cbn [ctrls]. by destruct (ControlBlocks s).
  - cbn [map concat pt_bytes pt_op pt_imm]. rewrite <- Ecode, <- (take_drop (Ptr s1) (LCode s')) at 1.
    rewrite drop_app_le by (rewrite Ebef, length_take; pose proof (i_ptr _ _ Hi1); lia).
    by rewrite Ebef, Eseg.
  - apply (f_equal (take (Ptr s))) in Ebef. rewrite !take_take, Nat.min_l in Ebef by lia.
    rewrite Ebef, Hcode. by rewrite take_insert_ge by lia.
  - intros [|k].
    + exists s. rewrite Ev. split; [by left|done].
    + destruct (Est k) as (v & Hv & Ek). exists v. rewrite Ev. split; [by right|done].
  - rewrite Ev. by constructor.
  - rewrite Ed. cbn [short_tables]. rewrite Hdec. intros [Hsh1 Hsh2]%andb_true_iff. rewrite <- Hc1 in Hsh2.
    constructor; [by eapply short_table_ok|by apply Elab].
  - destruct Hcalm. lia.
  - intros Hd. rewrite Ev. pose proof (cm_depth _ _ Hcalm Hd) as Hd2. pose proof (cm_max _ _ Hcalm) as Hm2.
    constructor; [lia|]. apply Edep. by rewrite Hmax, Hblk.
Qed.

(** ** Accepted bodies *)

Lemma cells_size t : is_val t -> size_of t = 4 * tcell t.
Proof. by destruct t. Qed.
Lemma bytes_cells V : Forall is_val V -> bytes V = 4 * tcells V.
Proof. induction 1 as [|t V Ht _ IH]; cbn [bytes tcells]; [done|]. rewrite IH, cells_size by done. lia. Qed.

Lemma map_opd V V' : ANY ∉ V -> map opd V = map Some V' -> V = V'.
Proof.
  revert V'. induction V as [|t V IH]; intros [|t' V'] Hany; try done. cbn [map]. intros [= Ht HV].
  apply not_elem_of_cons in Hany as [Ha Hany]. apply opd_some in Ht as ->. f_equal. by apply IH.
Qed.

(** What the entry of a body records of it. *)
Record body_typed (Code : list Z) (s : FunctionLoader) (pts : list point) (vend : vstate) : Prop := {
  bt_typed : typed_body M F Locals (LCode s) pts vend;
  bt_stack k V : opds (state_at vend pts k) = map Some V -> 4 * tcells V <= MaxStackSize s;
  bt_depth k : Z.of_nat (length (ctrls (state_at vend pts k))) <= MaxBlockDepth s;
  bt_labels : short_tables (length Code) Code = true -> Forall short_labels pts;
  bt_depth_max : MaxBlockDepth s <= Z.of_nat (length Code) + 1;
}.

Lemma load_typed Code s :
  Forall is_byte Code -> Z.of_nat (length Code) <= 2 ^ 24 ->
  load wide_shift M F Locals Code = Ret tt s -> Forall (fun v => ANY ∉ ValueTypes v) (trace wide_shift M F Locals Code) ->
  exists pts vend, body_typed Code s pts vend.
Proof.
  intros Hb Hl E Hany. destruct (load_accepts wide_shift M F Locals Code s E) as (El & Eb & Ep).
  pose proof (start_good F HF Code Hb Hl) as Hg.
  destruct (loop_typed (length Code) (startLoader F Code) s Hg ltac:(cbn; lia) El Eb Hany) as [pts [Hc Hcode _ Hst Hinv Hlab Hmax Hdep]].
  destruct (loadLoop_sound wide_shift M F Locals HM HF HL (length Code) (startLoader F Code) s Hg ltac:(cbn; lia) El Eb Hany) as [_ Hbytes].
  exists pts, (abs s). rewrite Forall_forall in Hany, Hbytes, Hinv. specialize (Hdep ltac:(cbn; lia)). rewrite Forall_forall in Hdep.
  split.
  - split; [exact Hc|unfold abs; by rewrite Eb|exact Hcode].
  - intros k V HV. destruct (Hst k) as (v & Hv%list_elem_of_In & Ek). rewrite Ek in HV. cbn in HV.
    apply map_opd in HV as <-; [|exact (Hany v Hv)]. rewrite <- bytes_cells; [exact (Hbytes v Hv)|].
    by apply (i_val _ _ (Hinv v Hv)).
  - intros k. destruct (Hst k) as (v & Hv%list_elem_of_In & ->). unfold abs. cbn [ctrls]. rewrite length_map. by apply Hdep.
  - exact Hlab.
  - destruct (opens_loop _ _ _ _ _ _ _ El) as [_ Hd]. cbn in Hd. lia.
Qed.
End Loop.
