(* ===== verification/Instantiator.v ===== *)
(** Instantiation of a module: [src/src/action/instantiator.cpp], with the sizes
    of [Module::InstanceLayout::compute], [Instance::newInstance] and
    [Runtime::callWasmFunction], for the interpreter: without
    [ZEN_ENABLE_CPU_EXCEPTION] (memories come from [allocateZeros] and are not
    filled in advance), [ZEN_ENABLE_JIT], [ZEN_ENABLE_DWASM] and
    [ZEN_ENABLE_BUILTIN_WASI].

    A failed [ZEN_ASSERT], [ZEN_ABORT] and an access outside an array are
    undefined behaviour. *)

From stdpp Require Import gmap.
From S2P Require Import Prelude Intx Leb128 WasmNum FunctionLoader WasmInterp ModuleLoader.

#[local] Open Scope Z_scope.

(** The errors of a call, and of the instantiation. *)
Inductive CallError : Type := UnexpectedNumArgs | UnexpectedArgType | CallTrap (e : Trap).
Inductive InstError : Type :=
| Failed (e : ErrorCode) | ElementsSegmentDoesNotFit | DataSegmentDoesNotFit | StartFailed (e : CallError).

(** The instance that is built.  The elements of all tables start at the same
    place ([TableElemStart]): a table is its sizes, and the elements are one
    area. *)
Record IState : Type := mkIS {
  sFunctions : list FunctionInstance;
  sGlobals : list GlobalInstance;
  sGlobalVarData : list Z;
  sTables : list (Z * Z);             (* [CurSize], [MaxSize] *)
  sTableElems : list Z;
  sMemories : list MemoryInstance;
  DataSegsInited : bool;
  sGas : Z;
}.

Definition set_sFunctions (l : list FunctionInstance) (s : IState) : IState :=
  mkIS l (sGlobals s) (sGlobalVarData s) (sTables s) (sTableElems s) (sMemories s) (DataSegsInited s) (sGas s).
Definition set_sGlobals (l : list GlobalInstance) (s : IState) : IState :=
  mkIS (sFunctions s) l (sGlobalVarData s) (sTables s) (sTableElems s) (sMemories s) (DataSegsInited s) (sGas s).
Definition set_sGlobalVarData (l : list Z) (s : IState) : IState :=
  mkIS (sFunctions s) (sGlobals s) l (sTables s) (sTableElems s) (sMemories s) (DataSegsInited s) (sGas s).
Definition set_sTables (l : list (Z * Z)) (s : IState) : IState :=
  mkIS (sFunctions s) (sGlobals s) (sGlobalVarData s) l (sTableElems s) (sMemories s) (DataSegsInited s) (sGas s).
Definition set_sTableElems (l : list Z) (s : IState) : IState :=
  mkIS (sFunctions s) (sGlobals s) (sGlobalVarData s) (sTables s) l (sMemories s) (DataSegsInited s) (sGas s).
Definition set_sMemories (l : list MemoryInstance) (s : IState) : IState :=
  mkIS (sFunctions s) (sGlobals s) (sGlobalVarData s) (sTables s) (sTableElems s) l (DataSegsInited s) (sGas s).
Definition set_DataSegsInited (b : bool) (s : IState) : IState :=
  mkIS (sFunctions s) (sGlobals s) (sGlobalVarData s) (sTables s) (sTableElems s) (sMemories s) b (sGas s).

Abbreviation ibody := (body (E := InstError) (S := IState)).

(** [for] over the entries of a table. *)
Fixpoint each {A} (f : A -> ibody unit) (l : list A) : ibody unit :=
  match l with [] => ret tt | a :: l => f a;;; each f l end.

(** [memcpy(Dst + Off, Src, ...)] *)
Definition overwrite {A} (Off : Z) (Src Dst : list A) : option (list A) :=
  if (0 <=? Off) && (Off + Z.of_nat (length Src) <=? Z.of_nat (length Dst))
  then Some (take (Z.to_nat Off) Dst ++ Src ++ drop (Z.to_nat Off + length Src) Dst) else None.

(** ** The layout *)

Definition Alignment : Z := 8.
(** [ZEN_ALIGN] on [size_t] *)
Definition alignSize (v : Z) : Z := Z.land (v + Alignment - 1) (Z.lnot (Alignment - 1)).

(** [Layout.GlobalVarSize] and [Layout.TableElemsSize] *)
Definition LayoutGlobalVarSize (m : WasmModule) : Z := alignSize (GlobalVarSize m).
Definition LayoutTableElemsSize (m : WasmModule) : Z :=
  alignSize (foldr (fun t a => ITInitSize t * 4 + a) 0 (ImportTables m) + foldr (fun t a => TInitSize t * 4 + a) 0 (Tables m)).

(** [Instance::newInstance], up to the instantiation; what the areas hold is
    overwritten before it is read. *)
Definition newInstance (m : WasmModule) (GasLimit : Z) : IState :=
  mkIS [] [] (replicate (Z.to_nat (LayoutGlobalVarSize m)) 0) [] (replicate (Z.to_nat (LayoutTableElemsSize m / 4)) 0) []
    false GasLimit.

(** ** Globals *)

(** The bytes of [union InitExpr] that were written. *)
Definition exprObject (e : InitExpr) : list Z :=
  match e with
  | InitGlobal x => le_bytes 4 x
  | InitI32 n => le_bytes 4 n
  | InitI64 n => le_bytes 8 n
  | InitF32 bs => bs
  | InitF64 bs => bs
  end.
(** [memcpy(GlobalPtr, &InitExpr.I32, Size)], of bytes that were written. *)
Definition exprBytes (Size : Z) (e : InitExpr) : option (list Z) :=
  if Size <=? Z.of_nat (length (exprObject e)) then Some (take (Z.to_nat Size) (exprObject e)) else None.

Definition GET_GLOBAL : Z := 0x23.

Definition initGlobal (m : WasmModule) (Global : GlobalDef) : ibody unit :=
  Size <- of_option (getWASMTypeSize (GDType Global));;
  modify (fun s => set_sGlobals (sGlobals s ++ [mkGI (GDType Global) (GDOffset Global)]) s);;;
  InitExpr <- (if GDInitExprKind Global =? GET_GLOBAL then
                 match GDInitExprVal Global with
                 | InitGlobal GlobalIdx =>
                     FromGlobalInst <- of_option (Globals m !! Z.to_nat GlobalIdx);; ret (GDInitExprVal FromGlobalInst)
                 | _ => undef
                 end
               else ret (GDInitExprVal Global));;
  bs <- of_option (exprBytes Size InitExpr);;
  d <- gets sGlobalVarData;;
  d' <- of_option (overwrite (GDOffset Global) bs d);;
  modify (set_sGlobalVarData d').

Definition instantiateGlobals (m : WasmModule) : ibody unit :=
  modify (set_sGlobals (map (fun g => mkGI (IGType g) (IGOffset g)) (ImportGlobals m)));;;
  modify (fun s => set_sGlobalVarData (replicate (Z.to_nat (LayoutGlobalVarSize m)) 0) s);;;
  each (initGlobal m) (Globals m).

(** ** Functions *)

(** [NumParamCells] and [NumReturnCells] of a [TypeEntry] as the loader counts
    them, in the 16 and 6 bits of the entry and the 4 bits of a
    [FunctionInstance]. *)
Definition typeCells (ts : list WASMType) : Z := foldr (fun t a => default 0 (getWASMTypeCellNum t) + a) 0 ts.
Definition NumParamCells (t : TypeEntry) : Z := u16 (typeCells (ParamTypes t)).
Definition NumReturnCells (t : TypeEntry) : Z := wrap 4 (wrap 6 (typeCells (ReturnTypes t))).

(** [Bytes_]: the module after the loader has patched it. *)
Definition functionInstance (m : WasmModule) (Bytes_ : list Z) (I : nat) : option FunctionInstance :=
  let NumImportFunctions := length (ImportFuncs m) in
  if (I <? NumImportFunctions)%nat then
    f ← ImportFuncs m !! I;
    Type_ ← Types_ m !! IFTypeIdx f;
    Some (mkFI Native (DType Type_) (NumParamCells (DType Type_)) (NumReturnCells (DType Type_)) 0 [] [] 0 0 [] (FuncPtr f))
  else
    let InternalFuncIdx := (I - NumImportFunctions)%nat in
    f ← Funcs m !! InternalFuncIdx;
    Type_ ← Types_ m !! TypeIdx f;
    Code ← Codes m !! InternalFuncIdx;
    Some (mkFI ByteCode (DType Type_) (NumParamCells (DType Type_)) (NumReturnCells (DType Type_)) (NumLocalCells Code)
            (CLocalTypes Code) (LocalOffsets Code) (CMaxStackSize Code) (CMaxBlockDepth Code)
            (take (Z.to_nat (CCodeSize Code)) (drop (CodePtr Code) Bytes_)) 0).

Definition instantiateFunctions (m : WasmModule) (Bytes_ : list Z) : ibody unit :=
  each (fun I => FuncInst <- of_option (functionInstance m Bytes_ I);;
                 modify (fun s => set_sFunctions (sFunctions s ++ [FuncInst]) s))
    (seq 0 (length (ImportFuncs m) + length (Funcs m))).

(** ** Tables *)

(** The offset of an element or data segment. *)
Definition segmentOffset (Kind : Z) (e : InitExpr) : ibody Z :=
  if Kind =? GET_GLOBAL then
    match e with
    | InitGlobal GlobalIdx =>
        l <- gets sGlobals;;
        g <- of_option (l !! Z.to_nat GlobalIdx);;
        d <- gets sGlobalVarData;;
        if (0 <=? gOffset g) && (gOffset g + 4 <=? Z.of_nat (length d))
        then ret (le_value (take 4 (drop (Z.to_nat (gOffset g)) d))) else undef
    | _ => undef
    end
  else match e with InitI32 n => ret (u32 n) | _ => undef end.

(** The entry of a table: its elements are -1. *)
Definition initTable (Sizes : Z * Z) : ibody unit :=
  modify (fun s => set_sTables (sTables s ++ [Sizes]) s);;;
  l <- gets sTableElems;;
  l' <- of_option (overwrite 0 (replicate (Z.to_nat Sizes.1) UINT32_MAX) l);;
  modify (set_sTableElems l').

Definition initElement (Element : ElemEntry) : ibody unit :=
  ts <- gets sTables;;
  TableInst <- of_option (ts !! Z.to_nat (ETableIdx Element));;
  Offset <- segmentOffset (EInitExprKind Element) (EInitExprVal Element);;
  let NumFuncIdxs := u32 (Z.of_nat (length (FuncIdxs Element))) in
  if (TableInst.1 <? Offset) || (TableInst.1 <? u32 (Offset + NumFuncIdxs)) then throw ElementsSegmentDoesNotFit
  else
    l <- gets sTableElems;;
    l' <- of_option (overwrite Offset (FuncIdxs Element) l);;
    modify (set_sTableElems l').

Definition tableSizes (m : WasmModule) : list (Z * Z) :=
  map (fun t => (ITInitSize t, ITMaxSize t)) (ImportTables m) ++ map (fun t => (TInitSize t, TMaxSize t)) (Tables m).

Definition instantiateTables (m : WasmModule) : ibody unit :=
  each initTable (tableSizes m);;;
  each initElement (Elements m).

Section Instantiate.
(** [getVmMaxMemoryPages()], and whether [allocateZeros] finds room for so many
    bytes. *)
Context (VmMaxMemPages : Z) (allocateZeros : Z -> bool).

(** ** Memories *)

(** The maximum, as the runtime limits it. *)
Definition checkAndUpdateMemPages (CurMemPages MaxMemPages : Z) : ibody Z :=
  if 0 <? VmMaxMemPages then
    if VmMaxMemPages <? CurMemPages then throw (Failed MemorySizeTooLarge) else ret (Z.min MaxMemPages VmMaxMemPages)
  else ret MaxMemPages.

(** The last part of a turn of the loop of [instantiateMemories]. *)
Definition allocMemory (CurMemPages MaxMemPages : Z) : ibody unit :=
  let TotalMemSize := CurMemPages * PageSize in
  if UINT32_MAX <? TotalMemSize then undef
  else if (0 <? TotalMemSize) && negb (allocateZeros TotalMemSize) then undef
  else
    modify (fun s => set_DataSegsInited false
      (set_sMemories (sMemories s ++ [mkMI CurMemPages MaxMemPages TotalMemSize ∅]) s)).

Definition initImportMemory (ImportMem : ImportMemoryEntry) : ibody unit :=
  MaxMemPages <- checkAndUpdateMemPages (InitPages ImportMem) (MaxPages ImportMem);;
  allocMemory (InitPages ImportMem) MaxMemPages.
(** Where the declared maximum is 0 the source takes [MemInst.CurPages], which
    no one has written yet. *)
Definition initInternalMemory (Mem : MemoryEntry) : ibody unit :=
  MaxMemPages <- (if MMaxSize Mem =? 0 then undef else ret (MMaxSize Mem));;
  MaxMemPages <- checkAndUpdateMemPages (MInitSize Mem) MaxMemPages;;
  allocMemory (MInitSize Mem) MaxMemPages.

(** [MemBase] is null where the memory is empty. *)
Definition initData (Bytes_ : list Z) (DataSeg : DataEntry) : ibody unit :=
  ms <- gets sMemories;;
  MemInst <- of_option (ms !! Z.to_nat (DMemIdx DataSeg));;
  Offset <- segmentOffset (DInitExprKind DataSeg) (DInitExprVal DataSeg);;
  let DataBoundary := Offset + DSize DataSeg in
  if (MemSize MemInst <? Offset) || (UINT32_MAX <? DataBoundary) || (MemSize MemInst <? DataBoundary)
  then throw DataSegmentDoesNotFit
  else if MemSize MemInst =? 0 then ret tt
  else if Z.of_nat (length Bytes_) <? DOffset DataSeg + DSize DataSeg then undef
  else
    let bs := take (Z.to_nat (DSize DataSeg)) (drop (Z.to_nat (DOffset DataSeg)) Bytes_) in
    modify (set_sMemories (<[Z.to_nat (DMemIdx DataSeg) :=
      mkMI (CurPages MemInst) (mMaxPages MemInst) (MemSize MemInst) (storeCells Offset bs (MemData MemInst))]> ms)).

Definition initMemoryByDataSegments (m : WasmModule) (Bytes_ : list Z) : ibody unit :=
  b <- gets DataSegsInited;;
  if b then ret tt else each (initData Bytes_) (Datas m);;; modify (set_DataSegsInited true).

Definition instantiateMemories (m : WasmModule) (Bytes_ : list Z) : ibody unit :=
  (if (1 <? length (ImportMemories m) + length (Memories m))%nat then throw (Failed TooManyMemories) else ret tt);;;
  each initImportMemory (ImportMemories m);;;
  each initInternalMemory (Memories m);;;
  initMemoryByDataSegments m Bytes_.

(** [Instantiator::instantiate] up to the start function. *)
Definition instantiateParts (m : WasmModule) (Bytes_ : list Z) : ibody unit :=
  instantiateGlobals m;;;
  instantiateFunctions m Bytes_;;;
  instantiateTables m;;;
  instantiateMemories m Bytes_.

(** The instance as the interpreter sees it; tables do not change any more. *)
Definition runInstance (s : IState) : Instance_ :=
  mkInst (head (sMemories s)) (sGlobalVarData s) (map (fun t => mkTI (take (Z.to_nat t.1) (sTableElems s))) (sTables s)) (sGas s).

(** ** The start function *)

Section Start.
Context (wide_shift : Z -> Z -> Z).
Context (enlarge : MemoryInstance -> Z -> bool).
Context (native : Z -> list (WASMType * Z) -> Instance_ -> Instance_ * Z * option Z).
(** The number of [ErrorCode::InstanceExit]. *)
Context (InstanceExit : Z).

Definition isInstanceExit (e : Trap) : bool := match e with HostError code => code =? InstanceExit | _ => false end.

(** [Runtime::callWasmFunction] on an instance without an error.  An exit that
    the function has asked for is no error; its results stay zero. *)
Definition callWasmFunction (m : WasmModule) (s : IState) (fuel : nat) (c : gmap Z Z) (FuncIdx : nat)
    (Args : list (WASMType * Z)) (i : Instance_) : option (out CallError Instance_ (list Z)) :=
  match sFunctions s !! FuncIdx with
  | None => Some Undef
  | Some Func =>
      if negb (length Args =? length (ParamTypes (fType Func)))%nat then Some (Throw UnexpectedNumArgs i)
      else if negb (bool_decide (map fst Args = ParamTypes (fType Func))) then Some (Throw UnexpectedArgType i)
      else
        match callWasmFunctionInInterpMode wide_shift (view m) (sFunctions s) (sGlobals s)
                (ModuleLoader.GasFuncIdx m) enlarge native fuel c FuncIdx Args i with
        | Some (Ret vs i') => Some (Ret vs i')
        | Some (Throw e i') =>
            if isInstanceExit e then Some (Ret (replicate (length (ReturnTypes (fType Func))) 0) i')
            else Some (Throw (CallTrap e) i')
        | Some (Exit _ | Undef) => Some Undef
        | None => None
        end
  end.

(** [Instantiator::instantiate]: the instance, or an error; [None] where the
    start function runs out of [fuel]. *)
Definition instantiate (m : WasmModule) (Bytes_ : list Z) (GasLimit : Z) (fuel : nat) (c : gmap Z Z)
  : option (out InstError (IState * Instance_) unit) :=
  match instantiateParts m Bytes_ (newInstance m GasLimit) with
  | Ret _ s =>
      let i := runInstance s in
      if StartFuncIdx m =? NONE32 then Some (Ret tt (s, i))
      else
        match callWasmFunction m s fuel c (Z.to_nat (StartFuncIdx m)) [] i with
        | Some (Ret _ i') => Some (Ret tt (s, i'))
        | Some (Throw e i') => Some (Throw (StartFailed e) (s, i'))
        | Some (Exit _ | Undef) => Some Undef
        | None => None
        end
  | Throw e s => Some (Throw e (s, runInstance s))
  | Exit _ | Undef => Some Undef
  end.
End Start.
End Instantiate.
