(* ===== verification/InstantiatorSafe.v ===== *)
(** What the instantiation of a module makes of what the module loader has
    accepted: no step of it is undefined, and the instance it leaves is one the
    interpreter runs safely ([WasmSafeInv.program_ok], [inst_ok]). *)

From stdpp Require Import gmap.
From S2P Require Import Prelude Intx Leb128 Leb128Correct WasmNum FunctionLoader WasmValid WasmInterp WasmTyped WasmBlocks WasmSafeInv FunctionLoaderInv FunctionLoaderSteps FunctionLoaderTheorems ModuleLoader ModuleLoaderInv ModuleLoaderSections ModuleLoaderCode ModuleLoaderTheorems LoaderTyped Instantiator.

#[local] Open Scope Z_scope.

(** ** Outcomes: an error, or a result and a state of which [Q] holds *)

Definition builds {A} (m : ibody A) (Q : A -> IState -> Prop) (s : IState) : Prop :=
  match m s with Ret a s' => Q a s' | Throw _ _ => True | Exit _ | Undef => False end.

Lemma builds_bind {A B} (m : ibody A) (k : A -> ibody B) Q s :
  builds m (fun a s' => builds (k a) Q s') s -> builds (bind m k) Q s.
Proof. unfold builds, bind. by destruct (m s). Qed.
Lemma builds_mono {A} (m : ibody A) (Q Q' : A -> IState -> Prop) s :
  builds m Q s -> (forall a s', Q a s' -> Q' a s') -> builds m Q' s.
Proof. unfold builds. destruct (m s); naive_solver. Qed.
Lemma builds_option {A} (o : option A) a Q s : o = Some a -> Q a s -> builds (of_option o) Q s.
Proof. by intros ->. Qed.

Lemma builds_ret {A} (a : A) (Q : A -> IState -> Prop) s : Q a s -> builds (ret a) Q s.
Proof. done. Qed.
Lemma builds_gets {A} (f : IState -> A) (Q : A -> IState -> Prop) s : Q (f s) s -> builds (gets f) Q s.
Proof. done. Qed.
Lemma builds_modify f (Q : unit -> IState -> Prop) s : Q tt (f s) -> builds (modify f) Q s.
Proof. done. Qed.

(** A loop with an invariant of the entries it has seen. *)
Lemma builds_each {A} (f : A -> ibody unit) (l : list A) (J : list A -> IState -> Prop) s :
  J [] s -> (forall k a s, l !! length k = Some a -> J k s -> builds (f a) (fun _ => J (k ++ [a])) s) ->
  builds (each f l) (fun _ => J l) s.
Proof.
  intros H0 Hf. enough (forall k r s, k ++ r = l -> J k s -> builds (each f r) (fun _ => J l) s) as H by exact (H [] l s eq_refl H0).
  intros k r. revert k. induction r as [|a r IH]; intros k s1 El HJ; cbn [each].
  - rewrite app_nil_r in El. by subst.
  - apply builds_bind. eapply builds_mono; [apply Hf; [|exact HJ]|].
    + rewrite <- El, lookup_app_r, Nat.sub_diag by done. done.
    + cbn beta. intros _ s2 HJ2. apply (IH (k ++ [a])); [|done]. by rewrite <- app_assoc.
Qed.

(** ** Arrays *)

Lemma lookup_map {A B} (f : A -> B) l i : map f l !! i = f <$> l !! i.
Proof. exact (list_lookup_fmap f l i). Qed.

Lemma overwrite_fits {A} off (src dst : list A) :
  0 <= off -> off + Z.of_nat (length src) <= Z.of_nat (length dst) ->
  exists l, overwrite off src dst = Some l /\ length l = length dst /\
    forall i, l !! i = if decide (Z.to_nat off <= i < Z.to_nat off + length src)%nat then src !! (i - Z.to_nat off)%nat else dst !! i.
Proof.
  intros H1 H2. unfold overwrite. rewrite (proj2 (Z.leb_le _ _) H1), (proj2 (Z.leb_le _ _) H2). cbn [andb].
  eexists. split; [done|]. split; [rewrite !length_app, length_take, length_drop; lia|]. intros i.
  destruct (decide (i < Z.to_nat off)%nat) as [Hi|Hi].
  - rewrite decide_False by lia. rewrite lookup_app_l by (rewrite length_take; lia). by rewrite lookup_take_lt.
  - rewrite lookup_app_r by (rewrite length_take; lia). rewrite length_take, Nat.min_l by lia. case_decide as Hd.
    + by rewrite lookup_app_l by lia.
    + rewrite lookup_app_r by lia. rewrite lookup_drop. f_equal. lia.
Qed.

Lemma align_size_le v : 0 <= v -> v <= alignSize v.
Proof.
  intros Hv. unfold alignSize, Alignment. change (8 - 1) with (Z.ones 3). rewrite <- Z.ldiff_land, Z.ldiff_ones_r by lia.
  rewrite Z.shiftl_mul_pow2, Z.shiftr_div_pow2 by lia. change (2 ^ 3) with 8.
  pose proof (Z.div_mod (v + 8 - 1) 8). pose proof (Z.mod_pos_bound (v + 8 - 1) 8). lia.
Qed.

(** The ranges of a chain lie below its end. *)
Lemma chain_in o rs e i r : chain o rs e -> rs !! i = Some r -> o <= r.1 /\ 0 <= r.2 /\ r.1 + r.2 <= e.
Proof.
  revert o i. induction rs as [|x rs IH]; intros o i; [done|]. cbn [chain]. intros (H1 & H2 & H3).
  assert (x.1 + x.2 <= e) as He by (clear -H3; revert H3; generalize (x.1 + x.2); induction rs as [|y rs IH]; cbn [chain];
    [done|intros a (? & ? & H); apply IH in H; lia]).
  destruct i as [|i]; [intros [= <-]; lia|]. intros Hi. specialize (IH _ _ H3 Hi). lia.
Qed.

(** ** Cells *)

Lemma cell_of_val t : is_val t -> cells_of t = tcell t.
Proof. by destruct t. Qed.
Lemma cells_tcells ts : Forall is_val ts -> cells ts = tcells ts.
Proof. induction 1 as [|t ts Ht _ IH]; cbn [cells tcells]; [done|]. by rewrite IH, cell_of_val. Qed.
Lemma type_cells ts : typeCells ts = cells ts.
Proof. induction ts as [|t ts IH]; [done|]. cbn. by rewrite <- IH. Qed.
Lemma offsets_tcells o ts : Forall is_val ts -> ModuleLoaderCode.offsets o ts = WasmSafeInv.offsets o ts.
Proof.
  intros H. revert o. induction H as [|t ts Ht _ IH]; intros o; [done|].
  cbn [ModuleLoaderCode.offsets WasmSafeInv.offsets]. by rewrite IH, cell_of_val.
Qed.
Lemma val_num t : is_val t -> WasmSafeInv.is_val t.
Proof. destruct t; try done; intros _; by eexists. Qed.

(** ** The parts *)

Section Parts.
Context (m : WasmModule) (Bytes_ : list Z).
Hypothesis Ht : tables_wf m.

Definition all_globals : list GlobalInstance :=
  map (fun g => mkGI (IGType g) (IGOffset g)) (ImportGlobals m) ++ map (fun g => mkGI (GDType g) (GDOffset g)) (Globals m).

Definition global_size : nat := Z.to_nat (LayoutGlobalVarSize m).

(** A global variable lies in the data of the instance. *)
Lemma global_placed i g :
  all_globals !! i = Some g -> 0 <= gOffset g /\ gOffset g + size_of (gType g) <= Z.of_nat global_size /\ is_val (gType g).
Proof.
  intros Hi. destruct (tw_globals _ Ht) as [Hv Hc Ho _].
  assert (map (fun g => (gOffset g, size_of (gType g))) all_globals = ranges (ImportGlobals m) (Globals m)) as Er.
  { unfold all_globals, ranges. rewrite map_app, !map_map. done. }
  assert (ranges (ImportGlobals m) (Globals m) !! i = Some (gOffset g, size_of (gType g))) as Hr.
  { by rewrite <- Er, lookup_map, Hi. }
  destruct (chain_in _ _ _ _ _ Hc Hr) as (H1 & H2 & H3). cbn in H1, H2, H3. split_and!; [done| |].
  - unfold global_size, LayoutGlobalVarSize. pose proof (align_size_le (GlobalVarSize m)). lia.
  - unfold all_globals in Hi. apply lookup_app_Some in Hi as [Hi|[_ Hi]];
      apply list_lookup_fmap_Some in Hi as (e & -> & He); cbn.
    + by apply (Forall_lookup_1 _ _ _ _ (tw_import_globals _ Ht) He).
    + by apply (Forall_lookup_1 _ _ _ _ Hv He).
Qed.

(** Initial values are literals. *)
Definition literal_inits : bool := forallb (fun g => negb (GDInitExprKind g =? GET_GLOBAL)) (Globals m).

Lemma literal_object t k e :
  expr_wf (ImportGlobals m) t (k, e) -> k <> GET_GLOBAL -> is_val t ->
  exprBytes (size_of t) e = Some (exprObject e) /\ Z.of_nat (length (exprObject e)) = size_of t /\
  Forall (fun b => 0 <= b) (exprObject e).
Proof.
  intros He Hk Hv.
  enough (Z.of_nat (length (exprObject e)) = size_of t /\ Forall (fun b => 0 <= b) (exprObject e)) as [El Hp].
  { split_and!; try done. unfold exprBytes. rewrite El, Z.leb_refl, <- El, Nat2Z.id, take_ge; done. }
  assert (forall n v, Forall (fun b => 0 <= b) (le_bytes n v)) as Hle.
  { intros n. induction n as [|n IH]; intros v; cbn [le_bytes]; constructor; [|done]. pose proof (Z.mod_pos_bound v 256). lia. }
  assert (forall bs, Forall is_byte bs -> Forall (fun b => 0 <= b) bs) as Hb.
  { intros bs. apply Forall_impl. unfold in_u. lia. }
  destruct e as [x|n|n|bs|bs]; cbn [exprObject]; cbn in He; rewrite ?length_le_bytes.
  - by destruct He.
  - by destruct He as [_ ->].
  - by destruct He as [_ ->].
  - destruct He as (_ & -> & -> & ?). auto.
  - destruct He as (_ & -> & -> & ?). auto.
Qed.

(** The data of the global variables. *)
Definition placed (d : list Z) : Prop := length d = global_size /\ Forall (fun b => 0 <= b) d.

Lemma forall_overwrite {A} (P : A -> Prop) off (src dst l : list A) :
  overwrite off src dst = Some l -> Forall P src -> Forall P dst -> Forall P l.
Proof.
  unfold overwrite. destruct (_ && _); [|done]. intros [= <-] H1 H2.
  apply Forall_app; split; [by apply Forall_take|]. apply Forall_app; split; [done|by apply Forall_drop].
Qed.

Lemma globals_build s :
  literal_inits = true ->
  builds (instantiateGlobals m) (fun _ s' => exists d, placed d /\
    s' = set_sGlobalVarData d (set_sGlobals all_globals s)) s.
Proof.
  intros Hlit. unfold instantiateGlobals. apply builds_bind, builds_modify. apply builds_bind, builds_modify.
  eapply builds_mono; [apply (builds_each _ _ (fun k s' => exists d, placed d /\
    s' = set_sGlobalVarData d (set_sGlobals (map (fun g => mkGI (IGType g) (IGOffset g)) (ImportGlobals m) ++
      map (fun g => mkGI (GDType g) (GDOffset g)) k) s)))|].
  - eexists. rewrite app_nil_r. split; [|done]. split; [by rewrite length_replicate|]. by apply Forall_replicate.
  - intros k g s1 Hg (d & [Hl Hd] & ->). unfold initGlobal.
    destruct (tw_globals _ Ht) as [Hv _ _ Hin]. pose proof (Forall_lookup_1 _ _ _ _ Hv Hg) as Hgv.
    pose proof (Forall_lookup_1 _ _ _ _ Hin Hg) as Hge. cbn beta in Hgv, Hge.
    assert (GDInitExprKind g <> GET_GLOBAL) as Hk.
    { apply list_elem_of_lookup_2, list_elem_of_In in Hg. unfold literal_inits in Hlit. rewrite forallb_forall in Hlit.
      specialize (Hlit g Hg). apply negb_true_iff, Z.eqb_neq in Hlit. done. }
    destruct (literal_object _ _ _ Hge Hk Hgv) as (Eb & El & Hp).
    assert (all_globals !! (length (ImportGlobals m) + length k)%nat = Some (mkGI (GDType g) (GDOffset g))) as Hgi.
    { unfold all_globals. rewrite lookup_app_r by (rewrite length_map; lia). rewrite length_map.
      replace (length (ImportGlobals m) + length k - length (ImportGlobals m))%nat with (length k) by lia.
      by rewrite lookup_map, Hg. }
    destruct (global_placed _ _ Hgi) as (P1 & P2 & _). cbn in P1, P2.
    destruct (stackable_size _ (val_stackable _ Hgv)) as [Esz _].
    apply builds_bind. eapply builds_option; [exact Esz|]. apply builds_bind, builds_modify.
    rewrite (proj2 (Z.eqb_neq _ _) Hk). apply builds_bind, builds_ret.
    apply builds_bind. eapply builds_option; [exact Eb|]. apply builds_bind, builds_gets.
    destruct (overwrite_fits (GDOffset g) (exprObject (GDInitExprVal g)) d) as (d' & Ed & El' & _); [done|lia|].
    apply builds_bind. eapply builds_option; [exact Ed|]. apply builds_modify.
    exists d'. split; [split; [lia|by eapply forall_overwrite]|]. unfold set_sGlobalVarData, set_sGlobals. cbn.
    by rewrite map_app, <- app_assoc.
  - cbn beta. intros _ s' H. exact H.
Qed.

(** *** Functions *)

Hypothesis Hcodes : length (Codes m) = length (Funcs m).

Definition num_functions : nat := length (ImportFuncs m) + length (Funcs m).

(** The type of a function. *)
Lemma function_built i :
  (i < num_functions)%nat -> exists Fn, functionInstance m Bytes_ i = Some Fn /\ getFunctionType (view m) i = Some (fType Fn).
Proof.
  intros Hi. unfold functionInstance, getFunctionType, getFunctionTypeIdx, getDeclaredType, view.
  cbn [TypeTable ImportFunctionTable InternalFunctionTable]. rewrite length_fmap.
  assert (forall x, (x < length (Types_ m))%nat -> exists d, Types_ m !! x = Some d /\ (DType <$> Types_ m) !! x = Some (DType d)) as Hty.
  { intros x Hx. destruct (lookup_lt_is_Some_2 _ _ Hx) as [d Hd]. exists d. by rewrite list_lookup_fmap, Hd. }
  destruct (Nat.ltb_spec i (length (ImportFuncs m))) as [Hlt|Hge].
  - destruct (lookup_lt_is_Some_2 _ _ Hlt) as [f Hf].
    destruct (Hty _ (Forall_lookup_1 _ _ _ _ (tw_import_funcs _ Ht) Hf)) as (d & Hd & Ed).
    eexists. rewrite list_lookup_fmap, Hf. cbn [fmap option_fmap option_map mbind option_bind]. rewrite Hd, Ed.
    cbn [mbind option_bind]. split; [done|done].
  - unfold num_functions in Hi. destruct (lookup_lt_is_Some_2 (Funcs m) (i - length (ImportFuncs m))) as [f Hf]; [lia|].
    destruct (lookup_lt_is_Some_2 (Codes m) (i - length (ImportFuncs m))) as [c Hc]; [lia|].
    destruct (Forall_lookup_1 _ _ _ _ (tw_funcs _ Ht) Hf) as (d0 & Hd0 & Ed0). destruct (tw_types _ Ht) as (_ & Hcan & _).
    pose proof (first_like_lt _ _ _ Hcan Hd0) as Hx. rewrite <- Ed0 in Hx. destruct (Hty _ Hx) as (d & Hd & Ed).
    eexists. rewrite list_lookup_fmap, Hf. cbn [fmap option_fmap option_map mbind option_bind]. rewrite Hd, Ed, Hc.
    cbn [mbind option_bind]. split; [done|done].
Qed.

(** The functions of the instance. *)
Definition functions_of (fs : list FunctionInstance) : Prop :=
  length fs = num_functions /\ forall i Fn, fs !! i = Some Fn -> functionInstance m Bytes_ i = Some Fn.

Lemma functions_build s :
  sFunctions s = [] ->
  builds (instantiateFunctions m Bytes_) (fun _ s' => exists fs, functions_of fs /\ s' = set_sFunctions fs s) s.
Proof.
  intros E0. unfold instantiateFunctions. eapply builds_mono;
    [apply (builds_each _ _ (fun k s' => exists fs, length fs = length k /\ s' = set_sFunctions fs s /\
      forall i Fn, fs !! i = Some Fn -> functionInstance m Bytes_ i = Some Fn))|].
  - exists []. split_and!; [done|rewrite <- E0; by destruct s|by intros].
  - intros k i s1 Hi (fs & El & -> & Hfs). apply lookup_seq in Hi as [-> Hlt]. cbn [Nat.add].
    destruct (function_built (length k) Hlt) as (Fn & EF & _). apply builds_bind. eapply builds_option; [exact EF|].
    apply builds_modify. exists (fs ++ [Fn]). split_and!; [by rewrite !length_app, El|done|].
    intros i Fn' [Hi|[Hge Hi]]%lookup_app_Some; [by apply Hfs|].
    destruct (i - length fs)%nat as [|n] eqn:En; [|done]. injection Hi as <-. rewrite <- El in EF.
    by replace i with (length fs) by lia.
  - cbn beta. intros _ s' (fs & El & -> & Hfs). exists fs. split; [|done]. split; [|done]. by rewrite El, length_seq.
Qed.

(** *** Tables *)

Definition elems_size : nat := Z.to_nat (LayoutTableElemsSize m / 4).

Lemma table_sizes t : t ∈ tableSizes m -> 0 <= t.1 <= Z.of_nat elems_size /\ t.1 <= PresetMaxTableSize.
Proof.
  assert (forall A (f : A -> Z) l, Forall (fun a => 0 <= f a <= PresetMaxTableSize) l ->
    0 <= foldr (fun a x => f a * 4 + x) 0 l /\ forall a, a ∈ l -> f a * 4 <= foldr (fun a x => f a * 4 + x) 0 l) as Hsum.
  { intros A f l. induction 1 as [|a l Ha _ [IH1 IH2]]; cbn [foldr]; [split; [lia|]; by intros a ?%not_elem_of_nil|].
    split; [lia|]. intros b [->|Hb]%elem_of_cons; [lia|]. specialize (IH2 _ Hb). lia. }
  destruct (Hsum _ ITInitSize _ (tw_import_tables _ Ht)) as [S1 B1]. destruct (Hsum _ TInitSize _ (tw_tables _ Ht)) as [S2 B2].
  unfold elems_size, LayoutTableElemsSize. set (n := foldr _ _ (ImportTables m) + foldr _ _ (Tables m)) in *.
  pose proof (align_size_le n ltac:(lia)) as Ha. pose proof (Z.div_le_mono _ _ 4 ltac:(lia) Ha) as Hd.
  assert (forall x, 0 <= x <= PresetMaxTableSize -> x * 4 <= n -> 0 <= x <= Z.of_nat (Z.to_nat (alignSize n / 4)) /\ x <= PresetMaxTableSize) as Hend.
  { intros x Hx Hn. assert (x <= n / 4) by (apply Z.div_le_lower_bound; lia). lia. }
  unfold tableSizes. rewrite elem_of_app. intros [Hi|Hi]; apply list_elem_of_fmap in Hi as (e & -> & He); cbn [fst]; apply Hend.
  - apply list_elem_of_lookup in He as [i Hi]. apply (Forall_lookup_1 _ _ _ _ (tw_import_tables _ Ht) Hi).
  - specialize (B1 _ He). lia.
  - apply list_elem_of_lookup in He as [i Hi]. apply (Forall_lookup_1 _ _ _ _ (tw_tables _ Ht) Hi).
  - specialize (B2 _ He). lia.
Qed.

(** An element: none, or a function. *)
Definition elem_ok (e : Z) : Prop := e = 2 ^ 32 - 1 \/ 0 <= e /\ (Z.to_nat e < num_functions)%nat.

(** The elements of the tables [ts]. *)
Definition elems_ok (ts : list (Z * Z)) (l : list Z) : Prop :=
  length l = elems_size /\ forall t i e, t ∈ ts -> (i < Z.to_nat t.1)%nat -> l !! i = Some e -> elem_ok e.

Lemma elems_overwrite ts off src l l' :
  elems_ok ts l -> 0 <= off -> overwrite off src l = Some l' -> off + Z.of_nat (length src) <= Z.of_nat (length l) ->
  Forall elem_ok src -> elems_ok ts l'.
Proof.
  intros [El Hl] Ho E Hle Hsrc. destruct (overwrite_fits off src l Ho Hle) as (l2 & E2 & El2 & Hlook). rewrite E in E2.
  injection E2 as <-. split; [congruence|]. intros t i e Hin Hi. rewrite Hlook. case_decide as Hd; [|by apply (Hl t)].
  intros He. apply (Forall_lookup_1 _ _ _ _ Hsrc He).
Qed.

Lemma segment_offset k e s :
  expr_wf (ImportGlobals m) I32 (k, e) -> sGlobals s = all_globals -> placed (sGlobalVarData s) ->
  builds (segmentOffset k e) (fun o s' => s' = s /\ 0 <= o) s.
Proof.
  intros He Eg [Ed Hd]. unfold segmentOffset. destruct (Z.eqb_spec k GET_GLOBAL) as [->|Hk]; destruct e as [x|n|n|bs|bs]; cbn in He;
    try (by destruct He as [? ?]); try (by destruct He as (? & ? & _)).
  - destruct He as (_ & Hx & g & Hg & Eg2). apply builds_bind, builds_gets. rewrite Eg.
    assert (all_globals !! Z.to_nat x = Some (mkGI (IGType g) (IGOffset g))) as Hgi.
    { unfold all_globals. rewrite lookup_app_l by (rewrite length_map; by eapply lookup_lt_Some). by rewrite lookup_map, Hg. }
    destruct (global_placed _ _ Hgi) as (P1 & P2 & _). cbn [gType gOffset] in *. rewrite Eg2 in P2. cbn in P2.
    apply builds_bind. eapply builds_option; [exact Hgi|]. apply builds_bind, builds_gets. cbn [gOffset].
    rewrite (proj2 (Z.leb_le _ _) P1), (proj2 (Z.leb_le _ _)) by lia. cbn [andb]. apply builds_ret. split; [done|].
    assert (Forall (fun b => 0 <= b) (take 4 (drop (Z.to_nat (IGOffset g)) (sGlobalVarData s)))) as Hbs
      by (by apply Forall_take, Forall_drop).
    clear -Hbs. induction Hbs as [|b bs Hb _ IH]; cbn [le_value]; lia.
  - apply builds_ret. split; [done|]. apply (wrap_range 32). lia.
Qed.

Lemma elements_build s :
  Forall (elem_wf m) (Elements m) -> sGlobals s = all_globals -> placed (sGlobalVarData s) -> sTables s = [] ->
  length (sTableElems s) = elems_size ->
  builds (instantiateTables m) (fun _ s' => exists l, elems_ok (tableSizes m) l /\
    s' = set_sTableElems l (set_sTables (tableSizes m) s)) s.
Proof.
  intros Hes Eg Hd Et El. unfold instantiateTables. apply builds_bind.
  eapply builds_mono; [apply (builds_each _ _ (fun k s' => exists l, elems_ok k l /\ s' = set_sTableElems l (set_sTables k s)))|].
  - exists (sTableElems s). split; [|rewrite <- Et; by destruct s]. split; [done|]. by intros t i e ?%not_elem_of_nil.
  - intros k t s1 Hi (l & Hl & ->). unfold initTable. apply builds_bind, builds_modify. apply builds_bind, builds_gets.
    cbn [sTableElems set_sTables set_sTableElems]. apply list_elem_of_lookup_2 in Hi. destruct (table_sizes _ Hi) as [Hsz _].
    pose proof Hl as [Ell Hlok].
    destruct (overwrite_fits 0 (replicate (Z.to_nat t.1) UINT32_MAX) l) as (l' & E' & El' & Hlook); [done|rewrite length_replicate; lia|].
    apply builds_bind. eapply builds_option; [exact E'|]. apply builds_modify. exists l'. split; [|done]. split; [lia|].
    intros t' i e Hin Hit. rewrite Hlook. rewrite length_replicate. case_decide as Hdec.
    + rewrite lookup_replicate. intros [-> _]. by left.
    + apply elem_of_app in Hin as [Hin|[->|[]%not_elem_of_nil]%elem_of_cons]; [by apply (Hlok t')|]. lia.
  - cbn beta. intros _ s1 (l & Hl & ->).
    apply (builds_each _ _ (fun _ s' => exists l, elems_ok (tableSizes m) l /\ s' = set_sTableElems l (set_sTables (tableSizes m) s))); [eauto|].
    clear l Hl. intros k e s1 Hi (l & Hl & ->). unfold initElement.
    destruct (Forall_lookup_1 _ _ _ _ Hes Hi) as (Hv & Hfs & Hidx & Hexpr & Hmax).
    assert (is_Some (tableSizes m !! Z.to_nat (ETableIdx e))) as [t Htab].
    { apply lookup_lt_is_Some_2. unfold isValidTable, view in Hv. cbn in Hv. apply Z.ltb_lt in Hv.
      unfold tableSizes. rewrite length_app, !length_map. lia. }
    destruct (table_sizes t (list_elem_of_lookup_2 _ _ _ Htab)) as [Hsz Htm].
    apply builds_bind, builds_gets. cbn [sTables set_sTableElems set_sTables]. apply builds_bind. eapply builds_option; [exact Htab|].
    apply builds_bind. eapply builds_mono; [apply segment_offset; [exact Hexpr|done|done]|]. cbn beta. intros o s1 [-> Ho].
    cbn zeta. rewrite (wrap_small 32 (Z.of_nat _)) by (unfold in_u, UINT32_MAX in *; lia).
    destruct (Z.ltb_spec t.1 o) as [|Hfit]; [done|]. cbn [orb]. unfold PresetMaxTableSize, UINT32_MAX in *.
    rewrite (wrap_small 32) by (unfold in_u; lia).
    destruct (Z.ltb_spec t.1 (o + Z.of_nat (length (FuncIdxs e)))) as [|Hfit2]; [done|].
    apply builds_bind, builds_gets. cbn [sTableElems set_sTableElems]. pose proof Hl as [Ell _].
    destruct (overwrite_fits o (FuncIdxs e) l Ho ltac:(lia)) as (l' & E' & _). apply builds_bind. eapply builds_option; [exact E'|].
    apply builds_modify. exists l'. split; [|done]. eapply elems_overwrite; [exact Hl|done|exact E'|lia|].
    eapply Forall_impl; [|exact Hfs]. intros f [Hf Hvf]. right. split; [done|].
    unfold isValidFunc, getNumTotalFunctions, view in Hvf. cbn in Hvf. rewrite !length_fmap in Hvf. apply Z.ltb_lt in Hvf.
    unfold num_functions. lia.
Qed.

(** *** Memories *)

Section Memories.
Context (VmMaxMemPages : Z) (allocateZeros : Z -> bool).

(** The allocator has room, no memory is declared with the maximum 0, and none
    is to have 2^16 pages at once: the runtime limits them, or the module asks
    for fewer. *)
Definition memories_fit : Prop :=
  (forall n, allocateZeros n = true) /\ Forall (fun t => MMaxSize t <> 0) (Memories m) /\
  (0 < VmMaxMemPages < 2 ^ 16 \/
   Forall (fun t => InitPages t < 2 ^ 16) (ImportMemories m) /\ Forall (fun t => MInitSize t < 2 ^ 16) (Memories m)).

(** The memories [ms] have been added. *)
Definition with_memories (s : IState) (n : nat) (s' : IState) : Prop :=
  exists ms b, length ms = n /\ s' = set_DataSegsInited b (set_sMemories ms s).

Lemma memory_build s n s' c x :
  with_memories s n s' -> (forall k, allocateZeros k = true) -> 0 <= c -> 0 < VmMaxMemPages < 2 ^ 16 \/ c < 2 ^ 16 ->
  builds (Max <- checkAndUpdateMemPages VmMaxMemPages c x;; allocMemory allocateZeros c Max)
    (fun _ => with_memories s (n + 1)) s'.
Proof.
  intros (ms & b & El & ->) Ha Hc Hfit. apply builds_bind. eapply (builds_mono _ (fun _ s1 => s1 = _ /\ c < 2 ^ 16)).
  - unfold checkAndUpdateMemPages. destruct (Z.ltb_spec 0 VmMaxMemPages); [|split; [done|lia]].
    destruct (Z.ltb_spec VmMaxMemPages c); [done|]. split; [done|lia].
  - cbn beta. intros Max s1 [-> Hlt]. unfold allocMemory. cbn zeta. unfold PageSize, UINT32_MAX.
    rewrite (proj2 (Z.ltb_ge _ _)) by lia. rewrite Ha, andb_false_r. apply builds_modify.
    eexists (ms ++ _), false. split; [|reflexivity]. rewrite length_app, El. done.
Qed.

Lemma data_build s d :
  data_wf Bytes_ m d -> sGlobals s = all_globals -> placed (sGlobalVarData s) ->
  length (sMemories s) = (length (ImportMemories m) + length (Memories m))%nat ->
  builds (initData Bytes_ d) (fun _ s' => exists ms, length ms = length (sMemories s) /\ s' = set_sMemories ms s) s.
Proof.
  intros (Hv & Hsize & Hoff & Hend & Hidx & Hexpr) Eg Hd El. unfold initData. apply builds_bind, builds_gets.
  destruct (lookup_lt_is_Some_2 (sMemories s) (Z.to_nat (DMemIdx d))) as [mi Hmi].
  { unfold isValidMem, view in Hv. cbn in Hv. apply Z.ltb_lt in Hv. lia. }
  apply builds_bind. eapply builds_option; [exact Hmi|]. apply builds_bind.
  eapply builds_mono; [by apply segment_offset|]. cbn beta. intros o s1 [-> Ho]. cbn zeta. destruct (_ || _ || _); [done|].
  destruct (_ =? 0); [exists (sMemories s); split; [done|by destruct s]|].
  rewrite (proj2 (Z.ltb_ge _ _)) by lia. apply builds_modify. eexists. split; [|reflexivity]. by rewrite length_insert.
Qed.

Lemma memories_build s :
  memories_fit -> Forall (data_wf Bytes_ m) (Datas m) -> sGlobals s = all_globals -> placed (sGlobalVarData s) -> sMemories s = [] ->
  builds (instantiateMemories VmMaxMemPages allocateZeros m Bytes_)
    (fun _ => with_memories s (length (ImportMemories m) + length (Memories m))) s.
Proof.
  intros (Ha & Hmax & Hfit) Hds Eg Hd E0. unfold instantiateMemories. apply builds_bind.
  destruct (_ <? _)%nat; [done|]. apply builds_ret. apply builds_bind.
  eapply builds_mono; [apply (builds_each _ _ (fun k => with_memories s (length k)))|].
  - exists [], (DataSegsInited s). split; [done|]. rewrite <- E0. by destruct s.
  - intros k t s1 Hi Hw. pose proof (Forall_lookup_1 _ _ _ _ (tw_import_memories _ Ht) Hi) as Hp. cbn in Hp.
    rewrite length_app. apply (memory_build s (length k)); [done|done|lia|].
    destruct Hfit as [|[Hf _]]; [by left|right; exact (Forall_lookup_1 _ _ _ _ Hf Hi)].
  - cbn beta. intros _ s1 Hw1. apply builds_bind.
    eapply builds_mono; [apply (builds_each _ _ (fun k => with_memories s (length (ImportMemories m) + length k)))|].
    + by rewrite Nat.add_0_r.
    + intros k t s2 Hi Hw. pose proof (Forall_lookup_1 _ _ _ _ (tw_memories _ Ht) Hi) as Hp. cbn in Hp.
      unfold initInternalMemory. rewrite (proj2 (Z.eqb_neq _ _)) by exact (Forall_lookup_1 _ _ _ _ Hmax Hi).
      rewrite length_app, Nat.add_assoc. apply (memory_build s (length (ImportMemories m) + length k)); [done|done|lia|].
      destruct Hfit as [|[_ Hf]]; [by left|right; exact (Forall_lookup_1 _ _ _ _ Hf Hi)].
    + cbn beta. intros _ s2 Hw2. unfold initMemoryByDataSegments. apply builds_bind, builds_gets.
      destruct (DataSegsInited s2); [by apply builds_ret|]. apply builds_bind.
      eapply builds_mono; [apply (builds_each _ _ (fun _ => with_memories s (length (ImportMemories m) + length (Memories m)))); [done|]|].
      * intros k d s3 Hi (ms & b & El & ->). eapply builds_mono; [apply (data_build _ d);
          [exact (Forall_lookup_1 _ _ _ _ Hds Hi)|done|done|done]|].
        cbn beta. intros _ s4 (ms' & El' & ->). exists ms', b. split; [by rewrite El'|done].
      * cbn beta. intros _ s3 (ms & b & El & ->). apply builds_modify. by exists ms, true.
Qed.

(** *** The instance *)

Record built (s : IState) : Prop := {
  bi_functions : functions_of (sFunctions s);
  bi_globals : sGlobals s = all_globals;
  bi_data : placed (sGlobalVarData s);
  bi_tables : sTables s = tableSizes m;
  bi_elems : elems_ok (tableSizes m) (sTableElems s);
  bi_memories : length (sMemories s) = (length (ImportMemories m) + length (Memories m))%nat;
}.

Lemma parts_build GasLimit :
  literal_inits = true -> memories_fit -> Forall (elem_wf m) (Elements m) -> Forall (data_wf Bytes_ m) (Datas m) ->
  builds (instantiateParts VmMaxMemPages allocateZeros m Bytes_) (fun _ => built) (newInstance m GasLimit).
Proof.
  intros Hlit Hmem Hes Hds. unfold instantiateParts. apply builds_bind.
  eapply builds_mono; [by apply globals_build|]. cbn beta. intros _ s1 (d & Hd & ->). apply builds_bind.
  eapply builds_mono; [by apply functions_build|]. cbn beta. intros _ s2 (fs & Hfs & ->). apply builds_bind.
  eapply builds_mono; [apply elements_build; [done|done|done|done|]|].
  { cbn. by rewrite length_replicate. }
  cbn beta. intros _ s3 (l & Hl & ->). eapply builds_mono; [by apply memories_build|].
  cbn beta. intros _ s4 (ms & b & El & ->). by split.
Qed.
End Memories.
End Parts.
