(* ===== verification/InstantiatorRun.v ===== *)
(** The instance of a module that was loaded: its functions are the bodies that
    the function loader has typed, so the interpreter runs them safely. *)

From stdpp Require Import gmap.
From S2P Require Import Prelude Intx Leb128 Leb128Correct WasmNum FunctionLoader WasmValid WasmInterp WasmTyped WasmBlocks WasmSafeInv WasmSafeStep FunctionLoaderInv FunctionLoaderSteps FunctionLoaderTheorems ModuleLoader ModuleLoaderInv ModuleLoaderSections ModuleLoaderCode ModuleLoaderTheorems LoaderTyped Instantiator InstantiatorSafe.

#[local] Open Scope Z_scope.

(** A choice for every entry of a list. *)
Lemma choose_each {A B} (R : nat -> A -> B -> Prop) (l : list A) :
  (forall i a, l !! i = Some a -> exists b, R i a b) ->
  exists f : nat -> option B, forall i a, l !! i = Some a -> exists b, f i = Some b /\ R i a b.
Proof.
  induction l as [|a l IH] using rev_ind; intros H; [by exists (fun _ => None)|].
  destruct IH as [f Hf]. { intros i x Hi. apply H. by apply lookup_app_l_Some. }
  destruct (H (length l) a) as [b Hb]; [by rewrite lookup_app_r, Nat.sub_diag|].
  exists (fun i => if decide (i = length l) then Some b else f i). intros i x [Hi|[Hge Hi]]%lookup_app_Some.
  - rewrite decide_False by (apply lookup_lt_Some in Hi; lia). by apply Hf.
  - destruct (i - length l)%nat eqn:E; [|done]. injection Hi as <-. rewrite decide_True by lia.
    replace i with (length l) by lia. eauto.
Qed.

(** The fields of a function. *)
Record instance_of (m : WasmModule) (Bytes_ : list Z) (f : nat) (Fn : FunctionInstance) : Prop := {
  if_type : exists x d, Types_ m !! x = Some d /\ fType Fn = DType d;
  if_params : fNumParamCells Fn = NumParamCells (fType Fn);
  if_returns : fNumReturnCells Fn = NumReturnCells (fType Fn);
  if_body : fKind Fn = ByteCode -> exists i c, f = (length (ImportFuncs m) + i)%nat /\ Codes m !! i = Some c /\
    fNumLocalCells Fn = NumLocalCells c /\ fLocalTypes Fn = CLocalTypes c /\ fLocalOffsets Fn = LocalOffsets c /\
    fMaxStackSize Fn = CMaxStackSize c /\ fMaxBlockDepth Fn = CMaxBlockDepth c /\
    fCode Fn = slice (CodePtr c) (CCodeSize c) Bytes_;
}.

Lemma instance_fields m Bytes_ f Fn : functionInstance m Bytes_ f = Some Fn -> instance_of m Bytes_ f Fn.
Proof.
  unfold functionInstance. destruct (Nat.ltb_spec f (length (ImportFuncs m))).
  - destruct (ImportFuncs m !! f) as [e|]; [|done]. cbn [mbind option_bind]. destruct (Types_ m !! IFTypeIdx e) as [d|] eqn:Ed; [|done].
    cbn [mbind option_bind]. intros [= <-]. by split; [eauto|..].
  - destruct (Funcs m !! (f - _)%nat) as [e|]; [|done]. cbn [mbind option_bind].
    destruct (Types_ m !! TypeIdx e) as [d|] eqn:Ed; [|done]. cbn [mbind option_bind].
    destruct (Codes m !! (f - length (ImportFuncs m))%nat) as [c|] eqn:Ec; [|done]. cbn [mbind option_bind]. intros [= <-].
    split; [by eauto|done|done|]. intros _. exists (f - length (ImportFuncs m))%nat, c. split_and!; try done. lia.
Qed.

Section Run.
Context {P : Type} {SP : SymbolPool P} {SL : SymbolPoolLaws P}.
Context (wide_shift : Z -> Z -> Z) (B : list Z) (ml : ModuleLoader (P := P)).
Hypothesis HB : Forall is_byte B.
Hypothesis Hacc : accepted wide_shift B ml.

#[local] Abbreviation m := (Mod ml).

(** The bodies hold no instructions behind an unconditional branch that take
    values, and the labels of their branch tables are short. *)
Definition quiet : Prop :=
  forall i c F, Codes m !! i = Some c -> getFunctionType (view m) (length (ImportFuncs m) + i) = Some F ->
  Forall (fun v => ANY ∉ ValueTypes v) (trace wide_shift (view m) F (CLocalTypes c) (body_bytes B c)) /\
  short_tables (length (body_bytes B c)) (body_bytes B c) = true.

Lemma function_body f Fn :
  quiet -> instance_of m (MBytes ml) f Fn -> getFunctionType (view m) f = Some (fType Fn) -> fKind Fn = ByteCode ->
  exists pts vend, body_ok (view m) Fn pts vend.
Proof.
  intros Hq [_ _ _ Hb] Hty Hk. destruct (Hb Hk) as (i & c & -> & Hc & E1 & E2 & E3 & E4 & E5 & E6).
  destruct (accepted_body wide_shift B ml i c HB Hacc Hc) as (F & fs & EF & HF & El & Es & Hbytes & Hlen).
  rewrite Hty in EF. injection EF as EF. subst F.
  destruct (us_codes _ _ _ _ (ac_uses _ _ _ Hacc) i c Hc) as [_ (Hlocals & _ & _ & Ecells) (F' & fs' & EF' & El' & _ & Ed' & _ & Eo' & Esl')].
  rewrite Hty in EF'. injection EF' as EF'. subst F'. unfold body_bytes in *. rewrite El in El'. injection El' as <-.
  destruct (Hq i c _ Hc Hty) as [Hany Hshort]. pose proof (view_ok _ (ac_tables _ _ _ Hacc)) as Hm.
  destruct (load_typed wide_shift (view m) (fType Fn) (CLocalTypes c) Hm HF Hlocals _ fs Hbytes Hlen El Hany)
    as (pts & vend & [Htyped Hstack Hdepth Hlab Hmax]).
  exists pts, vend. split.
  - rewrite E2, E6, Esl'. exact Htyped.
  - rewrite E1, E2, Ecells. by apply cells_tcells.
  - rewrite E3, E2, Eo'. apply offsets_tcells. apply Forall_app. split; [apply HF|done].
  - rewrite E2. eapply Forall_impl; [|exact Hlocals]. apply val_num.
  - intros k V HV _. rewrite E4, Es. by apply Hstack with (k := k).
  - intros k. rewrite E5, Ed'. apply Hdepth.
  - rewrite E5, Ed'. unfold sizeofBlockInfo. lia.
  - by apply Hlab.
Qed.

Context (s : IState).
Hypothesis Hbuilt : built m (MBytes ml) s.

Lemma function_typed f Fn : sFunctions s !! f = Some Fn ->
  instance_of m (MBytes ml) f Fn /\ getFunctionType (view m) f = Some (fType Fn) /\ type_ok (fType Fn) /\
  cells (ParamTypes (fType Fn)) <= PresetMaxNumParamCells.
Proof.
  intros Hf. destruct (bi_functions _ _ _ Hbuilt) as [El Hfs]. pose proof (Hfs _ _ Hf) as Ef.
  pose proof (instance_fields _ _ _ _ Ef) as Hi. apply lookup_lt_Some in Hf as Hlt. rewrite El in Hlt.
  destruct (function_built m (MBytes ml) (ac_tables _ _ _ Hacc) (ac_codes _ _ _ Hacc) f Hlt) as (Fn' & Ef' & Hty).
  rewrite Ef in Ef'. injection Ef' as <-. destruct (if_type _ _ _ _ Hi) as (x & d & Hd & Ed).
  destruct (tw_types _ (ac_tables _ _ _ Hacc)) as (Hok & _ & _ & Hcells). rewrite Ed in *.
  split_and!; try done; [exact (Forall_lookup_1 _ _ _ _ Hok Hd)|exact (Forall_lookup_1 _ _ _ _ Hcells Hd)].
Qed.

Lemma functions_ok : quiet -> exists bodies, forall f Fn, sFunctions s !! f = Some Fn -> func_ok (view m) bodies f Fn.
Proof.
  intros Hq. destruct (choose_each (fun f Fn pts => fKind Fn = ByteCode -> exists vend, body_ok (view m) Fn pts vend) (sFunctions s))
    as [bodies Hb].
  { intros f Fn Hf. destruct (function_typed _ _ Hf) as (Hi & Hty & _). destruct (fKind Fn) eqn:Ek; [|by exists []].
    destruct (function_body f Fn Hq Hi Hty Ek) as (pts & vend & Hbody). eauto. }
  exists bodies. intros f Fn Hf. destruct (function_typed _ _ Hf) as (Hi & Hty & (Hps & Hrs & Hone) & Hcells).
  destruct (Hb _ _ Hf) as (pts & Epts & Hbody). split; try done.
  - rewrite (if_params _ _ _ _ Hi). unfold NumParamCells. rewrite type_cells, <- cells_tcells by done.
    apply (wrap_small 16). unfold in_u, PresetMaxNumParamCells, UINT16_MAX in *. split; [|lia].
    rewrite cells_tcells by done. apply tcells_nonneg.
  - rewrite (if_returns _ _ _ _ Hi). unfold NumReturnCells. rewrite type_cells, <- cells_tcells by done.
    rewrite cells_tcells by done. destruct (ReturnTypes (fType Fn)) as [|t [|]]; cbn in Hone; [done| |lia].
    cbn [tcells]. pose proof (tcell_bounds t). rewrite (wrap_small 6), (wrap_small 4) by (unfold in_u; lia). done.
  - eapply Forall_impl; [|exact Hps]. apply val_num.
  - eapply Forall_impl; [|exact Hrs]. apply val_num.
  - intros Hk. destruct (Hbody Hk) as [vend ?]. eauto.
Qed.

Lemma loaded_program : quiet -> exists bodies, program_ok (view m) (sFunctions s) (sGlobals s) (ModuleLoader.GasFuncIdx m) bodies.
Proof.
  intros Hq. destruct (functions_ok Hq) as [bodies Hfs]. exists bodies. split; [done| | |].
  - intros f t Hf. apply lookup_lt_is_Some_2. destruct (bi_functions _ _ _ Hbuilt) as [-> _]. unfold num_functions.
    unfold getFunctionType, getFunctionTypeIdx, view in Hf. cbn [ImportFunctionTable InternalFunctionTable] in Hf.
    rewrite length_fmap in Hf. destruct (Nat.ltb_spec f (length (ImportFuncs m))); [lia|].
    destruct ((TypeIdx <$> Funcs m) !! _) as [x|] eqn:Ex; [|done]. apply lookup_lt_Some in Ex. rewrite length_fmap in Ex. lia.
  - intros t Hg Ht. destruct (us_gas _ _ _ _ (ac_uses _ _ _ Hacc)) as [E|[_ E]]; [|rewrite E in Ht; by injection Ht].
    exfalso. rewrite E in Ht. assert (Z.of_nat (Z.to_nat NONE32) = 2 ^ 32 - 1) as En by (apply Z2Nat.id; unfold NONE32, UINT32_MAX; lia).
    revert Ht En. generalize (Z.to_nat NONE32) as n. intros n Ht En. unfold getFunctionType, getFunctionTypeIdx, view in Ht.
    cbn [ImportFunctionTable InternalFunctionTable] in Ht. rewrite length_fmap in Ht.
    pose proof (tw_num_funcs _ (ac_tables _ _ _ Hacc)) as Hn. unfold PresetMaxNumFunctions, UINT16_MAX in Hn.
    rewrite (proj2 (Nat.ltb_ge _ _)) in Ht by lia. destruct ((TypeIdx <$> Funcs m) !! _) as [x|] eqn:Ex; [|done].
    apply lookup_lt_Some in Ex. rewrite length_fmap in Ex. lia.
  - intros x g Hg.
    assert (exists gi, all_globals m !! x = Some gi /\ gType gi = GType g) as (gi & Hgi & Et).
    { unfold all_globals. unfold view in Hg. cbn [ImportGlobalTable InternalGlobalTable] in Hg.
      apply lookup_app_Some in Hg as [Hg|[Hge Hg]]; rewrite ?length_fmap in *; apply list_lookup_fmap_Some in Hg as (e & -> & He).
      - exists (mkGI (IGType e) (IGOffset e)). split; [|done]. apply lookup_app_l_Some. by rewrite lookup_map, He.
      - exists (mkGI (GDType e) (GDOffset e)). split; [|done]. rewrite lookup_app_r by (by rewrite length_map). by rewrite length_map, lookup_map, He. }
    rewrite (bi_globals _ _ _ Hbuilt). exists gi. split_and!; [done|done|].
    rewrite <- Et. apply val_num. by apply (global_placed m (ac_tables _ _ _ Hacc) x).
Qed.

Lemma loaded_instance : inst_ok (view m) (sFunctions s) (sGlobals s) (runInstance s).
Proof.
  destruct Hbuilt as [[Ef Hf] Eg [Ed Hd] Et [El Hl] Em]. split.
  - intros Hn. unfold runInstance, view in *. cbn in Hn |- *. destruct (sMemories s); [cbn in Em; lia|by eexists].
  - intros x gi Hx. rewrite Eg in Hx. destruct (global_placed m (ac_tables _ _ _ Hacc) _ _ Hx) as (H1 & H2 & H3).
    split; [done|]. cbn. rewrite Ed. rewrite <- cells_size by done. done.
  - intros Hn. unfold runInstance, view in *. cbn in Hn |- *. rewrite Et. unfold tableSizes.
    intros E. apply (f_equal length) in E. rewrite length_map, length_app, !length_map in E. cbn in E. lia.
  - cbn. rewrite Et. apply Forall_fmap, Forall_forall. intros t Hin%list_elem_of_In. cbn. apply Forall_lookup. intros i e Hi.
    apply lookup_take_Some in Hi as [Hi Hlt]. destruct (Hl t i e Hin Hlt Hi) as [->|[He Hlt2]]; [by left|]. right.
    apply lookup_lt_is_Some_2. by rewrite Ef.
Qed.
End Run.
