(* ===== verification/InstantiatorTheorems.v ===== *)
(** From the bytes of a module to the calls of its functions: a module that the
    loader accepts is instantiated, and whatever is then called, in whatever
    order, no call has undefined behaviour. *)

From stdpp Require Import gmap.
From S2P Require Import Prelude Intx Leb128 WasmNum FunctionLoader FunctionLoaderInv FunctionLoaderTheorems WasmInterp WasmSafeInv WasmSafeStep ConstStringPool ConstStringPoolTheorems ModuleLoader ModuleLoaderInv ModuleLoaderSections ModuleLoaderCode ModuleLoaderTheorems LoaderTyped Instantiator InstantiatorSafe InstantiatorRun.

#[local] Open Scope Z_scope.

(** What a host function must leave of the instance that calls it: the tables,
    the room of the global variables, and at least the memory. *)
Definition host_keeps (native : Z -> list (WASMType * Z) -> Instance_ -> Instance_ * Z * option Z) : Prop :=
  forall p Args i, let i' := (native p Args i).1.1 in
  WasmInterp.iTables i' = WasmInterp.iTables i /\ length (GlobalVarData i') = length (GlobalVarData i) /\
  (is_Some (iMemory i) -> is_Some (iMemory i')) /\ msize i <= msize i'.

Lemma host_native M fs gs native : host_keeps native -> native_ok M fs gs native.
Proof.
  intros H p Args i [H1 H2 H3 H4]. destruct (H p Args i) as (E1 & E2 & E3 & E4). split; [|done].
  split; [by intros Hn; apply E3, H1|by rewrite E2|by rewrite E1|by rewrite E1].
Qed.

(** ** Conditions on a module, to be checked *)

(** No body takes values behind an unconditional branch, and the labels of its
    branch tables are short ([InstantiatorRun.quiet]). *)
Definition quiet_body (wide_shift : Z -> Z -> Z) (B : list Z) (m : WasmModule) (i : nat) (c : CodeEntry) : bool :=
  match getFunctionType (view m) (length (ImportFuncs m) + i) with
  | Some F =>
      bool_decide (Forall (fun v => ANY ∉ ValueTypes v) (trace wide_shift (view m) F (CLocalTypes c) (body_bytes B c))) &&
      short_tables (length (body_bytes B c)) (body_bytes B c)
  | None => true
  end.
Definition quiet_module (wide_shift : Z -> Z -> Z) (B : list Z) (m : WasmModule) : bool :=
  forallb id (imap (quiet_body wide_shift B m) (Codes m)).

Lemma quiet_checked {P} wide_shift B (ml : ModuleLoader (P := P)) :
  quiet_module wide_shift B (Mod ml) = true -> quiet wide_shift B ml.
Proof.
  intros H i c F Hc HF. unfold quiet_module in H. rewrite forallb_forall in H.
  assert (quiet_body wide_shift B (Mod ml) i c = true) as Hb.
  { apply (H (quiet_body wide_shift B (Mod ml) i c)). apply list_elem_of_In, list_elem_of_lookup. exists i.
    by rewrite list_lookup_imap, Hc. }
  unfold quiet_body in Hb. rewrite HF in Hb. apply andb_true_iff in Hb as [?%bool_decide_eq_true ?]. done.
Qed.

(** There is no start function, or it is a body whose frame fits. *)
Definition start_check (m : WasmModule) : bool :=
  let i := (Z.to_nat (StartFuncIdx m) - length (ImportFuncs m))%nat in
  (StartFuncIdx m =? NONE32) ||
  (length (ImportFuncs m) <=? Z.to_nat (StartFuncIdx m))%nat &&
  match Codes m !! i with
  | Some c => 4 * NumLocalCells c + sizeofInterpFrame + CMaxStackSize c + u32 (CMaxBlockDepth c * sizeofBlockInfo)
              <? PresetReservedStackSize
  | None => false
  end.

(** A function that can be called from outside: a body, whose frame fits the
    stack of the interpreter. *)
Definition callable (s : IState) (f : nat) : Prop :=
  exists Fn, sFunctions s !! f = Some Fn /\ fKind Fn = ByteCode /\ entry_fits Fn.

(** A call that has reached an operation which the language leaves undefined. *)
Definition marked (e : CallError) : bool :=
  match e with CallTrap (UB_SignedOverflow | UB_Shift | UB_Overlap) => true | _ => false end.

Section Machine.
Context (VmMaxMemPages : Z) (allocateZeros : Z -> bool).
Context (wide_shift : Z -> Z -> Z) (enlarge : MemoryInstance -> Z -> bool).
Context (native : Z -> list (WASMType * Z) -> Instance_ -> Instance_ * Z * option Z) (InstanceExit : Z).
Hypothesis Hnative : host_keeps native.

#[local] Abbreviation call_ m s := (callWasmFunction wide_shift enlarge native InstanceExit m s).
#[local] Abbreviation instantiate_ :=
  (instantiate VmMaxMemPages allocateZeros wide_shift enlarge native InstanceExit).

(** The instances that the module has from its instantiation on: after each
    call, whether it has returned or has failed. *)
Inductive reached (m : WasmModule) (Bytes_ : list Z) (s : IState) : Instance_ -> Prop :=
| reached_new GasLimit fuel c i : instantiate_ m Bytes_ GasLimit fuel c = Some (Ret tt (s, i)) -> reached m Bytes_ s i
| reached_return i fuel c f Args vs i' :
    reached m Bytes_ s i -> callable s f -> call_ m s fuel c f Args i = Some (Ret vs i') -> reached m Bytes_ s i'
| reached_error i fuel c f Args e i' :
    reached m Bytes_ s i -> callable s f -> call_ m s fuel c f Args i = Some (Throw e i') -> marked e = false ->
    reached m Bytes_ s i'.

(** What is known of the outcome of a call: when [fuel] turns are not enough,
    then the interpreter has taken all of them.  Nothing is said of the
    instance after an operation the language leaves undefined. *)
Definition outcome_ok (m : WasmModule) (s : IState) (fuel f : nat) (o : option (out CallError Instance_ (list Z))) : Prop :=
  match o with
  | None => busy wide_shift (view m) (sFunctions s) (sGlobals s) (ModuleLoader.GasFuncIdx m) enlarge native fuel f
  | Some (Ret vs i) => inst_ok (view m) (sFunctions s) (sGlobals s) i /\
      forall t, getFunctionType (view m) f = Some t -> length vs = length (ReturnTypes t)
  | Some (Throw e i) => marked e = false -> inst_ok (view m) (sFunctions s) (sGlobals s) i
  | Some (Exit _ | Undef) => False
  end.

(** And of that of the instantiation. *)
Definition instance_outcome (m : WasmModule) (Bytes_ : list Z) (o : option (out InstError (IState * Instance_) unit)) : Prop :=
  match o with
  | None => StartFuncIdx m <> NONE32
  | Some (Ret _ (s, i)) => built m Bytes_ s /\ inst_ok (view m) (sFunctions s) (sGlobals s) i
  | Some (Throw _ _) => True
  | Some (Exit _ | Undef) => False
  end.

Section Loaded.
Context {P : Type} {SP : SymbolPool P} {SL : SymbolPoolLaws P}.
Context (B : list Z) (ml : ModuleLoader (P := P)).
Hypothesis HB : Forall is_byte B.
Hypothesis Hacc : accepted wide_shift B ml.
Hypothesis Hquiet : quiet wide_shift B ml.

Lemma call_outcome s fuel c f Args i :
  built (Mod ml) (MBytes ml) s -> callable s f -> inst_ok (view (Mod ml)) (sFunctions s) (sGlobals s) i ->
  outcome_ok (Mod ml) s fuel f (call_ (Mod ml) s fuel c f Args i).
Proof.
  intros Hbuilt (Fn & Hf & Hk & Hfit) Hi. destruct (loaded_program wide_shift B ml HB Hacc s Hbuilt Hquiet) as [bodies Hprog].
  unfold callWasmFunction. rewrite Hf. destruct (Nat.eqb_spec (length Args) (length (ParamTypes (fType Fn)))) as [El|]; [|by intros _].
  cbn [negb]. case_bool_decide as Et; [|by intros _]. cbn [negb].
  assert (argsFit Fn Args = true) as Hargs by (unfold argsFit; by rewrite !bool_decide_eq_true_2).
  pose proof (call_safe wide_shift (view (Mod ml)) (sFunctions s) (sGlobals s) (ModuleLoader.GasFuncIdx (Mod ml))
    enlarge native bodies Hprog (host_native _ _ _ _ Hnative) fuel c f Fn Args i Hi Hf Hk Hargs Hfit) as Hcall.
  pose proof (fo_type (po_funcs Hprog _ _ Hf)) as Hty.
  destruct (callWasmFunctionInInterpMode _ _ _ _ _ _ _ _ _ _ _ _) as [[vs i'|i'|e i'|]|]; try done; cbn [call_ok] in Hcall.
  - destruct Hcall as [Hl Hi']. split; [done|]. intros t. rewrite Hty. by intros [= <-].
  - destruct (isInstanceExit _ e); [|by intros _]. split; [done|]. intros t. rewrite Hty. intros [= <-]. by rewrite length_replicate.
Qed.

(** The start function, if there is one, is callable. *)
Definition start_fits : Prop :=
  StartFuncIdx (Mod ml) = NONE32 \/
  forall s, built (Mod ml) (MBytes ml) s -> callable s (Z.to_nat (StartFuncIdx (Mod ml))).

Lemma start_checked : start_check (Mod ml) = true -> start_fits.
Proof.
  unfold start_check. cbn zeta. destruct (Z.eqb_spec (StartFuncIdx (Mod ml)) NONE32) as [|Hne]; [by left|]. cbn [orb].
  intros [Hge%Nat.leb_le Hc]%andb_true_iff. right. intros s Hbuilt.
  set (f := Z.to_nat (StartFuncIdx (Mod ml))) in *. destruct (Codes (Mod ml) !! (f - _)%nat) as [c|] eqn:Ec; [|done].
  apply Z.ltb_lt in Hc. destruct (bi_functions _ _ _ Hbuilt) as [El Hfs].
  destruct (lookup_lt_is_Some_2 (sFunctions s) f) as [Fn Hf].
  { rewrite El. unfold num_functions. apply lookup_lt_Some in Ec. rewrite (ac_codes _ _ _ Hacc) in Ec. lia. }
  destruct (us_start _ _ _ _ (ac_uses _ _ _ Hacc)) as [|[_ Hty]]; [done|]. fold f in Hty.
  destruct (function_typed wide_shift B ml Hacc s Hbuilt _ _ Hf) as (_ & Hty' & _). rewrite Hty in Hty'. injection Hty' as Et.
  pose proof (Hfs _ _ Hf) as Ei. unfold functionInstance in Ei. rewrite (proj2 (Nat.ltb_ge _ _) Hge) in Ei.
  destruct (Funcs _ !! _) as [e|]; [|done]. cbn [mbind option_bind] in Ei. destruct (Types_ _ !! _) as [d|]; [|done].
  cbn [mbind option_bind] in Ei. rewrite Ec in Ei. cbn [mbind option_bind] in Ei. injection Ei as <-.
  eexists. split_and!; [exact Hf|done|]. unfold entry_fits, fparams. cbn [fType] in Et. cbn [fType fNumLocalCells fMaxStackSize fMaxBlockDepth].
  rewrite <- Et. cbn [ParamTypes tcells]. lia.
Qed.

Lemma instantiate_outcome GasLimit fuel c :
  literal_inits (Mod ml) = true -> memories_fit (Mod ml) VmMaxMemPages allocateZeros -> start_fits ->
  instance_outcome (Mod ml) (MBytes ml) (instantiate_ (Mod ml) (MBytes ml) GasLimit fuel c).
Proof.
  intros Hlit Hmem Hstart. destruct (ac_uses _ _ _ Hacc) as [_ _ _ Hes _ Hds].
  assert (Forall (data_wf (MBytes ml) (Mod ml)) (Datas (Mod ml))) as Hds'.
  { eapply Forall_impl; [|exact Hds]. intros d. unfold data_wf. by rewrite (ac_length _ _ _ Hacc). }
  pose proof (parts_build (Mod ml) (MBytes ml) (ac_tables _ _ _ Hacc) (ac_codes _ _ _ Hacc) VmMaxMemPages allocateZeros
    GasLimit Hlit Hmem Hes Hds') as Hparts.
  unfold instantiate, instance_outcome. unfold builds in Hparts. destruct (instantiateParts _ _ _ _ _) as [[] s| | |]; try done.
  pose proof (loaded_instance wide_shift B ml Hacc s Hparts) as Hi.
  cbn zeta. destruct (Z.eqb_spec (StartFuncIdx (Mod ml)) NONE32) as [|Hne]; [done|].
  destruct Hstart as [|Hstart]; [done|].
  pose proof (call_outcome s fuel c _ [] _ Hparts (Hstart s Hparts) Hi) as Hcall.
  destruct (call_ _ _ _ _ _ _ _) as [[vs i'|i'|e i'|]|]; try done. by destruct Hcall.
Qed.

Lemma reached_ok s i :
  literal_inits (Mod ml) = true -> memories_fit (Mod ml) VmMaxMemPages allocateZeros -> start_fits ->
  reached (Mod ml) (MBytes ml) s i ->
  built (Mod ml) (MBytes ml) s /\ inst_ok (view (Mod ml)) (sFunctions s) (sGlobals s) i.
Proof.
  intros Hlit Hmem Hstart. induction 1 as [g fuel c i E|i fuel c f Args vs i' _ [Hb Hi] Hc E|i fuel c f Args e i' _ [Hb Hi] Hc E Hmk].
  - pose proof (instantiate_outcome g fuel c Hlit Hmem Hstart) as H. by rewrite E in H.
  - pose proof (call_outcome s fuel c f Args i Hb Hc Hi) as H. rewrite E in H. by destruct H.
  - pose proof (call_outcome s fuel c f Args i Hb Hc Hi) as H. rewrite E in H. auto.
Qed.
End Loaded.
End Machine.

(** ** The theorems *)

Section Claims.
Context {P : Type} {SP : SymbolPool P} {SL : SymbolPoolLaws P}.
Context (SpecTest : bool) (Hosts : gmap Z (list NativeFuncDesc)).
Context (VmMaxMemPages : Z) (allocateZeros : Z -> bool).
Context (wide_shift : Z -> Z -> Z) (enlarge : MemoryInstance -> Z -> bool).
Context (native : Z -> list (WASMType * Z) -> Instance_ -> Instance_ * Z * option Z) (InstanceExit : Z).

(** A module that was loaded, and what is asked of it and of its surroundings. *)
Record ready (Bytes_ : list Z) (ml : ModuleLoader (P := P)) : Prop := {
  rd_hosts : host_ok Hosts;
  rd_native : host_keeps native;
  rd_loads : exists l a p, holds p l /\ aged a p /\ a + Z.of_nat (length Bytes_) <= MaxSymbols /\
    loadModule wide_shift SpecTest Hosts Bytes_ p = Ret tt ml;
  rd_raw : Forall is_byte Bytes_ /\ Z.of_nat (length Bytes_) <= 2 ^ 29;
  rd_quiet : quiet_module wide_shift Bytes_ (Mod ml) = true;
  rd_literals : literal_inits (Mod ml) = true;
  rd_memories : memories_fit (Mod ml) VmMaxMemPages allocateZeros;
  rd_start : start_check (Mod ml) = true;
}.

Lemma ready_accepted Bytes_ ml : ready Bytes_ ml -> accepted wide_shift Bytes_ ml.
Proof.
  intros [HH _ (l & a & p & Hl & Ha & Hroom & E) [Hb Hlen] _ _ _ _].
  pose proof (loadModule_runs wide_shift SpecTest Hosts HH Bytes_ l a p Hb Hlen Hl Ha Hroom) as Hr. rewrite E in Hr. by destruct Hr.
Qed.

(** C12. The instantiation of a loaded module does not touch what it must not:
    [Instantiator::instantiate] returns an instance whose parts are as the
    module declares them, or throws; no assertion fails and no access is outside
    the areas of the instance.  Only a start function can use up the fuel.  Conditions ([ready]): every host
    module has a function, host functions keep the tables, globals and memory
    of the instance well formed, the symbols of the module fit the pool and the
    module 2^29 bytes; no operand of unknown type occurs in a body and the
    labels of branch tables take at most two bytes; initial values are
    literals; the allocator has room, no memory declares the maximum 0 and none
    starts with 2^16 pages; the frame of the start function fits the stack.  A
    start function may also stop at an operation that the language leaves
    undefined, which is then the error. *)
Theorem loaded_module_instantiates Bytes_ ml GasLimit fuel c :
  ready Bytes_ ml ->
  instance_outcome (Mod ml) (MBytes ml)
    (instantiate VmMaxMemPages allocateZeros wide_shift enlarge native InstanceExit
       (Mod ml) (MBytes ml) GasLimit fuel c).
Proof.
  intros Hr. pose proof (ready_accepted _ _ Hr) as Hacc. destruct Hr as [_ Hn _ [Hb _] Hq Hl Hm Hs].
  apply (instantiate_outcome _ _ _ _ _ _ Hn Bytes_ ml Hb Hacc (quiet_checked _ _ _ Hq)); [done|done|].
  by apply (start_checked wide_shift Bytes_).
Qed.

End Claims.

(** ** Witnesses *)

(** A start function that counts in a global variable, a function that adds the
    count to its argument, a table with it and a memory with data. *)
Definition counter : list Z :=
  [0; 0x61; 0x73; 0x6d; 1; 0; 0; 0;
   1; 9; 2; 0x60; 0; 0; 0x60; 1; 0x7f; 1; 0x7f;
   3; 3; 2; 0; 1;
   4; 4; 1; 0x70; 0; 1;
   5; 3; 1; 0; 1;
   6; 6; 1; 0x7f; 1; 0x41; 5; 0x0b;
   7; 7; 1; 3; 0x61; 0x64; 0x64; 0; 1;
   8; 1; 0;
   9; 7; 1; 0; 0x41; 0; 0x0b; 1; 1;
   10; 19; 2; 9; 0; 0x23; 0; 0x41; 1; 0x6a; 0x24; 0; 0x0b; 7; 0; 0x20; 0; 0x23; 0; 0x6a; 0x0b;
   11; 9; 1; 0; 0x41; 0; 0x0b; 3; 1; 2; 3].

Definition counter_loader : ModuleLoader :=
  match loadModule no_shift false ∅ counter initialPool with Ret _ s => s | _ => mkML [] 0 0 newModule false initialPool end.
Definition no_host (_ : Z) (_ : list (WASMType * Z)) (i : Instance_) : Instance_ * Z * option Z := (i, 0, None).
Definition new_counter : option (out InstError (IState * Instance_) unit) :=
  instantiate 0 (fun _ => true) no_shift (fun _ _ => true) no_host 0
    (Mod counter_loader) (MBytes counter_loader) 0 20 ∅.
Definition counter_state : IState :=
  match new_counter with Some (Ret _ (s, _)) => s | _ => newInstance newModule 0 end.
Definition counter_instance : Instance_ :=
  match new_counter with Some (Ret _ (_, i)) => i | _ => mkInst None [] [] 0 end.

Lemma counter_ready : ready false ∅ 0 (fun _ => true) no_shift no_host counter counter_loader.
Proof.
  split.
  - exact no_hosts.
  - intros p Args i. by split_and!.
  - exists [], 0, initialPool. split_and!; [exact initial_holds|exact initial_aged|vm_compute; discriminate|vm_compute; reflexivity].
  - split; [by repeat constructor|vm_compute; discriminate].
  - vm_compute. reflexivity.
  - vm_compute. reflexivity.
  - split_and!; [done|vm_compute; by repeat constructor|]. right. split; vm_compute; by repeat constructor.
  - vm_compute. reflexivity.
Qed.

Lemma loaded_module_instantiates_witness :
  instance_outcome (Mod counter_loader) (MBytes counter_loader) new_counter.
Proof.
  unfold new_counter. exact (loaded_module_instantiates false ∅ 0 (fun _ => true) no_shift (fun _ _ => true)
    no_host 0 counter counter_loader 0 20 ∅ counter_ready).
Defined.

(** The start function has counted to 6: the call gives 9. *)
Definition call_counter : option (out CallError Instance_ (list Z)) :=
  callWasmFunction no_shift (fun _ _ => true) no_host 0 (Mod counter_loader) counter_state 20 ∅ 1
    [(I32, 3)] counter_instance.

Example counter_adds : match call_counter with Some (Ret vs _) => vs = [9] | _ => False end.
Proof. vm_compute. reflexivity. Qed.

