(* ===== verification/WasmNumSpecs.v ===== *)
(** The integer instructions of the WebAssembly interpreter against the
    operators of the WebAssembly specification, which are functions of unsigned
    numbers of 32 or 64 bits. *)

From stdpp Require Import gmap.
From S2P Require Import Prelude Intx Leb128 Leb128Correct WasmNum FunctionLoader WasmInterp.

#[local] Open Scope Z_scope.

(** ** The operators of the specification *)

Inductive wop : Type :=
| WEq | WNe | WLtS | WLtU | WGtS | WGtU | WLeS | WLeU | WGeS | WGeU
| WAdd | WSub | WMul | WDivS | WDivU | WRemS | WRemU | WAnd | WOr | WXor | WShl | WShrS | WShrU | WRotl | WRotr.

Definition comparisons : list wop := [WEq; WNe; WLtS; WLtU; WGtS; WGtU; WLeS; WLeU; WGeS; WGeU].
Definition arithmetic : list wop :=
  [WAdd; WSub; WMul; WDivS; WDivU; WRemS; WRemU; WAnd; WOr; WXor; WShl; WShrS; WShrU; WRotl; WRotr].

(** The binary integer instructions in the order of their opcodes. *)
Definition wop_of (op : Z) : option (Z * wop) :=
  if in_range 0x46 0x4f op then pair 32 <$> comparisons !! Z.to_nat (op - 0x46)
  else if in_range 0x51 0x5a op then pair 64 <$> comparisons !! Z.to_nat (op - 0x51)
  else if in_range 0x6a 0x78 op then pair 32 <$> arithmetic !! Z.to_nat (op - 0x6a)
  else if in_range 0x7c 0x8a op then pair 64 <$> arithmetic !! Z.to_nat (op - 0x7c)
  else None.

(** [signed_N] of the specification *)
Definition signed (N i : Z) : Z := if i <? 2 ^ (N - 1) then i else i - 2 ^ N.

Definition wrotl (N i k : Z) : Z := (i * 2 ^ k) mod 2 ^ N + i / 2 ^ (N - k).

Definition wop_res (N : Z) (o : wop) (i j : Z) : Trap + Z :=
  let si := signed N i in
  let sj := signed N j in
  match o with
  | WEq => inr (b2z (i =? j))
  | WNe => inr (b2z (negb (i =? j)))
  | WLtS => inr (b2z (si <? sj))
  | WLtU => inr (b2z (i <? j))
  | WGtS => inr (b2z (sj <? si))
  | WGtU => inr (b2z (j <? i))
  | WLeS => inr (b2z (si <=? sj))
  | WLeU => inr (b2z (i <=? j))
  | WGeS => inr (b2z (sj <=? si))
  | WGeU => inr (b2z (j <=? i))
  | WAdd => inr ((i + j) mod 2 ^ N)
  | WSub => inr ((i - j) mod 2 ^ N)
  | WMul => inr ((i * j) mod 2 ^ N)
  | WDivS => if j =? 0 then inl IntegerDivByZero
             else if Z.quot si sj =? 2 ^ (N - 1) then inl IntegerOverflow else inr (Z.quot si sj mod 2 ^ N)
  | WDivU => if j =? 0 then inl IntegerDivByZero else inr (i / j)
  | WRemS => if j =? 0 then inl IntegerDivByZero else inr (Z.rem si sj mod 2 ^ N)
  | WRemU => if j =? 0 then inl IntegerDivByZero else inr (i mod j)
  | WAnd => inr (Z.land i j)
  | WOr => inr (Z.lor i j)
  | WXor => inr (Z.lxor i j)
  | WShl => inr ((i * 2 ^ (j mod N)) mod 2 ^ N)
  | WShrS => inr ((si / 2 ^ (j mod N)) mod 2 ^ N)
  | WShrU => inr (i / 2 ^ (j mod N))
  | WRotl => inr (wrotl N i (j mod N))
  | WRotr => inr (wrotl N i (- j mod N))
  end.

(** Where the operators of C++17 that the interpreter uses are undefined: signed
    sums, differences and products that overflow, counts not below the width,
    and left shifts of negative numbers or beyond the unsigned type. *)
Definition fits_signed (N z : Z) : bool := (- 2 ^ (N - 1) <=? z) && (z <? 2 ^ (N - 1)).
Definition cxx_undefined (N : Z) (o : wop) (i j : Z) : option Trap :=
  let si := signed N i in
  let sj := signed N j in
  let overflow z := if fits_signed N z then None else Some UB_SignedOverflow in
  match o with
  | WAdd => overflow (si + sj)
  | WSub => overflow (si - sj)
  | WMul => overflow (si * sj)
  | WShl => if (j <? N) && (i <? 2 ^ (N - 1)) && (i * 2 ^ j <? 2 ^ N) then None else Some UB_Shift
  | WShrS | WShrU => if j <? N then None else Some UB_Shift
  | _ => None
  end.
Definition cxx_res (N : Z) (o : wop) (i j : Z) : Trap + Z :=
  match cxx_undefined N o i j with Some e => inl e | None => wop_res N o i j end.

(** ** Bits and values *)

(** The types of the operands. *)
Definition wide_int (T : int_ty) (N : Z) : Prop := (N = 32 \/ N = 64) /\ bits T = N.

Lemma signed_swrap N i : (N = 32 \/ N = 64) -> in_u N i -> swrap N i = signed N i.
Proof.
  intros HN Hi. unfold in_u in Hi. unfold signed.
  assert (0 < N /\ 2 ^ N = 2 * 2 ^ (N - 1)) as [HN' E].
  { split; [destruct HN; lia|]. rewrite <- Z.pow_succ_r by (destruct HN; lia). f_equal. lia. }
  destruct (Z.ltb_spec i (2 ^ (N - 1))); [apply swrap_small; lia|].
  unfold swrap. rewrite <- (Z.mod_add _ (-1)) by lia. rewrite Z.mod_small by lia. lia.
Qed.

(** The value of a type with the bits [i]. *)
Definition val (T : int_ty) (i : Z) : Z := if Signed T then signed (bits T) i else i.

Section Values.
Context (T : int_ty) (N i : Z).
Hypothesis HT : wide_int T N.
Hypothesis Hi : in_u N i.

Lemma value_bits : of_bits (NI T) i = val T i.
Proof.
  destruct HT as [HN E]. cbn [of_bits]. unfold cast, val. fold (bits T). rewrite E.
  destruct (Signed T); [by apply signed_swrap|by apply wrap_small].
Qed.
Lemma bits_value : wrap N (val T i) = i.
Proof.
  destruct HT as [HN E]. unfold val. rewrite E. destruct (Signed T); [|by apply wrap_small].
  rewrite <- signed_swrap by done. rewrite wrap_swrap by lia. by apply wrap_small.
Qed.
End Values.

Lemma bits_cast T N z : wide_int T N -> wrap N (cast T z) = wrap N z.
Proof. intros [_ <-]. apply wrap_cast. Qed.
Lemma wrap_bits T N z : wide_int T N -> to_bits (NI T) z = wrap N z.
Proof. intros [_ <-]. done. Qed.

(** The bits of a result. *)
Definition res_bits (T : num_ty) (Op : BinaryOperator) (r : opres) : option (Trap + Z) :=
  match r with
  | Some (inl e) => Some (inl e)
  | Some (inr v) => Some (inr (to_bits (ret_type T Op) v))
  | None => None
  end.

(** ** Rotations *)

Lemma in_u_shiftr N i k : 0 <= k -> in_u N i -> in_u N (Z.shiftr i k).
Proof.
  intros Hk Hi. unfold in_u in *. rewrite Z.shiftr_div_pow2 by lia. assert (0 < 2 ^ k) by (apply Z.pow_pos_nonneg; lia).
  split; [apply Z.div_pos; lia|]. apply Z.div_lt_upper_bound; nia.
Qed.

Lemma rotl_bits N i k : 0 < N -> in_u N i -> 0 <= k < N ->
  Z.lor (wrap N (Z.shiftl i k)) (Z.shiftr i (if k =? 0 then 0 else N - k)) = wrotl N i k.
Proof.
  intros HN Hi Hk. unfold in_u in Hi. unfold wrotl. destruct (Z.eqb_spec k 0) as [->|Hne].
  - rewrite Z.shiftl_0_r, Z.shiftr_0_r, wrap_small, Z.lor_diag, Z.sub_0_r, Z.mul_1_r by done.
    rewrite Z.mod_small, Z.div_small by lia. lia.
  - rewrite Z.shiftl_mul_pow2, Z.shiftr_div_pow2 by lia. unfold wrap.
    assert (2 ^ N = 2 ^ (N - k) * 2 ^ k) as E by (rewrite <- Z.pow_add_r by lia; f_equal; lia).
    rewrite E, Z.mul_mod_distr_r by (apply Z.pow_nonzero; lia). rewrite Z.lor_comm, <- Z.shiftl_mul_pow2 by lia.
    rewrite lor_next, Z.shiftl_mul_pow2 by (first [lia|split; [apply Z.div_pos; lia|apply Z.div_lt_upper_bound; nia]]). lia.
Qed.

(** The masks of the rotations. *)
Lemma mask_mod T N z : wide_int T N -> Z.land z (N - 1) = z mod N.
Proof. intros [[-> | ->] _]; [apply (Z.land_ones z 5)|apply (Z.land_ones z 6)]; lia. Qed.
Lemma mask_cast T N z : wide_int T N -> Z.land (cast T z) (N - 1) = z mod N.
Proof.
  intros HT. rewrite (mask_mod T) by done. pose proof HT as [HN _].
  assert (exists k, 2 ^ N = N * k) as [k Ek] by (destruct HN as [-> | ->]; [exists (2 ^ 27)|exists (2 ^ 58)]; reflexivity).
  assert (N <> 0) by (destruct HN; lia).
  transitivity (wrap N (cast T z) mod N); [|transitivity (wrap N z mod N)].
  - unfold wrap. rewrite Ek. rewrite Z.rem_mul_r, Z.mul_comm, Z_mod_plus_full, Zmod_mod by (destruct HN; subst; lia). done.
  - by rewrite (bits_cast T).
  - unfold wrap. rewrite Ek. rewrite Z.rem_mul_r, Z.mul_comm, Z_mod_plus_full, Zmod_mod by (destruct HN; subst; lia). done.
Qed.

Lemma neg_mod N k : 0 < N -> 0 <= k < N -> (0 - k) mod N = if k =? 0 then 0 else N - k.
Proof.
  intros HN Hk. destruct (Z.eqb_spec k 0) as [->|]; [by rewrite Z.mod_0_l by lia|].
  rewrite <- (Z.mod_add _ 1) by lia. rewrite Z.mod_small; lia.
Qed.

Section Helper.
Context (T : int_ty) (N i j : Z).
Hypothesis HT : wide_int T N.
Hypothesis Hi : in_u N i.
Hypothesis Hj : in_u N j.

#[local] Abbreviation helper Op :=
  (res_bits (NI T) Op (BinaryOpHelper (NI T) Op (val T i) (val T j))).

Lemma width_cases : N = 32 \/ N = 64.
Proof. apply HT. Qed.

(** Operators that only look at the low bits. *)
Lemma low_bits_exact (f : Z -> Z -> Z) :
  (forall a b, wrap N (f (wrap N a) (wrap N b)) = wrap N (f a b)) -> wrap N (cast T (f (val T i) (val T j))) = wrap N (f i j).
Proof.
  intros Hf. rewrite (bits_cast T), <- Hf by done. by rewrite !(bits_value T).
Qed.

(** A signed operation: the wrapped result where it does not overflow. *)
Lemma cast_fits z : Signed T = true -> (cast T z =? z) = fits_signed N z.
Proof.
  intros Hs. pose proof HT as [_ Eb]. unfold cast, fits_signed. rewrite Hs. fold (bits T). rewrite Eb.
  assert (0 < N) by (destruct width_cases; lia). pose proof (swrap_range N z ltac:(lia)) as Hr.
  destruct (Z.eqb_spec (swrap N z) z) as [E|Hne].
  - symmetry. apply andb_true_iff. split; [apply Z.leb_le; lia|apply Z.ltb_lt; lia].
  - symmetry. apply andb_false_iff. destruct (Z.leb_spec (- 2 ^ (N - 1)) z); [right|by left].
    apply Z.ltb_ge. destruct (Z.le_gt_cases (2 ^ (N - 1)) z); [done|]. exfalso. apply Hne, swrap_small; lia.
Qed.

Lemma signed_exact Op (f : Z -> Z -> Z) ff :
  Signed T = true -> ret_type (NI T) Op = NI T -> (forall a b, wrap N (f (wrap N a) (wrap N b)) = wrap N (f a b)) ->
  res_bits (NI T) Op (opArith (NI T) f ff (val T i) (val T j)) =
    Some (if fits_signed N (f (signed N i) (signed N j)) then inr (wrap N (f i j)) else inl UB_SignedOverflow).
Proof.
  intros Hs Hr Hf. cbn [opArith]. rewrite Hs. cbn [andb]. rewrite cast_fits by done.
  assert (forall k, val T k = signed N k) as Ev by (intros k; unfold val; rewrite Hs; pose proof HT as [_ ->]; done).
  rewrite <- !Ev. destruct (fits_signed N _); cbn [negb res_bits]; [|done]. rewrite Hr, (wrap_bits T N) by done.
  by rewrite low_bits_exact.
Qed.

Lemma add_exact : Signed T = true -> helper BO_ADD = Some (cxx_res N WAdd i j).
Proof.
  intros Hs. cbn [BinaryOpHelper]. rewrite signed_exact; [|done|done|intros; unfold wrap; by rewrite <- Zplus_mod].
  unfold cxx_res. cbn. by destruct (fits_signed _ _).
Qed.
Lemma sub_exact : Signed T = true -> helper BO_SUB = Some (cxx_res N WSub i j).
Proof.
  intros Hs. cbn [BinaryOpHelper]. rewrite signed_exact; [|done|done|intros; unfold wrap; by rewrite <- Zminus_mod].
  unfold cxx_res. cbn. by destruct (fits_signed _ _).
Qed.
Lemma mul_exact : Signed T = true -> helper BO_MUL = Some (cxx_res N WMul i j).
Proof.
  intros Hs. cbn [BinaryOpHelper]. rewrite signed_exact; [|done|done|intros; unfold wrap; by rewrite <- Zmult_mod].
  unfold cxx_res. cbn. by destruct (fits_signed _ _).
Qed.

(** Bitwise operators. *)
Lemma bitwise_exact (f : Z -> Z -> Z) (g : bool -> bool -> bool) :
  (forall a b n, Z.testbit (f a b) n = g (Z.testbit a n) (Z.testbit b n)) -> g false false = false ->
  wrap N (cast T (f (val T i) (val T j))) = f i j.
Proof.
  intros Hf Hg. assert (0 <= N) by (destruct width_cases; lia). rewrite low_bits_exact.
  - unfold in_u in *. apply Z.bits_inj'. intros n Hn. unfold wrap. destruct (Z.lt_ge_cases n N).
    + by rewrite Z.mod_pow2_bits_low by lia.
    + rewrite Z.mod_pow2_bits_high by lia. rewrite Hf, (u_bits_high N i n), (u_bits_high N j n) by done. by rewrite Hg.
  - intros a b. unfold wrap. apply Z.bits_inj'. intros n Hn. destruct (Z.lt_ge_cases n N).
    + by rewrite !Z.mod_pow2_bits_low, !Hf, !Z.mod_pow2_bits_low by lia.
    + by rewrite !Z.mod_pow2_bits_high by lia.
Qed.

Lemma and_exact : helper BO_AND = Some (wop_res N WAnd i j).
Proof. cbn. rewrite (wrap_bits T N) by done. rewrite (bitwise_exact Z.land andb); [done|apply Z.land_spec|done]. Qed.
Lemma or_exact : helper BO_OR = Some (wop_res N WOr i j).
Proof. cbn. rewrite (wrap_bits T N) by done. rewrite (bitwise_exact Z.lor orb); [done|apply Z.lor_spec|done]. Qed.
Lemma xor_exact : helper BO_XOR = Some (wop_res N WXor i j).
Proof. cbn. rewrite (wrap_bits T N) by done. rewrite (bitwise_exact Z.lxor xorb); [done|apply Z.lxor_spec|done]. Qed.

(** Comparisons, on the values of the type. *)
Lemma compare_exact b : to_bits (NI TI32) (b2z b) = b2z b.
Proof. by destruct b. Qed.
Lemma val_eq : (val T i =? val T j) = (i =? j).
Proof.
  destruct (Z.eqb_spec i j) as [->|Hne]; [apply Z.eqb_refl|]. apply Z.eqb_neq. intros E. apply Hne.
  rewrite <- (bits_value T N i), <- (bits_value T N j) by done. by rewrite E.
Qed.

(** Shifts: the count is read in the type of the operand. *)
Lemma count_small : j < N -> val T j = j.
Proof.
  intros Hlt. pose proof HT as [HN E]. unfold val. rewrite E. destruct (Signed T); [|done]. unfold signed.
  rewrite (proj2 (Z.ltb_lt _ _)); [done|]. destruct HN as [-> | ->]; cbn; lia.
Qed.
Lemma count_range : (0 <=? val T j) && (val T j <? bits T) = (j <? N).
Proof.
  pose proof HT as [HN Eb]. destruct (Z.ltb_spec j N) as [Hlt|Hge].
  - rewrite count_small, Eb by done. unfold in_u in Hj. by rewrite (proj2 (Z.leb_le _ _)), (proj2 (Z.ltb_lt _ _)) by lia.
  - apply andb_false_iff. rewrite Eb. unfold val. rewrite Eb. destruct (Signed T); [|right; by apply Z.ltb_ge].
    unfold signed, in_u in *. destruct (Z.ltb_spec j (2 ^ (N - 1))); [right; by apply Z.ltb_ge|left; apply Z.leb_gt; lia].
Qed.

Lemma shl_exact : Signed T = true -> helper BO_SHL = Some (cxx_res N WShl i j).
Proof.
  intros Hs. pose proof HT as [_ Eb]. unfold cxx_res, cxx_undefined. cbn [BinaryOpHelper opShift]. unfold shift_defined.
  rewrite count_range, Hs. cbn [andb]. destruct (Z.ltb_spec j N) as [Hlt|]; [|done]. cbn [andb].
  rewrite count_small, Eb by done. unfold in_u in Hj, Hi.
  assert (0 < 2 ^ N /\ 2 ^ N = 2 * 2 ^ (N - 1)) as [HN E2].
  { assert (0 < N) by (destruct width_cases; lia). split; [apply Z.pow_pos_nonneg; lia|].
    rewrite <- Z.pow_succ_r by lia. f_equal. lia. }
  unfold val. rewrite Hs, Eb. unfold signed. destruct (Z.ltb_spec i (2 ^ (N - 1))) as [Hp|Hn].
  - rewrite (proj2 (Z.ltb_ge i 0)), Z.shiftl_mul_pow2 by lia. cbn [orb andb].
    destruct (Z.leb_spec (2 ^ N) (i * 2 ^ j)), (Z.ltb_spec (i * 2 ^ j) (2 ^ N)); try lia; cbn [negb res_bits ret_type]; [done|].
    rewrite (wrap_bits T N), (bits_cast T) by done. cbn [wop_res]. by rewrite (Z.mod_small j) by lia.
  - rewrite (proj2 (Z.ltb_lt (i - 2 ^ N) 0)) by lia. done.
Qed.
Lemma shr_exact : helper BO_SHR = Some (cxx_res N (if Signed T then WShrS else WShrU) i j).
Proof.
  pose proof HT as [_ Eb]. assert (cxx_undefined N (if Signed T then WShrS else WShrU) i j = if j <? N then None else Some UB_Shift) as Eu
    by (by destruct (Signed T)).
  unfold cxx_res. rewrite Eu. cbn [BinaryOpHelper opShift]. unfold shift_defined. rewrite count_range. cbn [andb negb].
  rewrite andb_true_r. destruct (Z.ltb_spec j N) as [Hlt|]; [|done]. rewrite count_small by done. unfold in_u in Hj, Hi.
  cbn [res_bits ret_type]. rewrite (wrap_bits T N), (bits_cast T), Z.shiftr_div_pow2 by (done || lia).
  unfold val. rewrite Eb. destruct (Signed T); cbn; rewrite (Z.mod_small j) by lia; [done|].
  rewrite wrap_small; [done|]. rewrite <- Z.shiftr_div_pow2 by lia. apply in_u_shiftr; [lia|done].
Qed.

(** Rotations, of unsigned types. *)
Lemma rotl_exact : Signed T = false -> helper BO_ROTL = Some (wop_res N WRotl i j).
Proof.
  intros Hs. cbn. rewrite (wrap_bits T N) by done. unfold val. rewrite Hs. pose proof HT as [_ ->].
  assert (0 < N) as HN by (destruct width_cases; lia). pose proof (Z.mod_pos_bound j N HN) as Hr.
  rewrite (mask_mod T), Zmod_mod, (mask_cast T), neg_mod by done. do 2 f_equal. rewrite (bits_cast T) by done.
  assert (cast T (Z.shiftl i (j mod N)) = wrap N (Z.shiftl i (j mod N))) as ->.
  { unfold cast. rewrite Hs. destruct HT as [_ <-]. done. }
  rewrite rotl_bits by done. apply wrap_small. rewrite <- rotl_bits by done. apply in_u_lor; [lia|apply wrap_range; lia|].
  apply in_u_shiftr; [destruct (j mod N =? 0); lia|done].
Qed.

Lemma rotr_exact : Signed T = false -> helper BO_ROTR = Some (wop_res N WRotr i j).
Proof.
  intros Hs. cbn. rewrite (wrap_bits T N) by done. unfold val. rewrite Hs. pose proof HT as [_ ->].
  assert (0 < N) as HN by (destruct width_cases; lia). pose proof (Z.mod_pos_bound j N HN) as Hr.
  rewrite (mask_mod T), Zmod_mod, (mask_cast T) by done. do 2 f_equal. rewrite (bits_cast T) by done.
  assert ((- j) mod N = (0 - j mod N) mod N) as Ek by (rewrite Zminus_mod_idemp_r; f_equal; lia).
  assert (cast T (Z.shiftl i ((0 - j mod N) mod N)) = wrap N (Z.shiftl i ((0 - j mod N) mod N))) as ->.
  { unfold cast. rewrite Hs. destruct HT as [_ <-]. done. }
  rewrite Ek. set (k := (0 - j mod N) mod N) in *. pose proof (Z.mod_pos_bound (0 - j mod N) N HN) as Hk. fold k in Hk.
  assert (j mod N = if k =? 0 then 0 else N - k) as ->.
  { unfold k. rewrite neg_mod by done. destruct (Z.eqb_spec (j mod N) 0) as [->|]; [done|].
    rewrite (proj2 (Z.eqb_neq _ _)) by lia. lia. }
  rewrite Z.lor_comm, rotl_bits by done. apply wrap_small. rewrite <- rotl_bits by done. apply in_u_lor; [lia|apply wrap_range; lia|].
  apply in_u_shiftr; [destruct (k =? 0); lia|done].
Qed.

(** Division. *)
Lemma divu_exact : Signed T = false -> helper BO_DIV = Some (wop_res N WDivU i j).
Proof.
  intros Hs. cbn. unfold val. rewrite Hs. unfold opDivU. destruct (Z.eqb_spec j 0); [done|]. cbn [res_bits ret_type].
  rewrite (wrap_bits T N), (bits_cast T) by done. unfold in_u in *. rewrite Z.quot_div_nonneg by lia. do 2 f_equal. apply wrap_small.
  split; [apply Z.div_pos; lia|]. apply Z.div_lt_upper_bound; nia.
Qed.
Lemma remu_exact : Signed T = false -> helper BO_REM_U = Some (wop_res N WRemU i j).
Proof.
  intros Hs. cbn. unfold val. rewrite Hs. unfold opRemU. destruct (Z.eqb_spec j 0); [done|]. cbn [res_bits ret_type].
  rewrite (wrap_bits T N), (bits_cast T) by done. unfold in_u in *. rewrite Z.rem_mod_nonneg by lia. do 2 f_equal. apply wrap_small.
  pose proof (Z.mod_pos_bound i j). unfold in_u. lia.
Qed.

(** The only quotient of signed numbers that is not one. *)
Lemma quot_overflow M a b : 0 < M -> - M <= a < M -> b <> 0 -> (Z.quot a b =? M) = (a =? - M) && (b =? -1).
Proof.
  intros HM Ha Hb. destruct (Z.eqb_spec (Z.quot a b) M) as [E|Hne]; symmetry.
  - pose proof (Z.quot_abs a b Hb) as Ea. rewrite E in Ea.
    pose proof (Z.mul_quot_le (Z.abs a) (Z.abs b) ltac:(lia) ltac:(lia)) as Hle. rewrite Ea in Hle.
    assert (b = 1 \/ b = -1) as [-> | ->] by nia.
    + rewrite Z.quot_1_r in E. lia.
    + change (-1) with (- (1)) in E. rewrite Z.quot_opp_r, Z.quot_1_r in E by lia. apply andb_true_iff. split; [apply Z.eqb_eq; lia|done].
  - apply andb_false_iff. destruct (Z.eqb_spec b (-1)) as [->|]; [left|by right]. apply Z.eqb_neq. intros ->.
    apply Hne. change (-1) with (- (1)). rewrite Z.quot_opp_r, Z.quot_1_r by lia. lia.
Qed.

Lemma signed_zero k : in_u N k -> (signed N k =? 0) = (k =? 0).
Proof.
  unfold in_u, signed. intros Hk. assert (0 < 2 ^ (N - 1)) by (apply Z.pow_pos_nonneg; destruct width_cases; lia).
  destruct (Z.ltb_spec k (2 ^ (N - 1))); [done|]. destruct (Z.eqb_spec (k - 2 ^ N) 0), (Z.eqb_spec k 0); lia.
Qed.
Lemma signed_bounds k : in_u N k -> - 2 ^ (N - 1) <= signed N k < 2 ^ (N - 1).
Proof. intros Hk. rewrite <- signed_swrap by (done || apply width_cases). apply swrap_range. destruct width_cases; lia. Qed.
Lemma least_signed : Signed T = true -> least T = - 2 ^ (N - 1).
Proof. intros Hs. destruct HT as [_ E]. clear - Hs E. destruct T; try done; cbn in E; subst N; reflexivity. Qed.

Lemma divs_exact : Signed T = true -> helper BO_DIV_S = Some (wop_res N WDivS i j).
Proof.
  intros Hs. cbn. unfold val. rewrite Hs. pose proof HT as [_ Eb]. rewrite Eb. unfold opDivS. rewrite (least_signed Hs), signed_zero by done.
  assert (0 < 2 ^ (N - 1)) by (apply Z.pow_pos_nonneg; destruct width_cases; lia).
  destruct (Z.eqb_spec j 0) as [->|Hne].
  - replace (signed N 0) with 0 by (unfold signed; by rewrite (proj2 (Z.ltb_lt _ _))). cbn [Z.eqb]. by rewrite andb_false_r.
  - assert (signed N j <> 0) by (apply Z.eqb_neq; rewrite signed_zero by done; by apply Z.eqb_neq).
    rewrite <- quot_overflow by (try done; by apply signed_bounds). destruct (_ =? 2 ^ (N - 1)); [done|]. cbn [res_bits ret_type].
    by rewrite (wrap_bits T N), (bits_cast T) by done.
Qed.
Lemma rems_exact : Signed T = true -> helper BO_REM_S = Some (wop_res N WRemS i j).
Proof.
  intros Hs. cbn. unfold val. rewrite Hs. pose proof HT as [_ Eb]. rewrite Eb. unfold opRemS. rewrite (least_signed Hs), signed_zero by done.
  destruct (Z.eqb_spec j 0) as [->|Hne].
  - replace (signed N 0) with 0; [cbn [Z.eqb]; by rewrite andb_false_r|]. unfold signed. rewrite (proj2 (Z.ltb_lt _ _)); [done|].
    apply Z.pow_pos_nonneg; destruct width_cases; lia.
  - destruct (_ && _) eqn:E; cbn [res_bits ret_type]; rewrite ?(wrap_bits T N), ?(bits_cast T) by done; [|done].
    apply andb_true_iff in E as [_ E%Z.eqb_eq]. rewrite E. change (-1) with (- (1)). rewrite Z.rem_opp_r, Z.rem_1_r by lia. done.
Qed.
End Helper.

(** ** The instances of the templates *)

(** Whether the operands are signed, and the operator. *)
Definition implementation (o : wop) : bool * BinaryOperator :=
  match o with
  | WEq => (true, BO_EQ) | WNe => (true, BO_NE)
  | WLtS => (true, BO_LT) | WLtU => (false, BO_LT) | WGtS => (true, BO_GT) | WGtU => (false, BO_GT)
  | WLeS => (true, BO_LE) | WLeU => (false, BO_LE) | WGeS => (true, BO_GE) | WGeU => (false, BO_GE)
  | WAdd => (true, BO_ADD) | WSub => (true, BO_SUB) | WMul => (true, BO_MUL)
  | WDivS => (true, BO_DIV_S) | WDivU => (false, BO_DIV) | WRemS => (true, BO_REM_S) | WRemU => (false, BO_REM_U)
  | WAnd => (true, BO_AND) | WOr => (true, BO_OR) | WXor => (true, BO_XOR)
  | WShl => (true, BO_SHL) | WShrS => (true, BO_SHR) | WShrU => (false, BO_SHR)
  | WRotl => (false, BO_ROTL) | WRotr => (false, BO_ROTR)
  end.
Definition int_of (N : Z) (sgn : bool) : int_ty :=
  match N =? 32, sgn with true, true => TI32 | true, false => TU32 | false, true => TI64 | false, false => TU64 end.

Lemma numeric_case op N o :
  wop_of op = Some (N, o) -> (N = 32 \/ N = 64) /\
  numericCase op = Some (IBinary (NI (int_of N (implementation o).1)) (implementation o).2).
Proof.
  assert (forall base N0 (l : list wop) n,
    (forall k o', l !! k = Some o' -> numericCase (base + Z.of_nat k) = Some (IBinary (NI (int_of N0 (implementation o').1)) (implementation o').2)) ->
    (N0 = 32 \/ N0 = 64) -> base <= op -> n = Z.to_nat (op - base) -> pair N0 <$> l !! n = Some (N, o) ->
    (N = 32 \/ N = 64) /\ numericCase op = Some (IBinary (NI (int_of N (implementation o).1)) (implementation o).2)) as Htab.
  { intros base N0 l n Hl HN Hle -> E. apply fmap_Some in E as (o' & Ho & [= -> ->]). split; [done|].
    specialize (Hl _ _ Ho). by replace (base + Z.of_nat (Z.to_nat (op - base))) with op in Hl by lia. }
  unfold wop_of, in_range.
  destruct ((_ <=? _) && (_ <=? _)) eqn:E1 in |- *; [apply andb_true_iff in E1 as [E1%Z.leb_le _]|clear E1].
  { apply (Htab 0x46); [|by left|done|done]. intros k o'. unfold comparisons. do 10 (destruct k as [|k]; [by intros [= <-]|]). done. }
  destruct ((_ <=? _) && (_ <=? _)) eqn:E1 in |- *; [apply andb_true_iff in E1 as [E1%Z.leb_le _]|clear E1].
  { apply (Htab 0x51); [|by right|done|done]. intros k o'. unfold comparisons. do 10 (destruct k as [|k]; [by intros [= <-]|]). done. }
  destruct ((_ <=? _) && (_ <=? _)) eqn:E1 in |- *; [apply andb_true_iff in E1 as [E1%Z.leb_le _]|clear E1].
  { apply (Htab 0x6a); [|by left|done|done]. intros k o'. unfold arithmetic. do 15 (destruct k as [|k]; [by intros [= <-]|]). done. }
  destruct ((_ <=? _) && (_ <=? _)) eqn:E1 in |- *; [apply andb_true_iff in E1 as [E1%Z.leb_le _]|done].
  apply (Htab 0x7c); [|by right|done|done]. intros k o'. unfold arithmetic. do 15 (destruct k as [|k]; [by intros [= <-]|]). done.
Qed.

Lemma int_of_wide N sgn : (N = 32 \/ N = 64) -> wide_int (int_of N sgn) N /\ Signed (int_of N sgn) = sgn.
Proof. intros [-> | ->]; destruct sgn; (split; [split; [auto|done]|done]). Qed.

Lemma operator_exact N o i j :
  (N = 32 \/ N = 64) -> in_u N i -> in_u N j ->
  let T := int_of N (implementation o).1 in
  res_bits (NI T) (implementation o).2 (BinaryOpHelper (NI T) (implementation o).2 (val T i) (val T j)) =
    Some (cxx_res N o i j).
Proof.
  intros HN Hi Hj. cbn zeta. destruct (int_of_wide N (implementation o).1 HN) as [HT Hs].
  pose proof (val_eq _ N i j HT Hi Hj) as Heq. pose proof HT as [_ Eb].
  destruct o; cbn [implementation fst snd] in *;
    try (cbn [BinaryOpHelper opCompare res_bits ret_type]; rewrite compare_exact; unfold cxx_res; cbn [wop_res cxx_undefined];
         unfold val; rewrite ?Hs, ?Eb; rewrite ?Z.gtb_ltb, ?Z.geb_leb; done).
  - cbn [BinaryOpHelper opCompare res_bits ret_type]. by rewrite compare_exact, Heq.
  - cbn [BinaryOpHelper opCompare res_bits ret_type]. by rewrite compare_exact, Heq.
  - by apply add_exact.
  - by apply sub_exact.
  - by apply mul_exact.
  - by apply divs_exact.
  - by apply divu_exact.
  - by apply rems_exact.
  - by apply remu_exact.
  - by apply and_exact.
  - by apply or_exact.
  - by apply xor_exact.
  - by apply shl_exact.
  - rewrite shr_exact with (N := N) by auto. by rewrite Hs.
  - rewrite shr_exact with (N := N) by auto. by rewrite Hs.
  - by apply rotl_exact.
  - by apply rotr_exact.
Qed.

(** ** Counts of bits *)

Inductive wcount : Type := WClz | WCtz | WPopcnt.

Definition wcount_of (op : Z) : option (Z * wcount) :=
  match op with
  | 0x67 => Some (32, WClz) | 0x68 => Some (32, WCtz) | 0x69 => Some (32, WPopcnt)
  | 0x79 => Some (64, WClz) | 0x7a => Some (64, WCtz) | 0x7b => Some (64, WPopcnt)
  | _ => None
  end.

(** [r] is the count of the bits of [i]: the zeros before its first one, those
    after its last one, its ones. *)
Definition counts_bits (N : Z) (o : wcount) (i r : Z) : Prop :=
  match o with
  | WClz => if i =? 0 then r = N else r = N - 1 - Z.log2 i
  | WCtz => if i =? 0 then r = N else 0 <= r < N /\ Z.testbit i r = true /\ forall k, 0 <= k < r -> Z.testbit i k = false
  | WPopcnt => r = foldr (fun k a => b2z (Z.testbit i k) + a) 0 (seqZ 0 N)
  end.

Lemma clz_exact fuel v num idx :
  0 < v -> Z.log2 v <= idx < Z.of_nat fuel -> clzLoop fuel v num idx = num + (idx - Z.log2 v).
Proof.
  revert num idx. induction fuel as [|fuel IH]; intros num idx Hv Hi; [pose proof (Z.log2_nonneg v); lia|]. cbn [clzLoop].
  destruct (decide (idx = Z.log2 v)) as [->|Hne].
  - rewrite Z.bit_log2 by done. lia.
  - rewrite Z.bits_above_log2 by lia. rewrite IH by lia. lia.
Qed.

Lemma ctz_exact fuel N v idx :
  0 < v < 2 ^ N -> (forall k, 0 <= k < idx -> Z.testbit v k = false) -> 0 <= idx -> Z.log2 v - idx < Z.of_nat fuel ->
  let r := ctzLoop fuel N v idx idx in
  0 <= r < N /\ Z.testbit v r = true /\ forall k, 0 <= k < r -> Z.testbit v k = false.
Proof.
  revert idx. induction fuel as [|fuel IH]; intros idx Hv Hk Hi Hf; cbn [ctzLoop].
  - assert (Z.testbit v (Z.log2 v) = false) as E by (apply Hk; pose proof (Z.log2_nonneg v); lia).
    rewrite Z.bit_log2 in E by lia. done.
  - assert (Z.log2 v < N) as Hlog by (apply Z.log2_lt_pow2; lia).
    destruct (Z.testbit v idx) eqn:Eb; cbn [negb andb].
    + split_and!; [lia| |done|done]. destruct (Z.lt_ge_cases (Z.log2 v) idx); [|lia].
      rewrite Z.bits_above_log2 in Eb by lia. done.
    + assert (idx <= Z.log2 v) as Hle.
      { destruct (Z.le_gt_cases idx (Z.log2 v)) as [|Hgt]; [done|]. rewrite <- (Hk (Z.log2 v)) in Eb by (pose proof (Z.log2_nonneg v); lia).
        assert (Z.testbit v (Z.log2 v) = false) as E by (apply Hk; pose proof (Z.log2_nonneg v); lia).
        rewrite Z.bit_log2 in E by lia. done. }
      rewrite (proj2 (Z.leb_le _ _)) by lia. apply IH; [done| |lia|lia]. intros k Hk'.
      destruct (decide (k = idx)) as [->|]; [done|]. apply Hk. lia.
Qed.

Lemma popcount_exact n v : bitCount n v = foldr (fun k a => b2z (Z.testbit v k) + a) 0 (seqZ 0 (Z.of_nat n)).
Proof.
  revert v. induction n as [|n IH]; intros v; [done|]. cbn [bitCount]. rewrite seqZ_cons by lia. cbn [foldr].
  rewrite Z.bit0_odd. f_equal. rewrite IH. replace (Z.pred (Z.of_nat (S n))) with (Z.of_nat n) by lia.
  change (Z.succ 0) with (1 + 0). rewrite <- (fmap_add_seqZ 1 0). generalize (Z.of_nat n) as m. intros m.
  assert (forall l, Forall (fun k => 0 <= k) l -> foldr (fun k a => b2z (Z.testbit (Z.div2 v) k) + a) 0 l =
    foldr (fun k a => b2z (Z.testbit v k) + a) 0 (Z.add 1 <$> l)) as H.
  { intros l Hl. induction Hl as [|k l Hk _ IHl]; [done|]. cbn. rewrite IHl, Z.div2_spec, Z.shiftr_spec by lia.
    by rewrite (Z.add_comm k 1). }
  apply H. apply Forall_forall. intros k Hk%list_elem_of_In%elem_of_seqZ. lia.
Qed.

(** ** The theorems *)

(** C27. Each binary integer instruction of the interpreter computes the operator
    the WebAssembly specification gives for its opcode, on the bits of its
    operands, and traps exactly where that operator does, but where the C++
    operator it uses is undefined, which is exactly in these cases: a signed
    addition, subtraction or multiplication that overflows, a shift by the
    width or more, a left shift of a negative number or beyond the unsigned
    type. *)
Theorem integer_instructions_exact op N o i j :
  wop_of op = Some (N, o) -> in_u N i -> in_u N j ->
  exists T Op, numericCase op = Some (IBinary (NI T) Op) /\ bits T = N /\
    res_bits (NI T) Op (BinaryOpHelper (NI T) Op (of_bits (NI T) i) (of_bits (NI T) j)) =
      Some (match cxx_undefined N o i j with Some e => inl e | None => wop_res N o i j end).
Proof.
  intros Ho Hi Hj. destruct (numeric_case _ _ _ Ho) as [HN Hc]. destruct (int_of_wide N (implementation o).1 HN) as [HT _].
  eexists _, _. split_and!; [exact Hc|apply HT|]. rewrite !(value_bits _ N) by done. by apply operator_exact.
Qed.


(** ** Witnesses *)

(** [i32.sub] of 3 and 5, and [i32.clz] of 0x100. *)
Lemma integer_instructions_exact_witness : exists T Op,
  numericCase 0x6b = Some (IBinary (NI T) Op) /\ bits T = 32 /\
  res_bits (NI T) Op (BinaryOpHelper (NI T) Op (of_bits (NI T) 3) (of_bits (NI T) 5)) = Some (inr 0xfffffffe).
Proof.
  apply (integer_instructions_exact 0x6b 32 WSub 3 5 eq_refl); vm_compute; split; [discriminate|reflexivity|discriminate|reflexivity].
Defined.

