(* ===== verification/LoaderTypedTheorems.v ===== *)
(** What the interpreter may rely on in a body that [FunctionLoader::load] has
    accepted: its instructions, patched, are typed, and its blocks are found. *)

From stdpp Require Import gmap.
From S2P Require Import Prelude Intx Leb128 WasmNum FunctionLoader FunctionLoaderInv FunctionLoaderTheorems WasmValid WasmInterp WasmTyped WasmBlocks WasmSafeInv LoaderTyped.

#[local] Open Scope Z_scope.

Section Claims.
Context (wide_shift : Z -> Z -> Z) (M : Module_) (F : TypeEntry) (Locals : list WASMType).
Hypothesis HM : mod_ok M.
Hypothesis HF : type_ok F.
Hypothesis HL : Forall FunctionLoaderInv.is_val Locals.

(** C31. A body that [FunctionLoader::load] accepts without a value of unknown
    type on its type stack is, as the loader leaves it, a sequence of
    instructions of the WebAssembly grammar that takes the specification's
    validation from the start to the end of the function, where each [drop] and
    [select] carries the opcode for the width of its operand; the stack size
    and the block depth recorded are enough for every instruction, and blocks
    nest no deeper than the body has bytes. *)
Theorem accepted_body_typed Code s :
  Forall is_byte Code -> Z.of_nat (length Code) <= 2 ^ 24 -> load wide_shift M F Locals Code = Ret tt s ->
  Forall (fun v => ANY ∉ ValueTypes v) (trace wide_shift M F Locals Code) ->
  exists pts vend, body_typed M F Locals Code s pts vend.
Proof. by apply load_typed. Qed.

(** C34. On such a body the interpreter's scan over the bytes after the start of
    a block ([findBlockAddr]), whatever earlier scans have put into the cache,
    finds the addresses of the matching ELSE, if there is one, and of the
    matching END, as counting the openings and closings of blocks among the
    instructions does; what it caches is as exact. *)
Theorem block_addresses_exact Code s f :
  Forall is_byte Code -> Z.of_nat (length Code) <= 2 ^ 24 -> load wide_shift M F Locals Code = Ret tt s ->
  Forall (fun v => ANY ∉ ValueTypes v) (trace wide_shift M F Locals Code) ->
  exists pts, LCode s = concat (map pt_bytes pts) /\
    forall bodies k cache, bodies f = Some pts -> block_at pts k -> cache_ok bodies cache ->
    exists cache', scanLoop wide_shift (length (LCode s)) f (length (LCode s)) (drop (pos pts (S k)) (LCode s)) 1
        {[0 := pos pts (S k)]} cache = Some (cache', entry pts k) /\ cache_ok bodies cache'.
Proof.
  intros Hb Hl E Hany. destruct (load_typed wide_shift M F Locals HM HF HL Code s Hb Hl E Hany) as (pts & vend & [[Hc Hend Hcode] _ _ _ _]).
  exists pts. split; [done|]. intros bodies k cache Hbody Hk Hcache. rewrite Hcode.
  by apply (scan_ok wide_shift bodies M F Locals f pts vend Hc Hend Hbody).
Qed.
End Claims.

(** ** Witnesses *)

Lemma countdown_quiet :
  Forall (fun v => ANY ∉ ValueTypes v) (trace (fun _ _ => 0) demo_module (mkType [I32] [I32]) [] countdown).
Proof. vm_compute. repeat (apply Forall_cons_2; [apply (bool_decide_unpack (_ ∉ _)); vm_compute; exact I|]). apply Forall_nil_2. Qed.

Lemma accepted_body_typed_witness : exists s pts vend,
  load (fun _ _ => 0) demo_module (mkType [I32] [I32]) [] countdown = Ret tt s /\
  body_typed demo_module (mkType [I32] [I32]) [] countdown s pts vend.
Proof.
  eexists. cut (forall s, load (fun _ _ => 0) demo_module (mkType [I32] [I32]) [] countdown = Ret tt s -> exists pts vend,
    body_typed demo_module (mkType [I32] [I32]) [] countdown s pts vend).
  - intros H. edestruct H as (pts & vend & Hb); [vm_compute; reflexivity|]. exists pts, vend. split; [vm_compute; reflexivity|exact Hb].
  - intros s E. apply (accepted_body_typed (fun _ _ => 0) demo_module (mkType [I32] [I32]) [] demo_module_ok);
      [by repeat constructor|constructor|by repeat constructor|by vm_compute|exact E|exact countdown_quiet].
Defined.

Lemma block_addresses_exact_witness : exists s pts,
  load (fun _ _ => 0) demo_module (mkType [I32] [I32]) [] countdown = Ret tt s /\ LCode s = concat (map pt_bytes pts) /\
  forall bodies k cache, bodies 0%nat = Some pts -> block_at pts k -> cache_ok bodies cache ->
  exists cache', scanLoop (fun _ _ => 0) (length (LCode s)) 0 (length (LCode s)) (drop (pos pts (S k)) (LCode s)) 1
      {[0 := pos pts (S k)]} cache = Some (cache', entry pts k) /\ cache_ok bodies cache'.
Proof.
  eexists. cut (forall s, load (fun _ _ => 0) demo_module (mkType [I32] [I32]) [] countdown = Ret tt s -> exists pts,
    LCode s = concat (map pt_bytes pts) /\
    forall bodies k cache, bodies 0%nat = Some pts -> block_at pts k -> cache_ok bodies cache ->
    exists cache', scanLoop (fun _ _ => 0) (length (LCode s)) 0 (length (LCode s)) (drop (pos pts (S k)) (LCode s)) 1
        {[0 := pos pts (S k)]} cache = Some (cache', entry pts k) /\ cache_ok bodies cache').
  - intros H. edestruct H as (pts & Hp); [vm_compute; reflexivity|]. exists pts. split; [vm_compute; reflexivity|exact Hp].
  - intros s E. refine (block_addresses_exact (fun _ _ => 0) demo_module (mkType [I32] [I32]) [] demo_module_ok _ _ countdown s 0 _ _ E countdown_quiet);
      [by repeat constructor|constructor|by repeat constructor|by vm_compute].
Defined.
